(* ===== verification/_CoqProject ===== *)
-Q . S2P
Prelude.v
Machine.v
Bitmap.v
LinkedList.v
CallSite.v
Regs.v
RegsAArch64.v
RegsX86.v
Context.v
Lookup.v
Unwind.v
Data.v
Rewrite.v
Effects.v
Sample.v
FramePlan.v
Frame.v
Transform.v
UnwindWalk.v
Init.v
Userspace.v
StackMap.v
WriteMeta.v
CheckMaps.v
LibElf.v
ElfUpdate.v
ElfUtil.v
WriteElf.v
ElfSpec.v
ElfDesc.v
ElfRoundtrip.v
ElfTool.v
ElfAdd.v
ElfUnwind.v
ElfPlace.v
ElfMetadata.v
ElfMain.v
ElfOutput.v
ToolRuntime.v
ElfSample.v
Schedule.v
Barrier.v
ThreadPool.v
Parallel.v
Lock.v
Mutex.v
Critical.v
CondVar.v
CondSpec.v
CondLists.v
CondProof.v
CondWait.v
PoolWait.v
Region.v
ForkJoin.v
Migration.v
IR.v
LoopNest.v
LiveValues.v
Cfg.v
LoopNestProof.v
LiveSpec.v
LiveProof.v
CfgCheck.v
LiveResults.v
InsertStackMaps.v
InsertProof.v
MachineIR.v
StackTransform.v
TargetValues.v
CopySearch.v
AltLocs.v
AltResults.v
CopySem.v
AltSample.v
AltAccount.v
EmitMaps.v
ArchValues.v
OperandMaps.v
