(* ===== verification/Prelude.v ===== *)
(** * Popcorn, in Rocq

    Popcorn runs one multi-threaded C program on machines with different
    instruction sets.  Its compiler emits a binary per architecture with all
    symbols at the same addresses and with metadata about every call site; at
    run time a thread that migrates gets its stack and registers rewritten from
    the layout of one architecture to that of the other.  This library models
    the parts of the repository that are its own logic and proves what makes
    them correct.

    ** The program's parts

    - Passes added to the compiler (src/patches/llvm/src) find the values that
      are live at every call and record them in stack maps.
    - The metadata tool (src/tool/stack_metadata) turns the compiler's stack
      maps into the sections that the runtime reads, adds them to the binary
      with libelf (src/lib/libelf), and compares the stack maps of the two
      binaries.
    - The stack transformation runtime (src/lib/stack_transformation) opens the
      binary with libelf; it takes a source register set, stack and binary, and
      builds the destination's.
    - The migration library (src/lib/migration) is called at every function's
      entry and exit: it asks the kernel where the thread should run, has the
      runtime rewrite the stack, and lets the kernel resume the thread there.
    - The OpenMP runtime (src/lib/libbomp) runs parallel regions on a pool of
      threads, distributes loops and provides barriers and critical sections.
    - The C library (src/lib/musl-1.1.10), where Popcorn replaced the futexes of
      mutexes and condition variables by loops that only use shared memory.

    The compiler's output is the tool's input ([InsertStackMaps],
    [StackTransform], [EmitMaps], [StackMap]);
    the tool's output is the runtime's ([WriteElf], [LibElf], [Init]); the
    migration library calls the runtime through its user-space part
    ([Migration], [Userspace], [Rewrite]); the OpenMP runtime's pool waits with
    the C library's condition variables ([ThreadPool], [CondVar], [PoolWait]).

    ** Conventions

    A C integer is a [Z] in its type's range, with the wrap-around or the
    undefined overflow written out ([wrap], [signed], [Schedule.arith]).  A call
    has an [outcome]: it returns, leaves through [exit], runs into undefined
    behaviour ([Fault]) or exhausts the fuel that stands for its loops
    ([Spin]).  Code that works on raw memory is in the monad [Machine.M] over a
    memory of bytes and live objects, in which an access outside an object is
    [Fault].  Code that works on its own structs uses records and [outcome];
    libelf's functions are in a state and error monad over a descriptor
    ([LibElf]), and the tool's in one over the process's files and descriptors
    ([ElfUtil]).  Concurrent code is a step function over a shared state; a
    schedule, the list of the threads that step, is universally quantified, and
    memory is sequentially consistent.  Code outside src/ (LLVM, the operating
    system, [qsort], the compiler's generated code) is a parameter or a type
    class.

    ** Files

    Foundations:
    - [Prelude]: this file; outcomes, machine integers, list access by a [Z],
      shared lemmas and the hint database [popcorn].
    - [Machine]: memory, loads and stores, memcpy, memset, malloc, calloc, free;
      which bytes an operation writes ([only_writes]).

    Stack transformation (src/lib/stack_transformation):
    - [Bitmap] (include/bitmap.h), [LinkedList] (include/list.h), [CallSite]
      (call_site.h in src/common): the data structures; a bitmap implements a
      set, a list a sequence; the layout of the packed records is written as a
      pair of inverse codecs, which the C code has no functions for.
    - [Regs] (include/regs.h, include/properties.h): the two structs of function
      pointers as records, with the class [RegLaws] of what the portable code
      relies on; [RegsAArch64] and [RegsX86] (src/arch) are its instances, and
      [Context.architectures_well_formed] states the laws of both.
    - [Context] (include/definitions.h), [Lookup] (the searches of src/util.c):
      handles, activations and contexts; the searches return exactly the record
      asked for.
    - [Unwind] (src/unwind.c): popping a frame restores exactly the saved
      registers.  [Data] (src/data.c): where a value lives, and which pointers
      lead into the stack.
    - [Rewrite] (src/rewrite.c): the transformation itself.  [Effects] shows
      which objects and nodes each operation allocates and frees and that it
      ends; [Transform] has the properties of whole transformations;
      [UnwindWalk] specifies the frames on a stack, as the records of the
      metadata describe them, and shows that unwinding finds them; [Sample] runs
      a transformation from x86-64 to aarch64.
    - [FramePlan] and [Frame]: an abstract specification of rewriting a frame, a
      plan of independent writes, and the proof that src/rewrite.c performs it,
      the deferred pointers included.
    - [Init] (src/init.c): opening and closing a binary.  [Userspace]
      (src/userspace.c): the stack's bounds and halves, the library's
      constructor and destructor.

    Metadata tool (src/tool/stack_metadata) and libelf (src/lib/libelf/lib):
    - [StackMap] (src/stackmap.c) reads the compiler's sections, [WriteMeta]
      (src/write.c, include/arch.h) builds the runtime's records, [CheckMaps]
      (utils/check_stackmaps.c) compares two binaries.
    - [LibElf] (begin.c, cook.c, getdata.c, newscn.c, strptr.c and others):
      a descriptor with its headers, sections and data, and the functions that
      read and edit it.  [ElfUpdate] (update.c): laying out and writing the file.
    - [ElfUtil] (src/util.c): looking for sections and symbols, adding and
      updating sections.  [WriteElf] (src/write.c, src/bin.c, src/main.c): the
      whole tool on a file.
    - [ElfSpec] (the header codecs are inverse), [ElfDesc] (descriptors that can
      be written), [ElfRoundtrip]: what is written is what is read.
    - [ElfTool], [ElfAdd], [ElfUnwind], [ElfPlace], [ElfMetadata], [ElfMain]: what
      each function of the tool does to a descriptor, from the helpers to main;
      [ElfOutput]: the file main leaves.  [ElfSample] has a binary on which all
      of it runs.
    - [ToolRuntime]: the runtime opens the tool's file, through the same libelf.

    Migration (src/lib/migration):
    - [Migration] (src/migrate.c and the arch headers): the shim, before and
      after the thread has changed the machine.

    OpenMP (src/lib/libbomp):
    - [Schedule] (the loop schedules of kmp.c), [Barrier] and [Critical] (spin.h
      and its users), [ThreadPool] (popcorn_threadpool.c), [Parallel] (omp.c,
      processing.c, linux_backend.c, the region calls of parallel.c and kmp.c).
    - [Region] puts the pool, the barrier and the region calls together as one
      transition system of a master and its workers; [ForkJoin] proves it
      correct.

    C library (src/lib/musl-1.1.10):
    - [Lock]: what a lock promises its users, as a class with its theorems; both
      [Critical]'s spin lock and [Mutex] are instances.
    - [Mutex] (pthread_mutex_lock.c, pthread_mutex_timedlock.c,
      pthread_mutex_trylock.c, pthread_mutex_unlock.c, __timedwait.c).
    - [CondVar] (pthread_cond_timedwait.c): condition variables, an access to
      memory at a time.  [CondSpec] is what they promise, [CondLists] the list
      of waiters, [CondProof] the invariant and the simulation, [CondWait] the
      theorems.
    - [PoolWait]: the pool's client code over [CondVar].

    Compiler (src/patches/llvm/src):
    - [IR]: what the passes ask LLVM of a function.
    - [LoopNest] (LoopNestingTree.cpp), [LiveValues] (LiveValues.cpp): loop
      nests, and the values live into and out of every block.
    - [InsertStackMaps] (InsertStackMaps.cpp): a stack map after every call.
    - [Cfg] and [LiveSpec]: control-flow graphs with the laws of LLVM's analyses
      and of SSA form ([CfgLaws], [StrictSSA]), and liveness as a relation;
      [CfgCheck] decides the laws on a given function.
    - [LoopNestProof], [LiveProof], [LiveResults], [InsertProof]: the proofs.
    - [MachineIR] (StackTransformTypes.h and MachineFunction of the LLVM patch),
      [StackTransform] (StackTransformMetadata.cpp): machine code as the pass
      sees it, and the pass that finds further places of a stack map's values.
    - [CopySearch] and [AltLocs]: the search finds what copies connect;
      [AltResults], [AltAccount]: what is recorded, and what is warned about;
      [CopySem]: what copies mean; [AltSample]: functions on a small target.
    - [TargetValues] (AArch64Values.cpp, X86Values.cpp): the values that the
      targets know how to generate again.  [EmitMaps] (StackMaps.cpp as the patch
      leaves it): the bytes of a stack map's operands, their further locations
      and the generated values.
    - [ArchValues]: from the instruction that made a value to the value that
      the runtime stores.  [OperandMaps]: the records of the operands are the
      groups that the runtime walks; when two targets' records match.

    ** What the theorems show

    Transformation.  [Frame.rewrite_frame_correct]: on a frame whose locations
    are known and apart, and that does not meet the defect of
    [Transform.fixup_local_pointers_diverges], every copied value has the
    source's bytes and every pointer to one of the frame's objects, met before
    or after the object or left over from inner frames, points to the same
    offset of the copy.  [UnwindWalk.unwind_and_size_walks]: the activations are
    the frames that the stack's metadata describes, found with their call sites,
    CFAs and return addresses.  [Unwind.pop_frame_restores],
    [Data.callee_saved_loc_is_unwound], [Transform.unwind_and_size_matches]: the
    frames found on the source stack are those laid out on the destination, and
    a callee-saved register is written where unwinding will read it.
    [Transform.st_rewrite_stack_frees_all]: a transformation frees what it
    allocates, the nodes of its lists included.  [Sample.sample_transformation]
    is a complete run.

    Metadata.  [StackMap.init_stackmap_reads],
    [WriteMeta.call_site_metadata_correct], [Init.st_init_reads_metadata],
    [Lookup.site_lookups_correct] and [Lookup.function_lookup_encloses] follow a record from the compiler's
    section through the tool to the runtime's searches.
    [ElfRoundtrip.elf_update_roundtrip], [ElfOutput.main_writes_metadata] and
    [ToolRuntime.tool_output_serves_runtime] do the same for the file: what
    libelf writes it reads back, the tool leaves a binary with the old sections
    and the new ones, and the runtime opens it.

    Process.  [Init.st_init_releases], [Userspace.binary_lifecycle]: nothing
    leaks, but for the case the theorem names.  [Userspace.rewrite_uses_other_half],
    [Userspace.prep_stack_bounds], [Migration.migration_resumes]: the thread is
    rewritten into the other half of its stack and resumes where it left, after
    its callback has run once.

    OpenMP.  [ForkJoin.parallel_region_correct] and
    [ForkJoin.parallel_region_returns]: under every interleaving each thread of
    a team does its part once, in phases that barriers separate, nothing is used
    before it exists or after it is gone, and the call returns when the pool has
    a worker for every other member.  Both ask for a barrier made for the team
    ([ForkJoin.fork_ready]); [ForkJoin.start_up_readies_team]: the start-up makes
    it for one thread less, and [omp_set_num_threads] with another number sets
    it right.  [Schedule.static_schedule_partitions] and
    [Schedule.chunked_schedule_partitions]: each iteration of a loop that fits
    its type is done once.
    [Barrier.barrier_separates_rounds], [Barrier.barrier_releases],
    [ThreadPool.pool_runs_every_task], [Critical.critical_sections_serialize]:
    the components.

    C library.  [Mutex.mutex_serializes]: sections under a mutex happen one
    after the other.  [CondWait.cond_refines]: every run of the waiters' list is
    one of the specification, in which only a signal or its deadline ends a
    thread's wait; [CondWait.signals_arrive]: signalled threads come back.
    [PoolWait.pool_wakes]: no worker sleeps while the pool has work for it.

    Compiler.  [LiveResults.live_values_correct]: one traversal and one
    propagation per loop nest give the least solution of the liveness equations.
    [InsertProof.stackmaps_inserted]: every call gets the stack map of its live
    values and of those hidden from the analysis, in the order of their names.
    [AltResults.alternate_locations_exact],
    [CopySem.alternate_locations_agree], [AltAccount.live_places_accounted]: the
    search for further locations finds all and only those that copies connect to
    a value, they hold the value when each place is written once, and what is
    live across a call is recorded or warned about, for the values that
    [TargetValues] gives on instructions with the operands it asserts.
    [ArchValues.target_values_rebuilt]: from the emitted bytes the runtime
    computes the value that the instructions made, but for those of
    [ArchValues.target_values_wrong].
    [OperandMaps.operands_emitted], [OperandMaps.stack_maps_match]: every operand
    becomes one record and its duplicates; two architectures' records pair up,
    and pass the tool's check exactly when the sizes recorded agree.

    Defects.  Some theorems state behaviour that is wrong and are named for it:
    [Transform.fixup_local_pointers_diverges],
    [Unwind.bitmap_pool_holds_64_frames], [Data.apply_arch_operation_spec],
    [ForkJoin.start_up_readies_team], [Migration.failed_migration_dangles],
    [Barrier.lingering_thread_misses], [Critical.nested_critical_waits],
    [Parallel.nested_is_dynamic], [Parallel.no_pool_no_region],
    [Schedule.unsigned_step_skips], [CheckMaps.check_stackmaps_misses],
    [Init.st_init_needs_arch_section], [Mutex.timedwait_misses_deadline],
    [LiveResults.live_values_missed], [AltSample.alternate_location_wrong],
    [ArchValues.target_values_wrong].

    ** Fuel and bounds

    [Rewrite.unwind_fuel] is [MAX_FRAMES + 1]: each iteration takes a new one of
    the 512 activations or ends.  [Rewrite.live_fuel] is one more than the
    number of live values, over which the loops on records and duplicates
    advance.  [Rewrite.fixup_fuel] is one more than the nodes of the list.  The
    searches of [Lookup] get one more than the number of records, which their
    range loses in each iteration.  [fixup_local_pointers] can run forever, so
    [rewrite_frame] and everything above it take the fuel of its loop as an
    argument, and the theorems say which is enough.  [st_init]'s fuel bounds the
    walk over the file's sections, [count_maps]'s the stack maps of a section,
    [list_clear]'s the nodes; their theorems prove them enough.  The loops over
    a tree of loops take fuel, of which there is always enough
    ([LoopNestProof.forest_spec]).  [findAlternateVregLocs] takes a round for
    every register and one for every element of its queue, of which an
    instruction adds one.  Schedules are arbitrary lists;
    [ForkJoin.parallel_region_returns] gives the number of fair rounds after
    which a region has ended.

    ** Configuration

    The default config.h: no checks, timing or logging, contexts from malloc,
    thread stacks from PTHREAD_TLS.  Both architectures as source and as
    destination.  Heterogeneous migration, through the kernel's shared page or
    through environment variables.  64-bit ELF files in the machine's byte
    order.  Mutexes of the normal type and condition variables of one process;
    x86-64's atomic instructions.  A section under a condition variable's
    internal lock that only touches what it protects is one step.

    ** Not modelled

    - The inline assembly that reads or sets a running thread's registers, and
      the assembly of the arch directories: a thread's registers are parameters.
    - bitmap_clear, which does not compile where expanded and is not used.
    - libelf's archives, 32-bit and byte-swapped files, and the 32-bit API.
    - Native (same-architecture) migration and its timing.
    - omp_get_wtime, the creation of threads pinned to cores, self_info.c.
    - Recursive, error-checking, robust and shared mutexes, cancellation, and
      the rest of the C library, which is vendored.
    - Weak memory: the steps of concurrent code are sequentially consistent; the
      hints [wfe] and [pause], which access nothing, are not steps.
    - Failures of the metadata tool's unchecked allocations.
    - The rest of the compiler's back end: UnwindInfo.cpp, and those parts of
      the diffs against LLVM, clang and gold that change code which is not in
      the repository, such as live-out masks and the pool of large constants.
    - Command-line tools that print sections, timers, logging, the scripts for
      symbol alignment and stack-depth instrumentation.

    ** What could come next

    The composition of [Frame.rewrite_frame_correct] over all frames of
    [st_rewrite_stack]; reductions inside [Region]'s microtasks; the remaining
    kinds of mutexes; the headers of the sections that the back end emits, and
    UnwindInfo.cpp. *)

From stdpp Require Export base tactics numbers list list_numbers option gmap fin_maps.
From Stdlib Require Export ZArith Lia.

#[global] Open Scope Z_scope.

(** ** Outcomes

    What a call of the C program can do: return, leave through [exit] (the
    macro [ST_ERR] of include/definitions.h), run into undefined behaviour (a
    wild access, a double free, an invalid shift), or exhaust the fuel that
    stands for the iterations of a loop. *)
Inductive outcome (A : Type) : Type :=
  | Ret (a : A)
  | Exit (code : Z)
  | Fault
  | Spin.

Arguments Ret {A} _.
Arguments Exit {A} _.
Arguments Fault {A}.
Arguments Spin {A}.

#[export] Instance outcome_ret : MRet outcome := fun A a => Ret a.

#[export] Instance outcome_bind : MBind outcome := fun A B f o =>
  match o with
  | Ret a => f a
  | Exit c => Exit c
  | Fault => Fault
  | Spin => Spin
  end.

#[export] Instance outcome_eq_dec {A} `{EqDecision A} : EqDecision (outcome A).
Proof. solve_decision. Defined.

(** An optional result, absent where the program would read out of range. *)
Definition get {A} (o : option A) : outcome A :=
  match o with Some a => Ret a | None => Fault end.

(** ** Machine integers

    Values of type [uintN_t] are integers in [0, 2^N); a conversion to such a
    type keeps the low bits.  [signed] is the value of the same bits read as a
    two's-complement integer. *)
Definition wrap (w z : Z) : Z := z mod 2 ^ w.

Definition signed (w z : Z) : Z :=
  let u := wrap w z in if u <? 2 ^ (w - 1) then u else u - 2 ^ w.

Abbreviation wrap64 := (wrap 64).
Abbreviation wrap32 := (wrap 32).
Abbreviation wrap16 := (wrap 16).
Abbreviation wrap8 := (wrap 8).
Abbreviation u64_max := (2 ^ 64 - 1).
Abbreviation u16_max := (2 ^ 16 - 1).
Abbreviation NULL := 0.

(** Truth value of a C expression. *)
Definition truthy (z : Z) : bool := negb (z =? 0).

(** ** Switch statements written as tables *)
Fixpoint switch {A} (k : Z) (rows : list (Z * A)) : option A :=
  match rows with
  | [] => None
  | (c, a) :: rows' => if k =? c then Some a else switch k rows'
  end.

(** ** List access with an index of type Z *)
Definition znth {A} (l : list A) (i : Z) : option A :=
  if decide (0 <= i) then l !! Z.to_nat i else None.

Definition zupd {A} (l : list A) (i : Z) (x : A) : option (list A) :=
  if decide (0 <= i < Z.of_nat (length l)) then Some (<[Z.to_nat i := x]> l)
  else None.

Definition zlen {A} (l : list A) : Z := Z.of_nat (length l).

(** ** Facts *)

Lemma wrap_range w z : 0 <= w -> 0 <= wrap w z < 2 ^ w.
Proof. intros; unfold wrap; apply Z.mod_pos_bound; lia. Qed.

Lemma wrap_small w z : 0 <= z < 2 ^ w -> wrap w z = z.
Proof. intros; unfold wrap; by apply Z.mod_small. Qed.

Lemma wrap_wrap w z : 0 <= w -> wrap w (wrap w z) = wrap w z.
Proof. intros; apply wrap_small, wrap_range; lia. Qed.

Lemma wrap_add_l w a b : wrap w (wrap w a + b) = wrap w (a + b).
Proof.
  unfold wrap. destruct (decide (2 ^ w = 0)) as [e|]; [by rewrite e, !Z.mod_0_r|].
  by rewrite Z.add_mod_idemp_l.
Qed.

Lemma signed_range w z : 0 < w -> - 2 ^ (w - 1) <= signed w z < 2 ^ (w - 1).
Proof.
  intros Hw. unfold signed. pose proof (wrap_range w z ltac:(lia)).
  assert (2 ^ w = 2 * 2 ^ (w - 1)) by (rewrite <- Z.pow_succ_r by lia; f_equal; lia).
  destruct (Z.ltb_spec (wrap w z) (2 ^ (w - 1))); lia.
Qed.

Lemma signed_small w z : 0 < w -> - 2 ^ (w - 1) <= z < 2 ^ (w - 1) -> signed w z = z.
Proof.
  intros Hw Hz. unfold signed.
  assert (H2 : 2 ^ w = 2 * 2 ^ (w - 1)) by (rewrite <- Z.pow_succ_r by lia; f_equal; lia).
  destruct (decide (0 <= z)).
  - rewrite wrap_small by lia. destruct (Z.ltb_spec z (2 ^ (w - 1))); lia.
  - replace (wrap w z) with (z + 2 ^ w); [destruct (Z.ltb_spec (z + 2 ^ w) (2 ^ (w - 1))); lia|].
    unfold wrap. apply (Z.mod_unique_pos _ _ (-1)); lia.
Qed.

Lemma truthy_true z : truthy z = true <-> z <> 0.
Proof. unfold truthy. destruct (Z.eqb_spec z 0); naive_solver. Qed.

Lemma truthy_false z : truthy z = false <-> z = 0.
Proof. unfold truthy. destruct (Z.eqb_spec z 0); naive_solver. Qed.

Lemma get_Ret {A} (o : option A) a : get o = Ret a <-> o = Some a.
Proof. destruct o; simpl; naive_solver. Qed.

Lemma znth_lookup {A} (l : list A) i x :
  znth l i = Some x <-> 0 <= i /\ l !! Z.to_nat i = Some x.
Proof. unfold znth. case_decide; naive_solver lia. Qed.

Lemma znth_Some_range {A} (l : list A) i x :
  znth l i = Some x -> 0 <= i < zlen l.
Proof.
  intros [? H]%znth_lookup. apply lookup_lt_Some in H. unfold zlen. lia.
Qed.

Lemma znth_is_Some {A} (l : list A) i :
  0 <= i < zlen l -> exists x, znth l i = Some x.
Proof.
  unfold zlen. intros H.
  destruct (lookup_lt_is_Some_2 l (Z.to_nat i)) as [x Hx]; [lia|].
  exists x. apply znth_lookup. split; [lia|done].
Qed.

Lemma znth_elem {A} (l : list A) i x : znth l i = Some x -> x ∈ l.
Proof. intros [_ H]%znth_lookup. by eapply list_elem_of_lookup_2. Qed.

Lemma znth_None {A} (l : list A) i : zlen l <= i -> znth l i = None.
Proof.
  unfold zlen, znth. intros. case_decide; [|done].
  apply lookup_ge_None_2. lia.
Qed.

Lemma zupd_Some {A} (l : list A) i x :
  0 <= i < zlen l -> zupd l i x = Some (<[Z.to_nat i := x]> l).
Proof. unfold zupd, zlen. intros. by rewrite decide_True. Qed.

Lemma znth_zupd_eq {A} (l l' : list A) i x :
  zupd l i x = Some l' -> znth l' i = Some x.
Proof.
  unfold zupd. case_decide; [|done]. intros [= <-].
  apply znth_lookup. split; [lia|]. apply list_lookup_insert_eq. lia.
Qed.

Lemma znth_zupd_ne {A} (l l' : list A) i j x :
  zupd l i x = Some l' -> i <> j -> znth l' j = znth l j.
Proof.
  unfold zupd, znth. case_decide; [|done]. intros [= <-] ?.
  case_decide; [|done]. apply list_lookup_insert_ne. lia.
Qed.

Lemma zupd_length {A} (l l' : list A) i x : zupd l i x = Some l' -> zlen l' = zlen l.
Proof.
  unfold zupd, zlen. case_decide; [|done]. intros [= <-]. by rewrite length_insert.
Qed.

Lemma switch_In {A} k (rows : list (Z * A)) a :
  switch k rows = Some a -> (k, a) ∈ rows.
Proof.
  induction rows as [|[c b] rows IH]; simpl; [done|].
  destruct (Z.eqb_spec k c) as [->|]; [intros [= <-]; left | right; auto].
Qed.

Lemma switch_None {A} k (rows : list (Z * A)) :
  switch k rows = None <-> k ∉ rows.*1.
Proof.
  induction rows as [|[c b] rows IH]; simpl; [set_solver|].
  destruct (Z.eqb_spec k c) as [->|]; rewrite list.not_elem_of_cons; naive_solver.
Qed.

Lemma filter_none {A} (P : A -> Prop) `{!forall x, Decision (P x)} (l : list A) :
  (forall x, x ∈ l -> ~ P x) -> filter P l = [].
Proof.
  intros Hn. apply elem_of_nil_inv. intros x [Hp Hx]%list_elem_of_filter. by apply (Hn x).
Qed.

(** Counting the elements with a property. *)
Lemma count_insert {A} (P : A -> Prop) `{!forall x, Decision (P x)} (l : list A) i x y :
  l !! i = Some x ->
  (length (filter P (<[i := y]> l)) + (if decide (P x) then 1 else 0) =
   length (filter P l) + (if decide (P y) then 1 else 0))%nat.
Proof.
  revert i. induction l as [|z l IH]; intros [|i]; simpl; [done..| |].
  - intros [= ->]. rewrite !filter_cons. repeat case_decide; simpl; lia.
  - intros Hi. specialize (IH i Hi). rewrite !filter_cons. repeat case_decide; simpl in *; lia.
Qed.

Lemma sum_insert {A} (f : A -> nat) (l : list A) i x y :
  l !! i = Some x ->
  (sum_list_with f (<[i := y]> l) + f x = sum_list_with f l + f y)%nat.
Proof.
  revert i. induction l as [|z l IH]; intros [|i]; simpl; [done..| |].
  - intros [= ->]. lia.
  - intros Hi. specialize (IH i Hi). lia.
Qed.

Lemma Forall_count {A} (P : A -> Prop) `{!forall x, Decision (P x)} (l : list A) :
  length (filter P l) = length l -> Forall P l.
Proof.
  induction l as [|z l IH]; [constructor|]. rewrite filter_cons. case_decide; simpl; intros.
  - constructor; auto.
  - pose proof (length_filter P l). lia.
Qed.

Lemma count_Forall {A} (P : A -> Prop) `{!forall x, Decision (P x)} (l : list A) :
  Forall P l -> length (filter P l) = length l.
Proof. induction 1; [done|]. rewrite filter_cons, decide_True by done. simpl. by f_equal. Qed.

(** Finite checks by computation. *)
Lemma forallb_seqZ f n x :
  forallb f (seqZ 0 n) = true -> 0 <= x < n -> f x = true.
Proof.
  rewrite forallb_forall. intros H Hx. apply H.
  apply list_elem_of_In, elem_of_seqZ. lia.
Qed.

(** Case analysis on the outcome of the first step of a computation. *)
Lemma outcome_bind_Ret {A B} (o : outcome A) (f : A -> outcome B) b :
  (o ≫= f) = Ret b <-> exists a, o = Ret a /\ f a = Ret b.
Proof. destruct o; simpl; naive_solver. Qed.

Lemma last_seqZ m n : last (seqZ m n) = if decide (0 < n) then Some (m + n - 1) else None.
Proof.
  rewrite last_lookup, length_seqZ. case_decide; [|by rewrite seqZ_nil by lia].
  rewrite lookup_seqZ_lt by lia. f_equal. lia.
Qed.

(** Running a computation for each element of a list. *)
Lemma outcomes_exist {A B} (f : A -> outcome B) (P : A -> B -> Prop) (l : list A) :
  (forall x, x ∈ l -> exists y, f x = Ret y /\ P x y) ->
  exists ys, f <$> l = Ret <$> ys /\ Forall2 P l ys.
Proof.
  induction l as [|x l IH]; intros H.
  - exists []. split; [done|constructor].
  - destruct (H x) as (y & Hy & HP); [left|].
    destruct IH as (ys & Hys & Hl); [intros; apply H; by right|].
    exists (y :: ys). rewrite !fmap_cons, Hy, Hys. split; [done|by constructor].
Qed.

Lemma Forall2_seqZ {A} (P : Z -> A -> Prop) n (l : list A) :
  0 <= n -> Forall2 P (seqZ 0 n) l ->
  zlen l = n /\ forall i y, znth l i = Some y -> 0 <= i < n /\ P i y.
Proof.
  intros Hn HF. pose proof (Forall2_length _ _ _ HF) as Hl. rewrite length_seqZ in Hl.
  split; [unfold zlen; lia|]. intros i y [Hi Hy]%znth_lookup.
  destruct (Forall2_lookup_r _ _ _ _ _ HF Hy) as (j & [-> ?]%lookup_seqZ & HP).
  rewrite Z2Nat.id, Z.add_0_l in HP by done. split; [lia|done].
Qed.

Ltac inv_outcome :=
  repeat match goal with
  | H : (_ ≫= _) = Ret _ |- _ => apply outcome_bind_Ret in H as (? & ? & H)
  | H : get _ = Ret _ |- _ => apply get_Ret in H
  | H : mret _ = Ret _ |- _ => injection H as H
  | H : Ret _ = Ret _ |- _ => injection H as H
  end.

Create HintDb popcorn.
#[export] Hint Resolve wrap_range signed_range znth_Some_range znth_elem : popcorn.
#[export] Hint Rewrite @length_insert @length_app @length_replicate @length_take
  @length_drop : popcorn.
