(* ===== verification/Machine.v ===== *)
(** * Byte-addressed memory and the part of libc the runtime uses

    The C runtime works on raw memory: register sets, bitmaps and the two
    halves of a thread's stack are all reached through [void *].  Memory is a
    map of bytes with a list of live objects; an access outside every live
    object is undefined behaviour ([Fault]).  A byte nobody wrote yet has the
    unspecified value [m_junk]. *)

From S2P Require Import Prelude.

Record memory := Memory {
  m_bytes : gmap Z Z;       (* bytes written so far *)
  m_junk : Z -> Z;          (* content of bytes never written *)
  m_blocks : list (Z * Z);  (* live objects: first address and size *)
  m_next : Z;               (* where the allocator places the next object *)
}.

Definition M (A : Type) : Type := memory -> outcome (A * memory).

#[export] Instance M_ret : MRet M := fun A a m => Ret (a, m).

#[export] Instance M_bind : MBind M := fun A B f c m =>
  match c m with
  | Ret (a, m') => f a m'
  | Exit e => Exit e
  | Fault => Fault
  | Spin => Spin
  end.

Definition lift {A} (o : outcome A) : M A := fun m => a ← o; Ret (a, m).

(** [ST_ERR(code, ...)]: print a message and leave the process. *)
Definition st_err {A} (code : Z) : M A := fun _ => Exit code.

Definition fault {A} : M A := fun _ => Fault.

(** The byte at address [a]. *)
Definition peek (m : memory) (a : Z) : Z :=
  default (m_junk m a) (m_bytes m !! a) mod 256.

Definition in_block (a n : Z) (blk : Z * Z) : bool :=
  (blk.1 <=? a) && (a + n <=? blk.1 + blk.2).

(** The [n] bytes at [a] lie in one live object. *)
Definition valid (m : memory) (a n : Z) : bool :=
  existsb (in_block a n) (m_blocks m).

Fixpoint pokes (a : Z) (bs : list Z) (bytes : gmap Z Z) : gmap Z Z :=
  match bs with
  | [] => bytes
  | b :: bs' => <[a := b]> (pokes (a + 1) bs' bytes)
  end.

Definition poked (m : memory) (a : Z) (bs : list Z) : memory :=
  Memory (pokes a bs (m_bytes m)) (m_junk m) (m_blocks m) (m_next m).

Definition load_bytes (a n : Z) : M (list Z) := fun m =>
  if valid m a n then Ret (peek m <$> seqZ a n, m) else Fault.

Definition store_bytes (a : Z) (bs : list Z) : M unit := fun m =>
  if valid m a (zlen bs) then Ret (tt, poked m a bs) else Fault.

(** Little-endian encoding of an integer in [n] bytes (both target
    architectures are little-endian). *)
Fixpoint le_bytes (n : nat) (v : Z) : list Z :=
  match n with
  | O => []
  | S n' => v mod 256 :: le_bytes n' (v / 256)
  end.

Fixpoint le_value (bs : list Z) : Z :=
  match bs with
  | [] => 0
  | b :: bs' => b + 256 * le_value bs'
  end.

(** [*(uintN_t * )a] for N = 8 * n. *)
Definition load (n : nat) (a : Z) : M Z :=
  bs ← load_bytes a (Z.of_nat n); mret (le_value bs).

Definition store (n : nat) (a v : Z) : M unit := store_bytes a (le_bytes n v).

Abbreviation load64 := (load 8).
Abbreviation store64 := (store 8).

Definition memcpy (dst src n : Z) : M unit :=
  bs ← load_bytes src n; store_bytes dst bs.

Definition memset (p c n : Z) : M unit :=
  store_bytes p (replicate (Z.to_nat n) (wrap8 c)).

(** The allocator hands out 16-byte aligned objects, above every live one and
    separated by a header, and returns NULL when the address space is full. *)
Definition align16 (a : Z) : Z := (a + 15) / 16 * 16.

Definition heap_limit : Z := 2 ^ 63.

Definition malloc (n : Z) : M Z := fun m =>
  let a := align16 (m_next m) in
  if a + n + 16 <=? heap_limit
  then Ret (a, Memory (m_bytes m) (m_junk m) ((a, n) :: m_blocks m) (a + n + 16))
  else Ret (NULL, m).

Definition calloc (count size : Z) : M Z :=
  p ← malloc (count * size);
  if p =? NULL then mret NULL else (memset p 0 (count * size);; mret p).

Fixpoint remove_block (p : Z) (blks : list (Z * Z)) : option (list (Z * Z)) :=
  match blks with
  | [] => None
  | (b, s) :: blks' =>
      if b =? p then Some blks' else (cons (b, s)) <$> remove_block p blks'
  end.

Definition free (p : Z) : M unit := fun m =>
  if p =? NULL then Ret (tt, m)
  else match remove_block p (m_blocks m) with
       | Some blks => Ret (tt, Memory (m_bytes m) (m_junk m) blks (m_next m))
       | None => Fault
       end.

(** Pointer arithmetic on [void *] (byte granularity, modulo 2^64). *)
Definition ptr_add (p off : Z) : Z := wrap64 (p + off).

(** [for(k = i; n more times; k++) body] *)
Fixpoint for_ (n : nat) (i : Z) (body : Z -> M unit) : M unit :=
  match n with
  | O => mret tt
  | S n' => body i;; for_ n' (i + 1) body
  end.

(** ** Well-formed memory: live objects are disjoint, non-null and below the
    next allocation. *)
Definition disjoint_blocks (x y : Z * Z) : Prop :=
  x.1 + x.2 <= y.1 \/ y.1 + y.2 <= x.1.

Record wf_memory (m : memory) : Prop := {
  wf_block : forall b s, (b, s) ∈ m_blocks m -> 0 < b /\ 0 <= s /\ b + s <= m_next m;
  wf_next : 0 < m_next m <= heap_limit;
  wf_disjoint : ForallOrdPairs disjoint_blocks (m_blocks m);
}.

(** [m'] has the objects of [m], and its bytes outside [P]. *)
Record only_writes (P : Z -> Prop) (m m' : memory) : Prop := {
  ow_blocks : m_blocks m' = m_blocks m;
  ow_next : m_next m' = m_next m;
  ow_peek : forall a, ~ P a -> peek m' a = peek m a;
}.

Definition span (a n x : Z) : Prop := a <= x < a + n.

Definition nowhere (x : Z) : Prop := False.

(** ** Facts *)

Lemma M_bind_Ret {A B} (c : M A) (f : A -> M B) m r :
  (c ≫= f) m = Ret r <-> exists a m1, c m = Ret (a, m1) /\ f a m1 = Ret r.
Proof.
  unfold mbind, M_bind. destruct (c m) as [[a m1]|e| |] eqn:E; naive_solver.
Qed.

Lemma M_bind_step {A B} (c : M A) (f : A -> M B) m a m1 :
  c m = Ret (a, m1) -> (c ≫= f) m = f a m1.
Proof. unfold mbind, M_bind. by intros ->. Qed.

Lemma M_bind_assoc {A B C} (c : M A) (f : A -> M B) (g : B -> M C) m :
  ((c ≫= f) ≫= g) m = (c ≫= (fun a => f a ≫= g)) m.
Proof. unfold mbind, M_bind. by destruct (c m) as [[a m1]|e| |]. Qed.

Lemma M_bind_Exit {A B} (c : M A) (f : A -> M B) m e :
  c m = Exit e -> (c ≫= f) m = Exit e.
Proof. unfold mbind, M_bind. by intros ->. Qed.

Lemma M_bind_Fault {A B} (c : M A) (f : A -> M B) m :
  c m = Fault -> (c ≫= f) m = Fault.
Proof. unfold mbind, M_bind. by intros ->. Qed.

Lemma M_ret_run {A} (a : A) m : (mret a : M A) m = Ret (a, m).
Proof. done. Qed.

Lemma lift_Ret {A} (o : outcome A) m a m' :
  lift o m = Ret (a, m') <-> o = Ret a /\ m' = m.
Proof. unfold lift. destruct o; simpl; naive_solver. Qed.

Ltac inv_M :=
  repeat match goal with
  | H : (_ ≫= _) ?m = Ret _ |- _ =>
      apply M_bind_Ret in H as (? & ? & ? & H); cbn beta in H
  | H : lift _ _ = Ret _ |- _ => apply lift_Ret in H as [H ->]
  | H : (mret _ : M _) _ = Ret _ |- _ => rewrite M_ret_run in H
  | H : Ret (_, _) = Ret (_, _) |- _ => injection H; clear H; intros; subst
  | H : get _ = Ret _ |- _ => apply get_Ret in H
  | H : st_err _ _ = Ret _ |- _ => discriminate H
  | H : fault _ = Ret _ |- _ => discriminate H
  end.

Lemma peek_range m a : 0 <= peek m a < 256.
Proof. unfold peek. apply Z.mod_pos_bound. lia. Qed.

Lemma valid_spec m a n :
  valid m a n = true <->
  exists b s, (b, s) ∈ m_blocks m /\ b <= a /\ a + n <= b + s.
Proof.
  unfold valid. rewrite existsb_exists. split.
  - intros ([b s] & Hin & H). unfold in_block in H. simpl in H.
    exists b, s. split; [by apply list_elem_of_In|]. lia.
  - intros (b & s & Hin & ?). exists (b, s). split; [by apply list_elem_of_In|].
    unfold in_block; simpl; lia.
Qed.

Lemma valid_sub m a n a' n' :
  valid m a n = true -> a <= a' -> a' + n' <= a + n -> valid m a' n' = true.
Proof. rewrite !valid_spec. intros (b & s & ? & ? & ?) ??. exists b, s. split; [done|lia]. Qed.

Lemma valid_pos m a n : wf_memory m -> valid m a n = true -> 0 <= n -> 0 < a /\ a + n <= heap_limit.
Proof.
  intros Hwf (b & s & Hin & ? & ?)%valid_spec ?.
  pose proof (wf_block m Hwf b s Hin). pose proof (wf_next m Hwf). lia.
Qed.

Lemma ptr_add_small p off : 0 <= p + off < 2 ^ 64 -> ptr_add p off = p + off.
Proof. intros. by apply wrap_small. Qed.

Lemma ptr_add_valid m p off n :
  wf_memory m -> valid m (p + off) n = true -> 0 <= n -> ptr_add p off = p + off.
Proof.
  intros Hwf Hv Hn. apply ptr_add_small.
  pose proof (valid_pos _ _ _ Hwf Hv Hn). unfold heap_limit in *. lia.
Qed.

Lemma pokes_lookup bs a bytes x :
  pokes a bs bytes !! x =
  if decide (a <= x < a + zlen bs) then bs !! Z.to_nat (x - a) else bytes !! x.
Proof.
  revert a. induction bs as [|b bs IH]; intros a; simpl; unfold zlen; simpl.
  - rewrite decide_False by lia. done.
  - destruct (decide (a = x)) as [->|].
    + rewrite lookup_insert_eq, decide_True by lia.
      by replace (Z.to_nat (x - x)) with 0%nat by lia.
    + rewrite lookup_insert_ne, IH by done. unfold zlen.
      repeat case_decide; try lia; [|done].
      by replace (Z.to_nat (x - a)) with (S (Z.to_nat (x - (a + 1)))) by lia.
Qed.

Lemma peek_poked_in m a bs x b :
  znth bs (x - a) = Some b -> peek (poked m a bs) x = b mod 256.
Proof.
  intros Hb. pose proof (znth_Some_range _ _ _ Hb) as Hr.
  apply znth_lookup in Hb as [_ Hb].
  unfold peek, poked; simpl. rewrite pokes_lookup, decide_True, Hb by lia. done.
Qed.

Lemma peek_poked_out m a bs x :
  ~ span a (zlen bs) x -> peek (poked m a bs) x = peek m x.
Proof.
  unfold span. intros. unfold peek, poked; simpl.
  by rewrite pokes_lookup, decide_False by lia.
Qed.

Lemma le_bytes_length n v : length (le_bytes n v) = n.
Proof. revert v; induction n; simpl; auto. Qed.

Lemma le_value_le_bytes n v : le_value (le_bytes n v) = wrap (8 * Z.of_nat n) v.
Proof.
  revert v; induction n as [|n IH]; intros v; simpl le_bytes; simpl le_value.
  - unfold wrap. by rewrite Z.mod_1_r.
  - rewrite IH. unfold wrap.
    replace (2 ^ (8 * Z.of_nat (S n))) with (256 * 2 ^ (8 * Z.of_nat n)).
    2:{ replace (8 * Z.of_nat (S n)) with (8 + 8 * Z.of_nat n) by lia.
        rewrite Z.pow_add_r by lia. reflexivity. }
    by rewrite Z.rem_mul_r by (try apply Z.pow_pos_nonneg; lia).
Qed.

Lemma le_bytes_le_value bs :
  Forall (fun b => 0 <= b < 256) bs -> le_bytes (length bs) (le_value bs) = bs.
Proof.
  induction 1 as [|b bs Hb _ IH]; simpl; [done|]. f_equal.
  - rewrite (Z.mul_comm 256), Z.mod_add by lia. by apply Z.mod_small.
  - rewrite (Z.mul_comm 256), Z.div_add, Z.div_small, Z.add_0_l by lia. done.
Qed.

Lemma le_value_range bs :
  Forall (fun b => 0 <= b < 256) bs -> 0 <= le_value bs < 2 ^ (8 * zlen bs).
Proof.
  unfold zlen. induction 1 as [|b bs Hb _ IH]; simpl length; simpl le_value; [lia|].
  replace (8 * Z.of_nat (S (length bs))) with (8 + 8 * Z.of_nat (length bs)) by lia.
  rewrite Z.pow_add_r by lia. lia.
Qed.

Lemma le_bytes_range n v : Forall (fun b => 0 <= b < 256) (le_bytes n v).
Proof.
  revert v. induction n; simpl; constructor; auto. apply Z.mod_pos_bound; lia.
Qed.

Lemma load_bytes_Ret a n m bs m' :
  load_bytes a n m = Ret (bs, m') <->
  valid m a n = true /\ bs = peek m <$> seqZ a n /\ m' = m.
Proof. unfold load_bytes. destruct (valid m a n); naive_solver. Qed.

Lemma store_bytes_Ret a bs m m' :
  store_bytes a bs m = Ret (tt, m') <->
  valid m a (zlen bs) = true /\ m' = poked m a bs.
Proof. unfold store_bytes. destruct (valid m a _); naive_solver. Qed.

Lemma peeks_range m a n : Forall (fun b => 0 <= b < 256) (peek m <$> seqZ a n).
Proof. apply Forall_fmap, Forall_forall. intros; apply peek_range. Qed.

(** *** The frame relation *)

#[export] Instance only_writes_refl P : Reflexive (only_writes P).
Proof. by constructor. Qed.

#[export] Instance only_writes_trans P : Transitive (only_writes P).
Proof.
  intros m1 m2 m3 [] []. constructor; try congruence.
  intros a Ha. rewrite ow_peek1; auto.
Qed.

Lemma only_writes_weaken (P Q : Z -> Prop) m m' :
  only_writes P m m' -> (forall x, P x -> Q x) -> only_writes Q m m'.
Proof. intros [] H. constructor; auto. Qed.

Lemma only_writes_seq (P Q : Z -> Prop) m1 m2 m3 :
  only_writes P m1 m2 -> only_writes Q m2 m3 ->
  only_writes (fun x => P x \/ Q x) m1 m3.
Proof.
  intros H1 H2. transitivity m2; eapply only_writes_weaken; eauto; tauto.
Qed.

Lemma only_writes_valid P m m' a n :
  only_writes P m m' -> valid m' a n = valid m a n.
Proof. intros []. unfold valid. by rewrite ow_blocks0. Qed.

Lemma only_writes_wf P m m' : only_writes P m m' -> wf_memory m -> wf_memory m'.
Proof.
  intros [Hb Hn _] []. constructor; [|by rewrite Hn|by rewrite Hb].
  intros ??. rewrite Hb, Hn. auto.
Qed.

Lemma poked_only_writes m a bs : only_writes (span a (zlen bs)) m (poked m a bs).
Proof. constructor; try done. intros; by apply peek_poked_out. Qed.

Lemma only_writes_peeks P m m' a n :
  only_writes P m m' -> (forall x, span a n x -> ~ P x) ->
  peek m' <$> seqZ a n = peek m <$> seqZ a n.
Proof.
  intros [] Hd. apply list_fmap_ext. intros i x [-> ?]%lookup_seqZ.
  apply ow_peek0, Hd. unfold span. lia.
Qed.

Lemma peeks_lookup m a n i x :
  (peek m <$> seqZ a n) !! i = Some x <-> Z.of_nat i < n /\ x = peek m (a + Z.of_nat i).
Proof.
  rewrite list_lookup_fmap, fmap_Some. setoid_rewrite lookup_seqZ. naive_solver.
Qed.

Lemma peeks_length m a n : 0 <= n -> zlen (peek m <$> seqZ a n) = n.
Proof. intros. unfold zlen. rewrite length_fmap, length_seqZ. lia. Qed.

Lemma peeks_poked m a bs :
  Forall (fun b => 0 <= b < 256) bs ->
  peek (poked m a bs) <$> seqZ a (zlen bs) = bs.
Proof.
  intros Hbs. apply list_eq. intros i. apply option_eq. intros x.
  rewrite peeks_lookup. unfold zlen. split.
  - intros [Hi ->]. destruct (lookup_lt_is_Some_2 bs i) as [b Hb]; [lia|].
    rewrite peek_poked_in with (b := b).
    + rewrite Hb. f_equal. symmetry. apply Z.mod_small.
      rewrite Forall_lookup in Hbs. eauto.
    + apply znth_lookup. split; [lia|]. by replace (Z.to_nat _) with i by lia.
  - intros Hx. pose proof (lookup_lt_Some _ _ _ Hx). split; [lia|].
    rewrite peek_poked_in with (b := x).
    + symmetry. apply Z.mod_small. rewrite Forall_lookup in Hbs. eauto.
    + apply znth_lookup. split; [lia|]. by replace (Z.to_nat _) with i by lia.
Qed.

(** *** Words in memory *)

Definition word_at (n : nat) (m : memory) (a : Z) : Z :=
  le_value (peek m <$> seqZ a (Z.of_nat n)).

Lemma load_Ret n a m v m' :
  load n a m = Ret (v, m') <->
  valid m a (Z.of_nat n) = true /\ v = word_at n m a /\ m' = m.
Proof.
  unfold load. rewrite M_bind_Ret. split.
  - intros (bs & m1 & (? & -> & ->)%load_bytes_Ret & [= <- <-]). done.
  - intros (? & -> & ->). do 2 eexists. split; [by apply load_bytes_Ret|done].
Qed.

Lemma load_run n a m :
  valid m a (Z.of_nat n) = true -> load n a m = Ret (word_at n m a, m).
Proof. intros. by apply load_Ret. Qed.

Lemma zlen_le_bytes n v : zlen (le_bytes n v) = Z.of_nat n.
Proof. unfold zlen. by rewrite le_bytes_length. Qed.

Lemma store_Ret n a v m m' :
  store n a v m = Ret (tt, m') <->
  valid m a (Z.of_nat n) = true /\ m' = poked m a (le_bytes n v).
Proof. unfold store. by rewrite store_bytes_Ret, zlen_le_bytes. Qed.

Lemma store_run n a v m :
  valid m a (Z.of_nat n) = true -> store n a v m = Ret (tt, poked m a (le_bytes n v)).
Proof. intros. by apply store_Ret. Qed.

Lemma word_at_poked n m a v :
  word_at n (poked m a (le_bytes n v)) a = wrap (8 * Z.of_nat n) v.
Proof.
  unfold word_at. rewrite <- (zlen_le_bytes n v) at 1.
  rewrite peeks_poked by apply le_bytes_range. apply le_value_le_bytes.
Qed.

Lemma word_at_frame P n m m' a :
  only_writes P m m' -> (forall x, span a (Z.of_nat n) x -> ~ P x) ->
  word_at n m' a = word_at n m a.
Proof. intros. unfold word_at. by erewrite only_writes_peeks. Qed.

Lemma word_at_range n m a : 0 <= word_at n m a < 2 ^ (8 * Z.of_nat n).
Proof.
  unfold word_at. pose proof (le_value_range _ (peeks_range m a (Z.of_nat n))) as H.
  by rewrite peeks_length in H by lia.
Qed.

Lemma poked_word_frame n m a v :
  only_writes (span a (Z.of_nat n)) m (poked m a (le_bytes n v)).
Proof. rewrite <- (zlen_le_bytes n v). apply poked_only_writes. Qed.

Lemma le_bytes_word_at n m a :
  le_bytes n (word_at n m a) = peek m <$> seqZ a (Z.of_nat n).
Proof.
  unfold word_at. pose proof (peeks_range m a (Z.of_nat n)) as Hr.
  pose proof (le_bytes_le_value _ Hr) as H.
  rewrite length_fmap, length_seqZ, Nat2Z.id in H. exact H.
Qed.

Lemma memcpy_Ret dst src n m m' :
  memcpy dst src n m = Ret (tt, m') <->
  valid m src n = true /\ valid m dst (zlen (peek m <$> seqZ src n)) = true /\
  m' = poked m dst (peek m <$> seqZ src n).
Proof.
  unfold memcpy. rewrite M_bind_Ret. split.
  - intros (bs & m1 & (? & -> & ->)%load_bytes_Ret & [? ->]%store_bytes_Ret). done.
  - intros (? & ? & ->). do 2 eexists. split; [by apply load_bytes_Ret|].
    by apply store_bytes_Ret.
Qed.

Lemma memcpy_run dst src n m :
  0 <= n -> valid m src n = true -> valid m dst n = true ->
  memcpy dst src n m = Ret (tt, poked m dst (peek m <$> seqZ src n)).
Proof. intros. apply memcpy_Ret. rewrite peeks_length by done. done. Qed.

(** A copied range holds the bytes of its source. *)
Lemma memcpy_peeks dst src n m m' :
  0 <= n -> memcpy dst src n m = Ret (tt, m') ->
  peek m' <$> seqZ dst n = peek m <$> seqZ src n.
Proof.
  intros Hn (_ & _ & ->)%memcpy_Ret.
  pose proof (peeks_poked m dst _ (peeks_range m src n)) as E.
  by rewrite peeks_length in E.
Qed.

Lemma memcpy_frame dst src n m m' :
  0 <= n -> memcpy dst src n m = Ret (tt, m') -> only_writes (span dst n) m m'.
Proof.
  intros Hn (_ & _ & ->)%memcpy_Ret.
  pose proof (poked_only_writes m dst (peek m <$> seqZ src n)) as E.
  by rewrite peeks_length in E.
Qed.

Lemma memset_run p c n m :
  0 <= n -> valid m p n = true ->
  memset p c n m = Ret (tt, poked m p (replicate (Z.to_nat n) (wrap8 c))).
Proof.
  intros. unfold memset. apply store_bytes_Ret. split; [|done].
  unfold zlen. rewrite length_replicate, Z2Nat.id by done. done.
Qed.

Lemma memset_frame p c n m m' :
  0 <= n -> memset p c n m = Ret (tt, m') -> only_writes (span p n) m m'.
Proof.
  intros Hn [_ ->]%store_bytes_Ret.
  pose proof (poked_only_writes m p (replicate (Z.to_nat n) (wrap8 c))) as E.
  unfold zlen in E. by rewrite length_replicate, Z2Nat.id in E.
Qed.

Lemma memset_peek p c n m m' x :
  memset p c n m = Ret (tt, m') -> span p n x -> peek m' x = wrap8 c.
Proof.
  unfold span. intros [_ ->]%store_bytes_Ret Hx.
  rewrite peek_poked_in with (b := wrap8 c).
  - apply Z.mod_small. apply (wrap_range 8). lia.
  - apply znth_lookup. split; [lia|]. apply lookup_replicate. split; [done|lia].
Qed.

(** *** Loops *)

(** A loop returns when its body does, and keeps the body's invariant. *)
Lemma for_inv (I : Z -> memory -> Prop) body n i m :
  I i m ->
  (forall k mk, i <= k < i + Z.of_nat n -> I k mk ->
     exists mk', body k mk = Ret (tt, mk') /\ I (k + 1) mk') ->
  exists m', for_ n i body m = Ret (tt, m') /\ I (i + Z.of_nat n) m'.
Proof.
  revert i m. induction n as [|n IH]; intros i m Hi Hbody; simpl.
  - exists m. split; [done|]. by replace (i + Z.of_nat 0) with i by lia.
  - destruct (Hbody i m) as (m1 & E & H1); [lia|done|].
    destruct (IH (i + 1) m1 H1) as (m' & E' & H').
    { intros k mk Hk. apply Hbody. lia. }
    exists m'. rewrite (M_bind_step _ _ _ _ _ E). split; [done|].
    by replace (i + Z.of_nat (S n)) with (i + 1 + Z.of_nat n) by lia.
Qed.

(** What a loop that returned did, from what its body does when it returns. *)
Lemma for_post (I : Z -> memory -> Prop) body n i m m' :
  I i m ->
  (forall k mk mk', i <= k < i + Z.of_nat n -> I k mk -> body k mk = Ret (tt, mk') -> I (k + 1) mk') ->
  for_ n i body m = Ret (tt, m') -> I (i + Z.of_nat n) m'.
Proof.
  revert i m. induction n as [|n IH]; intros i m Hi Hbody; simpl.
  - intros [= <-]. by replace (i + Z.of_nat 0) with i by lia.
  - intros ([] & m1 & E & H)%M_bind_Ret.
    replace (i + Z.of_nat (S n)) with (i + 1 + Z.of_nat n) by lia.
    eapply (IH (i + 1) m1); [|intros k mk mk' ?; apply Hbody; lia|exact H].
    eapply Hbody; [lia|exact Hi|exact E].
Qed.

(** *** Allocation *)

Lemma align16_spec a : a <= align16 a < a + 16 /\ (align16 a) mod 16 = 0.
Proof.
  unfold align16. split; [|by apply Z_mod_mult].
  pose proof (Z.div_mod (a + 15) 16 ltac:(lia)).
  pose proof (Z.mod_pos_bound (a + 15) 16 ltac:(lia)). lia.
Qed.

(** What a successful [malloc] guarantees: a fresh 16-byte aligned object,
    disjoint from the live ones, and nothing else changed. *)
Record allocated (m : memory) (p n : Z) (m' : memory) : Prop := {
  al_wf : wf_memory m';
  al_align : p mod 16 = 0;
  al_fresh : m_next m <= p;
  al_blocks : m_blocks m' = (p, n) :: m_blocks m;
  al_next : m_next m <= m_next m';
  al_peek : forall x, peek m' x = peek m x;
}.

Lemma malloc_spec n m p m' :
  wf_memory m -> 0 <= n -> malloc n m = Ret (p, m') ->
  (p = NULL /\ m' = m) \/ (0 < p /\ allocated m p n m').
Proof.
  intros Hwf Hn. unfold malloc.
  pose proof (align16_spec (m_next m)) as [Ha Hal]. pose proof (wf_next m Hwf).
  destruct (Z.leb_spec (align16 (m_next m) + n + 16) heap_limit) as [Hl|].
  - intros [= <- <-]. right. split; [lia|]. constructor; simpl; try lia; try done.
    constructor; simpl; [| lia |].
    + intros b s [[= -> ->]|Hin]%elem_of_cons; [lia|].
      pose proof (wf_block m Hwf b s Hin). lia.
    + constructor; [|apply (wf_disjoint m Hwf)].
      apply Forall_forall. intros [b s] Hin. right. simpl.
      pose proof (wf_block m Hwf b s Hin). lia.
  - intros [= <- <-]. by left.
Qed.

Lemma allocated_valid m p n m' : allocated m p n m' -> valid m' p n = true.
Proof.
  intros H. apply valid_spec. exists p, n. rewrite (al_blocks _ _ _ _ H).
  split; [left|lia].
Qed.

Lemma allocated_valid_old m p n m' a k :
  allocated m p n m' -> valid m a k = true -> valid m' a k = true.
Proof.
  intros H. rewrite !valid_spec. intros (b & s & ? & ? & ?). exists b, s.
  rewrite (al_blocks _ _ _ _ H). split; [by right|done].
Qed.

(** The new object starts above every address that was valid before. *)
Lemma allocated_above m p n m' a k :
  wf_memory m -> allocated m p n m' -> valid m a k = true -> a + k <= p.
Proof.
  intros Hwf H (b & s & Hin & ? & ?)%valid_spec.
  pose proof (wf_block m Hwf b s Hin). pose proof (al_fresh _ _ _ _ H). lia.
Qed.

Lemma allocated_word m p n m' k a :
  allocated m p n m' -> word_at k m' a = word_at k m a.
Proof.
  intros H. unfold word_at. f_equal. apply list_fmap_ext.
  intros. apply (al_peek _ _ _ _ H).
Qed.

Lemma remove_block_sublist p blks blks' :
  remove_block p blks = Some blks' -> blks' `sublist_of` blks.
Proof.
  revert blks'. induction blks as [|[b s] blks IH]; simpl; [done|]. intros blks'.
  destruct (Z.eqb_spec b p) as [->|]; [intros [= <-]; by constructor|].
  destruct (remove_block p blks) as [r|]; simpl; [|done]. intros [= <-].
  constructor. by apply IH.
Qed.

Lemma ForallOrdPairs_sublist {A} (R : A -> A -> Prop) l l' :
  l' `sublist_of` l -> ForallOrdPairs R l -> ForallOrdPairs R l'.
Proof.
  induction 1; intros HF; [constructor| |]; inversion_clear HF; auto.
  constructor; auto. apply Forall_forall. intros x0 Hx.
  match goal with H : Forall _ _ |- _ => rewrite Forall_forall in H; apply H end.
  eapply elem_of_submseteq; [exact Hx|by apply sublist_submseteq].
Qed.

Lemma free_wf p m m' : wf_memory m -> free p m = Ret (tt, m') -> wf_memory m'.
Proof.
  unfold free. intros Hwf. destruct (p =? NULL); [by intros [= <-]|].
  destruct (remove_block p _) as [r|] eqn:E; [|done]. intros [= <-].
  pose proof (remove_block_sublist _ _ _ E) as Hs.
  constructor; simpl; [| apply (wf_next m Hwf) |].
  - intros b s Hin. apply (wf_block m Hwf).
    eapply elem_of_submseteq; [exact Hin|by apply sublist_submseteq].
  - eapply ForallOrdPairs_sublist; [exact Hs|apply (wf_disjoint m Hwf)].
Qed.

Lemma free_head p s m blks :
  m_blocks m = (p, s) :: blks -> p <> NULL ->
  free p m = Ret (tt, Memory (m_bytes m) (m_junk m) blks (m_next m)).
Proof.
  intros Hb Hp. unfold free. destruct (Z.eqb_spec p NULL); [lia|].
  rewrite Hb. simpl. by rewrite Z.eqb_refl.
Qed.

#[export] Hint Resolve peek_range word_at_range only_writes_wf allocated_valid
  allocated_valid_old poked_only_writes poked_word_frame : popcorn.
