(* ===== verification/Bitmap.v ===== *)
(** * Variable-size bitmaps (include/bitmap.h, src/bitmap.c)

    The bitmap lives in memory as an array of 64-bit words.  The macros shift
    an [int] constant, [1 << fine]: the result is only meaningful for
    [fine < 32], and for [fine = 31] it converts to a mask of bits 31 to 63.
    The theorems show that a bitmap still behaves as a set on the bit numbers
    the shift is defined for ([shiftable]), which include every callee-saved
    register of both architectures. *)

From stdpp Require Import gmap.
From S2P Require Import Prelude Machine.

(** ** Definitions *)

Record bitmap := Bitmap { bm_size : Z; bm_bits : Z }.

Definition STORAGE_TYPE_BITS : Z := 8 * 8.

Definition bitmap_size (num : Z) : Z :=
  8 * (if truthy (num mod STORAGE_TYPE_BITS)
       then num / STORAGE_TYPE_BITS + 1
       else num / STORAGE_TYPE_BITS).

Definition bitmap_init (size : Z) : M bitmap :=
  bits ← malloc (bitmap_size size);
  memset bits 0 (bitmap_size size);;
  mret (Bitmap size bits).

Definition bitmap_free (b : bitmap) : M unit := free (bm_bits b).

(** The [int] constant [1 << fine], converted to [STORAGE_TYPE]: shifting a
    32-bit [int] by 32 or more is undefined. *)
Definition int_mask (fine : Z) : outcome Z :=
  if fine <? 32 then Ret (wrap64 (signed 32 (Z.shiftl 1 fine))) else Fault.

Definition bitmap_set (b : bitmap) (num : Z) : M unit :=
  let coarse := num / STORAGE_TYPE_BITS in
  let fine := num mod STORAGE_TYPE_BITS in
  mask ← lift (int_mask fine);
  w ← load64 (bm_bits b + 8 * coarse);
  store64 (bm_bits b + 8 * coarse) (Z.lor w mask).

Definition bitmap_set_all (b : bitmap) : M unit :=
  memset (bm_bits b) 0xff (bitmap_size (bm_size b)).

Definition bitmap_clear_all (b : bitmap) : M unit :=
  memset (bm_bits b) 0 (bitmap_size (bm_size b)).

Definition bitmap_is_set (b : bitmap) (num : Z) : M bool :=
  let coarse := num / STORAGE_TYPE_BITS in
  let fine := num mod STORAGE_TYPE_BITS in
  mask ← lift (int_mask fine);
  w ← load64 (bm_bits b + 8 * coarse);
  mret (truthy (Z.land w mask)).

(** ** The abstract view: a set of bit numbers *)

Definition shiftable (num : Z) : Prop := num mod STORAGE_TYPE_BITS < 32.

(** The words of the bitmap are live memory. *)
Definition bitmap_valid (m : memory) (b : bitmap) : Prop :=
  valid m (bm_bits b) (bitmap_size (bm_size b)) = true.

Definition bit_at (m : memory) (b : bitmap) (num : Z) : bool :=
  match int_mask (num mod STORAGE_TYPE_BITS) with
  | Ret mask =>
      truthy (Z.land (word_at 8 m (bm_bits b + 8 * (num / STORAGE_TYPE_BITS))) mask)
  | _ => false
  end.

Definition bitmap_rep (m : memory) (b : bitmap) (S : gset Z) : Prop :=
  bitmap_valid m b /\
  forall num, 0 <= num < bm_size b -> shiftable num ->
    bit_at m b num = bool_decide (num ∈ S).

(** ** Lemmas *)

Lemma bitmap_size_word num i :
  0 <= i < num -> 0 <= 8 * (i / STORAGE_TYPE_BITS) /\
                  8 * (i / STORAGE_TYPE_BITS) + 8 <= bitmap_size num.
Proof.
  intros Hi. unfold bitmap_size. change STORAGE_TYPE_BITS with 64 in *.
  pose proof (Z.div_mod num 64 ltac:(lia)). pose proof (Z.mod_pos_bound num 64 ltac:(lia)).
  pose proof (Z.div_mod i 64 ltac:(lia)). pose proof (Z.mod_pos_bound i 64 ltac:(lia)).
  destruct (truthy (num mod 64)) eqn:E; [lia|]. apply truthy_false in E. lia.
Qed.

Lemma bitmap_size_nonneg num : 0 <= num -> 0 <= bitmap_size num.
Proof.
  intros. unfold bitmap_size. change STORAGE_TYPE_BITS with 64 in *.
  pose proof (Z.div_pos num 64 ltac:(lia) ltac:(lia)). case_match; lia.
Qed.

Lemma bitmap_word_valid m b num :
  bitmap_valid m b -> 0 <= num < bm_size b ->
  valid m (bm_bits b + 8 * (num / STORAGE_TYPE_BITS)) 8 = true.
Proof.
  intros Hv Hn. eapply valid_sub; [exact Hv|..];
    pose proof (bitmap_size_word (bm_size b) num Hn); lia.
Qed.

Lemma int_mask_ok fine : fine < 32 -> exists mask, int_mask fine = Ret mask.
Proof. unfold int_mask. intros. destruct (Z.ltb_spec fine 32); [eauto|lia]. Qed.

(** Masks of different bits have no bit in common, and no mask is zero. *)
Lemma int_masks_disjoint i j mi mj :
  0 <= i < 32 -> 0 <= j < 32 -> int_mask i = Ret mi -> int_mask j = Ret mj ->
  Z.land mi mj = 0 <-> i <> j.
Proof.
  intros Hi Hj Ei Ej.
  set (chk := fun i j => match int_mask i, int_mask j with
    | Ret mi, Ret mj => Bool.eqb (Z.land mi mj =? 0) (negb (i =? j))
    | _, _ => false end).
  assert (H : forallb (fun i => forallb (chk i) (seqZ 0 32)) (seqZ 0 32) = true)
    by (vm_compute; reflexivity).
  apply forallb_seqZ with (x := i) in H; [|exact Hi].
  apply forallb_seqZ with (x := j) in H; [|exact Hj].
  rename H into E. unfold chk in E. rewrite Ei, Ej in E. apply Bool.eqb_prop in E.
  destruct (Z.eqb_spec (Z.land mi mj) 0), (Z.eqb_spec i j); simpl in E; naive_solver.
Qed.

Lemma truthy_land_lor w a b :
  truthy (Z.land (Z.lor w a) b) = truthy (Z.land w b) || truthy (Z.land a b).
Proof.
  rewrite Z.land_lor_distr_l. unfold truthy.
  destruct (Z.eqb_spec (Z.lor (Z.land w b) (Z.land a b)) 0) as [E|E].
  - apply Z.lor_eq_0_iff in E as [-> ->]. done.
  - destruct (Z.eqb_spec (Z.land w b) 0) as [E1|], (Z.eqb_spec (Z.land a b) 0) as [E2|];
      try done. by rewrite E1, E2 in E.
Qed.

Lemma int_mask_range fine mask : int_mask fine = Ret mask -> 0 <= mask < 2 ^ 64.
Proof. unfold int_mask. case_match; [|done]. intros [= <-]. apply wrap_range. lia. Qed.

Lemma lor_u64 a b : 0 <= a < 2 ^ 64 -> 0 <= b < 2 ^ 64 -> 0 <= Z.lor a b < 2 ^ 64.
Proof.
  intros Ha Hb. split; [apply Z.lor_nonneg; lia|].
  destruct (Z.eq_dec (Z.lor a b) 0) as [->|]; [lia|].
  apply Z.log2_lt_pow2; [pose proof (proj2 (Z.lor_nonneg a b)); lia|].
  rewrite Z.log2_lor by lia.
  apply Z.max_lub_lt; [destruct (Z.eq_dec a 0) as [->|] | destruct (Z.eq_dec b 0) as [->|]];
    try (simpl; lia); apply Z.log2_lt_pow2; lia.
Qed.

Lemma bitmap_is_set_run m b num :
  bitmap_valid m b -> 0 <= num < bm_size b -> shiftable num ->
  bitmap_is_set b num m = Ret (bit_at m b num, m).
Proof.
  intros Hv Hn Hs. unfold bitmap_is_set, bit_at.
  destruct (int_mask_ok _ Hs) as [mask Em]. rewrite Em.
  erewrite M_bind_step by (apply lift_Ret; eauto).
  erewrite M_bind_step by (apply load_run; by apply bitmap_word_valid). done.
Qed.

Lemma bitmap_set_run m b num :
  bitmap_valid m b -> 0 <= num < bm_size b -> shiftable num ->
  exists m', bitmap_set b num m = Ret (tt, m') /\
    only_writes (span (bm_bits b + 8 * (num / STORAGE_TYPE_BITS)) 8) m m' /\
    forall k, 0 <= k < bm_size b -> shiftable k ->
      bit_at m' b k = bool_decide (k = num) || bit_at m b k.
Proof.
  intros Hv Hn Hs. unfold bitmap_set, bit_at.
  destruct (int_mask_ok _ Hs) as [mask Em].
  erewrite M_bind_step by (apply lift_Ret; eauto).
  erewrite M_bind_step by (apply load_run; by apply bitmap_word_valid).
  eexists. split; [apply store_run; by apply bitmap_word_valid|].
  split; [apply (poked_word_frame 8)|]. intros k Hk Hsk.
  destruct (int_mask_ok _ Hsk) as [mk Ek]. rewrite Ek.
  assert (Hmod : forall z, 0 <= z mod STORAGE_TYPE_BITS) by
    (intros; apply Z.mod_pos_bound; reflexivity).
  destruct (decide (k / STORAGE_TYPE_BITS = num / STORAGE_TYPE_BITS)) as [Ec|Ec].
  - rewrite Ec, word_at_poked.
    rewrite wrap_small, truthy_land_lor by
      (apply lor_u64; [apply (word_at_range 8)|by eapply int_mask_range]).
    rewrite orb_comm. f_equal.
    pose proof (int_masks_disjoint _ _ _ _ (conj (Hmod num) Hs) (conj (Hmod k) Hsk) Em Ek) as Hd.
    unfold truthy. destruct (Z.eqb_spec (Z.land mask mk) 0) as [E0|E0].
    + rewrite bool_decide_false; [done|]. intros ->. by apply Hd in E0.
    + rewrite bool_decide_true; [done|].
      destruct (decide (num mod STORAGE_TYPE_BITS = k mod STORAGE_TYPE_BITS)) as [Em'|Em'];
        [|by apply Hd in Em'].
      rewrite (Z.div_mod k STORAGE_TYPE_BITS), (Z.div_mod num STORAGE_TYPE_BITS) by done.
      congruence.
  - rewrite bool_decide_false by congruence. simpl. do 2 f_equal.
    eapply word_at_frame; [apply (poked_word_frame 8)|].
    unfold span. intros x Hx ?. apply Ec. lia.
Qed.

(** A range of memory disjoint from the bitmap does not affect its bits. *)
Lemma bit_at_frame P m m' b num :
  only_writes P m m' -> 0 <= num < bm_size b ->
  (forall x, span (bm_bits b) (bitmap_size (bm_size b)) x -> ~ P x) ->
  bit_at m' b num = bit_at m b num.
Proof.
  intros Hw Hn Hd. unfold bit_at. case_match; try done. do 2 f_equal.
  eapply word_at_frame; [exact Hw|]. intros x Hx. apply Hd.
  pose proof (bitmap_size_word _ _ Hn). unfold span in *. lia.
Qed.

Lemma bitmap_rep_frame P m m' b S :
  only_writes P m m' ->
  (forall x, span (bm_bits b) (bitmap_size (bm_size b)) x -> ~ P x) ->
  bitmap_rep m b S -> bitmap_rep m' b S.
Proof.
  intros Hw Hd [Hv Hr]. split.
  - unfold bitmap_valid. by erewrite only_writes_valid.
  - intros. erewrite bit_at_frame by eauto. auto.
Qed.

Lemma word_at_zero m a n :
  (forall x, span a (Z.of_nat n) x -> peek m x = 0) -> word_at n m a = 0.
Proof.
  unfold word_at, span. revert a. induction n as [|n IH]; intros a H; [done|].
  rewrite Nat2Z.inj_succ, <- Z.add_1_r, seqZ_cons by lia. simpl.
  rewrite H by lia. replace (Z.pred (Z.of_nat n + 1)) with (Z.of_nat n) by lia.
  rewrite <- Z.add_1_r, IH; [lia|]. intros. apply H. lia.
Qed.

Lemma bitmap_rep_zero m b :
  bitmap_valid m b -> 
  (forall x, span (bm_bits b) (bitmap_size (bm_size b)) x -> peek m x = 0) ->
  bitmap_rep m b ∅.
Proof.
  intros Hv H0. split; [done|]. intros num Hn Hs. rewrite bool_decide_false by set_solver.
  unfold bit_at. case_match; try done. rewrite word_at_zero; [by rewrite Z.land_0_l|].
  intros x Hx. apply H0. pose proof (bitmap_size_word _ _ Hn). unfold span in *. lia.
Qed.

(** The set a concrete bitmap stands for, checked bit by bit. *)
Lemma bitmap_rep_check m b (S : gset Z) :
  bitmap_valid m b ->
  forallb (fun num => (32 <=? num mod STORAGE_TYPE_BITS) ||
    Bool.eqb (bit_at m b num) (bool_decide (num ∈ S))) (seqZ 0 (bm_size b)) = true ->
  bitmap_rep m b S.
Proof.
  intros Hv Hc. split; [done|]. intros num Hn Hs. unfold shiftable in Hs.
  pose proof (forallb_seqZ _ _ _ Hc Hn) as H. simpl in H.
  apply orb_prop in H as [H|H]; [lia|]. by apply Bool.eqb_prop.
Qed.

(** [bitmap_set] adds exactly its bit to the set a bitmap stands for, and
    writes only the words of the bitmap. *)
Lemma bitmap_set_refines m b num S :
  bitmap_rep m b S -> 0 <= num < bm_size b -> shiftable num ->
  exists m', bitmap_set b num m = Ret (tt, m') /\
    bitmap_rep m' b ({[num]} ∪ S) /\
    only_writes (span (bm_bits b) (bitmap_size (bm_size b))) m m'.
Proof.
  intros [Hv Hr] Hn Hs.
  destruct (bitmap_set_run m b num Hv Hn Hs) as (m' & Hrun & Hw & Hb).
  exists m'. split; [done|]. split; [split|].
  - unfold bitmap_valid. by erewrite only_writes_valid.
  - intros k Hk Hsk. rewrite Hb, Hr by done.
    repeat case_bool_decide; simpl; try done; set_solver.
  - eapply only_writes_weaken; [exact Hw|].
    pose proof (bitmap_size_word _ _ Hn). unfold span. lia.
Qed.

Lemma memset_valid p c n m m' :
  0 <= n -> memset p c n m = Ret (tt, m') -> valid m p n = true.
Proof.
  intros Hn [Hv _]%store_bytes_Ret. unfold zlen in Hv.
  by rewrite length_replicate, Z2Nat.id in Hv.
Qed.

(** A fresh bitmap is the empty set. *)
Lemma bitmap_init_empty size m b m' :
  wf_memory m -> 0 <= size -> bitmap_init size m = Ret (b, m') ->
  wf_memory m' /\ bm_size b = size /\ bitmap_rep m' b ∅.
Proof.
  intros Hwf Hs H. unfold bitmap_init in H. inv_M.
  pose proof (bitmap_size_nonneg size Hs) as Hnn. destruct x1.
  pose proof (memset_valid _ _ _ _ _ Hnn H1) as Hv.
  pose proof (memset_frame _ _ _ _ _ Hnn H1) as Hw.
  destruct (malloc_spec _ _ _ _ Hwf Hnn H0) as [[-> ->]|[Hp Hal]].
  - pose proof (valid_pos _ _ _ Hwf Hv Hnn). lia.
  - pose proof (al_wf _ _ _ _ Hal). split; [eauto with popcorn|]. split; [done|].
    apply bitmap_rep_zero.
    + unfold bitmap_valid; simpl. rewrite (only_writes_valid _ _ _ _ _ Hw).
      by eapply allocated_valid.
    + simpl. intros x2 Hx. by rewrite (memset_peek _ _ _ _ _ _ H1 Hx).
Qed.

(** Setting a sequence of bits, as unwinding does for the registers a frame
    saves. *)
Definition bitmap_set_list (b : bitmap) : list Z -> M unit :=
  foldr (fun num k => bitmap_set b num;; k) (mret tt).

Lemma bitmap_set_list_refines b nums m S :
  bitmap_rep m b S ->
  Forall (fun num => 0 <= num < bm_size b /\ shiftable num) nums ->
  exists m', bitmap_set_list b nums m = Ret (tt, m') /\
    bitmap_rep m' b (list_to_set nums ∪ S) /\
    only_writes (span (bm_bits b) (bitmap_size (bm_size b))) m m'.
Proof.
  intros Hr Hnums. revert m S Hr.
  induction Hnums as [|num nums [Hn Hs] _ IH]; intros m S Hr; simpl.
  - exists m. split; [done|]. split; [|reflexivity].
    by rewrite union_empty_l_L.
  - destruct (bitmap_set_refines m b num S Hr Hn Hs) as (m1 & E1 & Hr1 & Hw1).
    destruct (IH _ _ Hr1) as (m2 & E2 & Hr2 & Hw2).
    exists m2. split; [by erewrite M_bind_step by exact E1|].
    split; [|by transitivity m1].
    by replace ({[num]} ∪ list_to_set nums ∪ S)
      with (list_to_set nums ∪ ({[num]} ∪ S) : gset Z) by set_solver.
Qed.

(** ** Properties *)

(** A bitmap is a set of bit numbers: after [bitmap_init], setting any
    sequence of shiftable bits makes [bitmap_is_set] answer exactly the
    membership in that sequence, although the macros shift a 32-bit [int]. *)
Theorem bitmap_implements_set size m b m1 nums num :
  wf_memory m -> 0 <= size -> bitmap_init size m = Ret (b, m1) ->
  Forall (fun k => 0 <= k < size /\ shiftable k) nums ->
  0 <= num < size -> shiftable num ->
  exists m2, bitmap_set_list b nums m1 = Ret (tt, m2) /\
    bitmap_is_set b num m2 = Ret (bool_decide (num ∈ nums), m2).
Proof.
  intros Hwf Hs Hinit Hnums Hn Hsn.
  destruct (bitmap_init_empty _ _ _ _ Hwf Hs Hinit) as (_ & <- & Hr).
  destruct (bitmap_set_list_refines b nums m1 _ Hr Hnums) as (m2 & E & [Hv Hb] & _).
  exists m2. split; [done|]. rewrite bitmap_is_set_run, Hb by done.
  do 2 f_equal. apply bool_decide_ext. set_solver.
Qed.

Definition witness_memory : memory := Memory ∅ (fun a => a) [] 4096.

Lemma witness_memory_wf : wf_memory witness_memory.
Proof. constructor; simpl; [set_solver|unfold heap_limit; lia|constructor]. Qed.

Definition ret_or {A} (d : A) (m : memory) (o : outcome (A * memory)) : A * memory :=
  match o with Ret r => r | _ => (d, m) end.

(** aarch64: registers x19, x30 and v8 among 128. *)
Lemma bitmap_implements_set_witness :
  let '(b, m1) := ret_or (Bitmap 0 0) witness_memory (bitmap_init 128 witness_memory) in
  exists m2, bitmap_set_list b [19; 30; 72] m1 = Ret (tt, m2) /\
    bitmap_is_set b 72 m2 = Ret (true, m2).
Proof.
  apply (bitmap_implements_set 128 witness_memory _ _ [19; 30; 72] 72);
    [apply witness_memory_wf | lia | reflexivity | | lia | reflexivity].
  repeat (apply List.Forall_cons; [split; [lia|reflexivity]|]). apply List.Forall_nil.
Defined.
