(* ===== verification/LinkedList.v ===== *)
(** * The doubly-linked list of include/list.h

    The macros generate, for a data type, nodes with [prev] and [next]
    pointers allocated one by one.  The model keeps the nodes in a heap of
    typed cells; following a dangling or NULL pointer is [Fault].  [list_rep]
    relates a list object to the sequence of its nodes, and every operation
    refines the corresponding operation on that sequence, without leaking or
    reusing a node. *)

From stdpp Require Import gmap.
From S2P Require Import Prelude.

(** ** Definitions *)

Record node (A : Type) := Node {
  prev : option positive;
  next : option positive;
  data : A;
}.

Record clist (A : Type) := CList {
  cl_size : Z;
  cl_head : option positive;
  cl_tail : option positive;
  cl_heap : gmap positive (node A);   (* the nodes malloc'd for this list *)
  cl_fresh : positive;                (* the next node malloc returns *)
}.

Arguments Node {A} _ _ _.
Arguments prev {A} _.
Arguments next {A} _.
Arguments data {A} _.
Arguments CList {A} _ _ _ _ _.
Arguments cl_size {A} _.
Arguments cl_head {A} _.
Arguments cl_tail {A} _.
Arguments cl_heap {A} _.
Arguments cl_fresh {A} _.

Definition set_prev {A} (p : option positive) (n : node A) : node A :=
  Node p (next n) (data n).

Definition set_next {A} (p : option positive) (n : node A) : node A :=
  Node (prev n) p (data n).

(** Dereference a node pointer and update the node. *)
Definition upd_node {A} (f : node A -> node A) (p : option positive)
    (h : gmap positive (node A)) : outcome (gmap positive (node A)) :=
  p ← get p; n ← get (h !! p); Ret (<[p := f n]> h).

Definition list_init {A} (h : gmap positive (node A)) (fresh : positive) : clist A :=
  CList 0 None None h fresh.

Definition list_size {A} (l : clist A) : Z := cl_size l.

Definition list_begin {A} (l : clist A) : option positive := cl_head l.

Definition list_end {A} (l : clist A) : option positive := cl_tail l.

Definition list_next {A} (l : clist A) (p : positive) : outcome (option positive) :=
  n ← get (cl_heap l !! p); Ret (next n).

Definition list_prev {A} (l : clist A) (p : positive) : outcome (option positive) :=
  n ← get (cl_heap l !! p); Ret (prev n).

(** [node->data] *)
Definition list_data {A} (l : clist A) (p : positive) : outcome A :=
  n ← get (cl_heap l !! p); Ret (data n).

(** The result of malloc is not checked: with as many nodes as there are
    addresses there is none left for another, and NULL is written through. *)
Definition list_add {A} (l : clist A) (d : A) : outcome (positive * clist A) :=
  let nd := cl_fresh l in
  let fresh' := Pos.succ (cl_fresh l) in
  if cl_size l =? u64_max then Fault
  else match cl_head l with
  | None => (* List is empty *)
      Ret (nd, CList (wrap64 (cl_size l + 1)) (Some nd) (Some nd)
                 (<[nd := Node None None d]> (cl_heap l)) fresh')
  | Some _ => (* Append to end of list *)
      h ← upd_node (set_next (Some nd)) (cl_tail l) (cl_heap l);
      Ret (nd, CList (wrap64 (cl_size l + 1)) (cl_head l) (Some nd)
                 (<[nd := Node (cl_tail l) None d]> h) fresh')
  end.

(** Unlink a node: the new head, tail and heap. *)
Definition list_unlink {A} (l : clist A) (p : positive) (n : node A) :
    outcome (option positive * option positive * gmap positive (node A)) :=
  if cl_size l =? 1 then Ret (None, None, cl_heap l)
  else if decide (Some p = cl_head l) then
    h ← upd_node (set_prev None) (next n) (cl_heap l);
    Ret (next n, cl_tail l, h)
  else if decide (Some p = cl_tail l) then
    h ← upd_node (set_next None) (prev n) (cl_heap l);
    Ret (cl_head l, prev n, h)
  else (* In the middle of the list *)
    h ← upd_node (set_next (next n)) (prev n) (cl_heap l);
    h ← upd_node (set_prev (prev n)) (next n) h;
    Ret (cl_head l, cl_tail l, h).

Definition list_remove {A} (l : clist A) (p : positive) :
    outcome (option positive * clist A) :=
  n ← get (cl_heap l !! p);
  '(hd, tl, h) ← list_unlink l p n;
  n' ← get (h !! p);
  Ret (next n', CList (wrap64 (cl_size l - 1)) hd tl (delete p h) (cl_fresh l)).

(** [while(list->head) list_remove(list, list->head)] *)
Fixpoint list_clear {A} (fuel : nat) (l : clist A) : outcome (clist A) :=
  match cl_head l with
  | None => Ret l
  | Some p =>
      match fuel with
      | O => Spin
      | S fuel' => '(_, l') ← list_remove l p; list_clear fuel' l'
      end
  end.

(** ** The sequence a list stands for *)

(** The identity of the node before position [i]. *)
Definition before {A} (L : list (positive * A)) (i : nat) : option positive :=
  match i with O => None | S j => L.*1 !! j end.

Record list_rep {A} (l : clist A) (L : list (positive * A)) : Prop := {
  rep_nodup : NoDup L.*1;
  rep_size : cl_size l = zlen L;
  rep_bound : zlen L < 2 ^ 64;
  rep_head : cl_head l = L.*1 !! 0%nat;
  rep_tail : cl_tail l = last L.*1;
  rep_node : forall i p d, L !! i = Some (p, d) ->
    cl_heap l !! p = Some (Node (before L i) (L.*1 !! S i) d);
  rep_heap : dom (cl_heap l) = list_to_set L.*1;
  rep_fresh : forall p, p ∈ L.*1 -> (p < cl_fresh l)%positive;
}.

(** ** Lemmas *)

Lemma fst_lookup {A} (L : list (positive * A)) i p d :
  L !! i = Some (p, d) -> L.*1 !! i = Some p.
Proof. intros H. by rewrite list_lookup_fmap, H. Qed.

Lemma fst_lookup_inv {A} (L : list (positive * A)) i p :
  L.*1 !! i = Some p -> exists d, L !! i = Some (p, d).
Proof. rewrite list_lookup_fmap, fmap_Some. intros ([q d] & ? & ->). eauto. Qed.

Lemma rep_inj {A} (l : clist A) L i j p d e :
  list_rep l L -> L !! i = Some (p, d) -> L !! j = Some (p, e) -> i = j.
Proof.
  intros Hr Hi Hj. eapply NoDup_lookup; [apply (rep_nodup _ _ Hr)|..];
    by eapply fst_lookup.
Qed.

Lemma list_init_rep {A} fresh : list_rep (list_init (A := A) ∅ fresh) [].
Proof.
  constructor; simpl; try done; try constructor; try set_solver.
Qed.

Lemma list_begin_rep {A} (l : clist A) L :
  list_rep l L -> list_begin l = L.*1 !! 0%nat.
Proof. apply rep_head. Qed.

Lemma list_next_rep {A} (l : clist A) L i p d :
  list_rep l L -> L !! i = Some (p, d) -> list_next l p = Ret (L.*1 !! S i).
Proof. intros Hr Hi. unfold list_next. by rewrite (rep_node _ _ Hr _ _ _ Hi). Qed.

Lemma list_prev_rep {A} (l : clist A) L i p d :
  list_rep l L -> L !! i = Some (p, d) -> list_prev l p = Ret (before L i).
Proof. intros Hr Hi. unfold list_prev. by rewrite (rep_node _ _ Hr _ _ _ Hi). Qed.

Lemma list_data_rep {A} (l : clist A) L i p d :
  list_rep l L -> L !! i = Some (p, d) -> list_data l p = Ret d.
Proof. intros Hr Hi. unfold list_data. by rewrite (rep_node _ _ Hr _ _ _ Hi). Qed.

Lemma rep_size_word {A} (l : clist A) L k :
  list_rep l L -> 0 <= zlen L + k < 2 ^ 64 -> wrap64 (cl_size l + k) = zlen L + k.
Proof. intros Hr ?. rewrite (rep_size _ _ Hr). by apply wrap_small. Qed.

Lemma upd_node_Some {A} f p (h : gmap positive (node A)) n :
  h !! p = Some n -> upd_node f (Some p) h = Ret (<[p := f n]> h).
Proof. unfold upd_node. cbn. by intros ->. Qed.

Lemma before_app {A} (L L' : list (positive * A)) i :
  (i <= length L)%nat -> before (L ++ L') i = before L i.
Proof.
  destruct i; simpl; [done|]. intros. rewrite fmap_app, lookup_app_l; [done|].
  rewrite length_fmap. lia.
Qed.

Lemma list_add_rep {A} (l : clist A) L d :
  list_rep l L -> zlen L + 1 < 2 ^ 64 ->
  exists l', list_add l d = Ret (cl_fresh l, l') /\
    list_rep l' (L ++ [(cl_fresh l, d)]) /\ cl_fresh l ∉ L.*1 /\
    cl_fresh l' = Pos.succ (cl_fresh l).
Proof.
  intros Hr Hb. set (nd := cl_fresh l).
  assert (Hfresh : nd ∉ L.*1) by (intros H%(rep_fresh _ _ Hr); unfold nd in *; lia).
  assert (Hsz : zlen (L ++ [(nd, d)]) = zlen L + 1)
    by (unfold zlen; rewrite length_app; simpl; lia).
  assert (Hnd : NoDup (L ++ [(nd, d)]).*1).
  { rewrite fmap_app. apply NoDup_app. simpl. split; [apply (rep_nodup _ _ Hr)|].
    split; [set_solver|]. apply NoDup_singleton. }
  pose proof (rep_size_word _ _ 1 Hr ltac:(unfold zlen in *; lia)) as Hw.
  unfold list_add. rewrite (proj2 (Z.eqb_neq (cl_size l) u64_max)) by (rewrite (rep_size _ _ Hr); lia).
  rewrite (rep_head _ _ Hr). fold nd.
  destruct L as [|x L0 _] using rev_ind.
  - eexists. split; [reflexivity|]. split; [|done].
    constructor; simpl; rewrite ?Hw; try done.
    + intros [|i] p e; simpl; [|by rewrite lookup_nil]. intros [= <- <-].
      by rewrite lookup_insert_eq.
    + rewrite dom_insert_L, (rep_heap _ _ Hr). set_solver.
    + intros p. rewrite list_elem_of_singleton. unfold nd. lia.
  - destruct x as [t dt]. set (L := L0 ++ [(t, dt)]) in *.
    assert (Ht : L !! length L0 = Some (t, dt)) by (apply list_lookup_middle; done).
    destruct (L.*1 !! 0%nat) as [h0|] eqn:Eh.
    2:{ apply lookup_ge_None in Eh. rewrite length_fmap in Eh. unfold L in Eh.
        rewrite length_app in Eh. simpl in Eh. lia. }
    assert (Etl : cl_tail l = Some t)
      by (rewrite (rep_tail _ _ Hr); unfold L; rewrite fmap_app; simpl; by rewrite last_snoc).
    rewrite Etl, (upd_node_Some _ _ _ _ (rep_node _ _ Hr _ _ _ Ht)).
    cbn [mbind outcome_bind].
    eexists. split; [reflexivity|]. split; [|done].
    assert (Hlen : length L = S (length L0)) by (unfold L; rewrite length_app; simpl; lia).
    constructor; simpl; rewrite ?Hw; try done.
    + by rewrite Hsz.
    + by rewrite fmap_app, lookup_app_l by (rewrite length_fmap; lia).
    + rewrite fmap_app. simpl. by rewrite last_snoc.
    + intros i p e Hi. apply lookup_app_Some in Hi as [Hi|[Hge Hi]].
      * pose proof (lookup_lt_Some _ _ _ Hi) as Hlt.
        rewrite lookup_insert_ne by (intros <-; by eapply Hfresh, list_elem_of_lookup_2, fst_lookup).
        rewrite before_app by lia. unfold set_next. simpl.
        destruct (decide (i = length L0)) as [->|Hne].
        -- rewrite Ht in Hi. injection Hi as <- <-. rewrite lookup_insert_eq. do 2 f_equal.
           rewrite fmap_app, lookup_app_r, length_fmap, Hlen by (rewrite length_fmap; lia).
           by rewrite Nat.sub_diag.
        -- rewrite lookup_insert_ne by (intros ->; by eapply Hne, rep_inj).
           rewrite (rep_node _ _ Hr _ _ _ Hi). do 2 f_equal.
           rewrite fmap_app, lookup_app_l by (rewrite length_fmap; lia). done.
      * destruct (i - length L)%nat eqn:Ei; [|done]. simpl in Hi. injection Hi as <- <-.
        rewrite lookup_insert_eq. replace i with (length L) by lia.
        rewrite before_app by lia. rewrite Hlen. simpl.
        rewrite (fst_lookup _ _ _ _ Ht). do 2 f_equal.
        symmetry. apply lookup_ge_None. rewrite length_fmap, length_app. simpl. lia.
    + rewrite !dom_insert_L, (rep_heap _ _ Hr), fmap_app, list_to_set_app_L. simpl.
      assert (t ∈ L.*1) by (by eapply list_elem_of_lookup_2, fst_lookup).
      set_solver.
    + intros p. rewrite fmap_app, elem_of_app. intros [H%(rep_fresh _ _ Hr)|H]; [lia|].
      simpl in H. apply list_elem_of_singleton in H. subst. unfold nd. lia.
Qed.

(** What unlinking the node at position [i] leaves: the head and tail of the
    remaining sequence, and every other node with its pointers redirected past
    the removed one. *)
Record unlinked {A} (l : clist A) (L : list (positive * A)) (i : nat) (p : positive)
    (r : option positive * option positive * gmap positive (node A)) : Prop := {
  ul_head : r.1.1 = (delete i L).*1 !! 0%nat;
  ul_tail : r.1.2 = last (delete i L).*1;
  ul_dom : dom r.2 = dom (cl_heap l);
  ul_self : next <$> r.2 !! p = Some (L.*1 !! S i);
  ul_node : forall j q e, j <> i -> L !! j = Some (q, e) ->
    r.2 !! q = Some (Node (if decide (j = S i) then before L i else before L j)
                          (if decide (S j = i) then L.*1 !! S i else L.*1 !! S j) e);
}.

Lemma fst_delete {A} (L : list (positive * A)) i : (delete i L).*1 = delete i L.*1.
Proof. revert i. induction L as [|x L IH]; intros [|i]; simpl; f_equal; auto. Qed.

Lemma last_delete_lt {A} (l : list A) i :
  (S i < length l)%nat -> last (delete i l) = last l.
Proof.
  intros H. rewrite !last_lookup. rewrite length_delete by (apply lookup_lt_is_Some; lia).
  rewrite list_lookup_delete_ge by lia. f_equal. lia.
Qed.

Lemma last_delete_last {A} (l : list A) i :
  length l = S (S i) -> last (delete (S i) l) = l !! i.
Proof.
  intros H. rewrite last_lookup, length_delete by (apply lookup_lt_is_Some; lia).
  rewrite list_lookup_delete_lt by lia. f_equal. lia.
Qed.

Section unlink.
Context {A : Type} (l : clist A) (L : list (positive * A)).
Hypothesis Hrep : list_rep l L.

Lemma rep_other i p d j q e :
  L !! i = Some (p, d) -> j <> i -> L !! j = Some (q, e) -> q <> p.
Proof. intros Hi Hne Hj ->. by eapply Hne, rep_inj. Qed.

Lemma rep_length : (length L.*1 = length L)%nat.
Proof. apply length_fmap. Qed.

Lemma unlink_single i p d :
  L !! i = Some (p, d) -> cl_size l = 1 -> exists r, list_unlink l p (Node (before L i) (L.*1 !! S i) d) = Ret r /\ unlinked l L i p r.
Proof.
  intros Hi Hs. unfold list_unlink. rewrite Hs. simpl. eexists. split; [done|].
  rewrite (rep_size _ _ Hrep) in Hs. unfold zlen in Hs.
  destruct L as [|x [|]]; simpl in Hs; try lia.
  destruct i as [|i']; [|done]. simpl in Hi. injection Hi as ->.
  constructor; simpl; try done.
  - pose proof (rep_node _ _ Hrep 0%nat p d eq_refl) as ->. done.
  - intros [|j] q e; [done|]. by rewrite lookup_nil.
Qed.

Lemma unlink_head i p d :
  L !! i = Some (p, d) -> cl_size l <> 1 -> i = 0%nat ->
  exists r, list_unlink l p (Node (before L i) (L.*1 !! S i) d) = Ret r /\ unlinked l L i p r.
Proof.
  intros Hi Hs ->. unfold list_unlink.
  rewrite (rep_size _ _ Hrep) in *. destruct (Z.eqb_spec (zlen L) 1); [done|].
  pose proof (lookup_lt_Some _ _ _ Hi) as Hlt. unfold zlen in *.
  destruct (lookup_lt_is_Some_2 L 1) as [[q e] Hq]; [lia|].
  rewrite decide_True by (by rewrite (rep_head _ _ Hrep), (fst_lookup _ _ _ _ Hi)).
  cbn [next]. rewrite (fst_lookup _ _ _ _ Hq).
  rewrite (upd_node_Some _ _ _ _ (rep_node _ _ Hrep _ _ _ Hq)).
  eexists. split; [reflexivity|]. constructor; cbn [fst snd].
  - rewrite fst_delete, list_lookup_delete_ge by lia. by rewrite (fst_lookup _ _ _ _ Hq).
  - rewrite fst_delete, last_delete_lt by (rewrite rep_length; lia). apply (rep_tail _ _ Hrep).
  - rewrite dom_insert_L. pose proof (rep_node _ _ Hrep _ _ _ Hq) as E%elem_of_dom_2. set_solver.
  - rewrite lookup_insert_ne by (eapply rep_other; [exact Hi| |exact Hq]; lia). by rewrite (rep_node _ _ Hrep _ _ _ Hi).
  - intros j q' e' Hne Hj. rewrite (decide_False (P := S j = 0%nat)) by lia.
    case_decide as Ej.
    + subst j. rewrite Hq in Hj. injection Hj as <- <-. by rewrite lookup_insert_eq.
    + rewrite lookup_insert_ne by (intros ->; by eapply Ej, rep_inj).
      apply (rep_node _ _ Hrep _ _ _ Hj).
Qed.

Lemma unlink_tail i p d k :
  L !! i = Some (p, d) -> i = S k -> S i = length L -> exists r, list_unlink l p (Node (before L i) (L.*1 !! S i) d) = Ret r /\ unlinked l L i p r.
Proof.
  intros Hi -> Hlen. unfold list_unlink. rewrite (rep_size _ _ Hrep).
  destruct (Z.eqb_spec (zlen L) 1) as [E|_]; [unfold zlen in E; lia|].
  rewrite decide_False.
  2:{ rewrite (rep_head _ _ Hrep). intros [? H]%eq_sym%fst_lookup_inv.
      pose proof (rep_inj _ _ _ _ _ _ _ Hrep Hi H). lia. }
  rewrite decide_True.
  2:{ rewrite (rep_tail _ _ Hrep), last_lookup, rep_length, <- Hlen. simpl.
      by rewrite (fst_lookup _ _ _ _ Hi). }
  destruct (lookup_lt_is_Some_2 L k) as [[q e] Hq]; [lia|].
  cbn [prev before]. rewrite (fst_lookup _ _ _ _ Hq).
  rewrite (upd_node_Some _ _ _ _ (rep_node _ _ Hrep _ _ _ Hq)).
  assert (Hend : L.*1 !! S (S k) = None) by (apply lookup_ge_None; rewrite rep_length; lia).
  eexists. split; [reflexivity|]. constructor; cbn [fst snd].
  - rewrite fst_delete, list_lookup_delete_lt by lia. apply (rep_head _ _ Hrep).
  - rewrite fst_delete, last_delete_last by (rewrite rep_length; lia).
    by rewrite (fst_lookup _ _ _ _ Hq).
  - rewrite dom_insert_L. pose proof (rep_node _ _ Hrep _ _ _ Hq) as E%elem_of_dom_2. set_solver.
  - rewrite lookup_insert_ne by (eapply rep_other; [exact Hi| |exact Hq]; lia).
    by rewrite (rep_node _ _ Hrep _ _ _ Hi).
  - intros j q' e' Hne Hj. pose proof (lookup_lt_Some _ _ _ Hj).
    rewrite (decide_False (P := j = S (S k))) by lia. rewrite Hend.
    case_decide as Ej.
    + injection Ej as ->. rewrite Hq in Hj. injection Hj as <- <-. by rewrite lookup_insert_eq.
    + rewrite lookup_insert_ne by (intros ->; eapply Ej; f_equal; by eapply rep_inj).
      apply (rep_node _ _ Hrep _ _ _ Hj).
Qed.

Lemma unlink_middle i p d k :
  L !! i = Some (p, d) -> i = S k -> (S i < length L)%nat ->
  exists r, list_unlink l p (Node (before L i) (L.*1 !! S i) d) = Ret r /\ unlinked l L i p r.
Proof.
  intros Hi -> Hlen. unfold list_unlink. rewrite (rep_size _ _ Hrep).
  destruct (Z.eqb_spec (zlen L) 1) as [E|_]; [unfold zlen in E; lia|].
  rewrite decide_False.
  2:{ rewrite (rep_head _ _ Hrep). intros [? H]%eq_sym%fst_lookup_inv.
      pose proof (rep_inj _ _ _ _ _ _ _ Hrep Hi H). lia. }
  rewrite decide_False.
  2:{ rewrite (rep_tail _ _ Hrep), last_lookup, rep_length.
      intros [? H]%eq_sym%fst_lookup_inv.
      pose proof (rep_inj _ _ _ _ _ _ _ Hrep Hi H). lia. }
  destruct (lookup_lt_is_Some_2 L k) as [[q e] Hq]; [lia|].
  destruct (lookup_lt_is_Some_2 L (S (S k))) as [[s f] Hs]; [lia|].
  assert (Hqs : q <> s) by (intros ->; pose proof (rep_inj _ _ _ _ _ _ _ Hrep Hq Hs); lia).
  cbn [prev next before].
  rewrite (fst_lookup _ _ _ _ Hq), (fst_lookup _ _ _ _ Hs).
  rewrite (upd_node_Some _ _ _ _ (rep_node _ _ Hrep _ _ _ Hq)). cbn [mbind outcome_bind].
  erewrite upd_node_Some
    by (rewrite lookup_insert_ne by done; apply (rep_node _ _ Hrep _ _ _ Hs)).
  eexists. split; [reflexivity|]. constructor; cbn [fst snd].
  - rewrite fst_delete, list_lookup_delete_lt by lia. apply (rep_head _ _ Hrep).
  - rewrite fst_delete, last_delete_lt by (rewrite rep_length; lia). apply (rep_tail _ _ Hrep).
  - rewrite !dom_insert_L. pose proof (rep_node _ _ Hrep _ _ _ Hq) as E%elem_of_dom_2.
    pose proof (rep_node _ _ Hrep _ _ _ Hs) as F%elem_of_dom_2. set_solver.
  - rewrite !lookup_insert_ne by (eapply rep_other; [exact Hi| |eassumption]; lia).
    rewrite (rep_node _ _ Hrep _ _ _ Hi). cbn. by rewrite (fst_lookup _ _ _ _ Hs).
  - intros j q' e' Hne Hj. destruct (decide (j = S (S k))) as [->|Ej].
    + rewrite Hs in Hj. injection Hj as <- <-. rewrite lookup_insert_eq.
      rewrite decide_False by lia. unfold set_prev; cbn. by rewrite (fst_lookup _ _ _ _ Hq).
    + rewrite lookup_insert_ne by (intros ->; by eapply Ej, rep_inj).
      case_decide as Ek.
      * injection Ek as ->. rewrite Hq in Hj. injection Hj as <- <-.
        rewrite lookup_insert_eq. unfold set_next; cbn. by rewrite (fst_lookup _ _ _ _ Hs).
      * rewrite lookup_insert_ne by (intros ->; eapply Ek; f_equal; by eapply rep_inj).
        apply (rep_node _ _ Hrep _ _ _ Hj).
Qed.

Lemma unlink_spec i p d :
  L !! i = Some (p, d) ->
  exists r, list_unlink l p (Node (before L i) (L.*1 !! S i) d) = Ret r /\ unlinked l L i p r.
Proof.
  intros Hi. pose proof (lookup_lt_Some _ _ _ Hi).
  destruct (decide (cl_size l = 1)); [by apply unlink_single|].
  destruct i as [|k]; [by apply unlink_head|].
  destruct (decide (S (S k) = length L)); [by apply unlink_tail with k|].
  apply unlink_middle with k; [done..|]. lia.
Qed.
End unlink.

Lemma unlinked_next {A} (l : clist A) L i p r :
  unlinked l L i p r -> exists n, r.2 !! p = Some n /\ next n = L.*1 !! S i.
Proof.
  intros H. pose proof (ul_self _ _ _ _ _ H) as E. apply fmap_Some in E as (n & ? & ?). eauto.
Qed.

Lemma before_delete {A} (L : list (positive * A)) i j :
  before (delete i L) j =
  if decide (j < i)%nat then before L j
  else if decide (j = i) then before L i else before L (S j).
Proof.
  destruct j as [|j]; simpl.
  - repeat case_decide; try done; try lia; by subst.
  - rewrite fst_delete, list_lookup_delete. repeat case_decide; try done; try lia.
    by subst.
Qed.

Lemma list_to_set_delete (l : list positive) i p :
  NoDup l -> l !! i = Some p ->
  list_to_set l ∖ {[p]} = (list_to_set (delete i l) : gset positive).
Proof.
  intros Hnd Hi. pose proof (delete_Permutation _ _ _ Hi) as Hp.
  assert (p ∉ delete i l) by (rewrite Hp in Hnd; by inversion Hnd).
  rewrite (list_to_set_perm_L _ _ Hp). simpl. set_solver.
Qed.

Lemma list_remove_rep {A} (l : clist A) L i p d :
  list_rep l L -> L !! i = Some (p, d) ->
  exists l', list_remove l p = Ret (L.*1 !! S i, l') /\
    list_rep l' (delete i L) /\ cl_fresh l' = cl_fresh l.
Proof.
  intros Hr Hi. unfold list_remove. rewrite (rep_node _ _ Hr _ _ _ Hi). cbn [get mbind outcome_bind].
  destruct (unlink_spec l L Hr i p d Hi) as ([[hd tl] h] & -> & Hu). cbn [mbind outcome_bind].
  destruct (unlinked_next _ _ _ _ _ Hu) as (n' & Hn & <-). cbn [snd] in Hn. rewrite Hn.
  cbn [get mbind outcome_bind].
  eexists. split; [reflexivity|]. split; [|done].
  pose proof (lookup_lt_Some _ _ _ Hi) as Hlt.
  assert (Hlen : zlen (delete i L) = zlen L - 1)
    by (unfold zlen; rewrite length_delete by eauto; lia).
  constructor; cbn [cl_size cl_head cl_tail cl_heap cl_fresh].
  - rewrite fst_delete. eapply sublist_NoDup; [apply (rep_nodup _ _ Hr)|apply sublist_delete].
  - rewrite Hlen. pose proof (rep_bound _ _ Hr).
    apply (rep_size_word _ _ (-1) Hr). unfold zlen in *; lia.
  - pose proof (rep_bound _ _ Hr). lia.
  - apply (ul_head _ _ _ _ _ Hu).
  - apply (ul_tail _ _ _ _ _ Hu).
  - intros j q e Hj. rewrite list_lookup_delete in Hj.
    rewrite lookup_delete_ne by (intros ->; case_decide; pose proof (rep_inj _ _ _ _ _ _ _ Hr Hi Hj); lia).
    assert (Hji : (if decide (j < i)%nat then j else S j) <> i) by (case_decide; lia).
    pose proof (ul_node _ _ _ _ _ Hu _ _ _ Hji Hj) as E. cbn [snd] in E. rewrite E.
    rewrite before_delete, fst_delete, list_lookup_delete. do 2 f_equal.
    + repeat case_decide; try done; try lia; by (do 2 f_equal; lia).
    + repeat case_decide; try done; try lia; by (f_equal; lia).
  - pose proof (ul_dom _ _ _ _ _ Hu) as E. cbn [snd] in E.
    rewrite dom_delete_L, E, (rep_heap _ _ Hr), fst_delete.
    apply list_to_set_delete; [apply (rep_nodup _ _ Hr)|by eapply fst_lookup].
  - intros q Hq. apply (rep_fresh _ _ Hr). rewrite fst_delete in Hq.
    eapply elem_of_sublist; [exact Hq|apply sublist_delete].
Qed.

(** Some sequence is represented; adding and removing keep it so. *)
Definition tidy {A} (l : clist A) : Prop := exists L, list_rep l L.

Lemma list_init_tidy {A} fresh : tidy (list_init (A := A) ∅ fresh).
Proof. exists []. apply list_init_rep. Qed.

Lemma list_add_tidy {A} (l : clist A) d p l' : tidy l -> list_add l d = Ret (p, l') -> tidy l'.
Proof.
  intros [L Hr] E. assert (zlen L + 1 < 2 ^ 64).
  { pose proof (rep_bound _ _ Hr). unfold list_add in E. rewrite (rep_size _ _ Hr) in E.
    destruct (Z.eqb_spec (zlen L) u64_max); [done|lia]. }
  destruct (list_add_rep l L d Hr) as (l2 & E2 & Hr2 & _); [done|].
  rewrite E in E2. injection E2 as _ <-. by eexists.
Qed.

Lemma list_remove_tidy {A} (l : clist A) p q l' : tidy l -> list_remove l p = Ret (q, l') -> tidy l'.
Proof.
  intros [L Hr] E. destruct (cl_heap l !! p) as [n|] eqn:En; [|by unfold list_remove in E; rewrite En in E].
  assert (Hp : p ∈ L.*1).
  { apply (elem_of_list_to_set (C := gset positive)). rewrite <- (rep_heap _ _ Hr). by apply elem_of_dom_2 in En. }
  apply list_elem_of_lookup in Hp as [i Hi]. rewrite list_lookup_fmap in Hi.
  destruct (L !! i) as [[p' d]|] eqn:EL; [|done]. injection Hi as ->.
  destruct (list_remove_rep l L i p d Hr EL) as (l2 & E2 & Hr2 & _). rewrite E in E2. injection E2 as _ <-. by eexists.
Qed.

(** [list_clear] empties the list, in as many steps as it has nodes, and frees
    every node. *)
Lemma list_clear_rep {A} fuel (l : clist A) L :
  list_rep l L -> (length L <= fuel)%nat ->
  exists l', list_clear fuel l = Ret l' /\ list_rep l' [] /\ cl_heap l' = ∅.
Proof.
  revert fuel l. induction L as [|[p d] L IH]; intros fuel l Hr Hf.
  - exists l. destruct fuel; simpl; rewrite (rep_head _ _ Hr); simpl;
      (split; [done|]; split; [done|]); apply dom_empty_inv_L, (rep_heap _ _ Hr).
  - destruct fuel as [|fuel]; simpl in Hf; [lia|]. simpl. rewrite (rep_head _ _ Hr). simpl.
    destruct (list_remove_rep l _ 0 p d Hr eq_refl) as (l1 & -> & Hr1 & _).
    apply (IH fuel l1 Hr1). lia.
Qed.

(** ** The interface the rewriting code relies on

    A list object promises sequences: the clients never look at the links. *)
Class SequenceOps (A T : Type) := {
  seq_rep : T -> list (positive * A) -> Prop;
  seq_begin : T -> option positive;
  seq_next : T -> positive -> outcome (option positive);
  seq_data : T -> positive -> outcome A;
  seq_add : T -> A -> outcome (positive * T);
  seq_remove : T -> positive -> outcome (option positive * T);
}.

Class SequenceLaws (A T : Type) `{SequenceOps A T} := {
  law_begin : forall l L, seq_rep l L -> seq_begin l = L.*1 !! 0%nat;
  law_next : forall l L i p d, seq_rep l L -> L !! i = Some (p, d) ->
    seq_next l p = Ret (L.*1 !! S i);
  law_data : forall l L i p d, seq_rep l L -> L !! i = Some (p, d) ->
    seq_data l p = Ret d;
  law_add : forall l L d, seq_rep l L -> zlen L + 1 < 2 ^ 64 ->
    exists p l', seq_add l d = Ret (p, l') /\ seq_rep l' (L ++ [(p, d)]) /\ p ∉ L.*1;
  law_remove : forall l L i p d, seq_rep l L -> L !! i = Some (p, d) ->
    exists l', seq_remove l p = Ret (L.*1 !! S i, l') /\ seq_rep l' (delete i L);
}.

#[export] Instance clist_ops A : SequenceOps A (clist A) := {|
  seq_rep := list_rep;
  seq_begin := list_begin;
  seq_next := list_next;
  seq_data := list_data;
  seq_add := list_add;
  seq_remove := list_remove;
|}.

#[export] Instance clist_laws A : SequenceLaws A (clist A).
Proof.
  constructor; simpl.
  - apply @list_begin_rep.
  - apply @list_next_rep.
  - apply @list_data_rep.
  - intros l L d Hr Hb. destruct (list_add_rep l L d Hr Hb) as (l' & ? & ? & ? & _). eauto.
  - intros l L i p d Hr Hi. destruct (list_remove_rep l L i p d Hr Hi) as (l' & ? & ? & _). eauto.
Qed.

(** ** Reachable lists *)

(** The lists a client can build: [list_init], then appends and removals of
    nodes it holds. *)
Inductive reachable {A} : clist A -> list (positive * A) -> Prop :=
  | reach_init fresh : reachable (list_init ∅ fresh) []
  | reach_add l L d p l' :
      reachable l L -> zlen L + 1 < 2 ^ 64 ->
      list_add l d = Ret (p, l') -> reachable l' (L ++ [(p, d)])
  | reach_remove l L i p d r l' :
      reachable l L -> L !! i = Some (p, d) ->
      list_remove l p = Ret (r, l') -> reachable l' (delete i L).

Lemma reachable_rep {A} (l : clist A) L : reachable l L -> list_rep l L.
Proof.
  induction 1 as [|l L d p l' _ IH Hb E|l L i p d r l' _ IH Hi E].
  - apply list_init_rep.
  - destruct (list_add_rep l L d IH Hb) as (l2 & E2 & ? & _). rewrite E in E2.
    by injection E2 as -> ->.
  - destruct (list_remove_rep l L i p d IH Hi) as (l2 & E2 & ? & _). rewrite E in E2.
    by injection E2 as -> ->.
Qed.

(** ** Properties *)

(** Every list a client reaches through [list_init], [list_add] and
    [list_remove] stands for the sequence of the data it appended and did not
    remove: appending never fails and adds at the end, removing the node at any
    position (single, head, tail or middle) never follows a NULL or freed link,
    returns the node after it, and deletes that position; forward traversal
    visits the sequence in order; and the live nodes are exactly its nodes, so
    none leaks. *)
Theorem list_refines_sequence {A} (l : clist A) L :
  reachable l L ->
  list_size l = zlen L /\
  list_begin l = L.*1 !! 0%nat /\
  dom (cl_heap l) = list_to_set L.*1 /\
  (forall i p d, L !! i = Some (p, d) ->
     list_data l p = Ret d /\ list_next l p = Ret (L.*1 !! S i) /\
     exists l', list_remove l p = Ret (L.*1 !! S i, l') /\ reachable l' (delete i L)) /\
  (forall d, zlen L + 1 < 2 ^ 64 ->
     exists p l', list_add l d = Ret (p, l') /\ reachable l' (L ++ [(p, d)]) /\ p ∉ L.*1).
Proof.
  intros Hre. pose proof (reachable_rep _ _ Hre) as Hr.
  split; [apply (rep_size _ _ Hr)|]. split; [apply (rep_head _ _ Hr)|].
  split; [apply (rep_heap _ _ Hr)|]. split.
  - intros i p d Hi. split; [by eapply list_data_rep|]. split; [by eapply list_next_rep|].
    destruct (list_remove_rep l L i p d Hr Hi) as (l' & E & _). eauto using @reachable.
  - intros d Hb. destruct (list_add_rep l L d Hr Hb) as (l' & E & _ & ? & _).
    do 2 eexists. eauto using @reachable.
Qed.

Lemma list_refines_sequence_witness :
  exists l : clist Z, reachable l [(1%positive, 7)] /\ list_size l = 1 /\
    list_begin l = Some 1%positive.
Proof.
  eexists. split.
  - apply (reach_add (list_init ∅ 1) [] 7 1%positive); [apply reach_init|done|reflexivity].
  - refine (let H := list_refines_sequence _ [(1%positive, 7)] _ in
            conj (proj1 H) (proj1 (proj2 H))).
    apply (reach_add (list_init ∅ 1) [] 7 1%positive); [apply reach_init|done|reflexivity].
Defined.

(** [list_clear] terminates within as many removals as the list has nodes
    and leaves the empty list with every node freed. *)
Theorem list_clear_empties {A} (l : clist A) L :
  reachable l L ->
  exists l', list_clear (Z.to_nat (list_size l)) l = Ret l' /\
    list_begin l' = None /\ list_size l' = 0 /\ cl_heap l' = ∅.
Proof.
  intros Hr%reachable_rep. unfold list_size. rewrite (rep_size _ _ Hr).
  destruct (list_clear_rep (Z.to_nat (zlen L)) l L Hr) as (l' & ? & Hr' & ?);
    [unfold zlen; lia|].
  exists l'. split; [done|]. split; [apply (rep_head _ _ Hr')|].
  split; [apply (rep_size _ _ Hr')|done].
Qed.

Lemma list_clear_empties_witness :
  exists l l' : clist Z, list_clear 1 l = Ret l' /\ list_begin l' = None /\
    list_begin l = Some 1%positive.
Proof.
  destruct (list_add (list_init (A := Z) ∅ 1) 7) as [[p l]|c| |] eqn:E;
    [|discriminate E..].
  exists l.
  destruct (list_clear_empties l [(p, 7)]) as (l' & H1 & H2 & _);
    [apply (reach_add (list_init ∅ 1) [] 7 p); [apply reach_init|done|exact E]|].
  exists l'. injection E as <- <-. split; [exact H1|]. split; [exact H2|reflexivity].
Defined.
