(* ===== verification/CallSite.v ===== *)
(** * Call-site metadata (common/stack_transformation/include/call_site.h)

    The records the compiler emits, the metadata tool rewrites and the runtime
    reads.  They are packed, little-endian and have bit fields laid out from
    the least significant bit; the codecs below are that layout, and the
    round-trip theorem is what lets the tool and the runtime exchange them as
    raw section bytes. *)

From S2P Require Import Prelude Machine.

(** ** Records *)

Record unwind_addr := UnwindAddr {
  ua_addr : Z;            (* uint64_t: function address *)
  ua_num_unwind : Z;      (* uint32_t *)
  ua_unwind_offset : Z;   (* uint32_t *)
}.

Record unwind_loc := UnwindLoc {
  ul_reg : Z;             (* uint16_t *)
  ul_offset : Z;          (* int16_t: offset from the frame base pointer *)
}.

Record call_site := CallSite {
  cs_id : Z;              (* uint64_t *)
  cs_addr : Z;            (* uint64_t: return address *)
  cs_frame_size : Z;      (* uint32_t *)
  cs_num_unwind : Z;      (* uint16_t *)
  cs_unwind_offset : Z;   (* uint64_t *)
  cs_num_live : Z;        (* uint16_t *)
  cs_live_offset : Z;     (* uint64_t *)
  cs_num_arch_live : Z;   (* uint16_t *)
  cs_arch_live_offset : Z; (* uint64_t *)
  cs_padding : Z;         (* uint16_t *)
}.

Definition EMPTY_CALL_SITE : call_site := CallSite 0 0 0 0 0 0 0 0 0 u16_max.

(** enum location_type *)
Definition SM_REGISTER : Z := 1.
Definition SM_DIRECT : Z := 2.
Definition SM_INDIRECT : Z := 3.
Definition SM_CONSTANT : Z := 4.
Definition SM_CONST_IDX : Z := 5.

Record live_value := LiveValue {
  is_duplicate : bool;
  is_alloca : bool;
  is_ptr : bool;
  lv_bit_pad : bool;
  lv_type : Z;               (* 4 bits *)
  lv_size : Z;               (* uint8_t *)
  lv_regnum : Z;             (* uint16_t *)
  lv_offset_or_constant : Z; (* int32_t *)
  lv_alloca_size : Z;        (* uint32_t *)
}.

(** enum inst_type (StackTransformTypes.def) *)
Inductive inst_type : Set :=
  | Set_ | Add | Subtract | Multiply | Divide | LeftShift | RightShiftLog
  | RightShiftArith | Mask | Load | StackSlot | ConstantPool.

#[export] Instance inst_type_eq_dec : EqDecision inst_type.
Proof. solve_decision. Defined.

Definition inst_types : list inst_type :=
  [Set_; Add; Subtract; Multiply; Divide; LeftShift; RightShiftLog;
   RightShiftArith; Mask; Load; StackSlot; ConstantPool].

Record arch_live_value := ArchLiveValue {
  al_is_ptr : bool;
  al_bit_pad : Z;                      (* 3 bits *)
  al_type : Z;                         (* 4 bits *)
  al_size : Z;                         (* uint8_t *)
  al_regnum : Z;                       (* uint16_t *)
  al_offset : Z;                       (* uint32_t *)
  al_operand_type : Z;                 (* 4 bits *)
  al_inst_type : Z;                    (* 4 bits *)
  al_operand_size : Z;                 (* uint8_t *)
  al_operand_regnum : Z;               (* uint16_t *)
  al_operand_offset_or_constant : Z;   (* int64_t *)
}.

(** [VAL_SIZE(val)] of definitions.h *)
Definition VAL_SIZE (v : live_value) : Z :=
  if is_alloca v then lv_alloca_size v else lv_size v.

(** ** On-disk layout *)

(** A field of [n] bytes. *)
Definition put_fields (fs : list (nat * Z)) : list Z :=
  concat ((fun '(n, v) => le_bytes n v) <$> fs).

Fixpoint take_fields (ws : list nat) (bs : list Z) : option (list Z * list Z) :=
  match ws with
  | [] => Some ([], bs)
  | w :: ws' =>
      if decide (w <= length bs)%nat then
        '(vs, rest) ← take_fields ws' (drop w bs);
        Some (le_value (take w bs) :: vs, rest)
      else None
  end.

(** Bit fields of one byte, least significant first. *)
Definition bit (b : bool) : Z := if b then 1 else 0.

Definition lv_flags (v : live_value) : Z :=
  bit (is_duplicate v) + 2 * bit (is_alloca v) + 4 * bit (is_ptr v)
  + 8 * bit (lv_bit_pad v) + 16 * lv_type v.

Definition live_value_widths : list nat := [1; 1; 2; 4; 4]%nat.

Definition encode_live_value (v : live_value) : list Z :=
  put_fields [(1%nat, lv_flags v); (1%nat, lv_size v); (2%nat, lv_regnum v);
              (4%nat, lv_offset_or_constant v); (4%nat, lv_alloca_size v)].

Definition decode_live_value (bs : list Z) : option (live_value * list Z) :=
  '(vs, rest) ← take_fields live_value_widths bs;
  match vs with
  | [flags; size; regnum; off; asz] =>
      Some (LiveValue (Z.odd flags) (Z.odd (flags / 2)) (Z.odd (flags / 4))
              (Z.odd (flags / 8)) (flags / 16) size regnum (signed 32 off) asz, rest)
  | _ => None
  end.

Definition call_site_widths : list nat := [8; 8; 4; 2; 8; 2; 8; 2; 8; 2]%nat.

Definition encode_call_site (c : call_site) : list Z :=
  put_fields (zip call_site_widths
    [cs_id c; cs_addr c; cs_frame_size c; cs_num_unwind c; cs_unwind_offset c;
     cs_num_live c; cs_live_offset c; cs_num_arch_live c; cs_arch_live_offset c;
     cs_padding c]).

Definition decode_call_site (bs : list Z) : option (call_site * list Z) :=
  '(vs, rest) ← take_fields call_site_widths bs;
  match vs with
  | [id; addr; fs; nu; uo; nl; lo; na; ao; pad] =>
      Some (CallSite id addr fs nu uo nl lo na ao pad, rest)
  | _ => None
  end.

Definition arch_live_widths : list nat := [1; 1; 2; 4; 1; 1; 2; 8]%nat.

Definition encode_arch_live (v : arch_live_value) : list Z :=
  put_fields (zip arch_live_widths
    [bit (al_is_ptr v) + 2 * al_bit_pad v + 16 * al_type v; al_size v; al_regnum v;
     al_offset v; al_operand_type v + 16 * al_inst_type v; al_operand_size v;
     al_operand_regnum v; al_operand_offset_or_constant v]).

Definition decode_arch_live (bs : list Z) : option (arch_live_value * list Z) :=
  '(vs, rest) ← take_fields arch_live_widths bs;
  match vs with
  | [flags; size; regnum; off; op; osz; oreg; ooff] =>
      Some (ArchLiveValue (Z.odd flags) (flags / 2 mod 8) (flags / 16) size regnum off
              (op mod 16) (op / 16) osz oreg (signed 64 ooff), rest)
  | _ => None
  end.

Definition encode_unwind_addr (u : unwind_addr) : list Z :=
  put_fields [(8%nat, ua_addr u); (4%nat, ua_num_unwind u); (4%nat, ua_unwind_offset u)].

Definition decode_unwind_addr (bs : list Z) : option (unwind_addr * list Z) :=
  '(vs, rest) ← take_fields [8; 4; 4]%nat bs;
  match vs with [a; n; o] => Some (UnwindAddr a n o, rest) | _ => None end.

Definition encode_unwind_loc (u : unwind_loc) : list Z :=
  put_fields [(2%nat, ul_reg u); (2%nat, ul_offset u)].

Definition decode_unwind_loc (bs : list Z) : option (unwind_loc * list Z) :=
  '(vs, rest) ← take_fields [2; 2]%nat bs;
  match vs with [r; o] => Some (UnwindLoc r (signed 16 o), rest) | _ => None end.

(** A section: the records one after the other. *)
Fixpoint decode_section {R} (decode : list Z -> option (R * list Z))
    (fuel : nat) (bs : list Z) : option (list R) :=
  match bs, fuel with
  | [], _ => Some []
  | _, O => None
  | _, S fuel' =>
      '(r, rest) ← decode bs;
      rs ← decode_section decode fuel' rest;
      Some (r :: rs)
  end.

Definition encode_section {R} (encode : R -> list Z) (rs : list R) : list Z :=
  concat (encode <$> rs).

(** ** Well-typed records: every field has the values of its C type *)

Definition uint (w z : Z) : Prop := 0 <= z < 2 ^ w.
Definition sint (w z : Z) : Prop := - 2 ^ (w - 1) <= z < 2 ^ (w - 1).

Definition live_value_typed (v : live_value) : Prop :=
  uint 4 (lv_type v) /\ uint 8 (lv_size v) /\ uint 16 (lv_regnum v) /\
  sint 32 (lv_offset_or_constant v) /\ uint 32 (lv_alloca_size v).

Definition call_site_typed (c : call_site) : Prop :=
  uint 64 (cs_id c) /\ uint 64 (cs_addr c) /\ uint 32 (cs_frame_size c) /\
  uint 16 (cs_num_unwind c) /\ uint 64 (cs_unwind_offset c) /\
  uint 16 (cs_num_live c) /\ uint 64 (cs_live_offset c) /\
  uint 16 (cs_num_arch_live c) /\ uint 64 (cs_arch_live_offset c) /\
  uint 16 (cs_padding c).

Definition arch_live_typed (v : arch_live_value) : Prop :=
  uint 3 (al_bit_pad v) /\ uint 4 (al_type v) /\ uint 8 (al_size v) /\
  uint 16 (al_regnum v) /\ uint 32 (al_offset v) /\ uint 4 (al_operand_type v) /\
  uint 4 (al_inst_type v) /\ uint 8 (al_operand_size v) /\
  uint 16 (al_operand_regnum v) /\ sint 64 (al_operand_offset_or_constant v).

Definition unwind_addr_typed (u : unwind_addr) : Prop :=
  uint 64 (ua_addr u) /\ uint 32 (ua_num_unwind u) /\ uint 32 (ua_unwind_offset u).

Definition unwind_loc_typed (u : unwind_loc) : Prop :=
  uint 16 (ul_reg u) /\ sint 16 (ul_offset u).

(** ** Lemmas *)

Lemma take_put_fields fs rest :
  take_fields fs.*1 (put_fields fs ++ rest) =
  Some ((fun '(n, v) => wrap (8 * Z.of_nat n) v) <$> fs, rest).
Proof.
  unfold put_fields. induction fs as [|[n v] fs IH]; [done|].
  cbn [fmap list_fmap fst concat take_fields]. rewrite <- app_assoc.
  rewrite decide_True by (rewrite length_app, le_bytes_length; lia).
  rewrite drop_app_length', take_app_length' by (by rewrite le_bytes_length).
  rewrite IH. simpl. by rewrite le_value_le_bytes.
Qed.

Lemma signed_wrap w z : 0 < w -> sint w z -> signed w (wrap w z) = z.
Proof.
  unfold sint, signed. intros Hw Hz. rewrite wrap_wrap by lia.
  assert (E : 2 ^ w = 2 * 2 ^ (w - 1)) by (rewrite <- Z.pow_succ_r by lia; f_equal; lia).
  unfold wrap. destruct (decide (0 <= z)).
  - rewrite Z.mod_small by lia. destruct (Z.ltb_spec z (2 ^ (w - 1))); lia.
  - rewrite <- (Z.mod_add z 1), Z.mod_small by lia.
    destruct (Z.ltb_spec (z + 1 * 2 ^ w) (2 ^ (w - 1))); lia.
Qed.

Ltac solve_codec :=
  change (8 * Z.of_nat 1) with 8; change (8 * Z.of_nat 2) with 16;
  change (8 * Z.of_nat 4) with 32; change (8 * Z.of_nat 8) with 64;
  repeat match goal with
  | H : _ /\ _ |- _ => destruct H
  | |- context [wrap ?w ?z] => rewrite (wrap_small w z) by (unfold uint in *; lia)
  | |- context [signed ?w (wrap ?w ?z)] => rewrite (signed_wrap w z) by (done || lia)
  end.

Lemma flags_decode b0 b1 b2 b3 t :
  uint 4 t ->
  let fl := bit b0 + 2 * bit b1 + 4 * bit b2 + 8 * bit b3 + 16 * t in
  Z.odd fl = b0 /\ Z.odd (fl / 2) = b1 /\ Z.odd (fl / 4) = b2 /\ Z.odd (fl / 8) = b3 /\
  fl / 16 = t /\ uint 8 fl.
Proof.
  intros Ht fl. set (chk := fun t => let fl := bit b0 + 2 * bit b1 + 4 * bit b2 + 8 * bit b3 + 16 * t in
    Bool.eqb (Z.odd fl) b0 && Bool.eqb (Z.odd (fl / 2)) b1 && Bool.eqb (Z.odd (fl / 4)) b2 &&
    Bool.eqb (Z.odd (fl / 8)) b3 && (fl / 16 =? t) && (0 <=? fl) && (fl <? 256)).
  assert (H : forallb chk (seqZ 0 16) = true) by (destruct b0, b1, b2, b3; vm_compute; reflexivity).
  apply forallb_seqZ with (x := t) in H; [|exact Ht].
  unfold chk in H. fold fl in H.
  repeat (apply andb_prop in H as [H ?]). repeat match goal with
  | E : Bool.eqb _ _ = true |- _ => apply Bool.eqb_prop in E
  end.
  unfold uint. repeat split; try assumption; lia.
Qed.

Lemma nibbles_decode a b :
  uint 4 a -> uint 4 b -> (a + 16 * b) mod 16 = a /\ (a + 16 * b) / 16 = b /\ uint 8 (a + 16 * b).
Proof. unfold uint. intros. split; [|split]; Z.to_euclidean_division_equations; lia. Qed.

Lemma arch_flags_decode p q t :
  uint 3 q -> uint 4 t ->
  let fl := bit p + 2 * q + 16 * t in
  Z.odd fl = p /\ fl / 2 mod 8 = q /\ fl / 16 = t /\ uint 8 fl.
Proof.
  intros Hq Ht fl. unfold uint in *. unfold fl. split.
  - replace (bit p + 2 * q + 16 * t) with (bit p + 2 * (q + 8 * t)) by lia.
    rewrite Z.odd_add_mul_2. by destruct p.
  - assert (0 <= bit p <= 1) by (destruct p; simpl; lia).
    split; [|split]; Z.to_euclidean_division_equations; lia.
Qed.

Ltac decode_fields :=
  let E := fresh in
  match goal with |- context [put_fields ?fs ++ ?rest] =>
    pose proof (take_put_fields fs rest) as E
  end;
  cbn [fmap list_fmap fst] in E; rewrite E; clear E;
  cbn -[wrap signed Z.div Z.modulo Z.odd].

Lemma live_value_roundtrip v rest :
  live_value_typed v ->
  decode_live_value (encode_live_value v ++ rest) = Some (v, rest).
Proof.
  destruct v as [dup al pt pad ty sz rn off asz]. unfold live_value_typed.
  intros H; simpl in H. destruct H as (Hty & Hsz & Hrn & Hoff & Hasz).
  destruct (flags_decode dup al pt pad ty Hty) as (E0 & E1 & E2 & E3 & E4 & E5).
  unfold decode_live_value, encode_live_value, lv_flags, live_value_widths.
  decode_fields. solve_codec. by rewrite E0, E1, E2, E3, E4.
Qed.

Lemma call_site_roundtrip c rest :
  call_site_typed c -> decode_call_site (encode_call_site c ++ rest) = Some (c, rest).
Proof.
  destruct c. unfold call_site_typed. intros H; simpl in H.
  unfold decode_call_site, encode_call_site, call_site_widths; cbn [zip zip_with].
  decode_fields. by solve_codec.
Qed.

Lemma arch_live_roundtrip v rest :
  arch_live_typed v -> decode_arch_live (encode_arch_live v ++ rest) = Some (v, rest).
Proof.
  destruct v as [p q t]. unfold arch_live_typed. intros H; simpl in H.
  destruct H as (Hq & Ht & Hs & Hr & Ho & Hot & Hit & Hrest).
  destruct (arch_flags_decode p q t Hq Ht) as (E0 & E1 & E2 & E3).
  destruct (nibbles_decode _ _ Hot Hit) as (E4 & E5 & E6).
  unfold decode_arch_live, encode_arch_live, arch_live_widths; cbn [zip zip_with].
  decode_fields. solve_codec. by rewrite E0, E1, E2, E4, E5.
Qed.

Lemma unwind_addr_roundtrip u rest :
  unwind_addr_typed u -> decode_unwind_addr (encode_unwind_addr u ++ rest) = Some (u, rest).
Proof.
  destruct u. unfold unwind_addr_typed. intros H; simpl in H.
  unfold decode_unwind_addr, encode_unwind_addr. decode_fields. by solve_codec.
Qed.

Lemma unwind_loc_roundtrip u rest :
  unwind_loc_typed u -> decode_unwind_loc (encode_unwind_loc u ++ rest) = Some (u, rest).
Proof.
  destruct u. unfold unwind_loc_typed. intros H; simpl in H.
  unfold decode_unwind_loc, encode_unwind_loc. decode_fields. by solve_codec.
Qed.

Section sections.
Context {R : Type} (encode : R -> list Z) (decode : list Z -> option (R * list Z)).
Context (typed : R -> Prop).
Hypothesis roundtrip : forall r rest, typed r -> decode (encode r ++ rest) = Some (r, rest).
Hypothesis nonempty : forall r, encode r <> [].

Lemma section_roundtrip rs :
  Forall typed rs ->
  decode_section decode (length rs) (encode_section encode rs) = Some rs.
Proof.
  unfold encode_section. induction 1 as [|r rs Hr _ IH]; [done|].
  cbn [fmap list_fmap concat length].
  destruct (encode r ++ concat (encode <$> rs)) as [|z zs] eqn:E.
  - apply app_nil in E as [E _]. by apply nonempty in E.
  - cbn [decode_section]. rewrite <- E, roundtrip by done. simpl. by rewrite IH.
Qed.
End sections.

Lemma put_fields_nonempty n v fs : put_fields ((S n, v) :: fs) <> [].
Proof. unfold put_fields. simpl. done. Qed.

Lemma put_fields_length fs :
  length (put_fields fs) = sum_list fs.*1.
Proof.
  unfold put_fields. induction fs as [|[n v] fs IH]; [done|].
  cbn [fmap list_fmap concat fst]. by rewrite length_app, le_bytes_length, IH.
Qed.

(** ** Properties *)

(** The section codecs of the four record types. *)
Definition metadata_sections
    (live : list live_value) (sites : list call_site) (arch : list arch_live_value)
    (addrs : list unwind_addr) (locs : list unwind_loc) : list (list Z) :=
  [encode_section encode_live_value live; encode_section encode_call_site sites;
   encode_section encode_arch_live arch; encode_section encode_unwind_addr addrs;
   encode_section encode_unwind_loc locs].

(** Metadata written to the sections of a binary is read back unchanged:
    for well-typed records of every kind, bit fields and signed offsets
    included, decoding the packed little-endian section yields the records. *)
Theorem metadata_roundtrip live sites arch addrs locs :
  Forall live_value_typed live -> Forall call_site_typed sites ->
  Forall arch_live_typed arch -> Forall unwind_addr_typed addrs ->
  Forall unwind_loc_typed locs ->
  exists s1 s2 s3 s4 s5,
    metadata_sections live sites arch addrs locs = [s1; s2; s3; s4; s5] /\
    decode_section decode_live_value (length live) s1 = Some live /\
    decode_section decode_call_site (length sites) s2 = Some sites /\
    decode_section decode_arch_live (length arch) s3 = Some arch /\
    decode_section decode_unwind_addr (length addrs) s4 = Some addrs /\
    decode_section decode_unwind_loc (length locs) s5 = Some locs.
Proof.
  intros. do 5 eexists. split; [reflexivity|].
  repeat split; eapply section_roundtrip; eauto; intros;
    try apply put_fields_nonempty.
  - by apply live_value_roundtrip.
  - by apply call_site_roundtrip.
  - by apply arch_live_roundtrip.
  - by apply unwind_addr_roundtrip.
  - by apply unwind_loc_roundtrip.
Qed.

Lemma metadata_roundtrip_witness :
  let v := LiveValue false true true false SM_DIRECT 8 29 (-16) 24 in
  decode_section decode_live_value 1 (encode_section encode_live_value [v]) = Some [v].
Proof.
  intros v.
  destruct (metadata_roundtrip [v] [] [] [] []) as (s1 & s2 & s3 & s4 & s5 & E & H & _);
    try apply List.Forall_nil.
  - apply List.Forall_cons; [|apply List.Forall_nil].
    repeat split; vm_compute; congruence.
  - injection E as <- _ _ _ _. exact H.
Defined.
