(* ===== verification/Regs.v ===== *)
(** * Register sets and stack properties (include/regs.h, include/properties.h)

    The runtime handles both architectures through two structs of function
    pointers.  They are records of operations here.  A register set is an
    object in memory and [reg] returns a pointer into it.  The class
    [RegLaws] is what the architecture-independent code relies on: where the
    special registers live in the object, and that the register file is a
    partial function into disjoint ranges of it. *)

From S2P Require Import Prelude Machine.

(** ** Definitions *)

Record regops_t := RegOps {
  num_regs : Z;
  has_ra_reg : bool;
  regset_size : Z;
  regset_default : M Z;
  regset_init : Z -> M Z;
  regset_free : Z -> M unit;
  regset_clone : Z -> Z -> M unit;      (* src, dest *)
  regset_copyin : Z -> Z -> M unit;     (* regset, outside struct *)
  regset_copyout : Z -> Z -> M unit;    (* regset, outside struct *)
  pc : Z -> M Z;
  sp : Z -> M Z;
  fbp : Z -> M Z;
  ra_reg : Z -> M Z;
  set_pc : Z -> Z -> M unit;
  set_sp : Z -> Z -> M unit;
  set_fbp : Z -> Z -> M unit;
  set_ra_reg : Z -> Z -> M unit;
  setup_fbp : Z -> Z -> M unit;
  reg_size : Z -> outcome Z;
  reg : Z -> Z -> outcome Z;            (* regset, register: pointer to it *)
}.

Record properties_t := Properties {
  sp_needs_align : bool;
  num_callee_saved : Z;
  callee_saved : list Z;
  callee_saved_size : list Z;
  ra_offset : Z;                        (* int32_t *)
  savedfbp_offset : Z;                  (* int32_t *)
  cfa_offset_funcentry : Z;             (* int32_t *)
  align_sp : Z -> outcome Z;
  is_callee_saved : Z -> bool;
  callee_reg_size : Z -> outcome Z;
}.

(** A register set object: [struct regset_t common] (one [bool]), then the
    architecture's struct, aligned to 16 bytes for its 128-bit members. *)
Definition off_initialized : Z := 0.
Definition off_regs : Z := 16.

Definition set_initialized (rs : Z) : M unit := store 1 (rs + off_initialized) 1.

(** Field access, as the getters and setters of both architectures do it. *)
Definition get_field (off rs : Z) : M Z := load64 (rs + off_regs + off).
Definition set_field (off rs v : Z) : M unit := store64 (rs + off_regs + off) v.

(** [fail] of a switch: the ST_ERR(1) after it. *)
Definition or_err {A} (o : option A) : outcome A :=
  match o with Some a => Ret a | None => Exit 1 end.

(** ** The laws of a register file *)

Class RegLayout (R : regops_t) := {
  pc_off : Z;
  sp_off : Z;
  fbp_off : Z;
  ra_off : Z;
  reg_off : Z -> option Z;     (* offset of a register in the object *)
  sp_reg : Z;                  (* the stack pointer's number *)
  fbp_reg : Z;                 (* the frame pointer's number *)
}.

Class RegLaws (R : regops_t) `{L : RegLayout R} := {
  law_num_regs : 0 < num_regs R;
  law_size : off_regs < regset_size R;
  law_clone src dst m : regset_clone R src dst m = memcpy dst src (regset_size R) m;
  law_copyin rs p m : regset_copyin R rs p m =
    (set_initialized rs;; memcpy (rs + off_regs) p (regset_size R - off_regs)) m;
  law_copyout rs p m : regset_copyout R rs p m =
    memcpy p (rs + off_regs) (regset_size R - off_regs) m;
  law_pc rs m : pc R rs m = load64 (rs + pc_off) m;
  law_sp rs m : sp R rs m = load64 (rs + sp_off) m;
  law_fbp rs m : fbp R rs m = load64 (rs + fbp_off) m;
  law_ra rs m : has_ra_reg R = true -> ra_reg R rs m = load64 (rs + ra_off) m;
  law_set_pc rs v m : set_pc R rs v m = store64 (rs + pc_off) v m;
  law_set_sp rs v m : set_sp R rs v m = store64 (rs + sp_off) v m;
  law_set_fbp rs v m : set_fbp R rs v m = store64 (rs + fbp_off) v m;
  law_set_ra rs v m : has_ra_reg R = true -> set_ra_reg R rs v m = store64 (rs + ra_off) v m;
  law_setup_fbp rs cfa m : setup_fbp R rs cfa m = store64 (rs + fbp_off) (cfa - 0x10) m;
  law_special_bounds : Forall (fun o => off_regs <= o /\ o + 8 <= regset_size R)
    [pc_off; sp_off; fbp_off; ra_off];
  law_special_disjoint : ForallOrdPairs (fun a b => a + 8 <= b \/ b + 8 <= a)
    [pc_off; sp_off; fbp_off];
  law_reg rs r : reg R rs r = or_err ((fun o => rs + o) <$> reg_off r);
  law_reg_size r o : reg_off r = Some o ->
    exists n, reg_size R r = Ret n /\ 8 <= n <= 16 /\ off_regs <= o /\
      o + n <= regset_size R /\ 0 <= r < num_regs R;
  law_reg_size_none r : reg_off r = None -> reg_size R r = Exit 1;
  law_reg_disjoint r1 r2 o1 o2 n1 n2 :
    reg_off r1 = Some o1 -> reg_off r2 = Some o2 -> r1 <> r2 ->
    reg_size R r1 = Ret n1 -> reg_size R r2 = Ret n2 ->
    o1 + n1 <= o2 \/ o2 + n2 <= o1;
  law_sp_reg : reg_off sp_reg = Some sp_off /\ reg_size R sp_reg = Ret 8;
  law_fbp_reg : reg_off fbp_reg = Some fbp_off /\ reg_size R fbp_reg = Ret 8;
  law_pc_unnamed r o n : has_ra_reg R = true -> reg_off r = Some o -> reg_size R r = Ret n ->
    pc_off + 8 <= o \/ o + n <= pc_off;
  law_ra_apart : has_ra_reg R = true ->
    (pc_off + 8 <= ra_off \/ ra_off + 8 <= pc_off) /\
    (sp_off + 8 <= ra_off \/ ra_off + 8 <= sp_off);
}.

(** A table of registers: number, offset in the object, size. *)
Definition reg_row : Type := Z * (Z * Z).

Definition row_disjoint (a b : reg_row) : bool :=
  (a.1 =? b.1) || (a.2.1 + a.2.2 <=? b.2.1) || (b.2.1 + b.2.2 <=? a.2.1).

Definition table_ok (size nregs : Z) (rows : list reg_row) : bool :=
  forallb (fun a => (8 <=? a.2.2) && (a.2.2 <=? 16) && (off_regs <=? a.2.1) &&
                    (a.2.1 + a.2.2 <=? size) && (0 <=? a.1) && (a.1 <? nregs) &&
                    forallb (row_disjoint a) rows) rows.

(** The cases of the two switches of an architecture ([reg] and [reg_size]),
    which list the same registers in the same order, as one table. *)
Definition merge_cases (offs sizes : list (Z * Z)) : list reg_row :=
  zip_with (fun a b => (a.1, (off_regs + a.2, b.2))) offs sizes.

(** ** Lemmas *)

Lemma table_ok_row size nregs rows r o n :
  table_ok size nregs rows = true -> (r, (o, n)) ∈ rows ->
  8 <= n <= 16 /\ off_regs <= o /\ o + n <= size /\ 0 <= r < nregs.
Proof.
  unfold table_ok. rewrite forallb_forall. intros H Hin%list_elem_of_In.
  specialize (H _ Hin). simpl in H. lia.
Qed.

Lemma table_ok_disjoint size nregs rows r1 o1 n1 r2 o2 n2 :
  table_ok size nregs rows = true ->
  (r1, (o1, n1)) ∈ rows -> (r2, (o2, n2)) ∈ rows -> r1 <> r2 ->
  o1 + n1 <= o2 \/ o2 + n2 <= o1.
Proof.
  unfold table_ok. rewrite forallb_forall.
  intros H H1%list_elem_of_In H2%list_elem_of_In Hne.
  specialize (H _ H1). apply andb_prop in H as [_ H].
  rewrite forallb_forall in H. specialize (H _ H2). unfold row_disjoint in H. simpl in H. lia.
Qed.

Lemma merge_cases_switch offs sizes k :
  offs.*1 = sizes.*1 ->
  match switch k offs with
  | Some o => exists n, switch k sizes = Some n /\ (k, (off_regs + o, n)) ∈ merge_cases offs sizes
  | None => switch k sizes = None
  end.
Proof.
  revert sizes. induction offs as [|[c o] offs IH]; intros [|[c' n] sizes]; try done.
  simpl. intros [= <- Hk]. destruct (Z.eqb_spec k c) as [->|].
  - exists n. split; [done|left].
  - specialize (IH _ Hk). destruct (switch k offs); [|done].
    destruct IH as (n' & ? & ?). exists n'. split; [done|by right].
Qed.

Section cases.
Context (size nregs : Z) (offs sizes : list (Z * Z)).
Context (Hk : offs.*1 = sizes.*1).
Context (Hok : table_ok size nregs (merge_cases offs sizes) = true).

Lemma cases_row r o :
  ((fun off => off_regs + off) <$> switch r offs) = Some o ->
  exists n, or_err (switch r sizes) = Ret n /\ (r, (o, n)) ∈ merge_cases offs sizes.
Proof using Hk.
  pose proof (merge_cases_switch offs sizes r Hk) as H.
  destruct (switch r offs); simpl; [|done]. intros [= <-].
  destruct H as (n & -> & ?). by exists n.
Qed.

Lemma cases_size r o :
  ((fun off => off_regs + off) <$> switch r offs) = Some o ->
  exists n, or_err (switch r sizes) = Ret n /\ 8 <= n <= 16 /\ off_regs <= o /\
    o + n <= size /\ 0 <= r < nregs.
Proof using Hk Hok.
  intros (n & ? & Hin)%cases_row. exists n. split; [done|]. by eapply table_ok_row.
Qed.

Lemma cases_none r :
  ((fun off => off_regs + off) <$> switch r offs) = None -> or_err (switch r sizes) = Exit 1.
Proof using Hk.
  pose proof (merge_cases_switch offs sizes r Hk) as H.
  destruct (switch r offs); simpl; [done|]. by rewrite H.
Qed.

Lemma cases_disjoint r1 r2 o1 o2 n1 n2 :
  ((fun off => off_regs + off) <$> switch r1 offs) = Some o1 ->
  ((fun off => off_regs + off) <$> switch r2 offs) = Some o2 -> r1 <> r2 ->
  or_err (switch r1 sizes) = Ret n1 -> or_err (switch r2 sizes) = Ret n2 ->
  o1 + n1 <= o2 \/ o2 + n2 <= o1.
Proof using Hk Hok.
  intros (? & E1 & H1)%cases_row (? & E2 & H2)%cases_row Hne.
  rewrite E1, E2. intros [= ->] [= ->]. by eapply table_ok_disjoint.
Qed.
Lemma cases_unnamed pco r o n :
  forallb (fun row => (pco + 8 <=? row.2.1) || (row.2.1 + row.2.2 <=? pco))
    (merge_cases offs sizes) = true ->
  ((fun off => off_regs + off) <$> switch r offs) = Some o ->
  or_err (switch r sizes) = Ret n -> pco + 8 <= o \/ o + n <= pco.
Proof using Hk.
  rewrite forallb_forall. intros H (n' & E & Hin)%cases_row. rewrite E. intros [= ->].
  specialize (H _ (proj1 (list_elem_of_In _ _) Hin)). simpl in H. lia.
Qed.
End cases.

Lemma reg_cases_eq rs r offs :
  or_err ((fun off => rs + off_regs + off) <$> switch r offs) =
  or_err ((fun o => rs + o) <$> ((fun off => off_regs + off) <$> switch r offs)).
Proof. destruct (switch r offs); simpl; [|done]. f_equal. lia. Qed.

(** Getters and setters name a field; the interface an offset in the object. *)
Ltac field_law :=
  intros; simpl; cbv delta [get_field set_field]; cbn beta; unfold off_regs;
  rewrite ?Z.add_assoc; reflexivity.

Ltac special_bounds_law :=
  repeat apply List.Forall_cons; try apply List.Forall_nil; split; vm_compute; discriminate.

Ltac special_disjoint_law :=
  repeat (apply FOP_cons || apply FOP_nil || apply List.Forall_cons || apply List.Forall_nil);
  solve [left; vm_compute; discriminate | right; vm_compute; discriminate].

Section laws.
Context {R : regops_t} `{RegLaws R}.

Lemma special_in_bounds o :
  In o [pc_off; sp_off; fbp_off; ra_off] -> off_regs <= o /\ o + 8 <= regset_size R.
Proof.
  intros Hin. pose proof law_special_bounds as F. rewrite List.Forall_forall in F. auto.
Qed.

Lemma pc_bounds : off_regs <= pc_off /\ pc_off + 8 <= regset_size R.
Proof. apply special_in_bounds. simpl; auto. Qed.
Lemma sp_bounds : off_regs <= sp_off /\ sp_off + 8 <= regset_size R.
Proof. apply special_in_bounds. simpl; auto. Qed.
Lemma fbp_bounds : off_regs <= fbp_off /\ fbp_off + 8 <= regset_size R.
Proof. apply special_in_bounds. simpl; auto. Qed.
Lemma ra_bounds : off_regs <= ra_off /\ ra_off + 8 <= regset_size R.
Proof. apply special_in_bounds. simpl; auto. Qed.

Lemma special_disjoint :
  (pc_off + 8 <= sp_off \/ sp_off + 8 <= pc_off) /\
  (pc_off + 8 <= fbp_off \/ fbp_off + 8 <= pc_off) /\
  (sp_off + 8 <= fbp_off \/ fbp_off + 8 <= sp_off).
Proof.
  pose proof law_special_disjoint as F. inversion_clear F as [|? ? F1 F2].
  inversion_clear F1 as [|? ? P1 F1']. inversion_clear F1' as [|? ? P2 _].
  inversion_clear F2 as [|? ? F3 _]. inversion_clear F3. auto.
Qed.

(** A register set object is live memory. *)
Definition regset_valid (m : memory) (rs : Z) : Prop :=
  valid m rs (regset_size R) = true.

Lemma regset_valid_field m rs o n :
  regset_valid m rs -> 0 <= o -> o + n <= regset_size R -> valid m (rs + o) n = true.
Proof. intros Hv ??. eapply valid_sub; [exact Hv|lia..]. Qed.

Lemma off_regs_nonneg : 0 <= off_regs.
Proof. unfold off_regs. lia. Qed.

(** The value of a special register. *)
Definition special (o : Z) (m : memory) (rs : Z) : Z := word_at 8 m (rs + o).

Lemma special_load m rs o :
  regset_valid m rs -> off_regs <= o /\ o + 8 <= regset_size R ->
  load64 (rs + o) m = Ret (special o m rs, m).
Proof.
  intros Hv [??]. pose proof off_regs_nonneg.
  apply load_run. apply regset_valid_field; [done|lia|]. simpl. lia.
Qed.

Lemma special_store m rs o v :
  regset_valid m rs -> off_regs <= o /\ o + 8 <= regset_size R ->
  exists m', store64 (rs + o) v m = Ret (tt, m') /\ special o m' rs = wrap64 v /\
    only_writes (span (rs + o) 8) m m'.
Proof.
  intros Hv [??]. pose proof off_regs_nonneg. eexists. split; [|split].
  - apply store_run. apply regset_valid_field; [done|lia|]. simpl. lia.
  - unfold special. apply word_at_poked.
  - apply (poked_word_frame 8).
Qed.

Lemma pc_run m rs : regset_valid m rs -> pc R rs m = Ret (special pc_off m rs, m).
Proof. intros. rewrite law_pc. apply special_load; [done|apply pc_bounds]. Qed.

Lemma set_pc_run m rs v : regset_valid m rs ->
  exists m', set_pc R rs v m = Ret (tt, m') /\ special pc_off m' rs = wrap64 v /\
    only_writes (span (rs + pc_off) 8) m m'.
Proof. intros. rewrite law_set_pc. apply special_store; [done|apply pc_bounds]. Qed.

Lemma sp_run m rs : regset_valid m rs -> sp R rs m = Ret (special sp_off m rs, m).
Proof. intros. rewrite law_sp. apply special_load; [done|apply sp_bounds]. Qed.

Lemma set_sp_run m rs v : regset_valid m rs ->
  exists m', set_sp R rs v m = Ret (tt, m') /\ special sp_off m' rs = wrap64 v /\
    only_writes (span (rs + sp_off) 8) m m'.
Proof. intros. rewrite law_set_sp. apply special_store; [done|apply sp_bounds]. Qed.

Lemma fbp_run m rs : regset_valid m rs -> fbp R rs m = Ret (special fbp_off m rs, m).
Proof. intros. rewrite law_fbp. apply special_load; [done|apply fbp_bounds]. Qed.

Lemma set_fbp_run m rs v : regset_valid m rs ->
  exists m', set_fbp R rs v m = Ret (tt, m') /\ special fbp_off m' rs = wrap64 v /\
    only_writes (span (rs + fbp_off) 8) m m'.
Proof. intros. rewrite law_set_fbp. apply special_store; [done|apply fbp_bounds]. Qed.

Lemma ra_run m rs : has_ra_reg R = true -> regset_valid m rs ->
  ra_reg R rs m = Ret (special ra_off m rs, m).
Proof. intros. rewrite law_ra by done. apply special_load; [done|apply ra_bounds]. Qed.

Lemma setup_fbp_run m rs cfa : regset_valid m rs ->
  exists m', setup_fbp R rs cfa m = Ret (tt, m') /\ special fbp_off m' rs = wrap64 (cfa - 0x10) /\
    only_writes (span (rs + fbp_off) 8) m m'.
Proof. intros. rewrite law_setup_fbp. apply special_store; [done|apply fbp_bounds]. Qed.

Lemma reg_Ret rs r p :
  reg R rs r = Ret p -> exists o n, reg_off r = Some o /\ p = rs + o /\
    reg_size R r = Ret n /\ 8 <= n <= 16 /\ off_regs <= o /\ o + n <= regset_size R /\
    0 <= r < num_regs R.
Proof.
  rewrite law_reg. destruct (reg_off r) as [o|] eqn:Eo; [|done].
  simpl. intros [= <-]. destruct (law_reg_size r o Eo) as (n & ? & ? & ? & ? & ? & ?).
  exists o, n. repeat split; auto; lia.
Qed.

(** The bytes of a register. *)
Definition reg_bytes (m : memory) (rs r : Z) : list Z :=
  match reg R rs r, reg_size R r with
  | Ret p, Ret n => peek m <$> seqZ p n
  | _, _ => []
  end.

(** Registers are found in the object's bytes. *)
Lemma reg_bytes_object m m' rs rs' r :
  (peek m' <$> seqZ rs' (regset_size R)) = (peek m <$> seqZ rs (regset_size R)) ->
  reg_bytes m' rs' r = reg_bytes m rs r.
Proof.
  intros Heq. unfold reg_bytes. rewrite !law_reg.
  destruct (reg_off r) as [o|] eqn:Eo; simpl; [|done].
  destruct (law_reg_size r o Eo) as (n & -> & ? & ? & ? & ?). pose proof off_regs_nonneg.
  apply list_eq. intros i. apply option_eq. intros x. rewrite !peeks_lookup.
  assert (Hi : Z.of_nat i < n -> peek m' (rs' + o + Z.of_nat i) = peek m (rs + o + Z.of_nat i)).
  { intros. pose proof (f_equal (lookup (Z.to_nat (o + Z.of_nat i))) Heq) as Hl. revert Hl.
    assert (Hj : Z.of_nat (Z.to_nat (o + Z.of_nat i)) < regset_size R) by lia.
    rewrite !(proj2 (peeks_lookup _ _ _ _ _) (conj Hj eq_refl)). intros [= Hl].
    rewrite Z2Nat.id in Hl by lia. rewrite !Z.add_assoc in Hl. done. }
  split; intros [? ->]; (split; [done|]); [by rewrite Hi | by rewrite <- Hi].
Qed.

(** Writing inside one register leaves the others alone. *)
Lemma reg_bytes_frame m m' rs r r' p n :
  reg R rs r = Ret p -> reg_size R r = Ret n -> r <> r' ->
  only_writes (span p n) m m' -> reg_bytes m' rs r' = reg_bytes m rs r'.
Proof.
  intros Hr Hn Hne Hw. unfold reg_bytes.
  destruct (reg R rs r') as [p'| | |] eqn:Hr'; try done.
  destruct (reg_Ret _ _ _ Hr) as (o & n0 & Ho & -> & En & _).
  destruct (reg_Ret _ _ _ Hr') as (o' & n' & Ho' & -> & En' & _).
  rewrite En in Hn. injection Hn as ->. rewrite En'.
  pose proof (law_reg_disjoint _ _ _ _ _ _ Ho Ho' Hne En En') as Hd.
  eapply only_writes_peeks; [exact Hw|]. unfold span. lia.
Qed.
End laws.

Arguments regset_valid : clear implicits.
Arguments reg_bytes : clear implicits.


#[export] Hint Resolve pc_bounds sp_bounds fbp_bounds ra_bounds off_regs_nonneg : popcorn.
