(* ===== verification/RegsAArch64.v ===== *)
(** * The aarch64 register set and stack properties (src/arch/aarch64/regs.c,
    src/arch/aarch64/properties.c, include/arch/aarch64/regs.h)

    The struct's layout, the register operations and the ABI constants, with
    the proof that they satisfy the interface [RegLaws]. *)

From S2P Require Import Prelude Machine Regs.

(** ** Layout of [struct regset_aarch64] *)

Definition A64_sp : Z := 0.
Definition A64_pc : Z := 8.
Definition A64_x (i : Z) : Z := 16 + 8 * i.
(** [v] is aligned to 16 bytes. *)
Definition A64_v (i : Z) : Z := 272 + 16 * i.
Definition sizeof_regset_aarch64 : Z := 784.
Definition sizeof_regset_obj_aarch64 : Z := off_regs + sizeof_regset_aarch64.

Definition AARCH64_NUM_REGS : Z := 128.
Definition AARCH64_FBP_REG : Z := 29.
Definition AARCH64_LINK_REG : Z := 30.

(** DWARF register numbers: X0-X30, SP, V0-V31. *)
Definition A64_X (i : Z) : Z := i.
Definition A64_SP : Z := 31.
Definition A64_V (i : Z) : Z := 64 + i.

(** ** Operations *)

Definition regset_default_aarch64 : M Z :=
  new ← calloc 1 sizeof_regset_obj_aarch64;
  set_initialized new;;
  mret new.

Definition regset_init_aarch64 (regs : Z) : M Z :=
  new ← malloc sizeof_regset_obj_aarch64;
  set_initialized new;;
  memcpy (new + off_regs) regs sizeof_regset_aarch64;;
  mret new.

Definition regset_free_aarch64 (regset : Z) : M unit := free regset.

Definition regset_clone_aarch64 (src dest : Z) : M unit :=
  memcpy dest src sizeof_regset_obj_aarch64.

Definition regset_copyin_aarch64 (regset regs : Z) : M unit :=
  set_initialized regset;;
  memcpy (regset + off_regs) regs sizeof_regset_aarch64.

Definition regset_copyout_aarch64 (regset regs : Z) : M unit :=
  memcpy regs (regset + off_regs) sizeof_regset_aarch64.

Definition pc_aarch64 : Z -> M Z := get_field A64_pc.
Definition sp_aarch64 : Z -> M Z := get_field A64_sp.
Definition fbp_aarch64 : Z -> M Z := get_field (A64_x AARCH64_FBP_REG).
Definition ra_reg_aarch64 : Z -> M Z := get_field (A64_x AARCH64_LINK_REG).

Definition set_pc_aarch64 : Z -> Z -> M unit := set_field A64_pc.
Definition set_sp_aarch64 : Z -> Z -> M unit := set_field A64_sp.
Definition set_fbp_aarch64 : Z -> Z -> M unit := set_field (A64_x AARCH64_FBP_REG).
Definition set_ra_reg_aarch64 : Z -> Z -> M unit := set_field (A64_x AARCH64_LINK_REG).

Definition setup_fbp_aarch64 (regset cfa : Z) : M unit :=
  set_field (A64_x AARCH64_FBP_REG) regset (cfa - 0x10).

(** The cases of the two switches, in the order of the source. *)
Definition reg_size_cases_aarch64 : list (Z * Z) :=
  map (fun i => (A64_X i, 8)) (seqZ 0 31) ++ [(A64_SP, 8)] ++
  map (fun i => (A64_V i, 16)) (seqZ 0 32).

Definition reg_size_aarch64 (reg : Z) : outcome Z :=
  or_err (switch reg reg_size_cases_aarch64).

Definition reg_cases_aarch64 : list (Z * Z) :=
  map (fun i => (A64_X i, A64_x i)) (seqZ 0 31) ++ [(A64_SP, A64_sp)] ++
  map (fun i => (A64_V i, A64_v i)) (seqZ 0 32).

Definition reg_aarch64 (regset reg : Z) : outcome Z :=
  or_err ((fun off => regset + off_regs + off) <$> switch reg reg_cases_aarch64).

Definition regs_aarch64 : regops_t := {|
  num_regs := AARCH64_NUM_REGS;
  has_ra_reg := true;
  regset_size := sizeof_regset_obj_aarch64;
  regset_default := regset_default_aarch64;
  regset_init := regset_init_aarch64;
  regset_free := regset_free_aarch64;
  regset_clone := regset_clone_aarch64;
  regset_copyin := regset_copyin_aarch64;
  regset_copyout := regset_copyout_aarch64;
  pc := pc_aarch64;
  sp := sp_aarch64;
  fbp := fbp_aarch64;
  ra_reg := ra_reg_aarch64;
  set_pc := set_pc_aarch64;
  set_sp := set_sp_aarch64;
  set_fbp := set_fbp_aarch64;
  set_ra_reg := set_ra_reg_aarch64;
  setup_fbp := setup_fbp_aarch64;
  reg_size := reg_size_aarch64;
  reg := reg_aarch64;
|}.

(** ** Stack properties *)

Definition AARCH64_RA_OFFSET : Z := - 0x8.
Definition AARCH64_SAVED_FBP_OFFSET : Z := - 0x10.
Definition AARCH64_CFA_OFFSET_FUNCENTRY : Z := 0x0.

Definition callee_saved_aarch64 : list Z :=
  map A64_X (seqZ 19 12) ++ map A64_V (seqZ 8 8).

Definition callee_saved_size_aarch64 : list Z :=
  replicate 12 8 ++ replicate 8 8.

Definition align_sp_aarch64 (sp : Z) : outcome Z := Exit 0.

Definition is_callee_saved_aarch64 (reg : Z) : bool :=
  default false (switch reg
    (map (fun i => (A64_X i, true)) (seqZ 19 12) ++
     map (fun i => (A64_V i, true)) (seqZ 8 8))).

Definition callee_reg_size_aarch64 (reg : Z) : outcome Z :=
  or_err (switch reg
    (map (fun i => (A64_X i, 8)) (seqZ 19 12) ++
     map (fun i => (A64_V i, 8)) (seqZ 8 8))).

Definition properties_aarch64 : properties_t := {|
  sp_needs_align := false;
  num_callee_saved := zlen callee_saved_aarch64;
  callee_saved := callee_saved_aarch64;
  callee_saved_size := callee_saved_size_aarch64;
  ra_offset := AARCH64_RA_OFFSET;
  savedfbp_offset := AARCH64_SAVED_FBP_OFFSET;
  cfa_offset_funcentry := AARCH64_CFA_OFFSET_FUNCENTRY;
  align_sp := align_sp_aarch64;
  is_callee_saved := is_callee_saved_aarch64;
  callee_reg_size := callee_reg_size_aarch64;
|}.

(** ** The interface holds *)

#[global] Typeclasses Opaque regs_aarch64 properties_aarch64.

#[export] Instance layout_aarch64 : RegLayout regs_aarch64 := {|
  pc_off := off_regs + A64_pc;
  sp_off := off_regs + A64_sp;
  fbp_off := off_regs + A64_x AARCH64_FBP_REG;
  ra_off := off_regs + A64_x AARCH64_LINK_REG;
  reg_off r := (fun off => off_regs + off) <$> switch r reg_cases_aarch64;
  sp_reg := A64_SP;
  fbp_reg := A64_X AARCH64_FBP_REG;
|}.

Lemma cases_aarch64_agree : reg_cases_aarch64.*1 = reg_size_cases_aarch64.*1.
Proof. vm_compute. reflexivity. Qed.

Lemma table_aarch64_ok :
  table_ok sizeof_regset_obj_aarch64 AARCH64_NUM_REGS
    (merge_cases reg_cases_aarch64 reg_size_cases_aarch64) = true.
Proof. vm_compute. reflexivity. Qed.

#[export] Instance laws_aarch64 : RegLaws regs_aarch64.
Proof.
  split; try field_law.
  - special_bounds_law.
  - special_disjoint_law.
  - intros. apply reg_cases_eq.
  - intros r o. apply (cases_size _ _ _ _ cases_aarch64_agree table_aarch64_ok).
  - intros r. apply (cases_none _ _ cases_aarch64_agree).
  - intros *. apply (cases_disjoint _ _ _ _ cases_aarch64_agree table_aarch64_ok).
  - split; reflexivity.
  - split; reflexivity.
  - intros r o n _. apply (cases_unnamed _ _ cases_aarch64_agree). vm_compute. reflexivity.
  - intros _. split; solve [left; vm_compute; discriminate | right; vm_compute; discriminate].
Qed.
