(* ===== verification/RegsX86.v ===== *)
(** * The x86_64 register set and stack properties (src/arch/x86_64/regs.c,
    src/arch/x86_64/properties.c, include/arch/x86_64/regs.h)

    The struct's layout, the register operations and the ABI constants, with
    the proof that they satisfy the interface [RegLaws]. *)

From S2P Require Import Prelude Machine Regs.

(** ** Layout of [struct regset_x86_64] *)

Definition X86_rip : Z := 0.
(** [rax], [rdx], [rcx], [rbx], [rsi], [rdi], [rbp], [rsp], [r8]-[r15], in the
    order of their DWARF numbers. *)
Definition X86_gpr (i : Z) : Z := 8 + 8 * i.
(** [mmx] takes 136-199; [xmm] is aligned to 16 bytes. *)
Definition X86_xmm (i : Z) : Z := 208 + 16 * i.
(** [st] (464), the six segment registers (592) and [rflags] (616) follow. *)
Definition sizeof_regset_x86_64 : Z := 624.
Definition sizeof_regset_obj_x86_64 : Z := off_regs + sizeof_regset_x86_64.

Definition X86_64_NUM_REGS : Z := 67.

(** DWARF register numbers. *)
Definition RAX : Z := 0.
Definition RDX : Z := 1.
Definition RCX : Z := 2.
Definition RBX : Z := 3.
Definition RSI : Z := 4.
Definition RDI : Z := 5.
Definition RBP : Z := 6.
Definition RSP : Z := 7.
Definition R8 : Z := 8.
Definition R9 : Z := 9.
Definition R10 : Z := 10.
Definition R11 : Z := 11.
Definition R12 : Z := 12.
Definition R13 : Z := 13.
Definition R14 : Z := 14.
Definition R15 : Z := 15.
Definition RIP : Z := 16.
Definition XMM (i : Z) : Z := 17 + i.

(** ** Operations *)

Definition regset_default_x86_64 : M Z :=
  new ← calloc 1 sizeof_regset_obj_x86_64;
  set_initialized new;;
  mret new.

Definition regset_init_x86_64 (regs : Z) : M Z :=
  new ← malloc sizeof_regset_obj_x86_64;
  set_initialized new;;
  memcpy (new + off_regs) regs sizeof_regset_x86_64;;
  mret new.

Definition regset_free_x86_64 (regset : Z) : M unit := free regset.

Definition regset_clone_x86_64 (src dest : Z) : M unit :=
  memcpy dest src sizeof_regset_obj_x86_64.

Definition regset_copyin_x86_64 (regset regs : Z) : M unit :=
  set_initialized regset;;
  memcpy (regset + off_regs) regs sizeof_regset_x86_64.

Definition regset_copyout_x86_64 (regset regs : Z) : M unit :=
  memcpy regs (regset + off_regs) sizeof_regset_x86_64.

Definition pc_x86_64 : Z -> M Z := get_field X86_rip.
Definition sp_x86_64 : Z -> M Z := get_field (X86_gpr RSP).
Definition fbp_x86_64 : Z -> M Z := get_field (X86_gpr RBP).
Definition ra_reg_x86_64 (regset : Z) : M Z := st_err 1.

Definition set_pc_x86_64 : Z -> Z -> M unit := set_field X86_rip.
Definition set_sp_x86_64 : Z -> Z -> M unit := set_field (X86_gpr RSP).
Definition set_fbp_x86_64 : Z -> Z -> M unit := set_field (X86_gpr RBP).
Definition set_ra_reg_x86_64 (regset val : Z) : M unit := st_err 1.

Definition setup_fbp_x86_64 (regset cfa : Z) : M unit :=
  set_field (X86_gpr RBP) regset (cfa - 0x10).

(** The cases of the two switches, in the order of the source. *)
Definition gprs_x86_64 : list Z :=
  [RAX; RDX; RCX; RBX; RSI; RDI; RBP; RSP; R8; R9; R10; R11; R12; R13; R14; R15].

Definition reg_size_cases_x86_64 : list (Z * Z) :=
  map (fun r => (r, 8)) gprs_x86_64 ++ [(RIP, 8)] ++
  map (fun i => (XMM i, 16)) (seqZ 0 16).

Definition reg_size_x86_64 (reg : Z) : outcome Z :=
  or_err (switch reg reg_size_cases_x86_64).

Definition reg_cases_x86_64 : list (Z * Z) :=
  map (fun r => (r, X86_gpr r)) gprs_x86_64 ++ [(RIP, X86_rip)] ++
  map (fun i => (XMM i, X86_xmm i)) (seqZ 0 16).

Definition reg_x86_64 (regset reg : Z) : outcome Z :=
  or_err ((fun off => regset + off_regs + off) <$> switch reg reg_cases_x86_64).

Definition regs_x86_64 : regops_t := {|
  num_regs := X86_64_NUM_REGS;
  has_ra_reg := false;
  regset_size := sizeof_regset_obj_x86_64;
  regset_default := regset_default_x86_64;
  regset_init := regset_init_x86_64;
  regset_free := regset_free_x86_64;
  regset_clone := regset_clone_x86_64;
  regset_copyin := regset_copyin_x86_64;
  regset_copyout := regset_copyout_x86_64;
  pc := pc_x86_64;
  sp := sp_x86_64;
  fbp := fbp_x86_64;
  ra_reg := ra_reg_x86_64;
  set_pc := set_pc_x86_64;
  set_sp := set_sp_x86_64;
  set_fbp := set_fbp_x86_64;
  set_ra_reg := set_ra_reg_x86_64;
  setup_fbp := setup_fbp_x86_64;
  reg_size := reg_size_x86_64;
  reg := reg_x86_64;
|}.

(** ** Stack properties *)

Definition X86_64_RA_OFFSET : Z := - 0x8.
Definition X86_64_SAVED_FBP_OFFSET : Z := - 0x10.
Definition X86_64_CFA_OFFSET_FUNCENTRY : Z := 0x8.
Definition X86_64_STACK_ALIGNMENT : Z := 0x10.

Definition callee_saved_x86_64 : list Z := [RBX; RBP; R12; R13; R14; R15; RIP].

Definition callee_saved_size_x86_64 : list Z := [8; 8; 8; 8; 8; 8; 8].

Definition align_sp_x86_64 (sp : Z) : outcome Z :=
  let stack_ptr := sp in
  if truthy (wrap64 (stack_ptr + 8) mod X86_64_STACK_ALIGNMENT)
  then Ret (wrap64 (stack_ptr - 8))
  else Ret stack_ptr.

Definition is_callee_saved_x86_64 (reg : Z) : bool :=
  default false (switch reg
    [(RBX, true); (RBP, true); (R12, true); (R13, true); (R14, true); (R15, true);
     (RIP, true)]).

Definition callee_reg_size_x86_64 (reg : Z) : outcome Z :=
  or_err (switch reg
    [(RBX, 8); (RBP, 8); (R12, 8); (R13, 8); (R14, 8); (R15, 8); (RIP, 8)]).

Definition properties_x86_64 : properties_t := {|
  sp_needs_align := true;
  num_callee_saved := zlen callee_saved_x86_64;
  callee_saved := callee_saved_x86_64;
  callee_saved_size := callee_saved_size_x86_64;
  ra_offset := X86_64_RA_OFFSET;
  savedfbp_offset := X86_64_SAVED_FBP_OFFSET;
  cfa_offset_funcentry := X86_64_CFA_OFFSET_FUNCENTRY;
  align_sp := align_sp_x86_64;
  is_callee_saved := is_callee_saved_x86_64;
  callee_reg_size := callee_reg_size_x86_64;
|}.

(** ** The interface holds *)

#[global] Typeclasses Opaque regs_x86_64 properties_x86_64.

#[export] Instance layout_x86_64 : RegLayout regs_x86_64 := {|
  pc_off := off_regs + X86_rip;
  sp_off := off_regs + X86_gpr RSP;
  fbp_off := off_regs + X86_gpr RBP;
  (* no return-address register: never used *)
  ra_off := off_regs + X86_rip;
  reg_off r := (fun off => off_regs + off) <$> switch r reg_cases_x86_64;
  sp_reg := RSP;
  fbp_reg := RBP;
|}.

Lemma cases_x86_64_agree : reg_cases_x86_64.*1 = reg_size_cases_x86_64.*1.
Proof. vm_compute. reflexivity. Qed.

Lemma table_x86_64_ok :
  table_ok sizeof_regset_obj_x86_64 X86_64_NUM_REGS
    (merge_cases reg_cases_x86_64 reg_size_cases_x86_64) = true.
Proof. vm_compute. reflexivity. Qed.

#[export] Instance laws_x86_64 : RegLaws regs_x86_64.
Proof.
  split; try (intros; discriminate); try field_law.
  - special_bounds_law.
  - special_disjoint_law.
  - intros. apply reg_cases_eq.
  - intros r o. apply (cases_size _ _ _ _ cases_x86_64_agree table_x86_64_ok).
  - intros r. apply (cases_none _ _ cases_x86_64_agree).
  - intros *. apply (cases_disjoint _ _ _ _ cases_x86_64_agree table_x86_64_ok).
  - split; reflexivity.
  - split; reflexivity.
Qed.
