(* ===== verification/Context.v ===== *)
(** * Handles, activations and rewriting contexts (include/definitions.h)

    The structs shared by the rewriting code, the access macros [ACT],
    [PREV_ACT], [NEXT_ACT], [REGOPS], [PROPS], and the selection of an
    architecture (src/util.c: [arch_name], [get_regops], [get_properties]). *)

From stdpp Require Import strings.
From S2P Require Import Prelude Machine Bitmap LinkedList CallSite Regs RegsAArch64 RegsX86.

(** ** Definitions *)

Definition MAX_FRAMES : Z := 512.

(** [struct fixup]: a pointer into the stack to be resolved later.  The live
    value record it points to is constant, hence kept by value. *)
Record fixup := Fixup {
  fx_src_addr : Z;
  fx_act : Z;
  fx_dest_loc : live_value;
}.

Record activation := Activation {
  act_site : call_site;
  act_cfa : Z;
  act_regs : Z;
  act_callee_saved : bitmap;
}.

(** The counts are the values found in the binary; the arrays are the sections'
    contents, and reading outside of them is undefined behaviour. *)
Record st_handle := StHandle {
  h_arch : Z;
  h_ptr_size : Z;
  h_regops : regops_t;
  h_props : properties_t;
  h_unwind_addr_count : Z;
  h_unwind_addrs : list unwind_addr;
  h_unwind_count : Z;
  h_unwind_locs : list unwind_loc;
  h_sites_count : Z;
  h_sites_id : list call_site;
  h_sites_addr : list call_site;
  h_live_vals_count : Z;
  h_live_vals : list live_value;
  h_arch_live_vals_count : Z;
  h_arch_live_vals : list arch_live_value;
}.

Record rewrite_context := RewriteContext {
  rc_handle : st_handle;
  rc_stack_base : Z;
  rc_stack : Z;
  rc_regs : Z;
  rc_num_acts : Z;
  rc_act : Z;
  rc_acts : list activation;            (* MAX_FRAMES of them *)
  rc_stack_pointers : clist fixup;
  rc_regset_pool : Z;
  rc_callee_saved_pool : Z;
}.

(** Assignments to a field. *)
Definition set_site (s : call_site) (a : activation) : activation :=
  Activation s (act_cfa a) (act_regs a) (act_callee_saved a).
Definition set_cfa (c : Z) (a : activation) : activation :=
  Activation (act_site a) c (act_regs a) (act_callee_saved a).
Definition set_regs (r : Z) (a : activation) : activation :=
  Activation (act_site a) (act_cfa a) r (act_callee_saved a).
Definition set_callee_saved (b : bitmap) (a : activation) : activation :=
  Activation (act_site a) (act_cfa a) (act_regs a) b.

Definition set_num_acts (n : Z) (c : rewrite_context) : rewrite_context :=
  RewriteContext (rc_handle c) (rc_stack_base c) (rc_stack c) (rc_regs c) n (rc_act c)
    (rc_acts c) (rc_stack_pointers c) (rc_regset_pool c) (rc_callee_saved_pool c).
Definition set_act (n : Z) (c : rewrite_context) : rewrite_context :=
  RewriteContext (rc_handle c) (rc_stack_base c) (rc_stack c) (rc_regs c) (rc_num_acts c) n
    (rc_acts c) (rc_stack_pointers c) (rc_regset_pool c) (rc_callee_saved_pool c).
Definition set_stack (p : Z) (c : rewrite_context) : rewrite_context :=
  RewriteContext (rc_handle c) (rc_stack_base c) p (rc_regs c) (rc_num_acts c) (rc_act c)
    (rc_acts c) (rc_stack_pointers c) (rc_regset_pool c) (rc_callee_saved_pool c).
Definition set_acts (l : list activation) (c : rewrite_context) : rewrite_context :=
  RewriteContext (rc_handle c) (rc_stack_base c) (rc_stack c) (rc_regs c) (rc_num_acts c)
    (rc_act c) l (rc_stack_pointers c) (rc_regset_pool c) (rc_callee_saved_pool c).
Definition set_stack_pointers (l : clist fixup) (c : rewrite_context) : rewrite_context :=
  RewriteContext (rc_handle c) (rc_stack_base c) (rc_stack c) (rc_regs c) (rc_num_acts c)
    (rc_act c) (rc_acts c) l (rc_regset_pool c) (rc_callee_saved_pool c).

(** [ctx->acts[i]], read and updated in place. *)
Definition acts (ctx : rewrite_context) (i : Z) : M activation :=
  lift (get (znth (rc_acts ctx) i)).

Definition upd_acts (f : activation -> activation) (i : Z) (ctx : rewrite_context) :
    M rewrite_context :=
  a ← acts ctx i;
  l ← lift (get (zupd (rc_acts ctx) i (f a)));
  mret (set_acts l ctx).

Definition ACT (ctx : rewrite_context) : M activation := acts ctx (rc_act ctx).
Definition PREV_ACT (ctx : rewrite_context) : M activation := acts ctx (rc_act ctx - 1).
Definition NEXT_ACT (ctx : rewrite_context) : M activation := acts ctx (rc_act ctx + 1).

Definition REGOPS (ctx : rewrite_context) : regops_t := h_regops (rc_handle ctx).
Definition PROPS (ctx : rewrite_context) : properties_t := h_props (rc_handle ctx).

(** ** Architectures *)

Definition EM_X86_64 : Z := 62.
Definition EM_AARCH64 : Z := 183.

Definition arch_name (arch : Z) : string :=
  if arch =? EM_X86_64 then "x86-64"%string
  else if arch =? EM_AARCH64 then "aarch64"%string
  else "unknown/unsupported architecture"%string.

Definition get_regops (arch : Z) : option regops_t :=
  switch arch [(EM_AARCH64, regs_aarch64); (EM_X86_64, regs_x86_64)].

Definition get_properties (arch : Z) : option properties_t :=
  switch arch [(EM_AARCH64, properties_aarch64); (EM_X86_64, properties_x86_64)].

(** ** Lemmas *)

Lemma acts_Ret ctx i m a m' :
  acts ctx i m = Ret (a, m') <-> znth (rc_acts ctx) i = Some a /\ m' = m.
Proof. unfold acts. by rewrite lift_Ret, get_Ret. Qed.

Lemma acts_run ctx i m a :
  znth (rc_acts ctx) i = Some a -> acts ctx i m = Ret (a, m).
Proof. intros. by apply acts_Ret. Qed.

(** Everything but the activations. *)
Definition same_context (c c' : rewrite_context) : Prop :=
  c' = set_acts (rc_acts c') c.

Lemma upd_acts_run f i ctx m a :
  znth (rc_acts ctx) i = Some a ->
  exists l, zupd (rc_acts ctx) i (f a) = Some l /\
    upd_acts f i ctx m = Ret (set_acts l ctx, m).
Proof.
  intros Ha. pose proof (znth_Some_range _ _ _ Ha).
  eexists. split; [by apply zupd_Some|].
  unfold upd_acts. rewrite (M_bind_step _ _ _ _ _ (acts_run _ _ _ _ Ha)).
  rewrite zupd_Some by done. reflexivity.
Qed.

Lemma upd_acts_Ret f i ctx m ctx' m' :
  upd_acts f i ctx m = Ret (ctx', m') ->
  exists a l, znth (rc_acts ctx) i = Some a /\ zupd (rc_acts ctx) i (f a) = Some l /\
    ctx' = set_acts l ctx /\ m' = m.
Proof.
  unfold upd_acts. intros H. inv_M.
  match goal with H : acts _ _ _ = _ |- _ => apply acts_Ret in H as [? ->] end.
  eauto 10.
Qed.

(** ** Both architectures implement the register interface

    A register the runtime can name has storage of its own inside the register
    set object; the callee-saved registers are among them and fit the bitmaps;
    the two property queries agree with the arrays of callee-saved registers. *)
Definition registers_separate (R : regops_t) (size : Z) : Prop :=
  forall rs r1 r2 p1 p2 n1 n2,
    reg R rs r1 = Ret p1 -> reg R rs r2 = Ret p2 ->
    reg_size R r1 = Ret n1 -> reg_size R r2 = Ret n2 ->
    rs + off_regs <= p1 /\ p1 + n1 <= rs + size /\
    (r1 <> r2 -> p1 + n1 <= p2 \/ p2 + n2 <= p1).

Definition abi_consistent (R : regops_t) (P : properties_t) : Prop :=
  num_callee_saved P = zlen (callee_saved P) /\
  zlen (callee_saved_size P) = num_callee_saved P /\
  forall r,
    (is_callee_saved P r = true <-> r ∈ callee_saved P) /\
    (forall n, callee_reg_size P r = Ret n <->
       exists i, callee_saved P !! i = Some r /\ callee_saved_size P !! i = Some n) /\
    (r ∈ callee_saved P ->
       r < num_regs R /\ shiftable r /\
       exists n k, reg_size R r = Ret k /\ callee_reg_size P r = Ret n /\ 0 < n <= k).

Lemma laws_separate R `{RegLaws R} : registers_separate R (regset_size R).
Proof.
  intros rs r1 r2 p1 p2 n1 n2 H1 H2 E1 E2.
  destruct (reg_Ret _ _ _ H1) as (o1 & k1 & Ho1 & -> & Ek1 & ? & ? & ? & ?).
  destruct (reg_Ret _ _ _ H2) as (o2 & k2 & Ho2 & -> & Ek2 & _).
  rewrite E1 in Ek1. injection Ek1 as <-. rewrite E2 in Ek2. injection Ek2 as <-.
  split; [lia|]. split; [lia|]. intros Hne.
  pose proof (law_reg_disjoint _ _ _ _ _ _ Ho1 Ho2 Hne E1 E2). lia.
Qed.

(** A decidable form of [abi_consistent]: the registers outside the arrays
    are those the switches reject. *)
Definition saved_row_ok (R : regops_t) (P : properties_t) (rn : Z * Z) : bool :=
  (rn.1 <? num_regs R) && (rn.1 mod STORAGE_TYPE_BITS <? 32) && is_callee_saved P rn.1 &&
  match reg_size R rn.1, callee_reg_size P rn.1 with
  | Ret k, Ret n => (0 <? n) && (n <=? k) && (n =? rn.2)
  | _, _ => false
  end.

Lemma abi_consistent_check R P cases_saved cases_size :
  num_callee_saved P = zlen (callee_saved P) ->
  zlen (callee_saved_size P) = num_callee_saved P ->
  bool_decide (NoDup (callee_saved P)) = true ->
  (forall r, is_callee_saved P r = default false (switch r cases_saved)) ->
  (forall r, callee_reg_size P r = or_err (switch r cases_size)) ->
  cases_saved.*1 = callee_saved P -> cases_size.*1 = callee_saved P ->
  forallb (saved_row_ok R P) (zip (callee_saved P) (callee_saved_size P)) = true ->
  abi_consistent R P.
Proof.
  intros Hn Hl Hnd%bool_decide_eq_true Hs Hz K1 K2 Hrows.
  assert (Hrow : forall i r n, callee_saved P !! i = Some r ->
    callee_saved_size P !! i = Some n -> saved_row_ok R P (r, n) = true).
  { intros i r n H1 H2. rewrite forallb_forall in Hrows. apply Hrows, list_elem_of_In.
    apply list_elem_of_lookup. exists i. apply lookup_zip_Some. done. }
  assert (Hex : forall r, r ∈ callee_saved P -> exists i n,
    callee_saved P !! i = Some r /\ callee_saved_size P !! i = Some n).
  { intros r [i Hi]%list_elem_of_lookup. pose proof (lookup_lt_Some _ _ _ Hi).
    destruct (lookup_lt_is_Some_2 (callee_saved_size P) i) as [n ?];
      [unfold zlen in *; lia|eauto]. }
  split; [done|]. split; [done|]. intros r. unfold saved_row_ok in Hrow.
  split; [|split].
  - split.
    + rewrite Hs. destruct (switch r cases_saved) eqn:E; [|done]. intros _.
      rewrite <- K1. apply switch_In in E.
      apply list_elem_of_fmap. by eexists (_, _).
    + intros (i & n & H1 & H2)%Hex. specialize (Hrow _ _ _ H1 H2). simpl in Hrow.
      destruct (is_callee_saved P r); [done|]. by rewrite andb_false_r in Hrow.
  - intros n. split.
    + intros E. rewrite Hz in E. destruct (switch r cases_size) as [k|] eqn:Es; [|done].
      assert (Hin : r ∈ callee_saved P).
      { rewrite <- K2. apply switch_In in Es. apply list_elem_of_fmap. by eexists (_, _). }
      destruct (Hex r Hin) as (i & n' & H1 & H2). specialize (Hrow _ _ _ H1 H2).
      simpl in Hrow. rewrite Hz, Es in Hrow. simpl in *. injection E as ->.
      destruct (reg_size R r); try (rewrite andb_false_r in Hrow; done).
      exists i. split; [done|]. rewrite H2. f_equal. lia.
    + intros (i & H1 & H2). specialize (Hrow _ _ _ H1 H2). simpl in Hrow.
      destruct (reg_size R r), (callee_reg_size P r); try (rewrite andb_false_r in Hrow; done).
      f_equal. lia.
  - intros (i & n & H1 & H2)%Hex. specialize (Hrow _ _ _ H1 H2). simpl in Hrow.
    unfold shiftable.
    destruct (reg_size R r) as [k| | |], (callee_reg_size P r) as [n'| | |];
      try (rewrite andb_false_r in Hrow; done).
    split; [lia|]. split; [lia|]. exists n', k. split; [done|]. split; [done|]. lia.
Qed.

Lemma separate_aarch64 : registers_separate regs_aarch64 (regset_size regs_aarch64).
Proof. exact (@laws_separate regs_aarch64 layout_aarch64 laws_aarch64). Qed.

Lemma separate_x86_64 : registers_separate regs_x86_64 (regset_size regs_x86_64).
Proof. exact (@laws_separate regs_x86_64 layout_x86_64 laws_x86_64). Qed.

Ltac abi_check :=
  eapply abi_consistent_check;
    [ reflexivity | reflexivity | vm_compute; reflexivity
    | intros; unfold is_callee_saved; reflexivity
    | intros; unfold callee_reg_size; reflexivity
    | vm_compute; reflexivity .. ].

Lemma abi_aarch64 : abi_consistent regs_aarch64 properties_aarch64.
Proof. abi_check. Qed.

Lemma abi_x86_64 : abi_consistent regs_x86_64 properties_x86_64.
Proof. abi_check. Qed.

(** What the unwinding code relies on: consistent tables, and a stack pointer
    no function saves. *)
Class AbiLaws (R : regops_t) (P : properties_t) `{RegLaws R} := {
  abi_ok : abi_consistent R P;
  abi_sp : is_callee_saved P sp_reg = false;
}.

#[export] Instance abi_laws_aarch64 : AbiLaws regs_aarch64 properties_aarch64.
Proof. split; [exact abi_aarch64 | reflexivity]. Qed.

#[export] Instance abi_laws_x86_64 : AbiLaws regs_x86_64 properties_x86_64.
Proof. split; [exact abi_x86_64 | reflexivity]. Qed.

Lemma get_regops_cases arch R :
  get_regops arch = Some R ->
  (arch = EM_AARCH64 /\ R = regs_aarch64) \/ (arch = EM_X86_64 /\ R = regs_x86_64).
Proof.
  unfold get_regops, switch.
  destruct (Z.eqb_spec arch EM_AARCH64); [intros E; left; split; congruence|].
  destruct (Z.eqb_spec arch EM_X86_64); [intros E; right; split; congruence|discriminate].
Qed.

Lemma get_properties_cases arch P :
  get_properties arch = Some P ->
  (arch = EM_AARCH64 /\ P = properties_aarch64) \/
  (arch = EM_X86_64 /\ P = properties_x86_64).
Proof.
  unfold get_properties, switch.
  destruct (Z.eqb_spec arch EM_AARCH64); [intros E; left; split; congruence|].
  destruct (Z.eqb_spec arch EM_X86_64); [intros E; right; split; congruence|discriminate].
Qed.

Lemma supported_cases arch R P :
  get_regops arch = Some R /\ get_properties arch = Some P ->
  (R = regs_aarch64 /\ P = properties_aarch64) \/ (R = regs_x86_64 /\ P = properties_x86_64).
Proof.
  intros [[[-> ->]|[-> ->]]%get_regops_cases [[E ->]|[E ->]]%get_properties_cases].
  - left. split; reflexivity.
  - discriminate E.
  - discriminate E.
  - right. split; reflexivity.
Qed.

(** C24: For every architecture the runtime supports, [reg] gives each register
    it accepts a range of the register set object that overlaps no other
    register's, and [reg_size] is the length of that range; the ABI tables are
    consistent: [is_callee_saved] and [callee_reg_size] accept exactly the
    registers of [callee_saved] with the sizes of [callee_saved_size], and each
    of them is a register of the set, at least as wide as the part saved, whose
    number the bitmaps can hold. *)
Theorem architectures_well_formed arch R P :
  get_regops arch = Some R -> get_properties arch = Some P ->
  registers_separate R (regset_size R) /\ abi_consistent R P.
Proof.
  intros HR HP.
  destruct (supported_cases arch R P (conj HR HP)) as [[-> ->]|[-> ->]].
  - exact (conj separate_aarch64 abi_aarch64).
  - exact (conj separate_x86_64 abi_x86_64).
Qed.

Lemma architectures_well_formed_witness :
  registers_separate regs_aarch64 (regset_size regs_aarch64) /\
  abi_consistent regs_aarch64 properties_aarch64.
Proof.
  exact (architectures_well_formed EM_AARCH64 regs_aarch64 properties_aarch64
    eq_refl eq_refl).
Defined.
