(* ===== verification/Lookup.v ===== *)
(** * Metadata lookups (src/util.c)

    Binary searches over the call-site records, by return address and by
    identifier, and over the functions' unwinding records.  They are proved
    equivalent to linear specifications on sorted sections; the sections'
    sortedness is what the metadata tool establishes (WriteMeta.v). *)

From S2P Require Import Prelude CallSite Context.

(** ** Definitions *)

(** Arithmetic on [long]: overflow is undefined. *)
Definition long (z : Z) : outcome Z :=
  if (- 2 ^ 63 <=? z) && (z <? 2 ^ 63) then Ret z else Fault.

(** The loop of [get_site_by_addr]; [min] and [max] are [long]s. *)
Fixpoint site_by_addr_loop (sites_addr : list call_site) (retaddr : Z) (fuel : nat)
    (min max : Z) : outcome (option call_site) :=
  match fuel with
  | O => Spin
  | S fuel' =>
      if max >=? min then
        sum ← long (max + min);
        let mid := Z.quot sum 2 in
        cs ← get (znth sites_addr mid);
        if cs_addr cs =? retaddr then Ret (Some cs)
        else if retaddr >? cs_addr cs
             then site_by_addr_loop sites_addr retaddr fuel' (mid + 1) max
             else site_by_addr_loop sites_addr retaddr fuel' min (mid - 1)
      else Ret None
  end.

(** [None] when the function returns [false] and leaves [*cs] alone. *)
Definition get_site_by_addr (handle : st_handle) (ret_addr : Z) : outcome (option call_site) :=
  site_by_addr_loop (h_sites_addr handle) ret_addr (S (length (h_sites_addr handle)))
    0 (signed 64 (h_sites_count handle - 1)).

Fixpoint site_by_id_loop (sites_id : list call_site) (csid : Z) (fuel : nat)
    (min max : Z) : outcome (option call_site) :=
  match fuel with
  | O => Spin
  | S fuel' =>
      if max >=? min then
        sum ← long (max + min);
        let mid := Z.quot sum 2 in
        cs ← get (znth sites_id mid);
        if cs_id cs =? csid then Ret (Some cs)
        else if csid >? cs_id cs
             then site_by_id_loop sites_id csid fuel' (mid + 1) max
             else site_by_id_loop sites_id csid fuel' min (mid - 1)
      else Ret None
  end.

Definition get_site_by_id (handle : st_handle) (csid : Z) : outcome (option call_site) :=
  site_by_id_loop (h_sites_id handle) csid (S (length (h_sites_id handle)))
    0 (signed 64 (h_sites_count handle - 1)).

(** [IN_RANGE]: && does not read the next record when the first test fails. *)
Definition IN_RANGE (addrs : list unwind_addr) (idx addr : Z) : outcome bool :=
  u ← get (znth addrs idx);
  if ua_addr u <=? addr
  then (v ← get (znth addrs (idx + 1)); Ret (addr <? ua_addr v))
  else Ret false.

Fixpoint unwind_offset_loop (addrs : list unwind_addr) (count addr_int : Z) (fuel : nat)
    (min max : Z) : outcome (option unwind_addr) :=
  match fuel with
  | O => Spin
  | S fuel' =>
      if max >=? min then
        sum ← long (max + min);
        let mid := Z.quot sum 2 in
        if wrap64 mid =? wrap64 (count - 1) then
          u ← get (znth addrs mid);
          if ua_addr u <=? addr_int then Ret (Some u) else Ret None
        else
          inr ← IN_RANGE addrs mid addr_int;
          u ← get (znth addrs mid);
          if inr : bool then Ret (Some u)
          else if addr_int >? ua_addr u
               then unwind_offset_loop addrs count addr_int fuel' (mid + 1) max
               else unwind_offset_loop addrs count addr_int fuel' min (mid - 1)
      else Ret None
  end.

Definition get_unwind_offset_by_addr (handle : st_handle) (addr : Z) :
    outcome (option unwind_addr) :=
  unwind_offset_loop (h_unwind_addrs handle) (h_unwind_addr_count handle) addr
    (S (length (h_unwind_addrs handle))) 0 (signed 64 (h_unwind_addr_count handle - 1)).

Definition get_function_address (handle : st_handle) (pc : Z) : outcome Z :=
  entry ← get_unwind_offset_by_addr handle pc;
  match entry with
  | None => Ret NULL
  | Some e => Ret (ua_addr e)
  end.

(** ** Specifications *)

(** The records are in the order of the key. *)
Definition sorted_by {A} (key : A -> Z) (l : list A) : Prop :=
  forall i j a b, (i <= j)%nat -> l !! i = Some a -> l !! j = Some b -> key a <= key b.

Definition strictly_sorted_by {A} (key : A -> Z) (l : list A) : Prop :=
  forall i j a b, (i < j)%nat -> l !! i = Some a -> l !! j = Some b -> key a < key b.

(** The function that encloses an address: the last record that starts at it
    or before it. *)
Definition enclosing (l : list unwind_addr) (addr : Z) : option unwind_addr :=
  last (filter (fun u => ua_addr u <= addr) l).

(** What a lookup returns: a record with the key when there is one. *)
Definition lookup_result {A} (key : A -> Z) (l : list A) (k : Z) (r : option A) : Prop :=
  match r with
  | Some a => a ∈ l /\ key a = k
  | None => forall a, a ∈ l -> key a <> k
  end.

(** The counts of a handle agree with its arrays, which fit in memory. *)
Record counts_ok (h : st_handle) : Prop := {
  ok_addr : h_sites_count h = zlen (h_sites_addr h);
  ok_id : h_sites_count h = zlen (h_sites_id h);
  ok_unwind : h_unwind_addr_count h = zlen (h_unwind_addrs h);
  ok_sites_fit : h_sites_count h < 2 ^ 62;
  ok_unwind_fit : h_unwind_addr_count h < 2 ^ 62;
}.

(** ** Lemmas *)

Lemma long_Ret z : - 2 ^ 63 <= z < 2 ^ 63 -> long z = Ret z.
Proof. unfold long. intros. by rewrite (proj2 (Z.leb_le _ _)), (proj2 (Z.ltb_lt _ _)) by lia. Qed.

Lemma midpoint min max :
  0 <= min <= max -> min <= Z.quot (max + min) 2 <= max.
Proof.
  intros. rewrite Z.quot_div_nonneg by lia.
  pose proof (Z.div_mod (max + min) 2 ltac:(lia)).
  pose proof (Z.mod_pos_bound (max + min) 2 ltac:(lia)). lia.
Qed.

Lemma last_index n : 0 <= n < 2 ^ 62 -> signed 64 (n - 1) = n - 1.
Proof.
  intros Hn. unfold signed. change (2 ^ (64 - 1)) with (2 ^ 63).
  destruct (decide (n = 0)) as [->|]; [reflexivity|].
  rewrite wrap_small by lia. destruct (Z.ltb_spec (n - 1) (2 ^ 63)); lia.
Qed.

(** What every step of the searches has in common. *)
Lemma probe {A} (l : list A) min max :
  0 <= min -> min <= max < zlen l -> zlen l < 2 ^ 62 ->
  exists mid x, long (max + min) = Ret (max + min) /\ Z.quot (max + min) 2 = mid /\
    znth l mid = Some x /\ min <= mid <= max.
Proof.
  intros ? [? ?] ?. pose proof (midpoint min max ltac:(lia)).
  destruct (znth_is_Some l (Z.quot (max + min) 2)) as [x Hx]; [lia|].
  exists (Z.quot (max + min) 2), x. split; [|by auto]. apply long_Ret. lia.
Qed.

Lemma sorted_znth {A} (key : A -> Z) l i j a b :
  sorted_by key l -> i <= j -> znth l i = Some a -> znth l j = Some b -> key a <= key b.
Proof. intros H ? [? Ha]%znth_lookup [? Hb]%znth_lookup. eapply H; [|done..]. lia. Qed.

Lemma strictly_sorted_znth {A} (key : A -> Z) l i j a b :
  strictly_sorted_by key l -> i < j -> znth l i = Some a -> znth l j = Some b -> key a < key b.
Proof. intros H ? [? Ha]%znth_lookup [? Hb]%znth_lookup. eapply H; [|done..]. lia. Qed.

Lemma strictly_sorted_sorted {A} (key : A -> Z) l :
  strictly_sorted_by key l -> sorted_by key l.
Proof.
  intros H i j a b Hij Ha Hb. destruct (decide (i = j)) as [->|]; [naive_solver lia|].
  assert (key a < key b) by (eapply (H i j); [lia|done..]). lia.
Qed.

Section search.
Context {A : Type} (key : A -> Z) (l : list A) (k : Z).
Context (Hsorted : sorted_by key l).

(** The records outside [min, max] do not have the key. *)
Definition excluded (min max : Z) : Prop :=
  forall i a, znth l i = Some a -> i < min \/ max < i -> key a <> k.

Lemma excluded_up min max mid x :
  excluded min max -> znth l mid = Some x -> key x < k -> excluded (mid + 1) max.
Proof using Hsorted.
  intros He Hx Hlt i a Ha Hi. destruct (decide (i <= mid)); [|apply (He i a Ha); lia].
  pose proof (sorted_znth _ _ _ _ _ _ Hsorted ltac:(eassumption) Ha Hx). lia.
Qed.

Lemma excluded_down min max mid x :
  excluded min max -> znth l mid = Some x -> k < key x -> excluded min (mid - 1).
Proof using Hsorted.
  intros He Hx Hlt i a Ha Hi. destruct (decide (mid <= i)); [|apply (He i a Ha); lia].
  pose proof (sorted_znth _ _ _ _ _ _ Hsorted ltac:(eassumption) Hx Ha). lia.
Qed.

Lemma excluded_all min max : excluded min max -> max < min -> lookup_result key l k None.
Proof using Type.
  intros He Hlt a [i Hi]%list_elem_of_lookup. apply (He (Z.of_nat i)); [|lia].
  apply znth_lookup. split; [lia|]. by rewrite Nat2Z.id.
Qed.
End search.

Lemma site_by_addr_loop_spec l k fuel min max :
  sorted_by cs_addr l -> zlen l < 2 ^ 62 -> 0 <= min <= max + 1 -> max < zlen l ->
  max - min + 1 < Z.of_nat fuel -> excluded cs_addr l k min max ->
  exists r, site_by_addr_loop l k fuel min max = Ret r /\ lookup_result cs_addr l k r.
Proof.
  intros Hs Hl. revert min max. induction fuel as [|fuel IH]; intros min max ?? Hf He;
    simpl site_by_addr_loop.
  { lia. }
  destruct (Z.geb_spec max min); [|exists None; eauto using excluded_all].
  destruct (probe l min max) as (mid & x & -> & Hm & Hx & ?); [lia..|].
  simpl. rewrite Hm, Hx. simpl. destruct (Z.eqb_spec (cs_addr x) k) as [<-|].
  { exists (Some x). split; [done|]. split; [by eapply znth_elem|done]. }
  destruct (Z.gtb_spec k (cs_addr x));
    (apply IH; [lia..|]); [eapply excluded_up | eapply excluded_down]; eauto; lia.
Qed.

Lemma site_by_id_loop_spec l k fuel min max :
  sorted_by cs_id l -> zlen l < 2 ^ 62 -> 0 <= min <= max + 1 -> max < zlen l ->
  max - min + 1 < Z.of_nat fuel -> excluded cs_id l k min max ->
  exists r, site_by_id_loop l k fuel min max = Ret r /\ lookup_result cs_id l k r.
Proof.
  intros Hs Hl. revert min max. induction fuel as [|fuel IH]; intros min max ?? Hf He;
    simpl site_by_id_loop.
  { lia. }
  destruct (Z.geb_spec max min); [|exists None; eauto using excluded_all].
  destruct (probe l min max) as (mid & x & -> & Hm & Hx & ?); [lia..|].
  simpl. rewrite Hm, Hx. simpl. destruct (Z.eqb_spec (cs_id x) k) as [<-|].
  { exists (Some x). split; [done|]. split; [by eapply znth_elem|done]. }
  destruct (Z.gtb_spec k (cs_id x));
    (apply IH; [lia..|]); [eapply excluded_up | eapply excluded_down]; eauto; lia.
Qed.

(** *** The unwinding records *)

Section enclosing.
Context (l : list unwind_addr) (x : Z).
Context (Hs : strictly_sorted_by ua_addr l).

(** A record that starts at or before [x], and whose successor does not. *)
Lemma enclosing_at i u :
  znth l i = Some u -> ua_addr u <= x ->
  (forall j v, i < j -> znth l j = Some v -> x < ua_addr v) ->
  enclosing l x = Some u.
Proof using Type.
  intros [Hi Hu]%znth_lookup Hle Hgt. unfold enclosing.
  rewrite <- (take_drop_middle _ _ _ Hu), filter_app, filter_cons_True by done.
  rewrite (filter_none _ (drop _ l)).
  - by rewrite last_snoc.
  - intros v [j Hj]%list_elem_of_lookup. rewrite lookup_drop in Hj.
    assert (x < ua_addr v); [|lia].
    eapply (Hgt (i + 1 + Z.of_nat j)); [lia|]. apply znth_lookup. split; [lia|].
    rewrite <- Hj. f_equal. lia.
Qed.

Lemma enclosing_none :
  (forall j v, znth l j = Some v -> x < ua_addr v) -> enclosing l x = None.
Proof using Type.
  intros Hgt. unfold enclosing. rewrite filter_none; [done|].
  intros v [j Hj]%list_elem_of_lookup.
  assert (x < ua_addr v); [|lia]. apply (Hgt (Z.of_nat j)), znth_lookup.
  split; [lia|]. by rewrite Nat2Z.id.
Qed.

(** Where the search is: everything before [min] starts at or before [x],
    everything after [max] starts after it. *)
Definition narrowed (min max : Z) : Prop :=
  (forall i u, znth l i = Some u -> i <= min -> 0 < min -> ua_addr u <= x) /\
  (forall i u, znth l i = Some u -> max < i -> x < ua_addr u).

Lemma narrowed_last min max u :
  narrowed min max -> znth l (zlen l - 1) = Some u -> min <= zlen l - 1 ->
  zlen l - 1 <= max -> Z.quot (max + min) 2 = zlen l - 1 -> 0 <= min -> max < zlen l ->
  (if ua_addr u <=? x then Ret (Some u) else Ret None) = Ret (enclosing l x).
Proof using Hs.
  intros [Hlo Hhi] Hu ??? ??. destruct (Z.leb_spec (ua_addr u) x).
  - rewrite (enclosing_at (zlen l - 1) u); [done..|].
    intros j v ? Hv%znth_Some_range. lia.
  - f_equal. symmetry. destruct (decide (0 < min)).
    { assert (min = zlen l - 1) as Em.
      { destruct (decide (min = zlen l - 1)); [done|]. rewrite Z.quot_div_nonneg in * by lia.
        pose proof (Z.div_mod (max + min) 2 ltac:(lia)).
        pose proof (Z.mod_pos_bound (max + min) 2 ltac:(lia)). lia. }
      assert (ua_addr u <= x); [|lia]. apply (Hlo _ _ Hu); lia. }
    apply enclosing_none. intros j v Hv. pose proof (znth_Some_range _ _ _ Hv).
    assert (zlen l = 1).
    { rewrite Z.quot_div_nonneg in * by lia.
      pose proof (Z.div_mod (max + min) 2 ltac:(lia)).
      pose proof (Z.mod_pos_bound (max + min) 2 ltac:(lia)). lia. }
    replace j with (zlen l - 1) in Hv by lia. rewrite Hu in Hv. injection Hv as <-. lia.
Qed.
End enclosing.

Lemma unwind_offset_loop_spec l x fuel min max :
  strictly_sorted_by ua_addr l -> zlen l < 2 ^ 62 -> 0 <= min <= max + 1 -> max < zlen l ->
  max - min + 1 < Z.of_nat fuel -> min < zlen l \/ zlen l = 0 ->
  narrowed l x min max ->
  unwind_offset_loop l (zlen l) x fuel min max = Ret (enclosing l x).
Proof.
  intros Hs Hl. revert min max. induction fuel as [|fuel IH]; intros min max ?? Hf Hlt Hn;
    simpl unwind_offset_loop.
  { lia. }
  destruct (Z.geb_spec max min).
  2:{ f_equal. symmetry. apply enclosing_none. intros j v Hv. destruct Hn as [Hlo Hhi].
      pose proof (znth_Some_range _ _ _ Hv). apply (Hhi j v Hv).
      destruct (decide (max < j)); [done|]. destruct (znth_is_Some l min) as [w Hw]; [lia|].
      specialize (Hlo _ _ Hw). specialize (Hhi _ _ Hw). lia. }
  destruct (probe l min max) as (mid & u & -> & Hm & Hu & ?); [lia..|].
  pose proof (znth_Some_range _ _ _ Hu).
  simpl. rewrite Hm. rewrite !wrap_small by lia.
  destruct (Z.eqb_spec mid (zlen l - 1)) as [->|].
  { rewrite Hu. simpl. eapply narrowed_last; eauto; lia. }
  destruct (znth_is_Some l (mid + 1)) as [v Hv]; [lia|].
  unfold IN_RANGE. rewrite Hu. simpl.
  destruct (Z.leb_spec (ua_addr u) x).
  - rewrite Hv. simpl. destruct (Z.ltb_spec x (ua_addr v)).
    + rewrite (enclosing_at l x mid u); [done..|]. intros j w ? Hw.
      pose proof (sorted_znth _ _ (mid + 1) j _ _ (strictly_sorted_sorted _ _ Hs)
        ltac:(lia) Hv Hw). lia.
    + pose proof (strictly_sorted_znth _ _ mid (mid + 1) _ _ Hs ltac:(lia) Hu Hv).
      destruct (Z.gtb_spec x (ua_addr u)); [|lia]. apply IH; [lia..|].
      split; [|apply Hn]. intros i w Hw ??.
      pose proof (sorted_znth _ _ i (mid + 1) _ _ (strictly_sorted_sorted _ _ Hs)
        ltac:(lia) Hw Hv). lia.
  - destruct (Z.gtb_spec x (ua_addr u)); [lia|].
    assert (min = 0 \/ min < mid) as Hmin.
    { destruct (decide (min = mid)) as [->|]; [|lia]. destruct (decide (0 < mid)); [|lia].
      destruct Hn as [Hlo _]. specialize (Hlo _ _ Hu). lia. }
    apply IH; [lia..|]. split; [apply Hn|]. intros i w Hw ?.
    pose proof (sorted_znth _ _ mid i _ _ (strictly_sorted_sorted _ _ Hs)
      ltac:(lia) Hu Hw). lia.
Qed.

(** *** The searches over a whole section *)

Lemma site_by_addr_found h ret_addr :
  counts_ok h -> sorted_by cs_addr (h_sites_addr h) ->
  exists r, get_site_by_addr h ret_addr = Ret r /\
    lookup_result cs_addr (h_sites_addr h) ret_addr r.
Proof.
  intros Hc Ha. pose proof (ok_sites_fit h Hc) as Hf. unfold get_site_by_addr.
  rewrite (ok_addr h Hc) in *. rewrite last_index by (unfold zlen in *; lia).
  apply site_by_addr_loop_spec; auto; unfold zlen in *; try lia.
  intros i a Hr%znth_Some_range ?. unfold zlen in *. lia.
Qed.

Lemma site_by_id_found h csid :
  counts_ok h -> sorted_by cs_id (h_sites_id h) ->
  exists r, get_site_by_id h csid = Ret r /\ lookup_result cs_id (h_sites_id h) csid r.
Proof.
  intros Hc Hi. pose proof (ok_sites_fit h Hc) as Hf. unfold get_site_by_id.
  rewrite (ok_id h Hc) in *. rewrite last_index by (unfold zlen in *; lia).
  apply site_by_id_loop_spec; auto; unfold zlen in *; try lia.
  intros i a Hr%znth_Some_range ?. unfold zlen in *. lia.
Qed.

Lemma unwind_offset_found h addr :
  counts_ok h -> strictly_sorted_by ua_addr (h_unwind_addrs h) ->
  get_unwind_offset_by_addr h addr = Ret (enclosing (h_unwind_addrs h) addr).
Proof.
  intros Hc Hs. unfold get_unwind_offset_by_addr. pose proof (ok_unwind_fit h Hc).
  rewrite (ok_unwind h Hc) in *. rewrite last_index by (unfold zlen in *; lia).
  apply unwind_offset_loop_spec; auto; try (unfold zlen in *; lia).
  split; [lia|]. intros i a Hr%znth_Some_range ?. lia.
Qed.

Lemma function_address_found h addr :
  counts_ok h -> strictly_sorted_by ua_addr (h_unwind_addrs h) ->
  get_function_address h addr = Ret (from_option ua_addr NULL (enclosing (h_unwind_addrs h) addr)).
Proof.
  intros Hc Hs. unfold get_function_address. rewrite unwind_offset_found by done.
  by destruct (enclosing (h_unwind_addrs h) addr).
Qed.

(** ** Properties *)

(** C25: On sections sorted by address and by identifier, the two call-site
    lookups terminate and return a record with the address (identifier) asked
    for exactly when the section holds one. *)
Theorem site_lookups_correct h ret_addr csid :
  counts_ok h -> sorted_by cs_addr (h_sites_addr h) -> sorted_by cs_id (h_sites_id h) ->
  (exists r, get_site_by_addr h ret_addr = Ret r /\
     lookup_result cs_addr (h_sites_addr h) ret_addr r) /\
  (exists r, get_site_by_id h csid = Ret r /\ lookup_result cs_id (h_sites_id h) csid r).
Proof.
  intros Hc Ha Hi. split; [by apply site_by_addr_found|by apply site_by_id_found].
Qed.

(** On unwinding records in strictly increasing address order, the search
    terminates and returns the last record that starts at or before the
    address, so [get_function_address] is the start of the enclosing function
    (NULL below the first one). *)
Theorem function_lookup_encloses h addr :
  counts_ok h -> strictly_sorted_by ua_addr (h_unwind_addrs h) ->
  get_unwind_offset_by_addr h addr = Ret (enclosing (h_unwind_addrs h) addr) /\
  get_function_address h addr =
    Ret (from_option ua_addr NULL (enclosing (h_unwind_addrs h) addr)).
Proof.
  intros Hc Hs. split; [by apply unwind_offset_found|by apply function_address_found].
Qed.

(** ** Witnesses *)

Definition sample_site (id addr : Z) : call_site := CallSite id addr 32 0 0 0 0 0 0 u16_max.

Definition sample_handle : st_handle :=
  let sites := [sample_site 1 100; sample_site 2 140; sample_site 5 200] in
  StHandle EM_AARCH64 8 RegsAArch64.regs_aarch64 RegsAArch64.properties_aarch64
    3 [UnwindAddr 96 0 0; UnwindAddr 128 0 0; UnwindAddr 192 0 0] 0 []
    3 sites sites 0 [] 0 [].

Lemma sample_handle_counts : counts_ok sample_handle.
Proof. split; reflexivity. Qed.

(** Sortedness of a concrete list, checked pair by pair. *)
Fixpoint sorted_check (strict : bool) (ks : list Z) : bool :=
  match ks with
  | [] => true
  | k :: ks' =>
      forallb (fun k' => if strict then k <? k' else k <=? k') ks' && sorted_check strict ks'
  end.

Lemma sorted_check_ok {A} (key : A -> Z) strict l :
  sorted_check strict (key <$> l) = true ->
  if strict then strictly_sorted_by key l else sorted_by key l.
Proof.
  assert (H : sorted_check strict (key <$> l) = true -> forall i j a b, (i < j)%nat ->
    l !! i = Some a -> l !! j = Some b -> if strict then key a < key b else key a <= key b).
  { induction l as [|c l IH]; simpl; [done|]. intros [Hc Hl]%andb_prop [|i] [|j] a b Hij;
      simpl; try lia; intros Ha Hb; [|eapply (IH Hl i j); eauto; lia].
    injection Ha as ->. rewrite forallb_forall in Hc. specialize (Hc (key b)).
    destruct strict; apply Z.ltb_lt || apply Z.leb_le; apply Hc, list_elem_of_In, list_elem_of_fmap_2;
      by eapply list_elem_of_lookup_2. }
  intros Hck. specialize (H Hck). destruct strict; [exact H|].
  intros i j a b Hij Ha Hb. destruct (decide (i = j)) as [->|]; [naive_solver lia|].
  eapply H; [|done..]. lia.
Qed.

Lemma site_lookups_correct_witness :
  (exists r, get_site_by_addr sample_handle 140 = Ret r /\
     lookup_result cs_addr (h_sites_addr sample_handle) 140 r) /\
  (exists r, get_site_by_id sample_handle 4 = Ret r /\
     lookup_result cs_id (h_sites_id sample_handle) 4 r).
Proof.
  apply site_lookups_correct.
  - exact sample_handle_counts.
  - apply (sorted_check_ok cs_addr false). reflexivity.
  - apply (sorted_check_ok cs_id false). reflexivity.
Defined.

Lemma function_lookup_encloses_witness :
  get_unwind_offset_by_addr sample_handle 150 = Ret (Some (UnwindAddr 128 0 0)) /\
  get_function_address sample_handle 150 = Ret 128.
Proof.
  exact (function_lookup_encloses sample_handle 150 sample_handle_counts
    (sorted_check_ok ua_addr true (h_unwind_addrs sample_handle) eq_refl)).
Defined.
