(* ===== verification/Unwind.v ===== *)
(** * Unwinding stack frames (src/unwind.c)

    Popping a frame: the next activation gets a copy of the current register
    set, the registers its callee saved are read back from the stack through
    the unwinding records, and SP, FBP and CFA are set up. *)

From S2P Require Import Prelude Machine Bitmap LinkedList CallSite Regs Context.

(** ** Definitions *)

Definition setup_regset (ctx : rewrite_context) (act : Z) : M rewrite_context :=
  let p := ptr_add (rc_regset_pool ctx) (act * regset_size (REGOPS ctx)) in
  ctx ← upd_acts (set_regs p) act ctx;
  prev ← acts ctx (act - 1);
  cur ← acts ctx act;
  regset_clone (REGOPS ctx) (act_regs prev) (act_regs cur);;
  mret ctx.

(** [callee_saved_pool] is a [STORAGE_TYPE*]: its index counts words, and
    [bitmap_size] counts bytes. *)
Definition callee_saved_bits (ctx : rewrite_context) (act : Z) : Z :=
  let num_regs := num_regs (REGOPS ctx) in
  ptr_add (rc_callee_saved_pool ctx) (8 * (act * bitmap_size num_regs)).

Definition setup_callee_saved_bits (ctx : rewrite_context) (act : Z) : M rewrite_context :=
  upd_acts (set_callee_saved
    (Bitmap (num_regs (REGOPS ctx)) (callee_saved_bits ctx act))) act ctx.

(** [unwind_start] and [unwind_end], as 32-bit integers. *)
Definition unwind_start (s : call_site) : Z := wrap32 (cs_unwind_offset s).
Definition unwind_end (s : call_site) : Z := wrap32 (unwind_start s + cs_num_unwind s).

(** One iteration of the restoring loop. *)
Definition restore_one (ctx : rewrite_context) (act : Z) (i : Z) : M unit :=
  prev ← acts ctx (act - 1);
  cur ← acts ctx act;
  loc ← lift (get (znth (h_unwind_locs (rc_handle ctx)) i));
  fp ← fbp (REGOPS ctx) (act_regs prev);
  let saved_loc := ptr_add fp (ul_offset loc) in
  dst ← lift (reg (REGOPS ctx) (act_regs cur) (ul_reg loc));
  n ← lift (callee_reg_size (PROPS ctx) (ul_reg loc));
  memcpy dst saved_loc n;;
  bitmap_set (act_callee_saved prev) (ul_reg loc).

Definition restore_callee_saved_regs (ctx : rewrite_context) (act : Z) : M unit :=
  prev ← acts ctx (act - 1);
  cur ← acts ctx act;
  let start := unwind_start (act_site prev) in
  for_ (Z.to_nat (unwind_end (act_site prev) - start)) start (restore_one ctx act);;
  if has_ra_reg (REGOPS ctx) then
    ra ← ra_reg (REGOPS ctx) (act_regs cur);
    set_pc (REGOPS ctx) (act_regs cur) ra
  else mret tt.

(** [UINT64_MAX] and [UINT64_MAX - 1]. *)
Definition first_frame (id : Z) : bool :=
  (id =? u64_max) || (id =? u64_max - 1).

Definition calculate_cfa (ctx : rewrite_context) (act : Z) : M Z :=
  a ← acts ctx act;
  p ← sp (REGOPS ctx) (act_regs a);
  mret (ptr_add p (cs_frame_size (act_site a))).

Definition setup_frame_bounds (ctx : rewrite_context) (act : Z) : M rewrite_context :=
  prev ← acts ctx (act - 1);
  cur ← acts ctx act;
  let new_sp := act_cfa prev in
  set_sp (REGOPS ctx) (act_regs cur) new_sp;;
  cfa ← calculate_cfa ctx act;
  ctx ← upd_acts (set_cfa cfa) act ctx;
  cur ← acts ctx act;
  setup_fbp (REGOPS ctx) (act_regs cur) (act_cfa cur);;
  mret ctx.

Definition bootstrap_first_frame (ctx : rewrite_context) : M rewrite_context :=
  ctx ← setup_callee_saved_bits ctx (rc_act ctx);
  cfa ← calculate_cfa ctx (rc_act ctx);
  upd_acts (set_cfa cfa) (rc_act ctx) ctx.

Definition bootstrap_first_frame_funcentry (ctx : rewrite_context) : M rewrite_context :=
  ctx ← setup_callee_saved_bits ctx (rc_act ctx);
  a ← ACT ctx;
  p ← sp (REGOPS ctx) (act_regs a);
  upd_acts (set_cfa (ptr_add p (cfa_offset_funcentry (PROPS ctx)))) (rc_act ctx) ctx.

Definition pop_frame (ctx : rewrite_context) (setup_bounds : bool) : M rewrite_context :=
  let next_frame := rc_act ctx + 1 in
  ctx ← setup_regset ctx next_frame;
  ctx ← setup_callee_saved_bits ctx next_frame;
  restore_callee_saved_regs ctx next_frame;;
  ctx ← (if setup_bounds then setup_frame_bounds ctx next_frame
         else (next ← NEXT_ACT ctx;
               cur ← ACT ctx;
               set_sp (REGOPS ctx) (act_regs next) (act_cfa cur);;
               mret ctx));
  mret (set_act (rc_act ctx + 1) ctx).

Definition pop_frame_funcentry (ctx : rewrite_context) : M rewrite_context :=
  let next_frame := rc_act ctx + 1 in
  ctx ← setup_regset ctx next_frame;
  ctx ← setup_callee_saved_bits ctx next_frame;
  next ← NEXT_ACT ctx;
  cur ← ACT ctx;
  (if has_ra_reg (REGOPS ctx) then
     ra ← ra_reg (REGOPS ctx) (act_regs cur);
     set_pc (REGOPS ctx) (act_regs next) ra
   else
     p ← sp (REGOPS ctx) (act_regs cur);
     ra ← load64 p;
     set_pc (REGOPS ctx) (act_regs next) ra);;
  ctx ← setup_frame_bounds ctx next_frame;
  next ← NEXT_ACT ctx;
  cur ← ACT ctx;
  fp ← fbp (REGOPS ctx) (act_regs next);
  set_fbp (REGOPS ctx) (act_regs cur) fp;;
  mret (set_act (rc_act ctx + 1) ctx).

(** The loop of [get_register_save_loc]: the first record for the register. *)
Fixpoint find_save_loc (locs : list unwind_loc) (reg : Z) (n : nat) (i : Z) :
    outcome (option unwind_loc) :=
  match n with
  | O => Ret None
  | S n' =>
      loc ← get (znth locs i);
      if ul_reg loc =? reg then Ret (Some loc)
      else find_save_loc locs reg n' (i + 1)
  end.

Definition get_register_save_loc (ctx : rewrite_context) (act : activation) (reg : Z) : M Z :=
  let start := unwind_start (act_site act) in
  found ← lift (find_save_loc (h_unwind_locs (rc_handle ctx)) reg
                  (Z.to_nat (unwind_end (act_site act) - start)) start);
  match found with
  | None => mret NULL
  | Some loc => fp ← fbp (REGOPS ctx) (act_regs act); mret (ptr_add fp (ul_offset loc))
  end.

(** Without _CHECKS the function is empty. *)
Definition free_activation (handle : st_handle) (act : activation) : M unit := mret tt.

(** ** Specification *)

Definition apart (a n b k : Z) : Prop := a + n <= b \/ b + k <= a.

(** The unwinding records of a call site. *)
Definition records (locs : list unwind_loc) (s : call_site) (recs : list unwind_loc) : Prop :=
  unwind_end s - unwind_start s = zlen recs /\
  forall i loc, recs !! i = Some loc -> znth locs (unwind_start s + Z.of_nat i) = Some loc.

Section specification.
Context (h : st_handle).
Context {L : RegLayout (h_regops h)}.

#[local] Abbreviation R := (h_regops h).
#[local] Abbreviation P := (h_props h).

(** The address of a save slot of an activation. *)
Definition save_slot (m : memory) (a : activation) (loc : unwind_loc) : Z :=
  special fbp_off m (act_regs a) + ul_offset loc.

(** Activation [prev] can be unwound into the register set at [p]: the two
    register sets and the bitmap are separate objects, every record names a
    callee-saved register once, and the slots lie in memory apart from what
    unwinding writes. *)
Record unwindable (m : memory) (prev : activation) (p : Z) (recs : list unwind_loc)
    (S : gset Z) : Prop := {
  uw_wf : wf_memory m;
  uw_prev : regset_valid R m (act_regs prev);
  uw_cur : regset_valid R m p;
  uw_bits : bitmap_rep m (act_callee_saved prev) S;
  uw_bits_size : bm_size (act_callee_saved prev) = num_regs R;
  uw_regs_apart : apart (act_regs prev) (regset_size R) p (regset_size R);
  uw_bits_prev : apart (bm_bits (act_callee_saved prev)) (bitmap_size (num_regs R))
                   (act_regs prev) (regset_size R);
  uw_bits_cur : apart (bm_bits (act_callee_saved prev)) (bitmap_size (num_regs R))
                  p (regset_size R);
  uw_records : records (h_unwind_locs h) (act_site prev) recs;
  uw_nodup : NoDup (ul_reg <$> recs);
  uw_saved : forall loc, loc ∈ recs -> is_callee_saved P (ul_reg loc) = true;
  uw_slots : forall loc n, loc ∈ recs -> callee_reg_size P (ul_reg loc) = Ret n ->
    valid m (save_slot m prev loc) n = true /\
    apart (save_slot m prev loc) n p (regset_size R) /\
    apart (save_slot m prev loc) n
      (bm_bits (act_callee_saved prev)) (bitmap_size (num_regs R));
}.

(** What unwinding writes. *)
Definition unwind_writes (prev : activation) (p x : Z) : Prop :=
  span p (regset_size R) x \/
  span (bm_bits (act_callee_saved prev)) (bitmap_size (num_regs R)) x.

(** A register of the new activation holds what its slot holds. *)
Definition restored (m m' : memory) (prev : activation) (p : Z) (loc : unwind_loc) : Prop :=
  forall n q, callee_reg_size P (ul_reg loc) = Ret n -> reg R p (ul_reg loc) = Ret q ->
    peek m' <$> seqZ q n = peek m <$> seqZ (save_slot m prev loc) n.

(** What the loop has done once the records [past] are processed. *)
Definition restoring (m : memory) (prev : activation) (p : Z) (S : gset Z)
    (past : list unwind_loc) (mk : memory) : Prop :=
  only_writes (unwind_writes prev p) m mk /\
  bitmap_rep mk (act_callee_saved prev) (list_to_set (ul_reg <$> past) ∪ S) /\
  (forall loc, loc ∈ past -> restored m mk prev p loc) /\
  (forall r, r ∉ ul_reg <$> past -> reg_bytes R mk p r = reg_bytes R m p r).

End specification.

(** ** Lemmas *)

Section unwinding.
Context (ctx : rewrite_context).
Context {L : RegLayout (h_regops (rc_handle ctx))} {HR : RegLaws (h_regops (rc_handle ctx))}.
Context {HP : AbiLaws (h_regops (rc_handle ctx)) (h_props (rc_handle ctx))}.

#[local] Abbreviation h := (rc_handle ctx).
#[local] Abbreviation R := (h_regops h).
#[local] Abbreviation P := (h_props h).
#[local] Abbreviation unwindable := (unwindable h).
#[local] Abbreviation unwind_writes := (unwind_writes h).
#[local] Abbreviation restored := (restored h).
#[local] Abbreviation restoring := (restoring h).
#[local] Abbreviation save_slot := (save_slot h).

Lemma callee_saved_facts r :
  is_callee_saved P r = true ->
  exists o k n, reg_off r = Some o /\ reg_size R r = Ret k /\ callee_reg_size P r = Ret n /\
    0 < n <= k /\ 8 <= k <= 16 /\ off_regs <= o /\ o + k <= regset_size R /\
    0 <= r < num_regs R /\ shiftable r.
Proof using HR HP.
  intros Hs. destruct abi_ok as (_ & _ & H). destruct (H r) as (H1 & _ & H3).
  apply H1 in Hs. destruct (H3 Hs) as (? & ? & n & k & Ek & En & ?).
  destruct (reg_off r) as [o|] eqn:Eo.
  - destruct (law_reg_size r o Eo) as (k' & Ek' & ? & ? & ? & ?).
    assert (k' = k) as -> by congruence. exists o, k, n.
    do 8 (split; [first [reflexivity | assumption | lia]|]). assumption.
  - pose proof (law_reg_size_none r Eo). congruence.
Qed.

Lemma unwind_writes_bits prev p m m' :
  only_writes (span (bm_bits (act_callee_saved prev)) (bitmap_size (num_regs R))) m m' ->
  only_writes (unwind_writes prev p) m m'.
Proof using Type. intros H. eapply only_writes_weaken; [exact H|]. intros x ?. by right. Qed.

(** One iteration copies one slot and marks its register. *)
Lemma restore_one_spec m prev cur recs S k loc mk T act :
  unwindable m prev (act_regs cur) recs S ->
  znth (rc_acts ctx) (act - 1) = Some prev -> znth (rc_acts ctx) act = Some cur ->
  znth (h_unwind_locs (rc_handle ctx)) k = Some loc -> loc ∈ recs ->
  only_writes (unwind_writes prev (act_regs cur)) m mk ->
  bitmap_rep mk (act_callee_saved prev) T ->
  exists mk' q n, restore_one ctx act k mk = Ret (tt, mk') /\
    reg R (act_regs cur) (ul_reg loc) = Ret q /\ callee_reg_size P (ul_reg loc) = Ret n /\
    bitmap_rep mk' (act_callee_saved prev) ({[ul_reg loc]} ∪ T) /\
    peek mk' <$> seqZ q n = peek m <$> seqZ (save_slot m prev loc) n /\
    only_writes (fun x => span q n x \/
      span (bm_bits (act_callee_saved prev)) (bitmap_size (num_regs R)) x) mk mk'.
Proof using HR HP.
  intros U Hprev Hcur Hloc Hin Hw Hb.
  destruct (callee_saved_facts _ (uw_saved _ _ _ _ _ _ U _ Hin))
    as (o & k' & n & Ho & Hk & Hn & ? & ? & ? & ? & ? & Hsh).
  destruct (uw_slots _ _ _ _ _ _ U _ _ Hin Hn) as (Hv & Ha1 & Ha2).
  pose proof (uw_regs_apart _ _ _ _ _ _ U). pose proof (uw_bits_prev _ _ _ _ _ _ U).
  pose proof (uw_bits_cur _ _ _ _ _ _ U). pose proof off_regs_nonneg.
  assert (Hfp : special fbp_off mk (act_regs prev) = special fbp_off m (act_regs prev)).
  { eapply word_at_frame; [exact Hw|]. pose proof fbp_bounds.
    intros x. unfold unwind_writes, span, apart in *. simpl. lia. }
  assert (Hreg : reg R (act_regs cur) (ul_reg loc) = Ret (act_regs cur + o)).
  { rewrite law_reg, Ho. done. }
  assert (Hmc : exists m1, memcpy (act_regs cur + o) (save_slot m prev loc) n mk = Ret (tt, m1)).
  { eexists. apply memcpy_run; [lia| |]; rewrite (only_writes_valid _ _ _ _ _ Hw).
    - exact Hv.
    - apply (regset_valid_field (R := R) m (act_regs cur)); [|lia|lia].
      apply (uw_cur _ _ _ _ _ _ U). }
  destruct Hmc as [m1 Hmc]. assert (Hn0 : 0 <= n) by lia. pose proof (memcpy_frame _ _ _ _ _ Hn0 Hmc) as Hw1.
  assert (Hb1 : bitmap_rep m1 (act_callee_saved prev) T).
  { eapply bitmap_rep_frame; [exact Hw1| |exact Hb]. rewrite (uw_bits_size _ _ _ _ _ _ U).
    intros x. unfold span, apart in *. lia. }
  destruct (bitmap_set_refines m1 _ (ul_reg loc) T Hb1) as (m2 & Hset & Hb2 & Hw2);
    [rewrite (uw_bits_size _ _ _ _ _ _ U); lia|done|].
  rewrite (uw_bits_size _ _ _ _ _ _ U) in Hw2.
  exists m2, (act_regs cur + o), n. split; [|split; [done|split; [done|split; [done|split]]]].
  - unfold restore_one, REGOPS, PROPS.
    rewrite (M_bind_step _ _ _ _ _ (acts_run _ _ _ _ Hprev)).
    rewrite (M_bind_step _ _ _ _ _ (acts_run _ _ _ _ Hcur)).
    rewrite Hloc. cbn [get]. rewrite (M_bind_step _ _ mk loc mk) by done.
    erewrite M_bind_step.
    2:{ apply fbp_run. unfold regset_valid. erewrite only_writes_valid by exact Hw.
        apply (uw_prev _ _ _ _ _ _ U). }
    rewrite Hfp, Hreg. rewrite (M_bind_step _ _ mk _ mk) by done.
    rewrite Hn. rewrite (M_bind_step _ _ mk _ mk) by done.
    erewrite (ptr_add_valid m) by (eauto using uw_wf; lia).
    fold (save_slot m prev loc). by rewrite (M_bind_step _ _ _ _ _ Hmc).
  - erewrite (only_writes_peeks _ m1 m2) by (exact Hw2 || (unfold span, apart in *; lia)).
    rewrite (memcpy_peeks _ _ _ _ _ Hn0 Hmc).
    eapply only_writes_peeks; [exact Hw|]. unfold unwind_writes, span, apart in *. lia.
  - apply (only_writes_seq _ _ _ m1); assumption.
Qed.

(** Registers are apart, and apart from the bitmap. *)
Lemma reg_writes_frame m prev p recs S r q n mk mk' :
  unwindable m prev p recs S -> is_callee_saved P r = true ->
  reg R p r = Ret q -> callee_reg_size P r = Ret n ->
  only_writes (fun x => span q n x \/
    span (bm_bits (act_callee_saved prev)) (bitmap_size (num_regs R)) x) mk mk' ->
  only_writes (unwind_writes prev p) mk mk' /\
  forall r' q' n', r' <> r -> reg R p r' = Ret q' -> reg_size R r' = Ret n' ->
    peek mk' <$> seqZ q' n' = peek mk <$> seqZ q' n'.
Proof using HR HP.
  intros U Hs Hq Hn Hw. pose proof (uw_bits_cur _ _ _ _ _ _ U) as Hbc.
  pose proof off_regs_nonneg.
  destruct (callee_saved_facts _ Hs) as (o & k & n0 & Ho & Hk & Hn0 & ? & ? & ? & ? & ? & _).
  rewrite Hn0 in Hn. injection Hn as ->.
  rewrite law_reg, Ho in Hq. injection Hq as <-. split.
  - eapply only_writes_weaken; [exact Hw|]. unfold unwind_writes, span. intros x. lia.
  - intros r' q' n' Hne Hq' Hn'. destruct (reg_Ret _ _ _ Hq') as (o' & k' & Ho' & -> & Hk' & ?).
    rewrite Hk' in Hn'. injection Hn' as ->.
    pose proof (law_reg_disjoint _ _ _ _ _ _ Ho' Ho Hne Hk' Hk).
    eapply only_writes_peeks; [exact Hw|]. unfold span, apart in *. lia.
Qed.

Lemma peeks_prefix m m' a k n :
  n <= k -> (peek m' <$> seqZ a k) = (peek m <$> seqZ a k) ->
  (peek m' <$> seqZ a n) = (peek m <$> seqZ a n).
Proof using Type.
  intros Hnk Heq. apply list_eq. intros i. apply option_eq. intros x. rewrite !peeks_lookup.
  assert (Hi : Z.of_nat i < n -> peek m' (a + Z.of_nat i) = peek m (a + Z.of_nat i)).
  { intros. pose proof (f_equal (lookup i) Heq) as Hl. revert Hl.
    assert (Hj : Z.of_nat i < k) by lia.
    rewrite !(proj2 (peeks_lookup _ _ _ _ _) (conj Hj eq_refl)). by intros [= ->]. }
  split; intros [? ->]; (split; [done|]); [by rewrite Hi | by rewrite <- Hi].
Qed.

Lemma restoring_step m prev cur recs S act k loc past mk :
  unwindable m prev (act_regs cur) recs S ->
  znth (rc_acts ctx) (act - 1) = Some prev -> znth (rc_acts ctx) act = Some cur ->
  znth (h_unwind_locs (rc_handle ctx)) k = Some loc -> loc ∈ recs ->
  ul_reg loc ∉ ul_reg <$> past -> (forall l, l ∈ past -> l ∈ recs) ->
  restoring m prev (act_regs cur) S past mk ->
  exists mk', restore_one ctx act k mk = Ret (tt, mk') /\
    restoring m prev (act_regs cur) S (past ++ [loc]) mk'.
Proof using HR HP.
  intros U Hp Hc Hk Hin Hnew Hsub (Hw & Hb & Hdone & Hrest).
  destruct (restore_one_spec _ _ _ _ _ _ _ _ _ _ U Hp Hc Hk Hin Hw Hb)
    as (mk' & q & n & Hrun & Hq & Hn & Hb' & Hcopy & Hw').
  exists mk'. split; [exact Hrun|].
  destruct (reg_writes_frame _ _ _ _ _ _ _ _ _ _ U (uw_saved _ _ _ _ _ _ U _ Hin) Hq Hn Hw')
    as [Hwk Hframe].
  split; [by transitivity mk|split; [|split]].
  - replace (list_to_set (ul_reg <$> past ++ [loc]) ∪ S : gset Z)
      with ({[ul_reg loc]} ∪ (list_to_set (ul_reg <$> past) ∪ S) : gset Z); [exact Hb'|].
    rewrite fmap_app, list_to_set_app_L. simpl. set_solver.
  - intros l [Hl|Hl%list_elem_of_singleton]%elem_of_app.
    + intros n' q' Hn' Hq'.
      destruct (callee_saved_facts _ (uw_saved _ _ _ _ _ _ U _ (Hsub _ Hl)))
        as (o & k' & n0 & _ & Hk' & Hn0 & ? & _).
      rewrite <- (Hdone l Hl n' q' Hn' Hq'). apply (peeks_prefix _ _ _ k').
      { assert (n' = n0) as -> by congruence. lia. }
      apply (Hframe (ul_reg l)); [|done..]. intros Heq. apply Hnew.
      rewrite <- Heq. by apply list_elem_of_fmap_2.
    + subst l. intros n' q' Hn' Hq'.
      assert (n' = n) as -> by congruence. assert (q' = q) as -> by congruence. exact Hcopy.
  - intros r Hr. rewrite fmap_app, not_elem_of_app in Hr. destruct Hr as [Hr Hr'].
    rewrite <- (Hrest r Hr). unfold reg_bytes.
    destruct (reg R (act_regs cur) r) as [q'| | |] eqn:Eq, (reg_size R r) as [n'| | |] eqn:En; try done.
    apply (Hframe r); [set_solver|done..].
Qed.

Lemma restore_loop_spec m prev cur recs S act :
  unwindable m prev (act_regs cur) recs S ->
  znth (rc_acts ctx) (act - 1) = Some prev -> znth (rc_acts ctx) act = Some cur ->
  exists m', for_ (length recs) (unwind_start (act_site prev)) (restore_one ctx act) m =
      Ret (tt, m') /\ restoring m prev (act_regs cur) S recs m'.
Proof using HR HP.
  intros U Hp Hc. set (start := unwind_start (act_site prev)).
  destruct (for_inv (fun k mk => restoring m prev (act_regs cur) S
      (take (Z.to_nat (k - start)) recs) mk) (restore_one ctx act) (length recs) start m)
    as (m' & Hrun & HI).
  - rewrite Z.sub_diag. split; [done|split; [|split]].
    + replace (list_to_set (ul_reg <$> take (Z.to_nat 0) recs) ∪ S) with S by set_solver.
      apply (uw_bits _ _ _ _ _ _ U).
    + intros loc Hl. simpl in Hl. set_solver.
    + done.
  - intros k mk Hk HI. destruct (uw_records _ _ _ _ _ _ U) as [Hlen Hrec].
    destruct (lookup_lt_is_Some_2 recs (Z.to_nat (k - start))) as [loc Hloc]; [lia|].
    pose proof (Hrec _ _ Hloc) as Hz. fold start in Hz.
    replace (start + Z.of_nat (Z.to_nat (k - start))) with k in Hz by lia.
    destruct (restoring_step _ _ _ _ _ act k loc (take (Z.to_nat (k - start)) recs) mk
      U Hp Hc Hz) as (mk' & Hrun & HI'); [| | |exact HI|].
    + by eapply list_elem_of_lookup_2.
    + pose proof (uw_nodup _ _ _ _ _ _ U) as Hnd.
      rewrite <- (take_drop_middle _ _ _ Hloc), fmap_app, fmap_cons in Hnd.
      apply NoDup_app in Hnd as (_ & Hd & _). intros Hbad. apply (Hd _ Hbad). left.
    + intros l Hl. eapply elem_of_submseteq; [exact Hl|]. apply submseteq_take.
    + exists mk'. split; [done|].
      replace (Z.to_nat (k + 1 - start)) with (Datatypes.S (Z.to_nat (k - start))) by lia.
      by rewrite (take_S_r _ _ _ Hloc).
  - exists m'. split; [exact Hrun|]. 
    replace (Z.to_nat (start + Z.of_nat (length recs) - start)) with (length recs) in HI by lia.
    by rewrite firstn_all in HI.
Qed.

Lemma restore_callee_saved_regs_spec m prev cur recs S act :
  unwindable m prev (act_regs cur) recs S ->
  znth (rc_acts ctx) (act - 1) = Some prev -> znth (rc_acts ctx) act = Some cur ->
  exists m', restore_callee_saved_regs ctx act m = Ret (tt, m') /\
    restoring m prev (act_regs cur) S recs m' /\
    (has_ra_reg R = true ->
       special pc_off m' (act_regs cur) = special ra_off m' (act_regs cur)).
Proof using HR HP.
  intros U Hp Hc. destruct (restore_loop_spec _ _ _ _ _ _ U Hp Hc) as (m1 & Hrun & HI).
  pose proof (uw_records _ _ _ _ _ _ U) as [Hlen _].
  pose proof HI as (Hw & Hb & Hdone & Hrest).
  assert (Hfor : restore_callee_saved_regs ctx act m =
    (if has_ra_reg R then (ra ← ra_reg R (act_regs cur); set_pc R (act_regs cur) ra)
     else mret tt) m1).
  { unfold restore_callee_saved_regs, REGOPS.
    rewrite (M_bind_step _ _ _ _ _ (acts_run _ _ _ _ Hp)).
    rewrite (M_bind_step _ _ _ _ _ (acts_run _ _ _ _ Hc)).
    rewrite Hlen. unfold zlen. rewrite Nat2Z.id. by rewrite (M_bind_step _ _ _ _ _ Hrun). }
  rewrite Hfor. destruct (has_ra_reg R) eqn:Hra; [|by exists m1].
  assert (Hv1 : regset_valid R m1 (act_regs cur)).
  { unfold regset_valid. rewrite (only_writes_valid _ _ _ _ _ Hw). apply (uw_cur _ _ _ _ _ _ U). }
  destruct (set_pc_run m1 _ (special ra_off m1 (act_regs cur)) Hv1) as (m2 & Hset & Hpc & Hw2).
  exists m2. rewrite (M_bind_step _ _ _ _ _ (ra_run m1 _ Hra Hv1)). split; [exact Hset|].
  pose proof pc_bounds. pose proof off_regs_nonneg. pose proof (uw_bits_cur _ _ _ _ _ _ U).
  assert (Hregs : forall r q n, reg R (act_regs cur) r = Ret q -> reg_size R r = Ret n ->
    peek m2 <$> seqZ q n = peek m1 <$> seqZ q n).
  { intros r q n Hq Hn. destruct (reg_Ret _ _ _ Hq) as (o & n' & Ho & -> & Hn' & _).
    pose proof (law_pc_unnamed _ _ _ Hra Ho Hn). eapply only_writes_peeks; [exact Hw2|].
    unfold span. lia. }
  split; [split; [|split; [|split]]|].
  - transitivity m1; [exact Hw|]. eapply only_writes_weaken; [exact Hw2|].
    unfold unwind_writes, span. intros x. lia.
  - eapply bitmap_rep_frame; [exact Hw2| |exact Hb]. rewrite (uw_bits_size _ _ _ _ _ _ U).
    unfold span, apart in *. lia.
  - intros loc Hl n q Hn Hq. rewrite <- (Hdone loc Hl n q Hn Hq).
    destruct (callee_saved_facts _ (uw_saved _ _ _ _ _ _ U _ Hl))
      as (o & k & n0 & _ & Hk & Hn0 & ? & _).
    assert (n0 = n) as -> by congruence. apply (peeks_prefix _ _ _ k); [lia|eauto].
  - intros r Hr. rewrite <- (Hrest r Hr). unfold reg_bytes.
    destruct (reg R (act_regs cur) r) eqn:Eq, (reg_size R r) eqn:En; try done. eauto.
  - intros _. rewrite Hpc. unfold special at 2.
    rewrite (word_at_frame _ 8 m1 m2 _ Hw2); [apply wrap_small, word_at_range|].
    destruct (law_ra_apart Hra) as [Hd _]. unfold span. simpl. lia.
Qed.

(** Preparing the new register set does not disturb what will be read. *)
Lemma unwindable_frame m m1 prev p recs S :
  unwindable m prev p recs S -> only_writes (span p (regset_size R)) m m1 ->
  unwindable m1 prev p recs S /\ forall loc, save_slot m1 prev loc = save_slot m prev loc.
Proof using HR HP.
  intros U Hw. pose proof (uw_regs_apart _ _ _ _ _ _ U). pose proof (uw_bits_cur _ _ _ _ _ _ U).
  assert (Hslot : forall loc, save_slot m1 prev loc = save_slot m prev loc).
  { intros loc. unfold save_slot, special. f_equal.
    eapply word_at_frame; [exact Hw|]. pose proof fbp_bounds. pose proof off_regs_nonneg.
    unfold span, apart in *. simpl. lia. }
  split; [|exact Hslot]. constructor; try (apply U || (eapply U; eassumption)).
  - eapply only_writes_wf; [exact Hw|apply U].
  - unfold regset_valid. rewrite (only_writes_valid _ _ _ _ _ Hw). apply U.
  - unfold regset_valid. rewrite (only_writes_valid _ _ _ _ _ Hw). apply U.
  - eapply bitmap_rep_frame; [exact Hw| |apply (uw_bits _ _ _ _ _ _ U)].
    rewrite (uw_bits_size _ _ _ _ _ _ U). unfold span, apart in *. lia.
  - intros loc n Hl Hn. rewrite Hslot, (only_writes_valid _ _ _ _ _ Hw).
    by apply (uw_slots _ _ _ _ _ _ U).
Qed.

Lemma setup_regset_spec m prev next act :
  let p := ptr_add (rc_regset_pool ctx) (act * regset_size R) in
  znth (rc_acts ctx) (act - 1) = Some prev -> znth (rc_acts ctx) act = Some next ->
  regset_valid R m (act_regs prev) -> regset_valid R m p ->
  exists l m1, zupd (rc_acts ctx) act (set_regs p next) = Some l /\
    setup_regset ctx act m = Ret (set_acts l ctx, m1) /\
    only_writes (span p (regset_size R)) m m1 /\
    (peek m1 <$> seqZ p (regset_size R)) = (peek m <$> seqZ (act_regs prev) (regset_size R)).
Proof using HR.
  intros p Hp Hn Hvp Hvn. pose proof law_size. pose proof off_regs_nonneg.
  destruct (upd_acts_run (set_regs p) _ _ m _ Hn) as (l & Hl & Hrun).
  assert (Hsz : 0 <= regset_size R) by lia.
  pose proof (memcpy_run _ _ _ m Hsz Hvp Hvn) as Hcp.
  exists l. eexists. split; [exact Hl|]. split; [|split].
  - unfold setup_regset, REGOPS. rewrite (M_bind_step _ _ _ _ _ Hrun).
    erewrite M_bind_step; [|apply acts_run; erewrite znth_zupd_ne by (exact Hl || lia); exact Hp].
    erewrite M_bind_step; [|apply acts_run; by eapply znth_zupd_eq].
    erewrite M_bind_step; [reflexivity|]. etransitivity; [apply law_clone|exact Hcp].
  - by eapply memcpy_frame.
  - by eapply memcpy_peeks.
Qed.
End unwinding.

(** Writing the stack pointer of an activation. *)
Lemma restoring_set_sp ctx `{HR : RegLaws (h_regops (rc_handle ctx))} `{HP : !AbiLaws (h_regops (rc_handle ctx)) (h_props (rc_handle ctx))}
    m prev p recs S m1 v :
  unwindable (rc_handle ctx) m prev p recs S -> restoring (rc_handle ctx) m prev p S recs m1 ->
  (has_ra_reg (h_regops (rc_handle ctx)) = true -> special pc_off m1 p = special ra_off m1 p) ->
  exists m2, set_sp (h_regops (rc_handle ctx)) p v m1 = Ret (tt, m2) /\
    special sp_off m2 p = wrap64 v /\
    (has_ra_reg (h_regops (rc_handle ctx)) = true -> special pc_off m2 p = special ra_off m2 p) /\
    only_writes (unwind_writes (rc_handle ctx) prev p) m m2 /\
    bitmap_rep m2 (act_callee_saved prev) (list_to_set (ul_reg <$> recs) ∪ S) /\
    (forall loc, loc ∈ recs -> restored (rc_handle ctx) m m2 prev p loc) /\
    (forall r, r <> sp_reg -> r ∉ ul_reg <$> recs ->
       reg_bytes (h_regops (rc_handle ctx)) m2 p r = reg_bytes (h_regops (rc_handle ctx)) m p r).
Proof.
  intros U (Hw & Hb & Hdone & Hrest) Hpc. pose proof sp_bounds. pose proof off_regs_nonneg.
  pose proof (uw_bits_cur _ _ _ _ _ _ U). destruct law_sp_reg as [Hsp Hspn].
  assert (Hv1 : regset_valid (h_regops (rc_handle ctx)) m1 p).
  { unfold regset_valid. rewrite (only_writes_valid _ _ _ _ _ Hw). apply U. }
  destruct (set_sp_run m1 p v Hv1) as (m2 & Hset & Hval & Hw2). exists m2.
  assert (Hregs : forall r q n, r <> sp_reg -> reg (h_regops (rc_handle ctx)) p r = Ret q ->
    reg_size (h_regops (rc_handle ctx)) r = Ret n -> peek m2 <$> seqZ q n = peek m1 <$> seqZ q n).
  { intros r q n Hne Hq Hn. destruct (reg_Ret _ _ _ Hq) as (o & n' & Ho & -> & Hn' & _).
    pose proof (law_reg_disjoint _ _ _ _ _ _ Ho Hsp Hne Hn Hspn).
    eapply only_writes_peeks; [exact Hw2|]. unfold span. lia. }
  split; [exact Hset|]. split; [exact Hval|]. split; [|split; [|split; [|split]]].
  - intros Hra. destruct special_disjoint as [Hd _]. destruct (law_ra_apart Hra) as [_ Hd'].
    unfold special. rewrite !(word_at_frame _ 8 m1 m2 _ Hw2) by (unfold span; simpl; lia).
    by apply Hpc.
  - transitivity m1; [exact Hw|]. eapply only_writes_weaken; [exact Hw2|].
    unfold unwind_writes, span. intros x. lia.
  - eapply bitmap_rep_frame; [exact Hw2| |exact Hb]. rewrite (uw_bits_size _ _ _ _ _ _ U).
    unfold span, apart in *. lia.
  - intros loc Hl n q Hn Hq. rewrite <- (Hdone loc Hl n q Hn Hq).
    pose proof (uw_saved _ _ _ _ _ _ U _ Hl) as Hs.
    destruct (callee_saved_facts _ _ Hs) as (o & k & n0 & _ & Hk & Hn0 & ? & _).
    assert (n0 = n) as -> by congruence. apply (peeks_prefix _ _ _ k); [lia|].
    apply (Hregs (ul_reg loc)); [|done..]. intros E. rewrite E in Hs.
    pose proof abi_sp. congruence.
  - intros r Hr Hnr. rewrite <- (Hrest r Hnr). unfold reg_bytes.
    destruct (reg (h_regops (rc_handle ctx)) p r) eqn:Eq, (reg_size (h_regops (rc_handle ctx)) r) eqn:En; try done. eauto.
Qed.

Lemma find_save_loc_spec locs start r recs :
  (forall i loc, recs !! i = Some loc -> znth locs (start + Z.of_nat i) = Some loc) ->
  find_save_loc locs r (length recs) start =
    Ret (list_find (fun loc => ul_reg loc = r) recs ≫= fun il => Some il.2).
Proof.
  revert start. induction recs as [|loc recs IH]; intros start Hrec; simpl; [done|].
  pose proof (Hrec 0%nat loc eq_refl) as H0. rewrite Z.add_0_r in H0. rewrite H0. simpl.
  destruct (Z.eqb_spec (ul_reg loc) r); [by rewrite decide_True|].
  rewrite decide_False by done. rewrite IH.
  - by destruct (list_find _ recs) as [[]|].
  - intros i l Hl. rewrite <- (Hrec (S i) l Hl). f_equal. lia.
Qed.

(** The slot of the first record that names the register, NULL without one. *)
Lemma get_register_save_loc_run ctx `{HR : RegLaws (h_regops (rc_handle ctx))} m a recs r :
  records (h_unwind_locs (rc_handle ctx)) (act_site a) recs ->
  regset_valid (h_regops (rc_handle ctx)) m (act_regs a) ->
  get_register_save_loc ctx a r m =
    Ret (from_option (fun loc => wrap64 (save_slot (rc_handle ctx) m a loc)) NULL
           (list_find (fun loc => ul_reg loc = r) recs ≫= fun il => Some il.2), m).
Proof.
  intros [Hlen Hrec] Hv. unfold get_register_save_loc, REGOPS. rewrite Hlen. unfold zlen.
  rewrite Nat2Z.id, (find_save_loc_spec _ _ r recs) by exact Hrec.
  rewrite (M_bind_step _ _ m _ m) by reflexivity.
  destruct (list_find _ recs) as [[i loc]|]; simpl; [|done].
  by rewrite (M_bind_step _ _ _ _ _ (fbp_run m _ Hv)).
Qed.

(** Popping a frame, the bounds of the next one left to the caller. *)
Lemma pop_frame_run ctx `{HR : RegLaws (h_regops (rc_handle ctx))}
    `{HP : !AbiLaws (h_regops (rc_handle ctx)) (h_props (rc_handle ctx))} m prev next recs S :
  let p := ptr_add (rc_regset_pool ctx) ((rc_act ctx + 1) * regset_size (h_regops (rc_handle ctx))) in
  znth (rc_acts ctx) (rc_act ctx) = Some prev ->
  znth (rc_acts ctx) (rc_act ctx + 1) = Some next ->
  unwindable (rc_handle ctx) m prev p recs S ->
  exists ctx' m', pop_frame ctx false m = Ret (ctx', m') /\
    rc_act ctx' = rc_act ctx + 1 /\
    znth (rc_acts ctx') (rc_act ctx) = Some prev /\
    znth (rc_acts ctx') (rc_act ctx') = Some (Activation (act_site next) (act_cfa next) p
      (Bitmap (num_regs (h_regops (rc_handle ctx))) (callee_saved_bits ctx (rc_act ctx')))) /\
    special sp_off m' p = wrap64 (act_cfa prev) /\
    (has_ra_reg (h_regops (rc_handle ctx)) = true -> special pc_off m' p = special ra_off m' p) /\
    (forall loc, loc ∈ recs -> restored (rc_handle ctx) m m' prev p loc) /\
    (forall r, r <> sp_reg -> r ∉ ul_reg <$> recs ->
       reg_bytes (h_regops (rc_handle ctx)) m' p r = reg_bytes (h_regops (rc_handle ctx)) m (act_regs prev) r) /\
    bitmap_rep m' (act_callee_saved prev) (list_to_set (ul_reg <$> recs) ∪ S) /\
    only_writes (unwind_writes (rc_handle ctx) prev p) m m'.
Proof.
  intros p Hprev Hnext U. set (act := rc_act ctx + 1) in *.
  assert (Hprev' : znth (rc_acts ctx) (act - 1) = Some prev)
    by (unfold act; by replace (rc_act ctx + 1 - 1) with (rc_act ctx) by lia).
  destruct (setup_regset_spec ctx m prev next act Hprev' Hnext
    (uw_prev _ _ _ _ _ _ U) (uw_cur _ _ _ _ _ _ U)) as (l & m1 & Hl & Hrun1 & Hw1 & Hcopy).
  fold p in Hl, Hrun1, Hw1, Hcopy.
  destruct (unwindable_frame _ _ _ _ _ _ _ U Hw1) as [U1 Hslots].
  destruct (upd_acts_run (set_callee_saved (Bitmap (num_regs (h_regops (rc_handle ctx)))
    (callee_saved_bits ctx act))) act (set_acts l ctx) m1 (set_regs p next)) as (l2 & Hl2 & Hrun2);
    [by eapply znth_zupd_eq|]. cbn [rc_acts set_acts] in Hl2.
  set (cur := set_callee_saved _ (set_regs p next)) in Hl2.
  set (ctx2 := set_acts l2 (set_acts l ctx)) in Hrun2.
  assert (Hp2 : znth (rc_acts ctx2) (act - 1) = Some prev).
  { cbn [ctx2 rc_acts set_acts]. rewrite (znth_zupd_ne _ _ _ _ _ Hl2) by lia.
    by rewrite (znth_zupd_ne _ _ _ _ _ Hl) by lia. }
  assert (Hc2 : znth (rc_acts ctx2) act = Some cur) by (by eapply znth_zupd_eq).
  destruct (restore_callee_saved_regs_spec ctx2 m1 prev cur recs S act U1 Hp2 Hc2)
    as (m2 & Hrun3 & HI & Hpc).
  destruct (restoring_set_sp ctx m1 prev p recs S m2 (act_cfa prev) U1 HI Hpc)
    as (m3 & Hrun4 & Hsp & Hpc3 & Hw3 & Hb3 & Hres & Hrest).
  exists (set_act act ctx2), m3. cbn [rc_act set_act].
  assert (Hpb : znth (rc_acts ctx2) (rc_act ctx) = Some prev).
  { rewrite <- Hp2. f_equal. unfold act. lia. }
  split; [|split; [done|split; [exact Hpb|split; [exact Hc2|split; [exact Hsp|
    split; [exact Hpc3|split; [|split; [|split; [exact Hb3|]]]]]]]]].
  - unfold pop_frame, REGOPS. fold act. rewrite (M_bind_step _ _ _ _ _ Hrun1).
    unfold setup_callee_saved_bits, REGOPS. rewrite (M_bind_step _ _ _ _ _ Hrun2).
    rewrite (M_bind_step _ _ _ _ _ Hrun3).
    rewrite (M_bind_step _ _ _ ctx2 m3); [reflexivity|]. unfold NEXT_ACT, ACT.
    change (rc_act ctx2 + 1) with act.
    rewrite (M_bind_step _ _ _ _ _ (acts_run _ _ _ _ Hc2)).
    change (rc_act ctx2) with (rc_act ctx).
    rewrite (M_bind_step _ _ _ _ _ (acts_run _ _ _ _ Hpb)).
    by rewrite (M_bind_step _ _ _ _ _ Hrun4).
  - intros loc Hl' n q Hn Hq. rewrite (Hres loc Hl' n q Hn Hq), Hslots.
    eapply only_writes_peeks; [exact Hw1|].
    destruct (uw_slots _ _ _ _ _ _ U _ _ Hl' Hn) as (_ & Ha & _). unfold span, apart in *. lia.
  - intros r Hr Hnr. rewrite (Hrest r Hr Hnr). by apply reg_bytes_object.
  - transitivity m1; [|exact Hw3]. eapply only_writes_weaken; [exact Hw1|]. by left.
Qed.

(** ** Properties *)

(** C3: Popping a frame, when the register sets, bitmap and save slots are
    separate live memory, returns and moves to the next activation; its
    callee-saved registers listed in the unwinding records hold what the slots
    of the popped frame hold, every other register but SP is copied, SP is the
    popped frame's CFA, the PC is the return-address register where the
    architecture has one, the popped frame's bitmap gains exactly the restored
    registers, and nothing else in memory changes. *)
Theorem pop_frame_restores ctx `{HR : RegLaws (h_regops (rc_handle ctx))}
    `{HP : !AbiLaws (h_regops (rc_handle ctx)) (h_props (rc_handle ctx))} m prev next recs S :
  let p := ptr_add (rc_regset_pool ctx) ((rc_act ctx + 1) * regset_size (h_regops (rc_handle ctx))) in
  znth (rc_acts ctx) (rc_act ctx) = Some prev ->
  znth (rc_acts ctx) (rc_act ctx + 1) = Some next ->
  unwindable (rc_handle ctx) m prev p recs S ->
  exists ctx' m', pop_frame ctx false m = Ret (ctx', m') /\
    rc_act ctx' = rc_act ctx + 1 /\
    znth (rc_acts ctx') (rc_act ctx) = Some prev /\
    znth (rc_acts ctx') (rc_act ctx') = Some (Activation (act_site next) (act_cfa next) p
      (Bitmap (num_regs (h_regops (rc_handle ctx))) (callee_saved_bits ctx (rc_act ctx')))) /\
    special sp_off m' p = wrap64 (act_cfa prev) /\
    (has_ra_reg (h_regops (rc_handle ctx)) = true -> special pc_off m' p = special ra_off m' p) /\
    (forall loc, loc ∈ recs -> restored (rc_handle ctx) m m' prev p loc) /\
    (forall r, r <> sp_reg -> r ∉ ul_reg <$> recs ->
       reg_bytes (h_regops (rc_handle ctx)) m' p r = reg_bytes (h_regops (rc_handle ctx)) m (act_regs prev) r) /\
    bitmap_rep m' (act_callee_saved prev) (list_to_set (ul_reg <$> recs) ∪ S) /\
    only_writes (unwind_writes (rc_handle ctx) prev p) m m'.
Proof. exact (pop_frame_run ctx m prev next recs S). Qed.

(** C29: The bitmaps of the activations are spaced eight times further apart
    than the pool that holds them provides for: the bitmap of activation [act]
    lies inside the pool [init_data_pools] allocates exactly when [act < 64],
    although a context has room for 512 activations. *)
Theorem bitmap_pool_holds_64_frames ctx R act :
  get_regops (h_arch (rc_handle ctx)) = Some R -> h_regops (rc_handle ctx) = R ->
  0 < rc_callee_saved_pool ctx < 2 ^ 63 -> 0 <= act < MAX_FRAMES ->
  callee_saved_bits ctx act + bitmap_size (num_regs R) <=
    rc_callee_saved_pool ctx + bitmap_size (num_regs R) * MAX_FRAMES <-> act < 64.
Proof.
  intros HR Eh Hp Ha. unfold callee_saved_bits, REGOPS, MAX_FRAMES in *. rewrite Eh.
  assert (E : bitmap_size (num_regs R) = 16).
  { destruct (get_regops_cases _ _ HR) as [[_ ->]|[_ ->]]; reflexivity. }
  rewrite E, ptr_add_small; lia.
Qed.

(** ** Witnesses *)

(** Two x86-64 frames: RBP is saved at FBP + 0 and the return address at
    FBP + 8. *)
Definition sample_unwind_site : call_site := CallSite 7 0x400100 48 2 0 0 0 0 0 u16_max.

Definition sample_unwind_handle : st_handle :=
  StHandle EM_X86_64 8 RegsX86.regs_x86_64 RegsX86.properties_x86_64
    0 [] 2 [UnwindLoc 6 0; UnwindLoc 16 8] 0 [] [] 0 [] 0 [].

#[local] Instance sample_layout : RegLayout (h_regops sample_unwind_handle) :=
  RegsX86.layout_x86_64.

#[local] Instance sample_laws : RegLaws (h_regops sample_unwind_handle) := RegsX86.laws_x86_64.

#[local] Instance sample_abi :
  AbiLaws (h_regops sample_unwind_handle) (h_props sample_unwind_handle) := abi_laws_x86_64.

Definition sample_activation : activation :=
  Activation sample_unwind_site 0x7010 0x10000 (Bitmap 67 0x9000).

Definition sample_next : activation := Activation EMPTY_CALL_SITE 0 0 (Bitmap 0 0).

Definition sample_unwind_context : rewrite_context :=
  RewriteContext sample_unwind_handle 0x8000 0x6000 0 0 0 [sample_activation; sample_next]
    (list_init ∅ 1%positive) 0x10000 0x9000.

(** The stack holds the caller's RBP (0x7050) and return address (0x400200). *)
Definition sample_unwind_memory : memory :=
  Memory (pokes 0x7000 (le_bytes 8 0x7050 ++ le_bytes 8 0x400200)
           (pokes (0x10000 + 16 + 56) (le_bytes 8 0x7000) ∅))
    (fun _ => 0) [(0x10000, 640 * 512); (0x9000, 16 * 512); (0x6000, 0x2000)] 0x100000.

Definition sample_records : list unwind_loc := [UnwindLoc 6 0; UnwindLoc 16 8].

Lemma sample_records_ok :
  records (h_unwind_locs sample_unwind_handle) sample_unwind_site sample_records.
Proof. split; [reflexivity|]. intros [|[|[|i]]] loc; simpl; intros [= <-]; reflexivity. Qed.

Lemma sample_unwindable :
  unwindable sample_unwind_handle sample_unwind_memory sample_activation (0x10000 + 640)
    sample_records ∅.
Proof.
  assert (Hin : forall loc, loc ∈ sample_records ->
    loc = UnwindLoc 6 0 \/ loc = UnwindLoc 16 8) by (unfold sample_records; set_solver).
  constructor.
  - constructor; [|vm_compute; split; [reflexivity|discriminate]|].
    + intros b s Hbs. unfold sample_unwind_memory in Hbs. simpl in Hbs.
      repeat (apply elem_of_cons in Hbs as [[= -> ->]|Hbs]; [simpl; lia|]).
      by apply not_elem_of_nil in Hbs.
    + repeat (apply FOP_cons || apply FOP_nil || apply List.Forall_cons || apply List.Forall_nil);
        unfold disjoint_blocks; simpl; lia.
  - vm_compute. reflexivity.
  - vm_compute. reflexivity.
  - apply bitmap_rep_check; vm_compute; reflexivity.
  - reflexivity.
  - unfold apart. vm_compute. left. discriminate.
  - unfold apart. vm_compute. left. discriminate.
  - unfold apart. vm_compute. left. discriminate.
  - exact sample_records_ok.
  - apply (bool_decide_unpack _). vm_compute. exact I.
  - intros loc [->| ->]%Hin; reflexivity.
  - intros loc n [->| ->]%Hin [= <-]; (split; [vm_compute; reflexivity|]);
      unfold apart; vm_compute; split; left; discriminate.
Qed.

Lemma pop_frame_restores_witness :
  exists ctx' m', pop_frame sample_unwind_context false sample_unwind_memory = Ret (ctx', m') /\
    rc_act ctx' = 1 /\ special sp_off m' (0x10000 + 640) = 0x7010.
Proof.
  destruct (@pop_frame_restores sample_unwind_context sample_layout sample_laws sample_abi
    sample_unwind_memory sample_activation
    sample_next sample_records ∅ eq_refl eq_refl sample_unwindable)
    as (ctx' & m' & Hrun & Hact & _ & _ & Hsp & _).
  exists ctx', m'. split; [exact Hrun|]. split; [exact Hact|]. exact Hsp.
Defined.

Lemma bitmap_pool_holds_64_frames_witness :
  ~ callee_saved_bits sample_unwind_context 64 + bitmap_size 67 <=
    rc_callee_saved_pool sample_unwind_context + bitmap_size 67 * MAX_FRAMES.
Proof.
  intros H. assert (64 < 64) as Hbad; [|discriminate Hbad].
  apply (bitmap_pool_holds_64_frames sample_unwind_context RegsX86.regs_x86_64 64);
    [reflexivity|reflexivity|split; reflexivity|split; [discriminate|reflexivity]|exact H].
Defined.
