(* ===== verification/Data.v ===== *)
(** * Frame data access (src/data.c)

    Where a live value lives, copying a value from a source to a destination
    frame (with the propagation of callee-saved registers to where the
    unwinding code will find them), architecture-specific values, and the
    classification and translation of pointers into the stack. *)

From S2P Require Import Prelude Machine Bitmap LinkedList CallSite Regs Context Unwind.

(** ** Definitions *)

Definition get_val_loc (ctx : rewrite_context) (type regnum offset_or_constant act : Z) : M Z :=
  if type =? SM_REGISTER then
    a ← acts ctx act;
    lift (reg (REGOPS ctx) (act_regs a) regnum)
  else if (type =? SM_DIRECT) || (type =? SM_INDIRECT) then
    a ← acts ctx act;
    r ← lift (reg (REGOPS ctx) (act_regs a) regnum);
    p ← load64 r;
    mret (ptr_add p offset_or_constant)
  else st_err 1.

(** A source location: an address, or the constant stored in the record. *)
Inductive src_loc : Type :=
  | At (addr : Z)
  | ConstantOf (val : live_value).

Definition get_src_loc (ctx : rewrite_context) (val : live_value) (act : Z) : M src_loc :=
  let t := lv_type val in
  if (t =? SM_REGISTER) || (t =? SM_DIRECT) || (t =? SM_INDIRECT) then
    p ← get_val_loc ctx t (lv_regnum val) (lv_offset_or_constant val) act;
    mret (At p)
  else if t =? SM_CONSTANT then mret (ConstantOf val)
  else st_err 1.

(** Reading [n] bytes at a source location.  [&val->offset_or_constant] points
    into the record, where [alloca_size] follows the constant. *)
Definition read_src (l : src_loc) (n : Z) : M (list Z) :=
  match l with
  | At p => load_bytes p n
  | ConstantOf v =>
      if n <=? 8
      then mret (take (Z.to_nat n)
                   (le_bytes 4 (lv_offset_or_constant v) ++ le_bytes 4 (lv_alloca_size v)))
      else fault
  end.

Definition get_dest_loc (ctx : rewrite_context) (val : live_value) (act : Z) : M Z :=
  get_val_loc ctx (lv_type val) (lv_regnum val) (lv_offset_or_constant val) act.

(** The loop of [callee_saved_loc], from activation [n - 1] down to 0. *)
Fixpoint callee_saved_walk (ctx : rewrite_context) (regnum : Z) (n : nat) : M Z :=
  match n with
  | O => a0 ← acts ctx 0; lift (reg (REGOPS ctx) (act_regs a0) regnum)
  | S n' =>
      a ← acts ctx (Z.of_nat n');
      is_set ← bitmap_is_set (act_callee_saved a) regnum;
      if is_set : bool then get_register_save_loc ctx a regnum
      else callee_saved_walk ctx regnum n'
  end.

Definition callee_saved_loc (ctx : rewrite_context) (regnum act : Z) : M Z :=
  if act <=? 0 then mret NULL else callee_saved_walk ctx regnum (Z.to_nat act).

(** The destination's second location, for a callee-saved register. *)
Definition callee_addr (ctx : rewrite_context) (type regnum act : Z) : M Z :=
  if (type =? SM_REGISTER) && is_callee_saved (PROPS ctx) regnum
  then callee_saved_loc ctx regnum act
  else mret NULL.

Definition put_val (src : rewrite_context) (src_val : live_value)
    (dest : rewrite_context) (dest_val : live_value) : M unit :=
  if (lv_type dest_val =? SM_CONSTANT) || (lv_type dest_val =? SM_CONST_IDX) then mret tt
  else
    src_addr ← get_src_loc src src_val (rc_act src);
    dest_addr ← get_dest_loc dest dest_val (rc_act src);
    callee ← callee_addr dest (lv_type dest_val) (lv_regnum dest_val) (rc_act dest);
    bs ← read_src src_addr (VAL_SIZE dest_val);
    store_bytes dest_addr bs;;
    if truthy callee then
      bs' ← read_src src_addr (VAL_SIZE dest_val);
      store_bytes callee bs'
    else mret tt.

Definition get_arch_operand_loc (ctx : rewrite_context) (val : arch_live_value) (act : Z) : M Z :=
  if al_operand_type val =? SM_CONSTANT then mret (al_operand_offset_or_constant val)
  else
    val_loc ← get_val_loc ctx (al_operand_type val) (al_operand_regnum val)
                (signed 32 (al_operand_offset_or_constant val)) act;
    if al_operand_type val =? SM_REGISTER then (v ← load64 val_loc; mret (signed 64 v))
    else if al_operand_type val =? SM_DIRECT then mret (signed 64 val_loc)
    else st_err 1.

(** The value an instruction computes from a 64-bit value and an operand;
    [Load] falls through to the error.  [Exit] is the [ST_ERR] of the default
    case, [Fault] an undefined division or shift. *)
Definition shift_count (operand : Z) : outcome Z :=
  if (0 <=? operand) && (operand <? 64) then Ret operand else Fault.

Definition arch_result (inst : option inst_type) (orig_val operand : Z) : outcome Z :=
  match inst with
  | Some Set_ => Ret operand
  | Some Add => Ret (orig_val + operand)
  | Some Subtract => Ret (orig_val - operand)
  | Some Multiply => Ret (orig_val * wrap64 operand)
  | Some Divide =>
      if wrap64 operand =? 0 then Fault else Ret (orig_val / wrap64 operand)
  | Some LeftShift => k ← shift_count operand; Ret (Z.shiftl orig_val k)
  | Some RightShiftLog => k ← shift_count (wrap64 operand); Ret (Z.shiftr orig_val k)
  | Some RightShiftArith => k ← shift_count operand; Ret (Z.shiftr orig_val k)
  | Some Mask => Ret (Z.land orig_val (wrap64 operand))
  | _ => Exit 1
  end.

Definition apply_arch_operation (dest callee_dest operand : Z) (inst : Z) : M unit :=
  orig_val ← load64 dest;
  match znth inst_types inst with
  | Some Load =>
      v ← load64 (wrap64 operand);
      store64 dest v;;
      st_err 1
  | i =>
      r ← lift (arch_result i orig_val operand);
      store64 dest r;;
      if truthy callee_dest then (v ← load64 dest; store64 callee_dest v) else mret tt
  end.

Definition put_val_arch (ctx : rewrite_context) (val : arch_live_value) : M unit :=
  dest_addr ← get_val_loc ctx (al_type val) (al_regnum val) (signed 32 (al_offset val))
                (rc_act ctx);
  callee ← callee_addr ctx (al_type val) (al_regnum val) (rc_act ctx);
  operand ← get_arch_operand_loc ctx val (rc_act ctx);
  apply_arch_operation dest_addr callee (signed 64 (wrap64 operand)) (al_inst_type val).

Definition put_val_data (ctx : rewrite_context) (val : live_value) (act data : Z) : M unit :=
  if (lv_type val =? SM_CONSTANT) || (lv_type val =? SM_CONST_IDX) then mret tt
  else
    dest_addr ← get_dest_loc ctx val act;
    callee ← callee_addr ctx (lv_type val) (lv_regnum val) act;
    store64 dest_addr data;;
    if truthy callee then store64 callee data else mret tt.

Definition points_to_stack (ctx : rewrite_context) (val : live_value) : M Z :=
  if is_ptr val && negb (is_alloca val) then
    a ← ACT ctx;
    stack_addr ←
      (if lv_type val =? SM_REGISTER then
         r ← lift (reg (REGOPS ctx) (act_regs a) (lv_regnum val));
         load64 r
       else if lv_type val =? SM_INDIRECT then
         r ← lift (reg (REGOPS ctx) (act_regs a) (lv_regnum val));
         p ← load64 r;
         load64 (ptr_add p (lv_offset_or_constant val))
       else st_err 1);
    if (stack_addr <? rc_stack ctx) || (rc_stack_base ctx <=? stack_addr)
    then mret NULL
    else mret stack_addr
  else mret NULL.

Definition points_to_data (src : rewrite_context) (src_val : live_value)
    (dest : rewrite_context) (dest_val : live_value) (src_ptr : Z) : M Z :=
  src_addr ← get_val_loc src (lv_type src_val) (lv_regnum src_val)
               (lv_offset_or_constant src_val) (rc_act src);
  if (src_addr <=? src_ptr) && (src_ptr <? ptr_add src_addr (VAL_SIZE src_val)) then
    dest_addr ← get_val_loc dest (lv_type dest_val) (lv_regnum dest_val)
                  (lv_offset_or_constant dest_val) (rc_act dest);
    mret (ptr_add dest_addr (src_ptr - src_addr))
  else mret NULL.

Definition set_return_address (ctx : rewrite_context) (retaddr : Z) : M unit :=
  a ← ACT ctx;
  store64 (ptr_add (act_cfa a) (ra_offset (PROPS ctx))) retaddr.

Definition set_return_address_funcentry (ctx : rewrite_context) (retaddr : Z) : M unit :=
  a ← ACT ctx;
  if has_ra_reg (REGOPS ctx) then set_ra_reg (REGOPS ctx) (act_regs a) retaddr
  else store64 (ptr_add (act_cfa a) (ra_offset (PROPS ctx))) retaddr.

Definition get_savedfbp_loc (ctx : rewrite_context) : M Z :=
  a ← ACT ctx;
  mret (ptr_add (act_cfa a) (savedfbp_offset (PROPS ctx))).

(** ** Specification *)

(** The first record of a list that names the register. *)
Definition first_record (recs : list unwind_loc) (r : Z) : option unwind_loc :=
  list_find (fun loc => ul_reg loc = r) recs ≫= fun il => Some il.2.

(** Where unwinding from the innermost frame finds the value register [r] has
    in activation [n]: the slot of the nearest called frame whose unwinding
    records name it, or the register set of activation 0. *)
Fixpoint unwound_loc (h : st_handle) `{L : RegLayout (h_regops h)} (m : memory)
    (acts : list activation) (recs : nat -> list unwind_loc) (r : Z) (n : nat) : outcome Z :=
  match n with
  | O => a0 ← get (znth acts 0); reg (h_regops h) (act_regs a0) r
  | S n' =>
      a ← get (znth acts (Z.of_nat n'));
      match first_record (recs n') r with
      | Some loc => Ret (wrap64 (save_slot h m a loc))
      | None => unwound_loc h m acts recs r n'
      end
  end.

(** The activations below [n] are as unwinding leaves them: their bitmaps hold
    the registers of their records. *)
Definition frames_unwound (h : st_handle) (m : memory) (acts : list activation)
    (recs : nat -> list unwind_loc) (n : nat) : Prop :=
  forall k, (k < n)%nat -> exists a, znth acts (Z.of_nat k) = Some a /\
    regset_valid (h_regops h) m (act_regs a) /\
    records (h_unwind_locs h) (act_site a) (recs k) /\
    bitmap_rep m (act_callee_saved a) (list_to_set (ul_reg <$> recs k)) /\
    bm_size (act_callee_saved a) = num_regs (h_regops h).

(** ** Lemmas *)

Lemma first_record_None recs r : first_record recs r = None <-> r ∉ ul_reg <$> recs.
Proof.
  unfold first_record. split.
  - destruct (list_find _ recs) as [[]|] eqn:E; [done|]. intros _ Hin.
    apply list_find_None in E. rewrite Forall_forall in E.
    apply list_elem_of_fmap in Hin as (loc & -> & Hl). by apply (E loc Hl).
  - intros Hn. destruct (list_find _ recs) as [[i loc]|] eqn:E; [|done].
    apply list_find_Some in E as (Hl & <- & _). destruct Hn.
    apply list_elem_of_fmap_2. by eapply list_elem_of_lookup_2.
Qed.

Lemma callee_saved_walk_spec ctx `{HR : RegLaws (h_regops (rc_handle ctx))} m recs r n :
  frames_unwound (rc_handle ctx) m (rc_acts ctx) recs n ->
  0 <= r < num_regs (h_regops (rc_handle ctx)) -> shiftable r ->
  callee_saved_walk ctx r n m =
    (p ← unwound_loc (rc_handle ctx) m (rc_acts ctx) recs r n; Ret (p, m)).
Proof.
  intros Hf Hr Hs. induction n as [|n IH].
  - simpl. unfold acts, lift, mbind, M_bind, REGOPS. simpl.
    destruct (znth (rc_acts ctx) 0) as [a|]; simpl; [|done].
    by destruct (reg _ _ _).
  - destruct (Hf n) as (a & Ha & Hv & Hrec & Hb & Hsz); [lia|].
    cbn [callee_saved_walk unwound_loc]. rewrite (M_bind_step _ _ _ _ _ (acts_run _ _ _ _ Ha)).
    rewrite Ha. cbn [get mbind outcome_bind].
    destruct Hb as [Hbv Hbs].
    rewrite (M_bind_step _ _ _ _ _ (bitmap_is_set_run m (act_callee_saved a) r Hbv ltac:(lia) Hs)).
    rewrite Hbs by (lia || done). destruct (first_record (recs n) r) as [loc|] eqn:E.
    + rewrite bool_decide_true; [|apply elem_of_list_to_set; destruct (decide (r ∈ ul_reg <$> recs n));
        [done|]; apply first_record_None in n0; congruence].
      rewrite (get_register_save_loc_run ctx m a (recs n) r Hrec Hv).
      fold (first_record (recs n) r). by rewrite E.
    + rewrite bool_decide_false; [|rewrite elem_of_list_to_set; by apply first_record_None].
      apply IH. intros k Hk. apply Hf. lia.
Qed.

Lemma callee_addr_saved ctx r act :
  is_callee_saved (PROPS ctx) r = true ->
  callee_addr ctx SM_REGISTER r act = callee_saved_loc ctx r act.
Proof. unfold callee_addr. by intros ->. Qed.

Lemma read_src_Ret l n m bs m' :
  read_src l n m = Ret (bs, m') -> m' = m /\ Forall (fun b => 0 <= b < 256) bs.
Proof.
  destruct l as [p|v]; cbn [read_src].
  - intros (? & -> & ->)%load_bytes_Ret. split; [done|apply peeks_range].
  - destruct (n <=? 8); [|done]. intros [= <- <-]. split; [done|].
    apply Forall_take. repeat (apply Forall_cons; split; [apply Z.mod_pos_bound; lia|]).
    by apply Forall_nil.
Qed.

Lemma read_src_length l n m bs m' : 0 <= n -> read_src l n m = Ret (bs, m') -> zlen bs = n.
Proof.
  intros Hn. destruct l as [p|v]; cbn [read_src].
  - intros (? & -> & _)%load_bytes_Ret. by apply peeks_length.
  - destruct (Z.leb_spec n 8); [|done]. intros [= <- _]. unfold zlen.
    rewrite length_take. simpl length. lia.
Qed.

(** Reading the source again after writing elsewhere. *)
Lemma read_src_frame l n m m' bs da :
  0 <= n -> read_src l n m = Ret (bs, m) -> only_writes (span da n) m m' ->
  (forall p, l = At p -> apart p n da n) -> read_src l n m' = Ret (bs, m').
Proof.
  intros Hn Hr Hw Ha. destruct l as [p|v]; cbn [read_src] in *.
  - apply load_bytes_Ret in Hr as (Hv & -> & _). apply load_bytes_Ret.
    rewrite (only_writes_valid _ _ _ _ _ Hw). split; [done|]. split; [|done].
    symmetry. eapply only_writes_peeks; [exact Hw|]. specialize (Ha p eq_refl).
    unfold span, apart in *. lia.
  - destruct (n <=? 8); [|done]. rewrite M_ret_run in *. congruence.
Qed.

(** Writing a byte sequence. *)
Lemma store_bytes_spec a bs m :
  Forall (fun b => 0 <= b < 256) bs -> valid m a (zlen bs) = true ->
  exists m', store_bytes a bs m = Ret (tt, m') /\
    (peek m' <$> seqZ a (zlen bs)) = bs /\ only_writes (span a (zlen bs)) m m'.
Proof.
  intros Hbs Hv. eexists. split; [by apply store_bytes_Ret|]. split.
  - by apply peeks_poked.
  - apply poked_only_writes.
Qed.

Lemma store64_spec a v m :
  valid m a 8 = true -> exists m', store64 a v m = Ret (tt, m') /\
    word_at 8 m' a = wrap64 v /\ only_writes (span a 8) m m'.
Proof.
  intros Hv. eexists. split; [by apply store_run|]. split.
  - apply word_at_poked.
  - apply (poked_word_frame 8).
Qed.

(** ** Properties *)

(** C4: For a callee-saved register of a frame whose called frames have been
    unwound, [callee_saved_loc] finds exactly the place from which unwinding
    reads the register's value in that frame: the save slot of the nearest
    called frame that saves it, else the register of the innermost frame. *)
Theorem callee_saved_loc_is_unwound ctx `{HR : RegLaws (h_regops (rc_handle ctx))}
    `{HP : !AbiLaws (h_regops (rc_handle ctx)) (h_props (rc_handle ctx))} m recs r act :
  0 < act -> is_callee_saved (PROPS ctx) r = true ->
  frames_unwound (rc_handle ctx) m (rc_acts ctx) recs (Z.to_nat act) ->
  callee_saved_loc ctx r act m =
    (p ← unwound_loc (rc_handle ctx) m (rc_acts ctx) recs r (Z.to_nat act); Ret (p, m)).
Proof.
  intros Hact Hs Hf. unfold callee_saved_loc. destruct (Z.leb_spec act 0); [lia|].
  destruct (callee_saved_facts ctx r Hs) as (_ & _ & _ & _ & _ & _ & _ & _ & _ & _ & ? & ?).
  by apply callee_saved_walk_spec.
Qed.

(** Putting a value whose source, destination and callee-saved locations
    are known, valid and apart returns; the destination, and the callee-saved
    location when there is one, hold the source's bytes, and nothing else in
    memory changes. *)
Theorem put_val_copies src sv dest dv m sl da ca bs :
  let n := VAL_SIZE dv in
  lv_type dv <> SM_CONSTANT -> lv_type dv <> SM_CONST_IDX -> 0 <= n ->
  get_src_loc src sv (rc_act src) m = Ret (sl, m) ->
  get_dest_loc dest dv (rc_act src) m = Ret (da, m) ->
  callee_addr dest (lv_type dv) (lv_regnum dv) (rc_act dest) m = Ret (ca, m) ->
  read_src sl n m = Ret (bs, m) ->
  valid m da n = true -> (ca <> NULL -> valid m ca n = true /\ apart ca n da n) ->
  (forall p, sl = At p -> apart p n da n) ->
  exists m', put_val src sv dest dv m = Ret (tt, m') /\
    (peek m' <$> seqZ da n) = bs /\ (ca <> NULL -> (peek m' <$> seqZ ca n) = bs) /\
    only_writes (fun x => span da n x \/ (ca <> NULL /\ span ca n x)) m m'.
Proof.
  intros n H1 H2 Hn Hsl Hda Hca Hbs Hv Hc Ha.
  destruct (read_src_Ret _ _ _ _ _ Hbs) as [_ Hr].
  pose proof (read_src_length _ _ _ _ _ Hn Hbs) as Hlen.
  destruct (store_bytes_spec da bs m Hr) as (m1 & Hs1 & Hp1 & Hw1); [by rewrite Hlen|].
  rewrite Hlen in Hp1, Hw1.
  assert (Hrun : put_val src sv dest dv m =
    (if truthy ca then (bs' ← read_src sl n; store_bytes ca bs') else mret tt) m1).
  { unfold put_val. destruct (Z.eqb_spec (lv_type dv) SM_CONSTANT); [done|].
    destruct (Z.eqb_spec (lv_type dv) SM_CONST_IDX); [done|]. cbn [orb].
    rewrite (M_bind_step _ _ _ _ _ Hsl), (M_bind_step _ _ _ _ _ Hda),
      (M_bind_step _ _ _ _ _ Hca), (M_bind_step _ _ _ _ _ Hbs).
    by rewrite (M_bind_step _ _ _ _ _ Hs1). }
  rewrite Hrun. destruct (truthy ca) eqn:Et.
  - apply truthy_true in Et. destruct (Hc Et) as [Hvc Hac].
    pose proof (read_src_frame _ _ _ _ _ _ Hn Hbs Hw1 Ha) as Hbs1.
    destruct (store_bytes_spec ca bs m1 Hr) as (m2 & Hs2 & Hp2 & Hw2).
    { by rewrite Hlen, (only_writes_valid _ _ _ _ _ Hw1). }
    rewrite Hlen in Hp2, Hw2. exists m2.
    rewrite (M_bind_step _ _ _ _ _ Hbs1). split; [exact Hs2|]. split; [|split; [done|]].
    + rewrite <- Hp1. eapply only_writes_peeks; [exact Hw2|].
      unfold span, apart in *. lia.
    + transitivity m1; eapply only_writes_weaken; [exact Hw1|by left|exact Hw2|by right].
  - apply truthy_false in Et. exists m1. split; [done|]. split; [done|]. split; [done|].
    eapply only_writes_weaken; [exact Hw1|by left].
Qed.

(** An operation other than [Load]. *)
Lemma apply_arch_operation_run m d c k i r :
  valid m d 8 = true -> (c <> NULL -> valid m c 8 = true /\ apart c 8 d 8) ->
  arch_result (znth inst_types i) (word_at 8 m d) k = Ret r ->
  exists m', apply_arch_operation d c k i m = Ret (tt, m') /\
    word_at 8 m' d = wrap64 r /\ (c <> NULL -> word_at 8 m' c = wrap64 r) /\
    only_writes (fun x => span d 8 x \/ (c <> NULL /\ span c 8 x)) m m'.
Proof.
  intros Hv Hc Hr. destruct (store64_spec d r m Hv) as (m1 & Hs1 & Hd1 & Hw1).
  pose proof (load_run 8 d m Hv) as Hl.
  assert (E : apply_arch_operation d c k i m =
    (if truthy c then (v ← load64 d; store64 c v) else mret tt) m1).
  { unfold apply_arch_operation. rewrite (M_bind_step _ _ _ _ _ Hl).
    destruct (znth inst_types i) as [[]|]; try discriminate Hr;
      rewrite Hr; rewrite (M_bind_step _ _ m r m) by reflexivity;
      by rewrite (M_bind_step _ _ _ _ _ Hs1). }
  rewrite E. destruct (truthy c) eqn:Et.
  - apply truthy_true in Et. destruct (Hc Et) as [Hvc Ha].
    rewrite <- (only_writes_valid _ _ _ _ _ Hw1) in Hvc.
    rewrite <- (only_writes_valid _ _ _ _ _ Hw1) in Hv.
    destruct (store64_spec c (word_at 8 m1 d) m1 Hvc) as (m2 & Hs2 & Hd2 & Hw2).
    exists m2. rewrite (M_bind_step _ _ _ _ _ (load_run 8 d m1 Hv)). split; [exact Hs2|].
    split; [|split].
    + rewrite <- Hd1. eapply word_at_frame; [exact Hw2|]. unfold span, apart in *. simpl. lia.
    + intros _. rewrite Hd2, Hd1. apply wrap_wrap. lia.
    + transitivity m1; eapply only_writes_weaken; [exact Hw1|by left|exact Hw2|by right].
  - apply truthy_false in Et. exists m1. split; [done|]. split; [done|]. split; [done|].
    eapply only_writes_weaken; [exact Hw1|by left].
Qed.

(** [Load] stores the value and goes on to the error. *)
Lemma apply_arch_operation_load m d c k : valid m d 8 = true -> valid m (wrap64 k) 8 = true ->
  apply_arch_operation d c k 9 m = Exit 1.
Proof.
  intros Hv Hvk. unfold apply_arch_operation. rewrite (M_bind_step _ _ _ _ _ (load_run 8 d m Hv)).
  cbn [znth]. change (znth inst_types 9) with (Some Load). cbv iota.
  rewrite (M_bind_step _ _ _ _ _ (load_run 8 _ m Hvk)).
  destruct (store64_spec d (word_at 8 m (wrap64 k)) m Hv) as (m1 & Hs1 & _).
  by rewrite (M_bind_step _ _ _ _ _ Hs1).
Qed.

(** C26: An architecture-specific operation leaves its result, as a 64-bit word,
    in the destination and, when there is one, in the callee-saved location,
    and writes nothing else; the arithmetic right shift computes the logical
    shift of the unsigned word; a [Load] never completes: it ends the process
    with the error of the default case. *)
Theorem apply_arch_operation_spec m d c k :
  valid m d 8 = true -> (c <> NULL -> valid m c 8 = true /\ apart c 8 d 8) ->
  (forall i r, arch_result (znth inst_types i) (word_at 8 m d) k = Ret r ->
     exists m', apply_arch_operation d c k i m = Ret (tt, m') /\
       word_at 8 m' d = wrap64 r /\ (c <> NULL -> word_at 8 m' c = wrap64 r) /\
       only_writes (fun x => span d 8 x \/ (c <> NULL /\ span c 8 x)) m m') /\
  (0 <= k < 64 -> exists m', apply_arch_operation d c k 7 m = Ret (tt, m') /\
     word_at 8 m' d = word_at 8 m d / 2 ^ k) /\
  (valid m (wrap64 k) 8 = true -> apply_arch_operation d c k 9 m = Exit 1).
Proof.
  intros Hv Hc.
  pose proof (fun i r => apply_arch_operation_run m d c k i r Hv Hc) as Hrun.
  split; [exact Hrun|]. split.
  - intros Hk. destruct (Hrun 7 (Z.shiftr (word_at 8 m d) k)) as (m' & E & Hd & _).
    { simpl. unfold shift_count. rewrite (proj2 (Z.leb_le _ _)), (proj2 (Z.ltb_lt _ _)) by lia.
      done. }
    exists m'. split; [exact E|]. rewrite Hd, Z.shiftr_div_pow2 by lia.
    apply wrap_small. pose proof (word_at_range 8 m d) as Hr.
    change (8 * Z.of_nat 8) with 64 in Hr. split; [apply Z.div_pos; lia|].
    apply Z.div_lt_upper_bound; [lia|]. nia.
  - intros Hvk. by apply apply_arch_operation_load.
Qed.

(** [points_to_stack] on every branch: NULL for a value that is no pointer
    or is a stack object, the held (or spilled) pointer when it lies in
    [stack, stack_base), NULL when it does not, and the error exit for every
    other location type; memory is unchanged. *)
Theorem points_to_stack_classifies ctx val m a r :
  let in_stack (p : Z) : Z := if (rc_stack ctx <=? p) && (p <? rc_stack_base ctx) then p else NULL in
  let spilled := ptr_add (word_at 8 m r) (lv_offset_or_constant val) in
  znth (rc_acts ctx) (rc_act ctx) = Some a ->
  reg (REGOPS ctx) (act_regs a) (lv_regnum val) = Ret r -> valid m r 8 = true ->
  (lv_type val = SM_INDIRECT -> valid m spilled 8 = true) ->
  points_to_stack ctx val m =
    if negb (is_ptr val) || is_alloca val then Ret (NULL, m)
    else if decide (lv_type val = SM_REGISTER) then Ret (in_stack (word_at 8 m r), m)
    else if decide (lv_type val = SM_INDIRECT) then Ret (in_stack (word_at 8 m spilled), m)
    else Exit 1.
Proof.
  intros in_stack spilled Ha Hr Hv Hsp. unfold points_to_stack.
  destruct (is_ptr val); [|done]. destruct (is_alloca val); [done|]. cbn [andb negb orb].
  unfold ACT. rewrite (M_bind_step _ _ _ _ _ (acts_run _ _ _ _ Ha)). rewrite Hr.
  assert (Hin : forall p, (if (p <? rc_stack ctx) || (rc_stack_base ctx <=? p)
      then mret NULL else mret p : M Z) m = Ret (in_stack p, m)).
  { intros p. unfold in_stack. rewrite (Z.leb_antisym p (rc_stack ctx)),
      (Z.ltb_antisym (rc_stack_base ctx) p).
    destruct (p <? rc_stack ctx), (rc_stack_base ctx <=? p); done. }
  destruct (Z.eqb_spec (lv_type val) SM_REGISTER) as [E|E].
  - rewrite decide_True by done. rewrite <- Hin.
    erewrite M_bind_step; [reflexivity|]. rewrite (M_bind_step _ _ m r m) by done.
    by apply load_run.
  - rewrite decide_False by done.
    destruct (Z.eqb_spec (lv_type val) SM_INDIRECT) as [E'|E'].
    + rewrite decide_True by done. rewrite <- Hin.
      erewrite M_bind_step; [reflexivity|]. rewrite (M_bind_step _ _ m r m) by done.
      rewrite (M_bind_step _ _ _ _ _ (load_run 8 r m Hv)). apply load_run. by apply Hsp.
    + by rewrite decide_False by done.
Qed.

(** When the two locations of a stack object are known and do not wrap
    around, [points_to_data] translates exactly the pointers into the source
    object, to the same offset in the destination object; so it stays inside
    the destination object and keeps the distance between two pointers. *)
Theorem points_to_data_translates src sv dest dv m sa da :
  let n := VAL_SIZE sv in
  get_val_loc src (lv_type sv) (lv_regnum sv) (lv_offset_or_constant sv) (rc_act src) m =
    Ret (sa, m) ->
  get_val_loc dest (lv_type dv) (lv_regnum dv) (lv_offset_or_constant dv) (rc_act dest) m =
    Ret (da, m) ->
  0 <= sa -> sa + n < 2 ^ 64 -> 0 < da -> da + n < 2 ^ 64 -> 0 <= n ->
  exists tr, (forall p, points_to_data src sv dest dv p m = Ret (tr p, m)) /\
    (forall p, tr p <> NULL <-> sa <= p < sa + n) /\
    (forall p, sa <= p < sa + n -> da <= tr p < da + n /\ tr p - da = p - sa).
Proof.
  intros n Hs Hd ?????.
  exists (fun p => if decide (sa <= p < sa + n) then da + (p - sa) else NULL).
  split; [|split].
  - intros p. unfold points_to_data. rewrite (M_bind_step _ _ _ _ _ Hs).
    fold n. rewrite (ptr_add_small sa n) by lia.
    destruct (Z.leb_spec sa p); simpl; [destruct (Z.ltb_spec p (sa + n)); simpl|].
    + rewrite decide_True by lia. rewrite (M_bind_step _ _ _ _ _ Hd).
      by rewrite ptr_add_small by lia.
    + by rewrite decide_False by lia.
    + by rewrite decide_False by lia.
  - intros p. case_decide; lia.
  - intros p Hp. rewrite decide_True by done. lia.
Qed.

(** ** Witnesses *)

(** The frames of Unwind.v after one step: the bitmap of activation 0 holds
    RBP and RIP, activation 1 has the second register set of the pool. *)
Definition sample_data_context : rewrite_context :=
  RewriteContext sample_unwind_handle 0x8000 0x6000 0 2 1
    [sample_activation; Activation sample_unwind_site 0x7060 (0x10000 + 640) (Bitmap 67 0x9080)]
    (list_init ∅ 1%positive) 0x10000 0x9000.

Definition sample_data_memory : memory :=
  poked (poked sample_unwind_memory 0x9000 (le_bytes 8 (2 ^ 6 + 2 ^ 16)))
    (0x10000 + 640 + 16 + 8 + 24) (le_bytes 8 0x7040).

Lemma callee_saved_loc_is_unwound_witness :
  callee_saved_loc sample_data_context 16 1 sample_data_memory =
    Ret (0x7008, sample_data_memory).
Proof.
  refine (@callee_saved_loc_is_unwound sample_data_context sample_layout sample_laws sample_abi
    sample_data_memory (fun _ => sample_records) 16 1 eq_refl eq_refl _).
  intros k Hk. assert (k = 0%nat) as -> by (simpl in Hk; lia).
  exists sample_activation. split; [reflexivity|]. split; [vm_compute; reflexivity|].
  split; [exact sample_records_ok|]. split; [|reflexivity].
  apply bitmap_rep_check; vm_compute; reflexivity.
Defined.

(** A 4-byte spilled value at RBX - 8 is copied to RBX - 16 of the same
    frame. *)
Definition sample_value (type reg off : Z) : live_value :=
  LiveValue false false false false type 4 reg off 0.

Lemma put_val_copies_witness :
  exists m', put_val sample_data_context (sample_value SM_INDIRECT 3 (- 0x38))
      sample_data_context (sample_value SM_INDIRECT 3 (- 16)) sample_data_memory = Ret (tt, m') /\
    (peek m' <$> seqZ 0x7030 4) = [0x00; 0x02; 0x40; 0x00].
Proof.
  destruct (put_val_copies sample_data_context (sample_value SM_INDIRECT 3 (- 0x38))
    sample_data_context (sample_value SM_INDIRECT 3 (- 16)) sample_data_memory
    (At 0x7008) 0x7030 NULL [0x00; 0x02; 0x40; 0x00]) as (m' & Hrun & Hbs & _);
    [discriminate | discriminate | discriminate
    | vm_compute; reflexivity .. | intros H; destruct (H eq_refl) | |].
  { intros p [= <-]. left. vm_compute. discriminate. }
  exists m'. split; [exact Hrun|exact Hbs].
Defined.

Lemma apply_arch_operation_spec_witness :
  (exists m', apply_arch_operation 0x7000 0x7010 4 1 sample_data_memory = Ret (tt, m') /\
     word_at 8 m' 0x7010 = 0x7054) /\
  apply_arch_operation 0x7000 0x7010 0x7008 9 sample_data_memory = Exit 1.
Proof.
  split.
  - destruct (apply_arch_operation_spec sample_data_memory 0x7000 0x7010 4) as (H & _).
    + vm_compute. reflexivity.
    + intros _. split; [vm_compute; reflexivity|]. right. vm_compute. discriminate.
    + destruct (H 1 0x7054) as (m' & Hrun & _ & Hc & _); [vm_compute; reflexivity|].
      exists m'. split; [exact Hrun|]. apply Hc. discriminate.
  - destruct (apply_arch_operation_spec sample_data_memory 0x7000 0x7010 0x7008) as (_ & _ & H).
    + vm_compute. reflexivity.
    + intros _. split; [vm_compute; reflexivity|]. right. vm_compute. discriminate.
    + apply H. vm_compute. reflexivity.
Defined.

Definition sample_pointer : live_value := LiveValue false false true false SM_REGISTER 8 3 0 0.

Lemma points_to_stack_classifies_witness :
  points_to_stack sample_data_context sample_pointer sample_data_memory =
    Ret (0x7040, sample_data_memory).
Proof.
  refine (points_to_stack_classifies sample_data_context sample_pointer sample_data_memory
    (Activation sample_unwind_site 0x7060 (0x10000 + 640) (Bitmap 67 0x9080))
    (0x10000 + 640 + 16 + 8 + 24) eq_refl eq_refl eq_refl _).
  discriminate.
Defined.

(** A 16-byte stack object at RBX - 64, moved to RBX - 32. *)
Definition sample_object (off : Z) : live_value :=
  LiveValue false true false false SM_DIRECT 8 3 off 16.

Lemma points_to_data_translates_witness :
  exists tr, (forall p, points_to_data sample_data_context (sample_object (- 64))
      sample_data_context (sample_object (- 32)) p sample_data_memory =
        Ret (tr p, sample_data_memory)) /\
    tr 0x7004 - 0x7020 = 4.
Proof.
  destruct (points_to_data_translates sample_data_context (sample_object (- 64))
    sample_data_context (sample_object (- 32)) sample_data_memory 0x7000 0x7020)
    as (tr & Hrun & _ & Htr);
    [vm_compute; reflexivity | vm_compute; reflexivity | discriminate | reflexivity
    | reflexivity | reflexivity | discriminate |].
  exists tr. split; [exact Hrun|]. destruct (Htr 0x7004) as [_ E]; [vm_compute; split; [discriminate|reflexivity]|].
  exact E.
Defined.
