(* ===== verification/Rewrite.v ===== *)
(** * The stack transformation (src/rewrite.c)

    Rewriting contexts are set up for the two stacks, the source stack is
    unwound to find its activations and to size the destination stack, and
    the frames are rewritten from the innermost to the outermost one, values
    being copied and pointers into the stack resolved through a list of
    fixups. *)

From S2P Require Import Prelude Machine Bitmap LinkedList CallSite Regs Context Lookup Unwind Data.

(** ** Definitions *)

Definition sizeof_rewrite_context : Z := 45136.

(** [list_begin] ... [list_remove] on the fixups of a context. *)
Definition fixups_remove (ctx : rewrite_context) (p : positive) :
    M (option positive * rewrite_context) :=
  '(nxt, l) ← lift (list_remove (rc_stack_pointers ctx) p);
  mret (nxt, set_stack_pointers l ctx).

Definition init_data_pools (ctx : rewrite_context) : M rewrite_context :=
  let num_regs := num_regs (REGOPS ctx) in
  callee_saved_pool ← malloc (bitmap_size num_regs * MAX_FRAMES);
  regset_pool ← malloc (regset_size (REGOPS ctx) * MAX_FRAMES);
  mret (RewriteContext (rc_handle ctx) (rc_stack_base ctx) (rc_stack ctx) (rc_regs ctx)
          (rc_num_acts ctx) (rc_act ctx) (rc_acts ctx) (rc_stack_pointers ctx)
          regset_pool callee_saved_pool).

Definition free_data_pools (ctx : rewrite_context) : M unit :=
  free (rc_callee_saved_pool ctx);;
  free (rc_regset_pool ctx).

(** A freshly allocated context, whose other fields are not initialised: the
    block's address, and the struct with [handle], [num_acts] and [act] set. *)
Definition new_context (garbage : rewrite_context) (handle : st_handle) :
    M (Z * rewrite_context) :=
  p ← malloc sizeof_rewrite_context;
  if p =? NULL then fault
  else mret (p, RewriteContext handle (rc_stack_base garbage) (rc_stack garbage)
                  (rc_regs garbage) 0 0 (rc_acts garbage) (rc_stack_pointers garbage)
                  (rc_regset_pool garbage) (rc_callee_saved_pool garbage)).

Definition set_bases (regs stack_base stack : Z) (c : rewrite_context) : rewrite_context :=
  RewriteContext (rc_handle c) stack_base stack regs (rc_num_acts c) (rc_act c)
    (rc_acts c) (rc_stack_pointers c) (rc_regset_pool c) (rc_callee_saved_pool c).

Definition init_src_context (garbage : rewrite_context) (handle : st_handle)
    (regset sp_base : Z) : M (Z * rewrite_context) :=
  '(self, ctx) ← new_context garbage handle;
  ctx ← init_data_pools ctx;
  let ctx := set_stack_pointers (list_init ∅ 1%positive) ctx in
  ctx ← upd_acts (set_regs (rc_regset_pool ctx)) (rc_act ctx) ctx;
  a ← ACT ctx;
  regset_copyin (REGOPS ctx) (act_regs a) regset;;
  stack ← sp (REGOPS ctx) (act_regs a);
  let ctx := set_bases regset sp_base stack ctx in
  pc ← pc (REGOPS ctx) (act_regs a);
  site ← lift (get_site_by_addr handle pc);
  match site with
  | None => st_err 1
  | Some s =>
      ctx ← upd_acts (set_site s) (rc_act ctx) ctx;
      ctx ← bootstrap_first_frame ctx;
      mret (self, ctx)
  end.

Definition init_dest_context (garbage : rewrite_context) (handle : st_handle)
    (regset sp_base pc : Z) : M (Z * rewrite_context) :=
  '(self, ctx) ← new_context garbage handle;
  ctx ← init_data_pools ctx;
  let ctx := set_stack_pointers (list_init ∅ 1%positive) ctx in
  ctx ← upd_acts (set_regs (rc_regset_pool ctx)) (rc_act ctx) ctx;
  a ← ACT ctx;
  set_pc (REGOPS ctx) (act_regs a) pc;;
  ctx ← upd_acts (set_site EMPTY_CALL_SITE) (rc_act ctx) ctx;
  mret (self, set_bases regset sp_base (rc_stack ctx) ctx).

(** The unresolved fixups are dropped. *)
Fixpoint drop_fixups (fuel : nat) (ctx : rewrite_context) (node : option positive) :
    M rewrite_context :=
  match node with
  | None => mret ctx
  | Some p =>
      match fuel with
      | O => fun _ => Spin
      | S fuel' => '(nxt, ctx) ← fixups_remove ctx p; drop_fixups fuel' ctx nxt
      end
  end.

Definition fixup_fuel (ctx : rewrite_context) : nat :=
  S (Z.to_nat (list_size (rc_stack_pointers ctx))).

(** The C function returns nothing; the result is the list of the fixups as it
    is left, whose heap has the nodes that were allocated and not freed. *)
Definition free_context (self : Z) (ctx : rewrite_context) : M (clist fixup) :=
  ctx ← drop_fixups (fixup_fuel ctx) ctx (list_begin (rc_stack_pointers ctx));
  for_ (Z.to_nat (rc_num_acts ctx)) 0
    (fun i => a ← acts ctx i; free_activation (rc_handle ctx) a);;
  free_data_pools ctx;;
  free self;;
  mret (rc_stack_pointers ctx).

(** The do-while loop of [unwind_and_size]. *)
Fixpoint unwind_loop (fuel : nat) (src dest : rewrite_context) (stack_size : Z) :
    M (rewrite_context * rewrite_context * Z) :=
  match fuel with
  | O => fun _ => Spin
  | S fuel' =>
      src ← pop_frame src false;
      let src := set_num_acts (rc_num_acts src + 1) src in
      let dest := set_num_acts (rc_num_acts dest + 1) dest in
      let dest := set_act (rc_act dest + 1) dest in
      a ← ACT src;
      pc ← pc (REGOPS src) (act_regs a);
      site ← lift (get_site_by_addr (rc_handle src) pc);
      match site with
      | None => st_err 1
      | Some s =>
          src ← upd_acts (set_site s) (rc_act src) src;
          site_dest ← lift (get_site_by_id (rc_handle dest) (cs_id s));
          match site_dest with
          | None => st_err 1
          | Some sd =>
              dest ← upd_acts (set_site sd) (rc_act dest) dest;
              let stack_size := wrap64 (stack_size + cs_frame_size sd) in
              cfa ← calculate_cfa src (rc_act src);
              src ← upd_acts (set_cfa cfa) (rc_act src) src;
              if first_frame (cs_id s) then mret (src, dest, stack_size)
              else unwind_loop fuel' src dest stack_size
          end
      end
  end.

(** Every iteration moves to a new activation, of which there are
    [MAX_FRAMES]. *)
Definition unwind_fuel : nat := Z.to_nat (MAX_FRAMES + 1).

Definition unwind_and_size (src dest : rewrite_context) :
    M (rewrite_context * rewrite_context) :=
  '(src, dest, stack_size) ← unwind_loop unwind_fuel src dest 0;
  src ← pop_frame src false;
  let src := set_num_acts (rc_num_acts src + 1) src in
  let dest := set_num_acts (rc_num_acts dest + 1) dest in
  let src := set_act 0 src in
  let dest := set_act 0 dest in
  let stack := ptr_add (rc_stack_base dest) (- stack_size) in
  stack ← (if sp_needs_align (PROPS dest) then lift (align_sp (PROPS dest) stack)
           else mret stack);
  let dest := set_stack stack dest in
  a ← ACT dest;
  set_sp (REGOPS dest) (act_regs a) stack;;
  memset (rc_callee_saved_pool dest) 0 (bitmap_size (num_regs (REGOPS dest)) * rc_num_acts dest);;
  dest ← bootstrap_first_frame_funcentry dest;
  mret (src, dest).

(** va_list has a different size on the two architectures. *)
Definition is_va_list_pair (val_src val_dest : live_value) : bool :=
  (is_alloca val_src && (VAL_SIZE val_src =? 24) && is_alloca val_dest &&
     (VAL_SIZE val_dest =? 32)) ||
  (is_alloca val_src && (VAL_SIZE val_src =? 32) && is_alloca val_dest &&
     (VAL_SIZE val_dest =? 24)).

(** The loop of [rewrite_val] over the fixups. *)
Fixpoint resolve_fixups (src : rewrite_context) (val_src : live_value)
    (dest : rewrite_context) (val_dest : live_value) (fuel : nat) (node : option positive) :
    M rewrite_context :=
  match node with
  | None => mret dest
  | Some p =>
      match fuel with
      | O => fun _ => Spin
      | S fuel' =>
          fx ← lift (list_data (rc_stack_pointers dest) p);
          stack_addr ← points_to_data src val_src dest val_dest (fx_src_addr fx);
          if truthy stack_addr then
            put_val_data dest (fx_dest_loc fx) (fx_act fx) stack_addr;;
            '(nxt, dest) ← fixups_remove dest p;
            resolve_fixups src val_src dest val_dest fuel' nxt
          else
            nxt ← lift (list_next (rc_stack_pointers dest) p);
            resolve_fixups src val_src dest val_dest fuel' nxt
      end
  end.

Definition rewrite_val (src : rewrite_context) (val_src : live_value)
    (dest : rewrite_context) (val_dest : live_value) : M (bool * rewrite_context) :=
  if is_va_list_pair val_src val_dest then mret (false, dest)
  else
    stack_addr ← points_to_stack src val_src;
    '(needs_local_fixup, dest) ←
      (if truthy stack_addr then
         in_callers ← (if rc_act src =? 0 then mret true
                       else (prev ← PREV_ACT src; mret (act_cfa prev <=? stack_addr)));
         if in_callers : bool then
           '(_, l) ← lift (list_add (rc_stack_pointers dest)
                             (Fixup stack_addr (rc_act dest) val_dest));
           a ← ACT src;
           mret (stack_addr <? act_cfa a, set_stack_pointers l dest)
         else mret (false, dest)
       else (put_val src val_src dest val_dest;; mret (false, dest)));
    dest ← (if is_alloca val_src then
              resolve_fixups src val_src dest val_dest (fixup_fuel dest)
                (list_begin (rc_stack_pointers dest))
            else mret dest);
    mret (needs_local_fixup, dest).

(** [live_vals[i + offset]] and the loops that skip duplicates. *)
Definition live_val (h : st_handle) (i offset : Z) : M live_value :=
  lift (get (znth (h_live_vals h) (wrap64 (i + offset)))).

Fixpoint skip_duplicates (h : st_handle) (offset : Z) (fuel : nat) (i : Z) : M Z :=
  match fuel with
  | O => fun _ => Spin
  | S fuel' =>
      v ← live_val h (i + 1) offset;
      if is_duplicate v then skip_duplicates h offset fuel' (i + 1) else mret i
  end.

Definition live_fuel (h : st_handle) : nat := S (length (h_live_vals h)).

(** The search of [fixup_local_pointers] for the object a fixup points to:
    the translated address. *)
Fixpoint find_local (src dest : rewrite_context) (sa da : activation) (fx : fixup)
    (fuel : nat) (i j : Z) : M (option Z) :=
  match fuel with
  | O => fun _ => Spin
  | S fuel' =>
      if j <? cs_num_live (act_site da) then
        let src_offset := cs_live_offset (act_site sa) in
        let dest_offset := cs_live_offset (act_site da) in
        val_src ← live_val (rc_handle src) i src_offset;
        val_dest ← live_val (rc_handle dest) j dest_offset;
        i ← skip_duplicates (rc_handle src) src_offset (live_fuel (rc_handle src)) i;
        j ← skip_duplicates (rc_handle dest) dest_offset (live_fuel (rc_handle dest)) j;
        if negb (is_alloca val_src) || negb (is_alloca val_dest)
        then find_local src dest sa da fx fuel' (i + 1) (j + 1)
        else
          stack_addr ← points_to_data src val_src dest val_dest (fx_src_addr fx);
          if truthy stack_addr then mret (Some stack_addr)
          else find_local src dest sa da fx fuel' (i + 1) (j + 1)
      else mret None
  end.

(** The loop over the fixups; [found_fixup] starts uninitialised, and its value
    survives from one iteration to the next.  Its fuel is a parameter. *)
Fixpoint fixup_loop (fuel : nat) (src dest : rewrite_context) (node : option positive)
    (found_fixup : option bool) : M rewrite_context :=
  match node with
  | None => mret dest
  | Some p =>
      match fuel with
      | O => fun _ => Spin
      | S fuel' =>
          sa ← ACT src;
          da ← ACT dest;
          fx ← lift (list_data (rc_stack_pointers dest) p);
          if fx_src_addr fx <=? act_cfa sa then
            if negb (fx_act fx =? rc_act src) then
              nxt ← lift (list_next (rc_stack_pointers dest) p);
              fixup_loop fuel' src dest nxt found_fixup
            else
              found ← find_local src dest sa da fx
                        (S (Z.to_nat (cs_num_live (act_site da)))) 0 0;
              match found with
              | Some stack_addr =>
                  put_val_data dest (fx_dest_loc fx) (fx_act fx) stack_addr;;
                  '(nxt, dest) ← fixups_remove dest p;
                  fixup_loop fuel' src dest nxt (Some true)
              | None =>
                  nxt ← lift (list_next (rc_stack_pointers dest) p);
                  fixup_loop fuel' src dest nxt (Some false)
              end
          else
            match found_fixup with
            | None => fault
            | Some true => fixup_loop fuel' src dest (Some p) (Some true)
            | Some false =>
                nxt ← lift (list_next (rc_stack_pointers dest) p);
                fixup_loop fuel' src dest nxt (Some false)
            end
      end
  end.

Definition fixup_local_pointers (fuel : nat) (src dest : rewrite_context) : M rewrite_context :=
  fixup_loop fuel src dest (list_begin (rc_stack_pointers dest)) None.

(** The duplicate location records of a destination value. *)
Fixpoint rewrite_duplicates (src : rewrite_context) (val_src : live_value)
    (dest_offset : Z) (fuel : nat) (dest : rewrite_context) (j : Z) (needs : bool) :
    M (Z * bool * rewrite_context) :=
  match fuel with
  | O => fun _ => Spin
  | S fuel' =>
      v ← live_val (rc_handle dest) (j + 1) dest_offset;
      if is_duplicate v then
        '(b, dest) ← rewrite_val src val_src dest v;
        rewrite_duplicates src val_src dest_offset fuel' dest (j + 1) (needs || b)
      else mret (j, needs, dest)
  end.

Fixpoint rewrite_vals (src : rewrite_context) (fuel : nat) (dest : rewrite_context)
    (i j : Z) (needs : bool) : M (bool * rewrite_context) :=
  match fuel with
  | O => fun _ => Spin
  | S fuel' =>
      sa ← ACT src;
      da ← ACT dest;
      let src_offset := cs_live_offset (act_site sa) in
      let dest_offset := cs_live_offset (act_site da) in
      if j <? cs_num_live (act_site da) then
        val_src ← live_val (rc_handle src) i src_offset;
        val_dest ← live_val (rc_handle dest) j dest_offset;
        '(b, dest) ← rewrite_val src val_src dest val_dest;
        '(j, needs, dest) ← rewrite_duplicates src val_src dest_offset
                               (live_fuel (rc_handle dest)) dest j (needs || b);
        i ← skip_duplicates (rc_handle src) src_offset (live_fuel (rc_handle src)) i;
        rewrite_vals src fuel' dest (i + 1) (j + 1) needs
      else mret (needs, dest)
  end.

(** [rewrite_frame]; the fuel is that of [fixup_local_pointers]. *)
Definition rewrite_frame (fuel : nat) (src dest : rewrite_context) : M rewrite_context :=
  da ← ACT dest;
  '(needs_local_fixup, dest) ←
    rewrite_vals src (S (Z.to_nat (cs_num_live (act_site da)))) dest 0 0 false;
  for_ (Z.to_nat (cs_num_arch_live (act_site da))) 0 (fun i =>
    v ← lift (get (znth (h_arch_live_vals (rc_handle dest))
                 (wrap64 (i + cs_arch_live_offset (act_site da)))));
    put_val_arch dest v);;
  if needs_local_fixup : bool then fixup_local_pointers fuel src dest else mret dest.

(** The body of the loop of [st_rewrite_stack] over the frames. *)
Definition rewrite_one (fuel : nat) (src dest : rewrite_context) : M rewrite_context :=
  nxt ← NEXT_ACT dest;
  set_return_address dest (cs_addr (act_site nxt));;
  dest ← rewrite_frame fuel src dest;
  saved_fbp ← get_savedfbp_loc dest;
  dest ← pop_frame dest true;
  a ← ACT dest;
  fp ← fbp (REGOPS dest) (act_regs a);
  store64 saved_fbp fp;;
  mret dest.

Fixpoint rewrite_frames (fuel : nat) (n : nat) (src dest : rewrite_context) :
    M (rewrite_context * rewrite_context) :=
  match n with
  | O => mret (src, dest)
  | S n' =>
      dest ← rewrite_one fuel src dest;
      rewrite_frames fuel n' (set_act (rc_act src + 1) src) dest
  end.

(** [st_rewrite_stack], with the lists of fixups that the two contexts leave. *)
Definition rewrite_stack (fuel : nat) (garbage : rewrite_context)
    (handle_src : option st_handle) (regset_src sp_base_src : Z)
    (handle_dest : option st_handle) (regset_dest sp_base_dest : Z) : M (Z * list (clist fixup)) :=
  match handle_src, handle_dest with
  | Some handle_src, Some handle_dest =>
      if negb (truthy regset_src) || negb (truthy sp_base_src) ||
         negb (truthy regset_dest) || negb (truthy sp_base_dest)
      then mret (1, [])
      else
        '(src_p, src) ← init_src_context garbage handle_src regset_src sp_base_src;
        a ← ACT src;
        pc ← pc (REGOPS src) (act_regs a);
        fn ← lift (get_function_address handle_src pc);
        '(dest_p, dest) ← init_dest_context garbage handle_dest regset_dest sp_base_dest fn;
        '(src, dest) ← unwind_and_size src dest;
        nxt ← NEXT_ACT dest;
        set_return_address_funcentry dest (cs_addr (act_site nxt));;
        dest ← pop_frame_funcentry dest;
        let src := set_act 1 src in
        '(src, dest) ← rewrite_frames fuel (Z.to_nat (rc_num_acts src - 2)) src dest;
        a0 ← acts dest 0;
        regset_copyout (REGOPS dest) (act_regs a0) (rc_regs dest);;
        left_dest ← free_context dest_p dest;
        left_src ← free_context src_p src;
        mret (0, [left_dest; left_src])
  | _, _ => mret (1, [])
  end.

Definition st_rewrite_stack (fuel : nat) (garbage : rewrite_context)
    (handle_src : option st_handle) (regset_src sp_base_src : Z)
    (handle_dest : option st_handle) (regset_dest sp_base_dest : Z) : M Z :=
  '(r, _) ← rewrite_stack fuel garbage handle_src regset_src sp_base_src
              handle_dest regset_dest sp_base_dest;
  mret r.

Definition st_rewrite_ondemand (handle_src : option st_handle) (regset_src sp_base_src : Z)
    (handle_dest : option st_handle) (regset_dest sp_base_dest : Z) : M Z :=
  st_err 1.
