(* ===== verification/Effects.v ===== *)
(** * Effects of the runtime's operations on the heap, and their termination

    A computation is [tame] when it allocates and frees nothing and, as stated,
    never runs forever.  The notion is closed under the monad's operations, so
    that most functions of the runtime are shown tame by following their
    structure with the hints of the database [tame]. *)

From S2P Require Import Prelude Machine Bitmap LinkedList CallSite Regs RegsAArch64 RegsX86 Context Lookup Unwind Data Rewrite.

(** ** Definitions *)

(** [tame spins Q c]: [c] leaves the set of live objects and the allocator
    alone, its result satisfies [Q], and it may diverge only if [spins]. *)
Definition tame {A} (spins : bool) (Q : A -> Prop) (c : M A) : Prop :=
  forall m, match c m with
  | Ret (a, m') => Q a /\ m_blocks m' = m_blocks m /\ m_next m' = m_next m
  | Spin => spins = true
  | _ => True
  end.

Definition any {A} (a : A) : Prop := True.

(** What no operation on a context changes: its handle, its pools and the
    number of its activations; and its fixups stay a list. *)
Definition kept (c : rewrite_context) : st_handle * Z * Z * Z :=
  (rc_handle c, rc_regset_pool c, rc_callee_saved_pool c, zlen (rc_acts c)).

Definition keeps (c d : rewrite_context) : Prop :=
  kept d = kept c /\ (tidy (rc_stack_pointers c) -> tidy (rc_stack_pointers d)).

(** An outcome that is not divergence. *)
Definition halts {A} (o : outcome A) : Prop := o <> Spin.

(** Register operations that only read and write registers. *)
Record quiet (R : regops_t) : Prop := {
  q_clone : forall s d, tame false any (regset_clone R s d);
  q_copyin : forall s d, tame false any (regset_copyin R s d);
  q_copyout : forall s d, tame false any (regset_copyout R s d);
  q_pc : forall rs, tame false any (pc R rs);
  q_sp : forall rs, tame false any (sp R rs);
  q_fbp : forall rs, tame false any (fbp R rs);
  q_ra : forall rs, has_ra_reg R = true -> tame false any (ra_reg R rs);
  q_set_pc : forall rs v, tame false any (set_pc R rs v);
  q_set_sp : forall rs v, tame false any (set_sp R rs v);
  q_set_fbp : forall rs v, tame false any (set_fbp R rs v);
  q_set_ra : forall rs v, has_ra_reg R = true -> tame false any (set_ra_reg R rs v);
  q_setup_fbp : forall rs v, tame false any (setup_fbp R rs v);
  q_reg : forall rs r, halts (reg R rs r);
}.

Record quiet_abi (P : properties_t) : Prop := {
  q_align : forall p, halts (align_sp P p);
  q_callee : forall r, halts (callee_reg_size P r);
}.

(** ** Closure properties *)

Lemma tame_bind {A B} s (P : A -> Prop) (Q : B -> Prop) (c : M A) (f : A -> M B) :
  tame s P c -> (forall a, P a -> tame s Q (f a)) -> tame s Q (c ≫= f).
Proof.
  intros Hc Hf m. unfold mbind, M_bind. specialize (Hc m).
  destruct (c m) as [[a m1]|e| |]; try done. destruct Hc as (Ha & Hb & Hn).
  specialize (Hf a Ha m1). destruct (f a m1) as [[b m2]|e| |]; try done.
  destruct Hf as (? & ? & ?). repeat split; try done; congruence.
Qed.

Lemma tame_weaken {A} s s' (P Q : A -> Prop) (c : M A) :
  tame s P c -> (forall a, P a -> Q a) -> (s = true -> s' = true) -> tame s' Q c.
Proof. intros Hc Hq Hs m. specialize (Hc m). destruct (c m) as [[]|e| |]; naive_solver. Qed.

Lemma tame_ret {A} s (Q : A -> Prop) (a : A) : Q a -> tame s Q (mret a : M A).
Proof. by intros H m. Qed.

Lemma tame_lift {A} s (o : outcome A) : halts o -> tame s any (lift o).
Proof. intros Ho m. unfold lift. destruct o; try done. Qed.

Lemma tame_lift_Ret {A} s (o : outcome A) : halts o -> tame s (fun a => o = Ret a) (lift o).
Proof. intros Ho m. unfold lift. destruct o; try done. Qed.

Lemma tame_err {A} s (Q : A -> Prop) e : tame s Q (st_err e : M A).
Proof. done. Qed.

Lemma tame_fault {A} s (Q : A -> Prop) : tame s Q (fault : M A).
Proof. done. Qed.

Lemma tame_spin {A} (Q : A -> Prop) : tame true Q (fun _ => Spin).
Proof. done. Qed.

Lemma tame_load_bytes s a n : tame s any (load_bytes a n).
Proof. intros m. unfold load_bytes. by destruct (valid m a n). Qed.

Lemma tame_store_bytes s a bs : tame s any (store_bytes a bs).
Proof. intros m. unfold store_bytes. by destruct (valid m a (zlen bs)). Qed.

Lemma tame_load s n a : tame s any (load n a).
Proof. eapply tame_bind; [apply tame_load_bytes|intros; by apply tame_ret]. Qed.

Lemma tame_store s n a v : tame s any (store n a v).
Proof. apply tame_store_bytes. Qed.

Lemma tame_memcpy s d b n : tame s any (memcpy d b n).
Proof. eapply tame_bind; [apply tame_load_bytes|intros; apply tame_store_bytes]. Qed.

Lemma tame_memset s p c n : tame s any (memset p c n).
Proof. apply tame_store_bytes. Qed.

Lemma tame_for s n i body : (forall k, tame s any (body k)) -> tame s any (for_ n i body).
Proof.
  intros Hb. revert i. induction n as [|n IH]; intros i; simpl; [by apply tame_ret|].
  eapply tame_bind; [apply Hb|intros; apply IH].
Qed.

Lemma tame_ext {A} s (Q : A -> Prop) (c d : M A) :
  (forall m, c m = d m) -> tame s Q d -> tame s Q c.
Proof. intros E Hd m. rewrite E. apply Hd. Qed.

Lemma tame_any s {A} (Q : A -> Prop) (c : M A) : tame false Q c -> tame s any c.
Proof. intros H. eapply tame_weaken; [exact H|done..]. Qed.

Lemma tame_spins s {A} (Q : A -> Prop) (c : M A) : tame false Q c -> tame s Q c.
Proof. intros H. eapply tame_weaken; [exact H|done..]. Qed.

Lemma any_True {A} (a : A) : any a.
Proof. done. Qed.

Lemma halts_bind {A B} (o : outcome A) (f : A -> outcome B) :
  halts o -> (forall a, halts (f a)) -> halts (o ≫= f).
Proof. unfold halts. destruct o; simpl; auto. Qed.

Lemma halts_get {A} (o : option A) : halts (get o).
Proof. by destruct o. Qed.

Lemma halts_or_err {A} (o : option A) : halts (or_err o).
Proof. by destruct o. Qed.

Lemma halts_Ret {A} (a : A) : halts (Ret a).
Proof. done. Qed.

Create HintDb tame.
#[export] Hint Resolve tame_lift tame_err tame_fault tame_spin tame_load
  tame_store tame_load_bytes tame_store_bytes tame_memcpy tame_memset
  halts_get halts_or_err halts_Ret halts_bind any_True tame_spins : tame.
#[export] Hint Resolve q_clone q_copyin q_copyout q_pc q_sp q_fbp q_ra q_set_pc q_set_sp
  q_set_fbp q_set_ra q_setup_fbp q_reg q_align q_callee : tame.

Lemma keeps_quiet c d : keeps c d -> quiet (REGOPS c) -> quiet (REGOPS d).
Proof. unfold keeps, kept, REGOPS. intros [[= -> _ _ _] _]. done. Qed.

Lemma keeps_quiet_abi c d : keeps c d -> quiet_abi (PROPS c) -> quiet_abi (PROPS d).
Proof. unfold keeps, kept, PROPS. intros [[= -> _ _ _] _]. done. Qed.

Lemma keeps_trans c d e : keeps c d -> keeps d e -> keeps c e.
Proof. intros [H1 H2] [H3 H4]. split; [congruence|auto]. Qed.

Lemma keeps_refl c : keeps c c.
Proof. done. Qed.

Lemma tame_keeps_trans s c d (x : M rewrite_context) :
  keeps c d -> tame s (keeps d) x -> tame s (keeps c) x.
Proof.
  intros H Hx. eapply tame_weaken; [exact Hx| |done]. intros e He. by eapply keeps_trans.
Qed.

Ltac keeps_tac := unfold keeps, kept in *; destruct_and?; split; simpl; [congruence|tauto].

(** Follow the monadic structure of a computation. *)
Ltac tame_step :=
  match goal with
  | |- forall _, _ => intros ?
  | H : keeps ?c ?d, Hq : quiet (REGOPS ?c) |- _ =>
      lazymatch goal with
      | _ : quiet (REGOPS d) |- _ => fail
      | _ => pose proof (keeps_quiet _ _ H Hq)
      end
  | H : keeps ?c ?d, Hq : quiet_abi (PROPS ?c) |- _ =>
      lazymatch goal with
      | _ : quiet_abi (PROPS d) |- _ => fail
      | _ => pose proof (keeps_quiet_abi _ _ H Hq)
      end
  | |- tame _ _ (match ?x with _ => _ end) => destruct x eqn:?
  | |- tame _ _ (_ ≫= _) => eapply tame_bind
  | |- tame _ ?Q (@mret _ _ ?T _) =>
      is_evar Q; lazymatch T with rewrite_context => fail | _ => idtac end;
      apply (tame_ret _ any); exact I
  | |- tame _ _ (mret _) => apply tame_ret
  | |- tame _ _ (for_ _ _ _) => apply tame_for
  | |- halts (match ?x with _ => _ end) => destruct x
  | |- halts (_ ≫= _) => apply halts_bind
  | |- keeps _ _ => first [apply keeps_refl | keeps_tac]
  | |- any _ => exact I
  | |- _ => solve [eauto 4 with tame]
  | H : keeps ?c ?d |- tame _ (keeps ?c) _ =>
      solve [apply (tame_keeps_trans _ _ _ _ H); eauto 4 with tame]
  end.

Ltac tame_auto := repeat tame_step.

(** ** The components *)

Lemma tame_acts s ctx i : tame s any (acts ctx i).
Proof. unfold acts. tame_auto. Qed.
#[export] Hint Resolve tame_acts : tame.

Lemma tame_upd_acts_act s f i ctx :
  tame s (fun d => keeps ctx d /\ rc_act d = rc_act ctx) (upd_acts f i ctx).
Proof.
  intros m. destruct (upd_acts f i ctx m) as [[d m']|e| |] eqn:E; try done.
  - apply upd_acts_Ret in E as (a & l & _ & Hl & -> & ->).
    split; [|done]. split; [|done]. split; [|done]. unfold kept. simpl. by rewrite (zupd_length _ _ _ _ Hl).
  - unfold upd_acts, acts, lift, mbind, M_bind in E.
    destruct (znth (rc_acts ctx) i) as [a|]; simpl in E; [|done].
    by destruct (zupd (rc_acts ctx) i (f a)).
Qed.

Lemma tame_upd_acts s f i ctx : tame s (keeps ctx) (upd_acts f i ctx).
Proof. eapply tame_weaken; [apply (tame_upd_acts_act s)|naive_solver|done]. Qed.
#[export] Hint Resolve tame_upd_acts : tame.

Lemma halts_int_mask f : halts (int_mask f).
Proof. unfold int_mask. by destruct (f <? 32). Qed.
#[export] Hint Resolve halts_int_mask : tame.

Lemma tame_bitmap_set s b n : tame s any (bitmap_set b n).
Proof. unfold bitmap_set. tame_auto. Qed.

Lemma tame_bitmap_is_set s b n : tame s any (bitmap_is_set b n).
Proof. unfold bitmap_is_set. tame_auto. Qed.
#[export] Hint Resolve tame_bitmap_set tame_bitmap_is_set : tame.

(** The searches halt whatever the sections hold: every probe is of a record
    not probed before. *)
Definition candidates (len min max : Z) : Z := Z.max 0 (Z.min max (len - 1) - min + 1).

Lemma halts_search {A B} (step : Z -> A -> outcome B + (Z * Z)) (stop : outcome B)
    (loop : nat -> Z -> Z -> outcome B) (l : list A) :
  halts stop ->
  (forall fuel min max, loop (S fuel) min max =
    if max >=? min then
      sum ← long (max + min);
      a ← get (znth l (Z.quot sum 2));
      match step (Z.quot sum 2) a with
      | inl r => r
      | inr (1, _) => loop fuel (Z.quot sum 2 + 1) max
      | inr _ => loop fuel min (Z.quot sum 2 - 1)
      end
    else stop) ->
  (forall mid a, match step mid a with inl r => halts r | _ => True end) ->
  forall fuel min max, 0 <= min -> candidates (zlen l) min max < Z.of_nat fuel ->
    halts (loop fuel min max).
Proof.
  intros Hstop Heq Hstep fuel. induction fuel as [|fuel IH]; intros min max ? Hf.
  { unfold candidates in Hf. lia. }
  rewrite Heq. destruct (Z.geb_spec max min); [|done].
  unfold long. destruct (_ && _); [|done]. cbn [mbind outcome_bind].
  pose proof (midpoint min max ltac:(lia)).
  destruct (znth l (Z.quot (max + min) 2)) as [a|] eqn:Ea; [|done]. cbn [get mbind outcome_bind].
  pose proof (znth_Some_range _ _ _ Ea). specialize (Hstep (Z.quot (max + min) 2) a).
  destruct (step _ a) as [r|[d ?]]; [done|].
  assert (Hr : halts (loop fuel (Z.quot (max + min) 2 + 1) max)).
  { apply IH; unfold candidates in *; lia. }
  assert (Hl : halts (loop fuel min (Z.quot (max + min) 2 - 1))).
  { apply IH; unfold candidates in *; lia. }
  by destruct d as [|[]|].
Qed.

Lemma candidates_start len max : 0 <= len -> candidates len 0 max < len + 1.
Proof. unfold candidates. lia. Qed.

Lemma halts_site_by_addr h a : halts (get_site_by_addr h a).
Proof.
  unfold get_site_by_addr.
  apply (halts_search (fun _ cs => if cs_addr cs =? a then inl (Ret (Some cs))
      else inr (if a >? cs_addr cs then 1 else 0, 0)) (Ret None)
      (site_by_addr_loop (h_sites_addr h) a) (h_sites_addr h)); try done.
  - intros fuel min max. simpl. destruct (max >=? min); [|done].
    destruct (long (max + min)); try done. simpl. destruct (znth _ _); [|done]. simpl.
    destruct (cs_addr _ =? a); [done|]. by destruct (a >? _).
  - intros mid cs. by destruct (cs_addr cs =? a).
  - pose proof (candidates_start (zlen (h_sites_addr h)) (signed 64 (h_sites_count h - 1))).
    unfold zlen in *. lia.
Qed.

Lemma halts_site_by_id h a : halts (get_site_by_id h a).
Proof.
  unfold get_site_by_id.
  apply (halts_search (fun _ cs => if cs_id cs =? a then inl (Ret (Some cs))
      else inr (if a >? cs_id cs then 1 else 0, 0)) (Ret None)
      (site_by_id_loop (h_sites_id h) a) (h_sites_id h)); try done.
  - intros fuel min max. simpl. destruct (max >=? min); [|done].
    destruct (long (max + min)); try done. simpl. destruct (znth _ _); [|done]. simpl.
    destruct (cs_id _ =? a); [done|]. by destruct (a >? _).
  - intros mid cs. by destruct (cs_id cs =? a).
  - pose proof (candidates_start (zlen (h_sites_id h)) (signed 64 (h_sites_count h - 1))).
    unfold zlen in *. lia.
Qed.

Lemma halts_unwind_offset h x : halts (get_unwind_offset_by_addr h x).
Proof.
  unfold get_unwind_offset_by_addr.
  set (l := h_unwind_addrs h). set (n := h_unwind_addr_count h).
  apply (halts_search (fun mid u =>
      if wrap64 mid =? wrap64 (n - 1) then
        inl (if ua_addr u <=? x then Ret (Some u) else Ret None)
      else if ua_addr u <=? x then
        match znth l (mid + 1) with
        | None => inl Fault
        | Some v => if x <? ua_addr v then inl (Ret (Some u))
                    else inr (if x >? ua_addr u then 1 else 0, 0)
        end
      else inr (if x >? ua_addr u then 1 else 0, 0)) (Ret None)
      (unwind_offset_loop l n x) l); try done.
  - intros fuel min max. simpl. destruct (max >=? min); [|done].
    destruct (long (max + min)) as [sum| | |]; try done. simpl. unfold IN_RANGE.
    destruct (znth l (sum ÷ 2)) as [u|] eqn:E; simpl.
    + destruct (wrap64 (sum ÷ 2) =? wrap64 (n - 1)); [done|].
      destruct (ua_addr u <=? x); simpl; [|by destruct (x >? _)].
      destruct (znth l (sum ÷ 2 + 1)); simpl; [|done]. destruct (x <? _); [done|].
      by destruct (x >? _).
    + by destruct (wrap64 (sum ÷ 2) =? wrap64 (n - 1)).
  - intros mid u. destruct (_ =? _); [by destruct (_ <=? _)|].
    destruct (_ <=? _); [|done]. destruct (znth l (mid + 1)); [|done]. by destruct (x <? _).
  - pose proof (candidates_start (zlen l) (signed 64 (n - 1))). unfold zlen in *. lia.
Qed.

#[export] Hint Resolve halts_site_by_addr halts_site_by_id halts_unwind_offset : tame.

Lemma halts_function_address h x : halts (get_function_address h x).
Proof. unfold get_function_address. tame_auto. Qed.
#[export] Hint Resolve halts_function_address : tame.

(** Register files that obey the laws are quiet. *)
Lemma quiet_laws R `{RegLaws R} : quiet R.
Proof.
  constructor; [| | | | | | | | | | | | intros rs r; rewrite law_reg; apply halts_or_err];
    intros; (eapply tame_ext; [intros m; first [apply law_clone | apply law_copyin
    | apply law_copyout | apply law_pc | apply law_sp | apply law_fbp | by apply law_ra
    | apply law_set_pc | apply law_set_sp | apply law_set_fbp | by apply law_set_ra
    | apply law_setup_fbp] |]); unfold set_initialized;
    try match goal with |- tame _ _ (fun m => ?f m) => change (tame false any f) end; tame_auto.
Qed.

Lemma quiet_supported arch R : get_regops arch = Some R -> quiet R.
Proof.
  intros [[_ ->]|[_ ->]]%get_regops_cases.
  - exact (@quiet_laws regs_aarch64 layout_aarch64 laws_aarch64).
  - exact (@quiet_laws regs_x86_64 layout_x86_64 laws_x86_64).
Qed.

Lemma quiet_abi_supported arch P : get_properties arch = Some P -> quiet_abi P.
Proof.
  intros [[_ ->]|[_ ->]]%get_properties_cases; split; intros.
  - done.
  - apply halts_or_err.
  - simpl. unfold align_sp_x86_64. by destruct (truthy _).
  - apply halts_or_err.
Qed.

Section components.
Context (ctx : rewrite_context).
Context (HR : quiet (REGOPS ctx)) (HP : quiet_abi (PROPS ctx)).

Lemma tame_setup_regset act : tame false (keeps ctx) (setup_regset ctx act).
Proof using HR HP. unfold setup_regset. tame_auto. Qed.

Lemma tame_setup_callee_saved_bits act : tame false (keeps ctx) (setup_callee_saved_bits ctx act).
Proof using Type. apply tame_upd_acts. Qed.

Lemma tame_restore_one act i : tame false any (restore_one ctx act i).
Proof using HR HP. unfold restore_one. tame_auto. Qed.
#[local] Hint Resolve tame_restore_one : tame.

Lemma tame_restore_callee_saved_regs act : tame false any (restore_callee_saved_regs ctx act).
Proof using HR HP. unfold restore_callee_saved_regs. tame_auto. Qed.

Lemma tame_calculate_cfa act : tame false any (calculate_cfa ctx act).
Proof using HR HP. unfold calculate_cfa. tame_auto. Qed.
End components.

#[export] Hint Resolve tame_setup_regset tame_setup_callee_saved_bits
  tame_restore_callee_saved_regs tame_calculate_cfa : tame.

Section unwinding.
Context (ctx : rewrite_context).
Context (HR : quiet (REGOPS ctx)) (HP : quiet_abi (PROPS ctx)).

Lemma tame_setup_frame_bounds act : tame false (keeps ctx) (setup_frame_bounds ctx act).
Proof using HR HP. unfold setup_frame_bounds. tame_auto. Qed.
#[local] Hint Resolve tame_setup_frame_bounds : tame.

Lemma tame_bootstrap_first_frame : tame false (keeps ctx) (bootstrap_first_frame ctx).
Proof using HR HP. unfold bootstrap_first_frame. tame_auto. Qed.

Lemma tame_bootstrap_funcentry : tame false (keeps ctx) (bootstrap_first_frame_funcentry ctx).
Proof using HR HP. unfold bootstrap_first_frame_funcentry, ACT. tame_auto. Qed.
End unwinding.

#[export] Hint Resolve tame_setup_frame_bounds tame_bootstrap_first_frame
  tame_bootstrap_funcentry : tame.

Section pop.
Context (ctx : rewrite_context).
Context (HR : quiet (REGOPS ctx)) (HP : quiet_abi (PROPS ctx)).

Lemma tame_pop_frame b : tame false (keeps ctx) (pop_frame ctx b).
Proof using HR HP.
  unfold pop_frame, NEXT_ACT, ACT. tame_auto.
Qed.

Lemma tame_pop_frame_funcentry : tame false (keeps ctx) (pop_frame_funcentry ctx).
Proof using HR HP.
  unfold pop_frame_funcentry, NEXT_ACT, ACT. tame_auto.
Qed.

Lemma tame_get_register_save_loc a r : tame false any (get_register_save_loc ctx a r).
Proof using HR HP.
  unfold get_register_save_loc. eapply (tame_bind _ any); [apply tame_lift|tame_auto].
  generalize (Z.to_nat (unwind_end (act_site a) - unwind_start (act_site a))).
  intros n. generalize (unwind_start (act_site a)). induction n as [|n IH]; intros z; [done|].
  simpl. tame_auto; done.
Qed.
#[local] Hint Resolve tame_get_register_save_loc : tame.

Lemma tame_get_val_loc type r off act : tame false any (get_val_loc ctx type r off act).
Proof using HR HP. unfold get_val_loc. tame_auto. Qed.
#[local] Hint Resolve tame_get_val_loc : tame.

Lemma tame_callee_addr type r act : tame false any (callee_addr ctx type r act).
Proof using HR HP.
  unfold callee_addr, callee_saved_loc. destruct (_ && _); [|tame_auto].
  destruct (act <=? 0); [tame_auto|]. generalize (Z.to_nat act). intros n.
  induction n as [|n IH]; simpl; tame_auto.
Qed.
#[local] Hint Resolve tame_callee_addr : tame.

Lemma tame_put_val_data v act d : tame false any (put_val_data ctx v act d).
Proof using HR HP. unfold put_val_data, get_dest_loc. tame_auto. Qed.

Lemma halts_arch_result i v k : halts (arch_result i v k).
Proof using Type.
  destruct i as [[]|]; try done; simpl; unfold shift_count; by destruct (_ : bool).
Qed.
#[local] Hint Resolve halts_arch_result : tame.

Lemma tame_put_val_arch v : tame false any (put_val_arch ctx v).
Proof using HR HP.
  unfold put_val_arch, get_arch_operand_loc, apply_arch_operation. tame_auto.
Qed.

Lemma tame_points_to_stack v : tame false any (points_to_stack ctx v).
Proof using HR HP. unfold points_to_stack, ACT. tame_auto. Qed.

Lemma tame_set_return_address ra : tame false any (set_return_address ctx ra).
Proof using HR HP. unfold set_return_address, ACT. tame_auto. Qed.

Lemma tame_set_return_address_funcentry ra : tame false any (set_return_address_funcentry ctx ra).
Proof using HR HP. unfold set_return_address_funcentry, ACT. tame_auto. Qed.

Lemma tame_get_savedfbp_loc : tame false any (get_savedfbp_loc ctx).
Proof using HR HP. unfold get_savedfbp_loc, ACT. tame_auto. Qed.
End pop.

#[export] Hint Resolve tame_pop_frame tame_pop_frame_funcentry tame_get_val_loc
  tame_callee_addr tame_put_val_data tame_put_val_arch tame_points_to_stack
  tame_set_return_address tame_set_return_address_funcentry tame_get_savedfbp_loc : tame.

(** *** Rewriting *)

Lemma halts_list_remove {A} (l : clist A) p : halts (list_remove l p).
Proof.
  unfold list_remove, list_unlink, upd_node. destruct (cl_heap l !! p); [|done]. simpl.
  destruct (cl_size l =? 1); simpl; [by destruct (cl_heap l !! p)|].
  repeat (case_decide; simpl); tame_auto; repeat match goal with
    | |- context [get ?o] => destruct o; simpl; try done
    | |- context [?h !! ?q] => destruct (h !! q); simpl; try done
    end.
Qed.

Lemma halts_list_data {A} (l : clist A) p : halts (list_data l p).
Proof. unfold list_data. by destruct (cl_heap l !! p). Qed.

Lemma halts_list_next {A} (l : clist A) p : halts (list_next l p).
Proof. unfold list_next. by destruct (cl_heap l !! p). Qed.

Lemma halts_list_add {A} (l : clist A) d : halts (list_add l d).
Proof.
  unfold list_add, upd_node. destruct (_ =? _); [done|]. destruct (cl_head l); [|done].
  destruct (cl_tail l); [|done]. simpl. by destruct (cl_heap l !! _).
Qed.
#[export] Hint Resolve halts_list_remove halts_list_data halts_list_next halts_list_add : tame.

Lemma tame_fixups_remove s ctx p : tame s (fun r => keeps ctx r.2) (fixups_remove ctx p).
Proof.
  unfold fixups_remove. eapply tame_bind; [by apply tame_lift_Ret, halts_list_remove|].
  intros [nxt l] E. apply tame_ret. split; [done|]. intros Ht. by eapply list_remove_tidy.
Qed.

(** Both architectures' operations are quiet for a context. *)
Definition quiet_context (ctx : rewrite_context) : Prop :=
  quiet (REGOPS ctx) /\ quiet_abi (PROPS ctx).

Lemma quiet_keeps c d : keeps c d -> quiet_context c -> quiet_context d.
Proof. intros H [H1 H2]. split; [by eapply keeps_quiet|by eapply keeps_quiet_abi]. Qed.

#[local] Hint Resolve keeps_refl : tame.

Lemma tame_live_val s h i off : tame s any (live_val h i off).
Proof. unfold live_val. tame_auto. Qed.
#[export] Hint Resolve tame_live_val : tame.

Lemma tame_skip_duplicates h off fuel i : tame true any (skip_duplicates h off fuel i).
Proof. revert i. induction fuel as [|fuel IH]; intros i; simpl; tame_auto. Qed.
#[export] Hint Resolve tame_skip_duplicates : tame.

Section rewriting.
Context (src : rewrite_context) (Hsrc : quiet_context src).

Lemma tame_points_to_data val_src dest val_dest p :
  quiet_context dest -> tame false any (points_to_data src val_src dest val_dest p).
Proof using Hsrc. intros []. destruct Hsrc. unfold points_to_data. tame_auto. Qed.

Lemma tame_read_src l n : tame false any (read_src l n).
Proof using Type. destruct l; simpl; tame_auto. Qed.

Lemma tame_put_val val_src dest val_dest :
  quiet_context dest -> tame false any (put_val src val_src dest val_dest).
Proof using Hsrc.
  intros []. destruct Hsrc. pose proof tame_read_src.
  unfold put_val, get_src_loc, get_dest_loc. tame_auto.
Qed.

Lemma tame_resolve_fixups val_src val_dest fuel dest node :
  quiet_context dest -> tame true (keeps dest) (resolve_fixups src val_src dest val_dest fuel node).
Proof using Hsrc.
  revert dest node. induction fuel as [|fuel IH]; intros dest [p|] Hd; simpl;
    try (apply tame_ret; done); try done.
  eapply tame_bind; [by apply tame_lift, halts_list_data|intros fx _].
  eapply tame_bind; [eapply tame_spins, tame_points_to_data; done|intros addr _].
  destruct (truthy addr).
  - eapply tame_bind; [destruct Hd; eauto with tame|intros _ _].
    eapply tame_bind; [apply tame_fixups_remove|intros [nxt d] Hk].
    apply (tame_keeps_trans _ _ _ _ Hk), IH. by eapply quiet_keeps.
  - eapply tame_bind; [by apply tame_lift, halts_list_next|intros nxt _]. by apply IH.
Qed.

Lemma tame_rewrite_val val_src dest val_dest :
  quiet_context dest ->
  tame true (fun r => keeps dest r.2) (rewrite_val src val_src dest val_dest).
Proof using Hsrc.
  intros Hd. unfold rewrite_val. destruct (is_va_list_pair _ _); [by apply tame_ret|].
  destruct Hsrc as [Hs1 Hs2]. eapply tame_bind; [eauto with tame|intros addr _].
  eapply (tame_bind _ (fun r : bool * rewrite_context => keeps dest r.2)).
  - destruct (truthy addr).
    + eapply (tame_bind _ any); [unfold PREV_ACT; tame_auto|]. intros [] _; [|by apply tame_ret].
      eapply tame_bind; [by apply tame_lift_Ret, halts_list_add|intros [nd l] E].
      unfold ACT. eapply tame_bind; [apply tame_acts|intros a _]. apply tame_ret.
      split; [done|]. intros Ht. by eapply list_add_tidy.
    + eapply tame_bind; [eapply tame_spins, tame_put_val; done|intros _ _]. by apply tame_ret.
  - intros [b d] Hk. simpl in Hk. eapply (tame_bind _ (keeps dest)).
    + destruct (is_alloca val_src); [|by apply tame_ret].
      apply (tame_keeps_trans _ _ _ _ Hk), tame_resolve_fixups. by eapply quiet_keeps.
    + intros e He. by apply tame_ret.
Qed.

Lemma tame_rewrite_duplicates val_src off fuel dest j needs :
  quiet_context dest ->
  tame true (fun r => keeps dest r.2) (rewrite_duplicates src val_src off fuel dest j needs).
Proof using Hsrc.
  revert dest j needs. induction fuel as [|fuel IH]; intros dest j needs Hd; simpl; [done|].
  eapply tame_bind; [apply tame_live_val|intros v _].
  destruct (is_duplicate v); [|by apply tame_ret].
  eapply tame_bind; [by apply tame_rewrite_val|intros [b d] Hk]. simpl in Hk.
  eapply tame_weaken; [apply IH; by eapply quiet_keeps| |done].
  intros r Hr. by eapply keeps_trans.
Qed.

Lemma tame_rewrite_vals fuel dest i j needs :
  quiet_context dest -> tame true (fun r => keeps dest r.2) (rewrite_vals src fuel dest i j needs).
Proof using Hsrc.
  revert dest i j needs. induction fuel as [|fuel IH]; intros dest i j needs Hd; cbn [rewrite_vals]; [done|].
  unfold ACT. eapply tame_bind; [apply tame_acts|intros sa _].
  eapply tame_bind; [apply tame_acts|intros da _].
  destruct (j <? _); [|by apply tame_ret].
  eapply tame_bind; [apply tame_live_val|intros vs _].
  eapply tame_bind; [apply tame_live_val|intros vd _].
  eapply tame_bind; [by apply tame_rewrite_val|intros [b d] Hk]. simpl in Hk.
  eapply tame_bind; [apply tame_rewrite_duplicates; by eapply quiet_keeps|].
  intros [[j' n'] e] He. simpl in He.
  eapply tame_bind; [apply tame_skip_duplicates|intros i' _].
  pose proof (keeps_trans _ _ _ Hk He) as Hke.
  eapply tame_weaken; [apply IH; by eapply quiet_keeps| |done].
  intros r Hr. by eapply keeps_trans.
Qed.

Lemma tame_find_local dest sa da fx fuel i j :
  quiet_context dest -> tame true any (find_local src dest sa da fx fuel i j).
Proof using Hsrc.
  intros Hd. revert i j. induction fuel as [|fuel IH]; intros i j; cbn [find_local]; [done|].
  pose proof (fun vs vd p => tame_points_to_data vs dest vd p Hd). tame_auto.
Qed.

Lemma tame_fixup_loop fuel dest node found :
  quiet_context dest -> tame true (keeps dest) (fixup_loop fuel src dest node found).
Proof using Hsrc.
  revert dest node found. induction fuel as [|fuel IH]; intros dest [p|] found Hd; cbn [fixup_loop];
    try (apply tame_ret; done); try done.
  unfold ACT. eapply tame_bind; [apply tame_acts|intros sa _].
  eapply tame_bind; [apply tame_acts|intros da _].
  eapply tame_bind; [by apply tame_lift, halts_list_data|intros fx _].
  destruct (_ <=? _).
  - destruct (negb _).
    + eapply tame_bind; [by apply tame_lift, halts_list_next|intros nxt _]. by apply IH.
    + eapply tame_bind; [by apply tame_find_local|intros [addr|] _].
      * eapply tame_bind; [destruct Hd; eauto with tame|intros _ _].
        eapply tame_bind; [apply tame_fixups_remove|intros [nxt d] Hk].
        apply (tame_keeps_trans _ _ _ _ Hk), IH. by eapply quiet_keeps.
      * eapply tame_bind; [by apply tame_lift, halts_list_next|intros nxt _]. by apply IH.
  - destruct found as [[]|]; [by apply IH| |done].
    eapply tame_bind; [by apply tame_lift, halts_list_next|intros nxt _]. by apply IH.
Qed.

Lemma tame_rewrite_frame fuel dest :
  quiet_context dest -> tame true (keeps dest) (rewrite_frame fuel src dest).
Proof using Hsrc.
  intros Hd. unfold rewrite_frame, ACT. eapply tame_bind; [apply tame_acts|intros da _].
  eapply tame_bind; [by apply tame_rewrite_vals|intros [needs d] Hk]. simpl in Hk.
  pose proof (quiet_keeps _ _ Hk Hd) as Hq.
  eapply (tame_bind _ any).
  { destruct Hq. apply tame_for. intros k. tame_auto. }
  intros _ _. destruct needs; [|by apply tame_ret].
  apply (tame_keeps_trans _ _ _ _ Hk). by apply tame_fixup_loop.
Qed.

Lemma tame_rewrite_one fuel dest :
  quiet_context dest -> tame true (keeps dest) (rewrite_one fuel src dest).
Proof using Hsrc.
  intros Hd. unfold rewrite_one, NEXT_ACT, ACT. eapply tame_bind; [apply tame_acts|intros nx _].
  eapply tame_bind; [destruct Hd; eauto with tame|intros _ _].
  eapply tame_bind; [by apply tame_rewrite_frame|intros d Hk].
  destruct (quiet_keeps _ _ Hk Hd). tame_auto.
Qed.
End rewriting.

Lemma tame_rewrite_frames fuel n src dest :
  quiet_context src -> quiet_context dest ->
  tame true (fun r => keeps src r.1 /\ keeps dest r.2) (rewrite_frames fuel n src dest).
Proof.
  revert src dest. induction n as [|n IH]; intros src dest Hs Hd; simpl; [by apply tame_ret|].
  eapply tame_bind; [by apply tame_rewrite_one|intros d Hk].
  eapply tame_weaken; [apply IH; [done|by eapply quiet_keeps]| |done].
  intros r [H1 H2]. split; [done|by eapply keeps_trans].
Qed.

(** *** Unwinding reaches the end of the activations *)

(** [d] is [c] with another activation [i]. *)
Definition same_but_act (i : Z) (c d : rewrite_context) : Prop :=
  exists l, d = set_acts l c /\ zlen l = zlen (rc_acts c) /\
    forall j, j <> i -> znth l j = znth (rc_acts c) j.

Lemma same_but_act_trans i c d e :
  same_but_act i c d -> same_but_act i d e -> same_but_act i c e.
Proof.
  intros (l & -> & Hl & Hj) (l' & -> & Hl' & Hj'). exists l'. split; [done|].
  split; [by rewrite Hl'|]. intros j Hne. rewrite Hj' by done. by apply Hj.
Qed.

Lemma upd_acts_same f i ctx m d m' :
  upd_acts f i ctx m = Ret (d, m') -> same_but_act i ctx d /\ 0 <= i < zlen (rc_acts ctx).
Proof.
  intros (a & l & Ha & Hl & -> & _)%upd_acts_Ret. split; [|by eapply znth_Some_range].
  exists l. split; [done|]. split; [by eapply zupd_length|].
  intros j Hj. eapply znth_zupd_ne; [exact Hl|done].
Qed.

Lemma setup_regset_same ctx act m d m' :
  setup_regset ctx act m = Ret (d, m') -> same_but_act act ctx d /\ 0 <= act < zlen (rc_acts ctx).
Proof.
  unfold setup_regset. intros (c & m1 & H & Hr)%M_bind_Ret. apply upd_acts_same in H.
  inv_M. done.
Qed.

Lemma setup_frame_bounds_same ctx act m d m' :
  setup_frame_bounds ctx act m = Ret (d, m') -> same_but_act act ctx d.
Proof.
  unfold setup_frame_bounds. intros H. inv_M.
  match goal with H : upd_acts _ _ _ _ = _ |- _ => apply upd_acts_same in H end. naive_solver.
Qed.

Lemma bootstrap_funcentry_same ctx m d m' :
  bootstrap_first_frame_funcentry ctx m = Ret (d, m') -> same_but_act (rc_act ctx) ctx d.
Proof.
  unfold bootstrap_first_frame_funcentry, setup_callee_saved_bits, ACT.
  intros (c & m1 & H1 & H)%M_bind_Ret. apply upd_acts_same in H1 as [S1 _].
  apply M_bind_Ret in H as (a & m2 & _ & H). apply M_bind_Ret in H as (p & m3 & _ & H).
  apply upd_acts_same in H as [S2 _]. eapply same_but_act_trans; [exact S1|].
  destruct S1 as (l & -> & _). exact S2.
Qed.

Lemma pop_frame_advances ctx b m d m' :
  pop_frame ctx b m = Ret (d, m') ->
  exists c, same_but_act (rc_act ctx + 1) ctx c /\ d = set_act (rc_act ctx + 1) c /\
    0 <= rc_act ctx + 1 < zlen (rc_acts ctx).
Proof.
  unfold pop_frame. intros (c1 & m1 & H1 & H)%M_bind_Ret.
  apply setup_regset_same in H1 as [S1 Hr].
  apply M_bind_Ret in H as (c2 & m2 & H2 & H). apply upd_acts_same in H2 as [S2 _].
  apply M_bind_Ret in H as ([] & m3 & _ & H).
  apply M_bind_Ret in H as (c3 & m4 & H3 & H). rewrite M_ret_run in H. injection H as <- _.
  pose proof (same_but_act_trans _ _ _ _ S1 S2) as S12. destruct b.
  - apply setup_frame_bounds_same in H3. exists c3.
    pose proof (same_but_act_trans _ _ _ _ S12 H3) as S. split; [done|]. split; [|done].
    by destruct S as (l & -> & _).
  - inv_M. exists c3. split; [done|]. split; [|done]. by destruct S12 as (l & -> & _).
Qed.

Lemma tame_pop_frame_act ctx b :
  quiet_context ctx ->
  tame false (fun c => keeps ctx c /\ rc_act c = rc_act ctx + 1 /\ rc_act c < zlen (rc_acts ctx))
    (pop_frame ctx b).
Proof.
  intros [H1 H2] m. pose proof (tame_pop_frame ctx H1 H2 b m) as H.
  destruct (pop_frame ctx b m) as [[c m']|e| |] eqn:E; try done.
  apply pop_frame_advances in E as (c0 & _ & -> & ?). destruct H as [? ?].
  split; [|done]. split; [done|]. simpl. split; [done|lia].
Qed.

Lemma tame_unwind_loop s fuel src dest stack_size :
  quiet_context src -> quiet_context dest ->
  (s = false -> rc_act src <= zlen (rc_acts src) /\
     zlen (rc_acts src) < rc_act src + Z.of_nat fuel) ->
  tame s (fun r => keeps src r.1.1 /\ keeps dest r.1.2) (unwind_loop fuel src dest stack_size).
Proof.
  revert src dest stack_size.
  induction fuel as [|fuel IH]; intros src dest sz Hs Hd Hf.
  { destruct s; [done|]. specialize (Hf eq_refl). lia. }
  cbn [unwind_loop]. unfold ACT.
  eapply tame_bind; [by apply tame_spins, tame_pop_frame_act|intros c (Hc & Eact & Hlt)].
  set (c1 := set_num_acts _ c). set (d1 := set_act _ (set_num_acts _ dest)).
  assert (Hc1 : keeps src c1) by done. assert (Hd1 : keeps dest d1) by done.
  pose proof (quiet_keeps _ _ Hc1 Hs) as Hq1.
  eapply tame_bind; [apply tame_acts|intros a _].
  eapply tame_bind; [apply tame_spins, q_pc, Hq1|intros p _].
  eapply tame_bind; [by apply tame_lift, halts_site_by_addr|intros [st|] _]; [|done].
  eapply tame_bind; [apply tame_upd_acts_act|intros c2 [Hc2 Eact2]].
  eapply tame_bind; [by apply tame_lift, halts_site_by_id|intros [sd|] _]; [|done].
  eapply tame_bind; [apply tame_upd_acts|intros d2 Hd2].
  pose proof (quiet_keeps _ _ Hc2 Hq1) as Hq2.
  eapply tame_bind; [apply tame_spins, tame_calculate_cfa; apply Hq2|intros cfa _].
  eapply tame_bind; [apply tame_upd_acts_act|intros c3 [Hc3 Eact3]].
  pose proof (keeps_trans _ _ _ Hc1 (keeps_trans _ _ _ Hc2 Hc3)) as Hk.
  pose proof (keeps_trans _ _ _ Hd1 Hd2) as Hkd.
  destruct (first_frame (cs_id st)); [by apply tame_ret|].
  assert (Hlen : zlen (rc_acts c3) = zlen (rc_acts src))
    by (destruct Hk as [Hk _]; unfold kept in Hk; congruence).
  assert (Hact : rc_act c3 = rc_act src + 1) by (rewrite Eact3, Eact2; exact Eact).
  eapply tame_weaken; [apply IH| |done].
  - by eapply quiet_keeps.
  - by eapply quiet_keeps.
  - intros E. specialize (Hf E). lia.
  - intros r [Hr1 Hr2]. split; by eapply keeps_trans.
Qed.

Lemma tame_unwind_and_size s src dest :
  quiet_context src -> quiet_context dest ->
  (s = false -> 0 <= rc_act src <= zlen (rc_acts src) /\ zlen (rc_acts src) <= MAX_FRAMES) ->
  tame s (fun r => keeps src r.1 /\ keeps dest r.2) (unwind_and_size src dest).
Proof.
  intros Hs Hd Hlen. unfold unwind_and_size, ACT.
  eapply tame_bind; [apply tame_unwind_loop; try done; intros E; specialize (Hlen E);
    unfold unwind_fuel, MAX_FRAMES in *; lia|].
  intros [[c d] sz] [Hc Hk]. simpl in Hc, Hk.
  pose proof (quiet_keeps _ _ Hc Hs) as Hqc. pose proof (quiet_keeps _ _ Hk Hd) as Hqd.
  eapply tame_bind; [apply tame_spins, tame_pop_frame; apply Hqc|intros c1 Hc1].
  eapply (tame_bind _ any).
  { destruct (sp_needs_align _); [apply tame_lift, q_align, Hqd|by apply tame_ret]. }
  intros stack _. set (d1 := set_stack stack _). assert (Hk1 : keeps d d1) by done.
  pose proof (quiet_keeps _ _ Hk1 Hqd) as Hq1.
  eapply tame_bind; [apply tame_acts|intros a _].
  eapply tame_bind; [apply tame_spins, q_set_sp, Hq1|intros _ _].
  eapply tame_bind; [apply tame_memset|intros _ _].
  eapply tame_bind; [apply tame_spins, tame_bootstrap_funcentry; apply Hq1|intros d2 Hd2].
  apply tame_ret. simpl. split.
  - by eapply keeps_trans.
  - eapply keeps_trans; [exact Hk|]. by eapply keeps_trans.
Qed.
