(* ===== verification/Sample.v ===== *)
(** * A complete transformation, x86-64 to aarch64

    Two binaries with three frames (a function [f], its caller [g] and the
    starting function) and a source stack.  [g] holds a value in a register, a
    stack object, a pointer to it and a pointer to the register's spill slot of
    its caller's frame.  The run is used as the witness of the theorems about
    [st_rewrite_stack]. *)

From S2P Require Import Prelude Machine Bitmap LinkedList CallSite Regs RegsAArch64 RegsX86 Context Lookup Unwind Data Rewrite.

(** Call sites: in [f], in [g], and in the starting function. *)
Definition x86_sites : list call_site :=
  [CallSite 1 0x1010 0x20 2 0 0 0 0 0 u16_max;
   CallSite 2 0x1110 0x40 2 0 3 0 0 0 u16_max;
   CallSite u64_max 0x1210 0x20 2 0 0 3 0 0 u16_max].

(** Live values of [g]: a stack object, a register, a pointer to the object; a
    final record ends the section. *)
Definition x86_live : list live_value :=
  [LiveValue false true false false SM_DIRECT 8 6 (- 0x20) 8;
   LiveValue false false false false SM_REGISTER 8 3 0 0;
   LiveValue false false true false SM_INDIRECT 8 6 (- 8) 0;
   LiveValue false false false false SM_CONSTANT 8 0 0 0].

Definition x86_handle : st_handle :=
  StHandle EM_X86_64 8 regs_x86_64 properties_x86_64
    3 [UnwindAddr 0x1000 2 0; UnwindAddr 0x1100 2 0; UnwindAddr 0x1200 2 0]
    2 [UnwindLoc 6 0; UnwindLoc 16 8]
    3 x86_sites x86_sites 4 x86_live 0 [].

Definition a64_sites : list call_site :=
  [CallSite 1 0x1014 0x30 2 0 0 0 0 0 u16_max;
   CallSite 2 0x1118 0x60 2 0 3 0 1 0 u16_max;
   CallSite u64_max 0x1218 0x20 2 0 0 3 0 0 u16_max].

Definition a64_live : list live_value :=
  [LiveValue false true false false SM_DIRECT 8 29 (- 0x20) 8;
   LiveValue false false false false SM_REGISTER 8 19 0 0;
   LiveValue false false true false SM_INDIRECT 8 29 (- 0x30) 0;
   LiveValue false false false false SM_CONSTANT 8 0 0 0].

(** X20 is set to a constant. *)
Definition a64_arch_live : list arch_live_value :=
  [ArchLiveValue false 0 SM_REGISTER 8 20 0 SM_CONSTANT 0 8 0 77].

Definition a64_handle : st_handle :=
  StHandle EM_AARCH64 8 regs_aarch64 properties_aarch64
    3 [UnwindAddr 0x1000 2 0; UnwindAddr 0x1100 2 0; UnwindAddr 0x1200 2 0]
    2 [UnwindLoc 29 0; UnwindLoc 30 8]
    3 a64_sites a64_sites 4 a64_live 1 a64_arch_live.

(** The source registers: PC in [f], SP, RBP, and 42 in RBX. *)
Definition word (a v : Z) (b : gmap Z Z) : gmap Z Z := pokes a (le_bytes 8 v) b.

Definition src_regs : Z := 0x30000.
Definition dest_regs : Z := 0x31000.

Definition start_memory : memory :=
  Memory
    (word src_regs 0x1010 (word (src_regs + 8 + 8 * 7) 0x7000
    (word (src_regs + 8 + 8 * 6) 0x7010 (word (src_regs + 8 + 8 * 3) 42
    (* frame of f *)
    (word 0x7010 0x7050 (word 0x7018 0x1110
    (* frame of g: the object, the pointer to it *)
    (word 0x7030 1234 (word 0x7048 0x7034
    (word 0x7050 0x7070 (word 0x7058 0x1210 ∅))))))))))
    (fun _ => 0)
    [(0x6000, 0x2000); (0x1f000, 0x1000); (src_regs, 624); (dest_regs, 784)] 0x100000.

(** What malloc'd contexts hold: room for six activations is enough here. *)
Definition garbage_context : rewrite_context :=
  RewriteContext x86_handle 0 0 0 0 0
    (replicate 6 (Activation EMPTY_CALL_SITE 0 0 (Bitmap 0 0))) (list_init ∅ 1%positive) 0 0.

Definition sample_run : outcome (Z * memory) :=
  st_rewrite_stack 8 garbage_context (Some x86_handle) src_regs 0x8000
    (Some a64_handle) dest_regs 0x20000 start_memory.

(** What the run leaves in the destination register set and stack: PC, SP, the
    frame pointer, the link register, the two values in callee-saved registers,
    then the stack object, the pointer to it, and the caller's return address. *)
Definition observe (m : memory) : list Z :=
  (word_at 8 m) <$> [dest_regs + A64_pc; dest_regs + A64_sp; dest_regs + A64_x 29;
    dest_regs + A64_x 30; dest_regs + A64_x 19; dest_regs + A64_x 20;
    0x1ffb0; 0x1ffa0; 0x1ffd8].

(** ** Properties *)

(** On the sample, [st_rewrite_stack] returns 0: the destination thread
    starts at the function of the source's PC with the stack below the frames
    found by unwinding, its return-address register leads to the caller's
    destination call site, live values and the architecture-specific constant
    are where the destination's metadata puts them, the pointer to a stack
    object points to the same offset of the object's copy, and all memory it
    allocated is freed. *)
Theorem sample_transformation :
  exists m', sample_run = Ret (0, m') /\
    observe m' = [0x1000; 0x1ff80; 0x1ffd0; 0x1118; 42; 77; 1234; 0x1ffb4; 0x1218] /\
    m_blocks m' = m_blocks start_memory.
Proof.
  assert (E : match sample_run with
    | Ret (r, m') => r = 0 /\
        observe m' = [0x1000; 0x1ff80; 0x1ffd0; 0x1118; 42; 77; 1234; 0x1ffb4; 0x1218] /\
        m_blocks m' = m_blocks start_memory
    | _ => False
    end) by (vm_compute; repeat split).
  destruct sample_run as [[r m']|e| |]; try done.
  destruct E as (-> & ? & ?). by exists m'.
Qed.
