(* ===== verification/FramePlan.v ===== *)
(** * What rewriting a frame achieves: the plan

    [rewrite_frame] (src/rewrite.c) walks two packed lists of records, copies
    bytes, defers pointers into the stack on a linked list and resolves them
    later.  This file states, without lists of records, memory or fixups, what
    that comes to: a plan, computed from the frame's values, of the writes to
    perform and of the pointers left to the callers' frames.  The plan is shown
    to give every value of the destination frame its bytes and every pointer to
    a stack object the object's new address; that the code performs the plan is
    in Frame.v. *)

From S2P Require Import Prelude Machine CallSite Regs Context Unwind Data Rewrite.

(** ** Definitions *)

(** Writes performed in order, and the addresses they touch. *)
Definition write_all (ws : list (Z * list Z)) (m : memory) : memory :=
  foldl (fun m w => poked m w.1 w.2) m ws.

Definition touched (ws : list (Z * list Z)) (x : Z) : Prop :=
  exists w, w ∈ ws /\ span w.1 (zlen w.2) x.

(** [c] reads [a] in [m] and in every memory that differs from it in [W]. *)
Definition known {A} (W : Z -> Prop) (m : memory) (c : M A) (a : A) : Prop :=
  forall m', only_writes W m m' -> c m' = Ret (a, m').

Definition eval {A} (d : A) (c : M A) (m : memory) : A :=
  match c m with Ret (a, _) => a | _ => d end.

(** The records of a frame: each value's first record and its duplicates. *)
Abbreviation groups := (list (live_value * list live_value)).

Definition flatten (gs : groups) : list live_value := gs ≫= (fun g => g.1 :: g.2).

(** The records [gs] start at index [pos] of the section; the record after
    them, which is read as well, starts another value. *)
Definition groups_at (l : list live_value) (pos : Z) (gs : groups) : Prop :=
  exists before after last, l = before ++ flatten gs ++ last :: after /\ zlen before = pos /\
    is_duplicate last = false /\
    Forall (fun g => is_duplicate g.1 = false /\ Forall (fun v => is_duplicate v = true) g.2) gs.

(** The pairs of values of a frame, and the pairs of records copied. *)
Definition paired (sgs dgs : groups) : list (live_value * live_value) :=
  zip_with (fun s d => (s.1, d.1)) sgs dgs.

Definition moves (sgs dgs : groups) : list (live_value * live_value) :=
  concat (zip_with (fun s d => pair s.1 <$> d.1 :: d.2) sgs dgs).

Definition objects (prs : list (live_value * live_value)) : list (live_value * live_value) :=
  filter (fun p => is_alloca p.1 && is_alloca p.2 = true) prs.

(** Writing the same bytes to several places. *)
Definition put (locs : list Z) (bs : list Z) : list (Z * list Z) := (fun a => (a, bs)) <$> locs.

Definition no_location (v : live_value) : bool :=
  (lv_type v =? SM_CONSTANT) || (lv_type v =? SM_CONST_IDX).

(** What is done with a pair of values: bytes are copied, a pointer into this
    or an outer frame is deferred, one into a frame already left is dropped. *)
Inductive transfer :=
  | Copy (bs : list Z)
  | Defer (p : Z)
  | Drop.

Record plan := Plan { p_writes : list (Z * list Z); p_pending : list fixup }.

Section Plan.
Context (src dest : rewrite_context) (m : memory).

Definition with_callee (d c : Z) : list Z := d :: (if truthy c then [c] else []).

(** Where a destination value lives, the callee-saved copy included. *)
Definition dest_locs (v : live_value) (act : Z) : list Z :=
  if no_location v then [] else
  with_callee (eval NULL (get_dest_loc dest v act) m)
    (eval NULL (callee_addr dest (lv_type v) (lv_regnum v) act) m).

Definition src_bytes (v : live_value) (n : Z) : list Z :=
  eval [] (l ← get_src_loc src v (rc_act src); read_src l n) m.

Definition stack_pointer (v : live_value) : Z := eval NULL (points_to_stack src v) m.

(** The addresses of a stack object and of its copy. *)
Definition object_loc (ctx : rewrite_context) (v : live_value) : M Z :=
  get_val_loc ctx (lv_type v) (lv_regnum v) (lv_offset_or_constant v) (rc_act ctx).
Definition src_object (v : live_value) : Z := eval NULL (object_loc src v) m.
Definition dest_object (v : live_value) : Z := eval NULL (object_loc dest v) m.

Definition visible (p : Z) : bool :=
  (rc_act src =? 0) ||
  match znth (rc_acts src) (rc_act src - 1) with
  | Some prev => act_cfa prev <=? p
  | None => false
  end.

Definition transfer_of (mv : live_value * live_value) : transfer :=
  let p := stack_pointer mv.1 in
  if truthy p then (if visible p then Defer p else Drop)
  else Copy (src_bytes mv.1 (VAL_SIZE mv.2)).

(** A deferred pointer into an object, and its translation. *)
Definition inside (f : fixup) (o : live_value * live_value) : Prop :=
  src_object o.1 <= fx_src_addr f < src_object o.1 + VAL_SIZE o.1.

#[export] Instance inside_dec f o : Decision (inside f o).
Proof. unfold inside. apply _. Defined.

Definition translated (f : fixup) (o : live_value * live_value) : Z :=
  dest_object o.2 + (fx_src_addr f - src_object o.1).

Definition resolve (o : live_value * live_value) (f : fixup) : list (Z * list Z) :=
  put (dest_locs (fx_dest_loc f) (fx_act f)) (le_bytes 8 (translated f o)).

Definition plan_transfer (p : plan) (mv : live_value * live_value) : plan :=
  match transfer_of mv with
  | Copy bs => Plan (p_writes p ++ put (dest_locs mv.2 (rc_act dest)) bs) (p_pending p)
  | Defer a => Plan (p_writes p) (p_pending p ++ [Fixup a (rc_act dest) mv.2])
  | Drop => p
  end.

Definition plan_object (p : plan) (o : live_value * live_value) : plan :=
  Plan (p_writes p ++ (filter (fun f => inside f o) (p_pending p) ≫= resolve o))
    (filter (fun f => ~ inside f o) (p_pending p)).

Definition plan_move (p : plan) (mv : live_value * live_value) : plan :=
  let p := plan_transfer p mv in
  if is_alloca mv.1 then plan_object p mv else p.

(** An architecture-specific value. *)
Definition arch_loc (v : arch_live_value) : M Z :=
  get_val_loc dest (al_type v) (al_regnum v) (signed 32 (al_offset v)) (rc_act dest).
Definition arch_callee (v : arch_live_value) : M Z :=
  callee_addr dest (al_type v) (al_regnum v) (rc_act dest).
Definition arch_operand (v : arch_live_value) : M Z := get_arch_operand_loc dest v (rc_act dest).

Definition arch_value (v : arch_live_value) : outcome Z :=
  arch_result (znth inst_types (al_inst_type v)) (word_at 8 m (eval NULL (arch_loc v) m))
    (signed 64 (wrap64 (eval 0 (arch_operand v) m))).

Definition arch_writes (v : arch_live_value) : list (Z * list Z) :=
  match arch_value v with
  | Ret r => put (with_callee (eval NULL (arch_loc v) m) (eval NULL (arch_callee v) m)) (le_bytes 8 r)
  | _ => []
  end.

(** The object a pointer of this very frame points into. *)
Definition home (objs : list (live_value * live_value)) (cfa : Z) (f : fixup) :
    option (live_value * live_value) :=
  if (fx_src_addr f <=? cfa) && (fx_act f =? rc_act src)
  then snd <$> list_find (inside f) objs else None.

Definition plan_local (objs : list (live_value * live_value)) (cfa : Z) (p : plan) : plan :=
  Plan (p_writes p ++ (p_pending p ≫= (fun f => from_option (fun o => resolve o f) [] (home objs cfa f))))
    (filter (fun f => home objs cfa f = None) (p_pending p)).

(** The pointers a frame defers, and whether one leads into the frame. *)
Definition deferred (mvs : list (live_value * live_value)) : list fixup :=
  omap (fun mv => match transfer_of mv with
    | Defer a => Some (Fixup a (rc_act dest) mv.2)
    | _ => None
    end) mvs.

Definition is_local (cfa : Z) (mv : live_value * live_value) : bool :=
  match transfer_of mv with Defer a => a <? cfa | _ => false end.

Definition values_plan (sgs dgs : groups) (pending : list fixup) : plan :=
  foldl plan_move (Plan [] pending) (moves sgs dgs).

Definition frame_plan (cfa : Z) (sgs dgs : groups) (avs : list arch_live_value)
    (pending : list fixup) : plan :=
  let p := values_plan sgs dgs pending in
  let p := Plan (p_writes p ++ (avs ≫= arch_writes)) (p_pending p) in
  if existsb (is_local cfa) (moves sgs dgs) then plan_local (objects (paired sgs dgs)) cfa p else p.

End Plan.

(** ** Lemmas *)

Definition covers (W : Z -> Prop) (ws : list (Z * list Z)) : Prop := forall x, touched ws x -> W x.

Lemma touched_app ws ws' x : touched (ws ++ ws') x <-> touched ws x \/ touched ws' x.
Proof.
  unfold touched. setoid_rewrite elem_of_app. split; [intros (w & [] & ?); eauto|].
  intros [(w & ? & ?)|(w & ? & ?)]; eauto.
Qed.

Lemma covers_app W ws ws' : covers W (ws ++ ws') <-> covers W ws /\ covers W ws'.
Proof. unfold covers. setoid_rewrite touched_app. firstorder. Qed.

Lemma covers_cons W w ws :
  covers W (w :: ws) <-> (forall x, span w.1 (zlen w.2) x -> W x) /\ covers W ws.
Proof.
  rewrite (covers_app W [w] ws). apply and_iff_compat_r. unfold covers, touched.
  split; [intros H x ?; apply H; exists w; split; [by left|done]|].
  intros H x (? & ->%list_elem_of_singleton & ?). auto.
Qed.

Lemma write_all_app ws ws' m : write_all (ws ++ ws') m = write_all ws' (write_all ws m).
Proof. apply foldl_app. Qed.

Lemma write_all_only W ws m : covers W ws -> only_writes W m (write_all ws m).
Proof.
  revert m. induction ws as [|w ws IH]; intros m Hc; [reflexivity|].
  apply covers_cons in Hc as [Hw Hc]. cbn. transitivity (poked m w.1 w.2); [|by apply IH].
  eapply only_writes_weaken; [apply poked_only_writes|exact Hw].
Qed.

Lemma write_all_touched ws m : only_writes (touched ws) m (write_all ws m).
Proof. apply write_all_only. by intros x. Qed.

(** What pairwise separate writes leave in memory. *)
Definition separate (w w' : Z * list Z) : Prop := apart w.1 (zlen w.2) w'.1 (zlen w'.2).

Lemma write_all_holds ws m w :
  ForallOrdPairs separate ws -> w ∈ ws -> Forall (fun b => 0 <= b < 256) w.2 ->
  peek (write_all ws m) <$> seqZ w.1 (zlen w.2) = w.2.
Proof.
  intros Hs. revert m. induction Hs as [|v ws Hv Hs IH]; intros m Hin Hb.
  { by apply elem_of_nil in Hin. }
  change (write_all (v :: ws) m) with (write_all ws (poked m v.1 v.2)).
  apply elem_of_cons in Hin as [->|Hin].
  - rewrite (only_writes_peeks _ _ _ _ _ (write_all_touched ws _)).
    + by apply peeks_poked.
    + intros x Hx (w & Hw & Hx'). pose proof (proj1 (Forall_forall _ _) Hv w Hw) as Ha.
      unfold separate, apart, span in *. lia.
  - by apply IH.
Qed.

Lemma separate_app_l (ws ws' : list (Z * list Z)) :
  ForallOrdPairs separate (ws ++ ws') -> ForallOrdPairs separate ws.
Proof.
  induction ws as [|w ws IH]; intros Hs; [constructor|]. inversion Hs as [|? ? Hw Hs']; subst.
  constructor; [by apply Forall_app in Hw as [? _]|by apply IH].
Qed.

(** *** What the plan achieves *)

Section Achieved.
Context (src dest : rewrite_context) (m : memory) (cfa : Z).
Context (sgs dgs : groups) (pending : list fixup).

#[local] Abbreviation mvs := (moves sgs dgs).
#[local] Abbreviation objs := (objects (paired sgs dgs)).

(** The frame's objects are separate, lie in the frame and have one record
    each. *)
Record objects_ok : Prop := ObjectsOk {
  ob_moves : Forall (fun mv => is_alloca mv.1 = true -> is_alloca mv.2 = true /\ mv ∈ paired sgs dgs) mvs;
  ob_below : Forall (fun o => src_object src m o.1 + VAL_SIZE o.1 <= cfa) objs;
  ob_separate : ForallOrdPairs (fun o o' =>
    apart (src_object src m o.1) (VAL_SIZE o.1) (src_object src m o'.1) (VAL_SIZE o'.1)) objs
}.

Definition outside (f : fixup) : Prop := Forall (fun o => ~ inside src m f o) objs.

#[export] Instance outside_dec f : Decision (outside f).
Proof. unfold outside. apply _. Defined.

Lemma objects_elem o : o ∈ objs <-> o ∈ paired sgs dgs /\ is_alloca o.1 = true /\ is_alloca o.2 = true.
Proof. unfold objects. rewrite list_elem_of_filter, andb_true_iff. tauto. Qed.

Lemma paired_moves o : o ∈ paired sgs dgs -> o ∈ mvs.
Proof.
  unfold paired, moves. revert dgs. induction sgs as [|[s sds] sgs' IH]; intros [|[d dds] dgs'];
    cbn; try (by intros ?%elem_of_nil). intros [->|Hin]%elem_of_cons; [left|].
  right. apply elem_of_app. right. by apply IH.
Qed.

Lemma not_outside f o : o ∈ objs -> inside src m f o -> ~ outside f.
Proof. intros Ho Hi Hout. unfold outside in Hout. rewrite Forall_forall in Hout. by apply (Hout o). Qed.

Lemma one_object f o o' : objects_ok -> o ∈ objs -> o' ∈ objs ->
  inside src m f o -> inside src m f o' -> o = o'.
Proof.
  intros [_ _ Hs] Ho Ho' [] []. destruct (ForallOrdPairs_In Hs o o') as [->|[Ha|Ha]];
    try (by apply list_elem_of_In); [done|unfold apart in Ha; lia..].
Qed.

(** What has been achieved once the values [ds] are transferred and the pointers
    to the objects among [os] resolved. *)
Record achieved (ds os : list (live_value * live_value)) (p : plan) : Prop := Achieved {
  ac_kept : filter outside (p_pending p) = filter outside (pending ++ deferred src dest m ds);
  ac_resolved : forall f, f ∈ pending ++ deferred src dest m ds ->
    f ∈ p_pending p \/ exists o, o ∈ objs /\ inside src m f o /\ resolve src dest m o f ⊆ p_writes p;
  ac_waiting : forall f, f ∈ p_pending p ->
    f ∈ deferred src dest m ds \/ forall o, o ∈ os -> is_alloca o.1 = true -> ~ inside src m f o;
  ac_copied : forall mv bs, mv ∈ ds -> transfer_of src m mv = Copy bs ->
    put (dest_locs dest m mv.2 (rc_act dest)) bs ⊆ p_writes p
}.

Lemma achieved_start : achieved [] [] (Plan [] pending).
Proof.
  split; cbn; rewrite ?app_nil_r; [done|by left| |by intros ? ? ?%elem_of_nil].
  intros f _. right. by intros o ?%elem_of_nil.
Qed.

Lemma deferred_snoc ds mv :
  deferred src dest m (ds ++ [mv]) = deferred src dest m ds ++
    match transfer_of src m mv with Defer a => [Fixup a (rc_act dest) mv.2] | _ => [] end.
Proof.
  unfold deferred. rewrite omap_app. cbn. by destruct (transfer_of src m mv).
Qed.

Lemma achieved_transfer ds os p mv :
  achieved ds os p -> achieved (ds ++ [mv]) os (plan_transfer src dest m p mv).
Proof.
  intros [Hk Hr Hw Hc]. unfold plan_transfer.
  assert (Hc' : forall ws, p_writes p ⊆ ws ->
    (forall bs, transfer_of src m mv = Copy bs -> put (dest_locs dest m mv.2 (rc_act dest)) bs ⊆ ws) ->
    forall mv' bs, mv' ∈ ds ++ [mv] -> transfer_of src m mv' = Copy bs ->
    put (dest_locs dest m mv'.2 (rc_act dest)) bs ⊆ ws).
  { intros ws Hsub Hmv mv' bs [Hin| ->%list_elem_of_singleton]%elem_of_app Ht; [|by apply Hmv].
    etransitivity; [by apply Hc|done]. }
  pose proof (deferred_snoc ds mv) as Hd.
  destruct (transfer_of src m mv) as [bs|a|] eqn:Ht; rewrite ?app_nil_r in Hd;
    split; cbn [p_writes p_pending]; rewrite ?Hd; try done; try (apply Hc'; set_solver).
  - intros f Hf. destruct (Hr f Hf) as [|(o & ? & ? & ?)]; [by left|right]. exists o. set_solver.
  - rewrite app_assoc, !filter_app. by rewrite Hk, filter_app.
  - intros f. rewrite app_assoc. intros [Hf|Hf]%elem_of_app.
    + destruct (Hr f Hf) as [|Ho]; [left; set_solver|by right].
    + left. set_solver.
  - intros f [Hf|Hf]%elem_of_app; [|left; set_solver]. destruct (Hw f Hf); [left; set_solver|by right].
Qed.

Lemma filter_twice {A} (P Q : A -> Prop) `{!forall x, Decision (P x), !forall x, Decision (Q x)}
    (l : list A) : (forall x, P x -> Q x) -> filter P (filter Q l) = filter P l.
Proof.
  intros Hpq. induction l as [|x l IH]; [done|]. rewrite (filter_cons Q), (filter_cons P x l).
  destruct (decide (Q x)) as [|Hq].
  - rewrite filter_cons. by rewrite IH.
  - rewrite decide_False by (intros ?; by apply Hq, Hpq). done.
Qed.

Lemma achieved_object ds os p mv :
  achieved ds os p -> mv ∈ objs -> achieved ds (os ++ [mv]) (plan_object src dest m p mv).
Proof.
  intros [Hk Hr Hw Hc] Hmv. split; cbn [plan_object p_writes p_pending].
  - rewrite <- Hk. apply filter_twice. intros f Hout Hin. by apply (not_outside f mv).
  - intros f Hf. destruct (Hr f Hf) as [Hp|(o & ? & ? & ?)].
    + destruct (decide (inside src m f mv)) as [Hin|Hin].
      * right. exists mv. split_and!; [done..|]. intros w Hw'. apply elem_of_app. right.
        apply list_elem_of_bind. exists f. split; [done|]. by apply list_elem_of_filter.
      * left. by apply list_elem_of_filter.
    + right. exists o. set_solver.
  - intros f [Hin Hf]%list_elem_of_filter. destruct (Hw f Hf) as [|Ho]; [by left|right].
    intros o [?| ->%list_elem_of_singleton]%elem_of_app; [by apply Ho|done].
  - intros mv' bs Hin Ht. specialize (Hc mv' bs Hin Ht). set_solver.
Qed.

Lemma achieved_values : objects_ok -> achieved mvs mvs (values_plan src dest m sgs dgs pending).
Proof.
  intros [Hob _ _]. unfold values_plan.
  assert (Forall (fun mv => is_alloca mv.1 = true -> mv ∈ objs) mvs) as Hin.
  { eapply Forall_impl; [exact Hob|]. intros mv H Ha. apply objects_elem. naive_solver. }
  clear Hob. induction mvs as [|mv l IH] using rev_ind; [apply achieved_start|].
  apply Forall_app in Hin as [Hin [Hmv _]%Forall_cons]. rewrite foldl_app. cbn [foldl].
  pose proof (achieved_transfer _ _ _ mv (IH Hin)) as Ht. unfold plan_move.
  destruct (is_alloca mv.1) eqn:Ha; [by apply achieved_object; [|apply Hmv]|].
  destruct Ht as [Hk Hr Hw Hc]. split; [done..| |done]. intros f Hf.
  destruct (Hw f Hf) as [|Ho]; [by left|right].
  intros o [?| ->%list_elem_of_singleton]%elem_of_app; [by apply Ho|by rewrite Ha].
Qed.

#[local] Abbreviation fixups := (pending ++ deferred src dest m mvs).
#[local] Abbreviation p0 := (values_plan src dest m sgs dgs pending).
#[local] Abbreviation some_local := (existsb (is_local src m cfa) mvs).

(** A pointer into an object that is still pending is one of the frame's own,
    deferred after its object; it makes the frame need local fixups. *)
Lemma pending_inside f o : objects_ok -> f ∈ p_pending p0 -> o ∈ objs -> inside src m f o ->
  fx_act f = rc_act dest /\ fx_src_addr f < cfa /\ some_local = true.
Proof.
  intros Hob Hf Ho Hin. pose proof (ob_below Hob) as Hb. rewrite Forall_forall in Hb.
  specialize (Hb o Ho). assert (fx_src_addr f < cfa) as Hlt by (destruct Hin; lia).
  destruct (ac_waiting _ _ _ (achieved_values Hob) f Hf) as [Hd|Hn].
  - unfold deferred in Hd. apply list_elem_of_omap in Hd as (mv & Hmv & Hfx).
    destruct (transfer_of src m mv) as [| |] eqn:Ht; try done. injection Hfx as <-.
    split_and!; [done..|]. apply existsb_exists. exists mv. split; [by apply list_elem_of_In|].
    unfold is_local. rewrite Ht. by apply Z.ltb_lt.
  - apply objects_elem in Ho as (Hpr & Ha & _). by destruct (Hn o (paired_moves o Hpr) Ha).
Qed.

Lemma pending_fixups f : objects_ok -> f ∈ p_pending p0 -> outside f -> f ∈ fixups.
Proof.
  intros Hob Hf Hout. enough (f ∈ filter outside fixups) as [_ ?]%list_elem_of_filter by done.
  rewrite <- (ac_kept _ _ _ (achieved_values Hob)). by apply list_elem_of_filter.
Qed.

Lemma inside_dec_all f : outside f \/ exists o, o ∈ objs /\ inside src m f o.
Proof.
  destruct (decide (outside f)) as [|Hn]; [by left|right].
  apply not_Forall_Exists, Exists_exists in Hn as (o & Ho & Hi); [|apply _].
  exists o. split; [done|]. by apply dec_stable.
Qed.

Lemma home_inside f o : objects_ok -> f ∈ p_pending p0 -> rc_act src = rc_act dest ->
  o ∈ objs -> inside src m f o -> home src m objs cfa f = Some o.
Proof.
  intros Hob Hf Hact Ho Hin. destruct (pending_inside f o Hob Hf Ho Hin) as (Ha & Hlt & _).
  unfold home. rewrite (proj2 (Z.leb_le _ _)), Ha, Hact, Z.eqb_refl by lia. cbn [andb].
  destruct (list_find (inside src m f) objs) as [[i o']|] eqn:E.
  - apply list_find_Some in E as (Hi & Hin' & _). cbn. f_equal.
    apply (one_object f); try done. by eapply list_elem_of_lookup_2.
  - apply list_find_None in E. rewrite Forall_forall in E. by destruct (E o Ho).
Qed.

Lemma home_outside f : outside f -> home src m objs cfa f = None.
Proof.
  intros Hout. unfold home. destruct (_ && _); [|done].
  destruct (list_find (inside src m f) objs) as [[i o']|] eqn:E; [|done].
  apply list_find_Some in E as (Hi & Hin' & _).
  destruct (not_outside f o'); [by eapply list_elem_of_lookup_2|done..].
Qed.

Lemma filter_ext_in {A} (P Q : A -> Prop) `{!forall x, Decision (P x), !forall x, Decision (Q x)}
    (l : list A) : (forall x, x ∈ l -> P x <-> Q x) -> filter P l = filter Q l.
Proof.
  induction l as [|x l IH]; intros Hpq; [done|]. rewrite !filter_cons, IH by (intros; apply Hpq; by right).
  specialize (Hpq x ltac:(left)). repeat case_decide; tauto.
Qed.

Lemma filter_all {A} (P : A -> Prop) `{!forall x, Decision (P x)} (l : list A) :
  (forall x, x ∈ l -> P x) -> filter P l = l.
Proof.
  intros Hp. induction l as [|x l IH]; [done|]. rewrite filter_cons, decide_True by (apply Hp; left).
  f_equal. apply IH. intros; apply Hp. by right.
Qed.

Lemma frame_plan_achieved avs :
  objects_ok -> rc_act src = rc_act dest ->
  let p := frame_plan src dest m cfa sgs dgs avs pending in
  p_pending p = filter outside fixups /\
  (forall f o, f ∈ fixups -> o ∈ objs -> inside src m f o -> resolve src dest m o f ⊆ p_writes p) /\
  (forall mv bs, mv ∈ mvs -> transfer_of src m mv = Copy bs ->
     put (dest_locs dest m mv.2 (rc_act dest)) bs ⊆ p_writes p) /\
  (forall v, v ∈ avs -> arch_writes dest m v ⊆ p_writes p).
Proof.
  intros Hob Hact p. pose proof (achieved_values Hob) as [Hk Hr Hw Hc].
  assert (forall v, v ∈ avs -> arch_writes dest m v ⊆ avs ≫= arch_writes dest m) as Hav.
  { intros v Hv w Hwv. apply list_elem_of_bind. by exists v. }
  assert (Hres : forall f o, f ∈ fixups -> o ∈ objs -> inside src m f o ->
    f ∈ p_pending p0 \/ resolve src dest m o f ⊆ p_writes p0).
  { intros f o Hf Ho Hin. destruct (Hr f Hf) as [|(o' & Ho' & Hin' & Hsub)]; [by left|right].
    by rewrite (one_object f o o' Hob Ho Ho' Hin Hin'). }
  unfold p, frame_plan. destruct some_local eqn:Eloc; cbn [plan_local p_writes p_pending].
  - split_and!.
    + rewrite <- Hk. apply filter_ext_in. intros f Hf. split; [|apply home_outside].
      intros Hh. destruct (inside_dec_all f) as [|(o & Ho & Hin)]; [done|].
      by rewrite (home_inside f o) in Hh.
    + intros f o Hf Ho Hin. destruct (Hres f o Hf Ho Hin) as [Hp|Hsub]; [|set_solver].
      intros w Hww. apply elem_of_app. right. apply list_elem_of_bind. exists f. split; [|done].
      by rewrite (home_inside f o).
    + intros mv bs Hmv Ht. specialize (Hc mv bs Hmv Ht). set_solver.
    + intros v Hv. specialize (Hav v Hv). set_solver.
  - assert (Hall : forall f, f ∈ p_pending p0 -> outside f).
    { intros f Hf. destruct (inside_dec_all f) as [|(o & Ho & Hin)]; [done|].
      destruct (pending_inside f o Hob Hf Ho Hin) as (_ & _ & ?). congruence. }
    split_and!.
    + rewrite <- Hk. symmetry. by apply filter_all.
    + intros f o Hf Ho Hin. destruct (Hres f o Hf Ho Hin) as [Hp|Hsub]; [|set_solver].
      by destruct (not_outside f o Ho Hin (Hall f Hp)).
    + intros mv bs Hmv Ht. specialize (Hc mv bs Hmv Ht). set_solver.
    + intros v Hv. specialize (Hav v Hv). set_solver.
Qed.

End Achieved.
