(* ===== verification/Frame.v ===== *)
(** * Rewriting a frame follows the plan (src/rewrite.c)

    [rewrite_val], its loops over records and duplicates, the fixups and
    [rewrite_frame] are shown to perform exactly the writes of the frame's plan
    (FramePlan.v) and to leave exactly its pending pointers on the list. *)

From S2P Require Import Prelude Machine Bitmap LinkedList CallSite Regs RegsAArch64 RegsX86 Context Unwind Data Rewrite Sample FramePlan.

(** ** Lemmas *)

Lemma known_eval {A} W m (c : M A) a d : known W m c a -> eval d c m = a.
Proof. intros H. unfold eval. by rewrite (H m (only_writes_refl W m)). Qed.

Lemma known_step {A B} W m (c : M A) (f : A -> M B) a m' :
  known W m c a -> only_writes W m m' -> (c ≫= f) m' = f a m'.
Proof. intros H Hw. by rewrite (M_bind_step _ _ _ _ _ (H m' Hw)). Qed.

Lemma store_poked a bs m : valid m a (zlen bs) = true -> store_bytes a bs m = Ret (tt, poked m a bs).
Proof. intros. by apply store_bytes_Ret. Qed.

(** The destination's list of fixups plays no part in locations. *)
Lemma callee_saved_walk_pointers l ctx r n m :
  callee_saved_walk (set_stack_pointers l ctx) r n m = callee_saved_walk ctx r n m.
Proof.
  revert m. induction n as [|n IH]; intros m; [done|]. cbn [callee_saved_walk].
  unfold mbind, M_bind. change (acts (set_stack_pointers l ctx)) with (acts ctx).
  destruct (acts ctx (Z.of_nat n) m) as [[a m1]|e| |]; [|done..].
  destruct (bitmap_is_set (act_callee_saved a) r m1) as [[[] m2]|e| |]; [done| |done..]. apply IH.
Qed.

Lemma callee_addr_pointers l ctx t r act m :
  callee_addr (set_stack_pointers l ctx) t r act m = callee_addr ctx t r act m.
Proof.
  unfold callee_addr, callee_saved_loc. change (PROPS (set_stack_pointers l ctx)) with (PROPS ctx).
  destruct (_ && _); [|done]. destruct (act <=? 0); [done|]. apply callee_saved_walk_pointers.
Qed.

(** *** The records of a frame *)

(** A value's duplicates, and the end of them. *)
Definition duplicates_at (l : list live_value) (pos : Z) (ds : list live_value) : Prop :=
  (forall k d, ds !! k = Some d -> znth l (pos + Z.of_nat k) = Some d /\ is_duplicate d = true) /\
  exists last, znth l (pos + zlen ds) = Some last /\ is_duplicate last = false.

Lemma znth_app_l {A} (l1 l2 : list A) pos k :
  zlen l1 = pos -> 0 <= k -> znth (l1 ++ l2) (pos + k) = znth l2 k.
Proof.
  unfold znth, zlen. intros <- Hk. rewrite !decide_True by lia.
  rewrite lookup_app_r by lia. f_equal. lia.
Qed.

Lemma groups_at_cons l pos v ds gs :
  groups_at l pos ((v, ds) :: gs) ->
  znth l pos = Some v /\ duplicates_at l (pos + 1) ds /\ groups_at l (pos + 1 + zlen ds) gs.
Proof.
  intros (bef & aft & lst & -> & Hpos & Hlst & Hgs). apply Forall_cons in Hgs as [[_ Hds] Hgs].
  cbn [flatten mbind list_bind fst snd] in *. fold (flatten gs) in *.
  assert (zlen (bef ++ [v]) = pos + 1) as H1 by (unfold zlen in *; rewrite length_app; cbn; lia).
  assert (zlen (bef ++ v :: ds) = pos + 1 + zlen ds) as H2
    by (unfold zlen in *; rewrite length_app; cbn; lia).
  assert (bef ++ ((v :: ds) ++ flatten gs) ++ lst :: aft =
    (bef ++ [v]) ++ ds ++ flatten gs ++ lst :: aft) as E1 by (by rewrite <- !app_assoc).
  assert (bef ++ ((v :: ds) ++ flatten gs) ++ lst :: aft =
    (bef ++ v :: ds) ++ flatten gs ++ lst :: aft) as E2 by (by rewrite <- !app_assoc).
  split; [|split; [split|]].
  - rewrite <- (Z.add_0_r pos), (znth_app_l bef _ pos 0) by done. done.
  - intros k d Hk. rewrite E1, znth_app_l by (done || lia). split; [|by eapply Forall_lookup_1 in Hds].
    apply znth_lookup. split; [lia|]. rewrite Nat2Z.id.
    by apply lookup_app_l_Some.
  - rewrite E2, <- (Z.add_0_r (pos + 1 + zlen ds)), znth_app_l by (done || lia).
    destruct gs as [|[v' ds'] gs]; [by exists lst|]. exists v'. split; [done|].
    by apply Forall_cons in Hgs as [[? _] _].
  - exists (bef ++ v :: ds), aft, lst. by rewrite E2.
Qed.

Lemma groups_flatten gs : (length gs <= length (flatten gs))%nat.
Proof.
  induction gs as [|[v ds] gs IH]; [done|]. change (flatten ((v, ds) :: gs)) with (v :: ds ++ flatten gs).
  cbn [length]. rewrite length_app. lia.
Qed.

Lemma live_val_at h i off v m :
  znth (h_live_vals h) (i + off) = Some v -> zlen (h_live_vals h) < 2 ^ 64 ->
  live_val h i off m = Ret (v, m).
Proof.
  intros Hv Hn. pose proof (znth_Some_range _ _ _ Hv). unfold live_val.
  by rewrite wrap_small, Hv by lia.
Qed.

Lemma duplicates_at_cons l pos d ds :
  duplicates_at l pos (d :: ds) ->
  znth l pos = Some d /\ is_duplicate d = true /\ duplicates_at l (pos + 1) ds.
Proof.
  intros [Hk (lst & Hl & ?)]. destruct (Hk 0%nat d eq_refl) as [H0 ?]. rewrite Z.add_0_r in H0.
  split_and!; [done..|]. split.
  - intros k d' Hd. destruct (Hk (S k) d' Hd) as [E ?]. split; [|done].
    rewrite <- E. f_equal. lia.
  - exists lst. split; [|done]. rewrite <- Hl. f_equal. unfold zlen. cbn. lia.
Qed.

Lemma duplicates_at_nil l pos :
  duplicates_at l pos [] -> exists v, znth l pos = Some v /\ is_duplicate v = false.
Proof. intros [_ (v & Hv & ?)]. exists v. by rewrite Z.add_0_r in Hv. Qed.

Lemma duplicates_at_length l pos ds : 0 <= pos -> duplicates_at l pos ds -> (length ds < S (length l))%nat.
Proof. intros ? [_ (v & Hv%znth_Some_range & _)]. unfold zlen in *. lia. Qed.

Lemma skip_duplicates_exec h off ds m : zlen (h_live_vals h) < 2 ^ 64 ->
  forall fuel i, duplicates_at (h_live_vals h) (i + 1 + off) ds -> (length ds < fuel)%nat ->
  skip_duplicates h off fuel i m = Ret (i + zlen ds, m).
Proof.
  intros Hn. induction ds as [|d ds IH]; intros [|fuel] i Hd Hf; cbn in Hf; try lia;
    cbn [skip_duplicates].
  - apply duplicates_at_nil in Hd as (v & Hv & Hd).
    rewrite (M_bind_step _ _ _ _ _ (live_val_at _ _ _ _ m Hv Hn)), Hd. unfold zlen. cbn.
    by rewrite Z.add_0_r.
  - apply duplicates_at_cons in Hd as (Hv & Hdup & Hd).
    rewrite (M_bind_step _ _ _ _ _ (live_val_at _ _ _ _ m Hv Hn)), Hdup.
    rewrite IH; [|by replace (i + 1 + 1 + off) with (i + 1 + off + 1) by lia|lia].
    do 2 f_equal. unfold zlen. cbn. lia.
Qed.

(** *** Single values *)

Section Value.
Context (src dest : rewrite_context) (m : memory) (W : Z -> Prop).

(** The locations of a value are known and hold [n] bytes each. *)
Definition locs_ok (v : live_value) (act n : Z) : Prop :=
  no_location v = true \/
  known W m (get_dest_loc dest v act) (eval NULL (get_dest_loc dest v act) m) /\
  known W m (callee_addr dest (lv_type v) (lv_regnum v) act)
    (eval NULL (callee_addr dest (lv_type v) (lv_regnum v) act) m) /\
  Forall (fun a => valid m a n = true) (dest_locs dest m v act).

(** The two stores of [put_val], [put_val_data] and [apply_arch_operation]. *)
Lemma store_twice d c bs m' (again : M (list Z)) :
  only_writes W m m' -> covers W (put (with_callee d c) bs) ->
  Forall (fun a => valid m a (zlen bs) = true) (with_callee d c) ->
  (c <> NULL -> again (poked m' d bs) = Ret (bs, poked m' d bs)) ->
  (store_bytes d bs;; if truthy c then bs' ← again; store_bytes c bs' else mret tt) m' =
    Ret (tt, write_all (put (with_callee d c) bs) m').
Proof.
  unfold with_callee. intros Hw Hc Hv Ha. apply Forall_cons in Hv as [Hd Hv].
  rewrite <- (only_writes_valid _ _ _ _ _ Hw) in Hd.
  rewrite (M_bind_step _ _ _ _ _ (store_poked _ _ _ Hd)). destruct (truthy c) eqn:E; [|done].
  apply truthy_true in E. apply Forall_cons in Hv as [Hv _].
  rewrite (M_bind_step _ _ _ _ _ (Ha E)). cbn. apply store_poked.
  rewrite (only_writes_valid _ _ _ _ _ (poked_only_writes m' d bs)).
  by rewrite (only_writes_valid _ _ _ _ _ Hw).
Qed.

Lemma le_bytes_poked a r m' :
  le_bytes 8 (word_at 8 (poked m' a (le_bytes 8 r)) a) = le_bytes 8 r.
Proof.
  rewrite le_bytes_word_at. apply (peeks_poked m' a (le_bytes 8 r)), le_bytes_range.
Qed.

Lemma store_word_twice d c r m' :
  only_writes W m m' -> Forall (fun a => valid m a 8 = true) (with_callee d c) ->
  (store64 d r;; if truthy c then v ← load64 d; store64 c v else mret tt) m' =
    Ret (tt, write_all (put (with_callee d c) (le_bytes 8 r)) m').
Proof.
  unfold with_callee. intros Hw Hv. apply Forall_cons in Hv as [Hd Hv].
  rewrite <- (only_writes_valid _ _ _ _ _ Hw) in Hd.
  rewrite (M_bind_step _ _ _ _ _ (store_run 8 d r m' Hd)). destruct (truthy c); [|done].
  apply Forall_cons in Hv as [Hv _]. rewrite <- (only_writes_valid _ _ _ _ _ Hw) in Hv.
  pose proof (only_writes_valid _ _ _ d 8 (poked_only_writes m' d (le_bytes 8 r))) as E1.
  pose proof (only_writes_valid _ _ _ c 8 (poked_only_writes m' d (le_bytes 8 r))) as E2.
  rewrite Hd in E1. rewrite Hv in E2. rewrite (M_bind_step _ _ _ _ _ (load_run 8 d _ E1)).
  rewrite (store_run 8 c _ _ E2). by rewrite le_bytes_poked.
Qed.

Lemma put_val_exec sv dv sl bs m' :
  rc_act src = rc_act dest -> locs_ok dv (rc_act dest) (VAL_SIZE dv) ->
  0 <= VAL_SIZE dv -> covers W (put (dest_locs dest m dv (rc_act dest)) bs) ->
  (no_location dv = false ->
     known W m (get_src_loc src sv (rc_act src)) sl /\ known W m (read_src sl (VAL_SIZE dv)) bs) ->
  only_writes W m m' -> forall l,
  put_val src sv (set_stack_pointers l dest) dv m' =
    Ret (tt, write_all (put (dest_locs dest m dv (rc_act dest)) bs) m').
Proof.
  intros Hact Hl Hn Hc Hs Hw l. unfold put_val, locs_ok, dest_locs in *. fold (no_location dv).
  destruct (no_location dv); [done|]. destruct Hs as [Hsl Hbs]; [done|].
  destruct Hl as [|(Hd & Hk & Hv)]; [done|].
  rewrite (known_step _ _ _ _ _ _ Hsl Hw), Hact.
  change (get_dest_loc (set_stack_pointers l dest)) with (get_dest_loc dest).
  rewrite (known_step _ _ _ _ _ _ Hd Hw).
  rewrite (M_bind_step _ _ _ _ _ (eq_trans (callee_addr_pointers _ _ _ _ _ _) (Hk m' Hw))).
  rewrite (known_step _ _ _ _ _ _ Hbs Hw).
  rewrite <- (read_src_length _ _ _ _ _ Hn (Hbs m' Hw)) in Hv.
  apply (store_twice _ _ _ _ (read_src sl (VAL_SIZE dv))); try done.
  intros _. apply Hbs. transitivity m'; [done|].
  apply covers_cons in Hc as [Hc _]. eapply only_writes_weaken; [apply poked_only_writes|exact Hc].
Qed.

Lemma put_val_data_exec v act x m' l :
  locs_ok v act 8 -> covers W (put (dest_locs dest m v act) (le_bytes 8 x)) ->
  only_writes W m m' ->
  put_val_data (set_stack_pointers l dest) v act x m' =
    Ret (tt, write_all (put (dest_locs dest m v act) (le_bytes 8 x)) m').
Proof.
  intros Hl Hc Hw. unfold put_val_data, locs_ok, dest_locs in *. fold (no_location v).
  destruct (no_location v); [done|]. destruct Hl as [|(Hd & Hk & Hv)]; [done|].
  change (get_dest_loc (set_stack_pointers l dest)) with (get_dest_loc dest).
  rewrite (known_step _ _ _ _ _ _ Hd Hw).
  rewrite (M_bind_step _ _ _ _ _ (eq_trans (callee_addr_pointers _ _ _ _ _ _) (Hk m' Hw))).
  exact (store_twice _ _ _ _ (mret (le_bytes 8 x)) Hw Hc Hv (fun _ => eq_refl)).
Qed.

End Value.

(** *** Objects and the pointers into them *)

Section Objects.
Context (src dest : rewrite_context) (m : memory) (W : Z -> Prop).

Definition fixup_ok (f : fixup) : Prop := locs_ok dest m W (fx_dest_loc f) (fx_act f) 8.

Record object_ok (o : live_value * live_value) : Prop := ObjectOk {
  oo_src : known W m (object_loc src o.1) (src_object src m o.1);
  oo_dest : known W m (object_loc dest o.2) (dest_object dest m o.2);
  oo_src_range : 0 <= src_object src m o.1 /\ src_object src m o.1 + VAL_SIZE o.1 < 2 ^ 64;
  oo_dest_range : 0 < dest_object dest m o.2 /\ dest_object dest m o.2 + VAL_SIZE o.1 < 2 ^ 64;
  oo_size : 0 <= VAL_SIZE o.1
}.

Lemma points_to_data_exec o f m' l :
  object_ok o -> only_writes W m m' ->
  points_to_data src o.1 (set_stack_pointers l dest) o.2 (fx_src_addr f) m' =
    Ret (if decide (inside src m f o) then translated src dest m f o else NULL, m').
Proof.
  intros [Hs Hd [??] [??] ?] Hw. unfold points_to_data. fold (object_loc src o.1).
  rewrite (known_step _ _ _ _ _ _ Hs Hw), ptr_add_small by lia.
  change (get_val_loc (set_stack_pointers l dest) (lv_type o.2) (lv_regnum o.2)
    (lv_offset_or_constant o.2) (rc_act (set_stack_pointers l dest))) with (object_loc dest o.2).
  unfold inside. destruct (Z.leb_spec (src_object src m o.1) (fx_src_addr f)); cbn [andb];
    [destruct (Z.ltb_spec (fx_src_addr f) (src_object src m o.1 + VAL_SIZE o.1))|].
  - rewrite (known_step _ _ _ _ _ _ Hd Hw), decide_True by lia. unfold translated.
    by rewrite ptr_add_small by lia.
  - by rewrite decide_False by lia.
  - by rewrite decide_False by lia.
Qed.

Lemma translated_pos o f : object_ok o -> inside src m f o -> translated src dest m f o <> NULL.
Proof. intros [_ _ _ [? _] _] [? _]. unfold translated. lia. Qed.

(** Moving along the list, and removing an element. *)
Lemma next_fixup (A B : list (positive * fixup)) x :
  (A ++ x :: B).*1 !! S (length A) = ((A ++ [x]) ++ B).*1 !! length (A ++ [x]).
Proof. rewrite <- app_assoc, length_app. cbn. by rewrite Nat.add_1_r. Qed.

Lemma fixups_remove_exec (l : clist fixup) A p f B m' :
  list_rep l (A ++ (p, f) :: B) ->
  exists l', fixups_remove (set_stack_pointers l dest) p m' =
      Ret (((A ++ B).*1 !! length A, set_stack_pointers l' dest), m') /\ list_rep l' (A ++ B).
Proof.
  intros Hl. destruct (list_remove_rep l _ (length A) p f Hl (list_lookup_middle _ _ _ _ eq_refl))
    as (l' & Hr & Hl' & _).
  rewrite delete_middle in Hl'. exists l'. split; [|done]. unfold fixups_remove.
  change (rc_stack_pointers (set_stack_pointers l dest)) with l. rewrite Hr.
  rewrite (M_bind_step _ _ m' (_, l') m' eq_refl). do 3 f_equal.
  rewrite !fmap_app, !lookup_app_r, !length_fmap by (rewrite length_fmap; lia).
  by replace (S (length A) - length A)%nat with 1%nat by lia; rewrite Nat.sub_diag.
Qed.

Lemma resolve_exec o B : forall fuel A l m',
  object_ok o -> list_rep l (A ++ B) -> (length B <= fuel)%nat -> Forall fixup_ok B.*2 ->
  covers W (filter (fun f => inside src m f o) B.*2 ≫= resolve src dest m o) ->
  only_writes W m m' ->
  exists l', resolve_fixups src o.1 (set_stack_pointers l dest) o.2 fuel
      ((A ++ B).*1 !! length A) m' =
      Ret (set_stack_pointers l' dest,
        write_all (filter (fun f => inside src m f o) B.*2 ≫= resolve src dest m o) m') /\
    list_rep l' (A ++ filter (fun x => ~ inside src m x.2 o) B).
Proof.
  induction B as [|[p f] B IH]; intros fuel A l m' Ho Hl Hf Hok Hc Hw.
  { exists l. rewrite filter_nil, !app_nil_r in *.
    rewrite lookup_ge_None_2 by (rewrite length_fmap; lia). by destruct fuel. }
  destruct fuel as [|fuel]; [cbn in Hf; lia|]. cbn in Hf.
  rewrite !fmap_app, lookup_app_r, length_fmap, Nat.sub_diag by (rewrite length_fmap; lia).
  cbn [fmap list_fmap fst lookup list_lookup resolve_fixups].
  change (rc_stack_pointers (set_stack_pointers l dest)) with l.
  rewrite (list_data_rep l _ (length A) p f Hl (list_lookup_middle _ _ _ _ eq_refl)).
  rewrite (M_bind_step _ _ m' f m' eq_refl).
  rewrite (M_bind_step _ _ _ _ _ (points_to_data_exec o f m' l Ho Hw)).
  apply Forall_cons in Hok as [Hok1 Hok]. cbn [fmap list_fmap snd] in Hc |- *. rewrite !filter_cons in *.
  destruct (decide (inside src m f o)) as [Hi|Hi].
  - rewrite (decide_False (P := ~ inside src m (p, f).2 o)) by (cbn; tauto).
    rewrite (proj2 (truthy_true _) (translated_pos o f Ho Hi)).
    rewrite bind_cons in Hc |- *. apply covers_app in Hc as [Hc1 Hc].
    rewrite (M_bind_step _ _ _ _ _ (put_val_data_exec dest m W _ _ _ _ l Hok1 Hc1 Hw)).
    fold (resolve src dest m o f).
    destruct (fixups_remove_exec l A p f B (write_all (resolve src dest m o f) m') Hl)
      as (l1 & Hr & Hl1).
    rewrite (M_bind_step _ _ _ _ _ Hr), write_all_app. apply IH; try done; [lia|].
    transitivity m'; [done|by apply write_all_only].
  - rewrite (decide_True (P := ~ inside src m (p, f).2 o)) by done. cbn [truthy Z.eqb negb].
    rewrite (list_next_rep l _ (length A) p f Hl (list_lookup_middle _ _ _ _ eq_refl)), next_fixup.
    rewrite (M_bind_step _ _ m' _ m' eq_refl).
    assert (E : forall C, A ++ (p, f) :: C = (A ++ [(p, f)]) ++ C) by (intros; by rewrite <- app_assoc).
    rewrite E in Hl. rewrite (E (filter _ B)).
    apply IH; try done. lia.
Qed.

(** *** The state of the loop over the values *)

(** The code has followed the plan so far. *)
Record planned (p : plan) (l : clist fixup) (m' : memory) : Prop := Planned {
  pl_list : exists L, list_rep l L /\ L.*2 = p_pending p;
  pl_memory : m' = write_all (p_writes p) m;
  pl_covers : covers W (p_writes p);
  pl_fixups : Forall fixup_ok (p_pending p)
}.

Lemma planned_only p l m' : planned p l m' -> only_writes W m m'.
Proof. intros [_ -> ? _]. by apply write_all_only. Qed.

Lemma planned_write p ws l m' :
  planned p l m' -> covers W ws ->
  planned (Plan (p_writes p ++ ws) (p_pending p)) l (write_all ws m').
Proof.
  intros [Hl -> Hc Hf] Hw. split; cbn [p_writes p_pending]; [done|by rewrite write_all_app|by apply covers_app|done].
Qed.

Lemma planned_add p l m' f :
  planned p l m' -> fixup_ok f -> zlen (p_pending p) + 1 < 2 ^ 64 ->
  exists q l', list_add l f = Ret (q, l') /\ planned (Plan (p_writes p) (p_pending p ++ [f])) l' m'.
Proof.
  intros [(L & Hl & HL) Hm Hc Hf] Hok Hn.
  destruct (list_add_rep l L f Hl) as (l' & Ha & Hl' & _).
  { rewrite <- HL in Hn. unfold zlen in *. by rewrite length_fmap in Hn. }
  eexists _, l'. split; [exact Ha|]. split; cbn; [|done|done|].
  - eexists. split; [exact Hl'|]. by rewrite fmap_app, HL.
  - apply Forall_app. split; [done|]. by apply Forall_singleton.
Qed.

Lemma snd_filter (P : fixup -> Prop) `{!forall f, Decision (P f)} (L : list (positive * fixup)) :
  (filter (fun x => P x.2) L).*2 = filter P L.*2.
Proof.
  induction L as [|[p f] L IH]; [done|]. rewrite fmap_cons, !filter_cons. cbn [snd].
  case_decide; [|done]. by rewrite fmap_cons, IH.
Qed.

Lemma object_exec o p l m' :
  planned p l m' -> object_ok o -> covers W (p_writes (plan_object src dest m p o)) ->
  exists l' m'', resolve_fixups src o.1 (set_stack_pointers l dest) o.2
      (fixup_fuel (set_stack_pointers l dest)) (list_begin l) m' =
      Ret (set_stack_pointers l' dest, m'') /\ planned (plan_object src dest m p o) l' m''.
Proof.
  intros Hp Ho Hc. pose proof (planned_only _ _ _ Hp) as Hw.
  destruct Hp as [(L & Hl & HL) -> Hc1 Hf]. apply covers_app in Hc as [_ Hc]. rewrite <- HL in *.
  destruct (resolve_exec o L (fixup_fuel (set_stack_pointers l dest)) [] l
    (write_all (p_writes p) m) Ho Hl) as (l' & Hr & Hl'); try done.
  { unfold fixup_fuel, list_size. cbn. rewrite (rep_size _ _ Hl). unfold zlen. lia. }
  rewrite (list_begin_rep _ _ Hl). eexists l', _. split; [exact Hr|].
  unfold plan_object. rewrite <- HL. split; cbn [p_writes p_pending].
  - eexists. split; [exact Hl'|]. exact (snd_filter (fun f => ~ inside src m f o) L).
  - by rewrite write_all_app.
  - by apply covers_app.
  - apply Forall_forall. intros f [_ Hin]%list_elem_of_filter.
    by apply (proj1 (Forall_forall _ _) Hf).
Qed.

(** What rewriting a pair of records relies on. *)
Record move_ok (mv : live_value * live_value) : Prop := MoveOk {
  mo_va_list : is_va_list_pair mv.1 mv.2 = false;
  mo_pointer : known W m (points_to_stack src mv.1) (stack_pointer src m mv.1);
  mo_size : 0 <= VAL_SIZE mv.2;
  mo_prev : stack_pointer src m mv.1 <> NULL -> rc_act src <> 0 ->
    is_Some (znth (rc_acts src) (rc_act src - 1));
  mo_copy : forall bs, transfer_of src m mv = Copy bs ->
    locs_ok dest m W mv.2 (rc_act dest) (VAL_SIZE mv.2) /\
    (no_location mv.2 = false -> exists sl, known W m (get_src_loc src mv.1 (rc_act src)) sl /\
      known W m (read_src sl (VAL_SIZE mv.2)) bs);
  mo_defer : forall a, transfer_of src m mv = Defer a -> fixup_ok (Fixup a (rc_act dest) mv.2);
  mo_object : is_alloca mv.1 = true -> object_ok mv
}.

(** The first half of [rewrite_val]: the copy, or the new fixup. *)
Lemma in_callers_exec (p : Z) m' :
  (rc_act src <> 0 -> is_Some (znth (rc_acts src) (rc_act src - 1))) ->
  (if rc_act src =? 0 then mret true
   else (prev ← PREV_ACT src; mret (act_cfa prev <=? p)) : M bool) m' = Ret (visible src p, m').
Proof.
  intros Hp. unfold visible. destruct (Z.eqb_spec (rc_act src) 0) as [|Hn]; [done|].
  destruct (Hp Hn) as [prev Hprev]. unfold PREV_ACT.
  by rewrite (M_bind_step _ _ _ _ _ (acts_run _ _ _ _ Hprev)), Hprev.
Qed.

Lemma transfer_exec mv p l m' sa :
  planned p l m' -> move_ok mv -> covers W (p_writes (plan_transfer src dest m p mv)) ->
  zlen (p_pending p) + 1 < 2 ^ 64 -> rc_act src = rc_act dest ->
  znth (rc_acts src) (rc_act src) = Some sa ->
  exists l1 m1,
    (if truthy (stack_pointer src m mv.1) then
       in_callers ← (if rc_act src =? 0 then mret true
         else (prev ← PREV_ACT src; mret (act_cfa prev <=? stack_pointer src m mv.1)));
       if in_callers : bool then
         '(_, l) ← lift (list_add l (Fixup (stack_pointer src m mv.1) (rc_act dest) mv.2));
         a ← ACT src;
         mret (stack_pointer src m mv.1 <? act_cfa a, set_stack_pointers l dest)
       else mret (false, set_stack_pointers l dest)
     else (put_val src mv.1 (set_stack_pointers l dest) mv.2;;
           mret (false, set_stack_pointers l dest))) m' =
      Ret ((is_local src m (act_cfa sa) mv, set_stack_pointers l1 dest), m1) /\
    planned (plan_transfer src dest m p mv) l1 m1.
Proof.
  intros Hp [_ _ Hsz Hprev Hcopy Hdefer _] Hc Hn Hact Hsa.
  unfold is_local, plan_transfer in *. destruct (transfer_of src m mv) as [bs|a|] eqn:Ht;
    unfold transfer_of in Ht; destruct (truthy _) eqn:Et; try destruct (visible _ _) eqn:Ev; try done.
  - destruct (Hcopy bs eq_refl) as [Hloc Hsrc]. apply covers_app in Hc as [_ Hc].
    pose proof (planned_only _ _ _ Hp) as Hw.
    assert (exists sl, no_location mv.2 = false ->
      known W m (get_src_loc src mv.1 (rc_act src)) sl /\ known W m (read_src sl (VAL_SIZE mv.2)) bs)
      as [sl Hsl].
    { destruct (no_location mv.2); [by exists (At 0)|]. destruct (Hsrc eq_refl) as [sl ?]. by exists sl. }
    rewrite (M_bind_step _ _ _ _ _ (put_val_exec src dest m W _ _ _ _ _ Hact Hloc Hsz Hc Hsl Hw l)).
    eexists l, _. split; [done|]. by apply planned_write.
  - injection Ht as <-. apply truthy_true in Et.
    destruct (planned_add p l m' _ Hp (Hdefer _ eq_refl) Hn) as (q & l1 & Ha & Hp1).
    exists l1, m'. split; [|done].
    rewrite (M_bind_step _ _ _ _ _ (in_callers_exec _ _ (Hprev Et))), Ev, Ha.
    rewrite (M_bind_step _ _ m' (q, l1) m' eq_refl).
    unfold ACT. by rewrite (M_bind_step _ _ _ _ _ (acts_run _ _ _ _ Hsa)).
  - apply truthy_true in Et. exists l, m'. split; [|done].
    by rewrite (M_bind_step _ _ _ _ _ (in_callers_exec _ _ (Hprev Et))), Ev.
Qed.

Lemma plan_move_covers p mv :
  covers W (p_writes (plan_move src dest m p mv)) ->
  covers W (p_writes (plan_transfer src dest m p mv)).
Proof. unfold plan_move. destruct (is_alloca mv.1); [|done]. by intros [? _]%covers_app. Qed.

Lemma rewrite_val_exec mv p l m' sa :
  planned p l m' -> move_ok mv -> covers W (p_writes (plan_move src dest m p mv)) ->
  zlen (p_pending p) + 1 < 2 ^ 64 -> rc_act src = rc_act dest ->
  znth (rc_acts src) (rc_act src) = Some sa ->
  exists l' m'', rewrite_val src mv.1 (set_stack_pointers l dest) mv.2 m' =
      Ret ((is_local src m (act_cfa sa) mv, set_stack_pointers l' dest), m'') /\
    planned (plan_move src dest m p mv) l' m''.
Proof.
  intros Hp Hmv Hc Hn Hact Hsa. pose proof Hmv as [Hva Hptr _ _ _ _ Hobj].
  unfold rewrite_val. rewrite Hva, (known_step _ _ _ _ _ _ Hptr (planned_only _ _ _ Hp)).
  destruct (transfer_exec mv p l m' sa Hp) as (l1 & m1 & E1 & Hp1); try done.
  { by apply plan_move_covers. }
  rewrite (M_bind_step _ _ _ _ _ E1). unfold plan_move in *.
  destruct (is_alloca mv.1) eqn:Ha; [|exists l1, m1; by split].
  destruct (object_exec mv _ l1 m1 Hp1 (Hobj eq_refl) Hc) as (l2 & m2 & E2 & Hp2).
  exists l2, m2. split; [|done]. by rewrite (M_bind_step _ _ _ _ _ E2).
Qed.

(** *** The loops over the values *)

Lemma plan_move_grows p mv : exists ws,
  p_writes (plan_move src dest m p mv) = p_writes p ++ ws /\
  zlen (p_pending (plan_move src dest m p mv)) <= zlen (p_pending p) + 1.
Proof.
  assert (exists ws, p_writes (plan_transfer src dest m p mv) = p_writes p ++ ws /\
    zlen (p_pending (plan_transfer src dest m p mv)) <= zlen (p_pending p) + 1) as (ws & Hws & Hl).
  { unfold plan_transfer. destruct (transfer_of src m mv); cbn [p_writes p_pending].
    - eexists. split; [done|lia].
    - exists []. rewrite app_nil_r. split; [done|]. unfold zlen. rewrite length_app. cbn. lia.
    - exists []. rewrite app_nil_r. split; [done|lia]. }
  unfold plan_move. destruct (is_alloca mv.1); [|by exists ws]. cbn [plan_object p_writes p_pending].
  rewrite Hws, <- app_assoc. eexists. split; [done|].
  pose proof (length_filter (fun f => ~ inside src m f mv) (p_pending (plan_transfer src dest m p mv))).
  unfold zlen in *. lia.
Qed.

Lemma plan_moves_grow mvs p : exists ws,
  p_writes (foldl (plan_move src dest m) p mvs) = p_writes p ++ ws /\
  zlen (p_pending (foldl (plan_move src dest m) p mvs)) <= zlen (p_pending p) + zlen mvs.
Proof.
  revert p. induction mvs as [|mv mvs IH]; intros p; cbn [foldl].
  - exists []. rewrite app_nil_r. unfold zlen. cbn. split; [done|lia].
  - destruct (IH (plan_move src dest m p mv)) as (ws & -> & ?).
    destruct (plan_move_grows p mv) as (ws' & -> & ?). rewrite <- app_assoc. eexists. split; [done|].
    unfold zlen in *. cbn. lia.
Qed.

Lemma covers_prefix mvs p :
  covers W (p_writes (foldl (plan_move src dest m) p mvs)) -> covers W (p_writes p).
Proof. destruct (plan_moves_grow mvs p) as (ws & -> & _). by intros [? _]%covers_app. Qed.

Context (sa : activation).
Hypothesis same_act : rc_act src = rc_act dest.
Hypothesis src_frame : znth (rc_acts src) (rc_act src) = Some sa.
Hypothesis src_section : zlen (h_live_vals (rc_handle src)) < 2 ^ 64.
Hypothesis dest_section : zlen (h_live_vals (rc_handle dest)) < 2 ^ 64.

#[local] Abbreviation some_local := (existsb (is_local src m (act_cfa sa))).
#[local] Abbreviation follow := (foldl (plan_move src dest m)).

Lemma rewrite_duplicates_exec sv off ds : forall fuel p l m' j needs,
  duplicates_at (h_live_vals (rc_handle dest)) (j + 1 + off) ds -> (length ds < fuel)%nat ->
  planned p l m' -> Forall move_ok (pair sv <$> ds) -> covers W (p_writes (follow p (pair sv <$> ds))) ->
  zlen (p_pending p) + zlen ds < 2 ^ 64 ->
  exists l' m'', rewrite_duplicates src sv off fuel (set_stack_pointers l dest) j needs m' =
      Ret ((j + zlen ds, needs || some_local (pair sv <$> ds), set_stack_pointers l' dest), m'') /\
    planned (follow p (pair sv <$> ds)) l' m''.
Proof.
  induction ds as [|d ds IH]; intros [|fuel] p l m' j needs Hd Hf Hp Hok Hc Hn; cbn in Hf; try lia;
    cbn [rewrite_duplicates]; change (rc_handle (set_stack_pointers l dest)) with (rc_handle dest).
  - apply duplicates_at_nil in Hd as (v & Hv & Hd).
    rewrite (M_bind_step _ _ _ _ _ (live_val_at _ _ _ _ m' Hv dest_section)), Hd.
    exists l, m'. cbn. unfold zlen. cbn. by rewrite Z.add_0_r, orb_false_r.
  - apply duplicates_at_cons in Hd as (Hv & Hdup & Hd).
    rewrite (M_bind_step _ _ _ _ _ (live_val_at _ _ _ _ m' Hv dest_section)), Hdup.
    rewrite fmap_cons in *. apply Forall_cons in Hok as [Hmv Hok]. cbn [foldl existsb] in *.
    pose proof (covers_prefix _ _ Hc) as Hc1. destruct (plan_move_grows p (sv, d)) as (ws & _ & Hg).
    unfold zlen in Hn, Hg |- *. cbn [length] in Hn.
    destruct (rewrite_val_exec (sv, d) p l m' sa Hp Hmv Hc1) as (l1 & m1 & E & Hp1);
      [unfold zlen; lia|done..|].
    cbn [fst snd] in E. rewrite (M_bind_step _ _ _ _ _ E).
    destruct (IH fuel _ l1 m1 (j + 1) (needs || is_local src m (act_cfa sa) (sv, d))
      ltac:(by replace (j + 1 + 1 + off) with (j + 1 + off + 1) by lia) ltac:(lia) Hp1 Hok Hc)
      as (l2 & m2 & E2 & Hp2); [unfold zlen; lia|].
    exists l2, m2. split; [|done]. rewrite E2, orb_assoc. unfold zlen. cbn [length].
    do 4 f_equal. lia.
Qed.

Lemma moves_cons s sds d dds sgs dgs :
  moves ((s, sds) :: sgs) ((d, dds) :: dgs) = (pair s <$> d :: dds) ++ moves sgs dgs.
Proof. done. Qed.

Lemma flatten_cons v ds gs : flatten ((v, ds) :: gs) = v :: ds ++ flatten gs.
Proof. done. Qed.

Lemma rewrite_vals_exec soff doff num : forall dgs sgs fuel p l m' i j needs,
  groups_at (h_live_vals (rc_handle src)) (i + soff) sgs ->
  groups_at (h_live_vals (rc_handle dest)) (j + doff) dgs ->
  cs_live_offset (act_site sa) = soff ->
  (exists da, znth (rc_acts dest) (rc_act dest) = Some da /\
     cs_live_offset (act_site da) = doff /\ cs_num_live (act_site da) = num) ->
  0 <= i + soff -> 0 <= j + doff ->
  length sgs = length dgs -> j + zlen (flatten dgs) = num -> (length dgs < fuel)%nat ->
  planned p l m' -> Forall move_ok (moves sgs dgs) -> covers W (p_writes (follow p (moves sgs dgs))) ->
  zlen (p_pending p) + zlen (flatten dgs) < 2 ^ 64 ->
  exists l' m'', rewrite_vals src fuel (set_stack_pointers l dest) i j needs m' =
      Ret ((needs || some_local (moves sgs dgs), set_stack_pointers l' dest), m'') /\
    planned (follow p (moves sgs dgs)) l' m''.
Proof.
  induction dgs as [|[d dds] dgs IH]; intros [|[s sds] sgs] [|fuel] p l m' i j needs
    Hs Hd Hso (da & Hda & Hdo & Hnum) Hi Hj Hlen Hend Hf Hp Hok Hc Hn; cbn in Hlen, Hf; try lia;
    cbn [rewrite_vals]; unfold ACT;
    rewrite (M_bind_step _ _ _ _ _ (acts_run _ _ _ _ src_frame));
    change (acts (set_stack_pointers l dest) (rc_act (set_stack_pointers l dest)))
      with (acts dest (rc_act dest));
    rewrite (M_bind_step _ _ _ _ _ (acts_run _ _ _ _ Hda)); rewrite Hso, Hdo, Hnum.
  - cbn in Hend. unfold zlen in Hend. cbn in Hend. rewrite (proj2 (Z.ltb_ge j num)) by lia.
    exists l, m'. cbn. by rewrite orb_false_r.
  - rewrite flatten_cons in Hend, Hn. unfold zlen in Hend, Hn. cbn [length] in Hend, Hn.
    rewrite length_app in Hend, Hn. rewrite (proj2 (Z.ltb_lt j num)) by lia.
    destruct (groups_at_cons _ _ _ _ _ Hs) as (Hsv & Hsd & Hs').
    destruct (groups_at_cons _ _ _ _ _ Hd) as (Hdv & Hdd & Hd').
    change (rc_handle (set_stack_pointers l dest)) with (rc_handle dest).
    rewrite (M_bind_step _ _ _ _ _ (live_val_at _ _ _ _ m' Hsv src_section)).
    rewrite (M_bind_step _ _ _ _ _ (live_val_at _ _ _ _ m' Hdv dest_section)).
    rewrite moves_cons in *. rewrite fmap_cons in *. cbn [app foldl existsb] in *.
    rewrite foldl_app in Hc |- *. rewrite existsb_app.
    apply Forall_cons in Hok as [Hmv Hok]. apply Forall_app in Hok as [Hok1 Hok2].
    pose proof (covers_prefix _ _ Hc) as Hc1. pose proof (covers_prefix _ _ Hc1) as Hc0.
    destruct (plan_move_grows p (s, d)) as (_ & _ & Hg1).
    destruct (rewrite_val_exec (s, d) p l m' sa Hp Hmv Hc0) as (l1 & m1 & E1 & Hp1);
      [unfold zlen; lia|done..|].
    cbn [fst snd] in E1. rewrite (M_bind_step _ _ _ _ _ E1).
    destruct (rewrite_duplicates_exec s doff dds (live_fuel (rc_handle dest)) _ l1 m1 j
      (needs || is_local src m (act_cfa sa) (s, d))
      ltac:(by replace (j + 1 + doff) with (j + doff + 1) by lia)
      ltac:(by eapply duplicates_at_length; [|exact Hdd]; lia) Hp1 Hok1 Hc1)
      as (l2 & m2 & E2 & Hp2); [unfold zlen in *; lia|].
    change (rc_handle (set_stack_pointers l1 dest)) with (rc_handle dest).
    rewrite (M_bind_step _ _ _ _ _ E2).
    rewrite (M_bind_step _ _ _ _ _ (skip_duplicates_exec _ soff sds m2 src_section _ i
      ltac:(by replace (i + 1 + soff) with (i + soff + 1) by lia)
      ltac:(by eapply duplicates_at_length; [|exact Hsd]; lia))).
    destruct (plan_moves_grow (pair s <$> dds) (plan_move src dest m p (s, d))) as (_ & _ & Hg2).
    unfold zlen in Hg1, Hg2. rewrite length_fmap in Hg2.
    destruct (IH sgs fuel (follow (plan_move src dest m p (s, d)) (pair s <$> dds)) l2 m2 (i + zlen sds + 1) (j + zlen dds + 1)
      ((needs || is_local src m (act_cfa sa) (s, d)) || some_local (pair s <$> dds))
      ltac:(by replace (i + zlen sds + 1 + soff) with (i + soff + 1 + zlen sds) by lia)
      ltac:(by replace (j + zlen dds + 1 + doff) with (j + doff + 1 + zlen dds) by lia))
      as (l3 & m3 & E3 & Hp3); try done; try (unfold zlen in *; lia).
    { by exists da. }
    exists l3, m3. split; [|done]. by rewrite E3, !orb_assoc.
Qed.

(** *** Architecture-specific values *)

Record arch_ok (v : arch_live_value) : Prop := ArchOk {
  ao_loc : known W m (arch_loc dest v) (eval NULL (arch_loc dest v) m);
  ao_callee : known W m (arch_callee dest v) (eval NULL (arch_callee dest v) m);
  ao_operand : known W m (arch_operand dest v) (eval 0 (arch_operand dest v) m);
  ao_value : exists r, arch_value dest m v = Ret r;
  ao_valid : Forall (fun a => valid m a 8 = true)
    (with_callee (eval NULL (arch_loc dest v) m) (eval NULL (arch_callee dest v) m))
}.

Lemma put_val_arch_exec v m' l :
  arch_ok v -> only_writes W m m' -> covers W (arch_writes dest m v) ->
  word_at 8 m' (eval NULL (arch_loc dest v) m) = word_at 8 m (eval NULL (arch_loc dest v) m) ->
  put_val_arch (set_stack_pointers l dest) v m' = Ret (tt, write_all (arch_writes dest m v) m').
Proof.
  intros [Hd Hk Ho (r & Hr) Hv] Hw Hc Horig. unfold arch_writes in *. rewrite Hr in *.
  unfold put_val_arch. fold (arch_loc (set_stack_pointers l dest) v).
  change (arch_loc (set_stack_pointers l dest) v) with (arch_loc dest v).
  rewrite (known_step _ _ _ _ _ _ Hd Hw).
  rewrite (M_bind_step _ _ _ _ _ (eq_trans (callee_addr_pointers _ _ _ _ _ _) (Hk m' Hw))).
  change (get_arch_operand_loc (set_stack_pointers l dest) v (rc_act (set_stack_pointers l dest)))
    with (arch_operand dest v).
  rewrite (known_step _ _ _ _ _ _ Ho Hw). unfold arch_value in Hr. rewrite <- Horig in Hr.
  pose proof Hv as [Hvd _]%Forall_cons. rewrite <- (only_writes_valid _ _ _ _ _ Hw) in Hvd.
  unfold apply_arch_operation. rewrite (M_bind_step _ _ _ _ _ (load_run 8 _ m' Hvd)).
  destruct (znth inst_types (al_inst_type v)) as [[]|]; try discriminate Hr;
    rewrite Hr, (M_bind_step _ _ m' r m' eq_refl); by apply (store_word_twice m W).
Qed.

Lemma arch_original ws v w m' :
  m' = write_all ws m -> ForallOrdPairs separate (ws ++ arch_writes dest m v) ->
  w ∈ arch_writes dest m v -> word_at 8 m' w.1 = word_at 8 m w.1 /\ zlen w.2 = 8.
Proof.
  intros -> Hs Hin. assert (zlen w.2 = 8) as Hlen.
  { unfold arch_writes in Hin. destruct (arch_value dest m v); try by apply elem_of_nil in Hin.
    unfold put in Hin. apply list_elem_of_fmap in Hin as (x & -> & _). done. }
  split; [|done]. eapply word_at_frame; [apply write_all_touched|].
  intros x Hx (w' & Hw' & Hx'). clear -Hs Hin Hw' Hx Hx' Hlen.
  induction ws as [|u ws IH]; [by apply elem_of_nil in Hw'|].
  inversion Hs as [|? ? Hu Hs']; subst. apply elem_of_cons in Hw' as [->|Hw']; [|by apply IH].
  rewrite Forall_forall in Hu. specialize (Hu w ltac:(apply elem_of_app; by right)).
  unfold separate, apart, span in *. cbn in *. lia.
Qed.

Lemma arch_loop_exec off l avs : forall ws i,
  (forall k v, avs !! k = Some v ->
     znth (h_arch_live_vals (rc_handle dest)) (wrap64 (i + Z.of_nat k + off)) = Some v) ->
  covers W ws -> Forall arch_ok avs -> covers W (avs ≫= arch_writes dest m) ->
  ForallOrdPairs separate (ws ++ (avs ≫= arch_writes dest m)) ->
  for_ (length avs) i (fun i =>
    v ← lift (get (znth (h_arch_live_vals (rc_handle (set_stack_pointers l dest))) (wrap64 (i + off))));
    put_val_arch (set_stack_pointers l dest) v) (write_all ws m) =
  Ret (tt, write_all (ws ++ (avs ≫= arch_writes dest m)) m).
Proof.
  induction avs as [|v avs IH]; intros ws i Hz Hcw Hok Hc Hs; cbn [length for_].
  { by rewrite app_nil_r. }
  apply Forall_cons in Hok as [Hv Hok]. rewrite bind_cons in *. rewrite app_assoc in Hs |- *.
  apply covers_app in Hc as [Hc1 Hc2]. pose proof (Hz 0%nat v eq_refl) as Hz0.
  rewrite Z.add_0_r in Hz0. change (rc_handle (set_stack_pointers l dest)) with (rc_handle dest).
  assert (word_at 8 (write_all ws m) (eval NULL (arch_loc dest v) m) =
    word_at 8 m (eval NULL (arch_loc dest v) m)) as Horig.
  { destruct (ao_value _ Hv) as [r Hr].
    apply (arch_original ws v (eval NULL (arch_loc dest v) m, le_bytes 8 r) _ eq_refl).
    - by eapply separate_app_l.
    - unfold arch_writes. rewrite Hr. left. }
  rewrite (M_bind_step _ _ _ tt (write_all (ws ++ arch_writes dest m v) m)).
  - apply IH; [|by apply covers_app|done..]. intros k v' Hk. rewrite <- (Hz (S k) v' Hk).
    f_equal. f_equal. lia.
  - rewrite Hz0, (M_bind_step _ _ _ v _ eq_refl), write_all_app.
    by apply put_val_arch_exec; [|apply write_all_only| |].
Qed.

(** *** The local fixups *)

Lemma objects_cons s d prs :
  objects ((s, d) :: prs) =
  if is_alloca s && is_alloca d then (s, d) :: objects prs else objects prs.
Proof. unfold objects. rewrite filter_cons. cbn [fst snd]. by destruct (_ && _). Qed.

Lemma find_local_exec f da soff doff m' l :
  znth (rc_acts dest) (rc_act dest) = Some da ->
  cs_live_offset (act_site sa) = soff -> cs_live_offset (act_site da) = doff ->
  only_writes W m m' -> forall dgs sgs fuel i j,
  groups_at (h_live_vals (rc_handle src)) (i + soff) sgs ->
  groups_at (h_live_vals (rc_handle dest)) (j + doff) dgs -> 0 <= i + soff -> 0 <= j + doff ->
  length sgs = length dgs -> j + zlen (flatten dgs) = cs_num_live (act_site da) ->
  (length dgs < fuel)%nat -> Forall object_ok (objects (paired sgs dgs)) ->
  find_local src (set_stack_pointers l dest) sa da f fuel i j m' =
    Ret ((fun r => translated src dest m f r.2) <$> list_find (inside src m f) (objects (paired sgs dgs)),
      m').
Proof.
  intros Hda Hso Hdo Hw.
  induction dgs as [|[d dds] dgs IH]; intros [|[s sds] sgs] [|fuel] i j Hs Hd Hi Hj Hlen Hend Hf Hok;
    cbn in Hlen, Hf; try lia; cbn [find_local]; rewrite Hso, Hdo.
  - unfold zlen in Hend. cbn in Hend. by rewrite (proj2 (Z.ltb_ge j _)) by lia.
  - rewrite flatten_cons in Hend. unfold zlen in Hend. cbn [length] in Hend.
    rewrite length_app in Hend. rewrite (proj2 (Z.ltb_lt j _)) by lia.
    destruct (groups_at_cons _ _ _ _ _ Hs) as (Hsv & Hsd & Hs').
    destruct (groups_at_cons _ _ _ _ _ Hd) as (Hdv & Hdd & Hd').
    change (rc_handle (set_stack_pointers l dest)) with (rc_handle dest).
    rewrite (M_bind_step _ _ _ _ _ (live_val_at _ _ _ _ m' Hsv src_section)).
    rewrite (M_bind_step _ _ _ _ _ (live_val_at _ _ _ _ m' Hdv dest_section)).
    rewrite (M_bind_step _ _ _ _ _ (skip_duplicates_exec _ soff sds m' src_section _ i
      ltac:(by replace (i + 1 + soff) with (i + soff + 1) by lia)
      ltac:(by eapply duplicates_at_length; [|exact Hsd]; lia))).
    rewrite (M_bind_step _ _ _ _ _ (skip_duplicates_exec _ doff dds m' dest_section _ j
      ltac:(by replace (j + 1 + doff) with (j + doff + 1) by lia)
      ltac:(by eapply duplicates_at_length; [|exact Hdd]; lia))).
    assert (Hnext : Forall object_ok (objects (paired sgs dgs)) ->
      find_local src (set_stack_pointers l dest) sa da f fuel (i + zlen sds + 1) (j + zlen dds + 1) m' =
      Ret ((fun r => translated src dest m f r.2) <$> list_find (inside src m f) (objects (paired sgs dgs)),
        m')).
    { apply IH; try (unfold zlen in *; lia).
      - by replace (i + zlen sds + 1 + soff) with (i + soff + 1 + zlen sds) by lia.
      - by replace (j + zlen dds + 1 + doff) with (j + doff + 1 + zlen dds) by lia. }
    change (paired ((s, sds) :: sgs) ((d, dds) :: dgs)) with ((s, d) :: paired sgs dgs) in *.
    rewrite objects_cons in *. rewrite <- negb_andb. destruct (is_alloca s && is_alloca d); [|by apply Hnext].
    apply Forall_cons in Hok as [Ho Hok]. cbn [negb].
    rewrite (M_bind_step _ _ _ _ _ (points_to_data_exec (s, d) f m' l Ho Hw)).
    cbn [list_find]. destruct (decide (inside src m f (s, d))) as [Hin|Hin].
    + by rewrite (proj2 (truthy_true _) (translated_pos _ _ Ho Hin)).
    + cbn [truthy Z.eqb negb]. rewrite (Hnext Hok). by destruct (list_find _ _) as [[]|].
Qed.

Definition local_writes (objs : list (live_value * live_value)) (f : fixup) : list (Z * list Z) :=
  from_option (fun o => resolve src dest m o f) [] (home src m objs (act_cfa sa) f).

Lemma home_object objs f o :
  Forall object_ok objs -> home src m objs (act_cfa sa) f = Some o -> object_ok o /\ inside src m f o.
Proof.
  unfold home. intros Hok Hh. destruct (_ && _); [|done].
  destruct (list_find (inside src m f) objs) as [[i o']|] eqn:E; [|done]. injection Hh as ->.
  apply list_find_Some in E as (Hi & Hin & _). split; [|done].
  by eapply (Forall_lookup_1 _ _ _ _ Hok).
Qed.

Lemma fixup_loop_exec da soff doff sgs dgs B :
  znth (rc_acts dest) (rc_act dest) = Some da ->
  cs_live_offset (act_site sa) = soff -> cs_live_offset (act_site da) = doff ->
  groups_at (h_live_vals (rc_handle src)) soff sgs ->
  groups_at (h_live_vals (rc_handle dest)) doff dgs -> 0 <= soff -> 0 <= doff ->
  length sgs = length dgs -> zlen (flatten dgs) = cs_num_live (act_site da) ->
  Forall object_ok (objects (paired sgs dgs)) ->
  forall fuel A l m' flag,
  list_rep l (A ++ B) -> (length B <= fuel)%nat -> Forall fixup_ok B.*2 ->
  Forall (fun f => fx_src_addr f <= act_cfa sa) B.*2 ->
  covers W (B.*2 ≫= local_writes (objects (paired sgs dgs))) -> only_writes W m m' ->
  exists l', fixup_loop fuel src (set_stack_pointers l dest) ((A ++ B).*1 !! length A) flag m' =
      Ret (set_stack_pointers l' dest,
        write_all (B.*2 ≫= local_writes (objects (paired sgs dgs))) m') /\
    list_rep l' (A ++ filter (fun x => home src m (objects (paired sgs dgs)) (act_cfa sa) x.2 = None) B).
Proof.
  intros Hda Hso Hdo Hs Hd Hsp Hdp Hlen Hend Hobj. set (objs := objects (paired sgs dgs)) in *.
  induction B as [|[p f] B IH]; intros fuel A l m' flag Hl Hf Hok Hin Hc Hw.
  { exists l. rewrite filter_nil, !app_nil_r in *.
    rewrite lookup_ge_None_2 by (rewrite length_fmap; lia). by destruct fuel. }
  destruct fuel as [|fuel]; [cbn in Hf; lia|]. cbn in Hf.
  assert (E : forall C, A ++ (p, f) :: C = (A ++ [(p, f)]) ++ C) by (intros; by rewrite <- app_assoc).
  assert (Hpos : (A ++ (p, f) :: B).*1 !! length A = Some p).
  { rewrite fmap_app, lookup_app_r, length_fmap, Nat.sub_diag by (rewrite length_fmap; lia). done. }
  rewrite Hpos. cbn [fixup_loop]. unfold ACT.
  rewrite (M_bind_step _ _ _ _ _ (acts_run _ _ _ _ src_frame)).
  change (acts (set_stack_pointers l dest) (rc_act (set_stack_pointers l dest)))
    with (acts dest (rc_act dest)).
  rewrite (M_bind_step _ _ _ _ _ (acts_run _ _ _ _ Hda)).
  change (rc_stack_pointers (set_stack_pointers l dest)) with l.
  rewrite (list_data_rep l _ (length A) p f Hl (list_lookup_middle _ _ _ _ eq_refl)).
  rewrite (M_bind_step _ _ m' f m' eq_refl). rewrite fmap_cons in *. cbn [snd] in *.
  apply Forall_cons in Hok as [Hok1 Hok]. apply Forall_cons in Hin as [Hle Hin].
  rewrite (proj2 (Z.leb_le _ _) Hle). rewrite bind_cons in *. apply covers_app in Hc as [Hc1 Hc].
  rewrite filter_cons. cbn [snd].
  assert (Hskip : home src m objs (act_cfa sa) f = None -> forall flag', exists l',
    (nxt ← lift (list_next l p); fixup_loop fuel src (set_stack_pointers l dest) nxt flag') m' =
      Ret (set_stack_pointers l' dest, write_all (B.*2 ≫= local_writes objs) m') /\
    list_rep l' (A ++ (p, f) :: filter (fun x => home src m objs (act_cfa sa) x.2 = None) B)).
  { intros Hh flag'.
    rewrite (list_next_rep l _ (length A) p f Hl (list_lookup_middle _ _ _ _ eq_refl)), next_fixup.
    rewrite (M_bind_step _ _ m' _ m' eq_refl). rewrite E in Hl. rewrite (E (filter _ B)).
    apply IH; try done. lia. }
  unfold local_writes at 1 2. unfold local_writes at 1 in Hc1.
  destruct (Z.eqb_spec (fx_act f) (rc_act src)) as [Ha|Ha]; cbn [negb].
  2:{ assert (home src m objs (act_cfa sa) f = None) as Hh
        by (unfold home; by rewrite (proj2 (Z.eqb_neq _ _) Ha), andb_false_r).
      rewrite Hh, decide_True by done. by apply Hskip. }
  rewrite (M_bind_step _ _ _ _ _ (find_local_exec f da soff doff m' l Hda Hso Hdo Hw dgs sgs
    (S (Z.to_nat (cs_num_live (act_site da)))) 0 0 Hs Hd Hsp Hdp Hlen Hend ltac:(unfold zlen in Hend; pose proof (groups_flatten dgs); lia) Hobj)).
  assert (home src m objs (act_cfa sa) f = snd <$> list_find (inside src m f) objs) as Hh
    by (unfold home; by rewrite (proj2 (Z.leb_le _ _) Hle), Ha, Z.eqb_refl).
  fold objs. destruct (list_find (inside src m f) objs) as [[k o]|] eqn:Hfind;
    cbn [fmap option_fmap option_map snd] in Hh |- *.
  - rewrite Hh in Hc1 |- *. rewrite decide_False by done. cbn [from_option] in *.
    rewrite (M_bind_step _ _ _ _ _ (put_val_data_exec dest m W _ _ _ _ l Hok1 Hc1 Hw)).
    fold (resolve src dest m o f).
    destruct (fixups_remove_exec l A p f B (write_all (resolve src dest m o f) m') Hl)
      as (l1 & Hr & Hl1).
    rewrite (M_bind_step _ _ _ _ _ Hr), write_all_app. apply IH; try done; [lia|].
    transitivity m'; [done|by apply write_all_only].
  - rewrite Hh, decide_True by done. by apply Hskip.
Qed.

End Objects.

(** ** The frame *)

(** The records of the current frames, as lists. *)
Record frame_records (src dest : rewrite_context) (sa da : activation) (sgs dgs : groups)
    (avs : list arch_live_value) : Prop := FrameRecords {
  fr_act : rc_act src = rc_act dest;
  fr_src : znth (rc_acts src) (rc_act src) = Some sa;
  fr_dest : znth (rc_acts dest) (rc_act dest) = Some da;
  fr_src_vals : groups_at (h_live_vals (rc_handle src)) (cs_live_offset (act_site sa)) sgs;
  fr_dest_vals : groups_at (h_live_vals (rc_handle dest)) (cs_live_offset (act_site da)) dgs;
  fr_paired : length sgs = length dgs;
  fr_num : zlen (flatten dgs) = cs_num_live (act_site da);
  fr_arch : forall k v, avs !! k = Some v ->
    znth (h_arch_live_vals (rc_handle dest)) (cs_arch_live_offset (act_site da) + Z.of_nat k) = Some v;
  fr_num_arch : zlen avs = cs_num_arch_live (act_site da);
  fr_sections : zlen (h_live_vals (rc_handle src)) < 2 ^ 64 /\
    zlen (h_live_vals (rc_handle dest)) < 2 ^ 64 /\ zlen (h_arch_live_vals (rc_handle dest)) < 2 ^ 64
}.

(** What the rewriting reads is there and is not overwritten by it. *)
Record frame_readable (src dest : rewrite_context) (m : memory) (W : Z -> Prop)
    (sgs dgs : groups) (avs : list arch_live_value) (pending : list fixup) : Prop := FrameReadable {
  rd_moves : Forall (move_ok src dest m W) (moves sgs dgs);
  rd_objects : Forall (object_ok src dest m W) (objects (paired sgs dgs));
  rd_arch : Forall (arch_ok dest m W) avs;
  rd_pending : Forall (fixup_ok dest m W) pending
}.

Lemma set_stack_pointers_id dest : set_stack_pointers (rc_stack_pointers dest) dest = dest.
Proof. by destruct dest. Qed.

Lemma set_stack_pointers_twice l l' dest :
  set_stack_pointers l' (set_stack_pointers l dest) = set_stack_pointers l' dest.
Proof. done. Qed.

Lemma length_moves sgs dgs : length sgs = length dgs -> length (moves sgs dgs) = length (flatten dgs).
Proof.
  revert dgs. induction sgs as [|[s sds] sgs IH]; intros [|[d dds] dgs]; try done. intros [= Hl].
  rewrite moves_cons, flatten_cons, length_app, length_fmap. cbn [length]. rewrite length_app, IH; done.
Qed.

Lemma rewrite_frame_exec fuel src dest l m sa da sgs dgs avs L :
  let pending := L.*2 in
  let p := frame_plan src dest m (act_cfa sa) sgs dgs avs pending in
  let W := touched (p_writes p) in
  frame_records src dest sa da sgs dgs avs ->
  frame_readable src dest m W sgs dgs avs pending ->
  ForallOrdPairs separate (p_writes p) ->
  list_rep l L -> zlen L + zlen (flatten dgs) < 2 ^ 64 ->
  (length L + length (flatten dgs) <= fuel)%nat ->
  (existsb (is_local src m (act_cfa sa)) (moves sgs dgs) = true ->
   Forall (fun f => fx_src_addr f <= act_cfa sa)
     (p_pending (values_plan src dest m sgs dgs pending))) ->
  exists l' L', rewrite_frame fuel src (set_stack_pointers l dest) m =
      Ret (set_stack_pointers l' dest, write_all (p_writes p) m) /\
    list_rep l' L' /\ L'.*2 = p_pending p.
Proof.
  intros pending p W [Hact Hsa Hda Hsv Hdv Hlen Hnum Harch Hnarch (Hn1 & Hn2 & Hn3)]
    [Hmv Hobj Har Hpend] Hsep Hl Hn Hfuel Hloc.
  set (p0 := values_plan src dest m sgs dgs pending) in *.
  set (ws := p_writes p0 ++ (avs ≫= arch_writes dest m)) in *.
  set (objs := objects (paired sgs dgs)) in *.
  set (b := existsb (is_local src m (act_cfa sa)) (moves sgs dgs)) in *.
  assert (p = if b then plan_local src dest m objs (act_cfa sa) (Plan ws (p_pending p0))
              else Plan ws (p_pending p0)) as Hp by done.
  assert (covers W (p_writes p)) as HW by (by intros x). clearbody W p.
  assert (exists ws', p_writes p = ws ++ ws') as [ws' Hws].
  { rewrite Hp. destruct b; [by eexists|]. exists []. by rewrite app_nil_r. }
  assert (covers W ws) as Hcw by (rewrite Hws in HW; by apply covers_app in HW as [? _]).
  pose proof Hcw as [Hc0 Hca]%covers_app. rewrite Hws in Hsep. apply separate_app_l in Hsep.
  assert (0 <= cs_live_offset (act_site sa)) as Hso
    by (destruct Hsv as (? & ? & ? & ? & <- & _); unfold zlen; lia).
  assert (0 <= cs_live_offset (act_site da)) as Hdo
    by (destruct Hdv as (? & ? & ? & ? & <- & _); unfold zlen; lia).
  assert (planned dest m W (Plan [] pending) l m) as Hp0.
  { split; [by exists L|done|by intros x (? & ?%elem_of_nil & _)|done]. }
  destruct (rewrite_vals_exec src dest m W sa Hact Hsa Hn1 Hn2 _ _ (cs_num_live (act_site da)) dgs sgs
    (S (Z.to_nat (cs_num_live (act_site da)))) (Plan [] pending) l m 0 0 false
    Hsv Hdv eq_refl ltac:(by exists da) Hso Hdo Hlen Hnum
    ltac:(pose proof (groups_flatten dgs); unfold zlen in Hnum; lia) Hp0 Hmv Hc0
    ltac:(unfold pending, zlen in *; cbn; rewrite length_fmap; lia)) as (l1 & m1 & E1 & Hp1).
  fold (values_plan src dest m sgs dgs pending) in Hp1. fold p0 in Hp1.
  destruct Hp1 as [(L1 & Hl1 & HL1) -> _ Hf1].
  unfold rewrite_frame, ACT.
  change (acts (set_stack_pointers l dest) (rc_act (set_stack_pointers l dest)))
    with (acts dest (rc_act dest)).
  rewrite (M_bind_step _ _ _ _ _ (acts_run _ _ _ _ Hda)), (M_bind_step _ _ _ _ _ E1).
  replace (Z.to_nat (cs_num_arch_live (act_site da))) with (length avs) by (unfold zlen in Hnarch; lia).
  rewrite (M_bind_step _ _ _ _ _ (arch_loop_exec dest m W (cs_arch_live_offset (act_site da)) l1 avs
    (p_writes p0) 0 ltac:(intros k v Hk; pose proof (znth_Some_range _ _ _ (Harch k v Hk));
      rewrite wrap_small, <- (Harch k v Hk) by lia; f_equal; lia) Hc0 Har Hca
    Hsep)). fold ws. cbn [orb]. fold b.
  destruct b; [|by exists l1, L1; rewrite Hp]. rewrite Hp in HW |- *.
  cbn [plan_local p_writes p_pending] in *. apply covers_app in HW as [_ HW]. rewrite <- HL1 in *.
  unfold fixup_local_pointers. change (rc_stack_pointers (set_stack_pointers l1 dest)) with l1.
  rewrite (list_begin_rep _ _ Hl1).
  destruct (fixup_loop_exec src dest m W sa Hsa Hn1 Hn2 da _ _ sgs dgs L1 Hda eq_refl eq_refl Hsv Hdv
    Hso Hdo Hlen Hnum Hobj fuel [] l1 (write_all ws m) None Hl1) as (l2 & E2 & Hl2); try done.
  { destruct (plan_moves_grow src dest m (moves sgs dgs) (Plan [] pending)) as (_ & _ & Hg).
    fold (values_plan src dest m sgs dgs pending) in Hg. fold p0 in Hg. rewrite <- HL1 in Hg.
    pose proof (length_moves sgs dgs Hlen). unfold pending, zlen in Hg. cbn [p_pending] in Hg.
    rewrite !length_fmap in Hg. lia. }
  { by apply Hloc. }
  { by apply write_all_only. }
  eexists l2, _. split; [|split; [exact Hl2|]].
  - rewrite write_all_app. exact E2.
  - exact (snd_filter (fun f => home src m objs (act_cfa sa) f = None) L1).
Qed.

Lemma put_elem a locs bs : a ∈ locs -> (a, bs) ∈ put locs bs.
Proof. intros Ha. unfold put. apply list_elem_of_fmap. by exists a. Qed.

Lemma bytes_word m a x : peek m <$> seqZ a 8 = le_bytes 8 x -> word_at 8 m a = wrap64 x.
Proof. intros E. unfold word_at. change (Z.of_nat 8) with 8. by rewrite E, le_value_le_bytes. Qed.

Lemma moved_bytes src dest m W mv bs a :
  move_ok src dest m W mv -> transfer_of src m mv = Copy bs ->
  a ∈ dest_locs dest m mv.2 (rc_act dest) -> Forall (fun b => 0 <= b < 256) bs.
Proof.
  intros Hmv Ht Ha. destruct (mo_copy _ _ _ _ _ Hmv bs Ht) as [_ Hs]. unfold dest_locs in Ha.
  destruct (no_location mv.2); [by apply elem_of_nil in Ha|].
  destruct (Hs eq_refl) as (sl & _ & Hbs). by apply (read_src_Ret sl (VAL_SIZE mv.2) m bs m), Hbs.
Qed.

(** ** Properties *)

(** C1: [rewrite_frame] does what a transformation of a frame has to.  For a
    frame whose records are where the call sites say and hold no pair of
    [va_list]s, whose locations are known and not among the bytes written, whose
    places are separate and whose stack objects are separate, and which does not
    meet the stale flag of [fixup_local_pointers]: when it has pointers into
    itself, no deferred pointer to outer frames points above its CFA (see
    [fixup_local_pointers_diverges]); it returns, and then: every value copied has the source's bytes in each of its
    places (its duplicates and the callee-saved copies included); every pointer
    into one of the frame's objects, whether left over from an inner frame or
    found in this one, before or after its object, holds the same offset of the
    object's copy; every architecture-specific value holds its result; the
    pointers to outer frames stay on the list, in order; and nothing else is
    written. *)
Theorem rewrite_frame_correct fuel src dest m sa da sgs dgs avs L :
  let cfa := act_cfa sa in
  let objs := objects (paired sgs dgs) in
  let fixups := L.*2 ++ deferred src dest m (moves sgs dgs) in
  let W := touched (p_writes (frame_plan src dest m cfa sgs dgs avs L.*2)) in
  frame_records src dest sa da sgs dgs avs ->
  frame_readable src dest m W sgs dgs avs L.*2 ->
  ForallOrdPairs separate (p_writes (frame_plan src dest m cfa sgs dgs avs L.*2)) ->
  objects_ok src m cfa sgs dgs ->
  (existsb (is_local src m cfa) (moves sgs dgs) = true ->
   Forall (fun f => outside src m sgs dgs f -> fx_src_addr f <= cfa) fixups) ->
  list_rep (rc_stack_pointers dest) L -> zlen L + zlen (flatten dgs) < 2 ^ 64 ->
  (length L + length (flatten dgs) <= fuel)%nat ->
  exists l' L' m', rewrite_frame fuel src dest m = Ret (set_stack_pointers l' dest, m') /\
    (forall mv bs a, mv ∈ moves sgs dgs -> transfer_of src m mv = Copy bs ->
       a ∈ dest_locs dest m mv.2 (rc_act dest) -> peek m' <$> seqZ a (zlen bs) = bs) /\
    (forall f o a, f ∈ fixups -> o ∈ objs -> inside src m f o ->
       a ∈ dest_locs dest m (fx_dest_loc f) (fx_act f) ->
       word_at 8 m' a = dest_object dest m o.2 + (fx_src_addr f - src_object src m o.1)) /\
    (forall v r a, v ∈ avs -> arch_value dest m v = Ret r ->
       a ∈ with_callee (eval NULL (arch_loc dest v) m) (eval NULL (arch_callee dest v) m) ->
       word_at 8 m' a = wrap64 r) /\
    list_rep l' L' /\ L'.*2 = filter (outside src m sgs dgs) fixups /\
    only_writes W m m'.
Proof.
  intros cfa objs fixups W Hrec Hread Hsep Hob Hloc Hl Hn Hfuel. pose proof (fr_act _ _ _ _ _ _ _ Hrec) as Hact.
  destruct (frame_plan_achieved src dest m cfa sgs dgs L.*2 avs Hob Hact) as (Hpend & Hres & Hcopy & Harch).
  destruct (rewrite_frame_exec fuel src dest (rc_stack_pointers dest) m sa da sgs dgs avs L
    Hrec Hread Hsep Hl Hn Hfuel) as (l' & L' & E & Hl' & HL').
  { intros Hb. apply Forall_forall. intros f Hf.
    destruct (inside_dec_all src m sgs dgs f) as [Hout|(o & Ho & Hin)].
    - specialize (Hloc Hb). rewrite Forall_forall in Hloc. apply Hloc; [|done].
      by apply (pending_fixups src dest m cfa sgs dgs L.*2 f Hob Hf Hout).
    - destruct (pending_inside src dest m cfa sgs dgs L.*2 f o Hob Hf Ho Hin) as (_ & ? & _). lia. }
  rewrite set_stack_pointers_id in E. exists l', L', (write_all (p_writes (frame_plan src dest m cfa sgs dgs avs L.*2)) m).
  split; [exact E|]. split_and!; [| | |done|by rewrite HL'|apply write_all_touched].
  - intros mv bs a Hmv Ht Ha. apply (write_all_holds _ _ (a, bs) Hsep); [by eapply Hcopy, put_elem|].
    pose proof (rd_moves _ _ _ _ _ _ _ _ Hread) as Hm. rewrite Forall_forall in Hm.
    by eapply moved_bytes; [apply Hm|..].
  - intros f o a Hf Ho Hin Ha. pose proof (rd_objects _ _ _ _ _ _ _ _ Hread) as Hok.
    rewrite Forall_forall in Hok. destruct (Hok o Ho) as [_ _ _ [??] _].
    transitivity (wrap64 (translated src dest m f o));
      [|unfold translated; apply wrap_small; destruct Hin; lia].
    apply bytes_word. apply (write_all_holds _ _ (a, le_bytes 8 (translated src dest m f o)) Hsep).
    + by eapply Hres, put_elem.
    + apply le_bytes_range.
  - intros v r a Hv Hr Ha. apply bytes_word. apply (write_all_holds _ _ (a, le_bytes 8 r) Hsep).
    + apply (Harch v Hv). unfold arch_writes. rewrite Hr. by apply put_elem.
    + apply le_bytes_range.
Qed.

(** ** Witnesses *)

(** Deciding that a computation reads outside the addresses written. *)
Definition avoids (ws : list (Z * list Z)) (a n : Z) : bool :=
  forallb (fun w => (a + n <=? w.1) || (w.1 + zlen w.2 <=? a)) ws.

Lemma avoids_spec ws a n x : avoids ws a n = true -> span a n x -> ~ touched ws x.
Proof.
  unfold avoids. rewrite forallb_forall. intros Hf Hx (w & Hw & Hx').
  specialize (Hf w (proj1 (list_elem_of_In _ _) Hw)). unfold span in *. lia.
Qed.

Section Known.
Context (ws : list (Z * list Z)) (m : memory).

Lemma known_ret {A} (a : A) : known (touched ws) m (mret a) a.
Proof. by intros m' _. Qed.

Lemma known_lift {A} (o : outcome A) a : o = Ret a -> known (touched ws) m (lift o) a.
Proof. by intros -> m' _. Qed.

Lemma known_bind {A B} (c : M A) (f : A -> M B) a b :
  known (touched ws) m c a -> known (touched ws) m (f a) b -> known (touched ws) m (c ≫= f) b.
Proof. intros Hc Hf m' Hw. rewrite (M_bind_step _ _ _ _ _ (Hc m' Hw)). by apply Hf. Qed.

Lemma known_load_bytes a n :
  valid m a n && avoids ws a n = true ->
  known (touched ws) m (load_bytes a n) (peek m <$> seqZ a n).
Proof.
  intros [Hv Ha]%andb_true_iff m' Hw. unfold load_bytes.
  rewrite (only_writes_valid _ _ _ _ _ Hw), Hv. do 2 f_equal. eapply only_writes_peeks; [exact Hw|].
  intros x. by apply avoids_spec.
Qed.

Lemma known_load n a :
  valid m a (Z.of_nat n) && avoids ws a (Z.of_nat n) = true ->
  known (touched ws) m (load n a) (word_at n m a).
Proof. intros H. eapply known_bind; [by apply known_load_bytes|apply known_ret]. Qed.

Lemma known_if {A} (b b' : bool) (c d : M A) a :
  b = b' -> known (touched ws) m (if b' then c else d) a -> known (touched ws) m (if b then c else d) a.
Proof. by intros ->. Qed.

Lemma known_self {A} d (c : M A) a :
  known (touched ws) m c a -> known (touched ws) m c (eval d c m).
Proof. intros H. by rewrite (known_eval _ _ _ _ _ H). Qed.

End Known.

Ltac head_of c := lazymatch c with ?f _ => head_of f | _ => c end.

(** Follow a closed computation that only reads. *)
Ltac known_tac :=
  lazymatch goal with
  | |- known _ _ (_ ≫= _) _ => eapply known_bind; [known_tac|cbv beta; known_tac]
  | |- known _ _ (mret _) _ => eapply known_ret
  | |- known _ _ (lift _) _ => eapply known_lift; vm_compute; reflexivity
  | |- known _ _ (load _ _) _ => eapply known_load; vm_compute; reflexivity
  | |- known _ _ (load_bytes _ _) _ => eapply known_load_bytes; vm_compute; reflexivity
  | |- known _ _ (if ?b then _ else _) _ =>
      let b' := eval vm_compute in b in
      eapply (known_if _ _ b b'); [vm_compute; reflexivity|cbv iota; known_tac]
  | |- known _ _ (callee_saved_walk _ _ ?n) _ =>
      let n' := eval vm_compute in n in
      change n with n'; cbn [callee_saved_walk]; known_tac
  | |- known _ _ ?c _ => let h := head_of c in unfold h; cbv beta iota zeta; known_tac
  end.

(** Frame [g] of the sample in both binaries, called by [f]; [f]'s frame has
    left a pointer to [g]'s object. *)
Definition frame_context (h : st_handle) (site0 site1 : call_site) (cfa0 cfa1 regs bits : Z)
    (fixups : clist fixup) : rewrite_context :=
  RewriteContext h 0x8000 0x7000 0 2 1
    [Activation site0 cfa0 regs (Bitmap 98 bits); Activation site1 cfa1 (regs + 1024) (Bitmap 98 bits)]
    fixups 0 0.

Definition frame_src : rewrite_context :=
  frame_context x86_handle (CallSite 1 0x1010 0x20 2 0 0 0 0 0 u16_max)
    (CallSite 2 0x1110 0x40 2 0 3 0 0 0 u16_max) 0x7020 0x7060 0x40000 0x50000 (list_init ∅ 1%positive).

Definition left_over : fixup := Fixup 0x7034 0 (LiveValue false false true false SM_INDIRECT 8 29 (- 0x10) 0).

Definition own_pointer : fixup := Fixup 0x7032 1 (LiveValue false false true false SM_INDIRECT 8 29 (- 0x30) 0).

Definition frame_object : live_value * live_value :=
  (LiveValue false true false false SM_DIRECT 8 6 (- 0x20) 8,
   LiveValue false true false false SM_DIRECT 8 29 (- 0x20) 8).

Definition frame_dest (l : clist fixup) : rewrite_context :=
  frame_context a64_handle (CallSite 1 0x1014 0x30 2 0 0 0 0 0 u16_max)
    (CallSite 2 0x1118 0x60 2 0 3 0 1 0 u16_max) 0x1ff80 0x1ffe0 0x42000 0x50000 l.

Definition frame_memory : memory :=
  Memory (word (0x40400 + off_regs + X86_gpr RBP) 0x7050
         (word (0x40400 + off_regs + X86_gpr RBX) 42
         (word 0x7030 1234 (word 0x7048 0x7032
         (word (0x42000 + off_regs + A64_x 29) 0x1ff70
         (word (0x42400 + off_regs + A64_x 29) 0x1ffd0 ∅)))))) (fun _ => 0)
    [(0x6000, 0x2000); (0x1f000, 0x1000); (0x40000, 2048); (0x42000, 2048); (0x50000, 32)] 0x100000.

Definition singles (vs : list live_value) : groups := (fun v => (v, [])) <$> vs.
Definition frame_sgs : groups := singles (take 3 x86_live).
Definition frame_dgs : groups := singles (take 3 a64_live).

Definition frame_writes : list (Z * list Z) :=
  Eval vm_compute in p_writes (frame_plan frame_src (frame_dest (list_init ∅ 1%positive)) frame_memory
    0x7060 frame_sgs frame_dgs a64_arch_live [left_over]).

Definition frame_fixups : clist fixup :=
  match list_add (list_init ∅ 1%positive) left_over with Ret (_, l) => l | _ => list_init ∅ 1%positive end.

#[local] Abbreviation D := (frame_dest frame_fixups).

Lemma frame_fixups_rep : list_rep frame_fixups [(1%positive, left_over)].
Proof.
  destruct (list_add_rep (list_init ∅ 1%positive) [] left_over (list_init_rep _) ltac:(done))
    as (l & E & Hl & _). unfold frame_fixups. by rewrite E.
Qed.

Lemma frame_plan_writes :
  p_writes (frame_plan frame_src D frame_memory 0x7060 frame_sgs frame_dgs a64_arch_live [left_over]) =
    frame_writes.
Proof. vm_compute. reflexivity. Qed.

Lemma frame_records_ok :
  frame_records frame_src D (Activation (CallSite 2 0x1110 0x40 2 0 3 0 0 0 u16_max) 0x7060 0x40400 (Bitmap 98 0x50000))
    (Activation (CallSite 2 0x1118 0x60 2 0 3 0 1 0 u16_max) 0x1ffe0 0x42400 (Bitmap 98 0x50000))
    frame_sgs frame_dgs a64_arch_live.
Proof.
  split; try reflexivity.
  - exists [], [], (LiveValue false false false false SM_CONSTANT 8 0 0 0).
    split_and!; try reflexivity. repeat constructor.
  - exists [], [], (LiveValue false false false false SM_CONSTANT 8 0 0 0).
    split_and!; try reflexivity. repeat constructor.
  - intros [|k] v; [by intros [= <-]|done].
  - split_and!; vm_compute; reflexivity.
Qed.

Lemma known_eq {A} W m (c : M A) a b : known W m c a -> a = b -> known W m c b.
Proof. by intros ? <-. Qed.

Lemma forallb_valid m n locs :
  forallb (fun a => valid m a n) locs = true -> Forall (fun a => valid m a n = true) locs.
Proof. rewrite forallb_forall, Forall_forall. intros Hf a Ha. by apply Hf, list_elem_of_In. Qed.

Ltac locs_tac := right; split; [eapply (known_self _ _ NULL); known_tac|];
  split; [eapply (known_self _ _ NULL); known_tac|apply forallb_valid; vm_compute; reflexivity].

Ltac object_tac := split; [eapply (known_self _ _ NULL); known_tac|eapply (known_self _ _ NULL); known_tac
  |vm_compute; split; congruence|vm_compute; split; congruence|vm_compute; congruence].

(** A value copied, or a pointer deferred. *)
Ltac move_tac := split; [reflexivity|eapply (known_self _ _ NULL); known_tac|vm_compute; congruence
  |intros _ _; eexists; vm_compute; reflexivity
  |intros bs Ht; vm_compute in Ht; first [discriminate Ht | injection Ht as <-; split; [locs_tac|
     intros _; eexists; split; [known_tac|eapply known_eq; [known_tac|vm_compute; reflexivity]]]]
  |intros a Ht; vm_compute in Ht; first [discriminate Ht | injection Ht as <-; locs_tac]
  |intros Ha; vm_compute in Ha; first [discriminate Ha | object_tac]].

Lemma frame_reads :
  frame_readable frame_src D frame_memory (touched frame_writes) frame_sgs frame_dgs a64_arch_live [left_over].
Proof.
  split.
  - repeat apply Forall_cons_2; [move_tac..|apply Forall_nil_2].
  - apply Forall_cons_2; [object_tac|apply Forall_nil_2].
  - apply Forall_cons_2; [|apply Forall_nil_2].
    split; [eapply (known_self _ _ NULL); known_tac|eapply (known_self _ _ NULL); known_tac
      |eapply (known_self _ _ 0); known_tac|eexists; vm_compute; reflexivity|apply forallb_valid; vm_compute; reflexivity].
  - apply Forall_cons_2; [locs_tac|apply Forall_nil_2].
Qed.

Fixpoint separate_check (ws : list (Z * list Z)) : bool :=
  match ws with
  | [] => true
  | w :: ws' => avoids ws' w.1 (zlen w.2) && separate_check ws'
  end.

Lemma separate_check_ok ws : separate_check ws = true -> ForallOrdPairs separate ws.
Proof.
  induction ws as [|w ws IH]; [constructor|]. cbn [separate_check].
  intros [Ha Hs]%andb_true_iff. constructor; [|by apply IH]. apply Forall_forall. intros w' Hw'.
  unfold avoids in Ha. rewrite forallb_forall in Ha.
  specialize (Ha w' (proj1 (list_elem_of_In _ _) Hw')). unfold separate, apart. lia.
Qed.

Lemma frame_objects_ok : objects_ok frame_src frame_memory 0x7060 frame_sgs frame_dgs.
Proof.
  split.
  - apply Forall_cons_2; [intros _; split; [reflexivity|left]|].
    apply Forall_cons_2; [discriminate|]. apply Forall_cons_2; [discriminate|apply Forall_nil_2].
  - apply Forall_cons_2; [vm_compute; congruence|apply Forall_nil_2].
  - apply FOP_cons; constructor.
Qed.

(** On frame [g]: the object's bytes are copied, both pointers to it are
    translated, and the register and the constant reach their places. *)
Lemma rewrite_frame_correct_witness :
  exists d' m', rewrite_frame 10 frame_src D frame_memory = Ret (d', m') /\
    peek m' <$> seqZ 0x1ffb0 8 = le_bytes 8 1234 /\
    word_at 8 m' 0x1ffa0 = 0x1ffb2 /\ word_at 8 m' 0x1ff60 = 0x1ffb4 /\
    peek m' <$> seqZ (0x42400 + off_regs + A64_x 19) 8 = le_bytes 8 42 /\
    word_at 8 m' (0x42400 + off_regs + A64_x 20) = 77.
Proof.
  destruct (rewrite_frame_correct 10 frame_src D frame_memory _ _ frame_sgs frame_dgs a64_arch_live
    [(1%positive, left_over)] frame_records_ok) as (l' & L' & m' & E & Hc & Hf & Ha & _).
  - exact (eq_ind_r (fun ws => frame_readable frame_src D frame_memory (touched ws) frame_sgs frame_dgs
      a64_arch_live [left_over]) frame_reads frame_plan_writes).
  - refine (eq_ind_r (ForallOrdPairs separate) _ frame_plan_writes).
    apply separate_check_ok. vm_compute. reflexivity.
  - exact frame_objects_ok.
  - intros _. apply Forall_cons_2; [|apply Forall_cons_2; [|apply Forall_nil_2]];
      intros _; vm_compute; congruence.
  - exact frame_fixups_rep.
  - vm_compute. reflexivity.
  - vm_compute. lia.
  - exists (set_stack_pointers l' D), m'. split; [exact E|]. split_and!.
    + eapply (Hc _ (le_bytes 8 1234)); [left|vm_compute; reflexivity|vm_compute; left].
    + etransitivity; [eapply (Hf own_pointer frame_object)|vm_compute; reflexivity];
        [right; left|left|vm_compute; split; congruence|vm_compute; left].
    + etransitivity; [eapply (Hf left_over frame_object)|vm_compute; reflexivity];
        [left|left|vm_compute; split; congruence|vm_compute; left].
    + eapply (Hc _ (le_bytes 8 42)); [right; left|vm_compute; reflexivity|vm_compute; left].
    + etransitivity; [eapply Ha; [left|vm_compute; reflexivity|vm_compute; left]|reflexivity].
Defined.
