(* ===== verification/Transform.v ===== *)
(** * Properties of the transformation

    Termination of unwinding, the correspondence it sets up between the two
    stacks, the objects a transformation allocates and frees, and the loop of
    [fixup_local_pointers] that does not end. *)

From S2P Require Import Prelude Machine Bitmap LinkedList CallSite Regs RegsAArch64 RegsX86 Context Lookup Unwind Data Rewrite Effects Sample.

(** ** Allocation and deallocation *)

(** The object malloc returned: none for NULL. *)
Definition block (p n : Z) : list (Z * Z) := if p =? NULL then [] else [(p, n)].

(** [free] of an object that later allocations are stacked upon. *)
Lemma free_block p n m above below :
  m_blocks m = above ++ block p n ++ below -> p ∉ above.*1 ->
  free p m = Ret (tt, Memory (m_bytes m) (m_junk m) (above ++ below) (m_next m)).
Proof.
  intros Hb Hp. unfold free, block in *. destruct (Z.eqb_spec p NULL) as [->|].
  - simpl in Hb. destruct m. simpl in *. by rewrite Hb.
  - assert (E : remove_block p (m_blocks m) = Some (above ++ below)); [|by rewrite E].
    rewrite Hb. clear Hb. cbn [app]. induction above as [|[b s] above IH]; simpl.
    + by rewrite Z.eqb_refl.
    + destruct (Z.eqb_spec b p) as [->|]; [destruct Hp; left|].
      rewrite IH; [done|]. intros H. apply Hp. by right.
Qed.

(** An allocation on top of the live objects. *)
Lemma malloc_block n m p m' :
  wf_memory m -> 0 < n -> malloc n m = Ret (p, m') ->
  wf_memory m' /\ m_blocks m' = block p n ++ m_blocks m /\ m_next m <= m_next m' /\
  (p <> NULL -> m_next m <= p < m_next m').
Proof.
  intros Hwf Hn H. destruct (malloc_spec n m p m' Hwf ltac:(lia) H) as [[-> ->]|[Hp Ha]].
  - split; [done|]. split; [done|]. split; [lia|done].
  - pose proof (al_wf _ _ _ _ Ha). split; [done|]. rewrite (al_blocks _ _ _ _ Ha). unfold block.
    destruct (Z.eqb_spec p NULL); [lia|]. split; [done|]. split; [apply (al_next _ _ _ _ Ha)|].
    intros _. split; [apply (al_fresh _ _ _ _ Ha)|].
    assert (Hin : (p, n) ∈ m_blocks m') by (rewrite (al_blocks _ _ _ _ Ha); left).
    pose proof (wf_block m' ltac:(done) _ _ Hin). lia.
Qed.

(** The objects of a context, the newest first. *)
Definition context_blocks (self : Z) (c : rewrite_context) : list (Z * Z) :=
  block (rc_regset_pool c) (regset_size (REGOPS c) * MAX_FRAMES) ++
  block (rc_callee_saved_pool c) (bitmap_size (num_regs (REGOPS c)) * MAX_FRAMES) ++
  block self sizeof_rewrite_context.

(** The addresses of a context's objects lie in [lo, hi) and decrease. *)
Definition stacked (self : Z) (c : rewrite_context) (lo hi : Z) : Prop :=
  lo <= self < hi /\
  (rc_callee_saved_pool c <> NULL -> self < rc_callee_saved_pool c < hi) /\
  (rc_regset_pool c <> NULL -> self < rc_regset_pool c < hi) /\
  (rc_callee_saved_pool c <> NULL -> rc_regset_pool c <> NULL ->
     rc_callee_saved_pool c < rc_regset_pool c).

Lemma wf_above m p : wf_memory m -> p ∈ (m_blocks m).*1 -> p <= m_next m.
Proof.
  intros Hwf Hp. apply list_elem_of_fmap in Hp as ([b s] & -> & Hin).
  pose proof (wf_block m Hwf b s Hin). simpl. lia.
Qed.

Lemma wf_memory_blocks m m' :
  wf_memory m -> m_blocks m' = m_blocks m -> m_next m' = m_next m -> wf_memory m'.
Proof. intros [] Hb Hn. constructor; rewrite ?Hb, ?Hn; auto. Qed.

(** A computation that first allocates a context, then only computes. *)
Definition makes_context (c : M (Z * rewrite_context)) (h : st_handle) : Prop :=
  forall m self ctx m', wf_memory m -> c m = Ret ((self, ctx), m') ->
    wf_memory m' /\ m_blocks m' = context_blocks self ctx ++ m_blocks m /\
    stacked self ctx (m_next m) (m_next m') /\ rc_handle ctx = h /\ tidy (rc_stack_pointers ctx).

Lemma new_context_pools garbage h m self c1 m1 c2 m2 :
  wf_memory m -> quiet (h_regops h) -> 0 < regset_size (h_regops h) ->
  0 < bitmap_size (num_regs (h_regops h)) ->
  new_context garbage h m = Ret ((self, c1), m1) -> init_data_pools c1 m1 = Ret (c2, m2) ->
  wf_memory m2 /\ m_blocks m2 = context_blocks self c2 ++ m_blocks m /\
  stacked self c2 (m_next m) (m_next m2) /\ rc_handle c2 = h /\
  rc_acts c2 = rc_acts garbage /\ rc_act c2 = 0.
Proof.
  intros Hwf Hq Hrs Hbs H1 H2. unfold new_context in H1.
  apply M_bind_Ret in H1 as (p & m0 & Hm0 & H1).
  destruct (Z.eqb_spec p NULL) as [|Hp]; [done|]. rewrite M_ret_run in H1.
  injection H1 as -> <- <-.
  assert (Hs1 : 0 < sizeof_rewrite_context) by reflexivity.
  assert (Hs2 : 0 < bitmap_size (num_regs (h_regops h)) * MAX_FRAMES) by (unfold MAX_FRAMES; lia).
  assert (Hs3 : 0 < regset_size (h_regops h) * MAX_FRAMES) by (unfold MAX_FRAMES; lia).
  destruct (malloc_block _ _ _ _ Hwf Hs1 Hm0) as (Hwf0 & Hb0 & Hn0 & Hr0).
  specialize (Hr0 Hp).
  unfold init_data_pools in H2. cbn [REGOPS rc_handle] in H2.
  apply M_bind_Ret in H2 as (cp & m3 & Hm3 & H2).
  apply M_bind_Ret in H2 as (rp & m4 & Hm4 & H2). rewrite M_ret_run in H2. injection H2 as <- <-.
  unfold REGOPS in *. cbn [rc_handle] in *.
  destruct (malloc_block _ _ _ _ Hwf0 Hs2 Hm3) as (Hwf3 & Hb3 & Hn3 & Hr3).
  destruct (malloc_block _ _ _ _ Hwf3 Hs3 Hm4) as (Hwf4 & Hb4 & Hn4 & Hr4).
  split; [done|]. split; [|split; [|done]].
  - unfold context_blocks, REGOPS. simpl. by rewrite Hb4, Hb3, Hb0, <- !app_assoc.
  - unfold stacked. simpl. split; [lia|]. split; [intros ?; specialize (Hr3 ltac:(done)); lia|].
    split; [intros ?; specialize (Hr4 ltac:(done)); lia|].
    intros ??. specialize (Hr3 ltac:(done)). specialize (Hr4 ltac:(done)). lia.
Qed.

(** Every operation after the allocations is tame. *)
Lemma tame_after {A} s (Q : A -> Prop) (c : M A) m a m' :
  tame s Q c -> c m = Ret (a, m') ->
  Q a /\ m_blocks m' = m_blocks m /\ m_next m' = m_next m.
Proof. intros Hc E. specialize (Hc m). by rewrite E in Hc. Qed.

(** What the operations after the allocations leave. *)
Definition set_up (c d : rewrite_context) : Prop := kept d = kept c /\ tidy (rc_stack_pointers d).

Lemma set_up_keeps c l d : tidy l -> keeps (set_stack_pointers l c) d -> set_up c d.
Proof. intros Hl [Hk Ht]. split; [exact Hk|]. by apply Ht. Qed.

(** A context made by some allocations followed by tame operations. *)
Lemma makes_context_spec garbage h (rest : Z -> rewrite_context -> M (Z * rewrite_context)) :
  quiet (h_regops h) -> 0 < regset_size (h_regops h) ->
  0 < bitmap_size (num_regs (h_regops h)) ->
  (forall self c, rc_handle c = h ->
     tame false (fun r => r.1 = self /\ set_up c r.2) (rest self c)) ->
  makes_context ('(self, ctx) ← new_context garbage h;
                 ctx ← init_data_pools ctx;
                 rest self ctx) h.
Proof.
  intros Hq Hrs Hbs Hrest m self ctx m' Hwf H.
  apply M_bind_Ret in H as ([p c1] & m1 & H1 & H). cbv beta iota in H.
  apply M_bind_Ret in H as (c2 & m2 & H2 & H3).
  destruct (new_context_pools _ _ _ _ _ _ _ _ Hwf Hq Hrs Hbs H1 H2)
    as (Hwf2 & Hb2 & Hst & Hh & _).
  destruct (tame_after _ _ _ _ _ _ (Hrest p c2 Hh) H3) as ([Hp [Hk Ht]] & Hb & Hn).
  simpl in Hp, Hk, Ht. subst p. unfold kept in Hk. injection Hk as E1 E2 E3 _.
  split; [by eapply wf_memory_blocks|]. split; [|split; [|split; [congruence|done]]].
  - rewrite Hb, Hb2. unfold context_blocks, REGOPS. congruence.
  - unfold stacked in *. rewrite Hn, E2, E3. exact Hst.
Qed.

Section supported.
Context (h : st_handle).
Context (HR : get_regops (h_arch h) = Some (h_regops h)).
Context (HP : get_properties (h_arch h) = Some (h_props h)).

Lemma supported_quiet ctx : rc_handle ctx = h -> quiet_context ctx.
Proof using HR HP.
  intros E. unfold quiet_context, REGOPS, PROPS. rewrite E.
  split; [by eapply quiet_supported|by eapply quiet_abi_supported].
Qed.

Lemma supported_sizes :
  0 < regset_size (h_regops h) /\ 0 < bitmap_size (num_regs (h_regops h)).
Proof using HR. destruct (get_regops_cases _ _ HR) as [[_ ->]|[_ ->]]; by split. Qed.

Lemma init_src_makes garbage regset sp_base :
  makes_context (init_src_context garbage h regset sp_base) h.
Proof using HR HP.
  unfold init_src_context. destruct supported_sizes.
  apply makes_context_spec; [by eapply quiet_supported|done|done|].
  intros self c Hc. set (c1 := set_stack_pointers _ c).
  destruct (supported_quiet c1 Hc) as [Hq1 Hq2]. unfold ACT.
  eapply tame_bind; [apply tame_upd_acts|intros c2 Hc2].
  pose proof (keeps_quiet _ _ Hc2 Hq1) as Hq3.
  eapply tame_bind; [apply tame_acts|intros a _].
  eapply tame_bind; [apply q_copyin, Hq3|intros _ _].
  eapply tame_bind; [apply q_sp, Hq3|intros stack _].
  set (c3 := set_bases _ _ _ c2). assert (Hk3 : keeps c2 c3) by done.
  eapply tame_bind; [apply q_pc, Hq3|intros p _].
  eapply tame_bind; [by apply tame_lift, halts_site_by_addr|intros [s|] _]; [|done].
  eapply tame_bind; [apply tame_upd_acts|intros c4 Hc4].
  assert (Hk : keeps c1 c4) by (eapply keeps_trans; [exact Hc2|by eapply keeps_trans]).
  destruct (quiet_keeps _ _ Hk (supported_quiet c1 Hc)) as [Hq5 Hq6].
  eapply tame_bind; [by apply tame_bootstrap_first_frame|intros c5 Hc5].
  apply tame_ret. split; [done|]. apply (set_up_keeps _ _ _ (list_init_tidy 1)). by eapply keeps_trans.
Qed.

Lemma init_dest_makes garbage regset sp_base p :
  makes_context (init_dest_context garbage h regset sp_base p) h.
Proof using HR HP.
  unfold init_dest_context. destruct supported_sizes.
  apply makes_context_spec; [by eapply quiet_supported|done|done|].
  intros self c Hc. set (c1 := set_stack_pointers _ c).
  destruct (supported_quiet c1 Hc) as [Hq1 Hq2]. unfold ACT.
  eapply tame_bind; [apply tame_upd_acts|intros c2 Hc2].
  pose proof (keeps_quiet _ _ Hc2 Hq1) as Hq3.
  eapply tame_bind; [apply tame_acts|intros a _].
  eapply tame_bind; [apply q_set_pc, Hq3|intros _ _].
  eapply tame_bind; [apply tame_upd_acts|intros c3 Hc3].
  apply tame_ret. split; [done|]. apply (set_up_keeps _ _ _ (list_init_tidy 1)).
  eapply keeps_trans; [exact Hc2|]. exact Hc3.
Qed.
End supported.

(** The loop of [free_context] takes every fixup off the list and frees its
    node, and touches nothing else. *)
Lemma drop_fixups_empties fuel c L d m m' :
  list_rep (rc_stack_pointers c) L ->
  drop_fixups fuel c (L.*1 !! 0%nat) m = Ret (d, m') ->
  m' = m /\ kept d = kept c /\ list_rep (rc_stack_pointers d) [].
Proof.
  revert c L. induction fuel as [|fuel IH]; intros c [|[p fx] L] Hr; cbn;
    try (intros [= <- <-]; done); try done.
  intros ([nxt c1] & m1 & E & E')%M_bind_Ret.
  destruct (list_remove_rep _ _ 0 p fx Hr eq_refl) as (l & El & Hl & _).
  unfold fixups_remove in E. rewrite El in E. apply M_bind_Ret in E as ([q l'] & m3 & [E ->]%lift_Ret & E2).
  injection E as <- <-. rewrite M_ret_run in E2. injection E2 as <- <- <-.
  by apply (IH (set_stack_pointers l c) L) in E' as (-> & Hk & He).
Qed.

(** [free_context] returns a context's objects when they are the newest, and
    leaves no fixup. *)
Lemma free_context_frees self c m l m' below lo hi :
  m_blocks m = context_blocks self c ++ below -> stacked self c lo hi -> tidy (rc_stack_pointers c) ->
  free_context self c m = Ret (l, m') -> m_blocks m' = below /\ cl_heap l = ∅.
Proof.
  intros Hb (Hs & Hc & Hr & Hcr) [L HL] H. unfold free_context in H.
  apply M_bind_Ret in H as (d & m1 & H1 & H). unfold list_begin in H1. rewrite (rep_head _ _ HL) in H1.
  destruct (drop_fixups_empties _ _ _ _ _ _ HL H1) as (-> & Hk & He).
  apply M_bind_Ret in H as ([] & m2 & H2 & H).
  assert (Hf : tame false any (for_ (Z.to_nat (rc_num_acts d)) 0
    (fun i => a ← acts d i; free_activation (rc_handle d) a))).
  { apply tame_for. intros k. eapply tame_bind; [apply tame_acts|intros; by apply tame_ret]. }
  destruct (tame_after _ _ _ _ _ _ Hf H2) as (_ & Hb2 & _). rewrite Hb in Hb2.
  unfold kept in Hk. injection Hk as E1 E2 E3 _.
  unfold free_data_pools in H. rewrite E2, E3 in H. unfold context_blocks in Hb2.
  apply M_bind_Ret in H as ([] & m4 & H4 & H). apply M_bind_Ret in H4 as ([] & m3 & H3 & H4).
  rewrite <- !app_assoc in Hb2. rewrite (free_block _ _ _ _ _ Hb2) in H3.
  2:{ unfold block. intros Hin. destruct (Z.eqb_spec (rc_regset_pool c) NULL); [by apply not_elem_of_nil in Hin|].
      simpl in Hin. apply list_elem_of_singleton in Hin.
      destruct (decide (rc_callee_saved_pool c = NULL)); [congruence|]. lia. }
  injection H3 as <-.
  rewrite (free_block _ (regset_size (REGOPS c) * MAX_FRAMES) _ []
    (block self sizeof_rewrite_context ++ below)) in H4; [|reflexivity|apply not_elem_of_nil].
  injection H4 as <-. apply M_bind_Ret in H as ([] & m5 & H5 & H).
  rewrite (free_block self sizeof_rewrite_context _ [] below) in H5; [|reflexivity|apply not_elem_of_nil].
  injection H5 as <-. rewrite M_ret_run in H. injection H as <- <-. split; [done|].
  apply dom_empty_inv_L, (rep_heap _ _ He).
Qed.

(** ** The frames unwinding finds *)

Lemma site_by_id_loop_key l k fuel min max s :
  site_by_id_loop l k fuel min max = Ret (Some s) -> cs_id s = k.
Proof.
  revert min max. induction fuel as [|fuel IH]; intros min max; simpl; [done|].
  destruct (max >=? min); [|done]. intros H. inv_outcome. revert H.
  destruct (Z.eqb_spec (cs_id x0) k) as [<-|]; [by intros [= ->]|].
  destruct (k >? cs_id x0); apply IH.
Qed.

(** Activations [lo + 1] to [hi] of the two contexts are the same call sites,
    only the last of a starting function. *)
Definition matched (lo hi : Z) (src dest : rewrite_context) : Prop :=
  forall i, lo < i <= hi -> exists a b,
    znth (rc_acts src) i = Some a /\ znth (rc_acts dest) i = Some b /\
    cs_id (act_site b) = cs_id (act_site a) /\
    first_frame (cs_id (act_site a)) = (i =? hi).

(** The frame sizes of activations [i + 1], ..., [i + n]. *)
Fixpoint frames_size (l : list activation) (i : Z) (n : nat) : Z :=
  match n with
  | O => 0
  | S n' => from_option (fun a => cs_frame_size (act_site a)) 0 (znth l (i + 1)) +
            frames_size l (i + 1) n'
  end.

Lemma frames_size_ext l l' i n :
  (forall j, i < j <= i + Z.of_nat n -> znth l' j = znth l j) ->
  frames_size l' i n = frames_size l i n.
Proof.
  revert i. induction n as [|n IH]; intros i H; simpl; [done|].
  rewrite H by lia. f_equal. apply IH. intros j Hj. apply H. lia.
Qed.

(** One iteration of the loop. *)
Lemma unwind_step fuel src dest sz m r m' :
  unwind_loop (S fuel) src dest sz m = Ret (r, m') ->
  rc_act dest = rc_act src ->
  let A := rc_act src + 1 in
  exists s2 d2 m2 a b, rc_act s2 = A /\ rc_act d2 = A /\
    rc_num_acts s2 = rc_num_acts src + 1 /\ rc_num_acts d2 = rc_num_acts dest + 1 /\
    (forall j, j <> A -> znth (rc_acts s2) j = znth (rc_acts src) j) /\
    (forall j, j <> A -> znth (rc_acts d2) j = znth (rc_acts dest) j) /\
    znth (rc_acts s2) A = Some a /\ znth (rc_acts d2) A = Some b /\
    cs_id (act_site b) = cs_id (act_site a) /\
    rc_stack_base d2 = rc_stack_base dest /\ rc_handle d2 = rc_handle dest /\
    let sz2 := wrap64 (sz + cs_frame_size (act_site b)) in
    (if first_frame (cs_id (act_site a)) then r = (s2, d2, sz2) /\ m' = m2
     else unwind_loop fuel s2 d2 sz2 m2 = Ret (r, m')).
Proof.
  intros H Eact. cbv zeta. cbn [unwind_loop] in H.
  apply M_bind_Ret in H as (c & m1 & H1 & H).
  apply pop_frame_advances in H1 as (c0 & (l0 & -> & Hl0 & Hj0) & -> & Hr).
  apply M_bind_Ret in H as (a0 & m2 & H2 & H). apply acts_Ret in H2 as [Ha0 ->].
  apply M_bind_Ret in H as (p & m2 & H2 & H).
  apply M_bind_Ret in H as ([st|] & m3 & [_ ->]%lift_Ret & H); [|done].
  apply M_bind_Ret in H as (c2 & m3 & H3 & H). apply upd_acts_Ret in H3 as (a1 & l1 & Ha1 & Hl1 & -> & ->).
  apply M_bind_Ret in H as ([sd|] & m4 & [Hid ->]%lift_Ret & H); [|done].
  apply site_by_id_loop_key in Hid.
  apply M_bind_Ret in H as (d2 & m4 & H4 & H). apply upd_acts_Ret in H4 as (b1 & l2 & Hb1 & Hl2 & -> & ->).
  apply M_bind_Ret in H as (cfa & m5 & _ & H).
  apply M_bind_Ret in H as (c3 & m6 & H6 & H). apply upd_acts_Ret in H6 as (a2 & l3 & Ha2 & Hl3 & -> & ->).
  cbn [rc_act set_act set_num_acts set_acts rc_acts rc_num_acts] in *. rewrite Eact in Hb1, Hl2.
  assert (Ea2 : a2 = set_site st a1) by (pose proof (znth_zupd_eq _ _ _ _ Hl1); congruence).
  exists (set_acts l3 (set_acts l1 (set_num_acts (rc_num_acts src + 1)
      (set_act (rc_act src + 1) (set_acts l0 src))))),
    (set_acts l2 (set_act (rc_act dest + 1) (set_num_acts (rc_num_acts dest + 1) dest))),
    m5, (set_cfa cfa a2), (set_site sd b1).
  split; [reflexivity|]. split; [by simpl; rewrite Eact|]. split; [reflexivity|]. split; [reflexivity|].
  cbn [rc_acts set_acts set_act set_num_acts].
  split; [|split; [|split; [|split; [|split; [|split; [reflexivity|split; [reflexivity|]]]]]]].
  - intros j Hj. rewrite (znth_zupd_ne _ _ _ _ _ Hl3), (znth_zupd_ne _ _ _ _ _ Hl1) by done. by apply Hj0.
  - intros j Hj. by rewrite (znth_zupd_ne _ _ _ _ _ Hl2) by done.
  - by eapply znth_zupd_eq.
  - by eapply znth_zupd_eq.
  - rewrite Ea2. exact Hid.
  - rewrite Ea2. cbn [act_site set_cfa set_site]. destruct (first_frame (cs_id st)); [|exact H].
    rewrite M_ret_run in H. by injection H as <- <-.
Qed.

Lemma unwind_loop_post fuel src dest sz m s' d' sz' m' :
  unwind_loop fuel src dest sz m = Ret ((s', d', sz'), m') ->
  rc_act dest = rc_act src ->
  exists n : nat, let k := rc_act src + Z.of_nat n in
    (0 < n)%nat /\ rc_act s' = k /\ rc_act d' = k /\
    rc_num_acts s' = rc_num_acts src + Z.of_nat n /\
    rc_num_acts d' = rc_num_acts dest + Z.of_nat n /\
    (forall j, j <= rc_act src -> znth (rc_acts s') j = znth (rc_acts src) j) /\
    (forall j, j <= rc_act src -> znth (rc_acts d') j = znth (rc_acts dest) j) /\
    matched (rc_act src) k s' d' /\
    sz' = wrap64 (sz + frames_size (rc_acts d') (rc_act src) n) /\
    rc_stack_base d' = rc_stack_base dest /\ rc_handle d' = rc_handle dest.
Proof.
  revert src dest sz m. induction fuel as [|fuel IH]; intros src dest sz m H Eact; [done|].
  apply unwind_step in H as (s2 & d2 & m2 & a & b & E1 & E2 & E3 & E4 & Hs & Hd & Ha & Hb & Hid
    & Hbase & Hh & H); [|done].
  destruct (first_frame (cs_id (act_site a))) eqn:Ef.
  - destruct H as [[= -> -> ->] _]. exists 1%nat. cbv zeta.
    change (Z.of_nat 1) with 1. split; [lia|]. do 4 (split; [done|]).
    split; [intros j ?; apply Hs; lia|]. split; [intros j ?; apply Hd; lia|].
    split; [|split; [|done]].
    + intros i Hi. assert (i = rc_act src + 1) as -> by lia. exists a, b.
      rewrite Z.eqb_refl. done.
    + cbn [frames_size]. rewrite Hb. simpl. by rewrite Z.add_0_r.
  - apply IH in H as (n & Hn & Ek & Ek' & En & En' & Hs' & Hd' & Hm & Hsz & Hb' & Hh'); [|lia].
    exists (S n). cbv zeta. rewrite Nat2Z.inj_succ.
    replace (rc_act src + Z.succ (Z.of_nat n)) with (rc_act s2 + Z.of_nat n) by lia.
    split; [lia|]. do 2 (split; [done|]). do 2 (split; [lia|]).
    split; [intros j ?; rewrite Hs' by lia; apply Hs; lia|].
    split; [intros j ?; rewrite Hd' by lia; apply Hd; lia|].
    split; [|split; [|split; congruence]].
    + intros i Hi. destruct (decide (i = rc_act src + 1)) as [->|].
      * exists a, b. rewrite Hs', Hd' by lia. split; [done|]. split; [done|]. split; [done|].
        rewrite Ef. symmetry. apply Z.eqb_neq. lia.
      * apply Hm. lia.
    + rewrite Hsz, wrap_add_l. cbn [frames_size]. rewrite (Hd' (rc_act src + 1)) by lia.
      rewrite Hb, E1. simpl. f_equal. lia.
Qed.

(** Between the two initialisations and the two releases only the data of the
    contexts changes: their objects stay. *)
Lemma rewriting_keeps {A} fuel src dest (k : rewrite_context -> rewrite_context -> M A) m4 r m' :
  quiet_context src -> quiet_context dest ->
  ('(src, dest) ← unwind_and_size src dest;
   nxt ← NEXT_ACT dest;
   set_return_address_funcentry dest (cs_addr (act_site nxt));;
   dest ← pop_frame_funcentry dest;
   let src := set_act 1 src in
   '(src, dest) ← rewrite_frames fuel (Z.to_nat (rc_num_acts src - 2)) src dest;
   a0 ← acts dest 0;
   regset_copyout (REGOPS dest) (act_regs a0) (rc_regs dest);;
   k src dest) m4 = Ret (r, m') ->
  exists src' dest' m5, keeps src src' /\ keeps dest dest' /\
    m_blocks m5 = m_blocks m4 /\ k src' dest' m5 = Ret (r, m').
Proof.
  intros Hqs Hqd H.
  apply M_bind_Ret in H as ([s1 d1] & m5 & H5 & H). cbv beta iota in H.
  destruct (tame_after _ _ _ _ _ _ (tame_unwind_and_size true src dest Hqs Hqd ltac:(done)) H5)
    as ([Hs1 Hd1] & Hb5 & _). simpl in Hs1, Hd1.
  pose proof (quiet_keeps _ _ Hs1 Hqs) as Hqs1. pose proof (quiet_keeps _ _ Hd1 Hqd) as Hqd1.
  apply M_bind_Ret in H as (nx & m6 & H6 & H). apply acts_Ret in H6 as [_ ->].
  apply M_bind_Ret in H as ([] & m6 & H6 & H).
  destruct (tame_after _ _ _ _ _ _ (tame_set_return_address_funcentry d1 (proj1 Hqd1)
    (proj2 Hqd1) _) H6) as (_ & Hb6 & _).
  apply M_bind_Ret in H as (d2 & m7 & H7 & H).
  destruct (tame_after _ _ _ _ _ _ (tame_pop_frame_funcentry d1 (proj1 Hqd1) (proj2 Hqd1)) H7)
    as (Hd2 & Hb7 & _). pose proof (quiet_keeps _ _ Hd2 Hqd1) as Hqd2.
  apply M_bind_Ret in H as ([s3 d3] & m8 & H8 & H). cbv beta iota in H.
  destruct (tame_after _ _ _ _ _ _ (tame_rewrite_frames fuel _ (set_act 1 s1) d2 Hqs1 Hqd2) H8)
    as ([Hs3 Hd3] & Hb8 & _). simpl in Hs3, Hd3.
  pose proof (quiet_keeps _ _ Hd3 Hqd2) as Hqd3.
  apply M_bind_Ret in H as (a0 & m9 & H9 & H). apply acts_Ret in H9 as [_ ->].
  apply M_bind_Ret in H as ([] & m9 & H9 & H).
  destruct (tame_after _ _ _ _ _ _ (q_copyout _ (proj1 Hqd3) _ _) H9) as (_ & Hb9 & _).
  exists s3, d3, m9. split; [|split; [|split; [congruence|exact H]]].
  - eapply keeps_trans; [exact Hs1|]. exact Hs3.
  - eapply keeps_trans; [exact Hd1|]. by eapply keeps_trans.
Qed.

(** ** The sample as a witness *)

Ltac lia_block H := repeat (destruct H as [[= -> ->]|H]; [lia|]); done.

Definition sample_dest : rewrite_context :=
  RewriteContext a64_handle 0 0 0 0 0 (rc_acts garbage_context)
    (list_init ∅ 1%positive) 0 0.

Lemma sample_returns : exists m',
  st_rewrite_stack 8 garbage_context (Some x86_handle) src_regs 0x8000
    (Some a64_handle) dest_regs 0x20000 start_memory = Ret (0, m').
Proof.
  assert (E : match st_rewrite_stack 8 garbage_context (Some x86_handle) src_regs 0x8000
    (Some a64_handle) dest_regs 0x20000 start_memory with
    Ret (r, _) => r =? 0 | _ => false end = true)
    by (vm_compute; reflexivity).
  destruct (st_rewrite_stack _ _ _ _ _ _ _ _ _) as [[r m']|e| |]; try done. apply Z.eqb_eq in E as ->. by exists m'.
Qed.

Lemma start_memory_wf : wf_memory start_memory.
Proof.
  constructor.
  - intros b s. unfold start_memory, src_regs, dest_regs. simpl.
    rewrite !elem_of_cons, elem_of_nil. intros H. lia_block H.
  - simpl. unfold heap_limit. lia.
  - repeat first [apply FOP_cons | apply FOP_nil | apply Forall_cons; split | apply Forall_nil];
      try done; unfold disjoint_blocks, src_regs, dest_regs; simpl; lia.
Qed.

(** The contexts [unwind_and_size] is called with on the sample. *)
Definition sample_contexts : outcome ((rewrite_context * rewrite_context) * memory) :=
  ('(_, src) ← init_src_context garbage_context x86_handle src_regs 0x8000;
   '(_, dest) ← init_dest_context garbage_context a64_handle dest_regs 0x20000 0x1000;
   mret (src, dest)) start_memory.

Lemma sample_unwinds : exists src dest m s' d' m',
  rc_act src = 0 /\ rc_act dest = 0 /\ rc_num_acts src = 0 /\ rc_num_acts dest = 0 /\
  unwind_and_size src dest m = Ret ((s', d'), m').
Proof.
  assert (E : match sample_contexts with
    | Ret ((src, dest), m) =>
        (rc_act src =? 0) && (rc_act dest =? 0) && (rc_num_acts src =? 0) &&
        (rc_num_acts dest =? 0) &&
        match unwind_and_size src dest m with Ret _ => true | _ => false end
    | _ => false end = true) by (vm_compute; reflexivity).
  destruct sample_contexts as [[[src dest] m]|e| |]; try done.
  destruct (unwind_and_size src dest m) as [[[s' d'] m']|e| |] eqn:Eu;
    rewrite ?andb_false_r in E; try done.
  rewrite !andb_true_iff, !Z.eqb_eq in E. exists src, dest, m, s', d', m'. tauto.
Qed.

(** ** Properties *)

(** C6: When a transformation between two supported architectures returns, it has
    freed all it allocated.  The live objects are those there were before it: the
    contexts and data pools are gone, and nothing else is.  And of the fixups
    that were added to the two contexts' lists, one node each, none is left,
    whether it was resolved or not. *)
Theorem st_rewrite_stack_frees_all fuel garbage hs regset_src base_src hd regset_dest base_dest
    m r m' :
  get_regops (h_arch hs) = Some (h_regops hs) ->
  get_properties (h_arch hs) = Some (h_props hs) ->
  get_regops (h_arch hd) = Some (h_regops hd) ->
  get_properties (h_arch hd) = Some (h_props hd) ->
  wf_memory m ->
  st_rewrite_stack fuel garbage (Some hs) regset_src base_src (Some hd) regset_dest base_dest m =
    Ret (r, m') ->
  m_blocks m' = m_blocks m /\
  exists left, rewrite_stack fuel garbage (Some hs) regset_src base_src (Some hd) regset_dest base_dest m =
      Ret ((r, left), m') /\ (r = 0 -> length left = 2%nat) /\ Forall (fun l => cl_heap l = ∅) left.
Proof.
  intros Rs Ps Rd Pd Hwf H. apply M_bind_Ret in H as ([r0 left] & m0 & H & E). rewrite M_ret_run in E.
  injection E as -> ->. enough (m_blocks m' = m_blocks m /\ (r = 0 -> length left = 2%nat) /\
    Forall (fun l => cl_heap l = ∅) left) as [? ?] by eauto. unfold rewrite_stack in H.
  destruct (_ || _); [by injection H as <- <- <-|].
  apply M_bind_Ret in H as ([ps src] & m1 & H1 & H).
  destruct (init_src_makes hs Rs Ps garbage regset_src base_src _ _ _ _ Hwf H1)
    as (Hwf1 & Hb1 & Hst1 & Hh1 & Ht1). cbv beta iota in H.
  pose proof (supported_quiet hs Rs Ps src Hh1) as Hqs.
  apply M_bind_Ret in H as (a & m2 & H2 & H). apply acts_Ret in H2 as [_ ->].
  apply M_bind_Ret in H as (pc0 & m2 & H2 & H).
  destruct (tame_after _ _ _ _ _ _ (q_pc _ (proj1 Hqs) _) H2) as (_ & Hb2 & Hn2).
  apply M_bind_Ret in H as (fn & m3 & [_ ->]%lift_Ret & H).
  apply M_bind_Ret in H as ([pd dest] & m4 & H4 & H). cbv beta iota in H.
  destruct (init_dest_makes hd Rd Pd garbage regset_dest base_dest fn _ _ _ _
    (wf_memory_blocks _ _ Hwf1 Hb2 Hn2) H4) as (Hwf4 & Hb4 & Hst4 & Hh4 & Ht4).
  pose proof (supported_quiet hd Rd Pd dest Hh4) as Hqd.
  destruct (rewriting_keeps fuel src dest
    (fun s d => ld ← free_context pd d; ls ← free_context ps s; mret (0, [ld; ls])) _ _ _ Hqs Hqd H)
    as (s' & d' & m5 & [Hks Hts] & [Hkd Htd] & Hb5 & Hfin).
  unfold kept in Hks, Hkd. injection Hks as Es1 Es2 Es3 _. injection Hkd as Ed1 Ed2 Ed3 _.
  apply M_bind_Ret in Hfin as (ld & m6 & F1 & Hfin).
  apply M_bind_Ret in Hfin as (ls & m7 & F2 & Hfin). rewrite M_ret_run in Hfin.
  injection Hfin as <- <- <-.
  eapply (free_context_frees pd d' m5 ld m6) in F1 as [F1 Hld];
    [|rewrite Hb5, Hb4; unfold context_blocks, REGOPS; rewrite Ed1, Ed2, Ed3; reflexivity
     |unfold stacked in *; rewrite Ed2, Ed3; exact Hst4|by apply Htd].
  eapply (free_context_frees ps s' m6 ls m7) in F2 as [F2 Hls];
    [|rewrite F1, Hb2, Hb1; unfold context_blocks, REGOPS; rewrite Es1, Es2, Es3; reflexivity
     |unfold stacked in *; rewrite Es2, Es3; exact Hst1|by apply Hts].
  split; [done|]. split; [done|]. by repeat constructor.
Qed.

Lemma st_rewrite_stack_frees_all_witness :
  exists m' (left : list (clist fixup)),
  st_rewrite_stack 8 garbage_context (Some x86_handle) src_regs 0x8000
    (Some a64_handle) dest_regs 0x20000 start_memory = Ret (0, m') /\
  m_blocks m' = m_blocks start_memory /\ length left = 2%nat /\ Forall (fun l => cl_heap l = ∅) left.
Proof.
  destruct sample_returns as [m' E].
  destruct (st_rewrite_stack_frees_all 8 garbage_context x86_handle src_regs 0x8000
    a64_handle dest_regs 0x20000 start_memory 0 m' eq_refl eq_refl eq_refl eq_refl
    start_memory_wf E) as (Hb & left & _ & Hl & Hf).
  exists m', left. split; [exact E|]. split; [exact Hb|]. split; [by apply Hl|exact Hf].
Defined.

(** Unwinding the source stack always ends, whatever the stack, the
    registers and the metadata hold: every iteration moves to a new
    activation, and a context has 512 of them. *)
Theorem unwind_and_size_terminates src dest m :
  get_regops (h_arch (rc_handle src)) = Some (h_regops (rc_handle src)) ->
  get_properties (h_arch (rc_handle src)) = Some (h_props (rc_handle src)) ->
  get_regops (h_arch (rc_handle dest)) = Some (h_regops (rc_handle dest)) ->
  get_properties (h_arch (rc_handle dest)) = Some (h_props (rc_handle dest)) ->
  0 <= rc_act src <= zlen (rc_acts src) -> zlen (rc_acts src) <= MAX_FRAMES ->
  unwind_and_size src dest m <> Spin.
Proof.
  intros Rs Ps Rd Pd Ha Hl E.
  pose proof (tame_unwind_and_size false src dest (supported_quiet _ Rs Ps _ eq_refl)
    (supported_quiet _ Rd Pd _ eq_refl) (fun _ => conj Ha Hl) m) as H.
  by rewrite E in H.
Qed.

Lemma unwind_and_size_terminates_witness :
  unwind_and_size garbage_context sample_dest start_memory <> Spin.
Proof.
  apply (unwind_and_size_terminates garbage_context sample_dest start_memory eq_refl eq_refl
    eq_refl eq_refl); simpl; unfold MAX_FRAMES, zlen; simpl; lia.
Defined.

(** C5: When unwinding returns, starting from the innermost activations of the
    two contexts, it has found [k] further frames: the two contexts hold the
    same call sites (by identifier) in activations 1 to [k], of which exactly
    the last is a starting function; both count [k + 1] activations and are
    back at activation 0; and the destination's stack pointer is its stack base
    less the destination's sizes of those frames, aligned where the
    architecture asks for it. *)
Theorem unwind_and_size_matches src dest m s' d' m' :
  rc_act src = 0 -> rc_act dest = 0 -> rc_num_acts src = 0 -> rc_num_acts dest = 0 ->
  unwind_and_size src dest m = Ret ((s', d'), m') ->
  exists k : nat, (0 < k)%nat /\ matched 0 (Z.of_nat k) s' d' /\
    rc_num_acts s' = Z.of_nat k + 1 /\ rc_num_acts d' = Z.of_nat k + 1 /\
    rc_act s' = 0 /\ rc_act d' = 0 /\
    let top := ptr_add (rc_stack_base dest) (- wrap64 (frames_size (rc_acts d') 0 k)) in
    (if sp_needs_align (PROPS dest) then align_sp (PROPS dest) top else Ret top) =
      Ret (rc_stack d').
Proof.
  intros A1 A2 N1 N2 H. unfold unwind_and_size in H.
  apply M_bind_Ret in H as ([[s1 d1] sz] & m1 & H1 & H). cbv beta iota in H.
  apply unwind_loop_post in H1 as (k & Hk & Ea1 & Ea2 & En1 & En2 & _ & _ & Hm & Hsz & Hb & Hh);
    [|lia]. rewrite A1 in *. rewrite Z.add_0_l in *.
  apply M_bind_Ret in H as (s2 & m2 & H2 & H).
  apply pop_frame_advances in H2 as (c0 & (l & -> & _ & Hl) & -> & _).
  apply M_bind_Ret in H as (stack & m3 & H3 & H).
  apply M_bind_Ret in H as (a & m4 & _ & H). apply M_bind_Ret in H as ([] & m5 & _ & H).
  apply M_bind_Ret in H as ([] & m6 & _ & H). apply M_bind_Ret in H as (d2 & m7 & H7 & H).
  apply bootstrap_funcentry_same in H7 as (ld & -> & _ & Hld). rewrite M_ret_run in H.
  injection H as <- <- _. cbn [rc_act rc_acts set_stack set_act set_num_acts set_acts] in Hld.
  cbn [rc_act set_act set_acts set_stack set_num_acts rc_num_acts rc_acts rc_stack] in *.
  exists k. split; [done|]. split; [|split; [lia|split; [lia|split; [done|split; [done|]]]]].
  - intros i Hi. destruct (Hm i Hi) as (x & y & Hx & Hy & ?). exists x, y.
    cbn [rc_acts set_act set_acts set_num_acts set_stack].
    rewrite Hl, Hld by lia. done.
  - cbv zeta. rewrite (frames_size_ext (rc_acts d1) ld) by (intros j ?; apply Hld; lia).
    rewrite <- Hb. change (PROPS dest) with (h_props (rc_handle dest)). rewrite <- Hh.
    unfold PROPS in H3. cbn [rc_handle set_act set_num_acts rc_stack_base] in H3.
    rewrite Hsz in H3.
    destruct (sp_needs_align (h_props (rc_handle d1))).
    + apply lift_Ret in H3 as [H3 _]. exact H3.
    + rewrite M_ret_run in H3. by injection H3 as <- _.
Qed.

Lemma unwind_and_size_matches_witness :
  exists src dest m s' d' m', unwind_and_size src dest m = Ret ((s', d'), m') /\
    exists k : nat, (0 < k)%nat /\ matched 0 (Z.of_nat k) s' d'.
Proof.
  destruct sample_unwinds as (src & dest & m & s' & d' & m' & A1 & A2 & N1 & N2 & E).
  exists src, dest, m, s', d', m'. split; [exact E|].
  destruct (unwind_and_size_matches src dest m s' d' m' A1 A2 N1 N2 E) as (k & Hk & Hm & _).
  exists k. split; [exact Hk|exact Hm].
Defined.

(** ** The local fixups *)

(** A fixup outside the frame after a resolved one is visited forever. *)
Lemma fixup_loop_stuck fuel src dest p fx sa da m :
  znth (rc_acts src) (rc_act src) = Some sa -> znth (rc_acts dest) (rc_act dest) = Some da ->
  list_data (rc_stack_pointers dest) p = Ret fx -> act_cfa sa < fx_src_addr fx ->
  fixup_loop fuel src dest (Some p) (Some true) m = Spin.
Proof.
  intros Hs Hd Hfx Hlt. induction fuel as [|fuel IH]; [done|]. cbn [fixup_loop]. unfold ACT.
  rewrite (M_bind_step _ _ _ _ _ (acts_run _ _ _ _ Hs)).
  rewrite (M_bind_step _ _ _ _ _ (acts_run _ _ _ _ Hd)). rewrite Hfx.
  rewrite (M_bind_step _ _ m fx m) by done.
  destruct (Z.leb_spec (fx_src_addr fx) (act_cfa sa)); [lia|]. exact IH.
Qed.

(** C28: [fixup_local_pointers] never returns, whatever the number of steps it
    is given, when the first fixup is resolved in the frame and the next one
    points above the frame (a caller's data): [found_fixup] keeps the value
    [true] of the earlier iteration, and the list is no longer advanced. *)
Theorem fixup_local_pointers_diverges src dest sa da p1 fx1 p2 fx2 rest addr m m1 m2 :
  list_rep (rc_stack_pointers dest) ((p1, fx1) :: (p2, fx2) :: rest) ->
  znth (rc_acts src) (rc_act src) = Some sa -> znth (rc_acts dest) (rc_act dest) = Some da ->
  fx_src_addr fx1 <= act_cfa sa -> fx_act fx1 = rc_act src ->
  find_local src dest sa da fx1 (S (Z.to_nat (cs_num_live (act_site da)))) 0 0 m =
    Ret (Some addr, m1) ->
  put_val_data dest (fx_dest_loc fx1) (fx_act fx1) addr m1 = Ret (tt, m2) ->
  act_cfa sa < fx_src_addr fx2 ->
  forall fuel, fixup_local_pointers fuel src dest m = Spin.
Proof.
  intros Hl Hs Hd Hle Hact Hfind Hput Hgt fuel. unfold fixup_local_pointers.
  rewrite (list_begin_rep _ _ Hl). cbn [fmap list_fmap lookup list_lookup fst].
  destruct fuel as [|fuel]; [done|]. cbn [fixup_loop]. unfold ACT.
  rewrite (M_bind_step _ _ _ _ _ (acts_run _ _ _ _ Hs)).
  rewrite (M_bind_step _ _ _ _ _ (acts_run _ _ _ _ Hd)).
  rewrite (list_data_rep _ _ 0%nat p1 fx1 Hl eq_refl), (M_bind_step _ _ m fx1 m) by done.
  destruct (Z.leb_spec (fx_src_addr fx1) (act_cfa sa)); [|lia].
  rewrite Hact, Z.eqb_refl. cbn [negb]. rewrite Hact in Hput.
  rewrite (M_bind_step _ _ _ _ _ Hfind), (M_bind_step _ _ _ _ _ Hput).
  destruct (list_remove_rep _ _ 0%nat p1 fx1 Hl eq_refl) as (l' & Hrem & Hrep & _).
  unfold fixups_remove. rewrite Hrem. simpl.
  eapply (fixup_loop_stuck _ _ (set_stack_pointers l' dest) p2 fx2 sa da); try done.
  exact (list_data_rep l' _ 0%nat p2 fx2 Hrep eq_refl).
Qed.

(** Frames of [g] on both stacks; the first fixup is the pointer to [g]'s stack
    object, the second a pointer above the frame. *)
Definition loop_memory : memory :=
  Memory (word (0x40000 + off_regs + X86_gpr RBP) 0x7050
         (word (0x41000 + off_regs + A64_x 29) 0x1ffd0 ∅)) (fun _ => 0)
    [(0x1f000, 0x1000); (0x40000, 1024); (0x41000, 1024)] 0x100000.

Definition loop_context (h : st_handle) (site : call_site) (cfa regs : Z)
    (fixups : clist fixup) : rewrite_context :=
  RewriteContext h 0 0 0 1 0 [Activation site cfa regs (Bitmap 0 0)] fixups 0 0.

Lemma fixup_local_pointers_diverges_witness :
  exists src dest m, forall fuel, fixup_local_pointers fuel src dest m = Spin.
Proof.
  destruct (list_add_rep (list_init (A := fixup) ∅ 1%positive) [] (Fixup 0x7034 0
    (LiveValue false false true false SM_INDIRECT 8 29 (- 0x30) 0)) (list_init_rep _) eq_refl)
    as (l1 & _ & Hl1 & _).
  destruct (list_add_rep l1 _ (Fixup 0x9000 0
    (LiveValue false false true false SM_INDIRECT 8 29 (- 0x30) 0)) Hl1 eq_refl)
    as (l2 & _ & Hl2 & _).
  eexists (loop_context x86_handle (CallSite 2 0x1110 0x40 2 0 3 0 0 0 u16_max) 0x7060 0x40000
      (list_init ∅ 1%positive)),
    (loop_context a64_handle (CallSite 2 0x1118 0x60 2 0 3 0 1 0 u16_max) 0x1ffe0 0x41000 l2),
    loop_memory.
  eapply (fixup_local_pointers_diverges _ _ _ _ _ _ _ _ []); [exact Hl2|reflexivity|reflexivity|..].
  - simpl. lia.
  - reflexivity.
  - vm_compute. reflexivity.
  - vm_compute. reflexivity.
  - simpl. lia.
Defined.
