(* ===== verification/UnwindWalk.v ===== *)
(** * Unwinding finds the frames of the stack

    [unwind_and_size] (src/rewrite.c) against the chain of frames that the
    metadata describe.  [caller] reads a frame's caller off the stack, [walk]
    follows callers up to a starting function; on a stack whose walk ends within
    the frames that the pool of bitmaps has room for, unwinding returns with
    exactly those frames. *)

From S2P Require Import Prelude Machine Bitmap LinkedList CallSite Regs RegsAArch64 RegsX86 Context Lookup Unwind Data Rewrite Effects Sample Transform.

(** ** Specification *)

(** The register that leads to the caller: the one with the return address
    where there is one, else the program counter. *)
Class ReturnLaws (R : regops_t) (P : properties_t) `{AbiLaws R P} := {
  ret_reg : Z;
  ret_off : Z;
  law_ret : reg_off ret_reg = Some ret_off /\ reg_size R ret_reg = Ret 8 /\ ret_reg <> sp_reg;
  law_ret_off : ret_off = if has_ra_reg R then ra_off else pc_off;
  law_words_saved : callee_reg_size P ret_reg = Ret 8 /\ callee_reg_size P fbp_reg = Ret 8 /\ fbp_reg <> sp_reg;
  law_align : forall p, sp_needs_align P = true -> exists q, align_sp P p = Ret q
}.

#[export] Instance return_aarch64 : ReturnLaws regs_aarch64 properties_aarch64.
Proof.
  refine {| ret_reg := A64_X AARCH64_LINK_REG; ret_off := off_regs + A64_x AARCH64_LINK_REG;
    law_ret := _; law_ret_off := _; law_words_saved := _; law_align := _ |}; done.
Defined.

#[export] Instance return_x86_64 : ReturnLaws regs_x86_64 properties_x86_64.
Proof.
  refine {| ret_reg := RIP; ret_off := off_regs + X86_rip;
    law_ret := _; law_ret_off := _; law_words_saved := _; law_align := _ |}; [done..|].
  intros p _. unfold align_sp, properties_x86_64, align_sp_x86_64. destruct (truthy _); by eexists.
Defined.

(** A frame: its base pointer, where it returns to, its CFA and call site. *)
Record vframe := VFrame { vf_fbp : Z; vf_ret : Z; vf_cfa : Z; vf_site : call_site }.

Section Walk.
Context (h : st_handle) {L : RegLayout (h_regops h)} {HRL : RegLaws (h_regops h)}
  {HA : AbiLaws (h_regops h) (h_props h)} {HL : ReturnLaws (h_regops h) (h_props h)}.

(** The unwinding records of a call site. *)
Definition site_records (s : call_site) : list unwind_loc :=
  take (Z.to_nat (unwind_end s - unwind_start s)) (drop (Z.to_nat (unwind_start s)) (h_unwind_locs h)).

(** What a frame's caller had in a register: what is in the slot where the frame
    saved it, or what the frame still has. *)
Definition saved (m : memory) (f : vframe) (r old : Z) : Z :=
  match list_find (fun loc => ul_reg loc = r) (site_records (vf_site f)) with
  | Some (_, loc) => word_at 8 m (vf_fbp f + ul_offset loc)
  | None => old
  end.

(** The caller of a frame, when its return address is that of a call site. *)
Definition caller (m : memory) (f : vframe) : option vframe :=
  let ret := saved m f ret_reg (vf_ret f) in
  match get_site_by_addr h ret with
  | Ret (Some s) => Some (VFrame (saved m f fbp_reg (vf_fbp f)) ret (ptr_add (wrap64 (vf_cfa f)) (cs_frame_size s)) s)
  | _ => None
  end.

(** The callers of a frame up to a starting function, at most [n]. *)
Fixpoint walk (m : memory) (n : nat) (f : vframe) : option (list vframe) :=
  match n with
  | O => None
  | S n' =>
      g ← caller m f;
      if first_frame (cs_id (vf_site g)) then Some [g] else cons g <$> walk m n' g
  end.

#[local] Abbreviation R := (h_regops h).
#[local] Abbreviation P := (h_props h).
#[local] Abbreviation bits := (bitmap_size (num_regs R)).
#[local] Abbreviation size := (regset_size R).

(** The source's pools: [rp] for register sets, [cp] for bitmaps, and [m0], the
    memory at the start. *)
Context (rp cp : Z) (m0 : memory).

Definition pools (x : Z) : Prop := span rp (size * MAX_FRAMES) x \/ span cp (bits * MAX_FRAMES) x.

Record room : Prop := Room {
  rm_wf : wf_memory m0;
  rm_regs : valid m0 rp (size * MAX_FRAMES) = true;
  rm_bits : valid m0 cp (bits * MAX_FRAMES) = true;
  rm_apart : apart cp (bits * MAX_FRAMES) rp (size * MAX_FRAMES)
}.

(** A frame that can be left: its records are in the section and name
    callee-saved registers once; their slots are live memory apart from the
    pools. *)
Record walkable (f : vframe) : Prop := Walkable {
  wk_records : records (h_unwind_locs h) (vf_site f) (site_records (vf_site f));
  wk_nodup : NoDup (ul_reg <$> site_records (vf_site f));
  wk_saved : forall loc, loc ∈ site_records (vf_site f) -> is_callee_saved P (ul_reg loc) = true;
  wk_slots : forall loc n, loc ∈ site_records (vf_site f) -> callee_reg_size P (ul_reg loc) = Ret n ->
    valid m0 (vf_fbp f + ul_offset loc) n = true /\
    apart (vf_fbp f + ul_offset loc) n rp (size * MAX_FRAMES) /\
    apart (vf_fbp f + ul_offset loc) n cp (bits * MAX_FRAMES)
}.

(** The source's context, somewhere along the way. *)
Record along (ctx : rewrite_context) (m : memory) : Prop := Along {
  al_handle : rc_handle ctx = h;
  al_regs : rc_regset_pool ctx = rp;
  al_bits : rc_callee_saved_pool ctx = cp;
  al_len : zlen (rc_acts ctx) = MAX_FRAMES;
  al_mem : only_writes pools m0 m
}.

(** Activation [i] is a frame. *)
Definition regs_at (i : Z) : Z := rp + i * size.
Definition bits_at (i : Z) : bitmap := Bitmap (num_regs R) (cp + 8 * (i * bits)).

Definition holds (ctx : rewrite_context) (m : memory) (i : Z) (f : vframe) : Prop :=
  znth (rc_acts ctx) i = Some (Activation (vf_site f) (vf_cfa f) (regs_at i) (bits_at i)) /\
  special fbp_off m (regs_at i) = vf_fbp f /\ special ret_off m (regs_at i) = vf_ret f.

(** ** Lemmas *)

Section Steps.
Context (HR : room).

Lemma bits_pos : 0 < bits.
Proof using HRL.
  pose proof law_num_regs. unfold bitmap_size, truthy. change STORAGE_TYPE_BITS with 64.
  pose proof (Z.div_mod (num_regs R) 64 ltac:(lia)). pose proof (Z.div_pos (num_regs R) 64 ltac:(lia) ltac:(lia)).
  destruct (Z.eqb_spec (num_regs R mod 64) 0); cbn [negb]; lia.
Qed.

Lemma size_pos : 0 < size.
Proof using HRL. pose proof law_size. pose proof off_regs_nonneg. lia. Qed.

Lemma pools_bounds : 0 < rp /\ rp + size * MAX_FRAMES <= heap_limit /\ 0 < cp /\ cp + bits * MAX_FRAMES <= heap_limit.
Proof using HRL HR.
  pose proof bits_pos. pose proof size_pos.
  destruct (valid_pos m0 _ _ (rm_wf HR) (rm_regs HR)); [unfold MAX_FRAMES; lia|].
  destruct (valid_pos m0 _ _ (rm_wf HR) (rm_bits HR)); [unfold MAX_FRAMES; lia|]. lia.
Qed.

(** Where activation [i]'s objects are. *)
Lemma regs_inside i x : 0 <= i < MAX_FRAMES -> span (regs_at i) size x -> span rp (size * MAX_FRAMES) x.
Proof using HRL. pose proof size_pos. unfold span, regs_at, MAX_FRAMES. nia. Qed.

Lemma bits_inside i x : 0 <= i < 64 -> span (bm_bits (bits_at i)) bits x -> span cp (bits * MAX_FRAMES) x.
Proof using HRL. pose proof bits_pos. unfold span, bits_at, MAX_FRAMES. cbn. nia. Qed.

Lemma regs_apart i j x : i <> j -> span (regs_at i) size x -> ~ span (regs_at j) size x.
Proof using HRL. pose proof size_pos. unfold span, regs_at. nia. Qed.

Lemma regs_valid m i : only_writes pools m0 m -> 0 <= i < MAX_FRAMES -> regset_valid R m (regs_at i).
Proof using HRL HR.
  intros Hw Hi. unfold regset_valid. rewrite (only_writes_valid _ _ _ _ _ Hw). pose proof size_pos.
  apply (valid_sub m0 rp (size * MAX_FRAMES)); [apply HR| |]; unfold regs_at, MAX_FRAMES in *; nia.
Qed.

Lemma bits_valid m i : only_writes pools m0 m -> 0 <= i < 64 -> bitmap_valid m (bits_at i).
Proof using HRL HR.
  intros Hw Hi. unfold bitmap_valid. rewrite (only_writes_valid _ _ _ _ _ Hw). pose proof bits_pos.
  apply (valid_sub m0 cp (bits * MAX_FRAMES)); [apply HR| |]; unfold bits_at, MAX_FRAMES; cbn; nia.
Qed.

(** Whatever a bitmap's words hold, it represents a set. *)
Lemma bitmap_rep_any m b : bitmap_valid m b -> exists S : gset Z, bitmap_rep m b S.
Proof using Type.
  intros Hv. exists (list_to_set (filter (fun n => bit_at m b n = true) (seqZ 0 (bm_size b)))). split; [done|].
  intros n Hn _. apply eq_true_iff_eq. rewrite bool_decide_eq_true, elem_of_list_to_set, list_elem_of_filter, elem_of_seqZ.
  split; [intros ?; split; [done|lia]|by intros [? _]].
Qed.

Lemma frame_unwindable ctx m i f : along ctx m -> 0 <= i < 64 -> holds ctx m i f -> walkable f ->
  exists S, unwindable h m (Activation (vf_site f) (vf_cfa f) (regs_at i) (bits_at i)) (regs_at (i + 1))
    (site_records (vf_site f)) S.
Proof using HRL HA HR.
  intros Ha Hi (_ & Hf & _) Hk. pose proof (al_mem _ _ Ha) as Hw.
  destruct (bitmap_rep_any m (bits_at i)) as [S HS]; [by apply bits_valid|]. exists S.
  pose proof pools_bounds. pose proof size_pos. pose proof bits_pos.
  destruct (rm_apart HR) as [Hap|Hap]; split; try apply Hk; cbn [act_regs act_callee_saved act_site]; try done.
  all: try (by eapply only_writes_wf; [exact Hw|apply HR]).
  all: try (apply regs_valid; [done|unfold MAX_FRAMES; lia]).
  all: try (unfold apart, regs_at, bits_at, MAX_FRAMES in *; cbn; nia).
  all: intros loc n Hl Hn; destruct (wk_slots _ Hk _ _ Hl Hn) as (Hv & Ha1 & Ha2); unfold save_slot; cbn [act_regs];
    rewrite Hf; split; [by rewrite (only_writes_valid _ _ _ _ _ Hw)|];
    unfold apart, regs_at, bits_at, MAX_FRAMES in *; cbn; split; nia.
Qed.
(** A word-sized register of the caller. *)
Lemma caller_word m m' prev p recs r o :
  reg_off r = Some o -> reg_size R r = Ret 8 -> callee_reg_size P r = Ret 8 -> r <> sp_reg ->
  (forall loc, loc ∈ recs -> restored h m m' prev p loc) ->
  (forall r, r <> sp_reg -> r ∉ ul_reg <$> recs -> reg_bytes R m' p r = reg_bytes R m (act_regs prev) r) ->
  special o m' p = match list_find (fun loc => ul_reg loc = r) recs with
                   | Some (_, loc) => word_at 8 m (save_slot h m prev loc)
                   | None => special o m (act_regs prev)
                   end.
Proof using HRL.
  intros Ho Hsz Hcs Hsp Hr Hs. assert (forall q, reg R q r = Ret (q + o)) as Hreg by (intros q; by rewrite law_reg, Ho).
  destruct (list_find _ recs) as [[i loc]|] eqn:E.
  - apply list_find_Some in E as (Hl & E & _). apply list_elem_of_lookup_2 in Hl. subst r.
    unfold special, word_at. change (Z.of_nat 8) with 8. by rewrite (Hr loc Hl 8 (p + o)).
  - apply list_find_None in E. assert (r ∉ ul_reg <$> recs) as Hn.
    { intros (loc & -> & Hl)%list_elem_of_fmap. rewrite Forall_forall in E. by apply (E loc). }
    specialize (Hs r Hsp Hn). unfold reg_bytes in Hs. rewrite !Hreg, Hsz in Hs. unfold special, word_at. change (Z.of_nat 8) with 8. by rewrite Hs.
Qed.

Lemma saved_word ctx m i f r : along ctx m -> walkable f -> holds ctx m i f -> callee_reg_size P r = Ret 8 ->
  forall old, match list_find (fun loc => ul_reg loc = r) (site_records (vf_site f)) with
  | Some (_, loc) => word_at 8 m (save_slot h m (Activation (vf_site f) (vf_cfa f) (regs_at i) (bits_at i)) loc)
  | None => old
  end = saved m0 f r old.
Proof using Type.
  intros Ha Hk (_ & Hf & _) Hcs old. unfold saved. destruct (list_find _ _) as [[j loc]|] eqn:E; [|done].
  apply list_find_Some in E as (Hl & E & _). apply list_elem_of_lookup_2 in Hl. subst r.
  unfold save_slot. cbn [act_regs]. rewrite Hf. apply (word_at_frame _ 8 _ _ _ (al_mem _ _ Ha)).
  destruct (wk_slots _ Hk _ _ Hl Hcs) as (_ & Ha1 & Ha2). unfold pools, span, apart in *. cbn. lia.
Qed.

(** The frames found so far stay. *)
Lemma holds_frame ctx ctx' m m' j f Q : 0 <= j < MAX_FRAMES ->
  znth (rc_acts ctx') j = znth (rc_acts ctx) j -> only_writes Q m m' ->
  (forall x, span (regs_at j) size x -> ~ Q x) -> holds ctx m j f -> holds ctx' m' j f.
Proof using HRL HL.
  intros Hj Hz Hw HQ (Ha & Hf & Hr). unfold holds. rewrite Hz. split; [done|]. rewrite <- Hf, <- Hr.
  pose proof fbp_bounds. destruct (law_ret (R := R) (P := P)) as (Ho & Hs & _).
  destruct (law_reg_size _ _ Ho) as (n & En & Hn & Hlo & Hhi & _). rewrite Hs in En. injection En as <-.
  pose proof off_regs_nonneg. unfold special.
  split; apply (word_at_frame _ 8 _ _ _ Hw); intros x Hx; apply HQ; unfold span in *; cbn in *; lia.
Qed.

(** One frame. *)
Lemma pop_step ctx m i f : along ctx m -> rc_act ctx = i -> 0 <= i < 64 -> holds ctx m i f -> walkable f ->
  exists ctx' m' a, pop_frame ctx false m = Ret (ctx', m') /\ along ctx' m' /\
    rc_act ctx' = i + 1 /\ rc_num_acts ctx' = rc_num_acts ctx /\
    (forall j g, 0 <= j <= i -> holds ctx m j g -> holds ctx' m' j g) /\
    znth (rc_acts ctx') (i + 1) = Some (Activation (act_site a) (act_cfa a) (regs_at (i + 1)) (bits_at (i + 1))) /\
    special fbp_off m' (regs_at (i + 1)) = saved m0 f fbp_reg (vf_fbp f) /\
    special ret_off m' (regs_at (i + 1)) = saved m0 f ret_reg (vf_ret f) /\
    special pc_off m' (regs_at (i + 1)) = saved m0 f ret_reg (vf_ret f) /\
    special sp_off m' (regs_at (i + 1)) = wrap64 (vf_cfa f).
Proof using HRL HA HL HR.
  intros Ha Hi Hb Hf Hk. pose proof (frame_unwindable ctx m i f Ha Hb Hf Hk) as [S U].
  pose proof (al_len _ _ Ha) as Hlen. assert (exists a, znth (rc_acts ctx) (i + 1) = Some a) as [a Hn].
  { apply znth_is_Some. rewrite Hlen. unfold MAX_FRAMES. lia. }
  pose proof pools_bounds as Hpb. pose proof size_pos. pose proof bits_pos.
  assert (ptr_add rp ((i + 1) * size) = regs_at (i + 1)) as Hp.
  { apply ptr_add_small. unfold heap_limit, MAX_FRAMES in *. nia. }
  assert (ptr_add cp (8 * ((i + 1) * bits)) = cp + 8 * ((i + 1) * bits)) as Hp'.
  { apply ptr_add_small. unfold heap_limit, MAX_FRAMES in *. nia. }
  destruct ctx as [h' sb st rg na ac acs sps rp' cp'].
  pose proof Ha as [Hh Er Ec _ Hw]. cbn [rc_handle rc_regset_pool rc_callee_saved_pool rc_act rc_acts] in *. subst h' rp' cp' ac.
  set (ctx := RewriteContext h _ _ _ _ _ _ _ _ _) in *.
  destruct (pop_frame_run ctx m _ a (site_records (vf_site f)) S (proj1 Hf) Hn) as
    (ctx' & m' & Hrun & Hact & _ & Hz & Hsp & Hpc & Hres & Hrest & _ & Hwr); [cbn; by rewrite Hp|].
  cbn [rc_regset_pool rc_handle rc_act ctx] in Hz, Hsp, Hpc, Hres, Hrest, Hwr, Hact. rewrite Hp in *. rewrite Hact in Hz.
  pose proof Hrun as (c & (l & -> & Hll & Hj) & -> & _)%pop_frame_advances.
  cbn [rc_acts set_acts set_act rc_act ctx] in Hj, Hz, Hll.
  assert (only_writes pools m0 m') as Hw'.
  { transitivity m; [done|]. eapply only_writes_weaken; [exact Hwr|]. intros x [Hx|Hx]; [left|right].
    - apply (regs_inside (i + 1)); [unfold MAX_FRAMES; lia|done].
    - by apply (bits_inside i). }
  assert (forall r o, reg_off r = Some o -> reg_size R r = Ret 8 -> callee_reg_size P r = Ret 8 -> r <> sp_reg ->
    special o m' (regs_at (i + 1)) = saved m0 f r (special o m (regs_at i))) as Hword.
  { intros r o Ho Hs Hc Hns. rewrite (caller_word m m' _ (regs_at (i + 1)) _ r o Ho Hs Hc Hns Hres Hrest). cbn [act_regs].
    by apply (saved_word ctx m i f r). }
  destruct (law_ret (R := R) (P := P)) as (Ho & Hs & Hns). destruct (law_words_saved (R := R) (P := P)) as (Hc1 & Hc2 & Hfs).
  destruct law_fbp_reg as [Hfo Hfz]. destruct Hf as (Hf & Hff & Hfr).
  pose proof (Hword _ _ Hfo Hfz Hc2 Hfs) as Hbp. rewrite Hff in Hbp.
  pose proof (Hword _ _ Ho Hs Hc1 Hns) as Hrt. rewrite Hfr in Hrt.
  exists (set_act (i + 1) (set_acts l ctx)), m', a. split; [exact Hrun|]. split_and!; try done.
  - split; cbn; try done. rewrite Hll. exact Hlen.
  - intros j g Hji Hg. eapply (holds_frame ctx); [unfold MAX_FRAMES; lia|by apply Hj; lia|exact Hwr| |exact Hg].
    intros x Hx [Hx'|Hx'].
    + by apply (regs_apart j (i + 1) x ltac:(lia) Hx).
    + apply (regs_inside j) in Hx; [|unfold MAX_FRAMES; lia]. apply (bits_inside i) in Hx'; [|done].
      destruct (rm_apart HR); unfold span in *; lia.
  - cbn [rc_acts set_act set_acts]. rewrite Hz. do 3 f_equal. unfold callee_saved_bits, REGOPS. cbn [rc_handle rc_callee_saved_pool ctx].
    unfold bits_at. by rewrite Hp'.
  - pose proof (law_ret_off (R := R) (P := P)) as Hro. rewrite <- Hrt, Hro. destruct (has_ra_reg R); [by apply Hpc|done].
Qed.
Lemma walk_length n f fs : walk m0 n f = Some fs -> (0 < length fs <= n)%nat.
Proof using Type.
  revert f fs. induction n as [|n IH]; intros f fs; [done|]. cbn [walk]. destruct (caller m0 f) as [g|]; [|done].
  cbn [mbind option_bind]. destruct (first_frame _); [intros [= <-]; cbn; lia|].
  destruct (walk m0 n g) as [gs|] eqn:E; [|done]. apply IH in E. intros [= <-]. cbn. lia.
Qed.

(** The destination's context after [k] more frames. *)
Definition dest_after (dest d' : rewrite_context) (i k : Z) : Prop :=
  exists l, d' = set_acts l (set_act (i + k) (set_num_acts (rc_num_acts dest + k) dest)) /\
    zlen l = zlen (rc_acts dest) /\ forall j, j <= i -> znth l j = znth (rc_acts dest) j.

(** A frame's call site is known on the destination. *)
Definition known (hd : st_handle) (g : vframe) (s : call_site) : Prop :=
  get_site_by_id hd (cs_id (vf_site g)) = Ret (Some s).

Lemma set_site_cfa_holds ctx m i g s a l : znth (rc_acts ctx) i = Some a ->
  zupd (rc_acts ctx) i (set_cfa (vf_cfa g) (set_site s a)) = Some l -> s = vf_site g ->
  act_regs a = regs_at i -> act_callee_saved a = bits_at i ->
  special fbp_off m (regs_at i) = vf_fbp g -> special ret_off m (regs_at i) = vf_ret g ->
  holds (set_acts l ctx) m i g.
Proof using Type.
  intros Ha Hl -> Hr Hb Hf Ht. split; [|done]. cbn [rc_acts set_acts]. rewrite (znth_zupd_eq _ _ _ _ Hl).
  destruct a. cbn in *. by subst.
Qed.

(** One iteration of the loop finds the caller. *)
Lemma loop_step fuel src dest sz m i f g sd : along src m -> rc_act src = i -> 0 <= i < 64 - 1 -> holds src m i f ->
  walkable f -> caller m0 f = Some g -> known (rc_handle dest) g sd -> rc_act dest = i -> i + 1 < zlen (rc_acts dest) ->
  exists s' d' m', along s' m' /\ rc_act s' = i + 1 /\ rc_num_acts s' = rc_num_acts src + 1 /\ dest_after dest d' i 1 /\
    (exists b, znth (rc_acts d') (i + 1) = Some b /\ act_site b = sd) /\
    (forall j g, 0 <= j <= i -> holds src m j g -> holds s' m' j g) /\ holds s' m' (i + 1) g /\
    unwind_loop (Datatypes.S fuel) src dest sz m =
      (let sz := wrap64 (sz + cs_frame_size sd) in
       if first_frame (cs_id (vf_site g)) then Ret ((s', d', sz), m') else unwind_loop fuel s' d' sz m').
Proof using HRL HA HL HR.
  intros Ha Hi Hb Hf Hk Hc Hsd Hdi Hdl.
  destruct (pop_step src m i f Ha Hi ltac:(lia) Hf Hk) as (c & m1 & a & Hrun & Hac & Eact & Ena & Hkeep & Hz & Hbp & Hrt & Hpc & Hsp).
  unfold caller in Hc. destruct (get_site_by_addr h _) as [[s|]| | |] eqn:Es; try done. injection Hc as <-. cbn [vf_site] in *.
  pose proof Hac as [Hh Er Ec Elen Hw].
  destruct c as [h' sb st rg na ac acs sps rp' cp']. cbn [rc_handle rc_regset_pool rc_callee_saved_pool rc_act rc_acts rc_num_acts] in *. subst h' rp' cp' ac na.
  set (c := RewriteContext h sb st rg (rc_num_acts src + 1) (i + 1) acs sps rp cp).
  destruct (upd_acts_run (set_site s) (i + 1) c m1 _ Hz) as (l1 & Hl1 & Hu1).
  destruct (znth_is_Some (rc_acts dest) (i + 1)) as [b Hdb]; [lia|].
  destruct (upd_acts_run (set_site sd) (i + 1) (set_act (i + 1) (set_num_acts (rc_num_acts dest + 1) dest)) m1 b Hdb) as (l2 & Hl2 & Hu2).
  pose proof (znth_zupd_eq _ _ _ _ Hl1) as Hz1.
  set (cfa := ptr_add (wrap64 (vf_cfa f)) (cs_frame_size s)).
  destruct (upd_acts_run (set_cfa cfa) (i + 1) (set_acts l1 c) m1 _ Hz1) as (l3 & Hl3 & Hu3).
  cbn [rc_acts set_acts] in Hl3, Hl1, Hl2.
  exists (set_acts l3 (set_acts l1 c)), (set_acts l2 (set_act (i + 1) (set_num_acts (rc_num_acts dest + 1) dest))), m1.
  split_and!; try done.
  - split; cbn; try done. by rewrite (zupd_length _ _ _ _ Hl3), (zupd_length _ _ _ _ Hl1).
  - exists l2. split; [done|]. split; [by rewrite (zupd_length _ _ _ _ Hl2)|]. intros j Hj. rewrite (znth_zupd_ne _ _ _ _ _ Hl2); [done|lia].
  - eexists. split; [by apply (znth_zupd_eq _ _ _ _ Hl2)|done].
  - intros j g' Hj Hg'. destruct (Hkeep j g' Hj Hg') as (H1 & H2 & H3). split; [|done]. cbn [rc_acts set_acts].
    rewrite (znth_zupd_ne _ _ _ _ _ Hl3), (znth_zupd_ne _ _ _ _ _ Hl1) by lia. exact H1.
  - split; [|done]. cbn [rc_acts set_acts]. rewrite (znth_zupd_eq _ _ _ _ Hl3). done.
  - cbn [unwind_loop]. rewrite (M_bind_step _ _ _ _ _ Hrun). cbv zeta. cbn [rc_num_acts set_num_acts].
    change (rc_act (set_num_acts (rc_num_acts dest + 1) dest)) with (rc_act dest). rewrite Hdi.
    change (set_num_acts (rc_num_acts src + 1) _) with c.
    unfold ACT at 1. change (rc_act c) with (i + 1).
    rewrite (M_bind_step _ _ _ _ _ (acts_run c (i + 1) m1 _ Hz)). change (REGOPS c) with R. cbn [act_regs].
    assert (regset_valid R m1 (regs_at (i + 1))) as Hv by (apply regs_valid; [done|unfold MAX_FRAMES; lia]).
    rewrite (M_bind_step _ _ _ _ _ (pc_run m1 _ Hv)), Hpc. change (rc_handle c) with h. rewrite Es.
    rewrite (M_bind_step _ _ m1 (Some s) m1) by done.
    rewrite (M_bind_step _ _ _ _ _ Hu1).
    change (rc_handle (set_act (i + 1) (set_num_acts (rc_num_acts dest + 1) dest))) with (rc_handle dest).
    unfold known in Hsd. cbn [vf_site] in Hsd. rewrite Hsd.
    rewrite (M_bind_step _ _ m1 (Some sd) m1) by done.
    change (rc_act (set_act (i + 1) (set_num_acts (rc_num_acts dest + 1) dest))) with (i + 1).
    rewrite (M_bind_step _ _ _ _ _ Hu2). change (rc_act (set_acts l1 c)) with (i + 1).
    rewrite (M_bind_step _ _ m1 cfa m1).
    2: { unfold calculate_cfa. rewrite (M_bind_step _ _ _ _ _ (acts_run (set_acts l1 c) (i + 1) m1 _ Hz1)).
      change (REGOPS (set_acts l1 c)) with R. cbn [act_regs set_site act_site].
      rewrite (M_bind_step _ _ _ _ _ (sp_run m1 _ Hv)), Hsp. done. }
    rewrite (M_bind_step _ _ _ _ _ Hu3). by destruct (first_frame (cs_id s)).
Qed.
(** The whole loop finds the walk. *)
Lemma loop_walks n : forall fuel src dest sz m i f fs, along src m -> rc_act src = i -> 0 <= i ->
  holds src m i f -> walk m0 n f = Some fs -> Forall walkable (f :: fs) ->
  Forall (fun g => exists s, known (rc_handle dest) g s) fs -> (length fs <= fuel)%nat -> i + zlen fs < 64 ->
  rc_act dest = i -> i + zlen fs < zlen (rc_acts dest) ->
  exists s' d' sz' m', unwind_loop fuel src dest sz m = Ret ((s', d', sz'), m') /\ along s' m' /\
    rc_act s' = i + zlen fs /\ rc_num_acts s' = rc_num_acts src + zlen fs /\ dest_after dest d' i (zlen fs) /\
    (forall j g, 0 <= j <= i -> holds src m j g -> holds s' m' j g) /\
    (forall j g, fs !! j = Some g -> holds s' m' (i + 1 + Z.of_nat j) g /\
       exists b, znth (rc_acts d') (i + 1 + Z.of_nat j) = Some b /\ known (rc_handle dest) g (act_site b)).
Proof using HRL HA HL HR.
  induction n as [|n IH]; intros fuel src dest sz m i f fs Ha Hi H0 Hf Hw Hk Hd Hfu Hlt Hdi Hdl; [done|]. cbn [walk] in Hw.
  destruct (caller m0 f) as [g|] eqn:Ec; [|done]. cbn [mbind option_bind] in Hw.
  apply Forall_cons in Hk as [Hkf Hk].
  assert (exists gs, fs = g :: gs) as [gs ->].
  { destruct (first_frame _); [injection Hw as <-; by eexists|]. destruct (walk m0 n g); [|done]. injection Hw as <-. by eexists. }
  assert (zlen (g :: gs) = zlen gs + 1) as El by (unfold zlen; cbn [length]; lia). assert (0 <= zlen gs) by (unfold zlen; lia).
  rewrite El in *. apply Forall_cons in Hd as [[sd Hsd] Hd]. destruct fuel as [|fuel]; [cbn in Hfu; lia|].
  destruct (loop_step fuel src dest sz m i f g sd) as (s1 & d1 & m1 & Ha1 & E1 & N1 & D1 & (b & Hb & Hbs) & Hkeep & Hg & Hrun);
    [done|done|lia|done|done|done|done|done|lia|].
  rewrite Hrun. cbv zeta. pose proof D1 as (l & -> & Hll & Hlj).
  set (d1 := set_acts l (set_act (i + 1) (set_num_acts (rc_num_acts dest + 1) dest))) in *.
  destruct (first_frame (cs_id (vf_site g))).
  - injection Hw as <-. unfold zlen. cbn [length]. change (Z.of_nat 0) with 0. exists s1, d1. eexists _, m1. split; [done|].
    rewrite Z.add_0_l. split_and!; try done. intros [|j] g' Hj; [|done]. injection Hj as <-.
    rewrite Z.add_0_r. split; [done|]. exists b. split; [done|]. by rewrite Hbs.
  - destruct (walk m0 n g) as [gs'|] eqn:Ew; [|done]. injection Hw as ->.
    destruct (IH fuel s1 d1 (wrap64 (sz + cs_frame_size sd)) m1 (i + 1) g gs) as
      (s2 & d2 & sz2 & m2 & Hrun2 & Ha2 & E2 & N2 & D2 & Hkeep2 & Hall); try done; try lia.
    { cbn in Hfu. lia. }
    { cbn [rc_acts set_acts d1]. rewrite Hll. lia. }
    exists s2, d2, sz2, m2. split; [done|]. split; [done|]. split; [lia|]. split; [lia|]. split; [|split].
    + destruct D2 as (l2 & -> & Hl2 & Hj2). exists l2. split; [|split].
      * cbn. unfold set_acts, set_act, set_num_acts, d1. cbn. f_equal; lia.
      * by rewrite Hl2.
      * intros j Hj. rewrite Hj2 by lia. cbn [rc_acts set_acts d1]. by apply Hlj.
    + intros j g' Hj Hg'. apply Hkeep2; [lia|]. by apply Hkeep.
    + intros [|j] g' Hj.
      * injection Hj as <-. rewrite Z.add_0_r. split; [apply Hkeep2; [lia|done]|]. exists b. split; [|by rewrite Hbs].
        destruct D2 as (l2 & -> & _ & Hj2). cbn [rc_acts set_acts]. rewrite Hj2 by lia. exact Hb.
      * destruct (Hall j g' Hj) as [Hh (b' & Hb' & Hk')]. replace (i + 1 + Z.of_nat (Datatypes.S j)) with (i + 1 + 1 + Z.of_nat j) by lia.
        split; [done|]. by exists b'.
Qed.
End Steps.
End Walk.

(** *** The destination at the end *)

Section Destination.
Context (dest : rewrite_context) {L : RegLayout (h_regops (rc_handle dest))} {HRL : RegLaws (h_regops (rc_handle dest))}
  {HA : AbiLaws (h_regops (rc_handle dest)) (h_props (rc_handle dest))}
  {HL : ReturnLaws (h_regops (rc_handle dest)) (h_props (rc_handle dest))}.

#[local] Abbreviation R := (h_regops (rc_handle dest)).
#[local] Abbreviation P := (h_props (rc_handle dest)).
#[local] Abbreviation bits := (bitmap_size (num_regs R)).

(** What is written: the innermost activation's registers and the bitmaps. *)
Definition dest_writes (a : activation) (x : Z) : Prop :=
  span (act_regs a) (regset_size R) x \/ span (rc_callee_saved_pool dest) (bits * MAX_FRAMES) x.

Lemma align_returns stack :
  exists q, forall m, (if sp_needs_align P then lift (align_sp P stack) else mret stack : M Z) m = Ret (q, m).
Proof using HL.
  destruct (sp_needs_align P) eqn:E; [|by exists stack].
  destruct (law_align stack E) as [q ->]. by exists q.
Qed.

Lemma dest_finish k stack m a : 0 <= k < MAX_FRAMES -> znth (rc_acts dest) 0 = Some a -> rc_act dest = 0 ->
  regset_valid R m (act_regs a) -> valid m (rc_callee_saved_pool dest) (bits * MAX_FRAMES) = true ->
  exists d' m', (set_sp R (act_regs a) stack;;
      memset (rc_callee_saved_pool dest) 0 (bits * (k + 1));; bootstrap_first_frame_funcentry dest) m = Ret (d', m') /\
    same_but_act 0 dest d' /\ only_writes (dest_writes a) m m'.
Proof using HRL.
  intros Hk Ha Hact Hv Hb. pose proof sp_bounds. pose proof off_regs_nonneg.
  destruct (set_sp_run m (act_regs a) stack Hv) as (m1 & E1 & _ & W1). rewrite (M_bind_step _ _ _ _ _ E1).
  pose proof (bits_pos (rc_handle dest)) as Hbp.
  assert (0 <= bits * (k + 1)) as Hn by (unfold MAX_FRAMES in *; nia).
  pose proof (memset_run (rc_callee_saved_pool dest) 0 (bits * (k + 1)) m1 Hn) as E2.
  rewrite (only_writes_valid _ _ _ _ _ W1) in E2.
  specialize (E2 (valid_sub m _ (bits * MAX_FRAMES) _ (bits * (k + 1)) Hb (Z.le_refl _) ltac:(unfold MAX_FRAMES in *; nia))).
  rewrite (M_bind_step _ _ _ _ _ E2). pose proof (memset_frame _ _ _ _ _ Hn E2) as W2. set (m2 := poked m1 _ _) in *.
  assert (regset_valid R m2 (act_regs a)) as Hv2.
  { unfold regset_valid. by rewrite (only_writes_valid _ _ _ _ _ W2), (only_writes_valid _ _ _ _ _ W1). }
  assert (only_writes (dest_writes a) m m2) as W.
  { transitivity m1; [eapply only_writes_weaken; [exact W1|]|eapply only_writes_weaken; [exact W2|]];
      unfold dest_writes, span, MAX_FRAMES in *; intros x Hx; [left; lia|right; nia]. }
  assert (exists d', bootstrap_first_frame_funcentry dest m2 = Ret (d', m2)) as [d' E3].
  { unfold bootstrap_first_frame_funcentry, setup_callee_saved_bits. rewrite Hact.
    destruct (upd_acts_run (set_callee_saved (Bitmap (num_regs (REGOPS dest)) (callee_saved_bits dest 0))) 0 dest m2 a Ha)
      as (l & Hl & Hu). rewrite (M_bind_step _ _ _ _ _ Hu). pose proof (znth_zupd_eq _ _ _ _ Hl) as Hz.
    unfold ACT. change (rc_act (set_acts l dest)) with (rc_act dest). rewrite Hact.
    rewrite (M_bind_step _ _ _ _ _ (acts_run (set_acts l dest) 0 m2 _ Hz)).
    change (REGOPS (set_acts l dest)) with R. change (act_regs (set_callee_saved _ a)) with (act_regs a).
    rewrite (M_bind_step _ _ _ _ _ (sp_run m2 _ Hv2)).
    destruct (upd_acts_run (set_cfa (ptr_add (special sp_off m2 (act_regs a)) (cfa_offset_funcentry (PROPS (set_acts l dest)))))
      0 (set_acts l dest) m2 _ Hz) as (l2 & _ & Hu2). by eexists. }
  exists d', m2. split; [done|]. split; [|done].
  apply bootstrap_funcentry_same in E3. by rewrite Hact in E3.
Qed.
End Destination.

(** ** Properties *)


(** ** Witnesses *)

(** The stack of [Sample]: [f], [g] and the starting function. *)
Definition walk_memory : memory :=
  Memory
    (word (0x100000 + 16) 0x1010 (word (0x100000 + 24 + 8 * 7) 0x7000 (word (0x100000 + 24 + 8 * 6) 0x7010
    (word 0x7010 0x7050 (word 0x7018 0x1110 (word 0x7050 0x7070 (word 0x7058 0x1210 ∅)))))))
    (fun _ => 0)
    [(0x6000, 0x2000); (0x100000, 640 * 512); (0x160000, 16 * 512); (0x170000, 800); (0x180000, 16 * 512)] 0x200000.

Definition walk_frame : vframe := VFrame 0x7010 0x1010 0x7020 (CallSite 1 0x1010 0x20 2 0 0 0 0 0 u16_max).

Definition walk_callers : list vframe :=
  [VFrame 0x7050 0x1110 0x7060 (CallSite 2 0x1110 0x40 2 0 3 0 0 0 u16_max);
   VFrame 0x7070 0x1210 0x7080 (CallSite u64_max 0x1210 0x20 2 0 0 3 0 0 u16_max)].

Definition walk_activations (p : Z) (b : bitmap) (s : call_site) : list activation :=
  Activation s 0x7020 p b :: replicate 511 (Activation EMPTY_CALL_SITE 0 0 (Bitmap 0 0)).

Definition walk_src : rewrite_context :=
  RewriteContext x86_handle 0x8000 0x7000 src_regs 0 0
    (walk_activations 0x100000 (Bitmap 67 0x160000) (vf_site walk_frame)) (list_init ∅ 1%positive) 0x100000 0x160000.

Definition walk_dest : rewrite_context :=
  RewriteContext a64_handle 0x20000 0 dest_regs 0 0
    (walk_activations 0x170000 (Bitmap 0 0) EMPTY_CALL_SITE) (list_init ∅ 1%positive) 0x170000 0x180000.

Lemma walk_room : room x86_handle 0x100000 0x160000 walk_memory.
Proof.
  split; [|reflexivity|reflexivity|right; vm_compute; discriminate].
  constructor; [|vm_compute; split; [reflexivity|discriminate]|].
  - intros b s. unfold walk_memory. simpl. rewrite !elem_of_cons, elem_of_nil. intros H. lia_block H.
  - repeat first [apply FOP_cons | apply FOP_nil | apply Forall_cons; split | apply Forall_nil];
      try done; unfold disjoint_blocks; simpl; lia.
Qed.

Lemma sample_walkable f : vf_site f ∈ x86_sites -> valid walk_memory (vf_fbp f) 16 = true ->
  0x6000 <= vf_fbp f < 0x8000 -> walkable x86_handle 0x100000 0x160000 walk_memory f.
Proof.
  intros Hs Hv Hb. assert (site_records x86_handle (vf_site f) = [UnwindLoc 6 0; UnwindLoc 16 8] /\
    records (h_unwind_locs x86_handle) (vf_site f) (site_records x86_handle (vf_site f))) as [E Hr].
  { unfold x86_sites in Hs. rewrite !elem_of_cons, elem_of_nil in Hs.
    destruct Hs as [->|[->|[->|[]]]]; (split; [reflexivity|]); (split; [reflexivity|]);
      intros [|[|i]] loc; cbn; intros [= <-]; reflexivity. }
  split; [exact Hr|rewrite E..].
  - apply (bool_decide_unpack _). vm_compute. exact I.
  - intros loc. rewrite !elem_of_cons, elem_of_nil. intros [->|[->|[]]]; reflexivity.
  - intros loc n. rewrite !elem_of_cons, elem_of_nil. intros [->|[->|[]]] [= <-]; cbn [ul_offset].
    + split; [apply (valid_sub walk_memory (vf_fbp f) 16 _ _ Hv); lia|]. unfold apart. lia.
    + split; [apply (valid_sub walk_memory (vf_fbp f) 16 _ _ Hv); lia|]. unfold apart. lia.
Qed.

