(* ===== verification/Init.v ===== *)
(** * Handles (src/init.c and the ELF helpers of src/util.c)

    [st_init] opens a binary, finds the metadata sections and fills a handle;
    at any failure it releases what it has acquired.  libelf and the operating
    system are parameters, given as the type classes [Libelf] and [Os]. *)

From S2P Require Import Prelude Machine CallSite Regs RegsAArch64 RegsX86 Context Lookup.
From stdpp Require Import strings.

#[local] Open Scope Z_scope.

(** ** libelf and the operating system *)

(** The fields of a section header that the code reads. *)
Record GElf_Shdr := Shdr {
  sh_name : Z;
  sh_size : Z;
  sh_entsize : Z;
}.

(** The functions of libelf; NULL is [None].  [elf_getdata] gives the
    descriptor's buffer [d_buf], which may be NULL itself. *)
Class Libelf (Elf Scn : Type) := {
  elf_begin : Z -> option Elf;
  elf64_getehdr : Elf -> option Z;
  elf_getident : Elf -> option (list Z);
  elf_getshdrstrndx : Elf -> option Z;
  elf_nextscn : Elf -> option Scn -> option Scn;
  gelf_getshdr : Scn -> option GElf_Shdr;
  elf_strptr : Elf -> Z -> Z -> option string;
  elf_getdata : Scn -> option (option (list Z));
}.

(** [elf_nextscn] enumerates the sections of the file. *)
Class LibelfLaws (Elf Scn : Type) `{Libelf Elf Scn} := {
  sections : Elf -> list Scn;
  law_first_section e : elf_nextscn e None = sections e !! 0%nat;
  law_next_section e i s : sections e !! i = Some s -> elf_nextscn e (Some s) = sections e !! S i;
}.

(** [open(fn, O_RDONLY)], given the descriptors in use. *)
Class Os := {
  os_open : list Z -> string -> Z;
}.

(** The resources of the process: memory, file and ELF descriptors. *)
Record world {Elf : Type} := World {
  w_mem : memory;
  w_fds : list Z;
  w_elfs : list Elf;
}.
Arguments world : clear implicits.

Definition W (Elf A : Type) : Type := world Elf -> outcome (A * world Elf).

#[export] Instance W_ret {Elf} : MRet (W Elf) := fun A a w => Ret (a, w).

#[export] Instance W_bind {Elf} : MBind (W Elf) := fun A B f c w =>
  match c w with
  | Ret (a, w') => f a w'
  | Exit e => Exit e
  | Fault => Fault
  | Spin => Spin
  end.

Definition liftW {Elf A} (o : outcome A) : W Elf A := fun w => a ← o; Ret (a, w).

Definition on_mem {Elf A} (c : M A) : W Elf A := fun w =>
  '(a, m) ← c (w_mem w); Ret (a, World Elf m (w_fds w) (w_elfs w)).

Fixpoint remove_first {A} `{EqDecision A} (x : A) (l : list A) : option (list A) :=
  match l with
  | [] => None
  | y :: l' => if decide (x = y) then Some l' else cons y <$> remove_first x l'
  end.

Definition open {Elf} `{Os} (fn : string) : W Elf Z := fun w =>
  let fd := os_open (w_fds w) fn in
  Ret (fd, if fd <? 0 then w else World Elf (w_mem w) (fd :: w_fds w) (w_elfs w)).

(** Closing a descriptor that is not open only returns an error. *)
Definition close {Elf} (fd : Z) : W Elf unit := fun w =>
  Ret (tt, World Elf (w_mem w) (default (w_fds w) (remove_first fd (w_fds w))) (w_elfs w)).

Definition begin_elf {Elf Scn} `{Libelf Elf Scn} (fd : Z) : W Elf (option Elf) := fun w =>
  match elf_begin fd with
  | Some e => Ret (Some e, World Elf (w_mem w) (w_fds w) (e :: w_elfs w))
  | None => Ret (None, w)
  end.

Definition elf_end {Elf} `{EqDecision Elf} (e : Elf) : W Elf unit := fun w =>
  es ← get (remove_first e (w_elfs w)); Ret (tt, World Elf (w_mem w) (w_fds w) es).

(** ** Definitions *)

(** include/het_bin.h and include/config.h *)
Definition SECTION_ST_UNWIND_ADDR : string := ".stack_transform.unwind_arange".
Definition SECTION_ST_UNWIND : string := ".stack_transform.unwind".
Definition SECTION_ST_ID : string := ".stack_transform.id".
Definition SECTION_ST_ADDR : string := ".stack_transform.addr".
Definition SECTION_ST_LIVE : string := ".stack_transform.live".
Definition SECTION_ST_ARCH_LIVE : string := ".stack_transform.arch_const".

Definition sizeof_st_handle : Z := 136.
Definition EI_CLASS : Z := 4.
Definition ELFCLASS64 : Z := 2.

(** The whole [struct _st_handle]: its address, the descriptors and the part the
    transformation reads. *)
Record opened {Elf : Type} := Opened {
  o_self : Z;
  o_fd : Z;
  o_elf : Elf;
  o_fn : string;
  o_handle : st_handle;
}.
Arguments opened : clear implicits.

(** The records of an array of packed structs. *)
Fixpoint view_records {R} (decode : list Z -> option (R * list Z)) (fuel : nat)
    (bs : list Z) : list R :=
  match fuel with
  | O => []
  | S fuel' =>
      match decode bs with
      | Some (r, rest) => r :: view_records decode fuel' rest
      | None => []
      end
  end.

Definition view {R} (decode : list Z -> option (R * list Z)) (bs : list Z) : list R :=
  view_records decode (length bs) bs.

Section elf.
Context {Elf Scn : Type} `{EqDecision Elf} `{Libelf Elf Scn} `{Os}.

(** The loop of [get_section]. *)
Fixpoint section_loop (fuel : nat) (e : Elf) (sec : string) (shdrstrndx : Z)
    (scn : option Scn) : outcome (option Scn) :=
  match fuel with
  | O => Spin
  | S fuel' =>
      match elf_nextscn e scn with
      | None => Ret None
      | Some s =>
          match gelf_getshdr s with
          | None => Ret None
          | Some shdr =>
              match elf_strptr e shdrstrndx (sh_name shdr) with
              | Some cur_sec =>
                  if decide (sec = cur_sec) then Ret (Some s)
                  else section_loop fuel' e sec shdrstrndx (Some s)
              | None => section_loop fuel' e sec shdrstrndx (Some s)
              end
          end
      end
  end.

Definition get_section (fuel : nat) (e : Elf) (sec : string) : outcome (option Scn) :=
  match elf_getshdrstrndx e with
  | None => Ret None
  | Some shdrstrndx => section_loop fuel e sec shdrstrndx None
  end.

(** An [int64_t]; the division is unsigned. *)
Definition get_num_entries (fuel : nat) (e : Elf) (sec : string) : outcome Z :=
  scn ← get_section fuel e sec;
  match scn with
  | None => Ret (-1)
  | Some s =>
      match gelf_getshdr s with
      | None => Ret (-1)
      | Some shdr =>
          Ret (signed 64 (if truthy (sh_entsize shdr) then sh_size shdr / sh_entsize shdr
                          else -1))
      end
  end.

Definition get_section_data (fuel : nat) (e : Elf) (sec : string) : outcome (option (list Z)) :=
  scn ← get_section fuel e sec;
  match scn with
  | None => Ret None
  | Some s => Ret (match elf_getdata s with Some d_buf => d_buf | None => None end)
  end.

(** The labels at the end of [st_init]. *)
Definition free_handle (handle : Z) : W Elf (option (opened Elf)) :=
  on_mem (free handle);; mret None.
Definition close_file (fd handle : Z) : W Elf (option (opened Elf)) :=
  close fd;; free_handle handle.
Definition close_elf (elf : Elf) (fd handle : Z) : W Elf (option (opened Elf)) :=
  elf_end elf;; close_file fd handle.

(** A section that must not be empty: its count (a [uint64_t]) and data. *)
Definition section_entries (fuel : nat) (e : Elf) (sec : string) : W Elf Z :=
  n ← liftW (get_num_entries fuel e sec); mret (wrap64 n).

(** Reading the metadata of an open file; [None] is a [goto close_elf]. *)
Definition read_metadata (fuel : nat) (elf : Elf) : W Elf (option st_handle) :=
  match elf64_getehdr elf with
  | None => mret None
  | Some arch =>
  match elf_getident elf with
  | None => mret None
  | Some id =>
  class ← liftW (get (znth id EI_CLASS));
  let ptr_size := if class =? ELFCLASS64 then 8 else 4 in
  unwind_addr_count ← section_entries fuel elf SECTION_ST_UNWIND_ADDR;
  if negb (unwind_addr_count >? 0) then mret None else
  unwind_addrs ← liftW (get_section_data fuel elf SECTION_ST_UNWIND_ADDR);
  match unwind_addrs with
  | None => mret None
  | Some unwind_addrs =>
  unwind_count ← section_entries fuel elf SECTION_ST_UNWIND;
  if negb (unwind_count >? 0) then mret None else
  unwind_locs ← liftW (get_section_data fuel elf SECTION_ST_UNWIND);
  match unwind_locs with
  | None => mret None
  | Some unwind_locs =>
  sites_count ← section_entries fuel elf SECTION_ST_ID;
  if negb (sites_count >? 0) then mret None else
  sites_id ← liftW (get_section_data fuel elf SECTION_ST_ID);
  sites_addr ← liftW (get_section_data fuel elf SECTION_ST_ADDR);
  match sites_id, sites_addr with
  | Some sites_id, Some sites_addr =>
  live_vals_count ← section_entries fuel elf SECTION_ST_LIVE;
  if negb (live_vals_count >? 0) then mret None else
  live_vals ← liftW (get_section_data fuel elf SECTION_ST_LIVE);
  match live_vals with
  | None => mret None
  | Some live_vals =>
  arch_live_vals_count ← section_entries fuel elf SECTION_ST_ARCH_LIVE;
  arch_live_vals ← (if arch_live_vals_count >? 0
                    then liftW (get_section_data fuel elf SECTION_ST_ARCH_LIVE)
                    else mret (Some []));
  match arch_live_vals with
  | None => mret None
  | Some arch_live_vals =>
  match get_regops arch, get_properties arch with
  | Some regops, Some props =>
      mret (Some (StHandle arch ptr_size regops props
        unwind_addr_count (view decode_unwind_addr unwind_addrs)
        unwind_count (view decode_unwind_loc unwind_locs)
        sites_count (view decode_call_site sites_id) (view decode_call_site sites_addr)
        live_vals_count (view decode_live_value live_vals)
        arch_live_vals_count (view decode_arch_live arch_live_vals)))
  | _, _ => mret None
  end end end
  | _, _ => mret None
  end end end end end.

Definition st_init (fuel : nat) (fn : option string) : W Elf (option (opened Elf)) :=
  match fn with
  | None => mret None
  | Some fn =>
      handle ← on_mem (malloc sizeof_st_handle);
      if handle =? NULL then mret None
      else
        fd ← open fn;
        if fd <? 0 then free_handle handle
        else
          elf ← begin_elf fd;
          match elf with
          | None => close_file fd handle
          | Some elf =>
              h ← read_metadata fuel elf;
              match h with
              | None => close_elf elf fd handle
              | Some h => mret (Some (Opened Elf handle fd elf fn h))
              end
          end
  end.

Definition st_destroy (handle : option (opened Elf)) : W Elf unit :=
  match handle with
  | None => mret tt
  | Some h => elf_end (o_elf h);; close (o_fd h);; on_mem (free (o_self h))
  end.

End elf.

(** ** Specification *)

(** The resources the process holds. *)
Definition resources {Elf} (w : world Elf) : list (Z * Z) * list Z * list Elf :=
  (m_blocks (w_mem w), w_fds w, w_elfs w).

Section contents.
Context {Elf Scn : Type} `{LibelfLaws Elf Scn}.

(** The first section with a name. *)
Definition has_name (e : Elf) (ndx : Z) (sec : string) (s : Scn) : bool :=
  match gelf_getshdr s with
  | Some shdr => bool_decide (elf_strptr e ndx (sh_name shdr) = Some sec)
  | None => false
  end.

Definition named (e : Elf) (ndx : Z) (sec : string) : option Scn :=
  head (filter (fun s => has_name e ndx sec s) (sections e)).

(** An ELF file whose headers libelf can read. *)
Record readable (e : Elf) (ndx : Z) : Prop := {
  rd_ndx : elf_getshdrstrndx e = Some ndx;
  rd_headers : forall s, s ∈ sections e -> is_Some (gelf_getshdr s);
}.

(** A section holds [bytes], in entries of the given size; an empty one may
    have no buffer. *)
Definition holds (e : Elf) (ndx : Z) (sec : string) (entsize : Z) (bytes : list Z) : Prop :=
  exists s name, named e ndx sec = Some s /\
    gelf_getshdr s = Some (Shdr name (zlen bytes) entsize) /\
    (bytes <> [] -> elf_getdata s = Some (Some bytes)).

(** The metadata sections of a binary, as the metadata tool writes them. *)
Record metadata_of (e : Elf) (ndx : Z) (h : st_handle) : Prop := {
  md_unwind_addr : holds e ndx SECTION_ST_UNWIND_ADDR 16
    (encode_section encode_unwind_addr (h_unwind_addrs h));
  md_unwind : holds e ndx SECTION_ST_UNWIND 4
    (encode_section encode_unwind_loc (h_unwind_locs h));
  md_id : holds e ndx SECTION_ST_ID 52 (encode_section encode_call_site (h_sites_id h));
  md_addr : holds e ndx SECTION_ST_ADDR 52 (encode_section encode_call_site (h_sites_addr h));
  md_live : holds e ndx SECTION_ST_LIVE 12 (encode_section encode_live_value (h_live_vals h));
  md_arch : holds e ndx SECTION_ST_ARCH_LIVE 20
    (encode_section encode_arch_live (h_arch_live_vals h));
}.
End contents.

(** The records of a handle are well typed, and there are some of every kind
    that must not be empty. *)
Record metadata_typed (h : st_handle) : Prop := {
  mt_unwind_addrs : Forall unwind_addr_typed (h_unwind_addrs h);
  mt_unwind_locs : Forall unwind_loc_typed (h_unwind_locs h);
  mt_sites_id : Forall call_site_typed (h_sites_id h);
  mt_sites_addr : Forall call_site_typed (h_sites_addr h);
  mt_live_vals : Forall live_value_typed (h_live_vals h);
  mt_arch_live : Forall arch_live_typed (h_arch_live_vals h);
  mt_some : h_unwind_addrs h <> [] /\ h_unwind_locs h <> [] /\ h_sites_id h <> [] /\
    h_sites_addr h <> [] /\ h_live_vals h <> [];
  mt_fits : zlen (h_unwind_addrs h) < 2 ^ 48 /\ zlen (h_unwind_locs h) < 2 ^ 48 /\
    zlen (h_sites_id h) < 2 ^ 48 /\ zlen (h_live_vals h) < 2 ^ 48 /\
    zlen (h_arch_live_vals h) < 2 ^ 48;
}.

(** ** Lemmas *)

Lemma W_bind_step {Elf A B} (c : W Elf A) (f : A -> W Elf B) w a w1 :
  c w = Ret (a, w1) -> (c ≫= f) w = f a w1.
Proof. unfold mbind, W_bind. by intros ->. Qed.

Lemma remove_first_head {A} `{EqDecision A} (x : A) l : remove_first x (x :: l) = Some l.
Proof. simpl. by rewrite decide_True. Qed.

(** *** Arrays of records *)

Section records.
Context {R : Type} (encode : R -> list Z) (decode : list Z -> option (R * list Z)).
Context (typed : R -> Prop) (size : nat).
Context (roundtrip : forall r rest, typed r -> decode (encode r ++ rest) = Some (r, rest)).
Context (encoded_size : forall r, length (encode r) = size).
Context (decode_nil : decode [] = None).

Lemma encode_section_length rs : length (encode_section encode rs) = (size * length rs)%nat.
Proof using encoded_size.
  induction rs as [|r rs IH]; [simpl; lia|].
  change (encode_section encode (r :: rs)) with (encode r ++ encode_section encode rs).
  rewrite length_app, encoded_size, IH. cbn [length]. lia.
Qed.

Lemma view_encoded rs : (0 < size)%nat -> Forall typed rs -> view decode (encode_section encode rs) = rs.
Proof using roundtrip encoded_size decode_nil.
  intros Hs Ht. unfold view.
  assert (Hf : (length rs <= length (encode_section encode rs))%nat)
    by (rewrite encode_section_length; nia).
  revert Hf. generalize (length (encode_section encode rs)). intros fuel.
  revert fuel. induction Ht as [|r rs Hr _ IH]; intros fuel Hf; destruct fuel as [|fuel];
    simpl in Hf; try lia; [done| |].
  - change (encode_section encode []) with (@nil Z). simpl. by rewrite decode_nil.
  - change (encode_section encode (r :: rs)) with (encode r ++ encode_section encode rs).
    cbn [view_records]. rewrite roundtrip by done. f_equal. apply IH. lia.
Qed.
End records.

Lemma encoded_zlen {R} (encode : R -> list Z) size rs :
  (forall r, length (encode r) = size) ->
  zlen (encode_section encode rs) = Z.of_nat size * zlen rs.
Proof. intros Hs. unfold zlen. rewrite (encode_section_length _ _ Hs). lia. Qed.

Lemma unwind_addrs_size rs : zlen (encode_section encode_unwind_addr rs) = 16 * zlen rs.
Proof. by apply (encoded_zlen _ 16). Qed.
Lemma unwind_locs_size rs : zlen (encode_section encode_unwind_loc rs) = 4 * zlen rs.
Proof. by apply (encoded_zlen _ 4). Qed.
Lemma call_sites_size rs : zlen (encode_section encode_call_site rs) = 52 * zlen rs.
Proof. by apply (encoded_zlen _ 52). Qed.
Lemma live_values_size rs : zlen (encode_section encode_live_value rs) = 12 * zlen rs.
Proof. by apply (encoded_zlen _ 12). Qed.
Lemma arch_live_size rs : zlen (encode_section encode_arch_live rs) = 20 * zlen rs.
Proof. by apply (encoded_zlen _ 20). Qed.

Lemma view_unwind_addrs rs :
  Forall unwind_addr_typed rs -> view decode_unwind_addr (encode_section encode_unwind_addr rs) = rs.
Proof. eapply (view_encoded _ _ _ 16); eauto using unwind_addr_roundtrip; lia. Qed.

Lemma view_unwind_locs rs :
  Forall unwind_loc_typed rs -> view decode_unwind_loc (encode_section encode_unwind_loc rs) = rs.
Proof. eapply (view_encoded _ _ _ 4); eauto using unwind_loc_roundtrip; lia. Qed.

Lemma view_call_sites rs :
  Forall call_site_typed rs -> view decode_call_site (encode_section encode_call_site rs) = rs.
Proof. eapply (view_encoded _ _ _ 52); eauto using call_site_roundtrip; lia. Qed.

Lemma view_live_values rs :
  Forall live_value_typed rs -> view decode_live_value (encode_section encode_live_value rs) = rs.
Proof. eapply (view_encoded _ _ _ 12); eauto using live_value_roundtrip; lia. Qed.

Lemma view_arch_live rs :
  Forall arch_live_typed rs -> view decode_arch_live (encode_section encode_arch_live rs) = rs.
Proof. eapply (view_encoded _ _ _ 20); eauto using arch_live_roundtrip; lia. Qed.

(** *** Sections *)

Section searching.
Context {Elf Scn : Type} `{EqDecision Elf} `{LibelfLaws Elf Scn}.

Lemma head_filter_skip (P : Scn -> bool) l i s :
  l !! i = Some s -> P s = false ->
  head (filter P (drop i l)) = head (filter P (drop (S i) l)).
Proof using Type.
  intros Hi Hs. rewrite (drop_S _ _ _ Hi). by rewrite filter_cons_False by (rewrite Hs; auto).
Qed.

(** The loop from section [i] on. *)
Lemma section_loop_spec e ndx sec fuel i scn :
  readable e ndx -> (length (sections e) < fuel + i)%nat -> (0 < fuel)%nat ->
  elf_nextscn e scn = sections e !! i ->
  section_loop fuel e sec ndx scn =
    Ret (head (filter (fun s => has_name e ndx sec s) (drop i (sections e)))).
Proof using Type.
  intros [_ Hr]. revert i scn. induction fuel as [|fuel IH]; intros i scn Hf Hp Hn; [lia|].
  cbn [section_loop]. rewrite Hn. destruct (sections e !! i) as [s|] eqn:Hi.
  - destruct (Hr s) as [shdr Hs]; [by eapply list_elem_of_lookup_2|]. rewrite Hs.
    pose proof (lookup_lt_Some _ _ _ Hi) as Hlt.
    assert (Hstep : section_loop fuel e sec ndx (Some s) =
      Ret (head (filter (fun s => has_name e ndx sec s) (drop (S i) (sections e))))).
    { apply IH; [lia|lia|]. by apply law_next_section. }
    destruct (elf_strptr e ndx (sh_name shdr)) as [cur|] eqn:Ec.
    + destruct (decide (sec = cur)) as [->|Hne].
      * rewrite (drop_S _ _ _ Hi), filter_cons_True; [done|].
        unfold has_name. rewrite Hs, Ec. by rewrite bool_decide_true.
      * rewrite (head_filter_skip _ _ _ _ Hi); [done|].
        unfold has_name. rewrite Hs, Ec. apply bool_decide_false. congruence.
    + rewrite (head_filter_skip _ _ _ _ Hi); [done|].
      unfold has_name. rewrite Hs, Ec. by apply bool_decide_false.
  - apply lookup_ge_None_1 in Hi. by rewrite drop_ge.
Qed.

Lemma get_section_spec e ndx sec fuel :
  readable e ndx -> (length (sections e) < fuel)%nat ->
  get_section fuel e sec = Ret (named e ndx sec).
Proof using Type.
  intros Hr Hf. unfold get_section. rewrite (rd_ndx _ _ Hr).
  rewrite (section_loop_spec _ _ _ _ 0%nat); try done; [lia|lia|apply law_first_section].
Qed.

(** The search always returns. *)
Lemma section_loop_returns e ndx sec fuel i scn :
  (length (sections e) < fuel + i)%nat -> (0 < fuel)%nat ->
  elf_nextscn e scn = sections e !! i ->
  exists r, section_loop fuel e sec ndx scn = Ret r.
Proof using Type.
  revert i scn. induction fuel as [|fuel IH]; intros i scn Hf Hp Hn; [lia|].
  cbn [section_loop]. rewrite Hn. destruct (sections e !! i) as [s|] eqn:Hi; [|eauto].
  destruct (gelf_getshdr s) as [shdr|]; [|eauto].
  pose proof (lookup_lt_Some _ _ _ Hi) as Hlt.
  assert (Hstep : exists r, section_loop fuel e sec ndx (Some s) = Ret r).
  { apply (IH (S i)); [lia|lia|]. by apply law_next_section. }
  destruct (elf_strptr e ndx (sh_name shdr)); [|done]. case_decide; eauto.
Qed.

Lemma get_section_returns e sec fuel :
  (length (sections e) < fuel)%nat -> exists r, get_section fuel e sec = Ret r.
Proof using Type.
  intros Hf. unfold get_section. destruct (elf_getshdrstrndx e); [|eauto].
  apply (section_loop_returns _ _ _ _ 0%nat); [lia|lia|apply law_first_section].
Qed.

Lemma get_num_entries_returns e sec fuel :
  (length (sections e) < fuel)%nat -> exists n, get_num_entries fuel e sec = Ret n.
Proof using Type.
  intros Hf. unfold get_num_entries.
  destruct (get_section_returns e sec fuel Hf) as [[s|] ->]; simpl; [|eauto].
  destruct (gelf_getshdr s); eauto.
Qed.

Lemma get_section_data_returns e sec fuel :
  (length (sections e) < fuel)%nat -> exists d, get_section_data fuel e sec = Ret d.
Proof using Type.
  intros Hf. unfold get_section_data.
  destruct (get_section_returns e sec fuel Hf) as [[s|] ->]; simpl; eauto.
Qed.

(** Entries and data of a section. *)
Lemma holds_entries e ndx sec fuel entsize bytes k w :
  readable e ndx -> (length (sections e) < fuel)%nat -> holds e ndx sec entsize bytes ->
  0 < entsize -> zlen bytes = entsize * k -> 0 <= k < 2 ^ 48 ->
  section_entries fuel e sec w = Ret (k, w).
Proof using Type.
  intros Hr Hf (s & name & Hs & Hh & Hd) He Hb Hk.
  unfold section_entries, get_num_entries. rewrite (get_section_spec _ _ _ _ Hr Hf), Hs. simpl.
  rewrite Hh. unfold liftW, mbind, W_bind. simpl. rewrite (proj2 (truthy_true _)) by lia.
  rewrite Hb, Z.mul_comm, Z.div_mul by lia. unfold mret, W_ret, signed.
  rewrite (wrap_small 64 k) by lia. destruct (Z.ltb_spec k (2 ^ (64 - 1))); [|lia].
  by rewrite wrap_small by lia.
Qed.

Lemma holds_data e ndx sec fuel entsize bytes :
  readable e ndx -> (length (sections e) < fuel)%nat -> holds e ndx sec entsize bytes ->
  bytes <> [] -> get_section_data fuel e sec = Ret (Some bytes).
Proof using Type.
  intros Hr Hf (s & name & Hs & Hh & Hd) Hb.
  unfold get_section_data. rewrite (get_section_spec _ _ _ _ Hr Hf), Hs. simpl. by rewrite Hd.
Qed.

(** An absent section has "a huge number of entries", and no data. *)
Lemma missing_entries e ndx sec fuel w :
  readable e ndx -> (length (sections e) < fuel)%nat -> named e ndx sec = None ->
  section_entries fuel e sec w = Ret (2 ^ 64 - 1, w).
Proof using Type.
  intros Hr Hf Hs. unfold section_entries, get_num_entries.
  by rewrite (get_section_spec _ _ _ _ Hr Hf), Hs.
Qed.

Lemma missing_data e ndx sec fuel :
  readable e ndx -> (length (sections e) < fuel)%nat -> named e ndx sec = None ->
  get_section_data fuel e sec = Ret None.
Proof using Type.
  intros Hr Hf Hs. unfold get_section_data. by rewrite (get_section_spec _ _ _ _ Hr Hf), Hs.
Qed.

End searching.

(** *** Reading the metadata *)

(** A computation that returns and leaves the world as it is. *)
Definition pureW {Elf A} (c : W Elf A) : Prop := forall w, exists a, c w = Ret (a, w).

Lemma pureW_bind {Elf A B} (c : W Elf A) (f : A -> W Elf B) :
  pureW c -> (forall a, pureW (f a)) -> pureW (c ≫= f).
Proof. intros Hc Hf w. destruct (Hc w) as [a Ha]. rewrite (W_bind_step _ _ _ _ _ Ha). apply Hf. Qed.

Lemma pureW_ret {Elf A} (a : A) : pureW (mret a : W Elf A).
Proof. intros w. by exists a. Qed.

Lemma pureW_lift {Elf A} (o : outcome A) : (exists a, o = Ret a) -> pureW (liftW (Elf := Elf) o).
Proof. intros [a ->] w. by exists a. Qed.

Section reading.
Context {Elf Scn : Type} `{EqDecision Elf} `{HL : LibelfLaws Elf Scn} `{Os}.

Lemma pure_entries e sec fuel :
  (length (sections e) < fuel)%nat -> pureW (section_entries fuel e sec).
Proof using HL.
  intros Hf. apply pureW_bind; [|intros; apply pureW_ret].
  by apply pureW_lift, get_num_entries_returns.
Qed.

Lemma pure_data e sec fuel :
  (length (sections e) < fuel)%nat -> pureW (liftW (Elf := Elf) (get_section_data fuel e sec)).
Proof using HL. intros Hf. by apply pureW_lift, get_section_data_returns. Qed.

Ltac pure_step := repeat first
  [ apply pureW_ret | apply pureW_bind; [by apply pure_entries || by apply pure_data|intros ?]
  | match goal with |- pureW (if ?b then _ else _) => destruct b end
  | match goal with |- pureW (match ?o with _ => _ end) => destruct o end ].

Lemma pure_read_metadata e fuel :
  (length (sections e) < fuel)%nat ->
  (forall id, elf_getident e = Some id -> EI_CLASS < zlen id) -> pureW (read_metadata fuel e).
Proof using HL.
  intros Hf Hid. unfold read_metadata. destruct (elf64_getehdr e); [|apply pureW_ret].
  destruct (elf_getident e) as [id|] eqn:Ei; [|apply pureW_ret]. apply pureW_bind.
  { apply pureW_lift. specialize (Hid id ltac:(done)).
    destruct (znth_is_Some id EI_CLASS) as [x ->]; [unfold EI_CLASS in *; lia|by exists x]. }
  intros class. cbv zeta. pure_step.
  apply pureW_bind; [destruct (_ >? 0); [by apply pure_data|apply pureW_ret]|intros ?].
  pure_step.
Qed.

(** What a complete handle says of its file. *)
Record complete (e : Elf) (ndx : Z) (h : st_handle) : Prop := {
  cp_readable : readable e ndx;
  cp_arch : elf64_getehdr e = Some (h_arch h);
  cp_class : exists id, elf_getident e = Some id /\
    exists c, znth id EI_CLASS = Some c /\ h_ptr_size h = (if c =? ELFCLASS64 then 8 else 4);
  cp_regops : get_regops (h_arch h) = Some (h_regops h);
  cp_props : get_properties (h_arch h) = Some (h_props h);
  cp_metadata : metadata_of e ndx h;
  cp_typed : metadata_typed h;
  cp_unwind_addr_count : h_unwind_addr_count h = zlen (h_unwind_addrs h);
  cp_unwind_count : h_unwind_count h = zlen (h_unwind_locs h);
  cp_sites_count : h_sites_count h = zlen (h_sites_id h);
  cp_live_count : h_live_vals_count h = zlen (h_live_vals h);
  cp_arch_count : h_arch_live_vals_count h = zlen (h_arch_live_vals h);
}.

Lemma zlen_pos {A} (l : list A) : l <> [] -> 0 < zlen l.
Proof using Type. destruct l; unfold zlen; simpl; [done|lia]. Qed.

Lemma step_entries {B} e ndx sec fuel entsize bytes k w (f : Z -> W Elf B) :
  readable e ndx -> (length (sections e) < fuel)%nat -> holds e ndx sec entsize bytes ->
  0 < entsize -> zlen bytes = entsize * k -> 0 <= k < 2 ^ 48 ->
  (section_entries fuel e sec ≫= f) w = f k w.
Proof using HL. intros. apply W_bind_step. by eapply holds_entries. Qed.

Lemma step_data {B} e ndx sec fuel entsize bytes w (f : option (list Z) -> W Elf B) :
  readable e ndx -> (length (sections e) < fuel)%nat -> holds e ndx sec entsize bytes ->
  0 < zlen bytes -> (liftW (get_section_data fuel e sec) ≫= f) w = f (Some bytes) w.
Proof using HL.
  intros Hr Hf Hh Hb. apply W_bind_step. unfold liftW. erewrite holds_data; [done..|].
  intros ->. by change (0 < 0) in Hb.
Qed.

(** One section that must not be empty: its count, the check and its data. *)
Lemma step_section {B} e ndx sec fuel size bytes k w (f : Z -> option (list Z) -> W Elf (option B)) :
  readable e ndx -> (length (sections e) < fuel)%nat -> holds e ndx sec size bytes ->
  zlen bytes = size * k -> 0 < size -> 0 < k < 2 ^ 48 ->
  (n ← section_entries fuel e sec;
   if negb (n >? 0) then mret None
   else (d ← liftW (get_section_data fuel e sec); f n d)) w = f k (Some bytes) w.
Proof using HL.
  intros Hr Hf Hh Hb Hs Hk. rewrite (step_entries _ _ _ _ _ _ k) by (done || lia).
  rewrite (proj2 (Z.gtb_lt _ _)) by lia. cbn [negb].
  by rewrite (step_data _ _ _ _ _ _ _ _ Hr Hf Hh) by lia.
Qed.

Ltac read_section Hr Hf M E :=
  rewrite (step_section _ _ _ _ _ _ _ _ _ Hr Hf M (E _)) by lia.

Lemma read_complete e ndx h fuel w :
  complete e ndx h -> (length (sections e) < fuel)%nat ->
  read_metadata fuel e w = Ret (Some h, w).
Proof using HL.
  intros [Hr Harch (id & Hid & c & Hc & Hp) HR HP Hm Ht N1 N2 N3 N4 N5] Hf.
  destruct Hm as [M1 M2 M3 M4 M5 M6].
  destruct Ht as [T1 T2 T3 T4 T5 T6 (S1 & S2 & S3 & S3' & S4) (F1 & F2 & F3 & F4 & F5)].
  apply zlen_pos in S1, S2, S3, S3', S4.
  unfold read_metadata. rewrite Harch, Hid. rewrite (W_bind_step _ _ w c w) by (by rewrite Hc).
  cbv zeta.
  read_section Hr Hf M1 unwind_addrs_size.
  read_section Hr Hf M2 unwind_locs_size.
  read_section Hr Hf M3 call_sites_size. rewrite (step_data _ _ _ _ _ _ w _ Hr Hf M4) by (rewrite call_sites_size; lia).
  read_section Hr Hf M5 live_values_size.
  rewrite (step_entries _ _ _ _ _ _ _ w _ Hr Hf M6 ltac:(lia) (arch_live_size _))
    by (unfold zlen in *; lia).
  rewrite HR, HP.
  assert (Ha : exists bs, (if zlen (h_arch_live_vals h) >? 0
      then liftW (get_section_data fuel e SECTION_ST_ARCH_LIVE) else mret (Some [])) w =
      Ret (Some bs, w) /\ view decode_arch_live bs = h_arch_live_vals h).
  { destruct (h_arch_live_vals h) as [|v l] eqn:El.
    - by exists [].
    - eexists. split; [|by apply view_arch_live]. rewrite (proj2 (Z.gtb_lt _ _)).
      + unfold liftW. erewrite holds_data; [done..|]. intros E.
        pose proof (arch_live_size (v :: l)) as Z. rewrite E in Z. unfold zlen in Z. simpl in Z. lia.
      + unfold zlen. simpl. lia. }
  destruct Ha as (bs & Ha & Hv). rewrite (W_bind_step _ _ _ _ _ Ha), Hv.
  rewrite view_unwind_addrs, view_unwind_locs, !view_call_sites, view_live_values by done.
  rewrite <- N1, <- N2, <- N3, <- N4, <- N5, <- Hp. by destruct h.
Qed.
End reading.

(** *** Opening and closing *)

Lemma W_bind_Ret {Elf A B} (c : W Elf A) (f : A -> W Elf B) w r :
  (c ≫= f) w = Ret r <-> exists a w1, c w = Ret (a, w1) /\ f a w1 = Ret r.
Proof. unfold mbind, W_bind. destruct (c w) as [[a w1]|e| |] eqn:E; naive_solver. Qed.

(** What [st_init] and [st_destroy] rely on. *)
Definition returns_ident (Elf Scn : Type) `{Libelf Elf Scn} : Prop :=
  forall e id, elf_getident e = Some id -> EI_CLASS < zlen id.

Section lifecycle.
Context {Elf Scn : Type} `{EqDecision Elf} `{HL : LibelfLaws Elf Scn} `{Os}.

(** The world with a handle's block, file and ELF descriptor open. *)
Definition holding (w : world Elf) (p fd : Z) (e : Elf) (w' : world Elf) : Prop :=
  resources w' = ((p, sizeof_st_handle) :: m_blocks (w_mem w), fd :: w_fds w, e :: w_elfs w).

Lemma free_self p (w w' : world Elf) fds es :
  p <> NULL -> resources w' = ((p, sizeof_st_handle) :: m_blocks (w_mem w), fds, es) ->
  exists w'', on_mem (free p) w' = Ret (tt, w'') /\
    resources w'' = (m_blocks (w_mem w), fds, es).
Proof using Type.
  intros Hp Hr. injection Hr as Hb Hf He. eexists. split.
  - unfold on_mem. rewrite (free_head _ _ _ _ Hb Hp). simpl. reflexivity.
  - unfold resources. simpl. by rewrite Hf, He.
Qed.

Lemma close_self fd (w w' : world Elf) es blks :
  resources w' = (blks, fd :: w_fds w, es) ->
  exists w'', close fd w' = Ret (tt, w'') /\ resources w'' = (blks, w_fds w, es).
Proof using Type.
  intros Hr. injection Hr as Hb Hf He. eexists. split; [reflexivity|].
  unfold resources. simpl. by rewrite Hf, remove_first_head, Hb, He.
Qed.

Lemma end_self e (w w' : world Elf) fds blks :
  resources w' = (blks, fds, e :: w_elfs w) ->
  exists w'', elf_end e w' = Ret (tt, w'') /\ resources w'' = (blks, fds, w_elfs w).
Proof using Type.
  intros Hr. injection Hr as Hb Hf He. eexists. split.
  - unfold elf_end. rewrite He, remove_first_head. simpl. reflexivity.
  - unfold resources. simpl. by rewrite Hf, Hb.
Qed.

(** The clean-up after a failure. *)
Lemma close_elf_releases p fd e w w' :
  p <> NULL -> holding w p fd e w' ->
  exists w'', close_elf e fd p w' = Ret (None, w'') /\ resources w'' = resources w.
Proof using Type.
  intros Hp Hh. destruct (end_self _ _ _ _ _ Hh) as (w1 & E1 & R1).
  destruct (close_self _ _ _ _ _ R1) as (w2 & E2 & R2).
  destruct (free_self _ _ _ _ _ Hp R2) as (w3 & E3 & R3).
  exists w3. split; [|exact R3]. unfold close_elf, close_file, free_handle.
  by rewrite (W_bind_step _ _ _ _ _ E1), (W_bind_step _ _ _ _ _ E2), (W_bind_step _ _ _ _ _ E3).
Qed.

Lemma destroy_releases h w w' :
  o_self h <> NULL -> holding w (o_self h) (o_fd h) (o_elf h) w' ->
  exists w'', st_destroy (Some h) w' = Ret (tt, w'') /\ resources w'' = resources w.
Proof using Type.
  intros Hp Hh. destruct (end_self _ _ _ _ _ Hh) as (w1 & E1 & R1).
  destruct (close_self _ _ _ _ _ R1) as (w2 & E2 & R2).
  destruct (free_self _ _ _ _ _ Hp R2) as (w3 & E3 & R3).
  exists w3. split; [|exact R3]. unfold st_destroy.
  by rewrite (W_bind_step _ _ _ _ _ E1), (W_bind_step _ _ _ _ _ E2), E3.
Qed.

Lemma malloc_returns n (w : world Elf) : exists p m, malloc n (w_mem w) = Ret (p, m).
Proof using Type. unfold malloc. case_match; eauto. Qed.

(** The three acquisitions, or the clean-up of those made. *)
Lemma st_init_acquires fuel fn w :
  wf_memory (w_mem w) ->
  (exists w', st_init fuel (Some fn) w = Ret (None, w') /\ resources w' = resources w) \/
  exists p fd e w1, p <> NULL /\ fd = os_open (w_fds w) fn /\ elf_begin fd = Some e /\
    holding w p fd e w1 /\ st_init fuel (Some fn) w =
      (h ← read_metadata fuel e;
       match h with
       | None => close_elf e fd p
       | Some h => mret (Some (Opened Elf p fd e fn h))
       end) w1.
Proof using Type.
  intros Hwf. destruct (malloc_returns sizeof_st_handle w) as (p & m & Hm).
  assert (E1 : on_mem (malloc sizeof_st_handle) w = Ret (p, World Elf m (w_fds w) (w_elfs w)))
    by (unfold on_mem; by rewrite Hm).
  unfold st_init. rewrite (W_bind_step _ _ _ _ _ E1).
  assert (Hs : 0 <= sizeof_st_handle) by done.
  destruct (malloc_spec _ _ _ _ Hwf Hs Hm) as [[-> ->]|[Hp Ha]].
  { left. eexists. split; [reflexivity|]. by destruct w. }
  destruct (Z.eqb_spec p NULL); [lia|]. set (w1 := World Elf m (w_fds w) (w_elfs w)).
  set (fd := os_open (w_fds w1) fn).
  assert (R1 : resources w1 = ((p, sizeof_st_handle) :: m_blocks (w_mem w), w_fds w, w_elfs w)).
  { unfold resources. simpl. by rewrite (al_blocks _ _ _ _ Ha). }
  set (w2 := World Elf m (fd :: w_fds w) (w_elfs w)).
  assert (E2 : open fn w1 = Ret (fd, if fd <? 0 then w1 else w2)) by reflexivity.
  rewrite (W_bind_step _ _ _ _ _ E2). clear E2.
  destruct (Z.ltb_spec fd 0) as [Hneg|Hfd].
  { left. destruct (free_self _ _ _ _ _ n R1) as (w3 & E2 & R2).
    eexists. split; [|exact R2]. unfold free_handle. by rewrite (W_bind_step _ _ _ _ _ E2). }
  assert (R2 : resources w2 = ((p, sizeof_st_handle) :: m_blocks (w_mem w), fd :: w_fds w, w_elfs w)).
  { unfold resources. simpl. by rewrite (al_blocks _ _ _ _ Ha). }
  destruct (elf_begin fd) as [e|] eqn:Eb.
  - set (w3 := World Elf m (fd :: w_fds w) (e :: w_elfs w)).
    assert (E3 : begin_elf fd w2 = Ret (Some e, w3)) by (unfold begin_elf; by rewrite Eb).
    rewrite (W_bind_step _ _ _ _ _ E3). right. exists p, fd, e, w3.
    split; [done|]. split; [done|]. split; [done|]. split; [|done].
    unfold holding, resources. simpl. by rewrite (al_blocks _ _ _ _ Ha).
  - assert (E3 : begin_elf fd w2 = Ret (None, w2)) by (unfold begin_elf; by rewrite Eb).
    rewrite (W_bind_step _ _ _ _ _ E3). left.
    destruct (close_self _ _ _ _ _ R2) as (w4 & E4 & R4).
    destruct (free_self _ _ _ _ _ n R4) as (w5 & E5 & R5).
    exists w5. split; [|exact R5]. unfold close_file, free_handle.
    by rewrite (W_bind_step _ _ _ _ _ E4), (W_bind_step _ _ _ _ _ E5).
Qed.
End lifecycle.

(** A binary without the section of architecture-specific values. *)
Section missing.
Context {Elf Scn : Type} `{EqDecision Elf} `{HL : LibelfLaws Elf Scn} `{Os}.

Lemma arch_section_required e ndx fuel w :
  readable e ndx -> (length (sections e) < fuel)%nat -> returns_ident Elf Scn ->
  named e ndx SECTION_ST_ARCH_LIVE = None -> read_metadata fuel e w = Ret (None, w).
Proof using HL.
  intros Hr Hf Hid Hn. destruct (pure_read_metadata e fuel Hf (Hid e) w) as [r E].
  rewrite E. destruct r as [h|]; [exfalso|done]. revert E. unfold read_metadata.
  destruct (elf64_getehdr e); [|done]. destruct (elf_getident e); [|done].
  intros (class & w1 & _ & E)%W_bind_Ret. cbv zeta in E.
  apply W_bind_Ret in E as (n1 & w2 & _ & E). destruct (negb (n1 >? 0)); [done|].
  apply W_bind_Ret in E as ([d1|] & w3 & _ & E); [|done].
  apply W_bind_Ret in E as (n2 & w4 & _ & E). destruct (negb (n2 >? 0)); [done|].
  apply W_bind_Ret in E as ([d2|] & w5 & _ & E); [|done].
  apply W_bind_Ret in E as (n3 & w6 & _ & E). destruct (negb (n3 >? 0)); [done|].
  apply W_bind_Ret in E as (d3 & w7 & _ & E). apply W_bind_Ret in E as (d4 & w8 & _ & E).
  destruct d3; [|done]. destruct d4; [|done].
  apply W_bind_Ret in E as (n5 & w9 & _ & E). destruct (negb (n5 >? 0)); [done|].
  apply W_bind_Ret in E as ([d5|] & w10 & _ & E); [|done].
  rewrite (W_bind_step _ _ _ _ _ (missing_entries _ _ _ _ _ Hr Hf Hn)) in E. simpl in E.
  unfold liftW in E. rewrite (missing_data _ _ _ _ Hr Hf Hn) in E. done.
Qed.

(** A complete file is opened. *)
Lemma st_init_run fuel fn w e ndx h :
  wf_memory (w_mem w) -> (exists p m, malloc sizeof_st_handle (w_mem w) = Ret (p, m) /\ p <> NULL) ->
  0 <= os_open (w_fds w) fn -> elf_begin (os_open (w_fds w) fn) = Some e ->
  complete e ndx h -> (length (sections e) < fuel)%nat ->
  exists o w', st_init fuel (Some fn) w = Ret (Some o, w') /\ o_handle o = h /\ o_fn o = fn.
Proof using HL.
  intros Hwf (p & m & Hm & Hp) Hfd Hb Hc Hf.
  exists (Opened Elf p (os_open (w_fds w) fn) e fn h). eexists. split; [|by split].
  unfold st_init.
  assert (E1 : on_mem (malloc sizeof_st_handle) w = Ret (p, World Elf m (w_fds w) (w_elfs w)))
    by (unfold on_mem; by rewrite Hm).
  rewrite (W_bind_step _ _ _ _ _ E1). destruct (Z.eqb_spec p NULL); [done|].
  unfold open. unfold mbind at 1, W_bind at 1. cbn [w_fds].
  destruct (Z.ltb_spec (os_open (w_fds w) fn) 0); [lia|].
  unfold begin_elf. unfold mbind at 1, W_bind at 1. rewrite Hb.
  by rewrite (W_bind_step _ _ _ _ _ (read_complete _ _ _ _ _ Hc Hf)).
Qed.

Lemma complete_counts e ndx h :
  complete e ndx h -> zlen (h_sites_addr h) = zlen (h_sites_id h) -> counts_ok h.
Proof using Type.
  intros [_ _ _ _ _ _ Ht N1 _ N3 _ _] Hn.
  destruct Ht as [_ _ _ _ _ _ _ (F1 & _ & F3 & _)]. constructor; congruence || lia.
Qed.

(** ** Properties *)

(** C30: [st_init] returns whatever the file holds, and is balanced: when it
    returns NULL the process has the memory blocks, file descriptors and ELF
    descriptors it had before; when it returns a handle it has one more of
    each, those of the handle, and [st_destroy] gives them back. *)
Theorem st_init_releases fuel fn w :
  wf_memory (w_mem w) -> returns_ident Elf Scn ->
  (forall fd e, elf_begin fd = Some e -> (length (sections e) < fuel)%nat) ->
  exists r w', st_init fuel fn w = Ret (r, w') /\
    match r with
    | None => resources w' = resources w
    | Some h => holding w (o_self h) (o_fd h) (o_elf h) w' /\
        exists w'', st_destroy (Some h) w' = Ret (tt, w'') /\ resources w'' = resources w
    end.
Proof using HL.
  intros Hwf Hid Hfuel. destruct fn as [fn|]; [|by exists None, w].
  destruct (st_init_acquires fuel fn w Hwf) as [(w' & E & Hr)|(p & fd & e & w1 & Hp & _ & Hb & Hh & E)];
    [by exists None, w'|]. rewrite E.
  destruct (pure_read_metadata e fuel (Hfuel _ _ Hb) (Hid e) w1) as [[h|] Er].
  - exists (Some (Opened Elf p fd e fn h)), w1. rewrite (W_bind_step _ _ _ _ _ Er).
    split; [done|]. split; [done|]. by apply (destroy_releases (Opened Elf p fd e fn h)).
  - destruct (close_elf_releases _ _ _ _ _ Hp Hh) as (w2 & E2 & R2).
    exists None, w2. by rewrite (W_bind_step _ _ _ _ _ Er).
Qed.

(** C31: Opening a binary that carries the sections the metadata tool writes
    gives a handle with exactly the records that were written, the counts of
    their sections, and the register operations and properties of the
    binary's architecture.  When the two call-site sections have the same number
    of records, the lookups on that handle work on every section that was
    written in order: a call site is found by its return address and by its
    identifier exactly when the section has it, and a program counter leads to
    the function that encloses it. *)
Theorem st_init_reads_metadata fuel fn w e ndx h :
  wf_memory (w_mem w) -> (exists p m, malloc sizeof_st_handle (w_mem w) = Ret (p, m) /\ p <> NULL) ->
  0 <= os_open (w_fds w) fn -> elf_begin (os_open (w_fds w) fn) = Some e ->
  complete e ndx h -> (length (sections e) < fuel)%nat ->
  exists o w', st_init fuel (Some fn) w = Ret (Some o, w') /\ o_handle o = h /\ o_fn o = fn /\
    (zlen (h_sites_addr h) = zlen (h_sites_id h) -> counts_ok (o_handle o) /\
      (sorted_by cs_addr (h_sites_addr h) -> forall addr, exists s,
         get_site_by_addr (o_handle o) addr = Ret s /\ lookup_result cs_addr (h_sites_addr h) addr s) /\
      (sorted_by cs_id (h_sites_id h) -> forall csid, exists s,
         get_site_by_id (o_handle o) csid = Ret s /\ lookup_result cs_id (h_sites_id h) csid s) /\
      (strictly_sorted_by ua_addr (h_unwind_addrs h) -> forall pc,
         get_function_address (o_handle o) pc = Ret (from_option ua_addr NULL (enclosing (h_unwind_addrs h) pc)))).
Proof using HL.
  intros Hwf Hm Hfd Hb Hc Hf.
  destruct (st_init_run fuel fn w e ndx h Hwf Hm Hfd Hb Hc Hf) as (o & w' & E & Ho & Hfn).
  exists o, w'. rewrite Ho. do 3 (split; [done|]). intros Hn. pose proof (complete_counts e ndx h Hc Hn) as Hk.
  split; [done|]. split; [intros Hs a; by apply site_by_addr_found|]. split; [intros Hs i; by apply site_by_id_found|].
  intros Hs x. by apply function_address_found.
Qed.

(** A binary without the section of architecture-specific values is
    rejected and cleaned up, although that section is meant to be optional:
    its entry count, -1, is stored in an unsigned field and taken for a
    number of records. *)
Theorem st_init_needs_arch_section fuel fn w e ndx :
  wf_memory (w_mem w) -> returns_ident Elf Scn ->
  elf_begin (os_open (w_fds w) fn) = Some e -> readable e ndx ->
  (length (sections e) < fuel)%nat -> named e ndx SECTION_ST_ARCH_LIVE = None ->
  exists w', st_init fuel (Some fn) w = Ret (None, w') /\ resources w' = resources w.
Proof using HL.
  intros Hwf Hid Hb Hr Hf Hn.
  destruct (st_init_acquires fuel fn w Hwf) as [?|(p & fd & e' & w1 & Hp & -> & Hb' & Hh & E)]; [done|].
  rewrite Hb in Hb'. injection Hb' as <-. rewrite E.
  rewrite (W_bind_step _ _ _ _ _ (arch_section_required _ _ _ w1 Hr Hf Hid Hn)).
  by apply close_elf_releases.
Qed.
End missing.

(** ** A concrete ELF library

    A file is its machine, its identification bytes and its sections (name,
    entry size, contents); a section carries its position. *)

Record image_section := ImageSection {
  is_index : nat;
  is_entsize : Z;
  is_bytes : list Z;
}.

#[export] Instance image_section_eq_dec : EqDecision image_section.
Proof. solve_decision. Defined.

Record image := Image {
  im_machine : Z;
  im_names : list string;
  im_sections : list (Z * list Z);
}.

#[export] Instance image_eq_dec : EqDecision image.
Proof. solve_decision. Defined.

Definition image_scns (e : image) : list image_section :=
  imap (fun i s => ImageSection i s.1 s.2) (im_sections e).

Definition image_ident : list Z := [0x7f; 0x45; 0x4c; 0x46; 2; 1; 1; 0; 0; 0; 0; 0; 0; 0; 0; 0].

(** The library that opens every file as [the_image]. *)
Definition image_libelf (the_image : image) : Libelf image image_section := {|
  elf_begin := fun fd => Some the_image;
  elf64_getehdr := fun e => Some (im_machine e);
  elf_getident := fun e => Some image_ident;
  elf_getshdrstrndx := fun e => Some 1;
  elf_nextscn := fun e s =>
    match s with None => image_scns e !! 0%nat | Some s => image_scns e !! S (is_index s) end;
  gelf_getshdr := fun s => Some (Shdr (Z.of_nat (is_index s)) (zlen (is_bytes s)) (is_entsize s));
  elf_strptr := fun e _ i => im_names e !! Z.to_nat i;
  elf_getdata := fun s => Some (Some (is_bytes s));
|}.

Lemma image_laws i : @LibelfLaws image image_section (image_libelf i).
Proof.
  refine {| sections := image_scns |}; [done|]. intros e k s. simpl. unfold image_scns.
  rewrite list_lookup_imap. intros (x & _ & ->)%fmap_Some. done.
Defined.

Definition image_os : Os := {| os_open := fun fds fn => 3 + zlen fds |}.

Definition metadata_names : list string :=
  [SECTION_ST_UNWIND_ADDR; SECTION_ST_UNWIND; SECTION_ST_ID; SECTION_ST_ADDR;
   SECTION_ST_LIVE; SECTION_ST_ARCH_LIVE].

Definition metadata_image (arch : Z) (h : st_handle) : image :=
  Image arch metadata_names
    [(16, encode_section encode_unwind_addr (h_unwind_addrs h));
     (4, encode_section encode_unwind_loc (h_unwind_locs h));
     (52, encode_section encode_call_site (h_sites_id h));
     (52, encode_section encode_call_site (h_sites_addr h));
     (12, encode_section encode_live_value (h_live_vals h));
     (20, encode_section encode_arch_live (h_arch_live_vals h))].

(** A binary with one record of every kind. *)
Definition image_site : call_site := CallSite 1 0x1010 0x20 1 0 1 0 0 0 u16_max.

Definition image_handle : st_handle :=
  StHandle EM_X86_64 8 regs_x86_64 properties_x86_64 1 [UnwindAddr 0x1000 1 0]
    1 [UnwindLoc 6 (-16)] 1 [image_site] [image_site]
    1 [LiveValue false false false false SM_REGISTER 8 3 0 0] 0 [].

Definition start_world : world image :=
  World image (Memory ∅ (fun _ => 0) [] 0x1000) [] [].

Lemma start_world_wf : wf_memory (w_mem start_world).
Proof.
  constructor; simpl; [intros b s H; by apply not_elem_of_nil in H| |constructor].
  unfold heap_limit. lia.
Qed.

#[local] Existing Instances image_laws image_os.

Lemma image_has_ident i : @returns_ident image image_section (image_libelf i).
Proof. intros e id [= <-]. done. Qed.

Definition image_arch : Z := EM_X86_64.

Lemma image_complete :
  @complete _ _ (image_libelf (metadata_image image_arch image_handle)) _
    (metadata_image image_arch image_handle) 1 image_handle.
Proof.
  constructor; try reflexivity.
  - constructor; [done|]. intros s _. by eexists.
  - eexists. split; [reflexivity|]. eexists. by split.
  - constructor; (eexists _, _; split; [vm_compute; reflexivity|split; [reflexivity|intros _; reflexivity]]).
  - constructor; simpl; repeat constructor; unfold uint, sint; simpl; try lia; done.
Qed.

Lemma st_init_releases_witness :
  exists r w', @st_init _ _ _ (image_libelf (metadata_image 0 image_handle)) _ 7 (Some "a.out"%string)
    start_world = Ret (r, w') /\ r = None /\ resources w' = resources start_world.
Proof.
  destruct (@st_init_releases _ _ _ _ (image_laws (metadata_image 0 image_handle)) _ 7
    (Some "a.out"%string) start_world start_world_wf (image_has_ident _)) as (r & w' & E & H).
  { intros fd e [= <-]. simpl. lia. }
  exists r, w'. split; [exact E|]. destruct r as [o|]; [|by split].
  vm_compute in E. discriminate E.
Defined.

Lemma st_init_reads_metadata_witness :
  exists o w', @st_init _ _ _ (image_libelf (metadata_image image_arch image_handle)) _ 7
    (Some "a.out"%string) start_world = Ret (Some o, w') /\ counts_ok (o_handle o) /\
    exists s, get_site_by_addr (o_handle o) 0x1010 = Ret s /\ lookup_result cs_addr [image_site] 0x1010 s.
Proof.
  assert (Hm : exists p m, malloc sizeof_st_handle (w_mem start_world) = Ret (p, m) /\ p <> NULL)
    by (eexists _, _; split; [vm_compute; reflexivity|done]).
  assert (Hfd : 0 <= @os_open image_os (w_fds start_world) "a.out"%string) by done.
  assert (Hf : (length (@sections _ _ _ (image_laws (metadata_image image_arch image_handle))
    (metadata_image image_arch image_handle)) < 7)%nat) by (simpl; lia).
  destruct (@st_init_reads_metadata _ _ _ _ (image_laws (metadata_image image_arch image_handle)) _ 7
    "a.out"%string start_world _ _ _ start_world_wf Hm Hfd eq_refl image_complete Hf)
    as (o & w' & E & _ & _ & Hc).
  destruct (Hc eq_refl) as (Hk & Ha & _). exists o, w'. split; [exact E|]. split; [exact Hk|].
  apply Ha. apply (sorted_check_ok cs_addr false [image_site]). reflexivity.
Defined.

(** The same binary without its last section. *)
Definition image_without_arch : image :=
  Image image_arch (take 5 metadata_names) (take 5 (im_sections (metadata_image image_arch image_handle))).

Lemma st_init_needs_arch_section_witness :
  exists w', @st_init _ _ _ (image_libelf image_without_arch) _ 6 (Some "a.out"%string)
    start_world = Ret (None, w') /\ resources w' = resources start_world.
Proof.
  apply (@st_init_needs_arch_section _ _ _ _ (image_laws image_without_arch) _ 6
    "a.out"%string start_world image_without_arch 1 start_world_wf (image_has_ident _)).
  - reflexivity.
  - constructor; [done|]. intros s _. by eexists.
  - simpl. lia.
  - reflexivity.
Defined.
