(* ===== verification/Userspace.v ===== *)
(** * The user-space runtime (src/userspace.c)

    The bounds of a thread's stack, the division of the stack into two halves
    between which the thread is rewritten, and the handles of the two binaries.
    pthreads, procfs, the environment and the stack pointer of the running
    thread are parameters. *)

From S2P Require Import Prelude Machine CallSite Regs RegsAArch64 RegsX86 Context Rewrite Sample Init.
From stdpp Require Import strings.

#[local] Open Scope Z_scope.

(** ** Definitions *)

Definition MAX_STACK_SIZE : Z := 8 * 1024 * 1024.
Definition B_STACK_OFFSET : Z := 4 * 1024 * 1024.
Definition BUF_SIZE : Z := 512.

Record stack_bounds := StackBounds {
  high : Z;
  low : Z;
}.

Definition sizeof_stack_bounds : Z := 16.

Definition load_bounds (p : Z) : M stack_bounds :=
  h ← load64 p; l ← load64 (p + 8); mret (StackBounds h l).

Definition store_bounds (p : Z) (b : stack_bounds) : M unit :=
  store64 p (high b);; store64 (p + 8) (low b).

(** What the thread library answers: the code of [pthread_setspecific], the
    stack's lowest address and size ([None] when either call fails). *)
Record pthread := Pthread {
  pt_setspecific : Z;
  pt_getstack : option (Z * Z);
}.

Definition get_thread_stack (pt : pthread) (bounds : Z) : M bool :=
  match pt_getstack pt with
  | Some (l, stack_size) =>
      let h := ptr_add l stack_size in
      let l := if negb (stack_size =? MAX_STACK_SIZE) then ptr_add h (- MAX_STACK_SIZE) else l in
      store_bounds bounds (StackBounds h l);; mret true
  | None => store_bounds bounds (StackBounds 0 0);; mret false
  end.

(** A line of /proc/<pid>/maps as [sscanf] splits it: the number of fields
    converted, the two addresses and the path. *)
Record maps_line := MapsLine {
  ml_fields : Z;
  ml_start : Z;
  ml_end : Z;
  ml_path : string;
}.

Definition is_stack_line (l : maps_line) : bool :=
  (ml_fields l =? 7) && String.prefix "[stack]" (ml_path l).

(** [get_main_stack]; [None] for a file that cannot be opened. *)
Fixpoint scan_maps (lines : list maps_line) : option stack_bounds :=
  match lines with
  | [] => None
  | l :: lines' =>
      if is_stack_line l then Some (StackBounds (ml_end l) (ml_start l)) else scan_maps lines'
  end.

Definition get_main_stack (maps : option (list maps_line)) : option stack_bounds :=
  lines ← maps; scan_maps lines.

(** [getrlimit]: its return code and [rlim_cur].  The thread-local pointer is
    set to a fresh object first. *)
Definition prep_stack (pt : pthread) (maps : option (list maps_line)) (rlimit : Z * Z)
    (popcorn_stack_base : Z) : M (bool * Z) :=
  bounds_ptr ← malloc sizeof_stack_bounds;
  match get_main_stack maps with
  | None => mret (false, bounds_ptr)
  | Some bounds =>
      if rlimit.1 <? 0 then mret (false, bounds_ptr)
      else
        bounds ← (if rlimit.1 =? 0 then
                    let l := ptr_add (high bounds) (- rlimit.2) in
                    _ ← load64 l;
                    mret (StackBounds (high bounds) l)
                  else mret bounds);
        let offset := wrap64 (high bounds - popcorn_stack_base) in
        let offset := wrap64 (offset + (if truthy (offset mod 0x10) then 0x10 - offset mod 0x10
                                        else 0)) in
        store_bounds bounds_ptr (StackBounds (ptr_add (high bounds) (- offset)) (low bounds));;
        mret (true, bounds_ptr)
  end.

(** [key] is the value of the thread's [stack_bounds_key]. *)
Definition get_stack_bounds (pt : pthread) (cur_stack key : Z) : M (stack_bounds * Z) :=
  '(ok, key) ←
    (if truthy key then mret (true, key)
     else
       bounds_ptr ← malloc sizeof_stack_bounds;
       if truthy (pt_setspecific pt) then mret (false, key)
       else ok ← get_thread_stack pt bounds_ptr; mret (ok, bounds_ptr));
  if negb ok then mret (StackBounds NULL NULL, key)
  else
    cur_bounds ← load_bounds key;
    let mid := ptr_add (low cur_bounds) B_STACK_OFFSET in
    if mid <=? cur_stack then mret (StackBounds (high cur_bounds) mid, key)
    else mret (StackBounds mid mid, key).

Definition userspace_rewrite_internal (fuel : nat) (garbage : rewrite_context) (pt : pthread)
    (key sp regs dest_regs : Z) (handle_a handle_b : option st_handle) : M (Z * Z) :=
  match handle_a, handle_b with
  | Some _, Some _ =>
      if negb (truthy sp) || negb (truthy regs) || negb (truthy dest_regs) then mret (1, key)
      else
        '(bounds_ptr, key, retval, ok) ←
          (if truthy key then mret (key, key, 0, true)
           else
             bounds_ptr ← malloc sizeof_stack_bounds;
             let retval := pt_setspecific pt in
             ok ← get_thread_stack pt bounds_ptr;
             mret (bounds_ptr, if truthy retval then key else bounds_ptr, retval, ok));
        if negb ok then mret (1, key)
        else
          bounds ← load_bounds bounds_ptr;
          if (sp <? low bounds) || (high bounds <=? sp) then mret (1, key)
          else
            let stack_a := high bounds in
            let stack_b := ptr_add (low bounds) B_STACK_OFFSET in
            let cur_stack := if stack_b <=? sp then stack_a else stack_b in
            let new_stack := if stack_b <=? sp then stack_b else stack_a in
            r ← st_rewrite_stack fuel garbage handle_a regs cur_stack
                  handle_b dest_regs new_stack;
            mret (if truthy r then 1 else retval, key)
  | _, _ => mret (1, key)
  end.

(** The offset of the program counter in the register set of an architecture
    (aarch64 or not). *)
Definition host_pc (aarch64 : bool) : Z := if aarch64 then A64_pc else X86_rip.

(** [st_userspace_rewrite], on either host; [retaddr] is
    [__builtin_return_address(0)]. *)
Definition st_userspace_rewrite (fuel : nat) (garbage : rewrite_context) (pt : pthread)
    (aarch64 : bool) (aarch64_handle x86_64_handle : option st_handle)
    (retaddr key sp regs dest_regs : Z) : M (Z * Z) :=
  match aarch64_handle, x86_64_handle with
  | Some _, Some _ =>
      store64 (ptr_add regs (host_pc aarch64)) retaddr;;
      if aarch64
      then userspace_rewrite_internal fuel garbage pt key sp regs dest_regs
             aarch64_handle x86_64_handle
      else userspace_rewrite_internal fuel garbage pt key sp regs dest_regs
             x86_64_handle aarch64_handle
  | _, _ => mret (1, key)
  end.

(** Rewriting between two stacks of one architecture. *)
Definition st_userspace_rewrite_aarch64 (fuel : nat) (garbage : rewrite_context) (pt : pthread)
    (aarch64_handle : option st_handle) (retaddr key sp regs dest_regs : Z) : M (Z * Z) :=
  match aarch64_handle with
  | Some _ =>
      store64 (ptr_add regs (host_pc true)) retaddr;;
      userspace_rewrite_internal fuel garbage pt key sp regs dest_regs
        aarch64_handle aarch64_handle
  | None => mret (1, key)
  end.

Definition st_userspace_rewrite_x86_64 (fuel : nat) (garbage : rewrite_context) (pt : pthread)
    (x86_64_handle : option st_handle) (retaddr key sp regs dest_regs : Z) : M (Z * Z) :=
  match x86_64_handle with
  | Some _ =>
      store64 (ptr_add regs (host_pc false)) retaddr;;
      userspace_rewrite_internal fuel garbage pt key sp regs dest_regs
        x86_64_handle x86_64_handle
  | None => mret (1, key)
  end.

(** *** The two handles *)

(** The variables of one architecture: the handle, the name (address and
    contents; [None] is NULL) and whether the constructor allocated it. *)
Record binary {Elf : Type} := Binary {
  b_handle : option (opened Elf);
  b_fn : option (Z * string);
  b_alloc_fn : bool;
}.
Arguments binary : clear implicits.

Section handles.
Context {Elf Scn : Type} `{EqDecision Elf} `{Libelf Elf Scn} `{Os}.

(** [snprintf(fn, BUF_SIZE, "%s<suffix>", __progname)] *)
Definition suffixed (progname suffix : string) : string :=
  String.substring 0 (Z.to_nat BUF_SIZE - 1) (progname ++ suffix).

(** One of the two initialisations of [__st_userspace_ctor]. *)
Definition init_binary (fuel : nat) (getenv : string -> option string) (env suffix progname : string)
    (fn : option (Z * string)) : W Elf (binary Elf) :=
  match getenv env with
  | Some name => handle ← st_init fuel (Some name); mret (Binary Elf handle fn false)
  | None =>
      match fn with
      | Some (p, name) => handle ← st_init fuel (Some name); mret (Binary Elf handle fn false)
      | None =>
          p ← on_mem (malloc BUF_SIZE);
          let name := suffixed progname suffix in
          on_mem (if p =? NULL then fault else mret tt);;
          handle ← st_init fuel (Some name);
          mret (Binary Elf handle (Some (p, name)) true)
      end
  end.

Definition ENV_AARCH64_BIN : string := "ST_AARCH64_BIN".
Definition ENV_X86_64_BIN : string := "ST_X86_64_BIN".

(** [elf_ok] is whether [elf_version] accepts the library's version; the
    result: the aarch64 and x86-64 variables and the stack bounds key. *)
Definition st_userspace_ctor (fuel : nat) (pt : pthread) (maps : option (list maps_line))
    (rlimit : Z * Z) (popcorn_stack_base : Z) (elf_ok : bool) (getenv : string -> option string)
    (progname : string) (aarch64_fn x86_64_fn : option (Z * string)) :
    W Elf (binary Elf * binary Elf * Z) :=
  '(ok, key) ← on_mem (prep_stack pt maps rlimit popcorn_stack_base);
  if negb (ok && elf_ok)
  then mret (Binary Elf None aarch64_fn false, Binary Elf None x86_64_fn false, key)
  else
    a ← init_binary fuel getenv ENV_AARCH64_BIN "_aarch64" progname aarch64_fn;
    x ← init_binary fuel getenv ENV_X86_64_BIN "_x86-64" progname x86_64_fn;
    mret (a, x, key).

Definition destroy_binary (b : binary Elf) : W Elf unit :=
  match b_handle b with
  | None => mret tt
  | Some h =>
      st_destroy (Some h);;
      match b_fn b with
      | Some (p, _) => if b_alloc_fn b then on_mem (free p) else mret tt
      | None => mret tt
      end
  end.

Definition st_userspace_dtor (a x : binary Elf) : W Elf unit :=
  destroy_binary a;; destroy_binary x.
End handles.

(** ** Lemmas *)

(** The bounds stored at an address. *)
Definition bounds_at (m : memory) (p : Z) : stack_bounds :=
  StackBounds (word_at 8 m p) (word_at 8 m (p + 8)).

Lemma load_bounds_run p m : valid m p 16 = true -> load_bounds p m = Ret (bounds_at m p, m).
Proof.
  intros Hv. unfold load_bounds.
  rewrite (M_bind_step _ _ _ _ _ (load_run 8 p m (valid_sub _ _ _ p 8 Hv ltac:(lia) ltac:(lia)))).
  by rewrite (M_bind_step _ _ _ _ _ (load_run 8 (p + 8) m
    (valid_sub _ _ _ (p + 8) 8 Hv ltac:(lia) ltac:(lia)))).
Qed.

Lemma store_bounds_run p b m :
  valid m p 16 = true ->
  exists m', store_bounds p b m = Ret (tt, m') /\
    bounds_at m' p = StackBounds (wrap64 (high b)) (wrap64 (low b)) /\
    only_writes (span p 16) m m'.
Proof.
  intros Hv. set (m1 := poked m p (le_bytes 8 (high b))).
  assert (W1 : only_writes (span p 8) m m1) by apply (poked_word_frame 8).
  set (m2 := poked m1 (p + 8) (le_bytes 8 (low b))).
  assert (W2 : only_writes (span (p + 8) 8) m1 m2) by apply (poked_word_frame 8).
  exists m2. split; [|split].
  - unfold store_bounds.
    rewrite (M_bind_step _ _ _ _ _ (store_run 8 p _ m (valid_sub _ _ _ p 8 Hv ltac:(lia) ltac:(lia)))).
    apply (store_run 8). rewrite (only_writes_valid _ _ _ _ _ W1).
    apply (valid_sub _ _ _ _ _ Hv); lia.
  - unfold bounds_at. f_equal.
    + erewrite word_at_frame; [apply word_at_poked|exact W2|]. unfold span. intros x. lia.
    + apply word_at_poked.
  - eapply only_writes_weaken; [exact (only_writes_seq _ _ _ _ _ W1 W2)|]. unfold span. intros x. lia.
Qed.

(** [get_thread_stack] on success. *)
Lemma get_thread_stack_run pt p m l size :
  pt_getstack pt = Some (l, size) -> valid m p 16 = true ->
  0 <= l -> 0 <= size -> MAX_STACK_SIZE <= l + size < 2 ^ 64 ->
  exists m', get_thread_stack pt p m = Ret (true, m') /\ only_writes (span p 16) m m' /\
    bounds_at m' p = StackBounds (l + size) (l + size - MAX_STACK_SIZE).
Proof.
  intros Hg Hv ? ? ?. unfold get_thread_stack. rewrite Hg. unfold MAX_STACK_SIZE in *.
  rewrite (ptr_add_small l size), ptr_add_small by lia.
  destruct (store_bounds_run p (StackBounds (l + size)
    (if negb (size =? 8 * 1024 * 1024) then l + size + - (8 * 1024 * 1024) else l)) m Hv)
    as (m' & E & Hb & Hw).
  exists m'. rewrite (M_bind_step _ _ _ _ _ E). split; [done|]. split; [done|].
  rewrite Hb. cbn [high low]. rewrite (wrap_small 64 (l + size)) by lia. f_equal.
  destruct (Z.eqb_spec size (8 * 1024 * 1024)); cbn [negb]; rewrite wrap_small; lia.
Qed.

(** The two halves. *)
Definition in_half (base mid : Z) (b : stack_bounds) (p : Z) : Prop :=
  if decide (base = mid) then low b <= p < mid else mid <= p < base.

(** ** Properties *)

(** C32: With known bounds, a stack pointer outside of them is refused; inside,
    the thread's stack is rewritten from the top of the half that holds the
    stack pointer to the top of the other half, which does not, and the
    result is 1 exactly when the rewriting fails. *)
Theorem rewrite_uses_other_half fuel garbage pt key sp regs dest_regs a b m :
  let bs := bounds_at m key in
  let mid := low bs + B_STACK_OFFSET in
  key <> NULL -> valid m key 16 = true -> sp <> NULL -> regs <> NULL -> dest_regs <> NULL ->
  mid < high bs ->
  let rewrite := userspace_rewrite_internal fuel garbage pt key sp regs dest_regs (Some a) (Some b) m in
  (~ low bs <= sp < high bs -> rewrite = Ret ((1, key), m)) /\
  (low bs <= sp < high bs ->
   exists cur new, (cur = high bs /\ new = mid \/ cur = mid /\ new = high bs) /\
     in_half cur mid bs sp /\ ~ in_half new mid bs sp /\
     rewrite = (r ← st_rewrite_stack fuel garbage (Some a) regs cur (Some b) dest_regs new;
                mret (if truthy r then 1 else 0, key)) m).
Proof.
  intros bs mid Hk Hv Hs Hr Hd Hm rewrite.
  assert (Hhi : 0 <= low bs < 2 ^ 64 /\ 0 <= high bs < 2 ^ 64) by (split; apply (word_at_range 8)).
  assert (Hmid : ptr_add (low bs) B_STACK_OFFSET = mid)
    by (apply ptr_add_small; unfold mid, B_STACK_OFFSET in *; lia).
  assert (E : rewrite = (if (sp <? low bs) || (high bs <=? sp) then Ret ((1, key), m)
    else (r ← st_rewrite_stack fuel garbage (Some a) regs (if mid <=? sp then high bs else mid)
            (Some b) dest_regs (if mid <=? sp then mid else high bs);
          mret (if truthy r then 1 else 0, key)) m)).
  { unfold rewrite, userspace_rewrite_internal.
    rewrite (proj2 (truthy_true sp) Hs), (proj2 (truthy_true regs) Hr),
      (proj2 (truthy_true dest_regs) Hd), (proj2 (truthy_true key) Hk). cbn [negb orb].
    rewrite (M_bind_step _ _ m (key, key, 0, true) m) by done. cbv beta iota. cbn [negb].
    rewrite (M_bind_step _ _ _ _ _ (load_bounds_run _ _ Hv)). fold bs. cbv zeta.
    rewrite Hmid. by destruct (_ || _). }
  rewrite E. unfold in_half. split; intros Hsp.
  - destruct (Z.ltb_spec sp (low bs)), (Z.leb_spec (high bs) sp); simpl; done || lia.
  - destruct (Z.ltb_spec sp (low bs)); [lia|]. destruct (Z.leb_spec (high bs) sp); [lia|].
    cbn [orb]. destruct (Z.leb_spec mid sp).
    + exists (high bs), mid. repeat case_decide; try lia. split; [by left|]. split; [lia|]. by split; [lia|].
    + exists mid, (high bs). repeat case_decide; try lia. split; [by right|]. split; [lia|]. by split; [lia|].
Qed.

(** The first time a thread asks, its bounds are read from the thread
    library and kept, and cover the [MAX_STACK_SIZE] bytes below the top of
    its stack; [get_stack_bounds] then returns the upper half when the stack
    pointer is in it, but an empty range when it is in the lower half. *)
Theorem get_stack_bounds_halves pt cur_stack m l size :
  wf_memory m -> align16 (m_next m) + 32 <= heap_limit ->
  pt_setspecific pt = 0 -> pt_getstack pt = Some (l, size) ->
  0 <= l -> 0 <= size -> MAX_STACK_SIZE <= l + size < 2 ^ 64 ->
  let top := l + size in
  exists b key m', get_stack_bounds pt cur_stack NULL m = Ret ((b, key), m') /\
    bounds_at m' key = StackBounds top (top - MAX_STACK_SIZE) /\ key <> NULL /\
    b = (if decide (top - B_STACK_OFFSET <= cur_stack)
         then StackBounds top (top - B_STACK_OFFSET)
         else StackBounds (top - B_STACK_OFFSET) (top - B_STACK_OFFSET)).
Proof.
  intros Hwf Hm Hsp Hg Hl Hsz Htop top.
  set (p := align16 (m_next m)). set (m1 := Memory (m_bytes m) (m_junk m)
    ((p, sizeof_stack_bounds) :: m_blocks m) (p + sizeof_stack_bounds + 16)).
  assert (E1 : malloc sizeof_stack_bounds m = Ret (p, m1)).
  { unfold malloc. by rewrite (proj2 (Z.leb_le _ _)) by (unfold sizeof_stack_bounds; lia). }
  assert (Hp : p <> NULL).
  { pose proof (align16_spec (m_next m)). pose proof (wf_next m Hwf). lia. }
  assert (Hv : valid m1 p 16 = true).
  { apply valid_spec. exists p, 16. split; [left|lia]. }
  destruct (get_thread_stack_run pt p m1 l size Hg Hv Hl Hsz Htop) as (m2 & E2 & Hw & Hb).
  assert (Hv2 : valid m2 p 16 = true) by (by rewrite (only_writes_valid _ _ _ _ _ Hw)).
  exists (if decide (top - B_STACK_OFFSET <= cur_stack)
         then StackBounds top (top - B_STACK_OFFSET)
         else StackBounds (top - B_STACK_OFFSET) (top - B_STACK_OFFSET)), p, m2.
  split; [|by split; [exact Hb|]]. unfold get_stack_bounds. cbn [truthy negb Z.eqb].
  rewrite M_bind_assoc. rewrite (M_bind_step _ _ _ _ _ E1), Hsp. cbn [truthy negb Z.eqb].
  rewrite M_bind_assoc. rewrite (M_bind_step _ _ _ _ _ E2).
  rewrite (M_bind_step _ _ m2 (true, p) m2) by done. cbv beta iota. cbn [negb].
  rewrite (M_bind_step _ _ _ _ _ (load_bounds_run _ _ Hv2)), Hb. cbv zeta. cbn [low high].
  unfold MAX_STACK_SIZE, B_STACK_OFFSET in *. rewrite ptr_add_small by lia.
  replace (l + size - 8 * 1024 * 1024 + 4 * 1024 * 1024) with (top - 4 * 1024 * 1024) by lia.
  destruct (Z.leb_spec (top - 4 * 1024 * 1024) cur_stack); case_decide; try lia; done.
Qed.

(** The first mapping of the process whose path starts with "[stack]". *)
Lemma scan_maps_spec lines :
  match scan_maps lines with
  | Some b => exists before l after, lines = before ++ l :: after /\
      Forall (fun l => is_stack_line l = false) before /\ is_stack_line l = true /\
      b = StackBounds (ml_end l) (ml_start l)
  | None => Forall (fun l => is_stack_line l = false) lines
  end.
Proof.
  induction lines as [|l lines IH]; simpl; [constructor|].
  destruct (is_stack_line l) eqn:El.
  - by exists [], l, lines.
  - destruct (scan_maps lines).
    + destruct IH as (before & l' & after & -> & ? & ? & ?).
      exists (l :: before), l', after. by repeat constructor.
    + by constructor.
Qed.

(** Rounding the distance to the stack base up to 16 bytes. *)
Lemma rounded_offset d :
  0 <= d < 2 ^ 63 ->
  let r := wrap64 (d + (if truthy (d mod 0x10) then 0x10 - d mod 0x10 else 0)) in
  r mod 16 = 0 /\ d <= r < d + 16.
Proof.
  intros Hd. pose proof (Z.mod_pos_bound d 16 ltac:(lia)). pose proof (Z.div_mod d 16 ltac:(lia)).
  cbv zeta. destruct (truthy (d mod 16)) eqn:Et.
  - apply truthy_true in Et. rewrite wrap_small by lia. split; [|lia].
    replace (d + (16 - d mod 16)) with ((d / 16 + 1) * 16) by lia. apply Z.mod_mul. lia.
  - apply truthy_false in Et. rewrite wrap_small by lia. split; [|lia]. by rewrite Z.add_0_r.
Qed.

(** Preparing the main thread's stack touches its lowest page and records
    bounds that reach from [rlim_cur] bytes below the end of the "[stack]"
    mapping up to at most 15 bytes below the base of the first function
    activation, a multiple of 16 below the end of the mapping, so that
    arguments and environment are not in the range that is rewritten. *)
Theorem prep_stack_bounds pt lines b limit base m :
  wf_memory m -> align16 (m_next m) + 32 <= heap_limit ->
  get_main_stack (Some lines) = Some b -> 0 <= limit <= high b -> high b < 2 ^ 63 ->
  16 <= base <= high b -> valid m (high b - limit) 8 = true ->
  exists key m', prep_stack pt (Some lines) (0, limit) base m = Ret ((true, key), m') /\
    low (bounds_at m' key) = high b - limit /\
    base - 16 < high (bounds_at m' key) <= base /\
    (high b - high (bounds_at m' key)) mod 16 = 0.
Proof.
  intros Hwf Hm Hb Hl Hh Hbase Hv.
  set (p := align16 (m_next m)). set (m1 := Memory (m_bytes m) (m_junk m)
    ((p, sizeof_stack_bounds) :: m_blocks m) (p + sizeof_stack_bounds + 16)).
  assert (E1 : malloc sizeof_stack_bounds m = Ret (p, m1)).
  { unfold malloc. by rewrite (proj2 (Z.leb_le _ _)) by (unfold sizeof_stack_bounds; lia). }
  assert (Hv1 : valid m1 p 16 = true) by (apply valid_spec; exists p, 16; split; [left|lia]).
  assert (Ht : valid m1 (high b - limit) 8 = true).
  { revert Hv. rewrite !valid_spec. intros (c & s & ? & ?). exists c, s. by split; [right|]. }
  destruct (rounded_offset (high b - base) ltac:(lia)) as [R1 R2]. revert R1 R2.
  set (r := wrap64 _). intros R1 R2.
  destruct (store_bounds_run p (StackBounds (high b - r) (high b - limit)) m1 Hv1)
    as (m2 & E2 & Hb2 & _). cbn [high low] in Hb2.
  rewrite !wrap_small in Hb2 by lia.
  exists p, m2. rewrite Hb2. cbn [high low]. split; [|split; [done|split; [lia|]]].
  - unfold prep_stack. rewrite (M_bind_step _ _ _ _ _ E1), Hb. cbn [fst snd Z.ltb Z.eqb Z.compare].
    rewrite ptr_add_small by lia. rewrite M_bind_assoc.
    rewrite (M_bind_step _ _ _ _ _ (load_run 8 _ _ Ht)).
    rewrite (M_bind_step _ _ m1 (StackBounds (high b) (high b - limit)) m1) by done.
    cbv zeta. cbn [high low]. rewrite (wrap_small 64 (high b - base)) by lia. fold r.
    rewrite ptr_add_small by lia.
    by rewrite (M_bind_step _ _ _ _ _ E2).
  - by replace (high b - (high b - r)) with r by lia.
Qed.

Section handles_properties.
Context {Elf Scn : Type} `{EqDecision Elf} `{HL : LibelfLaws Elf Scn} `{Os}.

(** What remains of a binary's resources once its handle is destroyed: nothing
    but the name the constructor allocated, when there was no handle. *)
Definition leaked (b : binary Elf) : list (Z * Z) :=
  match b_handle b, b_fn b with
  | None, Some (p, _) => if b_alloc_fn b then [(p, BUF_SIZE)] else []
  | _, _ => []
  end.

(** Opening under a given name, and destroying. *)
Lemma init_destroy fuel name w :
  wf_memory (w_mem w) -> returns_ident Elf Scn ->
  (forall fd e, elf_begin fd = Some e -> (length (sections e) < fuel)%nat) ->
  exists r w', st_init fuel (Some name) w = Ret (r, w') /\
    match r with
    | None => resources w' = resources w
    | Some h => o_self h <> NULL /\ holding w (o_self h) (o_fd h) (o_elf h) w'
    end.
Proof using HL.
  intros Hwf Hid Hfuel.
  destruct (st_init_acquires fuel name w Hwf) as [(w' & E & Hr)|(p & fd & e & w1 & Hp & _ & Hb & Hh & E)];
    [by exists None, w'|]. rewrite E.
  destruct (pure_read_metadata e fuel (Hfuel _ _ Hb) (Hid e) w1) as [[h|] Er];
    rewrite (W_bind_step _ _ _ _ _ Er).
  - by exists (Some (Opened Elf p fd e name h)), w1.
  - destruct (close_elf_releases _ _ _ _ _ Hp Hh) as (w2 & E2 & R2). by exists None, w2.
Qed.

(** After a binary's initialisation in the constructor and its part of the
    destructor, the process has the memory, files and ELF descriptors it had
    before, except that a name the constructor made up is not freed when the
    binary could not be opened. *)
Theorem binary_lifecycle fuel getenv env suffix progname fn w :
  wf_memory (w_mem w) -> returns_ident Elf Scn ->
  (forall fd e, elf_begin fd = Some e -> (length (sections e) < fuel)%nat) ->
  align16 (m_next (w_mem w)) + BUF_SIZE + 16 <= heap_limit ->
  exists b w' w'', init_binary fuel getenv env suffix progname fn w = Ret (b, w') /\
    destroy_binary b w' = Ret (tt, w'') /\
    resources w'' = (leaked b ++ m_blocks (w_mem w), w_fds w, w_elfs w).
Proof using HL.
  intros Hwf Hid Hfuel Hm.
  assert (Hgiven : forall name, exists b w' w'',
    (handle ← st_init fuel (Some name); mret (Binary Elf handle fn false)) w = Ret (b, w') /\
    destroy_binary b w' = Ret (tt, w'') /\
    resources w'' = (leaked b ++ m_blocks (w_mem w), w_fds w, w_elfs w)).
  { intros name. destruct (init_destroy fuel name w Hwf Hid Hfuel) as (r & w' & E & Hr).
    exists (Binary Elf r fn false), w'. rewrite (W_bind_step _ _ _ _ _ E).
    unfold destroy_binary, leaked. cbn [b_handle b_fn b_alloc_fn]. destruct r as [h|].
    - destruct Hr as [Hp Hh]. destruct (destroy_releases h w w' Hp Hh) as (w2 & E2 & R2).
      exists w2. rewrite (W_bind_step _ _ _ _ _ E2). split; [done|].
      split; [by destruct fn as [[??]|]|exact R2].
    - exists w'. split; [done|]. split; [done|]. by destruct fn as [[??]|]. }
  unfold init_binary. destruct (getenv env) as [name|]; [apply Hgiven|].
  destruct fn as [[q name]|]; [apply Hgiven|]. clear Hgiven.
  set (p := align16 (m_next (w_mem w))). set (m1 := Memory (m_bytes (w_mem w)) (m_junk (w_mem w))
    ((p, BUF_SIZE) :: m_blocks (w_mem w)) (p + BUF_SIZE + 16)).
  assert (E1 : malloc BUF_SIZE (w_mem w) = Ret (p, m1)).
  { unfold malloc. by rewrite (proj2 (Z.leb_le _ _)) by done. }
  assert (Hs : 0 <= BUF_SIZE) by done.
  destruct (malloc_spec _ _ _ _ Hwf Hs E1) as [[Hp _]|[Hp Ha]].
  { pose proof (align16_spec (m_next (w_mem w))). pose proof (wf_next _ Hwf). lia. }
  set (w1 := World Elf m1 (w_fds w) (w_elfs w)).
  assert (E2 : on_mem (malloc BUF_SIZE) w = Ret (p, w1)) by (unfold on_mem; by rewrite E1).
  rewrite (W_bind_step _ _ _ _ _ E2). destruct (Z.eqb_spec p NULL); [lia|].
  rewrite (W_bind_step _ _ w1 tt w1) by done.
  destruct (init_destroy fuel (suffixed progname suffix) w1 (al_wf _ _ _ _ Ha) Hid Hfuel)
    as (r & w2 & E3 & Hr).
  exists (Binary Elf r (Some (p, suffixed progname suffix)) true), w2.
  rewrite (W_bind_step _ _ _ _ _ E3). unfold destroy_binary, leaked. cbn [b_handle b_fn b_alloc_fn].
  destruct r as [h|].
  - destruct Hr as [Hq Hh]. destruct (destroy_releases h w1 w2 Hq Hh) as (w3 & E4 & R4).
    rewrite (W_bind_step _ _ _ _ _ E4). injection R4 as Rb Rf Re. eexists. split; [done|]. split.
    + unfold on_mem. rewrite (free_head p BUF_SIZE _ (m_blocks (w_mem w)) Rb n). reflexivity.
    + unfold resources. simpl. by rewrite Rf, Re.
  - exists w2. split; [done|]. split; [done|]. exact Hr.
Qed.
End handles_properties.

(** ** Witnesses *)

(** A thread whose bounds are at 0x5000 and whose stack ends at 0x1000000. *)
Definition thread_memory : memory :=
  Memory (pokes 0x5000 (le_bytes 8 0x1000000 ++ le_bytes 8 0x800000) ∅) (fun _ => 0)
    [(0x5000, 16); (0x800000, 0x800000)] 0x2000000.

Lemma thread_memory_wf : wf_memory thread_memory.
Proof.
  constructor.
  - intros b s. simpl. rewrite !elem_of_cons, elem_of_nil.
    intros [[= -> ->]|[[= -> ->]|[]]]; lia.
  - simpl. unfold heap_limit. lia.
  - repeat first [apply FOP_cons | apply FOP_nil | apply Forall_cons; split | apply Forall_nil];
      try done; unfold disjoint_blocks; simpl; lia.
Qed.

Lemma thread_bounds : bounds_at thread_memory 0x5000 = StackBounds 0x1000000 0x800000.
Proof. vm_compute. reflexivity. Qed.

Lemma rewrite_uses_other_half_witness :
  userspace_rewrite_internal 8 garbage_context (Pthread 0 None) 0x5000 0x1000000 1 2
    (Some x86_handle) (Some a64_handle) thread_memory = Ret ((1, 0x5000), thread_memory).
Proof.
  apply (rewrite_uses_other_half 8 garbage_context (Pthread 0 None) 0x5000 0x1000000 1 2
    x86_handle a64_handle thread_memory); rewrite ?thread_bounds; try done; cbn [low high]; lia.
Defined.

Lemma get_stack_bounds_halves_witness :
  exists b key m', get_stack_bounds (Pthread 0 (Some (0x800000, 0x800000))) 0x900000 NULL
    thread_memory = Ret ((b, key), m') /\ high b = low b.
Proof.
  destruct (get_stack_bounds_halves (Pthread 0 (Some (0x800000, 0x800000))) 0x900000 thread_memory
    0x800000 0x800000 thread_memory_wf) as (b & key & m' & E & _ & _ & Hb); try done.
  exists b, key, m'. split; [exact E|]. by rewrite Hb.
Defined.

Definition maps_sample : list maps_line :=
  [MapsLine 7 0x400000 0x500000 "/bin/a.out"; MapsLine 6 0x600000 0x700000 "";
   MapsLine 7 0xf00000 0x1000000 "[stack]"].

Lemma prep_stack_bounds_witness :
  exists key m', prep_stack (Pthread 0 None) (Some maps_sample) (0, 0x800000) 0xfffff3
    thread_memory = Ret ((true, key), m') /\ 0xfffff3 - 16 < high (bounds_at m' key) <= 0xfffff3.
Proof.
  destruct (prep_stack_bounds (Pthread 0 None) maps_sample (StackBounds 0x1000000 0xf00000)
    0x800000 0xfffff3 thread_memory thread_memory_wf) as (key & m' & E & _ & Hb & _); try done.
  exists key, m'. by split.
Defined.

(** A program whose made-up binary is for an unsupported machine. *)
Lemma binary_lifecycle_witness :
  exists b w' w'', @init_binary _ _ _ (image_libelf (metadata_image 0 image_handle)) image_os 7
      (fun _ => None) ENV_AARCH64_BIN "_aarch64" "prog" None start_world = Ret (b, w') /\
    destroy_binary b w' = Ret (tt, w'') /\ m_blocks (w_mem w'') = leaked b.
Proof.
  destruct (@binary_lifecycle _ _ _ _ (image_laws (metadata_image 0 image_handle)) image_os 7
    (fun _ => None) ENV_AARCH64_BIN "_aarch64"%string "prog"%string None start_world
    start_world_wf (image_has_ident _)) as (b & w' & w'' & E1 & E2 & R).
  - intros fd e [= <-]. simpl. lia.
  - done.
  - exists b, w', w''. split; [exact E1|]. split; [exact E2|].
    injection R as Hb _ _. rewrite Hb. apply app_nil_r.
Defined.
