(* ===== verification/StackMap.v ===== *)
(** * LLVM's stack maps (src/tool/stack_metadata: stackmap.c, stackmap.h)

    The compiler leaves one stack map per object file in a section of the
    binary: function records, constants, and call-site records of variable
    size.  The tool reads them in two passes, one that counts the maps and one
    that fills an array of structs whose pointers lead into the section.  The two
    arrays are lists: the tool uses what [malloc] returns without a check, and the
    model has it succeed. *)

From S2P Require Import Prelude Machine CallSite Init.
From stdpp Require Import strings.

#[local] Open Scope Z_scope.

(** ** Definitions *)

(** include/retval.h *)
Definition SUCCESS : Z := 0.
Definition INVALID_ARGUMENT : Z := 1.
Definition READ_ELF_FAILED : Z := 8.
Definition FIND_SECTION_FAILED : Z := 9.
Definition CREATE_METADATA_FAILED : Z := 13.
Definition INVALID_METADATA : Z := 14.

Record function_record := FunctionRecord {
  fr_func_addr : Z;       (* uint64_t *)
  fr_stack_size : Z;      (* uint64_t *)
  fr_num_unwind : Z;      (* uint32_t *)
  fr_unwind_offset : Z;   (* uint32_t *)
}.

Record live_out_record := LiveOut {
  lo_regnum : Z;
  lo_reserved : Z;
  lo_size : Z;
}.

(** Pointers into the section's data are offsets from its start; the two padding
    fields are never written nor read. *)
Record call_site_record := CallSiteRecord {
  sr_id : Z;              (* uint64_t *)
  sr_func_idx : Z;        (* uint32_t *)
  sr_offset : Z;          (* uint32_t *)
  sr_reserved : Z;        (* uint16_t *)
  sr_num_locations : Z;   (* uint16_t *)
  sr_locations : Z;
  sr_num_live_outs : Z;   (* uint16_t *)
  sr_live_outs : Z;
  sr_num_arch_live : Z;   (* uint16_t *)
  sr_arch_live : Z;
}.

Record stack_map_section := StackMapSection {
  sm_version : Z;
  sm_reserved : Z;
  sm_reserved2 : Z;
  sm_num_functions : Z;   (* uint32_t *)
  sm_num_constants : Z;   (* uint32_t *)
  sm_num_records : Z;     (* uint32_t *)
  sm_function_records : Z;
  sm_constants : Z;
  sm_call_sites : list call_site_record;
}.

(** Sizes and offsets of the packed structs. *)
Definition sizeof_function_record : Z := 24.
Definition sizeof_live_out : Z := 4.
Definition sizeof_live_value : Z := 12.
Definition sizeof_arch_live : Z := 20.
Definition offsetof_num_locations : Z := 18.
Definition offsetof_function_records : Z := 16.

(** The bytes at an offset, and packed fields read there. *)
Definition data_at (buf : list Z) (off : Z) : list Z := drop (Z.to_nat off) buf.

Definition fields_at (ws : list nat) (buf : list Z) (off : Z) : outcome (list Z) :=
  '(vs, _) ← get (take_fields ws (data_at buf off)); Ret vs.

(** [*(uint16_t * )p] *)
Definition u16_at (buf : list Z) (off : Z) : outcome Z :=
  vs ← fields_at [2%nat] buf off; get (head vs).

(** The next multiple of 8, for an address [base + pos]. *)
Definition align8 (base pos : Z) : Z :=
  if truthy ((base + pos) mod 8) then pos + (8 - (base + pos) mod 8) else pos.

Fixpoint records_size_loop (base : Z) (buf : list Z) (n : nat) (raw_sm : Z) : outcome Z :=
  match n with
  | O => Ret raw_sm
  | S n' =>
      let raw_sm := raw_sm + offsetof_num_locations in
      num ← u16_at buf raw_sm;
      let raw_sm := raw_sm + (4 + sizeof_live_value * num) in
      num ← u16_at buf raw_sm;
      let raw_sm := raw_sm + (4 + sizeof_live_out * num) in
      num ← u16_at buf raw_sm;
      let raw_sm := raw_sm + (2 + sizeof_arch_live * num) in
      records_size_loop base buf n' (align8 base raw_sm)
  end.

Definition stackmap_records_size (base : Z) (buf : list Z) (raw_sm num_records : Z) : outcome Z :=
  p ← records_size_loop base buf (Z.to_nat num_records) raw_sm; Ret (p - raw_sm).

(** One record, and where the next one starts. *)
Definition read_record (base : Z) (buf : list Z) (raw_sm : Z) : outcome (call_site_record * Z) :=
  hd ← fields_at [8; 4; 4; 2]%nat buf raw_sm;
  let raw_sm := raw_sm + offsetof_num_locations in
  num_locations ← u16_at buf raw_sm;
  let raw_sm := raw_sm + 2 in
  let locations := raw_sm in
  let raw_sm := raw_sm + sizeof_live_value * num_locations + 2 in
  num_live_outs ← u16_at buf raw_sm;
  let raw_sm := raw_sm + 2 in
  let live_outs := raw_sm in
  let raw_sm := raw_sm + sizeof_live_out * num_live_outs + 2 in
  num_arch_live ← u16_at buf raw_sm;
  let raw_sm := raw_sm + 2 in
  let arch_live := raw_sm in
  let raw_sm := raw_sm + sizeof_arch_live * num_arch_live in
  match hd with
  | [id; func_idx; offset; reserved] =>
      Ret (CallSiteRecord id func_idx offset reserved num_locations locations
             num_live_outs live_outs num_arch_live arch_live, align8 base raw_sm)
  | _ => Fault
  end.

Fixpoint read_records_loop (base : Z) (buf : list Z) (n : nat) (raw_sm : Z) :
    outcome (list call_site_record * Z) :=
  match n with
  | O => Ret ([], raw_sm)
  | S n' =>
      '(r, raw_sm) ← read_record base buf raw_sm;
      '(rs, raw_sm) ← read_records_loop base buf n' raw_sm;
      Ret (r :: rs, raw_sm)
  end.

Definition read_stackmap_records (base : Z) (buf : list Z) (raw_sm num_records : Z) :
    outcome (list call_site_record * Z) :=
  '(rs, p) ← read_records_loop base buf (Z.to_nat num_records) raw_sm; Ret (rs, p - raw_sm).

(** The header of a map: version, two reserved fields and three counts. *)
Definition header_widths : list nat := [1; 1; 2; 4; 4; 4]%nat.

(** The first pass: the number of maps. *)
Fixpoint count_maps (fuel : nat) (base : Z) (buf : list Z) (sh_size offset num_sm : Z) : outcome Z :=
  if offset <? sh_size then
    match fuel with
    | O => Spin
    | S fuel' =>
        hd ← fields_at header_widths buf offset;
        match hd with
        | [_; _; _; num_functions; num_constants; num_records] =>
            let offset := offset + offsetof_function_records in
            let offset := offset + sizeof_function_record * num_functions in
            let offset := offset + 8 * num_constants in
            size ← stackmap_records_size base buf offset num_records;
            count_maps fuel' base buf sh_size (offset + size) (num_sm + 1)
        | _ => Fault
        end
    end
  else Ret num_sm.

(** One map, and the offset of the next one. *)
Definition read_map (base : Z) (buf : list Z) (offset : Z) : outcome (stack_map_section * Z) :=
  hd ← fields_at header_widths buf offset;
  match hd with
  | [version; reserved; reserved2; num_functions; num_constants; num_records] =>
      let offset := offset + offsetof_function_records in
      let function_records := offset in
      let offset := offset + sizeof_function_record * num_functions in
      let constants := offset in
      let offset := offset + 8 * num_constants in
      '(call_sites, size) ← read_stackmap_records base buf offset num_records;
      Ret (StackMapSection version reserved reserved2 num_functions num_constants num_records
             function_records constants call_sites, offset + size)
  | _ => Fault
  end.

Fixpoint read_maps (base : Z) (buf : list Z) (n : nat) (offset : Z) :
    outcome (list stack_map_section) :=
  match n with
  | O => Ret []
  | S n' =>
      '(sm, offset) ← read_map base buf offset;
      sms ← read_maps base buf n' offset;
      Ret (sm :: sms)
  end.

(** The data blocks of a section, as [elf_getdata] enumerates them: each with the
    address and contents of its buffer. *)
Class LibelfData (Scn : Type) := {
  data_blocks : Scn -> list (Z * list Z);
}.

Definition LLVM_STACKMAP_SECTION : string := ".llvm_stackmaps".

Section reading.
Context {Elf Scn : Type} `{Libelf Elf Scn} `{LibelfData Scn}.

Definition get_num_data_blocks (s : Scn) : Z := zlen (data_blocks s).

(** The same search as the runtime's [get_section]. *)
Definition get_section_by_name (fuel : nat) (e : Elf) (name : string) : outcome (option Scn) :=
  get_section fuel e name.

(** The result code, the maps and, for the reader of their pointers, the data. *)
Definition init_stackmap (fuel : nat) (e : Elf) :
    outcome (Z * list stack_map_section * list Z) :=
  scn ← get_section_by_name fuel e LLVM_STACKMAP_SECTION;
  match scn with
  | None => Ret (FIND_SECTION_FAILED, [], [])
  | Some scn =>
      match gelf_getshdr scn with
      | None => Ret (READ_ELF_FAILED, [], [])
      | Some shdr =>
          if negb (get_num_data_blocks scn =? 1) then Ret (READ_ELF_FAILED, [], [])
          else
            match head (data_blocks scn) with
            | None => Ret (READ_ELF_FAILED, [], [])
            | Some (base, d_buf) =>
                num_sm ← count_maps (S (length d_buf)) base d_buf (sh_size shdr) 0 0;
                sm ← read_maps base d_buf (Z.to_nat num_sm) 0;
                Ret (SUCCESS, sm, d_buf)
            end
      end
  end.
End reading.

(** What the pointers lead to. *)
Definition function_record_at (buf : list Z) (p i : Z) : outcome function_record :=
  vs ← fields_at [8; 8; 4; 4]%nat buf (p + sizeof_function_record * i);
  match vs with
  | [a; s; n; u] => Ret (FunctionRecord a s n u)
  | _ => Fault
  end.

Definition live_value_at (buf : list Z) (p k : Z) : outcome live_value :=
  '(v, _) ← get (decode_live_value (data_at buf (p + sizeof_live_value * k))); Ret v.

Definition arch_live_at (buf : list Z) (p k : Z) : outcome arch_live_value :=
  '(v, _) ← get (decode_arch_live (data_at buf (p + sizeof_arch_live * k))); Ret v.

(** ** Specification: the format as the compiler writes it *)

Record entry := Entry {
  en_id : Z;
  en_func_idx : Z;
  en_offset : Z;
  en_reserved : Z;
  en_locations : list live_value;
  en_live_outs : list live_out_record;
  en_arch_live : list arch_live_value;
}.

Record stack_map := StackMap {
  mp_version : Z;
  mp_reserved : Z;
  mp_reserved2 : Z;
  mp_functions : list function_record;
  mp_constants : list Z;
  mp_entries : list entry;
}.

Definition encode_live_out (o : live_out_record) : list Z :=
  put_fields [(2%nat, lo_regnum o); (1%nat, lo_reserved o); (1%nat, lo_size o)].

Definition encode_function (f : function_record) : list Z :=
  put_fields [(8%nat, fr_func_addr f); (8%nat, fr_stack_size f); (4%nat, fr_num_unwind f);
              (4%nat, fr_unwind_offset f)].

Definition count16 {A} (l : list A) : list Z := put_fields [(2%nat, zlen l)].

Definition padding16 : list Z := [0; 0].

Definition encode_entry (e : entry) : list Z :=
  put_fields [(8%nat, en_id e); (4%nat, en_func_idx e); (4%nat, en_offset e); (2%nat, en_reserved e)] ++
  count16 (en_locations e) ++ encode_section encode_live_value (en_locations e) ++ padding16 ++
  count16 (en_live_outs e) ++ encode_section encode_live_out (en_live_outs e) ++ padding16 ++
  count16 (en_arch_live e) ++ encode_section encode_arch_live (en_arch_live e).

(** Entries are aligned to 8 bytes in memory. *)
Definition padding (base pos : Z) : list Z := replicate (Z.to_nat (align8 base pos - pos)) 0.

Fixpoint encode_entries (base pos : Z) (es : list entry) : list Z :=
  match es with
  | [] => []
  | e :: es' =>
      let stop := pos + zlen (encode_entry e) in
      encode_entry e ++ padding base stop ++ encode_entries base (align8 base stop) es'
  end.

Definition encode_header (m : stack_map) : list Z :=
  put_fields [(1%nat, mp_version m); (1%nat, mp_reserved m); (2%nat, mp_reserved2 m);
    (4%nat, zlen (mp_functions m)); (4%nat, zlen (mp_constants m)); (4%nat, zlen (mp_entries m))].

Definition encode_constants (cs : list Z) : list Z := encode_section (le_bytes 8) cs.

(** Where the entries of a map that starts at [pos] begin. *)
Definition entries_start (pos : Z) (m : stack_map) : Z :=
  pos + 16 + 24 * zlen (mp_functions m) + 8 * zlen (mp_constants m).

Definition encode_map (base pos : Z) (m : stack_map) : list Z :=
  encode_header m ++ encode_section encode_function (mp_functions m) ++
  encode_constants (mp_constants m) ++ encode_entries base (entries_start pos m) (mp_entries m).

Fixpoint encode_maps (base pos : Z) (ms : list stack_map) : list Z :=
  match ms with
  | [] => []
  | m :: ms' => encode_map base pos m ++ encode_maps base (pos + zlen (encode_map base pos m)) ms'
  end.

Definition function_typed (f : function_record) : Prop :=
  uint 64 (fr_func_addr f) /\ uint 64 (fr_stack_size f) /\ uint 32 (fr_num_unwind f) /\
  uint 32 (fr_unwind_offset f).

Record entry_typed (e : entry) : Prop := {
  et_header : uint 64 (en_id e) /\ uint 32 (en_func_idx e) /\ uint 32 (en_offset e) /\
    uint 16 (en_reserved e);
  et_counts : zlen (en_locations e) < 2 ^ 16 /\ zlen (en_live_outs e) < 2 ^ 16 /\
    zlen (en_arch_live e) < 2 ^ 16;
  et_locations : Forall live_value_typed (en_locations e);
  et_arch_live : Forall arch_live_typed (en_arch_live e);
}.

Record map_typed (m : stack_map) : Prop := {
  mt_header : uint 8 (mp_version m) /\ uint 8 (mp_reserved m) /\ uint 16 (mp_reserved2 m);
  mt_counts : zlen (mp_functions m) < 2 ^ 32 /\ zlen (mp_constants m) < 2 ^ 32 /\
    zlen (mp_entries m) < 2 ^ 32;
  mt_functions : Forall function_typed (mp_functions m);
  mt_entries : Forall entry_typed (mp_entries m);
}.

(** A struct describes an entry (a map) of the section's data. *)
Record describes_entry (buf : list Z) (e : entry) (r : call_site_record) : Prop := {
  de_header : sr_id r = en_id e /\ sr_func_idx r = en_func_idx e /\
    sr_offset r = en_offset e /\ sr_reserved r = en_reserved e;
  de_counts : sr_num_locations r = zlen (en_locations e) /\
    sr_num_live_outs r = zlen (en_live_outs e) /\ sr_num_arch_live r = zlen (en_arch_live e);
  de_pointers : 0 <= sr_locations r /\ 0 <= sr_arch_live r;
  de_locations : forall k v, en_locations e !! k = Some v ->
    live_value_at buf (sr_locations r) (Z.of_nat k) = Ret v;
  de_arch_live : forall k v, en_arch_live e !! k = Some v ->
    arch_live_at buf (sr_arch_live r) (Z.of_nat k) = Ret v;
  de_location_bytes : exists rest, data_at buf (sr_locations r) =
    encode_section encode_live_value (en_locations e) ++ 0 :: rest;
  de_arch_bytes : exists rest, data_at buf (sr_arch_live r) =
    encode_section encode_arch_live (en_arch_live e) ++ rest;
}.

Record describes_map (buf : list Z) (m : stack_map) (s : stack_map_section) : Prop := {
  dm_header : sm_version s = mp_version m /\ sm_reserved s = mp_reserved m /\
    sm_reserved2 s = mp_reserved2 m;
  dm_counts : sm_num_functions s = zlen (mp_functions m) /\
    sm_num_constants s = zlen (mp_constants m) /\ sm_num_records s = zlen (mp_entries m);
  dm_functions : forall i f, mp_functions m !! i = Some f ->
    function_record_at buf (sm_function_records s) (Z.of_nat i) = Ret f;
  dm_entries : Forall2 (describes_entry buf) (mp_entries m) (sm_call_sites s);
}.

(** ** Lemmas *)

Lemma zlen_app {A} (l k : list A) : zlen (l ++ k) = zlen l + zlen k.
Proof. unfold zlen. rewrite length_app. lia. Qed.

Lemma data_at_app pre x off : off = zlen pre -> data_at (pre ++ x) off = x.
Proof. intros ->. unfold data_at, zlen. by rewrite Nat2Z.id, drop_app_length. Qed.

Lemma fields_at_app buf pre fs post off :
  buf = pre ++ put_fields fs ++ post -> off = zlen pre ->
  Forall (fun '(n, v) => uint (8 * Z.of_nat n) v) fs ->
  fields_at fs.*1 buf off = Ret fs.*2.
Proof.
  intros -> Ho Ht. unfold fields_at. rewrite data_at_app, take_put_fields by done. simpl. f_equal.
  clear Ho. induction Ht as [|[n v] fs Hv _ IH]; [done|]. simpl.
  f_equal; [by apply wrap_small|exact IH].
Qed.

Lemma u16_at_app {A} buf pre (l : list A) post off :
  buf = pre ++ count16 l ++ post -> off = zlen pre -> zlen l < 2 ^ 16 ->
  u16_at buf off = Ret (zlen l).
Proof.
  intros Hb Ho Hl. unfold u16_at.
  pose proof (fields_at_app buf pre [(2%nat, zlen l)] post off Hb Ho) as E. simpl in E.
  rewrite E; [done|]. repeat constructor; unfold zlen in *; simpl in *; lia.
Qed.

Lemma zlen_put_fields fs : zlen (put_fields fs) = Z.of_nat (sum_list fs.*1).
Proof. unfold zlen. by rewrite put_fields_length. Qed.

Lemma count16_size {A} (l : list A) : zlen (count16 l) = 2.
Proof. done. Qed.

Lemma live_outs_size l : zlen (encode_section encode_live_out l) = 4 * zlen l.
Proof. by apply (encoded_zlen _ 4). Qed.
Lemma functions_size l : zlen (encode_section encode_function l) = 24 * zlen l.
Proof. by apply (encoded_zlen _ 24). Qed.
Lemma constants_size l : zlen (encode_constants l) = 8 * zlen l.
Proof. by apply (encoded_zlen _ 8). Qed.

Lemma zlen_nonneg {A} (l : list A) : 0 <= zlen l.
Proof. unfold zlen. lia. Qed.

Lemma align8_spec base pos : pos <= align8 base pos < pos + 8.
Proof.
  unfold align8. pose proof (Z.mod_pos_bound (base + pos) 8 ltac:(lia)).
  destruct (truthy ((base + pos) mod 8)) eqn:E; [apply truthy_true in E|]; lia.
Qed.

Lemma zlen_padding base pos : zlen (padding base pos) = align8 base pos - pos.
Proof.
  pose proof (align8_spec base pos). unfold padding, zlen. rewrite length_replicate. lia.
Qed.

Lemma padding16_size : zlen padding16 = 2.
Proof. done. Qed.

#[local] Hint Rewrite @zlen_app @count16_size live_outs_size functions_size constants_size
  live_values_size arch_live_size zlen_padding padding16_size : zlen.

Ltac zlen := autorewrite with zlen; rewrite ?zlen_put_fields; simpl; try lia.

Ltac all_typed := repeat first [apply List.Forall_nil | apply List.Forall_cons; [done|]].

(** The record read for an entry at [off]. *)
Definition record_of (off : Z) (e : entry) : call_site_record :=
  let locations := off + 20 in
  let live_outs := locations + 12 * zlen (en_locations e) + 4 in
  let arch_live := live_outs + 4 * zlen (en_live_outs e) + 4 in
  CallSiteRecord (en_id e) (en_func_idx e) (en_offset e) (en_reserved e)
    (zlen (en_locations e)) locations (zlen (en_live_outs e)) live_outs
    (zlen (en_arch_live e)) arch_live.

Lemma entry_size e :
  zlen (encode_entry e) = 30 + 12 * zlen (en_locations e) + 4 * zlen (en_live_outs e) +
    20 * zlen (en_arch_live e) - 2.
Proof. unfold encode_entry. zlen. Qed.

Section at_entry.
Context (base : Z) (buf pre post : list Z) (e : entry) (off : Z).
Context (Hbuf : buf = pre ++ encode_entry e ++ post) (Hoff : off = zlen pre).
Context (Ht : entry_typed e).

#[local] Abbreviation header := (put_fields [(8%nat, en_id e); (4%nat, en_func_idx e);
  (4%nat, en_offset e); (2%nat, en_reserved e)]).
#[local] Abbreviation locs := (count16 (en_locations e) ++
  encode_section encode_live_value (en_locations e) ++ padding16).
#[local] Abbreviation outs := (count16 (en_live_outs e) ++
  encode_section encode_live_out (en_live_outs e) ++ padding16).

Ltac split_buf := rewrite Hbuf; unfold encode_entry; rewrite <- !app_assoc; reflexivity.

Lemma entry_header :
  fields_at [8; 4; 4; 2]%nat buf off = Ret [en_id e; en_func_idx e; en_offset e; en_reserved e].
Proof using Hbuf Hoff Ht.
  destruct (et_header e Ht) as (? & ? & ? & ?).
  eapply (fields_at_app _ pre [(8%nat, en_id e); (4%nat, en_func_idx e); (4%nat, en_offset e);
    (2%nat, en_reserved e)]); [split_buf|done|]. all_typed.
Qed.

Lemma entry_num_locations : u16_at buf (off + 18) = Ret (zlen (en_locations e)).
Proof using Hbuf Hoff Ht.
  destruct (et_counts e Ht) as (? & ? & ?).
  eapply (u16_at_app _ (pre ++ header)); [split_buf|zlen|done].
Qed.

Lemma entry_num_live_outs :
  u16_at buf (off + 22 + 12 * zlen (en_locations e)) = Ret (zlen (en_live_outs e)).
Proof using Hbuf Hoff Ht.
  destruct (et_counts e Ht) as (? & ? & ?).
  eapply (u16_at_app _ (pre ++ header ++ locs)); [split_buf|zlen|done].
Qed.

Lemma entry_num_arch_live :
  u16_at buf (off + 26 + 12 * zlen (en_locations e) + 4 * zlen (en_live_outs e)) =
    Ret (zlen (en_arch_live e)).
Proof using Hbuf Hoff Ht.
  destruct (et_counts e Ht) as (? & ? & ?).
  eapply (u16_at_app _ (pre ++ header ++ locs ++ outs)); [split_buf|zlen|done].
Qed.

Lemma read_record_spec :
  read_record base buf off = Ret (record_of off e, align8 base (off + zlen (encode_entry e))).
Proof using Hbuf Hoff Ht.
  unfold read_record, offsetof_num_locations, sizeof_live_value, sizeof_live_out, sizeof_arch_live.
  rewrite entry_header. cbn [mbind outcome_bind]. rewrite entry_num_locations. cbn [mbind outcome_bind].
  replace (off + 18 + 2 + 12 * zlen (en_locations e) + 2)
    with (off + 22 + 12 * zlen (en_locations e)) by lia.
  rewrite entry_num_live_outs. cbn [mbind outcome_bind].
  replace (off + 22 + 12 * zlen (en_locations e) + 2 + 4 * zlen (en_live_outs e) + 2)
    with (off + 26 + 12 * zlen (en_locations e) + 4 * zlen (en_live_outs e)) by lia.
  rewrite entry_num_arch_live. cbn [mbind outcome_bind]. unfold record_of. rewrite entry_size.
  repeat (f_equal; try lia).
Qed.

Lemma record_size_spec n :
  records_size_loop base buf (S n) off =
    records_size_loop base buf n (align8 base (off + zlen (encode_entry e))).
Proof using Hbuf Hoff Ht.
  cbn [records_size_loop].
  unfold offsetof_num_locations, sizeof_live_value, sizeof_live_out, sizeof_arch_live.
  rewrite entry_num_locations. cbn [mbind outcome_bind].
  replace (off + 18 + (4 + 12 * zlen (en_locations e)))
    with (off + 22 + 12 * zlen (en_locations e)) by lia.
  rewrite entry_num_live_outs. cbn [mbind outcome_bind].
  replace (off + 22 + 12 * zlen (en_locations e) + (4 + 4 * zlen (en_live_outs e)))
    with (off + 26 + 12 * zlen (en_locations e) + 4 * zlen (en_live_outs e)) by lia.
  rewrite entry_num_arch_live. cbn [mbind outcome_bind]. rewrite entry_size. do 2 f_equal. lia.
Qed.

(** An element of an array of encoded records. *)
Lemma array_at {R} (encode : R -> list Z) (decode : list Z -> option (R * list Z))
    (typed : R -> Prop) (size : nat) before (rs : list R) after p k r :
  (forall r rest, typed r -> decode (encode r ++ rest) = Some (r, rest)) ->
  (forall r, length (encode r) = size) ->
  buf = before ++ encode_section encode rs ++ after -> p = zlen before -> Forall typed rs ->
  rs !! k = Some r -> exists rest, decode (data_at buf (p + Z.of_nat size * Z.of_nat k)) = Some (r, rest).
Proof using Type.
  intros Hrt Hsz Hb Hp Hty Hk. pose proof (take_drop_middle _ _ _ Hk) as Hsplit.
  assert (Hr : typed r) by (eapply Forall_lookup_1; eauto).
  exists (encode_section encode (drop (S k) rs) ++ after).
  assert (E : buf = (before ++ encode_section encode (take k rs)) ++ encode r ++
    encode_section encode (drop (S k) rs) ++ after).
  { rewrite Hb, <- Hsplit at 1. unfold encode_section.
    rewrite fmap_app, concat_app. cbn [fmap list_fmap concat]. by rewrite <- !app_assoc. }
  rewrite E, data_at_app; [by apply Hrt|].
  rewrite zlen_app, Hp. f_equal. unfold zlen.
  rewrite (encode_section_length encode size) by done. rewrite length_take.
  apply lookup_lt_Some in Hk. lia.
Qed.

Lemma describes_record : describes_entry buf e (record_of off e).
Proof using Hbuf Hoff Ht.
  constructor; [done|done|..].
  - unfold record_of. cbn [sr_locations sr_arch_live]. pose proof (zlen_nonneg (en_locations e)).
    pose proof (zlen_nonneg (en_live_outs e)). pose proof (zlen_nonneg pre). lia.
  - intros k v Hk. unfold live_value_at, sizeof_live_value, record_of. cbn [sr_locations].
    destruct (array_at encode_live_value decode_live_value live_value_typed 12
      (pre ++ header ++ count16 (en_locations e)) (en_locations e) (padding16 ++ outs ++
      count16 (en_arch_live e) ++ encode_section encode_arch_live (en_arch_live e) ++ post)
      (off + 20) k v) as [rest E];
      [by apply live_value_roundtrip|done|split_buf|zlen|apply (et_locations e Ht)|done|].
    change (Z.of_nat 12) with 12 in E. by rewrite E.
  - intros k v Hk. unfold arch_live_at, sizeof_arch_live, record_of. cbn [sr_arch_live].
    destruct (array_at encode_arch_live decode_arch_live arch_live_typed 20
      (pre ++ header ++ locs ++ outs ++ count16 (en_arch_live e)) (en_arch_live e) post
      (off + 20 + 12 * zlen (en_locations e) + 4 + 4 * zlen (en_live_outs e) + 4) k v) as [rest E];
      [by apply arch_live_roundtrip|done|split_buf|zlen|apply (et_arch_live e Ht)|done|].
    change (Z.of_nat 20) with 20 in E. by rewrite E.
  - exists (0 :: outs ++ count16 (en_arch_live e) ++
      encode_section encode_arch_live (en_arch_live e) ++ post).
    assert (Hb : buf = (pre ++ header ++ count16 (en_locations e)) ++
      encode_section encode_live_value (en_locations e) ++ padding16 ++ outs ++
      count16 (en_arch_live e) ++ encode_section encode_arch_live (en_arch_live e) ++ post) by split_buf.
    rewrite Hb. apply data_at_app. unfold record_of. cbn [sr_locations]. zlen.
  - exists post. assert (Hb : buf = (pre ++ header ++ locs ++ outs ++ count16 (en_arch_live e)) ++
      encode_section encode_arch_live (en_arch_live e) ++ post) by split_buf.
    rewrite Hb. apply data_at_app. unfold record_of. cbn [sr_arch_live]. zlen.
Qed.
End at_entry.

(** All the entries of a map, in both passes. *)
Lemma read_entries base buf es : forall pre post off,
  buf = pre ++ encode_entries base off es ++ post -> off = zlen pre -> Forall entry_typed es ->
  let stop := off + zlen (encode_entries base off es) in
  records_size_loop base buf (length es) off = Ret stop /\
  exists rs, read_records_loop base buf (length es) off = Ret (rs, stop) /\
    Forall2 (describes_entry buf) es rs.
Proof.
  induction es as [|e es IH]; intros pre post off Hb Ho Ht; cbv zeta.
  - simpl. rewrite Z.add_0_r. split; [done|]. exists []. by split; [|constructor].
  - apply Forall_cons in Ht as [He Ht].
    cbn [encode_entries] in *. set (stop := off + zlen (encode_entry e)) in *.
    rewrite <- !app_assoc in Hb.
    pose proof (align8_spec base stop).
    destruct (IH (pre ++ encode_entry e ++ padding base stop) post (align8 base stop))
      as (E1 & rs & E2 & Hd); [by rewrite <- !app_assoc|zlen|done|].
    assert (Estop : align8 base stop + zlen (encode_entries base (align8 base stop) es) =
      off + zlen (encode_entry e ++ padding base stop ++ encode_entries base (align8 base stop) es)).
    { rewrite !zlen_app, zlen_padding. unfold stop. lia. }
    rewrite <- Estop. cbn [length read_records_loop]. split.
    + rewrite <- E1. exact (record_size_spec base buf pre _ e off Hb Ho He (length es)).
    + exists (record_of off e :: rs). split; [|constructor; [|done]].
      * rewrite (read_record_spec base buf pre _ e off Hb Ho He). cbn [mbind outcome_bind].
        fold stop. by rewrite E2.
      * exact (describes_record buf pre _ e off Hb Ho He).
Qed.

Section at_map.
Context (base : Z) (buf pre post : list Z) (m : stack_map) (off : Z).
Context (Hbuf : buf = pre ++ encode_map base off m ++ post) (Hoff : off = zlen pre).
Context (Ht : map_typed m).

Lemma header_size : zlen (encode_header m) = 16.
Proof using Type. done. Qed.

Lemma map_header : fields_at header_widths buf off = Ret [mp_version m; mp_reserved m;
  mp_reserved2 m; zlen (mp_functions m); zlen (mp_constants m); zlen (mp_entries m)].
Proof using Hbuf Hoff Ht.
  destruct (mt_header m Ht) as (? & ? & ?). destruct (mt_counts m Ht) as (? & ? & ?).
  eapply (fields_at_app _ pre [(1%nat, mp_version m); (1%nat, mp_reserved m);
    (2%nat, mp_reserved2 m); (4%nat, zlen (mp_functions m)); (4%nat, zlen (mp_constants m));
    (4%nat, zlen (mp_entries m))]).
  - rewrite Hbuf. unfold encode_map, encode_header. by rewrite <- !app_assoc.
  - done.
  - pose proof (zlen_nonneg (mp_functions m)). pose proof (zlen_nonneg (mp_constants m)).
    pose proof (zlen_nonneg (mp_entries m)).
    repeat first [apply List.Forall_nil | apply List.Forall_cons; [first [done | by split]|]].
Qed.

#[local] Abbreviation before := (pre ++ encode_header m ++
  encode_section encode_function (mp_functions m) ++ encode_constants (mp_constants m)).

Lemma map_entries :
  let stop := off + zlen (encode_map base off m) in
  records_size_loop base buf (length (mp_entries m)) (entries_start off m) = Ret stop /\
  exists rs, read_records_loop base buf (length (mp_entries m)) (entries_start off m) = Ret (rs, stop) /\
    Forall2 (describes_entry buf) (mp_entries m) rs.
Proof using Hbuf Hoff Ht.
  assert (E : off + zlen (encode_map base off m) =
    entries_start off m + zlen (encode_entries base (entries_start off m) (mp_entries m))).
  { unfold encode_map. autorewrite with zlen. rewrite header_size. unfold entries_start. lia. }
  cbv zeta. rewrite E. apply (read_entries base buf _ before post).
  - rewrite Hbuf. unfold encode_map. by rewrite <- !app_assoc.
  - autorewrite with zlen. rewrite header_size. unfold entries_start. lia.
  - apply (mt_entries m Ht).
Qed.

Lemma map_functions i f : mp_functions m !! i = Some f ->
  function_record_at buf (off + 16) (Z.of_nat i) = Ret f.
Proof using Hbuf Hoff Ht.
  intros Hi. pose proof (Forall_lookup_1 _ _ _ _ (mt_functions m Ht) Hi) as (T1 & T2 & T3 & T4).
  pose proof (take_drop_middle _ _ _ Hi) as Hs.
  unfold function_record_at, sizeof_function_record.
  assert (E : buf = (pre ++ encode_header m ++ encode_section encode_function (take i (mp_functions m)))
    ++ encode_function f ++ encode_section encode_function (drop (S i) (mp_functions m)) ++
    encode_constants (mp_constants m) ++
    encode_entries base (entries_start off m) (mp_entries m) ++ post).
  { rewrite Hbuf. unfold encode_map. rewrite <- Hs at 1. unfold encode_section at 1.
    rewrite fmap_app, concat_app. cbn [fmap list_fmap concat]. by rewrite <- !app_assoc. }
  pose proof (fields_at_app buf _ [(8%nat, fr_func_addr f); (8%nat, fr_stack_size f);
    (4%nat, fr_num_unwind f); (4%nat, fr_unwind_offset f)] _ (off + 16 + 24 * Z.of_nat i) E) as Hf.
  cbn [fmap list_fmap fst snd] in Hf. rewrite Hf; [by destruct f| |all_typed].
  autorewrite with zlen. rewrite header_size, Hoff. unfold zlen. rewrite length_take.
  apply lookup_lt_Some in Hi. lia.
Qed.

Lemma read_map_spec : exists s,
  read_map base buf off = Ret (s, off + zlen (encode_map base off m)) /\ describes_map buf m s.
Proof using Hbuf Hoff Ht.
  destruct map_entries as (_ & rs & E & Hd). eexists. split.
  - unfold read_map. rewrite map_header. cbn [mbind outcome_bind].
    unfold read_stackmap_records, offsetof_function_records, sizeof_function_record.
    replace (Z.to_nat (zlen (mp_entries m))) with (length (mp_entries m)) by (unfold zlen; lia).
    fold (entries_start off m). rewrite E. cbn [mbind outcome_bind].
    rewrite Z.add_sub_assoc, Z.add_simpl_l. reflexivity.
  - constructor; [done|done| |done]. apply map_functions.
Qed.

Lemma count_step fuel sh_size n : off < sh_size ->
  count_maps (S fuel) base buf sh_size off n =
    count_maps fuel base buf sh_size (off + zlen (encode_map base off m)) (n + 1).
Proof using Hbuf Hoff Ht.
  intros Hlt. cbn [count_maps]. rewrite (proj2 (Z.ltb_lt _ _)) by done.
  rewrite map_header. cbn [mbind outcome_bind].
  unfold stackmap_records_size, offsetof_function_records, sizeof_function_record.
  replace (Z.to_nat (zlen (mp_entries m))) with (length (mp_entries m)) by (unfold zlen; lia).
  fold (entries_start off m). destruct map_entries as [-> _]. cbn [mbind outcome_bind].
  f_equal. lia.
Qed.

Lemma map_size : 16 <= zlen (encode_map base off m).
Proof using Type.
  unfold encode_map. rewrite zlen_app, header_size.
  match goal with |- _ <= _ + zlen ?l => pose proof (zlen_nonneg l) end. lia.
Qed.
End at_map.

Lemma count_all base buf ms : forall fuel pre off n,
  buf = pre ++ encode_maps base off ms -> off = zlen pre -> Forall map_typed ms ->
  (length ms <= fuel)%nat -> count_maps fuel base buf (zlen buf) off n = Ret (n + zlen ms).
Proof.
  induction ms as [|m ms IH]; intros fuel pre off n Hb Ho Ht Hf.
  - simpl in Hb. rewrite app_nil_r in Hb. subst. unfold zlen at 3. simpl. rewrite Z.add_0_r.
    destruct fuel; cbn [count_maps]; by rewrite Z.ltb_irrefl.
  - apply Forall_cons in Ht as [Hm Ht]. destruct fuel as [|fuel]; [simpl in Hf; lia|].
    cbn [encode_maps] in Hb. pose proof (map_size base m off).
    rewrite (count_step base buf pre _ m off Hb Ho Hm).
    + erewrite (IH fuel (pre ++ encode_map base off m)); [|by rewrite <- app_assoc|by rewrite zlen_app, Ho|done|simpl in Hf; lia].
      f_equal. unfold zlen. simpl. lia.
    + subst buf. rewrite !zlen_app. pose proof (zlen_nonneg (encode_maps base
        (off + zlen (encode_map base off m)) ms)). lia.
Qed.

Lemma read_all base buf ms : forall pre off,
  buf = pre ++ encode_maps base off ms -> off = zlen pre -> Forall map_typed ms ->
  exists sms, read_maps base buf (length ms) off = Ret sms /\ Forall2 (describes_map buf) ms sms.
Proof.
  induction ms as [|m ms IH]; intros pre off Hb Ho Ht; [by exists []; split; [|constructor]|].
  apply Forall_cons in Ht as [Hm Ht]. cbn [encode_maps] in Hb.
  destruct (read_map_spec base buf pre _ m off Hb Ho Hm) as (s & E & Hd).
  destruct (IH (pre ++ encode_map base off m) (off + zlen (encode_map base off m)))
    as (sms & E' & Hds); [by rewrite <- app_assoc|zlen|done|].
  exists (s :: sms). cbn [read_maps length]. rewrite E. cbn [mbind outcome_bind]. rewrite E'.
  by split; [|constructor].
Qed.

Lemma maps_length base ms off : zlen ms <= zlen (encode_maps base off ms).
Proof.
  revert off. induction ms as [|m ms IH]; intros off; [done|]. cbn [encode_maps].
  rewrite zlen_app. pose proof (map_size base m off).
  specialize (IH (off + zlen (encode_map base off m))).
  replace (zlen (m :: ms)) with (1 + zlen ms) by (unfold zlen; simpl; lia). lia.
Qed.


(** ** Properties *)

(** C33: A section that holds the maps the compiler wrote, one per object file,
    each entry padded to an 8-byte address, is read back: the first pass counts
    the maps, its loop ends within the section's bytes, and the structs of the
    second describe them, their pointers leading to the function records, the
    live values and the architecture-specific values that were written. *)
Theorem init_stackmap_reads {Elf Scn} `{LibelfLaws Elf Scn} `{LibelfData Scn}
    fuel (e : Elf) ndx (s : Scn) (name entsize base : Z) (ms : list stack_map) :
  let buf := encode_maps base 0 ms in
  readable e ndx -> (length (sections e) < fuel)%nat ->
  named e ndx LLVM_STACKMAP_SECTION = Some s ->
  gelf_getshdr s = Some (Shdr name (zlen buf) entsize) -> data_blocks s = [(base, buf)] ->
  Forall map_typed ms ->
  exists sms, init_stackmap fuel e = Ret (SUCCESS, sms, buf) /\ Forall2 (describes_map buf) ms sms.
Proof.
  intros buf Hr Hf Hs Hh Hd Ht. unfold init_stackmap, get_section_by_name, get_num_data_blocks.
  rewrite (get_section_spec _ _ _ _ Hr Hf), Hs. cbn [mbind outcome_bind]. rewrite Hh, Hd.
  cbn [negb Z.eqb zlen length Z.of_nat Pos.of_succ_nat Pos.eqb head].
  pose proof (maps_length base ms 0) as Hl. fold buf in Hl.
  rewrite (count_all base buf ms _ [] 0 0) by (done || (unfold zlen in *; lia)).
  cbn [mbind outcome_bind sh_size].
  replace (Z.to_nat (0 + zlen ms)) with (length ms) by (unfold zlen; lia).
  destruct (read_all base buf ms [] 0) as (sms & E & Hm); [done|done|done|].
  rewrite E. cbn [mbind outcome_bind]. by exists sms.
Qed.

(** A binary with the maps of two object files. *)
Definition sample_entry : entry :=
  Entry 7 0 16 0 [LiveValue false true true false 2 8 29 (-16) 24; LiveValue true false false false 1 8 3 0 0]
    [LiveOut 19 0 8] [ArchLiveValue false 0 1 8 20 0 4 0 8 0 77].

Definition sample_maps : list stack_map :=
  [StackMap 1 0 0 [FunctionRecord 0x1000 32 2 0] [5] [sample_entry];
   StackMap 1 0 0 [FunctionRecord 0x2000 64 1 2] [] []].

Definition stackmap_image : image :=
  Image 62 [LLVM_STACKMAP_SECTION] [(0, encode_maps 0x700000 0 sample_maps)].

Definition image_data : LibelfData image_section :=
  {| data_blocks := fun s => [(0x700000, is_bytes s)] |}.

Lemma sample_maps_typed : Forall map_typed sample_maps.
Proof.
  repeat first [apply List.Forall_nil | apply List.Forall_cons];
    (constructor; [repeat split; simpl; lia|repeat split; vm_compute; lia|..]);
    repeat first [apply List.Forall_nil | apply List.Forall_cons];
    try (repeat split; simpl; lia).
  constructor; [repeat split; simpl; lia|repeat split; vm_compute; lia|..];
    repeat first [apply List.Forall_nil | apply List.Forall_cons]; repeat split; simpl; lia.
Qed.

Lemma init_stackmap_reads_witness :
  exists sms buf, @init_stackmap _ _ (image_libelf stackmap_image) image_data 2 stackmap_image =
    Ret (SUCCESS, sms, buf) /\ length sms = 2%nat.
Proof.
  destruct (@init_stackmap_reads _ _ _ (image_laws stackmap_image) image_data 2 stackmap_image 1
    (ImageSection 0 0 (encode_maps 0x700000 0 sample_maps)) 0 0 0x700000 sample_maps)
    as (sms & E & Hd).
  - constructor; [done|]. intros s _. by eexists.
  - simpl. lia.
  - vm_compute. reflexivity.
  - reflexivity.
  - reflexivity.
  - exact sample_maps_typed.
  - exists sms, (encode_maps 0x700000 0 sample_maps). split; [exact E|].
    symmetry. exact (Forall2_length _ _ _ Hd).
Defined.
