(* ===== verification/WriteMeta.v ===== *)
(** * The metadata of a binary (src/tool/stack_metadata: write.c, arch.h, and the
    search of util.c)

    From the compiler's stack maps and the unwinding records the tool builds
    the sections the runtime reads: the call sites sorted by identifier and by
    address, the live values and the architecture-specific values.  [qsort] is
    a parameter; the sections are the lists of records and bytes handed to
    libelf. *)

From S2P Require Import Prelude Machine CallSite Regs Context Lookup Init StackMap.
From stdpp Require Import sorting.

#[local] Open Scope Z_scope.

(** ** Sorting *)

(** [qsort] with a comparison function: some permutation in which, when the
    comparison is a total preorder, no element is before a smaller one; equal
    elements come in an unspecified order. *)
Class Qsort := {
  qsort : forall {A}, (A -> A -> Z) -> list A -> list A;
}.

Class QsortLaws `{Qsort} := {
  law_qsort_permutation {A} (cmp : A -> A -> Z) l : qsort cmp l ≡ₚ l;
  law_qsort_sorted {A} (cmp : A -> A -> Z) l :
    (forall x y, cmp x y <= 0 \/ cmp y x <= 0) ->
    (forall x y z, cmp x y <= 0 -> cmp y z <= 0 -> cmp x z <= 0) ->
    StronglySorted (fun x y => cmp x y <= 0) (qsort cmp l);
}.

(** ** Definitions *)

Definition cfa_correction (arch size : Z) : Z :=
  if arch =? EM_X86_64 then wrap64 (size + 8) else size.

(** The loop is that of the runtime's [get_unwind_offset_by_addr]. *)
Definition get_func_unwind_data (addr num : Z) (addrs : list unwind_addr) :
    outcome (option unwind_addr) :=
  unwind_offset_loop addrs num addr (S (length addrs)) 0 (signed 64 (num - 1)).

Definition compare_key {A} (key : A -> Z) (a b : A) : Z :=
  if key a <? key b then -1 else if key a =? key b then 0 else 1.

Definition sort_unwind_addr : unwind_addr -> unwind_addr -> Z := compare_key ua_addr.
Definition sort_id : call_site -> call_site -> Z := compare_key cs_id.
Definition sort_addr : call_site -> call_site -> Z := compare_key cs_addr.

(** The loop of [update_function_addr]: the offsets are stored in 32 bits. *)
Fixpoint renumber (cur_offset : Z) (ua : list unwind_addr) : list unwind_addr :=
  match ua with
  | [] => []
  | u :: ua' =>
      UnwindAddr (ua_addr u) (ua_num_unwind u) (wrap32 cur_offset) ::
      renumber (wrap64 (cur_offset + ua_num_unwind u)) ua'
  end.

(** The new content of the section of unwinding address ranges. *)
Definition update_function_addr `{Qsort} (ua : list unwind_addr) : list unwind_addr :=
  qsort sort_unwind_addr (renumber 0 ua).

(** Identifiers of the starting functions are kept. *)
Definition special_id (id : Z) : bool :=
  (id =? u64_max) || (id =? u64_max - 1) || (id =? u64_max - 2).

(** [memcpy] out of the stack map section. *)
Definition bytes_at (buf : list Z) (p n : Z) : outcome (list Z) :=
  if n <=? zlen (data_at buf p) then Ret (take (Z.to_nat n) (data_at buf p)) else Fault.

(** The metadata built so far: the next identifier, the call sites, and the
    arrays of live values and architecture-specific values (as bytes) with
    their numbers of records. *)
Record building := Building {
  bd_start_id : Z;
  bd_sites : list call_site;
  bd_loc_num : Z;
  bd_locs : list Z;
  bd_arch_num : Z;
  bd_archlive : list Z;
}.

(** One iteration of the inner loop; [None] when no unwinding record encloses the
    site.  The padding of the [i]-th site is not initialised: it is [junk i]. *)
Definition add_site (junk : nat -> Z) (arch : Z) (buf : list Z) (addrs : list unwind_addr) (sm : stack_map_section)
    (r : call_site_record) (b : building) : outcome (option building) :=
  fr ← function_record_at buf (sm_function_records sm) (sr_func_idx r);
  let '(id, start_id) :=
    if special_id (sr_id r) then (sr_id r, bd_start_id b)
    else (bd_start_id b, wrap64 (bd_start_id b + 1)) in
  let addr := wrap64 (fr_func_addr fr + sr_offset r) in
  ua ← get_func_unwind_data addr (zlen addrs) addrs;
  match ua with
  | None => Ret None
  | Some ua =>
      let site := CallSite id addr (wrap32 (cfa_correction arch (fr_stack_size fr)))
        (wrap16 (fr_num_unwind fr)) (ua_unwind_offset ua) (sr_num_locations r) (bd_loc_num b)
        (sr_num_arch_live r) (bd_arch_num b) (junk (length (bd_sites b))) in
      locs ← bytes_at buf (sr_locations r) (sizeof_live_value * sr_num_locations r);
      archlive ← bytes_at buf (sr_arch_live r) (sizeof_arch_live * sr_num_arch_live r);
      Ret (Some (Building start_id (bd_sites b ++ [site])
        (bd_loc_num b + sr_num_locations r) (bd_locs b ++ locs)
        (bd_arch_num b + sr_num_arch_live r) (bd_archlive b ++ archlive)))
  end.

(** The two nested loops. *)
Fixpoint add_sites (junk : nat -> Z) (arch : Z) (buf : list Z) (addrs : list unwind_addr)
    (sites : list (stack_map_section * call_site_record)) (b : building) : outcome (option building) :=
  match sites with
  | [] => Ret (Some b)
  | (sm, r) :: sites' =>
      b ← add_site junk arch buf addrs sm r b;
      match b with
      | None => Ret None
      | Some b => add_sites junk arch buf addrs sites' b
      end
  end.

Definition records_of (sms : list stack_map_section) : list (stack_map_section * call_site_record) :=
  sms ≫= fun sm => (sm,.) <$> sm_call_sites sm.

Definition create_call_site_metadata (junk : nat -> Z) (arch start_id : Z) (buf : list Z)
    (sms : list stack_map_section) (addrs : list unwind_addr) :
    outcome (option (list call_site * list Z * list Z)) :=
  b ← add_sites junk arch buf addrs (records_of sms) (Building start_id [] 0 [] 0 []);
  match b with
  | None => Ret None
  | Some b => Ret (Some (bd_sites b, bd_locs b, bd_archlive b))
  end.

(** ** Specification *)

Definition entries_of (ms : list stack_map) : list (stack_map * entry) :=
  ms ≫= fun m => (m,.) <$> mp_entries m.

Definition all_locations (es : list (stack_map * entry)) : list live_value :=
  es ≫= fun me => en_locations me.2.
Definition all_arch_live (es : list (stack_map * entry)) : list arch_live_value :=
  es ≫= fun me => en_arch_live me.2.

(** The return address of an entry's call site. *)
Definition entry_addr (me : stack_map * entry) (f : function_record) : Z :=
  wrap64 (fr_func_addr f + en_offset me.2).

Definition entry_function (me : stack_map * entry) : option function_record :=
  znth (mp_functions me.1) (en_func_idx me.2).

(** Entries get consecutive identifiers, starting functions keep theirs. *)
Fixpoint assign_ids (start_id : Z) (ids : list Z) : list Z :=
  match ids with
  | [] => []
  | id :: ids' =>
      if special_id id then id :: assign_ids start_id ids'
      else start_id :: assign_ids (wrap64 (start_id + 1)) ids'
  end.

(** The call site [c] stands for an entry: its offsets lead to the entry's values
    in the two arrays. *)
Record site_for (arch : Z) (addrs : list unwind_addr) (live : list live_value)
    (archlive : list arch_live_value) (me : stack_map * entry) (c : call_site) : Prop := {
  sf_function : exists f u, entry_function me = Some f /\ cs_addr c = entry_addr me f /\
    enclosing addrs (cs_addr c) = Some u /\ cs_unwind_offset c = ua_unwind_offset u /\
    cs_frame_size c = wrap32 (cfa_correction arch (fr_stack_size f)) /\
    cs_num_unwind c = wrap16 (fr_num_unwind f);
  sf_live : cs_num_live c = zlen (en_locations me.2) /\ 0 <= cs_live_offset c /\
    cs_live_offset c + cs_num_live c <= zlen live /\
    take (Z.to_nat (cs_num_live c)) (drop (Z.to_nat (cs_live_offset c)) live) = en_locations me.2;
  sf_arch_live : cs_num_arch_live c = zlen (en_arch_live me.2) /\ 0 <= cs_arch_live_offset c /\
    cs_arch_live_offset c + cs_num_arch_live c <= zlen archlive /\
    take (Z.to_nat (cs_num_arch_live c)) (drop (Z.to_nat (cs_arch_live_offset c)) archlive) =
      en_arch_live me.2;
}.

(** ** Lemmas *)

Lemma Forall2_bind_pair {A B C D} (P : A -> C -> Prop) (Q : B -> D -> Prop)
    (f : A -> list B) (g : C -> list D) l k :
  Forall2 P l k -> (forall a c, P a c -> Forall2 Q (f a) (g c)) ->
  Forall2 (fun x y => P x.1 y.1 /\ Q x.2 y.2)
    (l ≫= fun a => (a,.) <$> f a) (k ≫= fun c => (c,.) <$> g c).
Proof.
  intros Hl Hf. induction Hl as [|a c l k Hac _ IH]; [constructor|].
  cbn [mbind list_bind]. apply Forall2_app; [|exact IH].
  specialize (Hf a c Hac). induction Hf; cbn [fmap list_fmap]; constructor; auto.
Qed.

Lemma described_records buf ms sms :
  Forall2 (describes_map buf) ms sms ->
  Forall2 (fun me sr => describes_map buf me.1 sr.1 /\ describes_entry buf me.2 sr.2)
    (entries_of ms) (records_of sms).
Proof.
  intros H. apply (Forall2_bind_pair (describes_map buf) (describes_entry buf)); [done|].
  intros m s Hm. apply (dm_entries _ _ _ Hm).
Qed.

Lemma bytes_at_prefix buf p x rest :
  data_at buf p = x ++ rest -> bytes_at buf p (zlen x) = Ret x.
Proof.
  intros E. unfold bytes_at. rewrite E, zlen_app. pose proof (zlen_nonneg rest).
  rewrite (proj2 (Z.leb_le _ _)) by lia. f_equal. unfold zlen. by rewrite Nat2Z.id, take_app_length.
Qed.

Lemma get_func_unwind_data_spec addr addrs :
  strictly_sorted_by ua_addr addrs -> zlen addrs < 2 ^ 62 ->
  get_func_unwind_data addr (zlen addrs) addrs = Ret (enclosing addrs addr).
Proof.
  intros Hs Hl. unfold get_func_unwind_data. pose proof (zlen_nonneg addrs).
  rewrite last_index by lia.
  apply unwind_offset_loop_spec; try done; unfold zlen in *; try lia.
  split; intros i v Hi; apply znth_Some_range in Hi; unfold zlen in *; lia.
Qed.

Lemma slice_middle {A} (l x rest : list A) :
  take (Z.to_nat (zlen x)) (drop (Z.to_nat (zlen l)) (l ++ x ++ rest)) = x.
Proof. unfold zlen. rewrite !Nat2Z.id, drop_app_length. apply take_app_length. Qed.

Lemma slice_fits {A} (l x rest : list A) : zlen l + zlen x <= zlen (l ++ x ++ rest).
Proof. rewrite !zlen_app. pose proof (zlen_nonneg rest). lia. Qed.

Lemma encode_section_app {R} (encode : R -> list Z) l k :
  encode_section encode (l ++ k) = encode_section encode l ++ encode_section encode k.
Proof. unfold encode_section. by rewrite fmap_app, concat_app. Qed.

Section adding.
Context (junk : nat -> Z) (arch : Z) (buf : list Z) (addrs : list unwind_addr).
Context (Hsorted : strictly_sorted_by ua_addr addrs) (Hfit : zlen addrs < 2 ^ 62).

(** What [add_sites] has built after the entries [past]. *)
Definition built (start_id : Z) (past : list (stack_map * entry)) (b : building) : Prop :=
  bd_loc_num b = zlen (all_locations past) /\
  bd_locs b = encode_section encode_live_value (all_locations past) /\
  bd_arch_num b = zlen (all_arch_live past) /\
  bd_archlive b = encode_section encode_arch_live (all_arch_live past) /\
  bd_start_id b = start_id.

Lemma add_site_spec past me sr b f :
  built (bd_start_id b) past b -> describes_map buf me.1 sr.1 -> describes_entry buf me.2 sr.2 ->
  entry_function me = Some f ->
  match enclosing addrs (entry_addr me f) with
  | None => add_site junk arch buf addrs sr.1 sr.2 b = Ret None
  | Some u => exists b' c, add_site junk arch buf addrs sr.1 sr.2 b = Ret (Some b') /\
      bd_sites b' = bd_sites b ++ [c] /\
      built (if special_id (en_id me.2) then bd_start_id b else wrap64 (bd_start_id b + 1))
        (past ++ [me]) b' /\
      cs_id c = (if special_id (en_id me.2) then en_id me.2 else bd_start_id b) /\
      forall more, site_for arch addrs (all_locations (past ++ me :: more))
        (all_arch_live (past ++ me :: more)) me c
  end.
Proof using Hsorted Hfit.
  intros (B1 & B2 & B3 & B4 & _) Hm He Hf. destruct me as [m e], sr as [sm r]. simpl in *.
  destruct (de_header _ _ _ He) as (E1 & E2 & E3 & _). destruct (de_counts _ _ _ He) as (N1 & _ & N2).
  unfold entry_function in Hf. cbn [fst snd] in Hf. apply znth_lookup in Hf as [Hi Hf].
  pose proof (dm_functions _ _ _ Hm _ _ Hf) as Hfr. rewrite Z2Nat.id in Hfr by lia.
  unfold add_site. rewrite E1, E2, E3, N1, N2, Hfr. cbn [mbind outcome_bind].
  set (ids := if special_id (en_id e) then (en_id e, bd_start_id b)
    else (bd_start_id b, wrap64 (bd_start_id b + 1))).
  assert (Eids : ids = (if special_id (en_id e) then en_id e else bd_start_id b,
    if special_id (en_id e) then bd_start_id b else wrap64 (bd_start_id b + 1)))
    by (unfold ids; by destruct (special_id (en_id e))).
  rewrite Eids. clear ids Eids. rewrite get_func_unwind_data_spec by done. cbn [mbind outcome_bind].
  unfold entry_addr. cbn [snd]. destruct (enclosing addrs _) as [u|] eqn:Eu; [|done].
  destruct (de_location_bytes _ _ _ He) as [rest1 D1]. destruct (de_arch_bytes _ _ _ He) as [rest2 D2].
  unfold sizeof_live_value, sizeof_arch_live.
  rewrite <- live_values_size, <- arch_live_size, (bytes_at_prefix _ _ _ _ D1).
  cbn [mbind outcome_bind]. rewrite (bytes_at_prefix _ _ _ _ D2). cbn [mbind outcome_bind].
  eexists _, _. split; [reflexivity|]. cbn [bd_sites]. split; [reflexivity|].
  split; [|split; [done|intros more; constructor]].
  - unfold built, all_locations, all_arch_live. cbn [bd_loc_num bd_locs bd_arch_num bd_archlive bd_start_id].
    rewrite !bind_app. cbn [mbind list_bind]. cbn [snd].
    rewrite !app_nil_r, !zlen_app, !encode_section_app, B1, B2, B3, B4. done.
  - exists f, u. cbn [cs_addr cs_unwind_offset cs_frame_size cs_num_unwind]. split; [|done].
    unfold entry_function. cbn [fst snd]. by apply znth_lookup.
  - cbn [cs_num_live cs_live_offset snd]. rewrite B1. split; [done|]. split; [apply zlen_nonneg|].
    unfold all_locations. rewrite bind_app. split; [apply slice_fits|apply slice_middle].
  - cbn [cs_num_arch_live cs_arch_live_offset snd]. rewrite B3. split; [done|].
    split; [apply zlen_nonneg|]. unfold all_arch_live. rewrite bind_app.
    split; [apply slice_fits|apply slice_middle].
Qed.

(** An unwinding record encloses the call site of an entry. *)
Definition enclosed (me : stack_map * entry) : Prop :=
  exists f u, entry_function me = Some f /\ enclosing addrs (entry_addr me f) = Some u.

Lemma add_sites_spec es : forall past srs b,
  built (bd_start_id b) past b ->
  Forall2 (fun me sr => describes_map buf me.1 sr.1 /\ describes_entry buf me.2 sr.2) es srs ->
  Forall (fun me => is_Some (entry_function me)) es ->
  exists r, add_sites junk arch buf addrs srs b = Ret r /\
  match r with
  | None => Exists (fun me => ~ enclosed me) es
  | Some b' => exists new, bd_sites b' = bd_sites b ++ new /\ Forall enclosed es /\
      built (bd_start_id b') (past ++ es) b' /\
      cs_id <$> new = assign_ids (bd_start_id b) ((fun me => en_id me.2) <$> es) /\
      Forall2 (site_for arch addrs (all_locations (past ++ es)) (all_arch_live (past ++ es))) es new
  end.
Proof using Hsorted Hfit.
  induction es as [|me es IH]; intros past srs b Hb Hd Hf.
  - inversion_clear Hd. eexists. split; [reflexivity|]. exists [].
    rewrite !app_nil_r. split; [done|]. split; [constructor|]. split; [done|]. by split; [|constructor].
  - inversion_clear Hd as [|? [sm r] ? srs' [Hm He] Hd']. apply Forall_cons in Hf as [[f Hf] Hfs].
    pose proof (add_site_spec past me (sm, r) b f Hb Hm He Hf) as H. cbn [fst snd] in H.
    cbn [add_sites]. destruct (enclosing addrs (entry_addr me f)) as [u|] eqn:Eu.
    + destruct H as (b1 & c & E & Hs & Hb1 & Hid & Hsite). rewrite E. cbn [mbind outcome_bind].
      assert (Hst : bd_start_id b1 = if special_id (en_id me.2) then bd_start_id b
        else wrap64 (bd_start_id b + 1)) by apply Hb1.
      rewrite <- Hst in Hb1. destruct (IH (past ++ [me]) srs' b1 Hb1 Hd' Hfs) as (r' & E' & Hr).
      exists r'. split; [exact E'|]. destruct r' as [b'|].
      * destruct Hr as (new & Hs' & Henc & Hb' & Hids & Hsites). exists (c :: new).
        rewrite <- app_assoc in Hb', Hsites. cbn [app] in Hb', Hsites.
        split; [rewrite Hs', Hs; by rewrite <- app_assoc|]. split; [constructor; [by exists f, u|done]|].
        split; [done|]. split; [|by constructor].
        rewrite !fmap_cons, Hids, Hid, Hst. cbn [assign_ids].
        by destruct (special_id (en_id me.2)).
      * by right.
    + rewrite H. cbn [mbind outcome_bind]. exists None. split; [done|]. left.
      intros (f' & u' & E1 & E2). congruence.
Qed.

(** The padding of a call site is not initialised. *)
Definition padded (c : call_site) : Prop := exists i, cs_padding c = junk i.

Lemma add_sites_padding srs : forall b b',
  add_sites junk arch buf addrs srs b = Ret (Some b') ->
  Forall padded (bd_sites b) -> Forall padded (bd_sites b').
Proof using.
  induction srs as [|[sm r] srs IH]; intros b b' E Hp; [by injection E as <-|].
  cbn [add_sites] in E. destruct (add_site junk arch buf addrs sm r b) as [[b1|]| | |] eqn:E1; try done.
  cbn [mbind outcome_bind] in E. apply (IH _ _ E). revert E1. unfold add_site.
  destruct (function_record_at _ _ _) as [fr| | |]; cbn [mbind outcome_bind]; try done.
  destruct (if special_id (sr_id r) then _ else _) as [id start].
  destruct (get_func_unwind_data _ _ _) as [[u|]| | |]; cbn [mbind outcome_bind]; try done.
  destruct (bytes_at buf (sr_locations r) _) as [l1| | |]; cbn [mbind outcome_bind]; try done.
  destruct (bytes_at buf (sr_arch_live r) _) as [l2| | |]; cbn [mbind outcome_bind]; try done.
  intros [= <-]. apply Forall_app. split; [exact Hp|]. constructor; [|constructor]. by eexists.
Qed.
End adding.

(** *** Sorted sections *)

Lemma compare_key_le {A} (key : A -> Z) a b : compare_key key a b <= 0 <-> key a <= key b.
Proof.
  unfold compare_key. destruct (Z.ltb_spec (key a) (key b)), (Z.eqb_spec (key a) (key b)); lia.
Qed.

Lemma StronglySorted_lookup {A} (R : A -> A -> Prop) l i j a b :
  StronglySorted R l -> (i < j)%nat -> l !! i = Some a -> l !! j = Some b -> R a b.
Proof.
  intros Hs. revert i j. induction Hs as [|x l _ IH Hx]; intros i j Hij Hi Hj; [done|].
  destruct j as [|j]; [lia|]. destruct i as [|i]; simpl in Hi, Hj.
  - injection Hi as <-. by eapply Forall_lookup_1.
  - eapply IH; [|done|done]. lia.
Qed.

Section sorting.
Context `{QsortLaws}.

Lemma qsort_key_sorted {A} (key : A -> Z) l : sorted_by key (qsort (compare_key key) l).
Proof.
  assert (Hs : StronglySorted (fun x y => compare_key key x y <= 0) (qsort (compare_key key) l)).
  { apply law_qsort_sorted; intros; rewrite !compare_key_le in *; lia. }
  intros i j a b Hij Hi Hj. destruct (decide (i = j)) as [->|];
    [rewrite Hi in Hj; injection Hj as ->; lia|].
  apply (compare_key_le key). apply (StronglySorted_lookup _ _ i j a b Hs); [lia|done|done].
Qed.

Lemma qsort_key_strict {A} (key : A -> Z) l :
  NoDup (key <$> l) -> strictly_sorted_by key (qsort (compare_key key) l).
Proof.
  intros Hn i j a b Hij Hi Hj.
  assert (Hle : key a <= key b) by (eapply (qsort_key_sorted key l i j); eauto; lia).
  assert (Hd : NoDup (key <$> qsort (compare_key key) l)).
  { eapply NoDup_Permutation_proper; [|exact Hn]. apply fmap_Permutation, law_qsort_permutation. }
  destruct (decide (key a = key b)) as [E|]; [exfalso|lia].
  assert (i = j); [|lia]. eapply (NoDup_lookup _ i j (key a) Hd); rewrite list_lookup_fmap.
  - by rewrite Hi.
  - by rewrite Hj, E.
Qed.
End sorting.

Lemma total_nonneg l : Forall (fun s => 0 <= s) l -> 0 <= foldr Z.add 0 l.
Proof. induction 1; simpl; lia. Qed.

(** ** Properties *)

(** C34: From stack maps that describe what the compiler wrote and unwinding
    records in strictly increasing address order, the tool always returns; it
    fails exactly when some call site lies below every function of the
    unwinding records.  Otherwise there is one call site per entry, in order,
    with consecutive identifiers except for the starting functions, the
    return address, frame size and unwinding offset of its function, and
    offsets at which the new sections hold exactly the entry's live values and
    architecture-specific values. *)
Theorem call_site_metadata_correct junk arch start_id buf sms addrs ms :
  strictly_sorted_by ua_addr addrs -> zlen addrs < 2 ^ 62 ->
  Forall2 (describes_map buf) ms sms ->
  Forall (fun me => is_Some (entry_function me)) (entries_of ms) ->
  let es := entries_of ms in
  exists r, create_call_site_metadata junk arch start_id buf sms addrs = Ret r /\
  (r = None <-> ~ Forall (enclosed addrs) es) /\
  forall sites live archlive, r = Some (sites, live, archlive) ->
    live = encode_section encode_live_value (all_locations es) /\
    archlive = encode_section encode_arch_live (all_arch_live es) /\
    cs_id <$> sites = assign_ids start_id ((fun me => en_id me.2) <$> es) /\
    Forall2 (site_for arch addrs (all_locations es) (all_arch_live es)) es sites.
Proof.
  intros Hs Hl Hd Hf es. set (b0 := Building start_id [] 0 [] 0 []).
  destruct (add_sites_spec junk arch buf addrs Hs Hl es [] (records_of sms) b0)
    as (r & E & Hr); [done|by apply described_records|done|].
  unfold create_call_site_metadata. fold b0. rewrite E. cbn [mbind outcome_bind].
  destruct r as [b|].
  - destruct Hr as (new & Hn & Henc & (B1 & B2 & B3 & B4 & _) & Hids & Hsites).
    exists (Some (bd_sites b, bd_locs b, bd_archlive b)). split; [done|]. split; [by split|].
    intros sites live archlive [= <- <- <-]. rewrite Hn, B2, B4. done.
  - exists None. split; [done|]. split; [|done]. split; [|done]. intros _ Hall.
    apply Exists_exists in Hr as (me & Hin & Hne). apply Hne.
    by eapply (proj1 (Forall_forall _ _) Hall).
Qed.

(** The unwinding records before the tool's sort: each function's slice of the
    table of register locations. *)
Lemma renumber_spec cur ua :
  0 <= cur -> Forall (fun u => 0 <= ua_num_unwind u) ua ->
  cur + foldr Z.add 0 (ua_num_unwind <$> ua) < 2 ^ 32 ->
  renumber cur ua = imap (fun i u => UnwindAddr (ua_addr u) (ua_num_unwind u)
    (cur + foldr Z.add 0 (ua_num_unwind <$> take i ua))) ua.
Proof.
  revert cur. induction ua as [|u ua IH]; intros cur Hc Hu Hf; [done|].
  apply Forall_cons in Hu as [Hu0 Hu]. rewrite fmap_cons in Hf. simpl in Hf.
  pose proof (total_nonneg (ua_num_unwind <$> ua)) as Ht.
  rewrite Forall_fmap in Ht. specialize (Ht Hu).
  cbn [renumber]. rewrite imap_cons. rewrite (wrap_small 32), (wrap_small 64) by lia.
  rewrite IH by (done || lia). cbn [take foldr]. f_equal; [simpl; f_equal; lia|].
  apply imap_ext. intros i x _. cbn [compose]. f_equal. rewrite firstn_cons, fmap_cons. simpl. lia.
Qed.

(** The section of function addresses is rewritten in strictly increasing
    order when no two functions start at one address, as the searches need,
    and each function's offset counts the unwinding records of the functions
    linked before it, so that the functions' slices follow one another. *)
Theorem function_addresses_updated `{QsortLaws} ua :
  NoDup (ua_addr <$> ua) -> Forall (fun u => 0 <= ua_num_unwind u) ua ->
  foldr Z.add 0 (ua_num_unwind <$> ua) < 2 ^ 32 ->
  strictly_sorted_by ua_addr (update_function_addr ua) /\
  update_function_addr ua ≡ₚ imap (fun i u => UnwindAddr (ua_addr u) (ua_num_unwind u)
    (foldr Z.add 0 (ua_num_unwind <$> take i ua))) ua.
Proof.
  intros Hn Hu Hf. unfold update_function_addr. rewrite renumber_spec by (done || lia).
  split; [|apply law_qsort_permutation]. apply qsort_key_strict.
  replace (ua_addr <$> imap _ ua) with (ua_addr <$> ua); [done|].
  apply list_eq. intros i. rewrite !list_lookup_fmap, list_lookup_imap. by destruct (ua !! i).
Qed.

(** ** Witnesses *)

#[export] Instance merge_qsort : Qsort :=
  {| qsort := fun A cmp l => @merge_sort A (fun x y => cmp x y <= 0) (fun x y => decide (cmp x y <= 0)) l |}.

#[export] Instance merge_qsort_laws : QsortLaws.
Proof.
  constructor.
  - intros A cmp l. apply merge_sort_Permutation.
  - intros A cmp l Htot Htr. apply StronglySorted_merge_sort; [exact Htr|exact Htot].
Qed.

Definition sample_addrs : list unwind_addr := [UnwindAddr 0x1000 2 0; UnwindAddr 0x2000 1 2].

Lemma sample_addrs_sorted : strictly_sorted_by ua_addr sample_addrs.
Proof.
  intros [|[|i]] [|[|j]] a b Hij Hi Hj; simpl in *; try lia; try done.
  injection Hi as <-. injection Hj as <-. simpl. lia.
Qed.

Lemma call_site_metadata_correct_witness :
  exists sms sites live archlive,
    create_call_site_metadata (fun _ => 0) EM_X86_64 100 (encode_maps 0x700000 0 sample_maps) sms
      sample_addrs = Ret (Some (sites, live, archlive)) /\ cs_id <$> sites = [100].
Proof.
  destruct (read_all 0x700000 (encode_maps 0x700000 0 sample_maps) sample_maps [] 0 eq_refl eq_refl
    sample_maps_typed) as (sms & _ & Hd).
  destruct (call_site_metadata_correct (fun _ => 0) EM_X86_64 100 _ sms sample_addrs sample_maps
    sample_addrs_sorted eq_refl Hd) as (r & E & Hnone & Hsome).
  { apply List.Forall_cons; [by eexists|apply List.Forall_nil]. }
  destruct r as [[[sites live] archlive]|].
  - exists sms, sites, live, archlive. split; [exact E|].
    by destruct (Hsome sites live archlive eq_refl) as (_ & _ & Hids & _).
  - exfalso. apply Hnone; [done|]. apply List.Forall_cons; [|apply List.Forall_nil].
    eexists _, _. split; [reflexivity|]. vm_compute. reflexivity.
Defined.

Lemma function_addresses_updated_witness :
  strictly_sorted_by ua_addr (update_function_addr [UnwindAddr 0x2000 1 0; UnwindAddr 0x1000 2 0]).
Proof.
  apply function_addresses_updated.
  - apply (NoDup_cons_2 _ [0x1000]); [by rewrite list_elem_of_singleton|apply NoDup_singleton].
  - apply List.Forall_cons; [simpl; lia|]. apply List.Forall_cons; [simpl; lia|apply List.Forall_nil].
  - simpl. lia.
Defined.
