(* ===== verification/CheckMaps.v ===== *)
(** * Comparing the stack maps of two binaries
    (src/tool/stack_metadata/utils/check_stackmaps.c)

    The checker walks over the stack maps of the two binaries in parallel and
    reports every difference; its result is SUCCESS when it found none.
    Messages, and the symbol names looked up for them, are left out. *)

From S2P Require Import Prelude Machine CallSite Init StackMap WriteMeta.

#[local] Open Scope Z_scope.

(** ** Definitions *)

(** [locations[k].is_duplicate]: a bit of the record's first byte. *)
Definition is_duplicate_at (buf : list Z) (p k : Z) : outcome bool :=
  b ← get (head (data_at buf (p + sizeof_live_value * k))); Ret (Z.odd b).

(** The number of locations that are not duplicates, counted from [k]. *)
Fixpoint count_locations (buf : list Z) (p : Z) (n : nat) (k num : Z) : outcome Z :=
  match n with
  | O => Ret num
  | S n' =>
      d ← is_duplicate_at buf p k;
      count_locations buf p n' (k + 1) (if d : bool then num else wrap32 (num + 1))
  end.

(** [while(locations[k + 1].is_duplicate) k++] *)
Fixpoint skip_backing (fuel : nat) (buf : list Z) (p k : Z) : outcome Z :=
  match fuel with
  | O => Spin
  | S fuel' =>
      d ← is_duplicate_at buf p (k + 1);
      if d : bool then skip_backing fuel' buf p (k + 1) else Ret k
  end.

(** [ret] after one pair of locations. *)
Definition check_location (a b : live_value) (ret : Z) : Z :=
  let ret := if negb (lv_size a =? lv_size b) then INVALID_METADATA else ret in
  let ret := if negb (Bool.eqb (is_ptr a) (is_ptr b)) then INVALID_METADATA else ret in
  let ret := if negb (Bool.eqb (is_alloca a) (is_alloca b)) then INVALID_METADATA else ret in
  if is_alloca a && is_alloca b then
    if negb (lv_alloca_size a =? lv_alloca_size b) then INVALID_METADATA else ret
  else ret.

Section binaries.
(** The data of the two binaries' stack map sections. *)
Context (buf_a buf_b : list Z).

Fixpoint check_locations (fuel : nat) (pa pb num_a num_b k l ret : Z) : outcome Z :=
  if (k <? num_a) && (l <? num_b) then
    match fuel with
    | O => Spin
    | S fuel' =>
        a ← live_value_at buf_a pa k;
        b ← live_value_at buf_b pb l;
        let ret := check_location a b ret in
        k ← skip_backing (S (length buf_a)) buf_a pa k;
        l ← skip_backing (S (length buf_b)) buf_b pb l;
        check_locations fuel' pa pb num_a num_b (k + 1) (l + 1) ret
    end
  else Ret ret.

(** One pair of call-site records of two maps. *)
Definition check_record (sm_a sm_b : stack_map_section) (ra rb : call_site_record) (ret : Z) :
    outcome Z :=
  fa ← function_record_at buf_a (sm_function_records sm_a) (sr_func_idx ra);
  fb ← function_record_at buf_b (sm_function_records sm_b) (sr_func_idx rb);
  if negb (fr_func_addr fa =? fr_func_addr fb) then Ret INVALID_METADATA
  else
    num_a ← count_locations buf_a (sr_locations ra) (Z.to_nat (sr_num_locations ra)) 0 0;
    num_b ← count_locations buf_b (sr_locations rb) (Z.to_nat (sr_num_locations rb)) 0 0;
    let ret := if negb (num_a =? num_b) then INVALID_METADATA else ret in
    check_locations (Z.to_nat num_a) (sr_locations ra) (sr_locations rb) num_a num_b 0 0 ret.

(** The loop over the records both maps have. *)
Fixpoint check_records (sm_a sm_b : stack_map_section) (las lbs : list call_site_record) (ret : Z) :
    outcome Z :=
  match las, lbs with
  | ra :: las', rb :: lbs' =>
      ret ← check_record sm_a sm_b ra rb ret;
      check_records sm_a sm_b las' lbs' ret
  | _, _ => Ret ret
  end.

(** The loop over the maps both binaries have. *)
Fixpoint check_maps (sms_a sms_b : list stack_map_section) (ret : Z) : outcome Z :=
  match sms_a, sms_b with
  | sm_a :: sms_a', sm_b :: sms_b' =>
      let ret := if negb (sm_num_records sm_a =? sm_num_records sm_b) then INVALID_METADATA
                 else ret in
      ret ← check_records sm_a sm_b (sm_call_sites sm_a) (sm_call_sites sm_b) ret;
      check_maps sms_a' sms_b' ret
  | _, _ => Ret ret
  end.

Definition check_stackmaps (sms_a sms_b : list stack_map_section) : outcome Z :=
  let ret := if negb (zlen sms_a =? zlen sms_b) then INVALID_METADATA else SUCCESS in
  check_maps sms_a sms_b ret.
End binaries.

(** ** Specification *)

Definition location_matches (a b : live_value) : bool :=
  (lv_size a =? lv_size b) && Bool.eqb (is_ptr a) (is_ptr b) &&
  Bool.eqb (is_alloca a) (is_alloca b) &&
  (negb (is_alloca a && is_alloca b) || (lv_alloca_size a =? lv_alloca_size b)).

(** All pairs at the same position satisfy a test. *)
Definition all_pairs {A B} (f : A -> B -> bool) (l : list A) (k : list B) : bool :=
  forallb (fun p => f p.1 p.2) (zip l k).

Definition entry_matches (ma mb : stack_map) (a b : entry) : bool :=
  match entry_function (ma, a), entry_function (mb, b) with
  | Some fa, Some fb =>
      (fr_func_addr fa =? fr_func_addr fb) &&
      ((zlen (en_locations a) =? zlen (en_locations b)) &&
       all_pairs location_matches (en_locations a) (en_locations b))
  | _, _ => false
  end.

Definition map_matches (a b : stack_map) : bool :=
  (zlen (mp_entries a) =? zlen (mp_entries b)) &&
  all_pairs (entry_matches a b) (mp_entries a) (mp_entries b).

Definition maps_match (a b : list stack_map) : bool :=
  (zlen a =? zlen b) && all_pairs map_matches a b.

(** Maps without duplicate location records whose function indices are in
    range. *)
Definition plain_entry (m : stack_map) (e : entry) : Prop :=
  Forall (fun v => is_duplicate v = false) (en_locations e) /\
  zlen (en_locations e) < 2 ^ 32 /\ is_Some (entry_function (m, e)).

Definition plain (ms : list stack_map) : Prop :=
  Forall (fun m => Forall (plain_entry m) (mp_entries m)) ms.

(** ** Lemmas *)

(** The result once a test is done. *)
Definition flag (ok : bool) (ret : Z) : Z := if ok then ret else INVALID_METADATA.

Lemma flag_and b1 b2 ret : flag b1 (flag b2 ret) = flag (b2 && b1) ret.
Proof. by destruct b1, b2. Qed.

Lemma if_negb_flag (b : bool) ret : (if negb b then INVALID_METADATA else ret) = flag b ret.
Proof. by destruct b. Qed.

Lemma check_location_spec a b ret :
  check_location a b ret = flag (location_matches a b) ret.
Proof.
  unfold check_location, location_matches. rewrite !if_negb_flag.
  destruct (is_alloca a && is_alloca b); rewrite !flag_and; cbn [negb orb];
    by rewrite ?andb_true_r, ?andb_assoc.
Qed.

Section locations.
Context (buf : list Z) (p : Z) (e : entry) (r : call_site_record).
Context (Hd : describes_entry buf e r) (Hp : Forall (fun v => is_duplicate v = false) (en_locations e)).

Lemma first_byte v rest : head (encode_live_value v ++ rest) = Some (wrap 8 (lv_flags v)).
Proof using Type. done. Qed.

Lemma flags_odd v : Z.odd (wrap 8 (lv_flags v)) = is_duplicate v.
Proof using Type.
  unfold lv_flags, wrap. rewrite <- (Z.bit0_odd (_ mod _)), Z.mod_pow2_bits_low by lia.
  rewrite Z.bit0_odd. replace (bit (is_duplicate v) + 2 * bit (is_alloca v) + 4 * bit (is_ptr v) +
    8 * bit (lv_bit_pad v) + 16 * lv_type v) with (bit (is_duplicate v) + 2 * (bit (is_alloca v) +
    2 * bit (is_ptr v) + 4 * bit (lv_bit_pad v) + 8 * lv_type v)) by lia.
  rewrite Z.odd_add_mul_2. by destruct (is_duplicate v).
Qed.

Lemma drop_records k rest : (k <= length (en_locations e))%nat ->
  drop (12 * k) (encode_section encode_live_value (en_locations e) ++ rest) =
    encode_section encode_live_value (drop k (en_locations e)) ++ rest.
Proof using Type.
  intros Hk. rewrite <- (take_drop k (en_locations e)) at 1. rewrite encode_section_app, <- app_assoc.
  apply drop_app_length'. rewrite (encode_section_length encode_live_value 12) by done.
  rewrite length_take. lia.
Qed.

(** Each location's flag, and the padding's after the last. *)
Lemma no_duplicates k : 0 <= k <= zlen (en_locations e) ->
  is_duplicate_at buf (sr_locations r) k = Ret false.
Proof using Hd Hp.
  intros Hk. destruct (de_location_bytes _ _ _ Hd) as [rest E]. destruct (de_pointers _ _ _ Hd) as [? _].
  unfold is_duplicate_at, sizeof_live_value, data_at in *. unfold zlen in Hk.
  replace (Z.to_nat (sr_locations r + 12 * k)) with (Z.to_nat (sr_locations r) + 12 * Z.to_nat k)%nat
    by lia.
  rewrite <- drop_drop, E, drop_records by lia.
  destruct (drop (Z.to_nat k) (en_locations e)) as [|v l] eqn:Ed; [done|].
  change (encode_section encode_live_value (v :: l))
    with (encode_live_value v ++ encode_section encode_live_value l).
  rewrite <- app_assoc, first_byte. cbn [get mbind outcome_bind]. rewrite flags_odd.
  assert (Hv : en_locations e !! Z.to_nat k = Some v).
  { rewrite <- (Nat.add_0_r (Z.to_nat k)), <- lookup_drop, Ed. done. }
  by rewrite (Forall_lookup_1 _ _ _ _ Hp Hv).
Qed.

Lemma skip_none fuel k : 0 <= k < zlen (en_locations e) ->
  skip_backing (S fuel) buf (sr_locations r) k = Ret k.
Proof using Hd Hp. intros Hk. cbn [skip_backing]. by rewrite no_duplicates by lia. Qed.

Lemma count_all_locations n k num : 0 <= k -> 0 <= num -> k + Z.of_nat n <= zlen (en_locations e) ->
  num + Z.of_nat n < 2 ^ 32 ->
  count_locations buf (sr_locations r) n k num = Ret (num + Z.of_nat n).
Proof using Hd Hp.
  revert k num. induction n as [|n IH]; intros k num Hk Hnum Hn Hf.
  - cbn [count_locations]. f_equal. lia.
  - cbn [count_locations]. rewrite no_duplicates by lia. cbn [mbind outcome_bind].
    rewrite wrap_small by lia. rewrite IH by lia. f_equal. lia.
Qed.

Lemma location_at k v : 0 <= k -> en_locations e !! Z.to_nat k = Some v ->
  live_value_at buf (sr_locations r) k = Ret v.
Proof using Hd.
  intros Hk Hv. rewrite <- (Z2Nat.id k) at 1 by done. by apply (de_locations _ _ _ Hd).
Qed.
End locations.

Section pairs.
Context (buf_a buf_b : list Z).

Lemma check_locations_spec ea ra eb rb n k ret :
  describes_entry buf_a ea ra -> Forall (fun v => is_duplicate v = false) (en_locations ea) ->
  describes_entry buf_b eb rb -> Forall (fun v => is_duplicate v = false) (en_locations eb) ->
  0 <= k -> zlen (en_locations ea) <= k + Z.of_nat n ->
  check_locations buf_a buf_b n (sr_locations ra) (sr_locations rb) (zlen (en_locations ea))
    (zlen (en_locations eb)) k k ret =
  Ret (flag (all_pairs location_matches (drop (Z.to_nat k) (en_locations ea))
                                        (drop (Z.to_nat k) (en_locations eb))) ret).
Proof using Type.
  intros Da Pa Db Pb. revert k ret. induction n as [|n IH]; intros k ret Hk Hn.
  - cbn [check_locations]. destruct (Z.ltb_spec k (zlen (en_locations ea))); [lia|]. cbn [andb].
    rewrite (drop_ge (en_locations ea)) by (unfold zlen in *; lia). done.
  - cbn [check_locations]. destruct (Z.ltb_spec k (zlen (en_locations ea))) as [La|La]; cbn [andb].
    2:{ rewrite (drop_ge (en_locations ea)) by (unfold zlen in *; lia). done. }
    destruct (Z.ltb_spec k (zlen (en_locations eb))) as [Lb|Lb].
    2:{ rewrite (drop_ge (en_locations eb)) by (unfold zlen in *; lia).
        unfold all_pairs. by rewrite zip_with_nil_r. }
    destruct (lookup_lt_is_Some_2 (en_locations ea) (Z.to_nat k)) as [a Ea]; [unfold zlen in *; lia|].
    destruct (lookup_lt_is_Some_2 (en_locations eb) (Z.to_nat k)) as [b Eb]; [unfold zlen in *; lia|].
    rewrite (location_at _ _ _ Da _ _ Hk Ea). cbn [mbind outcome_bind].
    rewrite (location_at _ _ _ Db _ _ Hk Eb). cbn [mbind outcome_bind].
    rewrite (skip_none _ _ _ Da Pa) by lia. cbn [mbind outcome_bind].
    rewrite (skip_none _ _ _ Db Pb) by lia. cbn [mbind outcome_bind].
    rewrite IH, check_location_spec, flag_and by lia.
    rewrite (drop_S _ _ _ Ea), (drop_S _ _ _ Eb).
    replace (Z.to_nat (k + 1)) with (S (Z.to_nat k)) by lia. done.
Qed.

Lemma check_record_spec ma sa mb sb ea ra eb rb ret :
  describes_map buf_a ma sa -> describes_map buf_b mb sb ->
  describes_entry buf_a ea ra -> describes_entry buf_b eb rb ->
  plain_entry ma ea -> plain_entry mb eb ->
  check_record buf_a buf_b sa sb ra rb ret = Ret (flag (entry_matches ma mb ea eb) ret).
Proof using Type.
  intros Dma Dmb Da Db (Pa & Na & fa & Fa) (Pb & Nb & fb & Fb).
  unfold entry_matches. rewrite Fa, Fb. unfold entry_function in Fa, Fb. cbn [fst snd] in Fa, Fb.
  apply znth_lookup in Fa as [Ia Fa]. apply znth_lookup in Fb as [Ib Fb].
  pose proof (dm_functions _ _ _ Dma _ _ Fa) as Ga. pose proof (dm_functions _ _ _ Dmb _ _ Fb) as Gb.
  rewrite Z2Nat.id in Ga, Gb by done. destruct (de_header _ _ _ Da) as (_ & Ja & _).
  destruct (de_header _ _ _ Db) as (_ & Jb & _). destruct (de_counts _ _ _ Da) as (Ca & _).
  destruct (de_counts _ _ _ Db) as (Cb & _).
  unfold check_record. rewrite Ja, Jb, Ga. cbn [mbind outcome_bind]. rewrite Gb. cbn [mbind outcome_bind].
  destruct (fr_func_addr fa =? fr_func_addr fb); cbn [negb andb]; [|done].
  rewrite Ca, Cb.
  rewrite (count_all_locations _ _ _ Da Pa) by (unfold zlen in *; lia). cbn [mbind outcome_bind].
  rewrite (count_all_locations _ _ _ Db Pb) by (unfold zlen in *; lia). cbn [mbind outcome_bind].
  pose proof (zlen_nonneg (en_locations ea)). pose proof (zlen_nonneg (en_locations eb)).
  rewrite !Z2Nat.id, !Z.add_0_l, if_negb_flag by done.
  rewrite (check_locations_spec ea ra eb rb) by (done || lia). by rewrite flag_and.
Qed.

Lemma check_records_spec ma sa mb sb eas : forall ras ebs rbs ret,
  describes_map buf_a ma sa -> describes_map buf_b mb sb ->
  Forall2 (describes_entry buf_a) eas ras -> Forall2 (describes_entry buf_b) ebs rbs ->
  Forall (plain_entry ma) eas -> Forall (plain_entry mb) ebs ->
  check_records buf_a buf_b sa sb ras rbs ret =
    Ret (flag (all_pairs (entry_matches ma mb) eas ebs) ret).
Proof using Type.
  induction eas as [|ea eas IH]; intros ras ebs rbs ret Dma Dmb Da Db Pa Pb.
  - by inversion_clear Da.
  - inversion_clear Da as [|? ra ? ras' Da1 Da2]. apply Forall_cons in Pa as [Pa1 Pa2].
    destruct Db as [|eb rb ebs rbs Db1 Db2]; [done|]. apply Forall_cons in Pb as [Pb1 Pb2].
    cbn [check_records]. rewrite (check_record_spec ma sa mb sb ea ra eb rb) by done.
    cbn [mbind outcome_bind]. rewrite (IH ras' ebs rbs) by done. by rewrite flag_and.
Qed.

Lemma check_maps_spec mas : forall sas mbs sbs ret,
  Forall2 (describes_map buf_a) mas sas -> Forall2 (describes_map buf_b) mbs sbs ->
  plain mas -> plain mbs ->
  check_maps buf_a buf_b sas sbs ret = Ret (flag (all_pairs map_matches mas mbs) ret).
Proof using Type.
  induction mas as [|ma mas IH]; intros sas mbs sbs ret Da Db Pa Pb.
  - by inversion_clear Da.
  - inversion_clear Da as [|? sa ? sas' Da1 Da2]. apply Forall_cons in Pa as [Pa1 Pa2].
    destruct Db as [|mb sb mbs sbs Db1 Db2]; [done|]. apply Forall_cons in Pb as [Pb1 Pb2].
    cbn [check_maps]. destruct (dm_counts _ _ _ Da1) as (_ & _ & Ca).
    destruct (dm_counts _ _ _ Db1) as (_ & _ & Cb). rewrite Ca, Cb, if_negb_flag.
    rewrite (check_records_spec ma sa mb sb (mp_entries ma) _ (mp_entries mb))
      by (done || apply dm_entries; done).
    cbn [mbind outcome_bind]. rewrite (IH sas' mbs sbs) by done.
    rewrite !flag_and. unfold all_pairs at 3. cbn [zip_with forallb fst snd].
    unfold map_matches at 2. by rewrite <- !andb_assoc.
Qed.
End pairs.

(** ** Properties *)

(** C35: When no location record is a duplicate, the checker always returns, and
    with SUCCESS exactly when the two binaries have the same number of maps,
    corresponding maps the same number of call sites, and corresponding call
    sites the same function address, number of live values, and for each live
    value the same size, pointer flag, stack-object flag and object size. *)
Theorem check_stackmaps_decides buf_a buf_b mas sas mbs sbs :
  Forall2 (describes_map buf_a) mas sas -> Forall2 (describes_map buf_b) mbs sbs ->
  plain mas -> plain mbs ->
  check_stackmaps buf_a buf_b sas sbs =
    Ret (if maps_match mas mbs then SUCCESS else INVALID_METADATA).
Proof.
  intros Da Db Pa Pb. unfold check_stackmaps.
  assert (La : zlen sas = zlen mas) by (unfold zlen; by rewrite (Forall2_length _ _ _ Da)).
  assert (Lb : zlen sbs = zlen mbs) by (unfold zlen; by rewrite (Forall2_length _ _ _ Db)).
  rewrite if_negb_flag, (check_maps_spec buf_a buf_b mas sas mbs sbs) by done.
  rewrite flag_and, La, Lb. done.
Qed.

(** A call site with a value that is also in a backing stack slot, followed by a
    value of the given size. *)
Definition checked_maps (size : Z) : list stack_map :=
  [StackMap 1 0 0 [FunctionRecord 0x1000 32 0 0] [] [Entry 7 0 16 0
    [LiveValue false false false false 1 8 3 0 0; LiveValue true false false false 3 8 6 (-8) 0;
     LiveValue false false false false 1 size 12 0 0] [] []]].

Definition checked_data (size : Z) : list Z := encode_maps 0 0 (checked_maps size).

Definition checked_sections (size : Z) : list stack_map_section :=
  match read_maps 0 (checked_data size) 1 0 with
  | Ret sms => sms
  | _ => []
  end.

(** With duplicate location records the checker misses differences: it bounds
    its loop by the number of records that are no duplicates, but advances its
    indices over the duplicates as well, so the last values of a call site are
    not compared.  Here two binaries whose second values have different sizes
    pass. *)
Theorem check_stackmaps_misses :
  maps_match (checked_maps 8) (checked_maps 4) = false /\
  check_stackmaps (checked_data 8) (checked_data 4) (checked_sections 8) (checked_sections 4) =
    Ret SUCCESS.
Proof. split; vm_compute; reflexivity. Qed.

(** Two binaries that differ in the size of a value. *)
Definition plain_maps (size : Z) : list stack_map :=
  [StackMap 1 0 0 [FunctionRecord 0x1000 32 0 0] [] [Entry 7 0 16 0
    [LiveValue false false false false 1 size 3 0 0] [] []]].

Lemma plain_maps_typed size : 0 <= size < 256 -> Forall map_typed (plain_maps size).
Proof.
  intros Hs. apply List.Forall_cons; [|apply List.Forall_nil].
  constructor; [repeat split; simpl; lia|repeat split; vm_compute; lia|..];
    (apply List.Forall_cons; [|apply List.Forall_nil]).
  - repeat split; simpl; lia.
  - constructor; [repeat split; simpl; lia|repeat split; vm_compute; lia|..];
      [apply List.Forall_cons; [|apply List.Forall_nil]; repeat split; simpl; lia|apply List.Forall_nil].
Qed.

Lemma plain_maps_plain size : plain (plain_maps size).
Proof.
  apply List.Forall_cons; [|apply List.Forall_nil]. apply List.Forall_cons; [|apply List.Forall_nil].
  split; [|split; [done|by eexists]]. apply List.Forall_cons; [done|apply List.Forall_nil].
Qed.

Lemma check_stackmaps_decides_witness :
  exists sas sbs, check_stackmaps (encode_maps 0 0 (plain_maps 8)) (encode_maps 0 0 (plain_maps 4))
    sas sbs = Ret INVALID_METADATA.
Proof.
  assert (T8 : Forall map_typed (plain_maps 8)) by (apply plain_maps_typed; lia).
  assert (T4 : Forall map_typed (plain_maps 4)) by (apply plain_maps_typed; lia).
  destruct (read_all 0 _ (plain_maps 8) [] 0 eq_refl eq_refl T8) as (sas & _ & Da).
  destruct (read_all 0 _ (plain_maps 4) [] 0 eq_refl eq_refl T4) as (sbs & _ & Db).
  exists sas, sbs.
  exact (check_stackmaps_decides _ _ _ sas _ sbs Da Db (plain_maps_plain 8) (plain_maps_plain 4)).
Defined.
