(* ===== verification/LibElf.v ===== *)
(** * libelf: descriptors, sections and data (src/lib/libelf/lib)

    The part of the vendored libelf that the metadata tool and the runtime use,
    for 64-bit files: reading the headers of a file ([_elf_cook], cook.c), the
    accessors, section data ([elf_getdata], getdata.c), new sections and data
    (newscn.c, newdata.c), strings (strptr.c) and flags (flag.c).  A pointer to
    a section is its index in the descriptor's list, a pointer to a data
    descriptor its index in the section's list: [s_index] and the [s_link]
    chain are the position.  [NULL] is [None].

    The build is the one of INSTALL-popcorn: 64-bit support and the extended
    format on, assertions and symbol versions off; [elf_version(EV_CURRENT)]
    has been called.  The error number is not modelled (no caller reads it),
    and neither are archives, raw data and the 32-bit class: callers look at
    the class before they look at anything else. *)

From S2P Require Import Prelude Machine CallSite.
From stdpp Require Import strings.

#[local] Open Scope Z_scope.

Module Lib.

(** ** The environment

    Which allocations succeed, what fresh memory holds, and whether
    [elf_strptr] looks for the end of the string (LIBELF_SANITY_CHECKS). *)
Class Env := {
  malloc_ok : Z -> bool;
  heap_junk : nat -> Z;
  sanity_check_strptr : bool;
}.

(** ** Constants (sys/elf.h, libelf.h) *)

Definition EV_NONE : Z := 0.
Definition EV_CURRENT : Z := 1.
Definition ELFCLASS32 : Z := 1.
Definition ELFCLASS64 : Z := 2.
Definition ELFDATANONE : Z := 0.
Definition ELFDATA2LSB : Z := 1.
Definition ELFDATA2MSB : Z := 2.
Definition EI_NIDENT : Z := 16.
Definition EI_CLASS : Z := 4.
Definition EI_DATA : Z := 5.
Definition EI_VERSION : Z := 6.
Definition ELFMAG : list Z := [127; 69; 76; 70].
Definition ARMAG : list Z := [33; 60; 97; 114; 99; 104; 62; 10].
Definition SHN_LORESERVE : Z := 0xff00.
Definition SHN_XINDEX : Z := 0xffff.
Definition PN_XNUM : Z := 0xffff.
Definition SHT_NULL : Z := 0.
Definition SHT_PROGBITS : Z := 1.
Definition SHT_SYMTAB : Z := 2.
Definition SHT_STRTAB : Z := 3.
Definition SHT_RELA : Z := 4.
Definition SHT_HASH : Z := 5.
Definition SHT_DYNAMIC : Z := 6.
Definition SHT_NOBITS : Z := 8.
Definition SHT_REL : Z := 9.
Definition SHT_DYNSYM : Z := 11.
Definition SHT_SYMTAB_SHNDX : Z := 18.
Definition ELF_F_DIRTY : Z := 0x1.
Definition ELF_F_LAYOUT : Z := 0x4.
Definition ELF_F_LAYOUT_OVERLAP : Z := 0x10000000.

(** ** Data types *)

Inductive Elf_Type : Set :=
  | ELF_T_BYTE | ELF_T_ADDR | ELF_T_DYN | ELF_T_EHDR | ELF_T_HALF | ELF_T_OFF
  | ELF_T_PHDR | ELF_T_RELA | ELF_T_REL | ELF_T_SHDR | ELF_T_SWORD | ELF_T_SYM
  | ELF_T_WORD | ELF_T_SXWORD | ELF_T_XWORD | ELF_T_VDEF | ELF_T_VNEED.

#[export] Instance Elf_Type_eq_dec : EqDecision Elf_Type.
Proof. solve_decision. Defined.

Inductive Elf_Kind : Set := ELF_K_NONE | ELF_K_AR | ELF_K_ELF.

#[export] Instance Elf_Kind_eq_dec : EqDecision Elf_Kind.
Proof. solve_decision. Defined.

Record Elf64_Ehdr := Ehdr {
  eh_ident : list Z;
  eh_type : Z;
  eh_machine : Z;
  eh_version : Z;
  eh_entry : Z;
  eh_phoff : Z;
  eh_shoff : Z;
  eh_flags : Z;
  eh_ehsize : Z;
  eh_phentsize : Z;
  eh_phnum : Z;
  eh_shentsize : Z;
  eh_shnum : Z;
  eh_shstrndx : Z;
}.

Record Elf64_Shdr := Shdr {
  sh_name : Z;
  sh_type : Z;
  sh_flags : Z;
  sh_addr : Z;
  sh_offset : Z;
  sh_size : Z;
  sh_link : Z;
  sh_info : Z;
  sh_addralign : Z;
  sh_entsize : Z;
}.

(** Where a buffer is: in the memory image of the file, at an offset, or an
    allocation of the application, by its address and its content. *)
Inductive buffer : Set :=
  | Image (off : Z)
  | Heap (p : Z) (bytes : list Z).

Record Elf_Data := Data {
  d_buf : option buffer;
  d_type : Elf_Type;
  d_size : Z;
  d_off : Z;
  d_align : Z;
  d_version : Z;
}.

Record Scn_Data := ScnData {
  sd_data : Elf_Data;
  sd_memdata : option Z;
  sd_data_flags : Z;
  sd_freeme : bool;
  sd_free_data : bool;
}.

Record Elf_Scn := Scn {
  s_scn_flags : Z;
  s_shdr_flags : Z;
  s_data : list Scn_Data;
  s_type : Z;
  s_offset : Z;
  s_size : Z;
  s_shdr64 : Elf64_Shdr;
}.

(** A descriptor of a file opened by [elf_begin] ([e_rawdata] and [e_parent]
    are NULL, [e_count] is 1). *)
Record Elf := MkElf {
  e_size : Z;
  e_kind : Elf_Kind;
  e_data : list Z;
  e_class : Z;
  e_encoding : Z;
  e_version : Z;
  e_ehdr : option Elf64_Ehdr;
  e_phdr : list Z;
  e_phnum : Z;
  e_scns : list Elf_Scn;
  e_elf_flags : Z;
  e_ehdr_flags : Z;
  e_phdr_flags : Z;
  e_readable : bool;
  e_writable : bool;
}.

#[export] Instance Elf_eq_dec : EqDecision Elf.
Proof.
  assert (EqDecision Elf64_Ehdr) by solve_decision.
  assert (EqDecision Elf64_Shdr) by solve_decision.
  assert (EqDecision buffer) by solve_decision.
  assert (EqDecision Elf_Data) by solve_decision.
  assert (EqDecision Scn_Data) by solve_decision.
  assert (EqDecision Elf_Scn) by solve_decision.
  solve_decision.
Defined.

(** The functions of libelf read and change one descriptor. *)
Definition E (A : Type) : Type := Elf -> outcome (A * Elf).

#[export] Instance E_ret : MRet E := fun A a e => Ret (a, e).

#[export] Instance E_bind : MBind E := fun A B f c e =>
  match c e with
  | Ret (a, e') => f a e'
  | Exit n => Exit n
  | Fault => Fault
  | Spin => Spin
  end.

Definition liftE {A} (o : outcome A) : E A := fun e => a ← o; Ret (a, e).
Definition gets {A} (f : Elf -> A) : E A := fun e => Ret (f e, e).
Definition modify (f : Elf -> Elf) : E unit := fun e => Ret (tt, f e).

(** Assignments to the fields of the structures. *)
Definition set_data (d : list Z) (e : Elf) : Elf :=
  MkElf (e_size e) (e_kind e) d (e_class e) (e_encoding e) (e_version e) (e_ehdr e)
    (e_phdr e) (e_phnum e) (e_scns e) (e_elf_flags e) (e_ehdr_flags e) (e_phdr_flags e)
    (e_readable e) (e_writable e).
Definition set_ehdr (h : option Elf64_Ehdr) (e : Elf) : Elf :=
  MkElf (e_size e) (e_kind e) (e_data e) (e_class e) (e_encoding e) (e_version e) h
    (e_phdr e) (e_phnum e) (e_scns e) (e_elf_flags e) (e_ehdr_flags e) (e_phdr_flags e)
    (e_readable e) (e_writable e).
Definition set_phdr (p : list Z) (n : Z) (e : Elf) : Elf :=
  MkElf (e_size e) (e_kind e) (e_data e) (e_class e) (e_encoding e) (e_version e) (e_ehdr e)
    p n (e_scns e) (e_elf_flags e) (e_ehdr_flags e) (e_phdr_flags e)
    (e_readable e) (e_writable e).
Definition set_scns (l : list Elf_Scn) (e : Elf) : Elf :=
  MkElf (e_size e) (e_kind e) (e_data e) (e_class e) (e_encoding e) (e_version e) (e_ehdr e)
    (e_phdr e) (e_phnum e) l (e_elf_flags e) (e_ehdr_flags e) (e_phdr_flags e)
    (e_readable e) (e_writable e).
Definition set_flags (elf ehdr phdr : Z) (e : Elf) : Elf :=
  MkElf (e_size e) (e_kind e) (e_data e) (e_class e) (e_encoding e) (e_version e) (e_ehdr e)
    (e_phdr e) (e_phnum e) (e_scns e) elf ehdr phdr (e_readable e) (e_writable e).
Definition set_shdr (h : Elf64_Shdr) (s : Elf_Scn) : Elf_Scn :=
  Scn (s_scn_flags s) (s_shdr_flags s) (s_data s) (s_type s) (s_offset s) (s_size s) h.
Definition set_shdr_flags (f : Z) (s : Elf_Scn) : Elf_Scn :=
  Scn (s_scn_flags s) f (s_data s) (s_type s) (s_offset s) (s_size s) (s_shdr64 s).
Definition set_s_data (l : list Scn_Data) (s : Elf_Scn) : Elf_Scn :=
  Scn (s_scn_flags s) (s_shdr_flags s) l (s_type s) (s_offset s) (s_size s) (s_shdr64 s).
Definition set_sd_data (d : Elf_Data) (sd : Scn_Data) : Scn_Data :=
  ScnData d (sd_memdata sd) (sd_data_flags sd) (sd_freeme sd) (sd_free_data sd).

(** Dereferencing the pointer to a section. *)
Definition scn_at (scn : nat) : E Elf_Scn := fun e => s ← get (e_scns e !! scn); Ret (s, e).
Definition upd_scn (scn : nat) (f : Elf_Scn -> Elf_Scn) : E unit := fun e =>
  Ret (tt, set_scns (alter f scn (e_scns e)) e).
Definition upd_data (scn j : nat) (f : Scn_Data -> Scn_Data) : E unit :=
  upd_scn scn (fun s => set_s_data (alter f j (s_data s)) s).
Definition data_of (scn j : nat) : E Scn_Data :=
  s ← scn_at scn; liftE (get (s_data s !! j)).

(** The [n] bytes at [off]; reading outside the array is undefined. *)
Definition slice (l : list Z) (off n : Z) : outcome (list Z) :=
  if bool_decide (0 <= off /\ 0 <= n /\ off + n <= zlen l)
  then Ret (take (Z.to_nat n) (drop (Z.to_nat off) l)) else Fault.

(** Storing bytes at [off]. *)
Definition splice (l : list Z) (off : Z) (bs : list Z) : outcome (list Z) :=
  if bool_decide (0 <= off /\ off + zlen bs <= zlen l)
  then Ret (take (Z.to_nat off) l ++ bs ++ drop (Z.to_nat (off + zlen bs)) l) else Fault.

Definition buffer_bytes (b : buffer) (n : Z) : E (list Z) := fun e =>
  bs ← match b with Image off => slice (e_data e) off n | Heap _ bs => slice bs 0 n end;
  Ret (bs, e).

(** ** Translation between file and memory (32.fsize.c, 64.xlatetof.c)

    The host is little-endian, and every 64-bit structure has the same fields
    in memory and in the file. *)

Definition type_fields (type : Elf_Type) : list nat :=
  match type with
  | ELF_T_BYTE => [1]
  | ELF_T_ADDR | ELF_T_OFF | ELF_T_SXWORD | ELF_T_XWORD => [8]
  | ELF_T_HALF => [2]
  | ELF_T_SWORD | ELF_T_WORD => [4]
  | ELF_T_DYN | ELF_T_REL => [8; 8]
  | ELF_T_EHDR => replicate 16 1 ++ [2; 2; 4; 8; 8; 8; 4; 2; 2; 2; 2; 2; 2]
  | ELF_T_PHDR => [4; 4; 8; 8; 8; 8; 8; 8]
  | ELF_T_RELA => [8; 8; 8]
  | ELF_T_SHDR => [4; 4; 8; 8; 8; 8; 4; 4; 8; 8]
  | ELF_T_SYM => [4; 1; 1; 2; 8; 8]
  | ELF_T_VDEF | ELF_T_VNEED => []
  end%nat.

(** [_fsize] and [_msize], from [_elf_fmsize]. *)
Definition record_size (type : Elf_Type) : nat := sum_list (type_fields type).
Definition fsize (type : Elf_Type) : Z := Z.of_nat (record_size type).

(** [copy_type]: every field of every complete record, its bytes reversed when
    the file is big-endian. *)
Fixpoint copy_fields (encode : Z) (ws : list nat) (src : list Z) : list Z :=
  match ws with
  | [] => []
  | w :: ws' =>
      (if encode =? ELFDATA2MSB then reverse (take w src) else take w src)
      ++ copy_fields encode ws' (drop w src)
  end.

Fixpoint copy_records (encode : Z) (ws : list nat) (n : nat) (src : list Z) : list Z :=
  match n with
  | O => []
  | S n' => copy_fields encode ws src ++ copy_records encode ws n' (drop (sum_list ws) src)
  end.

Definition copy_type (encode : Z) (type : Elf_Type) (src : list Z) : list Z :=
  copy_records encode (type_fields type) (length src / record_size type) src.

Definition valid_class (c : Z) : bool := (ELFCLASS32 <=? c) && (c <=? ELFCLASS64).
Definition valid_encoding (e : Z) : bool := (ELFDATA2LSB <=? e) && (e <=? ELFDATA2MSB).
Definition valid_version (v : Z) : bool := (EV_NONE <? v) && (v <=? EV_CURRENT).

(** The entry of the translation table: none for the version sections. *)
Definition translator (type : Elf_Type) : bool :=
  match type with ELF_T_VDEF | ELF_T_VNEED => false | _ => true end.

(** The size of the translation of [size] bytes. *)
Definition _elf64_xltsize (type : Elf_Type) (size sv dv encode : Z) (tof : bool) : option Z :=
  if negb (valid_version sv && valid_version dv) then None
  else if negb tof && negb (valid_encoding encode) then None
  else if translator type then Some (size / fsize type * fsize type) else None.

(** The translation of the source bytes, which must fit the destination. *)
Definition elf64_xlate (type : Elf_Type) (sv : Z) (src : list Z) (dsize dv encode : Z) :
    option (list Z) :=
  if negb (valid_encoding encode) then None
  else if negb (valid_version sv && valid_version dv) then None
  else if negb (translator type) then None
  else
    let dst := copy_type encode type src in
    if dsize <? zlen dst then None else Some dst.

(** ** Headers *)

(** The memory image of an ELF header. *)
Definition ehdr_fields (h : Elf64_Ehdr) : list Z :=
  eh_ident h ++ [eh_type h; eh_machine h; eh_version h; eh_entry h; eh_phoff h; eh_shoff h;
    eh_flags h; eh_ehsize h; eh_phentsize h; eh_phnum h; eh_shentsize h; eh_shnum h;
    eh_shstrndx h].

Definition encode_ehdr (h : Elf64_Ehdr) : list Z :=
  put_fields (zip (type_fields ELF_T_EHDR) (ehdr_fields h)).

Definition decode_ehdr (bs : list Z) : option Elf64_Ehdr :=
  '(vs, _) ← take_fields (type_fields ELF_T_EHDR) bs;
  match drop 16 vs with
  | [ty; ma; ve; en; po; so; fl; es; pe; pn; se; sn; sx] =>
      Some (Ehdr (take 16 vs) ty ma ve en po so fl es pe pn se sn sx)
  | _ => None
  end.

Definition shdr_fields (h : Elf64_Shdr) : list Z :=
  [sh_name h; sh_type h; sh_flags h; sh_addr h; sh_offset h; sh_size h; sh_link h; sh_info h;
   sh_addralign h; sh_entsize h].

Definition encode_shdr (h : Elf64_Shdr) : list Z :=
  put_fields (zip (type_fields ELF_T_SHDR) (shdr_fields h)).

Definition decode_shdr (bs : list Z) : option Elf64_Shdr :=
  '(vs, _) ← take_fields (type_fields ELF_T_SHDR) bs;
  match vs with
  | [na; ty; fl; ad; off; sz; li; info; al; en] =>
      Some (Shdr na ty fl ad off sz li info al en)
  | _ => None
  end.

(** ** Reading a file (begin.c, cook.c) *)

Section env.
Context `{Env}.

(** [_elf_check_type] on a descriptor of [size] bytes. *)
Definition _elf_check_type (e : Elf) (size : Z) : Elf :=
  let ident i := default 0 (znth (e_data e) i) in
  if (EI_NIDENT <=? size) && bool_decide (take 4 (e_data e) = ELFMAG)
  then MkElf (e_size e) ELF_K_ELF (e_data e) (ident EI_CLASS) (ident EI_DATA)
         (ident EI_VERSION) (e_ehdr e) (e_phdr e) (e_phnum e) (e_scns e) (e_elf_flags e)
         (e_ehdr_flags e) (e_phdr_flags e) (e_readable e) (e_writable e)
  else if (8 <=? size) && bool_decide (take 8 (e_data e) = ARMAG)
  then MkElf (e_size e) ELF_K_AR (e_data e) (e_class e) (e_encoding e) (e_version e)
         (e_ehdr e) (e_phdr e) (e_phnum e) (e_scns e) (e_elf_flags e) (e_ehdr_flags e)
         (e_phdr_flags e) (e_readable e) (e_writable e)
  else e.

(** [elf_begin(fd, cmd, NULL)] for ELF_C_READ and ELF_C_RDWR ([writable]): the
    content of the file, or nothing when it cannot be read. *)
Definition elf_begin (file : option (list Z)) (writable : bool) : option Elf :=
  match file with
  | None => None
  | Some bytes =>
      let size := zlen bytes in
      if negb (malloc_ok 280) then None
      else if negb (size =? 0) && writable && negb (malloc_ok size) then None
      else Some (_elf_check_type (MkElf size ELF_K_NONE bytes 0 0 0 None [] 0 [] 0 0 0 true
                                    writable) size)
  end.

(** One item of the file at [off], in memory format. *)
Definition _elf_item (e : Elf) (type : Elf_Type) (off : Z) : outcome (option (list Z)) :=
  if e_size e <? off then Ret None
  else if e_size e - off <? fsize type then Ret None
  else
    src ← slice (e_data e) off (fsize type);
    Ret (elf64_xlate type (e_version e) src (fsize type) EV_CURRENT (e_encoding e)).

Definition _elf_scn_type (t : Z) : Elf_Type :=
  default ELF_T_BYTE (switch t [
    (SHT_DYNAMIC, ELF_T_DYN);
    (SHT_DYNSYM, ELF_T_SYM);
    (SHT_HASH, ELF_T_WORD);
    (SHT_REL, ELF_T_REL);
    (SHT_RELA, ELF_T_RELA);
    (SHT_SYMTAB, ELF_T_SYM);
    (SHT_SYMTAB_SHNDX, ELF_T_WORD)]).

(** "QUIRKS MODE": a .hash section with 64-bit entries. *)
Definition scn_type (h : Elf64_Shdr) : Elf_Type :=
  if (sh_type h =? SHT_HASH) && (sh_entsize h =? 8) && (sh_size h mod 8 =? 0)
     && (16 <=? sh_size h) && (sh_addralign h =? 8) && (sh_offset h mod 8 =? 0)
  then ELF_T_ADDR else _elf_scn_type (sh_type h).

(** The section made from a header: one data descriptor, not read yet. *)
Definition cook_scn (h : Elf64_Shdr) : Elf_Scn :=
  Scn 0 0
    [ScnData (Data None (scn_type h) (sh_size h) 0 (sh_addralign h) EV_CURRENT) None 0
       false false]
    (sh_type h) (sh_offset h) (sh_size h) h.

(** The headers are read from the last to the first. *)
Fixpoint cook_shdrs (e : Elf) (off entsz : Z) (i : nat) (scns : list Elf_Scn) :
    outcome (option (list Elf_Scn)) :=
  match i with
  | O => Ret (Some scns)
  | S i' =>
      src ← slice (e_data e) (off + Z.of_nat i' * entsz) (fsize ELF_T_SHDR);
      match elf64_xlate ELF_T_SHDR (e_version e) src 64 EV_CURRENT (e_encoding e) with
      | None => Ret None
      | Some bs => h ← get (decode_shdr bs); cook_shdrs e off entsz i' (cook_scn h :: scns)
      end
  end.

Definition sizeof_scn_and_data : Z := 248.

(** The number of sections: in the header, or in the first section's header. *)
Definition section_count (e : Elf) (h : Elf64_Ehdr) : outcome (option Z) :=
  if negb (eh_shnum h =? 0) then Ret (Some (eh_shnum h))
  else if e_size e - eh_shoff h <? eh_shentsize h then Ret None
  else
    src ← slice (e_data e) (eh_shoff h) (fsize ELF_T_SHDR);
    match elf64_xlate ELF_T_SHDR (e_version e) src 64 EV_CURRENT (e_encoding e) with
    | None => Ret None
    | Some bs => u ← get (decode_shdr bs); Ret (Some (sh_size u))
    end.

(** With no section at all the code writes to the empty array's first element. *)
Definition _elf_cook_shdr (h : Elf64_Ehdr) : E bool := fun e =>
  let off := eh_shoff h in
  let entsz := eh_shentsize h in
  if off =? 0 then Ret (true, e)
  else if e_size e <? off then Ret (false, e)
  else if entsz <? fsize ELF_T_SHDR then Ret (false, e)
  else
    num ← section_count e h;
    match num with
    | None => Ret (false, e)
    | Some num =>
        if (e_size e - off) / entsz <? num then Ret (false, e)
        else if negb (malloc_ok (num * sizeof_scn_and_data)) then Ret (false, e)
        else if num =? 0 then Fault
        else
          scns ← cook_shdrs e off entsz (Z.to_nat num) [];
          match scns with
          | None => Ret (false, e)
          | Some scns => Ret (true, set_scns scns e)
          end
    end.

Fixpoint cook_phdrs (e : Elf) (off entsz : Z) (i n : nat) : outcome (option (list Z)) :=
  match n with
  | O => Ret (Some [])
  | S n' =>
      p ← _elf_item e ELF_T_PHDR (wrap64 (off + Z.of_nat i * entsz));
      match p with
      | None => Ret None
      | Some p =>
          ps ← cook_phdrs e off entsz (S i) n';
          Ret (option_map (app p) ps)
      end
  end.

Definition _elf_cook_phdr (h : Elf64_Ehdr) : E bool := fun e =>
  let off := eh_phoff h in
  if off =? 0 then Ret (true, e)
  else
    match (if eh_phnum h =? PN_XNUM then (fun s => sh_info (s_shdr64 s)) <$> head (e_scns e)
           else Some (eh_phnum h)) with
    | None => Ret (false, e)
    | Some num =>
        if eh_phentsize h <? fsize ELF_T_PHDR then Ret (false, e)
        else if negb (malloc_ok (num * fsize ELF_T_PHDR)) then Ret (false, e)
        else
          p ← cook_phdrs e off (eh_phentsize h) 0 (Z.to_nat num);
          match p with
          | None => Ret (false, e)
          | Some p => Ret (true, set_phdr p num e)
          end
    end.

(** [e_ehdr] stays set when the tables cannot be read. *)
Definition _elf_cook_file : E bool := fun e =>
  item ← (if malloc_ok (fsize ELF_T_EHDR) then _elf_item e ELF_T_EHDR 0 else Ret None);
  match item with
  | None => Ret (false, e)
  | Some bs =>
      h ← get (decode_ehdr bs);
      '(ok, e) ← _elf_cook_shdr h (set_ehdr (Some h) e);
      if negb ok then Ret (false, e) else _elf_cook_phdr h e
  end.

Definition _elf_cook : E bool := fun e =>
  if negb (valid_version (e_version e)) then Ret (false, e)
  else if negb (valid_encoding (e_encoding e)) then Ret (false, e)
  else if e_class e =? ELFCLASS64 then _elf_cook_file e
  else Ret (false, e).

(** [elf->e_ehdr || _elf_cook(elf)] *)
Definition cooked : E bool := fun e =>
  match e_ehdr e with Some _ => Ret (true, e) | None => _elf_cook e end.

(** ** Accessors *)

Definition elf_kind (e : Elf) : Elf_Kind := e_kind e.

Definition gelf_getclass (e : Elf) : Z :=
  if bool_decide (e_kind e = ELF_K_ELF) && valid_class (e_class e) then e_class e else 0.

(** What every accessor does first: fail on a file that is not ELF, and read
    the headers. *)
Definition with_headers {A} (k : Elf64_Ehdr -> E (option A)) : E (option A) := fun e =>
  if negb (bool_decide (e_kind e = ELF_K_ELF)) then Ret (None, e)
  else
    '(ok, e) ← cooked e;
    match e_ehdr e with
    | Some h => if (ok : bool) then k h e else Ret (None, e)
    | None => Ret (None, e)
    end.

(** The identification of a file that is not ELF is its first bytes. *)
Definition elf_getident : E (option (list Z)) := fun e =>
  if negb (bool_decide (e_kind e = ELF_K_ELF)) then Ret (Some (e_data e), e)
  else with_headers (fun h => mret (Some (eh_ident h))) e.

Definition elf64_getehdr : E (option Elf64_Ehdr) := fun e =>
  if bool_decide (e_kind e = ELF_K_ELF) && negb (e_class e =? ELFCLASS64) then Ret (None, e)
  else with_headers (fun h => mret (Some h)) e.

Definition elf_getshdrnum : E (option Z) :=
  with_headers (fun _ => n ← gets (fun e => zlen (e_scns e)); mret (Some n)).

Definition elf_getshdrstrndx : E (option Z) :=
  with_headers (fun h =>
    c ← gets e_class;
    if negb (c =? ELFCLASS64) then mret None
    else if negb (eh_shstrndx h =? SHN_XINDEX) then mret (Some (eh_shstrndx h))
    else s ← gets (fun e => head (e_scns e)); mret (option_map (fun s => sh_link (s_shdr64 s)) s)).

Definition elf_getscn (index : Z) : E (option nat) :=
  with_headers (fun _ =>
    n ← gets (fun e => zlen (e_scns e));
    mret (if (0 <=? index) && (index <? n) then Some (Z.to_nat index) else None)).

Definition elf_nextscn (scn : option nat) : E (option nat) :=
  match scn with
  | Some i =>
      n ← gets (fun e => length (e_scns e));
      mret (if decide (S i < n)%nat then Some (S i) else None)
  | None => elf_getscn 1
  end.

Definition elf64_getshdr (scn : nat) : E (option Elf64_Shdr) :=
  c ← gets e_class;
  if c =? ELFCLASS64 then s ← scn_at scn; mret (Some (s_shdr64 s)) else mret None.

(** Flags: ELF_C_SET *)
Definition elf_flagdata (scn j : nat) (flags : Z) : E unit :=
  upd_data scn j (fun sd => ScnData (sd_data sd) (sd_memdata sd)
    (Z.lor (sd_data_flags sd) flags) (sd_freeme sd) (sd_free_data sd)).
Definition elf_flagshdr (scn : nat) (flags : Z) : E unit :=
  upd_scn scn (fun s => set_shdr_flags (Z.lor (s_shdr_flags s) flags) s).
Definition elf_flagehdr (flags : Z) : E unit :=
  modify (fun e => set_flags (e_elf_flags e) (Z.lor (e_ehdr_flags e) flags) (e_phdr_flags e) e).
Definition elf_flagelf (flags : Z) : E Z := fun e =>
  let f := Z.lor (e_elf_flags e) flags in
  Ret (f, set_flags f (e_ehdr_flags e) (e_phdr_flags e) e).

(** ** Section data (getdata.c, newdata.c) *)

(** Translate a section's bytes to memory format, in place: a 64-bit structure
    is never larger in memory.  Bytes are not touched at all. *)
Definition _elf_cook_scn (scn : nat) (s : Elf_Scn) (sd : Scn_Data) : E (option nat) := fun e =>
  let src := sd_data sd in
  match _elf64_xltsize (d_type src) (d_size src) (e_version e) (d_version src) (e_encoding e)
          false with
  | None => Ret (None, e)
  | Some dlen =>
      image ← (if bool_decide (d_type src = ELF_T_BYTE) then Ret (Some (e_data e))
               else
                 bs ← slice (e_data e) (s_offset s) (d_size src);
                 match elf64_xlate (d_type src) (e_version e) bs dlen (d_version src)
                         (e_encoding e) with
                 | None => Ret None
                 | Some bs' => l ← splice (e_data e) (s_offset s) bs'; Ret (Some l)
                 end);
      match image with
      | None => Ret (None, e)
      | Some l =>
          let dst := Data (Some (Image (s_offset s))) (d_type src) dlen (d_off src)
                       (d_align src) (d_version src) in
          (modify (set_data l);;
           upd_data scn 0 (fun sd => ScnData dst (Some (s_offset s)) (sd_data_flags sd)
                                       (sd_freeme sd) false);;
           mret (Some 0%nat)) e
      end
  end.

Definition elf_getdata (scn : nat) (data : option nat) : E (option nat) := fun e =>
  s ← get (e_scns e !! scn);
  if decide (scn = 0%nat) then Ret (None, e)
  else
    match data with
    | Some j => Ret (if decide (S j < length (s_data s))%nat then Some (S j) else None, e)
    | None =>
        match head (s_data s) with
        | None => Ret (None, e)
        | Some sd =>
            if sd_freeme sd then Ret (Some 0%nat, e)
            else if s_type s =? SHT_NULL then Ret (None, e)
            else
              match sd_memdata sd with
              | Some _ => Ret (Some 0%nat, e)
              | None =>
                  if e_size e <? s_offset s then Ret (None, e)
                  else if (s_type s =? SHT_NOBITS) || (s_size s =? 0) then Ret (Some 0%nat, e)
                  else if e_size e <? wrap64 (s_offset s + s_size s) then Ret (None, e)
                  else if valid_class (e_class e) then _elf_cook_scn scn s sd e
                  else Ret (None, e)
              end
        end
    end.

Definition sizeof_Scn_Data : Z := 88.

Definition elf_newdata (scn : nat) : E (option nat) := fun e =>
  s ← get (e_scns e !! scn);
  if decide (scn = 0%nat) then Ret (None, e)
  else if negb (malloc_ok sizeof_Scn_Data) then Ret (None, e)
  else
    let sd := ScnData (Data None ELF_T_BYTE 0 0 0 EV_CURRENT) None ELF_F_DIRTY true false in
    (upd_scn scn (fun s => set_s_data (s_data s ++ [sd]) s);;
     mret (Some (length (s_data s)))) e.

(** ** New sections (newscn.c) *)

Definition _elf_update_shnum (shnum : Z) : E bool := fun e =>
  match e_ehdr e with
  | None => Fault
  | Some h =>
      let ext := if SHN_LORESERVE <=? shnum then shnum else 0 in
      let shnum := if SHN_LORESERVE <=? shnum then 0 else shnum in
      if e_class e =? ELFCLASS64 then
        (modify (set_ehdr (Some (Ehdr (eh_ident h) (eh_type h) (eh_machine h) (eh_version h)
           (eh_entry h) (eh_phoff h) (eh_shoff h) (eh_flags h) (eh_ehsize h) (eh_phentsize h)
           (eh_phnum h) (eh_shentsize h) shnum (eh_shstrndx h))));;
         upd_scn 0 (fun s =>
           let r := s_shdr64 s in
           set_shdr (Shdr (sh_name r) (sh_type r) (sh_flags r) (sh_addr r) (sh_offset r) ext
             (sh_link r) (sh_info r) (sh_addralign r) (sh_entsize r)) s);;
         elf_flagehdr ELF_F_DIRTY;; elf_flagshdr 0 ELF_F_DIRTY;; mret true) e
      else Ret (false, e)
  end.

Definition sizeof_Elf_Scn : Z := 160.

(** [_makescn], for the end of the list. *)
Definition makescn : option Elf_Scn :=
  if malloc_ok sizeof_Elf_Scn
  then Some (Scn ELF_F_DIRTY ELF_F_DIRTY [] SHT_NULL 0 0 (Shdr 0 0 0 0 0 0 0 0 0 0))
  else None.

(** On failure the new section is not linked. *)
Definition _elf_first_scn : E bool := fun e =>
  match e_scns e with
  | _ :: _ => Ret (true, e)
  | [] =>
      match makescn with
      | None => Ret (false, e)
      | Some s =>
          '(ok, e') ← _elf_update_shnum 1 (set_scns [s] e);
          Ret (ok, if (ok : bool) then e' else set_scns [] e')
      end
  end.

Definition _buildscn : E (option nat) := fun e =>
  '(ok, e) ← _elf_first_scn e;
  if negb ok then Ret (None, e)
  else
    match makescn with
    | None => Ret (None, e)
    | Some s =>
        let index := length (e_scns e) in
        '(ok, e) ← _elf_update_shnum (Z.of_nat index + 1) e;
        if negb ok then Ret (None, e)
        else Ret (Some index, set_scns (e_scns e ++ [s]) e)
    end.

Definition elf_newscn : E (option nat) := fun e =>
  if negb (e_readable e) && bool_decide (e_ehdr e = None) then Ret (None, e)
  else if negb (bool_decide (e_kind e = ELF_K_ELF)) then Ret (None, e)
  else
    '(ok, e) ← cooked e;
    if negb ok then Ret (None, e) else _buildscn e.

(** ** Strings (strptr.c) *)

(** The buffer with a given offset, when the program controls [d_off]. *)
Fixpoint find_data_layout (fuel : nat) (scn : nat) (offset : Z) (data : option nat) :
    E (option (nat * Z)) :=
  match fuel with
  | O => liftE Spin
  | S fuel' =>
      data ← elf_getdata scn data;
      match data with
      | None => mret None
      | Some j =>
          sd ← data_of scn j;
          let n := d_off (sd_data sd) in
          if (n <=? offset) && (offset - n <? d_size (sd_data sd)) then mret (Some (j, n))
          else find_data_layout fuel' scn offset (Some j)
      end
  end.

(** The same when libelf lays out the section: [n] is the end of the buffers
    seen, an offset between two buffers is an error. *)
Fixpoint find_data (fuel : nat) (scn : nat) (offset n : Z) (data : option nat) :
    E (option (nat * Z)) :=
  match fuel with
  | O => liftE Spin
  | S fuel' =>
      data ← elf_getdata scn data;
      match data with
      | None => mret None
      | Some j =>
          sd ← data_of scn j;
          let a := d_align (sd_data sd) in
          let n := if 1 <? a then let m := wrap64 (n + (a - 1)) in m - m mod a else n in
          if offset <? n then mret None
          else if offset - n <? d_size (sd_data sd) then mret (Some (j, n))
          else find_data fuel' scn offset (wrap64 (n + d_size (sd_data sd))) (Some j)
      end
  end.

(** The string at the head of some bytes, without its end. *)
Fixpoint cstring (bs : list Z) : option (list Z) :=
  match bs with
  | [] => None
  | b :: bs' => if b =? 0 then Some [] else cons b <$> cstring bs'
  end.

(** The bytes from a pointer to the end of its object. *)
Definition buffer_from (b : buffer) (off : Z) : E (list Z) := fun e =>
  Ret (match b with
       | Image o => drop (Z.to_nat (o + off)) (e_data e)
       | Heap _ bs => drop (Z.to_nat off) bs
       end, e).

(** The string, as its reader sees it: without the check the reader may run
    out of the buffer. *)
Definition string_in (b : buffer) (size offset : Z) : E (option (list Z)) :=
  rest ← buffer_from b offset;
  if sanity_check_strptr
  then mret (cstring (take (Z.to_nat (Z.min (size - offset) (zlen rest))) rest))
  else s ← liftE (get (cstring rest)); mret (Some s).

Definition elf_strptr (section offset : Z) : E (option (list Z)) :=
  scn ← elf_getscn section;
  match scn with
  | None => mret None
  | Some scn =>
      if decide (scn = 0%nat) then mret None
      else
        c ← gets e_class;
        s ← scn_at scn;
        if negb (c =? ELFCLASS64) then mret None
        else if negb (sh_type (s_shdr64 s) =? SHT_STRTAB) then mret None
        else
          flags ← gets e_elf_flags;
          let fuel := S (S (length (s_data s))) in
          found ← (if negb (Z.land flags ELF_F_LAYOUT =? 0)
                   then find_data_layout fuel scn offset None
                   else find_data fuel scn offset 0 None);
          match found with
          | None => mret None
          | Some (j, n) =>
              sd ← data_of scn j;
              match d_buf (sd_data sd) with
              | None => mret None
              | Some b => string_in b (d_size (sd_data sd)) (offset - n)
              end
          end
  end.

End env.

(** The characters of a string as bytes, and back. *)
Definition char_byte (c : Ascii.ascii) : Z := Z.of_N (Ascii.N_of_ascii c).

Fixpoint string_bytes (s : string) : list Z :=
  match s with
  | EmptyString => []
  | String c s' => char_byte c :: string_bytes s'
  end.

Fixpoint bytes_string (bs : list Z) : string :=
  match bs with
  | [] => EmptyString
  | b :: bs' => String (Ascii.ascii_of_N (Z.to_N b)) (bytes_string bs')
  end.

End Lib.
