(* ===== verification/ElfUpdate.v ===== *)
(** * libelf: writing a file (src/lib/libelf/lib/update.c)

    [elf_update] checks or computes the layout of a 64-bit file
    ([_elf64_layout]) and, when something is dirty, writes headers and data
    ([_elf64_write]) to the file ([_elf_output]).  A macro
    [rewrite(var, val, flags)] is an edit that marks its header dirty when it
    changes something. *)

From S2P Require Import Prelude Machine CallSite LibElf.

#[local] Open Scope Z_scope.

Import Lib.

#[export] Instance Elf64_Ehdr_eq_dec : EqDecision Elf64_Ehdr.
Proof. solve_decision. Defined.
#[export] Instance Elf64_Shdr_eq_dec : EqDecision Elf64_Shdr.
Proof. solve_decision. Defined.

(** The system calls on the output file: which of them work. *)
Class Io := {
  ftruncate_ok : bool;
  lseek_ok : bool;
  xwrite_ok : bool;
  mmap_ok : bool;
}.

(** ** Edits of the headers *)

Definition set_ehsize (n : Z) (h : Elf64_Ehdr) : Elf64_Ehdr :=
  Ehdr (eh_ident h) (eh_type h) (eh_machine h) (eh_version h) (eh_entry h) (eh_phoff h)
    (eh_shoff h) (eh_flags h) n (eh_phentsize h) (eh_phnum h) (eh_shentsize h) (eh_shnum h)
    (eh_shstrndx h).
Definition set_phoff (off : Z) (h : Elf64_Ehdr) : Elf64_Ehdr :=
  Ehdr (eh_ident h) (eh_type h) (eh_machine h) (eh_version h) (eh_entry h) off (eh_shoff h)
    (eh_flags h) (eh_ehsize h) (eh_phentsize h) (eh_phnum h) (eh_shentsize h) (eh_shnum h)
    (eh_shstrndx h).
Definition set_phtable (num entsize : Z) (h : Elf64_Ehdr) : Elf64_Ehdr :=
  Ehdr (eh_ident h) (eh_type h) (eh_machine h) (eh_version h) (eh_entry h) (eh_phoff h)
    (eh_shoff h) (eh_flags h) (eh_ehsize h) entsize num (eh_shentsize h) (eh_shnum h)
    (eh_shstrndx h).
Definition set_shoff (off : Z) (h : Elf64_Ehdr) : Elf64_Ehdr :=
  Ehdr (eh_ident h) (eh_type h) (eh_machine h) (eh_version h) (eh_entry h) (eh_phoff h) off
    (eh_flags h) (eh_ehsize h) (eh_phentsize h) (eh_phnum h) (eh_shentsize h) (eh_shnum h)
    (eh_shstrndx h).
Definition set_shtable (num entsize : Z) (h : Elf64_Ehdr) : Elf64_Ehdr :=
  Ehdr (eh_ident h) (eh_type h) (eh_machine h) (eh_version h) (eh_entry h) (eh_phoff h)
    (eh_shoff h) (eh_flags h) (eh_ehsize h) (eh_phentsize h) (eh_phnum h) entsize num
    (eh_shstrndx h).

(** EI_MAG0..3, EI_CLASS, EI_DATA and EI_VERSION, and [e_version]. *)
Definition set_ident (encoding version : Z) (h : Elf64_Ehdr) : Elf64_Ehdr :=
  Ehdr (ELFMAG ++ [ELFCLASS64; encoding; version] ++ drop 7 (eh_ident h)) (eh_type h)
    (eh_machine h) version (eh_entry h) (eh_phoff h) (eh_shoff h) (eh_flags h) (eh_ehsize h)
    (eh_phentsize h) (eh_phnum h) (eh_shentsize h) (eh_shnum h) (eh_shstrndx h).

Definition set_entsize (n : Z) (r : Elf64_Shdr) : Elf64_Shdr :=
  Shdr (sh_name r) (sh_type r) (sh_flags r) (sh_addr r) (sh_offset r) (sh_size r) (sh_link r)
    (sh_info r) (sh_addralign r) n.
Definition set_place (off size align : Z) (r : Elf64_Shdr) : Elf64_Shdr :=
  Shdr (sh_name r) (sh_type r) (sh_flags r) (sh_addr r) off size (sh_link r)
    (sh_info r) align (sh_entsize r).
Definition set_size (size : Z) (r : Elf64_Shdr) : Elf64_Shdr :=
  set_place (sh_offset r) size (sh_addralign r) r.

(** [sh_info] of the header seen as a 32-bit one: the upper half of the 64-bit
    [sh_offset]. *)
Definition set_info32 (n : Z) (r : Elf64_Shdr) : Elf64_Shdr :=
  set_place (sh_offset r mod 2 ^ 32 + wrap32 n * 2 ^ 32) (sh_size r) (sh_addralign r) r.

Definition the_ehdr : E Elf64_Ehdr := fun e => h ← get (e_ehdr e); Ret (h, e).
Definition the_shdr (scn : nat) : E Elf64_Shdr := s ← scn_at scn; mret (s_shdr64 s).

Definition rewrite_ehdr (f : Elf64_Ehdr -> Elf64_Ehdr) : E unit :=
  h ← the_ehdr;
  if decide (f h = h) then mret tt
  else modify (set_ehdr (Some (f h)));; elf_flagehdr ELF_F_DIRTY.

Definition rewrite_shdr (scn : nat) (f : Elf64_Shdr -> Elf64_Shdr) : E unit :=
  r ← the_shdr scn;
  if decide (f r = r) then mret tt
  else upd_scn scn (set_shdr (f r));; elf_flagshdr scn ELF_F_DIRTY.

(** [align(var, val)] *)
Definition align (n a : Z) : Z :=
  if 1 <? a then let m := wrap64 (n + (a - 1)) in m - m mod a else n.

Section update.
Context `{Env}.

Definition layout_mode : E bool := gets (fun e => Z.land (e_elf_flags e) ELF_F_LAYOUT =? 0).

(** ** Layout *)

(** The buffers of a section: its length, alignment and flags. *)
Fixpoint data_layout (layout : bool) (scn : nat) (version type : Z) (n j : nat)
    (len algn flag : Z) : E (option (Z * Z * Z)) :=
  match n with
  | O => mret (Some (len, algn, flag))
  | S n' =>
      sd ← data_of scn j;
      let d := sd_data sd in
      if negb (valid_version (d_version d)) then mret None
      else
        match (if negb (d_size d =? 0) && negb (type =? SHT_NOBITS)
               then _elf64_xltsize (d_type d) (d_size d) (d_version d) version ELFDATA2LSB true
               else Some (d_size d)) with
        | None => mret None
        | Some fsize =>
            if layout then
              let len := align len (d_align d) in
              (if d_off d =? len then mret tt
               else upd_data scn j (fun sd =>
                 ScnData (Data (d_buf d) (d_type d) (d_size d) len (d_align d) (d_version d))
                   (sd_memdata sd) (Z.lor (sd_data_flags sd) ELF_F_DIRTY) (sd_freeme sd)
                   (sd_free_data sd)));;
              sd ← data_of scn j;
              data_layout layout scn version type n' (S j) (wrap64 (len + fsize))
                (Z.max algn (d_align d)) (Z.lor flag (sd_data_flags sd))
            else
              data_layout layout scn version type n' (S j)
                (Z.max len (wrap64 (d_off d + fsize))) algn (Z.lor flag (sd_data_flags sd))
        end
  end.

Definition scn_data_layout (scn : nat) (version type flag : Z) : E (option (Z * Z * Z)) :=
  layout ← layout_mode;
  s ← scn_at scn;
  match s_data s with
  | [] => mret (Some (0, 1, flag))
  | _ :: _ =>
      data ← elf_getdata scn None;
      match data with
      | None => mret None
      | Some _ => data_layout layout scn version type (length (s_data s)) 0 0 1 flag
      end
  end.

Definition scn_entsize (stype : Z) : Z :=
  match _elf_scn_type stype with
  | ELF_T_BYTE | ELF_T_VDEF | ELF_T_VNEED => 0
  | type => fsize type
  end.

(** The end of a section in the file. *)
Definition shdr_end (r : Elf64_Shdr) : Z :=
  if sh_type r =? SHT_NOBITS then sh_offset r else wrap64 (sh_offset r + sh_size r).

Definition overlaps (r r2 : Elf64_Shdr) : bool :=
  (sh_offset r2 <? shdr_end r) && (sh_offset r <? shdr_end r2).

(** One section: the end of the file so far, and the flags. *)
Definition layout_scn (layout allow_overlap : bool) (version : Z) (scn : nat) (off flag : Z) :
    E (option (Z * Z)) :=
  s ← scn_at scn;
  let flag := Z.lor flag (s_scn_flags s) in
  let done off flag := s ← scn_at scn; mret (Some (off, Z.lor flag (s_shdr_flags s))) in
  if decide (scn = 0%nat) then
    rewrite_shdr scn (set_entsize 0);;
    (if layout then rewrite_shdr scn (set_place 0 0 0) else mret tt);;
    done off flag
  else if sh_type (s_shdr64 s) =? SHT_NULL then done off flag
  else
    let type := sh_type (s_shdr64 s) in
    r ← scn_data_layout scn version type flag;
    match r with
    | None => mret None
    | Some (len, scn_align, flag) =>
        if len =? u64_max then mret None else
        h ← the_shdr scn;
        let entsize := scn_entsize type in
        (if (sh_entsize h =? 0) && (1 <? entsize) then rewrite_shdr scn (set_entsize entsize)
         else mret tt);;
        if layout then
          let off := align off scn_align in
          rewrite_shdr scn (set_place off len scn_align);;
          done (if type =? SHT_NOBITS then off else wrap64 (off + len)) flag
        else if sh_size h <? len then mret None
        else
          scns ← gets e_scns;
          if negb allow_overlap && (sh_offset h <? off)
             && existsb (fun s2 => overlaps h (s_shdr64 s2)) (take scn scns)
          then mret None
          else done (Z.max off (shdr_end h)) flag
    end.

Fixpoint layout_scns (layout allow_overlap : bool) (version : Z) (n scn : nat) (off flag : Z) :
    E (option (Z * Z)) :=
  match n with
  | O => mret (Some (off, flag))
  | S n' =>
      r ← layout_scn layout allow_overlap version scn off flag;
      match r with
      | None => mret None
      | Some (off, flag) => layout_scns layout allow_overlap version n' (S scn) off flag
      end
  end.

(** The program header table: its end. *)
Definition layout_phdrs (layout : bool) (off : Z) : E Z :=
  h ← the_ehdr;
  phnum ← gets (fun e => wrap32 (e_phnum e));
  if negb (phnum =? 0) then
    if layout then
      let off := align off 8 in
      rewrite_ehdr (set_phoff off);; mret (wrap64 (off + phnum * fsize ELF_T_PHDR))
    else mret (Z.max off (wrap64 (eh_phoff h + phnum * fsize ELF_T_PHDR)))
  else (if layout then rewrite_ehdr (set_phoff 0) else mret tt);; mret off.

(** The section header table. *)
Definition layout_shdrs (layout : bool) (off : Z) : E Z :=
  h ← the_ehdr;
  shnum ← gets (fun e => wrap32 (zlen (e_scns e)));
  if negb (shnum =? 0) then
    if layout then
      let off := align off 8 in
      rewrite_ehdr (set_shoff off);; mret (wrap64 (off + shnum * fsize ELF_T_SHDR))
    else mret (Z.max off (wrap64 (eh_shoff h + shnum * fsize ELF_T_SHDR)))
  else (if layout then rewrite_ehdr (set_shoff 0) else mret tt);; mret off.

(** The length of the file and the flags that say whether to write it. *)
Definition _elf64_layout : E (option (Z * Z)) :=
  layout ← layout_mode;
  allow_overlap ← gets (fun e => negb (Z.land (e_elf_flags e) ELF_F_LAYOUT_OVERLAP =? 0));
  flag ← gets (fun e => Z.lor (e_elf_flags e) (e_phdr_flags e));
  h ← the_ehdr;
  let version := if eh_version h =? EV_NONE then EV_CURRENT else eh_version h in
  if negb (valid_version version) then mret None else
  data ← liftE (get (znth (eh_ident h) EI_DATA));
  let encoding := if data =? ELFDATANONE then ELFDATA2LSB else data in
  if negb (valid_encoding encoding) then mret None else
  rewrite_ehdr (set_ehsize (fsize ELF_T_EHDR));;
  off ← layout_phdrs layout (fsize ELF_T_EHDR);
  phnum ← gets (fun e => wrap32 (e_phnum e));
  let entsize := if phnum =? 0 then 0 else fsize ELF_T_PHDR in
  flag ← (if PN_XNUM <=? phnum
          then rewrite_shdr 0 (set_info32 phnum);; s ← scn_at 0; mret (Z.lor flag (s_shdr_flags s))
          else mret flag);
  rewrite_ehdr (set_phtable (if PN_XNUM <=? phnum then PN_XNUM else phnum) entsize);;
  n ← gets (fun e => length (e_scns e));
  r ← layout_scns layout allow_overlap version n 0 off flag;
  match r with
  | None => mret None
  | Some (off, flag) =>
      off ← layout_shdrs layout off;
      let shnum := wrap32 (Z.of_nat n) in
      let entsize := if shnum =? 0 then 0 else fsize ELF_T_SHDR in
      flag ← (if SHN_LORESERVE <=? shnum
              then rewrite_shdr 0 (set_size shnum);; s ← scn_at 0;
                   mret (Z.lor flag (s_shdr_flags s))
              else mret flag);
      rewrite_ehdr (set_shtable (if SHN_LORESERVE <=? shnum then 0 else shnum) entsize);;
      rewrite_ehdr (set_ident encoding version);;
      ef ← gets e_ehdr_flags;
      mret (Some (off, Z.lor flag ef))
  end.

(** ** Writing *)

(** Translate into the output at [off]; [None] is an error of the translation,
    a write outside the output is undefined. *)
Definition put (out : list Z) (off : Z) (type : Elf_Type) (sv : Z) (src : list Z)
    (dsize dv encode : Z) : outcome (option (list Z)) :=
  match elf64_xlate type sv src dsize dv encode with
  | None => Ret None
  | Some [] => Ret (Some out)
  | Some bs => l ← splice out off bs; Ret (Some l)
  end.

(** Results of the write functions: whether it worked, and the output. *)
Definition write_data (encode dv base : Z) (d : Elf_Data) (out : list Z) : E (bool * list Z) :=
  if d_size d =? 0 then mret (true, out)
  else
    match d_buf d with
    | None => mret (false, out)
    | Some b =>
        match _elf64_xltsize (d_type d) (d_size d) (d_version d) dv ELFDATA2LSB true with
        | None => mret (false, out)
        | Some dsize =>
            src ← buffer_bytes b (d_size d);
            r ← liftE (put out (base + d_off d) (d_type d) (d_version d) src dsize dv encode);
            mret (match r with Some out' => (true, out') | None => (false, out) end)
        end
    end.

Fixpoint write_datas (encode dv base : Z) (l : list Scn_Data) (out : list Z) :
    E (bool * list Z) :=
  match l with
  | [] => mret (true, out)
  | sd :: l' =>
      r ← write_data encode dv base (sd_data sd) out;
      if (r.1 : bool) then write_datas encode dv base l' r.2 else mret r
  end.

(** The header of a section, then its data. *)
Definition write_scn (h : Elf64_Ehdr) (encode : Z) (scn : nat) (out : list Z) :
    E (bool * list Z) :=
  shdr ← the_shdr scn;
  r ← liftE (put out (eh_shoff h + Z.of_nat scn * eh_shentsize h) ELF_T_SHDR EV_CURRENT
         (encode_shdr shdr) (eh_shentsize h) (eh_version h) encode);
  match r with
  | None => mret (false, out)
  | Some out =>
      if decide (scn = 0%nat) then mret (true, out)
      else if (sh_type shdr =? SHT_NULL) || (sh_type shdr =? SHT_NOBITS) then mret (true, out)
      else
        s ← scn_at scn;
        data ← (match s_data s with [] => mret (Some 0%nat) | _ => elf_getdata scn None end);
        match data with
        | None => mret (false, out)
        | Some _ =>
            s ← scn_at scn;
            write_datas encode (eh_version h) (sh_offset shdr) (s_data s) out
        end
  end.

Fixpoint write_scns (h : Elf64_Ehdr) (encode : Z) (n scn : nat) (out : list Z) :
    E (bool * list Z) :=
  match n with
  | O => mret (true, out)
  | S n' =>
      r ← write_scn h encode scn out;
      if (r.1 : bool) then write_scns h encode n' (S scn) r.2 else mret r
  end.

(** The memory image grows with the file; nothing is copied to it. *)
Definition _elf_update_pointers (len : Z) : E bool := fun e =>
  if len <=? zlen (e_data e) then Ret (true, e)
  else if malloc_ok len
  then Ret (true, set_data (e_data e ++ (heap_junk <$>
                              seq (length (e_data e)) (Z.to_nat (len - zlen (e_data e))))) e)
  else Ret (false, e).

(** Nothing is dirty any more, and the file is as long as it was written. *)
Definition clean_scn (readable : bool) (s : Elf_Scn) : Elf_Scn :=
  let clear f := Z.ldiff f ELF_F_DIRTY in
  let r := s_shdr64 s in
  Scn (clear (s_scn_flags s)) (clear (s_shdr_flags s))
    ((fun sd => ScnData (sd_data sd) (sd_memdata sd) (clear (sd_data_flags sd)) (sd_freeme sd)
                  (sd_free_data sd)) <$> s_data s)
    (if readable then sh_type r else s_type s) (if readable then sh_offset r else s_offset s)
    (if readable then sh_size r else s_size s) r.

Definition written (h : Elf64_Ehdr) (len : Z) (e : Elf) : Elf :=
  let clear f := Z.ldiff f ELF_F_DIRTY in
  MkElf len (e_kind e) (e_data e) (e_class e) (default 0 (znth (eh_ident h) EI_DATA))
    (default 0 (znth (eh_ident h) EI_VERSION)) (e_ehdr e) (e_phdr e) (e_phnum e)
    (clean_scn (e_readable e) <$> e_scns e) (clear (e_elf_flags e)) (clear (e_ehdr_flags e))
    (clear (e_phdr_flags e)) (e_readable e) (e_writable e).

Definition _elf64_write (out : list Z) (len : Z) : E (bool * list Z) :=
  h ← the_ehdr;
  encode ← liftE (get (znth (eh_ident h) EI_DATA));
  r ← liftE (put out 0 ELF_T_EHDR EV_CURRENT (encode_ehdr h) (eh_ehsize h) (eh_version h) encode);
  match r with
  | None => mret (false, out)
  | Some out =>
      phnum ← gets e_phnum;
      phdr ← gets e_phdr;
      r ← (if phnum =? 0 then mret (Some out)
           else
             src ← liftE (slice phdr 0 (phnum * fsize ELF_T_PHDR));
             liftE (put out (eh_phoff h) ELF_T_PHDR EV_CURRENT src (phnum * eh_phentsize h)
               (eh_version h) encode));
      match r with
      | None => mret (false, out)
      | Some out =>
          n ← gets (fun e => length (e_scns e));
          r ← write_scns h encode n 0 out;
          if negb r.1 then mret r
          else
            readable ← gets e_readable;
            ok ← (if (readable : bool) then _elf_update_pointers len else mret true);
            if negb ok then mret (false, r.2) else modify (written h len);; mret (true, r.2)
      end
  end.

Context `{Io}.

Definition zeros (n : Z) : list Z := replicate (Z.to_nat n) 0.

(** The file [ftruncate] or a write past its end leaves. *)
Definition resized (file : list Z) (len : Z) : option (list Z) :=
  if ftruncate_ok then Some (zeros len)
  else if lseek_ok && xwrite_ok
  then let n := Z.to_nat (len - 1) in
       Some (take n (file ++ zeros len) ++ [0] ++ drop (S n) file)
  else None.

(** The new length ([None] on error) and the new content of the file. *)
Definition _elf_output (file : list Z) (len : Z) : E (option Z * list Z) :=
  match resized file len with
  | None => mret (None, if ftruncate_ok then [] else file)
  | Some file =>
      let rest := drop (Z.to_nat len) file in
      if mmap_ok then
        r ← _elf64_write (take (Z.to_nat len) file) len;
        mret (if (r.1 : bool) then Some len else None, r.2 ++ rest)
      else if negb (malloc_ok len) then mret (None, file)
      else
        r ← _elf64_write (zeros len) len;
        mret (if negb r.1 then (None, file)
              else if lseek_ok && xwrite_ok then (Some len, r.2 ++ rest) else (None, file))
  end.

(** [elf_update(elf, ELF_C_WRITE)] *)
Definition elf_update (file : list Z) : E (option Z * list Z) := fun e =>
  if negb (e_writable e) then Ret ((None, file), e)
  else if bool_decide (e_ehdr e = None) then Ret ((None, file), e)
  else if negb (bool_decide (e_kind e = ELF_K_ELF)) then Ret ((None, file), e)
  else if e_class e =? ELFCLASS64 then
    (r ← _elf64_layout;
     match r with
     | None => mret (None, file)
     | Some (len, flag) =>
         if len =? u64_max then mret (None, file)
         else if negb (Z.land flag ELF_F_DIRTY =? 0) then _elf_output file len
         else mret (Some len, file)
     end) e
  else Ret ((None, file), e).

End update.
