(* ===== verification/ElfUtil.v ===== *)
(** * The metadata tool's ELF helpers (src/tool/stack_metadata/src/util.c)

    Finding sections and symbols, reading section data, adding and updating
    sections, over the libelf of [LibElf].  The state of the tool is its open
    descriptor, the file, and what it allocated for libelf; [verbose] output is
    left out. *)

From S2P Require Import Prelude Machine CallSite LibElf ElfUpdate.
From stdpp Require Import strings.

#[local] Open Scope Z_scope.

Import Lib.

Module Tool.

(** include/retval.h *)
Definition SUCCESS : Z := 0.
Definition INVALID_ARGUMENT : Z := 1.
Definition INVALID_ELF_VERSION : Z := 3.
Definition OPEN_FILE_FAILED : Z := 4.
Definition INVALID_ELF : Z := 5.
Definition OPEN_ELF_FAILED : Z := 6.
Definition LAYOUT_CONTROL_FAILED : Z := 7.
Definition READ_ELF_FAILED : Z := 8.
Definition FIND_SECTION_FAILED : Z := 9.
Definition WRITE_ELF_FAILED : Z := 10.
Definition ADD_SECTION_FAILED : Z := 11.
Definition UPDATE_SECTION_FAILED : Z := 12.
Definition CREATE_METADATA_FAILED : Z := 13.
Definition INVALID_METADATA : Z := 14.

Definition BUF_SIZE : Z := 512.
Definition EM_X86_64 : Z := 62.
Definition EM_AARCH64 : Z := 183.

(** The tool: the content of the file it works on, the open file descriptors,
    the libelf descriptor, the live [struct bin]s, the next heap address, the
    static [old_shstrtab] of [add_section_name] and the string tables freed. *)
Record tool := MkTool {
  t_file : list Z;
  t_fds : list Z;
  t_elf : option Elf;
  t_bins : list Z;
  t_next : Z;
  t_old_shstrtab : Z;
  t_freed : list Z;
}.

Definition T (A : Type) : Type := tool -> outcome (A * tool).

#[export] Instance T_ret : MRet T := fun A a t => Ret (a, t).

#[export] Instance T_bind : MBind T := fun A B f c t =>
  match c t with
  | Ret (a, t') => f a t'
  | Exit n => Exit n
  | Fault => Fault
  | Spin => Spin
  end.

Definition liftT {A} (o : outcome A) : T A := fun t => a ← o; Ret (a, t).

Definition set_elf (e : option Elf) (t : tool) : tool :=
  MkTool (t_file t) (t_fds t) e (t_bins t) (t_next t) (t_old_shstrtab t) (t_freed t).

(** A call of libelf on the open descriptor. *)
Definition on_elf {A} (c : E A) : T A := fun t =>
  e ← get (t_elf t); '(a, e') ← c e; Ret (a, set_elf (Some e') t).

Section util.
Context `{Env}.

(** An allocation whose result is not checked. *)
Definition xmalloc (bytes : list Z) : T buffer := fun t =>
  if malloc_ok (zlen bytes)
  then Ret (Heap (t_next t) bytes,
            MkTool (t_file t) (t_fds t) (t_elf t) (t_bins t) (t_next t + 16 + zlen bytes)
              (t_old_shstrtab t) (t_freed t))
  else Fault.

(** ** Headers *)

Definition check_elf_ehdr : E bool :=
  kind ← gets elf_kind;
  if negb (bool_decide (kind = ELF_K_ELF)) then mret false else
  class ← gets gelf_getclass;
  if negb (class =? ELFCLASS64) then mret false else
  id ← elf_getident;
  match id with
  | None => mret false
  | Some id =>
      data ← liftE (get (znth id EI_DATA));
      if negb (data =? ELFDATA2LSB) then mret false else
      ehdr ← elf64_getehdr;
      match ehdr with
      | None => mret false
      | Some ehdr =>
          mret (negb (negb (eh_machine ehdr =? EM_X86_64)
                      && negb (eh_machine ehdr =? EM_AARCH64)))
      end
  end.

(** ** Searches *)

(** The loops over the sections, from the one after [scn]: the first that
    [test] accepts; [None] when a header cannot be read. *)
Fixpoint find_section (test : Elf64_Shdr -> E bool) (fuel : nat) (scn : option nat) :
    E (option nat) :=
  match fuel with
  | O => liftE Spin
  | S fuel' =>
      scn ← elf_nextscn scn;
      match scn with
      | None => mret None
      | Some i =>
          shdr ← elf64_getshdr i;
          match shdr with
          | None => mret None
          | Some shdr =>
              found ← test shdr;
              if (found : bool) then mret (Some i) else find_section test fuel' (Some i)
          end
      end
  end.

(** One more step than there are sections: the headers may not be read yet. *)
Definition search (test : Elf64_Shdr -> E bool) : E (option nat) :=
  _ ← elf_getshdrnum;
  n ← gets (fun e => length (e_scns e));
  find_section test (S n) None.

Definition has_name (shdrstrndx : Z) (name : list Z) (shdr : Elf64_Shdr) : E bool :=
  sec_name ← elf_strptr shdrstrndx (sh_name shdr);
  mret (bool_decide (sec_name = Some name)).

Definition get_section_by_name (name : list Z) : E (option nat) :=
  ndx ← elf_getshdrstrndx;
  match ndx with
  | None => mret None
  | Some shdrstrndx => search (has_name shdrstrndx name)
  end.

Definition get_section_by_offset (offset : Z) : E (option nat) :=
  search (fun shdr => mret (sh_offset shdr =? offset)).

Definition get_sym_tab : E (option nat) :=
  search (fun shdr => mret (sh_type shdr =? SHT_SYMTAB)).

(** ** Symbols *)

Record GElf_Sym := Sym {
  st_name : Z;
  st_info : Z;
  st_other : Z;
  st_shndx : Z;
  st_value : Z;
  st_size : Z;
}.

Definition no_sym : GElf_Sym := Sym 0 0 0 0 0 0.

(** [gelf_getsym] (gelftrans.c) *)
Definition gelf_getsym (scn j : nat) (ndx : Z) : E (option GElf_Sym) :=
  sd ← data_of scn j;
  let d := sd_data sd in
  if negb (bool_decide (d_type d = ELF_T_SYM)) then mret None
  else if d_size d <? (ndx + 1) * fsize ELF_T_SYM then mret None
  else
    match d_buf d with
    | None => mret None
    | Some b =>
        bs ← buffer_bytes b ((ndx + 1) * fsize ELF_T_SYM);
        '(vs, _) ← liftE (get (take_fields (type_fields ELF_T_SYM)
                                 (drop (Z.to_nat (ndx * fsize ELF_T_SYM)) bs)));
        match vs with
        | [na; inf; ot; sx; va; sz] => mret (Some (Sym na inf ot sx va sz))
        | _ => liftE Fault
        end
    end.

(** The loops over the symbols: [stop] decides on one symbol. *)
Fixpoint find_sym (stop : GElf_Sym -> E bool) (scn j : nat) (n : nat) (i : Z) : E GElf_Sym :=
  match n with
  | O => mret no_sym
  | S n' =>
      sym ← gelf_getsym scn j i;
      match sym with
      | None => mret no_sym
      | Some sym =>
          found ← stop sym;
          if (found : bool) then mret sym else find_sym stop scn j n' (i + 1)
      end
  end.

(** Division by an entry size of zero traps. *)
Definition scan_symbols (stop : Elf64_Shdr -> GElf_Sym -> E bool) : E GElf_Sym :=
  symtab ← get_sym_tab;
  match symtab with
  | None => mret no_sym
  | Some symtab =>
      shdr ← elf64_getshdr symtab;
      match shdr with
      | None => mret no_sym
      | Some shdr =>
          data ← elf_getdata symtab None;
          match data with
          | None => mret no_sym
          | Some j =>
              if sh_entsize shdr =? 0 then liftE Fault
              else find_sym (stop shdr) symtab j (Z.to_nat (sh_size shdr / sh_entsize shdr)) 0
          end
      end
  end.

(** [strncmp(name, sym_name, BUF_SIZE)] *)
Definition same_prefix (a b : list Z) : bool :=
  bool_decide (take (Z.to_nat BUF_SIZE) a = take (Z.to_nat BUF_SIZE) b).

Definition get_sym_by_name (name : list Z) : E GElf_Sym :=
  scan_symbols (fun shdr sym =>
    sym_name ← elf_strptr (sh_link shdr) (st_name sym);
    mret (match sym_name with Some s => same_prefix name s | None => false end)).

Definition get_sym_by_addr (addr type : Z) : E GElf_Sym :=
  scan_symbols (fun _ sym =>
    mret ((st_value sym =? addr)
          && ((type =? 255) || (Z.land (st_info sym) 15 =? type)))).

Definition get_sym_name (sym : GElf_Sym) : E (option (list Z)) :=
  symtab ← get_sym_tab;
  match symtab with
  | None => mret None
  | Some symtab =>
      shdr ← elf64_getshdr symtab;
      match shdr with
      | None => mret None
      | Some shdr => elf_strptr (sh_link shdr) (st_name sym)
      end
  end.

(** ** Section data *)

Fixpoint count_blocks (fuel : nat) (s : nat) (num_blocks : Z) (data : option nat) : E Z :=
  match fuel with
  | O => liftE Spin
  | S fuel' =>
      data ← elf_getdata s data;
      match data with
      | None => mret num_blocks
      | Some j => count_blocks fuel' s (num_blocks + 1) (Some j)
      end
  end.

Definition get_num_data_blocks (s : nat) : E Z :=
  scn ← scn_at s; count_blocks (S (S (length (s_data scn)))) s 0 None.

Definition get_section_data (scn : nat) : E (option buffer) :=
  n ← get_num_data_blocks scn;
  if 1 <? n then mret None
  else
    data ← elf_getdata scn None;
    match data with
    | None => mret None
    | Some j => sd ← data_of scn j; mret (d_buf (sd_data sd))
    end.

(** ** Adding and updating sections *)

Definition edit_data (scn j : nat) (f : Elf_Data -> Elf_Data) : E unit :=
  upd_data scn j (fun sd => set_sd_data (f (sd_data sd)) sd).

Definition edit_shdr (scn : nat) (f : Elf64_Shdr -> Elf64_Shdr) : E unit :=
  upd_scn scn (fun s => set_shdr (f (s_shdr64 s)) s).

(** [d_buf] and [d_size] *)
Definition set_buf (b : buffer) (size : Z) (d : Elf_Data) : Elf_Data :=
  Data (Some b) (d_type d) size (d_off d) (d_align d) (d_version d).

(** A second free of one table is undefined. *)
Definition free_shstrtab (p : Z) : T unit := fun t =>
  if bool_decide (p ∈ t_freed t) then Fault
  else Ret (tt, MkTool (t_file t) (t_fds t) (t_elf t) (t_bins t) (t_next t)
                  (t_old_shstrtab t) (p :: t_freed t)).

Definition set_old_shstrtab (p : Z) : T unit := fun t =>
  Ret (tt, MkTool (t_file t) (t_fds t) (t_elf t) (t_bins t) (t_next t) p (t_freed t)).

Definition address (b : option buffer) : Z :=
  match b with Some (Heap p _) => p | _ => 0 end.

(** The offset of the name in the new table; 0 is an error. *)
Definition add_section_name (name : list Z) : T Z :=
  shdrstrndx ← on_elf elf_getshdrstrndx;
  match shdrstrndx with
  | None => mret 0
  | Some shdrstrndx =>
  scn ← on_elf (elf_getscn shdrstrndx);
  match scn with
  | None => mret 0
  | Some scn =>
  shdr ← on_elf (elf64_getshdr scn);
  match shdr with
  | None => mret 0
  | Some _ =>
  data ← on_elf (elf_getdata scn None);
  match data with
  | None => mret 0
  | Some j =>
      sd ← on_elf (data_of scn j);
      let size := d_size (sd_data sd) in
      let name := take (Z.to_nat BUF_SIZE) name in
      let shstrtab_size := wrap64 (size + zlen name + 1) in
      old ← (match d_buf (sd_data sd) with
             | Some b => on_elf (buffer_bytes b size)
             | None => liftT (if size =? 0 then Ret [] else Fault)
             end);
      shstrtab ← xmalloc (old ++ name ++ [0]);
      old_shstrtab ← (fun t => Ret (t_old_shstrtab t, t));
      (if negb (old_shstrtab =? 0) && (address (d_buf (sd_data sd)) =? old_shstrtab)
       then free_shstrtab old_shstrtab else mret tt);;
      set_old_shstrtab (address (Some shstrtab));;
      on_elf (edit_data scn j (set_buf shstrtab shstrtab_size));;
      on_elf (edit_shdr scn (set_size shstrtab_size));;
      on_elf (elf_flagdata scn j ELF_F_DIRTY);;
      on_elf (elf_flagshdr scn ELF_F_DIRTY);;
      mret (wrap64 (shstrtab_size - zlen name - 1))
  end end end end.

Definition add_section (name : list Z) (num_entries entry_size : Z) (buf : option buffer) :
    T Z :=
  match buf with
  | None => mret INVALID_ARGUMENT
  | Some buf =>
  name_off ← add_section_name name;
  if name_off =? 0 then mret WRITE_ELF_FAILED else
  scn ← on_elf elf_newscn;
  match scn with
  | None => mret ADD_SECTION_FAILED
  | Some scn =>
  shdr ← on_elf (elf64_getshdr scn);
  match shdr with
  | None => mret ADD_SECTION_FAILED
  | Some _ =>
  data ← on_elf (elf_newdata scn);
  match data with
  | None => mret ADD_SECTION_FAILED
  | Some j =>
      let size := wrap64 (entry_size * num_entries) in
      on_elf (edit_data scn j (fun _ => Data (Some buf) ELF_T_WORD size 0 8 EV_CURRENT));;
      on_elf (edit_shdr scn (fun r =>
        Shdr (wrap32 name_off) SHT_PROGBITS 0 (sh_addr r) (sh_offset r) size (sh_link r)
          (sh_info r) (sh_addralign r) entry_size));;
      mret SUCCESS
  end end end end.

Definition update_section (scn : nat) (num_entries entry_size : Z) (buf : option buffer) :
    T Z :=
  match buf with
  | None => mret INVALID_ARGUMENT
  | Some buf =>
  data ← on_elf (elf_getdata scn None);
  match data with
  | None => mret UPDATE_SECTION_FAILED
  | Some j =>
  shdr ← on_elf (elf64_getshdr scn);
  match shdr with
  | None => mret UPDATE_SECTION_FAILED
  | Some _ =>
      let size := wrap64 (entry_size * num_entries) in
      on_elf (edit_data scn j (set_buf buf size));;
      on_elf (edit_shdr scn (set_size size));;
      on_elf (elf_flagdata scn j ELF_F_DIRTY);;
      on_elf (elf_flagshdr scn ELF_F_DIRTY);;
      mret SUCCESS
  end end end.

End util.
End Tool.
