(* ===== verification/WriteElf.v ===== *)
(** * The metadata tool: sections, binaries and main
      (src/tool/stack_metadata/src/write.c, bin.c, stackmap.c and main.c)

    What the tool does to the ELF file: the sections of [WriteMeta] and the
    stack maps of [StackMap] through the ELF helpers of [ElfUtil].  Every call
    of libelf may fail, and every failure has its return code. *)

From S2P Require Import Prelude Machine CallSite StackMap WriteMeta LibElf ElfUpdate ElfUtil.
From stdpp Require Import strings.

#[local] Open Scope Z_scope.

Import Lib Tool.

(** include/het_bin.h *)
Definition SECTION_PREFIX : list Z := string_bytes ".stack_transform".
Definition SECTION_UNWIND_ADDR : list Z := string_bytes "unwind_arange".
Definition SECTION_ID : list Z := string_bytes "id".
Definition SECTION_ADDR : list Z := string_bytes "addr".
Definition SECTION_LIVE : list Z := string_bytes "live".
Definition SECTION_ARCH : list Z := string_bytes "arch_const".
Definition STACKMAP_SECTION : list Z := string_bytes ".llvm_stackmaps".

(** [snprintf(buf, BUF_SIZE, "%s.%s", sec, suffix)] *)
Definition section_name (sec suffix : list Z) : list Z :=
  take (Z.to_nat (BUF_SIZE - 1)) (sec ++ string_bytes "." ++ suffix).

(** [struct bin] *)
Record bin := Bin {
  b_self : Z;
  b_arch : Z;
  b_fd : Z;
}.

(** What opening and reading the file give, and where its image is in memory. *)
Class BinEnv := {
  open_rdwr : list Z -> Z;
  read_ok : bool;
  image_addr : Z;
}.

Section write.
Context `{Env} `{Io} `{BinEnv} `{Qsort}.

(** ** Stack maps (stackmap.c) *)

(** The address of a buffer. *)
Definition buffer_addr (b : buffer) : Z :=
  match b with Image off => image_addr + off | Heap p _ => p end.

Definition init_stackmap : T (Z * list stack_map_section * list Z) :=
  scn ← on_elf (get_section_by_name STACKMAP_SECTION);
  match scn with
  | None => mret (FIND_SECTION_FAILED, [], [])
  | Some scn =>
  shdr ← on_elf (elf64_getshdr scn);
  match shdr with
  | None => mret (READ_ELF_FAILED, [], [])
  | Some shdr =>
  n ← on_elf (get_num_data_blocks scn);
  if negb (n =? 1) then mret (READ_ELF_FAILED, [], []) else
  data ← on_elf (elf_getdata scn None);
  match data with
  | None => mret (READ_ELF_FAILED, [], [])
  | Some j =>
      sd ← on_elf (data_of scn j);
      match d_buf (sd_data sd) with
      | None => liftT (if sh_size shdr =? 0 then Ret (SUCCESS, [], []) else Fault)
      | Some b =>
          buf ← on_elf (buffer_bytes b (d_size (sd_data sd)));
          num_sm ← liftT (count_maps (S (length buf)) (buffer_addr b) buf (sh_size shdr) 0 0);
          sm ← liftT (read_maps (buffer_addr b) buf (Z.to_nat num_sm) 0);
          mret (SUCCESS, sm, buf)
      end
  end end end.

(** ** write.c *)

(** The array seen as elements of [size] bytes. *)
Fixpoint elements (size : nat) (n : nat) (bs : list Z) : list (list Z) :=
  match n with
  | O => []
  | S n' => take size bs :: elements size n' (drop size bs)
  end.

(** [sort_unwind_addr] reads the first field of two elements. *)
Definition cmp_unwind_addr (a b : list Z) : Z :=
  compare_key (fun u => le_value (take 8 u)) a b.

(** The loop over the records, on their bytes. *)
Definition renumbered (num_records : Z) (bs : list Z) : list Z :=
  encode_section encode_unwind_addr (renumber 0 (Init.view decode_unwind_addr bs)).

(** Storing into a buffer: the image, or the allocation itself. *)
Definition store_buffer (b : buffer) (bs : list Z) : E buffer := fun e =>
  match b with
  | Image off => l ← splice (e_data e) off bs; Ret (b, set_data l e)
  | Heap p old => l ← splice old 0 bs; Ret (Heap p l, e)
  end.

Definition update_function_addr (sec : list Z) : T Z :=
  scn ← on_elf (get_section_by_name sec);
  match scn with
  | None => mret FIND_SECTION_FAILED
  | Some scn =>
  shdr ← on_elf (elf64_getshdr scn);
  match shdr with
  | None => mret READ_ELF_FAILED
  | Some shdr =>
  if (sh_size shdr =? 0) || (sh_entsize shdr =? 0) then mret INVALID_METADATA else
  ua ← on_elf (get_section_data scn);
  match ua with
  | None => mret READ_ELF_FAILED
  | Some ua =>
      let num_records := sh_size shdr / sh_entsize shdr in
      let record_size := sh_entsize shdr in
      bs ← on_elf (buffer_bytes ua (num_records * 16));
      ua ← on_elf (store_buffer ua (renumbered num_records bs));
      if record_size <? 8 then liftT Fault else
      bs ← on_elf (buffer_bytes ua (num_records * record_size));
      let sorted := qsort cmp_unwind_addr
                      (elements (Z.to_nat record_size) (Z.to_nat num_records) bs) in
      ua ← on_elf (store_buffer ua (concat sorted));
      update_section scn num_records record_size (Some ua)
  end end end.

(** Update the section with this name, or add it. *)
Definition put_section (name : list Z) (num_entries entry_size : Z) (buf : option buffer) :
    T Z :=
  scn ← on_elf (get_section_by_name name);
  match scn with
  | Some scn => update_section scn num_entries entry_size buf
  | None => add_section name num_entries entry_size buf
  end.

(** An array of records handed to libelf; the allocation of none of them may
    be NULL. *)
Definition array (bytes : list Z) : T (option buffer) :=
  if (zlen bytes =? 0) && negb (malloc_ok 0) then mret None
  else b ← xmalloc bytes; mret (Some b).

(** The loop that moves the last [n] sections, from [cur_offset] on. *)
Fixpoint place_last (n : nat) (i cur_offset : Z) : T (Z + Z) :=
  match n with
  | O => mret (inr cur_offset)
  | S n' =>
      scn ← on_elf (elf_getscn i);
      match scn with
      | None => mret (inl READ_ELF_FAILED)
      | Some scn =>
      shdr ← on_elf (elf64_getshdr scn);
      match shdr with
      | None => mret (inl READ_ELF_FAILED)
      | Some shdr =>
          on_elf (edit_shdr scn (fun r => set_place cur_offset (sh_size r) (sh_addralign r) r));;
          place_last n' (i + 1) (wrap64 (cur_offset + sh_size shdr))
      end end
  end.

Definition update_file : T (option Z) := fun t =>
  '(r, t') ← on_elf (elf_update (t_file t)) t;
  Ret (r.1, MkTool r.2 (t_fds t') (t_elf t') (t_bins t') (t_next t') (t_old_shstrtab t')
              (t_freed t')).

(** The end of [add_sections]: the places of the [added] sections, the section
    header table and the file. *)
Definition place_and_write (added : nat) : T Z :=
  num_shdr ← on_elf elf_getshdrnum;
  match num_shdr with
  | None => mret READ_ELF_FAILED
  | Some num_shdr =>
  scn ← on_elf (elf_getscn (wrap64 (num_shdr - (Z.of_nat added + 1))));
  match scn with
  | None => mret READ_ELF_FAILED
  | Some scn =>
  shdr ← on_elf (elf64_getshdr scn);
  match shdr with
  | None => mret READ_ELF_FAILED
  | Some shdr =>
      r ← place_last added (num_shdr - Z.of_nat added)
            (wrap64 (sh_offset shdr + sh_size shdr));
      match r with
      | inl code => mret code
      | inr cur_offset =>
      ehdr ← on_elf elf64_getehdr;
      match ehdr with
      | None => mret READ_ELF_FAILED
      | Some ehdr =>
          on_elf (modify (set_ehdr (Some (set_shoff cur_offset ehdr))));;
          on_elf (elf_flagehdr ELF_F_DIRTY);;
          len ← update_file;
          mret (match len with None => WRITE_ELF_FAILED | Some _ => SUCCESS end)
      end end
  end end end.

(** The unwinding records [add_sections] reads. *)
Definition unwind_records (unwind_sec : list Z) : T (Z + list unwind_addr) :=
  scn ← on_elf (get_section_by_name unwind_sec);
  match scn with
  | None => mret (inl FIND_SECTION_FAILED)
  | Some scn =>
  shdr ← on_elf (elf64_getshdr scn);
  match shdr with
  | None => mret (inl READ_ELF_FAILED)
  | Some shdr =>
  if (sh_size shdr =? 0) || (sh_entsize shdr =? 0) then mret (inl INVALID_METADATA) else
  let num_unwind := sh_size shdr / sh_entsize shdr in
  unwind ← on_elf (get_section_data scn);
  match unwind with
  | None => mret (inl READ_ELF_FAILED)
  | Some unwind =>
      bs ← on_elf (buffer_bytes unwind (num_unwind * 16));
      mret (inr (Init.view decode_unwind_addr bs))
  end end end.

Definition add_sections (junk : nat -> Z) (arch : Z) (buf : list Z) (sm : list stack_map_section)
    (sec : list Z) (start_id : Z) (unwind_sec : list Z) : T Z :=
  unwind ← unwind_records unwind_sec;
  match unwind with
  | inl code => mret code
  | inr unwind =>
  md ← liftT (create_call_site_metadata junk arch start_id buf sm unwind);
  match md with
  | None => mret CREATE_METADATA_FAILED
  | Some (sites, live, archlive) =>
      let id_sites := qsort sort_id sites in
      id_buf ← array (encode_section encode_call_site id_sites);
      live_buf ← array live;
      arch_buf ← array archlive;
      ret ← put_section (section_name sec SECTION_ID) (zlen sites) 52 id_buf;
      if negb (ret =? 0) then mret ret else
      let addr_sites := qsort sort_addr id_sites in
      addr_buf ← array (encode_section encode_call_site addr_sites);
      ret ← put_section (section_name sec SECTION_ADDR) (zlen sites) 52 addr_buf;
      if negb (ret =? 0) then mret ret else
      ret ← put_section (section_name sec SECTION_LIVE) (zlen live / 12) 12 live_buf;
      if negb (ret =? 0) then mret ret else
      ret ← put_section (section_name sec SECTION_ARCH) (zlen archlive / 20) 20 arch_buf;
      if negb (ret =? 0) then mret ret else
      place_and_write 4
  end end.

(** ** bin.c *)

Definition sizeof_bin : Z := 32.

Definition new_bin : T Z := fun t =>
  if malloc_ok sizeof_bin
  then Ret (t_next t, MkTool (t_file t) (t_fds t) (t_elf t) (t_next t :: t_bins t)
                        (t_next t + 16 + sizeof_bin) (t_old_shstrtab t) (t_freed t))
  else Fault.

Definition free_bin (b : Z) : T unit := fun t =>
  bins ← get (Init.remove_first b (t_bins t));
  Ret (tt, MkTool (t_file t) (t_fds t) (t_elf t) bins (t_next t) (t_old_shstrtab t) (t_freed t)).

Definition open_file (bin_fn : list Z) : T Z := fun t =>
  let fd := open_rdwr bin_fn in
  Ret (fd, if fd =? -1 then t
           else MkTool (t_file t) (fd :: t_fds t) (t_elf t) (t_bins t) (t_next t)
                  (t_old_shstrtab t) (t_freed t)).

Definition close_file (fd : Z) : T unit := fun t =>
  Ret (tt, MkTool (t_file t) (default (t_fds t) (Init.remove_first fd (t_fds t))) (t_elf t)
             (t_bins t) (t_next t) (t_old_shstrtab t) (t_freed t)).

Definition begin_elf : T bool := fun t =>
  match elf_begin (if read_ok then Some (t_file t) else None) true with
  | Some e => Ret (true, set_elf (Some e) t)
  | None => Ret (false, t)
  end.

Definition end_elf : T unit := fun t => _ ← get (t_elf t); Ret (tt, set_elf None t).

(** The labels at the end of [init_elf_bin]. *)
Definition free_desc (b ret : Z) : T (Z * option bin) := free_bin b;; mret (ret, None).
Definition close_fd (b fd ret : Z) : T (Z * option bin) := close_file fd;; free_desc b ret.
Definition close_elf (b fd ret : Z) : T (Z * option bin) := end_elf;; close_fd b fd ret.

Definition init_elf_bin (bin_fn : option (list Z)) : T (Z * option bin) :=
  match bin_fn with
  | None => mret (INVALID_ARGUMENT, None)
  | Some bin_fn =>
  b ← new_bin;
  fd ← open_file bin_fn;
  if fd =? -1 then free_desc b OPEN_FILE_FAILED else
  e ← begin_elf;
  if negb e then close_fd b fd OPEN_ELF_FAILED else
  ok ← on_elf check_elf_ehdr;
  if negb ok then close_elf b fd INVALID_ELF else
  ehdr ← on_elf elf64_getehdr;
  arch ← liftT (get (eh_machine <$> ehdr));
  f ← on_elf (elf_flagelf ELF_F_LAYOUT);
  f' ← (if f =? 0 then mret 0 else on_elf (elf_flagelf ELF_F_LAYOUT_OVERLAP));
  if (f =? 0) || (f' =? 0) then close_elf b fd LAYOUT_CONTROL_FAILED else
  mret (SUCCESS, Some (Bin b arch fd))
  end.

Definition free_elf_bin (b : option bin) : T Z :=
  match b with
  | None => mret INVALID_ARGUMENT
  | Some b => end_elf;; close_file (b_fd b);; free_bin (b_self b);; mret SUCCESS
  end.

(** ** main.c

    The exit code, after the arguments: the file, the prefix of the sections and
    the first identifier. *)
Definition main (junk : nat -> Z) (file sec : list Z) (start_id : Z) : T Z :=
  let unwind_addr_name := section_name sec SECTION_UNWIND_ADDR in
  '(ret, b) ← init_elf_bin (Some file);
  if negb (ret =? 0) then mret ret else
  b ← liftT (get b);
  '(ret, sm, buf) ← init_stackmap;
  if negb (ret =? 0) then mret ret else
  ret ← update_function_addr unwind_addr_name;
  if negb (ret =? 0) then mret ret else
  ret ← add_sections junk (b_arch b) buf sm sec start_id unwind_addr_name;
  if negb (ret =? 0) then mret ret else
  _ ← free_elf_bin (Some b);
  mret 0.

End write.
