(* ===== verification/ElfSpec.v ===== *)
(** * libelf: what a descriptor says of its file

    [elf_image] states what the bytes of a little-endian 64-bit file are: its
    header, program headers, section headers.  [desc] relates a descriptor to
    the abstract content of its file, a list of section headers and contents,
    whatever libelf has read so far.  Opening an image gives such a descriptor,
    and the accessors of [LibElf] are functions of the abstract content. *)

From S2P Require Import Prelude Machine CallSite LibElf.

#[local] Open Scope Z_scope.

Import Lib.

(** ** Bytes *)

(** The bytes at [off] are [bs]. *)
Definition at_offset (file : list Z) (off : Z) (bs : list Z) : Prop :=
  slice file off (zlen bs) = Ret bs.

Lemma zlen_length {A} (l : list A) : Z.to_nat (zlen l) = length l.
Proof. unfold zlen. lia. Qed.

Lemma zlen_nn {A} (l : list A) : 0 <= zlen l.
Proof. unfold zlen. lia. Qed.

Lemma zlen_cat {A} (l k : list A) : zlen (l ++ k) = zlen l + zlen k.
Proof. unfold zlen. rewrite length_app. lia. Qed.

#[export] Hint Resolve zlen_nn : popcorn.

Lemma slice_Ret l off n bs :
  slice l off n = Ret bs <->
  0 <= off /\ 0 <= n /\ off + n <= zlen l /\
  bs = take (Z.to_nat n) (drop (Z.to_nat off) l).
Proof.
  unfold slice. case_bool_decide as Hr; split.
  - intros [= <-]. tauto.
  - by intros (_ & _ & _ & ->).
  - done.
  - tauto.
Qed.

Lemma slice_zlen l off n bs : slice l off n = Ret bs -> zlen bs = n.
Proof.
  intros (H1 & H2 & H3 & ->)%slice_Ret. unfold zlen in *.
  rewrite length_take, length_drop. lia.
Qed.

Lemma at_offset_iff l off bs :
  at_offset l off bs <->
  exists pre post, l = pre ++ bs ++ post /\ zlen pre = off.
Proof.
  unfold at_offset. rewrite slice_Ret. split.
  - intros (H1 & _ & H3 & E). exists (take (Z.to_nat off) l), (drop (Z.to_nat off + length bs) l).
    rewrite zlen_length in E. split.
    + rewrite <- drop_drop. rewrite E at 1. by rewrite !take_drop.
    + unfold zlen in *. rewrite length_take. lia.
  - intros (pre & post & -> & <-). rewrite !zlen_cat. pose proof (zlen_nn post).
    pose proof (zlen_nn bs). pose proof (zlen_nn pre). split; [done|]. split; [done|].
    split; [lia|]. rewrite !zlen_length. by rewrite drop_app_length, take_app_length.
Qed.

Lemma at_offset_range l off bs : at_offset l off bs -> 0 <= off /\ off + zlen bs <= zlen l.
Proof. intros (H1 & _ & H3 & _)%slice_Ret. lia. Qed.

(** A part of the bytes at an offset. *)
Lemma at_offset_sub l off a b c :
  at_offset l off (a ++ b ++ c) -> at_offset l (off + zlen a) b.
Proof.
  rewrite !at_offset_iff. intros (pre & post & -> & <-). exists (pre ++ a), (c ++ post).
  split; [by rewrite !app_assoc|apply zlen_cat].
Qed.

Lemma at_offset_head l off a b : at_offset l off (a ++ b) -> at_offset l off a.
Proof.
  rewrite !at_offset_iff. intros (pre & post & -> & <-). exists pre, (b ++ post).
  by rewrite <- !app_assoc.
Qed.

Lemma at_offset_tail l off a b : at_offset l off (a ++ b) -> at_offset l (off + zlen a) b.
Proof. intros Hs. apply (at_offset_sub _ _ _ _ []). by rewrite app_nil_r. Qed.

Lemma at_offset_nil l off : 0 <= off <= zlen l -> at_offset l off [].
Proof. intros H. apply slice_Ret. change (zlen (@nil Z)) with 0. repeat split; lia || done. Qed.

Lemma splice_run l off bs : 0 <= off -> off + zlen bs <= zlen l ->
  splice l off bs = Ret (take (Z.to_nat off) l ++ bs ++ drop (Z.to_nat (off + zlen bs)) l).
Proof. intros. unfold splice. by rewrite bool_decide_true. Qed.

Lemma splice_Ret l off bs l' :
  splice l off bs = Ret l' ->
  zlen l' = zlen l /\ at_offset l' off bs /\
  forall o cs, at_offset l o cs -> o + zlen cs <= off \/ off + zlen bs <= o -> at_offset l' o cs.
Proof.
  unfold splice. case_bool_decide as H; [|done]. destruct H as [H1 H2]. intros [= <-].
  pose proof (zlen_nn bs).
  assert (Hl : zlen (take (Z.to_nat off) l ++ bs ++ drop (Z.to_nat (off + zlen bs)) l) = zlen l).
  { unfold zlen in *. rewrite !length_app, length_take, length_drop. lia. }
  split; [done|]. split.
  - apply at_offset_iff. eexists _, _. split; [done|]. unfold zlen in *. rewrite length_take. lia.
  - intros o cs Hc Hd. pose proof (at_offset_range _ _ _ Hc) as [Ho1 Ho2].
    apply slice_Ret in Hc as (_ & _ & _ & E). apply slice_Ret.
    split; [done|]. split; [apply zlen_nn|]. split; [lia|]. rewrite E at 1. rewrite zlen_length.
    pose proof (zlen_nn cs). apply list_eq. intros i.
    destruct (decide (i < length cs)%nat) as [Hi|]; [|by rewrite !lookup_take_ge by lia].
    rewrite !lookup_take_lt by lia. rewrite !lookup_drop. unfold zlen in *.
    destruct Hd as [Hd|Hd].
    + rewrite lookup_app_l by (rewrite length_take; lia). rewrite lookup_take_lt by lia. done.
    + rewrite lookup_app_r by (rewrite length_take; lia). rewrite length_take.
      rewrite lookup_app_r by lia. rewrite lookup_drop. f_equal. lia.
Qed.

(** Storing what is there changes nothing. *)
Lemma splice_same l off bs : at_offset l off bs -> splice l off bs = Ret l.
Proof.
  intros H. pose proof (at_offset_range _ _ _ H) as [H1 H2].
  rewrite splice_run by done. apply at_offset_iff in H as (pre & post & -> & <-).
  pose proof (zlen_nn pre). pose proof (zlen_nn bs). f_equal. rewrite zlen_length.
  replace (Z.to_nat (zlen pre + zlen bs)) with (length pre + length bs)%nat
    by (unfold zlen; lia).
  by rewrite take_app_length, <- drop_drop, drop_app_length, drop_app_length.
Qed.

(** ** Translation of little-endian files *)

Lemma copy_fields_lsb ws src : copy_fields ELFDATA2LSB ws src = take (sum_list ws) src.
Proof.
  revert src. induction ws as [|w ws IH]; intros src; [done|].
  cbn [copy_fields sum_list]. change (ELFDATA2LSB =? ELFDATA2MSB) with false. cbn match.
  rewrite IH. by rewrite take_take_drop.
Qed.

Lemma copy_records_lsb ws n src :
  copy_records ELFDATA2LSB ws n src = take (n * sum_list ws) src.
Proof.
  revert src. induction n as [|n IH]; intros src; [done|].
  cbn [copy_records]. rewrite copy_fields_lsb, IH, take_take_drop. f_equal.
Qed.

(** Whole records are copied as they are. *)
Lemma copy_type_lsb type src :
  zlen src mod fsize type = 0 -> fsize type <> 0 -> copy_type ELFDATA2LSB type src = src.
Proof.
  intros H Hf. unfold copy_type. rewrite copy_records_lsb. fold (record_size type).
  apply take_ge. unfold fsize, zlen in *.
  assert (E : length src = (length src / record_size type * record_size type)%nat); [|lia].
  assert (Hn : record_size type <> 0%nat) by lia.
  pose proof (Nat.div_mod_eq (length src) (record_size type)) as D.
  rewrite <- Nat2Z.inj_mod in H. lia.
Qed.

Lemma fsize_pos type : translator type = true -> 0 < fsize type.
Proof. by destruct type. Qed.

Lemma xlate_lsb type src dsize :
  translator type = true -> zlen src mod fsize type = 0 -> zlen src <= dsize ->
  elf64_xlate type EV_CURRENT src dsize EV_CURRENT ELFDATA2LSB = Some src.
Proof.
  intros Ht Hm Hd. pose proof (fsize_pos _ Ht). unfold elf64_xlate.
  change (valid_encoding ELFDATA2LSB) with true. change (valid_version EV_CURRENT) with true.
  rewrite Ht. cbn [negb andb]. rewrite copy_type_lsb by (done || lia).
  destruct (Z.ltb_spec dsize (zlen src)); [lia|done].
Qed.

Lemma xltsize_lsb type size tof :
  translator type = true -> size mod fsize type = 0 ->
  _elf64_xltsize type size EV_CURRENT EV_CURRENT ELFDATA2LSB tof = Some size.
Proof.
  intros Ht Hm. pose proof (fsize_pos _ Ht). unfold _elf64_xltsize.
  change (valid_version EV_CURRENT) with true. change (valid_encoding ELFDATA2LSB) with true.
  rewrite Ht. cbn [negb andb]. rewrite andb_false_r. f_equal.
  pose proof (Z.div_mod size (fsize type) ltac:(lia)). lia.
Qed.

(** ** Headers *)

(** Every field has the values of its C type. *)
Record ehdr_typed (h : Elf64_Ehdr) : Prop := {
  et_ident : Forall (uint 8) (eh_ident h) /\ length (eh_ident h) = 16%nat;
  et_half : Forall (uint 16) [eh_type h; eh_machine h; eh_ehsize h; eh_phentsize h; eh_phnum h;
    eh_shentsize h; eh_shnum h; eh_shstrndx h];
  et_word : Forall (uint 32) [eh_version h; eh_flags h];
  et_off : Forall (uint 64) [eh_entry h; eh_phoff h; eh_shoff h];
}.

Record shdr_typed (r : Elf64_Shdr) : Prop := {
  st_word : Forall (uint 32) [sh_name r; sh_type r; sh_link r; sh_info r];
  st_xword : Forall (uint 64) [sh_flags r; sh_addr r; sh_offset r; sh_size r; sh_addralign r;
    sh_entsize r];
}.

Lemma fields_roundtrip ws vs :
  Forall2 (fun w v => uint (8 * Z.of_nat w) v) ws vs ->
  take_fields ws (put_fields (zip ws vs)) = Some (vs, []).
Proof.
  intros H. rewrite <- (app_nil_r (put_fields _)).
  assert (E : ws = (zip ws vs).*1) by (rewrite fst_zip; [done|by apply Forall2_length in H; lia]).
  rewrite E at 1. rewrite take_put_fields. do 2 f_equal. clear E.
  induction H as [|w v ws vs Hv _ IH]; [done|]. cbn [zip zip_with fmap list_fmap].
  rewrite IH. by rewrite wrap_small.
Qed.

Ltac typed_fields :=
  repeat match goal with H : Forall _ (_ :: _) |- _ => apply Forall_cons in H as [? H] end.

Lemma ehdr_roundtrip h : ehdr_typed h -> decode_ehdr (encode_ehdr h) = Some h.
Proof.
  destruct h as [ident ty ma ve en po so fl es pe pn se sn sx].
  intros [[H1 H2] H3 H4 H5]. cbn [eh_ident eh_type eh_machine eh_version eh_entry eh_phoff
    eh_shoff eh_flags eh_ehsize eh_phentsize eh_phnum eh_shentsize eh_shnum eh_shstrndx] in *.
  unfold decode_ehdr, encode_ehdr. rewrite fields_roundtrip.
  - cbn [mbind option_bind]. unfold ehdr_fields.
    cbn [eh_ident eh_type eh_machine eh_version eh_entry eh_phoff
      eh_shoff eh_flags eh_ehsize eh_phentsize eh_phnum eh_shentsize eh_shnum eh_shstrndx].
    rewrite drop_app_length', take_app_length' by done. done.
  - typed_fields. unfold ehdr_fields.
    cbn [eh_ident eh_type eh_machine eh_version eh_entry eh_phoff
    eh_shoff eh_flags eh_ehsize eh_phentsize eh_phnum eh_shentsize eh_shnum eh_shstrndx].
    apply Forall2_app; [|repeat first [assumption|apply List.Forall2_nil|apply List.Forall2_cons]].
    apply Forall2_same_length_lookup_2; [by rewrite length_replicate|].
    intros i w v [-> _]%lookup_replicate Hv. exact (Forall_lookup_1 _ _ _ _ H1 Hv).
Qed.

Lemma shdr_roundtrip r : shdr_typed r -> decode_shdr (encode_shdr r) = Some r.
Proof.
  intros [H1 H2]. typed_fields.
  unfold decode_shdr, encode_shdr. rewrite fields_roundtrip by
    (repeat first [assumption|apply List.Forall2_nil|apply List.Forall2_cons]).
  by destruct r.
Qed.

Lemma ehdr_zlen h : length (eh_ident h) = 16%nat -> zlen (encode_ehdr h) = 64.
Proof.
  intros H. unfold encode_ehdr, zlen. rewrite put_fields_length, fst_zip; [done|].
  unfold ehdr_fields. rewrite length_app, H. done.
Qed.

Lemma shdr_zlen r : zlen (encode_shdr r) = 64.
Proof. unfold encode_shdr, zlen. rewrite put_fields_length. done. Qed.

Lemma put_bytes bs : Forall (uint 8) bs -> put_fields (zip (replicate (length bs) 1%nat) bs) = bs.
Proof.
  induction 1 as [|b bs Hb _ IH]; [done|]. cbn [length replicate zip zip_with].
  change (put_fields ((1%nat, b) :: zip (replicate (length bs) 1%nat) bs)) with
    (le_bytes 1 b ++ put_fields (zip (replicate (length bs) 1%nat) bs)).
  rewrite IH. cbn. f_equal. apply Z.mod_small. exact Hb.
Qed.

Lemma ehdr_ident h : ehdr_typed h -> exists rest, encode_ehdr h = eh_ident h ++ rest.
Proof.
  intros [[H1 H2] _ _ _]. unfold encode_ehdr, ehdr_fields. cbn [type_fields].
  rewrite zip_with_app by by rewrite H2. unfold put_fields. rewrite fmap_app, concat_app.
  eexists. f_equal. rewrite <- H2. exact (put_bytes _ H1).
Qed.

(** ** Files *)

(** The bytes of a file with these headers, as linkers write them: fewer than
    SHN_LORESERVE sections, tables of standard entries. *)
Record elf_image (file : list Z) (h : Elf64_Ehdr) (phdr : list Z)
    (shdrs : list Elf64_Shdr) : Prop := {
  im_size : zlen file < 2 ^ 62;
  im_ident : take 7 (eh_ident h) = ELFMAG ++ [ELFCLASS64; ELFDATA2LSB; EV_CURRENT];
  im_version : eh_version h = EV_CURRENT;
  im_typed : ehdr_typed h;
  im_ehdr : at_offset file 0 (encode_ehdr h);
  im_sizes : eh_ehsize h = 64 /\ eh_shentsize h = 64 /\ eh_shnum h = zlen shdrs /\
    0 < zlen shdrs < SHN_LORESERVE /\ eh_shoff h <> 0;
  im_shdrs i r : shdrs !! i = Some r ->
    shdr_typed r /\ at_offset file (eh_shoff h + 64 * Z.of_nat i) (encode_shdr r);
  im_phdr : zlen phdr = 56 * eh_phnum h /\ eh_phnum h < PN_XNUM /\
    (if eh_phnum h =? 0 then eh_phoff h = 0 /\ eh_phentsize h = 0
     else eh_phoff h <> 0 /\ eh_phentsize h = 56 /\ at_offset file (eh_phoff h) phdr);
}.

(** The descriptor of such a file, its headers read. *)
Definition opened_elf (file : list Z) (h : Elf64_Ehdr) (phdr : list Z)
    (shdrs : list Elf64_Shdr) (writable : bool) : Elf :=
  MkElf (zlen file) ELF_K_ELF file ELFCLASS64 ELFDATA2LSB EV_CURRENT (Some h) phdr
    (eh_phnum h) (cook_scn <$> shdrs) 0 0 0 true writable.

(** ** Descriptors *)

(** A section with data descriptors. *)
Definition has_data (i : nat) (r : Elf64_Shdr) : bool :=
  negb (Nat.eqb i 0) && negb (sh_type r =? SHT_NULL).

(** [elf_getdata] has nothing to read. *)
Definition ready (size : Z) (s : Elf_Scn) (sd : Scn_Data) : Prop :=
  sd_freeme sd = true \/
  s_type s <> SHT_NULL /\
    (is_Some (sd_memdata sd) \/ s_size s = 0 /\ s_offset s <= size).

(** Where libelf has the content [bs] of a section: still in the file, or in a
    buffer, which is the section's place in the image or an allocation. *)
Inductive held (image : list Z) (s : Elf_Scn) (sd : Scn_Data) (bs : list Z) : Prop :=
  | held_file :
      sd_freeme sd = false -> sd_memdata sd = None -> d_buf (sd_data sd) = None ->
      s_type s <> SHT_NULL -> s_type s <> SHT_NOBITS ->
      at_offset image (s_offset s) bs -> zlen bs = s_size s ->
      held image s sd bs
  | held_image :
      d_buf (sd_data sd) = Some (Image (s_offset s)) -> ready (zlen image) s sd ->
      s_type s <> SHT_NULL -> s_type s <> SHT_NOBITS ->
      at_offset image (s_offset s) bs -> zlen bs <= s_size s ->
      held image s sd bs
  | held_heap p old :
      d_buf (sd_data sd) = Some (Heap p old) -> ready (zlen image) s sd ->
      at_offset old 0 bs ->
      held image s sd bs.

(** String tables and program data are bytes; what the tool adds is words. *)
Definition plain (r : Elf64_Shdr) (d : Elf_Data) : Prop :=
  (sh_type r = SHT_STRTAB -> fsize (d_type d) = 1) /\
  (sh_type r = SHT_PROGBITS -> fsize (d_type d) = 1 \/ fsize (d_type d) = 4).

(** One section against its header and content. *)
Record scn_rel (image : list Z) (i : nat) (s : Elf_Scn) (r : Elf64_Shdr) (bs : list Z) : Prop := {
  sr_shdr : s_shdr64 s = r;
  sr_none : has_data i r = false -> bs = [];
  sr_data : has_data i r = true -> exists sd, s_data s = [sd] /\
    d_version (sd_data sd) = EV_CURRENT /\ d_off (sd_data sd) = 0 /\
    0 <= d_align (sd_data sd) < 2 ^ 64 /\ plain r (sd_data sd) /\
    (if sh_type r =? SHT_NOBITS
     then bs = [] /\ sd_freeme sd = false /\ sd_memdata sd = None /\ s_type s = SHT_NOBITS /\
          s_offset s <= zlen image /\ d_size (sd_data sd) = sh_size r
     else d_size (sd_data sd) = zlen bs /\ translator (d_type (sd_data sd)) = true /\
          zlen bs mod fsize (d_type (sd_data sd)) = 0 /\ held image s sd bs);
}.

(** The places of two sections in the image do not overlap. *)
Definition apart (s s' : Elf_Scn) : Prop :=
  s_type s = SHT_NULL \/ s_type s = SHT_NOBITS \/ s_type s' = SHT_NULL \/
  s_type s' = SHT_NOBITS \/ s_size s = 0 \/ s_size s' = 0 \/
  s_offset s + s_size s <= s_offset s' \/ s_offset s' + s_size s' <= s_offset s.

(** Flags of the descriptor and of its header, and how it was opened. *)
Definition mode (e : Elf) : Z * Z * bool * bool :=
  (e_elf_flags e, e_ehdr_flags e, e_readable e, e_writable e).

Record desc (m : Z * Z * bool * bool) (e : Elf) (h : Elf64_Ehdr) (phdr : list Z)
    (secs : list (Elf64_Shdr * list Z)) : Prop := {
  de_mode : mode e = m;
  de_kind : e_kind e = ELF_K_ELF;
  de_class : e_class e = ELFCLASS64;
  de_lsb : e_encoding e = ELFDATA2LSB /\ e_version e = EV_CURRENT;
  de_size : e_size e = zlen (e_data e) /\ zlen (e_data e) < 2 ^ 62;
  de_ehdr : e_ehdr e = Some h;
  de_phdr : e_phdr e = phdr /\ e_phnum e = eh_phnum h;
  de_length : length (e_scns e) = length secs;
  de_scns i s r bs : e_scns e !! i = Some s -> secs !! i = Some (r, bs) ->
    scn_rel (e_data e) i s r bs;
  de_places i j s s' : i <> j -> e_scns e !! i = Some s -> e_scns e !! j = Some s' -> apart s s';
}.

Section env.
Context `{Env}.
Hypothesis alloc : forall n, malloc_ok n = true.

(** ** Opening a file *)

Lemma cook_shdrs_spec e off shdrs i scns :
  e_version e = EV_CURRENT -> e_encoding e = ELFDATA2LSB ->
  (forall j r, shdrs !! j = Some r ->
     shdr_typed r /\ at_offset (e_data e) (off + 64 * Z.of_nat j) (encode_shdr r)) ->
  (i <= length shdrs)%nat ->
  cook_shdrs e off 64 i scns = Ret (Some ((cook_scn <$> take i shdrs) ++ scns)).
Proof using.
  intros Hv He Hs. revert scns. induction i as [|i IH]; intros scns Hi; [done|].
  destruct (lookup_lt_is_Some_2 shdrs i) as [r Hr]; [lia|].
  destruct (Hs _ _ Hr) as [Ht Ha]. cbn [cook_shdrs].
  rewrite (Z.mul_comm (Z.of_nat i)). unfold at_offset in Ha. rewrite shdr_zlen in Ha.
  change (fsize ELF_T_SHDR) with 64. rewrite Ha. cbn [mbind outcome_bind].
  rewrite Hv, He, xlate_lsb by (rewrite ?shdr_zlen; done || reflexivity).
  rewrite shdr_roundtrip by done. cbn [get mbind outcome_bind].
  rewrite IH by lia. do 2 f_equal. rewrite (take_S_r _ _ _ Hr), fmap_app, <- app_assoc. done.
Qed.

Lemma cook_phdrs_spec e off n : forall i phdr,
  e_version e = EV_CURRENT -> e_encoding e = ELFDATA2LSB ->
  e_size e = zlen (e_data e) -> zlen (e_data e) < 2 ^ 62 ->
  zlen phdr = 56 * Z.of_nat n ->
  at_offset (e_data e) (off + 56 * Z.of_nat i) phdr -> 0 <= off ->
  cook_phdrs e off 56 i n = Ret (Some phdr).
Proof using.
  induction n as [|n IH]; intros i phdr Hv He Hs Hb Hl Ha Ho.
  { cbn. unfold zlen in Hl. destruct phdr; [done|simpl in Hl; lia]. }
  pose proof (at_offset_range _ _ _ Ha) as [_ Hr].
  assert (E : phdr = take 56 phdr ++ drop 56 phdr) by by rewrite take_drop.
  assert (E1 : zlen (take 56 phdr) = 56) by (unfold zlen in *; rewrite length_take; lia).
  assert (E2 : zlen (drop 56 phdr) = 56 * Z.of_nat n) by (unfold zlen in *; rewrite length_drop; lia).
  cbn [cook_phdrs]. rewrite (Z.mul_comm (Z.of_nat i)), wrap_small by lia.
  unfold _elf_item. rewrite Hs. change (fsize ELF_T_PHDR) with 56.
  destruct (Z.ltb_spec (zlen (e_data e)) (off + 56 * Z.of_nat i)); [lia|].
  destruct (Z.ltb_spec (zlen (e_data e) - (off + 56 * Z.of_nat i)) 56); [lia|].
  rewrite E in Ha. pose proof (at_offset_head _ _ _ _ Ha) as Hp.
  pose proof (at_offset_tail _ _ _ _ Ha) as Hq. rewrite E1 in Hq.
  unfold at_offset in Hp. rewrite E1 in Hp. rewrite Hp. cbn [mbind outcome_bind].
  rewrite Hv, He, xlate_lsb by (rewrite ?E1; done || reflexivity).
  rewrite (IH (S i) (drop 56 phdr)); try done.
  - cbn [mbind outcome_bind option_map]. by rewrite take_drop.
  - by replace (off + 56 * Z.of_nat (S i)) with (off + 56 * Z.of_nat i + 56) by lia.
Qed.

(** The identification is at the head of the file. *)
Lemma image_head file h phdr shdrs : elf_image file h phdr shdrs ->
  exists rest, file = ELFMAG ++ [ELFCLASS64; ELFDATA2LSB; EV_CURRENT] ++ rest /\ 57 <= zlen rest.
Proof using.
  intros Hi. destruct (ehdr_ident _ (im_typed _ _ _ _ Hi)) as [rest E].
  pose proof (im_ehdr _ _ _ _ Hi) as Ha. pose proof (at_offset_range _ _ _ Ha) as [_ Hr].
  rewrite ehdr_zlen in Hr by apply (im_typed _ _ _ _ Hi).
  rewrite E in Ha. apply at_offset_iff in Ha as (pre & post & Ef & Hp).
  destruct pre; [|unfold zlen in Hp; simpl in Hp; lia]. cbn [app] in Ef.
  exists (drop 7 (eh_ident h) ++ rest ++ post).
  assert (E2 : file = ELFMAG ++ [ELFCLASS64; ELFDATA2LSB; EV_CURRENT] ++
                drop 7 (eh_ident h) ++ rest ++ post).
  { rewrite (app_assoc ELFMAG), <- (im_ident _ _ _ _ Hi), (app_assoc (take 7 _)), take_drop.
    by rewrite Ef, <- app_assoc. }
  split; [done|]. rewrite E2, (app_assoc ELFMAG), zlen_cat in Hr.
  change (zlen (ELFMAG ++ [ELFCLASS64; ELFDATA2LSB; EV_CURRENT])) with 7 in Hr. lia.
Qed.

(** What [elf_begin] returns: the content, and its identification. *)
Definition unread_elf (file : list Z) (writable : bool) : Elf :=
  MkElf (zlen file) ELF_K_ELF file ELFCLASS64 ELFDATA2LSB EV_CURRENT None [] 0 [] 0 0 0 true
    writable.

Lemma begin_image file h phdr shdrs w :
  elf_image file h phdr shdrs -> elf_begin (Some file) w = Some (unread_elf file w).
Proof using alloc.
  intros Hi. destruct (image_head _ _ _ _ Hi) as (rest & -> & Hr).
  unfold elf_begin. rewrite !alloc, andb_false_r. cbn [negb].
  unfold _elf_check_type. cbn [e_data].
  destruct (Z.leb_spec EI_NIDENT (zlen (ELFMAG ++ [ELFCLASS64; ELFDATA2LSB; EV_CURRENT] ++ rest)))
    as [_|Hl]; [done|].
  exfalso. rewrite (app_assoc ELFMAG), zlen_cat in Hl. unfold EI_NIDENT in Hl.
  change (zlen (ELFMAG ++ [ELFCLASS64; ELFDATA2LSB; EV_CURRENT])) with 7 in Hl. lia.
Qed.

Lemma cook_image file h phdr shdrs w :
  elf_image file h phdr shdrs ->
  _elf_cook (unread_elf file w) = Ret (true, opened_elf file h phdr shdrs w).
Proof using alloc.
  intros [Hs _ _ Ht Ha (_ & Hse & Hsn & [Hn0 Hn1] & Hso) Hsh (Hpl & Hpn & Hp)].
  pose proof (at_offset_range _ _ _ Ha) as [_ Hr]. rewrite ehdr_zlen in Hr by apply Ht.
  unfold _elf_cook. cbn [e_version e_encoding e_class unread_elf negb].
  unfold _elf_cook_file, _elf_item. rewrite alloc.
  change (fsize ELF_T_EHDR) with 64. cbn [e_size e_data e_version e_encoding unread_elf].
  destruct (Z.ltb_spec (zlen file) 0); [pose proof (zlen_nn file); lia|].
  destruct (Z.ltb_spec (zlen file - 0) 64); [lia|].
  unfold at_offset in Ha. rewrite ehdr_zlen in Ha by apply Ht. rewrite Ha. cbn [mbind outcome_bind].
  rewrite xlate_lsb by (rewrite ?ehdr_zlen by apply Ht; done || reflexivity).
  rewrite ehdr_roundtrip by done. cbn [get mbind outcome_bind].
  set (e1 := set_ehdr (Some h) (unread_elf file w)).
  assert (Hlast : eh_shoff h + 64 * zlen shdrs <= zlen file /\ 0 <= eh_shoff h).
  { destruct (lookup_lt_is_Some_2 shdrs (length shdrs - 1)) as [r Hl]; [unfold zlen in *; lia|].
    destruct (Hsh _ _ Hl) as [_ Hx]. apply at_offset_range in Hx. rewrite shdr_zlen in Hx.
    destruct Ht as [_ _ _ Ho]. typed_fields. unfold uint, zlen in *. lia. }
  assert (E1 : _elf_cook_shdr h e1 = Ret (true, set_scns (cook_scn <$> shdrs) e1)).
  { unfold _elf_cook_shdr. cbn [e1 e_size set_ehdr unread_elf].
    destruct (Z.eqb_spec (eh_shoff h) 0); [done|].
    destruct (Z.ltb_spec (zlen file) (eh_shoff h)); [lia|].
    rewrite Hse. change (64 <? fsize ELF_T_SHDR) with false. cbn match.
    unfold section_count. rewrite Hsn. destruct (Z.eqb_spec (zlen shdrs) 0); [lia|].
    cbn [negb mbind outcome_bind].
    destruct (Z.ltb_spec ((zlen file - eh_shoff h) / 64) (zlen shdrs)) as [Hd|_].
    { assert (zlen shdrs <= (zlen file - eh_shoff h) / 64); [|lia].
      apply Z.div_le_lower_bound; lia. }
    rewrite alloc. cbn [negb]. rewrite zlen_length.
    rewrite (cook_shdrs_spec _ _ shdrs) by done. cbn [mbind outcome_bind].
    destruct (Z.eqb_spec (zlen shdrs) 0); [lia|]. by rewrite firstn_all, app_nil_r. }
  rewrite E1. cbn [mbind outcome_bind negb]. unfold _elf_cook_phdr.
  destruct (Z.eqb_spec (eh_phnum h) 0) as [E0|Hne].
  - destruct Hp as [-> _]. cbn [Z.eqb]. unfold opened_elf. rewrite E0.
    rewrite E0 in Hpl. destruct phdr; [done|unfold zlen in Hpl; simpl in Hpl; lia].
  - destruct Hp as (Ho & Hpe & Hx). destruct (Z.eqb_spec (eh_phoff h) 0); [done|].
    destruct (Z.eqb_spec (eh_phnum h) PN_XNUM); [lia|]. rewrite Hpe.
    change (56 <? fsize ELF_T_PHDR) with false. cbn match. rewrite alloc. cbn [negb].
    destruct Ht as [_ Hh _ Hoo]. typed_fields. unfold uint in *.
    rewrite (cook_phdrs_spec _ _ _ _ phdr); try done; cbn [mbind outcome_bind].
    + rewrite Z2Nat.id by lia. done.
    + by replace (eh_phoff h + 56 * Z.of_nat 0) with (eh_phoff h) by lia.
    + lia.
Qed.

(** *** Its descriptor *)

(** What the sections must be for libelf to read them as they are: inside the
    file, whole records, at places of their own. *)
Record placed (file : list Z) (i : nat) (r : Elf64_Shdr) (bs : list Z) : Prop := {
  pl_typed : shdr_typed r;
  pl_none : has_data i r = false -> bs = [];
  pl_nobits : has_data i r = true -> sh_type r = SHT_NOBITS -> bs = [] /\ sh_offset r <= zlen file;
  pl_bytes : has_data i r = true -> sh_type r <> SHT_NOBITS ->
    at_offset file (sh_offset r) bs /\ zlen bs = sh_size r /\
    zlen bs mod fsize (scn_type r) = 0;
}.

Definition apart_shdr (r r' : Elf64_Shdr) : Prop :=
  sh_type r = SHT_NULL \/ sh_type r = SHT_NOBITS \/ sh_type r' = SHT_NULL \/
  sh_type r' = SHT_NOBITS \/ sh_size r = 0 \/ sh_size r' = 0 \/
  sh_offset r + sh_size r <= sh_offset r' \/ sh_offset r' + sh_size r' <= sh_offset r.

Lemma scn_type_translated r : translator (scn_type r) = true.
Proof.
  unfold scn_type. destruct (_ && _); [done|]. unfold _elf_scn_type.
  cbn [switch]. repeat (destruct (_ =? _); [done|]). done.
Qed.

Lemma scn_type_plain r d : d_type d = scn_type r -> plain r d.
Proof.
  unfold plain, scn_type. intros ->.
  split; intros ->; [|left]; change (_ =? SHT_HASH) with false; done.
Qed.

Lemma opened_desc file h phdr secs w :
  elf_image file h phdr secs.*1 ->
  (forall i r bs, secs !! i = Some (r, bs) -> placed file i r bs) ->
  (forall i j r r' bs bs', i <> j -> secs !! i = Some (r, bs) -> secs !! j = Some (r', bs') ->
     apart_shdr r r') ->
  desc (0, 0, true, w) (opened_elf file h phdr secs.*1 w) h phdr secs.
Proof using.
  intros Hi Hp Hd. constructor; try done; cbn [e_data e_scns opened_elf].
  - split; [done|]. apply (im_size _ _ _ _ Hi).
  - by rewrite !length_fmap.
  - intros i s r bs Hs Hr. rewrite !list_lookup_fmap, Hr in Hs. injection Hs as <-.
    destruct (Hp _ _ _ Hr) as [Ht H1 H2 H3]. constructor; [done|done|].
    intros Hdat. eexists. split; [done|]. cbn [sd_data d_version d_off d_align d_size d_type].
    split; [done|]. split; [done|]. split; [destruct Ht; typed_fields; done|].
    split; [by apply scn_type_plain|].
    destruct (Z.eqb_spec (sh_type r) SHT_NOBITS) as [E|Hne].
    + destruct (H2 Hdat E) as [-> Ho]. done.
    + destruct (H3 Hdat Hne) as (Ha & Hl & Hm). split; [done|].
      split; [apply scn_type_translated|]. split; [done|].
      apply held_file; try done. cbn. unfold has_data in Hdat.
      destruct (Z.eqb_spec (sh_type r) SHT_NULL); [|done]. by rewrite andb_false_r in Hdat.
  - intros i j s s' Hij Hs Hs'. rewrite !list_lookup_fmap in Hs, Hs'.
    destruct (secs !! i) as [[r bs]|] eqn:E; [|done]. destruct (secs !! j) as [[r' bs']|] eqn:E';
      [|done].
    injection Hs as <-. injection Hs' as <-. exact (Hd _ _ _ _ _ _ Hij E E').
Qed.
End env.
