(* ===== verification/ElfDesc.v ===== *)
(** * libelf: the accessors on a descriptor

    On a descriptor with abstract content ([desc]), every accessor of [LibElf]
    is a function of that content; reading a section's data loads it and leaves
    the content as it was. *)

From S2P Require Import Prelude Machine CallSite LibElf ElfSpec.

#[local] Open Scope Z_scope.

Import Lib.

Lemma E_step {A B} (c : E A) (f : A -> E B) e a e' : c e = Ret (a, e') -> (c ≫= f) e = f a e'.
Proof. unfold mbind, E_bind. by intros ->. Qed.

Lemma alter_some {A} (f : A -> A) i (l : list A) x : l !! i = Some x -> alter f i l = <[i := f x]> l.
Proof.
  intros Hx. apply list_eq. intros j. destruct (decide (i = j)) as [<-|Hij].
  - rewrite list_lookup_alter_eq, list_lookup_insert_eq by by eapply lookup_lt_Some. by rewrite Hx.
  - by rewrite list_lookup_alter_ne, list_lookup_insert_ne.
Qed.

Lemma upd_scn_run scn f e s : e_scns e !! scn = Some s ->
  upd_scn scn f e = Ret (tt, set_scns (<[scn := f s]> (e_scns e)) e).
Proof. intros Hs. unfold upd_scn. by rewrite (alter_some _ _ _ _ Hs). Qed.

Lemma upd_data_run scn f e s sd : e_scns e !! scn = Some s -> s_data s = [sd] ->
  upd_data scn 0 f e = Ret (tt, set_scns (<[scn := set_s_data [f sd] s]> (e_scns e)) e).
Proof. intros Hs Hd. unfold upd_data. rewrite (upd_scn_run _ _ _ _ Hs). by rewrite Hd. Qed.

Lemma scn_at_run scn e s : e_scns e !! scn = Some s -> scn_at scn e = Ret (s, e).
Proof. intros Hs. unfold scn_at. by rewrite Hs. Qed.

Lemma data_of_run scn e s sd : e_scns e !! scn = Some s -> s_data s = [sd] ->
  data_of scn 0 e = Ret (sd, e).
Proof.
  intros Hs Hd. unfold data_of. rewrite (E_step _ _ _ _ _ (scn_at_run _ _ _ Hs)). by rewrite Hd.
Qed.

(** A section keeps its place in the image. *)
Definition same_place (s s' : Elf_Scn) : Prop :=
  s_type s' = s_type s /\ s_offset s' = s_offset s /\ s_size s' = s_size s.

(** The strings of a table end in it. *)
Definition table_ok (bs : list Z) : Prop := exists bs', bs = bs' ++ [0].

(** The string at an offset of a table. *)
Definition string_at (bs : list Z) (off : Z) : option (list Z) :=
  if bool_decide (0 <= off < zlen bs) then cstring (drop (Z.to_nat off) bs) else None.

Lemma cstring_app bs rest : cstring (bs ++ 0 :: rest) = cstring (bs ++ [0]) /\
  is_Some (cstring (bs ++ [0])).
Proof.
  induction bs as [|b bs [IH1 [x IH2]]]; [split; [done|by eexists]|]. cbn [app cstring].
  destruct (b =? 0); [split; [done|by eexists]|]. rewrite IH1, IH2. split; [done|by eexists].
Qed.

Lemma cstring_table bs off rest : table_ok bs -> 0 <= off < zlen bs ->
  cstring (drop (Z.to_nat off) (bs ++ rest)) = string_at bs off /\
  is_Some (string_at bs off).
Proof.
  intros [bs' ->] Ho. unfold string_at. rewrite bool_decide_true by done.
  rewrite zlen_cat in Ho. change (zlen [0]) with 1 in Ho. rewrite <- app_assoc. cbn [app].
  rewrite !drop_app_le by (unfold zlen in *; lia). apply cstring_app.
Qed.

Section env.
Context `{Env}.
Hypothesis alloc : forall n, malloc_ok n = true.

Section desc.
Context {m : Z * Z * bool * bool} {e : Elf} {h : Elf64_Ehdr} {phdr : list Z}.
Context {secs : list (Elf64_Shdr * list Z)}.
Context (D : desc m e h phdr secs).

Lemma desc_scn i r bs : secs !! i = Some (r, bs) ->
  exists s, e_scns e !! i = Some s /\ scn_rel (e_data e) i s r bs.
Proof using D.
  intros Hi. destruct (lookup_lt_is_Some_2 (e_scns e) i) as [s Hs].
  { rewrite (de_length _ _ _ _ _ D). by eapply lookup_lt_Some. }
  exists s. split; [done|]. by eapply (de_scns _ _ _ _ _ D).
Qed.

Lemma cooked_desc : cooked e = Ret (true, e).
Proof using D. unfold cooked. by rewrite (de_ehdr _ _ _ _ _ D). Qed.

Lemma with_headers_desc {A} (k : Elf64_Ehdr -> E (option A)) : with_headers k e = k h e.
Proof using D.
  unfold with_headers. rewrite (de_kind _ _ _ _ _ D), cooked_desc. cbn [mbind outcome_bind].
  by rewrite (de_ehdr _ _ _ _ _ D).
Qed.

Lemma getshdrstrndx_desc : eh_shstrndx h <> SHN_XINDEX ->
  elf_getshdrstrndx e = Ret (Some (eh_shstrndx h), e).
Proof using D.
  intros Hx. unfold elf_getshdrstrndx. rewrite with_headers_desc.
  rewrite (E_step _ _ e (e_class e) e) by done. rewrite (de_class _ _ _ _ _ D).
  destruct (Z.eqb_spec (eh_shstrndx h) SHN_XINDEX); done.
Qed.

Lemma getehdr_desc : elf64_getehdr e = Ret (Some h, e).
Proof using D.
  unfold elf64_getehdr. rewrite with_headers_desc, (de_class _ _ _ _ _ D), andb_false_r. done.
Qed.

Lemma getident_desc : elf_getident e = Ret (Some (eh_ident h), e).
Proof using D. unfold elf_getident. rewrite with_headers_desc, (de_kind _ _ _ _ _ D). done. Qed.

Lemma zlen_scns : zlen (e_scns e) = zlen secs.
Proof using D. unfold zlen. by rewrite (de_length _ _ _ _ _ D). Qed.

Lemma getshdrnum_desc : elf_getshdrnum e = Ret (Some (zlen secs), e).
Proof using D.
  unfold elf_getshdrnum. rewrite with_headers_desc, (E_step _ _ e (zlen (e_scns e)) e) by done.
  by rewrite zlen_scns.
Qed.

Lemma getscn_desc i : (i < length secs)%nat -> elf_getscn (Z.of_nat i) e = Ret (Some i, e).
Proof using D.
  intros Hi. unfold elf_getscn. rewrite with_headers_desc, (E_step _ _ e (zlen (e_scns e)) e) by done.
  rewrite zlen_scns. destruct (Z.leb_spec 0 (Z.of_nat i)); [|lia].
  destruct (Z.ltb_spec (Z.of_nat i) (zlen secs)); [|unfold zlen in *; lia].
  cbn [andb]. by rewrite Nat2Z.id.
Qed.

Lemma nextscn_desc i : elf_nextscn (match i with O => None | S j => Some (S j) end) e =
  Ret (if decide (S i < length secs)%nat then Some (S i) else None, e).
Proof using D.
  destruct i as [|j]; cbn [elf_nextscn].
  - destruct (decide (1 < length secs)%nat); [exact (getscn_desc 1 l)|].
    unfold elf_getscn. rewrite with_headers_desc, (E_step _ _ e (zlen (e_scns e)) e) by done.
    rewrite zlen_scns. destruct (Z.ltb_spec 1 (zlen secs)); [unfold zlen in *; lia|done].
  - rewrite (E_step _ _ e (length (e_scns e)) e) by done. by rewrite (de_length _ _ _ _ _ D).
Qed.

Lemma getshdr_desc i r bs : secs !! i = Some (r, bs) -> elf64_getshdr i e = Ret (Some r, e).
Proof using D.
  intros Hi. destruct (desc_scn _ _ _ Hi) as (s & Hs & Hr).
  unfold elf64_getshdr. rewrite (E_step _ _ e (e_class e) e) by done.
  rewrite (de_class _ _ _ _ _ D), Z.eqb_refl.
  rewrite (E_step _ _ _ _ _ (scn_at_run _ _ _ Hs)). by rewrite (sr_shdr _ _ _ _ _ Hr).
Qed.

(** *** Replacing a section *)

Lemma desc_replace i s s' r' bs' :
  e_scns e !! i = Some s -> scn_rel (e_data e) i s' r' bs' -> same_place s s' ->
  desc m (set_scns (<[i := s']> (e_scns e)) e) h phdr (<[i := (r', bs')]> secs).
Proof using D.
  intros Hs Hr (P1 & P2 & P3). destruct D as [D1 D2 D3 D4 D5 D6 D7 D8 D9 D10].
  assert (Hi : (i < length (e_scns e))%nat) by by eapply lookup_lt_Some.
  constructor; try done; cbn [e_data e_scns set_scns].
  - by rewrite !length_insert.
  - intros j t r bs Ht Hb. destruct (decide (i = j)) as [<-|Hij].
    + rewrite list_lookup_insert_eq in Ht by done. rewrite list_lookup_insert_eq in Hb by congruence.
      by simplify_eq.
    + rewrite list_lookup_insert_ne in Ht by done. rewrite list_lookup_insert_ne in Hb by done.
      by eapply D9.
  - assert (Hap : forall t, apart t s -> apart t s') by
      (unfold apart; rewrite P1, P2, P3; tauto).
    assert (Hap' : forall t, apart s t -> apart s' t) by
      (unfold apart; rewrite P1, P2, P3; tauto).
    intros j k t t' Hjk Ht Ht'.
    destruct (decide (i = j)) as [<-|Hij]; [rewrite list_lookup_insert_eq in Ht by done|
      rewrite list_lookup_insert_ne in Ht by done];
    (destruct (decide (i = k)) as [<-|Hik]; [rewrite list_lookup_insert_eq in Ht' by done|
      rewrite list_lookup_insert_ne in Ht' by done]); simplify_eq; eauto.
Qed.

(** *** Reading data *)

Lemma has_data_ne i r : has_data i r = true -> i <> 0%nat /\ sh_type r <> SHT_NULL.
Proof.
  unfold has_data. intros [H1 H2]%andb_prop. apply negb_true_iff in H1, H2.
  split; [by apply Nat.eqb_neq|by apply Z.eqb_neq].
Qed.

Lemma ready_getdata i s sd :
  e_scns e !! i = Some s -> s_data s = [sd] -> i <> 0%nat -> ready (zlen (e_data e)) s sd ->
  elf_getdata i None e = Ret (Some 0%nat, e).
Proof using D.
  intros Hs Hd Hi Hr. unfold elf_getdata. rewrite Hs. cbn [get mbind outcome_bind].
  rewrite decide_False, Hd by done. cbn [head]. destruct (de_size _ _ _ _ _ D) as [Hz _].
  destruct Hr as [->|[Ht Hr]]; [done|]. destruct (sd_freeme sd); [done|].
  destruct (Z.eqb_spec (s_type s) SHT_NULL); [done|].
  destruct (sd_memdata sd); [done|]. destruct Hr as [[]|[H1 H2]]; [done|].
  rewrite Hz, H1. destruct (Z.ltb_spec (zlen (e_data e)) (s_offset s)); [lia|].
  by rewrite orb_true_r.
Qed.

(** A little-endian section is read without changing the image. *)
Lemma cook_scn_run i s sd bs :
  e_scns e !! i = Some s -> s_data s = [sd] -> at_offset (e_data e) (s_offset s) bs ->
  d_size (sd_data sd) = zlen bs -> d_version (sd_data sd) = EV_CURRENT ->
  translator (d_type (sd_data sd)) = true -> zlen bs mod fsize (d_type (sd_data sd)) = 0 ->
  _elf_cook_scn i s sd e =
  Ret (Some 0%nat, set_scns (<[i := set_s_data
    [ScnData (Data (Some (Image (s_offset s))) (d_type (sd_data sd)) (zlen bs) (d_off (sd_data sd))
       (d_align (sd_data sd)) (d_version (sd_data sd))) (Some (s_offset s)) (sd_data_flags sd)
       (sd_freeme sd) false] s]> (e_scns e)) e).
Proof using D.
  intros Hs Hd Ha Hz Hv Ht Hm. unfold _elf_cook_scn. destruct (de_lsb _ _ _ _ _ D) as [El Ev].
  rewrite Hz, Hv, El, Ev, xltsize_lsb by done.
  assert (Ei : (if bool_decide (d_type (sd_data sd) = ELF_T_BYTE) then Ret (Some (e_data e))
               else
                 b ← slice (e_data e) (s_offset s) (zlen bs);
                 match elf64_xlate (d_type (sd_data sd)) EV_CURRENT b (zlen bs) EV_CURRENT
                         ELFDATA2LSB with
                 | None => Ret None
                 | Some bs' => l ← splice (e_data e) (s_offset s) bs'; Ret (Some l)
                 end) = Ret (Some (e_data e))).
  { case_bool_decide; [done|]. unfold at_offset in Ha. rewrite Ha. cbn [mbind outcome_bind].
    rewrite xlate_lsb by done. fold (at_offset (e_data e) (s_offset s) bs) in Ha.
    by rewrite (splice_same _ _ _ Ha). }
  rewrite Ei. cbn [mbind outcome_bind].
  rewrite (E_step (modify (set_data (e_data e))) _ e tt e) by (unfold modify; by destruct e).
  rewrite (E_step _ _ _ _ _ (upd_data_run _ _ _ _ _ Hs Hd)). done.
Qed.
End desc.

(** What a caller finds in a section whose data is loaded. *)
Definition loaded (e : Elf) (i : nat) (r : Elf64_Shdr) (bs : list Z) : Prop :=
  elf_getdata i None e = Ret (Some 0%nat, e) /\
  exists s sd, e_scns e !! i = Some s /\ s_data s = [sd] /\
    (sh_type r <> SHT_NOBITS ->
     ready (zlen (e_data e)) s sd /\ d_size (sd_data sd) = zlen bs /\
     (bs <> [] -> exists b, d_buf (sd_data sd) = Some b /\
        buffer_bytes b (zlen bs) e = Ret (bs, e))).

(** No section was changed since the file was opened. *)
Definition pristine (e : Elf) : Prop :=
  forall i s sd, e_scns e !! i = Some s -> s_data s = [sd] ->
    s_offset s = sh_offset (s_shdr64 s) /\ forall p l, d_buf (sd_data sd) <> Some (Heap p l).

(** Reading leaves the image and the places of the sections alone. *)
Definition undisturbed (e e' : Elf) : Prop :=
  e_data e' = e_data e /\ (pristine e -> pristine e') /\
  forall i s, e_scns e !! i = Some s -> exists s', e_scns e' !! i = Some s' /\ same_place s s'.

Lemma undisturbed_refl e : undisturbed e e.
Proof using. split; [done|]. split; [done|]. intros i s Hs. by exists s. Qed.

Lemma undisturbed_trans e1 e2 e3 : undisturbed e1 e2 -> undisturbed e2 e3 -> undisturbed e1 e3.
Proof using.
  intros (A1 & A2 & A3) (B1 & B2 & B3). split; [congruence|]. split; [auto|].
  intros i s Hs. destruct (A3 _ _ Hs) as (s' & Hs' & P). destruct (B3 _ _ Hs') as (s2 & Hs2 & Q).
  exists s2. split; [done|]. unfold same_place in *. intuition congruence.
Qed.

Lemma buffer_run b n bs e :
  match b with Image off => slice (e_data e) off n | Heap _ l => slice l 0 n end = Ret bs ->
  buffer_bytes b n e = Ret (bs, e).
Proof. unfold buffer_bytes. by intros ->. Qed.

Lemma loaded_ready m e h phdr secs i r bs s sd :
  desc m e h phdr secs -> has_data i r = true ->
  e_scns e !! i = Some s -> s_data s = [sd] -> ready (zlen (e_data e)) s sd ->
  d_size (sd_data sd) = zlen bs ->
  (bs <> [] -> exists b, d_buf (sd_data sd) = Some b /\
     buffer_bytes b (zlen bs) e = Ret (bs, e)) ->
  loaded e i r bs.
Proof using.
  intros D Hd Hs Ed Hr Hz Hb. destruct (has_data_ne _ _ Hd) as [Hi _]. split.
  - by eapply (ready_getdata D).
  - exists s, sd. by repeat split.
Qed.

Lemma getdata_keeps m e h phdr secs i r bs :
  desc m e h phdr secs -> loaded e i r bs ->
  exists e', elf_getdata i None e = Ret (Some 0%nat, e') /\ desc m e' h phdr secs /\
    undisturbed e e' /\ loaded e' i r bs.
Proof using. intros D Hl. exists e. split; [apply Hl|]. auto using undisturbed_refl. Qed.

Lemma getdata_nobits m e h phdr secs i r bs :
  desc m e h phdr secs -> secs !! i = Some (r, bs) -> has_data i r = true ->
  sh_type r = SHT_NOBITS -> loaded e i r bs.
Proof using.
  intros D Hi Hd Hn. destruct (desc_scn D _ _ _ Hi) as (s & Hs & Hr).
  destruct (has_data_ne _ _ Hd) as [Hi0 _].
  destruct (sr_data _ _ _ _ _ Hr Hd) as (sd & Ed & _ & _ & _ & _ & Hx).
  rewrite Hn, Z.eqb_refl in Hx. destruct Hx as (_ & Hf & Hmd & Ht & Ho & _).
  destruct (de_size _ _ _ _ _ D) as [Hz _]. split.
  - unfold elf_getdata. rewrite Hs. cbn [get mbind outcome_bind].
    rewrite decide_False, Ed by done. cbn [head]. rewrite Hf, Ht.
    change (SHT_NOBITS =? SHT_NULL) with false. cbn match. rewrite Hmd, Hz.
    destruct (Z.ltb_spec (zlen (e_data e)) (s_offset s)); [lia|done].
  - exists s, sd. by repeat split.
Qed.

(** Loading a section from the file. *)
Lemma getdata_file m e h phdr secs i r bs s sd :
  desc m e h phdr secs -> secs !! i = Some (r, bs) -> has_data i r = true ->
  sh_type r <> SHT_NOBITS -> e_scns e !! i = Some s -> s_data s = [sd] ->
  sd_freeme sd = false -> sd_memdata sd = None ->
  s_type s <> SHT_NULL -> s_type s <> SHT_NOBITS ->
  at_offset (e_data e) (s_offset s) bs -> zlen bs = s_size s -> s_size s <> 0 ->
  exists e', elf_getdata i None e = Ret (Some 0%nat, e') /\ desc m e' h phdr secs /\
    undisturbed e e' /\ loaded e' i r bs.
Proof using.
  intros D Hi Hd Hne Hs Ed Hf Hmd Hn Hnn Ha Hsz H0.
  destruct (desc_scn D _ _ _ Hi) as (s1 & Hs1 & Hr). rewrite Hs in Hs1. injection Hs1 as <-.
  destruct (sr_data _ _ _ _ _ Hr Hd) as (sd1 & Ed1 & Hv & Hoff & Hal & Hpl & Hx).
  rewrite Ed in Ed1. injection Ed1 as <-.
  destruct (Z.eqb_spec (sh_type r) SHT_NOBITS) as [|_]; [done|].
  destruct Hx as (Hds & Htr & Hmod & _). destruct (has_data_ne _ _ Hd) as [Hi0 _].
  destruct (de_size _ _ _ _ _ D) as [Hz Hb].
  destruct (at_offset_range _ _ _ Ha) as [Ho1 Ho2]. pose proof (zlen_nn bs).
  pose proof (cook_scn_run D i s sd bs Hs Ed Ha Hds Hv Htr Hmod) as Ec.
  set (sd' := ScnData (Data (Some (Image (s_offset s))) (d_type (sd_data sd)) (zlen bs)
     (d_off (sd_data sd)) (d_align (sd_data sd)) (d_version (sd_data sd)))
     (Some (s_offset s)) (sd_data_flags sd) (sd_freeme sd) false) in *.
  set (s' := set_s_data [sd'] s) in *.
  assert (Hr' : ready (zlen (e_data e)) s' sd') by (right; split; [done|]; left; by eexists).
  assert (D' : desc m (set_scns (<[i := s']> (e_scns e)) e) h phdr secs).
  { rewrite <- (list_insert_id secs i (r, bs)) by done.
    eapply (desc_replace D); [done| |done].
    destruct Hr as [R1 R2 R3]. constructor; [done|done|]. intros _. exists sd'. split; [done|].
    cbn [sd' sd_data d_version d_off d_align d_size d_type]. do 4 (split; [done|]).
    destruct (Z.eqb_spec (sh_type r) SHT_NOBITS); [done|]. split; [done|].
    split; [done|]. split; [done|]. apply held_image; try done. by apply Z.eq_le_incl. }
  assert (Hlt : (i < length (e_scns e))%nat) by by eapply lookup_lt_Some.
  eexists. split; [|split; [exact D'|split; [split; [done|split]|]]].
  - unfold elf_getdata. rewrite Hs. cbn [get mbind outcome_bind].
    rewrite decide_False, Ed by done. cbn [head]. rewrite Hf.
    destruct (Z.eqb_spec (s_type s) SHT_NULL); [done|]. rewrite Hmd, Hz.
    destruct (Z.ltb_spec (zlen (e_data e)) (s_offset s)); [lia|].
    destruct (Z.eqb_spec (s_type s) SHT_NOBITS); [done|].
    destruct (Z.eqb_spec (s_size s) 0); [done|]. cbn [orb].
    rewrite wrap_small by lia.
    destruct (Z.ltb_spec (zlen (e_data e)) (s_offset s + s_size s)); [lia|].
    rewrite (de_class _ _ _ _ _ D). exact Ec.
  - intros Hp j t td Ht Etd. cbn [e_scns set_scns] in Ht. destruct (decide (i = j)) as [<-|Hij].
    + rewrite list_lookup_insert_eq in Ht by by eapply lookup_lt_Some.
      injection Ht as <-. injection Etd as <-. by destruct (Hp _ _ _ Hs Ed).
    + rewrite list_lookup_insert_ne in Ht by done. by apply (Hp j).
  - intros j t Ht. cbn [e_scns set_scns]. destruct (decide (i = j)) as [<-|Hij].
    + rewrite list_lookup_insert_eq by done. rewrite Hs in Ht. injection Ht as <-. by eexists.
    + rewrite list_lookup_insert_ne by done. by exists t.
  - eapply (loaded_ready _ _ _ _ _ _ _ _ s' sd' D'); try done.
    + cbn [e_scns set_scns]. apply list_lookup_insert_eq. by eapply lookup_lt_Some.
    + intros _. eexists. split; [done|]. apply buffer_run. exact Ha.
Qed.

Lemma getdata_desc m e h phdr secs i r bs :
  desc m e h phdr secs -> secs !! i = Some (r, bs) -> has_data i r = true ->
  exists e', elf_getdata i None e = Ret (Some 0%nat, e') /\ desc m e' h phdr secs /\
    undisturbed e e' /\ loaded e' i r bs.
Proof using.
  intros D Hi Hd. destruct (Z.eq_dec (sh_type r) SHT_NOBITS) as [En|Hne].
  { by eapply getdata_keeps, getdata_nobits. }
  destruct (desc_scn D _ _ _ Hi) as (s & Hs & Hr).
  destruct (sr_data _ _ _ _ _ Hr Hd) as (sd & Ed & Hv & Hoff & Hal & Hpl & Hx).
  destruct (Z.eqb_spec (sh_type r) SHT_NOBITS) as [|_]; [done|].
  destruct Hx as (Hds & _ & _ & Hh).
  destruct Hh as [Hf Hmd Hnb Hn Hnn Ha Hsz|Hbuf Hrd Hn Hnn Ha Hsz|p old Hbuf Hrd Ha].
  - destruct (decide (s_size s = 0)) as [E0|H0]; [|by eapply getdata_file].
    eapply getdata_keeps; [done|].
    destruct (at_offset_range _ _ _ Ha) as [Ho1 Ho2]. pose proof (zlen_nn bs).
    eapply loaded_ready; try done.
    + right. split; [done|]. right. split; [done|lia].
    + intros Hbn. destruct bs; [done|]. unfold zlen in Hsz. simpl in Hsz. lia.
  - eapply getdata_keeps; [done|]. eapply loaded_ready; try done.
    intros _. eexists. split; [done|]. by apply buffer_run.
  - eapply getdata_keeps; [done|]. eapply loaded_ready; try done.
    intros _. eexists. split; [done|]. by apply buffer_run.
Qed.

(** *** Strings *)

Lemma buffer_from_run b bs e off :
  buffer_bytes b (zlen bs) e = Ret (bs, e) -> 0 <= off ->
  exists rest, buffer_from b off e = Ret (drop (Z.to_nat off) (bs ++ rest), e).
Proof using.
  unfold buffer_bytes, buffer_from. intros Hb Ho. destruct b as [o|p l].
  - destruct (slice (e_data e) o (zlen bs)) as [x| | |] eqn:E; try done. injection Hb as ->.
    pose proof (proj1 (at_offset_iff _ _ _) E) as (pre & post & -> & <-). exists post.
    pose proof (zlen_nn pre). do 2 f_equal.
    replace (Z.to_nat (zlen pre + off)) with (length pre + Z.to_nat off)%nat
      by (unfold zlen in *; lia).
    by rewrite <- drop_drop, drop_app_length.
  - destruct (slice l 0 (zlen bs)) as [x| | |] eqn:E; try done. injection Hb as ->.
    pose proof (proj1 (at_offset_iff _ _ _) E) as (pre & post & -> & Hp). exists post.
    destruct pre; [done|unfold zlen in Hp; simpl in Hp; lia].
Qed.

Lemma string_in_run b bs e off :
  table_ok bs -> buffer_bytes b (zlen bs) e = Ret (bs, e) -> 0 <= off < zlen bs ->
  string_in b (zlen bs) off e = Ret (string_at bs off, e).
Proof using.
  intros Ht Hb Ho. destruct (buffer_from_run _ _ _ off Hb) as [rest E]; [lia|].
  unfold string_in. rewrite (E_step _ _ _ _ _ E).
  destruct (cstring_table bs off rest Ht Ho) as [Hc Hs]. destruct sanity_check_strptr.
  - destruct (cstring_table bs off [] Ht Ho) as [Hc' _]. rewrite app_nil_r in Hc'.
    rewrite drop_app_le by (unfold zlen in *; lia).
    rewrite take_app_length'; [by rewrite Hc'|].
    rewrite zlen_cat. pose proof (zlen_nn rest).
    unfold zlen in *. rewrite length_drop. lia.
  - destruct Hs as [x Hx]. rewrite Hx in Hc |- *. rewrite Hc. done.
Qed.

Lemma string_at_out bs off : zlen bs <= off -> string_at bs off = None.
Proof using. intros Hl. unfold string_at. rewrite bool_decide_false by lia. done. Qed.

Lemma getdata_end e n s sd : e_scns e !! n = Some s -> s_data s = [sd] -> n <> 0%nat ->
  elf_getdata n (Some 0%nat) e = Ret (None, e).
Proof using.
  intros Hs Ed Hn. unfold elf_getdata. rewrite Hs. cbn [get mbind outcome_bind].
  by rewrite decide_False, Ed.
Qed.

Lemma align_zero a : 0 <= a < 2 ^ 64 -> wrap64 (0 + (a - 1)) - wrap64 (0 + (a - 1)) mod a = 0 \/ a <= 1.
Proof using.
  intros Ha. destruct (decide (a <= 1)); [by right|]. left. rewrite wrap_small by lia.
  rewrite Z.mod_small by lia. lia.
Qed.

(** Both searches for the buffer with an offset, in a section of one buffer. *)
Lemma find_data_run e e' n r bs off s sd (layout : bool) :
  elf_getdata n None e = Ret (Some 0%nat, e') -> loaded e' n r bs -> n <> 0%nat ->
  sh_type r <> SHT_NOBITS -> e_scns e' !! n = Some s -> s_data s = [sd] ->
  d_off (sd_data sd) = 0 -> 0 <= d_align (sd_data sd) < 2 ^ 64 -> 0 <= off ->
  (if layout then find_data_layout 3 n off None else find_data 3 n off 0 None) e =
  Ret (if decide (off < zlen bs) then Some (0%nat, 0) else None, e').
Proof using.
  intros E1 (_ & s1 & sd1 & Hs1 & Ed1 & Hb) Hn Ht Hs Ed Ho Ha Hoff.
  rewrite Hs in Hs1. injection Hs1 as <-. rewrite Ed in Ed1. injection Ed1 as <-.
  destruct (Hb Ht) as (_ & Hz & _). pose proof (getdata_end _ _ _ _ Hs Ed Hn) as Eend.
  destruct layout.
  - cbn [find_data_layout]. rewrite (E_step _ _ _ _ _ E1), (E_step _ _ _ _ _ (data_of_run _ _ _ _ Hs Ed)).
    rewrite Ho, Hz, Z.sub_0_r. destruct (Z.leb_spec 0 off); [|lia]. cbn [andb].
    destruct (Z.ltb_spec off (zlen bs)); case_decide; try lia; [done|].
    by rewrite (E_step _ _ _ _ _ Eend).
  - cbn [find_data]. rewrite (E_step _ _ _ _ _ E1), (E_step _ _ _ _ _ (data_of_run _ _ _ _ Hs Ed)).
    assert (En : (if 1 <? d_align (sd_data sd)
              then wrap64 (0 + (d_align (sd_data sd) - 1)) -
                   wrap64 (0 + (d_align (sd_data sd) - 1)) mod d_align (sd_data sd) else 0) = 0).
    { destruct (Z.ltb_spec 1 (d_align (sd_data sd))); [|done].
      destruct (align_zero _ Ha); [done|lia]. }
    cbv zeta. rewrite En, Hz, Z.sub_0_r. destruct (Z.ltb_spec off 0); [lia|].
    destruct (Z.ltb_spec off (zlen bs)); case_decide; try lia; [done|].
    by rewrite (E_step _ _ _ _ _ Eend).
Qed.

Lemma strptr_desc m e h phdr secs n r bs off :
  desc m e h phdr secs -> secs !! n = Some (r, bs) -> n <> 0%nat ->
  sh_type r = SHT_STRTAB -> table_ok bs -> 0 <= off ->
  exists e', elf_strptr (Z.of_nat n) off e = Ret (string_at bs off, e') /\
    desc m e' h phdr secs /\ undisturbed e e'.
Proof using.
  intros D Hi Hn Ht Htab Hoff.
  assert (Hd : has_data n r = true).
  { unfold has_data. rewrite Ht. destruct n; [done|done]. }
  assert (Hnn : sh_type r <> SHT_NOBITS) by by rewrite Ht.
  destruct (getdata_desc _ _ _ _ _ _ _ _ D Hi Hd) as (e' & E1 & D' & Hu & Hl).
  exists e'. split; [|done]. unfold elf_strptr.
  rewrite (E_step _ _ _ _ _ (getscn_desc D n (lookup_lt_Some _ _ _ Hi))).
  rewrite decide_False by done. rewrite (E_step _ _ e (e_class e) e) by done.
  destruct (desc_scn D _ _ _ Hi) as (s0 & Hs0 & Hr0).
  destruct (sr_data _ _ _ _ _ Hr0 Hd) as (sd0 & Ed0 & _).
  rewrite (E_step _ _ _ _ _ (scn_at_run _ _ _ Hs0)), (de_class _ _ _ _ _ D), Z.eqb_refl.
  rewrite (sr_shdr _ _ _ _ _ Hr0), Ht, Z.eqb_refl. cbn [negb].
  rewrite (E_step _ _ e (e_elf_flags e) e) by done. rewrite Ed0. cbn [length].
  destruct (desc_scn D' _ _ _ Hi) as (s & Hs & Hr).
  destruct (sr_data _ _ _ _ _ Hr Hd) as (sd & Ed & _ & Ho & Ha & _).
  pose proof (find_data_run e e' n r bs off s sd (negb (Z.land (e_elf_flags e) ELF_F_LAYOUT =? 0))
    E1 Hl Hn Hnn Hs Ed Ho Ha Hoff) as Ef.
  rewrite (E_step _ _ _ _ _ Ef).
  destruct (decide (off < zlen bs)) as [Hlt|]; [|by rewrite string_at_out by lia].
  rewrite (E_step _ _ _ _ _ (data_of_run _ _ _ _ Hs Ed)).
  destruct Hl as (_ & s1 & sd1 & Hs1 & Ed1 & Hb).
  rewrite Hs in Hs1. injection Hs1 as <-. rewrite Ed in Ed1. injection Ed1 as <-.
  destruct (Hb Hnn) as (_ & Hz & Hbuf). destruct Hbuf as (b & Eb & Hbb).
  { intros ->. unfold zlen in Hlt. simpl in Hlt. lia. }
  rewrite Eb, Hz, Z.sub_0_r. by apply string_in_run.
Qed.
End env.
