(* ===== verification/ElfRoundtrip.v ===== *)
(** * libelf: what [elf_update] writes is read back

    For a descriptor whose layout the program controls, [elf_update] loads every
    section, computes the length of the file and writes headers and data at
    their places; when the places do not overlap, the file it leaves is the
    image of the same headers and contents, and opening it gives a descriptor
    with the same abstract content. *)

From S2P Require Import Prelude Machine CallSite LibElf ElfUpdate ElfSpec ElfDesc.

#[local] Open Scope Z_scope.

Import Lib.

(** ** Regions of a file *)

Definition region : Type := Z * list Z.

Definition region_end (a : region) : Z := a.1 + zlen a.2.

Definition disjoint_regions (a b : region) : Prop := region_end a <= b.1 \/ region_end b <= a.1.

Definition data_region (i : nat) (r : Elf64_Shdr) (bs : list Z) : list region :=
  if has_data i r && negb (sh_type r =? SHT_NOBITS) && negb (bool_decide (bs = []))
  then [(sh_offset r, bs)] else [].

Fixpoint scn_regions (h : Elf64_Ehdr) (i : nat) (l : list (Elf64_Shdr * list Z)) : list region :=
  match l with
  | [] => []
  | (r, bs) :: l' =>
      (eh_shoff h + Z.of_nat i * 64, encode_shdr r) :: data_region i r bs ++ scn_regions h (S i) l'
  end.

(** Header, program headers, then the header and the data of each section: the
    order of the writes. *)
Definition regions (h : Elf64_Ehdr) (phdr : list Z) (secs : list (Elf64_Shdr * list Z)) :
    list region :=
  (0, encode_ehdr h) ::
  (if eh_phnum h =? 0 then [] else [(eh_phoff h, phdr)]) ++ scn_regions h 0 secs.

(** What a program that controls the layout must have set up. *)
Record laid_out (h : Elf64_Ehdr) (phdr : list Z) (secs : list (Elf64_Shdr * list Z)) : Prop := {
  lo_ident : take 7 (eh_ident h) = ELFMAG ++ [ELFCLASS64; ELFDATA2LSB; EV_CURRENT];
  lo_version : eh_version h = EV_CURRENT;
  lo_typed : ehdr_typed h;
  lo_sizes : eh_ehsize h = 64 /\ eh_shentsize h = 64 /\ eh_shnum h = zlen secs /\
    0 < zlen secs < SHN_LORESERVE /\ eh_shoff h <> 0;
  lo_phdr : zlen phdr = 56 * eh_phnum h /\ eh_phnum h < PN_XNUM /\
    (if eh_phnum h =? 0 then eh_phoff h = 0 /\ eh_phentsize h = 0
     else eh_phoff h <> 0 /\ eh_phentsize h = 56);
  lo_first r bs : secs !! 0%nat = Some (r, bs) -> sh_type r = SHT_NULL /\ sh_entsize r = 0;
  lo_scns i r bs : secs !! i = Some (r, bs) ->
    shdr_typed r /\ sh_offset r < 2 ^ 60 /\ sh_size r < 2 ^ 60 /\
    (sh_entsize r <> 0 \/ scn_entsize (sh_type r) <= 1);
  lo_contents i r bs : secs !! i = Some (r, bs) -> has_data i r = true ->
    if sh_type r =? SHT_NOBITS then bs = []
    else zlen bs = sh_size r /\ zlen bs mod fsize (scn_type r) = 0;
  lo_tables : eh_shoff h < 2 ^ 60 /\ eh_phoff h < 2 ^ 60;
  lo_disjoint : ForallOrdPairs disjoint_regions (regions h phdr secs);
}.

(** The flags of a program that controls the layout and allows overlaps, with a
    header it has changed. *)
Definition controls (m : Z * Z * bool * bool) : Prop :=
  exists fl hf rd, m = (fl, hf, rd, true) /\ Z.testbit hf 0 = true /\
    Z.land fl ELF_F_LAYOUT <> 0 /\ Z.land fl ELF_F_LAYOUT_OVERLAP <> 0.

Lemma dirty_testbit f : Z.testbit f 0 = true -> Z.land f ELF_F_DIRTY <> 0.
Proof.
  intros Hf E. assert (Z.testbit (Z.land f ELF_F_DIRTY) 0 = true).
  { rewrite Z.land_spec, Hf. done. }
  rewrite E in *. done.
Qed.

Lemma set_entsize_same n r : sh_entsize r = n -> set_entsize n r = r.
Proof. destruct r. cbn. by intros ->. Qed.

Lemma apart_shdr_sym r r' : apart_shdr r r' -> apart_shdr r' r.
Proof. unfold apart_shdr. tauto. Qed.

Section env.
Context `{Env}.

(** ** Layout *)

Lemma rewrite_ehdr_same f e h : e_ehdr e = Some h -> f h = h -> rewrite_ehdr f e = Ret (tt, e).
Proof using.
  intros He Hf. unfold rewrite_ehdr, the_ehdr.
  rewrite (E_step _ _ e h e) by by rewrite He. by rewrite decide_True.
Qed.

Lemma the_shdr_run e i s : e_scns e !! i = Some s -> the_shdr i e = Ret (s_shdr64 s, e).
Proof using. intros Hs. unfold the_shdr. by rewrite (E_step _ _ _ _ _ (scn_at_run _ _ _ Hs)). Qed.

Lemma rewrite_shdr_same i f e s : e_scns e !! i = Some s -> f (s_shdr64 s) = s_shdr64 s ->
  rewrite_shdr i f e = Ret (tt, e).
Proof using.
  intros Hs Hf. unfold rewrite_shdr. rewrite (E_step _ _ _ _ _ (the_shdr_run _ _ _ Hs)).
  by rewrite decide_True.
Qed.

Section desc.
Context {m : Z * Z * bool * bool} {h : Elf64_Ehdr} {phdr : list Z}.
Context {secs : list (Elf64_Shdr * list Z)}.
Context (C : controls m) (L : laid_out h phdr secs).

Lemma layout_mode_run e : desc m e h phdr secs -> layout_mode e = Ret (false, e).
Proof using C.
  intros D. destruct C as (fl & hf & rd & -> & _ & Hl & _).
  pose proof (de_mode _ _ _ _ _ D) as Hm. injection Hm as Hm _ _ _.
  unfold layout_mode, gets. rewrite Hm. by destruct (Z.eqb_spec (Z.land fl ELF_F_LAYOUT) 0).
Qed.

(** The data of a section are as long as its header says. *)
Lemma scn_data_layout_run e i r bs flag :
  desc m e h phdr secs -> secs !! i = Some (r, bs) -> has_data i r = true ->
  exists e' flag', scn_data_layout i EV_CURRENT (sh_type r) flag e =
    Ret (Some (sh_size r, 1, flag'), e') /\ desc m e' h phdr secs.
Proof using C L.
  intros D Hi Hd. unfold scn_data_layout. rewrite (E_step _ _ _ _ _ (layout_mode_run _ D)).
  destruct (desc_scn D _ _ _ Hi) as (s & Hs & Hr).
  destruct (sr_data _ _ _ _ _ Hr Hd) as (sd & Ed & _).
  rewrite (E_step _ _ _ _ _ (scn_at_run _ _ _ Hs)), Ed.
  destruct (getdata_desc _ _ _ _ _ _ _ _ D Hi Hd) as (e' & E1 & D' & _).
  rewrite (E_step _ _ _ _ _ E1). cbn [length data_layout].
  destruct (desc_scn D' _ _ _ Hi) as (s' & Hs' & Hr').
  destruct (sr_data _ _ _ _ _ Hr' Hd) as (sd' & Ed' & Hv & Ho & _ & _ & Hx).
  rewrite (E_step _ _ _ _ _ (data_of_run _ _ _ _ Hs' Ed')), Hv. cbn [negb].
  change (valid_version EV_CURRENT) with true. cbn [negb].
  destruct (lo_scns _ _ _ L _ _ _ Hi) as (Ht & _ & Hsz & _).
  pose proof (lo_contents _ _ _ L _ _ _ Hi Hd) as Hc.
  assert (Hn : 0 <= sh_size r) by (destruct Ht; typed_fields; unfold uint in *; lia).
  exists e', (Z.lor flag (sd_data_flags sd')). split; [|done].
  destruct (Z.eqb_spec (sh_type r) SHT_NOBITS) as [E|Hne].
  - destruct Hx as (_ & _ & _ & _ & _ & Hz). rewrite andb_false_r, Ho, Hz.
    rewrite Z.add_0_l, wrap_small by lia. by rewrite Z.max_r by lia.
  - destruct Hx as (Hz & Htr & Hm & _). destruct Hc as [Hc _]. rewrite Hz, Hc in *.
    rewrite andb_true_r, xltsize_lsb by done.
    assert (E : (if negb (sh_size r =? 0) then Some (sh_size r) else Some (sh_size r)) =
      Some (sh_size r)) by by destruct (negb _).
    rewrite E, Ho, Z.add_0_l, wrap_small by lia. by rewrite Z.max_r by lia.
Qed.

Lemma shdr_end_bound i r bs : secs !! i = Some (r, bs) ->
  0 <= sh_offset r <= shdr_end r /\ shdr_end r < 2 ^ 61 /\
  (sh_type r <> SHT_NOBITS -> shdr_end r = sh_offset r + sh_size r).
Proof using L.
  intros Hi. destruct (lo_scns _ _ _ L _ _ _ Hi) as (Ht & Ho & Hsz & _).
  destruct Ht. typed_fields. unfold uint in *. unfold shdr_end.
  destruct (Z.eqb_spec (sh_type r) SHT_NOBITS); [lia|]. rewrite wrap_small by lia. lia.
Qed.

Lemma layout_scn_run e i r bs off flag :
  desc m e h phdr secs -> secs !! i = Some (r, bs) -> 0 <= off < 2 ^ 61 ->
  exists e' off' flag', layout_scn false true EV_CURRENT i off flag e =
    Ret (Some (off', flag'), e') /\ desc m e' h phdr secs /\ off <= off' < 2 ^ 61 /\
    (has_data i r = true -> shdr_end r <= off').
Proof using C L.
  intros D Hi Hoff. destruct (desc_scn D _ _ _ Hi) as (s & Hs & Hr).
  pose proof (sr_shdr _ _ _ _ _ Hr) as Er. unfold layout_scn.
  rewrite (E_step _ _ _ _ _ (scn_at_run _ _ _ Hs)), Er.
  destruct (decide (i = 0%nat)) as [->|Hne].
  - assert (E0 : set_entsize 0 (s_shdr64 s) = s_shdr64 s)
      by (rewrite Er; apply set_entsize_same, (lo_first _ _ _ L _ _ Hi)).
    rewrite (E_step _ _ _ _ _ (rewrite_shdr_same _ _ _ _ Hs E0)).
    rewrite (E_step _ _ e tt e) by done. rewrite (E_step _ _ _ _ _ (scn_at_run _ _ _ Hs)).
    eexists e, off, _. split; [done|]. split; [done|]. split; [lia|done].
  - destruct (Z.eqb_spec (sh_type r) SHT_NULL) as [En|Hnn].
    + rewrite (E_step _ _ _ _ _ (scn_at_run _ _ _ Hs)).
      eexists e, off, _. split; [done|]. split; [done|]. split; [lia|].
      unfold has_data. rewrite En. by rewrite andb_false_r.
    + assert (Hd : has_data i r = true).
      { unfold has_data. destruct (Nat.eqb_spec i 0); [done|].
        destruct (Z.eqb_spec (sh_type r) SHT_NULL); done. }
      destruct (scn_data_layout_run e i r bs (Z.lor flag (s_scn_flags s)) D Hi Hd)
        as (e1 & f1 & E1 & D1).
      rewrite (E_step _ _ _ _ _ E1).
      destruct (lo_scns _ _ _ L _ _ _ Hi) as (Ht & Ho & Hsz & Hent).
      destruct (Z.eqb_spec (sh_size r) u64_max); [lia|].
      destruct (desc_scn D1 _ _ _ Hi) as (s1 & Hs1 & Hr1).
      rewrite (E_step _ _ _ _ _ (the_shdr_run _ _ _ Hs1)), (sr_shdr _ _ _ _ _ Hr1).
      assert (Ee : (sh_entsize r =? 0) && (1 <? scn_entsize (sh_type r)) = false).
      { destruct (Z.eqb_spec (sh_entsize r) 0); [|done].
        destruct (Z.ltb_spec 1 (scn_entsize (sh_type r))); [lia|done]. }
      rewrite Ee, (E_step _ _ e1 tt e1) by done.
      destruct (Z.ltb_spec (sh_size r) (sh_size r)); [lia|].
      rewrite (E_step _ _ e1 (e_scns e1) e1) by done. cbn [negb andb].
      rewrite (E_step _ _ _ _ _ (scn_at_run _ _ _ Hs1)).
      destruct (shdr_end_bound _ _ _ Hi) as (B1 & B2 & _).
      eexists e1, _, _. split; [done|]. split; [done|]. split; [lia|]. intros _. lia.
Qed.

Lemma layout_scns_run n : forall e i off flag,
  desc m e h phdr secs -> (i + n <= length secs)%nat -> 0 <= off < 2 ^ 61 ->
  exists e' off' flag', layout_scns false true EV_CURRENT n i off flag e =
    Ret (Some (off', flag'), e') /\ desc m e' h phdr secs /\ off <= off' < 2 ^ 61 /\
    (forall j r bs, (i <= j < i + n)%nat -> secs !! j = Some (r, bs) -> has_data j r = true ->
       shdr_end r <= off').
Proof using C L.
  induction n as [|n IH]; intros e i off flag D Hn Hoff; cbn [layout_scns].
  { eexists e, off, flag. split; [done|]. split; [done|]. split; [lia|]. intros; lia. }
  destruct (lookup_lt_is_Some_2 secs i) as [[r bs] Hi]; [lia|].
  destruct (layout_scn_run e i r bs off flag D Hi Hoff) as (e1 & o1 & f1 & E1 & D1 & B1 & H1).
  rewrite (E_step _ _ _ _ _ E1).
  destruct (IH e1 (S i) o1 f1 D1 ltac:(lia) ltac:(lia)) as (e2 & o2 & f2 & E2 & D2 & B2 & H2).
  exists e2, o2, f2. split; [done|]. split; [done|]. split; [lia|].
  intros j r' bs' Hj Hl Hd. destruct (decide (i = j)) as [<-|].
  - rewrite Hi in Hl. injection Hl as <- <-. specialize (H1 Hd). lia.
  - apply (H2 j r' bs'); [lia|done|done].
Qed.

Lemma ident_bytes : znth (eh_ident h) EI_DATA = Some ELFDATA2LSB /\
  znth (eh_ident h) EI_VERSION = Some EV_CURRENT.
Proof using L.
  rewrite <- (take_drop 7 (eh_ident h)), (lo_ident _ _ _ L). done.
Qed.

Lemma layout_phdrs_run e : desc m e h phdr secs ->
  exists off, layout_phdrs false 64 e = Ret (off, e) /\ 64 <= off < 2 ^ 61 /\
    (eh_phnum h <> 0 -> eh_phoff h + 56 * eh_phnum h <= off).
Proof using L.
  intros D. destruct (lo_phdr _ _ _ L) as (_ & Hn & _). destruct (lo_tables _ _ _ L) as [_ Hp].
  destruct (lo_typed _ _ _ L) as [_ Hh _ Ho]. typed_fields. unfold uint, PN_XNUM in *.
  unfold layout_phdrs, the_ehdr. rewrite (E_step _ _ e h e) by by rewrite (de_ehdr _ _ _ _ _ D).
  rewrite (E_step _ _ e (eh_phnum h) e).
  2:{ unfold gets. rewrite (proj2 (de_phdr _ _ _ _ _ D)). by rewrite wrap_small by lia. }
  destruct (Z.eqb_spec (eh_phnum h) 0) as [|Hne]; cbn [negb].
  - rewrite (E_step _ _ e tt e) by done. exists 64. split; [done|]. split; [lia|done].
  - change (fsize ELF_T_PHDR) with 56. rewrite wrap_small by lia.
    eexists. split; [done|]. split; [lia|]. lia.
Qed.

Lemma layout_shdrs_run e off : desc m e h phdr secs -> 0 <= off < 2 ^ 61 ->
  exists off', layout_shdrs false off e = Ret (off', e) /\ off <= off' < 2 ^ 61 /\
    eh_shoff h + 64 * zlen secs <= off'.
Proof using L.
  intros D Hoff. destruct (lo_sizes _ _ _ L) as (_ & _ & _ & Hn & _).
  destruct (lo_tables _ _ _ L) as [Hs _].
  destruct (lo_typed _ _ _ L) as [_ _ _ Ho]. typed_fields. unfold uint, SHN_LORESERVE in *.
  unfold layout_shdrs, the_ehdr. rewrite (E_step _ _ e h e) by by rewrite (de_ehdr _ _ _ _ _ D).
  rewrite (E_step _ _ e (zlen secs) e).
  2:{ unfold gets. rewrite (zlen_scns D). by rewrite wrap_small by lia. }
  destruct (Z.eqb_spec (zlen secs) 0); [lia|]. cbn [negb].
  change (fsize ELF_T_SHDR) with 64. rewrite wrap_small by lia.
  eexists. split; [done|]. lia.
Qed.

Lemma scn_regions_end len l : forall i,
  (forall k r bs, l !! k = Some (r, bs) -> (i + k < length secs)%nat /\
     0 <= sh_offset r /\
     (has_data (i + k) r = true -> sh_type r <> SHT_NOBITS -> sh_offset r + zlen bs <= len)) ->
  0 <= eh_shoff h -> eh_shoff h + 64 * zlen secs <= len ->
  Forall (fun a => 0 <= a.1 /\ region_end a <= len) (scn_regions h i l).
Proof using.
  induction l as [|[r bs] l IH]; intros i Hl Ho Hs; [apply List.Forall_nil|].
  cbn [scn_regions]. destruct (Hl 0%nat r bs eq_refl) as (H1 & H2 & H3).
  rewrite Nat.add_0_r in *. apply List.Forall_cons; [|apply List.Forall_app; split].
  - unfold region_end. cbn [fst snd]. rewrite shdr_zlen. unfold zlen in *. lia.
  - unfold data_region. destruct (has_data i r); [|apply List.Forall_nil].
    destruct (Z.eqb_spec (sh_type r) SHT_NOBITS); [apply List.Forall_nil|].
    destruct (bool_decide (bs = [])); [apply List.Forall_nil|]. cbn [negb andb].
    apply List.Forall_cons; [|apply List.Forall_nil]. split; [done|]. by apply H3.
  - apply (IH (S i)); [|done|done]. intros k r' bs' Hk.
    destruct (Hl (S k) r' bs' Hk) as (G1 & G2 & G3).
    by replace (S i + k)%nat with (i + S k)%nat by lia.
Qed.

Lemma layout_run e : desc m e h phdr secs ->
  exists e' len flag, _elf64_layout e = Ret (Some (len, flag), e') /\ desc m e' h phdr secs /\
    64 <= len < 2 ^ 61 /\ Z.land flag ELF_F_DIRTY <> 0 /\
    Forall (fun a => 0 <= a.1 /\ region_end a <= len) (regions h phdr secs) /\
    (forall i r bs, secs !! i = Some (r, bs) -> has_data i r = true -> 0 <= sh_offset r <= len).
Proof using C L.
  intros D. destruct (lo_sizes _ _ _ L) as (S1 & S2 & S3 & S4 & S5).
  destruct (lo_phdr _ _ _ L) as (P1 & P2 & P3). destruct ident_bytes as [I1 I2].
  pose proof (de_ehdr _ _ _ _ _ D) as Eh. unfold PN_XNUM, SHN_LORESERVE in *.
  assert (T : 0 <= eh_phnum h /\ 0 <= eh_shoff h /\ 0 <= eh_phoff h)
    by (destruct (lo_typed _ _ _ L); typed_fields; unfold uint in *; lia).
  unfold _elf64_layout. rewrite (E_step _ _ _ _ _ (layout_mode_run _ D)).
  assert (Ho : negb (Z.land (e_elf_flags e) ELF_F_LAYOUT_OVERLAP =? 0) = true).
  { destruct C as (fl & hf & rd & -> & _ & _ & Hov).
    pose proof (de_mode _ _ _ _ _ D) as Hm. injection Hm as Hm _ _ _. rewrite Hm.
    by destruct (Z.eqb_spec (Z.land fl ELF_F_LAYOUT_OVERLAP) 0). }
  rewrite (E_step _ _ e true e) by (unfold gets; by rewrite Ho).
  rewrite (E_step _ _ e (Z.lor (e_elf_flags e) (e_phdr_flags e)) e) by done.
  unfold the_ehdr at 1. rewrite (E_step _ _ e h e) by by rewrite Eh.
  rewrite (lo_version _ _ _ L). change (EV_CURRENT =? EV_NONE) with false. cbn match.
  change (valid_version EV_CURRENT) with true. cbn [negb].
  rewrite I1, (E_step _ _ e ELFDATA2LSB e) by done.
  change (ELFDATA2LSB =? ELFDATANONE) with false. cbn match.
  change (valid_encoding ELFDATA2LSB) with true. cbn [negb].
  assert (R1 : set_ehsize (fsize ELF_T_EHDR) h = h).
  { change (fsize ELF_T_EHDR) with 64. rewrite <- S1. by destruct h. }
  rewrite (E_step _ _ _ _ _ (rewrite_ehdr_same _ _ _ Eh R1)).
  change (fsize ELF_T_EHDR) with 64.
  destruct (layout_phdrs_run e D) as (off & E1 & B1 & Hp). rewrite (E_step _ _ _ _ _ E1).
  rewrite (E_step _ _ e (eh_phnum h) e).
  2:{ unfold gets. rewrite (proj2 (de_phdr _ _ _ _ _ D)). by rewrite wrap_small by lia. }
  destruct (Z.leb_spec PN_XNUM (eh_phnum h)) as [Hx|_]; [unfold PN_XNUM in Hx; lia|].
  rewrite (E_step _ _ e (Z.lor (e_elf_flags e) (e_phdr_flags e)) e) by done.
  assert (R2 : set_phtable (eh_phnum h)
                 (if eh_phnum h =? 0 then 0 else fsize ELF_T_PHDR) h = h).
  { change (fsize ELF_T_PHDR) with 56. destruct (eh_phnum h =? 0).
    - destruct P3 as [_ <-]. by destruct h.
    - destruct P3 as [_ <-]. by destruct h. }
  rewrite (E_step _ _ _ _ _ (rewrite_ehdr_same _ _ _ Eh R2)).
  rewrite (E_step _ _ e (length (e_scns e)) e) by done. rewrite (de_length _ _ _ _ _ D).
  destruct (layout_scns_run (length secs) e 0 off (Z.lor (e_elf_flags e) (e_phdr_flags e)) D
    ltac:(lia) ltac:(lia)) as (e1 & o1 & f1 & E2 & D1 & B2 & H2).
  rewrite (E_step _ _ _ _ _ E2). pose proof (de_ehdr _ _ _ _ _ D1) as Eh1.
  destruct (layout_shdrs_run e1 o1 D1 ltac:(lia)) as (o2 & E3 & B3 & H3).
  rewrite (E_step _ _ _ _ _ E3). fold (zlen secs). rewrite wrap_small by lia.
  destruct (Z.leb_spec SHN_LORESERVE (zlen secs)) as [Hx|_]; [unfold SHN_LORESERVE in Hx; lia|].
  rewrite (E_step _ _ e1 f1 e1) by done.
  assert (R3 : set_shtable (zlen secs)
                 (if zlen secs =? 0 then 0 else fsize ELF_T_SHDR) h = h).
  { change (fsize ELF_T_SHDR) with 64. destruct (Z.eqb_spec (zlen secs) 0); [lia|].
    rewrite <- S2, <- S3. by destruct h. }
  rewrite (E_step _ _ _ _ _ (rewrite_ehdr_same _ _ _ Eh1 R3)).
  assert (R4 : set_ident ELFDATA2LSB EV_CURRENT h = h).
  { unfold set_ident. rewrite (app_assoc ELFMAG), <- (lo_ident _ _ _ L), take_drop.
    rewrite <- (lo_version _ _ _ L). by destruct h. }
  rewrite (E_step _ _ _ _ _ (rewrite_ehdr_same _ _ _ Eh1 R4)).
  rewrite (E_step _ _ e1 (e_ehdr_flags e1) e1) by done.
  eexists e1, o2, _. split; [done|]. split; [done|]. split; [lia|]. split.
  - apply dirty_testbit. rewrite Z.lor_spec. destruct C as (fl & hf & rd & -> & Hf & _).
    pose proof (de_mode _ _ _ _ _ D1) as Hm. injection Hm as _ -> _ _. by rewrite Hf, orb_true_r.
  - split.
    2:{ intros i r bs Hi Hd. destruct (shdr_end_bound _ _ _ Hi) as (G1 & _).
        pose proof (H2 i r bs ltac:(split; [lia|by eapply lookup_lt_Some]) Hi Hd). lia. }
    unfold regions. apply List.Forall_cons; [|apply List.Forall_app; split].
    + unfold region_end. cbn [fst snd]. rewrite ehdr_zlen by apply (lo_typed _ _ _ L). lia.
    + destruct (Z.eqb_spec (eh_phnum h) 0) as [|Hne]; [apply List.Forall_nil|].
      apply List.Forall_cons; [|apply List.Forall_nil]. unfold region_end. cbn [fst snd].
      specialize (Hp Hne). lia.
    + apply scn_regions_end; [|lia|lia]. intros k r bs Hk. cbn [Nat.add].
      split; [by eapply lookup_lt_Some|]. destruct (shdr_end_bound _ _ _ Hk) as (G1 & G2 & G3).
      split; [lia|]. intros Hd Hnb. specialize (G3 Hnb).
      pose proof (H2 k r bs ltac:(split; [lia|by eapply lookup_lt_Some]) Hk Hd).
      pose proof (lo_contents _ _ _ L _ _ _ Hk Hd) as Hc.
      destruct (Z.eqb_spec (sh_type r) SHT_NOBITS); [done|]. lia.
Qed.

(** ** Writing *)

(** These regions are in the output. *)
Definition wrote (out : list Z) (l : list region) : Prop :=
  Forall (fun a => at_offset out a.1 a.2) l.

Definition inside (len : Z) (a : region) : Prop := 0 <= a.1 /\ region_end a <= len.

Lemma put_run out off type src dsize :
  translator type = true -> zlen src mod fsize type = 0 -> zlen src <= dsize ->
  inside (zlen out) (off, src) ->
  exists out', put out off type EV_CURRENT src dsize EV_CURRENT ELFDATA2LSB = Ret (Some out') /\
    zlen out' = zlen out /\ at_offset out' off src /\
    forall o cs, at_offset out o cs -> disjoint_regions (o, cs) (off, src) -> at_offset out' o cs.
Proof using.
  intros Ht Hm Hd [Hi1 Hi2]. unfold region_end in Hi2. cbn [fst snd] in *.
  unfold put. rewrite xlate_lsb by done. destruct src as [|b src].
  - exists out. split; [done|]. split; [done|]. split; [apply at_offset_nil; unfold zlen at 1 in Hi2; simpl in Hi2; lia|done].
  - pose proof (splice_run out off (b :: src) Hi1 Hi2) as E. rewrite E. cbn [mbind outcome_bind].
    destruct (splice_Ret _ _ _ _ E) as (H1 & H2 & H3). eexists. split; [done|].
    split; [done|]. split; [done|]. intros o cs Hc Hdis. apply H3; [done|].
    unfold disjoint_regions, region_end in Hdis. cbn [fst snd] in Hdis. lia.
Qed.

Lemma OrdPairs_mid {A} (R : A -> A -> Prop) l x k :
  ForallOrdPairs R (l ++ x :: k) -> Forall (fun a => R a x) l.
Proof using.
  induction l as [|a l IH]; [constructor|]. cbn [app]. intros Hp. inversion Hp; subst.
  constructor; [|by apply IH]. by eapply List.Forall_forall in H2; [|apply in_elt].
Qed.

(** One write keeps what was written. *)
Lemma wrote_put out l a k type dsize :
  wrote out l -> ForallOrdPairs disjoint_regions (l ++ a :: k) ->
  translator type = true -> zlen a.2 mod fsize type = 0 -> zlen a.2 <= dsize ->
  inside (zlen out) a ->
  exists out', put out a.1 type EV_CURRENT a.2 dsize EV_CURRENT ELFDATA2LSB = Ret (Some out') /\
    zlen out' = zlen out /\ wrote out' (l ++ [a]).
Proof using.
  intros Hw Hp Ht Hm Hd Hi. destruct a as [off src].
  destruct (put_run out off type src dsize Ht Hm Hd Hi) as (out' & E & Hl & Ha & Hk).
  exists out'. split; [done|]. split; [done|]. apply OrdPairs_mid in Hp.
  apply List.Forall_app. split; [|by repeat constructor].
  apply List.Forall_forall. intros [o cs] Hin. apply Hk.
  - by eapply List.Forall_forall in Hw.
  - by eapply List.Forall_forall in Hp.
Qed.

Lemma write_data_run e e1 i r bs out l k :
  desc m e h phdr secs -> secs !! i = Some (r, bs) -> has_data i r = true ->
  sh_type r <> SHT_NOBITS -> loaded e i r bs -> e1 = e ->
  wrote out l -> ForallOrdPairs disjoint_regions (l ++ data_region i r bs ++ k) ->
  Forall (inside (zlen out)) (data_region i r bs) ->
  exists out', (s ← scn_at i; write_datas ELFDATA2LSB EV_CURRENT (sh_offset r) (s_data s) out) e1 =
    Ret ((true, out'), e) /\ zlen out' = zlen out /\ wrote out' (l ++ data_region i r bs).
Proof using.
  intros D Hi Hd Hnb (_ & s & sd & Hs & Ed & Hb) -> Hw Hp Hin.
  destruct (desc_scn D _ _ _ Hi) as (s1 & Hs1 & Hr). rewrite Hs in Hs1. injection Hs1 as <-.
  destruct (sr_data _ _ _ _ _ Hr Hd) as (sd1 & Ed1 & Hv & Ho & _ & _ & Hx).
  rewrite Ed in Ed1. injection Ed1 as <-.
  destruct (Z.eqb_spec (sh_type r) SHT_NOBITS) as [|Hne]; [done|].
  destruct Hx as (Hz & Htr & Hm & _). destruct (Hb Hnb) as (_ & _ & Hbuf).
  rewrite (E_step _ _ _ _ _ (scn_at_run _ _ _ Hs)), Ed. cbn [write_datas].
  unfold data_region in *. rewrite Hd in *.
  destruct (Z.eqb_spec (sh_type r) SHT_NOBITS) as [|_]; [done|]. cbn [negb andb] in *.
  unfold write_data. rewrite Hz. destruct (decide (bs = [])) as [->|Hbs].
  - rewrite bool_decide_true in * by done. cbn [negb andb] in *. rewrite app_nil_r.
    rewrite (E_step _ _ e (true, out) e) by done. by exists out.
  - rewrite bool_decide_false in * by done. cbn [negb andb] in *.
    destruct (Hbuf Hbs) as (b & Eb & Hbb).
    destruct (Z.eqb_spec (zlen bs) 0) as [E0|_].
    { destruct bs; [done|unfold zlen in E0; simpl in E0; lia]. }
    rewrite Eb, Hv, xltsize_lsb, Ho, Z.add_0_r by done.
    destruct (wrote_put out l (sh_offset r, bs) k (d_type (sd_data sd)) (zlen bs))
      as (out' & E & Hl & Hw'); try done; [by inversion Hin|].
    assert (Er : (src ← buffer_bytes b (zlen bs);
        r0 ← liftE (put out (sh_offset r) (d_type (sd_data sd)) EV_CURRENT src (zlen bs) EV_CURRENT
               ELFDATA2LSB);
        mret (match r0 with Some o => (true, o) | None => (false, out) end)) e =
      Ret ((true, out'), e)).
    { rewrite (E_step _ _ _ _ _ Hbb).
      cbn [fst snd] in E. rewrite (E_step _ _ e (Some out') e); [done|].
      unfold liftE. by rewrite E. }
    rewrite (E_step _ _ _ _ _ Er). by exists out'.
Qed.

Lemma write_scn_run e i r bs out l k :
  desc m e h phdr secs -> secs !! i = Some (r, bs) -> wrote out l ->
  ForallOrdPairs disjoint_regions
    (l ++ (eh_shoff h + Z.of_nat i * 64, encode_shdr r) :: data_region i r bs ++ k) ->
  Forall (inside (zlen out)) ((eh_shoff h + Z.of_nat i * 64, encode_shdr r) :: data_region i r bs) ->
  exists out' e', write_scn h ELFDATA2LSB i out e = Ret ((true, out'), e') /\
    desc m e' h phdr secs /\ zlen out' = zlen out /\
    wrote out' (l ++ (eh_shoff h + Z.of_nat i * 64, encode_shdr r) :: data_region i r bs).
Proof using L.
  intros D Hi Hw Hp Hin. destruct (desc_scn D _ _ _ Hi) as (s & Hs & Hr).
  destruct (lo_sizes _ _ _ L) as (_ & Hse & _). apply List.Forall_cons_iff in Hin as [Hi1 Hi2].
  unfold write_scn. rewrite (E_step _ _ _ _ _ (the_shdr_run _ _ _ Hs)), (sr_shdr _ _ _ _ _ Hr).
  rewrite Hse, (lo_version _ _ _ L).
  destruct (wrote_put out l _ _ ELF_T_SHDR 64 Hw Hp eq_refl) as (o1 & E1 & L1 & W1);
    [by cbn [snd]; rewrite shdr_zlen|by cbn [snd]; rewrite shdr_zlen|done|].
  cbn [fst snd] in E1. rewrite (E_step _ _ e (Some o1) e) by (unfold liftE; by rewrite E1).
  assert (Hnone : data_region i r bs = [] ->
    exists out' e', Ret ((true, o1), e) = Ret ((true, out'), e') /\ desc m e' h phdr secs /\
      zlen out' = zlen out /\
      wrote out' (l ++ (eh_shoff h + Z.of_nat i * 64, encode_shdr r) :: data_region i r bs)).
  { intros ->. by exists o1, e. }
  destruct (decide (i = 0%nat)) as [->|Hne]; [by apply Hnone|].
  destruct (Z.eqb_spec (sh_type r) SHT_NULL) as [En|Hnn].
  { apply Hnone. unfold data_region, has_data. rewrite En. by rewrite andb_false_r. }
  destruct (Z.eqb_spec (sh_type r) SHT_NOBITS) as [En|Hnb].
  { apply Hnone. unfold data_region. rewrite En. by rewrite andb_false_r. }
  assert (Hd : has_data i r = true).
  { unfold has_data. destruct (Nat.eqb_spec i 0); [done|].
    by destruct (Z.eqb_spec (sh_type r) SHT_NULL). }
  cbn [orb]. rewrite (E_step _ _ _ _ _ (scn_at_run _ _ _ Hs)).
  destruct (sr_data _ _ _ _ _ Hr Hd) as (sd & Ed & _). rewrite Ed.
  destruct (getdata_desc _ _ _ _ _ _ _ _ D Hi Hd) as (e' & Eg & D' & _ & Hl).
  rewrite (E_step _ _ _ _ _ Eg).
  destruct (write_data_run e' e' i r bs o1 (l ++ [(eh_shoff h + Z.of_nat i * 64, encode_shdr r)]) k
    D' Hi Hd Hnb Hl eq_refl W1) as (o2 & E2 & L2 & W2).
  - by rewrite <- app_assoc.
  - by rewrite L1.
  - exists o2, e'. split; [exact E2|]. split; [done|]. split; [congruence|].
    by rewrite <- app_assoc in W2.
Qed.

Lemma write_scns_run l : forall i e out w,
  desc m e h phdr secs -> drop i secs = l -> wrote out w ->
  ForallOrdPairs disjoint_regions (w ++ scn_regions h i l) ->
  Forall (inside (zlen out)) (scn_regions h i l) ->
  exists out' e', write_scns h ELFDATA2LSB (length l) i out e = Ret ((true, out'), e') /\
    desc m e' h phdr secs /\ zlen out' = zlen out /\ wrote out' (w ++ scn_regions h i l).
Proof using L.
  induction l as [|[r bs] l IH]; intros i e out w D Hdr Hw Hp Hin.
  { exists out, e. cbn [scn_regions]. by rewrite app_nil_r. }
  assert (Hi : secs !! i = Some (r, bs)).
  { rewrite <- (Nat.add_0_r i), <- lookup_drop, Hdr. done. }
  cbn [scn_regions length write_scns] in *. rewrite app_comm_cons in *.
  apply List.Forall_app in Hin as [Hin1 Hin2].
  destruct (write_scn_run e i r bs out w (scn_regions h (S i) l) D Hi Hw Hp Hin1)
    as (o1 & e1 & E1 & D1 & L1 & W1).
  rewrite (E_step _ _ _ _ _ E1). cbn [fst snd].
  destruct (IH (S i) e1 o1 (w ++ (eh_shoff h + Z.of_nat i * 64, encode_shdr r) ::
    data_region i r bs) D1) as (o2 & e2 & E2 & D2 & L2 & W2); [|exact W1| | |].
  - rewrite <- Nat.add_1_r, <- drop_drop, Hdr. done.
  - by rewrite <- app_assoc.
  - by rewrite L1.
  - exists o2, e2. split; [done|]. split; [done|]. split; [congruence|].
    by rewrite <- app_assoc in W2.
Qed.

Hypothesis alloc : forall n, malloc_ok n = true.

Lemma update_pointers_run len e : exists e', _elf_update_pointers len e = Ret (true, e').
Proof using alloc.
  unfold _elf_update_pointers. rewrite alloc. destruct (len <=? zlen (e_data e)); eauto.
Qed.

Lemma write_run e out :
  desc m e h phdr secs -> Forall (inside (zlen out)) (regions h phdr secs) ->
  exists out' e', _elf64_write out (zlen out) e = Ret ((true, out'), e') /\
    zlen out' = zlen out /\ wrote out' (regions h phdr secs).
Proof using L alloc.
  intros D Hin. pose proof (lo_disjoint _ _ _ L) as Hdis. destruct ident_bytes as [I1 I2].
  destruct (lo_sizes _ _ _ L) as (S1 & _). destruct (lo_phdr _ _ _ L) as (P1 & _ & P3).
  unfold regions in *. apply List.Forall_cons_iff in Hin as [Hin0 Hin].
  apply List.Forall_app in Hin as [Hin1 Hin2].
  unfold _elf64_write, the_ehdr. rewrite (E_step _ _ e h e) by by rewrite (de_ehdr _ _ _ _ _ D).
  rewrite I1, (E_step _ _ e ELFDATA2LSB e) by done. rewrite S1, (lo_version _ _ _ L).
  pose proof (ehdr_zlen h (proj2 (et_ident _ (lo_typed _ _ _ L)))) as Hz.
  destruct (wrote_put out [] (0, encode_ehdr h) _ ELF_T_EHDR 64 (List.Forall_nil _) Hdis eq_refl)
    as (o1 & E1 & L1 & W1); [by cbn [snd]; rewrite Hz|by cbn [snd]; rewrite Hz|done|].
  cbn [fst snd] in E1. rewrite (E_step _ _ e (Some o1) e) by (unfold liftE; by rewrite E1).
  rewrite (E_step _ _ e (eh_phnum h) e).
  2:{ unfold gets. by rewrite (proj2 (de_phdr _ _ _ _ _ D)). }
  rewrite (E_step _ _ e phdr e).
  2:{ unfold gets. by rewrite (proj1 (de_phdr _ _ _ _ _ D)). }
  assert (Ep : exists o2, (if eh_phnum h =? 0 then mret (Some o1)
     else src ← liftE (slice phdr 0 (eh_phnum h * fsize ELF_T_PHDR));
          liftE (put o1 (eh_phoff h) ELF_T_PHDR EV_CURRENT src (eh_phnum h * eh_phentsize h)
                   EV_CURRENT ELFDATA2LSB)) e = Ret (Some o2, e) /\ zlen o2 = zlen out /\
     wrote o2 ((0, encode_ehdr h) :: if eh_phnum h =? 0 then [] else [(eh_phoff h, phdr)])).
  { destruct (Z.eqb_spec (eh_phnum h) 0) as [E0|Hne]; [by exists o1|].
    destruct P3 as (Po & Pe). change (fsize ELF_T_PHDR) with 56. rewrite Pe.
    destruct (wrote_put o1 [(0, encode_ehdr h)] (eh_phoff h, phdr) (scn_regions h 0 secs)
      ELF_T_PHDR (eh_phnum h * 56) W1 Hdis eq_refl) as (o2 & E2 & L2 & W2).
    - cbn [snd]. rewrite P1. change (fsize ELF_T_PHDR) with 56.
      rewrite Z.mul_comm. apply Z.mod_mul. lia.
    - cbn [snd]. lia.
    - rewrite L1. by inversion Hin1.
    - exists o2. split; [|by split; [congruence|]].
      assert (Hsl : slice phdr 0 (eh_phnum h * 56) = Ret phdr).
      { apply slice_Ret. pose proof (zlen_nn phdr). split; [lia|]. split; [lia|]. split; [lia|].
        rewrite Z.mul_comm, <- P1, zlen_length, drop_0, firstn_all. done. }
      rewrite Hsl, (E_step _ _ e phdr e) by done. unfold liftE. cbn [fst snd] in E2. by rewrite E2. }
  destruct Ep as (o2 & E2 & L2 & W2). rewrite (E_step _ _ _ _ _ E2).
  rewrite (E_step _ _ e (length (e_scns e)) e) by done. rewrite (de_length _ _ _ _ _ D).
  destruct (write_scns_run secs 0 e o2 _ D eq_refl W2) as (o3 & e3 & E3 & D3 & L3 & W3).
  { exact Hdis. }
  { by rewrite L2. }
  rewrite (E_step _ _ _ _ _ E3). cbn [fst snd negb].
  rewrite (E_step _ _ e3 (e_readable e3) e3) by done.
  destruct (update_pointers_run (zlen out) e3) as [e4 E4].
  assert (Eo : exists e5, (if e_readable e3 then _elf_update_pointers (zlen out) else mret true) e3 =
    Ret (true, e5)) by (destruct (e_readable e3); eauto).
  destruct Eo as [e5 E5]. rewrite (E_step _ _ _ _ _ E5). cbn [negb].
  rewrite (E_step _ _ e5 tt (written h (zlen out) e5)) by done.
  eexists o3, _. split; [done|]. split; [congruence|]. exact W3.
Qed.

Context `{Io}.
Hypothesis io : ftruncate_ok = true /\ mmap_ok = true.

Lemma scn_regions_lookup i l k r bs : l !! k = Some (r, bs) ->
  (eh_shoff h + Z.of_nat (i + k) * 64, encode_shdr r) ∈ scn_regions h i l /\
  forall a, a ∈ data_region (i + k) r bs -> a ∈ scn_regions h i l.
Proof using.
  revert i k. induction l as [|[r' bs'] l IH]; intros i k Hk; [done|]. cbn [scn_regions].
  destruct k as [|k]; [injection Hk as -> ->; rewrite Nat.add_0_r|].
  - split; [left|]. intros a Ha. right. apply elem_of_app. by left.
  - destruct (IH (S i) k Hk) as [H1 H2]. replace (i + S k)%nat with (S i + k)%nat by lia.
    split; [|intros a Ha]; right; apply elem_of_app; right; auto.
Qed.

(** The output is an image of the same headers, with the same contents. *)
Lemma update_run file e :
  desc m e h phdr secs ->
  exists file' e', elf_update file e = Ret ((Some (zlen file'), file'), e') /\
    wrote file' (regions h phdr secs) /\ zlen file' < 2 ^ 61 /\
    (forall i r bs, secs !! i = Some (r, bs) -> has_data i r = true ->
       0 <= sh_offset r <= zlen file').
Proof using C L alloc io.
  intros D. destruct io as [Ht Hm].
  destruct (layout_run e D) as (e1 & len & flag & E1 & D1 & Hlen & Hf & Hin & Ho).
  assert (Hz : zlen (zeros len) = len).
  { unfold zeros, zlen. rewrite length_replicate. lia. }
  destruct (write_run e1 (zeros len) D1) as (file' & e2 & E2 & L2 & W2); [by rewrite Hz|].
  rewrite Hz in E2. exists file', e2. split; [|split; [done|split; [lia|]]].
  2:{ intros i r bs Hi Hd. specialize (Ho i r bs Hi Hd). lia. }
  unfold elf_update. destruct C as (fl & hf & rd & -> & _).
  pose proof (de_mode _ _ _ _ _ D) as Hmo. injection Hmo as _ _ _ Hw. rewrite Hw.
  rewrite (bool_decide_false (e_ehdr e = None)) by by rewrite (de_ehdr _ _ _ _ _ D).
  rewrite (bool_decide_true (e_kind e = ELF_K_ELF)) by apply (de_kind _ _ _ _ _ D).
  rewrite (de_class _ _ _ _ _ D), Z.eqb_refl. cbn [negb].
  rewrite (E_step _ _ _ _ _ E1).
  destruct (Z.eqb_spec len u64_max); [lia|].
  destruct (Z.eqb_spec (Z.land flag ELF_F_DIRTY) 0); [done|]. cbn [negb].
  unfold _elf_output, resized. rewrite Ht, Hm.
  assert (Et : take (Z.to_nat len) (zeros len) = zeros len).
  { apply take_ge. unfold zeros. rewrite length_replicate. lia. }
  assert (Er : drop (Z.to_nat len) (zeros len) = []).
  { apply drop_ge. unfold zeros. rewrite length_replicate. lia. }
  rewrite Et, Er, (E_step _ _ _ _ _ E2). cbn [fst snd]. rewrite app_nil_r.
  by rewrite L2, Hz.
Qed.

Lemma wrote_at out a : wrote out (regions h phdr secs) -> a ∈ regions h phdr secs ->
  at_offset out a.1 a.2.
Proof using. intros Hw Ha. by eapply Forall_forall in Hw. Qed.

Lemma update_image file' :
  wrote file' (regions h phdr secs) -> zlen file' < 2 ^ 61 -> elf_image file' h phdr secs.*1.
Proof using L.
  intros Hw Hlen. destruct L as [L1 L2 L3 L4 L5 _ L7 _ _ _]. constructor; try done.
  - lia.
  - apply (wrote_at _ (0, encode_ehdr h) Hw). left.
  - unfold zlen in *. by rewrite length_fmap.
  - intros i r Hi. rewrite list_lookup_fmap in Hi.
    destruct (secs !! i) as [[r0 bs]|] eqn:E; [|done]. injection Hi as <-.
    split; [by apply (L7 _ _ _ E)|]. destruct (scn_regions_lookup 0 secs i r0 bs E) as [Hr _].
    rewrite (Z.mul_comm 64).
    apply (wrote_at _ (eh_shoff h + Z.of_nat i * 64, encode_shdr r0) Hw). right.
    apply elem_of_app. by right.
  - destruct L5 as (P1 & P2 & P3). split; [done|]. split; [done|].
    destruct (Z.eqb_spec (eh_phnum h) 0) as [E0|Hne]; [done|]. destruct P3 as [P3 P4].
    split; [done|]. split; [done|]. apply (wrote_at _ (eh_phoff h, phdr) Hw). right.
    apply elem_of_app. left. destruct (Z.eqb_spec (eh_phnum h) 0); [done|]. by left.
Qed.

Lemma update_placed file' i r bs :
  wrote file' (regions h phdr secs) -> secs !! i = Some (r, bs) ->
  (has_data i r = true -> 0 <= sh_offset r <= zlen file') ->
  (has_data i r = false -> bs = []) -> placed file' i r bs.
Proof using L.
  intros Hw Hi Ho Hn. destruct (lo_scns _ _ _ L _ _ _ Hi) as (Ht & _).
  constructor; [done|done| |].
  - intros Hd Hnb. pose proof (lo_contents _ _ _ L _ _ _ Hi Hd) as Hc. rewrite Hnb, Z.eqb_refl in Hc.
    split; [done|]. by apply Ho.
  - intros Hd Hnb. pose proof (lo_contents _ _ _ L _ _ _ Hi Hd) as Hc.
    destruct (Z.eqb_spec (sh_type r) SHT_NOBITS) as [|Hne]; [done|]. split; [|done].
    destruct (decide (bs = [])) as [->|Hbs]; [by apply at_offset_nil, Ho|].
    apply (wrote_at _ (sh_offset r, bs) Hw). right. apply elem_of_app. right.
    destruct (scn_regions_lookup 0 secs i r bs Hi) as [_ Hr]. apply Hr. unfold data_region.
    cbn [Nat.add]. rewrite Hd. destruct (Z.eqb_spec (sh_type r) SHT_NOBITS); [done|].
    rewrite bool_decide_false by done. by left.
Qed.

Lemma OrdPairs_app {A} (R : A -> A -> Prop) l k a b :
  ForallOrdPairs R (l ++ k) -> a ∈ l -> b ∈ k -> R a b.
Proof using.
  induction l as [|x l IH]; cbn [app]; intros Hp Ha Hb; [by apply elem_of_nil in Ha|].
  inversion Hp as [|? ? H1 H2]; subst. apply elem_of_cons in Ha as [->|Ha]; [|by apply IH].
  rewrite Forall_forall in H1. apply H1, elem_of_app. by right.
Qed.

Lemma OrdPairs_tail {A} (R : A -> A -> Prop) l k :
  ForallOrdPairs R (l ++ k) -> ForallOrdPairs R k.
Proof using. induction l as [|x l IH]; [done|]. intros Hp. inversion Hp; subst. auto. Qed.

Lemma scn_regions_pairs l : forall i k k' r r' bs bs' a b,
  ForallOrdPairs disjoint_regions (scn_regions h i l) -> (k < k')%nat ->
  l !! k = Some (r, bs) -> l !! k' = Some (r', bs') ->
  a ∈ data_region (i + k) r bs -> b ∈ data_region (i + k') r' bs' -> disjoint_regions a b.
Proof using.
  induction l as [|[r0 bs0] l IH]; intros i k k' r r' bs bs' a b Hp Hk H1 H2 Ha Hb; [done|].
  destruct k' as [|k']; [lia|]. cbn [scn_regions] in Hp. rewrite app_comm_cons in Hp.
  cbn in H2. replace (i + S k')%nat with (S i + k')%nat in Hb by lia. destruct k as [|k].
  - injection H1 as -> ->. rewrite Nat.add_0_r in Ha.
    apply (OrdPairs_app _ _ _ _ _ Hp); [by right|]. by eapply (scn_regions_lookup (S i)).
  - replace (i + S k)%nat with (S i + k)%nat in Ha by lia.
    apply OrdPairs_tail in Hp. eapply (IH (S i) k k'); eauto. lia.
Qed.

Lemma has_data_type i r bs : secs !! i = Some (r, bs) -> has_data i r = false ->
  sh_type r = SHT_NULL.
Proof using L.
  intros Hi. unfold has_data. destruct (Nat.eqb_spec i 0) as [->|].
  - intros _. apply (lo_first _ _ _ L _ _ Hi).
  - by destruct (Z.eqb_spec (sh_type r) SHT_NULL).
Qed.

(** Sections whose contents do not overlap in the file. *)
Lemma regions_apart i j r r' bs bs' : (i < j)%nat ->
  secs !! i = Some (r, bs) -> secs !! j = Some (r', bs') -> apart_shdr r r'.
Proof using L.
  intros Hij Hi Hj. unfold apart_shdr.
  destruct (has_data i r) eqn:Hd; [|left; by eapply has_data_type].
  destruct (has_data j r') eqn:Hd'; [|right; right; left; by eapply has_data_type].
  pose proof (lo_contents _ _ _ L _ _ _ Hi Hd) as Hc.
  pose proof (lo_contents _ _ _ L _ _ _ Hj Hd') as Hc'.
  destruct (Z.eqb_spec (sh_type r) SHT_NOBITS) as [->|Hn]; [auto|].
  destruct (Z.eqb_spec (sh_type r') SHT_NOBITS) as [->|Hn']; [auto 6|].
  destruct Hc as [<- _], Hc' as [<- _].
  destruct (decide (bs = [])) as [->|Hb]; [auto 8|].
  destruct (decide (bs' = [])) as [->|Hb']; [auto 8|]. do 6 right.
  pose proof (lo_disjoint _ _ _ L) as Hp. unfold regions in Hp. rewrite app_comm_cons in Hp.
  apply OrdPairs_tail in Hp.
  apply (scn_regions_pairs secs 0 i j r r' bs bs' (sh_offset r, bs) (sh_offset r', bs') Hp Hij Hi Hj);
    unfold data_region; cbn [Nat.add].
  - rewrite Hd. destruct (Z.eqb_spec (sh_type r) SHT_NOBITS); [done|].
    rewrite bool_decide_false by done. by left.
  - rewrite Hd'. destruct (Z.eqb_spec (sh_type r') SHT_NOBITS); [done|].
    rewrite bool_decide_false by done. by left.
Qed.


(** Opening what was written. *)
Lemma written_desc e file' w :
  desc m e h phdr secs -> wrote file' (regions h phdr secs) -> zlen file' < 2 ^ 61 ->
  (forall i r bs, secs !! i = Some (r, bs) -> has_data i r = true ->
     0 <= sh_offset r <= zlen file') ->
  elf_begin (Some file') w = Some (unread_elf file' w) /\
  cooked (unread_elf file' w) = Ret (true, opened_elf file' h phdr secs.*1 w) /\
  desc (0, 0, true, w) (opened_elf file' h phdr secs.*1 w) h phdr secs.
Proof using L alloc.
  intros D Hw Hl Ho. pose proof (update_image file' Hw Hl) as Hi.
  split; [by eapply begin_image|]. split.
  { unfold cooked. cbn [e_ehdr unread_elf]. by apply cook_image. }
  apply opened_desc; [done| |].
  - intros i r bs Hs. apply (update_placed file' i r bs Hw Hs); [exact (Ho i r bs Hs)|].
    destruct (desc_scn D _ _ _ Hs) as (s & _ & Hr). apply (sr_none _ _ _ _ _ Hr).
  - intros i j r r' bs bs' Hij Hs Hs'. destruct (decide (i < j)%nat).
    + exact (regions_apart i j r r' bs bs' l Hs Hs').
    + apply apart_shdr_sym, (regions_apart j i r' r bs' bs); [lia|done|done].
Qed.
End desc.

(** C10: Writing a file and reading it back: on a descriptor whose layout the
    program controls and has set up without overlaps, [elf_update] writes a
    file, and opening that file gives a descriptor of the same header, program
    headers, section headers and section contents, whatever part of the old
    file libelf had loaded. *)
Theorem elf_update_roundtrip `{Io} m file e h phdr secs w :
  (forall n, malloc_ok n = true) -> ftruncate_ok = true /\ mmap_ok = true ->
  controls m -> desc m e h phdr secs -> laid_out h phdr secs ->
  exists file' e' e0 e1,
    elf_update file e = Ret ((Some (zlen file'), file'), e') /\
    elf_begin (Some file') w = Some e0 /\ cooked e0 = Ret (true, e1) /\
    desc (0, 0, true, w) e1 h phdr secs.
Proof using.
  intros Ha Hio C D L.
  destruct (update_run C L Ha Hio file e D) as (file' & e' & E & Hw & Hl & Ho).
  destruct (written_desc L Ha e file' w D Hw Hl Ho) as (E1 & E2 & D').
  by exists file', e', (unread_elf file' w), (opened_elf file' h phdr secs.*1 w).
Qed.
End env.
