(* ===== verification/ElfTool.v ===== *)
(** * The metadata tool's ELF helpers on abstract contents

    Each helper of [ElfUtil] on a descriptor with abstract contents ([desc]):
    the searches find the first section with a name, the data of a section are
    its contents, and [add_section] and [update_section] extend or change the
    abstract list of sections. *)

From S2P Require Import Prelude Machine CallSite LibElf ElfUpdate ElfUtil ElfSpec ElfDesc.

#[local] Open Scope Z_scope.

Import Lib Tool.

Abbreviation contents := (list (Elf64_Shdr * list Z)).

(** The table of section names: its index and its strings, which every header
    refers to. *)
Record named_by (h : Elf64_Ehdr) (secs : contents) (n : nat) (strs : list Z) : Prop := {
  nb_index : eh_shstrndx h = Z.of_nat n /\ n <> 0%nat /\ Z.of_nat n < SHN_XINDEX;
  nb_section : exists r, secs !! n = Some (r, strs) /\ sh_type r = SHT_STRTAB;
  nb_table : table_ok strs;
  nb_names : Forall (fun rb => 0 <= sh_name rb.1 < zlen strs) secs;
}.

(** The index of the first section with a name, from index [i] on. *)
Fixpoint first_named (strs name : list Z) (i : nat) (l : contents) : option nat :=
  match l with
  | [] => None
  | (r, _) :: l' =>
      if decide (string_at strs (sh_name r) = Some name) then Some i
      else first_named strs name (S i) l'
  end.

(** Section 0 is not searched. *)
Definition find_named (strs name : list Z) (secs : contents) : option nat :=
  first_named strs name 1 (drop 1 secs).

Lemma first_named_lookup strs name l : forall i k,
  first_named strs name i l = Some k ->
  exists r bs, (i <= k)%nat /\ l !! (k - i)%nat = Some (r, bs) /\
    string_at strs (sh_name r) = Some name.
Proof.
  induction l as [|[r bs] l IH]; intros i k Hf; [done|]. cbn [first_named] in Hf.
  case_decide as E.
  - injection Hf as <-. exists r, bs. by rewrite Nat.sub_diag.
  - destruct (IH _ _ Hf) as (r' & bs' & Hle & Hl & Hs). exists r', bs'. split; [lia|].
    replace (k - i)%nat with (S (k - S i)) by lia. done.
Qed.

Lemma find_named_lookup strs name secs k : find_named strs name secs = Some k ->
  exists r bs, k <> 0%nat /\ secs !! k = Some (r, bs) /\ string_at strs (sh_name r) = Some name.
Proof.
  intros Hf. destruct (first_named_lookup _ _ _ _ _ Hf) as (r & bs & Hle & Hl & Hs).
  exists r, bs. split; [lia|]. rewrite lookup_drop in Hl.
  by replace (1 + (k - 1))%nat with k in Hl by lia.
Qed.

(** The search depends on the names only. *)
Lemma first_named_ext strs strs' name l : forall l' i,
  Forall2 (fun a b => string_at strs (sh_name a.1) = string_at strs' (sh_name b.1)) l l' ->
  first_named strs name i l = first_named strs' name i l'.
Proof.
  induction l as [|[r bs] l IH]; intros l' i Hf; inversion Hf as [|? [r' bs'] ? k E Hk]; subst;
    [done|].
  cbn [first_named fst] in *. rewrite E. case_decide; [done|]. by apply IH.
Qed.

Lemma first_named_app strs name l k i :
  first_named strs name i (l ++ k) =
  match first_named strs name i l with
  | Some j => Some j
  | None => first_named strs name (i + length l) k
  end.
Proof.
  revert i. induction l as [|[r bs] l IH]; intros i; [cbn; by rewrite Nat.add_0_r|].
  cbn [app first_named length]. case_decide; [done|]. rewrite IH.
  by replace (S i + length l)%nat with (i + S (length l))%nat by lia.
Qed.

Section env.
Context `{Env}.

(** ** Searches *)

Section search.
Context {m : Z * Z * bool * bool} {h : Elf64_Ehdr} {phdr : list Z} {secs : contents}.
Context {n : nat} {strs : list Z} (N : named_by h secs n strs).

Lemma has_name_run e name r :
  desc m e h phdr secs -> 0 <= sh_name r ->
  exists e', has_name (Z.of_nat n) name r e =
    Ret (bool_decide (string_at strs (sh_name r) = Some name), e') /\
    desc m e' h phdr secs /\ undisturbed e e'.
Proof using N.
  intros D Hr. destruct (nb_section _ _ _ _ N) as (rs & Hs & Ht).
  destruct (nb_index _ _ _ _ N) as (_ & Hn & _).
  destruct (strptr_desc _ _ _ _ _ n rs strs (sh_name r) D Hs Hn Ht (nb_table _ _ _ _ N) Hr)
    as (e' & E & D' & Hu).
  exists e'. split; [|done]. unfold has_name. by rewrite (E_step _ _ _ _ _ E).
Qed.

Lemma find_section_run name l : forall fuel i e,
  desc m e h phdr secs -> drop (S i) secs = l -> (length l < fuel)%nat ->
  exists e', find_section (has_name (Z.of_nat n) name) fuel
      (match i with O => None | S j => Some (S j) end) e =
    Ret (first_named strs name (S i) l, e') /\
    desc m e' h phdr secs /\ undisturbed e e'.
Proof using N.
  induction l as [|[r bs] l IH]; intros fuel i e D Hl Hf; (destruct fuel as [|fuel]; [simpl in Hf; lia|]).
  - cbn [find_section]. rewrite (E_step _ _ _ _ _ (nextscn_desc D i)).
    destruct (decide (S i < length secs)%nat) as [Hlt|]; [|by exists e; auto using undisturbed_refl].
    assert (length (drop (S i) secs) = 0%nat) as Hz by by rewrite Hl.
    rewrite length_drop in Hz. lia.
  - assert (Hi : secs !! S i = Some (r, bs)).
    { rewrite <- (Nat.add_0_r (S i)), <- lookup_drop, Hl. done. }
    cbn [find_section first_named]. rewrite (E_step _ _ _ _ _ (nextscn_desc D i)).
    rewrite decide_True by by eapply lookup_lt_Some.
    rewrite (E_step _ _ _ _ _ (getshdr_desc D _ _ _ Hi)).
    pose proof (nb_names _ _ _ _ N) as Hnm. eapply Forall_lookup_1 in Hnm; [|exact Hi].
    destruct (has_name_run e name r D) as (e1 & E1 & D1 & Hu1); [by cbn in Hnm; lia|].
    rewrite (E_step _ _ _ _ _ E1).
    destruct (decide (string_at strs (sh_name r) = Some name)) as [Es|Es].
    + rewrite bool_decide_true by done. exists e1. auto.
    + rewrite bool_decide_false by done.
      destruct (IH fuel (S i) e1 D1) as (e2 & E2 & D2 & Hu2).
      * rewrite <- (Nat.add_1_r (S i)), <- drop_drop, Hl. done.
      * simpl in Hf. lia.
      * exists e2. split; [exact E2|]. split; [done|]. by eapply undisturbed_trans.
Qed.

Lemma get_section_by_name_run e name :
  desc m e h phdr secs ->
  exists e', get_section_by_name name e = Ret (find_named strs name secs, e') /\
    desc m e' h phdr secs /\ undisturbed e e'.
Proof using N.
  intros D. destruct (nb_index _ _ _ _ N) as (Hx & _ & Hlt). unfold get_section_by_name.
  assert (Hxi : eh_shstrndx h <> SHN_XINDEX) by lia.
  rewrite (E_step _ _ _ _ _ (getshdrstrndx_desc D Hxi)), Hx. unfold search.
  rewrite (E_step _ _ _ _ _ (getshdrnum_desc D)), (E_step _ _ e (length (e_scns e)) e) by done.
  apply (find_section_run name (drop 1 secs) _ 0 e D eq_refl).
  rewrite length_drop, (de_length _ _ _ _ _ D). lia.
Qed.
End search.

(** ** Section data *)

(** Reading a section: it has one buffer, and its content is there. *)
Lemma get_num_data_blocks_run m e h phdr secs i r bs :
  desc m e h phdr secs -> secs !! i = Some (r, bs) -> has_data i r = true ->
  exists e', get_num_data_blocks i e = Ret (1, e') /\ desc m e' h phdr secs /\
    undisturbed e e' /\ loaded e' i r bs.
Proof using.
  intros D Hi Hd. destruct (getdata_desc _ _ _ _ _ _ _ _ D Hi Hd) as (e' & E & D' & Hu & Hl).
  exists e'. split; [|done]. destruct Hl as (E' & s & sd & Hs & Ed & _).
  destruct (desc_scn D _ _ _ Hi) as (s0 & Hs0 & Hr0).
  destruct (sr_data _ _ _ _ _ Hr0 Hd) as (sd0 & Ed0 & _).
  destruct (has_data_ne _ _ Hd) as [Hi0 _]. unfold get_num_data_blocks.
  rewrite (E_step _ _ _ _ _ (scn_at_run _ _ _ Hs0)), Ed0. cbn [length count_blocks].
  by rewrite (E_step _ _ _ _ _ E), (E_step _ _ _ _ _ (getdata_end _ _ _ _ Hs Ed Hi0)).
Qed.

(** The buffer of a section that is not empty, and what it holds. *)
Lemma get_section_data_run m e h phdr secs i r bs :
  desc m e h phdr secs -> secs !! i = Some (r, bs) -> has_data i r = true ->
  sh_type r <> SHT_NOBITS -> bs <> [] ->
  exists b e', get_section_data i e = Ret (Some b, e') /\ desc m e' h phdr secs /\
    undisturbed e e' /\
    buffer_bytes b (zlen bs) e' = Ret (bs, e') /\
    exists s sd, e_scns e' !! i = Some s /\ s_data s = [sd] /\ d_buf (sd_data sd) = Some b.
Proof using.
  intros D Hi Hd Hnb Hbs.
  destruct (get_num_data_blocks_run _ _ _ _ _ _ _ _ D Hi Hd) as (e' & E & D' & Hu & Hl).
  destruct Hl as (E' & s & sd & Hs & Ed & Hb). destruct (Hb Hnb) as (Hrd & Hz & Hbuf).
  destruct (Hbuf Hbs) as (b & Eb & Hbb). exists b, e'.
  split; [|split; [done|split; [done|split; [done|eauto 6]]]].
  unfold get_section_data. rewrite (E_step _ _ _ _ _ E). change (1 <? 1) with false. cbn match.
  rewrite (E_step _ _ _ _ _ E'), (E_step _ _ _ _ _ (data_of_run _ _ _ _ Hs Ed)). by rewrite Eb.
Qed.

(** ** The tool's state *)

Lemma T_step {A B} (c : T A) (f : A -> T B) t a t' : c t = Ret (a, t') -> (c ≫= f) t = f a t'.
Proof using. unfold mbind, T_bind. by intros ->. Qed.

Lemma on_elf_run {A} (c : E A) t e a e' :
  t_elf t = Some e -> c e = Ret (a, e') -> on_elf c t = Ret (a, set_elf (Some e') t).
Proof using. unfold on_elf. intros -> E. cbn [get mbind outcome_bind]. by rewrite E. Qed.

Lemma set_elf_twice a b t : set_elf a (set_elf b t) = set_elf a t.
Proof using. done. Qed.

(** The allocations of the tool: new addresses are fresh, and the last string
    table was not freed. *)
Record heap_ok (t : tool) : Prop := {
  hp_next : 0 < t_next t;
  hp_old : t_old_shstrtab t < t_next t;
  hp_freed : Forall (fun p => p < t_next t) (t_freed t);
  hp_live : t_old_shstrtab t = 0 \/ t_old_shstrtab t ∉ t_freed t;
}.

(** *** Changing one section *)

(** The tool with the section [i] of its descriptor replaced. *)
Definition with_scn (t : tool) (e : Elf) (i : nat) (s : Elf_Scn) : tool :=
  set_elf (Some (set_scns (<[i := s]> (e_scns e)) e)) t.

Lemma with_scn_id t e i s : t_elf t = Some e -> e_scns e !! i = Some s -> with_scn t e i s = t.
Proof using.
  intros Ht Hs. unfold with_scn. rewrite list_insert_id by done. destruct t; cbn in *; subst.
  by destruct e.
Qed.

Lemma upd_scn_on t e i s F : (i < length (e_scns e))%nat ->
  on_elf (upd_scn i F) (with_scn t e i s) = Ret (tt, with_scn t e i (F s)).
Proof using.
  intros Hi. erewrite on_elf_run; [|done|].
  2:{ apply upd_scn_run. cbn [e_scns set_scns]. by apply list_lookup_insert_eq. }
  unfold with_scn. cbn [set_elf t_file t_fds t_elf t_bins t_next t_old_shstrtab t_freed e_scns
    set_scns]. by rewrite list_insert_insert_eq.
Qed.

(** [buf] and [size] of the data, the size in the header, and both dirty. *)
Definition edited (b : buffer) (size : Z) (sd : Scn_Data) (s : Elf_Scn) : Elf_Scn :=
  Scn (s_scn_flags s) (Z.lor (s_shdr_flags s) ELF_F_DIRTY)
    [ScnData (set_buf b size (sd_data sd)) (sd_memdata sd)
       (Z.lor (sd_data_flags sd) ELF_F_DIRTY) (sd_freeme sd) (sd_free_data sd)]
    (s_type s) (s_offset s) (s_size s) (set_size size (s_shdr64 s)).

Lemma edit_run {A} t e i s sd b size (k : T A) :
  t_elf t = Some e -> e_scns e !! i = Some s -> s_data s = [sd] ->
  (on_elf (edit_data i 0 (set_buf b size));; on_elf (edit_shdr i (set_size size));;
   on_elf (elf_flagdata i 0 ELF_F_DIRTY);; on_elf (elf_flagshdr i ELF_F_DIRTY);; k) t =
  k (with_scn t e i (edited b size sd s)).
Proof using.
  intros Ht Hs Ed. rewrite <- (with_scn_id t e i s Ht Hs) at 1.
  pose proof (lookup_lt_Some _ _ _ Hs) as Hi.
  unfold edit_data, edit_shdr, elf_flagdata, elf_flagshdr, upd_data.
  rewrite !(T_step _ _ _ _ _ (upd_scn_on t e i _ _ Hi)).
  f_equal. unfold with_scn, edited. do 4 f_equal.
  unfold set_s_data, set_shdr, set_shdr_flags. cbn. by rewrite Ed.
Qed.

(** Where the new content of a section is: an allocation, or its own place. *)
Definition buffer_for (e : Elf) (i : nat) (b : buffer) (bs : list Z) : Prop :=
  match b with
  | Heap _ l => at_offset l 0 bs
  | Image off => exists s, e_scns e !! i = Some s /\ off = s_offset s /\
      s_type s <> SHT_NULL /\ s_type s <> SHT_NOBITS /\
      at_offset (e_data e) off bs /\ zlen bs <= s_size s
  end.

Lemma buffer_for_undisturbed e e' i b bs :
  undisturbed e e' -> buffer_for e i b bs -> buffer_for e' i b bs.
Proof using.
  intros (Hd & _ & Hp) Hb. destruct b as [off|p l]; [|done].
  destruct Hb as (s & Hs & -> & H1 & H2 & Ha & Hl). destruct (Hp _ _ Hs) as (s' & Hs' & P1 & P2 & P3).
  exists s'. rewrite Hd. unfold same_place in *. repeat split; congruence.
Qed.

(** The descriptor after the edit. *)
Lemma desc_edited m e h phdr secs i r bs s sd b bs' :
  desc m e h phdr secs -> secs !! i = Some (r, bs) -> has_data i r = true ->
  sh_type r <> SHT_NOBITS -> e_scns e !! i = Some s -> s_data s = [sd] ->
  ready (zlen (e_data e)) s sd ->
  zlen bs' mod fsize (d_type (sd_data sd)) = 0 -> buffer_for e i b bs' ->
  desc m (set_scns (<[i := edited b (zlen bs') sd s]> (e_scns e)) e) h phdr
    (<[i := (set_size (zlen bs') r, bs')]> secs).
Proof using.
  intros D Hi Hd Hnb Hs Ed Hrd Hm Hb. destruct (desc_scn D _ _ _ Hi) as (s1 & Hs1 & Hr).
  rewrite Hs in Hs1. injection Hs1 as <-.
  destruct (sr_data _ _ _ _ _ Hr Hd) as (sd1 & Ed1 & Hv & Ho & Ha & Hpl & Hx).
  rewrite Ed in Ed1. injection Ed1 as <-.
  destruct (Z.eqb_spec (sh_type r) SHT_NOBITS) as [|_]; [done|]. destruct Hx as (_ & Htr & _ & _).
  apply (desc_replace D i s); [done| |done]. constructor.
  - cbn. by rewrite (sr_shdr _ _ _ _ _ Hr).
  - cbn. intros Hf. unfold has_data in *. cbn in Hf. congruence.
  - intros _. eexists. split; [done|]. cbn [sd_data set_buf d_version d_off d_align d_type d_size].
    split; [done|]. split; [done|]. split; [done|]. split; [done|].
    cbn [sh_type set_size set_place]. destruct (Z.eqb_spec (sh_type r) SHT_NOBITS); [done|].
    split; [done|]. split; [done|]. split; [done|].
    destruct b as [off|p l].
    + destruct Hb as (s' & Hs' & -> & H1 & H2 & Hat & Hle). rewrite Hs in Hs'. injection Hs' as <-.
      by apply held_image.
    + by eapply held_heap.
Qed.

Lemma update_section_run m t e h phdr secs i r bs b bs' num size :
  t_elf t = Some e -> desc m e h phdr secs -> secs !! i = Some (r, bs) -> has_data i r = true ->
  sh_type r = SHT_PROGBITS -> zlen bs' = size * num -> zlen bs' < 2 ^ 64 -> zlen bs' mod 4 = 0 ->
  buffer_for e i b bs' ->
  exists e', update_section i num size (Some b) t = Ret (SUCCESS, set_elf (Some e') t) /\
    desc m e' h phdr (<[i := (set_size (zlen bs') r, bs')]> secs).
Proof using.
  intros Ht D Hi Hd Hty Hz Hlt Hm Hb. assert (Hnb : sh_type r <> SHT_NOBITS) by by rewrite Hty.
  destruct (getdata_desc _ _ _ _ _ _ _ _ D Hi Hd) as (e1 & E1 & D1 & Hu & Hl).
  apply (buffer_for_undisturbed _ _ _ _ _ Hu) in Hb.
  destruct Hl as (E1' & s & sd & Hs & Ed & Hrdy). destruct (Hrdy Hnb) as (Hrd & _).
  destruct (desc_scn D1 _ _ _ Hi) as (s1 & Hs1 & Hr). rewrite Hs in Hs1. injection Hs1 as <-.
  destruct (sr_data _ _ _ _ _ Hr Hd) as (sd1 & Ed1 & _ & _ & _ & Hpl & Hx).
  rewrite Ed in Ed1. injection Ed1 as <-.
  destruct (Z.eqb_spec (sh_type r) SHT_NOBITS) as [|_]; [done|].
  destruct Hx as (_ & Htr & _ & Hh).
  unfold update_section. rewrite (T_step _ _ _ _ _ (on_elf_run _ _ _ _ _ Ht E1)).
  assert (Ht1 : t_elf (set_elf (Some e1) t) = Some e1) by done.
  rewrite (T_step _ _ _ _ _ (on_elf_run _ _ _ _ _ Ht1 (getshdr_desc D1 _ _ _ Hi))).
  rewrite set_elf_twice, (wrap_small 64 (size * num)) by (pose proof (zlen_nn bs'); lia).
  rewrite (edit_run _ _ _ _ _ _ _ _ Ht1 Hs Ed). rewrite <- Hz.
  exists (set_scns (<[i := edited b (zlen bs') sd s]> (e_scns e1)) e1). split; [done|].
  eapply desc_edited; try done.
  destruct (proj2 Hpl Hty) as [->| ->]; [by rewrite Z.mod_1_r|done].
Qed.
End env.
