(* ===== verification/ElfAdd.v ===== *)
(** * The metadata tool's ELF helpers: adding sections

    [add_section_name] extends the table of section names and [add_section]
    appends a section, on a descriptor with abstract contents. *)

From S2P Require Import Prelude Machine CallSite LibElf ElfUpdate ElfUtil ElfSpec ElfDesc ElfTool.

#[local] Open Scope Z_scope.

Import Lib Tool.

(** What a call leaves alone outside the descriptor. *)
Definition keeps (t t' : tool) : Prop :=
  t_file t' = t_file t /\ t_fds t' = t_fds t /\ t_bins t' = t_bins t.

#[export] Instance keeps_preorder : PreOrder keeps.
Proof.
  split; [by intros t|]. intros t1 t2 t3 (A1 & A2 & A3) (B1 & B2 & B3). repeat split; congruence.
Qed.

(** The table after a name was added: the name is cut at BUF_SIZE. *)
Definition with_name (strs name : list Z) : list Z :=
  strs ++ take (Z.to_nat BUF_SIZE) name ++ [0].

Lemma table_ok_name strs name : table_ok (with_name strs name).
Proof. unfold with_name. rewrite app_assoc. by eexists. Qed.

Lemma zlen_name strs name :
  zlen strs < zlen (with_name strs name) <= zlen strs + BUF_SIZE + 1 /\
  zlen (with_name strs name) = zlen strs + zlen (take (Z.to_nat BUF_SIZE) name) + 1.
Proof.
  unfold with_name. rewrite !zlen_cat. change (zlen [0]) with 1.
  pose proof (zlen_nn (take (Z.to_nat BUF_SIZE) name)).
  assert (zlen (take (Z.to_nat BUF_SIZE) name) <= BUF_SIZE)
    by (unfold zlen; rewrite length_take; unfold BUF_SIZE; lia). lia.
Qed.

(** The old names are where they were. *)
Lemma string_at_old strs more off :
  table_ok strs -> 0 <= off < zlen strs -> string_at (strs ++ more) off = string_at strs off.
Proof.
  intros Ht Ho. destruct (cstring_table strs off more Ht Ho) as [E _].
  unfold string_at at 1. rewrite bool_decide_true; [done|].
  rewrite zlen_cat. pose proof (zlen_nn more). lia.
Qed.

Lemma cstring_text bs rest : 0 ∉ bs -> cstring (bs ++ 0 :: rest) = Some bs.
Proof.
  induction bs as [|b bs IH]; intros Hz; [done|]. apply not_elem_of_cons in Hz as [Hb Hz].
  cbn [app cstring]. destruct (Z.eqb_spec b 0); [congruence|]. by rewrite IH.
Qed.

(** The new name is at the end of the old table. *)
Lemma string_at_new strs name : 0 ∉ name -> zlen name <= BUF_SIZE ->
  string_at (with_name strs name) (zlen strs) = Some name.
Proof.
  intros Hz Hl. unfold string_at, with_name. rewrite take_ge by (unfold zlen in Hl; lia).
  rewrite bool_decide_true.
  - rewrite zlen_length, drop_app_length. by apply cstring_text.
  - rewrite !zlen_cat. change (zlen [0]) with 1. pose proof (zlen_nn name).
    pose proof (zlen_nn strs). lia.
Qed.

(** *** Descriptors with another header, other flags, or one more section *)

Lemma desc_ehdr m e h h' phdr secs :
  desc m e h phdr secs -> eh_phnum h' = eh_phnum h -> desc m (set_ehdr (Some h') e) h' phdr secs.
Proof.
  intros [D1 D2 D3 D4 D5 D6 [D7 D7'] D8 D9 D10] Hp. constructor; try done.
  split; [done|]. cbn. by rewrite Hp.
Qed.

Lemma desc_flags m e h phdr secs a b c :
  desc m e h phdr secs -> desc (a, b, m.1.2, m.2) (set_flags a b c e) h phdr secs.
Proof.
  intros [D1 D2 D3 D4 D5 D6 D7 D8 D9 D10]. constructor; try done.
  unfold mode in *. cbn. by rewrite <- D1.
Qed.

Lemma scn_rel_flags image i s r bs f :
  scn_rel image i s r bs -> scn_rel image i (set_shdr_flags f s) r bs.
Proof.
  intros [R1 R2 R3]. constructor; [done|done|]. intros Hd.
  destruct (R3 Hd) as (sd & E & Hv & Ho & Ha & Hp & Hx). exists sd.
  do 5 (split; [done|]). destruct (sh_type r =? SHT_NOBITS); [exact Hx|].
  destruct Hx as (X1 & X2 & X3 & Hh). do 3 (split; [done|]).
  destruct Hh; [by apply held_file|by apply held_image|by eapply held_heap].
Qed.

Lemma desc_append m e h phdr secs s r :
  desc m e h phdr secs -> s_shdr64 s = r -> sh_type r = SHT_NULL -> s_type s = SHT_NULL ->
  desc m (set_scns (e_scns e ++ [s]) e) h phdr (secs ++ [(r, [])]).
Proof.
  intros [D1 D2 D3 D4 D5 D6 D7 D8 D9 D10] Hr Ht Hs. constructor; try done; cbn [e_scns set_scns e_data].
  - rewrite !length_app. cbn. lia.
  - intros i s' r' bs Hi Hi'. destruct (decide (i < length secs)%nat) as [Hl|Hl].
    + rewrite lookup_app_l in Hi by lia. rewrite lookup_app_l in Hi' by lia. by eapply D9.
    + rewrite lookup_app_r in Hi by lia. rewrite lookup_app_r in Hi' by lia. rewrite D8 in Hi.
      destruct (i - length secs)%nat; [|done]. injection Hi as <-. injection Hi' as <- <-.
      constructor; [done|done|]. unfold has_data. rewrite Ht. by rewrite andb_false_r.
  - intros i j s1 s2 Hij H1 H2. unfold apart.
    destruct (decide (i < length (e_scns e))%nat) as [Hl|Hl].
    + rewrite lookup_app_l in H1 by lia. destruct (decide (j < length (e_scns e))%nat) as [Hk|Hk].
      * rewrite lookup_app_l in H2 by lia. exact (D10 _ _ _ _ Hij H1 H2).
      * rewrite lookup_app_r in H2 by lia. destruct (j - _)%nat; [|done]. injection H2 as <-. auto.
    + rewrite lookup_app_r in H1 by lia. destruct (i - _)%nat; [|done]. injection H1 as <-. auto.
Qed.

(** A header changed in size or place, for a section of the same type. *)
Lemma scn_rel_shdr image i s r bs r' :
  scn_rel image i s r bs -> sh_type r' = sh_type r -> sh_size r' = sh_size r ->
  scn_rel image i (set_shdr r' s) r' bs.
Proof.
  intros [R1 R2 R3] Ht Hz. assert (Eh : has_data i r' = has_data i r) by (unfold has_data; by rewrite Ht).
  constructor; [done|by rewrite Eh|]. rewrite Eh. intros Hd.
  destruct (R3 Hd) as (sd & E & Hv & Ho & Ha & Hp & Hx). exists sd. do 4 (split; [done|]).
  split; [unfold plain in *; by rewrite Ht|]. rewrite Ht, Hz.
  destruct (sh_type r =? SHT_NOBITS); [exact Hx|].
  destruct Hx as (X1 & X2 & X3 & Hh). do 3 (split; [done|]).
  destruct Hh; [by apply held_file|by apply held_image|by eapply held_heap].
Qed.

Section env.
Context `{Env}.
Hypothesis alloc : forall n, malloc_ok n = true.

Lemma on_elf_ret {A} (c : E A) t e a e' :
  t_elf t = Some e -> c e = Ret (a, e') -> e' = e -> on_elf c t = Ret (a, t).
Proof using.
  intros Ht E ->. rewrite (on_elf_run _ _ _ _ _ Ht E). destruct t; cbn in *. by subst.
Qed.

Lemma xmalloc_run bs t :
  xmalloc bs t = Ret (Heap (t_next t) bs,
    MkTool (t_file t) (t_fds t) (t_elf t) (t_bins t) (t_next t + 16 + zlen bs)
      (t_old_shstrtab t) (t_freed t)).
Proof using alloc. unfold xmalloc. by rewrite alloc. Qed.

(** Replacing the table: the old one, if the tool allocated it, is freed once. *)
Lemma swap_shstrtab_run {A} b p t (k : T A) :
  heap_ok t -> p < t_next t -> 0 < p -> p ∉ t_freed t -> t_old_shstrtab t <> p ->
  exists t', ((if negb (t_old_shstrtab t =? 0) && (address b =? t_old_shstrtab t)
      then free_shstrtab (t_old_shstrtab t) else mret tt);; set_old_shstrtab p;; k) t = k t' /\
    heap_ok t' /\ keeps t t' /\ t_elf t' = t_elf t.
Proof using.
  intros [H1 H2 H3 H4] Hp Hp0 Hf Hne.
  destruct (negb (t_old_shstrtab t =? 0) && (address b =? t_old_shstrtab t)) eqn:Eo.
  - apply andb_prop in Eo as [Eo _]. apply negb_true_iff, Z.eqb_neq in Eo.
    destruct H4 as [|H4]; [done|].
    assert (Ef : free_shstrtab (t_old_shstrtab t) t = Ret (tt,
      MkTool (t_file t) (t_fds t) (t_elf t) (t_bins t) (t_next t) (t_old_shstrtab t)
        (t_old_shstrtab t :: t_freed t))).
    { unfold free_shstrtab. by rewrite bool_decide_false. }
    rewrite (T_step _ _ _ _ _ Ef). unfold set_old_shstrtab. rewrite (T_step _ _ _ _ _ eq_refl).
    eexists. split; [done|]. split; [|done]. constructor; cbn.
    + done.
    + done.
    + by constructor.
    + right. apply not_elem_of_cons. split; [congruence|done].
  - rewrite (T_step _ _ t tt t) by done. unfold set_old_shstrtab.
    rewrite (T_step _ _ _ _ _ eq_refl). eexists. split; [done|]. split; [|done].
    constructor; cbn; [done|done|done|by right].
Qed.

Lemma add_section_name_run m t e h phdr secs n strs rs name :
  t_elf t = Some e -> desc m e h phdr secs -> named_by h secs n strs -> heap_ok t ->
  secs !! n = Some (rs, strs) -> zlen strs < 2 ^ 61 ->
  exists t' e', add_section_name name t = Ret (zlen strs, t') /\ t_elf t' = Some e' /\
    desc m e' h phdr
      (<[n := (set_size (zlen (with_name strs name)) rs, with_name strs name)]> secs) /\
    heap_ok t' /\ keeps t t'.
Proof using alloc.
  intros Ht D N Hh Hn Hlt. destruct (nb_index _ _ _ _ N) as (Hx & Hn0 & Hxi).
  destruct (nb_section _ _ _ _ N) as (rs' & Hn' & Hty). rewrite Hn in Hn'. injection Hn' as <-.
  assert (Hnb : sh_type rs <> SHT_NOBITS) by by rewrite Hty.
  assert (Hd : has_data n rs = true) by (unfold has_data; rewrite Hty; by destruct n).
  unfold add_section_name. assert (Hxx : eh_shstrndx h <> SHN_XINDEX) by lia.
  rewrite (T_step _ _ _ _ _ (on_elf_ret _ _ _ _ _ Ht (getshdrstrndx_desc D Hxx) eq_refl)), Hx.
  rewrite (T_step _ _ _ _ _ (on_elf_ret _ _ _ _ _ Ht
    (getscn_desc D n (lookup_lt_Some _ _ _ Hn)) eq_refl)).
  rewrite (T_step _ _ _ _ _ (on_elf_ret _ _ _ _ _ Ht (getshdr_desc D _ _ _ Hn) eq_refl)).
  destruct (getdata_desc _ _ _ _ _ _ _ _ D Hn Hd) as (e1 & E1 & D1 & Hu & Hl).
  rewrite (T_step _ _ _ _ _ (on_elf_run _ _ _ _ _ Ht E1)).
  destruct Hl as (E1' & s & sd & Hs & Ed & Hrdy). destruct (Hrdy Hnb) as (Hrd & Hz & Hbuf).
  assert (Hne : strs <> []) by (destruct (nb_table _ _ _ _ N) as [l ->]; by destruct l).
  destruct (Hbuf Hne) as (b & Eb & Hbb).
  set (t1 := set_elf (Some e1) t). assert (Ht1 : t_elf t1 = Some e1) by done.
  rewrite (T_step _ _ _ _ _ (on_elf_ret _ _ _ _ _ Ht1 (data_of_run _ _ _ _ Hs Ed) eq_refl)).
  cbv zeta. rewrite Eb, Hz.
  rewrite (T_step _ _ _ _ _ (on_elf_ret _ _ _ _ _ Ht1 Hbb eq_refl)).
  fold (with_name strs name). rewrite (T_step _ _ _ _ _ (xmalloc_run _ t1)).
  set (t2 := MkTool _ _ _ _ _ _ _).
  rewrite (T_step _ _ t2 (t_old_shstrtab t2) t2) by done.
  destruct Hh as [P1 P2 P3 P4].
  pose proof (zlen_nn (with_name strs name)).
  match goal with |- context [(if ?c then free_shstrtab ?o else mret tt) ;; set_old_shstrtab ?p ;; ?k] =>
    destruct (swap_shstrtab_run (Some b) p t2 k) as (t3 & E3 & Hh3 & K3 & Ht3) end.
  - unfold t2, t1, set_elf.
    constructor; cbn [t_next t_old_shstrtab t_freed]; [lia|lia| |done].
    eapply Forall_impl; [exact P3|]. cbn beta. intros. lia.
  - unfold t2, t1, set_elf. cbn [t_next address]. lia.
  - done.
  - unfold t2, t1, set_elf. cbn [t_next t_freed address]. intros Hin.
    rewrite Forall_forall in P3. specialize (P3 _ Hin). lia.
  - unfold t2, t1, set_elf. cbn [t_next t_old_shstrtab address]. lia.
  - rewrite E3. destruct (zlen_name strs name) as [[B1 B2] B3].
    pose proof (zlen_nn strs). pose proof (zlen_nn (take (Z.to_nat BUF_SIZE) name)).
    assert (Ew : wrap64 (zlen strs + zlen (take (Z.to_nat BUF_SIZE) name) + 1) =
      zlen (with_name strs name)) by (rewrite wrap_small by (unfold BUF_SIZE in *; lia); lia).
    rewrite !Ew, wrap_small by (unfold BUF_SIZE in *; lia).
    assert (Ht3' : t_elf t3 = Some e1) by by rewrite Ht3.
    rewrite (edit_run _ _ _ _ _ _ _ _ Ht3' Hs Ed).
    eexists _, _. split; [|split; [|split; [|split]]].
    + unfold mret, T_ret. do 2 f_equal. lia.
    + done.
    + destruct (desc_scn D1 _ _ _ Hn) as (s1 & Hs1 & Hr). rewrite Hs in Hs1. injection Hs1 as <-.
      destruct (sr_data _ _ _ _ _ Hr Hd) as (sd1 & Ed1 & _ & _ & _ & Hpl & _).
      rewrite Ed in Ed1. injection Ed1 as <-.
      eapply desc_edited; try done.
      * rewrite (proj1 Hpl Hty). apply Z.mod_1_r.
      * apply at_offset_iff. exists [], []. by rewrite app_nil_r.
    + destruct Hh3. by constructor.
    + transitivity t3; [|done]. transitivity t2; [done|done].
Qed.

(** *** New sections *)

Definition no_shdr : Elf64_Shdr := Shdr 0 0 0 0 0 0 0 0 0 0.

(** The header counts one section more. *)
Definition count_section (n : Z) (h : Elf64_Ehdr) : Elf64_Ehdr := set_shtable n (eh_shentsize h) h.

(** What [elf_newscn] does to the mode: the header is dirty. *)
Definition dirty_mode (m : Z * Z * bool * bool) : Z * Z * bool * bool :=
  (m.1.1.1, Z.lor m.1.1.2 ELF_F_DIRTY, m.1.2, m.2).

Lemma update_shnum_run m e h phdr secs r0 bs0 n :
  desc m e h phdr secs -> secs !! 0%nat = Some (r0, bs0) -> sh_size r0 = 0 ->
  0 <= n < SHN_LORESERVE ->
  exists e', _elf_update_shnum n e = Ret (true, e') /\
    desc (dirty_mode m) e' (count_section n h) phdr secs.
Proof using.
  intros D H0 Hz Hn. unfold _elf_update_shnum. rewrite (de_ehdr _ _ _ _ _ D).
  destruct (Z.leb_spec SHN_LORESERVE n); [lia|].
  rewrite (de_class _ _ _ _ _ D), Z.eqb_refl.
  set (h' := Ehdr _ _ _ _ _ _ _ _ _ _ _ _ _ _). assert (Eh : h' = count_section n h) by done.
  rewrite Eh. pose proof (desc_ehdr _ _ _ (count_section n h) _ _ D eq_refl) as D1.
  set (e1 := set_ehdr _ e) in *.
  rewrite (E_step (modify _) _ e tt e1) by done.
  destruct (desc_scn D1 _ _ _ H0) as (s & Hs & Hr).
  rewrite (E_step _ _ _ _ _ (upd_scn_run _ _ _ _ Hs)).
  assert (Er : Shdr (sh_name (s_shdr64 s)) (sh_type (s_shdr64 s)) (sh_flags (s_shdr64 s))
     (sh_addr (s_shdr64 s)) (sh_offset (s_shdr64 s)) 0 (sh_link (s_shdr64 s))
     (sh_info (s_shdr64 s)) (sh_addralign (s_shdr64 s)) (sh_entsize (s_shdr64 s)) = s_shdr64 s).
  { rewrite (sr_shdr _ _ _ _ _ Hr). destruct r0. cbn in *. by subst. }
  rewrite Er. assert (Es : set_shdr (s_shdr64 s) s = s) by by destruct s.
  rewrite Es, list_insert_id by done.
  set (e2 := set_scns (e_scns e1) e1). assert (E2 : e2 = e1) by done. rewrite E2.
  assert (D2 : desc (dirty_mode m) (set_flags (e_elf_flags e1) (Z.lor (e_ehdr_flags e1) ELF_F_DIRTY)
    (e_phdr_flags e1) e1) (count_section n h) phdr secs).
  { pose proof (desc_flags _ _ _ _ _ (e_elf_flags e1) (Z.lor (e_ehdr_flags e1) ELF_F_DIRTY)
      (e_phdr_flags e1) D1) as D2. unfold dirty_mode.
    pose proof (de_mode _ _ _ _ _ D1) as Hm. unfold mode in Hm. rewrite <- Hm in *. exact D2. }
  set (e3 := set_flags _ _ _ e1) in *.
  rewrite (E_step (elf_flagehdr _) _ e1 tt e3) by done.
  destruct (desc_scn D2 _ _ _ H0) as (s3 & Hs3 & Hr3).
  unfold elf_flagshdr. rewrite (E_step _ _ _ _ _ (upd_scn_run _ _ _ _ Hs3)).
  eexists. split; [done|]. rewrite <- (list_insert_id secs 0 (r0, bs0)) by done.
  apply (desc_replace D2 _ s3); [done|by apply scn_rel_flags|done].
Qed.

Lemma newscn_run m e h phdr secs r0 bs0 :
  desc m e h phdr secs -> secs !! 0%nat = Some (r0, bs0) -> sh_size r0 = 0 ->
  zlen secs + 1 < SHN_LORESERVE ->
  exists e' s, elf_newscn e = Ret (Some (length secs), e') /\
    desc (dirty_mode m) e' (count_section (zlen secs + 1) h) phdr (secs ++ [(no_shdr, [])]) /\
    e_scns e' !! length secs = Some s /\ s_data s = [] /\ s_type s = SHT_NULL /\ s_shdr64 s = no_shdr.
Proof using alloc.
  intros D H0 Hz Hn. pose proof (zlen_nn secs).
  destruct (update_shnum_run _ _ _ _ _ _ _ (zlen secs + 1) D H0 Hz) as (e1 & E1 & D1); [lia|].
  assert (Hne : exists s0 l, e_scns e = s0 :: l).
  { destruct (desc_scn D _ _ _ H0) as (s0 & Hs0 & _). destruct (e_scns e); [done|]. by eexists _, _. }
  destruct Hne as (s0 & l & Hne).
  unfold elf_newscn. rewrite (bool_decide_false (e_ehdr e = None)) by by rewrite (de_ehdr _ _ _ _ _ D).
  rewrite andb_false_r, (bool_decide_true (e_kind e = ELF_K_ELF)) by apply (de_kind _ _ _ _ _ D).
  cbn [negb]. rewrite (cooked_desc D). cbn [mbind outcome_bind negb].
  unfold _buildscn, _elf_first_scn. rewrite Hne. cbn [mbind outcome_bind negb].
  unfold makescn. rewrite alloc. rewrite (de_length _ _ _ _ _ D).
  change (Z.of_nat (length secs)) with (zlen secs). rewrite E1. cbn [mbind outcome_bind negb].
  eexists _, (Scn ELF_F_DIRTY ELF_F_DIRTY [] SHT_NULL 0 0 no_shdr).
  split; [done|]. split; [by apply desc_append|].
  cbn [e_scns set_scns]. split; [|done].
  rewrite lookup_app_r, (de_length _ _ _ _ _ D1), Nat.sub_diag by by rewrite (de_length _ _ _ _ _ D1).
  done.
Qed.

(** The flags under which the program controls the layout. *)
Definition mode_ok (m : Z * Z * bool * bool) : Prop :=
  exists fl hf rd, m = (fl, hf, rd, true) /\
    Z.land fl ELF_F_LAYOUT <> 0 /\ Z.land fl ELF_F_LAYOUT_OVERLAP <> 0.

Lemma dirty_mode_ok m : mode_ok m -> mode_ok (dirty_mode m).
Proof using. intros (fl & hf & rd & -> & H1 & H2). by exists fl, (Z.lor hf ELF_F_DIRTY), rd. Qed.

(** The tool with an open binary of these contents. *)
Record working (h : Elf64_Ehdr) (phdr : list Z) (secs : contents) (n : nat) (strs : list Z)
    (t : tool) : Prop := {
  wk_elf : exists m e, t_elf t = Some e /\ mode_ok m /\ desc m e h phdr secs;
  wk_named : named_by h secs n strs;
  wk_heap : heap_ok t;
}.

(** The contents after [add_section]. *)
Definition new_shdr (name_off size entsize : Z) : Elf64_Shdr :=
  Shdr name_off SHT_PROGBITS 0 0 0 size 0 0 0 entsize.

Definition renamed (n : nat) (strs : list Z) (secs : contents) : contents :=
  alter (fun rb => (set_size (zlen strs) rb.1, strs)) n secs.

Definition add_contents (n : nat) (strs name : list Z) (entsize : Z) (bs : list Z)
    (secs : contents) : contents :=
  renamed n (with_name strs name) secs ++ [(new_shdr (zlen strs) (zlen bs) entsize, bs)].

Lemma named_renamed h secs n strs name :
  named_by h secs n strs -> named_by h (renamed n (with_name strs name) secs) n (with_name strs name).
Proof using.
  intros [N1 (rs & Hn & Ht) N3 N4]. destruct (zlen_name strs name) as [Hl _]. constructor.
  - done.
  - exists (set_size (zlen (with_name strs name)) rs). unfold renamed.
    rewrite list_lookup_alter_eq, Hn. done.
  - apply table_ok_name.
  - apply Forall_lookup_2. intros i [r bs] Hi. unfold renamed in Hi.
    destruct (decide (n = i)) as [<-|Hne].
    + rewrite list_lookup_alter_eq, Hn in Hi. injection Hi as <- <-.
      eapply Forall_lookup_1 in N4; [|exact Hn]. cbn in *. lia.
    + rewrite list_lookup_alter_ne in Hi by done. eapply Forall_lookup_1 in N4; [|exact Hi].
      cbn in *. lia.
Qed.

Lemma named_added h secs n strs name entsize bs k :
  named_by h secs n strs ->
  named_by (count_section k h) (add_contents n strs name entsize bs secs) n (with_name strs name).
Proof using.
  intros N. destruct (named_renamed _ _ _ _ name N) as [N1 (rs & Hn & Ht) N3 N4].
  destruct (zlen_name strs name) as [Hl _]. constructor; [done| |done|].
  - exists rs. unfold add_contents. by rewrite lookup_app_l by by eapply lookup_lt_Some.
  - unfold add_contents. apply Forall_app. split; [done|]. apply Forall_singleton. cbn.
    pose proof (zlen_nn strs). lia.
Qed.

Lemma add_section_run h phdr secs n strs t name p old bs num size r0 bs0 :
  working h phdr secs n strs t -> secs !! 0%nat = Some (r0, bs0) -> sh_size r0 = 0 ->
  zlen secs + 1 < SHN_LORESERVE -> 0 < zlen strs < 2 ^ 32 ->
  at_offset old 0 bs -> zlen bs = size * num -> zlen bs < 2 ^ 64 -> zlen bs mod 4 = 0 ->
  exists t', add_section name num size (Some (Heap p old)) t = Ret (SUCCESS, t') /\
    working (count_section (zlen secs + 1) h) phdr (add_contents n strs name size bs secs) n
      (with_name strs name) t' /\ keeps t t'.
Proof using alloc.
  intros [(m & e & Ht & Hm & D) N Hh] H0 Hz Hlen Hst Ho Hnum Hlt Hmod.
  destruct (nb_section _ _ _ _ N) as (rs & Hn & Hty). destruct (nb_index _ _ _ _ N) as (_ & Hn0 & _).
  destruct (add_section_name_run _ _ _ _ _ _ _ _ _ name Ht D N Hh Hn) as
    (t1 & e1 & E1 & Ht1 & D1 & Hh1 & K1); [lia|].
  assert (Es : <[n:=(set_size (zlen (with_name strs name)) rs, with_name strs name)]> secs =
    renamed n (with_name strs name) secs).
  { unfold renamed. by rewrite (alter_some _ _ _ _ Hn). }
  rewrite Es in D1. unfold add_section. rewrite (T_step _ _ _ _ _ E1).
  destruct (Z.eqb_spec (zlen strs) 0); [lia|].
  assert (H0' : renamed n (with_name strs name) secs !! 0%nat = Some (r0, bs0)).
  { unfold renamed. by rewrite list_lookup_alter_ne. }
  assert (Hl : length (renamed n (with_name strs name) secs) = length secs)
    by apply length_alter.
  destruct (newscn_run _ _ _ _ _ _ _ D1 H0' Hz) as (e2 & s & E2 & D2 & Hs & Hd & Hst' & Hsh).
  { unfold zlen in *. by rewrite Hl. }
  rewrite (T_step _ _ _ _ _ (on_elf_run _ _ _ _ _ Ht1 E2)).
  set (i := length (renamed n (with_name strs name) secs)) in *.
  set (t2 := set_elf (Some e2) t1). assert (Ht2 : t_elf t2 = Some e2) by done.
  assert (Hi : (renamed n (with_name strs name) secs ++ [(no_shdr, [])]) !! i =
    Some (no_shdr, [])) by (unfold i; by rewrite lookup_app_r, Nat.sub_diag by lia).
  rewrite (T_step _ _ _ _ _ (on_elf_ret _ _ _ _ _ Ht2 (getshdr_desc D2 _ _ _ Hi) eq_refl)).
  assert (Hi0 : i <> 0%nat) by (apply lookup_lt_Some in Hn; lia).
  assert (E3 : exists e3, elf_newdata i e2 = Ret (Some 0%nat, e3) /\
    e3 = set_scns (<[i := set_s_data [ScnData (Data None ELF_T_BYTE 0 0 0 EV_CURRENT) None
           ELF_F_DIRTY true false] s]> (e_scns e2)) e2).
  { unfold elf_newdata. rewrite Hs. cbn [get mbind outcome_bind]. rewrite decide_False by done.
    rewrite alloc. cbn [negb]. rewrite (E_step _ _ _ _ _ (upd_scn_run _ _ _ _ Hs)).
    rewrite Hd. cbn [length app]. by eexists. }
  destruct E3 as (e3 & E3 & Ee3).
  rewrite (T_step _ _ _ _ _ (on_elf_run _ _ _ _ _ Ht2 E3)).
  rewrite (wrap_small 64) by (pose proof (zlen_nn bs); lia). rewrite <- Hnum.
  assert (Ew : set_elf (Some e3) t2 = with_scn t2 e2 i (set_s_data [ScnData (Data None ELF_T_BYTE 0 0 0
     EV_CURRENT) None ELF_F_DIRTY true false] s)) by by rewrite Ee3.
  rewrite Ew. pose proof (lookup_lt_Some _ _ _ Hs) as Hlt2.
  unfold edit_data, edit_shdr, upd_data. rewrite !(T_step _ _ _ _ _ (upd_scn_on t2 e2 i _ _ Hlt2)).
  eexists. split; [done|]. split; [constructor|].
  - eexists _, _. split; [done|]. split; [by apply dirty_mode_ok|]. cbn [t_elf with_scn set_elf].
    unfold add_contents.
    assert (El : <[i := (new_shdr (zlen strs) (zlen bs) size, bs)]>
      (renamed n (with_name strs name) secs ++ [(no_shdr, [])]) =
      renamed n (with_name strs name) secs ++ [(new_shdr (zlen strs) (zlen bs) size, bs)]).
    { unfold i. rewrite insert_app_r_alt by lia. by rewrite Nat.sub_diag. }
    rewrite <- El. replace (zlen secs + 1) with (zlen (renamed n (with_name strs name) secs) + 1)
      by (unfold zlen, renamed; by rewrite length_alter).
    apply (desc_replace D2 i s); [done| |done]. constructor.
    + cbn. rewrite Hsh, wrap_small by lia. done.
    + unfold has_data. cbn. by destruct i.
    + intros _. eexists. split; [done|]. cbn [sd_data d_version d_off d_align d_type d_size
        set_sd_data]. split; [done|]. split; [done|]. split; [done|].
      split; [split; [done|by right]|]. change (sh_type _ =? SHT_NOBITS) with false. cbn match.
      split; [done|]. split; [done|]. split; [done|]. eapply held_heap; [done| |done]. by left.
  - by apply named_added.
  - destruct Hh1. by constructor.
  - transitivity t1; [done|done].
Qed.
End env.
