(* ===== verification/ElfUnwind.v ===== *)
(** * The metadata tool: the unwinding ranges of a binary

    Storing into the content of a section that is in the image of the file, and
    [update_function_addr]: the records of the section are renumbered and
    sorted in place, and nothing else of the binary changes. *)

From S2P Require Import Prelude Machine CallSite Lookup Init WriteMeta LibElf ElfUpdate ElfUtil WriteElf ElfSpec ElfDesc ElfRoundtrip ElfTool ElfAdd.

#[local] Open Scope Z_scope.

Import Lib Tool.

(** ** Arrays of records as bytes *)

Lemma elements_encoded {R} (encode : R -> list Z) size rs rest :
  (forall r, length (encode r) = size) ->
  elements size (length rs) (encode_section encode rs ++ rest) = encode <$> rs.
Proof.
  intros Hs. revert rest. induction rs as [|r rs IH]; intros rest; [done|].
  change (encode_section encode (r :: rs)) with (encode r ++ encode_section encode rs).
  cbn [length elements]. rewrite <- app_assoc, take_app_length' by by rewrite Hs.
  by rewrite drop_app_length', IH by by rewrite Hs.
Qed.

Lemma renumber_typed ua : forall cur, Forall unwind_addr_typed ua ->
  Forall unwind_addr_typed (renumber cur ua).
Proof.
  induction ua as [|u ua IH]; intros cur Hu; [done|]. apply Forall_cons in Hu as [(H1 & H2 & _) Hu].
  cbn [renumber]. constructor; [|by apply IH]. split; [done|]. split; [done|].
  apply Z.mod_pos_bound. lia.
Qed.

Lemma renumber_length ua : forall cur, length (renumber cur ua) = length ua.
Proof. induction ua as [|u ua IH]; intros cur; [done|]. cbn [renumber length]. by rewrite IH. Qed.

Lemma renumber_addrs ua : forall cur, ua_addr <$> renumber cur ua = ua_addr <$> ua.
Proof. induction ua as [|u ua IH]; intros cur; [done|]. cbn. by rewrite IH. Qed.

(** The key [sort_unwind_addr] reads in the bytes of a record. *)
Lemma encoded_key u : unwind_addr_typed u -> le_value (take 8 (encode_unwind_addr u)) = ua_addr u.
Proof.
  intros (H1 & _). unfold encode_unwind_addr, put_fields. cbn [fmap list_fmap concat].
  rewrite take_app_length' by by rewrite le_bytes_length.
  rewrite le_value_le_bytes. by apply wrap_small.
Qed.

(** Sorting the bytes sorts the records. *)
Lemma sorted_bytes `{QsortLaws} ua :
  Forall unwind_addr_typed ua -> NoDup (ua_addr <$> ua) ->
  exists ua', qsort cmp_unwind_addr (encode_unwind_addr <$> ua) = encode_unwind_addr <$> ua' /\
    ua' ≡ₚ ua /\ strictly_sorted_by ua_addr ua'.
Proof.
  intros Ht Hn. pose proof (law_qsort_permutation cmp_unwind_addr (encode_unwind_addr <$> ua)) as Hp.
  destruct (Permutation_map_inv _ _ Hp) as (ua' & E & Hp').
  exists ua'. split; [exact E|]. split; [by symmetry|].
  assert (Ht' : Forall unwind_addr_typed ua') by by rewrite <- Hp'.
  set (key := fun u => le_value (take 8 u)).
  assert (Hs : NoDup (key <$> (encode_unwind_addr <$> ua)) ->
    strictly_sorted_by key (qsort cmp_unwind_addr (encode_unwind_addr <$> ua)))
    by apply (qsort_key_strict key).
  change (map encode_unwind_addr ua') with (encode_unwind_addr <$> ua') in E. rewrite E in Hs.
  assert (Ek : forall l, Forall unwind_addr_typed l ->
    key <$> (encode_unwind_addr <$> l) = ua_addr <$> l).
  { induction 1 as [|u l Hu _ IH]; [done|]. rewrite !fmap_cons, IH. unfold key.
    by rewrite encoded_key. }
  rewrite Ek in Hs by done. specialize (Hs Hn).
  intros i j a b Hij Ha Hb.
  specialize (Hs i j (encode_unwind_addr a) (encode_unwind_addr b) Hij).
  rewrite !list_lookup_fmap, Ha, Hb in Hs. specialize (Hs eq_refl eq_refl). unfold key in Hs.
  rewrite !encoded_key in Hs; [done|by eapply Forall_lookup_1|by eapply Forall_lookup_1].
Qed.

Section env.
Context `{Env}.

(** ** Storing in the image *)

Lemma store_image m e h phdr secs k r bs bs' s sd :
  desc m e h phdr secs -> secs !! k = Some (r, bs) -> has_data k r = true ->
  sh_type r <> SHT_NOBITS -> e_scns e !! k = Some s -> s_data s = [sd] ->
  d_buf (sd_data sd) = Some (Image (s_offset s)) -> zlen bs' = zlen bs ->
  exists e', store_buffer (Image (s_offset s)) bs' e = Ret (Image (s_offset s), e') /\
    desc m e' h phdr (<[k := (r, bs')]> secs) /\ e_scns e' = e_scns e /\
    buffer_bytes (Image (s_offset s)) (zlen bs') e' = Ret (bs', e') /\
    buffer_for e' k (Image (s_offset s)) bs'.
Proof using.
  intros D Hk Hd Hnb Hs Ed Eb Hl. destruct (desc_scn D _ _ _ Hk) as (s' & Hs' & Hr).
  rewrite Hs in Hs'. injection Hs' as <-.
  destruct (sr_data _ _ _ _ _ Hr Hd) as (sd' & Ed' & Hv & Ho & Ha & Hpl & Hx).
  rewrite Ed in Ed'. injection Ed' as <-.
  destruct (Z.eqb_spec (sh_type r) SHT_NOBITS) as [|_]; [done|].
  destruct Hx as (Hz & Htr & Hmod & Hh).
  destruct Hh as [? ? E0|_ Hrd Hn Hnn Hat Hle|p old E0]; [congruence| |congruence].
  destruct (at_offset_range _ _ _ Hat) as [B1 B2].
  pose proof (splice_run (e_data e) (s_offset s) bs' B1 ltac:(lia)) as Es.
  set (l := _ ++ _) in Es. destruct (splice_Ret _ _ _ _ Es) as (Hlen & Hat' & Hkeep).
  exists (set_data l e). split; [unfold store_buffer; by rewrite Es|].
  split; [|split; [done|split; [by apply buffer_run|exists s; repeat split; try done; lia]]].
  destruct D as [D1 D2 D3 D4 [D5 D5'] D6 D7 D8 D9 D10].
  constructor; try done; cbn [e_data e_scns set_data].
  - cbn. rewrite Hlen. done.
  - by rewrite length_insert.
  - intros i t r' cs Hi Hi'. destruct (decide (k = i)) as [<-|Hki].
    + rewrite Hs in Hi. injection Hi as <-. rewrite list_lookup_insert_eq in Hi'
        by by eapply lookup_lt_Some. injection Hi' as <- <-.
      constructor; [by apply Hr| |].
      * intros Hd'. congruence.
      * intros _. exists sd. do 5 (split; [done|]).
        destruct (Z.eqb_spec (sh_type r) SHT_NOBITS) as [|_]; [done|].
        rewrite Hl. do 3 (split; [done|]). apply held_image; [done|by rewrite Hlen|done|done|done|lia].
    + rewrite list_lookup_insert_ne in Hi' by done. destruct (D9 _ _ _ _ Hi Hi') as [R1 R2 R3].
      constructor; [done|done|]. intros Hd'.
      destruct (R3 Hd') as (td & E1 & X1 & X2 & X3 & X4 & X5). exists td. do 5 (split; [done|]).
      rewrite Hlen. destruct (sh_type r' =? SHT_NOBITS); [exact X5|].
      destruct X5 as (Y1 & Y2 & Y3 & Hh). do 3 (split; [done|]).
      assert (Hcs : s_type t <> SHT_NULL -> s_type t <> SHT_NOBITS ->
        at_offset (e_data e) (s_offset t) cs -> zlen cs <= s_size t ->
        at_offset l (s_offset t) cs).
      { intros T1 T2 T3 T4. destruct (decide (cs = [])) as [->|Hne].
        { apply at_offset_nil. rewrite Hlen. destruct (at_offset_range _ _ _ T3) as [T5 T6].
          change (zlen []) with 0 in T6. lia. }
        destruct (decide (bs' = [])) as [->|Hne'].
        { enough (l = e_data e) as -> by done. unfold l. cbn [app].
          change (zlen []) with 0. by rewrite Z.add_0_r, take_drop. }
        assert (0 < zlen cs) by (destruct cs; [done|unfold zlen; cbn; lia]).
        assert (0 < zlen bs') by (destruct bs'; [done|unfold zlen; cbn; lia]).
        apply Hkeep; [done|]. destruct (D10 _ _ _ _ Hki Hs Hi) as
          [?|[?|[?|[?|[?|[?|[?|?]]]]]]]; try done; lia. }
      destruct Hh as [Z1 Z2 Z3 Z4 Z5 Z6 Z7|Z1 Z2 Z4 Z5 Z6 Z7|p old Z1 Z2 Z3].
      * apply held_file; try done. apply Hcs; try done. lia.
      * apply held_image; try done; [by rewrite Hlen|by apply Hcs].
      * eapply held_heap; try done. by rewrite Hlen.
Qed.

Context `{QsortLaws}.

(** ** [update_function_addr] *)

(** The tool with a binary whose sections it has not touched. *)
Definition untouched (h : Elf64_Ehdr) (phdr : list Z) (secs : contents) (n : nat)
    (strs : list Z) (t : tool) : Prop :=
  named_by h secs n strs /\ heap_ok t /\
  exists m e, t_elf t = Some e /\ mode_ok m /\ desc m e h phdr secs /\ pristine e.

Lemma undisturbed_pristine e e' : undisturbed e e' -> pristine e -> pristine e'.
Proof using. intros (_ & Hp & _). exact Hp. Qed.

Lemma heap_ok_elf t e : heap_ok t -> heap_ok (set_elf e t).
Proof using. intros []. by constructor. Qed.

Lemma named_content h secs n strs k r bs bs' :
  named_by h secs n strs -> secs !! k = Some (r, bs) -> k <> n ->
  named_by h (<[k := (r, bs')]> secs) n strs.
Proof using.
  intros [N1 (rs & Hn & Hty) N3 N4] Hk Hkn. constructor; [done| |done|].
  - exists rs. by rewrite list_lookup_insert_ne.
  - apply Forall_insert; [done|]. eapply Forall_lookup_1 in N4; [|exact Hk]. done.
Qed.

Lemma set_size_same r n : sh_size r = n -> set_size n r = r.
Proof using. destruct r. cbn. by intros ->. Qed.

Lemma update_function_addr_run h phdr secs n strs t k r ua name :
  untouched h phdr secs n strs t -> find_named strs name secs = Some k ->
  let bs := encode_section encode_unwind_addr ua in
  secs !! k = Some (r, bs) -> sh_type r = SHT_PROGBITS -> sh_size r = zlen bs ->
  sh_entsize r = 16 -> k <> n -> ua <> [] -> zlen bs < 2 ^ 64 ->
  Forall unwind_addr_typed ua -> NoDup (ua_addr <$> ua) ->
  exists t' ua', WriteElf.update_function_addr name t = Ret (SUCCESS, t') /\
    ua' ≡ₚ renumber 0 ua /\ strictly_sorted_by ua_addr ua' /\ keeps t t' /\
    working h phdr (<[k := (r, encode_section encode_unwind_addr ua')]> secs) n strs t'.
Proof using All.
  intros (N & Hh & m & e & Ht & Hm & D & Hp) Hf bs Hk Hty Hz Hent Hkn Hne Hlt Htyp Hnd.
  destruct (find_named_lookup _ _ _ _ Hf) as (r' & bs0 & Hk0 & _).
  assert (Hd : has_data k r = true).
  { unfold has_data. rewrite Hty. destruct k; [done|done]. }
  assert (Hnb : sh_type r <> SHT_NOBITS) by by rewrite Hty.
  assert (Hbs : zlen bs = 16 * zlen ua) by apply unwind_addrs_size.
  assert (Hpos : 0 < zlen ua) by (destruct ua; [done|unfold zlen; cbn; lia]).
  destruct (sorted_bytes (renumber 0 ua)) as (ua' & Eq & Hperm & Hsort).
  { by apply renumber_typed. } { by rewrite renumber_addrs. }
  assert (Hl' : length ua' = length ua) by by rewrite Hperm, renumber_length.
  destruct (get_section_by_name_run N e name D) as (e1 & E1 & D1 & U1). rewrite Hf in E1.
  unfold WriteElf.update_function_addr. rewrite (T_step _ _ _ _ _ (on_elf_run _ _ _ _ _ Ht E1)).
  set (t1 := set_elf (Some e1) t). assert (Ht1 : t_elf t1 = Some e1) by done.
  rewrite (T_step _ _ _ _ _ (on_elf_ret _ _ _ _ _ Ht1 (getshdr_desc D1 _ _ _ Hk) eq_refl)).
  destruct (Z.eqb_spec (sh_size r) 0); [lia|]. destruct (Z.eqb_spec (sh_entsize r) 0); [lia|].
  cbn [orb].
  destruct (get_section_data_run _ _ _ _ _ _ _ _ D1 Hk Hd Hnb) as
    (b & e2 & E2 & D2 & U2 & Hb & s & sd & Hs & Ed & Eb).
  { intros E. rewrite E in Hbs. change (zlen (@nil Z)) with 0 in Hbs. lia. }
  rewrite (T_step _ _ _ _ _ (on_elf_run _ _ _ _ _ Ht1 E2)).
  set (t2 := set_elf (Some e2) t1). assert (Ht2 : t_elf t2 = Some e2) by done. cbv zeta.
  rewrite Hz, Hent, Hbs. replace (16 * zlen ua / 16) with (zlen ua)
    by (rewrite Z.mul_comm, Z.div_mul; lia).
  replace (zlen ua * 16) with (zlen bs) by lia.
  rewrite (T_step _ _ _ _ _ (on_elf_ret _ _ _ _ _ Ht2 Hb eq_refl)).
  assert (Hp2 : pristine e2) by (eapply undisturbed_pristine, undisturbed_pristine; eauto).
  assert (Ebi : b = Image (s_offset s)).
  { destruct (Hp2 _ _ _ Hs Ed) as [_ Hheap]. destruct b as [o|p l]; [|by destruct (Hheap p l)].
    destruct (desc_scn D2 _ _ _ Hk) as (s' & Hs' & Hr). rewrite Hs in Hs'. injection Hs' as <-.
    destruct (sr_data _ _ _ _ _ Hr Hd) as (sd' & Ed' & _ & _ & _ & _ & Hx).
    rewrite Ed in Ed'. injection Ed' as <-. destruct (sh_type r =? SHT_NOBITS) eqn:Et;
      [by apply Z.eqb_eq in Et|]. destruct Hx as (_ & _ & _ & Hheld).
    destruct Hheld as [? ? E0|E0|p l E0]; congruence. }
  subst b.
  assert (Ern : renumbered (zlen ua) bs = encode_section encode_unwind_addr (renumber 0 ua)).
  { unfold renumbered, bs. by rewrite view_unwind_addrs. }
  rewrite Ern.
  destruct (store_image _ _ _ _ _ _ _ _ (encode_section encode_unwind_addr (renumber 0 ua)) _ _
    D2 Hk Hd Hnb Hs Ed Eb) as (e3 & E3 & D3 & Sc3 & Hb3 & _).
  { unfold bs. rewrite !unwind_addrs_size. unfold zlen. by rewrite renumber_length. }
  rewrite (T_step _ _ _ _ _ (on_elf_run _ _ _ _ _ Ht2 E3)).
  set (t3 := set_elf (Some e3) t2). assert (Ht3 : t_elf t3 = Some e3) by done.
  change (16 <? 8) with false. cbn match.
  assert (Hz3 : zlen (encode_section encode_unwind_addr (renumber 0 ua)) = zlen bs).
  { unfold bs. rewrite !unwind_addrs_size. unfold zlen. by rewrite renumber_length. }
  rewrite Hz3 in Hb3. rewrite (T_step _ _ _ _ _ (on_elf_ret _ _ _ _ _ Ht3 Hb3 eq_refl)).
  assert (Eel : elements (Z.to_nat 16) (Z.to_nat (zlen ua))
    (encode_section encode_unwind_addr (renumber 0 ua)) = encode_unwind_addr <$> renumber 0 ua).
  { rewrite <- (app_nil_r (encode_section _ _)). rewrite zlen_length, <- (renumber_length ua 0).
    by apply elements_encoded. }
  rewrite Eel, Eq. fold (encode_section encode_unwind_addr ua').
  rewrite <- Sc3 in Hs.
  assert (Hk3 : <[k := (r, encode_section encode_unwind_addr (renumber 0 ua))]> secs !! k =
    Some (r, encode_section encode_unwind_addr (renumber 0 ua))).
  { apply list_lookup_insert_eq. by eapply lookup_lt_Some. }
  destruct (store_image _ _ _ _ _ _ _ _ (encode_section encode_unwind_addr ua') _ _
    D3 Hk3 Hd Hnb Hs Ed Eb) as (e4 & E4 & D4 & Sc4 & Hb4 & Hfor).
  { rewrite !unwind_addrs_size. unfold zlen. by rewrite renumber_length, Hl'. }
  rewrite (T_step _ _ _ _ _ (on_elf_run _ _ _ _ _ Ht3 E4)).
  set (t4 := set_elf (Some e4) t3). assert (Ht4 : t_elf t4 = Some e4) by done.
  assert (Hz4 : zlen (encode_section encode_unwind_addr ua') = 16 * zlen ua).
  { rewrite unwind_addrs_size. unfold zlen. by rewrite Hl'. }
  rewrite list_insert_insert_eq in D4.
  assert (Hk4 : <[k := (r, encode_section encode_unwind_addr ua')]> secs !! k =
    Some (r, encode_section encode_unwind_addr ua')).
  { apply list_lookup_insert_eq. by eapply lookup_lt_Some. }
  destruct (update_section_run _ _ _ _ _ _ _ _ _ (Image (s_offset s)) (encode_section encode_unwind_addr ua')
    (zlen ua) 16 Ht4 D4 Hk4 Hd Hty) as (e5 & E5 & D5).
  { lia. } { lia. } { rewrite Hz4. replace (16 * zlen ua) with (4 * zlen ua * 4) by lia.
    apply Z.mod_mul. lia. } { exact Hfor. }
  exists (set_elf (Some e5) t4), ua'. split; [exact E5|]. split; [done|]. split; [done|].
  split; [done|]. rewrite list_insert_insert_eq, set_size_same in D5 by lia. split.
  - by eexists m, _.
  - by eapply named_content.
  - by repeat apply heap_ok_elf.
Qed.
End env.
