(* ===== verification/ElfPlace.v ===== *)
(** * The metadata tool: placing the added sections and writing the file

    The tool grows the last section of a binary, the table of section names,
    and puts its sections and the section header table behind it.  When nothing
    lies behind that table, the parts of the new file do not overlap, and what
    is written is read back. *)

From S2P Require Import Prelude Machine CallSite WriteMeta LibElf ElfUpdate ElfUtil WriteElf ElfSpec ElfDesc ElfRoundtrip ElfTool ElfAdd.

#[local] Open Scope Z_scope.

Import Lib Tool.

(** ** Parts of a file that do not overlap *)

Lemma disjoint_sym a b : disjoint_regions a b -> disjoint_regions b a.
Proof. unfold disjoint_regions. tauto. Qed.

Lemma OrdPairs_perm {A} (R : A -> A -> Prop) l k :
  (forall a b, R a b -> R b a) -> l ≡ₚ k -> ForallOrdPairs R l -> ForallOrdPairs R k.
Proof.
  intros Hs. induction 1 as [|x l k Hp IH|x y l|l1 l2 l3 _ IH1 _ IH2]; intros Hl; auto.
  - inversion Hl as [|? ? H1 H2]; subst. constructor; [|auto]. by rewrite <- Hp.
  - inversion Hl as [|? ? H1 H2]; subst. inversion H2 as [|? ? H3 H4]; subst.
    apply Forall_cons in H1 as [H1 H1']. repeat constructor; auto.
Qed.

Lemma OrdPairs_join {A} (R : A -> A -> Prop) l k :
  ForallOrdPairs R l -> ForallOrdPairs R k -> (forall a b, a ∈ l -> b ∈ k -> R a b) ->
  ForallOrdPairs R (l ++ k).
Proof.
  induction 1 as [|x l H1 H2 IH]; intros Hk Hlk; [done|]. cbn [app]. constructor.
  - apply Forall_app. split; [done|]. apply Forall_forall. intros b Hb. apply Hlk; [by left|done].
  - apply IH; [done|]. intros a b Ha Hb. apply Hlk; [by right|done].
Qed.

(** Regions one behind the other, from [k] on. *)
Fixpoint follow (k : Z) (l : list region) : Prop :=
  match l with
  | [] => True
  | a :: l' => k <= a.1 /\ follow (region_end a) l'
  end.

Lemma follow_weaken k k' l : k' <= k -> follow k l -> follow k' l.
Proof. destruct l as [|a l]; [done|]. cbn. intros ? [? ?]. split; [lia|done]. Qed.

Lemma follow_start l : forall k, follow k l -> Forall (fun a => k <= a.1) l.
Proof.
  induction l as [|a l IH]; intros k Hf; [apply List.Forall_nil|]. destruct Hf as [H1 H2].
  constructor; [done|]. eapply Forall_impl; [by apply IH|]. cbn. unfold region_end.
  pose proof (zlen_nn a.2). lia.
Qed.

Lemma follow_disjoint l : forall k, follow k l -> ForallOrdPairs disjoint_regions l.
Proof.
  induction l as [|a l IH]; intros k Hf; [constructor|]. destruct Hf as [_ H2].
  constructor; [|by eapply IH]. eapply Forall_impl; [by apply follow_start|]. by left.
Qed.

Lemma follow_app l : forall k k' m, follow k l -> k <= k' ->
  Forall (fun a => region_end a <= k') l -> follow k' m -> follow k (l ++ m).
Proof.
  induction l as [|a l IH]; intros k k' m Hl Hk Hf Hm; [by eapply follow_weaken|].
  destruct Hl as [H1 H2]. apply Forall_cons in Hf as [F1 F2]. cbn [app follow].
  split; [done|]. by eapply IH.
Qed.

(** The regions of a file: contents first, section headers last. *)
Fixpoint data_regions (i : nat) (l : contents) : list region :=
  match l with [] => [] | (r, bs) :: l' => data_region i r bs ++ data_regions (S i) l' end.

Fixpoint header_regions (h : Elf64_Ehdr) (i : nat) (l : contents) : list region :=
  match l with
  | [] => []
  | (r, _) :: l' => (eh_shoff h + Z.of_nat i * 64, encode_shdr r) :: header_regions h (S i) l'
  end.

Lemma scn_regions_perm h l : forall i,
  scn_regions h i l ≡ₚ data_regions i l ++ header_regions h i l.
Proof.
  induction l as [|[r bs] l IH]; intros i; [done|]. cbn [scn_regions data_regions header_regions].
  rewrite IH, <- Permutation_middle, <- app_assoc. done.
Qed.

Lemma header_regions_follow h l : forall i,
  follow (eh_shoff h + Z.of_nat i * 64) (header_regions h i l).
Proof.
  induction l as [|[r bs] l IH]; intros i; [done|]. cbn [header_regions follow].
  split; [cbn; lia|]. unfold region_end. cbn [fst snd]. rewrite shdr_zlen.
  eapply follow_weaken; [|apply IH]. lia.
Qed.

Lemma data_regions_app l k : forall i,
  data_regions i (l ++ k) = data_regions i l ++ data_regions (i + length l) k.
Proof.
  induction l as [|[r bs] l IH]; intros i; [cbn; by rewrite Nat.add_0_r|].
  cbn [app data_regions length]. rewrite IH, <- app_assoc. do 3 f_equal. lia.
Qed.

(** ** Placing sections behind each other *)

Fixpoint place_from (off : Z) (l : contents) : contents :=
  match l with
  | [] => []
  | (r, bs) :: l' =>
      (set_place off (sh_size r) (sh_addralign r) r, bs) :: place_from (off + sh_size r) l'
  end.

Fixpoint total (l : contents) : Z :=
  match l with [] => 0 | (r, _) :: l' => sh_size r + total l' end.

(** Sections as [add_section] makes them. *)
Definition added_scn (x : Elf64_Shdr * list Z) : Prop :=
  sh_type x.1 = SHT_PROGBITS /\ sh_size x.1 = zlen x.2 /\ shdr_typed x.1 /\
  sh_addralign x.1 = 0.

Lemma total_nn l : Forall added_scn l -> 0 <= total l.
Proof.
  induction 1 as [|[r bs] l (_ & Hz & _) _ IH]; [done|]. cbn in *. pose proof (zlen_nn bs). lia.
Qed.

Lemma place_from_follow l : forall i off, i <> 0%nat -> Forall added_scn l ->
  follow off (data_regions i (place_from off l)) /\
  Forall (fun a => region_end a <= off + total l) (data_regions i (place_from off l)).
Proof.
  induction l as [|[r bs] l IH]; intros i off Hi Ha; [split; [done|apply List.Forall_nil]|].
  apply Forall_cons in Ha as [(Ht & Hz & _) Ha]. cbn in Ht, Hz.
  pose proof (total_nn _ Ha). pose proof (zlen_nn bs).
  destruct (IH (S i) (off + sh_size r) ltac:(done) Ha) as [F1 F2].
  cbn [place_from data_regions total]. split.
  - unfold data_region. destruct (_ && _ && _); cbn [app follow].
    + split; [done|]. unfold region_end. cbn. by rewrite <- Hz.
    + eapply follow_weaken; [|exact F1]. lia.
  - apply Forall_app. split.
    + unfold data_region. destruct (_ && _ && _); [|apply List.Forall_nil].
      apply Forall_singleton. unfold region_end. cbn. lia.
    + eapply Forall_impl; [exact F2|]. cbn beta. intros. lia.
Qed.

Lemma place_from_lookup l : forall off i r' bs, Forall added_scn l ->
  place_from off l !! i = Some (r', bs) ->
  exists r o, l !! i = Some (r, bs) /\ r' = set_place o (sh_size r) (sh_addralign r) r /\
    off <= o /\ o + zlen bs <= off + total l.
Proof.
  induction l as [|[r bs0] l IH]; intros off i r' bs Ha Hi; [done|].
  apply Forall_cons in Ha as [(_ & Hz & _) Ha]. cbn in Hz. pose proof (total_nn _ Ha).
  pose proof (zlen_nn bs0). cbn [place_from total] in *. destruct i as [|i].
  - injection Hi as <- <-. exists r, off. cbn. repeat split; lia.
  - destruct (IH _ _ _ _ Ha Hi) as (r1 & o & H1 & -> & H3 & H4). exists r1, o. cbn.
    split; [done|]. split; [done|]. lia.
Qed.

Lemma place_from_length l : forall off, length (place_from off l) = length l.
Proof. induction l as [|[r bs] l IH]; intros off; cbn; [done|]. by rewrite IH. Qed.

(** ** Binaries that can grow at their end *)

(** What lies before the table of section names. *)
Definition front (h : Elf64_Ehdr) (phdr : list Z) (init : contents) : list region :=
  (0, encode_ehdr h) ::
  (if eh_phnum h =? 0 then [] else [(eh_phoff h, phdr)]) ++ data_regions 0 init.

Definition scn_fits (x : Elf64_Shdr * list Z) : Prop :=
  shdr_typed x.1 /\ sh_offset x.1 < 2 ^ 60 /\ sh_size x.1 < 2 ^ 60 /\
  (sh_entsize x.1 <> 0 \/ scn_entsize (sh_type x.1) <= 1).

(** A binary whose last section is the table of section names, behind
    everything but the section header table. *)
Record growable (h : Elf64_Ehdr) (phdr : list Z) (init : contents) (rs : Elf64_Shdr) : Prop := {
  gr_ident : take 7 (eh_ident h) = ELFMAG ++ [ELFCLASS64; ELFDATA2LSB; EV_CURRENT];
  gr_version : eh_version h = EV_CURRENT;
  gr_typed : ehdr_typed h;
  gr_sizes : eh_ehsize h = 64 /\ eh_shentsize h = 64;
  gr_phdr : zlen phdr = 56 * eh_phnum h /\ eh_phnum h < PN_XNUM /\ eh_phoff h < 2 ^ 60 /\
    (if eh_phnum h =? 0 then eh_phoff h = 0 /\ eh_phentsize h = 0
     else eh_phoff h <> 0 /\ eh_phentsize h = 56);
  gr_first : exists r0, init !! 0%nat = Some (r0, []) /\ sh_type r0 = SHT_NULL /\
    sh_entsize r0 = 0 /\ sh_size r0 = 0;
  gr_scns : Forall scn_fits init;
  gr_contents i r bs : init !! i = Some (r, bs) -> has_data i r = true ->
    if sh_type r =? SHT_NOBITS then bs = []
    else zlen bs = sh_size r /\ zlen bs mod fsize (scn_type r) = 0;
  gr_table : sh_type rs = SHT_STRTAB /\ shdr_typed rs;
  gr_front : ForallOrdPairs disjoint_regions (front h phdr init);
  gr_last : Forall (fun a => region_end a <= sh_offset rs) (front h phdr init);
}.

(** Regions of the same places. *)
Definition same_extent (a b : region) : Prop := a.1 = b.1 /\ zlen a.2 = zlen b.2.

Lemma same_extent_Forall (P : Z -> Prop) l k : Forall2 same_extent l k ->
  Forall (fun a => P (region_end a)) l -> Forall (fun a => P (region_end a)) k.
Proof.
  unfold region_end. induction 1 as [|a b l k [E1 E2] _ IH]; intros Hf; [apply List.Forall_nil|].
  apply Forall_cons in Hf as [H1 H2]. constructor; [by rewrite <- E1, <- E2|auto].
Qed.

Lemma same_extent_disjoint l k : Forall2 same_extent l k ->
  ForallOrdPairs disjoint_regions l -> ForallOrdPairs disjoint_regions k.
Proof.
  induction 1 as [|a b l k [E1 E2] Hlk IH]; intros Hf; [constructor|].
  inversion Hf as [|? ? H1 H2]; subst. constructor; [|auto].
  clear -H1 Hlk E1 E2. induction Hlk as [|c d l k [E3 E4] _ IH]; [apply List.Forall_nil|].
  apply Forall_cons in H1 as [H1 H1']. constructor; [|auto].
  unfold disjoint_regions, region_end in *. by rewrite <- E1, <- E2, <- E3, <- E4.
Qed.

Lemma same_extent_refl l : Forall2 same_extent l l.
Proof. induction l; constructor; done. Qed.

Lemma ehdr_same_extent h h' : length (eh_ident h) = 16%nat -> eh_ident h' = eh_ident h ->
  same_extent (0, encode_ehdr h) (0, encode_ehdr h').
Proof. intros Hl E. split; [done|]. cbn [snd]. by rewrite !ehdr_zlen by congruence. Qed.

(** *** The layout of the grown file *)

Section grown.
Context (h : Elf64_Ehdr) (phdr : list Z) (init : contents) (rs : Elf64_Shdr) (strs : list Z).
Context (new : contents).
Context (G : growable h phdr init rs).

Definition table_end : Z := sh_offset rs + zlen strs.
Definition file_end : Z := table_end + total new.

Definition grown : contents :=
  init ++ (set_size (zlen strs) rs, strs) :: place_from table_end new.

Definition grown_ehdr : Elf64_Ehdr := set_shoff file_end (count_section (zlen grown) h).

Context (A : Forall added_scn new) (Room : file_end < 2 ^ 60) (T : zlen strs < 2 ^ 60).
Context (Few : zlen grown < SHN_LORESERVE).

Lemma file_end_range : 0 <= sh_offset rs /\ sh_offset rs <= table_end /\ table_end <= file_end.
Proof using G A.
  destruct (gr_table _ _ _ _ G) as [_ [_ Hx]]. typed_fields. unfold uint in *.
  unfold table_end, file_end. pose proof (zlen_nn strs). pose proof (total_nn _ A).
  unfold table_end in *. lia.
Qed.

Lemma grown_typed : ehdr_typed grown_ehdr.
Proof using G A Room Few.
  pose proof file_end_range. pose proof (zlen_nn grown).
  destruct (gr_typed _ _ _ _ G) as [H1 H2 H3 H4]. unfold SHN_LORESERVE in *.
  constructor; [exact H1| |exact H3|]; typed_fields;
    repeat (constructor; [first [assumption|unfold uint; cbn; lia]|]); constructor.
Qed.

Lemma grown_lookup i r bs : grown !! i = Some (r, bs) ->
  init !! i = Some (r, bs) \/ i = length init /\ r = set_size (zlen strs) rs /\ bs = strs \/
  (length init < i)%nat /\ exists r1 o, (r1, bs) ∈ new /\
    r = set_place o (sh_size r1) (sh_addralign r1) r1 /\ table_end <= o /\ o + zlen bs <= file_end.
Proof using A.
  unfold grown. intros Hi. apply lookup_app_Some in Hi as [Hi|[Hl Hi]]; [by left|]. right.
  destruct (i - length init)%nat as [|j] eqn:E.
  - left. injection Hi as <- <-. split; [lia|done].
  - right. split; [lia|]. cbn in Hi.
    destruct (place_from_lookup _ _ _ _ _ A Hi) as (r1 & o & H1 & H2 & H3 & H4).
    exists r1, o. split; [by eapply list_elem_of_lookup_2|done].
Qed.

Lemma added_fits r bs o : added_scn (r, bs) -> table_end <= o -> o + zlen bs <= file_end ->
  scn_fits (set_place o (sh_size r) (sh_addralign r) r, bs).
Proof using G A Room.
  intros (Ht & Hz & [Hw Hx] & _) H1 H2. cbn in Ht, Hz, Hw, Hx. pose proof file_end_range.
  pose proof (zlen_nn bs). split; [|split; [cbn; lia|split; [cbn; lia|]]].
  - constructor; [exact Hw|]. typed_fields.
    repeat (constructor; [first [assumption|unfold uint; cbn; lia]|]). constructor.
  - right. cbn. rewrite Ht. done.
Qed.

Lemma grown_fits i r bs : grown !! i = Some (r, bs) -> scn_fits (r, bs).
Proof using G A Room T.
  intros Hi. pose proof file_end_range. pose proof (zlen_nn strs).
  destruct (grown_lookup _ _ _ Hi) as [Hi'|[(-> & -> & ->)|(_ & r1 & o & Hr & -> & H1 & H2)]].
  - by eapply Forall_lookup_1 in Hi'; [|exact (gr_scns _ _ _ _ G)].
  - destruct (gr_table _ _ _ _ G) as [Ht [Hw Hx]].
    split; [|split; [cbn; lia|split; [cbn; lia|]]].
    + constructor; [exact Hw|]. typed_fields.
      repeat (constructor; [first [assumption|unfold uint; cbn; lia]|]). constructor.
    + right. cbn. by rewrite Ht.
  - pose proof (proj1 (Forall_forall _ _) A) as A'. by apply added_fits; [apply A'| |].
Qed.

Lemma grown_contents i r bs : grown !! i = Some (r, bs) -> has_data i r = true ->
  if sh_type r =? SHT_NOBITS then bs = []
  else zlen bs = sh_size r /\ zlen bs mod fsize (scn_type r) = 0.
Proof using G A.
  intros Hi Hd.
  destruct (grown_lookup _ _ _ Hi) as [Hi'|[(-> & -> & ->)|(_ & r1 & o & Hr & -> & _)]].
  - by eapply (gr_contents _ _ _ _ G).
  - destruct (gr_table _ _ _ _ G) as [Ht _]. cbn. rewrite Ht. cbn. split; [done|].
    replace (scn_type _) with ELF_T_BYTE; [apply Z.mod_1_r|]. unfold scn_type. cbn. by rewrite Ht.
  - pose proof (proj1 (Forall_forall _ _) A) as A'. destruct (A' _ Hr) as (Ht & Hz & _). cbn in Ht, Hz. cbn.
    rewrite Ht. cbn. split; [done|].
    replace (scn_type _) with ELF_T_BYTE; [apply Z.mod_1_r|]. unfold scn_type. cbn. by rewrite Ht.
Qed.

(** Everything behind the front. *)
Definition rear : list region :=
  data_region (length init) (set_size (zlen strs) rs) strs ++
  data_regions (S (length init)) (place_from table_end new) ++ header_regions grown_ehdr 0 grown.

Lemma rear_follow : follow (sh_offset rs) rear.
Proof using G A.
  pose proof file_end_range as Hf. pose proof (zlen_nn strs).
  destruct (place_from_follow new (S (length init)) table_end ltac:(done) A) as [F1 F2].
  assert (F3 : follow table_end (data_regions (S (length init)) (place_from table_end new) ++
    header_regions grown_ehdr 0 grown)).
  { apply (follow_app _ _ file_end); [done|lia|done|].
    pose proof (header_regions_follow grown_ehdr grown 0) as Hh. cbn in Hh.
    by rewrite Z.add_0_r in Hh. }
  unfold rear, data_region. destruct (_ && _ && _); cbn [app follow].
  - split; [done|exact F3].
  - eapply follow_weaken; [|exact F3]. lia.
Qed.

Lemma grown_regions : regions grown_ehdr phdr grown ≡ₚ front grown_ehdr phdr init ++ rear.
Proof using.
  unfold regions, front, rear. cbn [app]. constructor.
  change (eh_phnum grown_ehdr) with (eh_phnum h). change (eh_phoff grown_ehdr) with (eh_phoff h).
  rewrite scn_regions_perm. rewrite <- !app_assoc. f_equiv.
  unfold grown at 1. rewrite data_regions_app. cbn [data_regions].
  rewrite <- !app_assoc, Nat.add_0_l. done.
Qed.

Lemma laid_out_grown : laid_out grown_ehdr phdr grown.
Proof using G A Room T Few.
  pose proof file_end_range as Hf. destruct (gr_sizes _ _ _ _ G) as [S1 S2].
  destruct (gr_phdr _ _ _ _ G) as (P1 & P2 & P3 & P4).
  destruct (gr_first _ _ _ _ G) as (r0 & F1 & F2 & F3 & F4).
  assert (Hfr : Forall2 same_extent (front h phdr init) (front grown_ehdr phdr init)).
  { constructor; [|apply same_extent_refl]. apply ehdr_same_extent; [|done].
    apply (et_ident _ (gr_typed _ _ _ _ G)). }
  assert (Hend : 64 <= file_end).
  { pose proof (gr_last _ _ _ _ G) as Hl. apply Forall_cons in Hl as [Hl _].
    unfold region_end in Hl. cbn [fst snd] in Hl.
    rewrite ehdr_zlen in Hl by apply (et_ident _ (gr_typed _ _ _ _ G)). lia. }
  constructor.
  - apply (gr_ident _ _ _ _ G).
  - apply (gr_version _ _ _ _ G).
  - apply grown_typed.
  - assert (0 < zlen grown) by (unfold grown, zlen; rewrite length_app; cbn; lia).
    cbn. repeat split; try done. lia.
  - done.
  - intros r bs Hr. unfold grown in Hr. rewrite lookup_app_l in Hr by by eapply lookup_lt_Some.
    rewrite F1 in Hr. by injection Hr as <- <-.
  - intros i r bs Hi. exact (grown_fits _ _ _ Hi).
  - apply grown_contents.
  - split; [exact Room|exact P3].
  - apply (OrdPairs_perm _ (front grown_ehdr phdr init ++ rear)); [apply disjoint_sym| |].
    { symmetry. apply grown_regions. }
    apply OrdPairs_join.
    + by eapply same_extent_disjoint, (gr_front _ _ _ _ G).
    + eapply follow_disjoint, rear_follow.
    + intros a b Ha Hb. left.
      pose proof (same_extent_Forall (fun z => z <= sh_offset rs) _ _ Hfr (gr_last _ _ _ _ G)) as Hl.
      pose proof (follow_start _ _ rear_follow) as Hs.
      rewrite Forall_forall in Hl, Hs. specialize (Hl _ Ha). specialize (Hs _ Hb). cbn in Hl, Hs. lia.
Qed.
End grown.

Section env.
Context `{Env}.
Hypothesis alloc : forall n, malloc_ok n = true.

(** ** The loop over the added sections *)

Lemma working_replace h phdr secs n strs t i r bs off :
  working h phdr secs n strs t -> secs !! i = Some (r, bs) -> i <> n ->
  exists t', on_elf (edit_shdr i (fun r => set_place off (sh_size r) (sh_addralign r) r)) t =
    Ret (tt, t') /\ keeps t t' /\
    working h phdr (<[i := (set_place off (sh_size r) (sh_addralign r) r, bs)]> secs) n strs t'.
Proof using.
  intros [(m & e & Ht & Hm & D) N Hh] Hi Hin. destruct (desc_scn D _ _ _ Hi) as (s & Hs & Hr).
  unfold edit_shdr. pose proof (upd_scn_run i (fun s => set_shdr (set_place off (sh_size (s_shdr64 s))
    (sh_addralign (s_shdr64 s)) (s_shdr64 s)) s) _ _ Hs) as E.
  rewrite (on_elf_run _ _ _ _ _ Ht E). eexists. split; [done|]. split; [done|].
  rewrite (sr_shdr _ _ _ _ _ Hr). split.
  - eexists m, _. split; [done|]. split; [done|]. apply (desc_replace D i s); [done| |done].
    by apply scn_rel_shdr with r.
  - destruct N as [N1 (rs & Hn & Hty) N3 N4]. constructor; [done| |done|].
    + exists rs. by rewrite list_lookup_insert_ne.
    + apply Forall_insert; [done|]. cbn. eapply Forall_lookup_1 in N4; [|exact Hi]. done.
  - destruct Hh. by constructor.
Qed.

Lemma working_getscn h phdr secs n strs t i : working h phdr secs n strs t ->
  (i < length secs)%nat -> on_elf (elf_getscn (Z.of_nat i)) t = Ret (Some i, t).
Proof using.
  intros [(m & e & Ht & Hm & D) N Hh] Hi. eapply on_elf_ret; [done|by apply (getscn_desc D)|done].
Qed.

Lemma working_getshdr h phdr secs n strs t i r bs : working h phdr secs n strs t ->
  secs !! i = Some (r, bs) -> on_elf (elf64_getshdr i) t = Ret (Some r, t).
Proof using.
  intros [(m & e & Ht & Hm & D) N Hh] Hi. eapply on_elf_ret; [done|by eapply (getshdr_desc D)|done].
Qed.

Lemma working_shdrnum h phdr secs n strs t : working h phdr secs n strs t ->
  on_elf elf_getshdrnum t = Ret (Some (zlen secs), t).
Proof using.
  intros [(m & e & Ht & Hm & D) N Hh]. eapply on_elf_ret; [done|by apply (getshdrnum_desc D)|done].
Qed.

Lemma place_last_run h phdr n strs l : forall pre t off,
  working h phdr (pre ++ l) n strs t -> (n < length pre)%nat -> Forall added_scn l ->
  0 <= off -> off + total l < 2 ^ 64 ->
  exists t', place_last (length l) (zlen pre) off t = Ret (inr (off + total l), t') /\
    working h phdr (pre ++ place_from off l) n strs t' /\ keeps t t'.
Proof using.
  induction l as [|[r bs] l IH]; intros pre t off W Hn Ha Ho Hb.
  { exists t. cbn [total]. rewrite Z.add_0_r. done. }
  apply Forall_cons in Ha as [A1 Ha]. destruct (A1) as (Ht & Hz & _). cbn in Ht, Hz.
  pose proof (total_nn _ Ha). pose proof (zlen_nn bs). cbn [total] in Hb.
  assert (Hi : (pre ++ (r, bs) :: l) !! length pre = Some (r, bs)) by by apply list_lookup_middle.
  cbn [length place_last].
  assert (Hlt : (length pre < length (pre ++ (r, bs) :: l))%nat) by (rewrite length_app; cbn; lia).
  rewrite (T_step _ _ _ _ _ (working_getscn _ _ _ _ _ _ _ W Hlt)).
  rewrite (T_step _ _ _ _ _ (working_getshdr _ _ _ _ _ _ _ _ _ W Hi)).
  destruct (working_replace _ _ _ _ _ _ _ _ _ off W Hi) as (t1 & E1 & K1 & W1); [lia|].
  rewrite (T_step _ _ _ _ _ E1).
  assert (El : <[length pre:=(set_place off (sh_size r) (sh_addralign r) r, bs)]>
      (pre ++ (r, bs) :: l) =
    (pre ++ [(set_place off (sh_size r) (sh_addralign r) r, bs)]) ++ l).
  { rewrite insert_app_r_alt, Nat.sub_diag by lia. by rewrite <- app_assoc. }
  rewrite El in W1.
  destruct (IH _ t1 (off + sh_size r) W1) as (t2 & E2 & W2 & K2); [..|].
  - rewrite length_app. cbn. lia.
  - done.
  - lia.
  - lia.
  - exists t2. rewrite wrap_small by lia.
    replace (zlen pre + 1) with (zlen (pre ++ [(set_place off (sh_size r) (sh_addralign r) r, bs)]))
      by (rewrite zlen_cat; done).
    rewrite E2. cbn [place_from total]. rewrite Z.add_assoc. split; [done|].
    split; [|by transitivity t1]. by rewrite <- app_assoc in W2.
Qed.

(** ** Writing the file *)

Context `{Io}.
Hypothesis io : ftruncate_ok = true /\ mmap_ok = true.

(** A file that opens to these headers and contents. *)
Definition opens (file : list Z) (h : Elf64_Ehdr) (phdr : list Z) (secs : contents) : Prop :=
  forall w, let e := opened_elf file h phdr secs.*1 w in
    elf_begin (Some file) w = Some (unread_elf file w) /\
    cooked (unread_elf file w) = Ret (true, e) /\ desc (0, 0, true, w) e h phdr secs.

Lemma dirty_controls fl hf rd :
  Z.land fl ELF_F_LAYOUT <> 0 -> Z.land fl ELF_F_LAYOUT_OVERLAP <> 0 ->
  controls (dirty_mode (fl, hf, rd, true)).
Proof using.
  intros H1 H2. exists fl, (Z.lor hf ELF_F_DIRTY), rd. split; [done|]. split; [|done].
  rewrite Z.lor_spec. change (Z.testbit ELF_F_DIRTY 0) with true. apply orb_true_r.
Qed.

(** [ehdr->e_shoff], the dirty flag and [elf_update]. *)
Lemma write_back_run h phdr secs n strs off t (k : option Z -> T Z) :
  working h phdr secs n strs t -> laid_out (set_shoff off h) phdr secs ->
  exists t' len, (on_elf (modify (set_ehdr (Some (set_shoff off h))));;
      on_elf (elf_flagehdr ELF_F_DIRTY);; len ← update_file; k len) t = k (Some len) t' /\
    opens (t_file t') (set_shoff off h) phdr secs /\ t_fds t' = t_fds t /\
    t_bins t' = t_bins t /\ is_Some (t_elf t').
Proof using alloc io.
  intros [(m & e & Ht & (fl & hf & rd & -> & M1 & M2) & D) N Hh] L.
  pose proof (desc_ehdr _ _ _ (set_shoff off h) _ _ D eq_refl) as D1.
  set (e1 := set_ehdr _ e) in *.
  rewrite (T_step _ _ _ _ _ (on_elf_run (modify (set_ehdr (Some (set_shoff off h)))) t e tt e1 Ht eq_refl)).
  set (t1 := set_elf (Some e1) t). assert (Ht1 : t_elf t1 = Some e1) by done.
  pose proof (desc_flags _ _ _ _ _ (e_elf_flags e1) (Z.lor (e_ehdr_flags e1) ELF_F_DIRTY)
    (e_phdr_flags e1) D1) as D2.
  set (e2 := set_flags _ _ _ e1) in *.
  rewrite (T_step _ _ _ _ _ (on_elf_run (elf_flagehdr ELF_F_DIRTY) t1 e1 tt e2 Ht1 eq_refl)).
  assert (Hm : (e_elf_flags e1, Z.lor (e_ehdr_flags e1) ELF_F_DIRTY, (fl, hf, rd, true).1.2,
    (fl, hf, rd, true).2) = dirty_mode (fl, hf, rd, true)).
  { pose proof (de_mode _ _ _ _ _ D1) as Hm. injection Hm as E1 E2 _ _. unfold e1, dirty_mode. cbn in *.
    by rewrite E1, E2. }
  rewrite Hm in D2. pose proof (dirty_controls fl hf rd M1 M2) as C.
  set (t2 := set_elf (Some e2) t1). assert (Ht2 : t_elf t2 = Some e2) by done.
  destruct (update_run C L alloc io (t_file t2) e2 D2) as (file' & e3 & E3 & Hw & Hl & Ho).
  assert (Eu : update_file t2 = Ret (Some (zlen file'), MkTool file' (t_fds t2) (Some e3)
    (t_bins t2) (t_next t2) (t_old_shstrtab t2) (t_freed t2))).
  { unfold update_file. rewrite (on_elf_run _ _ _ _ _ Ht2 E3). done. }
  rewrite (T_step _ _ _ _ _ Eu). eexists _, _. split; [done|]. split; [|split; [done|by split]].
  intros w e'. cbn [t_file]. by destruct (written_desc L alloc e2 file' w D2 Hw Hl Ho) as (E1 & E2 & D').
Qed.

Lemma place_and_write_run h phdr init rs strs new t :
  growable h phdr init rs -> Forall added_scn new ->
  file_end rs strs new < 2 ^ 60 -> zlen strs < 2 ^ 60 ->
  zlen (grown init rs strs new) < SHN_LORESERVE ->
  working (count_section (zlen (grown init rs strs new)) h) phdr
    (init ++ (set_size (zlen strs) rs, strs) :: new) (length init) strs t ->
  exists t', place_and_write (length new) t = Ret (SUCCESS, t') /\
    opens (t_file t') (grown_ehdr h init rs strs new) phdr (grown init rs strs new) /\
    t_fds t' = t_fds t /\ t_bins t' = t_bins t /\ is_Some (t_elf t').
Proof using alloc io.
  intros G A Room Tab Few W. destruct (file_end_range _ _ _ _ strs _ G A) as (B1 & B2 & B3).
  unfold place_and_write. rewrite (T_step _ _ _ _ _ (working_shdrnum _ _ _ _ _ _ W)).
  assert (El : zlen (init ++ (set_size (zlen strs) rs, strs) :: new) = zlen init + 1 + zlen new).
  { unfold zlen. rewrite length_app. cbn. lia. }
  assert (Eg : zlen (grown init rs strs new) = zlen init + 1 + zlen new).
  { unfold grown, zlen. rewrite length_app. cbn. rewrite place_from_length. lia. }
  pose proof (zlen_nn init). pose proof (zlen_nn new). unfold SHN_LORESERVE in *.
  rewrite El, wrap_small by (unfold zlen in *; lia).
  replace (zlen init + 1 + zlen new - (Z.of_nat (length new) + 1)) with (Z.of_nat (length init))
    by (unfold zlen; lia).
  assert (Hi : (init ++ (set_size (zlen strs) rs, strs) :: new) !! length init =
    Some (set_size (zlen strs) rs, strs)) by by apply list_lookup_middle.
  rewrite (T_step _ _ _ _ _ (working_getscn _ _ _ _ _ _ _ W (lookup_lt_Some _ _ _ Hi))).
  rewrite (T_step _ _ _ _ _ (working_getshdr _ _ _ _ _ _ _ _ _ W Hi)).
  cbn [sh_offset sh_size set_size set_place]. rewrite wrap_small by (unfold table_end in *; lia).
  fold (table_end rs strs).
  rewrite (app_assoc init [_] new : init ++ (set_size (zlen strs) rs, strs) :: new = _) in W.
  destruct (place_last_run _ _ _ _ _ _ _ (table_end rs strs) W) as (t1 & E1 & W1 & K1).
  { rewrite length_app. cbn. lia. }
  { done. }
  { lia. }
  { unfold file_end in Room. lia. }
  replace (zlen init + 1 + zlen new - Z.of_nat (length new))
    with (zlen (init ++ [(set_size (zlen strs) rs, strs)])) by (rewrite zlen_cat; unfold zlen; cbn; lia).
  rewrite (T_step _ _ _ _ _ E1). fold (file_end rs strs new).
  rewrite <- app_assoc in W1. fold (grown init rs strs new) in W1. cbn [app] in W1.
  destruct (wk_elf _ _ _ _ _ _ W1) as (m & e & Ht & Hm & D).
  rewrite (T_step _ _ _ _ _ (on_elf_ret _ _ _ _ _ Ht (getehdr_desc D) eq_refl)).
  destruct (write_back_run _ _ _ _ _ (file_end rs strs new) t1
    (fun len => mret (match len with None => WRITE_ELF_FAILED | Some _ => SUCCESS end)) W1)
    as (t2 & len & E2 & O & F1 & F2 & F3).
  { by apply laid_out_grown. }
  exists t2. split; [exact E2|]. destruct K1 as (_ & K2 & K3).
  split; [exact O|]. split; [congruence|]. split; [congruence|done].
Qed.
End env.
