(* ===== verification/ElfMetadata.v ===== *)
(** * The metadata tool: the sections it adds

    [put_section] for a section the binary does not have, the four sections of
    [add_sections] one after the other, and where their names are found in the
    file written. *)

From S2P Require Import Prelude Machine CallSite Lookup Init StackMap WriteMeta LibElf ElfUpdate ElfUtil WriteElf ElfSpec ElfDesc ElfRoundtrip ElfTool ElfAdd ElfUnwind ElfPlace.

#[local] Open Scope Z_scope.

Import Lib Tool.

(** ** Names *)

Lemma Forall2_same {A} (R : A -> A -> Prop) l : (forall x, R x x) -> Forall2 R l l.
Proof. intros Hr. induction l; constructor; auto. Qed.

(** Sections with the names at the same places. *)
Definition same_name (a b : Elf64_Shdr * list Z) : Prop := sh_name a.1 = sh_name b.1.

Lemma find_named_same strs name l k :
  Forall2 same_name l k -> find_named strs name l = find_named strs name k.
Proof.
  intros Hf. unfold find_named. apply first_named_ext. apply Forall2_drop.
  eapply Forall2_impl; [exact Hf|]. unfold same_name. by intros a b ->.
Qed.

Lemma renamed_same_name n strs l : Forall2 same_name l (renamed n strs l).
Proof.
  apply Forall2_same_length_lookup_2; [unfold renamed; by rewrite length_alter|].
  intros i x y Hx Hy. unfold renamed in Hy. destruct (decide (n = i)) as [<-|].
  - rewrite list_lookup_alter_eq, Hx in Hy. by injection Hy as <-.
  - rewrite list_lookup_alter_ne, Hx in Hy by done. by injection Hy as <-.
Qed.

(** Old names are found where they were; a new one at the end. *)
Lemma find_named_add h secs n strs nm es bs name :
  named_by h secs n strs -> 0 ∉ nm -> zlen nm <= BUF_SIZE ->
  find_named (with_name strs nm) name (add_contents n strs nm es bs secs) =
  match find_named strs name secs with
  | Some i => Some i
  | None => if decide (nm = name) then Some (length secs) else None
  end.
Proof.
  intros N Hz Hl. destruct (nb_section _ _ _ _ N) as (rs & Hn & _).
  pose proof (lookup_lt_Some _ _ _ Hn) as Hlt.
  assert (E : find_named (with_name strs nm) name (renamed n (with_name strs nm) secs) =
    find_named strs name secs).
  { rewrite <- (find_named_same _ _ _ _ (renamed_same_name n (with_name strs nm) secs)).
    unfold find_named. apply first_named_ext. apply Forall2_drop.
    apply Forall2_same_length_lookup_2; [done|]. intros i x y Hx Hy. rewrite Hx in Hy.
    injection Hy as <-. apply string_at_old; [apply (nb_table _ _ _ _ N)|].
    eapply Forall_lookup_1 in Hx; [|exact (nb_names _ _ _ _ N)]. exact Hx. }
  unfold add_contents, find_named in *.
  rewrite drop_app_le by (unfold renamed; rewrite length_alter; lia).
  rewrite first_named_app, E. destruct (first_named strs name 1 (drop 1 secs)); [done|].
  cbn [first_named]. rewrite length_drop. unfold renamed. rewrite length_alter.
  cbn [sh_name new_shdr]. rewrite string_at_new by done.
  replace (1 + (length secs - 1))%nat with (length secs) by lia.
  repeat case_decide; congruence.
Qed.

(** ** One section after the other *)

(** A section to add: its name, the size of an entry and its content. *)
Abbreviation addition := (list Z * Z * list Z)%type.

(** The table of names and the new sections after some additions. *)
Fixpoint emit (strs : list Z) (l : list addition) : list Z * contents :=
  match l with
  | [] => (strs, [])
  | (nm, es, bs) :: l' =>
      let r := emit (with_name strs nm) l' in
      (r.1, (new_shdr (zlen strs) (zlen bs) es, bs) :: r.2)
  end.

(** The contents while sections are added: the table of names grows, the new
    sections have no place yet. *)
Definition stage (init : contents) (rs : Elf64_Shdr) (strs : list Z) (new : contents) : contents :=
  init ++ (set_size (zlen strs) rs, strs) :: new.

Definition stage_ehdr (h : Elf64_Ehdr) (secs : contents) : Elf64_Ehdr := count_section (zlen secs) h.

Lemma add_contents_stage init rs strs new nm es bs :
  add_contents (length init) strs nm es bs (stage init rs strs new) =
  stage init rs (with_name strs nm) (new ++ [(new_shdr (zlen strs) (zlen bs) es, bs)]).
Proof.
  unfold add_contents, renamed, stage.
  assert (Hl : (init ++ (set_size (zlen strs) rs, strs) :: new) !! length init =
    Some (set_size (zlen strs) rs, strs)) by by apply list_lookup_middle.
  rewrite (alter_some _ _ _ _ Hl), insert_app_r_alt, Nat.sub_diag by done.
  cbn. by rewrite <- app_assoc.
Qed.

Lemma zlen_stage init rs strs new : zlen (stage init rs strs new) = zlen init + 1 + zlen new.
Proof. unfold stage, zlen. rewrite length_app. cbn. lia. Qed.

(** The names of some additions, as they can be stored and told apart. *)
Definition good_name (nm : list Z) : Prop := 0 ∉ nm /\ zlen nm <= BUF_SIZE.

Lemma emit_keeps h init rs l : forall strs new name i,
  named_by (stage_ehdr h (stage init rs strs new)) (stage init rs strs new) (length init) strs ->
  Forall (fun a => good_name a.1.1) l ->
  find_named strs name (stage init rs strs new) = Some i ->
  find_named (emit strs l).1 name (stage init rs (emit strs l).1 (new ++ (emit strs l).2)) = Some i.
Proof.
  induction l as [|[[nm es] bs] l IH]; intros strs new name i N Hg Hf.
  { cbn. by rewrite app_nil_r. }
  apply Forall_cons in Hg as [[Hz Hl] Hg]. cbn [emit fst snd].
  pose proof (find_named_add _ _ _ _ nm es bs name N Hz Hl) as Ha. rewrite Hf in Ha.
  rewrite add_contents_stage in Ha.
  pose proof (named_added _ _ _ _ nm es bs
    (zlen (stage init rs (with_name strs nm) (new ++ [(new_shdr (zlen strs) (zlen bs) es, bs)]))) N)
    as N'. rewrite add_contents_stage in N'.
  specialize (IH _ _ _ _ N' Hg Ha). by rewrite <- app_assoc in IH.
Qed.

Lemma emit_finds h init rs l : forall strs new j nm es bs,
  named_by (stage_ehdr h (stage init rs strs new)) (stage init rs strs new) (length init) strs ->
  Forall (fun a => good_name a.1.1) l -> NoDup (l.*1.*1) -> l !! j = Some (nm, es, bs) ->
  find_named strs nm (stage init rs strs new) = None ->
  find_named (emit strs l).1 nm (stage init rs (emit strs l).1 (new ++ (emit strs l).2)) =
    Some (length init + 1 + length new + j)%nat.
Proof.
  induction l as [|[[nm0 es0] bs0] l IH]; intros strs new j nm es bs N Hg Hd Hj Hf; [done|].
  apply Forall_cons in Hg as [[Hz Hl] Hg]. cbn [emit fst snd]. rewrite !fmap_cons in Hd.
  apply NoDup_cons in Hd as [Hn Hd]. cbn [fst] in Hn.
  pose proof (find_named_add _ _ _ _ nm0 es0 bs0 nm N Hz Hl) as Ha. rewrite Hf in Ha.
  rewrite add_contents_stage in Ha.
  pose proof (named_added _ _ _ _ nm0 es0 bs0 (zlen (stage init rs (with_name strs nm0)
    (new ++ [(new_shdr (zlen strs) (zlen bs0) es0, bs0)]))) N) as N'.
  rewrite add_contents_stage in N'. destruct j as [|j].
  - injection Hj as -> -> ->. rewrite decide_True in Ha by done.
    pose proof (emit_keeps h init rs l _ _ _ _ N' Hg Ha) as K. rewrite <- app_assoc in K.
    cbn [app] in K. rewrite K. f_equal. unfold stage. rewrite length_app. cbn. lia.
  - change (l !! j = Some (nm, es, bs)) in Hj. rewrite decide_False in Ha.
    + pose proof (IH _ _ _ _ _ _ N' Hg Hd Hj Ha) as K. rewrite <- app_assoc in K. cbn [app] in K.
      rewrite K. f_equal. rewrite length_app. cbn. lia.
    + intros ->. apply Hn. apply list_elem_of_lookup. exists j. by rewrite !list_lookup_fmap, Hj.
Qed.

(** What [put_section] needs of a new section and of the binary. *)
Record addable (init : contents) (rs : Elf64_Shdr) (strs : list Z) (new : contents)
    (a : addition) (num : Z) : Prop := {
  ad_first : exists r0, init !! 0%nat = Some (r0, []) /\ sh_size r0 = 0;
  ad_count : zlen (stage init rs strs new) + 1 < SHN_LORESERVE;
  ad_names : 0 < zlen strs < 2 ^ 32;
  ad_bytes : zlen a.2 = a.1.2 * num /\ zlen a.2 < 2 ^ 64 /\ zlen a.2 mod 4 = 0;
  ad_fresh : find_named strs a.1.1 (stage init rs strs new) = None;
}.

(** *** Where the sections are in the file *)

Lemma emit_lookup l : forall strs j nm es bs, l !! j = Some (nm, es, bs) ->
  exists off, (emit strs l).2 !! j = Some (new_shdr off (zlen bs) es, bs).
Proof.
  induction l as [|[[nm0 es0] bs0] l IH]; intros strs j nm es bs Hj; [done|].
  cbn [emit snd]. destruct j as [|j]; [injection Hj as -> -> ->; by eexists|]. by eapply IH.
Qed.

Lemma place_lookup l : forall off j r bs, l !! j = Some (r, bs) ->
  exists o, place_from off l !! j = Some (set_place o (sh_size r) (sh_addralign r) r, bs).
Proof.
  induction l as [|[r0 bs0] l IH]; intros off j r bs Hj; [done|]. cbn [place_from].
  destruct j as [|j]; [injection Hj as -> ->; by eexists|]. by apply IH.
Qed.

Lemma grown_same_name init rs strs new :
  Forall2 same_name (stage init rs strs new) (grown init rs strs new).
Proof.
  unfold stage, grown. apply Forall2_app; [by apply Forall2_same|]. constructor; [done|].
  generalize (table_end rs strs). induction new as [|[r bs] new IH]; intros off; [constructor|].
  constructor; [done|apply IH].
Qed.

Lemma named_grown h h' init rs strs new :
  named_by h (stage init rs strs new) (length init) strs -> eh_shstrndx h' = eh_shstrndx h ->
  named_by h' (grown init rs strs new) (length init) strs.
Proof.
  intros [N1 (r & Hn & Ht) N3 N4] E. constructor; [by rewrite E| |done|].
  - exists (set_size (zlen strs) rs). unfold grown, stage in *. rewrite list_lookup_middle in Hn by done.
    injection Hn as <-. by rewrite list_lookup_middle.
  - pose proof (grown_same_name init rs strs new) as Hs. apply Forall_forall. intros y Hy.
    apply list_elem_of_lookup in Hy as [i Hi]. destruct (Forall2_lookup_r _ _ _ _ _ Hs Hi) as (x & Hx & Hxy).
    unfold same_name in Hxy. rewrite <- Hxy. by eapply Forall_lookup_1 in Hx; [|exact N4].
Qed.

(** A section of this name with these records. *)
Definition holds (strs : list Z) (secs : contents) (name : list Z) (entsize : Z) (bs : list Z) : Prop :=
  exists i r, find_named strs name secs = Some i /\ secs !! i = Some (r, bs) /\
    sh_type r = SHT_PROGBITS /\ sh_size r = zlen bs /\ sh_entsize r = entsize.

(** ** Additions a binary has room for *)

Record can_add (h : Elf64_Ehdr) (init : contents) (rs : Elf64_Shdr) (strs : list Z)
    (new : contents) (l : list addition) : Prop := {
  ca_named : named_by (stage_ehdr h (stage init rs strs new)) (stage init rs strs new)
    (length init) strs;
  ca_first : exists r0, init !! 0%nat = Some (r0, []) /\ sh_size r0 = 0;
  ca_count : zlen (stage init rs strs new) + zlen l < SHN_LORESERVE;
  ca_table : 0 < zlen strs /\ zlen strs + (BUF_SIZE + 1) * zlen l < 2 ^ 32;
  ca_good : Forall (fun a => good_name a.1.1) l;
  ca_distinct : NoDup (l.*1.*1);
  ca_fresh : Forall (fun a => find_named strs a.1.1 (stage init rs strs new) = None) l;
}.

Lemma zlen_cons {A} (x : A) l : zlen (x :: l) = zlen l + 1.
Proof. unfold zlen. cbn [length]. lia. Qed.

Lemma can_add_addable h init rs strs new a l num :
  can_add h init rs strs new (a :: l) ->
  zlen a.2 = a.1.2 * num -> zlen a.2 < 2 ^ 64 -> zlen a.2 mod 4 = 0 ->
  addable init rs strs new a num.
Proof.
  intros [N F C [T1 T2] G Di Fr] B1 B2 B3. apply Forall_cons in Fr as [Fr _].
  rewrite zlen_cons in *. pose proof (zlen_nn l). unfold BUF_SIZE in *. constructor; try done; lia.
Qed.

Lemma can_add_next h init rs strs new a l :
  can_add h init rs strs new (a :: l) ->
  can_add h init rs (emit strs [a]).1 (new ++ (emit strs [a]).2) l.
Proof.
  destruct a as [[nm es] bs]. intros [N F C [T1 T2] G Di Fr].
  apply Forall_cons in Fr as [_ Fr]. apply Forall_cons in G as [[G1 G2] G].
  rewrite !fmap_cons in Di. apply NoDup_cons in Di as [Hn Di]. cbn [fst] in *.
  rewrite zlen_cons in *. pose proof (zlen_nn l). destruct (zlen_name strs nm) as [[Z1 Z2] _].
  cbn [emit fst snd]. constructor; try done.
  - pose proof (named_added _ _ _ _ nm es bs (zlen (stage init rs (with_name strs nm)
      (new ++ [(new_shdr (zlen strs) (zlen bs) es, bs)]))) N) as N'.
    by rewrite add_contents_stage in N'.
  - rewrite zlen_stage in *. rewrite zlen_cat, zlen_cons. change (zlen []) with 0. lia.
  - unfold BUF_SIZE in *. lia.
  - apply Forall_forall. intros a Ha. rewrite Forall_forall in Fr.
    pose proof (find_named_add _ _ _ _ nm es bs a.1.1 N G1 G2) as E.
    rewrite (Fr _ Ha), add_contents_stage, decide_False in E; [done|].
    intros ->. apply Hn. apply list_elem_of_fmap. exists a.1. split; [done|].
    apply list_elem_of_fmap. by exists a.
Qed.

Lemma emit_added h init rs l : forall strs new,
  can_add h init rs strs new l ->
  Forall (fun a => 0 <= a.1.2 < 2 ^ 64 /\ zlen a.2 < 2 ^ 64) l ->
  Forall added_scn (emit strs l).2.
Proof.
  induction l as [|[[nm es] bs] l IH]; intros strs new Hc Hb; [apply List.Forall_nil|].
  apply Forall_cons in Hb as [[B1 B2] Hb]. cbn [fst snd] in *.
  pose proof (can_add_next _ _ _ _ _ _ _ Hc) as Hc'. destruct (ca_table _ _ _ _ _ _ Hc) as [T1 T2].
  rewrite zlen_cons in T2. pose proof (zlen_nn l). pose proof (zlen_nn bs). unfold BUF_SIZE in *.
  cbn [emit fst snd]. constructor; [|by eapply IH].
  split; [done|]. split; [done|]. split; [|done].
  constructor; cbn; repeat (constructor; [unfold uint, SHT_PROGBITS; lia|]); constructor.
Qed.

Lemma emit_holds h init rs strs l nm es bs :
  can_add h init rs strs [] l -> (nm, es, bs) ∈ l ->
  holds (emit strs l).1 (grown init rs (emit strs l).1 (emit strs l).2) nm es bs.
Proof.
  intros [N F C T G D Fr] Hin. apply list_elem_of_lookup in Hin as [j Hj].
  pose proof (Forall_lookup_1 _ _ _ _ Fr Hj) as Hf.
  pose proof (emit_finds h init rs l strs [] j nm es bs N G D Hj Hf) as Hfind. cbn [app] in Hfind.
  rewrite (find_named_same _ _ _ _ (grown_same_name _ _ _ _)) in Hfind.
  destruct (emit_lookup l strs _ _ _ _ Hj) as [off Hoff].
  destruct (place_lookup _ (table_end rs (emit strs l).1) _ _ _ Hoff) as [o Ho].
  eexists _, _. split; [exact Hfind|]. split; [|split; [|split]].
  - unfold grown. rewrite lookup_app_r by lia. cbn [length].
    replace (length init + 1 + 0 + j - length init)%nat with (S j) by lia. exact Ho.
  - done.
  - done.
  - done.
Qed.

Lemma emit_named h init rs l : forall strs new, can_add h init rs strs new l ->
  can_add h init rs (emit strs l).1 (new ++ (emit strs l).2) [].
Proof.
  induction l as [|a l IH]; intros strs new Hc; [cbn; by rewrite app_nil_r|].
  pose proof (IH _ _ (can_add_next _ _ _ _ _ _ _ Hc)) as Hn. destruct a as [[nm es] bs].
  cbn [emit fst snd] in *. by rewrite <- app_assoc in Hn.
Qed.

Section env.
Context `{Env}.
Hypothesis alloc : forall n, malloc_ok n = true.

Lemma working_search h phdr secs n strs t name :
  working h phdr secs n strs t ->
  exists t', on_elf (get_section_by_name name) t = Ret (find_named strs name secs, t') /\
    working h phdr secs n strs t' /\ keeps t t'.
Proof using.
  intros [(m & e & Ht & Hm & D) N Hh].
  destruct (get_section_by_name_run N e name D) as (e' & E & D' & _).
  exists (set_elf (Some e') t). split; [by apply on_elf_run with e|]. split; [|done].
  constructor; [by eexists m, _|done|by apply heap_ok_elf].
Qed.

Lemma working_alloc h phdr secs n strs t bs :
  working h phdr secs n strs t ->
  exists p t', array bs t = Ret (Some (Heap p bs), t') /\ working h phdr secs n strs t' /\
    keeps t t'.
Proof using alloc.
  intros [(m & e & Ht & Hm & D) N [H1 H2 H3 H4]]. unfold array. rewrite alloc, andb_false_r.
  rewrite (T_step _ _ _ _ _ (xmalloc_run alloc bs t)). eexists _, _. split; [done|].
  split; [|done]. pose proof (zlen_nn bs). constructor; [by eexists m, e|done|].
  constructor; cbn; [lia|lia| |done]. eapply Forall_impl; [exact H3|]. cbn. lia.
Qed.

(** The tool while it adds sections to a binary. *)
Definition adding (h : Elf64_Ehdr) (phdr : list Z) (init : contents) (rs : Elf64_Shdr)
    (strs : list Z) (new : contents) (t : tool) : Prop :=
  working (stage_ehdr h (stage init rs strs new)) phdr (stage init rs strs new) (length init)
    strs t.

Lemma put_section_run h phdr init rs strs new a num p t :
  adding h phdr init rs strs new t -> addable init rs strs new a num ->
  exists t', put_section a.1.1 num a.1.2 (Some (Heap p a.2)) t = Ret (SUCCESS, t') /\
    adding h phdr init rs (emit strs [a]).1 (new ++ (emit strs [a]).2) t' /\ keeps t t'.
Proof using alloc.
  destruct a as [[nm es] bs]. cbn [fst snd emit]. intros W [(r0 & F1 & F2) C Hs (B1 & B2 & B3) Hf].
  cbn [fst snd] in *. unfold put_section.
  destruct (working_search _ _ _ _ _ _ nm W) as (t1 & E1 & W1 & K1).
  rewrite (T_step _ _ _ _ _ E1), Hf.
  assert (F0 : stage init rs strs new !! 0%nat = Some (r0, [])).
  { unfold stage. rewrite lookup_app_l; [done|]. by eapply lookup_lt_Some. }
  destruct (add_section_run alloc _ _ _ _ _ _ nm p bs bs num es _ _ W1 F0 F2 C Hs) as (t2 & E2 & W2 & K2).
  { apply at_offset_iff. exists [], []. by rewrite app_nil_r. }
  { done. } { done. } { done. }
  exists t2. split; [exact E2|]. split; [|by transitivity t1]. unfold adding, stage_ehdr.
  rewrite add_contents_stage in W2.
  replace (zlen (stage init rs (with_name strs nm) (new ++ [(new_shdr (zlen strs) (zlen bs) es, bs)])))
    with (zlen (stage init rs strs new) + 1) by (rewrite !zlen_stage; unfold zlen; rewrite length_app; cbn [length]; lia).
  exact W2.
Qed.

(** ** [add_sections] *)

Context `{Io} `{QsortLaws}.
Hypothesis io : ftruncate_ok = true /\ mmap_ok = true.

(** The sections [add_sections] makes of call sites and records. *)
Definition additions (sec : list Z) (sites : list call_site) (live archlive : list Z) :
    list addition :=
  let id_sites := qsort sort_id sites in
  [(section_name sec SECTION_ID, 52, encode_section encode_call_site id_sites);
   (section_name sec SECTION_ADDR, 52, encode_section encode_call_site (qsort sort_addr id_sites));
   (section_name sec SECTION_LIVE, 12, live); (section_name sec SECTION_ARCH, 20, archlive)].

Lemma unwind_records_run h phdr secs n strs t name k r ua :
  working h phdr secs n strs t -> find_named strs name secs = Some k ->
  let bs := encode_section encode_unwind_addr ua in
  secs !! k = Some (r, bs) -> sh_type r = SHT_PROGBITS -> sh_size r = zlen bs ->
  sh_entsize r = 16 -> ua <> [] -> Forall unwind_addr_typed ua ->
  exists t', unwind_records name t = Ret (inr ua, t') /\ working h phdr secs n strs t' /\ keeps t t'.
Proof using.
  intros W Hf bs Hk Hty Hz Hent Hne Htyp. unfold unwind_records.
  destruct (find_named_lookup _ _ _ _ Hf) as (r' & bs0 & Hk0 & _).
  assert (Hd : has_data k r = true).
  { unfold has_data. rewrite Hty. destruct k; [done|done]. }
  assert (Hbs : zlen bs = 16 * zlen ua) by apply unwind_addrs_size.
  assert (Hpos : 0 < zlen ua) by (destruct ua; [done|unfold zlen; cbn; lia]).
  destruct (working_search _ _ _ _ _ _ name W) as (t1 & E1 & W1 & K1). rewrite Hf in E1.
  rewrite (T_step _ _ _ _ _ E1), (T_step _ _ _ _ _ (working_getshdr _ _ _ _ _ _ _ _ _ W1 Hk)).
  destruct (Z.eqb_spec (sh_size r) 0); [lia|]. destruct (Z.eqb_spec (sh_entsize r) 0); [lia|].
  cbn [orb]. destruct W1 as [(m & e & Ht & Hm & D) N Hh].
  destruct (get_section_data_run _ _ _ _ _ _ _ _ D Hk Hd) as
    (b & e2 & E2 & D2 & _ & Hb & _); [by rewrite Hty| |].
  { intros E. rewrite E in Hbs. change (zlen (@nil Z)) with 0 in Hbs. lia. }
  rewrite (T_step _ _ _ _ _ (on_elf_run _ _ _ _ _ Ht E2)).
  set (t2 := set_elf (Some e2) t1). assert (Ht2 : t_elf t2 = Some e2) by done. cbv zeta.
  rewrite Hz, Hent, Hbs. replace (16 * zlen ua / 16) with (zlen ua)
    by (rewrite Z.mul_comm, Z.div_mul; lia).
  replace (zlen ua * 16) with (zlen bs) by lia.
  rewrite (T_step _ _ _ _ _ (on_elf_ret _ _ _ _ _ Ht2 Hb eq_refl)).
  unfold bs. rewrite view_unwind_addrs by done. exists t2. split; [done|].
  split; [|by transitivity t1]. constructor; [by eexists m, _|done|by apply heap_ok_elf].
Qed.

(** The bytes of the sections added. *)
Definition added_bytes (sites : list call_site) (live archlive : list Z) : Z :=
  104 * zlen sites + zlen live + zlen archlive.

Lemma sorted_sites_size (cmp : call_site -> call_site -> Z) l :
  zlen (encode_section encode_call_site (qsort cmp l)) = 52 * zlen l.
Proof using All.
  rewrite call_sites_size. unfold zlen. by rewrite (law_qsort_permutation cmp l).
Qed.

Lemma zlen_qsort {A} (cmp : A -> A -> Z) l : zlen (qsort cmp l) = zlen l.
Proof using All. unfold zlen. by rewrite (law_qsort_permutation cmp l). Qed.

Lemma mod4 k n : (4 * k * n) mod 4 = 0.
Proof using. replace (4 * k * n) with (k * n * 4) by lia. apply Z.mod_mul. lia. Qed.

Lemma total_app l k : total (l ++ k) = total l + total k.
Proof using. induction l as [|[r bs] l IH]; cbn; [done|]. rewrite IH. lia. Qed.

Lemma additions_total strs sec sites live archlive :
  total (emit strs (additions sec sites live archlive)).2 = added_bytes sites live archlive.
Proof using All.
  unfold additions. cbn [emit fst snd total sh_size new_shdr].
  rewrite !sorted_sites_size, zlen_qsort. unfold added_bytes. lia.
Qed.

Local Ltac put_ok E :=
  rewrite (T_step _ _ _ _ _ E); change (negb (SUCCESS =? 0)) with false; cbn match.

Lemma add_sections_run junk arch buf sm sec start_id unwind_sec h phdr init rs strs t k r ua
    sites live archlive nl na :
  let bs := encode_section encode_unwind_addr ua in
  let l := additions sec sites live archlive in
  adding h phdr init rs strs [] t -> growable h phdr init rs ->
  find_named strs unwind_sec (stage init rs strs []) = Some k ->
  stage init rs strs [] !! k = Some (r, bs) -> sh_type r = SHT_PROGBITS -> sh_size r = zlen bs ->
  sh_entsize r = 16 -> ua <> [] -> Forall unwind_addr_typed ua ->
  create_call_site_metadata junk arch start_id buf sm ua = Ret (Some (sites, live, archlive)) ->
  zlen live = 12 * nl -> zlen archlive = 20 * na ->
  can_add h init rs strs [] l ->
  sh_offset rs + zlen (emit strs l).1 + added_bytes sites live archlive < 2 ^ 60 ->
  exists t', WriteElf.add_sections junk arch buf sm sec start_id unwind_sec t = Ret (SUCCESS, t') /\
    opens (t_file t') (grown_ehdr h init rs (emit strs l).1 (emit strs l).2) phdr
      (grown init rs (emit strs l).1 (emit strs l).2) /\
    t_fds t' = t_fds t /\ t_bins t' = t_bins t /\ is_Some (t_elf t').
Proof using All.
  intros bs l W G Hf Hk Hty Hz Hent Hne Htyp Hc Hl Ha Can Room.
  pose proof (zlen_nn sites). pose proof (zlen_nn live). pose proof (zlen_nn archlive).
  pose proof (additions_total strs sec sites live archlive) as Htot. fold l in Htot.
  assert (Hoff : 0 <= sh_offset rs).
  { destruct (gr_table _ _ _ _ G) as [_ [_ Hx]]. typed_fields. unfold uint in *. lia. }
  pose proof (zlen_nn (emit strs l).1). unfold added_bytes in Room, Htot.
  pose proof Can as Can0. unfold WriteElf.add_sections.
  destruct (unwind_records_run _ _ _ _ _ _ _ _ _ _ W Hf Hk Hty Hz Hent Hne Htyp) as (t1 & E1 & W1 & K1).
  rewrite (T_step _ _ _ _ _ E1). unfold liftT at 1. rewrite Hc. cbn [mbind outcome_bind].
  rewrite (T_step _ _ t1 (Some (sites, live, archlive)) t1) by done. cbv zeta.
  destruct (working_alloc _ _ _ _ _ _ (encode_section encode_call_site (qsort sort_id sites)) W1)
    as (p1 & t2 & E2 & W2 & K2). rewrite (T_step _ _ _ _ _ E2).
  destruct (working_alloc _ _ _ _ _ _ live W2) as (p3 & t3 & E3 & W3 & K3).
  rewrite (T_step _ _ _ _ _ E3).
  destruct (working_alloc _ _ _ _ _ _ archlive W3) as (p4 & t4 & E4 & W4 & K4).
  rewrite (T_step _ _ _ _ _ E4).
  pose proof (sorted_sites_size sort_id sites) as Z1.
  pose proof (sorted_sites_size sort_addr (qsort sort_id sites)) as Z2. rewrite zlen_qsort in Z2.
  destruct (put_section_run _ _ _ _ _ _ _ (zlen sites) p1 _ W4
    (can_add_addable _ _ _ _ _ _ _ _ Can Z1 ltac:(cbn; lia)
       ltac:(cbn; rewrite Z1; apply (mod4 13)))) as (t5 & E5 & W5 & K5).
  cbn [fst snd] in E5. put_ok E5. apply can_add_next in Can.
  destruct (working_alloc _ _ _ _ _ _
    (encode_section encode_call_site (qsort sort_addr (qsort sort_id sites))) W5)
    as (p2 & t6 & E6 & W6 & K6). rewrite (T_step _ _ _ _ _ E6).
  destruct (put_section_run _ _ _ _ _ _ _ (zlen sites) p2 _ W6
    (can_add_addable _ _ _ _ _ _ _ _ Can Z2 ltac:(cbn; lia)
       ltac:(cbn; rewrite Z2; apply (mod4 13)))) as (t7 & E7 & W7 & K7).
  cbn [fst snd] in E7. put_ok E7. apply can_add_next in Can.
  destruct (put_section_run _ _ _ _ _ _ _ nl p3 _ W7
    (can_add_addable _ _ _ _ _ _ _ _ Can Hl ltac:(cbn; lia)
       ltac:(cbn; rewrite Hl; apply (mod4 3)))) as (t8 & E8 & W8 & K8).
  cbn [fst snd] in E8.
  replace (zlen live / 12) with nl by (rewrite Hl, Z.mul_comm, Z.div_mul; lia).
  put_ok E8. apply can_add_next in Can.
  destruct (put_section_run _ _ _ _ _ _ _ na p4 _ W8
    (can_add_addable _ _ _ _ _ _ _ _ Can Ha ltac:(cbn; lia)
       ltac:(cbn; rewrite Ha; apply (mod4 5)))) as (t9 & E9 & W9 & K9).
  cbn [fst snd] in E9.
  replace (zlen archlive / 20) with na by (rewrite Ha, Z.mul_comm, Z.div_mul; lia).
  put_ok E9. apply can_add_next in Can.
  set (strs' := (emit strs l).1) in *. set (new := (emit strs l).2) in *.
  change (adding h phdr init rs strs' new t9) in W9.
  change (can_add h init rs strs' new []) in Can.
  assert (Hg : zlen (grown init rs strs' new) = zlen (stage init rs strs' new)).
  { unfold grown, stage, zlen. rewrite !length_app. cbn [length]. by rewrite place_from_length. }
  destruct (place_and_write_run alloc io h phdr init rs strs' new t9 G) as (t10 & E10 & O & F1 & F2 & F3).
  { apply (emit_added h init rs l strs []); [exact Can0|].
    repeat (apply List.Forall_cons; [cbn [fst snd]; lia|]). apply List.Forall_nil. }
  { unfold file_end, table_end. rewrite Htot. lia. }
  { lia. }
  { rewrite Hg. pose proof (ca_count _ _ _ _ _ _ Can). pose proof (zlen_nn (@nil addition)). lia. }
  { by rewrite Hg. }
  exists t10. split; [exact E10|]. split; [exact O|].
  assert (K : keeps t t9) by (repeat (etransitivity; [eassumption|]); reflexivity).
  destruct K as (_ & K & K'). split; [congruence|]. split; [congruence|done].
Qed.
End env.
