(* ===== verification/ElfMain.v ===== *)
(** * The metadata tool: the whole run

    Opening a binary, reading its stack maps, sorting its unwinding ranges,
    adding the sections and closing it: what [main] leaves in the file. *)

From S2P Require Import Prelude Machine CallSite Lookup Init StackMap WriteMeta LibElf ElfUpdate ElfUtil WriteElf ElfSpec ElfDesc ElfRoundtrip ElfTool ElfAdd ElfUnwind ElfPlace ElfMetadata.
From stdpp Require Import strings.

#[local] Open Scope Z_scope.

Import Lib Tool.

(** ** Names of sections *)

Lemma section_name_short sec suffix : zlen sec <= 400 -> zlen suffix <= 100 ->
  section_name sec suffix = sec ++ string_bytes "." ++ suffix.
Proof.
  intros H1 H2. unfold section_name. apply take_ge. unfold BUF_SIZE, zlen in *.
  rewrite !length_app. cbn [string_bytes length]. lia.
Qed.

Lemma section_name_good sec suffix : 0 ∉ sec -> zlen sec <= 400 -> 0 ∉ suffix ->
  zlen suffix <= 100 -> good_name (section_name sec suffix).
Proof.
  intros H1 H2 H3 H4. rewrite section_name_short by done. split.
  - rewrite !not_elem_of_app. split; [done|]. split; [|done].
    cbn. rewrite not_elem_of_cons. split; [done|apply not_elem_of_nil].
  - rewrite !zlen_cat. change (zlen (string_bytes ".")) with 1. unfold BUF_SIZE. lia.
Qed.

Lemma section_name_inj sec a b : zlen sec <= 400 -> zlen a <= 100 -> zlen b <= 100 ->
  section_name sec a = section_name sec b -> a = b.
Proof.
  intros. rewrite !section_name_short in * by done. by simplify_list_eq.
Qed.

(** ** Binaries the tool can process *)

(** Contents replaced by others of the same length. *)
Lemma data_regions_insert l : forall i k r bs bs', l !! k = Some (r, bs) -> zlen bs' = zlen bs ->
  Forall2 same_extent (data_regions i l) (data_regions i (<[k := (r, bs')]> l)).
Proof.
  induction l as [|[r0 bs0] l IH]; intros i k r bs bs' Hk Hl; [done|]. destruct k as [|k].
  - injection Hk as -> ->. cbn [list_insert insert data_regions].
    apply Forall2_app; [|apply same_extent_refl]. unfold data_region.
    assert (bool_decide (bs' = []) = bool_decide (bs = [])) as ->.
    { apply bool_decide_ext. unfold zlen in Hl. destruct bs, bs'; simpl in Hl; split; done || lia. }
    destruct (_ && _ && _); [|done]. constructor; [by split|done].
  - cbn [list_insert insert data_regions]. apply Forall2_app; [apply same_extent_refl|].
    by eapply IH.
Qed.

Lemma growable_insert h phdr init rs k r bs bs' :
  growable h phdr init rs -> init !! k = Some (r, bs) -> k <> 0%nat -> zlen bs' = zlen bs ->
  sh_type r = SHT_PROGBITS -> growable h phdr (<[k := (r, bs')]> init) rs.
Proof.
  intros [G1 G2 G3 G4 G5 G6 G7 G8 G9 G10 G11] Hk Hk0 Hl Hty.
  assert (Hf : Forall2 same_extent (front h phdr init) (front h phdr (<[k := (r, bs')]> init))).
  { constructor; [done|]. apply Forall2_app; [apply same_extent_refl|].
    by eapply data_regions_insert. }
  constructor; try done.
  - destruct G6 as (r0 & F1 & F2). exists r0. by rewrite list_lookup_insert_ne.
  - apply Forall_insert; [done|]. eapply Forall_lookup_1 in G7; [|exact Hk]. exact G7.
  - intros i r' cs Hi Hd. destruct (decide (k = i)) as [<-|Hne].
    + rewrite list_lookup_insert_eq in Hi by by eapply lookup_lt_Some. injection Hi as <- <-.
      specialize (G8 _ _ _ Hk Hd). rewrite Hty in *. cbn in *. by rewrite Hl.
    + rewrite list_lookup_insert_ne in Hi by done. by eapply G8.
  - by eapply same_extent_disjoint.
  - by eapply (same_extent_Forall (fun z => z <= sh_offset rs)).
Qed.

(** A file of this content whose last section is the table of section names,
    and whose parts do not overlap. *)
Record binary (file : list Z) (h : Elf64_Ehdr) (phdr : list Z) (init : contents)
    (rs : Elf64_Shdr) (strs : list Z) : Prop := {
  bn_image : elf_image file h phdr (init ++ [(rs, strs)]).*1;
  bn_placed i r bs : (init ++ [(rs, strs)]) !! i = Some (r, bs) -> placed file i r bs;
  bn_named : named_by h (init ++ [(rs, strs)]) (length init) strs;
  bn_fits : Forall scn_fits init /\ eh_phoff h < 2 ^ 60;
  bn_first : exists r0, init !! 0%nat = Some (r0, []) /\ sh_type r0 = SHT_NULL /\
    sh_entsize r0 = 0 /\ sh_size r0 = 0;
  bn_front : ForallOrdPairs disjoint_regions (front h phdr init);
  bn_last : Forall (fun a => region_end a <= sh_offset rs) (front h phdr init);
  bn_machine : eh_machine h = EM_X86_64 \/ eh_machine h = EM_AARCH64;
}.

Section binary.
Context {file : list Z} {h : Elf64_Ehdr} {phdr : list Z} {init : contents}.
Context {rs : Elf64_Shdr} {strs : list Z} (B : binary file h phdr init rs strs).

Lemma binary_last : (init ++ [(rs, strs)]) !! length init = Some (rs, strs).
Proof using. by apply list_lookup_middle. Qed.

Lemma binary_table : sh_type rs = SHT_STRTAB /\ sh_size rs = zlen strs.
Proof using B.
  destruct (nb_section _ _ _ _ (bn_named _ _ _ _ _ _ B)) as (rs' & Hn & Ht).
  rewrite binary_last in Hn. injection Hn as <-. split; [done|].
  destruct (bn_placed _ _ _ _ _ _ B _ _ _ binary_last) as [_ _ _ Hb].
  destruct (nb_index _ _ _ _ (bn_named _ _ _ _ _ _ B)) as (_ & Hn0 & _).
  symmetry. apply Hb; [|by rewrite Ht]. unfold has_data. rewrite Ht. by destruct (length init).
Qed.

Lemma binary_init i r bs : init !! i = Some (r, bs) -> (init ++ [(rs, strs)]) !! i = Some (r, bs).
Proof using. intros Hi. rewrite lookup_app_l; [done|]. by eapply lookup_lt_Some. Qed.

Lemma binary_growable : growable h phdr init rs.
Proof using B.
  destruct (bn_image _ _ _ _ _ _ B) as [_ I1 I2 I3 _ (I4 & I5 & I6 & _) _ (I7 & I8 & I9)].
  destruct (bn_fits _ _ _ _ _ _ B) as [F1 F2]. destruct binary_table as [T1 _].
  constructor; try done.
  - split; [done|]. split; [done|]. split; [done|].
    destruct (eh_phnum h =? 0); [done|]. by destruct I9 as (? & ? & _).
  - apply (bn_first _ _ _ _ _ _ B).
  - intros i r bs Hi Hd. destruct (bn_placed _ _ _ _ _ _ B _ _ _ (binary_init _ _ _ Hi))
      as [_ _ P1 P2]. destruct (Z.eqb_spec (sh_type r) SHT_NOBITS) as [E|Hne].
    + by destruct (P1 Hd E).
    + by destruct (P2 Hd Hne).
  - split; [done|]. apply (bn_placed _ _ _ _ _ _ B _ _ _ binary_last).
  - apply (bn_front _ _ _ _ _ _ B).
  - apply (bn_last _ _ _ _ _ _ B).
Qed.

Lemma data_region_front i r bs a : init !! i = Some (r, bs) -> a ∈ data_region i r bs ->
  a ∈ front h phdr init.
Proof using.
  intros Hi Ha. right. apply elem_of_app. right. clear B.
  revert i Hi Ha. change (forall i, init !! i = Some (r, bs) -> a ∈ data_region (0 + i) r bs ->
    a ∈ data_regions 0 init). generalize 0%nat as b.
  induction init as [|[r0 bs0] l IH]; intros b i Hi Ha; [done|]. cbn [data_regions].
  apply elem_of_app. destruct i as [|i].
  - injection Hi as -> ->. rewrite Nat.add_0_r in Ha. by left.
  - right. apply (IH (S b) i Hi). by replace (S b + i)%nat with (b + S i)%nat by lia.
Qed.

Lemma data_regions_pairs l : forall b i j r r' bs bs' x y,
  ForallOrdPairs disjoint_regions (data_regions b l) -> (i < j)%nat ->
  l !! i = Some (r, bs) -> l !! j = Some (r', bs') ->
  x ∈ data_region (b + i) r bs -> y ∈ data_region (b + j) r' bs' -> disjoint_regions x y.
Proof using.
  induction l as [|[r0 bs0] l IH]; intros b i j r r' bs bs' x y Hp Hij Hi Hj Hx Hy; [done|].
  destruct j as [|j]; [lia|]. cbn [data_regions] in Hp. change (l !! j = Some (r', bs')) in Hj.
  replace (b + S j)%nat with (S b + j)%nat in Hy by lia. destruct i as [|i].
  - injection Hi as -> ->. rewrite Nat.add_0_r in Hx. apply (OrdPairs_app _ _ _ _ _ Hp Hx).
    clear -Hj Hy. revert j Hj Hy. generalize (S b) as c.
    induction l as [|[r0 bs0] l IH]; intros c j Hj Hy; [done|]. cbn [data_regions].
    apply elem_of_app. destruct j as [|j].
    + injection Hj as -> ->. rewrite Nat.add_0_r in Hy. by left.
    + right. apply (IH (S c) j Hj). by replace (S c + j)%nat with (c + S j)%nat by lia.
  - change (l !! i = Some (r, bs)) in Hi. replace (b + S i)%nat with (S b + i)%nat in Hx by lia.
    apply OrdPairs_tail in Hp. exact (IH (S b) i j r r' bs bs' x y Hp ltac:(lia) Hi Hj Hx Hy).
Qed.

Lemma data_region_in i r bs : has_data i r = true -> sh_type r <> SHT_NOBITS -> bs <> [] ->
  (sh_offset r, bs) ∈ data_region i r bs.
Proof using.
  intros Hd Hn Hb. unfold data_region. rewrite Hd, bool_decide_false by done.
  destruct (Z.eqb_spec (sh_type r) SHT_NOBITS); [done|]. by left.
Qed.

(** A section with no content at all, or with bytes in the file. *)
Lemma binary_content i r bs : (init ++ [(rs, strs)]) !! i = Some (r, bs) ->
  sh_type r = SHT_NULL \/ sh_type r = SHT_NOBITS \/ sh_size r = 0 \/
  has_data i r = true /\ sh_type r <> SHT_NOBITS /\ bs <> [] /\ sh_size r = zlen bs.
Proof using B.
  intros Hi. destruct (bn_placed _ _ _ _ _ _ B _ _ _ Hi) as [_ _ _ P].
  destruct (Z.eqb_spec (sh_type r) SHT_NOBITS) as [|Hn]; [auto|].
  destruct (has_data i r) eqn:Hd.
  - destruct (P eq_refl Hn) as (_ & Hz & _). destruct (decide (bs = [])) as [->|Hb].
    + rewrite <- Hz. auto.
    + do 3 right. by rewrite Hz.
  - left. unfold has_data in Hd. destruct (Nat.eqb_spec i 0) as [->|].
    + destruct (bn_first _ _ _ _ _ _ B) as (r0 & F1 & F2 & _).
      rewrite (binary_init _ _ _ F1) in Hi. by injection Hi as <- <-.
    + by destruct (Z.eqb_spec (sh_type r) SHT_NULL).
Qed.

Lemma binary_apart i j r r' bs bs' : (i < j)%nat ->
  (init ++ [(rs, strs)]) !! i = Some (r, bs) -> (init ++ [(rs, strs)]) !! j = Some (r', bs') ->
  apart_shdr r r'.
Proof using B.
  intros Hij Hi Hj. unfold apart_shdr.
  destruct (binary_content _ _ _ Hi) as [?|[?|[?|(D1 & D2 & D3 & D4)]]]; [auto 9..|].
  destruct (binary_content _ _ _ Hj) as [?|[?|[?|(D5 & D6 & D7 & D8)]]]; [auto 9..|].
  do 6 right. rewrite D4, D8.
  pose proof (lookup_lt_Some _ _ _ Hj) as Hlt. rewrite length_app in Hlt. cbn in Hlt.
  rewrite lookup_app_l in Hi by lia.
  destruct (decide (j < length init)%nat) as [Hl|Hl].
  - rewrite lookup_app_l in Hj by lia.
    pose proof (bn_front _ _ _ _ _ _ B) as Hp. unfold front in Hp. rewrite app_comm_cons in Hp.
    apply OrdPairs_tail in Hp.
    exact (data_regions_pairs _ 0 i j _ _ _ _ _ _ Hp Hij Hi Hj (data_region_in _ _ _ D1 D2 D3)
      (data_region_in _ _ _ D5 D6 D7)).
  - left. replace j with (length init) in Hj by lia. rewrite binary_last in Hj. injection Hj as <- <-.
    pose proof (bn_last _ _ _ _ _ _ B) as Hf. rewrite Forall_forall in Hf.
    exact (Hf _ (data_region_front _ _ _ _ Hi (data_region_in _ _ _ D1 D2 D3))).
Qed.

Lemma binary_desc w : desc (0, 0, true, w)
  (opened_elf file h phdr (init ++ [(rs, strs)]).*1 w) h phdr (init ++ [(rs, strs)]).
Proof using B.
  apply opened_desc; [apply (bn_image _ _ _ _ _ _ B)|apply (bn_placed _ _ _ _ _ _ B)|].
  intros i j r r' bs bs' Hij Hi Hj. destruct (decide (i < j)%nat) as [Hl|Hl].
  - exact (binary_apart _ _ _ _ _ _ Hl Hi Hj).
  - apply apart_shdr_sym, (binary_apart j i r' r bs' bs); [lia|done|done].
Qed.

(** The stages of the tool begin with the binary itself. *)
Lemma binary_stage : stage init rs strs [] = init ++ [(rs, strs)].
Proof using B. unfold stage. destruct binary_table as [_ Hz]. by rewrite (set_size_same rs). Qed.

Lemma binary_ehdr secs : zlen secs = zlen init + 1 -> stage_ehdr h secs = h.
Proof using B.
  intros Hl. destruct (bn_image _ _ _ _ _ _ B) as [_ _ _ _ _ (_ & _ & Hn & _) _ _].
  unfold zlen in Hn. rewrite length_fmap, length_app in Hn. cbn in Hn.
  unfold stage_ehdr, count_section, set_shtable. destruct h. cbn in *. f_equal.
  rewrite Hl, Hn. unfold zlen. lia.
Qed.
End binary.

Section env.
Context `{Env} `{Io} `{BinEnv} `{QsortLaws}.
Hypothesis alloc : forall n, malloc_ok n = true.
Hypothesis io : ftruncate_ok = true /\ mmap_ok = true.

(** ** Opening the binary *)

Lemma opened_pristine file h phdr shdrs w : pristine (opened_elf file h phdr shdrs w).
Proof using.
  intros i s sd Hs Hd. cbn [opened_elf e_scns] in Hs. rewrite list_lookup_fmap in Hs.
  destruct (shdrs !! i) as [r|]; [|done]. injection Hs as <-. injection Hd as <-. done.
Qed.

Lemma check_elf_ehdr_run e0 e h phdr secs m :
  e_kind e0 = ELF_K_ELF -> e_class e0 = ELFCLASS64 ->
  cooked e0 = Ret (true, e) -> desc m e h phdr secs ->
  znth (eh_ident h) EI_DATA = Some ELFDATA2LSB ->
  eh_machine h = EM_X86_64 \/ eh_machine h = EM_AARCH64 ->
  check_elf_ehdr e0 = Ret (true, e).
Proof using.
  intros Hk Hcl Hc D Hi Hm. unfold check_elf_ehdr.
  rewrite (E_step _ _ e0 ELF_K_ELF e0) by (unfold gets, elf_kind; by rewrite Hk).
  rewrite bool_decide_true by done. cbn [negb].
  rewrite (E_step _ _ e0 ELFCLASS64 e0).
  2:{ unfold gets, gelf_getclass. rewrite Hk, Hcl. by rewrite bool_decide_true. }
  change (negb (ELFCLASS64 =? ELFCLASS64)) with false. cbn match.
  assert (Eid : elf_getident e0 = Ret (Some (eh_ident h), e)).
  { unfold elf_getident, with_headers. rewrite Hk, bool_decide_true by done. cbn [negb].
    rewrite Hc. cbn [mbind outcome_bind]. by rewrite (de_ehdr _ _ _ _ _ D). }
  rewrite (E_step _ _ _ _ _ Eid), Hi. rewrite (E_step _ _ e ELFDATA2LSB e) by done.
  change (negb (ELFDATA2LSB =? ELFDATA2LSB)) with false. cbn match.
  rewrite (E_step _ _ _ _ _ (getehdr_desc D)).
  destruct Hm as [->| ->]; done.
Qed.

Lemma desc_opened_flags file h phdr secs :
  desc (0, 0, true, true) (opened_elf file h phdr secs.*1 true) h phdr secs ->
  exists e, elf_flagelf ELF_F_LAYOUT (opened_elf file h phdr secs.*1 true) = Ret (4, e) /\
    exists e' f, elf_flagelf ELF_F_LAYOUT_OVERLAP e = Ret (f, e') /\ f <> 0 /\ pristine e' /\
    desc (f, 0, true, true) e' h phdr secs /\ mode_ok (f, 0, true, true).
Proof using.
  intros D. eexists. split; [done|]. eexists _, _. split; [done|]. split; [done|].
  split; [exact (opened_pristine file h phdr secs.*1 true)|].
  split; [exact (desc_flags _ _ _ _ _ 268435460 0 0 D)|]. by exists 268435460, 0, true.
Qed.

Lemma init_elf_bin_run file h phdr secs n strs bin_fn t :
  elf_image file h phdr secs.*1 ->
  desc (0, 0, true, true) (opened_elf file h phdr secs.*1 true) h phdr secs ->
  named_by h secs n strs -> eh_machine h = EM_X86_64 \/ eh_machine h = EM_AARCH64 ->
  t_file t = file -> heap_ok t -> open_rdwr bin_fn <> -1 -> read_ok = true ->
  exists t', init_elf_bin (Some bin_fn) t =
      Ret ((SUCCESS, Some (Bin (t_next t) (eh_machine h) (open_rdwr bin_fn))), t') /\
    untouched h phdr secs n strs t' /\ t_file t' = file /\
    t_fds t' = open_rdwr bin_fn :: t_fds t /\ t_bins t' = t_next t :: t_bins t.
Proof using alloc.
  intros Hi D N Hm Hf [P1 P2 P3 P4] Hfd Hr. unfold init_elf_bin.
  assert (Eb : new_bin t = Ret (t_next t, MkTool (t_file t) (t_fds t) (t_elf t)
    (t_next t :: t_bins t) (t_next t + 16 + sizeof_bin) (t_old_shstrtab t) (t_freed t))).
  { unfold new_bin. by rewrite alloc. }
  rewrite (T_step _ _ _ _ _ Eb). set (t1 := MkTool _ _ _ _ _ _ _).
  assert (Eo : open_file bin_fn t1 = Ret (open_rdwr bin_fn, MkTool (t_file t)
    (open_rdwr bin_fn :: t_fds t) (t_elf t) (t_next t :: t_bins t) (t_next t + 16 + sizeof_bin)
    (t_old_shstrtab t) (t_freed t))).
  { unfold open_file. by destruct (Z.eqb_spec (open_rdwr bin_fn) (-1)). }
  rewrite (T_step _ _ _ _ _ Eo). set (t2 := MkTool _ _ _ _ _ _ _).
  destruct (Z.eqb_spec (open_rdwr bin_fn) (-1)) as [|_]; [done|].
  assert (Ebg : begin_elf t2 = Ret (true, set_elf (Some (unread_elf file true)) t2)).
  { unfold begin_elf. rewrite Hr. cbn [t_file t2]. rewrite Hf.
    by rewrite (begin_image alloc _ _ _ _ _ Hi). }
  rewrite (T_step _ _ _ _ _ Ebg). cbn [negb]. set (t3 := set_elf _ t2).
  assert (Ec : cooked (unread_elf file true) = Ret (true, opened_elf file h phdr secs.*1 true)).
  { unfold cooked. cbn [e_ehdr unread_elf]. by apply cook_image. }
  assert (Eid : znth (eh_ident h) EI_DATA = Some ELFDATA2LSB).
  { rewrite <- (take_drop 7 (eh_ident h)), (im_ident _ _ _ _ Hi). done. }
  pose proof (check_elf_ehdr_run (unread_elf file true) _ _ _ _ _ eq_refl eq_refl Ec D Eid Hm) as Ek.
  rewrite (T_step _ _ _ _ _ (on_elf_run _ t3 _ _ _ eq_refl Ek)). cbn [negb].
  set (e1 := opened_elf _ _ _ _ _) in *. set (t4 := set_elf (Some e1) t3).
  rewrite (T_step _ _ _ _ _ (on_elf_ret _ t4 _ _ _ eq_refl (getehdr_desc D) eq_refl)).
  rewrite (T_step _ _ t4 (eh_machine h) t4) by done.
  destruct (desc_opened_flags _ _ _ _ D) as (e2 & E2 & e3 & f & E3 & Hf0 & Hp & D3 & Hok).
  rewrite (T_step _ _ _ _ _ (on_elf_run _ t4 _ _ _ eq_refl E2)).
  set (t5 := set_elf (Some e2) t4). change (4 =? 0) with false. cbn match.
  rewrite (T_step _ _ _ _ _ (on_elf_run _ t5 _ _ _ eq_refl E3)).
  destruct (Z.eqb_spec f 0); [done|]. cbn [orb]. eexists. split; [done|].
  split; [|done]. split; [done|]. split.
  - constructor; cbn; unfold sizeof_bin; [lia|lia| |done].
    eapply Forall_impl; [exact P3|]. cbn. lia.
  - by eexists _, e3.
Qed.

(** ** Reading the stack maps *)

Lemma untouched_step h phdr secs n strs t m e e' :
  untouched h phdr secs n strs t -> t_elf t = Some e -> mode_ok m -> pristine e ->
  desc m e' h phdr secs -> undisturbed e e' -> untouched h phdr secs n strs (set_elf (Some e') t).
Proof using.
  intros (N & Hh & _) Ht Hm Hp D Hu. split; [done|]. split; [by apply heap_ok_elf|].
  eexists m, e'. split; [done|]. split; [done|]. split; [done|]. by eapply undisturbed_pristine.
Qed.

Lemma init_stackmap_run h phdr secs n strs t k r ms :
  let base := image_addr + sh_offset r in
  let bs := encode_maps base 0 ms in
  untouched h phdr secs n strs t -> find_named strs WriteElf.STACKMAP_SECTION secs = Some k ->
  secs !! k = Some (r, bs) -> sh_type r = SHT_PROGBITS -> sh_size r = zlen bs -> bs <> [] ->
  Forall map_typed ms ->
  exists sms t', WriteElf.init_stackmap t = Ret ((SUCCESS, sms, bs), t') /\
    Forall2 (describes_map bs) ms sms /\ untouched h phdr secs n strs t' /\ keeps t t'.
Proof using.
  intros base bs U Hf Hk Hty Hz Hne Ht. destruct (U) as (N & Hh & m & e & Hte & Hm & D & Hp).
  destruct (find_named_lookup _ _ _ _ Hf) as (r' & bs0 & Hk0 & _).
  assert (Hd : has_data k r = true).
  { unfold has_data. rewrite Hty. destruct k; [done|done]. }
  assert (Hnb : sh_type r <> SHT_NOBITS) by by rewrite Hty.
  unfold WriteElf.init_stackmap.
  destruct (get_section_by_name_run N e WriteElf.STACKMAP_SECTION D) as (e1 & E1 & D1 & U1).
  rewrite Hf in E1. rewrite (T_step _ _ _ _ _ (on_elf_run _ _ _ _ _ Hte E1)).
  pose proof (untouched_step _ _ _ _ _ _ _ _ _ U Hte Hm Hp D1 U1) as W1.
  set (t1 := set_elf (Some e1) t) in *. assert (Ht1 : t_elf t1 = Some e1) by done.
  rewrite (T_step _ _ _ _ _ (on_elf_ret _ _ _ _ _ Ht1 (getshdr_desc D1 _ _ _ Hk) eq_refl)).
  destruct (get_num_data_blocks_run _ _ _ _ _ _ _ _ D1 Hk Hd) as (e2 & E2 & D2 & U2 & Hl).
  rewrite (T_step _ _ _ _ _ (on_elf_run _ _ _ _ _ Ht1 E2)). cbn [negb Z.eqb Pos.eqb].
  pose proof (undisturbed_pristine _ _ U1 Hp) as Hp1.
  pose proof (untouched_step _ _ _ _ _ _ _ _ _ W1 Ht1 Hm Hp1 D2 U2) as W2.
  set (t2 := set_elf (Some e2) t1) in *. assert (Ht2 : t_elf t2 = Some e2) by done.
  destruct Hl as (E3 & s & sd & Hs & Ed & Hb). destruct (Hb Hnb) as (_ & Hds & Hbuf).
  destruct (Hbuf Hne) as (b & Eb & Hbb).
  rewrite (T_step _ _ _ _ _ (on_elf_ret _ _ _ _ _ Ht2 E3 eq_refl)).
  rewrite (T_step _ _ _ _ _ (on_elf_ret _ _ _ _ _ Ht2 (data_of_run _ _ _ _ Hs Ed) eq_refl)).
  rewrite Eb, Hds, (T_step _ _ _ _ _ (on_elf_ret _ _ _ _ _ Ht2 Hbb eq_refl)).
  assert (Ea : buffer_addr b = base).
  { destruct (undisturbed_pristine _ _ U2 Hp1 _ _ _ Hs Ed) as [Ho Hheap].
    destruct (desc_scn D2 _ _ _ Hk) as (s' & Hs' & Hr). rewrite Hs in Hs'. injection Hs' as <-.
    destruct (sr_data _ _ _ _ _ Hr Hd) as (sd' & Ed' & _ & _ & _ & _ & Hx).
    rewrite Ed in Ed'. injection Ed' as <-. destruct (sh_type r =? SHT_NOBITS) eqn:Et;
      [by apply Z.eqb_eq in Et|]. destruct Hx as (_ & _ & _ & Hheld).
    destruct b as [o|p l]; [|by destruct (Hheap p l)]. unfold base. cbn [buffer_addr].
    rewrite (sr_shdr _ _ _ _ _ Hr) in Ho. rewrite <- Ho.
    destruct Hheld as [? ? E0|E0|p l E0]; congruence. }
  rewrite Ea, Hz. pose proof (maps_length base ms 0) as Hlen. fold bs in Hlen.
  unfold liftT at 1. rewrite (count_all base bs ms _ [] 0 0) by (done || (unfold zlen in *; lia)).
  cbn [mbind outcome_bind]. rewrite (T_step _ _ t2 (0 + zlen ms) t2) by done.
  replace (Z.to_nat (0 + zlen ms)) with (length ms) by (unfold zlen; lia).
  destruct (read_all base bs ms [] 0) as (sms & E & Hd2); [done|done|done|].
  unfold liftT. rewrite E. cbn [mbind outcome_bind]. exists sms, t2. split; [done|].
  split; [done|]. split; [exact W2|done].
Qed.
End env.
