(* ===== verification/ElfOutput.v ===== *)
(** * The metadata tool: what it leaves in the file

    From a binary with the stack maps and the unwinding ranges the compiler
    wrote, [main] succeeds, and the file it leaves opens to the same sections
    and the metadata of every call site. *)

From S2P Require Import Prelude Machine CallSite Lookup Init StackMap WriteMeta LibElf ElfUpdate ElfUtil WriteElf ElfSpec ElfDesc ElfRoundtrip ElfTool ElfAdd ElfUnwind ElfPlace ElfMetadata ElfMain.
From stdpp Require Import strings.

#[local] Open Scope Z_scope.

Import Lib Tool.

(** ** Call sites of entries *)

(** Every call site lies at or above a function with unwinding records. *)
Definition covered (ua : list unwind_addr) (me : stack_map * entry) : Prop :=
  exists f u, entry_function me = Some f /\ u ∈ ua /\ ua_addr u <= entry_addr me f.

Lemma covered_enclosed ua ua' me :
  ua' ≡ₚ renumber 0 ua -> covered ua me -> enclosed ua' me.
Proof.
  intros Hp (f & u & Hf & Hu & Ha). exists f.
  assert (Hin : ua_addr u ∈ ua_addr <$> ua').
  { rewrite Hp, renumber_addrs. apply list_elem_of_fmap. by exists u. }
  apply list_elem_of_fmap in Hin as (u' & E & Hu'). unfold enclosing.
  destruct (last (filter (fun u => ua_addr u <= entry_addr me f) ua')) as [v|] eqn:El;
    [by exists v|]. exfalso. apply last_None in El.
  assert (Hx : u' ∈ filter (fun u => ua_addr u <= entry_addr me f) ua').
  { apply list_elem_of_filter. split; [lia|done]. }
  rewrite El in Hx. by apply elem_of_nil in Hx.
Qed.

Lemma created junk arch start_id buf sms addrs ms :
  strictly_sorted_by ua_addr addrs -> zlen addrs < 2 ^ 62 ->
  Forall2 (describes_map buf) ms sms ->
  let es := entries_of ms in
  Forall (enclosed addrs) es ->
  exists sites, create_call_site_metadata junk arch start_id buf sms addrs =
      Ret (Some (sites, encode_section encode_live_value (all_locations es),
                 encode_section encode_arch_live (all_arch_live es))) /\
    Forall (padded junk) sites /\
    cs_id <$> sites = assign_ids start_id ((fun me => en_id me.2) <$> es) /\
    Forall2 (site_for arch addrs (all_locations es) (all_arch_live es)) es sites.
Proof.
  intros Hs Hl Hd es He. set (b0 := Building start_id [] 0 [] 0 []).
  destruct (add_sites_spec junk arch buf addrs Hs Hl es [] (records_of sms) b0)
    as (r & E & Hr); [done|by apply described_records| |].
  { eapply Forall_impl; [exact He|]. intros me (f & u & Hf & _). by exists f. }
  unfold create_call_site_metadata. fold b0. rewrite E. cbn [mbind outcome_bind].
  destruct r as [b|].
  - destruct Hr as (new & Hn & _ & (B1 & B2 & B3 & B4 & _) & Hids & Hsites).
    exists (bd_sites b). rewrite B2, B4. split; [done|]. split; [|by rewrite Hn].
    eapply add_sites_padding; [exact E|constructor].
  - exfalso. apply Exists_exists in Hr as (me & Hin & Hne). apply Hne.
    rewrite Forall_forall in He. by apply He.
Qed.

(** *** Widths *)

Lemma wrap_uint w x : 0 <= w -> uint w (wrap w x).
Proof. intros. unfold uint, wrap. apply Z.mod_pos_bound. lia. Qed.

Lemma assign_ids_typed ids : forall start_id,
  uint 64 start_id -> Forall (uint 64) ids -> Forall (uint 64) (assign_ids start_id ids).
Proof.
  induction ids as [|id ids IH]; intros start_id Hs Hi; [apply List.Forall_nil|].
  apply Forall_cons in Hi as [Hi Hids]. cbn [assign_ids].
  destruct (special_id id); constructor; auto. apply IH; [by apply wrap_uint|done].
Qed.

Lemma entries_typed ms : Forall map_typed ms -> Forall (fun me => entry_typed me.2) (entries_of ms).
Proof.
  intros Hm. apply Forall_forall. intros me Hin. apply list_elem_of_bind in Hin as (m & Hin & Hm').
  apply list_elem_of_fmap in Hin as (e & -> & He). rewrite Forall_forall in Hm.
  pose proof (mt_entries _ (Hm _ Hm')) as Ht. rewrite Forall_forall in Ht. by apply Ht.
Qed.

Lemma enclosing_elem addrs a u : enclosing addrs a = Some u -> u ∈ addrs.
Proof.
  unfold enclosing. intros [l E]%last_Some.
  assert (Hu : u ∈ filter (fun u => ua_addr u <= a) addrs).
  { rewrite E. apply elem_of_app. right. by apply list_elem_of_singleton. }
  by apply list_elem_of_filter in Hu as [_ Hu].
Qed.

Lemma sites_typed junk arch start_id addrs ms sites :
  let es := entries_of ms in
  (forall i, uint 16 (junk i)) -> uint 64 start_id -> Forall map_typed ms ->
  Forall unwind_addr_typed addrs -> zlen (all_locations es) < 2 ^ 64 ->
  zlen (all_arch_live es) < 2 ^ 64 -> Forall (padded junk) sites ->
  cs_id <$> sites = assign_ids start_id ((fun me => en_id me.2) <$> es) ->
  Forall2 (site_for arch addrs (all_locations es) (all_arch_live es)) es sites ->
  Forall call_site_typed sites.
Proof.
  intros es Hj Hs Hm Ha Z1 Z2 Hp Hids Hsites. pose proof (entries_typed _ Hm) as He.
  assert (Hi : Forall (uint 64) (cs_id <$> sites)).
  { rewrite Hids. apply assign_ids_typed; [done|]. apply Forall_fmap.
    eapply Forall_impl; [exact He|]. intros me T. apply (et_header _ T). }
  apply (Forall_fmap cs_id) in Hi. apply Forall_lookup. intros i c Hc.
  destruct (Forall2_lookup_r _ _ _ _ _ Hsites Hc) as (me & Hme & [(f & u & _ & F2 & F3 & F4 & F5 & F6)
    (L1 & L2 & L3 & _) (A1 & A2 & A3 & _)]).
  pose proof (Forall_lookup_1 _ _ _ _ Hi Hc) as Ti. cbn in Ti.
  destruct (Forall_lookup_1 _ _ _ _ Hp Hc) as [j Ej].
  destruct (et_counts _ (Forall_lookup_1 _ _ _ _ He Hme)) as (C1 & _ & C2).
  pose proof (enclosing_elem _ _ _ F3) as Hu. rewrite Forall_forall in Ha.
  destruct (Ha _ Hu) as (_ & _ & Hoff). pose proof (zlen_nn (en_locations me.2)).
  pose proof (zlen_nn (en_arch_live me.2)). unfold call_site_typed, uint in *.
  rewrite F2, F4, F5, F6, Ej. split; [done|]. split; [apply (wrap_uint 64); lia|].
  split; [apply (wrap_uint 32); lia|]. split; [apply (wrap_uint 16); lia|].
  pose proof (Hj j). lia.
Qed.

(** The content of a section with a name. *)
Lemma binary_progbits {file h phdr init rs strs}
    (B : binary file h phdr init rs strs) name k r bs :
  find_named strs name (init ++ [(rs, strs)]) = Some k -> init !! k = Some (r, bs) ->
  sh_type r = SHT_PROGBITS -> k <> 0%nat /\ sh_size r = zlen bs /\ zlen bs < 2 ^ 62.
Proof.
  intros Hf Hk Hty. destruct (find_named_lookup _ _ _ _ Hf) as (_ & _ & Hk0 & _).
  destruct (bn_placed _ _ _ _ _ _ B _ _ _ (binary_init (strs := strs) (rs := rs) _ _ _ Hk))
    as [_ _ _ P].
  destruct P as (P1 & P2 & _); [unfold has_data; rewrite Hty; by destruct k|by rewrite Hty|].
  pose proof (im_size _ _ _ _ (bn_image _ _ _ _ _ _ B)). apply at_offset_range in P1. lia.
Qed.

(** ** Input and output *)

Definition metadata_suffixes : list (list Z) := [SECTION_ID; SECTION_ADDR; SECTION_LIVE; SECTION_ARCH].

(** What the tool needs of a binary: the compiler's stack maps and unwinding
    ranges, none of the tool's sections yet, and room for them. *)
Record metadata_input `{BinEnv} (file : list Z) (h : Elf64_Ehdr) (phdr : list Z) (init : contents)
    (rs : Elf64_Shdr) (strs sec : list Z) (ms : list stack_map) (ua : list unwind_addr) : Prop := {
  mi_binary : binary file h phdr init rs strs;
  mi_maps : Forall map_typed ms /\ ms <> [] /\ exists k r,
    find_named strs WriteElf.STACKMAP_SECTION (init ++ [(rs, strs)]) = Some k /\
    init !! k = Some (r, encode_maps (image_addr + sh_offset r) 0 ms) /\ sh_type r = SHT_PROGBITS;
  mi_unwind : Forall unwind_addr_typed ua /\ ua <> [] /\ NoDup (ua_addr <$> ua) /\ exists k r,
    find_named strs (section_name sec SECTION_UNWIND_ADDR) (init ++ [(rs, strs)]) = Some k /\
    init !! k = Some (r, encode_section encode_unwind_addr ua) /\ sh_type r = SHT_PROGBITS /\
    sh_entsize r = 16;
  mi_prefix : (0 ∉ sec) /\ zlen sec <= 400;
  mi_fresh : Forall (fun s => find_named strs (section_name sec s) (init ++ [(rs, strs)]) = None)
    metadata_suffixes;
  mi_covered : Forall (covered ua) (entries_of ms);
  mi_room : zlen init + 5 < SHN_LORESERVE /\ zlen strs + 4 * (BUF_SIZE + 1) < 2 ^ 32 /\
    sh_offset rs + zlen strs + 4 * (BUF_SIZE + 1) + 104 * zlen (entries_of ms) +
      12 * zlen (all_locations (entries_of ms)) + 20 * zlen (all_arch_live (entries_of ms)) < 2 ^ 60;
}.

(** What it leaves: every section that was there, apart from the unwinding
    ranges, sorted now; the call sites by identifier and by address; the live
    values and the architecture-specific values. *)
Definition metadata_output `{Env} `{Qsort} (h : Elf64_Ehdr) (phdr : list Z)
    (init : contents) (rs : Elf64_Shdr) (strs sec : list Z) (start_id : Z) (ms : list stack_map)
    (ua : list unwind_addr) (file' : list Z) : Prop :=
  exists h' secs strs' ua' sites,
    let es := entries_of ms in
    let name s := section_name sec s in
    eh_ident h' = eh_ident h /\ eh_machine h' = eh_machine h /\
    length secs = (length init + 5)%nat /\
    opens file' h' phdr secs /\ named_by h' secs (length init) strs' /\
    (forall nm i, find_named strs nm (init ++ [(rs, strs)]) = Some i ->
       find_named strs' nm secs = Some i) /\
    (forall i x, init !! i = Some x ->
       find_named strs (name SECTION_UNWIND_ADDR) (init ++ [(rs, strs)]) <> Some i ->
       secs !! i = Some x) /\
    ua' ≡ₚ renumber 0 ua /\ strictly_sorted_by ua_addr ua' /\
    Forall call_site_typed sites /\
    cs_id <$> sites = assign_ids start_id ((fun me => en_id me.2) <$> es) /\
    Forall2 (site_for (eh_machine h) ua' (all_locations es) (all_arch_live es)) es sites /\
    holds strs' secs (name SECTION_UNWIND_ADDR) 16 (encode_section encode_unwind_addr ua') /\
    holds strs' secs (name SECTION_ID) 52
      (encode_section encode_call_site (qsort sort_id sites)) /\
    holds strs' secs (name SECTION_ADDR) 52
      (encode_section encode_call_site (qsort sort_addr (qsort sort_id sites))) /\
    holds strs' secs (name SECTION_LIVE) 12 (encode_section encode_live_value (all_locations es)) /\
    holds strs' secs (name SECTION_ARCH) 20 (encode_section encode_arch_live (all_arch_live es)).

Section input.
Context `{Env} `{Io} `{BinEnv} `{QsortLaws}.
Hypothesis alloc : forall n, malloc_ok n = true.
Hypothesis io : ftruncate_ok = true /\ mmap_ok = true.
Context {file : list Z} {h : Elf64_Ehdr} {phdr : list Z} {init : contents} {rs : Elf64_Shdr}.
Context {strs sec : list Z} {ms : list stack_map} {ua : list unwind_addr}.
Context (I : metadata_input file h phdr init rs strs sec ms ua).

Lemma suffix_short s : s ∈ metadata_suffixes -> zlen s <= 100 /\ 0 ∉ s.
Proof using.
  assert (E : forallb (fun s => (zlen s <=? 100) && negb (existsb (Z.eqb 0) s))
    metadata_suffixes = true) by (vm_compute; reflexivity).
  rewrite forallb_forall in E. intros Hs%list_elem_of_In. apply E in Hs.
  apply andb_prop in Hs as [Hl Hz]. split; [by apply Z.leb_le|].
  intros Hin%list_elem_of_In. apply negb_true_iff in Hz.
  assert (Hx : existsb (Z.eqb 0) s = true) by (apply existsb_exists; by exists 0). congruence.
Qed.

Lemma suffixes_distinct : NoDup metadata_suffixes.
Proof using. apply (bool_decide_unpack _). vm_compute. exact Logic.I. Qed.

Lemma additions_names sites live archlive :
  (additions sec sites live archlive).*1.*1 = section_name sec <$> metadata_suffixes.
Proof using. done. Qed.

Lemma names_good : Forall good_name (section_name sec <$> metadata_suffixes).
Proof using I.
  destruct (mi_prefix _ _ _ _ _ _ _ _ _ I) as [P1 P2]. apply Forall_fmap, Forall_forall.
  intros s Hs. destruct (suffix_short s Hs). by apply section_name_good.
Qed.

Lemma names_distinct : NoDup (section_name sec <$> metadata_suffixes).
Proof using I.
  destruct (mi_prefix _ _ _ _ _ _ _ _ _ I) as [P1 P2]. apply NoDup_fmap_2_strong; [|apply suffixes_distinct].
  intros a b Ha Hb. destruct (suffix_short a Ha), (suffix_short b Hb). by apply section_name_inj.
Qed.

(** The binary once its unwinding ranges are sorted. *)
Section sorted.
Context (k : nat) (r : Elf64_Shdr) (ua' : list unwind_addr).
Context (Hk : init !! k = Some (r, encode_section encode_unwind_addr ua)).
Context (Hty : sh_type r = SHT_PROGBITS) (Hperm : ua' ≡ₚ renumber 0 ua).

Local Definition sorted_init : contents :=
  <[k := (r, encode_section encode_unwind_addr ua')]> init.

Lemma sorted_length : length sorted_init = length init.
Proof using. apply length_insert. Qed.

Lemma sorted_stage :
  stage sorted_init rs strs [] =
  <[k := (r, encode_section encode_unwind_addr ua')]> (init ++ [(rs, strs)]).
Proof using I Hk.
  unfold stage, sorted_init. destruct (binary_table (mi_binary _ _ _ _ _ _ _ _ _ I)) as [_ Hz].
  rewrite (set_size_same rs) by done. rewrite insert_app_l; [done|]. by eapply lookup_lt_Some.
Qed.

Lemma sorted_same_name : Forall2 same_name (init ++ [(rs, strs)]) (stage sorted_init rs strs []).
Proof using I Hk.
  rewrite sorted_stage. apply Forall2_same_length_lookup_2; [by rewrite length_insert|].
  intros i x y Hx Hy. destruct (decide (k = i)) as [<-|].
  - rewrite lookup_app_l, Hk in Hx by by eapply lookup_lt_Some. injection Hx as <-.
    rewrite list_lookup_insert_eq in Hy.
    + by injection Hy as <-.
    + rewrite length_app. apply lookup_lt_Some in Hk. lia.
  - rewrite list_lookup_insert_ne, Hx in Hy by done. by injection Hy as <-.
Qed.

Lemma sorted_size : zlen (encode_section encode_unwind_addr ua') =
  zlen (encode_section encode_unwind_addr ua).
Proof using Hperm. rewrite !unwind_addrs_size. unfold zlen. by rewrite Hperm, renumber_length. Qed.

Lemma sorted_named : named_by (stage_ehdr h (stage sorted_init rs strs []))
  (stage sorted_init rs strs []) (length sorted_init) strs.
Proof using I Hk.
  pose proof (bn_named _ _ _ _ _ _ (mi_binary _ _ _ _ _ _ _ _ _ I)) as N.
  rewrite sorted_length, sorted_stage. unfold stage_ehdr.
  assert (N' : named_by h (<[k:=(r, encode_section encode_unwind_addr ua')]> (init ++ [(rs, strs)]))
    (length init) strs).
  { eapply named_content; [exact N|by rewrite lookup_app_l by by eapply lookup_lt_Some|].
    apply lookup_lt_Some in Hk. lia. }
  destruct N'. by constructor.
Qed.

Lemma sorted_can_add sites live archlive :
  can_add h sorted_init rs strs [] (additions sec sites live archlive).
Proof using I Hk Hty.
  destruct (mi_room _ _ _ _ _ _ _ _ _ I) as (R1 & R2 & _).
  pose proof (bn_named _ _ _ _ _ _ (mi_binary _ _ _ _ _ _ _ _ _ I)) as N.
  constructor.
  - apply sorted_named.
  - destruct (bn_first _ _ _ _ _ _ (mi_binary _ _ _ _ _ _ _ _ _ I)) as (r0 & F1 & F2 & _ & F4).
    exists r0. split; [|done]. unfold sorted_init. rewrite list_lookup_insert_ne; [done|].
    intros ->. rewrite F1 in Hk. injection Hk as <- _. by rewrite F2 in Hty.
  - rewrite zlen_stage. unfold zlen in *. rewrite sorted_length. cbn [length additions]. lia.
  - destruct (nb_table _ _ _ _ N) as [l Hl]. split; [rewrite Hl; unfold zlen; rewrite length_app; cbn; lia|].
    change (zlen (additions sec sites live archlive)) with 4. lia.
  - pose proof names_good as G. rewrite <- (additions_names sites live archlive) in G.
    by rewrite !Forall_fmap in G.
  - rewrite additions_names. apply names_distinct.
  - pose proof (mi_fresh _ _ _ _ _ _ _ _ _ I) as Fr.
    assert (Fr' : Forall (fun nm => find_named strs nm (stage sorted_init rs strs []) = None)
      (additions sec sites live archlive).*1.*1).
    { rewrite additions_names. apply Forall_fmap. eapply Forall_impl; [exact Fr|].
      intros s Hs. cbn in *. by rewrite <- (find_named_same _ _ _ _ sorted_same_name). }
    by rewrite !Forall_fmap in Fr'.
Qed.

Context (Hent : sh_entsize r = 16) (Hsort : strictly_sorted_by ua_addr ua').
Context (Hfind : find_named strs (section_name sec SECTION_UNWIND_ADDR) (init ++ [(rs, strs)]) = Some k).

Lemma unwind_placed : k <> 0%nat /\ sh_size r = zlen (encode_section encode_unwind_addr ua) /\
  zlen (encode_section encode_unwind_addr ua) < 2 ^ 62.
Proof using I Hk Hty Hfind. by apply (binary_progbits (mi_binary _ _ _ _ _ _ _ _ _ I) _ _ _ _ Hfind). Qed.

(** The output, of any metadata for the call sites. *)
Lemma sorted_output sites start_id file' :
  let es := entries_of ms in
  let live := encode_section encode_live_value (all_locations es) in
  let archlive := encode_section encode_arch_live (all_arch_live es) in
  let l := additions sec sites live archlive in
  opens file' (grown_ehdr h sorted_init rs (emit strs l).1 (emit strs l).2) phdr
    (grown sorted_init rs (emit strs l).1 (emit strs l).2) ->
  Forall call_site_typed sites ->
  cs_id <$> sites = assign_ids start_id ((fun me => en_id me.2) <$> es) ->
  Forall2 (site_for (eh_machine h) ua' (all_locations es) (all_arch_live es)) es sites ->
  metadata_output h phdr init rs strs sec start_id ms ua file'.
Proof using I Hk Hty Hent Hsort Hfind Hperm.
  intros es live archlive l Ho Htyped Hids Hsites. destruct unwind_placed as (Hk0 & Hz & _).
  pose proof (sorted_can_add sites live archlive) as Can. fold l in Can.
  pose proof (emit_named _ _ _ _ _ _ Can) as Can'. cbn [app] in Can'.
  assert (Hkeep : forall nm i, find_named strs nm (init ++ [(rs, strs)]) = Some i ->
    find_named (emit strs l).1 nm (grown sorted_init rs (emit strs l).1 (emit strs l).2) = Some i).
  { intros nm i Hf. rewrite (find_named_same _ _ _ _ sorted_same_name) in Hf.
    pose proof (emit_keeps h _ rs l strs [] nm i sorted_named (ca_good _ _ _ _ _ _ Can) Hf) as K.
    cbn [app] in K. by rewrite (find_named_same _ _ _ _ (grown_same_name _ _ _ _)) in K. }
  eexists _, _, _, ua', sites. split; [|split; [|split]]; [..|split; [exact Ho|]; split].
  { reflexivity. } { reflexivity. }
  { unfold grown. rewrite length_app. cbn [length]. rewrite place_from_length, sorted_length.
    unfold l, additions. cbn [emit snd length]. lia. }
  { rewrite <- sorted_length. eapply named_grown; [apply (ca_named _ _ _ _ _ _ Can')|done]. }
  split; [exact Hkeep|]. split.
  { intros i x Hi Hn. unfold grown, sorted_init. rewrite lookup_app_l.
    - rewrite list_lookup_insert_ne; [done|]. intros ->. by apply Hn.
    - rewrite length_insert. by eapply lookup_lt_Some. }
  do 5 (split; [done|]). split.
  { exists k, r. split; [by apply Hkeep|]. split; [|by rewrite sorted_size].
    unfold grown, sorted_init. rewrite lookup_app_l.
    - apply list_lookup_insert_eq. by eapply lookup_lt_Some.
    - rewrite length_insert. by eapply lookup_lt_Some. }
  split; [|split; [|split]]; (eapply emit_holds; [exact Can|]).
  - by apply (list_elem_of_lookup_2 l 0).
  - by apply (list_elem_of_lookup_2 l 1).
  - by apply (list_elem_of_lookup_2 l 2).
  - by apply (list_elem_of_lookup_2 l 3).
Qed.

Lemma emit_table_size (l : list addition) : forall strs0,
  zlen (emit strs0 l).1 <= zlen strs0 + (BUF_SIZE + 1) * zlen l.
Proof using.
  induction l as [|[[nm es] bs] l IH]; intros strs0; [cbn [emit fst]; change (zlen []) with 0; lia|].
  cbn [emit fst]. specialize (IH (with_name strs0 nm)). destruct (zlen_name strs0 nm) as [[_ Z] _].
  rewrite zlen_cons. unfold BUF_SIZE in *. lia.
Qed.

Lemma sorted_add_sections junk buf sm start_id t :
  (forall i, uint 16 (junk i)) -> uint 64 start_id ->
  working h phdr (<[k := (r, encode_section encode_unwind_addr ua')]> (init ++ [(rs, strs)]))
    (length init) strs t ->
  Forall2 (describes_map buf) ms sm ->
  exists t', WriteElf.add_sections junk (eh_machine h) buf sm sec start_id
      (section_name sec SECTION_UNWIND_ADDR) t = Ret (SUCCESS, t') /\
    metadata_output h phdr init rs strs sec start_id ms ua (t_file t') /\
    t_fds t' = t_fds t /\ t_bins t' = t_bins t /\ is_Some (t_elf t').
Proof using All.
  intros Hj Hst W Hd. pose proof (mi_binary _ _ _ _ _ _ _ _ _ I) as B.
  destruct unwind_placed as (Hk0 & Hz & Hlt). destruct (mi_unwind _ _ _ _ _ _ _ _ _ I) as (Htyp & Hne & _).
  assert (Hl : zlen ua' = zlen ua) by (unfold zlen; by rewrite Hperm, renumber_length).
  rewrite unwind_addrs_size in Hlt.
  set (es := entries_of ms). destruct (created junk (eh_machine h) start_id buf sm ua' ms)
    as (sites & Ec & Hpad & Hids & Hsites); [done|lia|done| |].
  { eapply Forall_impl; [apply (mi_covered _ _ _ _ _ _ _ _ _ I)|]. intros me.
    by apply covered_enclosed. }
  assert (Hn : zlen sites = zlen es).
  { unfold zlen. f_equal. symmetry. exact (Forall2_length _ _ _ Hsites). }
  rewrite <- sorted_stage, <- sorted_length in W.
  rewrite <- (binary_ehdr B (stage sorted_init rs strs [])) in W.
  2:{ rewrite zlen_stage. unfold zlen. rewrite sorted_length. cbn. lia. }
  destruct (mi_room _ _ _ _ _ _ _ _ _ I) as (R1 & R2 & R3). fold es in R3.
  pose proof (live_values_size (all_locations es)) as Zl.
  pose proof (arch_live_size (all_arch_live es)) as Za.
  pose proof (emit_table_size (additions sec sites
    (encode_section encode_live_value (all_locations es))
    (encode_section encode_arch_live (all_arch_live es))) strs) as Ht.
  change (zlen (additions _ _ _ _)) with 4 in Ht.
  assert (G : growable h phdr sorted_init rs).
  { eapply growable_insert; [exact (binary_growable B)|exact Hk|done|apply sorted_size|done]. }
  assert (Hrs : 0 <= sh_offset rs).
  { destruct (gr_table _ _ _ _ G) as [_ [_ Hx]]. typed_fields. unfold uint in *. lia. }
  pose proof (zlen_nn strs). pose proof (zlen_nn es). pose proof (zlen_nn (all_locations es)).
  pose proof (zlen_nn (all_arch_live es)).
  assert (Hk' : stage sorted_init rs strs [] !! k =
    Some (r, encode_section encode_unwind_addr ua')).
  { rewrite sorted_stage. apply list_lookup_insert_eq. rewrite length_app.
    apply lookup_lt_Some in Hk. lia. }
  destruct (add_sections_run alloc io junk (eh_machine h) buf sm sec start_id
    (section_name sec SECTION_UNWIND_ADDR) h phdr sorted_init rs strs t k r ua' sites
    (encode_section encode_live_value (all_locations es))
    (encode_section encode_arch_live (all_arch_live es))
    (zlen (all_locations es)) (zlen (all_arch_live es)) W G) as (t' & E & Ho & F1 & F2 & F3).
  - by rewrite <- (find_named_same _ _ _ _ sorted_same_name).
  - exact Hk'.
  - done.
  - by rewrite sorted_size.
  - done.
  - intros ->. destruct ua; [done|]. unfold zlen in Hl. cbn in Hl. lia.
  - rewrite Hperm. by apply renumber_typed.
  - exact Ec.
  - exact Zl.
  - exact Za.
  - apply sorted_can_add.
  - unfold added_bytes. rewrite Hn, Zl, Za. lia.
  - exists t'. split; [exact E|]. split; [eapply sorted_output; [exact Ho| |exact Hids|exact Hsites]|done].
    apply (sites_typed junk (eh_machine h) start_id ua' ms); try done.
    + apply (mi_maps _ _ _ _ _ _ _ _ _ I).
    + rewrite Hperm. by apply renumber_typed.
    + fold es. unfold BUF_SIZE in *. lia.
    + fold es. unfold BUF_SIZE in *. lia.
Qed.
End sorted.

(** Closing the binary. *)
Lemma free_elf_bin_run b t fds bins : is_Some (t_elf t) -> t_fds t = b_fd b :: fds ->
  t_bins t = b_self b :: bins ->
  free_elf_bin (Some b) t = Ret (SUCCESS, MkTool (t_file t) fds None bins (t_next t)
    (t_old_shstrtab t) (t_freed t)).
Proof using.
  intros [e He] Hf Hb. unfold free_elf_bin.
  rewrite (T_step _ _ t tt (set_elf None t)) by (unfold end_elf; by rewrite He).
  rewrite (T_step _ _ _ tt (MkTool (t_file t) fds None (t_bins t) (t_next t) (t_old_shstrtab t)
    (t_freed t))).
  2:{ unfold close_file, set_elf. cbn [t_fds]. rewrite Hf. cbn [Init.remove_first].
    by rewrite decide_True. }
  rewrite (T_step _ _ _ tt (MkTool (t_file t) fds None bins (t_next t) (t_old_shstrtab t)
    (t_freed t))); [done|].
  unfold free_bin. cbn [t_bins]. rewrite Hb. cbn [Init.remove_first]. by rewrite decide_True.
Qed.

Lemma main_run junk bin_fn start_id t :
  (forall i, uint 16 (junk i)) -> uint 64 start_id ->
  t_file t = file -> heap_ok t -> open_rdwr bin_fn <> -1 -> read_ok = true ->
  exists t', main junk bin_fn sec start_id t = Ret (0, t') /\
    metadata_output h phdr init rs strs sec start_id ms ua (t_file t') /\
    t_fds t' = t_fds t /\ t_bins t' = t_bins t /\ t_elf t' = None.
Proof using All.
  intros Hj Hst Hf Hh Hfd Hr. pose proof (mi_binary _ _ _ _ _ _ _ _ _ I) as B. unfold main.
  destruct (init_elf_bin_run alloc _ _ _ _ _ _ bin_fn _ (bn_image _ _ _ _ _ _ B)
    (binary_desc B true) (bn_named _ _ _ _ _ _ B) (bn_machine _ _ _ _ _ _ B) Hf Hh Hfd Hr)
    as (t1 & E1 & U1 & F1 & D1 & N1).
  rewrite (T_step _ _ _ _ _ E1). cbn [negb Z.eqb SUCCESS]. cbv beta iota zeta.
  rewrite (T_step _ _ t1 (Bin (t_next t) (eh_machine h) (open_rdwr bin_fn)) t1) by done.
  destruct (mi_maps _ _ _ _ _ _ _ _ _ I) as (M1 & M2 & km & rm & M3 & M4 & M5).
  destruct (init_stackmap_run _ _ _ _ _ _ _ _ ms U1 M3 (binary_init _ _ _ M4) M5)
    as (sms & t2 & E2 & Hd & U2 & K2).
  { apply (binary_progbits B _ _ _ _ M3 M4 M5). }
  { intros E. pose proof (maps_length (image_addr + sh_offset rm) ms 0) as L. rewrite E in L.
    destruct ms; [done|]. unfold zlen in L; cbn in L; lia. } { done. }
  rewrite (T_step _ _ _ _ _ E2). cbn [negb Z.eqb SUCCESS]. cbv beta iota zeta.
  destruct (mi_unwind _ _ _ _ _ _ _ _ _ I) as (V1 & V2 & V3 & k & r & V4 & V5 & V6 & V7).
  pose proof (unwind_placed k r V5 V6 V4) as (Hk0 & Hz & Hlt).
  destruct (update_function_addr_run _ _ _ _ _ _ k r ua _ U2 V4 (binary_init _ _ _ V5))
    as (t3 & ua' & E3 & Hp & Hs & K3 & W3); try done.
  { apply lookup_lt_Some in V5. lia. } { lia. }
  rewrite (T_step _ _ _ _ _ E3). cbn [negb Z.eqb SUCCESS]. cbv beta iota zeta.
  destruct (sorted_add_sections k r ua' V5 V6 Hp V7 Hs V4 junk _ sms start_id t3 Hj Hst W3 Hd)
    as (t4 & E4 & Ho & G1 & G2 & G3).
  rewrite (T_step _ _ _ _ _ E4). cbn [negb Z.eqb SUCCESS]. cbv beta iota zeta.
  destruct K2 as (_ & K2 & K2'), K3 as (_ & K3 & K3').
  assert (Fd : t_fds t4 = open_rdwr bin_fn :: t_fds t) by congruence.
  assert (Bn : t_bins t4 = t_next t :: t_bins t) by congruence.
  rewrite (T_step _ _ _ _ _ (free_elf_bin_run (Bin _ _ _) t4 _ _ G3 Fd Bn)).
  eexists. split; [reflexivity|]. done.
Qed.
(** C9: On a binary with the compiler's stack maps and unwinding
    ranges and room for the metadata, the tool exits with 0 and has closed
    and freed what it opened; the file it leaves opens to the sections that
    were there, the unwinding ranges sorted by address, and the four sections
    of metadata: one record of every call site, by identifier and by address,
    with its live values and architecture-specific values. *)
Theorem main_writes_metadata junk bin_fn start_id t :
  (forall i, uint 16 (junk i)) -> uint 64 start_id ->
  t_file t = file -> heap_ok t -> open_rdwr bin_fn <> -1 -> read_ok = true ->
  exists t', main junk bin_fn sec start_id t = Ret (0, t') /\
    metadata_output h phdr init rs strs sec start_id ms ua (t_file t') /\
    t_fds t' = t_fds t /\ t_bins t' = t_bins t /\ t_elf t' = None.
Proof using All. exact (main_run junk bin_fn start_id t). Qed.
End input.
