(* ===== verification/ToolRuntime.v ===== *)
(** * The metadata tool and the runtime

    The runtime's [st_init] on a file the metadata tool has written: the libelf
    of [LibElf] as an implementation of the interface [Init.Libelf], and the
    handle the runtime gets for the tool's sections. *)

From S2P Require Import Prelude Machine CallSite Regs Context Lookup Init StackMap WriteMeta LibElf ElfUpdate ElfUtil WriteElf ElfSpec ElfDesc ElfRoundtrip ElfTool ElfAdd ElfUnwind ElfPlace ElfMetadata ElfMain ElfOutput.
From stdpp Require Import strings.

#[local] Open Scope Z_scope.

Import Lib Tool.

(** ** Strings *)

Lemma bytes_string_bytes s : bytes_string (string_bytes s) = s.
Proof.
  induction s as [|c s IH]; [done|]. cbn [string_bytes bytes_string]. rewrite IH.
  unfold char_byte. by rewrite N2Z.id, Ascii.ascii_N_embedding.
Qed.

(** The string of these bytes. *)
Definition string_of (bs : list Z) : option string :=
  if decide (string_bytes (bytes_string bs) = bs) then Some (bytes_string bs) else None.

Lemma string_of_spec bs s : string_of bs = Some s <-> bs = string_bytes s.
Proof.
  unfold string_of. case_decide as E; split.
  - by intros [= <-].
  - intros ->. by rewrite bytes_string_bytes.
  - done.
  - intros ->. by rewrite bytes_string_bytes in E.
Qed.

(** ** libelf as the runtime uses it

    A section is a descriptor whose headers are read, and an index.  A call
    that does not return counts as a failure: the theorems are about files on
    which every call returns. *)

Section libelf.
Context `{Env} (files : Z -> option (list Z)).

(** The result of a call, and the descriptor after it. *)
Definition run {A} (c : E A) (e : Elf) : option (A * Elf) :=
  match c e with Ret r => Some r | _ => None end.

Definition next_scn (e : Elf) (scn : option nat) : option (Elf * nat) :=
  '(i, e') ← run (elf_nextscn scn) e; pair e' <$> i.

Definition section_bytes (scn : nat) : E (option (option (list Z))) :=
  data ← elf_getdata scn None;
  match data with
  | None => mret None
  | Some j =>
      sd ← data_of scn j;
      match d_buf (sd_data sd) with
      | None => mret (Some None)
      | Some b => bs ← buffer_bytes b (d_size (sd_data sd)); mret (Some (Some bs))
      end
  end.

#[export] Instance runtime_libelf : Libelf Elf (Elf * nat) := {|
  Init.elf_begin fd := elf_begin (files fd) false;
  Init.elf64_getehdr e := '(h, _) ← run elf64_getehdr e; eh_machine <$> h;
  Init.elf_getident e := '(id, _) ← run elf_getident e; id;
  Init.elf_getshdrstrndx e := '(ndx, _) ← run elf_getshdrstrndx e; ndx;
  Init.elf_nextscn e scn :=
    match scn with None => next_scn e None | Some (e', i) => next_scn e' (Some i) end;
  Init.gelf_getshdr scn :=
    '(r, _) ← run (elf64_getshdr scn.2) scn.1;
    (fun r => Init.Shdr (sh_name r) (sh_size r) (sh_entsize r)) <$> r;
  Init.elf_strptr e ndx off := '(s, _) ← run (elf_strptr ndx off) e; s ≫= string_of;
  Init.elf_getdata scn := '(d, _) ← run (section_bytes scn.2) scn.1; d;
|}.

Lemma first_scn e i e' : elf_nextscn None e = Ret (Some i, e') ->
  i = 1%nat /\ (1 < length (e_scns e'))%nat.
Proof using.
  unfold elf_nextscn, elf_getscn, with_headers. destruct (negb _); [done|].
  destruct (cooked e) as [[ok e1]| | |]; cbn [mbind outcome_bind]; try done.
  destruct (e_ehdr e1); [|done]. destruct ok; [|done].
  rewrite (E_step _ _ e1 (zlen (e_scns e1)) e1) by done.
  destruct (0 <=? 1) eqn:?, (Z.ltb_spec 1 (zlen (e_scns e1))); cbn [andb]; intros [= <- <-].
  unfold zlen in *. split; [done|lia].
Qed.

Lemma later_scn e i : elf_nextscn (Some i) e =
  Ret (if decide (S i < length (e_scns e))%nat then Some (S i) else None, e).
Proof using. done. Qed.

#[export] Instance runtime_libelf_laws : LibelfLaws Elf (Elf * nat).
Proof using.
  refine {| sections := fun e => match run (elf_nextscn None) e with
    | Some (Some _, e') => pair e' <$> seq 1 (length (e_scns e') - 1)
    | _ => []
    end |}.
  - intros e. cbn [Init.elf_nextscn runtime_libelf]. unfold next_scn, run.
    destruct (elf_nextscn None e) as [[[i|] e']| | |] eqn:E; try done.
    apply first_scn in E as [-> Hl]. destruct (length (e_scns e') - 1)%nat eqn:El; [lia|done].
  - intros e k [e1 i] Hk. cbn [Init.elf_nextscn runtime_libelf]. unfold next_scn, run.
    rewrite later_scn. cbn [mbind option_bind]. unfold run in Hk.
    destruct (elf_nextscn None e) as [[[i0|] e']| | |] eqn:E; try done.
    rewrite list_lookup_fmap in *. apply fmap_Some in Hk as (j & Hj & [= -> ->]).
    apply lookup_seq in Hj as [-> Hlt]. destruct (decide (S (1 + k) < length (e_scns e'))%nat).
    + by rewrite lookup_seq_lt by lia.
    + rewrite lookup_seq_ge by lia. done.
Defined.

(** ** A file with known contents *)

Section opened.
Context {file : list Z} {h : Elf64_Ehdr} {phdr : list Z} {secs : contents}.
Context {n : nat} {strs : list Z} {fd : Z}.
Context (O : opens file h phdr secs) (N : named_by h secs n strs) (F : files fd = Some file).

Local Abbreviation e0 := (unread_elf file false).
Local Abbreviation e1 := (opened_elf file h phdr secs.*1 false).
Local Abbreviation ndx := (Z.of_nat n).

Lemma opened_now : desc (0, 0, true, false) e1 h phdr secs.
Proof using O. apply (O false). Qed.

Lemma begin_opened : Init.elf_begin fd = Some e0.
Proof using O F. cbn [Init.elf_begin runtime_libelf]. rewrite F. apply (O false). Qed.

Lemma with_headers_unread {A} (k : Elf64_Ehdr -> E (option A)) : with_headers k e0 = k h e1.
Proof using O.
  unfold with_headers. cbn [e_kind unread_elf]. rewrite bool_decide_true by done. cbn [negb].
  destruct (O false) as (_ & -> & _). done.
Qed.

Lemma getscn_unread i : elf_getscn i e0 = elf_getscn i e1.
Proof using O. unfold elf_getscn. by rewrite with_headers_unread, (with_headers_desc opened_now). Qed.

Lemma strptr_unread i off : elf_strptr i off e0 = elf_strptr i off e1.
Proof using O. unfold elf_strptr. unfold mbind at 1 3, E_bind at 1 3. by rewrite getscn_unread. Qed.

Lemma ehdr_opened : Init.elf64_getehdr e0 = Some (eh_machine h).
Proof using O.
  cbn [Init.elf64_getehdr runtime_libelf]. unfold run, elf64_getehdr. cbn [e_kind e_class unread_elf].
  rewrite andb_false_r, with_headers_unread. done.
Qed.

Lemma ident_opened : Init.elf_getident e0 = Some (eh_ident h).
Proof using O.
  cbn [Init.elf_getident runtime_libelf]. unfold run, elf_getident. cbn [e_kind unread_elf].
  rewrite bool_decide_true by done. cbn [negb]. by rewrite with_headers_unread.
Qed.

Lemma shdrstrndx_opened : Init.elf_getshdrstrndx e0 = Some ndx.
Proof using O N.
  destruct (nb_index _ _ _ _ N) as (Hx & _ & Hlt).
  cbn [Init.elf_getshdrstrndx runtime_libelf]. unfold run.
  assert (elf_getshdrstrndx e0 = elf_getshdrstrndx e1) as ->.
  { unfold elf_getshdrstrndx. by rewrite with_headers_unread, (with_headers_desc opened_now). }
  rewrite (getshdrstrndx_desc opened_now) by lia. cbn. by rewrite Hx.
Qed.

Lemma sections_opened : sections e0 = pair e1 <$> seq 1 (length secs - 1).
Proof using O N.
  destruct (nb_section _ _ _ _ N) as (rs & Hn & _). apply lookup_lt_Some in Hn.
  destruct (nb_index _ _ _ _ N) as (_ & Hn0 & _). pose proof opened_now as D.
  unfold sections, runtime_libelf_laws, run, elf_nextscn.
  rewrite getscn_unread, (getscn_desc D 1) by lia.
  by rewrite (de_length _ _ _ _ _ D).
Qed.

Lemma shdr_opened i r bs : secs !! i = Some (r, bs) ->
  Init.gelf_getshdr (e1, i) = Some (Init.Shdr (sh_name r) (sh_size r) (sh_entsize r)).
Proof using O.
  intros Hi. cbn [Init.gelf_getshdr runtime_libelf fst snd]. unfold run.
  by rewrite (getshdr_desc opened_now _ _ _ Hi).
Qed.

Lemma readable_opened : readable e0 ndx.
Proof using O N.
  constructor; [exact shdrstrndx_opened|]. intros s Hs. rewrite sections_opened in Hs.
  apply list_elem_of_fmap in Hs as (i & -> & Hi). apply elem_of_seq in Hi.
  destruct (lookup_lt_is_Some_2 secs i) as [[r bs] Hr]; [lia|].
  rewrite (shdr_opened _ _ _ Hr). by eexists.
Qed.

Lemma strptr_opened off : 0 <= off ->
  Init.elf_strptr e0 ndx off = string_at strs off ≫= string_of.
Proof using O N.
  intros Ho. destruct (nb_section _ _ _ _ N) as (rs & Hn & Ht).
  destruct (nb_index _ _ _ _ N) as (_ & Hn0 & _).
  destruct (strptr_desc _ _ _ _ _ n rs strs off opened_now Hn Hn0 Ht (nb_table _ _ _ _ N) Ho)
    as (e' & E & _). cbn [Init.elf_strptr runtime_libelf]. unfold run. by rewrite strptr_unread, E.
Qed.

Lemma has_name_opened sec i r bs : secs !! i = Some (r, bs) ->
  Init.has_name e0 ndx sec (e1, i) = bool_decide (string_at strs (sh_name r) = Some (string_bytes sec)).
Proof using O N.
  intros Hi. unfold Init.has_name. rewrite (shdr_opened _ _ _ Hi). cbn [Init.sh_name].
  pose proof (nb_names _ _ _ _ N) as Hnm. eapply Forall_lookup_1 in Hnm; [|exact Hi]. cbn in Hnm.
  rewrite strptr_opened by lia. apply bool_decide_ext.
  destruct (string_at strs (sh_name r)) as [bs'|]; cbn [mbind option_bind]; [|done].
  rewrite string_of_spec. split; congruence.
Qed.

Lemma named_from sec l : forall i, drop i secs = l ->
  head (filter (fun s => Init.has_name e0 ndx sec s) (pair e1 <$> seq i (length l))) =
  pair e1 <$> first_named strs (string_bytes sec) i l.
Proof using O N.
  induction l as [|[r bs] l IH]; intros i Hl; [done|]. cbn [length seq]. rewrite fmap_cons.
  assert (Hi : secs !! i = Some (r, bs)).
  { rewrite <- (Nat.add_0_r i), <- lookup_drop, Hl. done. }
  pose proof (has_name_opened sec _ _ _ Hi) as Hn. cbn [first_named].
  destruct (decide (string_at strs (sh_name r) = Some (string_bytes sec))) as [E|E].
  - rewrite bool_decide_true in Hn by done. rewrite filter_cons_True; [done|by rewrite Hn].
  - rewrite bool_decide_false in Hn by done. rewrite filter_cons_False by (rewrite Hn; auto).
    apply IH. rewrite <- (Nat.add_1_r i), <- drop_drop, Hl. done.
Qed.

Lemma named_opened sec :
  Init.named e0 ndx sec = pair e1 <$> find_named strs (string_bytes sec) secs.
Proof using O N.
  unfold Init.named. rewrite sections_opened, <- (length_drop secs 1). by apply named_from.
Qed.

(** The abstract sections are what the runtime finds. *)
Lemma holds_opened sec entsize bs : holds strs secs (string_bytes sec) entsize bs ->
  Init.holds e0 ndx sec entsize bs.
Proof using O N.
  intros (i & r & Hf & Hi & Ht & Hz & He). exists (e1, i), (sh_name r).
  rewrite named_opened, Hf, (shdr_opened _ _ _ Hi), Hz, He. split; [done|]. split; [done|].
  intros Hne. destruct (find_named_lookup _ _ _ _ Hf) as (_ & _ & Hi0 & _).
  assert (Hd : has_data i r = true) by (unfold has_data; rewrite Ht; by destruct i).
  destruct (getdata_desc _ _ _ _ _ _ _ _ opened_now Hi Hd) as (e2 & E & _ & _ & Hl).
  destruct Hl as (_ & s & sd & Hs & Ed & Hb).
  destruct Hb as (_ & Hds & Hbuf); [by rewrite Ht|]. destruct (Hbuf Hne) as (b & Eb & Hbb).
  cbn [Init.elf_getdata runtime_libelf fst snd]. unfold run, section_bytes.
  rewrite (E_step _ _ _ _ _ E), (E_step _ _ _ _ _ (data_of_run _ _ _ _ Hs Ed)), Eb, Hds.
  by rewrite (E_step _ _ _ _ _ Hbb).
Qed.
End opened.
End libelf.

(** ** What the runtime finds *)

(** A handle that serves the call sites of these entries: the records in the
    order its searches rely on, one call site of every entry, and every lookup
    of a call site's address or identifier finds a call site that has it, every
    lookup of its function the function with its unwinding records. *)
Definition serves (hd : st_handle) (arch start_id : Z) (es : list (stack_map * entry)) : Prop :=
  h_arch hd = arch /\ counts_ok hd /\ exists sites,
    h_sites_id hd ≡ₚ sites /\ h_sites_addr hd ≡ₚ sites /\
    cs_id <$> sites = assign_ids start_id ((fun me => en_id me.2) <$> es) /\
    Forall2 (site_for arch (h_unwind_addrs hd) (h_live_vals hd) (h_arch_live_vals hd)) es sites /\
    forall c, c ∈ sites ->
      (exists c', get_site_by_addr hd (cs_addr c) = Ret (Some c') /\ c' ∈ sites /\
         cs_addr c' = cs_addr c) /\
      (exists c', get_site_by_id hd (cs_id c) = Ret (Some c') /\ c' ∈ sites /\ cs_id c' = cs_id c) /\
      exists u, get_unwind_offset_by_addr hd (cs_addr c) = Ret (Some u) /\
        u ∈ h_unwind_addrs hd /\ cs_unwind_offset c = ua_unwind_offset u.

Lemma sorted_serves `{QsortLaws} hd arch start_id es sites :
  h_arch hd = arch -> counts_ok hd ->
  h_sites_id hd = qsort sort_id sites -> h_sites_addr hd = qsort sort_addr (qsort sort_id sites) ->
  strictly_sorted_by ua_addr (h_unwind_addrs hd) ->
  cs_id <$> sites = assign_ids start_id ((fun me => en_id me.2) <$> es) ->
  Forall2 (site_for arch (h_unwind_addrs hd) (h_live_vals hd) (h_arch_live_vals hd)) es sites ->
  serves hd arch start_id es.
Proof.
  intros Ha Hc Hi Hd Hu Hids Hs. split; [done|]. split; [done|]. exists sites.
  assert (P1 : h_sites_id hd ≡ₚ sites) by (rewrite Hi; apply law_qsort_permutation).
  assert (P2 : h_sites_addr hd ≡ₚ sites).
  { rewrite Hd. etransitivity; apply law_qsort_permutation. }
  do 4 (split; [done|]). intros c Hin. split; [|split].
  - destruct (site_by_addr_found hd (cs_addr c) Hc) as ([c'|] & E & Hr).
    + rewrite Hd. apply qsort_key_sorted.
    + exists c'. split; [done|]. by rewrite <- P2.
    + exfalso. apply (Hr c); [by rewrite P2|done].
  - destruct (site_by_id_found hd (cs_id c) Hc) as ([c'|] & E & Hr).
    + rewrite Hi. apply qsort_key_sorted.
    + exists c'. split; [done|]. by rewrite <- P1.
    + exfalso. apply (Hr c); [by rewrite P1|done].
  - apply list_elem_of_lookup in Hin as [i Hin].
    destruct (Forall2_lookup_r _ _ _ _ _ Hs Hin) as (me & _ & [(f & u & _ & _ & E & Ho & _) _ _]).
    exists u. rewrite (unwind_offset_found hd _ Hc Hu), E. split; [done|].
    split; [by eapply enclosing_elem|done].
Qed.

Lemma values_typed ms : Forall map_typed ms ->
  Forall live_value_typed (all_locations (entries_of ms)) /\
  Forall arch_live_typed (all_arch_live (entries_of ms)).
Proof.
  intros Hm. pose proof (entries_typed _ Hm) as He. rewrite Forall_forall in He.
  split; apply Forall_forall; intros v Hv; apply list_elem_of_bind in Hv as (me & Hv & Hin);
    specialize (He _ Hin).
  - pose proof (et_locations _ He) as Hl. rewrite Forall_forall in Hl. by apply Hl.
  - pose proof (et_arch_live _ He) as Hl. rewrite Forall_forall in Hl. by apply Hl.
Qed.

Section runtime.
Context `{Env} `{Io} `{BinEnv} `{QsortLaws}.
Context {file : list Z} {h : Elf64_Ehdr} {phdr : list Z} {init : contents} {rs : Elf64_Shdr}.
Context {strs : list Z} {ms : list stack_map} {ua : list unwind_addr} {locs : list unwind_loc}.
Context (I : metadata_input file h phdr init rs strs SECTION_PREFIX ms ua).

(** The locations of the unwinding records, and sizes the runtime can count. *)
Record runtime_input : Prop := {
  ri_locs : holds strs (init ++ [(rs, strs)]) (string_bytes SECTION_ST_UNWIND) 4
    (encode_section encode_unwind_loc locs);
  ri_typed : Forall unwind_loc_typed locs;
  ri_some : locs <> [] /\ entries_of ms <> [] /\ all_locations (entries_of ms) <> [];
  ri_few : zlen ua < 2 ^ 48 /\ zlen locs < 2 ^ 48 /\ zlen (entries_of ms) < 2 ^ 48 /\
    zlen (all_locations (entries_of ms)) < 2 ^ 48 /\ zlen (all_arch_live (entries_of ms)) < 2 ^ 48;
}.
Context (R : runtime_input).

Lemma locs_kept secs strs' :
  (forall nm i, find_named strs nm (init ++ [(rs, strs)]) = Some i ->
     find_named strs' nm secs = Some i) ->
  (forall i x, init !! i = Some x ->
     find_named strs (section_name SECTION_PREFIX SECTION_UNWIND_ADDR) (init ++ [(rs, strs)]) <> Some i ->
     secs !! i = Some x) ->
  holds strs' secs (string_bytes SECTION_ST_UNWIND) 4 (encode_section encode_unwind_loc locs).
Proof using I R.
  intros Hf Hk. destruct (ri_locs R) as (i & r & Hi & Hr & Ht & Hz & He). exists i, r.
  split; [by apply Hf|]. split; [|done]. apply Hk.
  - destruct (decide (i < length init)%nat) as [Hl|Hl]; [by rewrite lookup_app_l in Hr|].
    pose proof (lookup_lt_Some _ _ _ Hr) as Hlt. rewrite length_app in Hlt. cbn in Hlt.
    replace i with (length init) in Hr by lia. rewrite binary_last in Hr. injection Hr as <- _.
    destruct (binary_table (mi_binary _ _ _ _ _ _ _ _ _ I)) as [Hty _]. by rewrite Hty in Ht.
  - intros Hu. destruct (find_named_lookup _ _ _ _ Hi) as (r1 & b1 & _ & L1 & S1).
    destruct (find_named_lookup _ _ _ _ Hu) as (r2 & b2 & _ & L2 & S2).
    rewrite L1 in L2. injection L2 as -> ->. rewrite S1 in S2. injection S2 as E.
    revert E. vm_compute. done.
Qed.

(** The handle of the tool's output. *)
Lemma output_complete files fd start_id file' :
  metadata_output h phdr init rs strs SECTION_PREFIX start_id ms ua file' ->
  files fd = Some file' ->
  exists e ndx hd, @Init.elf_begin _ _ (runtime_libelf files) fd = Some e /\
    (length (@sections _ _ _ (runtime_libelf_laws files) e) < length init + 5)%nat /\
    @complete _ _ (runtime_libelf files) (runtime_libelf_laws files) e ndx hd /\
    zlen (h_sites_addr hd) = zlen (h_sites_id hd) /\
    (counts_ok hd -> serves hd (eh_machine h) start_id (entries_of ms)).
Proof using All.
  intros (h' & secs & strs' & ua' & sites & Eid & Em & Hlen & O & N & Hfind & Hkept & Hperm & Hsort &
    Htyped & Hids & Hsites & D1 & D2 & D3 & D4 & D5) F.
  pose proof (locs_kept _ _ Hfind Hkept) as D6.
  destruct (ri_some R) as (S1 & S2 & S3). destruct (ri_few R) as (F1 & F2 & F3 & F4 & F5).
  destruct (mi_maps _ _ _ _ _ _ _ _ _ I) as (M1 & _).
  destruct (mi_unwind _ _ _ _ _ _ _ _ _ I) as (U1 & U2 & _).
  pose proof (mi_binary _ _ _ _ _ _ _ _ _ I) as B. destruct (values_typed _ M1) as [V1 V2].
  set (es := entries_of ms) in *.
  assert (Hn : zlen sites = zlen es) by (unfold zlen; f_equal; symmetry; exact (Forall2_length _ _ _ Hsites)).
  assert (Hu : zlen ua' = zlen ua) by (unfold zlen; by rewrite Hperm, renumber_length).
  assert (Q1 : qsort sort_id sites ≡ₚ sites) by apply (law_qsort_permutation sort_id).
  assert (Q2 : qsort sort_addr (qsort sort_id sites) ≡ₚ sites)
    by (rewrite <- Q1 at 2; apply (law_qsort_permutation sort_addr)).
  assert (Hne : sites <> []) by (intros E; rewrite E in Hn; apply zlen_pos in S2; fold es in S2;
    change (zlen (@nil call_site)) with 0 in Hn; lia).
  assert (Harch : exists P Q, get_regops (eh_machine h) = Some P /\ get_properties (eh_machine h) = Some Q).
  { destruct (bn_machine _ _ _ _ _ _ B) as [-> | ->]; by eexists _, _. }
  destruct Harch as (P & Q & HP & HQ).
  set (hd := StHandle (eh_machine h) 8 P Q (zlen ua') ua' (zlen locs) locs (zlen sites)
    (qsort sort_id sites) (qsort sort_addr (qsort sort_id sites)) (zlen (all_locations es))
    (all_locations es) (zlen (all_arch_live es)) (all_arch_live es)).
  exists (unread_elf file' false), (Z.of_nat (length init)), hd.
  split; [by apply (begin_opened files O F)|]. split.
  { rewrite (sections_opened files O N), length_fmap, length_seq. lia. }
  assert (L1 : zlen (qsort sort_id sites) = zlen sites) by (unfold zlen; by rewrite Q1).
  assert (L2 : zlen (qsort sort_addr (qsort sort_id sites)) = zlen sites) by (unfold zlen; by rewrite Q2).
  split; [|split; [cbn; congruence|intros Hc; by eapply sorted_serves]].
  constructor.
  - apply (readable_opened files O N).
  - rewrite (ehdr_opened files O). cbn. by rewrite Em.
  - exists (eh_ident h'). split; [apply (ident_opened files O)|]. exists 2. split; [|done].
    pose proof (im_ident _ _ _ _ (bn_image _ _ _ _ _ _ B)) as Hi. rewrite <- Eid in Hi.
    by rewrite <- (take_drop 7 (eh_ident h')), Hi.
  - done.
  - done.
  - constructor; apply (holds_opened files O N); done.
  - constructor; cbn; try done.
    + rewrite Hperm. by apply renumber_typed.
    + apply (ri_typed R).
    + by rewrite Q1.
    + by rewrite Q2.
    + split; [intros E; rewrite E in Hu; apply zlen_pos in U2; change (zlen (@nil unwind_addr)) with 0 in Hu; lia|].
      split; [done|]. split; [intros E; rewrite E in Q1; by apply Permutation_nil_l in Q1|].
      split; [intros E; rewrite E in Q2; by apply Permutation_nil_l in Q2|done].
    + rewrite L1, Hn, Hu. done.
  - done.
  - done.
  - done.
  - done.
  - done.
Qed.

Hypothesis alloc : forall n, malloc_ok n = true.
Hypothesis io : ftruncate_ok = true /\ mmap_ok = true.

(** C8: The tool and the runtime agree: on a binary with the compiler's stack
    maps and unwinding records, [main] exits with 0 and writes a file that the
    runtime's [st_init] opens, through the same libelf, to a handle with one
    call site for every call the compiler recorded: its live values, its
    function and its unwinding records are those of the stack maps, and the
    runtime's searches by address, by identifier and by function find it. *)
Theorem tool_output_serves_runtime junk bin_fn start_id t :
  (forall i, uint 16 (junk i)) -> uint 64 start_id ->
  t_file t = file -> heap_ok t -> open_rdwr bin_fn <> -1 -> read_ok = true ->
  exists t', main junk bin_fn SECTION_PREFIX start_id t = Ret (0, t') /\
  forall (os : Os) files (w : world Elf) fn fuel,
    wf_memory (w_mem w) ->
    (exists p m, malloc sizeof_st_handle (w_mem w) = Ret (p, m) /\ p <> NULL) ->
    0 <= os_open (w_fds w) fn -> files (os_open (w_fds w) fn) = Some (t_file t') ->
    (length init + 5 < fuel)%nat ->
    exists o w', @st_init _ _ _ (runtime_libelf files) os fuel (Some fn) w = Ret (Some o, w') /\
      o_fn o = fn /\ serves (o_handle o) (eh_machine h) start_id (entries_of ms).
Proof using All.
  intros Hj Hst Hf Hh Hfd Hr.
  destruct (main_run alloc io I junk bin_fn start_id t Hj Hst Hf Hh Hfd Hr) as (t' & E & Ho & _).
  exists t'. split; [exact E|]. intros os files w fn fuel Hwf Hm Hopen Hfile Hfuel.
  destruct (output_complete files _ _ _ Ho Hfile) as (e & ndx & hd & Eb & Hl & Hc & Hn & Hs).
  destruct (@st_init_run _ _ _ _ (runtime_libelf_laws files) os fuel fn w e ndx hd Hwf Hm Hopen Eb Hc)
    as (o & w' & Ei & <- & Hfn); [lia|].
  exists o, w'. split; [exact Ei|]. split; [done|]. apply Hs.
  eapply complete_counts; [exact Hc|exact Hn].
Qed.
End runtime.
