(* ===== verification/ElfSample.v ===== *)
(** * The metadata tool: a small binary

    Five sections: the null section, the stack maps, the unwinding records and
    their ranges, and the table of section names.  The theorems on writing
    files and on the whole run apply to it. *)

From S2P Require Import Prelude Machine CallSite Lookup Init StackMap WriteMeta LibElf ElfUpdate ElfUtil WriteElf ElfSpec ElfDesc ElfRoundtrip ElfTool ElfAdd ElfUnwind ElfPlace ElfMetadata ElfMain ElfOutput ToolRuntime.
From stdpp Require Import strings.

#[local] Open Scope Z_scope.

Import Lib Tool.

Definition sample_strs : list Z :=
  mjoin ((fun s => string_bytes s ++ [0]) <$>
    ["" ; ".llvm_stackmaps"; ".stack_transform.unwind"; ".stack_transform.unwind_arange";
     ".shstrtab"]%string).

Definition sample_unwind : list unwind_addr := [UnwindAddr 0x2000 1 0; UnwindAddr 0x1000 2 0].

(** The name, the type, the size of an entry and the bytes of a section. *)
Definition sample_data : list (Z * Z * Z * list Z) :=
  [(1, 1, 0, encode_maps 0x700000 0 sample_maps);
   (17, 1, 4, encode_section encode_unwind_loc [UnwindLoc 1 2; UnwindLoc 3 4; UnwindLoc 5 6]);
   (41, 1, 16, encode_section encode_unwind_addr sample_unwind)].

Fixpoint sample_place (off : Z) (l : list (Z * Z * Z * list Z)) : contents :=
  match l with
  | [] => []
  | (name, ty, es, bs) :: l' =>
      (Shdr name ty 0 0 off (zlen bs) 0 0 1 es, bs) :: sample_place (off + zlen bs) l'
  end.

Definition sample_phdr : list Z := replicate 56 0.
Definition sample_data_end : Z :=
  120 + foldr Z.add 0 ((fun x => zlen x.2) <$> sample_data).
Definition sample_init : contents :=
  (Shdr 0 0 0 0 0 0 0 0 0 0, []) :: sample_place 120 sample_data.
Definition sample_rs : Elf64_Shdr :=
  Shdr 72 SHT_STRTAB 0 0 sample_data_end (zlen sample_strs) 0 0 1 0.

Definition sample_ehdr : Elf64_Ehdr :=
  Ehdr (ELFMAG ++ [2; 1; 1] ++ replicate 9 0) 2 EM_X86_64 1 0x1000 64
    (sample_data_end + zlen sample_strs) 0 64 56 1 64 5 4.

Definition sample_secs : contents := sample_init ++ [(sample_rs, sample_strs)].

Definition sample_file : list Z :=
  encode_ehdr sample_ehdr ++ sample_phdr ++ concat (sample_secs.*2) ++
  concat (encode_shdr <$> sample_secs.*1).

Definition sample_elf_env : Env :=
  {| malloc_ok := fun _ => true; heap_junk := fun _ => 0; sanity_check_strptr := true |}.
Definition sample_io : Io :=
  {| ftruncate_ok := true; lseek_ok := true; xwrite_ok := true; mmap_ok := true |}.
Definition sample_bin_env : BinEnv :=
  {| open_rdwr := fun _ => 3; read_ok := true; image_addr := 0x700000 - 120 |}.

#[export] Instance disjoint_regions_dec a b : Decision (disjoint_regions a b).
Proof. unfold disjoint_regions. apply _. Defined.

#[local] Instance uint_dec w x : Decision (uint w x).
Proof. unfold uint. apply _. Defined.

#[local] Instance at_offset_dec file off bs : Decision (at_offset file off bs).
Proof.
  unfold at_offset. destruct (slice file off (zlen bs)) as [l| | |];
    [destruct (decide (l = bs)); [left|right]; congruence|right; congruence..].
Defined.

#[local] Ltac by_decide := apply (bool_decide_unpack _); vm_compute; exact I.
#[local] Instance shdr_typed_dec r : Decision (shdr_typed r).
Proof.
  destruct (decide (Forall (uint 32) [sh_name r; sh_type r; sh_link r; sh_info r]));
    [destruct (decide (Forall (uint 64) [sh_flags r; sh_addr r; sh_offset r; sh_size r;
      sh_addralign r; sh_entsize r])); [by left|]|]; right; by intros [].
Defined.

#[local] Instance ordered_pairs_dec l : Decision (ForallOrdPairs disjoint_regions l).
Proof.
  induction l as [|a l IH]; [left; constructor|].
  destruct IH; [destruct (decide (Forall (disjoint_regions a) l)); [left; by constructor|]|];
    right; intros Hx; by inversion Hx.
Defined.

(** A section as it lies in the sample. *)
Definition sample_scn_ok (i : nat) (x : Elf64_Shdr * list Z) : bool :=
  bool_decide (shdr_typed x.1) &&
  bool_decide (at_offset sample_file (eh_shoff sample_ehdr + 64 * Z.of_nat i) (encode_shdr x.1)) &&
  bool_decide (sh_offset x.1 < 2 ^ 60 /\ sh_size x.1 < 2 ^ 60 /\
    (sh_entsize x.1 <> 0 \/ scn_entsize (sh_type x.1) <= 1)) &&
  (if has_data i x.1
   then negb (sh_type x.1 =? SHT_NOBITS) &&
     bool_decide (at_offset sample_file (sh_offset x.1) x.2 /\ zlen x.2 = sh_size x.1 /\
       zlen x.2 mod fsize (scn_type x.1) = 0)
   else bool_decide (x.2 = [])).

Lemma sample_scns i r bs : sample_secs !! i = Some (r, bs) -> sample_scn_ok i (r, bs) = true.
Proof.
  assert (E : forallb (fun '(i, x) => sample_scn_ok i x) (imap pair sample_secs) = true)
    by (vm_compute; reflexivity).
  intros Hi. rewrite forallb_forall in E. apply (E (i, (r, bs))). apply list_elem_of_In.
  apply list_elem_of_lookup. exists i. by rewrite list_lookup_imap, Hi.
Qed.

Lemma sample_scn i r bs : sample_secs !! i = Some (r, bs) ->
  shdr_typed r /\ at_offset sample_file (eh_shoff sample_ehdr + 64 * Z.of_nat i) (encode_shdr r) /\
  (sh_offset r < 2 ^ 60 /\ sh_size r < 2 ^ 60 /\ (sh_entsize r <> 0 \/ scn_entsize (sh_type r) <= 1)) /\
  (has_data i r = false -> bs = []) /\
  (has_data i r = true -> sh_type r <> SHT_NOBITS /\ at_offset sample_file (sh_offset r) bs /\
     zlen bs = sh_size r /\ zlen bs mod fsize (scn_type r) = 0).
Proof.
  intros Hi. apply sample_scns in Hi. unfold sample_scn_ok in Hi. cbn [fst snd] in Hi.
  apply andb_prop in Hi as [Hi H4]. apply andb_prop in Hi as [Hi H3].
  apply andb_prop in Hi as [H1 H2]. do 3 (split; [by eapply bool_decide_unpack, Is_true_true|]).
  destruct (has_data i r).
  - split; [done|]. intros _. apply andb_prop in H4 as [H4 H5]. split.
    + intros E. by rewrite E in H4.
    + by eapply bool_decide_unpack, Is_true_true.
  - split; [|done]. intros _. by eapply bool_decide_unpack, Is_true_true.
Qed.

Lemma sample_image : elf_image sample_file sample_ehdr sample_phdr sample_secs.*1.
Proof.
  constructor; try (by_decide).
  - constructor; by_decide.
  - intros i r Hi. rewrite list_lookup_fmap in Hi.
    destruct (sample_secs !! i) as [[r' bs]|] eqn:E; [|done]. injection Hi as <-.
    by destruct (sample_scn _ _ _ E) as (? & ? & _).
Qed.

Lemma sample_placed i r bs : sample_secs !! i = Some (r, bs) -> placed sample_file i r bs.
Proof.
  intros Hi. destruct (sample_scn _ _ _ Hi) as (H1 & _ & _ & H4 & H5).
  constructor; [done|done| |]; intros Hd Ht; by destruct (H5 Hd).
Qed.

Lemma sample_named : named_by sample_ehdr sample_secs 4 sample_strs.
Proof.
  constructor; [by_decide| | |by_decide].
  - by exists sample_rs.
  - by exists (take (length sample_strs - 1) sample_strs).
Qed.

Lemma sample_binary : binary sample_file sample_ehdr sample_phdr sample_init sample_rs sample_strs.
Proof.
  constructor.
  - exact sample_image.
  - exact sample_placed.
  - exact sample_named.
  - split; [|by_decide]. apply Forall_forall. intros [r bs] Hin.
    apply list_elem_of_lookup in Hin as [i Hi].
    destruct (sample_scn i r bs) as (H1 & _ & H3 & _); [|done].
    unfold sample_secs. rewrite lookup_app_l; [done|]. by eapply lookup_lt_Some.
  - by eexists.
  - by_decide.
  - by_decide.
  - by left.
Qed.

(** ** The whole run *)

Definition sample_header (i : nat) : Elf64_Shdr := default sample_rs (sample_init.*1 !! i).

Lemma sample_input : @metadata_input sample_bin_env sample_file sample_ehdr sample_phdr sample_init
  sample_rs sample_strs SECTION_PREFIX sample_maps sample_unwind.
Proof.
  constructor.
  - exact sample_binary.
  - split; [exact sample_maps_typed|]. split; [done|]. exists 1%nat, (sample_header 1).
    split; [vm_compute; reflexivity|]. split; [vm_compute; reflexivity|done].
  - split; [repeat first [apply List.Forall_nil|apply List.Forall_cons]; repeat split; simpl; lia|].
    split; [done|]. split; [by_decide|]. exists 3%nat, (sample_header 3).
    split; [vm_compute; reflexivity|]. split; [vm_compute; reflexivity|done].
  - by_decide.
  - apply List.Forall_forall. intros s Hs. repeat destruct Hs as [<-|Hs]; try (vm_compute; reflexivity). done.
  - apply List.Forall_forall. intros me Hs. repeat destruct Hs as [<-|Hs]; [|done].
    eexists _, (UnwindAddr 0x1000 2 0). split; [vm_compute; reflexivity|]. split; [by apply list_elem_of_In; right; left|].
    vm_compute. discriminate.
  - by_decide.
Qed.

Lemma main_writes_metadata_witness :
  let t := MkTool sample_file [0; 1; 2] None [] 16 0 [] in
  exists t', @main sample_elf_env sample_io sample_bin_env merge_qsort (fun _ => 0)
      (string_bytes "a.out") SECTION_PREFIX 100 t = Ret (0, t') /\
    @metadata_output sample_elf_env merge_qsort sample_ehdr sample_phdr sample_init sample_rs
      sample_strs SECTION_PREFIX 100 sample_maps sample_unwind (t_file t') /\
    t_fds t' = [0; 1; 2].
Proof.
  intros t. destruct (@main_writes_metadata sample_elf_env sample_io sample_bin_env merge_qsort
    merge_qsort_laws (fun _ => eq_refl) (conj eq_refl eq_refl) sample_file sample_ehdr sample_phdr
    sample_init sample_rs sample_strs SECTION_PREFIX sample_maps sample_unwind sample_input
    (fun _ => 0) (string_bytes "a.out") 100 t) as (t' & E & Ho & Hf & _).
  - intros i. split; [discriminate|reflexivity].
  - split; [discriminate|reflexivity].
  - reflexivity.
  - constructor; [reflexivity|reflexivity|apply List.Forall_nil|left; reflexivity].
  - discriminate.
  - reflexivity.
  - exists t'. split; [exact E|]. split; [exact Ho|exact Hf].
Defined.

(** ** Writing the sample and reading it back *)

Lemma sample_laid_out : laid_out sample_ehdr sample_phdr sample_secs.
Proof.
  constructor; try by_decide.
  - apply (im_typed _ _ _ _ sample_image).
  - intros r bs Hr. by injection Hr as <- <-.
  - intros i r bs Hi. destruct (sample_scn _ _ _ Hi) as (H1 & _ & H3 & _). done.
  - intros i r bs Hi Hd. destruct (sample_scn _ _ _ Hi) as (_ & _ & _ & _ & H5).
    destruct (H5 Hd) as (Hn & _ & Hb). by destruct (Z.eqb_spec (sh_type r) SHT_NOBITS).
Qed.

(** The file opened for writing, with the layout controlled by the program. *)
Definition sample_flags : Z := Z.lor ELF_F_LAYOUT ELF_F_LAYOUT_OVERLAP.
Definition sample_elf : Elf :=
  set_flags sample_flags ELF_F_DIRTY 0
    (opened_elf sample_file sample_ehdr sample_phdr sample_secs.*1 true).

Lemma elf_update_roundtrip_witness :
  exists file' e' e0 e1,
    @elf_update sample_elf_env sample_io sample_file sample_elf =
      Ret ((Some (zlen file'), file'), e') /\
    @elf_begin sample_elf_env (Some file') false = Some e0 /\ @cooked sample_elf_env e0 = Ret (true, e1) /\
    desc (0, 0, true, false) e1 sample_ehdr sample_phdr sample_secs.
Proof.
  apply (@elf_update_roundtrip sample_elf_env sample_io (sample_flags, ELF_F_DIRTY, true, true)).
  - reflexivity.
  - split; reflexivity.
  - exists sample_flags, ELF_F_DIRTY, true. split; [reflexivity|]. split; [reflexivity|].
    split; discriminate.
  - exact (desc_flags _ _ _ _ _ sample_flags ELF_F_DIRTY 0 (binary_desc sample_binary true)).
  - exact sample_laid_out.
Defined.

(** ** The runtime on the tool's output *)

Lemma sample_runtime_input :
  @runtime_input sample_init sample_rs sample_strs sample_maps sample_unwind
    [UnwindLoc 1 2; UnwindLoc 3 4; UnwindLoc 5 6].
Proof.
  constructor.
  - exists 2%nat, (sample_header 2). do 4 (split; [vm_compute; reflexivity|]). reflexivity.
  - repeat first [apply List.Forall_nil|apply List.Forall_cons]; repeat split; simpl; lia.
  - done.
  - by_decide.
Qed.

Definition sample_process : world Elf :=
  World Elf (Memory ∅ (fun _ => 0) [] 0x1000) [] [].

Lemma sample_process_wf : wf_memory (w_mem sample_process).
Proof.
  constructor; simpl; [intros b s Hb; by apply not_elem_of_nil in Hb| |constructor].
  unfold heap_limit. lia.
Qed.

Lemma sample_process_malloc :
  exists p m, malloc sizeof_st_handle (w_mem sample_process) = Ret (p, m) /\ p <> NULL.
Proof. eexists _, _. split; [vm_compute; reflexivity|discriminate]. Qed.

Lemma tool_output_serves_runtime_witness :
  let t := MkTool sample_file [0; 1; 2] None [] 16 0 [] in
  exists t' o w', @main sample_elf_env sample_io sample_bin_env merge_qsort (fun _ => 0)
      (string_bytes "a.out") SECTION_PREFIX 100 t = Ret (0, t') /\
    @st_init _ _ _ (@runtime_libelf sample_elf_env (fun _ => Some (t_file t'))) image_os 11
      (Some "a.out"%string) sample_process = Ret (Some o, w') /\
    serves (o_handle o) EM_X86_64 100 (entries_of sample_maps).
Proof.
  intros t. destruct (@tool_output_serves_runtime sample_elf_env sample_io sample_bin_env merge_qsort
    merge_qsort_laws sample_file sample_ehdr sample_phdr sample_init sample_rs sample_strs
    sample_maps sample_unwind _ sample_input sample_runtime_input (fun _ => eq_refl)
    (conj eq_refl eq_refl) (fun _ => 0) (string_bytes "a.out") 100 t) as (t' & E & Hrun).
  - intros i. split; [discriminate|reflexivity].
  - split; [discriminate|reflexivity].
  - reflexivity.
  - constructor; [reflexivity|reflexivity|apply List.Forall_nil|left; reflexivity].
  - discriminate.
  - reflexivity.
  - destruct (Hrun image_os (fun _ => Some (t_file t')) sample_process "a.out"%string 11%nat)
      as (o & w' & Ei & _ & Hs).
    + exact sample_process_wf.
    + exact sample_process_malloc.
    + discriminate.
    + reflexivity.
    + vm_compute. lia.
    + exists t', o, w'. split; [exact E|]. split; [exact Ei|exact Hs].
Defined.
