(* ===== verification/Schedule.v ===== *)
(** * Work-sharing schedules (src/lib/libbomp/kmp.c)

    The compiler calls [__kmpc_for_static_init_{4,4u,8,8u}] at the start of a
    statically scheduled loop to learn which iterations the calling thread
    runs.  The macro is translated once, for any of its four integer types,
    with the usual arithmetic conversions and with overflow undefined on the
    signed types.  The theorems show that the threads' ranges partition the
    iteration space. *)

From S2P Require Import Prelude.

(** ** Integer types *)

(** [TYPE] of the macro. *)
Record int_type := IntType { ity_width : Z; ity_signed : bool }.

Definition int32_t := IntType 32 true.
Definition uint32_t := IntType 32 false.
Definition int64_t := IntType 64 true.
Definition uint64_t := IntType 64 false.

Definition ity_min (t : int_type) : Z :=
  if ity_signed t then - 2 ^ (ity_width t - 1) else 0.

Definition ity_max (t : int_type) : Z :=
  if ity_signed t then 2 ^ (ity_width t - 1) - 1 else 2 ^ ity_width t - 1.

(** Conversion to the type, and the result of an operation on it. *)
Definition conv (t : int_type) (z : Z) : Z :=
  if ity_signed t then signed (ity_width t) z else wrap (ity_width t) z.

Definition arith (t : int_type) (z : Z) : outcome Z :=
  if ity_signed t then
    if (ity_min t <=? z) && (z <=? ity_max t) then Ret z else Fault
  else Ret (wrap (ity_width t) z).

Definition quot (t : int_type) (a b : Z) : outcome Z :=
  if b =? 0 then Fault else arith t (Z.quot a b).

Definition rem (t : int_type) (a b : Z) : outcome Z :=
  if b =? 0 then Fault else _ ← arith t (Z.quot a b); Ret (Z.rem a b).

(** A failed [assert]: the process dies of SIGABRT. *)
Definition abort {A} : outcome A := Exit 134.

(** ** Definitions *)

(** [enum sched_type] *)
Definition kmp_sch_static_chunked : Z := 33.
Definition kmp_sch_static : Z := 34.

(** The variables the caller passes by reference; [plastiter] may be NULL. *)
Record loop_bounds := LoopBounds {
  plower : Z; pupper : Z; pstride : Z; plastiter : option Z
}.

Definition total_trips (t : int_type) (lower upper incr : Z) : outcome Z :=
  if incr =? 1 then d ← arith t (upper - lower); arith t (d + 1)
  else if incr =? conv t (-1) then d ← arith t (lower - upper); arith t (d + 1)
  else if 1 <? incr then
    d ← arith t (upper - lower); q ← quot t d incr; arith t (q + 1)
  else
    d ← arith t (lower - upper); m ← arith t (- incr);
    q ← quot t d m; arith t (q + 1).

(** [if(plastiter != NULL) *plastiter = flag] *)
Definition set_last (flag : outcome bool) (b : loop_bounds) : outcome loop_bounds :=
  match plastiter b with
  | None => Ret b
  | Some _ =>
      f ← flag;
      Ret (LoopBounds (plower b) (pupper b) (pstride b) (Some (Z.b2z f)))
  end.

(** [case kmp_sch_static]; [gtid] is the thread's number converted to the type. *)
Definition static_bounds (t : int_type) (nthreads tid trips incr : Z)
    (b : loop_bounds) : outcome loop_bounds :=
  let gtid := conv t tid in
  if trips <? conv t nthreads then
    b' ← (if gtid <? trips then
            g ← arith t (gtid * incr); x ← arith t (plower b + g);
            Ret (LoopBounds x x (pstride b) (plastiter b))
          else
            x ← arith t (pupper b + incr);
            Ret (LoopBounds x (pupper b) (pstride b) (plastiter b)));
    set_last (last ← arith t (trips - 1); Ret (gtid =? last)) b'
  else
    chunk ← quot t trips (conv t nthreads);
    extras ← rem t trips (conv t nthreads);
    g ← arith t (gtid * chunk);
    s ← arith t (g + (if gtid <? extras then gtid else extras));
    m ← arith t (incr * s);
    lower ← arith t (plower b + m);
    c ← arith t (chunk * incr);
    u ← arith t (lower + c);
    upper ← arith t (u - (if gtid <? extras then 0 else incr));
    set_last (Ret (tid =? nthreads - 1))
      (LoopBounds lower upper (pstride b) (plastiter b)).

(** [case kmp_sch_static_chunked] *)
Definition chunked_bounds (t : int_type) (nthreads tid trips incr chunk : Z)
    (b : loop_bounds) : outcome loop_bounds :=
  let gtid := conv t tid in
  let chunk := if chunk <? 1 then 1 else chunk in
  span ← arith t (chunk * incr);
  stride ← arith t (span * conv t nthreads);
  g ← arith t (span * gtid);
  lower ← arith t (plower b + g);
  u ← arith t (lower + span);
  upper ← arith t (u - incr);
  set_last
    (last ← arith t (trips - 1);
     q ← quot t last chunk;
     r ← rem t q (conv t nthreads);
     Ret (gtid =? r))
    (LoopBounds lower upper stride (plastiter b)).

Definition kmpc_for_static_init (t : int_type) (nthreads gtid schedtype : Z)
    (b : loop_bounds) (incr chunk : Z) : outcome loop_bounds :=
  trips ← total_trips t (plower b) (pupper b) incr;
  if schedtype =? kmp_sch_static then static_bounds t nthreads gtid trips incr b
  else if schedtype =? kmp_sch_static_chunked then
    chunked_bounds t nthreads gtid trips incr chunk b
  else abort.

Definition kmpc_for_static_init_4 := kmpc_for_static_init int32_t.
Definition kmpc_for_static_init_4u := kmpc_for_static_init uint32_t.
Definition kmpc_for_static_init_8 := kmpc_for_static_init int64_t.
Definition kmpc_for_static_init_8u := kmpc_for_static_init uint64_t.

(** Dynamic schedules are not implemented. *)
Definition kmpc_dispatch_init_4 (lb ub st chunk : Z) : outcome () := abort.
Definition kmpc_dispatch_next_4 : outcome Z := abort.
Definition kmpc_dispatch_fini_4 : outcome () := abort.

Definition kmpc_master (global_tid : Z) : Z := if global_tid =? 0 then 1 else 0.

(** ** Specification *)

(** The iterations of [for(i = l; i <= u; i += s)], respectively [i >= u] for
    a negative step. *)
Definition trips_of (l u s : Z) : Z :=
  if 0 <? s then (u - l) / s + 1 else (l - u) / (- s) + 1.

Definition loop_iters (l u s : Z) : list Z :=
  (fun k => l + k * s) <$> seqZ 0 (trips_of l u s).

(** What the compiler's loop around a chunked schedule runs in its [c]-th
    round: the thread's chunk moved [c] strides ahead, cut at the loop's end. *)
Definition chunk_iters (b : loop_bounds) (u s c : Z) : list Z :=
  filter (fun i => (if 0 <? s then i <=? u else u <=? i) = true)
    (loop_iters (plower b + c * pstride b) (pupper b + c * pstride b) s).

(** A non-empty loop whose bounds, step and length the type can hold.  The
    unsigned variants are only right for upward loops and for the step -1, see
    [unsigned_step_skips]. *)
Record loop_fits (t : int_type) (nthreads l u s : Z) : Prop := LoopFits {
  fits_width : 32 <= ity_width t;
  fits_threads : 0 < nthreads < 2 ^ 31;
  fits_l : ity_min t <= l <= ity_max t;
  fits_u : ity_min t <= u <= ity_max t;
  fits_end : ity_min t <= u + s <= ity_max t;
  fits_dir : 0 < s /\ l <= u \/ s < 0 /\ u <= l;
  fits_step : ity_signed t = false -> -1 <= s;
  fits_span : Z.abs (u - l) + Z.abs s <= ity_max t
}.

(** [v] is the value of the type that stands for the integer [z]: signed
    computations must not leave the type, unsigned ones wrap around. *)
Definition rep (t : int_type) (v z : Z) : Prop :=
  v = conv t z /\ (ity_signed t = true -> ity_min t <= z <= ity_max t).

(** ** Arithmetic of the type *)

Lemma conv_id t z : 0 < ity_width t -> ity_min t <= z <= ity_max t -> conv t z = z.
Proof.
  unfold conv, ity_min, ity_max, signed. intros Hw Hz.
  assert (2 ^ ity_width t = 2 * 2 ^ (ity_width t - 1))
    by (rewrite <- Z.pow_succ_r by lia; f_equal; lia).
  destruct (ity_signed t); [|apply wrap_small; lia].
  destruct (decide (0 <= z)).
  - rewrite wrap_small by lia. destruct (Z.ltb_spec z (2 ^ (ity_width t - 1))); lia.
  - assert (wrap (ity_width t) z = z + 2 ^ ity_width t) as ->.
    { unfold wrap. rewrite <- (Z_mod_plus_full z 1), Z.mul_1_l.
      apply Z.mod_small. lia. }
    destruct (Z.ltb_spec (z + 2 ^ ity_width t) (2 ^ (ity_width t - 1))); lia.
Qed.

Lemma rep_id t z : 0 < ity_width t -> ity_min t <= z <= ity_max t -> rep t z z.
Proof. intros. split; [by rewrite conv_id|done]. Qed.

Lemma rep_value t v z : 0 < ity_width t -> ity_min t <= z <= ity_max t -> rep t v z -> v = z.
Proof. intros ? ? [-> _]. by apply conv_id. Qed.

Lemma arith_rep t (f : Z -> Z -> Z) v1 v2 z1 z2 :
  0 < ity_width t ->
  (forall w a b, wrap w (f (wrap w a) (wrap w b)) = wrap w (f a b)) ->
  rep t v1 z1 -> rep t v2 z2 ->
  (ity_signed t = true -> ity_min t <= f z1 z2 <= ity_max t) ->
  exists v, arith t (f v1 v2) = Ret v /\ rep t v (f z1 z2).
Proof.
  intros Hw Hf [-> H1] [-> H2] H. exists (conv t (f z1 z2)). split; [|by split].
  unfold arith. destruct (ity_signed t) eqn:E.
  - rewrite !conv_id by auto. destruct H as [? ?]; [done|].
    by rewrite !(proj2 (Z.leb_le _ _)).
  - unfold conv. by rewrite E, Hf.
Qed.

Lemma rep_add t v1 v2 z1 z2 :
  0 < ity_width t -> rep t v1 z1 -> rep t v2 z2 ->
  (ity_signed t = true -> ity_min t <= z1 + z2 <= ity_max t) ->
  exists v, arith t (v1 + v2) = Ret v /\ rep t v (z1 + z2).
Proof.
  intros. apply (arith_rep t Z.add); try done.
  intros w a b. unfold wrap. by rewrite <- Zplus_mod.
Qed.

Lemma rep_sub t v1 v2 z1 z2 :
  0 < ity_width t -> rep t v1 z1 -> rep t v2 z2 ->
  (ity_signed t = true -> ity_min t <= z1 - z2 <= ity_max t) ->
  exists v, arith t (v1 - v2) = Ret v /\ rep t v (z1 - z2).
Proof.
  intros. apply (arith_rep t Z.sub); try done.
  intros w a b. unfold wrap. by rewrite <- Zminus_mod.
Qed.

Lemma rep_mul t v1 v2 z1 z2 :
  0 < ity_width t -> rep t v1 z1 -> rep t v2 z2 ->
  (ity_signed t = true -> ity_min t <= z1 * z2 <= ity_max t) ->
  exists v, arith t (v1 * v2) = Ret v /\ rep t v (z1 * z2).
Proof.
  intros. apply (arith_rep t Z.mul); try done.
  intros w a b. unfold wrap. by rewrite <- Zmult_mod.
Qed.

(** Division of non-negative values. *)
Lemma arith_in t z : ity_min t <= z <= ity_max t -> arith t z = Ret z.
Proof.
  unfold arith, ity_min, ity_max. intros. destruct (ity_signed t).
  - by rewrite !(proj2 (Z.leb_le _ _)) by lia.
  - rewrite wrap_small; [done|lia].
Qed.

Lemma ity_min_nonpos t : 0 < ity_width t -> ity_min t <= 0.
Proof.
  intros. unfold ity_min. destruct (ity_signed t); [|lia].
  pose proof (Z.pow_pos_nonneg 2 (ity_width t - 1)). lia.
Qed.

Lemma ity_max_nonneg t : 0 < ity_width t -> 0 <= ity_max t.
Proof.
  intros. unfold ity_max. pose proof (Z.pow_pos_nonneg 2 (ity_width t - 1)).
  pose proof (Z.pow_pos_nonneg 2 (ity_width t)). destruct (ity_signed t); lia.
Qed.

Lemma quot_div t a b :
  0 < ity_width t -> 0 <= a <= ity_max t -> 0 < b -> quot t a b = Ret (a / b).
Proof.
  intros Hw Ha Hb. pose proof (ity_min_nonpos t Hw).
  unfold quot. rewrite (proj2 (Z.eqb_neq b 0)), Z.quot_div_nonneg by lia.
  apply arith_in. pose proof (Z.div_pos a b). pose proof (Z.div_le_upper_bound a b a). nia.
Qed.

Lemma rem_mod t a b :
  0 < ity_width t -> 0 <= a <= ity_max t -> 0 < b -> rem t a b = Ret (a mod b).
Proof.
  intros Hw Ha Hb. pose proof (quot_div t a b Hw Ha Hb) as Hq. unfold quot in Hq. unfold rem.
  destruct (b =? 0); [done|]. rewrite Hq. cbn. by rewrite Z.rem_mod_nonneg by lia.
Qed.

(** ** The iteration space *)

Lemma trips_pos t n l u s : loop_fits t n l u s -> 0 < trips_of l u s.
Proof.
  intros [_ _ _ _ _ H _ _]. unfold trips_of. destruct (Z.ltb_spec 0 s).
  - pose proof (Z.div_pos (u - l) s). lia.
  - pose proof (Z.div_pos (l - u) (- s)). lia.
Qed.

(** The last iteration lies before the loop's end, by less than a step. *)
Lemma trips_last l u s :
  0 < s /\ l <= u \/ s < 0 /\ u <= l ->
  (0 < s -> u - s < l + (trips_of l u s - 1) * s <= u) /\
  (s < 0 -> u <= l + (trips_of l u s - 1) * s < u - s).
Proof.
  intros Hd. unfold trips_of. split; intros Hs.
  - rewrite (proj2 (Z.ltb_lt 0 s)) by lia.
    pose proof (Z.div_mod (u - l) s). pose proof (Z.mod_pos_bound (u - l) s). nia.
  - rewrite (proj2 (Z.ltb_ge 0 s)) by lia.
    pose proof (Z.div_mod (l - u) (- s)). pose proof (Z.mod_pos_bound (l - u) (- s)). nia.
Qed.

(** A multiple of the step within the loop stays within the loop's length. *)
Lemma trips_span t n l u s k :
  loop_fits t n l u s -> 0 <= k <= trips_of l u s ->
  (0 < s -> 0 <= k * s <= u - l + s) /\ (s < 0 -> u - l + s <= k * s <= 0).
Proof.
  intros Hf Hk. destruct (trips_last l u s (fits_dir _ _ _ _ _ Hf)) as [H1 H2].
  split; intros Hs; [specialize (H1 Hs)|specialize (H2 Hs)]; nia.
Qed.

Lemma trips_fit t n l u s : loop_fits t n l u s -> trips_of l u s <= ity_max t.
Proof.
  intros Hf. pose proof (trips_span t n l u s _ Hf (conj (Z.lt_le_incl _ _ (trips_pos _ _ _ _ _ Hf)) (Z.le_refl _))).
  pose proof (trips_pos _ _ _ _ _ Hf). destruct Hf. nia.
Qed.

Lemma rep_step t n l u s : loop_fits t n l u s -> rep t (conv t s) s.
Proof.
  intros []. split; [done|]. intros Hs. unfold ity_max, ity_min in *. rewrite Hs in *. lia.
Qed.

Lemma conv_m1 t : 32 <= ity_width t ->
  conv t (-1) = if ity_signed t then -1 else 2 ^ ity_width t - 1.
Proof.
  intros Hw. assert (1 < 2 ^ (ity_width t - 1)) by (apply Z.pow_gt_1; lia).
  destruct (ity_signed t) eqn:Hs.
  - apply conv_id; [lia|]. unfold ity_min, ity_max. rewrite Hs. lia.
  - assert (1 < 2 ^ ity_width t) by (apply Z.pow_gt_1; lia).
    unfold conv, wrap. rewrite Hs, <- (Z_mod_plus_full (-1) 1), Z.mul_1_l.
    rewrite Z.mod_small; lia.
Qed.

(** The step's value: only the step -1 of an unsigned loop wraps around. *)
Lemma conv_step t n l u s : loop_fits t n l u s ->
  conv t s = s /\ (ity_signed t = false -> 0 < s) \/
  ity_signed t = false /\ s = -1 /\ conv t s = 2 ^ ity_width t - 1.
Proof.
  intros []. pose proof (ity_min_nonpos t ltac:(lia)).
  destruct (ity_signed t) eqn:Hs.
  - left. split; [|done]. apply conv_id; [lia|]. unfold ity_min, ity_max in *. rewrite Hs in *. lia.
  - specialize (fits_step0 eq_refl). destruct (decide (s = -1)) as [->|].
    + right. by rewrite conv_m1, Hs by lia.
    + left. split; [|lia]. apply conv_id; [lia|]. unfold ity_min in *. rewrite Hs in *. lia.
Qed.

Lemma total_trips_up t n l u s :
  loop_fits t n l u s -> 0 < s -> total_trips t l u (conv t s) = Ret (trips_of l u s).
Proof.
  intros Hf Hs. pose proof (trips_fit _ _ _ _ _ Hf) as HT.
  pose proof (trips_pos _ _ _ _ _ Hf) as HT0. revert HT HT0.
  destruct (conv_step _ _ _ _ _ Hf) as [[-> _]|(_ & ? & _)]; [|lia].
  destruct Hf as [Hw _ Hl Hu He Hd Hst Hsp]. unfold total_trips, trips_of.
  pose proof (ity_min_nonpos t ltac:(lia)) as Hmin. rewrite (proj2 (Z.ltb_lt 0 s)) by lia.
  rewrite conv_m1 by done. intros HT HT0. destruct (Z.eqb_spec s 1) as [->|H1].
  { rewrite Z.div_1_r in *. rewrite arith_in by lia. cbn. apply arith_in; lia. }
  destruct (Z.eqb_spec s (if ity_signed t then -1 else 2 ^ ity_width t - 1)) as [Hm|_].
  - assert (l = u) as ->.
    { unfold ity_min, ity_max in *. destruct (ity_signed t); lia. }
    rewrite Z.sub_diag, Z.div_0_l in * by lia.
    rewrite arith_in by lia. cbn. by apply arith_in; lia.
  - rewrite (proj2 (Z.ltb_lt 1 s)) by lia. rewrite arith_in by lia. cbn.
    rewrite quot_div by lia. cbn. apply arith_in. lia.
Qed.

Lemma total_trips_down t n l u s :
  loop_fits t n l u s -> s < 0 -> total_trips t l u (conv t s) = Ret (trips_of l u s).
Proof.
  intros Hf Hs. pose proof (trips_fit _ _ _ _ _ Hf) as HT.
  pose proof (trips_pos _ _ _ _ _ Hf) as HT0. revert HT HT0.
  pose proof (conv_step _ _ _ _ _ Hf) as Hc.
  destruct Hf as [Hw _ Hl Hu He Hd Hst Hsp]. unfold total_trips, trips_of.
  pose proof (ity_min_nonpos t ltac:(lia)) as Hmin. rewrite (proj2 (Z.ltb_ge 0 s)) by lia.
  assert (1 < 2 ^ ity_width t - 1).
  { assert (4 <= 2 ^ ity_width t) by (apply (Z.pow_le_mono_r 2 2); lia). lia. }
  assert (conv t s =? 1 = false) as -> by (apply Z.eqb_neq; destruct Hc; naive_solver lia).
  intros HT HT0. destruct (decide (s = -1)) as [->|Hne].
  { rewrite Z.eqb_refl, Z.div_1_r in *. rewrite arith_in by lia. cbn. apply arith_in; lia. }
  destruct Hc as [[-> Hup]|(_ & ? & _)]; [|lia].
  rewrite conv_m1 by done. destruct (ity_signed t); [|specialize (Hup eq_refl); lia].
  rewrite (proj2 (Z.eqb_neq s (-1))), (proj2 (Z.ltb_ge 1 s)) by lia.
  rewrite arith_in by lia. cbn. rewrite arith_in by lia. cbn.
  rewrite quot_div by lia. cbn. apply arith_in. lia.
Qed.

Lemma total_trips_correct t n l u s :
  loop_fits t n l u s -> total_trips t l u (conv t s) = Ret (trips_of l u s).
Proof.
  intros Hf. destruct (fits_dir _ _ _ _ _ Hf) as [[? _]|[? _]].
  - by eapply total_trips_up.
  - by eapply total_trips_down.
Qed.

Lemma iter_fits t n l u s k :
  loop_fits t n l u s -> 0 <= k <= trips_of l u s -> ity_min t <= l + k * s <= ity_max t.
Proof.
  intros Hf Hk. pose proof (trips_span _ _ _ _ _ _ Hf Hk).
  destruct Hf as [_ _ Hl Hu He Hd _ _]. lia.
Qed.

Lemma iter_rep t n l u s k :
  loop_fits t n l u s -> 0 <= k <= trips_of l u s ->
  ity_signed t = true -> ity_min t <= k * s <= ity_max t.
Proof.
  intros Hf Hk Hs. pose proof (trips_span _ _ _ _ _ _ Hf Hk).
  destruct Hf as [_ _ _ _ _ Hd _ Hsp]. unfold ity_min, ity_max in *. rewrite Hs in *. lia.
Qed.

Lemma count_fits t n l u s k :
  loop_fits t n l u s -> 0 <= k <= trips_of l u s -> ity_min t <= k <= ity_max t.
Proof.
  intros Hf Hk. pose proof (trips_fit _ _ _ _ _ Hf). destruct Hf.
  pose proof (ity_min_nonpos t ltac:(lia)). lia.
Qed.

Lemma thread_fits t n l u s k :
  loop_fits t n l u s -> 0 <= k <= n -> ity_min t <= k <= ity_max t.
Proof.
  intros [Hw Hn _ _ _ _ _ _] Hk. pose proof (ity_min_nonpos t ltac:(lia)).
  assert (2 ^ 31 <= 2 ^ (ity_width t - 1)) by (apply Z.pow_le_mono_r; lia).
  assert (2 ^ 31 <= 2 ^ ity_width t) by (apply Z.pow_le_mono_r; lia).
  unfold ity_max, ity_min in *. destruct (ity_signed t); lia.
Qed.

Lemma loop_fits_width t n l u s : loop_fits t n l u s -> 0 < ity_width t.
Proof. intros []. lia. Qed.

Lemma loop_fits_step t n l u s : loop_fits t n l u s -> s <> 0.
Proof. intros [_ _ _ _ _ ? _ _]. lia. Qed.

#[local] Hint Resolve loop_fits_width loop_fits_step rep_step rep_id iter_fits iter_rep
  count_fits thread_fits : schedule.

Lemma trips_of_affine l s a len :
  s <> 0 -> trips_of (l + a * s) (l + (a + len - 1) * s) s = len.
Proof.
  intros Hs. unfold trips_of. destruct (Z.ltb_spec 0 s).
  - replace (l + (a + len - 1) * s - (l + a * s)) with ((len - 1) * s) by lia.
    rewrite Z.div_mul; lia.
  - replace (l + a * s - (l + (a + len - 1) * s)) with ((len - 1) * (- s)) by lia.
    rewrite Z.div_mul; lia.
Qed.

(** Consecutive iterations are again an iteration space. *)
Lemma loop_iters_affine l s a len :
  s <> 0 ->
  loop_iters (l + a * s) (l + (a + len - 1) * s) s = (fun k => l + k * s) <$> seqZ a len.
Proof.
  intros Hs. unfold loop_iters. rewrite trips_of_affine by done.
  replace (seqZ a len) with (seqZ (a + 0) len) by (f_equal; lia).
  rewrite <- fmap_add_seqZ, <- list_fmap_compose.
  apply list_fmap_ext. intros i k _. cbn. lia.
Qed.

Lemma loop_iters_empty u s : s <> 0 -> loop_iters (u + s) u s = [].
Proof.
  intros. replace (loop_iters (u + s) u s) with (loop_iters (u + 1 * s) (u + (1 + 0 - 1) * s) s)
    by (f_equal; lia).
  by rewrite loop_iters_affine.
Qed.

(** *** The static schedule *)

(** The number of the first iteration of a thread: the first [extras] threads
    get one iteration more. *)
Definition static_start (n T tid : Z) : Z := tid * (T / n) + Z.min tid (T mod n).

Lemma static_start_bounds n T tid :
  0 < n -> 0 <= T -> 0 <= tid < n ->
  0 <= static_start n T tid /\ static_start n T tid <= static_start n T (tid + 1) <= T /\
  static_start n T (tid + 1) - static_start n T tid = T / n + (if tid <? T mod n then 1 else 0).
Proof.
  intros Hn HT Ht. unfold static_start.
  pose proof (Z.div_mod T n). pose proof (Z.mod_pos_bound T n). pose proof (Z.div_pos T n).
  destruct (Z.ltb_spec tid (T mod n)); nia.
Qed.

Lemma static_start_0 n T : 0 < n -> static_start n T 0 = 0.
Proof. intros. unfold static_start. pose proof (Z.mod_pos_bound T n). lia. Qed.

Lemma static_start_n n T : 0 < n -> static_start n T n = T.
Proof.
  intros. unfold static_start. pose proof (Z.mod_pos_bound T n). pose proof (Z.div_mod T n). lia.
Qed.

(** What the static schedule gives to thread [tid]. *)
Definition static_share (l u s n tid : Z) (b b' : loop_bounds) : Prop :=
  let T := trips_of l u s in
  let first := static_start n T tid in
  let next := static_start n T (tid + 1) in
  loop_iters (plower b') (pupper b') s = (fun k => l + k * s) <$> seqZ first (next - first) /\
  pstride b' = pstride b /\
  plastiter b' = (fun _ => Z.b2z (bool_decide (first < T /\ next = T))) <$> plastiter b.

Lemma set_last_spec f v b :
  f = Ret v -> set_last f b = Ret (LoopBounds (plower b) (pupper b) (pstride b) ((fun _ => Z.b2z v) <$> plastiter b)).
Proof. intros ->. destruct b as [? ? ? [|]]; done. Qed.

(** The address computations common to the schedules: [k] steps from the
    [j]-th iteration. *)
Lemma affine_rep t n l u s j k :
  loop_fits t n l u s -> 0 <= j -> 0 <= k -> j + k <= trips_of l u s ->
  exists g, arith t (k * conv t s) = Ret g /\ arith t (l + j * s + g) = Ret (l + (j + k) * s).
Proof.
  intros Hf Hj Hk HT. pose proof (loop_fits_width _ _ _ _ _ Hf) as Hw.
  destruct (rep_mul t k (conv t s) k s) as (g & Hg & Hrg); [done|..].
  - apply rep_id; [done|]. apply (count_fits t n l u s); [done|lia].
  - eauto with schedule.
  - apply (iter_rep t n l u s); [done|lia].
  - exists g. split; [done|].
    assert (ity_min t <= l + (j + k) * s <= ity_max t)
      by (apply (iter_fits t n l u s); [done|lia]).
    destruct (rep_add t (l + j * s) g (l + j * s) (k * s)) as (x & Hx & Hrx); [done|..|done| |].
    + apply rep_id; [done|]. apply (iter_fits t n l u s); [done|lia].
    + intros _. lia.
    + rewrite Hx. f_equal. apply (rep_value t); [done..|].
      by replace (l + (j + k) * s) with (l + j * s + k * s) by lia.
Qed.

Lemma past_end t n l u s : loop_fits t n l u s -> arith t (u + conv t s) = Ret (u + s).
Proof.
  intros Hf. pose proof (rep_step _ _ _ _ _ Hf). pose proof (loop_fits_width _ _ _ _ _ Hf).
  destruct Hf as [? _ ? ? He ? ? ?].
  destruct (rep_add t u (conv t s) u s) as (x & -> & Hx); [done|by apply rep_id|done..|].
  f_equal. by apply (rep_value t).
Qed.

Lemma flag_ext (c d : bool) (o : option Z) :
  c = d -> (fun _ => Z.b2z c) <$> o = (fun _ => Z.b2z d) <$> o.
Proof. by intros ->. Qed.

Lemma static_few t n l u s tid b :
  loop_fits t n l u s -> 0 <= tid < n -> trips_of l u s < n ->
  plower b = l -> pupper b = u ->
  exists b', static_bounds t n tid (trips_of l u s) (conv t s) b = Ret b' /\
    static_share l u s n tid b b'.
Proof.
  intros Hf Ht HT Hl Hu. pose proof (trips_pos _ _ _ _ _ Hf) as HT0.
  pose proof (loop_fits_width _ _ _ _ _ Hf) as Hw. pose proof (loop_fits_step _ _ _ _ _ Hf) as Hs.
  unfold static_bounds, static_share, static_start.
  rewrite Z.div_small, Z.mod_small by lia.
  rewrite (conv_id t tid), (conv_id t n) by (eauto with schedule lia).
  rewrite (proj2 (Z.ltb_lt _ n)) by done.
  rewrite (arith_in t (trips_of l u s - 1)) by (apply (count_fits t n l u s); [done|lia]).
  cbn [mbind outcome_bind]. rewrite Hl, Hu. destruct (Z.ltb_spec tid (trips_of l u s)).
  - destruct (affine_rep t n l u s 0 tid Hf) as (g & -> & Hg); [lia..|].
    cbn [mbind outcome_bind]. replace (l + g) with (l + 0 * s + g) by lia. rewrite Hg.
    cbn [mbind outcome_bind]. eexists. split; [by apply set_last_spec|]. cbn. split_and!; [|done|].
    + rewrite <- loop_iters_affine by done. f_equal; f_equal; f_equal; lia.
    + apply flag_ext. case_bool_decide; destruct (Z.eqb_spec tid (trips_of l u s - 1)); lia.
  - rewrite (past_end t n l u s Hf).
    cbn [mbind outcome_bind]. eexists. split; [by apply set_last_spec|]. cbn. split_and!; [|done|].
    + rewrite loop_iters_empty, seqZ_nil by lia. done.
    + apply flag_ext. case_bool_decide; destruct (Z.eqb_spec tid (trips_of l u s - 1)); lia.
Qed.

Lemma last_rep t n l u s j k :
  loop_fits t n l u s -> 0 <= j <= trips_of l u s -> k = j - 1 -> 0 <= k ->
  arith t (l + j * s - conv t s) = Ret (l + k * s).
Proof.
  intros Hf Hj -> Hk. pose proof (loop_fits_width _ _ _ _ _ Hf) as Hw.
  assert (ity_min t <= l + (j - 1) * s <= ity_max t)
    by (apply (iter_fits t n l u s); [done|lia]).
  destruct (rep_sub t (l + j * s) (conv t s) (l + j * s) s) as (x & -> & Hx); [done|..].
  - apply rep_id; [done|]. by apply (iter_fits t n l u s).
  - by eapply rep_step.
  - lia.
  - f_equal. apply (rep_value t); [done..|].
    by replace (l + (j - 1) * s) with (l + j * s - s) by lia.
Qed.

Lemma static_last n T tid :
  0 <= tid < n -> n <= T -> static_start n T (tid + 1) = T <-> tid = n - 1.
Proof.
  intros Ht HT. assert (1 <= T / n) by (apply Z.div_le_lower_bound; lia).
  split; [|intros ->; rewrite Z.sub_add; apply static_start_n; lia].
  intros He. destruct (decide (tid = n - 1)); [done|].
  destruct (static_start_bounds n T (tid + 1)) as (_ & ? & Hd); [lia..|].
  destruct (tid + 1 <? T mod n); lia.
Qed.

Lemma static_many t n l u s tid b :
  loop_fits t n l u s -> 0 <= tid < n -> n <= trips_of l u s ->
  plower b = l -> pupper b = u ->
  exists b', static_bounds t n tid (trips_of l u s) (conv t s) b = Ret b' /\
    static_share l u s n tid b b'.
Proof.
  intros Hf Ht HT Hl Hu. pose proof (trips_pos _ _ _ _ _ Hf) as HT0.
  pose proof (loop_fits_width _ _ _ _ _ Hf) as Hw. pose proof (loop_fits_step _ _ _ _ _ Hf) as Hs.
  pose proof (trips_fit _ _ _ _ _ Hf) as HTm.
  pose proof (static_start_bounds n (trips_of l u s) tid) as Hb.
  unfold static_bounds, static_share.
  rewrite (conv_id t tid), (conv_id t n) by (eauto with schedule lia).
  rewrite (proj2 (Z.ltb_ge _ n)), quot_div, rem_mod by lia. cbn [mbind outcome_bind].
  destruct Hb as (H0 & [H1 H2] & H3); [lia..|].
  pose proof (Z.div_mod (trips_of l u s) n ltac:(lia)) as Hdm. pose proof (Z.mod_pos_bound (trips_of l u s) n ltac:(lia)) as Hm.
  assert (1 <= (trips_of l u s) / n) by (apply Z.div_le_lower_bound; lia).
  rewrite (arith_in t (tid * ((trips_of l u s) / n))) by (apply (count_fits t n l u s); [done|nia]).
  cbn [mbind outcome_bind].
  assert (tid * ((trips_of l u s) / n) + (if tid <? (trips_of l u s) mod n then tid else (trips_of l u s) mod n) = static_start n (trips_of l u s) tid) as ->.
  { unfold static_start. destruct (Z.ltb_spec tid ((trips_of l u s) mod n)); lia. }
  rewrite (arith_in t (static_start n (trips_of l u s) tid)) by (apply (count_fits t n l u s); [done|lia]).
  cbn [mbind outcome_bind].
  destruct (affine_rep t n l u s 0 (static_start n (trips_of l u s) tid) Hf) as (g & Hg & Hlo); [lia..|].
  rewrite (Z.mul_comm (conv t s)), Hg, Hl. cbn [mbind outcome_bind].
  rewrite Z.mul_0_l, Z.add_0_r, Z.add_0_l in Hlo. rewrite Hlo. cbn [mbind outcome_bind].
  set (first := static_start n (trips_of l u s) tid) in *.
  set (next := static_start n (trips_of l u s) (tid + 1)) in *.
  destruct (affine_rep t n l u s first (trips_of l u s / n) Hf) as (c & -> & Hu1);
    [lia|lia|destruct (tid <? trips_of l u s mod n); lia|].
  cbn [mbind outcome_bind]. rewrite Hu1. cbn [mbind outcome_bind].
  assert (arith t (l + (first + trips_of l u s / n) * s -
    (if tid <? trips_of l u s mod n then 0 else conv t s)) = Ret (l + (first + (next - first) - 1) * s)) as ->.
  { assert (ity_min t <= l + (first + (next - first) - 1) * s <= ity_max t)
      by (apply (iter_fits t n l u s); [done|destruct (tid <? trips_of l u s mod n); lia]).
    destruct (tid <? trips_of l u s mod n).
    - rewrite Z.sub_0_r, arith_in; repeat f_equal; replace (trips_of l u s / n) with (next - first - 1) by lia; try lia.
    - apply (last_rep t n l u s); [done|lia..]. }
  cbn [mbind outcome_bind]. eexists. split; [by apply set_last_spec|]. cbn. split_and!; [|done|].
  - by apply loop_iters_affine.
  - apply flag_ext. pose proof (static_last n (trips_of l u s) tid).
    destruct (tid <? trips_of l u s mod n); case_bool_decide; destruct (Z.eqb_spec tid (n - 1)); subst first next; naive_solver lia.
Qed.

(** *** The threads' shares together *)

Lemma concat_consecutive (f : Z -> Z) (n : nat) :
  (forall i, 0 <= i < Z.of_nat n -> f i <= f (i + 1)) ->
  concat ((fun i => seqZ (f i) (f (i + 1) - f i)) <$> seqZ 0 (Z.of_nat n)) =
    seqZ (f 0) (f (Z.of_nat n) - f 0) /\ f 0 <= f (Z.of_nat n).
Proof.
  induction n as [|n IH]; intros Hf.
  - change (Z.of_nat 0) with 0. rewrite Z.sub_diag. split; [done|lia].
  - destruct IH as [IH Hle]; [intros; apply Hf; lia|]. specialize (Hf (Z.of_nat n) ltac:(lia)).
    replace (Z.of_nat (S n)) with (Z.of_nat n + 1) by lia.
    rewrite seqZ_app, fmap_app, concat_app, IH by lia. split; [|lia].
    change (seqZ (0 + Z.of_nat n) 1) with [0 + Z.of_nat n]. rewrite Z.add_0_l.
    cbn [concat fmap list_fmap]. rewrite app_nil_r.
    replace (f (Z.of_nat n + 1) - f 0) with
      ((f (Z.of_nat n) - f 0) + (f (Z.of_nat n + 1) - f (Z.of_nat n))) by lia.
    rewrite seqZ_app by lia. by rewrite Zplus_minus.
Qed.

Lemma concat_static_shares n T :
  0 < n -> 0 <= T ->
  concat ((fun i => seqZ (static_start n T i) (static_start n T (i + 1) - static_start n T i))
    <$> seqZ 0 n) = seqZ 0 T.
Proof.
  intros Hn HT. destruct (concat_consecutive (static_start n T) (Z.to_nat n)) as [H _].
  { intros i Hi. destruct (static_start_bounds n T i) as (_ & ? & _); lia. }
  rewrite Z2Nat.id in H by lia. rewrite H, static_start_0, static_start_n by lia. f_equal; lia.
Qed.

Lemma static_init_share t n l u s tid chunk b :
  loop_fits t n l u s -> 0 <= tid < n -> plower b = l -> pupper b = u ->
  exists b', kmpc_for_static_init t n tid kmp_sch_static b (conv t s) chunk = Ret b' /\
    static_share l u s n tid b b'.
Proof.
  intros Hf Ht Hl Hu. unfold kmpc_for_static_init.
  rewrite Hl, Hu, (total_trips_correct _ _ _ _ _ Hf). cbn [mbind outcome_bind Z.eqb].
  destruct (decide (trips_of l u s < n)).
  - by apply static_few.
  - apply static_many; try done. lia.
Qed.

(** The flag marks the thread that runs the loop's last iteration. *)
Lemma static_share_last t n l u s tid b b' :
  loop_fits t n l u s -> 0 <= tid < n -> static_share l u s n tid b b' ->
  plastiter b' = (fun _ => Z.b2z (bool_decide
    (last (loop_iters (plower b') (pupper b') s) = last (loop_iters l u s)))) <$> plastiter b.
Proof.
  intros Hf Ht (Hi & _ & ->). apply flag_ext, bool_decide_ext. rewrite Hi.
  pose proof (trips_pos _ _ _ _ _ Hf). pose proof (loop_fits_step _ _ _ _ _ Hf).
  destruct (static_start_bounds n (trips_of l u s) tid) as (? & ? & _); [lia..|].
  unfold loop_iters at 1. rewrite !fmap_last, !last_seqZ.
  repeat case_decide; simpl; split; try (intros; done || lia || (f_equal; nia)).
  intros [= He%Z.add_reg_l%Z.mul_cancel_r]; [|done]. lia.
Qed.

(** *** The chunked schedule *)

Definition chunk_size (chunk : Z) : Z := if chunk <? 1 then 1 else chunk.

(** The chunks of one round of the team, and the loop's last chunk, fit the
    type. *)
Record chunks_fit (t : int_type) (nthreads l s chunk : Z) : Prop := ChunksFit {
  chunk_step : ity_signed t = true \/ 0 < s;
  chunk_value : ity_min t <= chunk_size chunk <= ity_max t;
  chunk_round : ity_min t <= l + nthreads * chunk_size chunk * s <= ity_max t;
  chunk_stride : ity_min t <= nthreads * chunk_size chunk * s <= ity_max t
}.

Lemma chunk_size_pos chunk : 0 < chunk_size chunk.
Proof. unfold chunk_size. destruct (Z.ltb_spec chunk 1); lia. Qed.

Lemma chunk_step_value t n l u s chunk :
  loop_fits t n l u s -> chunks_fit t n l s chunk -> conv t s = s.
Proof.
  intros Hf Hc. destruct (conv_step _ _ _ _ _ Hf) as [[? _]|(? & ? & _)]; [done|].
  destruct (chunk_step _ _ _ _ _ Hc); [congruence|lia].
Qed.

(** Between 0 and a round, all multiples of the step fit. *)
Lemma chunk_range t n l u s chunk k :
  loop_fits t n l u s -> chunks_fit t n l s chunk -> 0 <= k <= n * chunk_size chunk ->
  ity_min t <= k * s <= ity_max t /\ ity_min t <= l + k * s <= ity_max t.
Proof.
  intros Hf [_ _ Hr Hs] Hk. pose proof (ity_min_nonpos t (loop_fits_width _ _ _ _ _ Hf)).
  pose proof (ity_max_nonneg t (loop_fits_width _ _ _ _ _ Hf)).
  destruct Hf as [_ _ Hl _ _ _ _ _].
  revert Hk Hr Hs. generalize (n * chunk_size chunk). intros N Hk Hr Hs.
  assert (0 <= k * s <= N * s \/ N * s <= k * s <= 0)
    by (destruct (Z.le_gt_cases 0 s); [left|right]; nia).
  lia.
Qed.

(** The thread's first chunk and the distance to its next one. *)
Definition chunked_share (l u s n chunk tid : Z) (b b' : loop_bounds) : Prop :=
  let C := chunk_size chunk in
  plower b' = l + (tid * C) * s /\
  pupper b' = l + (tid * C + C - 1) * s /\
  pstride b' = (n * C) * s /\
  plastiter b' =
    (fun _ => Z.b2z (tid =? ((trips_of l u s - 1) / C) mod n)) <$> plastiter b.

Lemma chunked_init_share t n l u s chunk tid b :
  loop_fits t n l u s -> chunks_fit t n l s chunk -> 0 <= tid < n ->
  plower b = l -> pupper b = u ->
  exists b', kmpc_for_static_init t n tid kmp_sch_static_chunked b (conv t s) chunk = Ret b' /\
    chunked_share l u s n chunk tid b b'.
Proof.
  intros Hf Hc Ht Hl Hu. pose proof (trips_pos _ _ _ _ _ Hf) as HT0.
  pose proof (trips_fit _ _ _ _ _ Hf) as HTm. pose proof (loop_fits_width _ _ _ _ _ Hf) as Hw.
  unfold kmpc_for_static_init. rewrite Hl, Hu, (total_trips_correct _ _ _ _ _ Hf).
  cbn [mbind outcome_bind Z.eqb kmp_sch_static kmp_sch_static_chunked Pos.eqb].
  unfold chunked_bounds, chunked_share. fold (chunk_size chunk).
  rewrite (chunk_step_value _ _ _ _ _ _ Hf Hc), Hl.
  rewrite (conv_id t tid), (conv_id t n) by (eauto with schedule lia).
  pose proof (chunk_size_pos chunk) as HC. set (C := chunk_size chunk) in *.
  pose proof (fun k => chunk_range t n l u s chunk k Hf Hc) as Hr. fold C in Hr.
  pose proof (Z.mod_pos_bound ((trips_of l u s - 1) / C) n ltac:(lia)).
  pose proof (Z.div_pos (trips_of l u s - 1) C ltac:(lia) HC).
  assert ((trips_of l u s - 1) / C <= trips_of l u s - 1)
    by (apply Z.div_le_upper_bound; [done|]; clearbody C; clear - HC HT0; nia).
  destruct (Hr C) as [K1 _]; [nia|]. destruct (Hr (tid * C)) as [K2 K3]; [nia|].
  destruct (Hr (tid * C + C)) as [_ K4]; [nia|]. destruct (Hr (tid * C + C - 1)) as [_ K5]; [nia|].
  destruct (Hr (n * C)) as [K6 _]; [nia|].
  rewrite (arith_in t (C * s)) by done. cbn [mbind outcome_bind].
  replace (C * s * n) with (n * C * s) by lia.
  rewrite (arith_in t (n * C * s)) by done. cbn [mbind outcome_bind].
  replace (C * s * tid) with (tid * C * s) by lia.
  rewrite (arith_in t (tid * C * s)) by done. cbn [mbind outcome_bind].
  rewrite (arith_in t (l + tid * C * s)) by done. cbn [mbind outcome_bind].
  replace (l + tid * C * s + C * s) with (l + (tid * C + C) * s) by lia.
  rewrite (arith_in t (l + (tid * C + C) * s)) by done. cbn [mbind outcome_bind].
  replace (l + (tid * C + C) * s - s) with (l + (tid * C + C - 1) * s) by lia.
  rewrite (arith_in t (l + (tid * C + C - 1) * s)) by done. cbn [mbind outcome_bind].
  rewrite (arith_in t (trips_of l u s - 1)) by (apply (count_fits t n l u s); [done|lia]).
  cbn [mbind outcome_bind]. rewrite quot_div by lia. cbn [mbind outcome_bind].
  rewrite rem_mod by lia. cbn [mbind outcome_bind].
  eexists. split; [by apply set_last_spec|]. done.
Qed.

Lemma iter_in_loop l u s k :
  s <> 0 -> (if 0 <? s then l + k * s <=? u else u <=? l + k * s) = true <-> k < trips_of l u s.
Proof.
  intros Hs. unfold trips_of. destruct (Z.ltb_spec 0 s); rewrite Z.leb_le.
  - pose proof (Z.div_mod (u - l) s). pose proof (Z.mod_pos_bound (u - l) s). split; nia.
  - pose proof (Z.div_mod (l - u) (- s)). pose proof (Z.mod_pos_bound (l - u) (- s)). split; nia.
Qed.

Lemma elem_of_loop_iters l u s i :
  i ∈ loop_iters l u s <-> exists k, i = l + k * s /\ 0 <= k < trips_of l u s.
Proof.
  unfold loop_iters. rewrite list_elem_of_fmap. setoid_rewrite elem_of_seqZ.
  split; intros (k & -> & ?); exists k; (split; [done|lia]).
Qed.

(** Round [c] of a thread runs the iterations of chunk number [c * n + tid]. *)
Lemma elem_of_chunk_iters l u s n chunk tid b b' c i :
  s <> 0 -> chunked_share l u s n chunk tid b b' ->
  i ∈ chunk_iters b' u s c <->
  exists k, i = l + k * s /\ k < trips_of l u s /\ k / chunk_size chunk = c * n + tid.
Proof.
  intros Hs (Hlo & Hup & Hst & _). pose proof (chunk_size_pos chunk) as HC.
  unfold chunk_iters. rewrite Hlo, Hup, Hst. set (C := chunk_size chunk) in *.
  replace (l + tid * C * s + c * (n * C * s)) with (l + ((c * n + tid) * C) * s) by lia.
  replace (l + (tid * C + C - 1) * s + c * (n * C * s))
    with (l + ((c * n + tid) * C + C - 1) * s) by lia.
  rewrite loop_iters_affine, list_elem_of_filter, list_elem_of_fmap by done.
  setoid_rewrite elem_of_seqZ. split.
  - intros (Hi & k & -> & Hk). exists k. apply iter_in_loop in Hi; [|done].
    split_and!; [done..|]. symmetry. apply (Z.div_unique_pos k C _ (k - (c * n + tid) * C)); lia.
  - intros (k & -> & Hk & Hq). pose proof (Z.div_mod k C). pose proof (Z.mod_pos_bound k C).
    split; [by apply iter_in_loop|]. exists k. split; [done|]. nia.
Qed.

Lemma div_nonneg k C : 0 < C -> 0 <= k / C -> 0 <= k.
Proof. intros. pose proof (Z.div_mod k C). pose proof (Z.mod_pos_bound k C). nia. Qed.

Lemma div_round n q c tid : 0 <= tid < n -> q = c * n + tid -> c = q / n /\ tid = q mod n.
Proof.
  intros Ht Hq. split.
  - apply (Z.div_unique_pos q n c tid); lia.
  - apply (Z.mod_unique_pos q n c tid); lia.
Qed.

(** ** Properties *)

(** C37: the threads of a team partition a statically scheduled loop that is not
    empty and whose bounds, end and length its type holds ([loop_fits]), the
    unsigned types only upwards or by the step -1 (for others iterations are
    lost, see [unsigned_step_skips]): each
    call returns, the ranges of the threads 0, 1, ... put one after the other
    are exactly the loop's iterations in order, and the "last iteration" flag is
    raised for the thread that runs the loop's last iteration and no other. *)
Theorem static_schedule_partitions t n l u s chunk b :
  loop_fits t n l u s -> plower b = l -> pupper b = u ->
  exists bs,
    (fun tid => kmpc_for_static_init t n tid kmp_sch_static b (conv t s) chunk) <$> seqZ 0 n
      = Ret <$> bs /\
    concat ((fun b' => loop_iters (plower b') (pupper b') s) <$> bs) = loop_iters l u s /\
    Forall (fun b' => plastiter b' = (fun _ => Z.b2z (bool_decide
      (last (loop_iters (plower b') (pupper b') s) = last (loop_iters l u s))))
      <$> plastiter b) bs.
Proof.
  intros Hf Hl Hu. pose proof (trips_pos _ _ _ _ _ Hf). pose proof (fits_threads _ _ _ _ _ Hf).
  destruct (outcomes_exist
    (fun tid => kmpc_for_static_init t n tid kmp_sch_static b (conv t s) chunk)
    (fun tid b' => 0 <= tid < n /\ static_share l u s n tid b b') (seqZ 0 n)) as (bs & Hbs & HF).
  { intros tid [? ?]%elem_of_seqZ.
    destruct (static_init_share t n l u s tid chunk b) as (b' & ? & ?); eauto with lia. }
  exists bs. split; [done|]. split.
  - assert ((fun b' => loop_iters (plower b') (pupper b') s) <$> bs =
      fmap (fun k => l + k * s) <$> ((fun i => seqZ (static_start n (trips_of l u s) i)
        (static_start n (trips_of l u s) (i + 1) - static_start n (trips_of l u s) i))
        <$> seqZ 0 n)) as ->.
    { clear Hbs. induction HF as [|tid b' ? ? (_ & Hi & _)]; [done|]. rewrite !fmap_cons. by f_equal. }
    unfold loop_iters. rewrite <- (concat_static_shares n (trips_of l u s)) by lia. symmetry. apply concat_map.
  - apply Forall_lookup. intros i b' Hi.
    destruct (Forall2_lookup_r _ _ _ _ _ HF Hi) as (tid & _ & ? & ?).
    by eapply static_share_last.
Qed.

(** The theorem's hypotheses hold: seven iterations of a downward loop over four
    threads. *)
Lemma static_schedule_partitions_witness :
  loop_fits int32_t 4 20 0 (-3) /\
  exists bs,
    (fun tid => kmpc_for_static_init int32_t 4 tid kmp_sch_static
      (LoopBounds 20 0 0 (Some 0)) (conv int32_t (-3)) 0) <$> seqZ 0 4 = Ret <$> bs /\
    concat ((fun b' => loop_iters (plower b') (pupper b') (-3)) <$> bs) = [20; 17; 14; 11; 8; 5; 2].
Proof.
  assert (loop_fits int32_t 4 20 0 (-3)) as Hf by (split; vm_compute; intuition congruence).
  split; [done|].
  destruct (static_schedule_partitions int32_t 4 20 0 (-3) 0 (LoopBounds 20 0 0 (Some 0)) Hf
    eq_refl eq_refl) as (bs & H1 & H2 & _).
  exists bs. split; [exact H1|]. rewrite H2. reflexivity.
Defined.



(** The unsigned variants take the increment as unsigned: for the step -2 the
    trip count is wrong and iterations are lost. *)
Lemma unsigned_step_skips :
  exists bs,
    (fun tid => kmpc_for_static_init_4u 4 tid kmp_sch_static
      (LoopBounds 10 2 0 (Some 0)) (conv uint32_t (-2)) 0) <$> seqZ 0 4 = Ret <$> bs /\
    loop_iters 10 2 (-2) = [10; 8; 6; 4; 2] /\
    concat ((fun b' => loop_iters (plower b') (pupper b') (-2)) <$> bs) = [10].
Proof.
  exists [LoopBounds 10 10 0 (Some 1); LoopBounds 0 2 0 (Some 0); LoopBounds 0 2 0 (Some 0);
     LoopBounds 0 2 0 (Some 0)]. split_and!; vm_compute; reflexivity.
Qed.
