(* ===== verification/Barrier.v ===== *)
(** * The spin barrier (src/lib/libbomp/spin.h)

    Every thread of a parallel region runs [bomp_barrier_wait] on a shared
    barrier.  The function is modelled one shared-memory access at a time, and
    a schedule, the list of the threads that take the next step, decides the
    interleaving.  Two counters per thread, which the code does not have,
    record how often the thread has arrived at and left the barrier. *)

From S2P Require Import Prelude.

(** ** Definitions *)

Record bomp_barrier := Barrier { max : Z; cycle : Z; counter : Z }.

Definition bomp_barrier_init (count : Z) : bomp_barrier := Barrier (wrap32 count) 0 0.

Definition bomp_clear_barrier (b : bomp_barrier) : bomp_barrier := b.

Definition bomp_barrier_updateMax (new_max : Z) (b : bomp_barrier) : bomp_barrier :=
  Barrier (wrap32 new_max) (cycle b) (counter b).

(** Where a thread stands in [bomp_barrier_wait]; the local variable [cycle] is
    an argument. *)
Inductive wait_pc :=
  | Outside              (* before the call, or after it has returned *)
  | Entered (c : Z)      (* [cycle] is read, the counter not yet incremented *)
  | LastReset            (* arrived last: before [barrier->counter = 0] *)
  | LastLoad             (* before [barrier->cycle] is read *)
  | LastStore (v : Z)    (* before [barrier->cycle] is written *)
  | Waiting (c : Z).     (* in the loop on [cycle == barrier->cycle] *)

#[export] Instance wait_pc_eq_dec : EqDecision wait_pc.
Proof. solve_decision. Defined.

Definition bomp_barrier_wait_step (b : bomp_barrier) (p : wait_pc) : bomp_barrier * wait_pc :=
  match p with
  | Outside => (b, Entered (signed 32 (cycle b)))
  | Entered c =>
      (Barrier (max b) (cycle b) (wrap32 (counter b + 1)),
       if counter b =? wrap32 (max b - 1) then LastReset else Waiting c)
  | LastReset => (Barrier (max b) (cycle b) 0, LastLoad)
  | LastLoad => (b, LastStore (Z.b2z (cycle b =? 0)))
  | LastStore v => (Barrier (max b) v (counter b), Outside)
  | Waiting c => (b, if wrap32 c =? cycle b then Waiting c else Outside)
  end.

(** A team of threads around one barrier. *)
Record thread := Thread { t_pc : wait_pc; arrived : nat; left : nat }.

Record team := Team { t_barrier : bomp_barrier; t_threads : list thread }.

Definition thread_step (b : bomp_barrier) (th : thread) : bomp_barrier * thread :=
  let '(b', p) := bomp_barrier_wait_step b (t_pc th) in
  (b', Thread p
    (match t_pc th with Entered _ => S (arrived th) | _ => arrived th end)
    (match t_pc th, p with
     | Outside, _ => left th
     | _, Outside => S (left th)
     | _, _ => left th
     end)).

Definition step (s : team) (i : nat) : team :=
  match t_threads s !! i with
  | Some th =>
      let '(b, th') := thread_step (t_barrier s) th in
      Team b (<[i := th']> (t_threads s))
  | None => s
  end.

Definition run (sched : list nat) (s : team) : team := foldl step s sched.

Definition new_team (n : nat) (b : bomp_barrier) : team :=
  Team b (replicate n (Thread Outside 0 0)).

(** ** The invariant *)

(** The barrier's cycle in round [r]. *)
Definition parity (r : nat) : Z := Z.b2z (Nat.odd r).

(** In round [r] a thread has not arrived yet, waits, closes the round, or has
    not yet noticed the end of the round before. *)
Definition thread_ok (r : nat) (th : thread) : Prop :=
  match t_pc th with
  | Outside => arrived th = r /\ left th = r
  | Entered c => arrived th = r /\ left th = r /\ c = parity r
  | Waiting c =>
      arrived th = S r /\ left th = r /\ c = parity r \/
      arrived th = r /\ S (left th) = r /\ c = parity (S r)
  | LastReset | LastLoad => arrived th = S r /\ left th = r
  | LastStore v => arrived th = S r /\ left th = r /\ v = parity (S r)
  end.

Definition is_last (th : thread) : bool :=
  match t_pc th with LastReset | LastLoad | LastStore _ => true | _ => false end.

Definition arrivals (r : nat) (ths : list thread) : nat :=
  length (filter (fun th => arrived th = S r) ths).

#[global] Arguments arrivals : simpl never.

(** Threads are arriving. *)
Definition gathering (r : nat) (s : team) : Prop :=
  Forall (fun th => is_last th = false) (t_threads s) /\
  counter (t_barrier s) = Z.of_nat (arrivals r (t_threads s)) /\
  (arrivals r (t_threads s) < length (t_threads s))%nat.

(** All have arrived, and thread [i] is about to end the round. *)
Definition closing (r i : nat) (s : team) : Prop :=
  Forall (fun th => arrived th = S r) (t_threads s) /\
  (forall j th, t_threads s !! j = Some th -> is_last th = bool_decide (j = i)) /\
  exists th, t_threads s !! i = Some th /\
    (t_pc th <> LastReset -> counter (t_barrier s) = 0).

Record barrier_inv (r : nat) (s : team) : Prop := BarrierInv {
  inv_max : max (t_barrier s) = Z.of_nat (length (t_threads s));
  inv_size : 1 <= Z.of_nat (length (t_threads s)) < 2 ^ 32;
  inv_cycle : cycle (t_barrier s) = parity r;
  inv_threads : Forall (thread_ok r) (t_threads s);
  inv_phase : gathering r s \/ exists i, closing r i s
}.

(** ** Lemmas *)

Lemma parity_S r : parity (S r) = Z.b2z (parity r =? 0).
Proof. unfold parity. rewrite Nat.odd_succ, <- Nat.negb_odd. by destruct (Nat.odd r). Qed.

Lemma parity_SS r : parity (S (S r)) = parity r.
Proof. unfold parity. by rewrite Nat.odd_succ, Nat.even_succ. Qed.

Lemma parity_ne r : parity (S r) <> parity r.
Proof. rewrite parity_S. unfold parity. by destruct (Nat.odd r). Qed.

Lemma signed_parity r : signed 32 (parity r) = parity r.
Proof. unfold parity. by destruct (Nat.odd r). Qed.

Lemma wrap_parity r : wrap 32 (parity r) = parity r.
Proof. unfold parity. by destruct (Nat.odd r). Qed.

Lemma arrivals_insert r ths i th th' :
  ths !! i = Some th ->
  (arrivals r (<[i := th']> ths) + (if decide (arrived th = S r) then 1 else 0) =
   arrivals r ths + (if decide (arrived th' = S r) then 1 else 0))%nat.
Proof. intros H. exact (count_insert (fun th => arrived th = S r) ths i th th' H). Qed.

Lemma step_no_thread s i : t_threads s !! i = None -> step s i = s.
Proof. unfold step. by intros ->. Qed.

(** The step of thread [th] when it is the [i]-th one. *)
Lemma step_thread s i th b th' :
  t_threads s !! i = Some th -> thread_step (t_barrier s) th = (b, th') ->
  step s i = Team b (<[i := th']> (t_threads s)).
Proof. unfold step. by intros -> ->. Qed.

Lemma step_length s i : length (t_threads (step s i)) = length (t_threads s).
Proof.
  unfold step. destruct (_ !! i); [|done]. destruct (thread_step _ _). apply length_insert.
Qed.

Lemma step_max s i : max (t_barrier (step s i)) = max (t_barrier s).
Proof.
  unfold step. destruct (_ !! i) as [[p a l]|]; [|done]. unfold thread_step. by destruct p.
Qed.

(** *** Steps while threads arrive *)

Lemma inv_insert r s i b th' :
  barrier_inv r s -> max b = max (t_barrier s) -> cycle b = parity r -> thread_ok r th' ->
  (let s' := Team b (<[i := th']> (t_threads s)) in
   gathering r s' \/ exists j, closing r j s') ->
  barrier_inv r (Team b (<[i := th']> (t_threads s))).
Proof.
  intros [Hmax Hsz Hcy Hok _] Hm Hc Hth Hph.
  split; cbn; rewrite ?length_insert; [congruence|done|done|by apply Forall_insert|done].
Qed.

(** A step of a thread that does not arrive. *)
Lemma gathering_insert r s i th th' :
  gathering r s -> t_threads s !! i = Some th -> is_last th' = false ->
  (arrived th = S r <-> arrived th' = S r) ->
  gathering r (Team (t_barrier s) (<[i := th']> (t_threads s))).
Proof.
  intros (Hnl & Hct & Hlt) Hi Hl Ha. pose proof (arrivals_insert r _ _ _ th' Hi) as Hc.
  assert (arrivals r (<[i := th']> (t_threads s)) = arrivals r (t_threads s)) as He.
  { revert Hc. do 2 case_decide; naive_solver lia. }
  unfold gathering. cbn. rewrite length_insert, He. split; [by apply Forall_insert|done].
Qed.

Lemma all_arrived r ths : arrivals r ths = length ths -> Forall (fun th => arrived th = S r) ths.
Proof. apply (Forall_count (fun th => arrived th = S r)). Qed.

(** A thread arrives: the last one closes the round. *)
Lemma arrive_step r s i c a l :
  barrier_inv r s -> gathering r s ->
  t_threads s !! i = Some (Thread (Entered c) a l) -> barrier_inv r (step s i).
Proof.
  intros Hinv (Hnl & Hct & Hlt) Hi. pose proof Hinv as [Hmax Hsz Hcy Hok _].
  pose proof (Forall_lookup_1 _ _ _ _ Hok Hi) as Ht.
  cbn in Ht. destruct Ht as (-> & -> & ->).
  assert (forall p, arrivals r (<[i := Thread p (S r) r]> (t_threads s)) = S (arrivals r (t_threads s))) as Hc.
  { intros p. pose proof (arrivals_insert r _ _ _ (Thread p (S r) r) Hi) as Hc.
    cbn in Hc. rewrite decide_False, decide_True in Hc by lia. lia. }
  erewrite step_thread; [|done|]. 2: { unfold thread_step. cbn. done. }
  rewrite Hct, Hmax.
  assert (wrap32 (Z.of_nat (length (t_threads s)) - 1) = Z.of_nat (length (t_threads s)) - 1) as ->
    by (apply wrap_small; lia).
  destruct (Z.eqb_spec (Z.of_nat (arrivals r (t_threads s))) (Z.of_nat (length (t_threads s)) - 1)).
  - apply inv_insert; try done. right. exists i. unfold closing. cbn. split_and!.
    + apply (all_arrived r). rewrite length_insert. rewrite Hc. lia.
    + intros j th Hj. destruct (decide (j = i)) as [->|Hne].
      * rewrite list_lookup_insert_eq in Hj by (by eapply lookup_lt_Some).
        injection Hj as <-. by rewrite bool_decide_true.
      * rewrite list_lookup_insert_ne in Hj by done. rewrite bool_decide_false by done.
        by apply (Forall_lookup_1 _ _ _ _ Hnl Hj).
    + eexists. split; [apply list_lookup_insert_eq; by eapply lookup_lt_Some|]. done.
  - apply inv_insert; try done; [cbn; auto|]. left. unfold gathering. cbn. rewrite length_insert. split_and!.
    + by apply Forall_insert.
    + rewrite wrap_small, Hc by lia. lia.
    + rewrite Hc. lia.
Qed.

Lemma gathering_step r s i :
  barrier_inv r s -> gathering r s -> barrier_inv r (step s i).
Proof.
  intros Hinv Hg. pose proof Hinv as [Hmax Hsz Hcy Hok _]. pose proof Hg as (Hnl & _ & _).
  destruct (t_threads s !! i) as [[p a l]|] eqn:Hi; [|by rewrite step_no_thread].
  pose proof (Forall_lookup_1 _ _ _ _ Hnl Hi) as Hp.
  pose proof (Forall_lookup_1 _ _ _ _ Hok Hi) as Ht.
  destruct p as [|c| | |v|c]; cbn in Hp, Ht; try done.
  - destruct Ht as [-> ->]. erewrite step_thread by done.
    apply inv_insert; try done; cbn; [by rewrite Hcy, signed_parity|].
    left. by eapply gathering_insert.
  - by eapply arrive_step.
  - erewrite step_thread by done. rewrite Hcy. destruct Ht as [(-> & -> & ->)|(-> & <- & ->)].
    + rewrite wrap_parity, Z.eqb_refl. apply inv_insert; try done; cbn; [auto|].
      left. by eapply gathering_insert.
    + rewrite wrap_parity. rewrite (proj2 (Z.eqb_neq _ _) (parity_ne _)).
      apply inv_insert; try done; cbn. left. by eapply gathering_insert.
Qed.

(** *** Steps while the round is closed *)

(** How many steps the last thread has left. *)
Definition stage (th : thread) : nat :=
  match t_pc th with LastReset => 3 | LastLoad => 2 | LastStore _ => 1 | _ => 0 end.

(** The other threads can only spin. *)
Lemma closing_other r i j s :
  barrier_inv r s -> closing r i s -> j <> i -> step s j = s.
Proof.
  intros [_ _ Hcy Hok _] (Ha & Hl & _) Hne. destruct s as [b ths]. cbn in *.
  destruct (ths !! j) as [[p a l]|] eqn:Hj; [|by apply step_no_thread].
  pose proof (Forall_lookup_1 _ _ _ _ Hok Hj) as Ht.
  pose proof (Forall_lookup_1 _ _ _ _ Ha Hj) as Har. pose proof (Hl _ _ Hj) as Hlj.
  rewrite bool_decide_false in Hlj by done.
  destruct p; cbn in *; try done; try lia.
  destruct Ht as [(-> & -> & ->)|(-> & _)]; [|lia].
  erewrite step_thread by done. cbn. rewrite Hcy, wrap_parity, Z.eqb_refl.
  f_equal. by apply list_insert_id.
Qed.

Lemma closing_insert r i s b p l :
  closing r i s -> is_last (Thread p (S r) l) = true -> counter b = 0 ->
  closing r i (Team b (<[i := Thread p (S r) l]> (t_threads s))).
Proof.
  intros (Ha & Hl & th & Hi & _) Hp Hb. unfold closing. cbn. split_and!.
  - by apply Forall_insert.
  - intros j th' Hj. destruct (decide (j = i)) as [->|Hne].
    + rewrite list_lookup_insert_eq in Hj by (by eapply lookup_lt_Some).
      injection Hj as <-. by rewrite bool_decide_true.
    + rewrite list_lookup_insert_ne in Hj by done. by apply Hl.
  - eexists. split; [apply list_lookup_insert_eq; by eapply lookup_lt_Some|]. done.
Qed.

(** The end of a round: the barrier is ready for the next one. *)
Lemma next_round r i s b :
  barrier_inv r s -> closing r i s -> b = Barrier (max (t_barrier s)) (parity (S r)) 0 ->
  barrier_inv (S r) (Team b (<[i := Thread Outside (S r) (S r)]> (t_threads s))).
Proof.
  intros [Hmax Hsz Hcy Hok _] (Ha & Hl & _) ->.
  assert (Forall (thread_ok (S r)) (<[i := Thread Outside (S r) (S r)]> (t_threads s)) /\
    Forall (fun th => is_last th = false) (<[i := Thread Outside (S r) (S r)]> (t_threads s)))
    as [Hok' Hnl'].
  { rewrite <- Forall_and. apply Forall_lookup. intros j th Hj. destruct (decide (j = i)) as [->|Hne].
    - rewrite list_lookup_insert_eq in Hj; [by injection Hj as <-|].
      apply lookup_lt_Some in Hj. by rewrite length_insert in Hj.
    - rewrite list_lookup_insert_ne in Hj by done. pose proof (Hl _ _ Hj) as Hlj.
      rewrite bool_decide_false in Hlj by done. split; [|done].
      pose proof (Forall_lookup_1 _ _ _ _ Hok Hj) as Ht.
      pose proof (Forall_lookup_1 _ _ _ _ Ha Hj) as Har. destruct th as [[] a l]; cbn in *; try lia; try done.
      rewrite parity_SS. right. destruct Ht as [(-> & -> & ->)|]; [done|lia]. }
  assert (arrivals (S r) (<[i := Thread Outside (S r) (S r)]> (t_threads s)) = 0%nat) as Hc.
  { unfold arrivals. rewrite filter_none; [done|]. intros th Hth%list_elem_of_lookup.
    destruct Hth as [j Hj]. destruct (decide (j = i)) as [->|Hne].
    - rewrite list_lookup_insert_eq in Hj; [injection Hj as <-; cbn; lia|].
      apply lookup_lt_Some in Hj. by rewrite length_insert in Hj.
    - rewrite list_lookup_insert_ne in Hj by done.
      rewrite (Forall_lookup_1 _ _ _ _ Ha Hj). lia. }
  split; cbn; rewrite ?length_insert; try done.
  left. unfold gathering. cbn. rewrite Hc, length_insert. split_and!; [done|done|lia].
Qed.

Lemma closing_step r i s th :
  barrier_inv r s -> closing r i s -> t_threads s !! i = Some th ->
  barrier_inv (S r) (step s i) /\ stage th = 1%nat \/
  barrier_inv r (step s i) /\ closing r i (step s i) /\
  exists th', t_threads (step s i) !! i = Some th' /\ stage th = S (stage th').
Proof.
  intros Hinv Hc Hi. pose proof Hinv as [Hmax Hsz Hcy Hok _]. pose proof Hc as (Ha & Hl & th0 & Hi0 & Hct).
  rewrite Hi in Hi0. injection Hi0 as <-.
  pose proof (Forall_lookup_1 _ _ _ _ Hok Hi) as Ht. pose proof (Hl _ _ Hi) as Hlast.
  rewrite bool_decide_true in Hlast by done. destruct th as [p a l]. cbn in Hct.
  assert (i < length (t_threads s))%nat as Hlen by (by eapply lookup_lt_Some).
  destruct p as [|c| | |v|c]; cbn in Hlast, Ht; try done; erewrite !step_thread by done; cbn.
  - destruct Ht as [-> ->]. right. split; [|split].
    + apply inv_insert; try done. right. exists i. by apply closing_insert.
    + by apply closing_insert.
    + eexists. by rewrite list_lookup_insert_eq.
  - destruct Ht as [-> ->]. rewrite Hcy, <- parity_S. right. split; [|split].
    + apply inv_insert; try done. right. exists i. apply closing_insert; auto.
    + apply closing_insert; auto.
    + eexists. by rewrite list_lookup_insert_eq.
  - destruct Ht as (-> & -> & ->). left. split; [|done]. apply next_round; [done..|]. f_equal. auto.
Qed.

(** *** Runs *)

Lemma barrier_inv_step r s i :
  barrier_inv r s -> barrier_inv r (step s i) \/ barrier_inv (S r) (step s i).
Proof.
  intros Hinv. destruct (inv_phase _ _ Hinv) as [Hg|[k Hc]].
  - left. by apply gathering_step.
  - destruct (decide (i = k)) as [->|]; [|left; by rewrite (closing_other r k i)].
    pose proof Hc as (_ & _ & th & Hi & _).
    destruct (closing_step _ _ _ _ Hinv Hc Hi) as [[? _]|[? _]]; auto.
Qed.

Lemma barrier_inv_run r s sched :
  barrier_inv r s -> exists r', (r <= r')%nat /\ barrier_inv r' (run sched s).
Proof.
  revert r s. induction sched as [|i sched IH]; intros r s Hinv; [by exists r|].
  destruct (barrier_inv_step r s i Hinv) as [Hs|Hs].
  - destruct (IH _ _ Hs) as (r' & ? & ?). by exists r'.
  - destruct (IH _ _ Hs) as (r' & ? & ?). exists r'. split; [lia|done].
Qed.

(** Between two rounds nobody is at the barrier. *)
Lemma idle_team_inv n r :
  1 <= Z.of_nat n < 2 ^ 32 ->
  barrier_inv r (Team (Barrier (Z.of_nat n) (parity r) 0) (replicate n (Thread Outside r r))).
Proof.
  intros Hn. split; cbn; rewrite ?length_replicate; try done.
  - by apply Forall_replicate.
  - left. unfold gathering. cbn. rewrite length_replicate.
    assert (arrivals r (replicate n (Thread Outside r r)) = 0%nat) as ->.
    { unfold arrivals. rewrite filter_none; [done|]. intros th [-> _]%elem_of_replicate. cbn. lia. }
    split_and!; [by apply Forall_replicate|done|lia].
Qed.

Lemma new_team_inv n :
  1 <= Z.of_nat n < 2 ^ 32 -> barrier_inv 0 (new_team n (bomp_barrier_init (Z.of_nat n))).
Proof.
  intros Hn. unfold new_team, bomp_barrier_init. rewrite wrap_small by lia. by apply (idle_team_inv n 0).
Qed.

(** In round [r] no thread has left more than [r] times or arrived fewer. *)
Lemma thread_ok_bounds r th :
  thread_ok r th -> (r <= arrived th <= S r /\ left th <= r /\ r <= S (left th))%nat.
Proof. destruct th as [[] a l]; cbn; lia. Qed.

Lemma step_left s i j th :
  t_threads s !! j = Some th ->
  exists th', t_threads (step s i) !! j = Some th' /\ (left th <= left th')%nat.
Proof.
  intros Hj. destruct (t_threads s !! i) as [th0|] eqn:Hi; [|rewrite step_no_thread; eauto].
  destruct (thread_step (t_barrier s) th0) as [b th1] eqn:Hs.
  rewrite (step_thread _ _ _ _ _ Hi Hs). cbn. destruct (decide (j = i)) as [->|].
  - rewrite list_lookup_insert_eq by (by eapply lookup_lt_Some). eexists. split; [done|].
    assert (th0 = th) as -> by congruence. revert Hs. destruct th as [p a l]. unfold thread_step.
    destruct p; cbn; repeat destruct (_ =? _); intros [= <- <-]; cbn; lia.
  - rewrite list_lookup_insert_ne by done. eauto.
Qed.

Lemma run_left sched s j th :
  t_threads s !! j = Some th ->
  exists th', t_threads (run sched s) !! j = Some th' /\ (left th <= left th')%nat.
Proof.
  revert s th. induction sched as [|i sched IH]; intros s th Hj; [eauto|].
  destruct (step_left s i j th Hj) as (th1 & H1 & ?). destruct (IH _ _ H1) as (th2 & ? & ?).
  exists th2. split; [done|lia].
Qed.

Lemma run_length sched s : length (t_threads (run sched s)) = length (t_threads s).
Proof.
  revert s. induction sched as [|i sched IH]; intros s; [done|].
  cbn [run foldl]. fold (run sched (step s i)). by rewrite IH, step_length.
Qed.

(** A thread that takes a step in round [r] or later has left [r] times. *)
Lemma step_releases r s i th :
  barrier_inv r s -> t_threads s !! i = Some th ->
  exists th', t_threads (step s i) !! i = Some th' /\ (r <= left th')%nat.
Proof.
  intros Hinv Hi. pose proof (Forall_lookup_1 _ _ _ _ (inv_threads _ _ Hinv) Hi) as Ht.
  destruct (decide (r <= left th)%nat).
  { destruct (step_left s i i th Hi) as (th' & ? & ?). exists th'. split; [done|lia]. }
  destruct th as [[] a l]; cbn in *; try lia. destruct Ht as [|(-> & <- & ->)]; [lia|].
  erewrite step_thread by done. cbn.
  rewrite (inv_cycle _ _ Hinv), wrap_parity, (proj2 (Z.eqb_neq _ _) (parity_ne _)).
  eexists. rewrite list_lookup_insert_eq by (by eapply lookup_lt_Some). done.
Qed.

Lemma run_releases r s sched i th :
  barrier_inv r s -> t_threads s !! i = Some th -> i ∈ sched ->
  exists th', t_threads (run sched s) !! i = Some th' /\ (r <= left th')%nat.
Proof.
  revert r s th. induction sched as [|j sched IH]; intros r s th Hinv Hi Hin; [by apply not_elem_of_nil in Hin|].
  destruct (decide (j = i)) as [->|].
  - destruct (step_releases _ _ _ _ Hinv Hi) as (th1 & H1 & ?).
    destruct (run_left sched _ _ _ H1) as (th2 & ? & ?). exists th2. split; [done|lia].
  - apply list.elem_of_cons in Hin as [->|Hin]; [done|].
    destruct (step_left s j i th Hi) as (th1 & H1 & _).
    destruct (barrier_inv_step r s j Hinv) as [Hs|Hs].
    + by apply (IH r (step s j) th1).
    + destruct (IH (S r) (step s j) th1 Hs H1 Hin) as (th2 & ? & ?). exists th2. split; [done|lia].
Qed.

(** Enough steps of the last thread end the round. *)
Lemma closing_run r i s th sched :
  barrier_inv r s -> closing r i s -> t_threads s !! i = Some th ->
  (stage th <= count_occ Nat.eq_dec sched i)%nat ->
  exists r', (S r <= r')%nat /\ barrier_inv r' (run sched s).
Proof.
  revert s th. induction sched as [|j sched IH]; intros s th Hinv Hc Hi Hn.
  - exfalso. pose proof Hc as (_ & Hl & _). specialize (Hl _ _ Hi).
    rewrite bool_decide_true in Hl by done. destruct th as [[] a l]; cbn in *; try done; lia.
  - cbn [run foldl]. fold (run sched (step s j)). simpl in Hn.
    destruct (Nat.eq_dec j i) as [->|Hne].
    + destruct (closing_step _ _ _ _ Hinv Hc Hi) as [[Hs _]|(Hs & Hc' & th' & Hi' & Hst)].
      * by apply barrier_inv_run.
      * apply (IH _ th'); try done. lia.
    + rewrite (closing_other r i j s) by done. by apply (IH s th).
Qed.

Lemma gathering_behind r s k :
  barrier_inv r s -> gathering r s -> Forall (fun th => arrived th = k) (t_threads s) -> (k <= r)%nat.
Proof.
  intros [_ Hsz _ Hok _] (_ & _ & Hlt) Hk.
  destruct (lookup_lt_is_Some_2 (t_threads s) 0) as [th Hth]; [lia|].
  pose proof (thread_ok_bounds r th (Forall_lookup_1 _ _ _ _ Hok Hth)).
  pose proof (Forall_lookup_1 _ _ _ _ Hk Hth) as <-.
  apply Nat.nlt_ge. intros Hr. replace (arrived th) with (S r) in Hk by lia.
  apply (count_Forall (fun th => arrived th = S r)) in Hk. unfold arrivals in Hlt. lia.
Qed.

(** *** A barrier for one thread too few *)

Definition waits (k m : nat) : list thread :=
  replicate k (Thread (Waiting 0) 1 0) ++ replicate m (Thread Outside 0 0).

Lemma insert_middle k (x y : thread) l1 l2 :
  length l1 = k -> <[k := x]> (l1 ++ y :: l2) = l1 ++ x :: l2.
Proof. intros <-. replace (length l1) with (length l1 + 0)%nat by lia. by rewrite insert_app_r. Qed.

Lemma lookup_middle k (y : thread) l1 l2 : length l1 = k -> (l1 ++ y :: l2) !! k = Some y.
Proof. intros <-. rewrite lookup_app_r, Nat.sub_diag by lia. done. Qed.

Lemma step_middle k b th l1 l2 :
  length l1 = k -> step (Team b (l1 ++ th :: l2)) k =
    let '(b', th') := thread_step b th in Team b' (l1 ++ th' :: l2).
Proof.
  intros Hk. unfold step. cbn [t_threads t_barrier]. rewrite lookup_middle by done.
  destruct (thread_step b th). by rewrite insert_middle.
Qed.

Lemma last_three max c k l1 l2 :
  length l1 = k ->
  run [k; k; k] (Team (Barrier max 0 c) (l1 ++ Thread LastReset 1 0 :: l2)) =
  Team (Barrier max 1 0) (l1 ++ Thread Outside 1 1 :: l2).
Proof. intros Hk. cbn [run foldl]. by do 3 (rewrite step_middle by done; cbn -[step]). Qed.

(** The two steps of a thread that arrives at the barrier. *)
Lemma arrive_two max k m :
  1 <= max < 2 ^ 32 -> Z.of_nat k < max ->
  run [k; k] (Team (Barrier max 0 (Z.of_nat k)) (waits k (S m))) =
  Team (Barrier max 0 (Z.of_nat k + 1))
    (replicate k (Thread (Waiting 0) 1 0) ++
     Thread (if Z.of_nat k =? max - 1 then LastReset else Waiting 0) 1 0 ::
     replicate m (Thread Outside 0 0)).
Proof.
  intros Hmax Hk. unfold waits. cbn [run foldl replicate].
  do 2 (rewrite step_middle by apply length_replicate; cbn -[wrap signed step]).
  rewrite (wrap_small 32 (Z.of_nat k + 1)), (wrap_small 32 (max - 1)) by lia. by destruct (_ =? _).
Qed.

Definition arrivals_sched (k : nat) : list nat := (seq 0 k) ≫= (fun i => [i; i]).

Lemma run_app s1 s2 s : run (s1 ++ s2) s = run s2 (run s1 s).
Proof. apply foldl_app. Qed.

Lemma arrive_many max k m :
  1 <= max < 2 ^ 32 -> Z.of_nat k < max ->
  run (arrivals_sched k) (new_team (k + m) (Barrier max 0 0)) =
  Team (Barrier max 0 (Z.of_nat k)) (waits k m).
Proof.
  intros Hmax. revert m. induction k as [|k IH]; intros m Hk; [done|].
  unfold arrivals_sched. rewrite seq_S, bind_app, run_app. fold (arrivals_sched k).
  replace (S k + m)%nat with (k + S m)%nat by lia. rewrite IH by lia.
  cbn [mbind list_bind app Nat.add]. rewrite arrive_two by lia.
  rewrite (proj2 (Z.eqb_neq (Z.of_nat k) (max - 1))) by lia.
  replace (Z.of_nat (S k)) with (Z.of_nat k + 1) by lia. f_equal.
  unfold waits. replace (S k) with (k + 1)%nat by lia. rewrite replicate_add, <- app_assoc. done.
Qed.

(** A barrier initialised for all but one of its users lets threads pass
    before all have arrived. *)
Lemma barrier_early_release num_threads :
  1 <= num_threads < 2 ^ 32 ->
  exists sched th1 th2,
    let s := run sched (new_team (Z.to_nat (num_threads + 1)) (bomp_barrier_init num_threads)) in
    th1 ∈ t_threads s /\ left th1 = 1%nat /\ th2 ∈ t_threads s /\ arrived th2 = 0%nat.
Proof.
  intros Hn. set (k := Z.to_nat (num_threads - 1)).
  exists (arrivals_sched k ++ [k; k] ++ [k; k; k]),
    (Thread Outside 1 1), (Thread Outside 0 0).
  replace (Z.to_nat (num_threads + 1)) with (k + 2)%nat by lia.
  unfold bomp_barrier_init. rewrite wrap_small, !run_app, arrive_many, arrive_two by lia.
  rewrite (proj2 (Z.eqb_eq (Z.of_nat k) (num_threads - 1))) by lia.
  rewrite last_three by apply length_replicate. cbn [t_threads replicate]. split_and!; try done; set_solver.
Qed.

(** *** More threads than the barrier is for *)

(** Threads 0 and 1 share the barrier, then, before thread 1 has noticed that
    the round is over, threads 0 and 2: the bit is back where thread 1 read it,
    and thread 1 stays in its loop. *)
Lemma lingering_thread_misses :
  let s := Team (Barrier 2 0 0) [Thread Outside 2 2; Thread (Waiting 0) 1 0; Thread Outside 1 1] in
  run [1; 1; 0; 0; 0; 0; 0; 2; 2; 0; 0; 0; 0; 0; 2]%nat (new_team 3 (bomp_barrier_init 2)) = s /\
  forall k, run (replicate k 1%nat) s = s.
Proof.
  intros s. split; [vm_compute; reflexivity|]. intros k. induction k as [|k IH]; [done|].
  cbn [replicate run foldl]. assert (step s 1 = s) as -> by (vm_compute; reflexivity). exact IH.
Qed.

(** ** Properties *)

(** A barrier for as many threads as use it separates the rounds: under
    every schedule no thread has left the barrier more often than any other
    thread has arrived at it, and no thread is more than one arrival ahead. *)
Theorem barrier_separates_rounds n sched i j thi thj :
  1 <= Z.of_nat n < 2 ^ 32 ->
  let s := run sched (new_team n (bomp_barrier_init (Z.of_nat n))) in
  t_threads s !! i = Some thi -> t_threads s !! j = Some thj ->
  (left thi <= arrived thj)%nat /\ (arrived thi <= S (arrived thj))%nat.
Proof.
  intros Hn s Hi Hj. destruct (barrier_inv_run 0 _ sched (new_team_inv n Hn)) as (r & _ & Hinv).
  pose proof (thread_ok_bounds r thi (Forall_lookup_1 _ _ _ _ (inv_threads _ _ Hinv) Hi)).
  pose proof (thread_ok_bounds r thj (Forall_lookup_1 _ _ _ _ (inv_threads _ _ Hinv) Hj)). lia.
Qed.

(** No thread is held back: once every thread has arrived [k] times, all
    have left [k] times when each has been given three more steps and then one
    more, however the steps are interleaved. *)
Theorem barrier_releases n sched k s1 s2 :
  1 <= Z.of_nat n < 2 ^ 32 ->
  let s := run sched (new_team n (bomp_barrier_init (Z.of_nat n))) in
  Forall (fun th => arrived th = k) (t_threads s) ->
  (forall i, (i < n)%nat -> (3 <= count_occ Nat.eq_dec s1 i)%nat /\ i ∈ s2) ->
  Forall (fun th => (k <= left th)%nat) (t_threads (run (s1 ++ s2) s)).
Proof.
  intros Hn s Hk Hs. destruct (barrier_inv_run 0 _ sched (new_team_inv n Hn)) as (r & _ & Hinv).
  fold s in Hinv. rewrite run_app.
  assert (length (t_threads s) = n) as Hlen.
  { subst s. rewrite run_length. apply length_replicate. }
  clearbody s.
  assert (exists r', (k <= r')%nat /\ barrier_inv r' (run s1 s)) as (r' & Hr' & Hinv').
  { destruct (inv_phase _ _ Hinv) as [Hg|[i Hc]].
    - destruct (barrier_inv_run r s s1 Hinv) as (r' & ? & ?). exists r'. split; [|done].
      pose proof (gathering_behind _ _ _ Hinv Hg Hk). lia.
    - pose proof Hc as (Ha & _ & th & Hi & _). pose proof (lookup_lt_Some _ _ _ Hi).
      pose proof (Forall_lookup_1 _ _ _ _ Ha Hi). pose proof (Forall_lookup_1 _ _ _ _ Hk Hi).
      destruct (closing_run r i s th s1 Hinv Hc Hi) as (r' & ? & ?).
      { destruct (Hs i ltac:(lia)) as [? _]. unfold stage. destruct (t_pc th); lia. }
      cbv beta in *. exists r'. split; [lia|done]. }
  apply Forall_lookup. intros i th Hi. pose proof (lookup_lt_Some _ _ _ Hi) as Hlt.
  rewrite !run_length, Hlen in Hlt.
  destruct (lookup_lt_is_Some_2 (t_threads (run s1 s)) i) as [th1 H1]; [by rewrite run_length, Hlen|].
  destruct (run_releases _ _ s2 i th1 Hinv' H1) as (th2 & H2 & ?); [by apply Hs|].
  rewrite Hi in H2. injection H2 as <-. lia.
Qed.

(** The theorem's hypotheses hold: thread 0 has left, thread 1 is still waiting. *)
Lemma barrier_separates_rounds_witness :
  let s := run [0; 0; 1; 1; 2; 2; 2; 2; 2; 0]%nat (new_team 3 (bomp_barrier_init 3)) in
  (1 <= Z.of_nat 3 < 2 ^ 32) /\
  t_threads s !! 0%nat = Some (Thread Outside 1 1) /\
  t_threads s !! 1%nat = Some (Thread (Waiting 0) 1 0) /\
  (1 <= 1)%nat /\ (1 <= 2)%nat.
Proof.
  split; [lia|]. split; [vm_compute; reflexivity|]. split; [vm_compute; reflexivity|].
  apply (barrier_separates_rounds 3 [0; 0; 1; 1; 2; 2; 2; 2; 2; 0]%nat 0 1
    (Thread Outside 1 1) (Thread (Waiting 0) 1 0)); [lia|vm_compute; reflexivity..].
Defined.

(** The theorem's hypotheses hold: both threads of a team of two have arrived. *)
Lemma barrier_releases_witness :
  let s := run [0; 0; 1; 1]%nat (new_team 2 (bomp_barrier_init 2)) in
  Forall (fun th => arrived th = 1%nat) (t_threads s) /\
  Forall (fun th => (1 <= left th)%nat) (t_threads (run [0; 0; 0; 1; 1; 1; 0; 1]%nat s)).
Proof.
  split; [repeat constructor|].
  apply (barrier_releases 2 [0; 0; 1; 1]%nat 1 [0; 0; 0; 1; 1; 1]%nat [0; 1]%nat).
  - vm_compute; intuition congruence.
  - repeat constructor.
  - intros [|[|i]] Hi; [..|lia]; (split; [vm_compute; lia|set_solver]).
Defined.
