(* ===== verification/ThreadPool.v ===== *)
(** * The thread pool (src/lib/libbomp/popcorn_threadpool.c)

    A circular queue of tasks under a lock, filled by the master thread and
    emptied by the workers.  The results of pthread calls and of malloc are
    arguments; a worker's critical section is one step, and an explicit
    sequence of events interleaves the master and the workers. *)

From S2P Require Import Prelude Schedule Barrier.

(** ** Definitions *)

Definition threadpool_invalid : Z := -1.
Definition threadpool_lock_failure : Z := -2.
Definition threadpool_queue_full : Z := -3.
Definition threadpool_thread_failure : Z := -4.
Definition threadpool_shutdown : Z := -5.
Definition graceful_shutdown : Z := 1.

(** [threadpool_task_t]; its barrier is never used. *)
Record threadpool_task_t := Task { task_fn : Z; task_args : Z }.

#[export] Instance task_eq_dec : EqDecision threadpool_task_t.
Proof. solve_decision. Defined.

Record threadpool_t := Pool {
  queue : list threadpool_task_t;
  thread_count : Z;
  queue_size : Z;
  head : Z;
  tail : Z;
  count : Z;
  shutdown : Z;
  started : Z;
  global_barrier : bomp_barrier
}.

(** The results of the pthread calls of an operation. *)
Record pthread_results := Results {
  rc_lock : Z; rc_unlock : Z; rc_broadcast : Z; rc_join : Z -> Z
}.

Definition all_succeed : pthread_results := Results 0 0 0 (fun _ => 0).

Definition int_mod (a b : Z) : outcome Z := rem int32_t a b.

Definition threadpool_add (rc : pthread_results) (pool : option threadpool_t) (fn args : Z)
    : outcome (Z * option threadpool_t) :=
  match pool with
  | None => Ret (threadpool_invalid, pool)
  | Some p =>
    if fn =? NULL then Ret (threadpool_invalid, pool)
    else if truthy (rc_lock rc) then Ret (threadpool_lock_failure, pool)
    else
      next ← int_mod (tail p + 1) (queue_size p);
      '(result, p') ←
        (if count p =? queue_size p then Ret (threadpool_queue_full, p)
         else if truthy (shutdown p) then Ret (threadpool_shutdown, p)
         else
           q ← get (zupd (queue p) (tail p) (Task fn args));
           Ret (if truthy (rc_broadcast rc) then threadpool_lock_failure else 0,
             Pool q (thread_count p) (queue_size p) (head p) next (count p + 1)
               (shutdown p) (started p) (global_barrier p)));
      Ret (if truthy (rc_unlock rc) then threadpool_lock_failure else result, Some p')
  end.

(** What a worker does once it holds the lock: it sleeps on the condition
    variable, ends, or has a task to run. *)
Inductive worker_action :=
  | Sleep
  | Die
  | Take (t : threadpool_task_t).

Definition threadpool_run_step (p : threadpool_t) : outcome (worker_action * threadpool_t) :=
  if (count p =? 0) && negb (truthy (shutdown p)) then Ret (Sleep, p)
  else if (shutdown p =? graceful_shutdown) && (count p =? 0) then
    Ret (Die, Pool (queue p) (thread_count p) (queue_size p) (head p) (tail p) (count p)
      (shutdown p) (started p - 1) (global_barrier p))
  else
    t ← get (znth (queue p) (head p));
    h ← int_mod (head p + 1) (queue_size p);
    Ret (Take t, Pool (queue p) (thread_count p) (queue_size p) h (tail p) (count p - 1)
      (shutdown p) (started p) (global_barrier p)).

(** [threadpool_free] frees the pool unless workers are left. *)
Definition threadpool_free (p : option threadpool_t) : Z :=
  match p with
  | None => -1
  | Some p => if 0 <? started p then -1 else 0
  end.

Definition set_shutdown (p : threadpool_t) : threadpool_t :=
  Pool (queue p) (thread_count p) (queue_size p) (head p) (tail p) (count p)
    1 (started p) (global_barrier p).

Definition join_failures (rc : pthread_results) (n : Z) : list Z :=
  filter (fun i => rc_join rc i <> 0) (seqZ 0 n).

(** The part of [threadpool_destroy] before the joins: the pool, the result so
    far, whether the workers are to be joined, and whether the lock is held. *)
Definition destroy_begin (rc : pthread_results) (p : threadpool_t)
    : threadpool_t * Z * bool * bool :=
  if truthy (rc_lock rc) then (p, threadpool_lock_failure, false, false)
  else if truthy (shutdown p) then (p, 0, false, true)
  else if truthy (rc_broadcast rc) then (set_shutdown p, threadpool_lock_failure, true, true)
  else if truthy (rc_unlock rc) then (set_shutdown p, threadpool_lock_failure, true, true)
  else (set_shutdown p, 0, true, false).

(** The part after them; [p] is the pool the joined workers left behind. *)
Definition destroy_end (rc : pthread_results) (result : Z) (joins : bool) (p : threadpool_t)
    : Z * bool :=
  let result :=
    if joins && negb (bool_decide (join_failures rc (thread_count p) = []))
    then threadpool_thread_failure else result in
  (result, (result =? 0) && (threadpool_free (Some p) =? 0)).

(** What [threadpool_create] gets from malloc and pthreads. *)
Record create_results := CreateResults {
  cr_pool : bool;
  cr_threads : bool;
  cr_queue : option (list threadpool_task_t);   (* the uninitialised queue *)
  cr_barrier : bool;
  cr_mutex_init : Z;
  cr_cond_init : Z;
  cr_create : Z -> Z                            (* per thread *)
}.

(** The loop that starts the workers: how many it started, and whether all. *)
Fixpoint start_workers (create : Z -> Z) (fuel : nat) (i : Z) : Z * bool :=
  match fuel with
  | O => (i, true)
  | S fuel => if truthy (create i) then (i, false) else start_workers create fuel (i + 1)
  end.

(** The new pool, NULL on failure, and [bomp_num_threads]. *)
Definition threadpool_create (cr : create_results) (num_threads size bomp_num_threads : Z)
    : outcome (option threadpool_t * Z) :=
  if (num_threads <=? 0) || (size <=? 0) then Ret (None, bomp_num_threads)
  else
    n ← arith int32_t (num_threads + 1);
    let bomp_num_threads := conv uint32_t n in
    if negb (cr_pool cr) then Ret (None, bomp_num_threads)
    else if negb (cr_barrier cr) then Fault
    else
      let barrier := bomp_barrier_init num_threads in
      if truthy (cr_mutex_init cr) || truthy (cr_cond_init cr) || negb (cr_threads cr)
      then Ret (None, bomp_num_threads)
      else match cr_queue cr with
      | None => Ret (None, bomp_num_threads)
      | Some q =>
          let '(k, ok) := start_workers (cr_create cr) (Z.to_nat num_threads) 0 in
          Ret (if ok then Some (Pool q k size 0 0 0 0 k barrier) else None, bomp_num_threads)
      end.

Definition threadpool_getNumThreads (p : threadpool_t) : Z := thread_count p.

(** *** The pool with its workers *)

Inductive worker :=
  | Idle
  | Busy (t : threadpool_task_t)
  | Dead.

#[export] Instance worker_eq_dec : EqDecision worker.
Proof. solve_decision. Defined.

(** The tasks accepted from the master, taken by workers and finished are
    recorded in order. *)
Record pool_state := PoolState {
  ps_pool : threadpool_t;
  ps_workers : list worker;
  accepted : list threadpool_task_t;
  taken : list threadpool_task_t;
  finished : list threadpool_task_t
}.

Inductive event :=
  | Submit (fn args : Z)    (* threadpool_add *)
  | Work (i : nat)          (* the next step of worker i *)
  | Destroy.                (* threadpool_destroy, up to its joins *)

(** [threadpool_run] of worker [i]: a critical section, or the end of a task. *)
Definition work (s : pool_state) (i : nat) (w : worker) : outcome pool_state :=
  match w with
  | Idle =>
      '(a, p) ← threadpool_run_step (ps_pool s);
      Ret match a with
      | Sleep => s
      | Die => PoolState p (<[i := Dead]> (ps_workers s)) (accepted s) (taken s) (finished s)
      | Take t =>
          PoolState p (<[i := Busy t]> (ps_workers s)) (accepted s) (taken s ++ [t]) (finished s)
      end
  | Busy t =>
      Ret (PoolState (ps_pool s) (<[i := Idle]> (ps_workers s)) (accepted s) (taken s)
        (finished s ++ [t]))
  | Dead => Ret s
  end.

Definition pool_step (s : pool_state) (e : event) : outcome pool_state :=
  match e with
  | Submit fn args =>
      '(rc, p) ← threadpool_add all_succeed (Some (ps_pool s)) fn args;
      p ← get p;
      Ret (PoolState p (ps_workers s)
        (if rc =? 0 then accepted s ++ [Task fn args] else accepted s) (taken s) (finished s))
  | Work i =>
      match ps_workers s !! i with
      | Some w => work s i w
      | None => Ret s
      end
  | Destroy =>
      let '(p, _, _, _) := destroy_begin all_succeed (ps_pool s) in
      Ret (PoolState p (ps_workers s) (accepted s) (taken s) (finished s))
  end.

Fixpoint run_pool (events : list event) (s : pool_state) : outcome pool_state :=
  match events with
  | [] => Ret s
  | e :: events => s ← pool_step s e; run_pool events s
  end.

Definition new_pool_state (p : threadpool_t) : pool_state :=
  PoolState p (replicate (Z.to_nat (thread_count p)) Idle) [] [] [].

(** ** Specification *)

(** The tasks in the queue, oldest first. *)
Fixpoint ring (q : list threadpool_task_t) (size h : Z) (n : nat) : list threadpool_task_t :=
  match n with
  | O => []
  | S n => match znth q (h mod size) with
           | Some t => t :: ring q size (h + 1) n
           | None => []
           end
  end.

Definition contents (p : threadpool_t) : list threadpool_task_t :=
  ring (queue p) (queue_size p) (head p) (Z.to_nat (count p)).

Record pool_ok (p : threadpool_t) : Prop := PoolOk {
  ok_size : 0 < queue_size p < 2 ^ 31 - 1;
  ok_queue : zlen (queue p) = queue_size p;
  ok_head : 0 <= head p < queue_size p;
  ok_count : 0 <= count p <= queue_size p;
  ok_tail : tail p = (head p + count p) mod queue_size p
}.

(** ** Lemmas *)

Lemma int_mod_spec a b : 0 <= a < 2 ^ 31 -> 0 < b -> int_mod a b = Ret (a mod b).
Proof. intros. apply rem_mod; [done|unfold ity_max; cbn; lia|done]. Qed.

(** *** The circular queue *)

Lemma ring_mod q size h n : ring q size (h mod size) n = ring q size h n.
Proof.
  destruct (decide (size = 0)) as [->|Hs]; [by rewrite Z.mod_0_r|].
  revert h. induction n as [|n IH]; intros h; [done|]. cbn. rewrite Z.mod_mod by done.
  destruct (znth q (h mod size)); [|done]. f_equal.
  rewrite <- (IH (h mod size + 1)), <- (IH (h + 1)). f_equal.
  by rewrite Z.add_mod_idemp_l.
Qed.

Lemma ring_length q size h n : 0 < size -> zlen q = size -> length (ring q size h n) = n.
Proof.
  intros Hs Hq. revert h. induction n as [|n IH]; intros h; [done|]. cbn.
  pose proof (Z.mod_pos_bound h size Hs).
  destruct (znth_is_Some q (h mod size)) as [t ->]; [lia|]. cbn. by rewrite IH.
Qed.

Lemma mod_shift_ne a k n : 0 < k < n -> (a + k) mod n <> a mod n.
Proof.
  intros Hk He. pose proof (Z.div_mod a n). pose proof (Z.div_mod (a + k) n).
  assert (n * ((a + k) / n - a / n) = k) by lia.
  destruct (Z.le_gt_cases ((a + k) / n - a / n) 0); nia.
Qed.

(** Writing behind the last of [n] elements. *)
Lemma ring_push q q' size h n t :
  0 < size -> zlen q = size -> Z.of_nat n < size ->
  zupd q ((h + Z.of_nat n) mod size) t = Some q' ->
  ring q' size h (S n) = ring q size h n ++ [t].
Proof.
  intros Hs Hq. revert h. induction n as [|n IH]; intros h Hn Hu.
  - rewrite Z.add_0_r in Hu. cbn. by rewrite (znth_zupd_eq _ _ _ _ Hu).
  - replace (h + Z.of_nat (S n)) with (h + 1 + Z.of_nat n) in Hu by lia.
    specialize (IH (h + 1) ltac:(lia) Hu).
    cbn [ring] in IH |- *. pose proof (Z.mod_pos_bound h size Hs).
    rewrite (znth_zupd_ne _ _ _ (h mod size) _ Hu).
    + destruct (znth_is_Some q (h mod size)) as [t0 ->]; [lia|]. cbn. f_equal. exact IH.
    + intros He. apply (mod_shift_ne h (1 + Z.of_nat n) size); [lia|].
      by replace (h + (1 + Z.of_nat n)) with (h + 1 + Z.of_nat n) by lia.
Qed.

(** *** Operations *)

Lemma threadpool_add_spec p fn args :
  pool_ok p -> fn <> NULL ->
  exists rc p', threadpool_add all_succeed (Some p) fn args = Ret (rc, Some p') /\ pool_ok p' /\
    shutdown p' = shutdown p /\ started p' = started p /\ queue_size p' = queue_size p /\
    if count p =? queue_size p then rc = threadpool_queue_full /\ p' = p
    else if truthy (shutdown p) then rc = threadpool_shutdown /\ p' = p
    else rc = 0 /\ contents p' = contents p ++ [Task fn args].
Proof.
  intros Hp Hfn. pose proof Hp as [Hs Hq Hh Hc Ht]. unfold threadpool_add.
  rewrite (proj2 (Z.eqb_neq fn NULL)) by done. cbn [truthy rc_lock rc_unlock rc_broadcast all_succeed Z.eqb negb].
  pose proof (Z.mod_pos_bound (head p + count p) (queue_size p)).
  rewrite int_mod_spec by lia. cbn [mbind outcome_bind].
  destruct (Z.eqb_spec (count p) (queue_size p)); [by exists threadpool_queue_full, p|].
  destruct (truthy (shutdown p)); [by exists threadpool_shutdown, p|].
  rewrite zupd_Some by lia. cbn [mbind outcome_bind get].
  eexists _, _. split; [done|]. split; [split; cbn|cbn; split_and!; try done].
  - done.
  - unfold zlen. by rewrite length_insert.
  - done.
  - lia.
  - rewrite Ht, Z.add_mod_idemp_l by lia. f_equal. lia.
  - unfold contents. cbn. rewrite Z2Nat.inj_add by lia. change (Z.to_nat 1) with 1%nat.
    rewrite Nat.add_1_r. apply ring_push; try done; try lia.
    rewrite Z2Nat.id by lia. rewrite <- Ht. apply zupd_Some. lia.
Qed.

Lemma contents_nil p : pool_ok p -> contents p = [] <-> count p = 0.
Proof.
  intros [Hs Hq Hh Hc Ht]. unfold contents. split.
  - intros He. pose proof (ring_length (queue p) (queue_size p) (head p) (Z.to_nat (count p))) as Hl.
    rewrite He in Hl. cbn in Hl. lia.
  - by intros ->.
Qed.

Lemma contents_length p : pool_ok p -> zlen (contents p) = count p.
Proof. intros [Hs Hq Hh Hc Ht]. unfold contents, zlen. rewrite ring_length; lia. Qed.

Lemma threadpool_run_step_spec p :
  pool_ok p -> shutdown p = 0 \/ shutdown p = 1 ->
  exists a p', threadpool_run_step p = Ret (a, p') /\ pool_ok p' /\ shutdown p' = shutdown p /\
    match contents p with
    | [] => if shutdown p =? 0 then a = Sleep /\ p' = p
            else a = Die /\ contents p' = [] /\ started p' = started p - 1
    | t :: rest => a = Take t /\ contents p' = rest /\ started p' = started p
    end.
Proof.
  intros Hp Hsd. pose proof Hp as [Hs Hq Hh Hc Ht]. pose proof (contents_nil p Hp) as Hnil.
  unfold threadpool_run_step. destruct (Z.eqb_spec (count p) 0) as [H0|H0].
  - rewrite (proj2 Hnil H0). destruct Hsd as [Hsd|Hsd]; rewrite Hsd; cbn.
    + by eexists _, _.
    + eexists _, _. split; [done|]. split; [by split|]. cbn. split_and!; try done.
      unfold contents. cbn. by rewrite H0.
  - rewrite andb_false_r, andb_false_l. unfold contents in *.
    destruct (Z.to_nat (count p)) as [|n] eqn:Hn; [lia|]. cbn [ring].
    rewrite (Z.mod_small (head p)) by lia.
    destruct (znth_is_Some (queue p) (head p)) as [t Hn']; [lia|]. rewrite Hn'.
    cbn [get mbind outcome_bind]. rewrite int_mod_spec by lia. cbn [mbind outcome_bind].
    pose proof (Z.mod_pos_bound (head p + 1) (queue_size p)).
    eexists _, _. split; [done|]. split; [split; cbn; try done; try lia|cbn; split_and!; try done].
    + rewrite Ht, Z.add_mod_idemp_l by lia. f_equal. lia.
    + rewrite ring_mod. f_equal. lia.
Qed.

(** Neither operation touches the barrier. *)
Lemma threadpool_add_barrier rc p fn args r p' :
  threadpool_add rc (Some p) fn args = Ret (r, Some p') -> global_barrier p' = global_barrier p.
Proof.
  unfold threadpool_add. destruct (fn =? NULL); [by intros [= _ <-]|].
  destruct (truthy (rc_lock rc)); [by intros [= _ <-]|]. intros (? & _ & Ht)%outcome_bind_Ret.
  apply outcome_bind_Ret in Ht as ([r1 p1] & Hp1 & [= _ <-]).
  destruct (count p =? queue_size p); [by injection Hp1 as _ <-|].
  destruct (truthy (shutdown p)); [by injection Hp1 as _ <-|].
  apply outcome_bind_Ret in Hp1 as (? & _ & [= _ <-]). done.
Qed.

Lemma threadpool_run_step_barrier p a p' :
  threadpool_run_step p = Ret (a, p') -> global_barrier p' = global_barrier p /\ queue_size p' = queue_size p.
Proof.
  unfold threadpool_run_step. destruct (_ && _); [by intros [= _ <-]|].
  destruct (_ && _); [by intros [= _ <-]|]. intros (? & _ & Ht)%outcome_bind_Ret.
  apply outcome_bind_Ret in Ht as (? & _ & [= _ <-]). done.
Qed.

(** *** The invariant of the pool and its workers *)

Definition busy (ws : list worker) : list threadpool_task_t :=
  omap (fun w => match w with Busy t => Some t | _ => None end) ws.

Definition alive (ws : list worker) : Z := Z.of_nat (length (filter (fun w => w <> Dead) ws)).

Record state_ok (s : pool_state) : Prop := StateOk {
  so_pool : pool_ok (ps_pool s);
  so_shutdown : shutdown (ps_pool s) = 0 \/ shutdown (ps_pool s) = 1;
  so_fifo : accepted s = taken s ++ contents (ps_pool s);
  so_taken : taken s ≡ₚ finished s ++ busy (ps_workers s);
  so_workers : ps_workers s <> [];
  so_started : started (ps_pool s) = alive (ps_workers s);
  so_dead : Dead ∈ ps_workers s ->
    shutdown (ps_pool s) = 1 /\ contents (ps_pool s) = []
}.

Lemma busy_insert ws i w w' :
  ws !! i = Some w -> busy [w'] ++ busy ws ≡ₚ busy [w] ++ busy (<[i := w']> ws).
Proof.
  intros Hi. pose proof (lookup_lt_Some _ _ _ Hi) as Hlt. unfold busy.
  rewrite <- (take_drop_middle ws i w) at 1 by done. rewrite (insert_take_drop _ _ _ Hlt).
  rewrite !omap_app, <- !omap_app.
  change (w :: drop (S i) ws) with ([w] ++ drop (S i) ws).
  change (w' :: drop (S i) ws) with ([w'] ++ drop (S i) ws).
  rewrite !omap_app. solve_Permutation.
Qed.

Lemma alive_insert ws i w w' :
  ws !! i = Some w ->
  alive (<[i := w']> ws) + (if decide (w <> Dead) then 1 else 0) =
    alive ws + (if decide (w' <> Dead) then 1 else 0).
Proof.
  intros Hi. pose proof (count_insert (fun w => w <> Dead) ws i w w' Hi). unfold alive.
  repeat case_decide; lia.
Qed.

Lemma alive_same ws i w w' :
  ws !! i = Some w -> w <> Dead -> w' <> Dead -> alive (<[i := w']> ws) = alive ws.
Proof. intros Hi Hw Hw'. pose proof (alive_insert _ _ _ w' Hi). do 2 (rewrite decide_True in * by done). lia. Qed.

Lemma alive_die ws i w :
  ws !! i = Some w -> w <> Dead -> alive (<[i := Dead]> ws) = alive ws - 1.
Proof.
  intros Hi Hw. pose proof (alive_insert _ _ _ Dead Hi) as H.
  rewrite decide_True, decide_False in H by (done || tauto). lia.
Qed.

Lemma dead_insert (ws : list worker) i w' : Dead ∈ <[i := w']> ws -> w' = Dead \/ Dead ∈ ws.
Proof.
  intros [j Hj]%list_elem_of_lookup. destruct (decide (j = i)) as [->|].
  - left. rewrite list_lookup_insert_eq in Hj; [by injection Hj|].
    apply lookup_lt_Some in Hj. by rewrite length_insert in Hj.
  - right. rewrite list_lookup_insert_ne in Hj by done. by eapply list_elem_of_lookup_2.
Qed.

Lemma insert_not_nil {A} (l : list A) i x : l <> [] -> <[i := x]> l <> [].
Proof. destruct l, i; done. Qed.

Create HintDb pool.
#[local] Hint Resolve insert_not_nil : pool.

Lemma submit_ok s fn args :
  state_ok s -> exists s', pool_step s (Submit fn args) = Ret s' /\ state_ok s'.
Proof.
  intros Hok. destruct (decide (fn = NULL)) as [->|Hfn]; [exists s; destruct s; by split|].
  destruct Hok as [Hp Hsd Hf Ht Hws Hst Hd].
  destruct (threadpool_add_spec (ps_pool s) fn args Hp Hfn) as (rc & p' & Ha & Hp' & Hsd' & Hst' & _ & Hc).
  cbn [pool_step]. rewrite Ha. cbn. eexists. split; [done|].
  destruct (count _ =? queue_size _) eqn:He; [destruct Hc as [-> ->]; by split|].
  destruct (truthy (shutdown (ps_pool s))) eqn:Htr; destruct Hc as [-> Hc];
    [subst p'; by split|].
  split; cbn; rewrite ?Hsd', ?Hst'; try done.
  - by rewrite Hc, Hf, app_assoc.
  - intros Hin. apply Hd in Hin as [Hs1 _]. rewrite Hs1 in Htr. done.
Qed.

Lemma worker_ok s i w :
  state_ok s -> ps_workers s !! i = Some w -> exists s', work s i w = Ret s' /\ state_ok s'.
Proof.
  intros [Hp Hsd Hf Ht Hws Hst Hd] Hi. destruct w as [|t|]; cbn [work].
  - destruct (threadpool_run_step_spec (ps_pool s) Hp Hsd) as (a & p' & -> & Hp' & Hsd' & Ha).
    cbn [mbind outcome_bind]. eexists. split; [done|].
    pose proof (busy_insert _ i _ Dead Hi) as HbD.
    pose proof (alive_die _ i _ Hi ltac:(done)) as HaD. cbn in HbD.
    destruct (contents (ps_pool s)) as [|t rest] eqn:Hc.
    + destruct (shutdown (ps_pool s) =? 0) eqn:Hs0.
      * destruct Ha as [-> ->]. split; try done; by rewrite ?Hc.
      * destruct Ha as (-> & Hc' & Hst'). split; cbn; rewrite ?Hsd'; try done; try congruence; auto with pool.
        -- by rewrite <- HbD.
        -- intros _. split; [|done]. apply Z.eqb_neq in Hs0. tauto.
    + destruct Ha as (-> & Hc' & Hst'). pose proof (busy_insert _ i _ (Busy t) Hi) as HbB.
      pose proof (alive_same _ i _ (Busy t) Hi ltac:(done) ltac:(done)) as HaB. cbn in HbB.
      split; cbn; rewrite ?Hsd'; try done; try congruence; auto with pool.
      * by rewrite Hf, Hc', <- app_assoc.
      * rewrite <- HbB, Ht. solve_Permutation.
      * intros [?|Hin]%dead_insert; [done|]. destruct (Hd Hin) as [_ ?]. congruence.
  - eexists. split; [done|]. pose proof (busy_insert _ i _ Idle Hi) as Hb.
    pose proof (alive_same _ i _ Idle Hi ltac:(done) ltac:(done)) as Hal. cbn in Hb. split; cbn; try done; auto with pool.
    + rewrite Ht, Hb. solve_Permutation.
    + lia.
    + intros [?|Hin]%dead_insert; [done|auto].
  - eexists. split; [done|]. by split.
Qed.

Lemma destroy_ok s : state_ok s -> exists s', pool_step s Destroy = Ret s' /\ state_ok s'.
Proof.
  intros [Hp Hsd Hf Ht Hws Hst Hd]. cbn. unfold destroy_begin. cbn.
  destruct (truthy (shutdown (ps_pool s))); eexists; (split; [done|]); [by split|].
  pose proof Hp as [? ? ? ? ?]. split; cbn; try done; [by right|].
  intros Hin. split; [done|]. by apply Hd.
Qed.

Lemma run_pool_ok events s :
  state_ok s -> exists s', run_pool events s = Ret s' /\ state_ok s'.
Proof.
  revert s. induction events as [|e events IH]; intros s Hs; [by exists s|].
  assert (exists s1, pool_step s e = Ret s1 /\ state_ok s1) as (s1 & He & Hs1).
  { destruct e as [fn args|i|]; [by apply submit_ok| |by apply destroy_ok].
    cbn. destruct (ps_workers s !! i) eqn:Hi; [by eapply worker_ok|by exists s]. }
  cbn [run_pool]. rewrite He. cbn. by apply IH.
Qed.

Lemma start_workers_all create fuel i k :
  start_workers create fuel i = (k, true) -> k = i + Z.of_nat fuel.
Proof.
  revert i. induction fuel as [|fuel IH]; intros i; cbn; [intros [= ->]; lia|].
  destruct (truthy (create i)); [done|]. intros ->%IH. lia.
Qed.

Lemma start_workers_ok fuel i :
  start_workers (fun _ => 0) fuel i = (i + Z.of_nat fuel, true).
Proof.
  revert i. induction fuel as [|fuel IH]; intros i; cbn; [f_equal; lia|].
  rewrite IH. f_equal. lia.
Qed.

(** A pool that [threadpool_create] returns is empty, with all workers
    started and a barrier for the workers only. *)
Lemma threadpool_create_spec cr num_threads size bn p bn' :
  threadpool_create cr num_threads size bn = Ret (Some p, bn') ->
  (forall q, cr_queue cr = Some q -> zlen q = size) -> size < 2 ^ 31 - 1 ->
  pool_ok p /\ contents p = [] /\ shutdown p = 0 /\ 0 < num_threads < 2 ^ 31 - 1 /\
  started p = num_threads /\ thread_count p = num_threads /\
  global_barrier p = bomp_barrier_init num_threads /\ bn' = num_threads + 1.
Proof.
  unfold threadpool_create. intros Hc Hq Hs. destruct (Z.leb_spec num_threads 0); [done|].
  destruct (Z.leb_spec size 0); [done|]. cbn [orb] in Hc.
  destruct (arith int32_t (num_threads + 1)) as [n| | |] eqn:Hn; try done. cbn in Hc.
  unfold arith in Hn. cbn [ity_signed int32_t] in Hn.
  destruct ((ity_min int32_t <=? num_threads + 1) && (num_threads + 1 <=? ity_max int32_t)) eqn:Hr; [|done].
  injection Hn as <-. apply andb_true_iff in Hr as [_ Hr%Z.leb_le].
  destruct (cr_pool cr), (cr_barrier cr); cbn in Hc; try done.
  destruct (_ || _); [done|]. destruct (cr_queue cr) as [q|] eqn:Hcq; [|done].
  destruct (start_workers _ _ _) as [k ok] eqn:Hk. destruct ok; [|done]. injection Hc as <- <-.
  apply start_workers_all in Hk. rewrite Z2Nat.id, Z.add_0_l in Hk by lia. subst k.
  unfold ity_max in Hr. cbn in Hr. split_and!; try done; try lia.
  - split; cbn; [lia|auto|lia|lia|]. by rewrite Z.mod_0_l by lia.
  - rewrite wrap_small; lia.
Qed.

Lemma threadpool_create_size cr num_threads size bn p bn' :
  threadpool_create cr num_threads size bn = Ret (Some p, bn') -> queue_size p = size.
Proof.
  unfold threadpool_create. intros Hc. destruct (_ || _); [done|].
  destruct (arith int32_t (num_threads + 1)); try done. cbn [mbind outcome_bind] in Hc.
  destruct (cr_pool cr), (cr_barrier cr); cbn in Hc; try done.
  destruct (_ || _); [done|]. destruct (cr_queue cr); [|done].
  destruct (start_workers _ _ _) as [k []]; [by injection Hc as <- _|done].
Qed.

Lemma busy_dead ws : Forall (fun w => w = Dead) ws -> busy ws = [].
Proof. induction 1 as [|w ws -> _ IH]; [done|]. exact IH. Qed.

Lemma new_pool_ok p num_threads :
  pool_ok p -> contents p = [] -> shutdown p = 0 -> 0 < num_threads ->
  started p = num_threads -> thread_count p = num_threads -> state_ok (new_pool_state p).
Proof.
  intros Hp Hct Hsd Hn Hst Htc. unfold new_pool_state. rewrite Htc.
  assert (Forall (fun w => w = Idle) (replicate (Z.to_nat num_threads) Idle)) as Hi
    by by apply Forall_replicate.
  split; cbn [ps_pool ps_workers accepted taken finished]; auto.
  - induction Hi as [|w ws -> _ IH]; [done|]. exact IH.
  - destruct (Z.to_nat num_threads) eqn:?; [lia|done].
  - rewrite Hst. unfold alive. rewrite count_Forall, length_replicate; [lia|].
    eapply Forall_impl; [exact Hi|]. by intros ? ->.
  - by intros [? _]%elem_of_replicate.
Qed.

(** ** Properties *)

(** C38: a pool and its workers run every task exactly once, first come first
    served: under every interleaving of submissions, workers and a shutdown no
    step is undefined, the tasks accepted are those taken by workers followed
    by those in the queue, the tasks taken are those finished and those being
    run, and when all workers have ended every accepted task is finished. *)
Theorem pool_runs_every_task cr num_threads size bn p bn' events :
  threadpool_create cr num_threads size bn = Ret (Some p, bn') ->
  (forall q, cr_queue cr = Some q -> zlen q = size) -> size < 2 ^ 31 - 1 ->
  exists s, run_pool events (new_pool_state p) = Ret s /\
    accepted s = taken s ++ contents (ps_pool s) /\
    zlen (contents (ps_pool s)) <= queue_size (ps_pool s) /\
    taken s ≡ₚ finished s ++ busy (ps_workers s) /\
    started (ps_pool s) = alive (ps_workers s) /\
    (Forall (fun w => w = Dead) (ps_workers s) -> accepted s ≡ₚ finished s).
Proof.
  intros Hc Hq Hs. destruct (threadpool_create_spec _ _ _ _ _ _ Hc Hq Hs)
    as (Hp & Hct & Hsd & [Hn _] & Hst & Htc & _ & _).
  destruct (run_pool_ok events (new_pool_state p)) as (s & Hr & [Hp' Hsd' Hf Ht Hws Hst' Hd]).
  - by apply new_pool_ok with num_threads.
  - exists s. split_and!; try done.
    + rewrite contents_length by done. by destruct (ok_count _ Hp').
    + intros Hall. destruct (ps_workers s) as [|w ws] eqn:Hw; [done|].
      assert (w = Dead) as -> by by inversion Hall. destruct Hd as [_ Hd]; [left|].
      rewrite Hf, Hd, app_nil_r, Ht.
      enough (busy (Dead :: ws) = []) as -> by by rewrite app_nil_r.
      apply (busy_dead _ Hall).
Qed.

(** The theorem's hypotheses hold: two workers, a queue of two tasks, three
    submissions of which the third finds the queue full, and a shutdown. *)
Lemma pool_runs_every_task_witness :
  let cr := CreateResults true true (Some [Task 0 0; Task 0 0]) true 0 0 (fun _ => 0) in
  let p := Pool [Task 0 0; Task 0 0] 2 2 0 0 0 0 2 (bomp_barrier_init 2) in
  let events := [Submit 7 1; Submit 7 2; Submit 7 3; Work 0; Work 1; Destroy; Work 1; Work 1;
                 Work 0; Work 0]%nat in
  threadpool_create cr 2 2 1 = Ret (Some p, 3) /\
  exists s, run_pool events (new_pool_state p) = Ret s /\
    accepted s = [Task 7 1; Task 7 2] /\ finished s = [Task 7 2; Task 7 1] /\
    accepted s ≡ₚ finished s.
Proof.
  intros cr p events. assert (threadpool_create cr 2 2 1 = Ret (Some p, 3)) as Hc by (vm_compute; reflexivity).
  split; [exact Hc|].
  destruct (pool_runs_every_task cr 2 2 1 p 3 events Hc) as (s & Hr & _ & _ & _ & _ & Hall).
  - intros q [= <-]. reflexivity.
  - lia.
  - exists s. split; [exact Hr|]. vm_compute in Hr. injection Hr as <-.
    split; [reflexivity|]. split; [reflexivity|]. apply Hall. repeat constructor.
Defined.

(** Destroying a pool that is already shut down returns success with the lock
    held. *)
Lemma destroy_again_keeps_lock p :
  shutdown p <> 0 -> destroy_begin all_succeed p = (p, 0, false, true).
Proof. intros H. unfold destroy_begin. cbn. by rewrite (proj2 (truthy_true _) H). Qed.
