(* ===== verification/Parallel.v ===== *)
(** * Parallel regions (src/lib/libbomp: omp.c, parallel.c, processing.c,
    linux_backend.c, kmp.c)

    The runtime's global state, the calls by which the compiled program starts
    and ends a parallel region, and the thread-local data that gives each
    thread its number.  Threads of the operating system are identified by
    numbers; the region's work descriptors are C objects, kept by address. *)

From stdpp Require Import strings.
From S2P Require Import Prelude Schedule Barrier ThreadPool.

#[local] Open Scope Z_scope.

(** ** Definitions *)

(** Its barrier is always the pool's global one. *)
Record bomp_work := BompWork { w_fn : Z; w_data : Z; w_thread_id : Z }.

Record bomp_thread_local_data := Local { l_thr : Z; l_work : Z }.

Record omp_state := Omp {
  g_thread_numbers : Z;
  bomp_num_threads : Z;
  bomp_dynamic_behaviour : bool;
  bomp_nested_behaviour : bool;
  nested : Z;
  pool : option threadpool_t;                     (* NULL when it could not be created *)
  works : gmap Z bomp_work;
  g_array_thread_local_data : option (list (option bomp_thread_local_data));
  tls : gmap Z bomp_thread_local_data             (* pthread_getspecific, by thread *)
}.

Definition set_team (g : Z) (arr : option (list (option bomp_thread_local_data)))
    (s : omp_state) : omp_state :=
  Omp g (bomp_num_threads s) (bomp_dynamic_behaviour s) (bomp_nested_behaviour s) (nested s)
    (pool s) (works s) arr (tls s).

Definition set_pool (p : option threadpool_t) (n : Z) (s : omp_state) : omp_state :=
  Omp (g_thread_numbers s) n (bomp_dynamic_behaviour s) (bomp_nested_behaviour s) (nested s)
    p (works s) (g_array_thread_local_data s) (tls s).

Definition set_nesting (n : Z) (s : omp_state) : omp_state :=
  Omp (g_thread_numbers s) (bomp_num_threads s) (bomp_dynamic_behaviour s)
    (bomp_nested_behaviour s) n (pool s) (works s) (g_array_thread_local_data s) (tls s).

Definition set_work (a : Z) (w : bomp_work) (s : omp_state) : omp_state :=
  Omp (g_thread_numbers s) (bomp_num_threads s) (bomp_dynamic_behaviour s)
    (bomp_nested_behaviour s) (nested s) (pool s) (<[a := w]> (works s))
    (g_array_thread_local_data s) (tls s).

Definition set_tls (self : Z) (l : bomp_thread_local_data)
    (arr : list (option bomp_thread_local_data)) (s : omp_state) : omp_state :=
  Omp (g_thread_numbers s) (bomp_num_threads s) (bomp_dynamic_behaviour s)
    (bomp_nested_behaviour s) (nested s) (pool s) (works s) (Some arr) (<[self := l]> (tls s)).

Definition set_behaviour (dynamic nesting : bool) (s : omp_state) : omp_state :=
  Omp (g_thread_numbers s) (bomp_num_threads s) dynamic nesting (nested s) (pool s) (works s)
    (g_array_thread_local_data s) (tls s).

(** *** omp.c *)

Definition omp_get_num_threads (s : omp_state) : Z := conv int32_t (bomp_num_threads s).

Definition omp_get_max_threads (s : omp_state) : Z := conv int32_t (bomp_num_threads s).

Definition omp_get_thread_num (self : Z) (s : omp_state) : outcome Z :=
  if g_thread_numbers s =? 1 then Ret 0
  else
    l ← get (tls s !! self);
    w ← get (works s !! l_work l);
    Ret (conv int32_t (w_thread_id w)).

Definition omp_get_num_procs : Z := 1.

Definition omp_set_dynamic (dynamic_threads : Z) (s : omp_state) : omp_state :=
  set_behaviour (truthy dynamic_threads) (bomp_nested_behaviour s) s.

Definition omp_get_dynamic (s : omp_state) : Z := Z.b2z (bomp_dynamic_behaviour s).

Definition omp_in_parallel (s : omp_state) : Z :=
  if g_thread_numbers s =? 1 then 0 else conv int32_t (g_thread_numbers s).

Definition omp_set_nested (nested : Z) (s : omp_state) : omp_state :=
  if nested =? 0 then set_behaviour (bomp_dynamic_behaviour s) false s
  else set_behaviour true (bomp_nested_behaviour s) s.

Definition omp_get_nested (s : omp_state) : Z := Z.b2z (bomp_dynamic_behaviour s).

Definition set_barrier_max (n : Z) (p : threadpool_t) : threadpool_t :=
  Pool (queue p) (thread_count p) (queue_size p) (head p) (tail p) (count p) (shutdown p)
    (started p) (bomp_barrier_updateMax n (global_barrier p)).

Definition add_started (k : Z) (p : threadpool_t) : threadpool_t :=
  Pool (queue p) (thread_count p + k) (queue_size p) (head p) (tail p) (count p) (shutdown p)
    (started p + k) (global_barrier p).

(** [create i] is the result of the [pthread_create] for the [i]-th new thread.
    When one fails the pool is destroyed: nothing may use it any more. *)
Definition omp_set_num_threads (create : Z -> Z) (num_threads : Z) (s : omp_state)
    : outcome omp_state :=
  let now := omp_get_num_threads s in
  if now <? num_threads then
    diff ← arith int32_t (num_threads - now);
    p ← get (pool s);
    let '(k, ok) := start_workers create (Z.to_nat diff) 0 in
    if ok then
      Ret (set_pool (Some (set_barrier_max num_threads (add_started k p))) (wrap32 num_threads) s)
    else Ret (set_pool None (bomp_num_threads s) s)
  else if (num_threads =? 1) || (num_threads <? now) then
    p ← get (pool s);
    Ret (set_pool (Some (set_barrier_max num_threads p)) (wrap32 num_threads) s)
  else Ret s.

(** *** processing.c *)

Definition sizeof_pointer : Z := 8.
Definition sizeof_bomp_work : Z := 32.

(** Where [bomp_start_processing] puts the descriptor of thread [i]. *)
Definition work_address (memory nthreads i : Z) : Z :=
  memory + nthreads * sizeof_pointer + i * sizeof_bomp_work.

Definition bomp_set_tls (self xdata : Z) (s : omp_state) : outcome omp_state :=
  w ← get (works s !! xdata);
  arr ← get (g_array_thread_local_data s);
  let local := Local self xdata in
  arr ← get (zupd arr (w_thread_id w) (Some local));
  Ret (set_tls self local arr s).

(** Names of the functions the pool's tasks and the regions run. *)
Definition bomp_thread_fn_ptr : Z := 1.
Definition kmp_wrapper_fn_ptr : Z := 2.

(** The iteration of [bomp_start_processing] for thread [i]. *)
Definition add_task (rc : Z -> pthread_results) (memory nthreads fn data i : Z) (s : omp_state)
    : outcome omp_state :=
  let xdata := work_address memory nthreads i in
  let s := set_work xdata (BompWork fn data i) s in
  '(_, p) ← threadpool_add (rc i) (pool s) bomp_thread_fn_ptr xdata;
  Ret (set_pool p (bomp_num_threads s) s).

(** The loop over the workers. *)
Fixpoint add_tasks (rc : Z -> pthread_results) (memory nthreads fn data : Z) (fuel : nat) (i : Z)
    (s : omp_state) : outcome omp_state :=
  match fuel with
  | O => Ret s
  | S fuel =>
      s ← add_task rc memory nthreads fn data i s;
      add_tasks rc memory nthreads fn data fuel (i + 1) s
  end.

(** What comes before the loop.  [memory] is what calloc returns for the team's
    descriptors; the small objects of [bomp_set_tls] are assumed to be
    allocated. *)
Definition start_team (memory self fn data nthreads : Z) (s : omp_state) : outcome omp_state :=
  let s := set_team nthreads (g_array_thread_local_data s) s in
  if memory =? NULL then abort
  else
    let s := set_team nthreads (Some (replicate (Z.to_nat nthreads) None)) s in
    _ ← get (pool s);
    let xdata := work_address memory nthreads 0 in
    bomp_set_tls self xdata (set_work xdata (BompWork fn data 0) s).

Definition bomp_start_processing (rc : Z -> pthread_results) (memory self fn data nthreads : Z)
    (s : omp_state) : outcome omp_state :=
  s ← start_team memory self fn data nthreads s;
  add_tasks rc memory nthreads fn data (Z.to_nat (nthreads - 1)) 1 s.

(** The lookup of the barrier at which the master waits for the team. *)
Definition end_barrier (s : omp_state) : outcome unit :=
  arr ← get (g_array_thread_local_data s);
  l ← get (mjoin (znth arr 0));
  _ ← get (works s !! l_work l);
  _ ← get (pool s);
  Ret tt.

(** After the wait at the barrier. *)
Definition bomp_end_processing (s : omp_state) : outcome omp_state :=
  _ ← end_barrier s;
  Ret (set_team 1 None s).

(** [bomp_thread_fn] of a worker up to the call of the region's function, which
    [threadpool_run] has also prepared with [bomp_set_tls]. *)
Definition bomp_thread_fn (self xdata : Z) (s : omp_state) : outcome (omp_state * bomp_work) :=
  s ← bomp_set_tls self xdata s;
  w ← get (works s !! xdata);
  Ret (s, w).

(** *** parallel.c *)

Definition GOMP_parallel_start (rc : Z -> pthread_results) (memory self fn data nthreads : Z)
    (s : omp_state) : outcome omp_state :=
  s ← (if omp_in_parallel s =? 0 then
         let nthreads :=
           if (nthreads =? 0) || (bomp_dynamic_behaviour s && (bomp_num_threads s <? nthreads))
           then bomp_num_threads s else nthreads in
         bomp_start_processing rc memory self fn data nthreads s
       else Ret s);
  n ← arith int32_t (nested s + 1);
  Ret (set_nesting n s).

Definition GOMP_parallel_end (s : omp_state) : outcome omp_state :=
  s ← (if nested s =? 1 then bomp_end_processing s else Ret s);
  n ← arith int32_t (nested s - 1);
  Ret (set_nesting n s).

Definition GOMP_single_start (self : Z) (s : omp_state) : outcome bool :=
  match tls s !! self with
  | None => Ret true
  | Some l => w ← get (works s !! l_work l); Ret (w_thread_id w =? 0)
  end.

(** *** kmp.c *)

(** The arguments of the region as [__kmpc_fork_call] passes them on: the only
    one as it is, several as an array. *)
Inductive shared_data :=
  | Single (arg : Z)
  | Args (args : list Z).

Definition marshal (argc : Z) (args : list Z) : outcome shared_data :=
  if 1 <? argc then
    if Z.of_nat (length args) <? argc then Fault else Ret (Args (take (Z.to_nat argc) args))
  else match args with [] => Fault | a :: _ => Ret (Single a) end.

(** The master's part: [microtask] is the region's function, called with the
    thread numbers 0 and 0.  [wrapper_data] is the address of the local
    variable that carries the region to the workers. *)
Definition kmpc_fork_call (rc : Z -> pthread_results) (memory self wrapper_data argc : Z)
    (args : list Z) (microtask : Z -> Z -> shared_data -> omp_state -> outcome omp_state)
    (s : omp_state) : outcome omp_state :=
  data ← marshal argc args;
  s ← GOMP_parallel_start rc memory self kmp_wrapper_fn_ptr wrapper_data (bomp_num_threads s) s;
  s ← microtask 0 0 data s;
  GOMP_parallel_end s.

(** What a worker calls the region's function with. *)
Definition kmp_wrapper_fn (self : Z) (data : shared_data)
    (microtask : Z -> Z -> shared_data -> omp_state -> outcome omp_state)
    (s : omp_state) : outcome omp_state :=
  tid ← omp_get_thread_num self s;
  microtask tid tid data s.

Definition kmpc_global_thread_num (self : Z) (s : omp_state) : outcome Z :=
  omp_get_thread_num self s.

(** *** linux_backend.c *)

(** [strstr(line, pattern) != NULL] *)
Definition contains (line pattern : string) : bool :=
  match String.index 0 pattern line with Some _ => true | None => false end.

(** The loop over the lines of /proc/cpuinfo, [None] when it cannot be read. *)
Definition count_cores (cpuinfo : option (list string)) : Z :=
  match cpuinfo with
  | None => 1
  | Some lines =>
      Z.of_nat (length (List.filter
        (fun l => contains l "GenuineIntel" || contains l "AuthenticAMD") lines))
  end.

Definition initial_state : omp_state :=
  Omp 1 1 false false 0 None ∅ None ∅.

Definition backend_init (cr : create_results) (cpuinfo : option (list string)) (s : omp_state)
    : outcome omp_state :=
  n ← arith int32_t (count_cores cpuinfo - 1);
  '(p, bn) ← threadpool_create cr n 1024 (bomp_num_threads s);
  Ret (set_pool p bn s).

(** ** Lemmas *)

Lemma work_address_inj memory n i j :
  work_address memory n i = work_address memory n j -> i = j.
Proof. unfold work_address, sizeof_bomp_work. lia. Qed.

Definition region_task (memory n i : Z) : threadpool_task_t :=
  Task bomp_thread_fn_ptr (work_address memory n i).

(** What the master's loop adds: a task and a descriptor per worker. *)
Record tasks_added (memory n fn data i : Z) (k : nat) (s s' : omp_state) : Prop := TasksAdded {
  ta_fields : exists p' w', s' = Omp (g_thread_numbers s) (bomp_num_threads s)
    (bomp_dynamic_behaviour s) (bomp_nested_behaviour s) (nested s) p' w'
    (g_array_thread_local_data s) (tls s);
  ta_pool : exists p p', pool s = Some p /\ pool s' = Some p' /\ pool_ok p' /\
    shutdown p' = shutdown p /\ queue_size p' = queue_size p /\
    contents p' = contents p ++ (region_task memory n <$> seqZ i (Z.of_nat k));
  ta_works : forall j, i <= j < i + Z.of_nat k ->
    works s' !! work_address memory n j = Some (BompWork fn data j);
  ta_others : forall a, (forall j, i <= j < i + Z.of_nat k -> a <> work_address memory n j) ->
    works s' !! a = works s !! a
}.

Lemma tasks_added_cons memory n fn data i k s s' p p1 :
  pool s = Some p -> pool_ok p -> shutdown p1 = shutdown p -> queue_size p1 = queue_size p ->
  contents p1 = contents p ++ [region_task memory n i] ->
  (let s1 := set_work (work_address memory n i) (BompWork fn data i) s in
   tasks_added memory n fn data (i + 1) k (set_pool (Some p1) (bomp_num_threads s1) s1) s') ->
  tasks_added memory n fn data i (S k) s s'.
Proof.
  intros Hp Hok Hsd Hqs Hct [(p' & w' & Hf) (q & q' & Hq & Hq' & Hok' & Hsd' & Hqs' & Hct') Hw Ho].
  cbn in Hq. injection Hq as <-. split.
  - by exists p', w'.
  - exists p, q'. split_and!; try done; try congruence.
    rewrite Hct', Hct, <- app_assoc, (seqZ_cons i (Z.of_nat (S k))) by lia. cbn. do 4 f_equal; lia.
  - intros j Hj. destruct (decide (j = i)) as [->|].
    + rewrite Ho by (intros j ? ->%work_address_inj; lia). cbn. by rewrite lookup_insert_eq.
    + apply Hw. lia.
  - intros a Ha. rewrite Ho by (intros j ?; apply Ha; lia). cbn.
    rewrite lookup_insert_ne; [done|]. intros <-. apply (Ha i); [lia|done].
Qed.

(** The queue takes a task while it has room. *)
Lemma add_task_spec memory n fn data i s p :
  pool s = Some p -> pool_ok p -> shutdown p = 0 -> count p < queue_size p ->
  exists p1,
    add_task (fun _ => all_succeed) memory n fn data i s =
      Ret (set_pool (Some p1) (bomp_num_threads s)
        (set_work (work_address memory n i) (BompWork fn data i) s)) /\
    pool_ok p1 /\ shutdown p1 = shutdown p /\ queue_size p1 = queue_size p /\
    count p1 = count p + 1 /\ contents p1 = contents p ++ [region_task memory n i] /\
    global_barrier p1 = global_barrier p.
Proof.
  intros Hp Hok Hsd Hc. unfold add_task. cbn [pool set_work]. rewrite Hp.
  destruct (threadpool_add_spec p bomp_thread_fn_ptr (work_address memory n i) Hok) as
    (rc & p1 & Ha & Hok1 & Hsd1 & _ & Hqs1 & Hadd); [done|].
  pose proof (threadpool_add_barrier _ _ _ _ _ _ Ha) as Hb. rewrite Ha.
  rewrite (proj2 (Z.eqb_neq (count p) (queue_size p))), Hsd in Hadd by lia.
  destruct Hadd as [-> Hadd]. cbn [mbind outcome_bind]. exists p1. split_and!; try done.
  rewrite <- !contents_length, Hadd by done. unfold zlen. rewrite length_app. cbn. lia.
Qed.

Lemma add_tasks_spec memory n fn data k i s p :
  pool s = Some p -> pool_ok p -> shutdown p = 0 -> count p + Z.of_nat k <= queue_size p ->
  exists s', add_tasks (fun _ => all_succeed) memory n fn data k i s = Ret s' /\
    tasks_added memory n fn data i k s s'.
Proof.
  revert i s p. induction k as [|k IH]; intros i s p Hp Hok Hsd Hc.
  - exists s. split; [done|]. split.
    + exists (pool s), (works s). by destruct s.
    + exists p, p. by rewrite app_nil_r.
    + lia.
    + done.
  - cbn [add_tasks].
    destruct (add_task_spec memory n fn data i s p Hp Hok Hsd) as
      (p1 & -> & Hok1 & Hsd1 & Hqs1 & Hc1 & Hct1 & _); [lia|].
    cbn [mbind outcome_bind]. set (s1 := set_pool _ _ _).
    destruct (IH (i + 1) s1 p1) as (s' & Hs' & Ht); [done|done|congruence|lia|].
    exists s'. split; [done|]. by eapply tasks_added_cons.
Qed.

(** Outside every parallel region, with an idle pool whose queue has room for
    the team. *)
Record region_ready (s : omp_state) (p : threadpool_t) : Prop := RegionReady {
  rr_serial : g_thread_numbers s = 1;
  rr_nested : nested s = 0;
  rr_pool : pool s = Some p;
  rr_pool_ok : pool_ok p;
  rr_empty : contents p = [];
  rr_shutdown : shutdown p = 0;
  rr_threads : 2 <= bomp_num_threads s < 2 ^ 31;
  rr_room : bomp_num_threads s - 1 <= queue_size p
}.

(** The state in which the team of a region runs. *)
Record region_runs (memory self fn data n : Z) (s s1 : omp_state) : Prop := RegionRuns {
  ru_team : g_thread_numbers s1 = n /\ nested s1 = 1 /\ bomp_num_threads s1 = bomp_num_threads s;
  ru_array : g_array_thread_local_data s1 =
    Some (<[0%nat := Some (Local self (work_address memory n 0))]> (replicate (Z.to_nat n) None));
  ru_tls : tls s1 !! self = Some (Local self (work_address memory n 0));
  ru_works : forall j, 0 <= j < n ->
    works s1 !! work_address memory n j = Some (BompWork fn data j);
  ru_pool : exists p1, pool s1 = Some p1 /\ contents p1 = region_task memory n <$> seqZ 1 (n - 1)
}.

Lemma parallel_start_spec memory self fn data s p :
  region_ready s p -> memory <> NULL ->
  exists s1, GOMP_parallel_start (fun _ => all_succeed) memory self fn data (bomp_num_threads s) s
    = Ret s1 /\ region_runs memory self fn data (bomp_num_threads s) s s1.
Proof.
  intros [Hg Hn Hp Hok Hct Hsd Hnt Hroom] Hm. set (n := bomp_num_threads s) in *.
  unfold GOMP_parallel_start, omp_in_parallel. rewrite Hg. cbn [Z.eqb Pos.eqb].
  assert ((if (n =? 0) || (bomp_dynamic_behaviour s && (bomp_num_threads s <? n))
    then bomp_num_threads s else n) = n) as -> by (subst n; by destruct (_ || _)).
  unfold bomp_start_processing, start_team. rewrite (proj2 (Z.eqb_neq memory NULL)) by done.
  cbn [pool set_team Z.eqb]. rewrite Hp. cbn [get mbind outcome_bind].
  set (a0 := work_address memory n 0). unfold bomp_set_tls.
  cbn [works set_work set_team g_array_thread_local_data get mbind outcome_bind].
  rewrite lookup_insert_eq. cbn [get mbind outcome_bind w_thread_id].
  rewrite zupd_Some by (unfold zlen; rewrite length_replicate; lia).
  cbn [get mbind outcome_bind]. change (Z.to_nat 0) with 0%nat.
  set (s0 := set_tls _ _ _ _).
  destruct (add_tasks_spec memory n fn data (Z.to_nat (n - 1)) 1 s0 p) as
    (s1 & -> & [(p' & w' & ->) (q & q' & Hq & Hq' & Hok' & _ & _ & Hct') Hw Ho]);
    [done|done|done|rewrite (proj1 (contents_nil p Hok) Hct); lia|].
  cbn [mbind outcome_bind nested]. change (nested s0) with (nested s). rewrite Hn, arith_in by done.
  cbn [mbind outcome_bind]. eexists. split; [done|].
  cbn [works pool] in Hw, Ho, Hq'.
  split; cbn [g_thread_numbers nested bomp_num_threads set_nesting g_array_thread_local_data tls works pool].
  - done.
  - done.
  - apply lookup_insert_eq.
  - intros j Hj. destruct (decide (j = 0)) as [->|]; [|apply Hw; lia].
    rewrite Ho; [apply lookup_insert_eq|]. intros k Hk ?%work_address_inj. lia.
  - exists q'. split; [done|]. change (pool s0) with (pool s) in Hq.
    assert (q = p) as -> by congruence. rewrite Hct', Hct. cbn. f_equal. f_equal. lia.
Qed.

(** A worker that starts the task of thread [i] gets that thread's number. *)
Lemma worker_gets_number memory self fn data n s s1 i w :
  region_runs memory self fn data n s s1 -> 1 <= i < n -> n < 2 ^ 31 ->
  exists s2, bomp_thread_fn w (work_address memory n i) s1 = Ret (s2, BompWork fn data i) /\
    omp_get_thread_num w s2 = Ret i.
Proof.
  intros [(Hg & _ & _) Harr _ Hw _] Hi Hn. unfold bomp_thread_fn, bomp_set_tls.
  rewrite Hw by lia. cbn [get mbind outcome_bind]. rewrite Harr. cbn [get mbind outcome_bind w_thread_id].
  rewrite zupd_Some by (unfold zlen; rewrite length_insert, length_replicate; lia).
  cbn [get mbind outcome_bind works set_tls]. rewrite Hw by lia. cbn [get mbind outcome_bind].
  eexists. split; [done|]. unfold omp_get_thread_num.
  cbn [g_thread_numbers set_tls tls works]. rewrite Hg, (proj2 (Z.eqb_neq n 1)) by lia.
  rewrite lookup_insert_eq. cbn [get mbind outcome_bind l_work]. rewrite Hw by lia.
  cbn. f_equal. apply (conv_id int32_t); unfold ity_min, ity_max; cbn; lia.
Qed.

Lemma master_is_thread_0 memory self fn data n s s1 :
  region_runs memory self fn data n s s1 -> 2 <= n -> omp_get_thread_num self s1 = Ret 0.
Proof.
  intros [(Hg & _ & _) _ Htls Hw _] Hn. unfold omp_get_thread_num.
  rewrite Hg, (proj2 (Z.eqb_neq n 1)), Htls by lia. cbn. by rewrite Hw by lia.
Qed.

(** A region inside a region starts no further team. *)
Lemma nested_start s1 n rc memory w fn data k :
  g_thread_numbers s1 = n -> 2 <= n < 2 ^ 31 -> nested s1 = 1 ->
  GOMP_parallel_start rc memory w fn data k s1 = Ret (set_nesting 2 s1) /\
  GOMP_parallel_end (set_nesting 2 s1) = Ret s1.
Proof.
  intros Hg Hn Hnest. unfold GOMP_parallel_start, GOMP_parallel_end, omp_in_parallel. split.
  - rewrite Hg, (proj2 (Z.eqb_neq n 1)), (conv_id int32_t n), (proj2 (Z.eqb_neq n 0))
      by (unfold ity_min, ity_max; cbn; lia).
    cbn. by rewrite Hnest.
  - destruct s1. cbn in Hnest |- *. by rewrite Hnest.
Qed.

Lemma outer_end memory self fn data n s s1 :
  region_runs memory self fn data n s s1 -> 2 <= n ->
  GOMP_parallel_end s1 = Ret (set_nesting 0 (set_team 1 None s1)).
Proof.
  intros [(Hg & Hnest & _) Harr _ Hw (p1 & Hp & _)] Hn.
  unfold GOMP_parallel_end, bomp_end_processing, end_barrier. rewrite Hnest, Harr. cbn [Z.eqb Pos.eqb get mbind outcome_bind].
  assert (mjoin (znth (<[0%nat := Some (Local self (work_address memory n 0))]>
    (replicate (Z.to_nat n) None)) 0) = Some (Local self (work_address memory n 0))) as ->.
  { unfold znth. rewrite decide_True by lia. rewrite list_lookup_insert_eq; [done|].
    rewrite length_replicate. lia. }
  cbn [get mbind outcome_bind l_work]. rewrite Hw by lia. cbn [get mbind outcome_bind].
  rewrite Hp. cbn. by rewrite Hnest.
Qed.

(** ** Properties *)

(** [__kmpc_fork_call] outside a region runs the region on a team: it
    queues one task for each worker, in order; the master is thread 0 and the
    worker that takes the [i]-th task is thread [i] and finds the region's
    function and data; a region started inside it starts no team; and after the
    master's part the runtime is back outside every region. *)
Theorem fork_call_runs_team memory self wrapper_data argc args d microtask s p :
  region_ready s p -> memory <> NULL -> marshal argc args = Ret d ->
  let n := bomp_num_threads s in
  exists s1 p1,
    kmpc_fork_call (fun _ => all_succeed) memory self wrapper_data argc args microtask s =
      (microtask 0 0 d s1 ≫= GOMP_parallel_end) /\
    pool s1 = Some p1 /\ contents p1 = region_task memory n <$> seqZ 1 (n - 1) /\
    omp_get_thread_num self s1 = Ret 0 /\
    (forall i w, 1 <= i < n -> exists s2,
       bomp_thread_fn w (task_args (region_task memory n i)) s1 =
         Ret (s2, BompWork kmp_wrapper_fn_ptr wrapper_data i) /\
       omp_get_thread_num w s2 = Ret i) /\
    (forall rc memory' w fn data k,
       GOMP_parallel_start rc memory' w fn data k s1 = Ret (set_nesting 2 s1) /\
       GOMP_parallel_end (set_nesting 2 s1) = Ret s1) /\
    GOMP_parallel_end s1 = Ret (set_nesting 0 (set_team 1 None s1)).
Proof.
  intros Hready Hm Hd n. destruct (rr_threads _ _ Hready) as [Hn1 Hn2].
  destruct (parallel_start_spec memory self kmp_wrapper_fn_ptr wrapper_data s p Hready Hm)
    as (s1 & Hs & Hrun).
  destruct (ru_pool _ _ _ _ _ _ _ Hrun) as (p1 & Hp1 & Hct).
  destruct (ru_team _ _ _ _ _ _ _ Hrun) as (Hg & Hnest & _).
  exists s1, p1. split_and!; try done.
  - unfold kmpc_fork_call. rewrite Hd. cbn [mbind outcome_bind]. by rewrite Hs.
  - by eapply master_is_thread_0.
  - intros i w Hi. by eapply worker_gets_number.
  - intros. by eapply nested_start.
  - by eapply outer_end.
Qed.

(** What [backend_init] leaves. *)
Lemma backend_init_spec cr cpuinfo s p :
  backend_init cr cpuinfo initial_state = Ret s -> pool s = Some p ->
  (forall q, cr_queue cr = Some q -> zlen q = 1024) ->
  exists n, 0 < n < 2 ^ 31 - 1 /\ s = set_pool (Some p) (n + 1) initial_state /\
    pool_ok p /\ contents p = [] /\ shutdown p = 0 /\ queue_size p = 1024 /\ thread_count p = n /\
    global_barrier p = bomp_barrier_init n.
Proof.
  unfold backend_init. intros Hb Hp Hq.
  destruct (arith int32_t (count_cores cpuinfo - 1)) as [n| | |]; try done. cbn [mbind outcome_bind] in Hb.
  destruct (threadpool_create cr n 1024 (bomp_num_threads initial_state)) as [[op bn]| | |] eqn:Hc; try done.
  cbn [mbind outcome_bind] in Hb. injection Hb as <-. cbn in Hp. subst op.
  pose proof (threadpool_create_size _ _ _ _ _ _ Hc).
  destruct (threadpool_create_spec _ _ _ _ _ _ Hc Hq) as (? & ? & ? & ? & ? & ? & ? & ->); [lia|].
  by exists n.
Qed.

Lemma initial_num_threads p n : 0 < n < 2 ^ 31 - 1 ->
  omp_get_num_threads (set_pool p (n + 1) initial_state) = n + 1.
Proof. intros. apply (conv_id int32_t); unfold ity_min, ity_max; cbn; lia. Qed.

(** Another number of threads: workers are added when there are too few, and the
    barrier's maximum is the number asked for. *)
Lemma set_num_threads_other p n m : 0 < n < 2 ^ 31 - 1 -> 1 <= m < 2 ^ 31 -> m <> n + 1 ->
  thread_count p = n -> pool_ok p ->
  exists p', omp_set_num_threads (fun _ => 0) m (set_pool (Some p) (n + 1) initial_state) =
      Ret (set_pool (Some p') m initial_state) /\
    pool_ok p' /\ contents p' = contents p /\ shutdown p' = shutdown p /\ queue_size p' = queue_size p /\
    m <= thread_count p' + 1 /\ global_barrier p' = bomp_barrier_updateMax m (global_barrier p).
Proof.
  intros Hn Hm Hne Htc []. unfold omp_set_num_threads. rewrite initial_num_threads by done.
  assert (wrap32 m = m) as Hw by (apply wrap_small; lia). destruct (Z.ltb_spec (n + 1) m).
  - rewrite arith_in by (unfold ity_min, ity_max; cbn; lia). cbn [mbind outcome_bind].
    cbn [pool set_pool get mbind outcome_bind]. rewrite start_workers_ok, Hw. eexists. split; [done|].
    split; [by split|]. do 3 (split; [done|]). split; [cbn; lia|done].
  - rewrite (proj2 (Z.ltb_lt m (n + 1))), orb_true_r by lia. cbn [pool set_pool get mbind outcome_bind].
    rewrite Hw. eexists. split; [done|]. split; [by split|]. do 3 (split; [done|]). split; [cbn; lia|done].
Qed.

Lemma set_num_threads_same p n : 0 < n < 2 ^ 31 - 1 ->
  omp_set_num_threads (fun _ => 0) (n + 1) (set_pool p (n + 1) initial_state) =
    Ret (set_pool p (n + 1) initial_state).
Proof.
  intros. unfold omp_set_num_threads. rewrite initial_num_threads by done.
  by rewrite Z.ltb_irrefl, orb_false_r, (proj2 (Z.eqb_neq (n + 1) 1)) by lia.
Qed.

Definition sample_pool : threadpool_t :=
  Pool (replicate 4 (Task 0 0)) 2 4 0 0 0 0 2 (bomp_barrier_init 2).

Definition sample_omp : omp_state := Omp 1 3 false false 0 (Some sample_pool) ∅ None ∅.

(** The hypotheses hold: a team of three, and a region with one argument. *)
Lemma fork_call_runs_team_witness :
  region_ready sample_omp sample_pool /\
  exists s1 p1,
    kmpc_fork_call (fun _ => all_succeed) 4096 7 8192 1 [55] (fun _ _ _ s => Ret s) sample_omp =
      Ret (set_nesting 0 (set_team 1 None s1)) /\
    pool s1 = Some p1 /\ contents p1 = [Task 1 4152; Task 1 4184].
Proof.
  assert (region_ready sample_omp sample_pool) as Hr.
  { split; try reflexivity; try (vm_compute; intuition congruence).
    split; vm_compute; intuition congruence. }
  split; [exact Hr|].
  destruct (fork_call_runs_team 4096 7 8192 1 [55] (Single 55) (fun _ _ _ s => Ret s) sample_omp
    sample_pool Hr ltac:(done) eq_refl) as (s1 & p1 & H1 & H2 & H3 & _ & _ & _ & H4).
  exists s1, p1. split; [rewrite H1; exact H4|]. split; [exact H2|]. rewrite H3. reflexivity.
Defined.

Definition sample_cpuinfo : list string := ["vendor_id : GenuineIntel"; "flags"; "vendor_id : GenuineIntel"]%string.

Definition sample_create : create_results :=
  CreateResults true true (Some (replicate 1024 (Task 0 0))) true 0 0 (fun _ => 0).

(** Without two recognised cores there is no pool, and the first parallel
    region follows a NULL pointer. *)
Lemma no_pool_no_region cr cpuinfo memory self wd argc args d microtask :
  count_cores cpuinfo <= 1 -> memory <> NULL -> marshal argc args = Ret d ->
  exists s, backend_init cr cpuinfo initial_state = Ret s /\ pool s = None /\
    kmpc_fork_call (fun _ => all_succeed) memory self wd argc args microtask s = Fault.
Proof.
  intros Hc Hm Hd. assert (0 <= count_cores cpuinfo) by (unfold count_cores; destruct cpuinfo; lia).
  exists (set_pool None 1 initial_state). unfold backend_init.
  rewrite arith_in by (unfold ity_min, ity_max; cbn; lia). cbn [mbind outcome_bind].
  unfold threadpool_create. rewrite (proj2 (Z.leb_le (count_cores cpuinfo - 1) 0)) by lia.
  split_and!; [done|done|]. unfold kmpc_fork_call. rewrite Hd. cbn.
  unfold bomp_start_processing, start_team. by rewrite (proj2 (Z.eqb_neq memory NULL)).
Qed.

(** [omp_set_nested] and [omp_get_nested] work on the flag of
    [omp_set_dynamic]. *)
Lemma nested_is_dynamic n s :
  n <> 0 ->
  bomp_nested_behaviour (omp_set_nested n s) = bomp_nested_behaviour s /\
  omp_get_dynamic (omp_set_nested n s) = 1 /\
  omp_get_nested (omp_set_nested 0 (omp_set_dynamic n s)) = 1.
Proof.
  intros Hn. unfold omp_set_nested, omp_set_dynamic. rewrite (proj2 (truthy_true n) Hn).
  rewrite (proj2 (Z.eqb_neq n 0)) by done. done.
Qed.
