(* ===== verification/Lock.v ===== *)
(** * Locks and the critical sections under them

    A lock is a shared state and what its acquisition and its release do to it,
    one access at a time; its laws say that it admits one thread and that a
    thread alone gets a free lock.  Against this interface, threads that run
    critical sections under every interleaving have the effect of running the
    sections one after the other.  The lock of libbomp ([Critical]) and the
    mutex of the C library ([Mutex]) implement it. *)

From S2P Require Import Prelude.

(** ** The interface *)

(** [lock_step] is the next access of a thread that acquires the lock ([None]:
    it has it), [unlock_step] of the one that releases it.  An event is what the
    surroundings decide at this access. *)
Class Lock := {
  lock_state : Type;
  lock_pc : Type;
  unlock_pc : Type;
  lock_event : Type;
  lock_start : lock_pc;
  unlock_start : unlock_pc;
  lock_step : nat -> lock_event -> lock_state -> lock_pc -> lock_state * option lock_pc;
  unlock_step : lock_state -> unlock_pc -> lock_state * option unlock_pc;
}.

(** A thread that takes these steps on its own gets the lock. *)
Fixpoint acquires `{Lock} (i : nat) (evs : list lock_event) (s : lock_state) (p : lock_pc) : bool :=
  match evs with
  | [] => false
  | ev :: evs' =>
      match lock_step i ev s p with
      | (s', Some p') => acquires i evs' s' p'
      | (_, None) => true
      end
  end.

(** [lock_ok b s M]: the lock is held or not ([b]), and the threads of [M] are
    at these points of its acquisition. *)
Class LockLaws `{Lock} := {
  lock_ok : bool -> lock_state -> gmap nat lock_pc -> Prop;
  lucky : lock_event -> Prop;
  lock_rounds : nat;
  law_begin b s M i : lock_ok b s M -> M !! i = None -> lock_ok b s (<[i := lock_start]> M);
  law_step b s M i p ev : lock_ok b s M -> M !! i = Some p ->
    match lock_step i ev s p with
    | (s', Some p') => lock_ok b s' (<[i := p']> M)
    | (s', None) => b = false /\ lock_ok true s' (delete i M)
    end;
  law_unlock s M u : lock_ok true s M ->
    match unlock_step s u with
    | (s', Some _) => lock_ok true s' M
    | (s', None) => lock_ok false s' M
    end;
  law_progress s M i p evs : lock_ok false s M -> M !! i = Some p ->
    Forall lucky evs -> length evs = lock_rounds -> acquires i evs s p = true;
}.

(** ** Threads with critical sections *)

Section Sections.
Context `{LockLaws} {S L : Type}.

(** What a thread does inside its next critical section, given its local
    state; [None] when it needs the lock no more. *)
Context (section : nat -> L -> option (list (S -> L -> S * L))).

Inductive place :=
  | Outside (l : L)
  | Locking (l : L) (pc : lock_pc)
  | Inside (fs : list (S -> L -> S * L)) (l : L)
  | Unlocking (l : L) (u : unlock_pc).

Record system := System { s_lock : lock_state; s_shared : S; s_places : list place }.

Definition release (lock : lock_state) (l : L) (u : unlock_pc) : lock_state * place :=
  match unlock_step lock u with
  | (lock', Some u') => (lock', Unlocking l u')
  | (lock', None) => (lock', Outside l)
  end.

Definition place_step (i : nat) (ev : lock_event) (lock : lock_state) (s : S) (p : place) :
    lock_state * S * place :=
  match p with
  | Outside l => (lock, s, if section i l is Some _ then Locking l lock_start else Outside l)
  | Locking l pc =>
      match lock_step i ev lock pc with
      | (lock', Some pc') => (lock', s, Locking l pc')
      | (lock', None) => (lock', s, Inside (default [] (section i l)) l)
      end
  | Inside (f :: fs) l => let '(s', l') := f s l in (lock, s', Inside fs l')
  | Inside [] l => let '(lock', p') := release lock l unlock_start in (lock', s, p')
  | Unlocking l u => let '(lock', p') := release lock l u in (lock', s, p')
  end.

Definition section_step (st : system) (e : nat * lock_event) : system :=
  match s_places st !! e.1 with
  | Some p =>
      let '(lock, s, p') := place_step e.1 e.2 (s_lock st) (s_shared st) p in
      System lock s (<[e.1 := p']> (s_places st))
  | None => st
  end.

Definition run_sections (sched : list (nat * lock_event)) (st : system) : system :=
  foldl section_step st sched.

(** ** Specification: one section after the other *)

Definition run_steps (fs : list (S -> L -> S * L)) (c : S * L) : S * L :=
  foldl (fun c f => f c.1 c.2) c fs.

(** A whole critical section of thread [i]. *)
Definition atomic_step (c : S * list L) (i : nat) : S * list L :=
  match c.2 !! i with
  | Some l =>
      match section i l with
      | Some fs => let r := run_steps fs (c.1, l) in (r.1, <[i := r.2]> c.2)
      | None => c
      end
  | None => c
  end.

Definition atomic_run (order : list nat) (c : S * list L) : S * list L := foldl atomic_step c order.

Definition is_inside (p : place) : Prop :=
  match p with Inside _ _ | Unlocking _ _ => True | _ => False end.

(** The local state of a thread, once it has finished its section. *)
Definition finished (s : S) (p : place) : S * L :=
  match p with
  | Inside fs l => run_steps fs (s, l)
  | Outside l | Locking l _ | Unlocking l _ => (s, l)
  end.

(** ** The invariant *)

Definition locking (p : place) : option lock_pc :=
  match p with Locking _ pc => Some pc | _ => None end.

(** When the holder [h] has finished its section, shared and local state are
    [c]. *)
Record serial (h : option nat) (c : S * list L) (M : gmap nat lock_pc) (st : system) : Prop := {
  sr_length : length (s_places st) = length c.2;
  sr_holder : forall i p, s_places st !! i = Some p -> is_inside p <-> h = Some i;
  sr_held : forall i, h = Some i -> is_Some (s_places st !! i);
  sr_locals : forall i p, s_places st !! i = Some p -> c.2 !! i = Some (finished (s_shared st) p).2;
  sr_shared : match h with
    | Some i => forall p, s_places st !! i = Some p -> c.1 = (finished (s_shared st) p).1
    | None => c.1 = s_shared st
    end;
  sr_wants : forall i l pc, s_places st !! i = Some (Locking l pc) -> is_Some (section i l);
  sr_map : forall i, M !! i = s_places st !! i ≫= locking;
  sr_lock : lock_ok (bool_decide (is_Some h)) (s_lock st) M;
}.

Definition start (lock : lock_state) (s : S) (ls : list L) : system :=
  System lock s (Outside <$> ls).

Lemma start_serial lock s ls : lock_ok false lock ∅ -> serial None (s, ls) ∅ (start lock s ls).
Proof using Type.
  intros Hl. assert (Ho : forall i p, (Outside <$> ls) !! i = Some p -> exists l, p = Outside l /\ ls !! i = Some l).
  { intros i p Hi. rewrite list_lookup_fmap in Hi. apply fmap_Some in Hi as (l & ? & ->). by exists l. }
  constructor; cbn [s_places s_shared s_lock start fst snd]; try done.
  - apply length_fmap.
  - intros i p Hi. by destruct (Ho _ _ Hi) as (l & -> & _).
  - intros i p Hi. by destruct (Ho _ _ Hi) as (l & -> & ?).
  - intros i l pc Hi. by destruct (Ho _ _ Hi) as (l' & ? & _).
  - intros i. rewrite lookup_empty. destruct ((Outside <$> ls) !! i) eqn:Hi; [|done].
    by destruct (Ho _ _ Hi) as (l & -> & _).
Qed.

Lemma place_insert {A} (l : list A) i x j : (i < length l)%nat ->
  <[i := x]> l !! j = if decide (i = j) then Some x else l !! j.
Proof using.
  intros Hi. destruct (decide (i = j)) as [->|]; [by apply list_lookup_insert_eq|].
  by apply list_lookup_insert_ne.
Qed.

Lemma finished_outside s s' p : ~ is_inside p -> (finished s' p).2 = (finished s p).2.
Proof using. by destruct p. Qed.

(** One thread moves. *)
Lemma serial_update h c M st i p h' c' M' lock' s' p' :
  serial h c M st -> s_places st !! i = Some p ->
  c'.2 = <[i := (finished s' p').2]> c.2 ->
  (is_inside p' <-> h' = Some i) -> (forall j, j <> i -> h' = Some j <-> h = Some j) ->
  match h' with
  | Some j => if decide (j = i) then c'.1 = (finished s' p').1 else s' = s_shared st /\ c'.1 = c.1
  | None => c'.1 = s'
  end ->
  (forall l pc, p' = Locking l pc -> is_Some (section i l)) ->
  M' = partial_alter (fun _ => locking p') i M -> lock_ok (bool_decide (is_Some h')) lock' M' ->
  serial h' c' M' (System lock' s' (<[i := p']> (s_places st))).
Proof using Type.
  intros [S1 S2 S2' S3 S4 S5 S6 S7] Hi Hc Hin Hh Hs Hw -> Hok.
  pose proof (lookup_lt_Some _ _ _ Hi) as Hlt. constructor; cbn [s_places s_shared s_lock]; try done.
  - rewrite Hc, !length_insert. done.
  - intros j q. rewrite place_insert by done. case_decide as E; [subst j; by intros [= <-]|].
    intros Hj. rewrite Hh by done. by apply S2.
  - intros j Hj. rewrite place_insert by done. case_decide as E; [by eexists|].
    apply S2'. by apply Hh.
  - intros j q. rewrite place_insert, Hc, place_insert by congruence.
    case_decide as E; [by intros [= <-]|]. intros Hj. rewrite (S3 _ _ Hj). f_equal.
    destruct q; try done. assert (Hx : h' = Some j) by (apply Hh; [done|]; by apply (S2 _ _ Hj)).
    subst h'. rewrite decide_False in Hs by done. by destruct Hs as [-> _].
  - destruct h' as [j|]; [|done]. intros q. rewrite place_insert by done. destruct (decide (j = i)) as [->|Hne].
    + rewrite decide_True by done. by intros [= <-].
    + rewrite decide_False by done. destruct Hs as [-> ->].
      assert (E : h = Some j) by (apply Hh; [done|done]). subst h. apply S4.
  - intros j l pc. rewrite place_insert by done. case_decide as E; [subst j; intros [= ->]; by eapply Hw|apply S5].
  - intros j. rewrite place_insert by done. case_decide as E.
    + subst j. by rewrite lookup_partial_alter_eq.
    + by rewrite lookup_partial_alter_ne.
Qed.

Section step.
Context (h : option nat) (c : S * list L) (M : gmap nat lock_pc) (st : system).
Context (inv : serial h c M st) (i : nat) (p : place) (here : s_places st !! i = Some p).

Lemma holder_inside : is_inside p -> h = Some i.
Proof using inv here. apply (sr_holder _ _ _ _ inv _ _ here). Qed.

Lemma holder_elsewhere : ~ is_inside p -> h <> Some i.
Proof using inv here. intros Hp E. apply Hp. by apply (sr_holder _ _ _ _ inv _ _ here). Qed.

Lemma shared_elsewhere : ~ is_inside p ->
  match h with
  | Some j => if decide (j = i) then c.1 = (finished (s_shared st) p).1 else s_shared st = s_shared st /\ c.1 = c.1
  | None => c.1 = s_shared st
  end.
Proof using inv here.
  intros Hp. pose proof (holder_elsewhere Hp) as Hne. pose proof (sr_shared _ _ _ _ inv) as Hs.
  destruct h; [|done]. by rewrite decide_False by congruence.
Qed.

(** A step outside the section, on the lock at most. *)
Lemma serial_waiting lock' p' :
  ~ is_inside p -> ~ is_inside p' -> (finished (s_shared st) p').2 = (finished (s_shared st) p).2 ->
  (forall l pc, p' = Locking l pc -> is_Some (section i l)) ->
  lock_ok (bool_decide (is_Some h)) lock' (partial_alter (fun _ => locking p') i M) ->
  serial h c (partial_alter (fun _ => locking p') i M)
    (System lock' (s_shared st) (<[i := p']> (s_places st))).
Proof using inv here.
  intros Hp Hp' Hf Hw Hok. eapply serial_update; [exact inv|exact here| | |done| |done|done|done].
  - rewrite Hf. symmetry. apply list_insert_id. by apply (sr_locals _ _ _ _ inv).
  - split; [done|]. intros E. by destruct (holder_elsewhere Hp).
  - pose proof (shared_elsewhere Hp) as Hs. pose proof (holder_elsewhere Hp) as Hne.
    destruct h; [|done]. rewrite decide_False in Hs |- * by congruence. done.
Qed.

Lemma serial_enter l pc lock' fs :
  p = Locking l pc -> section i l = Some fs -> h = None -> lock_ok true lock' (delete i M) ->
  serial (Some i) (atomic_step c i) (delete i M)
    (System lock' (s_shared st) (<[i := Inside fs l]> (s_places st))).
Proof using inv here.
  intros -> Hs -> Hok. pose proof (sr_shared _ _ _ _ inv) as Hsh. cbn in Hsh.
  pose proof (sr_locals _ _ _ _ inv _ _ here) as Hl. cbn [finished snd] in Hl.
  assert (E : atomic_step c i = ((run_steps fs (s_shared st, l)).1, <[i := (run_steps fs (s_shared st, l)).2]> c.2)).
  { unfold atomic_step. by rewrite Hl, Hs, Hsh. }
  rewrite E. eapply serial_update; [exact inv|exact here|done|done| | |done|done|by rewrite bool_decide_true by by eexists].
  - intros j Hj. split; congruence.
  - by rewrite decide_True.
Qed.

Lemma serial_work f fs l s' l' :
  p = Inside (f :: fs) l -> f (s_shared st) l = (s', l') ->
  serial h c M (System (s_lock st) s' (<[i := Inside fs l']> (s_places st))).
Proof using inv here.
  intros Hp Hf. assert (Hin : is_inside p) by by rewrite Hp. pose proof (holder_inside Hin) as Hh.
  pose proof (sr_locals _ _ _ _ inv _ _ here) as Hl. pose proof (sr_shared _ _ _ _ inv) as Hs.
  rewrite Hh in Hs. specialize (Hs _ here). rewrite Hp in Hl, Hs. cbn [finished run_steps foldl fst snd] in Hl, Hs.
  rewrite Hf in Hl, Hs. eapply serial_update; [exact inv|exact here| | |done| |done| |apply (sr_lock _ _ _ _ inv)].
  - symmetry. by apply list_insert_id.
  - by rewrite Hh.
  - rewrite Hh. rewrite decide_True by done. exact Hs.
  - symmetry. pose proof (sr_map _ _ _ _ inv i) as Hm. rewrite here, Hp in Hm. cbn in Hm.
    apply map_eq. intros j. destruct (decide (i = j)) as [<-|].
    + by rewrite lookup_partial_alter_eq, Hm.
    + by rewrite lookup_partial_alter_ne.
Qed.

Lemma serial_release l u lock' p' :
  p = Unlocking l u \/ p = Inside [] l -> release (s_lock st) l u = (lock', p') ->
  exists h', serial h' c M (System lock' (s_shared st) (<[i := p']> (s_places st))).
Proof using inv here.
  intros Hp Hr. assert (Hin : is_inside p) by by destruct Hp as [-> | ->].
  pose proof (holder_inside Hin) as Hh. pose proof (sr_lock _ _ _ _ inv) as Hok.
  rewrite Hh, bool_decide_true in Hok by by eexists.
  pose proof (law_unlock _ _ u Hok) as Hu.
  assert (Hl : c.2 !! i = Some l /\ c.1 = s_shared st).
  { pose proof (sr_locals _ _ _ _ inv _ _ here) as Hl. pose proof (sr_shared _ _ _ _ inv) as Hs.
    rewrite Hh in Hs. specialize (Hs _ here). by destruct Hp as [-> | ->]. }
  destruct Hl as [Hl Hs].
  assert (HM : M = partial_alter (fun _ => None) i M).
  { apply map_eq. intros j. pose proof (sr_map _ _ _ _ inv i) as Hm. rewrite here in Hm.
    destruct (decide (i = j)) as [<-|].
    - rewrite lookup_partial_alter_eq, Hm. by destruct Hp as [-> | ->].
    - by rewrite lookup_partial_alter_ne. }
  unfold release in Hr. destruct (unlock_step (s_lock st) u) as [lock1 [u'|]]; injection Hr as <- <-.
  - exists (Some i). eapply serial_update; [exact inv|exact here| | | | |done|exact HM|exact Hu].
    + symmetry. by apply list_insert_id.
    + done.
    + intros j _. by rewrite Hh.
    + by rewrite decide_True.
  - exists None. eapply serial_update; [exact inv|exact here| | | | |done|exact HM|exact Hu].
    + symmetry. by apply list_insert_id.
    + done.
    + intros j Hj. rewrite Hh. split; congruence.
    + done.
Qed.
End step.

Lemma serial_step h c M st e :
  serial h c M st -> exists h' c' M', (c' = c \/ c' = atomic_step c e.1) /\
    serial h' c' M' (section_step st e).
Proof using Type.
  intros inv. unfold section_step. destruct (s_places st !! e.1) as [p|] eqn:here; [|by exists h, c, M; auto].
  assert (Hsame : serial h c M (System (s_lock st) (s_shared st) (<[e.1 := p]> (s_places st)))).
  { rewrite list_insert_id by done. by destruct st. }
  pose proof (sr_map _ _ _ _ inv e.1) as Hm. rewrite here in Hm. pose proof (sr_lock _ _ _ _ inv) as Hok.
  destruct p as [l|l pc|[|f fs] l|l u]; cbn [place_step locking mbind option_bind] in *.
  - destruct (section e.1 l) as [fs|] eqn:Es; [|by exists h, c, M; auto].
    exists h, c. eexists. split; [by left|].
    eapply (serial_waiting _ _ _ _ inv _ _ here _ (Locking l lock_start));
      [by intros []|by intros []|done| |].
    + intros l' pc [= <- _]. by eexists.
    + by apply law_begin.
  - pose proof (law_step _ _ _ _ _ e.2 Hok Hm) as Hl.
    destruct (sr_wants _ _ _ _ inv _ _ _ here) as [fs Es].
    destruct (lock_step e.1 e.2 (s_lock st) pc) as [lock' [pc'|]].
    + exists h, c. eexists. split; [by left|].
      eapply (serial_waiting _ _ _ _ inv _ _ here _ (Locking l pc'));
        [by intros []|by intros []|done| |done].
      intros l' pc0 [= <- _]. by eexists.
    + destruct Hl as [Hb Hl]. apply bool_decide_eq_false in Hb.
      exists (Some e.1), (atomic_step c e.1). eexists. split; [by right|]. rewrite Es. cbn [default].
      eapply (serial_enter _ _ _ _ inv _ _ here); [done|done| |done]. destruct h; [|done].
      by destruct Hb; eexists.
  - destruct (release (s_lock st) l unlock_start) as [lock' p'] eqn:Er.
    destruct (serial_release _ _ _ _ inv _ _ here l unlock_start lock' p') as [h' Hs]; [by right|done|].
    exists h', c, M. auto.
  - destruct (f (s_shared st) l) as [s' l'] eqn:Ef. exists h, c, M. split; [by left|].
    by eapply (serial_work _ _ _ _ inv _ _ here).
  - destruct (release (s_lock st) l u) as [lock' p'] eqn:Er.
    destruct (serial_release _ _ _ _ inv _ _ here l u lock' p') as [h' Hs]; [by left|done|].
    exists h', c, M. auto.
Qed.

Lemma serial_run sched : forall h c M st,
  serial h c M st -> exists order h' M', serial h' (atomic_run order c) M' (run_sections sched st).
Proof using Type.
  induction sched as [|e sched IH]; intros h c M st Hs; [by exists [], h, M|].
  destruct (serial_step _ _ _ _ e Hs) as (h' & c' & M' & Hc & Hs').
  destruct (IH _ _ _ _ Hs') as (order & h2 & M2 & Hr). cbn [run_sections foldl].
  destruct Hc as [->| ->]; [by exists order, h2, M2|by exists (e.1 :: order), h2, M2].
Qed.

(** A thread that gets the lock on its own enters its section. *)
Lemma acquires_enters i l evs : forall st pc,
  s_places st !! i = Some (Locking l pc) -> acquires i evs (s_lock st) pc = true ->
  exists k fs, s_places (run_sections (pair i <$> take k evs) st) !! i = Some (Inside fs l).
Proof using Type.
  induction evs as [|ev evs IH]; intros st pc Hi Ha; [done|]. cbn [acquires] in Ha.
  pose proof (lookup_lt_Some _ _ _ Hi) as Hlt.
  destruct (lock_step i ev (s_lock st) pc) as [lock' [pc'|]] eqn:El.
  - assert (E : section_step st (i, ev) = System lock' (s_shared st) (<[i := Locking l pc']> (s_places st))).
    { unfold section_step. cbn [fst snd]. rewrite Hi. cbn [place_step]. by rewrite El. }
    destruct (IH (section_step st (i, ev)) pc') as (k & fs & Hk).
    + rewrite E. cbn [s_places]. by apply list_lookup_insert_eq.
    + by rewrite E.
    + by exists (Datatypes.S k), fs.
  - exists 1%nat, (default [] (section i l)). cbn [take fmap list_fmap run_sections foldl].
    unfold section_step. cbn [fst snd]. rewrite Hi. cbn [place_step]. rewrite El. cbn [s_places].
    by apply list_lookup_insert_eq.
Qed.

(** Nobody is inside a critical section. *)
Definition quiet (st : system) : Prop := forall i p, s_places st !! i = Some p -> ~ is_inside p.

(** What a program sees of its critical sections: one thread at most is inside;
    the shared state and the threads' local states are those of the sections
    run one after the other, once the thread inside finishes; and when nobody
    is inside, a thread that tries gets in. *)
Record serialized (c0 : S * list L) (st : system) (order : list nat) : Prop := {
  sz_length : length (s_places st) = length c0.2;
  sz_exclusive i j p q : s_places st !! i = Some p -> s_places st !! j = Some q ->
    is_inside p -> is_inside q -> i = j;
  sz_local i p : s_places st !! i = Some p ->
    (atomic_run order c0).2 !! i = Some (finished (s_shared st) p).2;
  sz_inside i p : s_places st !! i = Some p -> is_inside p ->
    (atomic_run order c0).1 = (finished (s_shared st) p).1;
  sz_quiet : quiet st -> s_shared st = (atomic_run order c0).1;
  sz_progress i l pc evs : quiet st -> s_places st !! i = Some (Locking l pc) ->
    Forall lucky evs -> length evs = lock_rounds ->
    exists k fs, s_places (run_sections (pair i <$> take k evs) st) !! i = Some (Inside fs l);
}.

Lemma atomic_run_length order : forall c, length (atomic_run order c).2 = length c.2.
Proof using.
  induction order as [|i order IH]; intros c; [done|].
  change (atomic_run (i :: order) c) with (atomic_run order (atomic_step c i)). rewrite IH. unfold atomic_step.
  destruct (c.2 !! i); [|done]. destruct (section i l); [apply length_insert|done].
Qed.

Lemma sections_serialize lock s ls sched : lock_ok false lock ∅ ->
  exists order, serialized (s, ls) (run_sections sched (start lock s ls)) order.
Proof using Type.
  intros Hok. destruct (serial_run sched _ _ _ _ (start_serial lock s ls Hok)) as (order & h & M & Hs).
  set (st := run_sections _ _) in *. exists order.
  assert (Hq : quiet st -> h = None).
  { intros Hq. destruct h as [i|]; [|done]. destruct (sr_held _ _ _ _ Hs i eq_refl) as [p Hp].
    destruct (Hq _ _ Hp). by apply (sr_holder _ _ _ _ Hs _ _ Hp). }
  constructor.
  - rewrite (sr_length _ _ _ _ Hs). apply atomic_run_length.
  - intros i j p q Hi Hj Hp Hp'. apply (sr_holder _ _ _ _ Hs _ _ Hi) in Hp.
    apply (sr_holder _ _ _ _ Hs _ _ Hj) in Hp'. congruence.
  - apply (sr_locals _ _ _ _ Hs).
  - intros i p Hi Hp. apply (sr_holder _ _ _ _ Hs _ _ Hi) in Hp.
    pose proof (sr_shared _ _ _ _ Hs) as Hsh. rewrite Hp in Hsh. by apply Hsh.
  - intros Hn. pose proof (sr_shared _ _ _ _ Hs) as Hsh. by rewrite (Hq Hn) in Hsh.
  - intros i l pc evs Hn Hi Hl Hr. pose proof (sr_lock _ _ _ _ Hs) as Hk.
    rewrite (Hq Hn), bool_decide_false in Hk by by intros [? ?].
    eapply acquires_enters; [exact Hi|]. eapply law_progress; [exact Hk| |done|done].
    rewrite (sr_map _ _ _ _ Hs), Hi. done.
Qed.
End Sections.

