(* ===== verification/Mutex.v ===== *)
(** * Mutexes of the C library (src/lib/musl-1.1.10: src/thread, src/internal/pthread_impl.h)

    Popcorn's musl has no futex: [__timedwait_cp] spins on the word and
    [__wake] does nothing.  Modelled are the mutexes of type
    PTHREAD_MUTEX_NORMAL, one access to shared memory at a time, with every
    reading of the clock an event. *)

From S2P Require Import Prelude Lock.

#[local] Open Scope Z_scope.

(** ** Definitions *)

Definition EINTR : Z := 4.
Definition EBUSY : Z := 16.
Definition EINVAL : Z := 22.
Definition ETIMEDOUT : Z := 110.
Definition ECANCELED : Z := 125.

(** [_m_lock] and [_m_waiters] *)
Record pthread_mutex_t := PMutex { m_lock : Z; m_waiters : Z }.

Definition set_m_lock (v : Z) (m : pthread_mutex_t) : pthread_mutex_t := PMutex v (m_waiters m).
Definition set_m_waiters (v : Z) (m : pthread_mutex_t) : pthread_mutex_t := PMutex (m_lock m) v.

(** pthread_mutex_init without attributes *)
Definition pthread_mutex_init : pthread_mutex_t := PMutex 0 0.

(** [a_cas(&m->_m_lock, t, s)]: the old value *)
Definition cas_lock (t s : Z) (m : pthread_mutex_t) : Z * pthread_mutex_t :=
  (m_lock m, if m_lock m =? t then set_m_lock s m else m).

Definition a_inc_waiters (m : pthread_mutex_t) : pthread_mutex_t :=
  set_m_waiters (signed 32 (m_waiters m + 1)) m.
Definition a_dec_waiters (m : pthread_mutex_t) : pthread_mutex_t :=
  set_m_waiters (signed 32 (m_waiters m - 1)) m.

(** *** Waiting (__timedwait.c) *)

Record timespec := Timespec { tv_sec : Z; tv_nsec : Z }.

(** Times do not overflow. *)
Definition timespec_cmp (a b : timespec) : Z :=
  if tv_sec a <? tv_sec b then -1
  else if tv_sec a >? tv_sec b then 1
  else signed 32 (tv_nsec a - tv_nsec b).

(** [to]: the time left *)
Definition time_left (at_ now : timespec) : timespec :=
  let nsec := tv_nsec at_ - tv_nsec now in
  let sec := tv_sec at_ - tv_sec now in
  if nsec <? 0 then Timespec (sec - 1) (nsec + 1000000000) else Timespec sec nsec.

(** In [__timedwait_cp]: at its beginning, at the test of the word, at the
    reading of the clock; [tcur] is the last time read (not initialised). *)
Inductive timedwait_pc :=
  | TwEnter (tcur : timespec)
  | TwLoop (to tcur : timespec)
  | TwClock (to tcur : timespec).

(** What clock_gettime gives; [None] is a failure. *)
Abbreviation clock_event := (option timespec).

Definition timedwait_result (r : Z) : Z :=
  if negb (r =? EINTR) && negb (r =? ETIMEDOUT) && negb (r =? ECANCELED) then 0 else r.

(** The word's value now, the one waited for to change, the deadline. *)
Definition timedwait_cp_step (at_ : option timespec) (val : Z) (ev : clock_event) (word : Z)
    (p : timedwait_pc) : timedwait_pc + Z :=
  match p with
  | TwEnter tcur =>
      match at_ with
      | None => inl (TwLoop (Timespec 0 0) tcur)
      | Some at_ =>
          if 1000000000 <=? wrap64 (tv_nsec at_) then inr EINVAL
          else match ev with
          | None => inr EINVAL
          | Some now =>
              let to := time_left at_ now in
              if tv_sec to <? 0 then inr ETIMEDOUT else inl (TwLoop to tcur)
          end
      end
  | TwLoop to tcur =>
      if word =? val
      then match at_ with Some _ => inl (TwClock to tcur) | None => inl (TwLoop to tcur) end
      else inr (timedwait_result 0)
  | TwClock to tcur =>
      let tcur := default tcur ev in
      if timespec_cmp to tcur >? 0 then inr (timedwait_result ETIMEDOUT) else inl (TwLoop to tcur)
  end.

(** The wait against what the surroundings do: at each access the reading of the
    clock and the value of the word. *)
Fixpoint timedwait_run (at_ : option timespec) (val : Z) (evs : list (clock_event * Z))
    (p : timedwait_pc) : timedwait_pc + Z :=
  match evs with
  | [] => inl p
  | (ev, word) :: evs =>
      match timedwait_cp_step at_ val ev word p with
      | inl p' => timedwait_run at_ val evs p'
      | inr r => inr r
      end
  end.

(** *** Locking (pthread_mutex_lock.c, pthread_mutex_trylock.c,
    pthread_mutex_timedlock.c) *)

(** The result of __pthread_mutex_trylock. *)
Definition pthread_mutex_trylock (m : pthread_mutex_t) : Z * pthread_mutex_t :=
  let '(old, m') := cas_lock 0 EBUSY m in (Z.land old EBUSY, m').

Inductive mutex_pc :=
  | LkFast                    (* pthread_mutex_lock *)
  | TlFast                    (* pthread_mutex_timedlock *)
  | TlTry
  | TlSpinLock (spins : nat)  (* the two reads of the spinning loop's test *)
  | TlSpinWaiters (spins : nat)
  | TlLoop
  | TlRead
  | TlInc (r : Z)
  | TlMark (r : Z)
  | TlWait (t : Z) (p : timedwait_pc)
  | TlDec (r : Z).

Definition mutex_lock_step (at_ : option timespec) (junk : timespec) (ev : clock_event)
    (m : pthread_mutex_t) (p : mutex_pc) : pthread_mutex_t * (mutex_pc + Z) :=
  match p with
  | LkFast =>
      let '(old, m') := cas_lock 0 EBUSY m in (m', if old =? 0 then inr 0 else inl TlFast)
  | TlFast =>
      let '(old, m') := cas_lock 0 EBUSY m in (m', if old =? 0 then inr 0 else inl TlTry)
  | TlTry =>
      let '(r, m') := pthread_mutex_trylock m in
      (m', if r =? EBUSY then inl (TlSpinLock 100) else inr r)
  | TlSpinLock spins =>
      (m, inl match spins with
          | O => TlLoop
          | S spins => if m_lock m =? 0 then TlLoop else TlSpinWaiters spins
          end)
  | TlSpinWaiters spins => (m, inl (if m_waiters m =? 0 then TlSpinLock spins else TlLoop))
  | TlLoop =>
      let '(r, m') := pthread_mutex_trylock m in
      (m', if r =? EBUSY then inl TlRead else inr r)
  | TlRead => (m, inl (if m_lock m =? 0 then TlLoop else TlInc (m_lock m)))
  | TlInc r => (a_inc_waiters m, inl (TlMark r))
  | TlMark r =>
      let t := signed 32 (Z.lor r 0x80000000) in
      ((cas_lock r t m).2, inl (TlWait t (TwEnter junk)))
  | TlWait t p =>
      (m, inl match timedwait_cp_step at_ t ev (m_lock m) p with
          | inl p' => TlWait t p'
          | inr r => TlDec r
          end)
  | TlDec r =>
      (a_dec_waiters m, if negb (r =? 0) && negb (r =? EINTR) then inr r else inl TlLoop)
  end.

(** *** Unlocking (pthread_mutex_unlock.c) *)

Inductive mutex_unlock_pc := UnRead | UnSwap (waiters : Z).

(** [__wake] has lost its system call. *)
Definition wake (m : pthread_mutex_t) : pthread_mutex_t := m.

Definition mutex_unlock_step (m : pthread_mutex_t) (p : mutex_unlock_pc) :
    pthread_mutex_t * option mutex_unlock_pc :=
  match p with
  | UnRead => (m, Some (UnSwap (m_waiters m)))
  | UnSwap waiters =>
      let cont := m_lock m in
      let m := set_m_lock 0 m in
      (if negb (waiters =? 0) || (cont <? 0) then wake m else m, None)
  end.

(** ** The mutex as a lock *)

#[export] Instance mutex_lock : Lock := {|
  lock_state := pthread_mutex_t;
  lock_pc := mutex_pc;
  unlock_pc := mutex_unlock_pc;
  lock_event := clock_event;
  lock_start := LkFast;
  unlock_start := UnRead;
  lock_step _ ev m p :=
    match mutex_lock_step None (Timespec 0 0) ev m p with
    | (m', inl p') => (m', Some p')
    | (m', inr _) => (m', None)
    end;
  unlock_step := mutex_unlock_step;
|}.

(** ** Lemmas *)

(** The word of a mutex that is held, without and with the mark of a waiter. *)
Definition HELD : Z := 16.
Definition MARKED : Z := -2147483632.

Definition word_held (w : Z) : Prop := w = HELD \/ w = MARKED.

(** What a thread remembers of the word while it locks without deadline. *)
Definition pc_ok (p : mutex_pc) : Prop :=
  match p with
  | TlInc r | TlMark r => word_held r
  | TlWait t p => t = MARKED /\ match p with TwClock _ _ => False | _ => True end
  | TlDec r => r = 0
  | _ => True
  end.

Definition mutex_ok (b : bool) (m : pthread_mutex_t) : Prop :=
  if b then word_held (m_lock m) else m_lock m = 0.

Lemma mark_held r : word_held r -> signed 32 (Z.lor r 0x80000000) = MARKED.
Proof. by intros [-> | ->]. Qed.

Lemma mutex_trylock_spec b m : mutex_ok b m ->
  pthread_mutex_trylock m = if b then (EBUSY, m) else (0, set_m_lock EBUSY m).
Proof. unfold pthread_mutex_trylock, cas_lock. destruct b; cbn; [by intros [-> | ->]|by intros ->]. Qed.

Lemma mutex_fast_spec b m : mutex_ok b m ->
  cas_lock 0 EBUSY m = if b then (m_lock m, m) else (0, set_m_lock EBUSY m).
Proof. unfold cas_lock. destruct b; cbn; [by intros [-> | ->]|by intros ->]. Qed.

(** A step without deadline: the thread keeps waiting, or it takes a mutex that
    was free and reports success. *)
Lemma mutex_step_ok b junk ev m p : mutex_ok b m -> pc_ok p ->
  match mutex_lock_step None junk ev m p with
  | (m', inl p') => mutex_ok b m' /\ pc_ok p'
  | (m', inr r) => r = 0 /\ b = false /\ mutex_ok true m'
  end.
Proof.
  intros Hm Hp.
  destruct p as [| | |[|s]|s| | |r|r|t q|r]; cbn [mutex_lock_step pc_ok] in *;
    try (rewrite (mutex_trylock_spec b m Hm); by destruct b; [|repeat split; left]).
  - rewrite (mutex_fast_spec b m Hm). destruct b; [|repeat split; by left].
    by destruct Hm as [E|E]; cbn; rewrite E; repeat split; rewrite ?E; [left|right].
  - rewrite (mutex_fast_spec b m Hm). destruct b; [|repeat split; by left].
    by destruct Hm as [E|E]; cbn; rewrite E; repeat split; rewrite ?E; [left|right].
  - done.
  - by case_match.
  - by case_match.
  - destruct (Z.eqb_spec (m_lock m) 0); [done|]. split; [done|]. by destruct b.
  - done.
  - rewrite mark_held by done. split; [|done]. unfold cas_lock. cbn [snd].
    destruct (Z.eqb_spec (m_lock m) r) as [E|]; [|done].
    destruct b; [by right|]. cbn in Hm. rewrite Hm in E. by destruct Hp as [-> | ->].
  - destruct Hp as [-> Hq]. split; [done|].
    destruct q; cbn [timedwait_cp_step]; [done| |done]. by destruct (m_lock m =? MARKED).
  - subst r. done.
Qed.

Lemma mutex_unlock_ok m u : mutex_ok true m ->
  match mutex_unlock_step m u with
  | (m', Some _) => mutex_ok true m'
  | (m', None) => mutex_ok false m'
  end.
Proof. destruct u; cbn; [done|]. intros _. by case_match. Qed.

(** How far a thread is from a free mutex. *)
Definition rounds (p : mutex_pc) : nat :=
  match p with
  | LkFast | TlFast | TlTry | TlLoop => 1
  | TlSpinLock _ | TlRead | TlDec _ => 2
  | TlSpinWaiters _ | TlWait _ (TwLoop _ _) | TlWait _ (TwClock _ _) => 3
  | TlWait _ (TwEnter _) => 4
  | TlMark _ => 5
  | TlInc _ => 6
  end.

Lemma mutex_progress i (evs : list clock_event) : forall m p, mutex_ok false m -> pc_ok p ->
  (rounds p <= length evs)%nat -> acquires i evs m p = true.
Proof.
  induction evs as [|ev evs IH]; intros m p Hm Hp Hr.
  { cbn in Hr. by destruct p as [| | |[]|[]| | | | |? []|]; cbn in Hr; lia. }
  cbn [acquires lock_step mutex_lock length] in *.
  pose proof (mutex_step_ok false (Timespec 0 0) ev m p Hm Hp) as Hs.
  pose proof (mutex_trylock_spec false m Hm) as Ht. pose proof (mutex_fast_spec false m Hm) as Hf.
  destruct (mutex_lock_step None (Timespec 0 0) ev m p) as [m' [p'|r]] eqn:E; [|done].
  destruct Hs as [Hm' Hp']. apply IH; [done|done|]. clear IH. cbn in Hm.
  destruct p as [| | |[|s]|s| | |r|r|t [q|q1 q2|q1 q2]|r]; cbn [mutex_lock_step timedwait_cp_step rounds] in *;
    rewrite ?Ht, ?Hf, ?Hm in E; cbn in E; try discriminate; try lia.
  - injection E as <- <-. cbn. lia.
  - injection E as <- <-. cbn. lia.
  - injection E as <- <-. destruct (m_waiters m =? 0); cbn; lia.
  - injection E as <- <-. cbn. lia.
  - injection E as <- <-. cbn. lia.
  - injection E as <- <-. cbn. lia.
  - injection E as <- <-. cbn. lia.
  - destruct Hp as [-> _]. injection E as <- <-. cbn. lia.
  - by destruct Hp.
  - cbn in Hp. subst r. injection E as <- <-. cbn. lia.
Qed.

#[export] Instance mutex_laws : LockLaws.
Proof.
  refine {|
    lock_ok b m M := mutex_ok b m /\ map_Forall (fun _ => pc_ok) M;
    lucky _ := True;
    lock_rounds := 6;
  |}.
  - intros b m M i [Hm HM] _. split; [done|]. by apply map_Forall_insert_2.
  - intros b m M i p ev [Hm HM] Hi. cbn [lock_step mutex_lock].
    pose proof (mutex_step_ok b (Timespec 0 0) ev m p Hm (HM _ _ Hi)) as Hs.
    destruct (mutex_lock_step None (Timespec 0 0) ev m p) as [m' [p'|r]].
    + destruct Hs as [Hm' Hp']. split; [done|]. by apply map_Forall_insert_2.
    + destruct Hs as (_ & Hb & Hm'). split; [done|]. split; [done|]. by apply map_Forall_delete.
  - intros m M u [Hm HM]. pose proof (mutex_unlock_ok m u Hm) as Hu. cbn [unlock_step mutex_lock].
    by destruct (mutex_unlock_step m u) as [m' [u'|]].
  - intros m M i p evs [Hm HM] Hi _ Hl. apply mutex_progress; [done|by apply (HM _ _ Hi)|].
    change (length (A := clock_event) evs = 6%nat) in Hl. rewrite Hl. destruct p as [| | |[]|[]| | | | |? []|]; cbn; lia.
Defined.

(** *** Deadlines *)

Definition before (a b : timespec) : Prop :=
  tv_sec a < tv_sec b \/ tv_sec a = tv_sec b /\ tv_nsec a < tv_nsec b.

Definition in_range (t : timespec) : Prop := 0 <= tv_nsec t < 1000000000.

Lemma timespec_cmp_gt a b : in_range a -> in_range b -> timespec_cmp a b > 0 <-> before b a.
Proof.
  unfold timespec_cmp, before, in_range. intros Ha Hb.
  destruct (Z.ltb_spec (tv_sec a) (tv_sec b)); [lia|].
  destruct (Z.gtb_spec (tv_sec a) (tv_sec b)); [lia|].
  rewrite signed_small by lia. lia.
Qed.

Lemma time_left_range at_ now : in_range at_ -> in_range now -> in_range (time_left at_ now).
Proof. unfold in_range, time_left. intros. destruct (Z.ltb_spec (tv_nsec at_ - tv_nsec now) 0); cbn; lia. Qed.

(** Past the epoch, the time left is less than the deadline's date. *)
Lemma time_left_before at_ now t : in_range at_ -> in_range now -> 0 <= tv_sec now ->
  before t (time_left at_ now) -> before t at_.
Proof.
  unfold before, in_range, time_left.
  destruct (Z.ltb_spec (tv_nsec at_ - tv_nsec now) 0); cbn; lia.
Qed.

(** One round of the loop on a word that does not change. *)
Definition round (val : Z) (t : timespec) : list (clock_event * Z) := [(None, val); (Some t, val)].

Lemma round_spec at_ val t to tcur evs : in_range to -> in_range t ->
  timedwait_run (Some at_) val (round val t ++ evs) (TwLoop to tcur) =
  if bool_decide (timespec_cmp to t > 0) then inr ETIMEDOUT
  else timedwait_run (Some at_) val evs (TwLoop to t).
Proof.
  intros Ho Ht. cbn. rewrite Z.eqb_refl. cbn.
  destruct (Z.gtb_spec (timespec_cmp to t) 0); [by rewrite bool_decide_true by lia|].
  by rewrite bool_decide_false by lia.
Qed.

Lemma rounds_wait at_ val to readings : in_range to -> Forall in_range readings ->
  Forall (fun t => ~ before t to) readings -> forall tcur, exists tcur',
  timedwait_run (Some at_) val (concat (round val <$> readings)) (TwLoop to tcur) = inl (TwLoop to tcur').
Proof.
  intros Ho Hr Hb. induction readings as [|t readings IH]; intros tcur; [by exists tcur|].
  inversion_clear Hr. inversion_clear Hb. destruct (IH ltac:(done) ltac:(done) t) as [tcur' Hc].
  exists tcur'. cbn [fmap list_fmap concat]. rewrite round_spec by done.
  by rewrite bool_decide_false by by rewrite timespec_cmp_gt.
Qed.

(** A thread outside that wants the mutex, as [place] says it. *)
Lemma mutex_free_ok : lock_ok false pthread_mutex_init ∅.
Proof. split; [done|]. apply map_Forall_empty. Qed.

(** ** Properties *)

(** C40: a mutex of Popcorn's C library, whose waiters spin instead of sleeping,
    makes critical sections atomic: under every interleaving of the accesses of
    any number of threads that lock (without deadline), work and unlock, at most
    one thread is inside, shared and local states are those of the sections run
    one after the other in the order of acquisition, and when nobody is inside,
    a thread that is in pthread_mutex_lock, wherever it is in it, has the mutex
    within six accesses of its own. *)
Theorem mutex_serializes {S L} (section : nat -> L -> option (list (S -> L -> S * L))) s ls sched :
  exists order,
    serialized section (s, ls) (run_sections section sched (start pthread_mutex_init s ls)) order.
Proof. apply sections_serialize, mutex_free_ok. Qed.

(** A wait with a deadline compares the clock with the time that was left
    when it began, not with the deadline: while the word keeps its value, a
    clock that shows the time left or more, all times past the deadline
    included, never ends the wait, and a timeout is reported as soon as the clock
    shows less, which is before the deadline. *)
Theorem timedwait_misses_deadline at_ now junk val readings :
  in_range at_ -> in_range now -> 0 <= tv_sec now -> Forall in_range readings ->
  0 <= tv_sec (time_left at_ now) ->
  let to := time_left at_ now in
  let run := fun readings => timedwait_run (Some at_) val
    ((Some now, val) :: concat (round val <$> readings)) (TwEnter junk) in
  (Forall (fun t => ~ before t to) readings -> exists tcur, run readings = inl (TwLoop to tcur)) /\
  (Forall (fun t => ~ before t at_) readings -> exists tcur, run readings = inl (TwLoop to tcur)) /\
  (forall t later, in_range t -> before t to -> run (t :: later) = inr ETIMEDOUT /\ before t at_).
Proof.
  intros Ha Hn Hs Hr Ht to run.
  assert (Hto : in_range to) by by apply time_left_range.
  assert (E : forall rs, run rs = timedwait_run (Some at_) val (concat (round val <$> rs)) (TwLoop to junk)).
  { intros rs. unfold run. cbn [timedwait_run timedwait_cp_step]. rewrite wrap_small by (unfold in_range in Ha; lia).
    destruct (Z.leb_spec 1000000000 (tv_nsec at_)); [unfold in_range in Ha; lia|].
    destruct (Z.ltb_spec (tv_sec (time_left at_ now)) 0); [lia|done]. }
  split; [|split].
  - intros Hb. rewrite E. by apply rounds_wait.
  - intros Hb. rewrite E. apply rounds_wait; [done|done|].
    eapply Forall_impl; [exact Hb|]. intros t Hna Hbt. apply Hna. by apply (time_left_before at_ now).
  - intros t later Htr Hbt. split; [|by apply (time_left_before at_ now)].
    rewrite E. cbn [fmap list_fmap concat]. rewrite round_spec by done.
    by rewrite bool_decide_true by by rewrite timespec_cmp_gt.
Qed.

(** The theorem's hypotheses hold: at 1000 s, a deadline at 1010 s.  A clock that shows
    1020 s does not end the wait; one that (on a machine that has just set its
    clock back) shows 5 s does. *)
Lemma timedwait_misses_deadline_witness :
  let at_ := Timespec 1010 0 in
  let now := Timespec 1000 0 in
  let junk := Timespec 0 0 in
  let run := fun readings => timedwait_run (Some at_) 7
    ((Some now, 7) :: concat (round 7 <$> readings)) (TwEnter junk) in
  (exists tcur, run [Timespec 1009 0; Timespec 1010 0; Timespec 1020 0] = inl (TwLoop (Timespec 10 0) tcur)) /\
  run [Timespec 5 0] = inr ETIMEDOUT.
Proof.
  assert (Hr : Forall in_range [Timespec 1009 0; Timespec 1010 0; Timespec 1020 0])
    by (repeat constructor; cbn; lia).
  destruct (timedwait_misses_deadline (Timespec 1010 0) (Timespec 1000 0) (Timespec 0 0) 7
    [Timespec 1009 0; Timespec 1010 0; Timespec 1020 0]) as (H1 & _ & H3);
    [split; cbn; lia|split; cbn; lia|cbn; lia|exact Hr|by vm_compute|].
  change (time_left (Timespec 1010 0) (Timespec 1000 0)) with (Timespec 10 0) in H1, H3. split.
  - apply H1. repeat (apply Forall_cons_2; [unfold before; cbn; lia|]). by apply Forall_nil_2.
  - apply H3; [split; cbn; lia|]. left. cbn. lia.
Defined.
