(* ===== verification/Critical.v ===== *)
(** * Critical sections and reductions (src/lib/libbomp: spin.h, parallel.c, kmp.c)

    The spin lock is modelled one instruction on the shared word at a time, for
    both architectures; a schedule of threads decides the interleaving, and on
    aarch64 also whether a store-exclusive fails for no visible reason.  It is an
    instance of [Lock]; what threads do inside a critical section is the
    program's own: a list of atomic steps on a shared state and a local one. *)

From S2P Require Import Prelude Lock.

(** ** Definitions *)

(** The lock word, and the threads whose exclusive monitor covers it. *)
Record bomp_lock_t := BompLock { l_word : Z; l_monitors : gset nat }.

(** Where a thread is in [bomp_lock]: at the comparison (x86-64) or the
    load-exclusive (aarch64), or at the bit test-and-set or the
    store-exclusive.  The [wfe] that a thread on aarch64 executes before the
    load-exclusive when it has found the lock taken is not a step: it is a hint,
    which the architecture lets return at any time and which accesses nothing. *)
Inductive bomp_lock_pc := AtLoad | AtSet.

(** [None]: past the lock. *)
Definition bomp_lock_step (aarch64 : bool) (me : nat) (lucky : bool) (l : bomp_lock_t) (p : bomp_lock_pc) :
    bomp_lock_t * option bomp_lock_pc :=
  match p with
  | AtLoad =>
      if aarch64 then                                       (* ldaxr; cbnz *)
        (BompLock (l_word l) ({[me]} ∪ l_monitors l), Some (if wrap32 (l_word l) =? 0 then AtSet else AtLoad))
      else (l, Some (if l_word l =? 0 then AtSet else AtLoad))     (* cmpq; je *)
  | AtSet =>
      if aarch64 then                                       (* stxr; cbnz *)
        if bool_decide (me ∈ l_monitors l) && lucky
        then (BompLock (l_word l - wrap32 (l_word l) + 1) ∅, None)
        else (BompLock (l_word l) (l_monitors l ∖ {[me]}), Some AtLoad)
      else                                                  (* lock btsq; jc *)
        (BompLock (Z.lor (l_word l) 1) (l_monitors l), if Z.testbit (l_word l) 0 then Some AtLoad else None)
  end.

Definition bomp_unlock (l : bomp_lock_t) : bomp_lock_t := BompLock 0 ∅.

(** The locks are zero-initialised variables. *)
Definition bomp_lock_init (l : bomp_lock_t) : bomp_lock_t := l.
Definition critical_lock : bomp_lock_t := BompLock 0 ∅.
Definition atomic_lock : bomp_lock_t := BompLock 0 ∅.

Definition parallel_init (locks : bomp_lock_t * bomp_lock_t) : bomp_lock_t * bomp_lock_t :=
  let atomic := bomp_lock_init locks.1 in
  let critical := bomp_lock_init locks.2 in
  (atomic, critical).

(** The entry points take the lock, the exits release it; a reduction asks the
    thread to reduce its own value (1). *)
Definition GOMP_critical_start : bomp_lock_pc := AtLoad.
Definition GOMP_critical_end : bomp_lock_t -> bomp_lock_t := bomp_unlock.
Definition GOMP_atomic_start : bomp_lock_pc := AtLoad.
Definition GOMP_atomic_end : bomp_lock_t -> bomp_lock_t := bomp_unlock.
Definition kmpc_critical : bomp_lock_pc := GOMP_critical_start.
Definition kmpc_end_critical : bomp_lock_t -> bomp_lock_t := GOMP_critical_end.
Definition kmpc_reduce_nowait : bomp_lock_pc * Z := (GOMP_critical_start, 1).
Definition kmpc_end_reduce_nowait : bomp_lock_t -> bomp_lock_t := GOMP_critical_end.

(** Critical sections: the lock between [kmpc_critical] and
    [kmpc_end_critical].  Atomic sections ([GOMP_atomic_start],
    [GOMP_atomic_end]) take the same steps on a word of their own. *)
Definition critical (aarch64 : bool) : Lock := {|
  lock_state := bomp_lock_t;
  lock_pc := bomp_lock_pc;
  unlock_pc := unit;
  lock_event := bool;
  lock_start := kmpc_critical;
  unlock_start := tt;
  lock_step := bomp_lock_step aarch64;
  unlock_step l _ := (kmpc_end_critical l, None);
|}.

(** A reduction: the program's code reads the shared variable and writes it
    back combined with the thread's own value; the local state says whether the
    thread has been there, and what it has read. *)
Definition reduction (op : Z -> Z -> Z) (value : nat -> Z) (i : nat) (l : bool * Z) :
    option (list (Z -> bool * Z -> Z * (bool * Z))) :=
  if l.1 then None
  else Some [fun s _ => (s, (false, s)); fun s l => (op l.2 (value i), (true, l.2))].

(** ** Lemmas *)

(** The laws: the word says whether the lock is held, and a thread about to
    store has lost its monitor unless the lock is free. *)
Section Laws.
Context (aarch64 : bool).

Definition critical_ok (b : bool) (l : bomp_lock_t) (M : gmap nat bomp_lock_pc) : Prop :=
  l_word l = Z.b2z b /\
  (aarch64 = true -> forall i, i ∈ l_monitors l -> M !! i = Some AtSet -> b = false).

Lemma critical_begin b l M i :
  critical_ok b l M -> M !! i = None -> critical_ok b l (<[i := AtLoad]> M).
Proof.
  intros [Hw Hm] _. split; [done|]. intros Ha j Hj. rewrite lookup_insert. case_decide; [done|by apply Hm].
Qed.

Lemma critical_step b l M i p ev : critical_ok b l M -> M !! i = Some p ->
  match bomp_lock_step aarch64 i ev l p with
  | (l', Some p') => critical_ok b l' (<[i := p']> M)
  | (l', None) => b = false /\ critical_ok true l' (delete i M)
  end.
Proof.
  intros [Hw Hm] Hi. unfold critical_ok. destruct p; cbn [bomp_lock_step]; destruct aarch64 eqn:Ha.
  - split; [done|]. cbn [l_monitors]. intros _ j Hj. rewrite lookup_insert. case_decide as E.
    + rewrite Hw. by destruct b.
    + apply Hm; [done|]. clear -Hj E. set_solver.
  - split; [done|]. intros [=].
  - case_bool_decide as Hin; [destruct ev|]; cbn [andb l_word l_monitors].
    + pose proof (Hm eq_refl _ Hin Hi) as ->. rewrite Hw. split; [done|]. split; [done|].
      intros _ j []%elem_of_empty.
    + split; [done|]. intros _ j Hj. rewrite lookup_insert. case_decide; [done|]. apply Hm; [done|]. clear -Hj. set_solver.
    + split; [done|]. intros _ j Hj. rewrite lookup_insert. case_decide; [done|]. apply Hm; [done|]. clear -Hj. set_solver.
  - rewrite Hw. by destruct b.
Qed.

Lemma critical_progress l M i p evs : critical_ok false l M -> M !! i = Some p ->
  Forall (fun ev => aarch64 = true -> ev = true) evs -> length evs = 3%nat ->
  acquires (H := critical aarch64) i evs l p = true.
Proof.
  intros [Hw _] _ Hl Hn. destruct evs as [|e1 [|e2 [|e3 [|]]]]; try done.
  cbn in Hw. destruct l as [w ms]. cbn in Hw. subst w. cbn [acquires lock_step critical].
  destruct aarch64; [|by destruct p].
  inversion_clear Hl as [|? ? H1 Hl']. inversion_clear Hl' as [|? ? H2 Hl]. inversion_clear Hl as [|? ? H3 _].
  rewrite H1, H2, H3 by done. clear H1 H2 H3.
  assert (Hload : forall ms, bomp_lock_step true i true (BompLock 0 ms) AtLoad
    = (BompLock 0 ({[i]} ∪ ms), Some AtSet)) by done.
  assert (Hset : forall ms, i ∈ ms -> bomp_lock_step true i true (BompLock 0 ms) AtSet = (BompLock 1 ∅, None)).
  { intros ms' Hin. cbn [bomp_lock_step l_monitors]. by rewrite bool_decide_true. }
  destruct p; [by rewrite Hload, Hset by set_solver|].
  destruct (decide (i ∈ ms)); [by rewrite Hset|].
  cbn [bomp_lock_step l_monitors]. rewrite bool_decide_false by done. cbn [andb l_word].
  by rewrite Hload, Hset by set_solver.
Qed.

Definition critical_laws : LockLaws (H := critical aarch64).
Proof.
  refine (Build_LockLaws (critical aarch64) critical_ok (fun ev => aarch64 = true -> ev = true) 3
    critical_begin critical_step _ critical_progress).
  intros l M u [_ _]. split; [done|]. by intros _ i ?%elem_of_empty.
Defined.

Lemma critical_lock_free : critical_ok false critical_lock ∅.
Proof. split; [done|]. by intros _ i ?%elem_of_empty. Qed.

End Laws.
(** A thread inside that enters another section waits for itself: whichever
    steps the schedule gives it, it does not acquire the lock. *)
Lemma nested_critical_waits aarch64 me luck l :
  l_word l = 1 -> acquires (H := critical aarch64) me luck l kmpc_critical = false.
Proof.
  revert l. induction luck as [|lucky luck IH]; intros l Hl; [done|].
  cbn [acquires lock_step critical]. unfold kmpc_critical, GOMP_critical_start, bomp_lock_step.
  destruct aarch64; rewrite Hl; by apply IH.
Qed.

(** *** Reductions *)

Section Reduction.
Context (op : Z -> Z -> Z) (value : nat -> Z).

Definition combine (s : Z) (order : list nat) : Z := foldl (fun s i => op s (value i)) s order.

(** The threads of [order] have combined their values, the others have not. *)
Record reduced (s0 : Z) (n : nat) (order : list nat) (c : Z * list (bool * Z)) : Prop := {
  rd_nodup : NoDup order;
  rd_shared : c.1 = combine s0 order;
  rd_length : length c.2 = n;
  rd_flags : forall i l, c.2 !! i = Some l -> l.1 = true <-> i ∈ order;
  rd_range : forall i, i ∈ order -> (i < n)%nat;
}.

Lemma reduced_step s0 n order c i : reduced s0 n order c ->
  exists order', reduced s0 n order' (atomic_step (reduction op value) c i).
Proof.
  intros R. unfold atomic_step, reduction. destruct (c.2 !! i) as [[b v]|] eqn:Hi; [|by exists order].
  cbn [fst]. destruct b; [by exists order|]. destruct R as [R1 R2 R3 R4 R5]. exists (order ++ [i]).
  pose proof (lookup_lt_Some _ _ _ Hi) as Hlt.
  assert (Hni : i ∉ order) by by rewrite <- (R4 _ _ Hi).
  cbn [run_steps foldl fst snd]. constructor; cbn [fst snd].
  - apply NoDup_app. split; [done|]. split; [|apply NoDup_singleton]. set_solver.
  - unfold combine. rewrite foldl_app. cbn. by rewrite R2.
  - by rewrite length_insert.
  - intros j l. rewrite place_insert by done. rewrite elem_of_app, list_elem_of_singleton.
    case_decide as E; [intros [= <-]; cbn; naive_solver|].
    intros Hj. rewrite (R4 _ _ Hj). naive_solver.
  - intros j. rewrite elem_of_app, list_elem_of_singleton. intros [?| ->]; [auto|lia].
Qed.

Lemma reduced_run s0 n sched : forall order c, reduced s0 n order c ->
  exists order', reduced s0 n order' (atomic_run (reduction op value) sched c).
Proof.
  induction sched as [|i sched IH]; intros order c R; [by exists order|].
  destruct (reduced_step _ _ _ _ i R) as [order' R']. by eapply IH.
Qed.

Lemma reduced_start s0 n : reduced s0 n [] (s0, replicate n (false, 0)).
Proof.
  constructor; cbn; [constructor|done|apply length_replicate| |by intros ? ?%not_elem_of_nil].
  intros i l [-> _]%lookup_replicate. cbn. split; [done|]. by intros ?%not_elem_of_nil.
Qed.

(** Once every thread is through, every thread's value has been combined
    exactly once. *)
Lemma reduction_complete aarch64 n s0 sched :
  let st := run_sections (H := critical aarch64) (reduction op value) sched
    (start (H := critical aarch64) critical_lock s0 (replicate n (false, 0))) in
  Forall (fun p => exists v, p = Outside (H := critical aarch64) (true, v)) (s_places st) ->
  exists order, order ≡ₚ seq 0 n /\ s_shared st = combine s0 order.
Proof.
  intros st Hall. rewrite Forall_lookup in Hall.
  destruct (sections_serialize (H0 := critical_laws aarch64) (reduction op value) critical_lock s0
    (replicate n (false, 0)) sched (critical_lock_free aarch64)) as [sch [Hlen _ Hloc _ Hq _]].
  fold st in Hlen, Hloc, Hq. cbn [snd] in Hlen. rewrite length_replicate in Hlen.
  destruct (reduced_run s0 n sch _ _ (reduced_start s0 n)) as [order [R1 R2 R3 R4 R5]].
  exists order. split.
  - apply NoDup_Permutation; [done|apply NoDup_seq|]. intros i. rewrite elem_of_seq. split.
    + intros Hi%R5. lia.
    + intros [_ Hi]. destruct (lookup_lt_is_Some_2 (s_places st) i ltac:(lia)) as [p Hp].
      pose proof (Hloc _ _ Hp) as Hl. destruct (Hall _ _ Hp) as [v ->]. by apply (R4 _ _ Hl).
  - rewrite Hq; [done|]. intros i p Hi. destruct (Hall _ _ Hi) as [v ->]. by intros [].
Qed.
End Reduction.

(** ** Properties *)

(** C39: critical sections exclude each other and lose nothing: on both
    architectures, under every interleaving (and whichever store-exclusives
    fail), at most one thread is inside, shared and local states are those of
    the sections run one after the other in the order of acquisition, and when
    nobody is inside, a thread that is in the lock has it after at most three
    accesses of its own without another thread's between, on aarch64 if its
    store-exclusives then succeed (they may fail for ever).  In particular a reduction by all of [n] threads ends with every
    thread's value combined exactly once. *)
Theorem critical_sections_serialize aarch64 :
  (forall S L (section : nat -> L -> option (list (S -> L -> S * L))) s ls sched,
     exists order, serialized (H0 := critical_laws aarch64) section (s, ls)
       (run_sections section sched (start (H := critical aarch64) critical_lock s ls)) order) /\
  (forall op value n s sched,
     let st := run_sections (reduction op value) sched
       (start (H := critical aarch64) critical_lock s (replicate n (false, 0))) in
     Forall (fun p => exists v, p = Outside (true, v)) (s_places st) ->
     exists order, order ≡ₚ seq 0 n /\ s_shared st = combine op value s order).
Proof.
  split.
  - intros S L section s ls sched. apply sections_serialize, critical_lock_free.
  - intros op value n s sched. apply reduction_complete.
Qed.
