(* ===== verification/CondVar.v ===== *)
(** * Condition variables of the C library (src/lib/musl-1.1.10/src/thread)

    pthread_cond_timedwait.c and its entry points for condition variables of one
    process: a list of waiter objects, each on the stack of its thread, that
    signals detach from the tail.  The clients are programs that use one mutex
    and one condition variable in any way that waits and works under the mutex.
    A step is one access to shared memory, except that a section under the
    variable's internal lock that only touches what this lock protects, an
    acquisition of a mutex and an acquisition of a waiter's barrier are one step
    each ([Mutex.mutex_serializes] justifies it).  An access to a waiter
    object, or to the counter of a signalling thread, whose function has
    returned is a [Fault]. *)

From S2P Require Import Prelude Mutex.

#[local] Open Scope Z_scope.

(** ** Definitions *)

Inductive waiter_state := WAITING | SIGNALED | LEAVING.

#[export] Instance waiter_state_eq_dec : EqDecision waiter_state.
Proof. solve_decision. Defined.

(** [struct waiter]; pointers to waiters and to counters name their threads. *)
Record waiter := Waiter {
  w_prev : option nat;
  w_next : option nat;
  w_state : waiter_state;
  w_barrier : Z;
  w_notify : option nat
}.

Definition set_prev (p : option nat) (w : waiter) : waiter :=
  Waiter p (w_next w) (w_state w) (w_barrier w) (w_notify w).
Definition set_next (p : option nat) (w : waiter) : waiter :=
  Waiter (w_prev w) p (w_state w) (w_barrier w) (w_notify w).
Definition set_state (s : waiter_state) (w : waiter) : waiter :=
  Waiter (w_prev w) (w_next w) s (w_barrier w) (w_notify w).
Definition set_barrier (b : Z) (w : waiter) : waiter :=
  Waiter (w_prev w) (w_next w) (w_state w) b (w_notify w).
Definition set_notify (n : option nat) (w : waiter) : waiter :=
  Waiter (w_prev w) (w_next w) (w_state w) (w_barrier w) n.

(** The holder of the internal lock; the ends of the list. *)
Record pthread_cond_t := PCond { c_lock : option nat; c_head : option nat; c_tail : option nat }.

(** pthread_cond_init without attributes *)
Definition pthread_cond_init : pthread_cond_t := PCond None None None.

Section Clients.
Context {S L : Type}.

(** What a client does next. *)
Inductive action :=
  | Acquire (l : L)                              (* pthread_mutex_lock *)
  | Release (l : L)                              (* pthread_mutex_unlock *)
  | Wait (ts : option timespec) (k : Z -> L)     (* pthread_cond_(timed)wait *)
  | Signal (n : Z) (l : L)                       (* pthread_cond_signal, _broadcast *)
  | Update (f : S -> S * L)                      (* its own work under the mutex *)
  | Stop.

(** The live waiters and the live counters [ref] of signalling threads; the
    mutex's holder and its count of waiters; what it protects. *)
Record memory := Memory {
  cond : pthread_cond_t;
  waiters : gmap nat waiter;
  refs : gmap nat Z;
  mutex : option nat;
  mutex_waiters : Z;
  shared : S
}.

Definition set_cond (c : pthread_cond_t) (m : memory) : memory :=
  Memory c (waiters m) (refs m) (mutex m) (mutex_waiters m) (shared m).
Definition set_waiters (ws : gmap nat waiter) (m : memory) : memory :=
  Memory (cond m) ws (refs m) (mutex m) (mutex_waiters m) (shared m).
Definition set_refs (rs : gmap nat Z) (m : memory) : memory :=
  Memory (cond m) (waiters m) rs (mutex m) (mutex_waiters m) (shared m).
Definition set_mutex (h : option nat) (m : memory) : memory :=
  Memory (cond m) (waiters m) (refs m) h (mutex_waiters m) (shared m).
Definition add_mutex_waiters (d : Z) (m : memory) : memory :=
  Memory (cond m) (waiters m) (refs m) (mutex m) (signed 32 (mutex_waiters m + d)) (shared m).
Definition set_shared (s : S) (m : memory) : memory :=
  Memory (cond m) (waiters m) (refs m) (mutex m) (mutex_waiters m) s.

(** A write to a waiter. *)
Definition modify (i : nat) (f : waiter -> waiter) (ws : gmap nat waiter) : outcome (gmap nat waiter) :=
  w ← get (ws !! i);
  Ret (<[i := f w]> ws).

Definition modify_ref (j : nat) (d : Z) (rs : gmap nat Z) : outcome (gmap nat Z) :=
  r ← get (rs !! j);
  Ret (<[j := r + d]> rs).

(** Where a thread is: outside, in __pthread_cond_timedwait, in
    __private_cond_signal. *)
Inductive place :=
  | Client (l : L)
  | CwEnter (ts : option timespec) (k : Z -> L)
  | CwUnlock (ts : option timespec) (k : Z -> L)
  | CwWait (ts : option timespec) (k : Z -> L) (p : timedwait_pc)
  | CwTest (ts : option timespec) (k : Z -> L) (e : Z)
  | CwCas (k : Z -> L) (e : Z)
  | CwRemove (k : Z -> L) (e : Z)
  | CwNotify (k : Z -> L) (e : Z)
  | CwBarrier (k : Z -> L) (e : Z)
  | CwRelock (k : Z -> L) (e : Z) (oldstate : waiter_state)
  | CwNext (k : Z -> L) (e : Z)
  | CsLock (n : Z) (l : L)
  | CsWalk (n : Z) (l : L) (p first : option nat)
  | CsRef (l : L) (first : option nat)
  | CsRelease (l : L) (first : option nat).

(** *** Waiting *)

(** The new waiter becomes the head of the list. *)
Definition cond_insert (i : nat) (m : memory) : outcome memory :=
  let c := cond m in
  let ws := <[i := Waiter None (c_head c) WAITING 2 None]> (waiters m) in
  ws ← (match c_tail c with
        | None => Ret ws
        | Some _ => next ← get (c_head c); modify next (set_prev (Some i)) ws
        end);
  let tail := match c_tail c with None => Some i | Some t => Some t end in
  Ret (set_cond (PCond (c_lock c) (Some i) tail) (set_waiters ws m)).

(** A waiter that was not signalled leaves the list. *)
Definition cond_remove (i : nat) (m : memory) : outcome memory :=
  let c := cond m in
  node ← get (waiters m !! i);
  '(head, ws) ← (if bool_decide (c_head c = Some i) then Ret (w_next node, waiters m)
                 else match w_prev node with
                 | Some p => ws ← modify p (set_next (w_next node)) (waiters m); Ret (c_head c, ws)
                 | None => Ret (c_head c, waiters m)
                 end);
  '(tail, ws) ← (if bool_decide (c_tail c = Some i) then Ret (w_prev node, ws)
                 else match w_next node with
                 | Some p => ws ← modify p (set_prev (w_prev node)) ws; Ret (c_tail c, ws)
                 | None => Ret (c_tail c, ws)
                 end);
  Ret (set_cond (PCond (c_lock c) head tail) (set_waiters ws m)).

(** The function returns: its waiter object is gone. *)
Definition cond_return (i : nat) (k : Z -> L) (e : Z) (m : memory) : memory * place :=
  (set_waiters (delete i (waiters m)) m, Client (k e)).

Definition cond_timedwait_step (i : nat) (ev : clock_event) (m : memory) (p : place) :
    outcome (memory * place) :=
  match p with
  | CwEnter ts k =>
      if match ts with Some t => 1000000000 <=? wrap64 (tv_nsec t) | None => false end
      then Ret (m, Client (k EINVAL))
      else match c_lock (cond m) with
      | Some _ => Ret (m, p)
      | None => m ← cond_insert i m; Ret (m, CwUnlock ts k)
      end
  | CwUnlock ts k => Ret (set_mutex None m, CwWait ts k (TwEnter (Timespec 0 0)))
  | CwWait ts k q =>
      w ← get (waiters m !! i);
      Ret (m, match timedwait_cp_step ts 2 ev (w_barrier w) q with
              | inl q => CwWait ts k q
              | inr e => CwTest ts k e
              end)
  | CwTest ts k e =>
      w ← get (waiters m !! i);
      if (w_barrier w =? 2) && ((e =? 0) || (e =? EINTR))
      then Ret (m, CwWait ts k (TwEnter (Timespec 0 0)))
      else Ret (m, CwCas k (if e =? EINTR then 0 else e))
  | CwCas k e =>
      w ← get (waiters m !! i);
      match w_state w with
      | WAITING => Ret (set_waiters (<[i := set_state LEAVING w]> (waiters m)) m, CwRemove k e)
      | _ => Ret (m, CwBarrier k e)
      end
  | CwRemove k e =>
      match c_lock (cond m) with
      | Some _ => Ret (m, p)
      | None => m ← cond_remove i m; Ret (m, CwNotify k e)
      end
  | CwNotify k e =>
      w ← get (waiters m !! i);
      rs ← (match w_notify w with Some j => modify_ref j (-1) (refs m) | None => Ret (refs m) end);
      Ret (set_refs rs m, CwRelock k e WAITING)
  | CwBarrier k e =>
      w ← get (waiters m !! i);
      if w_barrier w =? 0
      then Ret (set_waiters (<[i := set_barrier 1 w]> (waiters m)) m, CwRelock k e SIGNALED)
      else Ret (m, p)
  | CwRelock k e oldstate =>
      match mutex m with
      | Some _ => Ret (m, p)
      | None =>
          let m := set_mutex (Some i) m in
          Ret (if bool_decide (oldstate = WAITING) then cond_return i k e m else (m, CwNext k e))
      end
  | CwNext k e =>
      w ← get (waiters m !! i);
      let m := match w_next w with None => add_mutex_waiters 1 m | Some _ => m end in
      m ← (match w_prev w with
           | Some q => ws ← modify q (set_barrier 0) (waiters m); Ret (set_waiters ws m)
           | None => Ret (add_mutex_waiters (-1) m)
           end);
      Ret (cond_return i k (if e =? ECANCELED then 0 else e) m)
  | _ => Ret (m, p)
  end.

(** *** Signalling *)

(** One round of the loop under the lock, or what follows it. *)
Definition cond_walk (j : nat) (n : Z) (l : L) (p first : option nat) (m : memory) :
    outcome (memory * place) :=
  match p with
  | Some q =>
      if n =? 0
      then
        w ← get (waiters m !! q);
        ws ← (match w_next w with Some r => modify r (set_prev None) (waiters m) | None => Ret (waiters m) end);
        ws ← modify q (set_next None) ws;
        Ret (set_cond (PCond None (c_head (cond m)) p) (set_waiters ws m), CsRef l first)
      else
        w ← get (waiters m !! q);
        match w_state w with
        | WAITING =>
            Ret (set_waiters (<[q := set_state SIGNALED w]> (waiters m)) m,
              CsWalk (n - 1) l (w_prev w) (match first with None => Some q | Some _ => first end))
        | _ =>
            rs ← modify_ref j 1 (refs m);
            Ret (set_refs rs (set_waiters (<[q := set_notify (Some j) w]> (waiters m)) m),
              CsWalk n l (w_prev w) first)
        end
  | None => Ret (set_cond (PCond None None None) m, CsRef l first)
  end.

Definition private_cond_signal_step (j : nat) (m : memory) (p : place) : outcome (memory * place) :=
  match p with
  | CsLock n l =>
      match c_lock (cond m) with
      | Some _ => Ret (m, p)
      | None =>
          let c := cond m in
          Ret (set_refs (<[j := 0]> (refs m)) (set_cond (PCond (Some j) (c_head c) (c_tail c)) m),
            CsWalk n l (c_tail c) None)
      end
  | CsWalk n l q first => cond_walk j n l q first m
  | CsRef l first =>
      cur ← get (refs m !! j);
      Ret (m, if cur =? 0 then CsRelease l first else p)
  | CsRelease l first =>
      ws ← (match first with Some f => modify f (set_barrier 0) (waiters m) | None => Ret (waiters m) end);
      Ret (set_refs (delete j (refs m)) (set_waiters ws m), Client l)
  | _ => Ret (m, p)
  end.

(** *** The system *)

(** A client that does not hold the mutex neither releases it nor waits nor
    works. *)
Definition client_step (i : nat) (a : action) (m : memory) (p : place) : memory * place :=
  match a with
  | Acquire l => match mutex m with None => (set_mutex (Some i) m, Client l) | Some _ => (m, p) end
  | Release l => if bool_decide (mutex m = Some i) then (set_mutex None m, Client l) else (m, p)
  | Wait ts k => if bool_decide (mutex m = Some i) then (m, CwEnter ts k) else (m, p)
  | Signal n l => (m, CsLock n l)
  | Update f =>
      if bool_decide (mutex m = Some i)
      then let '(s, l) := f (shared m) in (set_shared s m, Client l) else (m, p)
  | Stop => (m, p)
  end.

Context (prog : nat -> L -> action).

Definition place_step (i : nat) (ev : clock_event) (m : memory) (p : place) : outcome (memory * place) :=
  match p with
  | Client l => Ret (client_step i (prog i l) m p)
  | CsLock _ _ | CsWalk _ _ _ _ | CsRef _ _ | CsRelease _ _ => private_cond_signal_step i m p
  | _ => cond_timedwait_step i ev m p
  end.

Record system := System { mem : memory; places : list place }.

Definition system_step (st : system) (e : nat * clock_event) : outcome system :=
  match places st !! e.1 with
  | Some p =>
      '(m, p') ← place_step e.1 e.2 (mem st) p;
      Ret (System m (<[e.1 := p']> (places st)))
  | None => Ret st
  end.

Fixpoint run_system (sched : list (nat * clock_event)) (st : system) : outcome system :=
  match sched with
  | [] => Ret st
  | e :: sched => st ← system_step st e; run_system sched st
  end.

Definition new_system (s : S) (ls : list L) : system :=
  System (Memory pthread_cond_init ∅ ∅ None 0 s) (Client <$> ls).

End Clients.

Arguments action : clear implicits.
Arguments memory : clear implicits.
Arguments place : clear implicits.
Arguments system : clear implicits.
