(* ===== verification/CondSpec.v ===== *)
(** * What a condition variable promises

    The clients of [CondVar] on an abstract condition variable: a queue of the
    threads that wait, oldest first.  A signal takes threads from its front, one
    at a time; a thread leaves the queue by a signal or, if it has a deadline,
    on its own; it returns with the mutex.  [CondProof] shows that the
    implementation does nothing else. *)

From S2P Require Import Prelude Mutex CondVar.

#[local] Open Scope Z_scope.

Section Spec.
Context {S L : Type} (prog : nat -> L -> action S L).

(** Outside, called, waiting (and whether the mutex is released), on the way
    back, signalling (up to [n] threads more), done with it. *)
Inductive aplace :=
  | AClient (l : L)
  | AEnter (ts : option timespec) (k : Z -> L)
  | AWait (ts : option timespec) (k : Z -> L) (released : bool)
  | ARelock (k : Z -> L) (e : Z)
  | ASignal (n : Z) (l : L)
  | AReturn (l : L).

Record astate := AState {
  a_queue : list nat;
  a_mutex : option nat;
  a_shared : S;
  a_places : list aplace
}.

Definition aclient (i : nat) (a : action S L) (h : option nat) (s : S) (l : L) : option nat * S * aplace :=
  match a with
  | Acquire l' => match h with None => (Some i, s, AClient l') | Some _ => (h, s, AClient l) end
  | Release l' => if bool_decide (h = Some i) then (None, s, AClient l') else (h, s, AClient l)
  | Wait ts k => if bool_decide (h = Some i) then (h, s, AEnter ts k) else (h, s, AClient l)
  | Signal n l' => (h, s, ASignal n l')
  | Update f =>
      if bool_decide (h = Some i) then let '(s', l') := f s in (h, s', AClient l') else (h, s, AClient l)
  | Stop => (h, s, AClient l)
  end.

(** A move of thread [i]: queue, holder and shared state before and after. *)
Inductive amove (i : nat) : list nat -> option nat -> S -> aplace -> list nat -> option nat -> S -> aplace -> Prop :=
  | MoveClient q h s l h' s' p : aclient i (prog i l) h s l = (h', s', p) ->
      amove i q h s (AClient l) q h' s' p
  | MoveInvalid q h s t k : 1000000000 <= wrap64 (tv_nsec t) ->
      amove i q h s (AEnter (Some t) k) q h s (AClient (k EINVAL))
  | MoveQueue q h s ts k :
      amove i q h s (AEnter ts k) (q ++ [i]) h s (AWait ts k false)
  | MoveUnlock q h s ts k :
      amove i q h s (AWait ts k false) q None s (AWait ts k true)
  | MoveTimeout q1 q2 h s t k e : e <> 0 ->
      amove i (q1 ++ i :: q2) h s (AWait (Some t) k true) (q1 ++ q2) h s (ARelock k e)
  | MoveWoken q h s ts k e : i ∉ q -> (ts = None -> e = 0) ->
      amove i q h s (AWait ts k true) q h s (ARelock k e)
  | MoveRelock q s k e :
      amove i q None s (ARelock k e) q (Some i) s (AClient (k e))
  | MoveWake j q h s n l : n <> 0 ->
      amove i (j :: q) h s (ASignal n l) q h s (ASignal (n - 1) l)
  | MoveSignalled q h s n l : n = 0 \/ q = [] ->
      amove i q h s (ASignal n l) q h s (AReturn l)
  | MoveReturn q h s l :
      amove i q h s (AReturn l) q h s (AClient l).

Inductive astep : astate -> astate -> Prop :=
  | AStep i p q h s ps q' h' s' p' : ps !! i = Some p -> amove i q h s p q' h' s' p' ->
      astep (AState q h s ps) (AState q' h' s' (<[i := p']> ps)).

Definition asteps : astate -> astate -> Prop := rtc astep.

Definition new_astate (s : S) (ls : list L) : astate := AState [] None s (AClient <$> ls).

End Spec.

Arguments aplace : clear implicits.
Arguments astate : clear implicits.
