(* ===== verification/CondLists.v ===== *)
(** * The lists of a condition variable

    Doubly linked lists of waiter objects as [CondVar] builds them: what
    [cond_insert], [cond_remove] and the split of a signal do to them.  A list
    goes from the tail to the head, oldest waiter first, along [w_prev]. *)

From stdpp Require Import functions.
From S2P Require Import Prelude Mutex CondVar.

(** ** Definitions *)

(** Every waiter of [l] points to its neighbours. *)
Definition linked (ws : gmap nat waiter) (l : list nat) : Prop :=
  forall l1 i l2, l = l1 ++ i :: l2 ->
  exists w, ws !! i = Some w /\ w_prev w = head l2 /\ w_next w = last l1.

(** A list that is being released: only the way to its end matters. *)
Definition chained (ws : gmap nat waiter) (l : list nat) : Prop :=
  forall l1 i l2, l = l1 ++ i :: l2 -> exists w, ws !! i = Some w /\ w_prev w = head l2.

Definition links (w : waiter) : option nat * option nat := (w_prev w, w_next w).

(** Where the list leads past a waiter that is gone. *)
Definition relink (l1 l2 : list nat) (ws : gmap nat waiter) : gmap nat waiter :=
  let ws := match head l2 with Some p => alter (set_next (last l1)) p ws | None => ws end in
  match last l1 with Some p => alter (set_prev (head l2)) p ws | None => ws end.

(** ** Lemmas *)

Lemma linked_live ws l i : linked ws l -> i ∈ l -> is_Some (ws !! i).
Proof.
  intros Hl (l1 & l2 & E)%list_elem_of_split. destruct (Hl _ _ _ E) as (w & Hw & _). by exists w.
Qed.

Lemma linked_ext ws ws' l : linked ws l ->
  (forall i, i ∈ l -> links <$> ws' !! i = links <$> ws !! i) -> linked ws' l.
Proof.
  intros Hl He l1 i l2 E. destruct (Hl _ _ _ E) as (w & Hw & Hp & Hn).
  assert (Hi : i ∈ l) by (subst l; set_solver). specialize (He i Hi). rewrite Hw in He.
  destruct (ws' !! i) as [w'|]; [|done]. injection He as Ep En. exists w'. by rewrite Ep, En.
Qed.

Lemma chained_ext ws ws' l : chained ws l ->
  (forall i, i ∈ l -> w_prev <$> ws' !! i = w_prev <$> ws !! i) -> chained ws' l.
Proof.
  intros Hl He l1 i l2 E. destruct (Hl _ _ _ E) as (w & Hw & Hp).
  assert (Hi : i ∈ l) by (subst l; set_solver). specialize (He i Hi). rewrite Hw in He.
  destruct (ws' !! i) as [w'|]; [|done]. injection He as Ep. exists w'. by rewrite Ep.
Qed.

Lemma linked_nil ws : linked ws [].
Proof. by intros []. Qed.

Lemma chained_nil ws : chained ws [].
Proof. by intros []. Qed.

Lemma linked_chained ws l : linked ws l -> chained ws l.
Proof. intros Hl l1 i l2 E. destruct (Hl _ _ _ E) as (w & ? & ? & _). by exists w. Qed.

Lemma chained_tail ws i l : chained ws (i :: l) -> chained ws l.
Proof. intros Hl l1 j l2 E. apply (Hl (i :: l1)). by rewrite E. Qed.

Lemma head_elem (l : list nat) i : head l = Some i -> i ∈ l.
Proof. destruct l; [done|]. intros [= ->]. by left. Qed.

Lemma last_elem (l : list nat) i : last l = Some i -> i ∈ l.
Proof. intros (l' & ->)%last_Some. set_solver. Qed.

Lemma last_app_cons (l1 l2 : list nat) i : last (l1 ++ i :: l2) = match last l2 with Some x => Some x | None => Some i end.
Proof. rewrite last_app, last_cons. by destruct (last l2). Qed.

Lemma head_app (l1 l2 : list nat) : head (l1 ++ l2) = match head l1 with Some x => Some x | None => head l2 end.
Proof. by destruct l1. Qed.

(** Two ways to cut a list. *)
Lemma app_eq_mid (l1 l2 a b : list nat) x : l1 ++ l2 = a ++ x :: b ->
  (exists c, l1 = a ++ x :: c /\ b = c ++ l2) \/ (exists c, a = l1 ++ c /\ l2 = c ++ x :: b).
Proof.
  intros [(c & -> & E)|(c & -> & E)]%app_eq_inv.
  - destruct c as [|y c]; cbn in E.
    + right. exists []. by rewrite !app_nil_r.
    + injection E as <- ->. left. by exists c.
  - right. exists c. by rewrite E.
Qed.

(** What a modification leaves of a waiter. *)
Lemma alter_link (ws : gmap nat waiter) f j i w : ws !! i = Some w ->
  alter f j ws !! i = Some (if decide (i = j) then f w else w).
Proof.
  intros Hw. destruct (decide (i = j)) as [->|Hne]; [by rewrite lookup_alter_eq, Hw|].
  by rewrite lookup_alter_ne.
Qed.

(** A new head. *)
Lemma linked_push ws l i w :
  linked ws l -> NoDup l -> i ∉ l -> w_prev w = None -> w_next w = last l ->
  linked (match last l with Some t => alter (set_prev (Some i)) t (<[i := w]> ws) | None => <[i := w]> ws end)
    (l ++ [i]).
Proof.
  intros Hl Hnd Hi Hp Hn l1 x l2 E. apply app_eq_mid in E as [(c & -> & ->)|(c & -> & E)].
  - assert (Hx : x <> i) by set_solver. destruct (Hl _ _ _ eq_refl) as (wx & Hw & Hpx & Hnx).
    rewrite last_app_cons. apply NoDup_app in Hnd as (_ & _ & [Hxc _]%NoDup_cons).
    rewrite <- (lookup_insert_ne ws i x w) in Hw by done.
    destruct c as [|y c]; cbn [last head app].
    + rewrite (alter_link _ _ _ _ _ Hw), decide_True by done. eexists. split; [done|]. by cbn.
    + destruct (last (y :: c)) as [z|] eqn:Ez; [|by apply last_None in Ez].
      apply last_elem in Ez. rewrite (alter_link _ _ _ _ _ Hw), decide_False by set_solver.
      eexists. split; [done|]. by cbn.
  - destruct c as [|y [|]]; try done. injection E as <- <-. rewrite app_nil_r. exists w.
    split; [|by split]. destruct (last l) as [t|] eqn:Et; [|apply lookup_insert_eq].
    rewrite lookup_alter_ne, lookup_insert_eq; [done|]. apply last_elem in Et. by intros ->.
Qed.

(** A waiter leaves. *)
Lemma linked_relink ws l1 i l2 :
  linked ws (l1 ++ i :: l2) -> NoDup (l1 ++ i :: l2) -> linked (relink l1 l2 ws) (l1 ++ l2).
Proof.
  intros Hl Hnd a x b E. apply NoDup_app in Hnd as (Hn1 & Hd & [Hi Hn2]%NoDup_cons).
  unfold relink. apply app_eq_mid in E as [(c & -> & ->)|(c & -> & ->)].
  - destruct (Hl a x (c ++ i :: l2)) as (w & Hw & Hp & Hn); [by rewrite <- app_assoc|].
    assert (Hx2 : x ∉ l2) by (intros ?; apply (Hd x); set_solver).
    apply NoDup_app in Hn1 as (_ & _ & [Hxc _]%NoDup_cons).
    assert (Hw' : (match head l2 with
      | Some p => alter (set_next (last (a ++ x :: c))) p ws | None => ws end) !! x = Some w).
    { destruct (head l2) as [p|] eqn:Eh; [|done]. apply head_elem in Eh.
      rewrite lookup_alter_ne; [done|]. by intros ->. }
    rewrite last_app_cons in *. destruct c as [|y c]; cbn [last head app] in *.
    + rewrite (alter_link _ _ _ _ _ Hw'), decide_True by done. eexists. split; [done|]. by cbn.
    + destruct (last (y :: c)) as [z|] eqn:Ez; [|by apply last_None in Ez].
      apply last_elem in Ez. rewrite (alter_link _ _ _ _ _ Hw'), decide_False by set_solver.
      eexists. split; [done|]. by cbn.
  - destruct (Hl (l1 ++ i :: c) x b) as (w & Hw & Hp & Hn); [by rewrite <- app_assoc|].
    assert (Hx1 : x ∉ l1) by (intros ?; apply (Hd x); set_solver).
    assert (Hlast : forall ws' : gmap nat waiter, match last l1 with
      | Some p => alter (set_prev (head (c ++ x :: b))) p ws' | None => ws' end !! x = ws' !! x).
    { intros ws'. destruct (last l1) as [p|] eqn:El; [|done]. apply last_elem in El.
      rewrite lookup_alter_ne; [done|]. by intros ->. }
    rewrite Hlast. rewrite last_app_cons in Hn. destruct c as [|y c]; cbn [last head app] in *.
    + rewrite (alter_link _ _ _ _ _ Hw), decide_True by done. eexists. split; [done|]. cbn.
      by rewrite app_nil_r.
    + rewrite (alter_link _ _ _ _ _ Hw), decide_False.
      * eexists. split; [done|]. split; [done|]. rewrite Hn, last_app, last_cons. by destruct (last c).
      * intros ->. apply NoDup_cons in Hn2 as [Hy _]. set_solver.
Qed.

(** A list is cut in two. *)
Definition cut (l1 : list nat) (q : nat) (ws : gmap nat waiter) : gmap nat waiter :=
  alter (set_next None) q (match last l1 with Some r => alter (set_prev None) r ws | None => ws end).

Lemma linked_cut ws l1 q l2 :
  linked ws (l1 ++ q :: l2) -> NoDup (l1 ++ q :: l2) ->
  linked (cut l1 q ws) l1 /\ linked (cut l1 q ws) (q :: l2).
Proof.
  intros Hl Hnd. pose proof Hnd as (Hn1 & Hd & [Hq Hn2]%NoDup_cons)%NoDup_app. unfold cut. split.
  - intros a x b ->. destruct (Hl a x (b ++ q :: l2)) as (w & Hw & Hp & Hn); [by rewrite <- app_assoc|].
    rewrite lookup_alter_ne by (intros ->; apply (Hd x); set_solver). rewrite last_app_cons.
    apply NoDup_app in Hn1 as (_ & _ & [Hxb _]%NoDup_cons).
    destruct b as [|y b]; cbn [last head app] in *.
    + rewrite (alter_link _ _ _ _ _ Hw), decide_True by done. eexists. split; [done|]. by cbn.
    + destruct (last (y :: b)) as [z|] eqn:Ez; [|by apply last_None in Ez].
      apply last_elem in Ez. rewrite (alter_link _ _ _ _ _ Hw), decide_False by set_solver.
      eexists. split; [done|]. by cbn.
  - intros a x b E. destruct (Hl (l1 ++ a) x b) as (w & Hw & Hp & Hn); [by rewrite E, app_assoc|].
    assert (Hx : x ∈ q :: l2) by (rewrite E; set_solver).
    assert (Hw' : (match last l1 with Some r => alter (set_prev None) r ws | None => ws end) !! x = Some w).
    { destruct (last l1) as [r|] eqn:Er; [|done]. apply last_elem in Er.
      rewrite lookup_alter_ne; [done|]. intros ->. by apply (Hd x). }
    rewrite (alter_link _ _ _ _ _ Hw'). destruct a as [|y a]; cbn in E; injection E as -> ->.
    + rewrite decide_True by done. eexists. split; [done|]. by cbn.
    + rewrite decide_False by (intros ->; apply Hq; set_solver). eexists. split; [done|].
      split; [done|]. rewrite Hn, last_app. by destruct (last (y :: a)) eqn:Ey; [|apply last_None in Ey].
Qed.

(** *** The operations *)

Lemma modify_alter i f ws : is_Some (ws !! i) -> modify i f ws = Ret (alter f i ws).
Proof.
  intros [w Hw]. unfold modify. rewrite Hw. cbn. f_equal. apply map_eq. intros j.
  destruct (decide (i = j)) as [<-|]; [by rewrite lookup_insert_eq, lookup_alter_eq, Hw|].
  by rewrite lookup_insert_ne, lookup_alter_ne.
Qed.

Lemma alter_live (ws : gmap nat waiter) f i j : is_Some (ws !! j) -> is_Some (alter f i ws !! j).
Proof. intros [w Hw]. rewrite (alter_link _ _ _ _ _ Hw). by eexists. Qed.

(** The list with the new waiter. *)
Definition pushed (i : nat) (l : list nat) (ws : gmap nat waiter) : gmap nat waiter :=
  let ws := <[i := Waiter None (last l) WAITING 2 None]> ws in
  match last l with Some t => alter (set_prev (Some i)) t ws | None => ws end.

Section Operations.
Context {S : Type}.
Implicit Types m : memory S.

Lemma cond_insert_spec i m l :
  linked (waiters m) l -> c_head (cond m) = last l -> c_tail (cond m) = head l ->
  cond_insert i m = Ret (set_cond (PCond (c_lock (cond m)) (Some i) (head (l ++ [i])))
    (set_waiters (pushed i l (waiters m)) m)).
Proof.
  intros Hl Hh Ht. unfold cond_insert, pushed. rewrite Hh, Ht.
  destruct l as [|t l]; [done|]. cbn [head app].
  destruct (last (t :: l)) as [z|] eqn:Ez; [|by apply last_None in Ez]. cbn [get].
  assert (Hz : is_Some (waiters m !! z)) by (eapply linked_live; [exact Hl|by apply last_elem]).
  cbn [mbind outcome_bind]. rewrite modify_alter; [done|].
  destruct (decide (i = z)) as [->|]; [by rewrite lookup_insert_eq; eexists|by rewrite lookup_insert_ne].
Qed.

Lemma cond_remove_spec i m l1 l2 :
  linked (waiters m) (l1 ++ i :: l2) -> NoDup (l1 ++ i :: l2) ->
  (c_head (cond m) = Some i -> l2 = []) -> (c_tail (cond m) = Some i -> l1 = []) ->
  let c := cond m in
  cond_remove i m = Ret (set_cond (PCond (c_lock c)
      (if bool_decide (c_head c = Some i) then last l1 else c_head c)
      (if bool_decide (c_tail c = Some i) then head l2 else c_tail c))
    (set_waiters (relink l1 l2 (waiters m)) m)).
Proof.
  intros Hl Hnd Hh Ht c. unfold cond_remove. destruct (Hl _ _ _ eq_refl) as (w & Hw & Hp & Hn).
  fold c. rewrite Hw. cbn [get mbind outcome_bind]. rewrite Hp, Hn. unfold relink.
  assert (Hlive2 : forall p, head l2 = Some p -> is_Some (waiters m !! p)).
  { intros p Ep%head_elem. apply (linked_live _ _ _ Hl). set_solver. }
  assert (Hlive1 : forall p (ws : gmap nat waiter), last l1 = Some p -> (forall x, is_Some (waiters m !! x) -> is_Some (ws !! x)) ->
    is_Some (ws !! p)).
  { intros p ws Ep%last_elem Hws. apply Hws, (linked_live _ _ _ Hl). set_solver. }
  set (ws1 := match head l2 with Some p => alter (set_next (last l1)) p (waiters m) | None => waiters m end).
  assert (Hws1 : forall x, is_Some (waiters m !! x) -> is_Some (ws1 !! x)).
  { intros x Hx. unfold ws1. destruct (head l2); [by apply alter_live|done]. }
  assert (E1 : (if bool_decide (c_head c = Some i) then Ret (last l1, waiters m)
    else match head l2 with
      | Some p => ws ← modify p (set_next (last l1)) (waiters m); Ret (c_head c, ws)
      | None => Ret (c_head c, waiters m) end)
    = Ret (if bool_decide (c_head c = Some i) then last l1 else c_head c, ws1)).
  { unfold ws1. case_bool_decide as Hc; [by rewrite (Hh Hc)|].
    destruct (head l2) as [p|]; [|done]. by rewrite modify_alter by auto. }
  assert (E2 : (if bool_decide (c_tail c = Some i) then Ret (head l2, ws1)
    else match last l1 with
      | Some p => ws ← modify p (set_prev (head l2)) ws1; Ret (c_tail c, ws)
      | None => Ret (c_tail c, ws1) end)
    = Ret (if bool_decide (c_tail c = Some i) then head l2 else c_tail c,
        match last l1 with Some p => alter (set_prev (head l2)) p ws1 | None => ws1 end)).
  { clear E1. case_bool_decide as Hc; [by rewrite (Ht Hc)|].
    destruct (last l1) as [p|]; [|done]. by rewrite modify_alter by auto. }
  fold c in E1. rewrite E1. cbn [mbind outcome_bind]. by rewrite E2.
Qed.

End Operations.

(** Only links change. *)
Lemma alter_contents (ws : gmap nat waiter) f j i (proj : waiter -> waiter_state * Z * option nat) :
  (forall w, proj (f w) = proj w) -> proj <$> alter f j ws !! i = proj <$> ws !! i.
Proof.
  intros Hf. destruct (decide (i = j)) as [->|]; [|by rewrite lookup_alter_ne].
  rewrite lookup_alter_eq. destruct (ws !! j); [|done]. cbn. by rewrite Hf.
Qed.

Definition contents (w : waiter) : waiter_state * Z * option nat := (w_state w, w_barrier w, w_notify w).

Lemma relink_contents l1 l2 ws i : contents <$> relink l1 l2 ws !! i = contents <$> ws !! i.
Proof.
  unfold relink. destruct (last l1), (head l2); by rewrite ?alter_contents by done.
Qed.

Lemma cut_contents l1 q ws i : contents <$> cut l1 q ws !! i = contents <$> ws !! i.
Proof. unfold cut. destruct (last l1); by rewrite ?alter_contents by done. Qed.

Lemma pushed_contents i l ws j : i ∉ l ->
  contents <$> pushed i l ws !! j = if decide (i = j) then Some (WAITING, 2, None) else contents <$> ws !! j.
Proof.
  intros Hi. unfold pushed. assert (E : contents <$> <[i := Waiter None (last l) WAITING 2 None]> ws !! j =
    if decide (i = j) then Some (WAITING, 2, None) else contents <$> ws !! j).
  { case_decide as Hd; [by rewrite Hd, lookup_insert_eq|by rewrite lookup_insert_ne]. }
  destruct (last l); [by rewrite alter_contents by done|done].
Qed.

(** Other lists do not notice. *)
Lemma alter_links (ws : gmap nat waiter) f j i : i <> j -> links <$> alter f j ws !! i = links <$> ws !! i.
Proof. intros Hne. by rewrite lookup_alter_ne. Qed.

Lemma relink_links l1 l2 ws i : i ∉ l1 ++ l2 -> links <$> relink l1 l2 ws !! i = links <$> ws !! i.
Proof.
  intros Hi. unfold relink. destruct (last l1) as [x|] eqn:E1, (head l2) as [y|] eqn:E2;
    try apply last_elem in E1; try apply head_elem in E2; rewrite ?alter_links by set_solver; done.
Qed.

Lemma cut_links l1 q ws i : i ∉ l1 ++ [q] -> links <$> cut l1 q ws !! i = links <$> ws !! i.
Proof.
  intros Hi. unfold cut. destruct (last l1) as [x|] eqn:E1; try apply last_elem in E1;
    rewrite ?alter_links by set_solver; done.
Qed.

Lemma pushed_links i l ws j : j ∉ l ++ [i] -> links <$> pushed i l ws !! j = links <$> ws !! j.
Proof.
  intros Hj. unfold pushed. destruct (last l) as [x|] eqn:E1; try apply last_elem in E1;
    rewrite ?alter_links by set_solver; rewrite lookup_insert_ne by set_solver; done.
Qed.
