(* ===== verification/CondProof.v ===== *)
(** * Condition variables implement their specification

    A simulation: every step of [CondVar] is a move of [CondSpec] or none.  The
    invariant knows which list every waiter is on: the variable's own, the one a
    signalling thread has detached (or is detaching), or one being released. *)

From stdpp Require Import functions.
From S2P Require Import Prelude Mutex CondVar CondSpec CondLists.

#[local] Open Scope Z_scope.

(** ** Definitions *)

(** A chain that is being released is known by its last waiter. *)
Inductive kind := Main | Det (j : nat) | Chain (n : nat).

#[export] Instance kind_eq_dec : EqDecision kind.
Proof. solve_decision. Defined.

(** The lists, tail first, and the threads a signalling thread waits for. *)
Record ghost := Ghost { seg : kind -> list nat; debt : nat -> gset nat }.

Definition in_state (s : waiter_state) (ws : gmap nat waiter) (l : list nat) : list nat :=
  filter (fun i => w_state <$> ws !! i = Some s) l.

Definition owned (g : ghost) (i : nat) : Prop := exists k, i ∈ seg g k.

(** A waiter on a list. *)
Definition node_ok (k : kind) (first : bool) (w : waiter) : Prop :=
  match k with
  | Main => w_state w <> SIGNALED /\ w_barrier w = 2 /\ w_notify w = None
  | Det j => w_barrier w = 2 /\ (w_state w = SIGNALED \/ w_state w = LEAVING /\ w_notify w = Some j)
  | Chain _ => w_state w = SIGNALED /\ if first then w_barrier w = 0 \/ w_barrier w = 1 else w_barrier w = 2
  end.

Lemma in_state_ext s (ws ws' : gmap nat waiter) l :
  (forall i, i ∈ l -> w_state <$> ws' !! i = w_state <$> ws !! i) -> in_state s ws' l = in_state s ws l.
Proof.
  intros H. unfold in_state. induction l as [|x l IH]; [done|]. rewrite !filter_cons.
  rewrite (H x) by set_solver. rewrite IH by (intros; apply H; set_solver). done.
Qed.

(** A wait without deadline ends with 0. *)
Lemma timedwait_untimed val ev word q : match q with TwClock _ _ => False | _ => True end ->
  match timedwait_cp_step None val ev word q with
  | inl (TwClock _ _) => False
  | inl _ => True
  | inr r => r = 0
  end.
Proof. destruct q; cbn; try done. by destruct (word =? val). Qed.

Section Proof.
Context {S L : Type}.
Implicit Types (m : memory S) (g : ghost).

(** The list whose ends the variable knows: a signalling thread that holds the
    lock has not cut off its part yet. *)
Definition front (m : memory S) (g : ghost) : list nat :=
  match c_lock (cond m) with Some j => seg g (Det j) | None => [] end ++ seg g Main.

Record lists_ok (g : ghost) (m : memory S) : Prop := {
  lo_nodup k : NoDup (seg g k);
  lo_disjoint k k' i : i ∈ seg g k -> i ∈ seg g k' -> k = k';
  lo_front : linked (waiters m) (front m g);
  lo_head : c_head (cond m) = last (front m g);
  lo_tail : c_tail (cond m) = head (front m g);
  lo_detached j : c_lock (cond m) <> Some j -> linked (waiters m) (seg g (Det j));
  lo_chain n : chained (waiters m) (seg g (Chain n));
  lo_key n i : i ∈ seg g (Chain n) -> last (seg g (Chain n)) = Some n;
}.

Definition nodes_ok (g : ghost) (m : memory S) : Prop := forall k i, i ∈ seg g k ->
  exists w, waiters m !! i = Some w /\ node_ok k (bool_decide (head (seg g k) = Some i)) w.

(** What the place of thread [i] says of its waiter. *)
Definition waiter_ok (g : ghost) (m : memory S) (i : nat) (p : option (place L)) : Prop :=
  let node P := exists w, waiters m !! i = Some w /\ P w in
  match p with
  | None | Some (Client _ | CsLock _ _ | CsWalk _ _ _ _ | CsRef _ _ | CsRelease _ _) =>
      waiters m !! i = None
  | Some (CwEnter _ _) => waiters m !! i = None /\ mutex m = Some i
  | Some (CwUnlock _ _) => owned g i /\ node (fun w => w_state w <> LEAVING /\ w_barrier w <> 1) /\
      mutex m = Some i
  | Some (CwWait ts _ q) => owned g i /\ node (fun w => w_state w <> LEAVING /\ w_barrier w <> 1) /\
      (ts = None -> match q with TwClock _ _ => False | _ => True end)
  | Some (CwTest ts _ e) => owned g i /\ node (fun w => w_state w <> LEAVING /\ w_barrier w <> 1) /\
      (ts = None -> e = 0)
  | Some (CwCas _ e) => owned g i /\ node (fun w => w_state w <> LEAVING /\ w_barrier w <> 1 /\
      (e = 0 -> w_barrier w <> 2))
  | Some (CwRemove _ _) => owned g i /\ node (fun w => w_state w = LEAVING)
  | Some (CwNotify _ _) => ~ owned g i /\ node (fun w => w_state w = LEAVING)
  | Some (CwRelock _ _ WAITING) => ~ owned g i /\ node (fun w => w_state w = LEAVING)
  | Some (CwBarrier _ _) => owned g i /\ node (fun w => w_state w = SIGNALED /\ w_barrier w <> 1)
  | Some (CwRelock _ _ SIGNALED) => owned g i /\ node (fun w => w_state w = SIGNALED /\ w_barrier w = 1)
  | Some (CwRelock _ _ LEAVING) => False
  | Some (CwNext _ _) => owned g i /\ node (fun w => w_state w = SIGNALED /\ w_barrier w = 1) /\
      mutex m = Some i
  end.

(** What the place of thread [j] says of its signal. *)
Definition signal_ok (g : ghost) (m : memory S) (j : nat) (p : option (place L)) : Prop :=
  let first := head (in_state SIGNALED (waiters m) (seg g (Det j))) in
  match p with
  | Some (CsWalk _ _ q f) => c_lock (cond m) = Some j /\ q = head (seg g Main) /\ f = first /\
      refs m !! j = Some (Z.of_nat (size (debt g j)))
  | Some (CsRef _ f) => c_lock (cond m) <> Some j /\ f = first /\
      refs m !! j = Some (Z.of_nat (size (debt g j)))
  | Some (CsRelease _ f) => c_lock (cond m) <> Some j /\ f = first /\ debt g j = ∅
  | _ => c_lock (cond m) <> Some j /\ seg g (Det j) = [] /\ debt g j = ∅
  end.

Definition in_debt (p : option (place L)) : Prop :=
  match p with Some (CwRemove _ _ | CwNotify _ _) => True | _ => False end.

Definition debt_ok (g : ghost) (m : memory S) (ps : list (place L)) : Prop := forall i j,
  i ∈ debt g j <-> (w_notify <$> waiters m !! i = Some (Some j)) /\ in_debt (ps !! i).

Definition returns (e : Z) : Z := if e =? ECANCELED then 0 else e.

Definition corr (p : place L) (ap : aplace L) : Prop :=
  match p with
  | Client l => ap = AClient l
  | CwEnter ts k => ap = AEnter ts k
  | CwUnlock ts k => ap = AWait ts k false
  | CwWait ts k _ | CwTest ts k _ => ap = AWait ts k true
  | CwCas k e => exists ts, ap = AWait ts k true /\ (ts = None -> e = 0)
  | CwRemove k e | CwNotify k e | CwRelock k e WAITING => ap = ARelock k e
  | CwBarrier k e | CwRelock k e _ => ap = ARelock k (returns e)
  | CwNext k e => ap = AClient (k (returns e))
  | CsLock n l | CsWalk n l _ _ => ap = ASignal n l
  | CsRef l _ | CsRelease l _ => ap = AReturn l
  end.

Record sim (g : ghost) (st : system S L) (a : astate S L) : Prop := {
  sim_lists : lists_ok g (mem st);
  sim_nodes : nodes_ok g (mem st);
  sim_waiters : forall i, waiter_ok g (mem st) i (places st !! i);
  sim_signals : forall j, signal_ok g (mem st) j (places st !! j);
  sim_debt : debt_ok g (mem st) (places st);
  sim_queue : a_queue a = in_state WAITING (waiters (mem st)) (seg g Main);
  sim_mutex : a_mutex a = mutex (mem st);
  sim_shared : a_shared a = shared (mem st);
  sim_places : Forall2 corr (places st) (a_places a);
}.

(** ** Lemmas *)

(** *** What does not change *)

Lemma lists_same g m m' : lists_ok g m -> cond m' = cond m ->
  (forall i, links <$> waiters m' !! i = links <$> waiters m !! i) -> lists_ok g m'.
Proof.
  intros [H1 H2 H3 H4 H5 H6 H7 H8] Hc Hl. assert (Hf : front m' g = front m g) by (unfold front; by rewrite Hc).
  constructor; rewrite ?Hf, ?Hc; try done.
  - eapply linked_ext; [exact H3|auto].
  - intros j Hj. eapply linked_ext; [by apply H6|auto].
  - intros n. eapply chained_ext; [apply H7|]. intros i _. specialize (Hl i).
    destruct (waiters m' !! i), (waiters m !! i); try done. cbn in *. by injection Hl as -> _.
Qed.

Lemma nodes_same g m m' : nodes_ok g m ->
  (forall i, contents <$> waiters m' !! i = contents <$> waiters m !! i) -> nodes_ok g m'.
Proof.
  intros Hn Hc k i Hi. destruct (Hn k i Hi) as (w & Hw & Hok). specialize (Hc i). rewrite Hw in Hc.
  destruct (waiters m' !! i) as [w'|]; [|done]. injection Hc as E1 E2 E3. exists w'. split; [done|].
  unfold node_ok in *. by rewrite E1, E2, E3.
Qed.

Lemma waiter_same g g' m m' i p : waiter_ok g m i p ->
  contents <$> waiters m' !! i = contents <$> waiters m !! i ->
  (owned g' i <-> owned g i) -> (mutex m = Some i -> mutex m' = Some i) -> waiter_ok g' m' i p.
Proof.
  intros Hok Hc Ho Hm.
  assert (HP : forall P : waiter -> Prop,
    (forall w w', contents w' = contents w -> P w -> P w') ->
    (exists w, waiters m !! i = Some w /\ P w) -> exists w, waiters m' !! i = Some w /\ P w).
  { intros P HP (w & Hw & Hp). rewrite Hw in Hc. destruct (waiters m' !! i) as [w'|]; [|done].
    injection Hc as E1 E2 E3. exists w'. split; [done|]. apply (HP w); [|done]. unfold contents. congruence. }
  assert (Hnone : waiters m !! i = None -> waiters m' !! i = None).
  { intros E. rewrite E in Hc. by destruct (waiters m' !! i). }
  unfold waiter_ok in *.
  destruct p as [[| | | | | | | | |? ? []| | | | |]|]; try (by apply Hnone); try done;
    try (split; [by apply Hnone, Hok|by apply Hm, Hok]);
    rewrite ?Ho; destruct Hok as [? Hok]; (split; [done|]);
    repeat match goal with H : _ /\ _ |- _ => destruct H | |- _ /\ _ => split; [|by auto] end;
    (eapply HP; [|eassumption]); intros w w' [= E1 E2 _]; by rewrite ?E1, ?E2.
Qed.

Lemma waiter_signalled g g' m m' i w p : waiter_ok g m i p ->
  waiters m !! i = Some w -> w_state w = WAITING -> waiters m' !! i = Some (set_state SIGNALED w) ->
  mutex m' = mutex m -> (owned g' i <-> owned g i) -> waiter_ok g' m' i p.
Proof.
  intros Hok Hw Hst Hw' Hm Ho. unfold waiter_ok in *. rewrite Hm, Hw'. rewrite Hw in Hok.
  destruct p as [[| | | | | | | | |? ? []| | | | |]|]; try done; rewrite ?Ho; destruct Hok as [Hc Hok]; try done;
    try (destruct Hok as (w0 & [= <-] & Hok)); try (destruct Hok as ((w0 & [= <-] & Hok) & ?));
    try (exfalso; congruence); try (by destruct Hok; congruence);
    repeat split; try done; (eexists; split; [done|]); cbn; naive_solver.
Qed.

Lemma leaving_place g m i w p : waiter_ok g m i p -> waiters m !! i = Some w -> w_state w = LEAVING ->
  owned g i -> exists k e, p = Some (CwRemove k e).
Proof.
  intros Hok Hw Hst Ho. unfold waiter_ok in Hok. rewrite Hw in Hok.
  destruct p as [[| | | | | | | | |? ? []| | | | |]|]; try done; try (by destruct Hok); try (by eauto);
    destruct Hok as [_ Hok]; try (destruct Hok as (w0 & [= <-] & Hok)); try (destruct Hok as ((w0 & [= <-] & Hok) & ?));
    destruct Hok; congruence.
Qed.

Lemma waiter_released g g' m m' i w p : waiter_ok g m i p ->
  waiters m !! i = Some w -> w_barrier w = 2 -> waiters m' !! i = Some (set_barrier 0 w) ->
  (mutex m = Some i -> mutex m' = Some i) -> (owned g' i <-> owned g i) -> waiter_ok g' m' i p.
Proof.
  intros Hok Hw Hb Hw' Hm Ho. unfold waiter_ok in *. rewrite Hw'. rewrite Hw in Hok.
  destruct p as [[| | | | | | | | |? ? []| | | | |]|]; try done; rewrite ?Ho; destruct Hok as [Hc Hok]; try done;
    try (destruct Hok as (w0 & [= <-] & Hok)); try (destruct Hok as ((w0 & [= <-] & Hok) & ?));
    try (exfalso; destruct Hok; congruence);
    repeat split; auto; (eexists; split; [done|]); cbn; naive_solver.
Qed.

Lemma signal_same g g' m m' j p : signal_ok g m j p ->
  (c_lock (cond m') = Some j <-> c_lock (cond m) = Some j) -> seg g' (Det j) = seg g (Det j) ->
  (c_lock (cond m) = Some j -> head (seg g' Main) = head (seg g Main)) ->
  (forall i, i ∈ seg g (Det j) -> w_state <$> waiters m' !! i = w_state <$> waiters m !! i) ->
  debt g' j = debt g j -> refs m' !! j = refs m !! j -> signal_ok g' m' j p.
Proof.
  intros Hok Hc Hd Hm Hs Hde Hr. unfold signal_ok in *. rewrite Hd, Hde, Hr, (in_state_ext _ (waiters m)) by done.
  destruct p as [[]|]; try tauto. destruct Hok as (Hl & ? & ?). rewrite Hm by done. tauto.
Qed.

Lemma debt_same g m m' ps i p p' : debt_ok g m ps -> ps !! i = Some p ->
  (forall x j, w_notify <$> waiters m' !! x = Some (Some j) <-> w_notify <$> waiters m !! x = Some (Some j)) ->
  (forall j, w_notify <$> waiters m !! i = Some (Some j) -> in_debt (Some p') <-> in_debt (Some p)) ->
  debt_ok g m' (<[i := p']> ps).
Proof.
  intros Hd Hi Hn Hp x j. unfold debt_ok in Hd. rewrite Hd, Hn. destruct (decide (x = i)) as [->|Hne].
  - rewrite Hi, list_lookup_insert_eq by (by eapply lookup_lt_Some). specialize (Hp j). tauto.
  - by rewrite list_lookup_insert_ne.
Qed.

(** *** The lists *)

(** A waiter that is on another list is not on this one. *)
Lemma lists_apart g m k k' i : lists_ok g m -> i ∈ seg g k -> k <> k' -> i ∉ seg g k'.
Proof. intros Hl Hi Hne Hi'. by apply Hne, (lo_disjoint _ _ Hl _ _ i). Qed.

Lemma prev_of_links (ws ws' : gmap nat waiter) i :
  links <$> ws' !! i = links <$> ws !! i -> w_prev <$> ws' !! i = w_prev <$> ws !! i.
Proof. destruct (ws' !! i), (ws !! i); cbn; try done. by intros [= -> _]. Qed.

Lemma lists_push g m i : lists_ok g m -> c_lock (cond m) = None -> ~ owned g i ->
  lists_ok (Ghost (<[Main := seg g Main ++ [i]]> (seg g)) (debt g))
    (set_cond (PCond None (Some i) (head (seg g Main ++ [i])))
      (set_waiters (pushed i (seg g Main) (waiters m)) m)).
Proof.
  intros Hl Hc Hi. pose proof Hl as [H1 H2 H3 H4 H5 H6 H7 H8]. unfold front in *. rewrite Hc in H3, H4, H5.
  assert (Hni : forall k, i ∉ seg g k) by (intros k Hk; apply Hi; by exists k).
  assert (Hout : forall k x, k <> Main -> x ∈ seg g k -> x ∉ seg g Main ++ [i]).
  { intros k x Hk Hx. apply not_elem_of_app. split; [by eapply lists_apart|].
    intros ->%list_elem_of_singleton. by apply (Hni k). }
  constructor; cbn [seg cond c_lock c_head c_tail waiters set_cond set_waiters app front].
  - intros k. destruct (decide (k = Main)) as [->|]; rewrite ?fn_lookup_insert, ?fn_lookup_insert_ne by done; [|done].
    apply NoDup_app. split; [done|]. split; [|apply NoDup_singleton]. set_solver.
  - intros k k' x. destruct (decide (k = Main)) as [->|], (decide (k' = Main)) as [->|];
      rewrite ?fn_lookup_insert, ?fn_lookup_insert_ne by done; [done| | |apply H2].
    + intros Hx Hx'. by apply Hout in Hx'.
    + intros Hx Hx'. by apply Hout in Hx.
  - rewrite fn_lookup_insert. by apply linked_push.
  - rewrite fn_lookup_insert. by rewrite last_snoc.
  - by rewrite fn_lookup_insert.
  - intros j _. rewrite fn_lookup_insert_ne by done. eapply linked_ext; [apply H6; by rewrite Hc|].
    intros x Hx. by apply pushed_links, (Hout (Det j)).
  - intros n. rewrite fn_lookup_insert_ne by done. eapply chained_ext; [apply H7|].
    intros x Hx. by apply prev_of_links, pushed_links, (Hout (Chain n)).
  - intros n. rewrite fn_lookup_insert_ne by done. apply H8.
Qed.

Lemma node_ok_ext k b w w' : contents w' = contents w -> node_ok k b w -> node_ok k b w'.
Proof. unfold node_ok. intros [= -> -> ->]. done. Qed.

Lemma contents_some (ws : gmap nat waiter) i c : contents <$> ws !! i = Some c ->
  exists w, ws !! i = Some w /\ contents w = c.
Proof. destruct (ws !! i) as [w|]; [|done]. intros [= <-]. by exists w. Qed.

Lemma state_of_contents (ws ws' : gmap nat waiter) i :
  contents <$> ws' !! i = contents <$> ws !! i -> w_state <$> ws' !! i = w_state <$> ws !! i.
Proof. destruct (ws' !! i), (ws !! i); cbn; try done. by intros [= -> _ _]. Qed.

Lemma notify_of_contents (ws ws' : gmap nat waiter) i :
  contents <$> ws' !! i = contents <$> ws !! i -> w_notify <$> ws' !! i = w_notify <$> ws !! i.
Proof. destruct (ws' !! i), (ws !! i); cbn; try done. by intros [= _ _ ->]. Qed.

Lemma in_state_app s ws l1 l2 : in_state s ws (l1 ++ l2) = in_state s ws l1 ++ in_state s ws l2.
Proof. apply filter_app. Qed.

Lemma in_state_one s (ws : gmap nat waiter) i :
  in_state s ws [i] = if decide (w_state <$> ws !! i = Some s) then [i] else [].
Proof. unfold in_state. rewrite filter_cons. by case_decide. Qed.

(** Every waiter on a list was there, and as it is, or is as it should be. *)
Lemma nodes_update g g' m m' : nodes_ok g m ->
  (forall k x, x ∈ seg g' k ->
     x ∈ seg g k /\ contents <$> waiters m' !! x = contents <$> waiters m !! x /\
       match k with Chain _ => head (seg g' k) = Some x <-> head (seg g k) = Some x | _ => True end \/
     exists w, waiters m' !! x = Some w /\ node_ok k (bool_decide (head (seg g' k) = Some x)) w) ->
  nodes_ok g' m'.
Proof.
  intros Hn Hu k x Hx. destruct (Hu k x Hx) as [(Hx' & Hc & Hf)|Hex]; [|exact Hex].
  destruct (Hn _ _ Hx') as (w & Hw & Hok). rewrite Hw in Hc. apply contents_some in Hc as (w' & Hw' & Ew).
  exists w'. split; [done|]. apply (node_ok_ext _ _ w); [done|]. destruct k; [exact Hok|exact Hok|].
  by rewrite (bool_decide_ext _ _ Hf).
Qed.

Lemma lists_debt g m d : lists_ok g m -> lists_ok (Ghost (seg g) d) m.
Proof. by intros []; constructor. Qed.

Lemma signal_debt g m j p i : signal_ok g m j p -> i ∈ debt g j ->
  refs m !! j = Some (Z.of_nat (size (debt g j))) /\
  (c_lock (cond m) = Some j \/ exists l f, p = Some (CsRef l f)).
Proof.
  unfold signal_ok. intros Hs Hi. assert (Hne : debt g j <> ∅) by set_solver.
  destruct p as [[]|]; try tauto. destruct Hs as (_ & _ & ?). eauto.
Qed.

(** The signalling thread passes a waiter. *)
Definition pass (j q : nat) (rest : list nat) (g : ghost) : kind -> list nat :=
  <[Main := rest]> (<[Det j := seg g (Det j) ++ [q]]> (seg g)).

Lemma pass_main j q rest g : pass j q rest g Main = rest.
Proof. apply fn_lookup_insert. Qed.

Lemma pass_det j q rest g : pass j q rest g (Det j) = seg g (Det j) ++ [q].
Proof. unfold pass. by rewrite fn_lookup_insert_ne, fn_lookup_insert by done. Qed.

Lemma pass_other j q rest g k : k <> Main -> k <> Det j -> pass j q rest g k = seg g k.
Proof. intros. unfold pass. by rewrite !fn_lookup_insert_ne by done. Qed.

Lemma pass_elem j q rest g k x : seg g Main = q :: rest -> x ∈ pass j q rest g k ->
  x ∈ seg g k \/ x = q /\ k = Det j.
Proof.
  intros Hm. destruct (decide (k = Main)) as [->|H1]; [rewrite pass_main, Hm; set_solver|].
  destruct (decide (k = Det j)) as [->|H2]; [rewrite pass_det; set_solver|].
  rewrite pass_other by done. set_solver.
Qed.

Lemma pass_owned j q rest g d x : seg g Main = q :: rest -> owned (Ghost (pass j q rest g) d) x <-> owned g x.
Proof.
  intros Hm. unfold owned. cbn [seg]. split.
  - intros [k Hk]. apply pass_elem in Hk as [Hk|[-> ->]]; [by exists k|exists Main|done]. rewrite Hm. by left.
  - intros [k Hk]. destruct (decide (k = Main)) as [->|H1].
    + rewrite Hm in Hk. apply elem_of_cons in Hk as [->|Hk].
      * exists (Det j). rewrite pass_det. set_solver.
      * exists Main. by rewrite pass_main.
    + exists k. destruct (decide (k = Det j)) as [->|H2]; [rewrite pass_det; set_solver|by rewrite pass_other].
Qed.

Lemma pass_where g m j q rest k x : lists_ok g m -> seg g Main = q :: rest -> x ∈ pass j q rest g k ->
  x <> q /\ x ∈ seg g k \/ x = q /\ k = Det j.
Proof.
  intros Hl Hm Hx. pose proof (lo_nodup _ _ Hl Main) as Hnd. rewrite Hm in Hnd.
  apply NoDup_cons in Hnd as [Hq _]. assert (Hqm : q ∈ seg g Main) by (rewrite Hm; by left).
  destruct (decide (x = q)) as [->|Hne].
  - destruct (decide (k = Main)) as [->|]; [by rewrite pass_main in Hx|].
    destruct (decide (k = Det j)) as [->|]; [by right|]. rewrite pass_other in Hx by done.
    by destruct (lo_disjoint _ _ Hl _ _ _ Hx Hqm).
  - left. split; [done|]. by apply (pass_elem j q rest g k) in Hx as [?|[? _]].
Qed.

Lemma lists_pass g m j q rest d : lists_ok g m -> c_lock (cond m) = Some j -> seg g Main = q :: rest ->
  lists_ok (Ghost (pass j q rest g) d) m.
Proof.
  intros [H1 H2 H3 H4 H5 H6 H7 H8] Hc Hm.
  assert (Hf : front m (Ghost (pass j q rest g) d) = front m g).
  { unfold front. rewrite Hc. cbn [seg]. by rewrite pass_main, pass_det, Hm, <- app_assoc. }
  pose proof (H1 Main) as Hnd. rewrite Hm in Hnd. apply NoDup_cons in Hnd as [Hq Hnd].
  constructor; rewrite ?Hf; cbn [seg]; try done.
  - intros k. destruct (decide (k = Main)) as [->|]; [by rewrite pass_main|].
    destruct (decide (k = Det j)) as [->|]; [rewrite pass_det|by rewrite pass_other].
    apply NoDup_app. split; [done|]. split; [|apply NoDup_singleton].
    intros x Hx ->%list_elem_of_singleton. assert (Hqm : q ∈ seg g Main) by (rewrite Hm; by left).
    by discriminate (H2 _ _ _ Hx Hqm).
  - intros k k' x Hk Hk'. apply (pass_where g m) in Hk, Hk'; [|by constructor|done|by constructor|done].
    destruct Hk as [[? ?]|[? ->]], Hk' as [[? ?]|[? ->]]; try done. by eapply H2.
  - intros j' Hj'. rewrite pass_other by congruence. by apply H6.
Qed.

(** The signalling thread lets go of its list. *)
Definition let_go (j n : nat) (g : ghost) : kind -> list nat :=
  <[Det j := []]> (<[Chain n := seg g (Det j)]> (seg g)).

Lemma let_go_where g m j n k x : lists_ok g m -> last (seg g (Det j)) = Some n -> x ∈ let_go j n g k ->
  x ∈ seg g (Det j) /\ k = Chain n \/ x ∈ seg g k /\ let_go j n g k = seg g k.
Proof.
  intros Hl Hn. unfold let_go. destruct (decide (k = Det j)) as [->|]; [rewrite fn_lookup_insert; set_solver|].
  rewrite fn_lookup_insert_ne by done. destruct (decide (k = Chain n)) as [->|]; [rewrite fn_lookup_insert; auto|].
  rewrite fn_lookup_insert_ne by done. auto.
Qed.

Lemma let_go_chain g m j n : lists_ok g m -> last (seg g (Det j)) = Some n -> seg g (Chain n) = [].
Proof.
  intros Hl Hn. destruct (seg g (Chain n)) as [|x l] eqn:E; [done|].
  assert (Hx : x ∈ seg g (Chain n)) by (rewrite E; by left).
  pose proof (lo_key _ _ Hl _ _ Hx) as Hk. apply last_elem in Hk, Hn.
  by discriminate (lo_disjoint _ _ Hl _ _ _ Hn Hk).
Qed.

Lemma let_go_owned g m j n d x : lists_ok g m -> last (seg g (Det j)) = Some n ->
  owned (Ghost (let_go j n g) d) x <-> owned g x.
Proof.
  intros Hl Hn. unfold owned. cbn [seg]. split.
  - intros [k Hk]. apply (let_go_where g m) in Hk as [[? _]|[? _]]; eauto.
  - intros [k Hk]. destruct (decide (k = Det j)) as [->|H1].
    + exists (Chain n). unfold let_go. by rewrite fn_lookup_insert_ne, fn_lookup_insert by done.
    + exists k. unfold let_go. rewrite fn_lookup_insert_ne by done.
      destruct (decide (k = Chain n)) as [->|]; [|by rewrite fn_lookup_insert_ne].
      rewrite (let_go_chain g m j n Hl Hn) in Hk. by inversion Hk.
Qed.

Lemma lists_let_go g m j n d : lists_ok g m -> c_lock (cond m) <> Some j -> last (seg g (Det j)) = Some n ->
  lists_ok (Ghost (let_go j n g) d) m.
Proof.
  intros Hl Hc Hn. pose proof Hl as [H1 H2 H3 H4 H5 H6 H7 H8].
  assert (Hother : forall k, k <> Det j -> k <> Chain n -> let_go j n g k = seg g k)
    by (intros; unfold let_go; by rewrite !fn_lookup_insert_ne by done).
  assert (Hdet : let_go j n g (Det j) = []) by apply fn_lookup_insert.
  assert (Hchain : let_go j n g (Chain n) = seg g (Det j))
    by (unfold let_go; by rewrite fn_lookup_insert_ne, fn_lookup_insert by done).
  assert (Hf : front m (Ghost (let_go j n g) d) = front m g).
  { unfold front. cbn [seg]. rewrite (Hother Main) by done. destruct (c_lock (cond m)) as [x|]; [|done].
    by rewrite Hother by congruence. }
  constructor; rewrite ?Hf; cbn [seg]; try done.
  - intros k. destruct (decide (k = Det j)) as [->|]; [rewrite Hdet; constructor|].
    destruct (decide (k = Chain n)) as [->|]; [by rewrite Hchain|by rewrite Hother].
  - intros k k' x Hk Hk'.
    apply (let_go_where g m) in Hk as [[Hx ->]|[Hx Ek]], Hk' as [[Hx' ->]|[Hx' Ek']]; try done; [| |by eapply H2].
    + rewrite (H2 _ _ _ Hx' Hx), Hdet in Ek'. rewrite <- Ek' in Hx. by inversion Hx.
    + rewrite (H2 _ _ _ Hx Hx'), Hdet in Ek. rewrite <- Ek in Hx'. by inversion Hx'.
  - intros x Hx. destruct (decide (x = j)) as [->|]; [rewrite Hdet; apply linked_nil|].
    rewrite Hother by congruence. by apply H6.
  - intros x. destruct (decide (x = n)) as [->|]; [rewrite Hchain; by apply linked_chained, H6|].
    rewrite Hother by congruence. apply H7.
  - intros x y. destruct (decide (x = n)) as [->|]; [by rewrite Hchain|].
    rewrite Hother by congruence. apply H8.
Qed.

(** The first waiter of a list that is being released returns. *)
Lemma lists_pop g m m' n i tl d : lists_ok g m -> seg g (Chain n) = i :: tl -> cond m' = cond m ->
  (forall x, x <> i -> links <$> waiters m' !! x = links <$> waiters m !! x) ->
  lists_ok (Ghost (<[Chain n := tl]> (seg g)) d) m'.
Proof.
  intros Hl Hn Hc Hlk. pose proof Hl as [H1 H2 H3 H4 H5 H6 H7 H8].
  assert (Hi : i ∈ seg g (Chain n)) by (rewrite Hn; by left).
  assert (Hother : forall k, k <> Chain n -> <[Chain n := tl]> (seg g) k = seg g k)
    by (intros; by rewrite fn_lookup_insert_ne by done).
  assert (Hf : front m' (Ghost (<[Chain n := tl]> (seg g)) d) = front m g).
  { unfold front. cbn [seg]. rewrite Hc, (Hother Main) by done. by destruct (c_lock (cond m)) as [x|]. }
  assert (Hne : forall k x, k <> Chain n -> x ∈ seg g k -> x <> i).
  { intros k x Hk Hx ->. by apply Hk, (H2 _ _ i). }
  pose proof (H1 (Chain n)) as Hnd. rewrite Hn in Hnd. apply NoDup_cons in Hnd as [Hni Hnd].
  assert (Hsub : forall k x, x ∈ <[Chain n := tl]> (seg g) k -> x ∈ seg g k).
  { intros k x. destruct (decide (k = Chain n)) as [->|]; [|by rewrite Hother].
    rewrite fn_lookup_insert, Hn. by right. }
  constructor; rewrite ?Hf, ?Hc; cbn [seg]; try done.
  - intros k. destruct (decide (k = Chain n)) as [->|]; [by rewrite fn_lookup_insert|by rewrite Hother].
  - intros k k' x Hk%Hsub Hk'%Hsub. by eapply H2.
  - eapply linked_ext; [exact H3|]. intros x Hx. apply Hlk. unfold front in Hx.
    destruct (c_lock (cond m)); [apply elem_of_app in Hx as [Hx|Hx]|]; by eapply Hne, Hx.
  - intros j Hj. eapply linked_ext; [by apply H6|]. intros x Hx. by apply Hlk, (Hne (Det j)).
  - intros n'. destruct (decide (n' = n)) as [->|Hd].
    + rewrite fn_lookup_insert. pose proof (H7 n) as Hch. rewrite Hn in Hch. apply chained_tail in Hch.
      eapply chained_ext; [exact Hch|]. intros x Hx. apply prev_of_links, Hlk. by intros ->.
    + rewrite Hother by congruence. eapply chained_ext; [apply H7|]. intros x Hx.
      apply prev_of_links, Hlk, (Hne (Chain n')); [congruence|done].
  - intros n' x. destruct (decide (n' = n)) as [->|Hd]; [|rewrite Hother by congruence; apply H8].
    rewrite fn_lookup_insert. intros Hx. pose proof (H8 _ _ Hi) as Hk. rewrite Hn, last_cons in Hk.
    destruct (last tl) eqn:El; [done|]. apply last_None in El. subst tl. by inversion Hx.
Qed.

(** A waiter that has given up leaves its list. *)
Section Remove.
Context (g : ghost) (m : memory S) (k : kind) (l1 : list nat) (i : nat) (l2 : list nat).
Hypothesis Hl : lists_ok g m.
Hypothesis there : seg g k = l1 ++ i :: l2.
Hypothesis unlocked : c_lock (cond m) = None.
Hypothesis not_chain : forall n, k <> Chain n.

Definition removed : kind -> list nat := <[k := l1 ++ l2]> (seg g).

Lemma removed_elem k' x : x ∈ removed k' <-> x ∈ seg g k' /\ x <> i.
Proof using Hl there unlocked not_chain.
  assert (Hi : i ∈ seg g k) by (rewrite there; set_solver).
  pose proof (lo_nodup _ _ Hl k) as Hnd. rewrite there in Hnd.
  apply NoDup_app in Hnd as (_ & Hd & [Hi2 _]%NoDup_cons).
  assert (Hi1 : i ∉ l1) by (intros Hx; apply (Hd i Hx); by left).
  unfold removed. destruct (decide (k' = k)) as [->|Hk].
  - rewrite fn_lookup_insert, there, !elem_of_app, elem_of_cons. split; [|naive_solver].
    intros Hx. split; [tauto|]. intros ->. tauto.
  - rewrite fn_lookup_insert_ne by done. split; [|by intros []]. intros Hx. split; [done|].
    intros ->. by apply Hk, (lo_disjoint _ _ Hl _ _ i).
Qed.

Lemma removed_owned d x : x <> i -> owned (Ghost removed d) x <-> owned g x.
Proof using Hl there unlocked not_chain.
  intros Hx. unfold owned. cbn [seg]. split; intros [k' Hk]; exists k'; rewrite ?removed_elem in *; tauto.
Qed.

Lemma removed_linked : linked (waiters m) (seg g k).
Proof using Hl there unlocked not_chain.
  destruct k as [|j|n]; [|apply (lo_detached _ _ Hl); by rewrite unlocked|by destruct (not_chain n)].
  pose proof (lo_front _ _ Hl) as Hf. unfold front in Hf. by rewrite unlocked in Hf.
Qed.

Lemma removed_ends : c_head (cond m) = last (seg g Main) /\ c_tail (cond m) = head (seg g Main).
Proof using Hl there unlocked not_chain.
  pose proof (lo_head _ _ Hl) as Hh. pose proof (lo_tail _ _ Hl) as Ht. unfold front in Hh, Ht.
  by rewrite unlocked in Hh, Ht.
Qed.

Lemma removed_head : c_head (cond m) = Some i -> k = Main /\ l2 = [].
Proof using Hl there unlocked not_chain.
  rewrite (proj1 removed_ends). intros Hh. assert (k = Main) as Hk.
  { apply last_elem in Hh. apply (lo_disjoint _ _ Hl _ _ i); [|done]. rewrite there. set_solver. }
  split; [done|]. rewrite <- Hk, there, last_app_cons in Hh. destruct (last l2) as [y|] eqn:El; [|by apply last_None in El].
  injection Hh as ->. apply last_elem in El. pose proof (lo_nodup _ _ Hl k) as Hnd. rewrite there in Hnd.
  apply NoDup_app in Hnd as (_ & _ & [Hi _]%NoDup_cons). done.
Qed.

Lemma removed_tail : c_tail (cond m) = Some i -> k = Main /\ l1 = [].
Proof using Hl there unlocked not_chain.
  rewrite (proj2 removed_ends). intros Hh. assert (k = Main) as Hk.
  { apply head_elem in Hh. apply (lo_disjoint _ _ Hl _ _ i); [|done]. rewrite there. set_solver. }
  split; [done|]. rewrite <- Hk, there in Hh. destruct l1 as [|y l]; [done|]. injection Hh as ->.
  pose proof (lo_nodup _ _ Hl k) as Hnd. rewrite there in Hnd.
  apply NoDup_app in Hnd as (_ & Hd & _). destruct (Hd i); by left.
Qed.

Let m' : memory S := set_cond (PCond None (if bool_decide (c_head (cond m) = Some i) then last l1 else c_head (cond m))
    (if bool_decide (c_tail (cond m) = Some i) then head l2 else c_tail (cond m)))
  (set_waiters (relink l1 l2 (waiters m)) m).

Lemma cond_remove_removes : cond_remove i m = Ret m'.
Proof using Hl there unlocked not_chain.
  pose proof removed_linked as Hlk. rewrite there in Hlk. pose proof (lo_nodup _ _ Hl k) as Hnd. rewrite there in Hnd.
  rewrite (cond_remove_spec i m l1 l2 Hlk Hnd); [by rewrite unlocked|apply removed_head|apply removed_tail].
Qed.

Lemma removed_lists d : lists_ok (Ghost removed d) m'.
Proof using Hl there unlocked not_chain.
  pose proof removed_linked as Hlk. rewrite there in Hlk. pose proof (lo_nodup _ _ Hl k) as Hnd. rewrite there in Hnd.
  pose proof (linked_relink _ _ _ _ Hlk Hnd) as Hlr.
  assert (Hother : forall k', k' <> k -> removed k' = seg g k') by (intros; by apply fn_lookup_insert_ne).
  assert (Hself : removed k = l1 ++ l2) by apply fn_lookup_insert.
  assert (Hkeep : forall k' x, k' <> k -> x ∈ seg g k' -> links <$> waiters m' !! x = links <$> waiters m !! x).
  { intros k' x Hk Hx. apply relink_links. intros Hx'. apply Hk, (lo_disjoint _ _ Hl _ _ x); [done|].
    rewrite there. set_solver. }
  destruct removed_ends as [Hh Ht].
  constructor; unfold front; cbn [seg cond m' c_lock c_head c_tail set_cond set_waiters waiters app].
  - intros k'. destruct (decide (k' = k)) as [->|]; [rewrite Hself|rewrite Hother by done; apply Hl].
    apply NoDup_app in Hnd as (? & Hd & [_ ?]%NoDup_cons). apply NoDup_app. split; [done|].
    split; [|done]. intros x Hx Hx'. apply (Hd x Hx). by right.
  - intros k1 k2 x [Hx _]%removed_elem [Hx' _]%removed_elem. by apply (lo_disjoint _ _ Hl _ _ x).
  - destruct (decide (Main = k)) as [<-|]; [by rewrite Hself|]. rewrite Hother by done.
    pose proof (lo_front _ _ Hl) as Hf. unfold front in Hf. rewrite unlocked in Hf.
    eapply linked_ext; [exact Hf|]. intros x Hx. by eapply Hkeep.
  - case_bool_decide as E.
    + destruct (removed_head E) as [<- ->]. by rewrite Hself, app_nil_r.
    + rewrite Hh in E |- *. destruct (decide (Main = k)) as [<-|]; [|by rewrite Hother].
      rewrite Hself. rewrite there, last_app_cons in E |- *. rewrite last_app. by destruct (last l2).
  - case_bool_decide as E.
    + destruct (removed_tail E) as [<- ->]. by rewrite Hself.
    + rewrite Ht in E |- *. destruct (decide (Main = k)) as [<-|]; [|by rewrite Hother].
      rewrite Hself. rewrite there, head_app in E |- *. rewrite head_app. by destruct (head l1).
  - intros j _. destruct (decide (Det j = k)) as [<-|]; [by rewrite Hself|]. rewrite Hother by done.
    eapply linked_ext; [apply (lo_detached _ _ Hl); by rewrite unlocked|]. intros x Hx. by eapply Hkeep.
  - intros n. rewrite Hother by (intros E; by apply (not_chain n)). eapply chained_ext; [apply (lo_chain _ _ Hl)|].
    intros x Hx. eapply prev_of_links, Hkeep; [|exact Hx]. intros E. by apply (not_chain n).
  - intros n. rewrite Hother by (intros E; by apply (not_chain n)). apply (lo_key _ _ Hl).
Qed.

Lemma removed_in_state s k' : w_state <$> waiters m !! i <> Some s ->
  in_state s (waiters m') (removed k') = in_state s (waiters m) (seg g k').
Proof using Hl there unlocked not_chain.
  intros Hs. rewrite (in_state_ext _ (waiters m)) by (intros x _; apply state_of_contents, relink_contents).
  unfold removed. destruct (decide (k' = k)) as [->|]; [|by rewrite fn_lookup_insert_ne].
  rewrite fn_lookup_insert, there. change (i :: l2) with ([i] ++ l2).
  by rewrite !in_state_app, in_state_one, decide_False.
Qed.

End Remove.

(** *** One thread moves *)

Section Step.
Context (prog : nat -> L -> action S L) (g : ghost) (m : memory S) (ps : list (place L)) (a : astate S L).
Hypothesis Hsim : sim g (System m ps) a.
Context (i : nat) (p : place L).
Hypothesis here : ps !! i = Some p.

(** What has to be shown of a step. *)
Definition simulated (m' : memory S) (p' : place L) : Prop :=
  exists g' a', asteps prog a a' /\ sim g' (System m' (<[i := p']> ps)) a'.

(** A move of the abstract thread, or none. *)
Definition abstractly (q : list nat) (h : option nat) (s : S) (p' : place L) : Prop :=
  forall ap, corr p ap -> exists ap', corr p' ap' /\
    (amove prog i (in_state WAITING (waiters m) (seg g Main)) (mutex m) (shared m) ap q h s ap' \/
     ap' = ap /\ q = in_state WAITING (waiters m) (seg g Main) /\ h = mutex m /\ s = shared m).

Lemma sim_move g' m' p' :
  lists_ok g' m' -> nodes_ok g' m' ->
  waiter_ok g' m' i (Some p') -> (forall x, x <> i -> waiter_ok g' m' x (ps !! x)) ->
  signal_ok g' m' i (Some p') -> (forall x, x <> i -> signal_ok g' m' x (ps !! x)) ->
  debt_ok g' m' (<[i := p']> ps) ->
  abstractly (in_state WAITING (waiters m') (seg g' Main)) (mutex m') (shared m') p' ->
  simulated m' p'.
Proof using Hsim here.
  intros Hl Hn Hw Hwo Hs Hso Hd Ha. pose proof Hsim as [_ _ _ _ _ Hq Hm Hsh Hps]. cbn in Hq, Hm, Hsh, Hps.
  destruct (Forall2_lookup_l _ _ _ _ _ Hps here) as (ap & Hap & Hc).
  destruct (Ha ap Hc) as (ap' & Hc' & Hmv). pose proof (lookup_lt_Some _ _ _ here) as Hlt.
  exists g', (AState (in_state WAITING (waiters m') (seg g' Main)) (mutex m') (shared m') (<[i := ap']> (a_places a))).
  split.
  - destruct a as [q h s aps]. cbn in *. subst q h s. destruct Hmv as [Hmv|(-> & -> & -> & ->)].
    + apply rtc_once. by eapply AStep.
    + rewrite list_insert_id by done. apply rtc_refl.
  - constructor; cbn; try done.
    + intros x. destruct (decide (x = i)) as [->|Hne]; [by rewrite list_lookup_insert_eq|].
      rewrite list_lookup_insert_ne by done. by apply Hwo.
    + intros x. destruct (decide (x = i)) as [->|Hne]; [by rewrite list_lookup_insert_eq|].
      rewrite list_lookup_insert_ne by done. by apply Hso.
    + by apply Forall2_insert.
Qed.

(** Nothing changes but the thread's place, the mutex and what it protects. *)
Lemma sim_place m' p' :
  cond m' = cond m -> waiters m' = waiters m -> refs m' = refs m ->
  (forall x, x <> i -> mutex m = Some x -> mutex m' = Some x) ->
  waiter_ok g m' i (Some p') -> signal_ok g m' i (Some p') ->
  (forall j, w_notify <$> waiters m !! i = Some (Some j) -> in_debt (Some p') <-> in_debt (Some p)) ->
  abstractly (in_state WAITING (waiters m) (seg g Main)) (mutex m') (shared m') p' ->
  simulated m' p'.
Proof using Hsim here.
  intros Hc Hws Hr Hmu Hw Hs Hd Ha. pose proof Hsim as [Hl Hn Hwo Hso Hde _ _ _ _]. cbn in Hl, Hn, Hwo, Hso, Hde.
  apply (sim_move g); try done.
  - eapply lists_same; [exact Hl|done|]. intros x. by rewrite Hws.
  - eapply nodes_same; [exact Hn|]. intros x. by rewrite Hws.
  - intros x Hx. eapply waiter_same; [apply Hwo|by rewrite Hws|done|by apply Hmu].
  - intros x Hx. eapply signal_same; [apply Hso|by rewrite Hc|done|done| |done|by rewrite Hr].
    intros y _. by rewrite Hws.
  - eapply debt_same; [exact Hde|exact here| |done]. intros x j. by rewrite Hws.
  - by rewrite Hws.
Qed.

Definition stepped (o : outcome (memory S * place L)) : Prop :=
  exists m' p', o = Ret (m', p') /\ simulated m' p'.

Lemma stepped_ret m' p' : simulated m' p' -> stepped (Ret (m', p')).
Proof. intros Hs. by exists m', p'. Qed.

Lemma stays : simulated m p.
Proof using Hsim here.
  exists g, a. split; [apply rtc_refl|]. by rewrite list_insert_id.
Qed.

Lemma here_waiter : waiter_ok g m i (Some p).
Proof using Hsim here. pose proof (sim_waiters _ _ _ Hsim i) as H. cbn in H. by rewrite here in H. Qed.

Lemma here_signal : signal_ok g m i (Some p).
Proof using Hsim here. pose proof (sim_signals _ _ _ Hsim i) as H. cbn in H. by rewrite here in H. Qed.

(** The thread has no waiter on a list. *)
Lemma unowned : waiters m !! i = None -> ~ owned g i.
Proof using Hsim.
  intros Hi [k Hk]. destruct (sim_nodes _ _ _ Hsim _ _ Hk) as (w & Hw & _). cbn in Hw. congruence.
Qed.

Lemma step_client l : p = Client l -> stepped (Ret (client_step i (prog i l) m p)).
Proof using Hsim here.
  intros Hp. pose proof here_waiter as Hw. pose proof here_signal as Hs. rewrite Hp in Hw, Hs. cbn in Hw, Hs.
  assert (Hmove : forall m' p' ap', client_step i (prog i l) m p = (m', p') ->
    aclient i (prog i l) (mutex m) (shared m) l = (mutex m', shared m', ap') -> corr p' ap' ->
    abstractly (in_state WAITING (waiters m) (seg g Main)) (mutex m') (shared m') p').
  { intros m' p' ap' _ Ha Hc ap Hap. rewrite Hp in Hap. cbn in Hap. subst ap. exists ap'. split; [done|].
    left. by apply MoveClient. }
  destruct (client_step i (prog i l) m p) as [m' p'] eqn:E. apply stepped_ret.
  specialize (Hmove m' p'). unfold client_step, aclient in *.
  destruct (prog i l) as [l'|l'|ts k|n l'|f|]; [| | | | |injection E as <- <-; apply stays].
  - destruct (mutex m) as [h|] eqn:Em; [injection E as <- <-; apply stays|]. injection E as <- <-.
    apply sim_place; try done; [by rewrite Em|by rewrite Hp|by eapply Hmove].
  - case_bool_decide as Hh; [|injection E as <- <-; apply stays]. injection E as <- <-.
    apply sim_place; try done; [intros x; cbn; congruence|by rewrite Hp|by eapply Hmove].
  - case_bool_decide as Hh; [|injection E as <- <-; apply stays]. injection E as <- <-.
    apply sim_place; try done; [by rewrite Hp|by eapply Hmove].
  - injection E as <- <-. apply sim_place; try done; [by rewrite Hp|by eapply Hmove].
  - case_bool_decide as Hh; [|injection E as <- <-; apply stays].
    destruct (f (shared m)) as [s l'] eqn:Ef. injection E as <- <-.
    apply sim_place; try done; [by rewrite Hp|by eapply Hmove].
Qed.

(** Steps of a wait that only move the thread. *)
Lemma sim_wait p' : waiter_ok g m i (Some p') -> signal_ok g m i (Some p') ->
  in_debt (Some p') = in_debt (Some p) ->
  (forall ap, corr p ap -> exists ap', corr p' ap' /\
    (ap' = ap \/ amove prog i (in_state WAITING (waiters m) (seg g Main)) (mutex m) (shared m) ap
      (in_state WAITING (waiters m) (seg g Main)) (mutex m) (shared m) ap')) ->
  simulated m p'.
Proof using Hsim here.
  intros Hw Hs Hd Ha. apply sim_place; try done; [by rewrite Hd|].
  intros ap Hap. destruct (Ha ap Hap) as (ap' & Hc & Hm). exists ap'. split; [done|].
  destruct Hm as [->|]; auto.
Qed.

Lemma step_unlock ts k ev : p = CwUnlock ts k -> stepped (cond_timedwait_step i ev m p).
Proof using Hsim here.
  intros Hp. pose proof here_waiter as Hw. pose proof here_signal as Hs. rewrite Hp in Hw, Hs |- *.
  destruct Hw as (Ho & Hw & Hm). apply stepped_ret. apply sim_place; try done.
  - intros x Hx. congruence.
  - by rewrite Hp.
  - intros ap. rewrite Hp. intros ->. eexists. split; [done|]. left. apply MoveUnlock.
Qed.

Lemma step_wait ts k q ev : p = CwWait ts k q -> stepped (cond_timedwait_step i ev m p).
Proof using Hsim here.
  intros Hp. pose proof here_waiter as Hw. pose proof here_signal as Hs. rewrite Hp in Hw, Hs |- *.
  destruct Hw as (Ho & (w & Hi & Hw) & Hq). cbn [cond_timedwait_step]. rewrite Hi.
  cbn [get mbind outcome_bind]. apply stepped_ret.
  assert (Hcorr : forall p', (forall ap, corr (CwWait ts k q) ap -> corr p' ap) -> forall ap, corr p ap ->
    exists ap', corr p' ap' /\ (ap' = ap \/ amove prog i (in_state WAITING (waiters m) (seg g Main)) (mutex m)
      (shared m) ap (in_state WAITING (waiters m) (seg g Main)) (mutex m) (shared m) ap')).
  { rewrite Hp. intros p' Hpp ap Hap. exists ap. auto. }
  assert (Hun : ts = None -> match timedwait_cp_step ts 2 ev (w_barrier w) q with
    | inl (TwClock _ _) => False | inl _ => True | inr r => r = 0 end).
  { intros ->. by apply timedwait_untimed, Hq. }
  destruct (timedwait_cp_step ts 2 ev (w_barrier w) q) as [q'|e]; apply sim_wait; try done; try (by rewrite Hp);
    try (by apply Hcorr); (split; [done|]; split; [by exists w|]); [|done].
  intros E. specialize (Hun E). by destruct q'.
Qed.

Lemma step_test ts k e ev : p = CwTest ts k e -> stepped (cond_timedwait_step i ev m p).
Proof using Hsim here.
  intros Hp. pose proof here_waiter as Hw. pose proof here_signal as Hs. rewrite Hp in Hw, Hs |- *.
  destruct Hw as (Ho & (w & Hi & Hw) & He). cbn [cond_timedwait_step]. rewrite Hi.
  cbn [get mbind outcome_bind]. destruct (_ && _) eqn:Et; apply stepped_ret, sim_wait; try done; try (by rewrite Hp).
  - split; [done|]. split; [by exists w|done].
  - rewrite Hp. intros ap Hap. exists ap. auto.
  - split; [done|]. exists w. split; [done|]. split; [apply Hw|]. split; [apply Hw|].
    intros E. destruct (Z.eqb_spec (w_barrier w) 2); [|done]. cbn in Et.
    destruct (Z.eqb_spec e EINTR) as [->|]; [done|]. by subst e.
  - rewrite Hp. intros ap Hap. exists ap. split; [|auto]. exists ts. split; [done|].
    intros E. by rewrite (He E).
Qed.

Lemma step_cas_signaled k e w ev : p = CwCas k e -> waiters m !! i = Some w -> w_state w = SIGNALED ->
  stepped (cond_timedwait_step i ev m p).
Proof using Hsim here.
  intros Hp Hi Hst. pose proof here_waiter as Hw. pose proof here_signal as Hs. rewrite Hp in Hw, Hs |- *.
  destruct Hw as (Ho & (w' & Hi' & Hw)). rewrite Hi in Hi'. injection Hi' as <-.
  cbn [cond_timedwait_step]. rewrite Hi. cbn [get mbind outcome_bind]. rewrite Hst.
  apply stepped_ret, sim_wait; try done; try (by rewrite Hp).
  - split; [done|]. exists w. split; [done|]. split; [done|apply Hw].
  - rewrite Hp. intros ap (ts & -> & He). eexists. split; [done|]. right. apply MoveWoken.
    + unfold in_state. rewrite list_elem_of_filter, Hi. cbn. rewrite Hst. by intros [[=] _].
    + intros E. by rewrite (He E).
Qed.

Lemma step_relock k e old ev : p = CwRelock k e old -> old <> WAITING -> stepped (cond_timedwait_step i ev m p).
Proof using Hsim here.
  intros Hp Hold. pose proof here_waiter as Hw. pose proof here_signal as Hs. rewrite Hp in Hw, Hs |- *.
  cbn [cond_timedwait_step]. destruct (mutex m) as [h|] eqn:Em.
  { rewrite <- Hp. apply stepped_ret, stays. }
  rewrite bool_decide_false by done. destruct old; [done| |done]. destruct Hw as [Ho Hw].
  apply stepped_ret. apply sim_place; try done.
  - by rewrite Em.
  - by rewrite Hp.
  - intros ap. rewrite Hp. intros ->. eexists. split; [done|]. left. rewrite Em. apply MoveRelock.
Qed.

Lemma step_ref l f : p = CsRef l f -> stepped (private_cond_signal_step i m p).
Proof using Hsim here.
  intros Hp. pose proof here_waiter as Hw. pose proof here_signal as Hs. rewrite Hp in Hw, Hs |- *.
  destruct Hs as (Hc & Hf & Hr). cbn [private_cond_signal_step]. rewrite Hr. cbn [get mbind outcome_bind].
  apply stepped_ret. destruct (Z.eqb_spec (Z.of_nat (size (debt g i))) 0) as [Hz|]; [|rewrite <- Hp; apply stays].
  apply sim_wait; try done; [|by rewrite Hp|].
  - split; [done|]. split; [done|]. apply leibniz_equiv, size_empty_inv. lia.
  - rewrite Hp. intros ap ->. eexists. split; [done|]. by left.
Qed.

Lemma step_insert ts k : p = CwEnter ts k -> c_lock (cond m) = None ->
  stepped (m' ← cond_insert i m; Ret (m', CwUnlock ts k)).
Proof using Hsim here.
  intros Hp Hc. pose proof Hsim as [Hl Hn Hwo Hso Hde _ _ _ _]. cbn in Hl, Hn, Hwo, Hso, Hde.
  pose proof here_waiter as Hw. pose proof here_signal as Hs. rewrite Hp in Hw, Hs.
  destruct Hw as [Hw Hmu]. destruct Hs as (_ & Hd & Hdb). pose proof (unowned Hw) as Hno.
  assert (Hni : i ∉ seg g Main) by (intros Hi; apply Hno; by exists Main).
  pose proof (lo_front _ _ Hl) as Hf. pose proof (lo_head _ _ Hl) as Hh. pose proof (lo_tail _ _ Hl) as Ht.
  unfold front in Hf, Hh, Ht. rewrite Hc in Hf, Hh, Ht. cbn [app] in Hf, Hh, Ht.
  rewrite (cond_insert_spec _ _ _ Hf Hh Ht), Hc. cbn [mbind outcome_bind]. apply stepped_ret.
  set (g' := Ghost (<[Main := seg g Main ++ [i]]> (seg g)) (debt g)).
  assert (Hcon : forall x, contents <$> pushed i (seg g Main) (waiters m) !! x =
    if decide (i = x) then Some (WAITING, 2, None) else contents <$> waiters m !! x)
    by (intros; by apply pushed_contents).
  assert (Hcx : forall x, x <> i -> contents <$> pushed i (seg g Main) (waiters m) !! x = contents <$> waiters m !! x)
    by (intros; by rewrite Hcon, decide_False).
  assert (Hci : exists w, pushed i (seg g Main) (waiters m) !! i = Some w /\ contents w = (WAITING, 2, None))
    by (apply contents_some; by rewrite Hcon, decide_True).
  assert (Hseg : forall k, k <> Main -> seg g' k = seg g k) by (intros; by apply fn_lookup_insert_ne).
  assert (Hmain : seg g' Main = seg g Main ++ [i]) by apply fn_lookup_insert.
  assert (Hown : forall x, x <> i -> owned g' x <-> owned g x).
  { intros x Hx. split; intros [k' Hk]; exists k'; destruct (decide (k' = Main)) as [->|];
      rewrite ?Hmain, ?Hseg in * by done; set_solver. }
  apply (sim_move g').
  - by apply lists_push.
  - apply (nodes_update g _ m); [done|]. intros k' x Hx. destruct (decide (x = i)) as [->|Hne].
    + right. destruct Hci as (w & Hwx & Ew). exists w. split; [done|].
      destruct (decide (k' = Main)) as [->|Hk]; [|by destruct Hno; exists k'; rewrite <- Hseg].
      unfold node_ok. by injection Ew as -> -> ->.
    + left. destruct (decide (k' = Main)) as [->|Hk].
      * split; [set_solver|]. by split; [apply Hcx|].
      * rewrite Hseg in Hx |- * by done. split; [done|]. split; [by apply Hcx|by destruct k'].
  - split; [exists Main; rewrite Hmain; set_solver|]. split; [|done].
    destruct Hci as (w & Hwx & Ew). exists w. split; [done|]. injection Ew as E1 E2 E3. by rewrite E1, E2.
  - intros x Hx. eapply waiter_same; [apply Hwo|by apply Hcx|by apply Hown|done].
  - split; [done|]. by rewrite Hseg.
  - intros x Hx. eapply signal_same; [apply Hso|by cbn; rewrite Hc|by apply Hseg|by rewrite Hc| |done|done].
    intros y Hy. apply state_of_contents, Hcx. intros ->. apply Hno. by exists (Det x).
  - eapply debt_same; [exact Hde|exact here| |by rewrite Hp]. intros x j.
    cbn [waiters set_cond set_waiters]. destruct (decide (x = i)) as [->|Hx]; [|by rewrite (notify_of_contents _ _ _ (Hcx x Hx))].
    destruct Hci as (w & Hwx & Ew). rewrite Hwx, Hw. injection Ew as _ _ E3.
    cbn. rewrite E3. by split.
  - intros ap. rewrite Hp. intros ->. eexists. split; [done|]. left.
    cbn [waiters set_cond set_waiters mutex shared]. rewrite Hmain, in_state_app, in_state_one.
    rewrite decide_True by (destruct Hci as (w & -> & [= E _ _]); cbn; by rewrite E).
    rewrite (in_state_ext _ (waiters m) (pushed _ _ _)); [apply MoveQueue|].
    intros x Hx. apply state_of_contents, Hcx. by intros ->.
Qed.

Lemma step_enter ts k ev : p = CwEnter ts k -> stepped (cond_timedwait_step i ev m p).
Proof using Hsim here.
  intros Hp. pose proof here_waiter as Hw. pose proof here_signal as Hs. rewrite Hp in Hw, Hs |- *.
  destruct Hw as [Hw Hmu]. cbn [cond_timedwait_step].
  assert (Hin : stepped match c_lock (cond m) with
    | Some _ => Ret (m, CwEnter ts k)
    | None => m' ← cond_insert i m; Ret (m', CwUnlock ts k) end).
  { destruct (c_lock (cond m)) eqn:Hc; [rewrite <- Hp; apply stepped_ret, stays|by apply step_insert]. }
  destruct ts as [t|]; [|exact Hin]. destruct (Z.leb_spec 1000000000 (wrap64 (tv_nsec t))); [|exact Hin].
  apply stepped_ret, sim_wait; try done; [by rewrite Hp|].
  rewrite Hp. intros ap ->. eexists. split; [done|]. right. by apply MoveInvalid.
Qed.

(** *** A waiter is written to, but for its links *)

Section Touch.
Context (q : nat) (w w' : waiter).
Hypothesis old : waiters m !! q = Some w.
Hypothesis same_links : links w' = links w.
Let m' : memory S := set_waiters (<[q := w']> (waiters m)) m.

Lemma touch_lists : lists_ok g m'.
Proof using Hsim old same_links.
  eapply lists_same; [apply Hsim|done|]. intros x. cbn. destruct (decide (x = q)) as [->|].
  - rewrite lookup_insert_eq, old. change (Some (links w') = Some (links w)). by rewrite same_links.
  - by rewrite lookup_insert_ne.
Qed.

Lemma touch_contents x : x <> q -> contents <$> waiters m' !! x = contents <$> waiters m !! x.
Proof. intros. cbn. by rewrite lookup_insert_ne. Qed.

Lemma touch_nodes : (forall k, q ∈ seg g k -> node_ok k (bool_decide (head (seg g k) = Some q)) w') ->
  nodes_ok g m'.
Proof using Hsim.
  intros Hq. apply (nodes_update g _ m); [apply Hsim|]. intros k x Hx. destruct (decide (x = q)) as [->|Hne].
  - right. exists w'. split; [apply lookup_insert_eq|by apply Hq].
  - left. split; [done|]. split; [by apply touch_contents|by destruct k].
Qed.

Lemma touch_waiter x : x <> q -> waiter_ok g m' x (ps !! x).
Proof using Hsim.
  intros Hx. eapply waiter_same; [apply (sim_waiters _ _ _ Hsim)|by apply touch_contents|done|done].
Qed.

Lemma touch_signal x : (q ∈ seg g (Det x) -> w_state w' = w_state w) -> signal_ok g m' x (ps !! x).
Proof using Hsim old.
  intros Hq. eapply signal_same; [apply (sim_signals _ _ _ Hsim)|done|done|done| |done|done].
  intros y Hy. destruct (decide (y = q)) as [->|Hne]; [|by apply state_of_contents, touch_contents].
  cbn. rewrite lookup_insert_eq, old. cbn. by rewrite Hq.
Qed.

Lemma touch_debt p' : w_notify w' = w_notify w ->
  (forall j, w_notify <$> waiters m !! i = Some (Some j) -> in_debt (Some p') <-> in_debt (Some p)) ->
  debt_ok g m' (<[i := p']> ps).
Proof using Hsim here old.
  intros Hn Hd. eapply debt_same; [apply (sim_debt _ _ _ Hsim)|exact here| |done]. intros x j. cbn.
  destruct (decide (x = q)) as [->|Hne]; [|by rewrite lookup_insert_ne].
  rewrite lookup_insert_eq, old. cbn. by rewrite Hn.
Qed.

Lemma touch_queue : (q ∈ seg g Main -> w_state w' = w_state w) ->
  in_state WAITING (waiters m') (seg g Main) = in_state WAITING (waiters m) (seg g Main).
Proof using old.
  intros Hq. apply in_state_ext. intros y Hy.
  destruct (decide (y = q)) as [->|Hne]; [|by apply state_of_contents, touch_contents].
  cbn. rewrite lookup_insert_eq, old. cbn. by rewrite Hq.
Qed.

End Touch.

(** Which list a waiter is on. *)
Lemma owned_node k w : i ∈ seg g k -> waiters m !! i = Some w ->
  node_ok k (bool_decide (head (seg g k) = Some i)) w.
Proof using Hsim.
  intros Hk Hw. destruct (sim_nodes _ _ _ Hsim _ _ Hk) as (w' & Hw' & Hok). cbn in Hw'. congruence.
Qed.

Lemma step_barrier k e ev : p = CwBarrier k e -> stepped (cond_timedwait_step i ev m p).
Proof using Hsim here.
  intros Hp. pose proof here_waiter as Hw. pose proof here_signal as Hs. rewrite Hp in Hw, Hs |- *.
  destruct Hw as [Ho (w & Hi & Hst & Hb)]. cbn [cond_timedwait_step]. rewrite Hi. cbn [get mbind outcome_bind].
  destruct (Z.eqb_spec (w_barrier w) 0) as [Hz|]; [|rewrite <- Hp; apply stepped_ret, stays].
  apply stepped_ret, (sim_move g).
  - by eapply touch_lists.
  - apply touch_nodes. intros k' Hk. pose proof (owned_node _ _ Hk Hi) as Hok. destruct k'; cbn in *; [lia|lia|].
    destruct (bool_decide _); [by split; [|right]|lia].
  - split; [done|]. exists (set_barrier 1 w). split; [apply lookup_insert_eq|done].
  - intros x Hx. by apply touch_waiter.
  - pose proof (touch_signal i w (set_barrier 1 w) Hi i (fun _ => eq_refl)) as Ht. by rewrite here, Hp in Ht.
  - intros x _. by eapply touch_signal.
  - eapply touch_debt; [exact Hi|done|by rewrite Hp].
  - rewrite (touch_queue _ _ _ Hi) by done. intros ap. rewrite Hp. intros ->. eexists. split; [done|]. by right.
Qed.

(** A waiter that is [WAITING] is on the variable's list. *)
Lemma waiting_main w : owned g i -> waiters m !! i = Some w -> w_state w = WAITING ->
  i ∈ seg g Main /\ w_barrier w = 2 /\ w_notify w = None.
Proof using Hsim prog.
  intros [k Hk] Hi Hst. pose proof (owned_node _ _ Hk Hi) as Hok. destruct k; cbn in Hok.
  - tauto.
  - rewrite Hst in Hok. by destruct Hok as [_ [|[]]].
  - rewrite Hst in Hok. by destruct Hok.
Qed.

Lemma step_cas_waiting k e w ev : p = CwCas k e -> waiters m !! i = Some w -> w_state w = WAITING ->
  stepped (cond_timedwait_step i ev m p).
Proof using Hsim here.
  intros Hp Hi Hst. pose proof here_waiter as Hw. pose proof here_signal as Hs. rewrite Hp in Hw, Hs |- *.
  destruct Hw as (Ho & w' & Hi' & Hw). rewrite Hi in Hi'. injection Hi' as <-.
  destruct (waiting_main w Ho Hi Hst) as (Hmain & Hb & Hno).
  assert (Hdet : forall x, i ∉ seg g (Det x)) by (intros x; eapply lists_apart; [apply Hsim|exact Hmain|done]).
  cbn [cond_timedwait_step]. rewrite Hi. cbn [get mbind outcome_bind]. rewrite Hst.
  apply stepped_ret, (sim_move g).
  - by eapply touch_lists.
  - apply touch_nodes. intros k' Hk. rewrite <- (lo_disjoint _ _ (sim_lists _ _ _ Hsim) _ _ _ Hmain Hk). by split.
  - split; [done|]. exists (set_state LEAVING w). split; [apply lookup_insert_eq|done].
  - intros x Hx. by apply touch_waiter.
  - pose proof (touch_signal i w (set_state LEAVING w) Hi i) as Ht. rewrite here, Hp in Ht. apply Ht.
    by intros ?%Hdet.
  - intros x _. eapply touch_signal; [exact Hi|]. by intros ?%Hdet.
  - eapply touch_debt; [exact Hi|done|]. intros j. rewrite Hi. cbn. by rewrite Hno.
  - intros ap. rewrite Hp. intros (ts & -> & He). eexists. split; [done|]. left.
    apply list_elem_of_split in Hmain as (l1 & l2 & E). cbn [waiters set_waiters mutex shared].
    pose proof (lo_nodup _ _ (sim_lists _ _ _ Hsim) Main) as Hnd. rewrite E in Hnd |- *.
    apply NoDup_app in Hnd as (_ & Hd & [Hi2 _]%NoDup_cons).
    assert (Hi1 : i ∉ l1) by (intros Hx; apply (Hd i Hx); by left).
    assert (Ext : forall l, i ∉ l -> in_state WAITING (<[i := set_state LEAVING w]> (waiters m)) l =
      in_state WAITING (waiters m) l).
    { intros l Hl. apply in_state_ext. intros x Hx. rewrite lookup_insert_ne by (by intros ->). done. }
    rewrite !in_state_app. change (i :: l2) with ([i] ++ l2). rewrite !in_state_app, !in_state_one.
    rewrite (decide_True (P := w_state <$> waiters m !! i = Some WAITING)) by (rewrite Hi; cbn; by rewrite Hst).
    rewrite (decide_False (P := w_state <$> <[i := _]> (waiters m) !! i = Some WAITING))
      by by rewrite lookup_insert_eq.
    rewrite !Ext by done. cbn [app].
    destruct ts as [t|]; [|rewrite He in Hw by done; tauto]. apply MoveTimeout. intros ->. tauto.
Qed.

Lemma step_cas k e ev : p = CwCas k e -> stepped (cond_timedwait_step i ev m p).
Proof using Hsim here.
  intros Hp. pose proof here_waiter as Hw. rewrite Hp in Hw. destruct Hw as (Ho & w & Hi & Hw & _).
  destruct (w_state w) eqn:Hst; [by eapply step_cas_waiting|by eapply step_cas_signaled|done].
Qed.

Lemma notified_signal j x : i ∈ debt g j -> signal_ok g m x (ps !! x) ->
  signal_ok (Ghost (seg g) (<[j := debt g j ∖ {[i]}]> (debt g)))
    (set_refs (<[j := Z.of_nat (size (debt g j)) - 1]> (refs m)) m) x (ps !! x).
Proof.
  intros Hi Hs. destruct (decide (x = j)) as [->|Hne].
  - assert (Hsz : Z.of_nat (size (debt g j)) - 1 = Z.of_nat (size (debt g j ∖ {[i]}))).
    { rewrite size_difference, size_singleton by set_solver.
      enough (size (debt g j) <> 0%nat) by lia. intros E%size_empty_inv. set_solver. }
    assert (Hne : debt g j <> ∅) by set_solver.
    unfold signal_ok in *. cbn [refs set_refs cond waiters debt seg].
    rewrite lookup_insert_eq, fn_lookup_insert, Hsz. destruct (ps !! j) as [[]|]; tauto.
  - eapply signal_same; [exact Hs|done|done|done|done|by apply fn_lookup_insert_ne|by apply lookup_insert_ne].
Qed.

Lemma step_notify k e ev : p = CwNotify k e -> stepped (cond_timedwait_step i ev m p).
Proof using Hsim here.
  intros Hp. pose proof here_waiter as Hw. pose proof here_signal as Hs. rewrite Hp in Hw, Hs |- *.
  destruct Hw as [Ho (w & Hi & Hst)]. cbn [cond_timedwait_step]. rewrite Hi. cbn [get mbind outcome_bind].
  destruct (w_notify w) as [j|] eqn:Hj.
  - assert (Hd : i ∈ debt g j) by (apply (sim_debt _ _ _ Hsim); cbn; rewrite Hi, here, Hp; cbn; by rewrite Hj).
    destruct (signal_debt _ _ _ _ _ (sim_signals _ _ _ Hsim j) Hd) as [Hr _]. cbn in Hr.
    unfold modify_ref. rewrite Hr. cbn [get mbind outcome_bind].
    apply stepped_ret, (sim_move (Ghost (seg g) (<[j := debt g j ∖ {[i]}]> (debt g)))).
    + apply lists_debt. eapply lists_same; [apply Hsim|done|done].
    + exact (sim_nodes _ _ _ Hsim).
    + split; [done|]. by exists w.
    + intros x Hx. eapply waiter_same; [apply (sim_waiters _ _ _ Hsim)|done|done|done].
    + pose proof (notified_signal j i Hd) as Hn. rewrite here, Hp in Hn. by apply Hn.
    + intros x _. apply notified_signal; [done|]. apply (sim_signals _ _ _ Hsim).
    + intros x y. cbn [debt waiters set_refs]. pose proof (sim_debt _ _ _ Hsim x y) as Hxy. cbn in Hxy.
      destruct (decide (x = i)) as [->|Hx].
      * rewrite list_lookup_insert_eq by (by eapply lookup_lt_Some). split; [|by intros [_ []]].
        destruct (decide (y = j)) as [->|Hy]; [rewrite fn_lookup_insert; set_solver|].
        rewrite fn_lookup_insert_ne by done. intros [E _]%Hxy. rewrite Hi in E. cbn in E. congruence.
      * rewrite list_lookup_insert_ne by done. rewrite <- Hxy. destruct (decide (y = j)) as [->|Hy].
        -- rewrite fn_lookup_insert. set_solver.
        -- by rewrite fn_lookup_insert_ne.
    + intros ap. rewrite Hp. intros ->. eexists. split; [done|]. by right.
  - apply stepped_ret. apply sim_place; try done.
    + split; [done|]. by exists w.
    + intros j. rewrite Hi. cbn. by rewrite Hj.
    + intros ap. rewrite Hp. intros ->. eexists. split; [done|]. by right.
Qed.

(** A waiter that is on no list goes. *)
Lemma step_relock_waiting k e ev : p = CwRelock k e WAITING -> stepped (cond_timedwait_step i ev m p).
Proof using Hsim here.
  intros Hp. pose proof here_waiter as Hw. pose proof here_signal as Hs. rewrite Hp in Hw, Hs |- *.
  destruct Hw as [Ho (w & Hi & Hst)]. cbn [cond_timedwait_step].
  destruct (mutex m) as [h|] eqn:Em; [rewrite <- Hp; apply stepped_ret, stays|].
  rewrite bool_decide_true by done. unfold cond_return.
  assert (Hne : forall k' x, x ∈ seg g k' -> x <> i) by (intros k' x Hx ->; apply Ho; by exists k').
  apply stepped_ret, (sim_move g); cbn [waiters set_waiters set_mutex].
  - destruct (sim_lists _ _ _ Hsim) as [H1 H2 H3 H4 H5 H6 H7 H8]. constructor; try done.
    + eapply linked_ext; [exact H3|]. intros x Hx. cbn. rewrite lookup_delete_ne; [done|].
      unfold front in Hx. cbn in Hx. destruct (c_lock (cond m)); [apply elem_of_app in Hx as [Hx|Hx]|];
        intros <-; by eapply Hne.
    + intros j Hj. eapply linked_ext; [by apply H6|]. intros x Hx. cbn. rewrite lookup_delete_ne; [done|].
      intros <-. by eapply Hne.
    + intros n. eapply chained_ext; [by apply H7|]. intros x Hx. cbn. rewrite lookup_delete_ne; [done|].
      intros <-. by eapply Hne.
  - apply (nodes_update g _ m); [apply Hsim|]. intros k' x Hx. left. split; [done|].
    cbn. rewrite lookup_delete_ne by (intros <-; by eapply Hne). by destruct k'.
  - apply lookup_delete_eq.
  - intros x Hx. eapply waiter_same; [apply (sim_waiters _ _ _ Hsim)| |done|by cbn; rewrite Em].
    cbn. by rewrite lookup_delete_ne.
  - done.
  - intros x Hx. eapply signal_same; [apply (sim_signals _ _ _ Hsim)|done|done|done| |done|done].
    intros y Hy. cbn. rewrite lookup_delete_ne; [done|]. intros <-. by eapply Hne.
  - intros x y. pose proof (sim_debt _ _ _ Hsim x y) as Hxy. cbn in Hxy. cbn. rewrite Hxy.
    destruct (decide (x = i)) as [->|Hx].
    + rewrite here, list_lookup_insert_eq, Hp by (by eapply lookup_lt_Some). cbn. tauto.
    + by rewrite list_lookup_insert_ne, lookup_delete_ne.
  - rewrite (in_state_ext _ (waiters m) (delete i _)).
    + intros ap. rewrite Hp. intros ->. eexists. split; [done|]. left. cbn. rewrite Em. apply MoveRelock.
    + intros x Hx. rewrite lookup_delete_ne; [done|]. intros <-. by eapply Hne.
Qed.

(** *** Signalling *)

Lemma step_lock n l : p = CsLock n l -> stepped (private_cond_signal_step i m p).
Proof using Hsim here.
  intros Hp. pose proof here_waiter as Hw. pose proof here_signal as Hs. rewrite Hp in Hw, Hs |- *.
  destruct Hs as (_ & Hd & Hdb). cbn [private_cond_signal_step].
  destruct (c_lock (cond m)) eqn:Hc; [rewrite <- Hp; apply stepped_ret, stays|].
  assert (Hf : forall m', c_lock (cond m') = Some i -> front m' g = front m g).
  { intros m' Hc'. unfold front. by rewrite Hc, Hc', Hd. }
  apply stepped_ret, (sim_move g).
  - destruct (sim_lists _ _ _ Hsim) as [H1 H2 H3 H4 H5 H6 H7 H8].
    constructor; rewrite ?Hf by done; try done. intros j _. apply H6. cbn. by rewrite Hc.
  - exact (sim_nodes _ _ _ Hsim).
  - done.
  - intros x Hx. eapply waiter_same; [apply (sim_waiters _ _ _ Hsim)|done|done|done].
  - split; [done|]. cbn. rewrite Hd, Hdb, lookup_insert_eq. split; [|done].
    pose proof (lo_tail _ _ (sim_lists _ _ _ Hsim)) as Ht. unfold front in Ht. cbn in Ht. by rewrite Hc in Ht.
  - intros x Hx. eapply signal_same; [apply (sim_signals _ _ _ Hsim)| |done|done|done|done|].
    + cbn. rewrite Hc. split; congruence.
    + by apply lookup_insert_ne.
  - eapply debt_same; [apply (sim_debt _ _ _ Hsim)|exact here|done|by rewrite Hp].
  - intros ap. rewrite Hp. intros ->. eexists. split; [done|]. by right.
Qed.

(** Only links change, and who holds the lock. *)
Lemma sim_relinked m' p' : lists_ok g m' ->
  (forall x, contents <$> waiters m' !! x = contents <$> waiters m !! x) ->
  refs m' = refs m -> mutex m' = mutex m -> shared m' = shared m ->
  (forall x, x <> i -> c_lock (cond m') = Some x <-> c_lock (cond m) = Some x) ->
  waiter_ok g m' i (Some p') -> signal_ok g m' i (Some p') -> in_debt (Some p') = in_debt (Some p) ->
  abstractly (in_state WAITING (waiters m) (seg g Main)) (mutex m) (shared m) p' ->
  simulated m' p'.
Proof using Hsim here.
  intros Hl Hc Hr Hm Hs Hk Hw Hsg Hd Ha. apply (sim_move g); try done.
  - apply (nodes_same _ m); [apply Hsim|done].
  - intros x Hx. eapply waiter_same; [apply (sim_waiters _ _ _ Hsim)|done|done|by rewrite Hm].
  - intros x Hx. eapply signal_same; [apply (sim_signals _ _ _ Hsim)|by apply Hk|done|done| |done|by rewrite Hr].
    intros y _. by apply state_of_contents.
  - eapply debt_same; [apply (sim_debt _ _ _ Hsim)|exact here| |by rewrite Hd].
    intros x j. by rewrite (notify_of_contents _ _ _ (Hc x)).
  - rewrite Hm, Hs, (in_state_ext _ (waiters m)); [done|]. intros x _. by apply state_of_contents.
Qed.

(** The end of the list. *)
Lemma step_walk_end n l f : p = CsWalk n l None f -> stepped (private_cond_signal_step i m p).
Proof using Hsim here.
  intros Hp. pose proof here_waiter as Hw. pose proof here_signal as Hs. rewrite Hp in Hw, Hs |- *.
  destruct Hs as (Hc & Hh & Hf & Hr). destruct (seg g Main) eqn:Hm; [|done].
  destruct (sim_lists _ _ _ Hsim) as [H1 H2 H3 H4 H5 H6 H7 H8]. unfold front in H3. cbn in H3, H6.
  rewrite Hc, Hm, app_nil_r in H3. apply stepped_ret, sim_relinked; try done.
  - constructor; unfold front; cbn; try rewrite Hm; try done; [apply linked_nil|].
    intros j _. destruct (decide (j = i)) as [->|]; [done|]. apply H6. congruence.
  - cbn. intros x Hx. rewrite Hc. split; congruence.
  - by rewrite Hp.
  - intros ap. rewrite Hp. intros ->. eexists. split; [done|]. left. apply MoveSignalled. right. by rewrite Hm.
Qed.

Section Walk.
Context (n : Z) (l : L) (q : nat) (rest : list nat) (f : option nat).
Hypothesis walking : p = CsWalk n l (Some q) f.

Lemma walk_facts : c_lock (cond m) = Some i /\ head (seg g Main) = Some q /\
  f = head (in_state SIGNALED (waiters m) (seg g (Det i))) /\
  refs m !! i = Some (Z.of_nat (size (debt g i))) /\ waiters m !! i = None.
Proof using Hsim here walking.
  pose proof here_waiter as Hw. pose proof here_signal as Hs. rewrite walking in Hw, Hs.
  destruct Hs as (? & ? & ? & ?). auto.
Qed.

(** The waiter that is passed. *)
Lemma walk_waiter : exists w rest, seg g Main = q :: rest /\ waiters m !! q = Some w /\ w_prev w = head rest /\
  node_ok Main false w /\ q <> i /\ (forall k, q ∈ seg g k -> k = Main).
Proof using Hsim here walking.
  destruct walk_facts as (Hc & Hh & _ & _ & Hi). destruct (seg g Main) as [|q' rest0] eqn:Hm; [done|].
  injection Hh as ->. pose proof (sim_lists _ _ _ Hsim) as Hl.
  assert (Hq : q ∈ seg g Main) by (rewrite Hm; by left).
  destruct (sim_nodes _ _ _ Hsim _ _ Hq) as (w & Hw & Hok). exists w, rest0. split; [done|]. split; [done|].
  split; [|split; [done|split]].
  - pose proof (lo_front _ _ Hl) as Hf. unfold front in Hf. cbn in Hf. rewrite Hc, Hm in Hf.
    destruct (Hf _ _ _ eq_refl) as (w' & Hw' & Hp & _). cbn in Hw, Hw'. congruence.
  - intros ->. cbn in Hw. congruence.
  - intros k Hk. by apply (lo_disjoint _ _ Hl _ _ _ Hk).
Qed.

Lemma pass_nodes g' m' rest0 w' : seg g Main = q :: rest0 -> seg g' = pass i q rest0 g ->
  waiters m' = <[q := w']> (waiters m) -> node_ok (Det i) false w' -> nodes_ok g' m'.
Proof using Hsim.
  intros Hm Hg Hws Hok. apply (nodes_update g _ m); [apply Hsim|]. intros k x. rewrite Hg, Hws.
  destruct (decide (x = q)) as [->|Hne].
  - intros Hk. right. exists w'. split; [apply lookup_insert_eq|].
    by apply (pass_where g m) in Hk as [[? _]|[_ ->]]; [| |apply Hsim|].
  - intros Hk. left. split; [by apply pass_elem in Hk as [?|[? _]]|].
    rewrite lookup_insert_ne by done. split; [done|]. destruct k; [done|done|].
    by rewrite pass_other.
Qed.

Lemma step_walk_signal w : n <> 0 -> waiters m !! q = Some w -> w_state w = WAITING ->
  stepped (private_cond_signal_step i m p).
Proof using Hsim here walking.
  intros Hn Hw Hst. destruct walk_facts as (Hc & _ & Hf & Hr & Hi).
  destruct walk_waiter as (w' & rest0 & Hm & Hw' & Hp & Hok & Hqi & Hqk). rewrite Hw in Hw'. injection Hw' as <-.
  rewrite walking. cbn [private_cond_signal_step cond_walk]. rewrite (proj2 (Z.eqb_neq _ _) Hn), Hw.
  cbn [get mbind outcome_bind]. rewrite Hst. apply stepped_ret.
  set (g' := Ghost (pass i q rest0 g) (debt g)).
  apply (sim_move g').
  - apply (lists_pass _ _ i q rest0); [by eapply touch_lists|done|done].
  - by apply (pass_nodes g' _ rest0 (set_state SIGNALED w)); [| | |split; [apply Hok|by left]].
  - cbn. by rewrite lookup_insert_ne.
  - intros x Hx. destruct (decide (x = q)) as [->|Hxq].
    + apply (waiter_signalled g _ m _ _ w); [apply (sim_waiters _ _ _ Hsim)|done|done| |done|by apply pass_owned].
      apply lookup_insert_eq.
    + eapply waiter_same; [apply (sim_waiters _ _ _ Hsim)| |by apply pass_owned|done].
      cbn. by rewrite lookup_insert_ne.
  - split; [done|]. cbn [seg debt waiters set_waiters refs g'].
    rewrite pass_main, pass_det, Hp, in_state_app, in_state_one, lookup_insert_eq.
    rewrite (in_state_ext _ (waiters m) (<[q := _]> _))
      by (intros x Hx; rewrite lookup_insert_ne; [done|]; intros <-; by apply Hqk in Hx).
    rewrite decide_True by done. rewrite head_app, <- Hf. split; [done|]. split; [|done].
    by destruct f.
  - intros x Hx. eapply signal_same; [apply (sim_signals _ _ _ Hsim)|done| | | |done|done].
    + cbn. apply pass_other; [done|congruence].
    + cbn. rewrite Hc. congruence.
    + intros y Hy. cbn. rewrite lookup_insert_ne; [done|]. intros <-. by apply Hqk in Hy.
  - eapply touch_debt; [exact Hw|done|by rewrite walking].
  - intros ap. rewrite walking. intros ->. eexists. split; [done|]. left. cbn [waiters set_waiters mutex shared seg g'].
    pose proof (lo_nodup _ _ (sim_lists _ _ _ Hsim) Main) as Hnd. rewrite Hm in Hnd.
    apply NoDup_cons in Hnd as [Hq _].
    rewrite Hm, pass_main. change (q :: rest0) with ([q] ++ rest0). rewrite in_state_app, in_state_one, Hw. cbn.
    rewrite decide_True by by rewrite Hst. rewrite (in_state_ext _ (waiters m) (<[q := _]> _)); [by apply MoveWake|].
    intros x Hx. rewrite lookup_insert_ne; [done|]. by intros <-.
Qed.

Lemma step_walk_leaving w : n <> 0 -> waiters m !! q = Some w -> w_state w = LEAVING ->
  stepped (private_cond_signal_step i m p).
Proof using Hsim here walking.
  intros Hn Hw Hst. destruct walk_facts as (Hc & _ & Hf & Hr & Hi).
  destruct walk_waiter as (w' & rest0 & Hm & Hw' & Hp & Hok & Hqi & Hqk). rewrite Hw in Hw'. injection Hw' as <-.
  rewrite walking. cbn [private_cond_signal_step cond_walk]. rewrite (proj2 (Z.eqb_neq _ _) Hn), Hw.
  cbn [get mbind outcome_bind]. rewrite Hst. unfold modify_ref. rewrite Hr. cbn [get mbind outcome_bind].
  apply stepped_ret.
  assert (Hqd : forall j, q ∉ debt g j).
  { intros j [E _]%(sim_debt _ _ _ Hsim). cbn in E. rewrite Hw in E. destruct Hok as (_ & _ & Hno).
    cbn in E. congruence. }
  destruct (leaving_place _ _ _ _ _ (sim_waiters _ _ _ Hsim q) Hw Hst) as (k & e & Hpq);
    [exists Main; rewrite Hm; by left|]. cbn in Hpq.
  set (w' := set_notify (Some i) w).
  set (g' := Ghost (pass i q rest0 g) (<[i := {[q]} ∪ debt g i]> (debt g))).
  apply (sim_move g').
  - apply (lists_pass _ _ i q rest0); [|done|done].
    eapply lists_same; [eapply touch_lists; [exact Hw|]|done|]; [by instantiate (1 := w')|done].
  - apply (pass_nodes g' _ rest0 w'); [done|done|done|]. split; [apply Hok|]. right. by rewrite <- Hst.
  - cbn. by rewrite lookup_insert_ne.
  - intros x Hx. destruct (decide (x = q)) as [->|Hxq].
    + rewrite Hpq. split; [apply pass_owned; [done|]; exists Main; rewrite Hm; by left|].
      exists w'. split; [apply lookup_insert_eq|done].
    + eapply waiter_same; [apply (sim_waiters _ _ _ Hsim)| |by apply pass_owned|done].
      cbn. by rewrite lookup_insert_ne.
  - split; [done|]. cbn [seg debt waiters set_waiters refs set_refs g'].
    rewrite pass_main, pass_det, Hp, in_state_app, in_state_one, !lookup_insert_eq, fn_lookup_insert.
    rewrite (in_state_ext _ (waiters m) (<[q := _]> _))
      by (intros x Hx; rewrite lookup_insert_ne; [done|]; intros <-; by apply Hqk in Hx).
    rewrite decide_False by (cbn; by rewrite Hst). rewrite app_nil_r. split; [done|]. split; [done|]. do 2 f_equal.
    rewrite size_union, size_singleton by (specialize (Hqd i); set_solver). lia.
  - intros x Hx. eapply signal_same; [apply (sim_signals _ _ _ Hsim)|done| | | | |].
    + cbn. apply pass_other; [done|congruence].
    + cbn. rewrite Hc. congruence.
    + intros y Hy. cbn. rewrite lookup_insert_ne; [done|]. intros <-. by apply Hqk in Hy.
    + by apply fn_lookup_insert_ne.
    + by apply lookup_insert_ne.
  - intros x y. pose proof (sim_debt _ _ _ Hsim x y) as Hxy. cbn in Hxy. cbn [debt g' waiters set_waiters set_refs].
    assert (Hps : in_debt (<[i := CsWalk n l (w_prev w) f]> ps !! x) <-> in_debt (ps !! x)).
    { destruct (decide (x = i)) as [->|]; [|by rewrite list_lookup_insert_ne].
      by rewrite list_lookup_insert_eq, here, walking by (by eapply lookup_lt_Some). }
    rewrite Hps. destruct (decide (x = q)) as [->|Hxq].
    + rewrite lookup_insert_eq, Hpq. cbn. destruct (decide (y = i)) as [->|Hy].
      * rewrite fn_lookup_insert. set_solver.
      * rewrite fn_lookup_insert_ne by done. specialize (Hqd y). split; [done|]. intros [[= ->] _]. done.
    + rewrite lookup_insert_ne by done. rewrite <- Hxy. destruct (decide (y = i)) as [->|Hy].
      * rewrite fn_lookup_insert. set_solver.
      * by rewrite fn_lookup_insert_ne.
  - intros ap. rewrite walking. intros ->. eexists. split; [done|]. right.
    cbn [waiters set_waiters mutex shared set_refs seg g']. split; [done|]. split; [|done].
    pose proof (lo_nodup _ _ (sim_lists _ _ _ Hsim) Main) as Hnd. rewrite Hm in Hnd.
    apply NoDup_cons in Hnd as [Hq _].
    rewrite Hm, pass_main. change (q :: rest0) with ([q] ++ rest0). rewrite in_state_app, in_state_one, Hw. cbn.
    rewrite decide_False by by rewrite Hst. apply in_state_ext.
    intros x Hx. rewrite lookup_insert_ne; [done|]. by intros <-.
Qed.

Lemma cut_lists l2 rest0 : l2 = q :: rest0 -> seg g Main = l2 -> c_lock (cond m) = Some i ->
  lists_ok g (set_cond (PCond None (c_head (cond m)) (Some q)) (set_waiters (cut (seg g (Det i)) q (waiters m)) m)).
Proof using Hsim.
  intros -> Hm Hc. destruct (sim_lists _ _ _ Hsim) as [H1 H2 H3 H4 H5 H6 H7 H8]. unfold front in H3, H4, H5.
  cbn in H3, H4, H5, H6, H7. rewrite Hc, Hm in H3, H4, H5.
  assert (Hnd : NoDup (seg g (Det i) ++ q :: rest0)).
  { rewrite <- Hm. apply NoDup_app. split; [done|]. split; [|done]. intros x Hx Hx'.
    by discriminate (H2 _ _ _ Hx Hx'). }
  destruct (linked_cut _ _ _ _ H3 Hnd) as [Hl1 Hl2].
  assert (Hout : forall k x, k <> Main -> k <> Det i -> x ∈ seg g k -> x ∉ seg g (Det i) ++ [q]).
  { intros k x Hk Hk' Hx. apply not_elem_of_app. split; [intros Hx'; by apply Hk', (H2 _ _ x)|].
    intros ->%list_elem_of_singleton. apply Hk, (H2 _ _ q); [done|]. rewrite Hm. by left. }
  constructor; unfold front; cbn; try rewrite Hm; try done.
  - by rewrite H4, last_app_cons, last_cons.
  - intros j _. destruct (decide (j = i)) as [->|Hj]; [done|].
    eapply linked_ext; [apply H6; congruence|]. intros x Hx. apply cut_links. apply (Hout (Det j)); [done|congruence|done].
  - intros n'. eapply chained_ext; [apply H7|]. intros x Hx. by apply prev_of_links, cut_links, (Hout (Chain n')).
Qed.

Lemma step_walk_split : n = 0 -> stepped (private_cond_signal_step i m p).
Proof using Hsim here walking.
  intros Hn0. destruct walk_facts as (Hc & _ & Hf & Hr & Hi).
  destruct walk_waiter as (w & rest0 & Hm & Hw & Hp & Hok & Hqi & Hqk).
  rewrite walking. cbn [private_cond_signal_step cond_walk].
  rewrite (proj2 (Z.eqb_eq _ _) Hn0), Hw. cbn [get mbind outcome_bind].
  pose proof (lo_front _ _ (sim_lists _ _ _ Hsim)) as Hl. unfold front in Hl. cbn in Hl. rewrite Hc, Hm in Hl.
  destruct (Hl _ _ _ eq_refl) as (w' & Hw' & _ & Hn). rewrite Hw in Hw'. injection Hw' as <-. rewrite Hn.
  assert (E : (ws ← (match last (seg g (Det i)) with
      | Some r => modify r (set_prev None) (waiters m) | None => Ret (waiters m) end);
    ws ← modify q (set_next None) ws;
    Ret (set_cond (PCond None (c_head (cond m)) (Some q)) (set_waiters ws m), CsRef l f))
    = Ret (set_cond (PCond None (c_head (cond m)) (Some q)) (set_waiters (cut (seg g (Det i)) q (waiters m)) m), CsRef l f)).
  { unfold cut. destruct (last (seg g (Det i))) as [r|] eqn:Er.
    - apply last_elem in Er. rewrite modify_alter by (apply (linked_live _ _ _ Hl); set_solver).
      cbn [mbind outcome_bind]. by rewrite modify_alter by (apply alter_live; by eexists).
    - cbn [mbind outcome_bind]. by rewrite modify_alter by by eexists. }
  rewrite E. apply stepped_ret, sim_relinked; try done.
  - by eapply cut_lists.
  - intros x. apply cut_contents.
  - cbn. intros x Hx. rewrite Hc. split; congruence.
  - pose proof (cut_contents (seg g (Det i)) q (waiters m) i) as Hci. rewrite Hi in Hci. cbn.
    by destruct (cut _ _ _ !! i).
  - split; [done|]. split; [|done]. cbn. rewrite (in_state_ext _ (waiters m)); [done|].
    intros x _. apply state_of_contents, cut_contents.
  - by rewrite walking.
  - intros ap. rewrite walking. intros ->. eexists. split; [done|]. left. apply MoveSignalled. by left.
Qed.

End Walk.

(** Everyone on a list that may go was signalled. *)
Lemma det_signalled x : debt g i = ∅ -> x ∈ seg g (Det i) ->
  exists w, waiters m !! x = Some w /\ w_state w = SIGNALED /\ w_barrier w = 2.
Proof using Hsim.
  intros Hd Hx. destruct (sim_nodes _ _ _ Hsim _ _ Hx) as (w & Hw & Hb & Hst). cbn in Hw.
  exists w. split; [done|]. destruct Hst as [|[Hst Hn]]; [done|]. exfalso.
  destruct (leaving_place _ _ _ _ _ (sim_waiters _ _ _ Hsim x) Hw Hst) as (k & e & Hp); [by exists (Det i)|].
  assert (Hxd : x ∈ debt g i); [|rewrite Hd in Hxd; by apply not_elem_of_empty in Hxd].
  apply (sim_debt _ _ _ Hsim). cbn in Hp |- *. rewrite Hw, Hp. cbn. by rewrite Hn.
Qed.

Lemma first_signalled : debt g i = ∅ -> head (in_state SIGNALED (waiters m) (seg g (Det i))) = head (seg g (Det i)).
Proof using Hsim.
  intros Hd. destruct (seg g (Det i)) as [|x l] eqn:E; [done|].
  destruct (det_signalled x Hd) as (w & Hw & Hst & _); [rewrite E; by left|].
  change (x :: l) with ([x] ++ l). rewrite in_state_app, in_state_one, Hw. cbn. by rewrite Hst.
Qed.

Lemma release_nodes x tl n w m' : debt g i = ∅ -> seg g (Det i) = x :: tl -> last (x :: tl) = Some n ->
  waiters m !! x = Some w -> w_state w = SIGNALED -> waiters m' = <[x := set_barrier 0 w]> (waiters m) ->
  nodes_ok (Ghost (let_go i n g) (debt g)) m'.
Proof using Hsim.
  intros Hd Hdet Hn Hw Hst Hws. pose proof (sim_lists _ _ _ Hsim) as Hl.
  assert (Hx : x ∈ seg g (Det i)) by (rewrite Hdet; by left).
  apply (nodes_update g _ m); [apply Hsim|]. cbn [seg]. rewrite Hws. intros k y Hy.
  apply (let_go_where g m) in Hy as [[Hy ->]|[Hy Ek]]; [| |exact Hl|by rewrite Hdet].
  - right. assert (Hchain : let_go i n g (Chain n) = x :: tl)
      by (unfold let_go; by rewrite fn_lookup_insert_ne, fn_lookup_insert by done).
    rewrite Hchain. cbn [head]. destruct (decide (y = x)) as [->|Hne].
    + exists (set_barrier 0 w). split; [apply lookup_insert_eq|]. rewrite bool_decide_true by done. by split; [|left].
    + destruct (det_signalled y Hd Hy) as (w' & Hw' & Hst' & Hb'). exists w'.
      split; [by rewrite lookup_insert_ne|]. by rewrite bool_decide_false by congruence.
  - left. rewrite Ek. assert (Hne : y <> x).
    { intros ->. rewrite (lo_disjoint _ _ Hl _ _ _ Hy Hx), Hdet in Ek. unfold let_go in Ek.
      by rewrite fn_lookup_insert in Ek. }
    split; [done|]. rewrite lookup_insert_ne by done. by destruct k.
Qed.

Lemma step_release_nobody l : p = CsRelease l None -> seg g (Det i) = [] ->
  stepped (private_cond_signal_step i m p).
Proof using Hsim here.
  intros Hp Hdet. pose proof here_waiter as Hw. pose proof here_signal as Hs. rewrite Hp in Hw, Hs |- *.
  destruct Hs as (Hc & _ & Hd). apply stepped_ret, (sim_move g); try done.
  - eapply lists_same; [apply Hsim|done|done].
  - exact (sim_nodes _ _ _ Hsim).
  - intros y Hy. eapply waiter_same; [apply (sim_waiters _ _ _ Hsim)|done|done|done].
  - intros y Hy. eapply signal_same; [apply (sim_signals _ _ _ Hsim)|done|done|done|done|done|by apply lookup_delete_ne].
  - eapply debt_same; [apply (sim_debt _ _ _ Hsim)|exact here|done|by rewrite Hp].
  - intros ap. rewrite Hp. intros ->. eexists. split; [done|]. left. apply MoveReturn.
Qed.

Lemma step_release l f : p = CsRelease l f -> stepped (private_cond_signal_step i m p).
Proof using Hsim here.
  intros Hp. pose proof here_waiter as Hw. pose proof here_signal as Hs. rewrite Hp in Hw, Hs |- *.
  destruct Hs as (Hc & Hf & Hd). rewrite first_signalled in Hf by done. cbn [private_cond_signal_step].
  pose proof (sim_lists _ _ _ Hsim) as Hl.
  destruct (seg g (Det i)) as [|x tl] eqn:Hdet; cbn in Hf; subst f.
  - pose proof (step_release_nobody l Hp Hdet) as Hr. by rewrite Hp in Hr.
  - destruct (det_signalled x Hd) as (w & Hwx & Hst & Hb); [rewrite Hdet; by left|].
    destruct (last (x :: tl)) as [n|] eqn:Hn; [|by apply last_None in Hn].
    unfold modify. rewrite Hwx. cbn [get mbind outcome_bind].
    set (g' := Ghost (let_go i n g) (debt g)). apply stepped_ret, (sim_move g').
    + apply lists_let_go; [|done|by rewrite Hdet]. eapply lists_same; [by eapply (touch_lists x w (set_barrier 0 w))|done|done].
    + by eapply release_nodes.
    + cbn. rewrite lookup_insert_ne; [done|]. intros ->. cbn in Hw. congruence.
    + intros y Hy. destruct (decide (y = x)) as [->|Hyx].
      * eapply waiter_released; [apply (sim_waiters _ _ _ Hsim)|done|done|apply lookup_insert_eq|done|].
        apply (let_go_owned g m); [done|by rewrite Hdet].
      * eapply waiter_same; [apply (sim_waiters _ _ _ Hsim)|cbn; by rewrite lookup_insert_ne| |done].
        apply (let_go_owned g m); [done|by rewrite Hdet].
    + split; [done|]. split; [|done]. apply fn_lookup_insert.
    + intros y Hy. eapply signal_same; [apply (sim_signals _ _ _ Hsim)|done| |done| |done|by apply lookup_delete_ne].
      * cbn. unfold let_go. by rewrite !fn_lookup_insert_ne by congruence.
      * intros z Hz. cbn. rewrite lookup_insert_ne; [done|]. intros <-. cbn in Hwx.
        assert (Hx : x ∈ seg g (Det i)) by (rewrite Hdet; by left).
        pose proof (lo_disjoint _ _ Hl _ _ _ Hx Hz). congruence.
    + eapply touch_debt; [exact Hwx|done|by rewrite Hp].
    + cbn [seg g' waiters set_waiters set_refs mutex shared].
      replace (let_go i n g Main) with (seg g Main) by (unfold let_go; by rewrite !fn_lookup_insert_ne by done).
      rewrite (in_state_ext _ (waiters m)).
      * intros ap. rewrite Hp. intros ->. eexists. split; [done|]. left. apply MoveReturn.
      * intros z Hz. rewrite lookup_insert_ne; [done|]. intros <-.
        assert (Hx : x ∈ seg g (Det i)) by (rewrite Hdet; by left).
        pose proof (lo_disjoint _ _ Hl _ _ _ Hx Hz). congruence.
Qed.

(** *** The way back of a signalled thread *)

(** A thread past its barrier is the first of its list. *)
Lemma past_barrier w : owned g i -> waiters m !! i = Some w -> w_barrier w = 1 ->
  exists n tl, seg g (Chain n) = i :: tl /\ w_prev w = head tl.
Proof using Hsim.
  intros [k Hk] Hw Hb. pose proof (owned_node _ _ Hk Hw) as Hok. destruct k as [|j|n]; cbn in Hok; [lia|lia|].
  case_bool_decide as Hh; [|lia]. destruct (seg g (Chain n)) as [|x tl] eqn:E; [done|]. injection Hh as ->.
  exists n, tl. split; [done|]. pose proof (lo_chain _ _ (sim_lists _ _ _ Hsim) n) as Hc.
  rewrite E in Hc. destruct (Hc [] i tl eq_refl) as (w' & Hw' & Hp). cbn in Hw'. congruence.
Qed.

(** The waiters once thread [i] has returned. *)
Definition popped (tl : list nat) (ws : gmap nat waiter) : gmap nat waiter :=
  delete i (match head tl with Some q => alter (set_barrier 0) q ws | None => ws end).

Lemma popped_links tl x : x <> i -> links <$> popped tl (waiters m) !! x = links <$> waiters m !! x.
Proof.
  intros Hx. unfold popped. rewrite lookup_delete_ne by done. destruct (head tl) as [q|]; [|done].
  destruct (decide (x = q)) as [->|]; [|by rewrite lookup_alter_ne].
  rewrite lookup_alter_eq. by destruct (waiters m !! q).
Qed.

Lemma popped_contents tl x : x <> i -> head tl <> Some x ->
  contents <$> popped tl (waiters m) !! x = contents <$> waiters m !! x.
Proof.
  intros Hx Hh. unfold popped. rewrite lookup_delete_ne by done. destruct (head tl) as [q|]; [|done].
  by rewrite lookup_alter_ne by congruence.
Qed.

Lemma popped_state tl x : x <> i -> w_state <$> popped tl (waiters m) !! x = w_state <$> waiters m !! x /\
  w_notify <$> popped tl (waiters m) !! x = w_notify <$> waiters m !! x.
Proof.
  intros Hx. unfold popped. rewrite lookup_delete_ne by done. destruct (head tl) as [q|]; [|done].
  destruct (decide (x = q)) as [->|]; [|by rewrite lookup_alter_ne].
  rewrite lookup_alter_eq. by destruct (waiters m !! q).
Qed.

Section Pop.
Context (n : nat) (tl : list nat).
Hypothesis mine : seg g (Chain n) = i :: tl.

Lemma next_waiter x : head tl = Some x -> exists w, waiters m !! x = Some w /\ w_state w = SIGNALED /\
  w_barrier w = 2 /\ x <> i.
Proof using Hsim mine.
  intros Hx. pose proof (lo_nodup _ _ (sim_lists _ _ _ Hsim) (Chain n)) as Hnd. rewrite mine in Hnd.
  apply NoDup_cons in Hnd as [Hi _]. apply head_elem in Hx.
  assert (Hne : x <> i) by by intros ->.
  destruct (sim_nodes _ _ _ Hsim (Chain n) x) as (w & Hw & Hst & Hb); [rewrite mine; by right|].
  rewrite mine, bool_decide_false in Hb by (cbn; congruence). by exists w.
Qed.

Lemma pop_nodes g' m' : seg g' = <[Chain n := tl]> (seg g) -> waiters m' = popped tl (waiters m) -> nodes_ok g' m'.
Proof using Hsim mine.
  intros Hg Hws. pose proof (sim_lists _ _ _ Hsim) as Hl.
  assert (Hi : i ∈ seg g (Chain n)) by (rewrite mine; by left).
  apply (nodes_update g _ m); [apply Hsim|]. rewrite Hg, Hws. intros k x Hx.
  destruct (decide (k = Chain n)) as [->|Hk].
  - rewrite fn_lookup_insert in Hx |- *. destruct (decide (head tl = Some x)) as [Hh|Hh].
    + right. destruct (next_waiter x Hh) as (w & Hw & Hst & Hb & Hne). exists (set_barrier 0 w).
      unfold popped. rewrite Hh, lookup_delete_ne, lookup_alter_eq, Hw by done. split; [done|].
      rewrite bool_decide_true by done. by split; [|left].
    + left. pose proof (lo_nodup _ _ Hl (Chain n)) as Hnd. rewrite mine in Hnd |- *.
      apply NoDup_cons in Hnd as [Hni _]. assert (Hne : x <> i) by by intros ->.
      split; [by right|]. split; [by apply popped_contents|]. split; [done|]. cbn. congruence.
  - rewrite fn_lookup_insert_ne in Hx |- * by done. left. split; [done|].
    split; [|by destruct k]. apply popped_contents.
    + intros ->. by apply Hk, (lo_disjoint _ _ Hl _ _ i).
    + intros Hh%head_elem. apply Hk, (lo_disjoint _ _ Hl _ _ x); [done|]. rewrite mine. by right.
Qed.

Lemma pop_owned d x : x <> i -> owned (Ghost (<[Chain n := tl]> (seg g)) d) x <-> owned g x.
Proof using mine prog L S.
  intros Hx. unfold owned. cbn [seg]. split; intros [k Hk]; exists k; destruct (decide (k = Chain n)) as [->|];
    rewrite ?fn_lookup_insert, ?fn_lookup_insert_ne in * by done; try done; rewrite mine in *; [by right|].
  apply elem_of_cons in Hk. naive_solver.
Qed.

Lemma pop_simulated k e m' : p = CwNext k e -> cond m' = cond m -> waiters m' = popped tl (waiters m) ->
  refs m' = refs m -> mutex m' = mutex m -> shared m' = shared m -> simulated m' (Client (k (returns e))).
Proof using Hsim here mine.
  intros Hp Hc Hws Hr Hm Hs. pose proof here_waiter as Hw. pose proof here_signal as Hsg. rewrite Hp in Hw, Hsg.
  pose proof (sim_lists _ _ _ Hsim) as Hl.
  assert (Hother : forall k' x, k' <> Chain n -> x ∈ seg g k' -> x <> i).
  { intros k' x Hk' Hx ->. apply Hk', (lo_disjoint _ _ Hl _ _ i); [done|]. rewrite mine. by left. }
  apply (sim_move (Ghost (<[Chain n := tl]> (seg g)) (debt g))).
  - eapply (lists_pop g m _ n i); [done|done|done|]. intros x Hx. rewrite Hws. by apply popped_links.
  - by apply pop_nodes.
  - cbn. rewrite Hws. apply lookup_delete_eq.
  - intros x Hx. destruct (decide (head tl = Some x)) as [Hh|Hh].
    + destruct (next_waiter x Hh) as (w & Hwx & Hst & Hb & Hne).
      apply (waiter_released g _ m _ _ w); [apply (sim_waiters _ _ _ Hsim)|done|done| |by rewrite Hm|by apply pop_owned].
      rewrite Hws. unfold popped. by rewrite Hh, lookup_delete_ne, lookup_alter_eq, Hwx by done.
    + eapply waiter_same; [apply (sim_waiters _ _ _ Hsim)| |by apply pop_owned|by rewrite Hm].
      rewrite Hws. by apply popped_contents.
  - cbn in Hsg |- *. by rewrite Hc, fn_lookup_insert_ne.
  - intros x Hx. eapply signal_same; [apply (sim_signals _ _ _ Hsim)|by rewrite Hc|done|done| |done|by rewrite Hr].
    intros y Hy. rewrite Hws. by apply popped_state, (Hother (Det x)).
  - intros x y. pose proof (sim_debt _ _ _ Hsim x y) as Hxy. cbn in Hxy. cbn [debt]. rewrite Hxy, Hws.
    destruct (decide (x = i)) as [->|Hx].
    + rewrite here, list_lookup_insert_eq, Hp by (by eapply lookup_lt_Some). cbn. tauto.
    + rewrite list_lookup_insert_ne by done. by rewrite (proj2 (popped_state tl x Hx)).
  - cbn [seg]. rewrite fn_lookup_insert_ne by done. rewrite (in_state_ext _ (waiters m)).
    + intros ap. rewrite Hp. intros ->. eexists. split; [done|]. by right.
    + intros x Hx. rewrite Hws. by apply popped_state, (Hother Main).
Qed.

End Pop.

Lemma step_next k e ev : p = CwNext k e -> stepped (cond_timedwait_step i ev m p).
Proof using Hsim here.
  intros Hp. pose proof here_waiter as Hw. rewrite Hp in Hw |- *.
  destruct Hw as (Ho & (w & Hi & Hst & Hb) & Hmu). destruct (past_barrier w Ho Hi Hb) as (n & tl & Hn & Hpv).
  cbn [cond_timedwait_step]. rewrite Hi. cbn [get mbind outcome_bind]. rewrite Hpv.
  set (m1 := match w_next w with None => add_mutex_waiters 1 m | Some _ => m end).
  assert (E1 : cond m1 = cond m /\ waiters m1 = waiters m /\ refs m1 = refs m /\ mutex m1 = mutex m /\
    shared m1 = shared m) by (unfold m1; by destruct (w_next w)).
  destruct E1 as (E1 & E2 & E3 & E4 & E5). destruct (head tl) as [q|] eqn:Hh.
  - destruct (next_waiter n tl Hn q Hh) as (wq & Hq & _).
    rewrite E2, modify_alter by by eexists. cbn [mbind outcome_bind cond_return].
    apply stepped_ret, (pop_simulated n tl Hn); try done. unfold popped. by rewrite Hh.
  - cbn [mbind outcome_bind cond_return]. apply stepped_ret, (pop_simulated n tl Hn); try done.
    unfold popped. cbn. by rewrite Hh, E2.
Qed.

Lemma step_remove k e ev : p = CwRemove k e -> stepped (cond_timedwait_step i ev m p).
Proof using Hsim here.
  intros Hp. pose proof here_waiter as Hw. pose proof here_signal as Hs. rewrite Hp in Hw, Hs |- *.
  destruct Hw as ([k0 Hk] & w & Hi & Hst). cbn [cond_timedwait_step].
  destruct (c_lock (cond m)) eqn:Hc; [rewrite <- Hp; apply stepped_ret, stays|].
  pose proof (sim_lists _ _ _ Hsim) as Hl. cbn in Hl.
  assert (Hch : forall n, k0 <> Chain n).
  { intros n ->. pose proof (owned_node _ _ Hk Hi) as [Hx _]. congruence. }
  destruct (list_elem_of_split _ _ Hk) as (l1 & l2 & E).
  rewrite (cond_remove_removes g m k0 l1 i l2) by done. cbn [mbind outcome_bind].
  assert (Hstate : forall s, s <> LEAVING -> w_state <$> waiters m !! i <> Some s).
  { intros s Hne. rewrite Hi. cbn. congruence. }
  set (g' := Ghost (removed g k0 l1 l2) (debt g)). apply stepped_ret, (sim_move g').
  - by apply (removed_lists _ _ _ _ i).
  - apply (nodes_update g _ m); [apply Hsim|]. intros k' x [Hx _]%(removed_elem g m k0 l1 i l2 Hl E Hc Hch). left.
    split; [done|]. split; [apply relink_contents|]. destruct k'; [done|done|].
    cbn [seg g']. unfold removed. by rewrite fn_lookup_insert_ne.
  - split; [by intros [k' [_ Hne]%(removed_elem g m k0 l1 i l2 Hl E Hc Hch)]|].
    pose proof (relink_contents l1 l2 (waiters m) i) as Hci. rewrite Hi in Hci.
    apply contents_some in Hci as (w' & Hw' & [= Ew _ _]). exists w'. split; [done|]. by rewrite Ew.
  - intros x Hx. eapply waiter_same; [apply (sim_waiters _ _ _ Hsim)|apply relink_contents| |done].
    by apply (removed_owned g m k0 l1 i l2).
  - split; [done|]. split; [|apply Hs]. destruct Hs as (_ & Hd & _). cbn [seg g']. unfold removed.
    destruct (decide (Det i = k0)) as [<-|]; [|by rewrite fn_lookup_insert_ne].
    rewrite Hd in Hk. by inversion Hk.
  - intros x Hx. pose proof (sim_signals _ _ _ Hsim x) as Hsx. cbn in Hsx.
    pose proof (removed_in_state g m k0 l1 i l2 Hl E Hc Hch SIGNALED (Det x) ltac:(by apply Hstate)) as Hin.
    assert (Hnil : seg g (Det x) = [] -> removed g k0 l1 l2 (Det x) = []).
    { intros Hd. unfold removed. destruct (decide (Det x = k0)) as [<-|]; [|by rewrite fn_lookup_insert_ne].
      rewrite Hd in Hk. by inversion Hk. }
    unfold signal_ok in Hsx |- *. cbn [seg debt g' refs set_cond set_waiters cond c_lock].
    cbn [waiters set_cond set_waiters] in Hin |- *. rewrite Hin, Hc in *.
    destruct (ps !! x) as [[]|]; try (split; [done|]; naive_solver); by destruct Hsx.
  - eapply debt_same; [apply (sim_debt _ _ _ Hsim)|exact here| |by rewrite Hp].
    intros x j. cbn [waiters set_cond set_waiters]. by rewrite (notify_of_contents _ _ _ (relink_contents l1 l2 (waiters m) x)).
  - intros ap. rewrite Hp. intros ->. eexists. split; [done|]. right. split; [done|]. split; [|done].
    apply (removed_in_state g m k0 l1 i l2 Hl E Hc Hch). by apply Hstate.
Qed.

Lemma step_relock_any k e old ev : p = CwRelock k e old -> stepped (cond_timedwait_step i ev m p).
Proof using Hsim here.
  intros Hp. destruct (decide (old = WAITING)) as [E|]; [|by eapply step_relock].
  eapply step_relock_waiting. by rewrite Hp, E.
Qed.

Lemma step_walk n l q f : p = CsWalk n l q f -> stepped (private_cond_signal_step i m p).
Proof using Hsim here.
  intros Hp. destruct q as [q|]; [|by eapply step_walk_end].
  destruct (decide (n = 0)) as [Hn|Hn]; [by eapply step_walk_split|].
  destruct (walk_waiter n l q f Hp) as (w & rest & _ & Hw & _ & Hok & _).
  destruct (w_state w) eqn:Hst.
  - by eapply step_walk_signal.
  - by destruct Hok.
  - by eapply step_walk_leaving.
Qed.

Lemma place_stepped ev : stepped (place_step prog i ev m p).
Proof using Hsim here.
  enough (Hall : forall q, p = q -> stepped (place_step prog i ev m q)) by by apply Hall.
  intros q Hp. unfold place_step. destruct q; rewrite <- Hp.
  - by apply step_client.
  - by eapply step_enter.
  - by eapply step_unlock.
  - by eapply step_wait.
  - by eapply step_test.
  - by eapply step_cas.
  - by eapply step_remove.
  - by eapply step_notify.
  - by eapply step_barrier.
  - by eapply step_relock_any.
  - by eapply step_next.
  - by eapply step_lock.
  - by eapply step_walk.
  - by eapply step_ref.
  - by eapply step_release.
Qed.

End Step.

(** *** The system *)

Section System.
Context (prog : nat -> L -> action S L).

Lemma system_stepped g st a e : sim g st a ->
  exists st' g' a', system_step prog st e = Ret st' /\ asteps prog a a' /\ sim g' st' a'.
Proof.
  intros Hs. unfold system_step. destruct (places st !! e.1) as [p|] eqn:Hp.
  - destruct st as [m ps]. destruct (place_stepped prog g m ps a Hs e.1 p Hp e.2) as (m' & p' & E & g' & a' & Ha & Hs').
    cbn [mem places]. rewrite E. cbn [mbind outcome_bind]. by eexists _, g', a'.
  - exists st, g, a. split; [done|]. split; [apply rtc_refl|done].
Qed.

Lemma system_run sched : forall g st a, sim g st a ->
  exists st' g' a', run_system prog sched st = Ret st' /\ asteps prog a a' /\ sim g' st' a'.
Proof.
  induction sched as [|e sched IH]; intros g st a Hs.
  - exists st, g, a. split; [done|]. split; [apply rtc_refl|done].
  - destruct (system_stepped g st a e Hs) as (st1 & g1 & a1 & E & Ha & Hs1).
    destruct (IH _ _ _ Hs1) as (st2 & g2 & a2 & E2 & Ha2 & Hs2). exists st2, g2, a2.
    cbn [run_system]. rewrite E. cbn [mbind outcome_bind]. split; [done|]. split; [by etrans|done].
Qed.

Lemma new_sim s ls : sim (Ghost (fun _ => []) (fun _ => ∅)) (new_system s ls) (new_astate s ls).
Proof.
  assert (Hc : forall i, (Client <$> ls) !! i = None \/ exists l : L, (Client <$> ls) !! i = Some (Client l)).
  { intros i. rewrite list_lookup_fmap. destruct (ls !! i); [right; by eexists|by left]. }
  constructor; cbn [mem places new_system]; try done.
  - constructor; cbn; try done; try (intros; apply linked_nil); try (intros; apply chained_nil).
    + constructor.
    + by intros k k' i []%elem_of_nil.
    + by intros n i []%elem_of_nil.
  - by intros k i []%elem_of_nil.
  - intros i. by destruct (Hc i) as [E|[l E]]; rewrite E.
  - intros i. by destruct (Hc i) as [E|[l E]]; rewrite E.
  - intros i j. cbn. split; [by intros ?%not_elem_of_empty|]. by rewrite lookup_empty; intros [[=] _].
  - cbn. apply Forall2_fmap, Forall_Forall2_diag, Forall_forall. done.
Qed.

End System.

End Proof.
