(* ===== verification/CondWait.v ===== *)
(** * What the users of a condition variable get

    [CondVar] refines [CondSpec]; and signals are not lost: when no signal is in
    progress and the mutex is free, a thread that was signalled returns. *)

From S2P Require Import Prelude Mutex CondVar CondSpec CondLists CondProof.

#[local] Open Scope Z_scope.

Section Users.
Context {S L : Type} (prog : nat -> L -> action S L).

(** ** Definitions *)

(** How far a signalled thread is from its return. *)
Definition steps_back (p : place L) : option nat :=
  match p with
  | CwNext _ _ => Some 1%nat
  | CwRelock _ _ _ => Some 2%nat
  | CwBarrier _ _ => Some 3%nat
  | CwCas _ _ => Some 4%nat
  | CwTest _ _ _ => Some 5%nat
  | CwWait _ _ (TwLoop _ _) => Some 6%nat
  | CwWait _ _ _ => Some 7%nat
  | _ => None
  end.

Definition in_signal (p : place L) : Prop :=
  match p with CsLock _ _ | CsWalk _ _ _ _ | CsRef _ _ | CsRelease _ _ => True | _ => False end.

Definition signalled (st : system S L) (i : nat) : Prop :=
  w_state <$> waiters (mem st) !! i = Some SIGNALED.

(** Its barrier is open. *)
Definition let_in (st : system S L) (i n : nat) : Prop :=
  exists p k w, places st !! i = Some p /\ steps_back p = Some k /\ (k <= n)%nat /\
    waiters (mem st) !! i = Some w /\ w_state w = SIGNALED /\ w_barrier w <> 2 /\
    (k <> 1%nat -> mutex (mem st) = None).

(** ** Lemmas *)

Lemma next_returns i ev m k e m' p' :
  cond_timedwait_step (S := S) i ev m (CwNext k e) = Ret (m', p') -> exists l : L, p' = Client l.
Proof.
  cbn [cond_timedwait_step]. destruct (waiters m !! i) as [w|]; [|done]. cbn [get mbind outcome_bind].
  destruct (w_prev w) as [q|]; [|intros [= _ <-]; by eexists].
  destruct (modify q _ _) as [ws| | |]; try done. intros [= _ <-]. by eexists.
Qed.

Lemma open_barrier g (st : system S L) a i w : sim g st a -> owned g i -> waiters (mem st) !! i = Some w ->
  w_state w = SIGNALED -> w_barrier w <> 2 -> w_barrier w = 0 \/ w_barrier w = 1.
Proof.
  intros Hs [k Hk] Hw Hst Hb. destruct (sim_nodes _ _ _ Hs _ _ Hk) as (w' & Hw' & Hok).
  rewrite Hw in Hw'. injection Hw' as <-. destruct k; cbn in Hok; [tauto|tauto|].
  case_bool_decide; tauto.
Qed.

(** One step of a thread whose barrier is open. *)
Lemma let_in_step g st a i n ev : sim g st a -> let_in st i (Datatypes.S n) ->
  exists st' g' a', system_step prog st (i, ev) = Ret st' /\ sim g' st' a' /\
    (let_in st' i n \/ exists l, places st' !! i = Some (Client l)).
Proof.
  intros Hs (p & k & w & Hp & Hk & Hle & Hw & Hst & Hb & Hmu).
  destruct (system_stepped prog g st a (i, ev) Hs) as (st' & g' & a' & E & _ & Hs'). exists st', g', a'.
  split; [done|]. split; [done|]. pose proof (sim_waiters _ _ _ Hs i) as Hok. rewrite Hp in Hok.
  pose proof (lookup_lt_Some _ _ _ Hp) as Hlt. unfold system_step in E. cbn [fst snd] in E. rewrite Hp in E.
  destruct (place_step prog i ev (mem st) p) as [[m' p']| | |] eqn:Es; try done. injection E as <-. unfold let_in.
  cbn [mem places]. rewrite list_lookup_insert_eq by done.
  destruct p as [l|ts kk|ts kk|ts kk q|ts kk e|kk e|kk e|kk e|kk e|kk e old|kk e|x l|x l q f|l f|l f];
    try done; cbn [place_step] in Es; try (by apply next_returns in Es as [l ->]; right; exists l);
    cbn [cond_timedwait_step] in Es; rewrite ?Hw in Es; cbn [get mbind outcome_bind] in Es; left.
  - assert (Hne : k <> 1%nat) by (destruct q; injection Hk as <-; done).
    injection Es as <- <-.
    assert (Hq : exists k', steps_back (match timedwait_cp_step ts 2 ev (w_barrier w) q with
      | inl q => CwWait ts kk q | inr e => CwTest ts kk e end) = Some k' /\ (k' < k)%nat /\ k' <> 1%nat).
    { destruct q; injection Hk as <-; cbn.
      - destruct ts as [t|]; [|exists 6%nat; split; [done|lia]].
        destruct (1000000000 <=? wrap64 (tv_nsec t)); [exists 5%nat; split; [done|lia]|].
        destruct ev as [now|]; [|exists 5%nat; split; [done|lia]].
        destruct (tv_sec (time_left t now) <? 0); [exists 5%nat|exists 6%nat]; (split; [done|lia]).
      - rewrite (proj2 (Z.eqb_neq _ _) Hb). exists 5%nat. split; [done|lia].
      - destruct (_ >? 0); [exists 5%nat|exists 6%nat]; (split; [done|lia]). }
    destruct Hq as (k' & Hk' & Hlt' & Hne'). eexists _, k', w. split; [done|].
    split; [done|]. split; [lia|]. by rewrite Hmu.
  - injection Hk as <-. rewrite (proj2 (Z.eqb_neq _ _) Hb) in Es. injection Es as <- <-.
    eexists _, _, w. split; [done|]. split; [done|]. split; [lia|]. by rewrite Hmu.
  - injection Hk as <-. rewrite Hst in Es. injection Es as <- <-.
    eexists _, _, w. split; [done|]. split; [done|]. split; [lia|]. by rewrite Hmu.
  - injection Hk as <-. pose proof Hok as (_ & w' & Hw' & _ & Hb1).
    destruct (Z.eqb_spec (w_barrier w) 0) as [Hz|Hz].
    + injection Es as <- <-. eexists _, _, (set_barrier 1 w). cbn [waiters set_waiters mutex].
      rewrite lookup_insert_eq. split; [done|]. split; [done|]. split; [lia|]. by rewrite Hmu.
    + rewrite Hw in Hw'. injection Hw' as <-.
      by destruct (open_barrier g st a i w Hs (proj1 Hok) Hw Hst Hb).
  - injection Hk as <-. rewrite Hmu in Es by done. destruct old.
    + destruct Hok as (_ & w' & Hw' & Hl). congruence.
    + rewrite bool_decide_false in Es by done. injection Es as <- <-.
      eexists _, _, w. split; [done|]. split; [done|]. split; [lia|]. done.
    + done.
Qed.

Lemma let_in_returns i : forall n g st a evs, sim g st a -> let_in st i n -> length evs = n ->
  exists k st' l, run_system prog (pair i <$> take k evs) st = Ret st' /\ places st' !! i = Some (Client l).
Proof.
  induction n as [|n IH]; intros g st a evs Hs Hi Hn.
  - destruct Hi as (p & k & w & _ & Hk & Hle & _). destruct k; [|lia].
    by destruct p as [| | |? ? []| | | | | | | | | | |].
  - destruct evs as [|ev evs]; [done|]. injection Hn as Hn.
    destruct (let_in_step g st a i n ev Hs Hi) as (st1 & g1 & a1 & E & Hs1 & [Hi1|[l Hl]]).
    + destruct (IH g1 st1 a1 evs Hs1 Hi1 Hn) as (k & st' & l & E' & Hl).
      exists (Datatypes.S k), st', l. split; [|done]. cbn [take fmap list_fmap run_system]. rewrite E. exact E'.
    + exists 1%nat, st1, l. split; [|done]. cbn [take fmap list_fmap run_system]. by rewrite E.
Qed.

(** A thread that was signalled, and the signal is over: it is on a list that is
    being released, and the first of this list is let in. *)
Lemma signalled_let_in g st a x : sim g st a -> mutex (mem st) = None ->
  (forall i p, places st !! i = Some p -> ~ in_signal p) -> signalled st x -> exists i, signalled st i /\ let_in st i 7.
Proof.
  intros Hs Hm Hn Hx. unfold signalled in Hx. destruct (waiters (mem st) !! x) as [wx|] eqn:Hwx; [|done].
  injection Hx as Hx. pose proof (sim_waiters _ _ _ Hs x) as Hok.
  assert (Ho : owned g x).
  { unfold waiter_ok in Hok. rewrite Hwx in Hok.
    destruct (places st !! x) as [[| | | | | | | | |? ? []| | | | |]|]; try done; try apply Hok;
      destruct Hok as [? Hok]; try done; destruct Hok as (w' & [= <-] & Hok); congruence. }
  destruct Ho as [k Hk]. destruct (sim_nodes _ _ _ Hs _ _ Hk) as (w & Hw & Hnode). rewrite Hwx in Hw. injection Hw as <-.
  destruct k as [|j|c]; cbn in Hnode; [by destruct Hnode| |].
  { pose proof (sim_signals _ _ _ Hs j) as Hsig. unfold signal_ok in Hsig.
    destruct (places st !! j) as [p|] eqn:Hp; [specialize (Hn j p Hp)|]; [destruct p; try (by destruct Hn)|];
      destruct Hsig as (_ & E & _); rewrite E in Hk; by inversion Hk. }
  destruct (seg g (Chain c)) as [|f tl] eqn:Hc; [by inversion Hk|].
  destruct (sim_nodes _ _ _ Hs (Chain c) f) as (w & Hw & Hst & Hb); [rewrite Hc; by left|].
  rewrite Hc, bool_decide_true in Hb by done. exists f. split; [unfold signalled; rewrite Hw; cbn; by rewrite Hst|].
  pose proof (sim_waiters _ _ _ Hs f) as Hf. unfold waiter_ok in Hf. rewrite Hw in Hf.
  assert (Hb2 : w_barrier w <> 2) by lia.
  assert (Hback : exists p k, places st !! f = Some p /\ steps_back p = Some k /\ (k <= 7)%nat).
  { destruct (places st !! f) as [p|]; [|done]. exists p.
    destruct p as [l|ts kk|ts kk|ts kk q|ts kk e|kk e|kk e|kk e|kk e|kk e old|kk e|n l|n l q fi|l fi|l fi];
      try done; try (by destruct Hf as [[=] _]); try (by eexists; split; [done|]; split; [done|lia]).
    - destruct Hf as (_ & _ & Hmu). congruence.
    - destruct q; eexists; (split; [done|]); (split; [done|]); lia.
    - destruct Hf as (_ & w' & [= <-] & Hl). congruence.
    - destruct Hf as (_ & w' & [= <-] & Hl). congruence. }
  destruct Hback as (p & k & Hp & Hk' & Hle). exists p, k, w. by repeat split.
Qed.

(** The abstract state says what the concrete one does. *)
Record agrees (st : system S L) (a : astate S L) : Prop := {
  ag_queue i : i ∈ a_queue a <-> w_state <$> waiters (mem st) !! i = Some WAITING;
  ag_nodup : NoDup (a_queue a);
  ag_mutex : a_mutex a = mutex (mem st);
  ag_shared : a_shared a = shared (mem st);
  ag_places : Forall2 corr (places st) (a_places a);
}.

Lemma waiting_owned g m i p : waiter_ok (S := S) (L := L) g m i p ->
  w_state <$> waiters m !! i = Some WAITING -> owned g i.
Proof.
  intros Hok Hw. unfold waiter_ok in Hok. destruct (waiters m !! i) as [w|]; [|done]. injection Hw as Hw.
  destruct p as [[| | | | | | | | |? ? []| | | | |]|]; try done; try apply Hok;
    destruct Hok as [? Hok]; try done; destruct Hok as (w' & [= <-] & Hok); congruence.
Qed.

Lemma sim_agrees g st a : sim g st a -> agrees st a.
Proof.
  intros Hs. constructor; try apply Hs.
  - intros i. rewrite (sim_queue _ _ _ Hs). unfold in_state. rewrite list_elem_of_filter.
    split; [by intros []|]. intros Hw. split; [done|].
    destruct (waiting_owned _ _ _ _ (sim_waiters _ _ _ Hs i) Hw) as [k Hk].
    destruct (sim_nodes _ _ _ Hs _ _ Hk) as (w & Hwi & Hok). rewrite Hwi in Hw. injection Hw as Hw.
    destruct k; cbn in Hok; [done| |]; rewrite Hw in Hok; [by destruct Hok as [_ [|[]]]|by destruct Hok].
  - rewrite (sim_queue _ _ _ Hs). apply NoDup_filter, (lo_nodup _ _ (sim_lists _ _ _ Hs)).
Qed.

End Users.

(** ** Properties *)

(** C13: condition variables do what they promise.  Whatever the clients of a
    mutex and a condition variable do, with or without deadlines, signalling one
    thread or all, with or without the mutex, and however their accesses are
    interleaved: no access is to a waiter object or a counter whose function has
    returned, and the execution is one of the abstract condition variable, whose
    queue is the list of the threads that wait, oldest first: signals take
    threads from its front, a thread leaves it otherwise only because of its
    deadline, and comes back with the mutex. *)
Theorem cond_refines {S L} (prog : nat -> L -> action S L) s ls sched :
  exists st a, run_system prog sched (new_system s ls) = Ret st /\
    asteps prog (new_astate s ls) a /\ agrees st a.
Proof.
  destruct (system_run prog sched _ _ _ (new_sim s ls)) as (st & g & a & E & Ha & Hs).
  exists st, a. split; [done|]. split; [done|]. by eapply sim_agrees.
Qed.

(** C14: signals are not lost: whenever a thread has been signalled, no call that
    signals is in progress and the mutex is free, a signalled thread (the first of
    those that were signalled together) returns from its wait within seven
    accesses of its own. *)
Theorem signals_arrive {S L} (prog : nat -> L -> action S L) s ls sched st x :
  run_system prog sched (new_system s ls) = Ret st -> signalled st x ->
  (forall i p, places st !! i = Some p -> ~ in_signal p) -> mutex (mem st) = None ->
  exists i, signalled st i /\ forall evs, length evs = 7%nat ->
    exists k st' l, run_system prog (pair i <$> take k evs) st = Ret st' /\ places st' !! i = Some (Client l).
Proof.
  intros E Hx Hn Hm. destruct (system_run prog sched _ _ _ (new_sim s ls)) as (st' & g & a & E' & _ & Hs).
  rewrite E in E'. injection E' as <-. destruct (signalled_let_in g st a x Hs Hm Hn Hx) as (i & Hi & Hl).
  exists i. split; [done|]. intros evs Hev. by eapply let_in_returns.
Qed.

(** The theorem's hypotheses hold: thread 0 waits, thread 1 signals under the mutex. *)
Definition ping (i l : nat) : action unit nat :=
  match l with
  | 0%nat => Acquire 1%nat
  | 1%nat => if (i =? 0)%nat then Wait None (fun _ => 2%nat) else Signal 1 2%nat
  | 2%nat => Release 3%nat
  | _ => Stop
  end.

Definition ping_schedule : list (nat * clock_event) :=
  replicate 6 (0%nat, None) ++ replicate 8 (1%nat, None).

Lemma signals_arrive_witness :
  exists st, run_system ping ping_schedule (new_system tt [0%nat; 0%nat]) = Ret st /\ signalled st 0 /\
    exists i, signalled st i /\ forall evs, length evs = 7%nat ->
      exists k st' l, run_system ping (pair i <$> take k evs) st = Ret st' /\ places st' !! i = Some (Client l).
Proof.
  destruct (run_system ping ping_schedule (new_system tt [0%nat; 0%nat])) as [st| | |] eqn:E;
    [|by vm_compute in E..].
  assert (Hst : match run_system ping ping_schedule (new_system tt [0%nat; 0%nat]) with
    | Ret st => signalled st 0 /\ mutex (mem st) = None /\ Forall (fun p => ~ in_signal p) (places st)
    | _ => False
    end).
  { vm_compute. split; [reflexivity|]. split; [reflexivity|]. repeat constructor; by intros []. }
  rewrite E in Hst. destruct Hst as (Hx & Hm & Hf). exists st. split; [reflexivity|]. split; [exact Hx|].
  apply (signals_arrive ping tt [0%nat; 0%nat] ping_schedule st 0 E Hx); [|exact Hm].
  intros i p Hp. rewrite Forall_forall in Hf. apply Hf. by eapply list_elem_of_lookup_2.
Defined.
