(* ===== verification/PoolWait.v ===== *)
(** * The thread pool asleep (src/lib/libbomp/popcorn_threadpool.c over musl)

    The pool of [ThreadPool] with its mutex and its condition variable: the
    workers wait in pthread_cond_wait, and additions and the shutdown broadcast.
    [ThreadPool]'s workers look at the queue again and again instead; the theorem
    says that sleeping comes to the same, and that nobody sleeps through work. *)

From S2P Require Import Prelude Barrier ThreadPool Mutex CondVar CondSpec CondProof CondWait.

#[local] Open Scope Z_scope.

(** ** Definitions *)

(** What the master does. *)
Inductive command := Add (fn args : Z) | Shut.

(** Where the master and the workers are, between calls of pthreads. *)
Inductive client :=
  | MIdle (cmds : list command)
  | MLocked (c : command) (cmds : list command)
  | MBroadcast (cmds : list command)
  | MUnlock (cmds : list command)
  | WIdle
  | WLoop                           (* the test of the loop, under the lock *)
  | WSleep
  | WUnlock (t : option threadpool_task_t)
  | WBack (t : threadpool_task_t)    (* runs the task *)
  | WFinish (t : threadpool_task_t)  (* the task is done; under the lock *)
  | WDead.

Notation pool := (outcome pool_state).

(** threadpool_add and threadpool_destroy under the lock; whether they
    broadcast. *)
Definition master_update (c : command) (cmds : list command) (o : pool) : pool * client :=
  match c with
  | Add fn args =>
      (s ← o; pool_step s (Submit fn args),
       match o with
       | Ret s =>
           match threadpool_add all_succeed (Some (ps_pool s)) fn args with
           | Ret (0, _) => MBroadcast cmds
           | _ => MUnlock cmds
           end
       | _ => MUnlock cmds
       end)
  | Shut => (s ← o; pool_step s Destroy, MBroadcast [])
  end.

(** threadpool_run of worker [w] under the lock. *)
Definition worker_update (w : nat) (o : pool) : pool * client :=
  (s ← o; pool_step s (Work w),
   match o with
   | Ret s =>
       match threadpool_run_step (ps_pool s) with
       | Ret (Sleep, _) => WSleep
       | Ret (Take t, _) => WUnlock (Some t)
       | _ => WUnlock None
       end
   | _ => WUnlock None
   end).

(** Thread 0 is the master, thread [w + 1] worker [w]. *)
Definition pool_client (i : nat) (l : client) : action pool client :=
  match l with
  | MIdle (c :: cmds) => Acquire (MLocked c cmds)
  | MIdle [] => Stop
  | MLocked c cmds => Update (master_update c cmds)
  | MBroadcast cmds => Signal (-1) (MUnlock cmds)
  | MUnlock cmds => Release (MIdle cmds)
  | WIdle => Acquire WLoop
  | WLoop => Update (worker_update (i - 1))
  | WSleep => Wait None (fun _ => WLoop)
  | WUnlock (Some t) => Release (WBack t)
  | WUnlock None => Release WDead
  | WBack t => Acquire (WFinish t)
  | WFinish _ => Update (fun o => (s ← o; pool_step s (Work (i - 1)), WLoop))
  | WDead => Stop
  end.

Definition pool_clients (workers : nat) (cmds : list command) : list client :=
  MIdle cmds :: replicate workers WIdle.

(** ** Lemmas *)

(** A worker has nothing to do. *)
Definition nothing_to_do (s : pool_state) : Prop := count (ps_pool s) = 0 /\ shutdown (ps_pool s) = 0.

Definition holds (l : client) : Prop :=
  match l with
  | MLocked _ _ | MBroadcast _ | MUnlock _ | WLoop | WSleep | WUnlock _ | WFinish _ => True
  | _ => False
  end.

Definition holder (p : aplace client) : Prop :=
  match p with
  | AClient l | ASignal _ l | AReturn l => holds l
  | AEnter _ _ | AWait _ _ false => True
  | AWait _ _ true | ARelock _ _ => False
  end.

Definition falls_asleep (p : aplace client) : Prop :=
  match p with AClient WSleep | AEnter _ _ => True | _ => False end.

Definition broadcasting (p : aplace client) : Prop :=
  match p with AClient (MBroadcast _) => True | ASignal n _ => n < 0 | _ => False end.

(** Where a call of pthreads leads to: waits go back to the loop, broadcasts to
    the unlocking. *)
Definition leads (p : aplace client) : Prop :=
  match p with
  | AEnter ts k | AWait ts k _ => ts = None /\ forall e, k e = WLoop
  | ARelock k _ => forall e, k e = WLoop
  | ASignal _ l | AReturn l => exists cmds, l = MUnlock cmds
  | AClient _ => True
  end.

(** What [ThreadPool] says of a worker that is here; [None] for the master. *)
Definition worker_of (l : client) : option worker :=
  match l with
  | WIdle | WLoop | WSleep => Some Idle
  | WUnlock (Some t) | WBack t | WFinish t => Some (Busy t)
  | WUnlock None | WDead => Some Dead
  | _ => None
  end.

Definition worker_at (p : aplace client) : option worker :=
  match p with
  | AClient l => worker_of l
  | AEnter _ _ | AWait _ _ _ | ARelock _ _ => Some Idle
  | ASignal _ _ | AReturn _ => None
  end.

Definition role (i : nat) (k : option worker) (s : pool_state) : Prop :=
  match i with
  | O => k = None
  | Datatypes.S w => k <> None /\ ps_workers s !! w = k
  end.

Record pool_inv (s0 s : pool_state) (a : astate pool client) : Prop := {
  pi_shared : a_shared a = Ret s;
  pi_events : exists events, run_pool events s0 = Ret s;
  pi_ok : state_ok s;
  pi_holder i p : a_places a !! i = Some p -> holder p -> a_mutex a = Some i;
  pi_asleep i p : a_places a !! i = Some p -> falls_asleep p -> nothing_to_do s;
  pi_leads i p : a_places a !! i = Some p -> leads p;
  pi_role i p : a_places a !! i = Some p -> role i (worker_at p) s;
  pi_queue : a_queue a <> [] -> nothing_to_do s \/ exists i p, a_places a !! i = Some p /\ broadcasting p;
}.

Lemma run_pool_event es e s0 s s' : run_pool es s0 = Ret s -> pool_step s e = Ret s' ->
  run_pool (es ++ [e]) s0 = Ret s'.
Proof.
  revert s0. induction es as [|e0 es IH]; intros s0.
  - intros [= ->] E. cbn. by rewrite E.
  - cbn [app run_pool]. destruct (pool_step s0 e0) as [s1| | |]; try done. apply IH.
Qed.

(** *** Work under the mutex *)

(** Thread [i] turns [s] into [s'] and goes to [l']. *)
Record updated (i : nat) (s s' : pool_state) (l' : client) : Prop := {
  up_event : exists e, pool_step s e = Ret s';
  up_ok : state_ok s';
  up_holds : holds l';
  up_idle : nothing_to_do s -> nothing_to_do s' \/ exists cmds, l' = MBroadcast cmds;
  up_sleep : l' = WSleep -> nothing_to_do s';
  up_role : role i (worker_of l') s';
  up_others w : Datatypes.S w <> i -> ps_workers s' !! w = ps_workers s !! w;
}.

Lemma add_unchanged p fn args rc p' :
  threadpool_add all_succeed (Some p) fn args = Ret (rc, Some p') -> rc <> 0 -> p' = p.
Proof.
  unfold threadpool_add. destruct (fn =? NULL); [by intros [= _ <-]|].
  cbn [truthy rc_lock rc_unlock rc_broadcast all_succeed Z.eqb negb]. intros (? & _ & Ht)%outcome_bind_Ret Hrc.
  apply outcome_bind_Ret in Ht as ([r1 p1] & Hp1 & [= -> <-]).
  destruct (count p =? queue_size p); [by injection Hp1 as _ <-|].
  destruct (truthy (shutdown p)); [by injection Hp1 as _ <-|].
  apply outcome_bind_Ret in Hp1 as (? & _ & [= <- _]). done.
Qed.

Lemma master_updated c cmds s : state_ok s -> exists s' l',
  master_update c cmds (Ret s) = (Ret s', l') /\ updated 0 s s' l'.
Proof.
  intros Hok. destruct c as [fn args|]; cbn [master_update mbind outcome_bind].
  - destruct (submit_ok s fn args Hok) as (s' & E & Hok'). rewrite E. exists s'. eexists. split; [done|].
    cbn [pool_step] in E. destruct (threadpool_add _ _ _ _) as [[rc [p'|]]| | |] eqn:Ea; try done.
    cbn [mbind outcome_bind get] in E. injection E as <-.
    assert (Hl : rc = 0 \/ rc <> 0 /\ p' = ps_pool s).
    { destruct (decide (rc = 0)); [by left|right]. split; [done|]. by eapply add_unchanged. }
    constructor; try done.
    + exists (Submit fn args). cbn [pool_step]. by rewrite Ea.
    + by destruct rc.
    + intros Hn. destruct Hl as [-> |[_ ->]]; [right; by exists cmds|by left].
    + by destruct rc.
    + by destruct rc.
  - destruct (destroy_ok s Hok) as (s' & E & Hok'). rewrite E. exists s', (MBroadcast []). split; [done|].
    constructor; try done; [by exists Destroy|intros _; right; by exists []|].
    intros w _. cbn in E. unfold destroy_begin in E. cbn in E.
    by destruct (truthy (shutdown (ps_pool s))); injection E as <-.
Qed.

Lemma worker_updated w s : state_ok s -> ps_workers s !! w = Some Idle -> exists s' l',
  worker_update w (Ret s) = (Ret s', l') /\ updated (Datatypes.S w) s s' l'.
Proof.
  intros Hok Hw. unfold worker_update. cbn [mbind outcome_bind pool_step]. rewrite Hw.
  destruct (worker_ok s w Idle Hok Hw) as (s' & E & Hok'). rewrite E. exists s'. eexists. split; [done|].
  pose proof E as Es. cbn [work] in Es. pose proof (lookup_lt_Some _ _ _ Hw) as Hlt.
  destruct (threadpool_run_step_spec (ps_pool s) (so_pool _ Hok) (so_shutdown _ Hok)) as (a & p' & Er & Hp' & Hsd & Ha).
  rewrite Er in Es |- *. cbn [mbind outcome_bind] in Es. injection Es as <-.
  assert (Hev : pool_step s (Work w) = work s w Idle) by (cbn [pool_step]; by rewrite Hw).
  pose proof (contents_nil _ (so_pool _ Hok)) as Hnil.
  destruct a as [| |t]; constructor; try done; try (by exists (Work w); rewrite Hev).
  - intros Hn. by left.
  - intros _. destruct (contents (ps_pool s)) as [|t rest]; [|by destruct Ha].
    destruct (Z.eqb_spec (shutdown (ps_pool s)) 0); [|by destruct Ha]. split; [by apply Hnil|done].
  - intros [Hc Hs]. rewrite (proj2 Hnil Hc), Hs in Ha. by destruct Ha.
  - split; [done|]. cbn. by apply list_lookup_insert_eq.
  - intros x Hx. cbn. apply list_lookup_insert_ne. congruence.
  - intros [Hc Hs]. rewrite (proj2 Hnil Hc), Hs in Ha. by destruct Ha.
  - split; [done|]. cbn. by apply list_lookup_insert_eq.
  - intros x Hx. cbn. apply list_lookup_insert_ne. congruence.
Qed.

Lemma finish_updated w t s : state_ok s -> ps_workers s !! w = Some (Busy t) -> exists s',
  pool_step s (Work w) = Ret s' /\ updated (Datatypes.S w) s s' WLoop.
Proof.
  intros Hok Hw. destruct (worker_ok s w _ Hok Hw) as (s' & E & Hok'). exists s'.
  assert (Hev : pool_step s (Work w) = work s w (Busy t)) by (cbn [pool_step]; by rewrite Hw).
  rewrite Hev. split; [done|]. pose proof (lookup_lt_Some _ _ _ Hw) as Hlt.
  pose proof E as Es. cbn [work] in Es. injection Es as <-. constructor; try done; [by exists (Work w); rewrite Hev|by left| |].
  - split; [done|]. cbn. by apply list_lookup_insert_eq.
  - intros x Hx. cbn. apply list_lookup_insert_ne. congruence.
Qed.

(** *** The invariant *)

(** A thread moves and leaves the pool as it is. *)
Lemma inv_place s0 s a i p q' h' sh p' :
  pool_inv s0 s a -> a_places a !! i = Some p -> sh = Ret s ->
  (forall j, j <> i -> a_mutex a = Some j -> h' = Some j) -> (holder p' -> h' = Some i) ->
  (falls_asleep p' -> nothing_to_do s) -> leads p' -> worker_at p' = worker_at p ->
  (q' <> [] -> nothing_to_do s \/ a_queue a <> [] /\ (broadcasting p -> broadcasting p')) ->
  pool_inv s0 s (AState q' h' sh (<[i := p']> (a_places a))).
Proof.
  intros [H1 H2 H3 H4 H5 H6 H7 H8] Hi Hsh Hm Hh Hs Hl Hr Hq. pose proof (lookup_lt_Some _ _ _ Hi) as Hlt.
  assert (Hcase : forall j x, <[i := p']> (a_places a) !! j = Some x ->
    j = i /\ x = p' \/ j <> i /\ a_places a !! j = Some x).
  { intros j x. destruct (decide (j = i)) as [->|Hne].
    - rewrite list_lookup_insert_eq by done. intros [= <-]. by left.
    - rewrite list_lookup_insert_ne by done. by right. }
  constructor; cbn [a_shared a_places a_queue a_mutex]; try done.
  - intros j x [[-> ->]|[Hne Hj]]%Hcase; [exact Hh|]. intros Hx. by apply Hm, (H4 _ _ Hj).
  - intros j x [[-> ->]|[Hne Hj]]%Hcase; [exact Hs|]. by eapply H5.
  - intros j x [[-> ->]|[Hne Hj]]%Hcase; [exact Hl|]. by eapply H6.
  - intros j x [[-> ->]|[Hne Hj]]%Hcase; [rewrite Hr|]; by eapply H7.
  - intros Hne. destruct (Hq Hne) as [?|[Hne' Hb]]; [by left|].
    destruct (H8 Hne') as [?|(j & x & Hj & Hx)]; [by left|]. right. destruct (decide (j = i)) as [->|Hji].
    + exists i, p'. rewrite list_lookup_insert_eq by done. split; [done|]. apply Hb. congruence.
    + exists j, x. by rewrite list_lookup_insert_ne.
Qed.

(** A broadcasting thread holds the mutex. *)
Lemma broadcasting_holder p : leads p -> broadcasting p -> holder p.
Proof. destruct p as [[]| | | | |]; cbn; try done. by intros [cmds ->]. Qed.

(** A thread that holds the mutex changes the pool. *)
Lemma inv_update s0 s a i l s' l' :
  pool_inv s0 s a -> a_places a !! i = Some (AClient l) -> a_mutex a = Some i -> ~ broadcasting (AClient l) ->
  updated i s s' l' ->
  pool_inv s0 s' (AState (a_queue a) (a_mutex a) (Ret s') (<[i := AClient l']> (a_places a))).
Proof.
  intros [H1 H2 H3 H4 H5 H6 H7 H8] Hi Hm Hnb [[e U1] U2 U3 U4 U5 U6 U7]. pose proof (lookup_lt_Some _ _ _ Hi) as Hlt.
  assert (Halone : forall j x, j <> i -> a_places a !! j = Some x -> ~ holder x).
  { intros j x Hne Hj Hx. pose proof (H4 _ _ Hj Hx). congruence. }
  assert (Hcase : forall j x, <[i := AClient l']> (a_places a) !! j = Some x ->
    j = i /\ x = AClient l' \/ j <> i /\ a_places a !! j = Some x).
  { intros j x. destruct (decide (j = i)) as [->|Hne].
    - rewrite list_lookup_insert_eq by done. intros [= <-]. by left.
    - rewrite list_lookup_insert_ne by done. by right. }
  constructor; cbn [a_shared a_places a_queue a_mutex]; try done.
  - destruct H2 as [es H2]. exists (es ++ [e]). by eapply run_pool_event.
  - intros j x [[-> ->]|[Hne Hj]]%Hcase; [done|]. intros Hx. by destruct (Halone j x).
  - intros j x [[-> ->]|[Hne Hj]]%Hcase; [by destruct l'; try done; intros _; apply U5|].
    intros Hx. destruct (Halone j x Hne Hj). by destruct x as [[]| | | | |].
  - intros j x [[-> ->]|[Hne Hj]]%Hcase; [done|]. by eapply H6.
  - intros j x [[-> ->]|[Hne Hj]]%Hcase; [done|]. pose proof (H7 _ _ Hj) as Hr.
    destruct j as [|w]; [done|]. destruct Hr as [Hr Hw]. split; [done|]. by rewrite U7.
  - intros Hq. destruct (H8 Hq) as [Hn|(j & x & Hj & Hx)].
    + destruct (U4 Hn) as [Hn'|[cmds ->]]; [by left|right]. exists i, (AClient (MBroadcast cmds)).
      by rewrite list_lookup_insert_eq.
    + exfalso. destruct (decide (j = i)) as [->|Hne]; [rewrite Hi in Hj; by injection Hj as <-|].
      apply (Halone j x Hne Hj). apply broadcasting_holder; [by eapply H6|done].
Qed.

Lemma client_inv s0 s a i l h' s' p' : pool_inv s0 s a -> a_places a !! i = Some (AClient l) ->
  aclient i (pool_client i l) (a_mutex a) (a_shared a) l = (h', s', p') ->
  exists s1, pool_inv s0 s1 (AState (a_queue a) h' s' (<[i := p']> (a_places a))).
Proof.
  intros Hinv Hi E. pose proof Hinv as [H1 H2 H3 H4 H5 H6 H7 H8]. pose proof (H7 _ _ Hi) as Hrole.
  assert (Hstay : exists s1, pool_inv s0 s1 (AState (a_queue a) (a_mutex a) (a_shared a) (<[i := AClient l]> (a_places a)))).
  { exists s. rewrite list_insert_id by done. by destruct a. }
  assert (Hheld : holds l -> a_mutex a = Some i) by (intros Hl; by apply (H4 _ _ Hi)).
  assert (Hq : a_queue a <> [] -> ~ broadcasting (AClient l) -> forall p : aplace client,
    nothing_to_do s \/ a_queue a <> [] /\ (broadcasting (AClient l) -> broadcasting p)) by (intros; right; tauto).
  destruct l as [[|c cmds]|c cmds|cmds|cmds| | | |[t|]|t|t|]; cbn [pool_client aclient] in E;
    try (rewrite bool_decide_true in E by (by apply Hheld)).
  - injection E as <- <- <-. exact Hstay.
  - destruct (a_mutex a) as [h|] eqn:Em; injection E as <- <- <-; [exact Hstay|].
    exists s. eapply (inv_place _ _ _ _ _ _ _ _ _ Hinv Hi); [done|by rewrite Em|done|done|done|done|]. intros Hne. apply Hq; [done|by intros []].
  - destruct i as [|w]; [|by destruct Hrole].
    destruct (master_updated c cmds s H3) as (s1 & l1 & Eu & Hu). rewrite H1, Eu in E. injection E as <- <- <-.
    exists s1. eapply inv_update; [exact Hinv|exact Hi|by apply Hheld|by intros []|exact Hu].
  - injection E as <- <- <-. exists s. eapply (inv_place _ _ _ _ _ _ _ _ _ Hinv Hi); [done|done|by intros _; apply Hheld|done| |done|].
    + by exists cmds.
    + intros Hne. by right.
  - injection E as <- <- <-. exists s. eapply (inv_place _ _ _ _ _ _ _ _ _ Hinv Hi); [done| |done|done|done|done|intros Hne; apply Hq; [done|by intros []]].
    intros j Hj. rewrite Hheld by done. congruence.
  - destruct (a_mutex a) as [h|] eqn:Em; injection E as <- <- <-; [exact Hstay|].
    exists s. eapply (inv_place _ _ _ _ _ _ _ _ _ Hinv Hi); [done|by rewrite Em|done|done|done|done|]. intros Hne. apply Hq; [done|by intros []].
  - destruct i as [|w]; [done|]. destruct Hrole as [_ Hw]. replace (Datatypes.S w - 1)%nat with w in E by lia.
    destruct (worker_updated w s H3 Hw) as (s1 & l1 & Eu & Hu). rewrite H1, Eu in E. injection E as <- <- <-.
    exists s1. eapply inv_update; [exact Hinv|exact Hi|by apply Hheld|by intros []|exact Hu].
  - injection E as <- <- <-. exists s. eapply (inv_place _ _ _ _ _ _ _ _ _ Hinv Hi); [done|done|by intros _; apply Hheld| |done|done|].
    + intros _. by apply (H5 _ _ Hi).
    + intros Hne. apply Hq; [done|by intros []].
  - injection E as <- <- <-. exists s. eapply (inv_place _ _ _ _ _ _ _ _ _ Hinv Hi); [done| |done|done|done|done|intros Hne; apply Hq; [done|by intros []]].
    intros j Hj. rewrite Hheld by done. congruence.
  - injection E as <- <- <-. exists s. eapply (inv_place _ _ _ _ _ _ _ _ _ Hinv Hi); [done| |done|done|done|done|intros Hne; apply Hq; [done|by intros []]].
    intros j Hj. rewrite Hheld by done. congruence.
  - destruct (a_mutex a) as [h|] eqn:Em; injection E as <- <- <-; [exact Hstay|].
    exists s. eapply (inv_place _ _ _ _ _ _ _ _ _ Hinv Hi); [done|by rewrite Em|done|done|done|done|]. intros Hne. apply Hq; [done|by intros []].
  - destruct i as [|w]; [done|]. destruct Hrole as [_ Hw]. replace (Datatypes.S w - 1)%nat with w in E by lia.
    destruct (finish_updated w t s H3 Hw) as (s1 & Eu & Hu). rewrite H1 in E. cbn [mbind outcome_bind] in E. rewrite Eu in E.
    injection E as <- <- <-.
    exists s1. eapply inv_update; [exact Hinv|exact Hi|by apply Hheld|by intros []|exact Hu].
  - injection E as <- <- <-. exact Hstay.
Qed.

Lemma move_inv s0 s a a' : pool_inv s0 s a -> astep pool_client a a' -> exists s', pool_inv s0 s' a'.
Proof.
  intros Hinv Hst. inversion Hst as [i p q h sh ps q' h' sh' p' Hi Hmv]; subst a a'. clear Hst.
  pose proof Hinv as [H1 H2 H3 H4 H5 H6 H7 H8]. cbn in H1, H4, H5, H6, H7, H8.
  pose proof (H6 _ _ Hi) as Hleads. pose proof (H7 _ _ Hi) as Hrole.
  inversion Hmv; subst; clear Hmv.
  - match goal with H : aclient _ _ _ _ _ = _ |- _ => exact (client_inv _ _ _ _ _ _ _ _ Hinv Hi H) end.
  - by destruct Hleads.
  - exists s. eapply (inv_place _ _ _ _ _ _ _ _ _ Hinv Hi); [done|done|by intros _; apply (H4 _ _ Hi)|done|done|done|].
    intros _. left. by apply (H5 _ _ Hi).
  - exists s. eapply (inv_place _ _ _ _ _ _ _ _ _ Hinv Hi); [done| |done|done|done|done|intros Hne; right; split; [done|by intros []]].
    intros j Hj. cbn. rewrite (H4 _ _ Hi) by done. congruence.
  - by destruct Hleads.
  - exists s. eapply (inv_place _ _ _ _ _ _ _ _ _ Hinv Hi); [done|done|done|done|exact (proj2 Hleads)|done|intros Hne; right; split; [done|by intros []]].
  - exists s. cbn in Hleads. eapply (inv_place _ _ _ _ _ _ _ _ _ Hinv Hi); [done|done|done| |done| |intros Hne; right; split; [done|by intros []]];
      by rewrite Hleads.
  - exists s. eapply (inv_place _ _ _ _ _ _ _ _ _ Hinv Hi); [done|done|exact (H4 _ _ Hi)|done|done|done|].
    intros _. right. split; [done|]. cbn. lia.
  - exists s. eapply (inv_place _ _ _ _ _ _ _ _ _ Hinv Hi); [done|done|exact (H4 _ _ Hi)|done|done|done|].
    intros Hne. right. split; [done|]. cbn. match goal with H : _ \/ _ |- _ => destruct H; [lia|done] end.
  - exists s. destruct Hleads as [cmds ->].
    eapply (inv_place _ _ _ _ _ _ _ _ _ Hinv Hi); [done|done|exact (H4 _ _ Hi)|done|done|done|].
    intros Hne. right. tauto.
Qed.

Lemma moves_inv s0 s a a' : pool_inv s0 s a -> asteps pool_client a a' -> exists s', pool_inv s0 s' a'.
Proof.
  intros Hinv Ha. revert s Hinv. induction Ha as [a|a a1 a2 Hs _ IH]; intros s Hinv; [by exists s|].
  destruct (move_inv _ _ _ _ Hinv Hs) as [s1 H1]. by apply (IH s1).
Qed.

Lemma new_inv p cmds : state_ok (new_pool_state p) ->
  pool_inv (new_pool_state p) (new_pool_state p)
    (new_astate (Ret (new_pool_state p)) (pool_clients (Z.to_nat (thread_count p)) cmds)).
Proof.
  intros Hok. assert (Hp : forall i x, (AClient <$> pool_clients (Z.to_nat (thread_count p)) cmds) !! i = Some x ->
    i = 0%nat /\ x = AClient (MIdle cmds) \/ exists w, i = Datatypes.S w /\ (w < Z.to_nat (thread_count p))%nat /\ x = AClient WIdle).
  { intros i x. rewrite list_lookup_fmap. intros (l & Hl & ->)%fmap_Some.
    destruct i as [|w]; [injection Hl as <-; by left|]. right. exists w. cbn in Hl.
    apply lookup_replicate in Hl as [-> ?]. auto. }
  constructor; cbn [new_astate a_shared a_places a_queue a_mutex]; try done; [by exists []| | | |].
  - intros i x [[-> ->]|(w & -> & _ & ->)]%Hp; done.
  - intros i x [[-> ->]|(w & -> & _ & ->)]%Hp; done.
  - intros i x [[-> ->]|(w & -> & _ & ->)]%Hp; done.
  - intros i x [[-> ->]|(w & -> & Hw & ->)]%Hp; [done|]. split; [done|]. cbn. by apply lookup_replicate.
Qed.

(** ** Properties *)

(** C15: the pool's workers may sleep.  With the pool's mutex and condition
    variable as the C library implements them, under every interleaving of a
    master's additions and shutdown and of the workers: no step is undefined; the
    pool is in a state that the workers of [ThreadPool], which never sleep,
    reach; and when the mutex is free and a task is queued or the pool is shut
    down, no worker is waiting unsignalled, and if one was signalled and is not
    back, one returns within seven accesses of its own. *)
Theorem pool_wakes cr num_threads size bn p bn' cmds sched :
  threadpool_create cr num_threads size bn = Ret (Some p, bn') ->
  (forall q, cr_queue cr = Some q -> zlen q = size) -> size < 2 ^ 31 - 1 ->
  exists st events s,
    run_system pool_client sched
      (new_system (Ret (new_pool_state p)) (pool_clients (Z.to_nat (thread_count p)) cmds)) = Ret st /\
    shared (mem st) = Ret s /\ run_pool events (new_pool_state p) = Ret s /\
    (mutex (mem st) = None -> count (ps_pool s) <> 0 \/ shutdown (ps_pool s) <> 0 ->
      (forall i, w_state <$> waiters (mem st) !! i <> Some WAITING) /\
      (forall x, signalled st x -> exists i, signalled st i /\ forall evs, length evs = 7%nat ->
         exists k st' l, run_system pool_client (pair i <$> take k evs) st = Ret st' /\
           places st' !! i = Some (Client l))).
Proof.
  intros Hc Hq Hs. destruct (threadpool_create_spec _ _ _ _ _ _ Hc Hq Hs) as (Hp & Hct & Hsd & [Hn _] & Hst & Htc & _ & _).
  pose proof (new_pool_ok p num_threads Hp Hct Hsd Hn Hst Htc) as Hok.
  destruct (system_run pool_client sched _ _ _ (new_sim (Ret (new_pool_state p))
    (pool_clients (Z.to_nat (thread_count p)) cmds))) as (st & g & a & E & Ha & Hsim).
  destruct (moves_inv _ _ _ _ (new_inv p cmds Hok) Ha) as (s & Hinv).
  destruct (pi_events _ _ _ Hinv) as [events Hev]. pose proof (sim_agrees g st a Hsim) as Hag.
  exists st, events, s. split; [done|]. split; [rewrite <- (ag_shared _ _ Hag); apply Hinv|]. split; [done|].
  intros Hm Hwork. rewrite <- (ag_mutex _ _ Hag) in Hm.
  assert (Hfree : forall i x, a_places a !! i = Some x -> ~ holder x).
  { intros i x Hi Hx. pose proof (pi_holder _ _ _ Hinv _ _ Hi Hx). congruence. }
  split.
  - intros i Hi. apply (ag_queue _ _ Hag) in Hi. destruct (pi_queue _ _ _ Hinv) as [[? ?]|(j & x & Hj & Hx)].
    + intros E0. rewrite E0 in Hi. by inversion Hi.
    + tauto.
    + apply (Hfree j x Hj), broadcasting_holder; [by eapply pi_leads|done].
  - intros x Hx. destruct (signalled_let_in g st a x Hsim) as (i & Hi & Hl).
    + by rewrite <- (ag_mutex _ _ Hag).
    + intros i q Hi Hq'. destruct (Forall2_lookup_l _ _ _ _ _ (ag_places _ _ Hag) Hi) as (ap & Hap & Hcorr).
      apply (Hfree i ap Hap). pose proof (pi_leads _ _ _ Hinv _ _ Hap) as Hlead.
      destruct q; try done; cbn in Hcorr; subst ap; by destruct Hlead as [cmds' ->].
    + done.
    + exists i. split; [done|]. intros evs Hev'. by eapply let_in_returns.
Qed.

(** The theorem's hypotheses hold: one worker that has gone to sleep before the master
    adds a task; after the broadcast it is awake. *)
Definition sleepy_results : create_results :=
  CreateResults true true (Some [Task 0 0; Task 0 0]) true 0 0 (fun _ => 0).

Definition sleepy_pool : threadpool_t :=
  Pool [Task 0 0; Task 0 0] 1 2 0 0 0 0 1 (bomp_barrier_init 1).

Definition sleepy_schedule : list (nat * clock_event) :=
  replicate 7 (1%nat, None) ++ replicate 9 (0%nat, None).

Lemma pool_wakes_witness :
  exists st s, shared (mem st) = Ret s /\ count (ps_pool s) = 1 /\ signalled st 1 /\
    exists i, signalled st i /\ forall evs, length evs = 7%nat ->
      exists k st' l, run_system pool_client (pair i <$> take k evs) st = Ret st' /\ places st' !! i = Some (Client l).
Proof.
  destruct (pool_wakes sleepy_results 1 2 1 sleepy_pool 2 [Add 7 1] sleepy_schedule)
    as (st & events & s & E & Hs & _ & Hw); [reflexivity|by intros q [= <-]|lia|].
  assert (Hst : match run_system pool_client sleepy_schedule
      (new_system (Ret (new_pool_state sleepy_pool)) (pool_clients 1 [Add 7 1])) with
    | Ret st => mutex (mem st) = None /\ signalled st 1 /\
        match shared (mem st) with Ret s => count (ps_pool s) = 1 | _ => False end
    | _ => False
    end) by (vm_compute; repeat split).
  change (Z.to_nat (thread_count sleepy_pool)) with 1%nat in E. rewrite E, Hs in Hst.
  destruct Hst as (Hm & Hx & Hc). exists st, s. split; [done|]. split; [done|]. split; [done|].
  destruct (Hw Hm) as [_ Ha]; [left; lia|]. exact (Ha 1%nat Hx).
Defined.
