(* ===== verification/Region.v ===== *)
(** * A parallel region from fork to join (src/lib/libbomp: kmp.c, parallel.c,
    processing.c, popcorn_threadpool.c, spin.h)

    The operations of the thread pool, the regions and the barrier put together:
    the master runs [__kmpc_fork_call], the workers [threadpool_run], and a
    schedule of threads interleaves their steps.  A step is a critical section
    of the pool, an access to the barrier, a call that sets or reads
    thread-local data, or one action of the program's own code.  That code, the
    microtask, is a list of phases that [__kmpc_barrier] separates; each phase
    is a list of actions on the program's memory. *)

From S2P Require Import Prelude Schedule Barrier ThreadPool Parallel.

#[local] Open Scope Z_scope.

(** ** Definitions *)

(** [GOMP_barrier] up to the wait at the barrier that it finds, always the
    pool's; [__kmpc_barrier] and [__kmpc_cancel_barrier] call it. *)
Definition GOMP_barrier (self : Z) (s : omp_state) : outcome bool :=
  match tls s !! self with
  | None => abort
  | Some l => _ ← get (works s !! l_work l); Ret true
  end.

Definition kmpc_barrier (self : Z) (s : omp_state) : outcome bool := GOMP_barrier self s.

Definition set_global_barrier (b : bomp_barrier) (p : threadpool_t) : threadpool_t :=
  Pool (queue p) (thread_count p) (queue_size p) (head p) (tail p) (count p) (shutdown p)
    (started p) b.

(** A thread in the microtask: before the [k]-th action of phase [ph], or in
    [bomp_barrier_wait] after that phase. *)
Inductive body_pc :=
  | Doing (ph k : nat)
  | AtBarrier (ph : nat) (p : wait_pc).

(** The master in [__kmpc_fork_call]: before the call of
    [bomp_start_processing], in its loop (for thread [i] of [n]), in the
    microtask or at the barrier after it, behind that barrier, and returned. *)
Inductive master_pc :=
  | Forking
  | Adding (n i : Z)
  | MasterRuns (b : body_pc)
  | Joining
  | Joined.

(** A worker in [threadpool_run]: at the lock, with a task, about to call the
    task's function, in [bomp_thread_fn] before the region's function, in the
    microtask with its thread number and data (or at the barrier after it), and
    ended. *)
Inductive worker_pc :=
  | Resting
  | Given (t : threadpool_task_t)
  | Calling (t : threadpool_task_t)
  | Entering (xdata : Z) (w : bomp_work)
  | WorkerRuns (xdata tid : Z) (d : shared_data) (b : body_pc)
  | Ended.

Section Region.
Context {U : Type} (microtask : Z -> shared_data -> list (list (U -> U))).
Context (memory wrapper_data : Z) (data : shared_data).

(** The master's [wrapper_data] is an object of its stack frame, which exists
    until the call returns; the actions done so far are recorded with their
    thread number and phase. *)
Record region := Region {
  r_omp : omp_state;
  r_wrappers : gmap Z shared_data;
  r_user : U;
  r_log : list (Z * nat * (U -> U));
  r_master : master_pc;
  r_workers : list worker_pc
}.

Definition master_id : Z := 0.
Definition worker_id (j : nat) : Z := Z.of_nat j + 1.

(** A step of a thread in the microtask: the action, and where the thread is
    then ([None] when it is behind the last barrier).  [inner] and [last] are
    the lookups of the barrier inside and at the end of the region, with whether
    the thread waits there. *)
Definition body_step (phases : list (list (U -> U))) (inner last : outcome bool)
    (s : omp_state) (b : body_pc) : outcome (omp_state * option (nat * (U -> U)) * option body_pc) :=
  match b with
  | Doing ph k =>
      match default [] (phases !! ph) !! k with
      | Some f => Ret (s, Some (ph, f), Some (Doing ph (k + 1)))
      | None =>
          waits ← (if (ph + 1 <? length phases)%nat then inner else last);
          Ret (s, None, if waits : bool then Some (AtBarrier ph Outside) else None)
      end
  | AtBarrier ph pc =>
      p ← get (pool s);
      let '(b, pc) := bomp_barrier_wait_step (global_barrier p) pc in
      Ret (set_pool (Some (set_global_barrier b p)) (bomp_num_threads s) s, None,
        match pc with
        | Outside => if (ph + 1 <? length phases)%nat then Some (Doing (ph + 1) 0) else None
        | _ => Some (AtBarrier ph pc)
        end)
  end.

Definition acted (tid : Z) (act : option (nat * (U -> U))) (st : region) : region :=
  match act with
  | Some (ph, f) =>
      Region (r_omp st) (r_wrappers st) (f (r_user st)) (r_log st ++ [(tid, ph, f)])
        (r_master st) (r_workers st)
  | None => st
  end.

Definition set_omp (s : omp_state) (st : region) : region :=
  Region s (r_wrappers st) (r_user st) (r_log st) (r_master st) (r_workers st).

Definition set_wrappers (ws : gmap Z shared_data) (st : region) : region :=
  Region (r_omp st) ws (r_user st) (r_log st) (r_master st) (r_workers st).

Definition set_master (m : master_pc) (st : region) : region :=
  Region (r_omp st) (r_wrappers st) (r_user st) (r_log st) m (r_workers st).

Definition set_worker (j : nat) (w : worker_pc) (st : region) : region :=
  Region (r_omp st) (r_wrappers st) (r_user st) (r_log st) (r_master st) (<[j := w]> (r_workers st)).

(** [GOMP_parallel_end] waits only at the end of the outermost region. *)
Definition master_end (s : omp_state) : outcome bool :=
  if nested s =? 1 then (_ ← end_barrier s; Ret true) else Ret false.

Definition master_step (st : region) : outcome region :=
  let s := r_omp st in
  match r_master st with
  | Forking =>
      let st := set_wrappers (<[wrapper_data := data]> (r_wrappers st)) st in
      if omp_in_parallel s =? 0 then
        let n := bomp_num_threads s in
        s ← start_team memory master_id kmp_wrapper_fn_ptr wrapper_data n s;
        Ret (set_omp s (set_master (Adding n 1) st))
      else Ret (set_master (Adding 1 1) st)
  | Adding n i =>
      if i <? n then
        s ← add_task (fun _ => all_succeed) memory n kmp_wrapper_fn_ptr wrapper_data i s;
        Ret (set_omp s (set_master (Adding n (i + 1)) st))
      else
        k ← arith int32_t (nested s + 1);
        Ret (set_omp (set_nesting k s) (set_master (MasterRuns (Doing 0 0)) st))
  | MasterRuns b =>
      '(s, act, b) ← body_step (microtask 0 data) (kmpc_barrier master_id s) (master_end s) s b;
      Ret (set_omp s (set_master (match b with Some b => MasterRuns b | None => Joining end)
        (acted 0 act st)))
  | Joining =>
      s ← GOMP_parallel_end s;
      Ret (set_omp s (set_wrappers (delete wrapper_data (r_wrappers st)) (set_master Joined st)))
  | Joined => Ret st
  end.

Definition worker_step (j : nat) (w : worker_pc) (st : region) : outcome region :=
  let s := r_omp st in
  match w with
  | Resting =>
      p ← get (pool s);
      '(a, p) ← threadpool_run_step p;
      let st' := set_omp (set_pool (Some p) (bomp_num_threads s) s) st in
      Ret match a with
      | Sleep => st
      | Die => set_worker j Ended st'
      | Take t => set_worker j (Given t) st'
      end
  | Given t =>
      s ← bomp_set_tls (worker_id j) (task_args t) s;
      Ret (set_omp s (set_worker j (Calling t) st))
  | Calling t =>
      if task_fn t =? bomp_thread_fn_ptr then
        '(s, w) ← bomp_thread_fn (worker_id j) (task_args t) s;
        Ret (set_omp s (set_worker j (Entering (task_args t) w) st))
      else Fault
  | Entering xdata w =>
      if w_fn w =? kmp_wrapper_fn_ptr then
        tid ← omp_get_thread_num (worker_id j) s;
        d ← get (r_wrappers st !! w_data w);
        Ret (set_worker j (WorkerRuns xdata tid d (Doing 0 0)) st)
      else Fault
  | WorkerRuns xdata tid d b =>
      '(s, act, b) ← body_step (microtask tid d) (kmpc_barrier (worker_id j) s)
        (_ ← get (works s !! xdata); Ret true) s b;
      Ret (set_omp s (set_worker j
        (match b with Some b => WorkerRuns xdata tid d b | None => Resting end) (acted tid act st)))
  | Ended => Ret st
  end.

(** Thread 0 is the master, thread [j + 1] the [j]-th worker. *)
Definition region_step (st : region) (a : nat) : outcome region :=
  match a with
  | O => master_step st
  | S j => match r_workers st !! j with Some w => worker_step j w st | None => Ret st end
  end.

Fixpoint run_region (sched : list nat) (st : region) : outcome region :=
  match sched with
  | [] => Ret st
  | a :: sched => st ← region_step st a; run_region sched st
  end.

Definition new_region (s : omp_state) (workers : nat) (u : U) : region :=
  Region s ∅ u [] Forking (replicate workers Resting).

(** ** Lemmas *)

(** The master's steps up to the microtask, when no worker interferes, are
    those of [GOMP_parallel_start]. *)
Lemma adding_alone fuel n i st s' :
  r_master st = Adding n i -> fuel = Z.to_nat (n - i) ->
  add_tasks (fun _ => all_succeed) memory n kmp_wrapper_fn_ptr wrapper_data fuel i (r_omp st) = Ret s' ->
  exists st', run_region (replicate fuel 0%nat) st = Ret st' /\ r_omp st' = s' /\
    exists i', r_master st' = Adding n i' /\ n <= i'.
Proof.
  revert i st. induction fuel as [|fuel IH]; intros i st Hm Hf Ha; cbn [add_tasks] in Ha.
  - injection Ha as <-. exists st. split_and!; [done|done|]. exists i. split; [done|lia].
  - apply outcome_bind_Ret in Ha as (s1 & Hs1 & Ha). cbn [replicate run_region region_step].
    unfold master_step. rewrite Hm, (proj2 (Z.ltb_lt i n)), Hs1 by lia. cbn [mbind outcome_bind].
    apply (IH (i + 1)); [done|lia|done].
Qed.

Lemma start_alone s u workers s' :
  GOMP_parallel_start (fun _ => all_succeed) memory master_id kmp_wrapper_fn_ptr wrapper_data
    (bomp_num_threads s) s = Ret s' ->
  exists k st, run_region (replicate k 0%nat) (new_region s workers u) = Ret st /\
    r_omp st = s' /\ r_master st = MasterRuns (Doing 0 0).
Proof.
  unfold GOMP_parallel_start. intros (s1 & Hs1 & Hs')%outcome_bind_Ret.
  assert (forall st n i, r_master st = Adding n i -> n <= i -> r_omp st = s1 ->
    exists st', region_step st 0%nat = Ret st' /\ r_omp st' = s' /\ r_master st' = MasterRuns (Doing 0 0)) as Hlast.
  { intros st n i Hm Hi <-. apply outcome_bind_Ret in Hs' as (k & Hk & [= <-]).
    cbn [region_step]. unfold master_step. rewrite Hm, (proj2 (Z.ltb_ge i n)), Hk by lia. by eexists. }
  assert (exists k n i st, run_region (replicate k 0%nat) (new_region s workers u) = Ret st /\
    r_omp st = s1 /\ r_master st = Adding n i /\ n <= i) as (k & n & i & st & Hst & Hs & Hm & Hi).
  { destruct (omp_in_parallel s =? 0) eqn:Hp.
    2:{ injection Hs1 as <-. exists 1%nat, 1, 1. cbn. rewrite Hp. eexists. done. }
    set (c := (_ || _) : bool) in Hs1.
    assert ((if c then bomp_num_threads s else bomp_num_threads s) = bomp_num_threads s) as E by by destruct c.
    rewrite E in Hs1. unfold bomp_start_processing in Hs1. apply outcome_bind_Ret in Hs1 as (s2 & Hs2 & Hs1).
    set (n := bomp_num_threads s) in *.
    set (st1 := Region s2 (<[wrapper_data := data]> ∅) u [] (Adding n 1) (replicate workers Resting)).
    destruct (adding_alone (Z.to_nat (n - 1)) n 1 st1 s1) as (st & Hst & Hs & i & Hm & Hi); try done.
    exists (S (Z.to_nat (n - 1))), n, i, st. split; [|done]. cbn. rewrite Hp. fold n. by rewrite Hs2. }
  destruct (Hlast st n i Hm Hi Hs) as (st' & Hl & ? & ?). exists (k + 1)%nat, st'. split; [|done].
  revert Hst. generalize (new_region s workers u). clear - Hl. induction k as [|k IH]; intros st0; cbn [replicate run_region Nat.add].
  - intros [= ->]. by rewrite Hl.
  - intros (st1 & Hst1 & Hr)%outcome_bind_Ret. rewrite Hst1. by apply IH.
Qed.

End Region.

#[global] Arguments region : clear implicits.
