(* ===== verification/ForkJoin.v ===== *)
(** * Correctness of a parallel region from fork to join

    What [Region]'s steps promise: under every interleaving no step is
    undefined, every thread of the team runs its microtask once, the phases
    follow one another, and with enough workers the call returns.  The proof
    follows each member of the team through the queue, a worker and the rounds
    of the barrier. *)

From stdpp Require Import sorting.
From S2P Require Import Prelude Schedule Barrier ThreadPool Parallel Region.

#[local] Open Scope Z_scope.

(** ** Specification *)

Section Correct.
Context {U : Type} (microtask : Z -> shared_data -> list (list (U -> U))).
Context (memory wrapper_data : Z) (data : shared_data).

(** A team of [n] threads whose microtasks have [P] phases each, and a pool of
    [W] workers; [r0] is the barrier's round at the start. *)
Context (n r0 P W : nat) (u0 : U).

Definition phases (i : nat) : list (list (U -> U)) := microtask (Z.of_nat i) data.
Definition addr (i : nat) : Z := work_address memory (Z.of_nat n) (Z.of_nat i).
Definition task (i : nat) : threadpool_task_t := region_task memory (Z.of_nat n) (Z.of_nat i).

(** *** The actions of thread [i] *)

Definition entry : Type := Z * nat * (U -> U).
Definition e_phase (e : entry) : nat := e.1.2.

Definition phase_of (i ph : nat) : list (U -> U) := default [] (phases i !! ph).

Definition steps_in (i ph k : nat) : list entry :=
  (fun f => (Z.of_nat i, ph, f)) <$> take k (phase_of i ph).

(** Those of the first [ph] phases. *)
Fixpoint steps_before (i ph : nat) : list entry :=
  match ph with
  | O => []
  | S ph => steps_before i ph ++ steps_in i ph (length (phase_of i ph))
  end.

Definition own (i : nat) (log : list entry) : list entry :=
  filter (fun e => e.1.1 = Z.of_nat i) log.

Definition replay (log : list entry) (u : U) : U := foldl (fun u e => e.2 u) u log.

Record log_ok (r : nat) (log : list entry) (u : U) : Prop := LogOk {
  lg_tid : Forall (fun e => exists i, (i < n)%nat /\ e.1.1 = Z.of_nat i) log;
  lg_phase : Forall (fun e => (r0 + e_phase e <= r)%nat) log;
  lg_sorted : StronglySorted (fun e e' => (e_phase e <= e_phase e')%nat) log;
  lg_user : u = replay log u0
}.

(** *** What a thread in the microtask has done *)

Definition thread_at (b : body_pc) : thread :=
  match b with
  | Doing ph _ => Thread Outside (r0 + ph) (r0 + ph)
  | AtBarrier ph p =>
      Thread p (r0 + ph + match p with Outside | Entered _ => 0 | _ => 1 end) (r0 + ph)
  end.

Definition log_at (i : nat) (b : body_pc) : list entry :=
  match b with
  | Doing ph k => steps_before i ph ++ steps_in i ph k
  | AtBarrier ph _ => steps_before i (S ph)
  end.

Definition body_ok (i : nat) (b : body_pc) : Prop :=
  match b with
  | Doing ph k => (ph < P /\ k <= length (phase_of i ph))%nat
  | AtBarrier ph _ => (ph < P)%nat
  end.

Definition fresh : thread := Thread Outside r0 r0.
Definition over : thread := Thread Outside (r0 + P) (r0 + P).

(** Steps left, not counting those that change nothing. *)
Definition wait_rem (p : wait_pc) : nat :=
  match p with
  | Outside => 5 | Entered _ => 4 | LastReset => 3 | LastLoad => 2 | LastStore _ => 1 | Waiting _ => 1
  end.

Definition phases_rem (i ph : nat) : nat :=
  sum_list_with (fun q => length (phase_of i q) + 7)%nat (seq ph (P - ph)).

Definition body_rem (i : nat) (b : body_pc) : nat :=
  match b with
  | Doing ph k => phases_rem i ph - k
  | AtBarrier ph p => phases_rem i (S ph) + wait_rem p
  end.

Definition next_thread (b : option body_pc) : thread :=
  match b with Some b => thread_at b | None => over end.
Definition next_log (i : nat) (b : option body_pc) : list entry :=
  match b with Some b => log_at i b | None => steps_before i P end.
Definition next_ok (i : nat) (b : option body_pc) : Prop :=
  match b with Some b => body_ok i b | None => True end.
Definition next_rem (i : nat) (b : option body_pc) : nat :=
  match b with Some b => body_rem i b | None => 0 end.

Definition logged (i : nat) (act : option (nat * (U -> U))) (log : list entry) : list entry :=
  match act with Some (ph, f) => log ++ [(Z.of_nat i, ph, f)] | None => log end.
Definition acted_user (act : option (nat * (U -> U))) (u : U) : U :=
  match act with Some (_, f) => f u | None => u end.

(** *** The invariant *)

(** The thread-local data that the thread with system id [self] has as number
    [i] of the team. *)
Definition local_ok (s : omp_state) (self : Z) (i : nat) : Prop :=
  tls s !! self = Some (Local self (addr i)).

(** The descriptor of the work a worker is busy with. *)
Definition xdata_of (w : worker_pc) : option Z :=
  match w with
  | Given t | Calling t => Some (task_args t)
  | Entering x _ | WorkerRuns x _ _ _ => Some x
  | Resting | Ended => None
  end.

(** Worker [j] is number [i] of the team; [th] is where it stands in the
    barrier's rounds, [lg] what it has done. *)
Definition holds (s : omp_state) (j : nat) (w : worker_pc) (i : nat) (th : thread) (lg : list entry)
    : Prop :=
  match w with
  | Given t | Calling t => t = task i /\ th = fresh /\ lg = []
  | Entering x bw =>
      x = addr i /\ bw = BompWork kmp_wrapper_fn_ptr wrapper_data (Z.of_nat i) /\
      local_ok s (worker_id j) i /\ th = fresh /\ lg = []
  | WorkerRuns x tid d b =>
      x = addr i /\ tid = Z.of_nat i /\ d = data /\ local_ok s (worker_id j) i /\
      body_ok i b /\ th = thread_at b /\ lg = log_at i b
  | Resting | Ended => False
  end.

Record team_ok (s : omp_state) : Prop := TeamOk {
  tm_numbers : g_thread_numbers s = Z.of_nat n;
  tm_array : exists a, g_array_thread_local_data s = Some a /\ length a = n /\
    a !! 0%nat = Some (Some (Local master_id (addr 0)));
  tm_master : local_ok s master_id 0
}.

Definition in_team (s : omp_state) (ws : gmap Z shared_data) (level : Z) : Prop :=
  team_ok s /\ nested s = level /\ ws !! wrapper_data = Some data.

Definition master_ok (s : omp_state) (ws : gmap Z shared_data) (m : master_pc) (th : thread)
    (lg : list entry) : Prop :=
  match m with
  | Forking => g_thread_numbers s = 1 /\ nested s = 0 /\ th = fresh /\ lg = []
  | Adding k i =>
      k = Z.of_nat n /\ 1 <= i <= Z.of_nat n /\ in_team s ws 0 /\ th = fresh /\ lg = []
  | MasterRuns b => in_team s ws 1 /\ body_ok 0 b /\ th = thread_at b /\ lg = log_at 0 b
  | Joining => in_team s ws 1 /\ th = over /\ lg = steps_before 0 P
  | Joined => g_thread_numbers s = 1 /\ nested s = 0 /\ th = over /\ lg = steps_before 0 P
  end.

(** How many members of the team have been handed to the pool, the master
    counted. *)
Definition added (m : master_pc) : nat :=
  match m with Forking => 1 | Adding _ i => Z.to_nat i | _ => n end.

(** The pool's queue holds the members from [lo] on, oldest first. *)
Definition queue_ok (s : omp_state) (lo hi r : nat) (ths : list thread) : Prop :=
  exists p, pool s = Some p /\ pool_ok p /\ shutdown p = 0 /\ Z.of_nat n - 1 <= queue_size p /\
    contents p = task <$> seq lo (hi - lo) /\ barrier_inv r (Team (global_barrier p) ths).

Record region_inv (lo r : nat) (ths : list thread) (st : region U) : Prop := RegionInv {
  ri_pool : queue_ok (r_omp st) lo (added (r_master st)) r ths;
  ri_lo : (1 <= lo <= added (r_master st))%nat;
  ri_num : bomp_num_threads (r_omp st) = Z.of_nat n;
  ri_len : length ths = n;
  ri_size : length (r_workers st) = W;
  ri_master : exists th, ths !! 0%nat = Some th /\
    master_ok (r_omp st) (r_wrappers st) (r_master st) th (own 0 (r_log st));
  ri_works : r_master st <> Forking -> forall i, (i < added (r_master st))%nat ->
    works (r_omp st) !! addr i = Some (BompWork kmp_wrapper_fn_ptr wrapper_data (Z.of_nat i));
  ri_worker : forall j w, r_workers st !! j = Some w -> w = Resting \/
    exists i th, (1 <= i < lo)%nat /\ ths !! i = Some th /\
      holds (r_omp st) j w i th (own i (r_log st));
  ri_distinct : forall j j' w w' x, r_workers st !! j = Some w -> r_workers st !! j' = Some w' ->
    xdata_of w = Some x -> xdata_of w' = Some x -> j = j';
  ri_taken : forall i, (1 <= i < lo)%nat ->
    (exists j w, r_workers st !! j = Some w /\ xdata_of w = Some (addr i)) \/
    (ths !! i = Some over /\ own i (r_log st) = steps_before i P);
  ri_queued : forall i, (lo <= i < n)%nat -> ths !! i = Some fresh /\ own i (r_log st) = [];
  ri_log : log_ok r (r_log st) (r_user st)
}.

(** A step of the thread with system id [k] changes only its own thread-local
    data, its own entry of the team's array, and the pool. *)
Record only_thread (k : Z) (s s' : omp_state) : Prop := OnlyThread {
  ot_numbers : g_thread_numbers s' = g_thread_numbers s;
  ot_num : bomp_num_threads s' = bomp_num_threads s;
  ot_nested : nested s' = nested s;
  ot_works : works s' = works s;
  ot_array : g_array_thread_local_data s' = g_array_thread_local_data s \/
    exists a i x, g_array_thread_local_data s = Some a /\ (0 < i)%nat /\
      g_array_thread_local_data s' = Some (<[i := x]> a);
  ot_tls : forall k', k' <> k -> tls s' !! k' = tls s !! k'
}.

(** *** Steps left in the whole region, when the members from [lo] on are not
    handed to workers yet *)

Definition tid_of (x : Z) : nat :=
  Z.to_nat ((x - memory - Z.of_nat n * sizeof_pointer) / sizeof_bomp_work).

Definition life (i : nat) : nat := body_rem i (Doing 0 0).

Definition worker_rem (w : worker_pc) : nat :=
  match w with
  | Given t => 3 + life (tid_of (task_args t))
  | Calling t => 2 + life (tid_of (task_args t))
  | Entering x _ => 1 + life (tid_of x)
  | WorkerRuns _ tid _ b => body_rem (Z.to_nat tid) b
  | Resting | Ended => 0
  end.

Definition master_rem (m : master_pc) : nat :=
  match m with
  | Forking => n + 4 + life 0
  | Adding _ i => (n - Z.to_nat i) + 3 + life 0
  | MasterRuns b => 2 + body_rem 0 b
  | Joining => 1
  | Joined => 0
  end.

Definition total (lo : nat) (st : region U) : nat :=
  master_rem (r_master st) + sum_list_with worker_rem (r_workers st) +
  sum_list_with (fun i => 4 + life i)%nat (seq lo (n - lo)).

(** ** Lemmas *)

Lemma own_logged i i' act log :
  own i (logged i' act log) =
  own i log ++ (if decide (i = i') then logged i' act [] else []).
Proof.
  unfold own. destruct act as [[ph f]|]; cbn [logged]; [|by case_decide; rewrite app_nil_r].
  rewrite filter_app, filter_cons, filter_nil. cbn. case_decide as E; case_decide as E'; try done.
  - apply Nat2Z.inj in E. done.
  - by subst.
Qed.

Lemma steps_in_snoc i ph k f : phase_of i ph !! k = Some f ->
  steps_in i ph (k + 1) = steps_in i ph k ++ [(Z.of_nat i, ph, f)].
Proof.
  intros Hf. unfold steps_in. rewrite Nat.add_1_r, (take_S_r _ _ _ Hf), fmap_app. done.
Qed.

Lemma phases_rem_S i ph : (ph < P)%nat ->
  phases_rem i ph = (length (phase_of i ph) + 7 + phases_rem i (S ph))%nat.
Proof.
  intros Hp. unfold phases_rem. replace (P - ph)%nat with (S (P - S ph)) by lia. done.
Qed.

Lemma log_ok_snoc r i ph f log u :
  (i < n)%nat -> log_ok r log u -> (r = r0 + ph)%nat -> log_ok r (log ++ [(Z.of_nat i, ph, f)]) (f u).
Proof.
  intros Hi [Ht Hp Hs Hu] Hr. split.
  - apply Forall_app. split; [done|]. apply Forall_singleton. by exists i.
  - apply Forall_app. split; [done|]. apply Forall_singleton. unfold e_phase. cbn. lia.
  - clear - Hs Hp Hr. induction log as [|e log IH]; [repeat constructor|].
    apply StronglySorted_inv in Hs as [Hs He]. apply Forall_cons in Hp as [Hp1 Hp].
    constructor; [by apply IH|]. apply Forall_app. split; [done|]. apply Forall_singleton.
    unfold e_phase in *. cbn. lia.
  - unfold replay in *. rewrite foldl_app. cbn. by rewrite <- Hu.
Qed.

Lemma log_ok_later r r' log u : (r <= r')%nat -> log_ok r log u -> log_ok r' log u.
Proof. intros Hr [? Hp ? ?]. split; try done. eapply Forall_impl; [exact Hp|]. cbn. lia. Qed.

Lemma set_same_barrier s p : pool s = Some p ->
  set_pool (Some (set_global_barrier (global_barrier p) p)) (bomp_num_threads s) s = s.
Proof. destruct s, p. cbn. by intros ->. Qed.

(** *** The microtask's steps *)

Section Team.
Hypothesis n_range : 2 <= Z.of_nat n < 2 ^ 31.
Hypothesis P_pos : (0 < P)%nat.
Hypothesis same_phases : forall i, (i < n)%nat -> length (phases i) = P.

(** Each access to the barrier is the barrier's own step. *)
Lemma barrier_step b ths i ph pc :
  ths !! i = Some (thread_at (AtBarrier ph pc)) ->
  let '(b', pc') := bomp_barrier_wait_step b pc in
  step (Team b ths) i = Team b' (<[i := match pc' with
    | Outside => Thread Outside (r0 + S ph) (r0 + S ph)
    | _ => thread_at (AtBarrier ph pc') end]> ths).
Proof.
  intros Hi. pose proof (step_thread (Team b ths) i _ _ _ Hi (surjective_pairing _)) as Hs. cbn [t_barrier t_threads] in Hs.
  rewrite Hs. unfold thread_step. cbn [thread_at t_pc arrived left].
  destruct pc; cbn; try (destruct (_ =? _); cbn);
    do 3 f_equal; try reflexivity; lia.
Qed.

Lemma body_barrier i ph pc s p ths r inner last log u :
  pool s = Some p -> (i < n)%nat -> (ph < P)%nat ->
  barrier_inv r (Team (global_barrier p) ths) -> ths !! i = Some (thread_at (AtBarrier ph pc)) ->
  own i log = log_at i (AtBarrier ph pc) -> log_ok r log u ->
  exists B b' r',
    body_step (phases i) inner last s (AtBarrier ph pc) =
      Ret (set_pool (Some (set_global_barrier B p)) (bomp_num_threads s) s, None, b') /\
    (r <= r')%nat /\ barrier_inv r' (Team B (<[i := next_thread b']> ths)) /\
    log_ok r' log u /\ next_ok i b' /\ own i log = next_log i b' /\
    (bomp_barrier_wait_step (global_barrier p) pc = (global_barrier p, pc) /\
       B = global_barrier p /\ b' = Some (AtBarrier ph pc) \/
     (next_rem i b' < body_rem i (AtBarrier ph pc))%nat).
Proof.
  intros Hp Hin Hph Hinv Hi Hown Hlog. cbn [body_step]. rewrite Hp. cbn [get mbind outcome_bind].
  pose proof (barrier_step (global_barrier p) ths i ph pc Hi) as Hs.
  assert (wait_rem (bomp_barrier_wait_step (global_barrier p) pc).2 < wait_rem pc \/
    bomp_barrier_wait_step (global_barrier p) pc = (global_barrier p, pc) \/
    (bomp_barrier_wait_step (global_barrier p) pc).2 = Outside /\ 0 < wait_rem pc)%nat as Hrem.
  { destruct pc; cbn; try (left; lia); try (right; right; split; [done|lia]).
    - destruct (_ =? _); left; cbn; lia.
    - destruct (_ =? _); [right; left; done|right; right; split; [done|lia]]. }
  destruct (bomp_barrier_wait_step (global_barrier p) pc) as [B pc'].
  assert (exists r', (r <= r')%nat /\ barrier_inv r' (step (Team (global_barrier p) ths) i)) as (r' & Hr & Hinv').
  { destruct (barrier_inv_step r _ i Hinv); [by exists r|exists (S r); split; [lia|done]]. }
  rewrite Hs in Hinv'. rewrite same_phases by done.
  exists B, (match pc' with
    | Outside => if (ph + 1 <? P)%nat then Some (Doing (ph + 1) 0) else None
    | _ => Some (AtBarrier ph pc') end), r'.
  split; [done|]. split; [done|].
  pose proof (log_ok_later _ _ _ _ Hr Hlog) as Hlog'. cbn [snd] in Hrem.
  destruct (decide (pc' = Outside)) as [->|Hne].
  2:{ assert (next_thread (Some (AtBarrier ph pc')) = match pc' with
        | Outside => Thread Outside (r0 + S ph) (r0 + S ph)
        | _ => thread_at (AtBarrier ph pc') end) as Ht by by destruct pc'.
      rewrite <- Ht in Hinv'.
      assert ((match pc' with
        | Outside => if (ph + 1 <? P)%nat then Some (Doing (ph + 1) 0) else None
        | _ => Some (AtBarrier ph pc') end) = Some (AtBarrier ph pc')) as -> by by destruct pc'.
      split_and!; try done. cbn. destruct Hrem as [?|[[= <- <-]|[? _]]]; [right; lia|by left|done]. }
  rewrite <- Nat.add_1_r in Hinv'.
  assert (next_rem i (if (ph + 1 <? P)%nat then Some (Doing (ph + 1) 0) else None) <
    body_rem i (AtBarrier ph pc))%nat as Hlt.
  { cbn [body_rem]. assert (0 < wait_rem pc)%nat by (destruct pc; cbn; lia).
    destruct (_ <? _)%nat; cbn; [|lia]. rewrite Nat.add_1_r. lia. }
  destruct (Nat.ltb_spec (ph + 1) P); cbn [next_thread next_ok next_log body_ok log_at thread_at].
  - split_and!; try done; [lia| |by right]. unfold steps_in.
    by rewrite take_0, app_nil_r, Hown, Nat.add_1_r.
  - assert (P = ph + 1)%nat as EP by lia. unfold over. rewrite EP. split_and!; try done; [|by right].
    rewrite Hown. cbn [log_at]. by rewrite Nat.add_1_r.
Qed.

Lemma insert_same (ths : list thread) i th : ths !! i = Some th -> <[i := th]> ths = ths.
Proof. apply list_insert_id. Qed.

(** A thread between two barriers is in the barrier's current round. *)
Lemma doing_round r b ths i ph k :
  barrier_inv r (Team b ths) -> ths !! i = Some (thread_at (Doing ph k)) -> r = (r0 + ph)%nat.
Proof. intros Hinv Hi. by destruct (Forall_lookup_1 _ _ _ _ (inv_threads _ _ Hinv) Hi). Qed.

Lemma body_doing i ph k s ths B r inner last log u :
  (i < n)%nat -> body_ok i (Doing ph k) -> inner = Ret true -> last = Ret true ->
  barrier_inv r (Team B ths) -> ths !! i = Some (thread_at (Doing ph k)) ->
  own i log = log_at i (Doing ph k) -> log_ok r log u ->
  exists act b',
    body_step (phases i) inner last s (Doing ph k) = Ret (s, act, Some b') /\
    thread_at b' = thread_at (Doing ph k) /\ body_ok i b' /\
    log_ok r (logged i act log) (acted_user act u) /\ own i (logged i act log) = log_at i b' /\
    (body_rem i b' < body_rem i (Doing ph k))%nat.
Proof.
  intros Hin [Hph Hk] -> -> Hinv Hi Hown Hlog. cbn [body_step]. fold (phase_of i ph).
  pose proof (doing_round _ _ _ _ _ _ Hinv Hi) as Hr. pose proof (phases_rem_S i ph Hph) as Hrem.
  destruct (phase_of i ph !! k) as [f|] eqn:Hf.
  - pose proof (lookup_lt_Some _ _ _ Hf). exists (Some (ph, f)), (Doing ph (k + 1)).
    cbn [logged acted_user thread_at body_ok log_at body_rem].
    split_and!; try done; [lia|by apply log_ok_snoc| |lia].
    change (log ++ _) with (logged i (Some (ph, f)) log).
    rewrite own_logged, decide_True, Hown by done. cbn [log_at logged app].
    by rewrite (steps_in_snoc _ _ _ _ Hf), app_assoc.
  - apply lookup_ge_None in Hf. exists None, (AtBarrier ph Outside).
    assert (k = length (phase_of i ph)) as -> by lia.
    split_and!; [by destruct (_ <? _)%nat|..]; cbn [logged acted_user thread_at body_ok log_at body_rem wait_rem] in *;
      try done; [by rewrite Nat.add_0_r|lia].
Qed.

(** A thread in the barrier's loop that a step does not release. *)
Definition spins (s : omp_state) (b : body_pc) : Prop :=
  exists p ph pc, pool s = Some p /\ b = AtBarrier ph pc /\
    bomp_barrier_wait_step (global_barrier p) pc = (global_barrier p, pc).

(** Both kinds of step at once. *)
Lemma body_step_spec i b s p ths r inner last log u :
  pool s = Some p -> (i < n)%nat -> body_ok i b ->
  ((exists ph k, b = Doing ph k) -> inner = Ret true /\ last = Ret true) ->
  barrier_inv r (Team (global_barrier p) ths) -> ths !! i = Some (thread_at b) ->
  own i log = log_at i b -> log_ok r log u ->
  exists B act b' r',
    body_step (phases i) inner last s b =
      Ret (set_pool (Some (set_global_barrier B p)) (bomp_num_threads s) s, act, b') /\
    (r <= r')%nat /\ barrier_inv r' (Team B (<[i := next_thread b']> ths)) /\
    log_ok r' (logged i act log) (acted_user act u) /\ next_ok i b' /\
    own i (logged i act log) = next_log i b' /\
    (spins s b /\ B = global_barrier p /\ act = None /\ b' = Some b \/ (next_rem i b' < body_rem i b)%nat).
Proof.
  intros Hp Hin Hok Hlook Hinv Hi Hown Hlog. destruct b as [ph k|ph pc].
  - destruct Hlook as [Hl1 Hl2]; [eauto|].
    destruct (body_doing i ph k s _ _ _ _ _ _ _ Hin Hok Hl1 Hl2 Hinv Hi Hown Hlog)
      as (act & b' & Hb & Ht & Hok' & Hlog' & Hown' & Hrem).
    exists (global_barrier p), act, (Some b'), r. rewrite set_same_barrier by done. cbn [next_thread].
    rewrite Ht, insert_same by done. split_and!; try done. by right.
  - destruct (body_barrier i ph pc s p ths r inner last log u) as (B & b' & r' & ? & ? & ? & ? & ? & ? & Hrem);
      [done..|].
    exists B, None, b', r'. split_and!; try done. destruct Hrem as [(? & ? & ?)|?]; [left|by right].
    split_and!; try done. by exists p, ph, pc.
Qed.

(** *** Workers *)

Lemma addr_inj i i' : addr i = addr i' -> i = i'.
Proof. intros H%work_address_inj. by apply Nat2Z.inj. Qed.

Lemma holds_xdata s j w i th lg : holds s j w i th lg -> xdata_of w = Some (addr i).
Proof. destruct w; cbn; try done; by intros (-> & _). Qed.

Lemma team_ok_only k s s' : only_thread k s s' -> k <> master_id -> team_ok s -> team_ok s'.
Proof.
  intros [Hg _ _ _ Ha Ht] Hk [Hg' (a & Ha' & Hl & H0) Hm]. split.
  - congruence.
  - destruct Ha as [->|(a1 & i & x & E & Hi & ->)]; [by exists a|].
    assert (a1 = a) as -> by congruence. eexists. split_and!; [done|by rewrite length_insert|].
    by rewrite list_lookup_insert_ne by lia.
  - unfold local_ok. by rewrite Ht.
Qed.

Lemma master_ok_only k s s' ws m th lg :
  only_thread k s s' -> k <> master_id -> master_ok s ws m th lg -> master_ok s' ws m th lg.
Proof.
  intros Ho Hk. assert (forall l, in_team s ws l -> in_team s' ws l) as Hin.
  { intros l (Ht & Hn & Hw). split_and!; [by eapply team_ok_only| |done]. by rewrite (ot_nested _ _ _ Ho). }
  destruct m; cbn; rewrite ?(ot_numbers _ _ _ Ho), ?(ot_nested _ _ _ Ho); intuition auto.
Qed.

Lemma worker_id_inj j j' : worker_id j = worker_id j' -> j = j'.
Proof. unfold worker_id. lia. Qed.

Lemma holds_tls s s' j w i th lg :
  tls s' !! worker_id j = tls s !! worker_id j -> holds s j w i th lg -> holds s' j w i th lg.
Proof. intros E. unfold holds, local_ok. by rewrite E. Qed.

Lemma holds_only k s s' j w i th lg :
  only_thread k s s' -> worker_id j <> k -> holds s j w i th lg -> holds s' j w i th lg.
Proof. intros Ho Hj. by apply holds_tls, (ot_tls _ _ _ Ho). Qed.

Lemma set_pool_only k p s : only_thread k s (set_pool p (bomp_num_threads s) s).
Proof. split; try done. by left. Qed.

Lemma worker_not_master j : worker_id j <> master_id.
Proof. unfold worker_id, master_id. lia. Qed.

Lemma acted_eq i act (st : region U) :
  acted (Z.of_nat i) act st =
  Region (r_omp st) (r_wrappers st) (acted_user act (r_user st)) (logged i act (r_log st))
    (r_master st) (r_workers st).
Proof. destruct act as [[ph f]|]; [done|]. by destruct st. Qed.

(** A step of worker [j], number [i] of the team. *)
Lemma worker_update lo r ths st j w i s' p p' r' th' act w' :
  region_inv lo r ths st -> r_workers st !! j = Some w -> xdata_of w = Some (addr i) ->
  (1 <= i < lo)%nat -> only_thread (worker_id j) (r_omp st) s' ->
  pool (r_omp st) = Some p -> pool s' = Some p' -> p' = set_global_barrier (global_barrier p') p ->
  barrier_inv r' (Team (global_barrier p') (<[i := th']> ths)) ->
  log_ok r' (logged i act (r_log st)) (acted_user act (r_user st)) ->
  (w' = Resting /\ th' = over /\ own i (logged i act (r_log st)) = steps_before i P \/
   holds s' j w' i th' (own i (logged i act (r_log st)))) ->
  region_inv lo r' (<[i := th']> ths) (set_omp s' (set_worker j w' (acted (Z.of_nat i) act st))).
Proof.
  intros [(q & Hq & Hok & Hsd & Hsz & Hct & _) Hlo Hnum Hlen Hsize Hmas Hwks Hwk Hdis Htak Hque _]
    Hj Hx Hi Ho Hp Hp' Hpp Hbar Hlog Hw'.
  assert (q = p) as -> by congruence. pose proof (lookup_lt_Some _ _ _ Hj) as Hjlt.
  assert (forall i', i' <> i -> own i' (logged i act (r_log st)) = own i' (r_log st)) as Hown.
  { intros i' Hne. by rewrite own_logged, decide_False, app_nil_r by done. }
  assert (forall i', i' <> i -> <[i := th']> ths !! i' = ths !! i') as Hths
    by (intros; by apply list_lookup_insert_ne).
  assert (<[i := th']> ths !! i = Some th') as Hthi.
  { apply list_lookup_insert_eq. rewrite Hlen.
    assert (added (r_master st) <= n)%nat; [|lia]. destruct Hmas as (th & _ & Hmas).
    destruct (r_master st); cbn in *; lia. }
  assert (forall x, xdata_of w' = Some x -> x = addr i) as Hxw'.
  { destruct Hw' as [(-> & _)|H%holds_xdata]; [done|]. rewrite H. by intros x [= <-]. }
  assert (forall j1, <[j := w']> (r_workers st) !! j1 = if decide (j1 = j) then Some w' else r_workers st !! j1) as Hws.
  { intros j1. case_decide as E; [subst; by apply list_lookup_insert_eq|by apply list_lookup_insert_ne]. }
  rewrite acted_eq. split; cbn [r_omp r_wrappers r_user r_log r_master r_workers set_omp set_worker]; try done.
  - exists p'. rewrite Hpp. destruct Hok; split_and!; try done; by rewrite <- Hpp.
  - by rewrite (ot_num _ _ _ Ho).
  - by rewrite length_insert.
  - by rewrite length_insert.
  - destruct Hmas as (th & Hth & Hmas). exists th. rewrite Hths, Hown by lia. split; [done|].
    eapply master_ok_only; eauto using worker_not_master.
  - by rewrite (ot_works _ _ _ Ho).
  - intros j1 w1. rewrite Hws. case_decide as E.
    + intros [= <-]. subst j1. destruct Hw' as [(-> & _)|Hw']; [by left|]. right. by exists i, th'.
    + intros Hj1. destruct (Hwk _ _ Hj1) as [->|(i1 & th1 & Hi1 & Ht1 & Hh)]; [by left|].
      right. exists i1, th1. assert (i1 <> i) as Hii.
      { intros ->. apply E. by apply (Hdis j1 j w1 w (addr i)); [..|eapply holds_xdata|]. }
      rewrite Hths, Hown by done. split_and!; try done; try lia.
      eapply holds_only; [done| |done]. by intros ?%worker_id_inj.
  - intros j1 j2 w1 w2 x. rewrite !Hws. case_decide as E1; case_decide as E2; intros H1 H2 X1 X2; [congruence|..].
    + injection H1 as <-. apply Hxw' in X1 as ->. subst j1. by apply (Hdis j j2 w w2 (addr i)).
    + injection H2 as <-. apply Hxw' in X2 as ->. subst j2. by apply (Hdis j1 j w1 w (addr i)).
    + by apply (Hdis j1 j2 w1 w2 x).
  - intros i1 Hi1. destruct (decide (i1 = i)) as [->|Hne].
    + destruct Hw' as [(-> & -> & Hfull)|Hw'%holds_xdata]; [right; by rewrite Hthi|].
      left. exists j, w'. by rewrite Hws, decide_True.
    + rewrite Hths, Hown by done. destruct (Htak i1 Hi1) as [(j1 & w1 & H1 & X1)|?]; [|by right].
      left. exists j1, w1. rewrite Hws, decide_False; [done|]. intros ->. apply Hne, addr_inj. congruence.
  - intros i1 Hi1. rewrite Hths, Hown by lia. auto.
Qed.

Lemma worker_move lo r ths st j w i th s' w' :
  region_inv lo r ths st -> r_workers st !! j = Some w -> xdata_of w = Some (addr i) ->
  (1 <= i < lo)%nat -> ths !! i = Some th -> only_thread (worker_id j) (r_omp st) s' ->
  pool s' = pool (r_omp st) -> holds s' j w' i th (own i (r_log st)) ->
  region_inv lo r ths (set_omp s' (set_worker j w' st)).
Proof.
  intros Hinv Hj Hx Hi Hth Ho Hp Hh. destruct (ri_pool _ _ _ _ Hinv) as (p & Hp0 & _ & _ & _ & _ & Hbar).
  rewrite <- (insert_same _ _ _ Hth).
  apply (worker_update lo r ths st j w i s' p p r th None w'); auto.
  - congruence.
  - by destruct p.
  - by rewrite insert_same.
  - apply (ri_log _ _ _ _ Hinv).
Qed.

(** While a member of the team has not reached the last barrier, the call has
    not returned. *)
Lemma still_forked lo r ths st i th :
  region_inv lo r ths st -> (1 <= i < lo)%nat -> ths !! i = Some th -> (arrived th < r0 + P)%nat ->
  r_master st <> Forking /\ exists level, in_team (r_omp st) (r_wrappers st) level.
Proof.
  intros Hinv Hi Hth Ha. destruct (ri_pool _ _ _ _ Hinv) as (p & _ & _ & _ & _ & _ & Hbar).
  destruct (ri_master _ _ _ _ Hinv) as (th0 & Hth0 & Hm). pose proof (ri_lo _ _ _ _ Hinv) as Hlo.
  pose proof (inv_threads _ _ Hbar) as Hall. cbn [t_threads] in Hall.
  pose proof (thread_ok_bounds _ _ (Forall_lookup_1 _ _ _ _ Hall Hth)).
  pose proof (thread_ok_bounds _ _ (Forall_lookup_1 _ _ _ _ Hall Hth0)) as H0.
  destruct (r_master st); cbn in Hm, Hlo; [lia|split; [done|]..].
  - exists 0. tauto.
  - exists 1. tauto.
  - exists 1. tauto.
  - destruct Hm as (_ & _ & -> & _). cbn in H0. lia.
Qed.

Lemma set_tls_ok s k i :
  team_ok s -> (1 <= i < n)%nat ->
  works s !! addr i = Some (BompWork kmp_wrapper_fn_ptr wrapper_data (Z.of_nat i)) ->
  exists s', bomp_set_tls k (addr i) s = Ret s' /\ only_thread k s s' /\ local_ok s' k i /\
    pool s' = pool s /\ works s' = works s.
Proof.
  intros [_ (a & Ha & Hl & _) _] Hi Hw. unfold bomp_set_tls. rewrite Hw, Ha. cbn [get mbind outcome_bind w_thread_id].
  rewrite zupd_Some by (unfold zlen; lia). cbn [get mbind outcome_bind]. eexists. split; [done|].
  split_and!; try done; [split; try done|apply lookup_insert_eq].
  - right. exists a, i, (Some (Local k (addr i))). split_and!; [done|lia|]. cbn. by rewrite Nat2Z.id.
  - intros k' Hk. by apply lookup_insert_ne.
Qed.

Lemma tid_of_addr i : tid_of (addr i) = i.
Proof.
  unfold tid_of, addr, work_address, sizeof_bomp_work, sizeof_pointer.
  replace (memory + Z.of_nat n * 8 + Z.of_nat i * 32 - memory - Z.of_nat n * 8) with (Z.of_nat i * 32) by lia.
  rewrite Z.div_mul by lia. apply Nat2Z.id.
Qed.

Lemma total_worker lo s j w w' i act (st : region U) :
  r_workers st !! j = Some w -> (worker_rem w' < worker_rem w)%nat ->
  (total lo (set_omp s (set_worker j w' (acted (Z.of_nat i) act st))) < total lo st)%nat.
Proof.
  intros Hj Hw. rewrite acted_eq. unfold total. cbn. pose proof (sum_insert worker_rem _ _ _ w' Hj). lia.
Qed.

Lemma added_le st lo r ths : region_inv lo r ths st -> (added (r_master st) <= n)%nat.
Proof.
  intros Hinv. destruct (ri_master _ _ _ _ Hinv) as (th & _ & Hm). destruct (r_master st); cbn in *; lia.
Qed.

(** What a worker finds in the queue. *)
Lemma take_step lo r ths st :
  region_inv lo r ths st ->
  exists p, pool (r_omp st) = Some p /\
    if decide (lo = added (r_master st)) then threadpool_run_step p = Ret (Sleep, p)
    else exists p', threadpool_run_step p = Ret (Take (task lo), p') /\
      queue_ok (set_pool (Some p') (bomp_num_threads (r_omp st)) (r_omp st)) (S lo)
        (added (r_master st)) r ths.
Proof.
  intros Hinv. pose proof (ri_lo _ _ _ _ Hinv) as Hlo.
  destruct (ri_pool _ _ _ _ Hinv) as (p & Hp & Hok & Hsd & Hsz & Hct & Hbar). exists p. split; [done|].
  destruct (threadpool_run_step_spec p Hok) as (a & p' & Hr & Hok' & Hsd' & Ha); [by left|].
  destruct (threadpool_run_step_barrier _ _ _ Hr) as [Hb Hq]. rewrite Hct, Hsd in Ha.
  case_decide as E.
  - rewrite <- E, Nat.sub_diag in Ha. cbn in Ha. destruct Ha as [-> ->]. done.
  - replace (added (r_master st) - lo)%nat with (S (added (r_master st) - S lo)) in Ha by lia.
    cbn [seq fmap list_fmap] in Ha. destruct Ha as (-> & Hct' & _). exists p'. split; [done|].
    exists p'. rewrite Hb. split_and!; try done; congruence.
Qed.

Lemma worker_take lo r ths st j :
  region_inv lo r ths st -> r_workers st !! j = Some Resting ->
  exists st', worker_step microtask j Resting st = Ret st' /\
    (st' = st /\ lo = added (r_master st) \/
     region_inv (S lo) r ths st' /\ (total (S lo) st' < total lo st)%nat).
Proof.
  intros Hinv Hj. destruct (take_step _ _ _ _ Hinv) as (p & Hp & Htake).
  cbn [worker_step]. rewrite Hp. cbn [get mbind outcome_bind].
  pose proof (added_le _ _ _ _ Hinv) as Hadd. pose proof (lookup_lt_Some _ _ _ Hj) as Hjlt.
  case_decide as E; [rewrite Htake; cbn; exists st; auto|]. destruct Htake as (p' & -> & Hq).
  cbn [mbind outcome_bind]. eexists. split; [done|]. right.
  destruct Hinv as [_ Hlo Hnum Hlen Hsize Hmas Hwks Hwk Hdis Htak Hque Hlog].
  assert (forall j1, <[j := Given (task lo)]> (r_workers st) !! j1 =
    if decide (j1 = j) then Some (Given (task lo)) else r_workers st !! j1) as Hws.
  { intros j1. case_decide; [subst; by apply list_lookup_insert_eq|by apply list_lookup_insert_ne]. }
  assert (forall j1 w1, r_workers st !! j1 = Some w1 -> xdata_of w1 = Some (addr lo) -> False) as Hnew.
  { intros j1 w1 H1 X1. destruct (Hwk _ _ H1) as [->|(i1 & th1 & Hi1 & _ & Hh%holds_xdata)]; [done|].
    rewrite X1 in Hh. injection Hh as ->%addr_inj. lia. }
  destruct (Hque lo) as [Hth Hown]; [lia|].
  split.
  - split; cbn [r_omp r_wrappers r_user r_log r_master r_workers set_omp set_worker]; try done; [lia|..].
    + by rewrite length_insert.
    + destruct Hmas as (th & ? & Hm). exists th. split; [done|].
      by apply (master_ok_only (worker_id 0) _ _ _ _ _ _ (set_pool_only _ _ _)).
    + intros j1 w1. rewrite Hws. case_decide as E1.
      * intros [= <-]. right. exists lo, fresh. split_and!; try done; lia.
      * intros H1. destruct (Hwk _ _ H1) as [?|(i1 & th1 & ? & ? & ?)]; [by left|]. right. exists i1, th1.
        split_and!; try done; lia.
    + intros j1 j2 w1 w2 x. rewrite !Hws.
      case_decide as E1; case_decide as E2; intros H1 H2 X1 X2; [congruence|..|by eapply Hdis].
      * injection H1 as <-. injection X1 as <-. by destruct (Hnew j2 w2).
      * injection H2 as <-. injection X2 as <-. by destruct (Hnew j1 w1).
    + intros i1 Hi1. destruct (decide (i1 = lo)) as [->|].
      * left. exists j, (Given (task lo)). by rewrite Hws, decide_True.
      * destruct (Htak i1) as [(j1 & w1 & H1 & X1)|?]; [lia| |by right]. left. exists j1, w1.
        rewrite Hws, decide_False; [done|]. intros ->. rewrite Hj in H1. by injection H1 as <-.
    + intros i1 Hi1. apply Hque. lia.
  - assert (worker_rem (Given (task lo)) = 3 + life lo)%nat as Hrem.
    { cbn [worker_rem]. change (task_args (task lo)) with (addr lo). by rewrite tid_of_addr. }
    unfold total. cbn. pose proof (sum_insert worker_rem _ _ _ (Given (task lo)) Hj) as Hs.
    rewrite Hrem in Hs. replace (n - lo)%nat with (S (n - S lo)) by lia. cbn in *. lia.
Qed.

(** The steps of a worker up to the microtask. *)
Lemma worker_enters lo r ths st j w i th :
  region_inv lo r ths st -> r_workers st !! j = Some w -> (1 <= i < lo)%nat ->
  ths !! i = Some th -> holds (r_omp st) j w i th (own i (r_log st)) -> th = fresh ->
  (forall x tid d b, w <> WorkerRuns x tid d b) ->
  exists s' w', worker_step microtask j w st = Ret (set_omp s' (set_worker j w' st)) /\
    region_inv lo r ths (set_omp s' (set_worker j w' st)) /\ (worker_rem w' < worker_rem w)%nat.
Proof.
  intros Hinv Hj Hi Hth Hh -> Hnot. pose proof (added_le _ _ _ _ Hinv). pose proof (ri_lo _ _ _ _ Hinv).
  pose proof (holds_xdata _ _ _ _ _ _ Hh) as Hx.
  destruct (still_forked _ _ _ _ _ _ Hinv Hi Hth) as (Hnf & level & Hteam & _ & Hwr); [cbn; lia|].
  pose proof (ri_works _ _ _ _ Hinv Hnf i ltac:(lia)) as Hw.
  assert (forall s' w', only_thread (worker_id j) (r_omp st) s' -> pool s' = pool (r_omp st) ->
    holds s' j w' i fresh (own i (r_log st)) -> region_inv lo r ths (set_omp s' (set_worker j w' st))) as Hmove
    by (intros; by eapply worker_move).
  assert (1 <= i < n)%nat as Hin by lia.
  destruct w as [|t|t|x bw|x tid d b|]; cbn in Hh; try done; [| | |by destruct (Hnot x tid d b)].
  - destruct Hh as (-> & _ & Hown). destruct (set_tls_ok _ (worker_id j) i Hteam Hin Hw) as (s' & Hs & Ho & _ & Hp & _).
    cbn [worker_step]. change (task_args (task i)) with (addr i). rewrite Hs. cbn [mbind outcome_bind].
    exists s', (Calling (task i)). split; [done|]. split; [|cbn [worker_rem]; lia]. by apply Hmove.
  - destruct Hh as (-> & _ & Hown). destruct (set_tls_ok _ (worker_id j) i Hteam Hin Hw) as (s' & Hs & Ho & Hl & Hp & Hws).
    cbn [worker_step]. change (task_fn (task i) =? bomp_thread_fn_ptr) with true. cbn [andb].
    change (task_args (task i)) with (addr i). unfold bomp_thread_fn. rewrite Hs. cbn [mbind outcome_bind].
    rewrite Hws, Hw. cbn [get mbind outcome_bind]. eexists s', _. split; [done|].
    split; [|cbn [worker_rem]; change (task_args (task i)) with (addr i); lia]. by apply Hmove.
  - destruct Hh as (-> & -> & Hl & _ & Hown). cbn [worker_step w_fn w_data Z.eqb Pos.eqb].
    unfold omp_get_thread_num. rewrite (tm_numbers _ Hteam), (proj2 (Z.eqb_neq (Z.of_nat n) 1)) by lia.
    unfold local_ok in Hl. rewrite Hl. cbn [get mbind outcome_bind l_work]. rewrite Hw.
    cbn [get mbind outcome_bind w_thread_id]. rewrite Hwr. cbn [get mbind outcome_bind].
    rewrite (conv_id int32_t) by (unfold ity_min, ity_max; cbn; lia).
    exists (r_omp st), (WorkerRuns (addr i) (Z.of_nat i) data (Doing 0 0)). split; [by destruct st|].
    split; [apply Hmove; [split; try done; by left|done|]|].
    + cbn. rewrite !Nat.add_0_r. split_and!; try done. lia.
    + cbn [worker_rem]. rewrite Nat2Z.id, tid_of_addr. unfold life. lia.
Qed.

(** Its steps in the microtask and at the barriers. *)
Lemma worker_runs lo r ths st j x tid d b :
  region_inv lo r ths st -> r_workers st !! j = Some (WorkerRuns x tid d b) ->
  exists st', worker_step microtask j (WorkerRuns x tid d b) st = Ret st' /\
    (st' = st /\ spins (r_omp st) b \/
     exists r' ths', region_inv lo r' ths' st' /\ (total lo st' < total lo st)%nat).
Proof.
  intros Hinv Hj. pose proof (added_le _ _ _ _ Hinv). pose proof (ri_lo _ _ _ _ Hinv).
  destruct (ri_worker _ _ _ _ Hinv j _ Hj) as [|(i & th & Hi & Hth & Hx & -> & -> & Hl & Hok & -> & Hown)]; [done|].
  subst x. destruct (ri_pool _ _ _ _ Hinv) as (p & Hp & _ & _ & _ & _ & Hbar).
  destruct (body_step_spec i b (r_omp st) p ths r (kmpc_barrier (worker_id j) (r_omp st))
    (_ ← get (works (r_omp st) !! addr i); Ret true) (r_log st) (r_user st))
    as (B & act & b' & r' & Hb & Hr & Hbar' & Hlog' & Hok' & Hown' & Hrem); try done; [lia| |by apply Hinv|].
  { intros (ph & k & ->). cbn in Hok.
    destruct (still_forked _ _ _ _ _ _ Hinv Hi Hth) as (Hnf & _); [cbn; lia|].
    pose proof (ri_works _ _ _ _ Hinv Hnf i ltac:(lia)) as Hw.
    unfold kmpc_barrier, GOMP_barrier, local_ok in *. rewrite Hl. cbn [l_work]. by rewrite Hw. }
  cbn [worker_step]. fold (phases i). rewrite Hb. cbn [mbind outcome_bind]. eexists. split; [done|].
  destruct Hrem as [(Hsp & -> & -> & ->)|Hrem].
  { left. split; [|done]. rewrite set_same_barrier by done. unfold set_worker, set_omp. cbn.
    rewrite list_insert_id by done. by destruct st. }
  right. exists r', (<[i := next_thread b']> ths). split.
  - apply (worker_update lo r ths st j (WorkerRuns (addr i) (Z.of_nat i) data b) i _ p
      (set_global_barrier B p) r' (next_thread b') act); try done.
    + apply set_pool_only.
    + destruct b' as [b'|]; [right|by left].
      cbn. by split_and!.
  - apply (total_worker lo _ j (WorkerRuns (addr i) (Z.of_nat i) data b)); [done|].
    destruct b' as [b'|]; cbn [worker_rem next_rem] in *; rewrite ?Nat2Z.id; lia.
Qed.

Lemma worker_step_ok lo r ths st j w :
  region_inv lo r ths st -> r_workers st !! j = Some w ->
  exists st', worker_step microtask j w st = Ret st' /\
    (st' = st /\ (w = Resting /\ lo = added (r_master st) \/
       exists x tid d b, w = WorkerRuns x tid d b /\ spins (r_omp st) b) \/
     exists lo' r' ths', region_inv lo' r' ths' st' /\ (total lo' st' < total lo st)%nat).
Proof.
  intros Hinv Hj.
  assert ((exists i th, (1 <= i < lo)%nat /\ ths !! i = Some th /\
      holds (r_omp st) j w i th (own i (r_log st)) /\ th = fresh) ->
    (forall x tid d b, w <> WorkerRuns x tid d b) ->
    exists st', worker_step microtask j w st = Ret st' /\
      exists lo' r' ths', region_inv lo' r' ths' st' /\ (total lo' st' < total lo st)%nat) as Henter.
  { intros (i & th & Hi & Hth & Hh & Hf) Hnot.
    destruct (worker_enters _ _ _ _ _ _ _ _ Hinv Hj Hi Hth Hh Hf Hnot) as (s' & w' & Hs & Hinv' & Hrem).
    eexists. split; [exact Hs|]. exists lo, r, ths. split; [done|]. by apply (total_worker lo s' j w w' 0 None). }
  destruct (ri_worker _ _ _ _ Hinv j w Hj) as [->|(i & th & Hi & Hth & Hh)].
  { destruct (worker_take _ _ _ _ _ Hinv Hj) as (st' & Hs & [[? ?]|[? ?]]); exists st'; (split; [done|]).
    - left. auto.
    - right. by exists (S lo), r, ths. }
  destruct w as [|t|t|x bw|x tid d b|]; [done| | | | |done].
  1-3: destruct Henter as (st' & ? & ?); [exists i, th|done|exists st'; by auto];
    do 3 (split; [done|]); cbn in Hh; tauto.
  destruct (worker_runs _ _ _ _ _ _ _ _ _ Hinv Hj) as (st' & Hs & [[? ?]|(r' & ths' & ? & ?)]);
    exists st'; (split; [done|]).
  - left. split; [done|]. right. by exists x, tid, d, b.
  - right. by exists lo, r', ths'.
Qed.

(** *** The master *)

(** A step of the master, number 0 of the team. *)
Lemma master_update lo r ths st s' ws' m' r' th' act :
  region_inv lo r ths st -> (lo <= added m')%nat ->
  queue_ok s' lo (added m') r' (<[0%nat := th']> ths) ->
  bomp_num_threads s' = Z.of_nat n -> (forall k, k <> master_id -> tls s' !! k = tls (r_omp st) !! k) ->
  (forall i, (i < added m')%nat ->
    works s' !! addr i = Some (BompWork kmp_wrapper_fn_ptr wrapper_data (Z.of_nat i))) ->
  master_ok s' ws' m' th' (own 0 (logged 0 act (r_log st))) ->
  log_ok r' (logged 0 act (r_log st)) (acted_user act (r_user st)) ->
  region_inv lo r' (<[0%nat := th']> ths)
    (Region s' ws' (acted_user act (r_user st)) (logged 0 act (r_log st)) m' (r_workers st)).
Proof.
  intros [_ Hlo Hnum Hlen Hsize _ Hwks Hwk Hdis Htak Hque _] Hlo' Hq' Hnum' Htls Hwks' Hm' Hlog'.
  assert (forall i, (i <> 0)%nat -> own i (logged 0 act (r_log st)) = own i (r_log st)) as Hown.
  { intros i Hne. by rewrite own_logged, decide_False, app_nil_r by done. }
  assert (forall i, (i <> 0)%nat -> <[0%nat := th']> ths !! i = ths !! i) as Hths
    by (intros; by apply list_lookup_insert_ne).
  split; cbn [r_omp r_wrappers r_user r_log r_master r_workers]; try done.
  - lia.
  - by rewrite length_insert.
  - exists th'. split; [apply list_lookup_insert_eq; lia|done].
  - intros j w Hj. destruct (Hwk _ _ Hj) as [->|(i & th & Hi & Ht & Hh)]; [by left|]. right. exists i, th.
    rewrite Hths, Hown by lia. split_and!; try done; try lia.
    eapply holds_tls; [|done]. apply Htls, worker_not_master.
  - intros i Hi. rewrite Hths, Hown by lia. auto.
  - intros i Hi. rewrite Hths, Hown by lia. auto.
Qed.

Lemma total_master lo st s' ws' u' log' m' :
  (master_rem m' < master_rem (r_master st))%nat ->
  (total lo (Region s' ws' u' log' m' (r_workers st)) < total lo st)%nat.
Proof. unfold total. cbn. lia. Qed.

Definition progresses (lo : nat) (st st' : region U) : Prop :=
  exists lo' r' ths', region_inv lo' r' ths' st' /\ (total lo' st' < total lo st)%nat.

Lemma master_runs lo r ths st b :
  region_inv lo r ths st -> r_master st = MasterRuns b ->
  exists st', master_step microtask memory wrapper_data data st = Ret st' /\
    (st' = st /\ spins (r_omp st) b \/ progresses lo st st').
Proof.
  intros Hinv Hm. destruct (ri_master _ _ _ _ Hinv) as (th & Hth & Hmas).
  pose proof (ri_lo _ _ _ _ Hinv) as Hlo. pose proof (ri_works _ _ _ _ Hinv) as Hwks. rewrite Hm in *.
  destruct Hmas as ((Hteam & Hnest & Hwr) & Hok & -> & Hown).
  destruct (ri_pool _ _ _ _ Hinv) as (p & Hp & Hpok & Hsd & Hsz & Hct & Hbar). rewrite Hm in Hct.
  pose proof (Hwks ltac:(done) 0%nat ltac:(cbn; lia)) as Hw0.
  destruct (body_step_spec 0 b (r_omp st) p ths r (kmpc_barrier master_id (r_omp st)) (master_end (r_omp st))
    (r_log st) (r_user st)) as (B & act & b' & r' & Hb & Hr & Hbar' & Hlog' & Hok' & Hown' & Hrem); try done;
    [lia| |by apply Hinv|].
  { intros _. destruct Hteam as [_ (a & Ha & Hl & H0) Hl0]. unfold kmpc_barrier, GOMP_barrier, master_end, end_barrier, local_ok in *.
    rewrite Hl0, Hnest, Ha. cbn [l_work Z.eqb Pos.eqb get mbind outcome_bind].
    unfold znth. rewrite decide_True by lia. change (Z.to_nat 0) with 0%nat. rewrite H0. cbn [mjoin option_join get mbind outcome_bind l_work].
    rewrite Hw0, Hp. done. }
  unfold master_step. rewrite Hm. change (phases 0) with (microtask 0 data) in Hb. rewrite Hb.
  cbn [mbind outcome_bind]. eexists. split; [done|].
  change (acted 0 act st) with (acted (Z.of_nat 0) act st). rewrite acted_eq.
  destruct Hrem as [(Hsp & -> & -> & ->)|Hrem].
  { left. split; [|done]. rewrite set_same_barrier by done. destruct st; cbn in *. by subst. }
  right. exists lo, r', (<[0%nat := next_thread b']> ths). cbn [added] in *.
  set (m' := match b' with Some b => MasterRuns b | None => Joining end).
  assert (added m' = n) as Hadd by by destruct b'. split.
  - apply (master_update lo r ths st _ (r_wrappers st) m' r' (next_thread b') act Hinv); rewrite ?Hadd.
    + lia.
    + exists (set_global_barrier B p). destruct Hpok. by split_and!.
    + apply (ri_num _ _ _ _ Hinv).
    + done.
    + by apply Hwks.
    + assert (in_team (set_pool (Some (set_global_barrier B p)) (bomp_num_threads (r_omp st)) (r_omp st)) (r_wrappers st) 1).
      { split_and!; try done. by apply (team_ok_only (worker_id 0) _ _ (set_pool_only _ _ _)). }
      subst m'. destruct b'; by split_and!.
    + done.
  - apply (total_master lo st _ (r_wrappers st) _ _ m'). rewrite Hm. subst m'. destruct b'; cbn [master_rem next_rem] in *; lia.
Qed.

(** The steps of the fork. *)
Hypothesis memory_ok : memory <> NULL.

Lemma start_team_ok s p ws :
  pool s = Some p -> g_thread_numbers s = 1 -> nested s = 0 -> bomp_num_threads s = Z.of_nat n ->
  ws !! wrapper_data = Some data ->
  exists s', start_team memory master_id kmp_wrapper_fn_ptr wrapper_data (Z.of_nat n) s = Ret s' /\
    in_team s' ws 0 /\ pool s' = Some p /\ bomp_num_threads s' = Z.of_nat n /\
    (forall k, k <> master_id -> tls s' !! k = tls s !! k) /\
    works s' !! addr 0 = Some (BompWork kmp_wrapper_fn_ptr wrapper_data 0).
Proof.
  intros Hp Hg Hn Hnum Hws. unfold start_team. rewrite (proj2 (Z.eqb_neq memory NULL)) by done.
  cbn [pool set_team]. rewrite Hp. cbn [get mbind outcome_bind]. change (work_address _ _ 0) with (addr 0).
  unfold bomp_set_tls. cbn [works set_work set_team]. rewrite lookup_insert_eq. cbn [get mbind outcome_bind].
  cbn [g_array_thread_local_data set_work set_team get mbind outcome_bind w_thread_id].
  rewrite zupd_Some by (unfold zlen; rewrite length_replicate; lia). cbn [get mbind outcome_bind].
  eexists. split; [done|].
  split; [split; [split|done]|split_and!]; cbn [g_thread_numbers g_array_thread_local_data tls works pool
    bomp_num_threads set_tls set_work set_team]; try done.
  - eexists. split; [done|]. rewrite length_insert, length_replicate. split; [lia|].
    apply list_lookup_insert_eq. rewrite length_replicate. lia.
  - apply lookup_insert_eq.
  - intros k Hk. by apply lookup_insert_ne.
  - apply lookup_insert_eq.
Qed.

Lemma master_forks lo r ths st :
  region_inv lo r ths st -> r_master st = Forking ->
  exists st', master_step microtask memory wrapper_data data st = Ret st' /\ progresses lo st st'.
Proof.
  intros Hinv Hm. destruct (ri_master _ _ _ _ Hinv) as (th & Hth & Hmas).
  destruct (ri_pool _ _ _ _ Hinv) as (p & Hp & Hq). pose proof (ri_lo _ _ _ _ Hinv) as Hlo.
  rewrite Hm in *. destruct Hmas as (Hg & Hn & -> & Hown). unfold master_step. rewrite Hm.
  unfold omp_in_parallel. rewrite Hg. cbn [Z.eqb Pos.eqb]. rewrite (ri_num _ _ _ _ Hinv).
  destruct (start_team_ok (r_omp st) p (<[wrapper_data := data]> (r_wrappers st)) Hp Hg Hn (ri_num _ _ _ _ Hinv))
    as (s' & -> & Hteam & Hp' & Hnum' & Htls & Hw0); [apply lookup_insert_eq|].
  cbn [mbind outcome_bind]. eexists. split; [done|]. exists lo, r, (<[0%nat := fresh]> ths). split.
  - apply (master_update lo r ths st s' _ (Adding (Z.of_nat n) 1) r fresh None Hinv); try done.
    + cbn in *. lia.
    + exists p. by rewrite (insert_same _ _ _ Hth).
    + intros i Hi. cbn in Hi. assert (i = 0%nat) as -> by lia. done.
    + cbn. split_and!; try done; lia.
    + by apply Hinv.
  - apply (total_master lo st _ _ _ _ (Adding (Z.of_nat n) 1)). rewrite Hm. cbn. lia.
Qed.

Lemma master_adds lo r ths st k i :
  region_inv lo r ths st -> r_master st = Adding k i ->
  exists st', master_step microtask memory wrapper_data data st = Ret st' /\ progresses lo st st'.
Proof.
  intros Hinv Hm. destruct (ri_master _ _ _ _ Hinv) as (th & Hth & Hmas).
  destruct (ri_pool _ _ _ _ Hinv) as (p & Hp & Hok & Hsd & Hsz & Hct & Hbar). pose proof (ri_lo _ _ _ _ Hinv) as Hlo.
  pose proof (ri_works _ _ _ _ Hinv) as Hwks. pose proof (ri_num _ _ _ _ Hinv) as Hnum.
  rewrite Hm in *. cbn [added] in *. destruct Hmas as (-> & Hi & Hteam & -> & Hown).
  unfold master_step. rewrite Hm. destruct (Z.ltb_spec i (Z.of_nat n)).
  - destruct (add_task_spec memory (Z.of_nat n) kmp_wrapper_fn_ptr wrapper_data i (r_omp st) p Hp Hok Hsd)
      as (p1 & -> & Hok1 & Hsd1 & Hqs1 & _ & Hct1 & Hb1).
    { rewrite <- contents_length, Hct by done. unfold zlen. rewrite length_fmap, length_seq. lia. }
    cbn [mbind outcome_bind]. eexists. split; [done|]. exists lo, r, (<[0%nat := fresh]> ths).
    assert (Z.to_nat (i + 1) = S (Z.to_nat i)) as Hi1 by lia. split.
    + apply (master_update lo r ths st _ _ (Adding (Z.of_nat n) (i + 1)) r fresh None Hinv); try done;
        cbn [added]; rewrite ?Hi1.
      * lia.
      * exists p1. rewrite (insert_same _ _ _ Hth), Hb1. split_and!; try done; [congruence|lia|].
        rewrite Hct1, Hct, Nat.sub_succ_l, seq_S, fmap_app by lia. cbn. do 3 f_equal.
        unfold task. f_equal. lia.
      * intros i1 Hi1'. cbn [works set_pool set_work]. destruct (decide (i1 = Z.to_nat i)) as [->|].
        -- unfold addr. rewrite Z2Nat.id by lia. apply lookup_insert_eq.
        -- rewrite lookup_insert_ne by (intros ->%work_address_inj; lia). apply Hwks; [done|lia].
      * destruct Hteam as ([] & ? & ?). split_and!; try done; lia.
      * by apply Hinv.
    + apply (total_master lo st _ _ _ _ (Adding (Z.of_nat n) (i + 1))). rewrite Hm. cbn. lia.
  - assert (i = Z.of_nat n) as -> by lia. rewrite Nat2Z.id in *. destruct Hteam as (Hteam & Hn & Hwr).
    rewrite Hn, arith_in by done. cbn [mbind outcome_bind]. eexists. split; [done|].
    exists lo, r, (<[0%nat := fresh]> ths). split.
    + apply (master_update lo r ths st _ _ (MasterRuns (Doing 0 0)) r fresh None Hinv); try done; cbn [added].
      * lia.
      * exists p. by rewrite (insert_same _ _ _ Hth).
      * intros i1 Hi1. by apply Hwks.
      * destruct Hteam. cbn. rewrite Nat.add_0_r. split_and!; try done. lia.
      * by apply Hinv.
    + apply (total_master lo st _ _ _ _ (MasterRuns (Doing 0 0))). rewrite Hm. cbn [master_rem]. rewrite Nat2Z.id. unfold life. lia.
Qed.

(** Behind the last barrier, every member of the team has reached it. *)
Lemma master_joins lo r ths st :
  region_inv lo r ths st -> r_master st = Joining ->
  exists st', master_step microtask memory wrapper_data data st = Ret st' /\ progresses lo st st'.
Proof.
  intros Hinv Hm. destruct (ri_master _ _ _ _ Hinv) as (th & Hth & Hmas).
  destruct (ri_pool _ _ _ _ Hinv) as (p & Hp & Hq). pose proof (ri_lo _ _ _ _ Hinv) as Hlo.
  pose proof (ri_works _ _ _ _ Hinv) as Hwks.
  rewrite Hm in *. cbn [added] in *. destruct Hmas as ((Hteam & Hn & Hwr) & -> & Hown). unfold master_step. rewrite Hm.
  assert (GOMP_parallel_end (r_omp st) = Ret (set_nesting 0 (set_team 1 None (r_omp st)))) as ->.
  { unfold GOMP_parallel_end, bomp_end_processing, end_barrier. destruct Hteam as [_ (a & Ha & Hl & H0) Hl0].
    rewrite Hn, Ha. cbn [Z.eqb Pos.eqb get mbind outcome_bind]. unfold znth. rewrite decide_True by lia.
    change (Z.to_nat 0) with 0%nat. rewrite H0. cbn [mjoin option_join get mbind outcome_bind l_work].
    rewrite Hwks, Hp by (done || lia). cbn. by rewrite Hn. }
  cbn [mbind outcome_bind]. eexists. split; [done|]. exists lo, r, (<[0%nat := over]> ths). split.
  - apply (master_update lo r ths st _ _ Joined r over None Hinv); try done; cbn [added].
    + lia.
    + exists p. by rewrite (insert_same _ _ _ Hth).
    + apply (ri_num _ _ _ _ Hinv).
    + intros i Hi. by apply Hwks.
    + by apply Hinv.
  - apply (total_master lo st _ _ _ _ Joined). rewrite Hm. cbn. lia.
Qed.

(** *** Runs *)

Definition agent (a : nat) (st : region U) : outcome (region U) :=
  region_step microtask memory wrapper_data data st a.

Definition quiet_worker (lo : nat) (st : region U) (w : worker_pc) : Prop :=
  w = Resting /\ lo = added (r_master st) \/
  exists x tid d b, w = WorkerRuns x tid d b /\ spins (r_omp st) b.

Definition quiet_master (st : region U) : Prop :=
  r_master st = Joined \/ exists b, r_master st = MasterRuns b /\ spins (r_omp st) b.

(** A step is defined, and either gets ahead or changes nothing. *)
Lemma agent_ok lo r ths st a :
  region_inv lo r ths st ->
  exists st', agent a st = Ret st' /\
    (st' = st /\ match a with
       | O => quiet_master st
       | S j => forall w, r_workers st !! j = Some w -> quiet_worker lo st w
       end \/
     progresses lo st st').
Proof.
  intros Hinv. destruct a as [|j]; cbn [agent region_step].
  - assert (Hf : (exists st', master_step microtask memory wrapper_data data st = Ret st' /\ progresses lo st st') ->
      exists st', master_step microtask memory wrapper_data data st = Ret st' /\
        (st' = st /\ quiet_master st \/ progresses lo st st')) by (intros (st' & ? & ?); eauto).
    destruct (r_master st) as [|k i|b| |] eqn:Hm.
    + apply Hf. by eapply master_forks.
    + apply Hf. by eapply master_adds.
    + destruct (master_runs _ _ _ _ _ Hinv Hm) as (st' & ? & [[? ?]|?]); exists st'; (split; [done|]); [left|by right].
      split; [done|]. right. by exists b.
    + apply Hf. by eapply master_joins.
    + exists st. unfold master_step. rewrite Hm. split; [done|]. left. split; [done|]. by left.
  - unfold agent, region_step. destruct (r_workers st !! j) as [w|] eqn:Hj.
    2:{ exists st. split; [done|]. left. by split. }
    destruct (worker_step_ok _ _ _ _ _ _ Hinv Hj) as (st' & ? & [[? Hq]|?]); exists st'; (split; [done|]); [left|by right].
    split; [done|]. intros w' [= <-]. exact Hq.
Qed.

Lemma lo_unique lo lo' r r' ths ths' st :
  region_inv lo r ths st -> region_inv lo' r' ths' st -> lo = lo'.
Proof.
  intros H1 H2. destruct (ri_pool _ _ _ _ H1) as (p & Hp & _ & _ & _ & Hc & _).
  destruct (ri_pool _ _ _ _ H2) as (p' & Hp' & _ & _ & _ & Hc' & _).
  assert (p' = p) as -> by congruence. rewrite Hc in Hc'. apply (f_equal length) in Hc'.
  rewrite !length_fmap, !length_seq in Hc'.
  pose proof (ri_lo _ _ _ _ H1). pose proof (ri_lo _ _ _ _ H2). lia.
Qed.

(** A step that changes nothing was quiet. *)
Lemma agent_quiet lo r ths st a :
  region_inv lo r ths st -> agent a st = Ret st ->
  match a with
  | O => quiet_master st
  | S j => forall w, r_workers st !! j = Some w -> quiet_worker lo st w
  end.
Proof.
  intros Hinv Ha. destruct (agent_ok _ _ _ _ a Hinv) as (st' & Ha' & [[_ ?]|(lo' & r' & ths' & Hinv' & Hlt)]); [done|].
  assert (st' = st) as -> by congruence. rewrite (lo_unique _ _ _ _ _ _ _ Hinv Hinv') in Hlt. lia.
Qed.

Lemma region_run lo r ths sched st :
  region_inv lo r ths st ->
  exists st', run_region microtask memory wrapper_data data sched st = Ret st' /\
    (st' = st /\ Forall (fun a => agent a st = Ret st) sched \/ progresses lo st st').
Proof.
  revert lo r ths st. induction sched as [|a sched IH]; intros lo r ths st Hinv; [exists st; auto|].
  cbn [run_region]. destruct (agent_ok _ _ _ _ a Hinv) as (st1 & Ha & Hst1). unfold agent in Ha. rewrite Ha.
  cbn [mbind outcome_bind]. destruct Hst1 as [[-> _]|(lo1 & r1 & ths1 & Hinv1 & Hlt)].
  - destruct (IH _ _ _ _ Hinv) as (st' & ? & Hc). exists st'. split; [done|].
    destruct Hc as [[-> ?]|?]; [left|by right]. split; [done|]. by constructor.
  - destruct (IH _ _ _ _ Hinv1) as (st' & ? & [[-> _]|(lo2 & r2 & ths2 & ? & ?)]); eexists; (split; [done|right]).
    + by exists lo1, r1, ths1.
    + exists lo2, r2, ths2. split; [done|lia].
Qed.

Lemma region_run_inv lo r ths sched st :
  region_inv lo r ths st ->
  exists st' lo' r' ths', run_region microtask memory wrapper_data data sched st = Ret st' /\
    region_inv lo' r' ths' st'.
Proof.
  intros Hinv. destruct (region_run _ _ _ sched _ Hinv) as (st' & ? & [[-> _]|(lo' & r' & ths' & ? & _)]); eauto 10.
Qed.

(** *** Nobody waits for ever *)

Lemma spins_waiting s b r ths p i :
  spins s b -> pool s = Some p -> barrier_inv r (Team (global_barrier p) ths) ->
  ths !! i = Some (thread_at b) ->
  exists ph c, b = AtBarrier ph (Waiting c) /\ r = (r0 + ph)%nat.
Proof.
  intros (p' & ph & pc & Hp' & -> & Hw) Hp Hbar Hi. assert (p' = p) as -> by congruence.
  pose proof (Forall_lookup_1 _ _ _ _ (inv_threads _ _ Hbar) Hi) as Ht. pose proof (inv_cycle _ _ Hbar) as Hc.
  cbn [t_barrier] in Hc.
  destruct pc; cbn in Hw; try (injection Hw; intros; congruence).
  - injection Hw. destruct (_ =? _); congruence.
  - destruct (Z.eqb_spec (wrap32 c) (cycle (global_barrier p))) as [E|]; [|done].
    exists ph, c. split; [done|]. cbn in Ht. destruct Ht as [(? & ? & _)|(? & ? & ->)]; [lia|].
    rewrite Hc, wrap_parity in E. by apply parity_ne in E.
Qed.

(** With all [lo - 1] members handed out held by workers, a pool of [W]
    workers has one at rest. *)
Lemma resting_worker lo r ths st :
  region_inv lo r ths st -> (lo <= W)%nat -> exists j, r_workers st !! j = Some Resting.
Proof.
  intros Hinv Hlt. set (l := xdata_of <$> r_workers st).
  destruct (decide (None ∈ l)) as [[j Hj]%list_elem_of_lookup|Hnone].
  { apply list_lookup_fmap_Some in Hj as (w & Hx & Hj). exists j.
    destruct (ri_worker _ _ _ _ Hinv _ _ Hj) as [->|(i & th & _ & _ & Hh%holds_xdata)]; [done|congruence]. }
  assert (length l = W) as Hl by (unfold l; rewrite length_fmap; apply Hinv).
  assert (NoDup l) as Hnd.
  { apply NoDup_alt. intros j j' x Hj Hj'. destruct x as [x|]; [|destruct Hnone; by eapply list_elem_of_lookup_2].
    apply list_lookup_fmap_Some in Hj as (w & Hx & Hj). apply list_lookup_fmap_Some in Hj' as (w' & Hx' & Hj').
    by apply (ri_distinct _ _ _ _ Hinv j j' w w' x). }
  assert (l ⊆+ (Some ∘ addr <$> seq 1 (lo - 1))) as Hsub.
  { apply NoDup_submseteq; [done|]. intros x [j Hj]%list_elem_of_lookup.
    apply list_lookup_fmap_Some in Hj as (w & -> & Hj). apply list_elem_of_fmap.
    destruct (ri_worker _ _ _ _ Hinv _ _ Hj) as [->|(i & th & Hi & _ & Hh%holds_xdata)].
    - destruct Hnone. apply list_elem_of_fmap. exists Resting. split; [done|]. by eapply list_elem_of_lookup_2.
    - exists i. split; [by rewrite Hh|]. apply elem_of_seq. lia. }
  apply submseteq_length in Hsub. rewrite Hl, length_fmap, length_seq in Hsub.
  pose proof (ri_lo _ _ _ _ Hinv). lia.
Qed.

Definition returned (st : region U) : Prop :=
  r_master st = Joined /\ Forall (fun w => w = Resting) (r_workers st).

Definition all_quiet (st : region U) : Prop :=
  forall a, (a <= W)%nat -> agent a st = Ret st.

Lemma quiet_workers lo r ths st j w :
  region_inv lo r ths st -> all_quiet st -> r_workers st !! j = Some w -> quiet_worker lo st w.
Proof.
  intros Hinv Hall Hj. assert (S j <= W)%nat as Hjw.
  { rewrite <- (ri_size _ _ _ _ Hinv). by eapply lookup_lt_Some. }
  by apply (agent_quiet _ _ _ _ _ Hinv (Hall _ Hjw)).
Qed.

(** After the master's return no worker is left at the barrier. *)
Lemma quiet_returned lo r ths st :
  region_inv lo r ths st -> all_quiet st -> r_master st = Joined -> returned st.
Proof.
  intros Hinv Hall Hm. split; [done|]. apply Forall_lookup. intros j w Hj.
  destruct (quiet_workers _ _ _ _ _ _ Hinv Hall Hj) as [[? _]|(x & tid & d & b & -> & Hsp)]; [done|].
  destruct (ri_pool _ _ _ _ Hinv) as (p & Hp & _ & _ & _ & _ & Hbar).
  destruct (ri_worker _ _ _ _ Hinv j _ Hj) as [|(i & th & Hi & Hth & Hx & -> & -> & Hl & Hok & -> & Hown)]; [done|].
  destruct (spins_waiting _ _ _ _ _ _ Hsp Hp Hbar Hth) as (ph & c & -> & Hr).
  destruct (ri_master _ _ _ _ Hinv) as (th0 & Hth0 & Hmas). rewrite Hm in Hmas. cbn in Hmas, Hok.
  destruct Hmas as (_ & _ & -> & _).
  pose proof (Forall_lookup_1 _ _ _ _ (inv_threads _ _ Hbar) Hth0) as [Ht _]. cbn in Ht. lia.
Qed.

(** While the master waits, somebody gets ahead. *)
Lemma quiet_not_waiting lo r ths st b :
  region_inv lo r ths st -> (n <= S W)%nat -> all_quiet st -> r_master st = MasterRuns b ->
  spins (r_omp st) b -> False.
Proof.
  intros Hinv HW Hall Hm Hsp. pose proof (ri_lo _ _ _ _ Hinv) as Hlo. rewrite Hm in Hlo. cbn [added] in Hlo.
  destruct (ri_pool _ _ _ _ Hinv) as (p & Hp & _ & _ & _ & _ & Hbar).
  destruct (ri_master _ _ _ _ Hinv) as (th0 & Hth0 & Hmas). rewrite Hm in Hmas.
  destruct Hmas as (_ & Hok0 & -> & _).
  destruct (spins_waiting _ _ _ _ _ _ Hsp Hp Hbar Hth0) as (ph & c & -> & ->). cbn in Hok0.
  assert (lo = n) as ->.
  { destruct (decide (lo = n)) as [|Hne]; [done|]. destruct (resting_worker _ _ _ _ Hinv) as [j Hj]; [lia|].
    destruct (quiet_workers _ _ _ _ _ _ Hinv Hall Hj) as [[_ E]|(? & ? & ? & ? & ? & _)]; [|done].
    by rewrite Hm in E. }
  assert (forall i, (i < n)%nat -> exists c, ths !! i = Some (thread_at (AtBarrier ph (Waiting c)))) as Hw.
  { intros i Hi. destruct (decide (i = 0%nat)) as [->|]; [eauto|].
    destruct (ri_taken _ _ _ _ Hinv i) as [(j & w & Hj & Hx)|[Hth _]]; [lia| |].
    - destruct (quiet_workers _ _ _ _ _ _ Hinv Hall Hj) as [[-> _]|(x & tid & d & b & -> & Hspb)]; [done|].
      destruct (ri_worker _ _ _ _ Hinv j _ Hj) as [|(i' & th & Hi' & Hth & Hx' & _ & _ & _ & _ & -> & _)]; [done|].
      assert (i' = i) as -> by (apply addr_inj; cbn in Hx; congruence).
      destruct (spins_waiting _ _ _ _ _ _ Hspb Hp Hbar Hth) as (ph' & c' & -> & Hr).
      exists c'. by replace ph with ph' by lia.
    - pose proof (Forall_lookup_1 _ _ _ _ (inv_threads _ _ Hbar) Hth) as [Ht _]. cbn in Ht. lia. }
  pose proof (ri_len _ _ _ _ Hinv) as Hlen.
  destruct (inv_phase _ _ Hbar) as [(_ & _ & Hlt)|(i & _ & Hlast & th & Hi & _)]; cbn [t_threads] in *.
  - unfold arrivals in Hlt. rewrite count_Forall in Hlt; [lia|]. apply Forall_lookup. intros i th Hi.
    destruct (Hw i) as [c' Hc']; [by rewrite <- Hlen; eapply lookup_lt_Some|].
    rewrite Hc' in Hi. injection Hi as <-. cbn. lia.
  - pose proof (Hlast i th Hi) as Hl. rewrite bool_decide_true in Hl by done.
    destruct (Hw i) as [c' Hc']; [by rewrite <- Hlen; eapply lookup_lt_Some|].
    rewrite Hc' in Hi. injection Hi as <-. done.
Qed.

Lemma region_live lo r ths st :
  region_inv lo r ths st -> (n <= S W)%nat -> all_quiet st -> returned st.
Proof.
  intros Hinv HW Hall.
  destruct (agent_quiet _ _ _ _ 0%nat Hinv (Hall 0%nat ltac:(lia))) as [Hm|(b & Hm & Hsp)].
  - by eapply quiet_returned.
  - by destruct (quiet_not_waiting _ _ _ _ _ Hinv HW Hall Hm Hsp).
Qed.

Lemma quiet_run lo r ths sched st :
  region_inv lo r ths st -> all_quiet st ->
  run_region microtask memory wrapper_data data sched st = Ret st.
Proof.
  intros Hinv Hall. assert (forall a, agent a st = Ret st) as Hq.
  { intros a. destruct (decide (a <= W)%nat); [by apply Hall|]. destruct a as [|j]; [lia|].
    unfold agent, region_step. destruct (r_workers st !! j) as [w|] eqn:Hj; [|done].
    apply lookup_lt_Some in Hj. rewrite (ri_size _ _ _ _ Hinv) in Hj. lia. }
  induction sched as [|a sched IH]; [done|]. cbn [run_region]. specialize (Hq a). unfold agent in Hq. by rewrite Hq.
Qed.

Lemma run_region_app s1 s2 (st : region U) :
  run_region microtask memory wrapper_data data (s1 ++ s2) st =
  (run_region microtask memory wrapper_data data s1 st ≫= run_region microtask memory wrapper_data data s2).
Proof.
  revert st. induction s1 as [|a s1 IH]; intros st; [done|]. cbn [run_region app].
  destruct (region_step _ _ _ _ st a); [|done..]. apply IH.
Qed.

(** Rounds in which every thread takes a step bring the call to its end. *)
Lemma rounds_return rounds lo r ths st :
  region_inv lo r ths st -> (n <= S W)%nat -> (total lo st < length rounds)%nat ->
  Forall (fun round => forall a, (a <= W)%nat -> a ∈ round) rounds ->
  exists st' lo' r' ths',
    run_region microtask memory wrapper_data data (concat rounds) st = Ret st' /\
    region_inv lo' r' ths' st' /\ returned st'.
Proof.
  intros Hinv HW Hlt Hrounds. revert lo r ths st Hinv Hlt.
  induction Hrounds as [|round rounds Hround _ IH]; intros lo r ths st Hinv Hlt; [cbn in Hlt; lia|].
  cbn [concat]. rewrite run_region_app. cbn [length] in Hlt.
  destruct (region_run _ _ _ round _ Hinv) as (st1 & -> & [[-> Hq]|(lo1 & r1 & ths1 & Hinv1 & Hlt1)]);
    cbn [mbind outcome_bind].
  - assert (all_quiet st) as Hall.
    { intros a Ha. rewrite Forall_forall in Hq. by apply Hq, Hround. }
    exists st, lo, r, ths. split; [by eapply quiet_run|]. split; [done|]. by eapply region_live.
  - apply (IH lo1 r1 ths1 st1 Hinv1). lia.
Qed.

(** *** Where a member of the team is *)

Lemma steps_in_split i ph k :
  steps_in i ph k `prefix_of` steps_in i ph (length (phase_of i ph)).
Proof.
  unfold steps_in. rewrite firstn_all.
  exists ((fun f => (Z.of_nat i, ph, f)) <$> drop k (phase_of i ph)). by rewrite <- fmap_app, take_drop.
Qed.

Lemma steps_before_mono i ph ph' : (ph <= ph')%nat -> steps_before i ph `prefix_of` steps_before i ph'.
Proof.
  induction 1 as [|ph' _ IH]; [done|]. etrans; [exact IH|]. cbn. by apply prefix_app_r.
Qed.

Lemma log_at_prefix i b : body_ok i b -> log_at i b `prefix_of` steps_before i P.
Proof.
  destruct b as [ph k|ph p]; cbn; intros Hok; [|by apply (steps_before_mono i (S ph))].
  etrans; [|apply (steps_before_mono i (S ph)); lia]. cbn. apply prefix_app, steps_in_split.
Qed.

Lemma member_position lo r ths st i :
  region_inv lo r ths st -> (i < n)%nat ->
  exists th, ths !! i = Some th /\ own i (r_log st) `prefix_of` steps_before i P /\
    ((r0 + P <= arrived th)%nat -> own i (r_log st) = steps_before i P).
Proof.
  intros Hinv Hi.
  assert (forall b, body_ok i b -> own i (r_log st) = log_at i b ->
    own i (r_log st) `prefix_of` steps_before i P /\
    ((r0 + P <= arrived (thread_at b))%nat -> own i (r_log st) = steps_before i P)) as Hbody.
  { intros b Hok ->. split; [by apply log_at_prefix|]. destruct b as [ph k|ph p]; cbn in Hok |- *; [lia|].
    intros Ha. assert (P = S ph) as -> by (destruct p; lia). done. }
  assert ((r0 + P <= arrived fresh)%nat -> own i (r_log st) = steps_before i P) as Hfresh by (cbn; lia).
  destruct (decide (i = 0%nat)) as [->|].
  { destruct (ri_master _ _ _ _ Hinv) as (th & Hth & Hmas). exists th. split; [done|].
    destruct (r_master st) as [|k i|b| |]; cbn in Hmas.
    - destruct Hmas as (_ & _ & -> & E). rewrite E. split; [apply prefix_nil|]. cbn. lia.
    - destruct Hmas as (_ & _ & _ & -> & E). rewrite E. split; [apply prefix_nil|]. cbn. lia.
    - destruct Hmas as (_ & Hok & -> & E). by apply Hbody.
    - destruct Hmas as (_ & _ & E). by rewrite E.
    - destruct Hmas as (_ & _ & _ & E). by rewrite E. }
  destruct (decide (lo <= i)%nat).
  { destruct (ri_queued _ _ _ _ Hinv i) as [Hth E]; [lia|]. exists fresh. split; [done|]. split; [|done].
    rewrite E. apply prefix_nil. }
  destruct (ri_taken _ _ _ _ Hinv i) as [(j & w & Hj & Hx)|[Hth E]]; [lia| |exists over; by rewrite E].
  destruct (ri_worker _ _ _ _ Hinv j w Hj) as [->|(i' & th & Hi' & Hth & Hh)]; [done|].
  assert (i' = i) as -> by (apply addr_inj; pose proof (holds_xdata _ _ _ _ _ _ Hh); congruence).
  exists th. split; [done|].
  destruct w as [|t|t|x bw|x tid d b|]; cbn in Hh; try done.
  - destruct Hh as (_ & -> & E). split; [rewrite E; apply prefix_nil|done].
  - destruct Hh as (_ & -> & E). split; [rewrite E; apply prefix_nil|done].
  - destruct Hh as (_ & _ & _ & -> & E). split; [rewrite E; apply prefix_nil|done].
  - destruct Hh as (_ & _ & _ & _ & Hok & -> & E). by apply Hbody.
Qed.

Lemma joined_complete lo r ths st i :
  region_inv lo r ths st -> r_master st = Joined -> (i < n)%nat -> own i (r_log st) = steps_before i P.
Proof.
  intros Hinv Hm Hi. destruct (member_position _ _ _ _ _ Hinv Hi) as (th & Hth & _ & Hfull). apply Hfull.
  destruct (ri_pool _ _ _ _ Hinv) as (p & _ & _ & _ & _ & _ & Hbar).
  pose proof (inv_threads _ _ Hbar) as Hall. cbn [t_threads] in Hall.
  pose proof (thread_ok_bounds _ _ (Forall_lookup_1 _ _ _ _ Hall Hth)).
  destruct (ri_master _ _ _ _ Hinv) as (th0 & Hth0 & Hmas). rewrite Hm in Hmas.
  destruct Hmas as (_ & _ & -> & _). destruct (Forall_lookup_1 _ _ _ _ Hall Hth0) as [H0 _]. cbn in H0. lia.
Qed.

(** Everything is as it was before the call, for the next region. *)
Definition barrier_idle (b : bomp_barrier) : Prop :=
  max b = Z.of_nat n /\ (cycle b = 0 \/ cycle b = 1) /\ counter b = 0.

Lemma returned_ready lo r ths st :
  region_inv lo r ths st -> returned st ->
  exists p, region_ready (r_omp st) p /\ barrier_idle (global_barrier p).
Proof.
  intros Hinv [Hm Hrest]. destruct (ri_pool _ _ _ _ Hinv) as (p & Hp & Hok & Hsd & Hsz & Hct & Hbar). exists p.
  destruct (ri_master _ _ _ _ Hinv) as (th0 & Hth0 & Hmas). rewrite Hm in Hmas.
  destruct Hmas as (Hg & Hn & -> & _). rewrite Hm in Hct. cbn [added] in Hct.
  pose proof (inv_threads _ _ Hbar) as Hall. cbn [t_threads] in Hall. pose proof (ri_len _ _ _ _ Hinv) as Hlen.
  destruct (Forall_lookup_1 _ _ _ _ Hall Hth0) as [H0 _]. cbn in H0.
  assert (n <= lo)%nat as Hlo.
  { destruct (decide (n <= lo)%nat) as [|Hlt]; [done|]. destruct (ri_queued _ _ _ _ Hinv lo) as [Hth _]; [lia|].
    destruct (Forall_lookup_1 _ _ _ _ Hall Hth) as [H1 _]. cbn in H1. lia. }
  assert (forall i, (i < n)%nat -> ths !! i = Some over) as Hover.
  { intros i Hi. destruct (decide (i = 0%nat)) as [->|]; [done|].
    destruct (ri_taken _ _ _ _ Hinv i) as [(j & w & Hj & Hx)|[Hth _]]; [lia| |done].
    by rewrite (Forall_lookup_1 _ _ _ _ Hrest Hj) in Hx. }
  split.
  - split; try done; rewrite ?(ri_num _ _ _ _ Hinv); try done.
    rewrite Hct. by replace (n - lo)%nat with 0%nat by lia.
  - split_and!.
    + rewrite <- Hlen. apply (inv_max _ _ Hbar).
    + rewrite (inv_cycle _ _ Hbar : cycle (global_barrier p) = _). unfold parity. destruct (Nat.odd r); auto.
    + destruct (inv_phase _ _ Hbar) as [(_ & Hc & _)|(i & Harr & _)]; cbn [t_threads t_barrier] in *.
      * rewrite Hc. unfold arrivals. rewrite filter_none; [done|]. intros th [i Hi]%list_elem_of_lookup.
        rewrite Hover in Hi by (rewrite <- Hlen; by eapply lookup_lt_Some). injection Hi as <-. cbn. lia.
      * pose proof (Forall_lookup_1 _ _ _ _ Harr Hth0) as E. cbn in E. lia.
Qed.

Lemma new_region_inv s p :
  region_ready s p -> bomp_num_threads s = Z.of_nat n ->
  global_barrier p = Barrier (Z.of_nat n) (parity r0) 0 ->
  region_inv 1 r0 (replicate n fresh) (new_region s W u0).
Proof.
  intros [Hg Hn Hp Hok Hct Hsd Hnt Hroom] Hnum Hb. split; cbn; try done.
  - exists p. rewrite Hb, Hct, <- Hnum. split_and!; try done. rewrite Hnum. apply idle_team_inv. lia.
  - by rewrite length_replicate.
  - by rewrite length_replicate.
  - exists fresh. split; [|done]. apply lookup_replicate. split; [done|lia].
  - intros j w [-> _]%lookup_replicate. by left.
  - by intros j j' w w' x [-> _]%lookup_replicate.
  - lia.
  - intros i Hi. split; [|done]. apply lookup_replicate. split; [done|lia].
  - split; [constructor..|done].
Qed.

End Team.

End Correct.

(** ** Properties *)

Section Properties.
Context {U : Type} (microtask : Z -> shared_data -> list (list (U -> U))).
Context (memory wrapper_data : Z) (data : shared_data) (s : omp_state) (p : threadpool_t).

(** What a call of [__kmpc_fork_call] outside every region finds: an idle pool
    and a barrier for as many threads as the team has; the threads run through
    the same number of barriers. *)
Record fork_ready (n P : nat) : Prop := ForkReady {
  fk_ready : region_ready s p;
  fk_threads : bomp_num_threads s = Z.of_nat n;
  fk_barrier : barrier_idle n (global_barrier p);
  fk_memory : memory <> NULL;
  fk_phases : (0 < P)%nat;
  fk_same : forall i, (i < n)%nat -> length (microtask (Z.of_nat i) data) = P
}.

Lemma fork_inv n P W u :
  fork_ready n P -> 2 <= Z.of_nat n < 2 ^ 31 /\ exists r0,
    region_inv microtask memory wrapper_data data n r0 P W u 1 r0 (replicate n (fresh r0))
      (new_region s W u).
Proof.
  intros [Hr Hn (Hm & Hc & H0) _ HP _]. pose proof (rr_threads _ _ Hr) as Hnt. split; [lia|].
  assert (exists r0, global_barrier p = Barrier (Z.of_nat n) (parity r0) 0) as [r0 Hb].
  { destruct (global_barrier p) as [m c k]. cbn in *. subst. destruct Hc as [->| ->]; [by exists 0%nat|by exists 1%nat]. }
  exists r0. apply (new_region_inv microtask memory wrapper_data data n r0 P W u ltac:(lia) HP s p); done.
Qed.

(** C11: a parallel region runs as OpenMP promises, when the runtime is ready for
    it ([fork_ready]): the team has [n] threads, at least two, and the pool's
    barrier is idle and made for [n] threads, which the default start-up does not
    give and [omp_set_num_threads] with another number does
    ([start_up_readies_team]); the master has memory for the region, and the
    microtasks of all members have the same number of phases.  Then, under every
    interleaving of the master and any number of workers no step is undefined: no thread reads
    a descriptor, thread-local data or the master's stack frame before it is
    there or after it is gone.  The program's memory is the result of the
    actions done, one after the other; no thread starts a phase before every
    thread has finished the phase before; each thread does the actions of its
    microtask in order, none twice; and when the master has returned, every
    thread of the team has done all of them. *)
Theorem parallel_region_correct n P W u sched :
  fork_ready n P ->
  exists st, run_region microtask memory wrapper_data data sched (new_region s W u) = Ret st /\
    r_user st = replay (r_log st) u /\
    StronglySorted (fun e e' => (e_phase e <= e_phase e')%nat) (r_log st) /\
    Forall (fun e => exists i, (i < n)%nat /\ e.1.1 = Z.of_nat i) (r_log st) /\
    forall i, (i < n)%nat ->
      own i (r_log st) `prefix_of` steps_before microtask data i P /\
      (r_master st = Joined -> own i (r_log st) = steps_before microtask data i P).
Proof.
  intros Hf. destruct (fork_inv n P W u Hf) as (Hn & r0 & Hinv).
  destruct Hf as [Hr _ _ Hmem HP Hsame].
  destruct (region_run_inv microtask memory wrapper_data data n r0 P W u Hn HP Hsame Hmem _ _ _ sched _ Hinv)
    as (st & lo & r & ths & Hs & Hinv'). exists st.
  destruct (ri_log _ _ _ _ _ _ _ _ _ _ _ _ _ Hinv') as [Ht _ Hso Hu].
  split_and!; try done. intros i Hi. split.
  - by destruct (member_position _ _ _ _ _ _ _ _ _ HP Hsame _ _ _ _ _ Hinv' Hi) as (th & _ & ? & _).
  - intros Hm. by apply (joined_complete _ _ _ _ _ _ _ _ _ HP Hsame _ _ _ _ _ Hinv' Hm Hi).
Qed.

(** C12: when the runtime is ready for a region of [n] threads ([fork_ready]: the
    barrier is made for [n], as after [omp_set_num_threads] with another number
    but not after the default start-up, see [start_up_readies_team]) and there is
    a worker for every other member of the team, the call returns:
    there is a number of rounds, in each of which every thread takes a step,
    after which the master has returned, all workers rest, every action of the
    region is done, and the runtime is ready for the next region. *)
Theorem parallel_region_returns n P W u :
  fork_ready n P -> (n <= W + 1)%nat ->
  exists N, forall rounds, (N <= length rounds)%nat ->
    Forall (fun round => forall a, (a <= W)%nat -> a ∈ round) rounds ->
    exists st p', run_region microtask memory wrapper_data data (concat rounds) (new_region s W u) = Ret st /\
      r_master st = Joined /\ Forall (fun w => w = Resting) (r_workers st) /\
      (forall i, (i < n)%nat -> own i (r_log st) = steps_before microtask data i P) /\
      region_ready (r_omp st) p' /\ barrier_idle n (global_barrier p').
Proof.
  intros Hf HW. destruct (fork_inv n P W u Hf) as (Hn & r0 & Hinv).
  destruct Hf as [Hr _ _ Hmem HP Hsame].
  exists (S (total microtask memory data n P 1 (new_region s W u))). intros rounds Hlen Hrounds.
  destruct (rounds_return microtask memory wrapper_data data n r0 P W u Hn HP Hsame Hmem rounds _ _ _ _ Hinv)
    as (st & lo & r & ths & Hs & Hinv' & Hret); [lia|lia|done|].
  destruct (returned_ready _ _ _ _ _ _ _ _ _ Hn HP _ _ _ _ Hinv' Hret) as (p' & ? & ?).
  exists st, p'. split; [done|]. destruct Hret as [Hm Hw]. split_and!; try done.
  intros i Hi. by apply (joined_complete _ _ _ _ _ _ _ _ _ HP Hsame _ _ _ _ _ Hinv' Hm Hi).
Qed.

End Properties.


(** A team of three threads that append their numbers, wait for each other, and
    append them again. *)
Definition sample_region_pool : threadpool_t :=
  Pool (replicate 4 (Task 0 0)) 2 4 0 0 0 0 2 (bomp_barrier_init 3).

Definition sample_region_omp : omp_state :=
  Omp 1 3 false false 0 (Some sample_region_pool) ∅ None ∅.

Definition sample_microtask (tid : Z) (d : shared_data) : list (list (list Z -> list Z)) :=
  [[fun u => u ++ [tid]]; [fun u => u ++ [10 + tid]]].

Lemma sample_fork_ready :
  fork_ready sample_microtask 4096 (Single 55) sample_region_omp sample_region_pool 3 2.
Proof.
  split; try done; [|lia]. repeat split. by left.
Qed.

(** The theorem's hypothesis holds, and a round-robin schedule brings the call to its
    end: the thread's first numbers are all there before the second ones. *)
Lemma parallel_region_correct_witness :
  fork_ready sample_microtask 4096 (Single 55) sample_region_omp sample_region_pool 3 2 /\
  exists st, run_region sample_microtask 4096 8192 (Single 55) (concat (replicate 30 [0; 1; 2]%nat))
      (new_region sample_region_omp 2 []) = Ret st /\
    r_user st = [0; 1; 2; 12; 10; 11] /\ r_user st = replay (r_log st) [] /\
    own 2 (r_log st) = steps_before sample_microtask (Single 55) 2 2.
Proof.
  split; [exact sample_fork_ready|].
  destruct (parallel_region_correct sample_microtask 4096 8192 (Single 55) sample_region_omp sample_region_pool
    3 2 2 [] (concat (replicate 30 [0; 1; 2]%nat)) sample_fork_ready) as (st & Hs & Hu & _ & _ & Hall).
  exists st. split; [exact Hs|].
  assert (match run_region sample_microtask 4096 8192 (Single 55) (concat (replicate 30 [0; 1; 2]%nat))
      (new_region sample_region_omp 2 []) with
    | Ret st => r_master st = Joined /\ r_user st = [0; 1; 2; 12; 10; 11]
    | _ => False end) as E by (vm_compute; split; reflexivity).
  rewrite Hs in E. destruct E as [E1 E2]. split; [exact E2|]. split; [exact Hu|].
  by apply (Hall 2%nat); [lia|].
Defined.

(** The theorem's hypotheses hold: two workers for a team of three. *)
Lemma parallel_region_returns_witness :
  fork_ready sample_microtask 4096 (Single 55) sample_region_omp sample_region_pool 3 2 /\
  (3 <= 2 + 1)%nat /\
  exists N st, run_region sample_microtask 4096 8192 (Single 55) (concat (replicate N [0; 1; 2]%nat))
      (new_region sample_region_omp 2 []) = Ret st /\ r_master st = Joined.
Proof.
  split; [exact sample_fork_ready|]. split; [lia|].
  destruct (parallel_region_returns sample_microtask 4096 8192 (Single 55) sample_region_omp sample_region_pool
    3 2 2 [] sample_fork_ready ltac:(lia)) as [N HN].
  destruct (HN (replicate N [0; 1; 2]%nat)) as (st & p' & Hs & Hm & _).
  - rewrite length_replicate. lia.
  - apply Forall_replicate. intros a Ha. destruct a as [|[|[|a]]]; [set_solver..|lia].
  - by exists N, st.
Defined.

