(* ===== verification/Migration.v ===== *)
(** * Thread migration (src/lib/migration: migrate.c, arch/*/migrate.h)

    A migration point asks whether the thread should run on the other
    architecture.  If so the shim rewrites the thread's stack and passes the
    rewritten registers to the kernel, which resumes the thread at the shim
    itself, on the other architecture.  The shim tells the two cases apart by a
    pointer that pthreads keeps for the thread.  The build for heterogeneous
    migration is modelled, on either host. *)

From stdpp Require Import strings.
From S2P Require Import Prelude Machine CallSite Regs RegsAArch64 RegsX86 Context Rewrite Sample Userspace Parallel.

#[local] Open Scope Z_scope.

(** ** Definitions *)

(** [enum arch] *)
Definition AARCH64 : Z := 0.
Definition X86_64 : Z := 1.

(** A [cpu_set_t]: CPU_SET ignores numbers outside the set. *)
Definition CPU_SET (cpu : Z) (cpus : gset Z) : gset Z :=
  if (0 <=? cpu) && (cpu <? 1024) then {[cpu]} ∪ cpus else cpus.

Definition arch_to_cpus (cpus_x86 ar : Z) : gset Z :=
  if ar =? AARCH64 then CPU_SET 0 ∅
  else if ar =? X86_64 then CPU_SET cpus_x86 ∅
  else ∅.

(** [__init_cpu_sets]: the lines of /proc/cpuinfo, [None] when it cannot be
    read. *)
Definition init_cpu_sets (cpuinfo : option (list string)) : Z :=
  match cpuinfo with Some _ => count_cores cpuinfo | None => 8 end.

Definition current_arch (cpus_x86 : Z) (aarch64 : bool) : gset Z :=
  if aarch64 then arch_to_cpus cpus_x86 AARCH64 else arch_to_cpus cpus_x86 X86_64.

Definition select_arch (cpus_x86 : Z) (aarch64 : bool) : gset Z :=
  if aarch64 then arch_to_cpus cpus_x86 X86_64 else arch_to_cpus cpus_x86 AARCH64.

(** *** When to migrate *)

(** The Popcorn vDSO word, absent when the kernel has none. *)
Definition do_migrate_vdso (aarch64 : bool) (popcorn_vdso : option Z) : bool :=
  match popcorn_vdso with
  | None => false
  | Some v => if aarch64 then v =? 0 else v =? 1
  end.

(** With _ENV_SELECT_MIGRATE: the host's address range and the thread's flag. *)
Record migrate_env := MigrateEnv { me_start : Z; me_end : Z; me_migrated : Z }.

(** [__init_migrate_testing] for one architecture: the two environment
    variables as strtoll reads them, [None] when unset. *)
Definition init_migrate_testing (start stop : option Z) : migrate_env :=
  match start, stop with
  | Some s, Some e => MigrateEnv (wrap64 s) (wrap64 e) 0
  | _, _ => MigrateEnv 0 0 0
  end.

Definition do_migrate_env (addr : Z) (e : migrate_env) : bool * migrate_env :=
  if truthy (me_start e) && negb (truthy (me_migrated e)) then
    if (me_start e <=? addr) && (addr <? me_end e)
    then (true, MigrateEnv (me_start e) (me_end e) 1)
    else (false, e)
  else (false, e).

(** *** The shim *)

Record host := Host {
  host_aarch64 : bool;
  host_cpus_x86 : Z;
  host_fuel : nat;                           (* for the rewriting's loop *)
  host_garbage : rewrite_context;
  host_pthread : pthread;
  host_aarch64_handle : option st_handle;
  host_x86_64_handle : option st_handle;
  host_retaddr : Z;                          (* where REWRITE_STACK returns to *)
  host_args : Z                              (* pthread_migrate_args() *)
}.

(** Offsets in [struct shim_data]. *)
Definition sizeof_shim_data : Z := 24.
Definition shim_callback : Z := 0.
Definition shim_callback_data : Z := 8.
Definition shim_regset : Z := 16.

(** An automatic variable is an object that lives until its function returns. *)
Definition local_object (n : Z) : M Z :=
  p ← malloc n; if p =? NULL then fault else mret p.

Definition regset_bytes (aarch64 : bool) : Z :=
  if aarch64 then sizeof_regset_aarch64 else sizeof_regset_x86_64.

Definition sp_offset (aarch64 : bool) : Z := if aarch64 then A64_sp else X86_gpr 7.
Definition fp_offset (aarch64 : bool) : Z := if aarch64 then A64_x 29 else X86_gpr 6.

(** What MIGRATE passes to the kernel.  The thread resumes at [mc_pc] with the
    stack and frame pointers given; on the way to aarch64 the link register is
    passed as well. *)
Inductive code_address := Shim.

Record migrate_call := MigrateCall {
  mc_cpus : gset Z;
  mc_pc : code_address;
  mc_link : Z;
  mc_regs : Z;
  mc_sp : Z;
  mc_fp : Z
}.

Inductive shim_result :=
  | Resumed (regset : Z)          (* after migration; FP registers set from there *)
  | Migrated (c : migrate_call)   (* the thread leaves for the other host *)
  | NotMigrated.                  (* the stack could not be rewritten *)

(** [REWRITE_STACK]; [live_regs] are the bytes READ_REGS stores.  The second
    result is the thread's key for its stack bounds. *)
Definition REWRITE_STACK (h : host) (live_regs : list Z) (key src dst : Z) : M (bool * Z) :=
  store_bytes src live_regs;;
  sp ← load64 (ptr_add src (sp_offset (host_aarch64 h)));
  '(r, key) ← st_userspace_rewrite (host_fuel h) (host_garbage h) (host_pthread h)
    (host_aarch64 h) (host_aarch64_handle h) (host_x86_64_handle h)
    (host_retaddr h) key sp src dst;
  mret (negb (truthy r), key).

Definition MIGRATE (h : host) (dst : Z) : M migrate_call :=
  let dst_aarch64 := negb (host_aarch64 h) in
  sp ← load64 (ptr_add dst (sp_offset dst_aarch64));
  fp ← load64 (ptr_add dst (fp_offset dst_aarch64));
  link ← (if dst_aarch64 then load64 (ptr_add dst (A64_x 30)) else mret 0);
  mret (MigrateCall (select_arch (host_cpus_x86 h) (host_aarch64 h)) Shim link dst sp fp).

(** After the migration: the callback is called and the thread's pointer
    cleared.  [run] is what calling a function pointer with an argument does;
    the result is the register set the FP registers are restored from. *)
Definition shim_resume (h : host) (run : Z -> Z -> M unit) (data_ptr : Z) : M Z :=
  cb ← load64 (ptr_add data_ptr shim_callback);
  (if truthy cb then cb_data ← load64 (ptr_add data_ptr shim_callback_data); run cb cb_data
   else mret tt);;
  store64 (host_args h) NULL;;
  load64 (ptr_add data_ptr shim_regset).

(** Before it: the register sets and the stores up to that of [&data]. *)
Definition shim_enter (h : host) (callback callback_data data : Z) : M (Z * Z) :=
  src ← local_object (regset_bytes (host_aarch64 h));
  dst ← local_object (regset_bytes (negb (host_aarch64 h)));
  store64 (ptr_add data shim_callback) callback;;
  store64 (ptr_add data shim_callback_data) callback_data;;
  store64 (host_args h) data;;
  mret (src, dst).

(** The rewriting and the migration. *)
Definition shim_leave (h : host) (live_regs : list Z) (key data src dst : Z)
    : M (shim_result * Z) :=
  '(ok, key) ← REWRITE_STACK h live_regs key src dst;
  if (ok : bool) then
    store64 (ptr_add data shim_regset) dst;;
    c ← MIGRATE h dst;
    mret (Migrated c, key)
  else
    free dst;; free src;; free data;;
    mret (NotMigrated, key).

Definition migrate_shim_internal (h : host) (run : Z -> Z -> M unit)
    (callback callback_data : Z) (live_regs : list Z) (key : Z) : M (shim_result * Z) :=
  data ← local_object sizeof_shim_data;
  data_ptr ← load64 (host_args h);
  if truthy data_ptr then
    regset ← shim_resume h run data_ptr;
    free data;;
    mret (Resumed regset, key)
  else
    '(src, dst) ← shim_enter h callback callback_data data;
    shim_leave h live_regs key data src dst.

Definition migrate := migrate_shim_internal.

(** [check_migrate] with the vDSO; [None] when no migration is asked for. *)
Definition check_migrate (h : host) (vdso : option Z) (run : Z -> Z -> M unit)
    (callback callback_data : Z) (live_regs : list Z) (key : Z) : M (option shim_result * Z) :=
  if do_migrate_vdso (host_aarch64 h) vdso then
    '(r, key) ← migrate_shim_internal h run callback callback_data live_regs key;
    mret (Some r, key)
  else mret (None, key).

(** The variables [migrate_callback] and [migrate_callback_data]. *)
Definition register_migrate_callback (callback callback_data : Z) : Z * Z :=
  (callback, callback_data).

(** The compiler's hooks at the beginning and the end of a function; with the
    vDSO the function's address plays no role. *)
Definition cyg_profile_func_enter (h : host) (vdso : option Z) (run : Z -> Z -> M unit)
    (registered : Z * Z) (live_regs : list Z) (key : Z) : M (option shim_result * Z) :=
  check_migrate h vdso run registered.1 registered.2 live_regs key.

Definition cyg_profile_func_exit (h : host) (vdso : option Z) (run : Z -> Z -> M unit)
    (registered : Z * Z) (live_regs : list Z) (key : Z) : M (option shim_result * Z) :=
  check_migrate h vdso run registered.1 registered.2 live_regs key.

(** ** Lemmas *)

(** What the surroundings of the shim keep of the memory. *)
Record preserves (P : Z -> Prop) (m m' : memory) : Prop := Preserves {
  pr_wf : wf_memory m';
  pr_valid : forall a n, valid m a n = true -> valid m' a n = true;
  pr_peek : forall x, P x -> peek m' x = peek m x
}.

Lemma preserves_word P m m' a :
  preserves P m m' -> (forall x, span a 8 x -> P x) -> word_at 8 m' a = word_at 8 m a.
Proof.
  intros H HP. unfold word_at. f_equal. apply list_fmap_ext. intros i x [-> ?]%lookup_seqZ.
  apply (pr_peek _ _ _ H), HP. unfold span. lia.
Qed.

Lemma local_object_run n m :
  wf_memory m -> 0 <= n -> m_next m + n + 32 <= heap_limit ->
  exists p m', local_object n m = Ret (p, m') /\ 0 < p /\ allocated m p n m' /\
    p + n <= m_next m' <= m_next m + n + 32.
Proof.
  intros Hwf Hn Hl. pose proof (align16_spec (m_next m)) as [Ha _]. pose proof (wf_next m Hwf).
  assert (malloc n m = Ret (align16 (m_next m),
    Memory (m_bytes m) (m_junk m) ((align16 (m_next m), n) :: m_blocks m) (align16 (m_next m) + n + 16))) as E.
  { unfold malloc. by rewrite (proj2 (Z.leb_le _ _)) by lia. }
  exists (align16 (m_next m)). eexists. split.
  - unfold local_object. rewrite (M_bind_step _ _ _ _ _ E).
    rewrite (proj2 (Z.eqb_neq _ NULL)) by lia. done.
  - destruct (malloc_spec _ _ _ _ Hwf Hn E) as [[? _]|[? Hal]]; [lia|].
    split_and!; [lia|done|cbn; lia..].
Qed.

Lemma store_word_run m a v :
  wf_memory m -> valid m a 8 = true ->
  exists m', store64 a v m = Ret (tt, m') /\ only_writes (span a 8) m m' /\ wf_memory m' /\
    word_at 8 m' a = wrap64 v.
Proof.
  intros Hwf Hv. rewrite store_run by done. eexists. split; [done|].
  pose proof (poked_word_frame 8 m a v) as Hf. split_and!; [done|by eapply only_writes_wf|].
  apply word_at_poked.
Qed.

Lemma local_object_outcome n m :
  wf_memory m -> 0 <= n ->
  local_object n m = Fault \/ exists p m', local_object n m = Ret (p, m') /\ allocated m p n m'.
Proof.
  intros Hwf Hn. destruct (malloc n m) as [[p m']| | |] eqn:E.
  - unfold local_object. rewrite (M_bind_step _ _ _ _ _ E).
    destruct (malloc_spec n m p m' Hwf Hn E) as [[-> ->]|[Hp A]]; [by left|right].
    rewrite (proj2 (Z.eqb_neq p NULL)) by lia. by exists p, m'.
  - exfalso. revert E. unfold malloc. by destruct (_ <=? _).
  - left. by apply M_bind_Fault.
  - exfalso. revert E. unfold malloc. by destruct (_ <=? _).
Qed.

(** The memory when the stack is about to be rewritten. *)
Record shim_memory (h : host) (callback callback_data data src dst : Z) (m m1 : memory) : Prop :=
  ShimMemory {
  sm_wf : wf_memory m1;
  sm_blocks : m_blocks m1 = (dst, regset_bytes (negb (host_aarch64 h))) ::
    (src, regset_bytes (host_aarch64 h)) :: (data, sizeof_shim_data) :: m_blocks m;
  sm_data : data = align16 (m_next m) /\ 0 < data;
  sm_src : data + sizeof_shim_data <= src;
  sm_dst : src + regset_bytes (host_aarch64 h) <= dst;
  sm_next : dst + regset_bytes (negb (host_aarch64 h)) <= m_next m1 <= m_next m + 2048;
  sm_args : word_at 8 m1 (host_args h) = data;
  sm_callback : word_at 8 m1 (data + shim_callback) = wrap64 callback;
  sm_callback_data : word_at 8 m1 (data + shim_callback_data) = wrap64 callback_data
}.

Definition shim_room (m : memory) : Prop := m_next m + 2048 <= heap_limit.

Lemma regset_bytes_range b : 0 < regset_bytes b <= 784.
Proof. destruct b; cbn; unfold sizeof_regset_aarch64, sizeof_regset_x86_64; lia. Qed.

Lemma valid_new m p n m' k : allocated m p n m' -> 0 <= k -> k + 8 <= n -> valid m' (p + k) 8 = true.
Proof. intros H ? ?. apply (valid_sub m' p n); [by eapply allocated_valid|lia|lia]. Qed.

Lemma malloc_address n m p m' : malloc n m = Ret (p, m') -> p <> NULL -> p = align16 (m_next m).
Proof. unfold malloc. destruct (_ <=? _); intros [= <- <-]; done. Qed.

Lemma local_object_address n m p m' :
  local_object n m = Ret (p, m') -> p = align16 (m_next m).
Proof.
  unfold local_object. intros H. apply M_bind_Ret in H as (q & m1 & Hm & H).
  destruct (Z.eqb_spec q NULL); [done|]. injection H as -> ->. by eapply malloc_address.
Qed.

(** The three stores before the rewriting. *)
Lemma shim_stores h cb d data m :
  wf_memory m -> 0 < data -> valid m data sizeof_shim_data = true ->
  valid m (host_args h) 8 = true -> host_args h + 8 <= data ->
  exists m', (forall (k : M (Z * Z)),
      (store64 (ptr_add data shim_callback) cb;;
       store64 (ptr_add data shim_callback_data) d;;
       store64 (host_args h) data;; k) m = k m') /\
    only_writes (fun _ => True) m m' /\ wf_memory m' /\
    word_at 8 m' (host_args h) = data /\
    word_at 8 m' (data + shim_callback) = wrap64 cb /\
    word_at 8 m' (data + shim_callback_data) = wrap64 d.
Proof.
  intros Hwf Hd Hv Ha Hargs. destruct (valid_pos m data sizeof_shim_data Hwf Hv ltac:(done)) as [_ Hlim].
  unfold sizeof_shim_data, shim_callback, shim_callback_data, heap_limit in *.
  rewrite !ptr_add_small by lia.
  destruct (store_word_run m (data + 0) cb Hwf) as (m4 & E4 & F4 & W4 & R4);
    [by apply (valid_sub m data 24); [done|lia..]|].
  destruct (store_word_run m4 (data + 8) d W4) as (m5 & E5 & F5 & W5 & R5);
    [rewrite (only_writes_valid _ _ _ _ _ F4); by apply (valid_sub m data 24); [done|lia..]|].
  destruct (store_word_run m5 (host_args h) data W5) as (m6 & E6 & F6 & W6 & R6);
    [by rewrite (only_writes_valid _ _ _ _ _ F5), (only_writes_valid _ _ _ _ _ F4)|].
  exists m6. split_and!.
  - intros k. by rewrite (M_bind_step _ _ _ _ _ E4), (M_bind_step _ _ _ _ _ E5), (M_bind_step _ _ _ _ _ E6).
  - transitivity m5; [transitivity m4|]; eapply only_writes_weaken; done.
  - done.
  - rewrite R6. apply wrap_small. lia.
  - erewrite word_at_frame, word_at_frame; [exact R4|exact F5| |exact F6|]; unfold span; lia.
  - erewrite word_at_frame; [exact R5|exact F6|]; unfold span; lia.
Qed.

Lemma shim_enter_run h cb d m data m1 :
  wf_memory m -> shim_room m -> valid m (host_args h) 8 = true ->
  local_object sizeof_shim_data m = Ret (data, m1) ->
  exists src dst m0, shim_enter h cb d data m1 = Ret ((src, dst), m0) /\
    shim_memory h cb d data src dst m m0.
Proof.
  intros Hwf Hroom Hv E1. unfold shim_room in Hroom. pose proof (wf_next m Hwf).
  pose proof (regset_bytes_range (host_aarch64 h)). pose proof (regset_bytes_range (negb (host_aarch64 h))).
  destruct (local_object_run sizeof_shim_data m) as (data' & m1' & E1' & Hp1 & A1 & N1); [done|done|unfold sizeof_shim_data; lia|].
  rewrite E1 in E1'. injection E1' as <- <-. pose proof (local_object_address _ _ _ _ E1) as Hdata.
  pose proof (allocated_above _ _ _ _ _ _ Hwf A1 Hv) as Hargs. unfold shim_enter.
  destruct (local_object_run (regset_bytes (host_aarch64 h)) m1) as (src & m2 & E2 & Hp2 & A2 & N2);
    [apply A1|lia|unfold sizeof_shim_data in *; lia|].
  rewrite (M_bind_step _ _ _ _ _ E2).
  destruct (local_object_run (regset_bytes (negb (host_aarch64 h))) m2) as (dst & m3 & E3 & Hp3 & A3 & N3);
    [apply A2|lia|unfold sizeof_shim_data in *; lia|].
  rewrite (M_bind_step _ _ _ _ _ E3).
  destruct (shim_stores h cb d data m3) as (m6 & Hk & Hw & Hwf6 & R1 & R2 & R3); [apply A3|done|..|done|].
  { by do 2 (eapply allocated_valid_old; [done|]); eapply allocated_valid. }
  { by do 3 (eapply allocated_valid_old; [done|]). }
  rewrite Hk. exists src, dst, m6. split; [done|].
  pose proof (al_fresh _ _ _ _ A1). pose proof (al_fresh _ _ _ _ A2). pose proof (al_fresh _ _ _ _ A3).
  split; try done; try lia.
  - by rewrite (ow_blocks _ _ _ Hw), (al_blocks _ _ _ _ A3), (al_blocks _ _ _ _ A2), (al_blocks _ _ _ _ A1).
  - rewrite (ow_next _ _ _ Hw). unfold sizeof_shim_data in *. lia.
Qed.

(** The shim of a thread that has not migrated. *)
Lemma shim_first h run cb d live key m data src dst m1 m0 :
  wf_memory m -> valid m (host_args h) 8 = true -> word_at 8 m (host_args h) = NULL ->
  local_object sizeof_shim_data m = Ret (data, m1) -> shim_enter h cb d data m1 = Ret ((src, dst), m0) ->
  migrate_shim_internal h run cb d live key m = shim_leave h live key data src dst m0.
Proof.
  intros Hwf Hv Hnull E1 E0. unfold migrate_shim_internal. rewrite (M_bind_step _ _ _ _ _ E1).
  assert (allocated m data sizeof_shim_data m1) as A1.
  { destruct (local_object_outcome sizeof_shim_data m Hwf ltac:(done)) as [E|(p & m' & E & A)];
      rewrite E1 in E; [done|]. by injection E as -> ->. }
  rewrite (M_bind_step _ _ _ _ _ (load_run 8 _ m1 (allocated_valid_old _ _ _ _ _ _ A1 Hv))).
  rewrite (allocated_word _ _ _ _ _ _ A1), Hnull. cbn [truthy Z.eqb negb].
  by rewrite (M_bind_step _ _ _ _ _ E0).
Qed.

Lemma shim_starts h run cb d live key m :
  wf_memory m -> shim_room m -> valid m (host_args h) 8 = true ->
  word_at 8 m (host_args h) = NULL ->
  exists data src dst m1,
    migrate_shim_internal h run cb d live key m = shim_leave h live key data src dst m1 /\
    shim_memory h cb d data src dst m m1.
Proof.
  intros Hwf Hroom Hv Hnull. unfold shim_room in *.
  destruct (local_object_run sizeof_shim_data m) as (data & m1 & E1 & _); [done|done|unfold sizeof_shim_data; lia|].
  destruct (shim_enter_run h cb d m data m1) as (src & dst & m0 & E0 & Hsm); [done..|].
  exists data, src, dst, m0. split; [by eapply shim_first|done].
Qed.

(** *** A migration that fails *)

(** A handle is missing: the rewriting reports an error at once. *)
Definition no_handles (h : host) : Prop :=
  host_aarch64_handle h = None \/ host_x86_64_handle h = None.

Lemma sp_offset_range b : 0 <= sp_offset b /\ sp_offset b + 8 <= regset_bytes b.
Proof. destruct b; vm_compute; intuition congruence. Qed.

Lemma REWRITE_STACK_missing h live key src dst m :
  wf_memory m -> no_handles h -> zlen live = regset_bytes (host_aarch64 h) ->
  valid m src (regset_bytes (host_aarch64 h)) = true ->
  REWRITE_STACK h live key src dst m = Ret ((false, key), poked m src live).
Proof.
  intros Hwf Hno Hl Hv. unfold REWRITE_STACK.
  pose proof (sp_offset_range (host_aarch64 h)) as [H0 H1].
  destruct (valid_pos m src _ Hwf Hv ltac:(lia)) as [? Hlim]. unfold heap_limit in Hlim.
  assert (store_bytes src live m = Ret (tt, poked m src live)) as E
    by (apply store_bytes_Ret; by rewrite Hl).
  rewrite (M_bind_step _ _ _ _ _ E), ptr_add_small by lia.
  pose proof (poked_only_writes m src live) as Hw.
  assert (valid (poked m src live) (src + sp_offset (host_aarch64 h)) 8 = true) as Hv'.
  { rewrite (only_writes_valid _ _ _ _ _ Hw). by apply (valid_sub m src _ _ _ Hv); lia. }
  rewrite (M_bind_step _ _ _ _ _ (load_run 8 _ _ Hv')).
  unfold st_userspace_rewrite. destruct Hno as [-> | ->]; [done|].
  by destruct (host_aarch64_handle h).
Qed.

Lemma shim_leave_missing h cb d live key data src dst m m1 :
  shim_memory h cb d data src dst m m1 -> no_handles h ->
  zlen live = regset_bytes (host_aarch64 h) -> host_args h + 8 <= data ->
  exists m2, shim_leave h live key data src dst m1 = Ret ((NotMigrated, key), m2) /\
    m_blocks m2 = m_blocks m /\ m_next m2 = m_next m1 /\ word_at 8 m2 (host_args h) = data.
Proof.
  intros [Hwf Hb [_ Hd] Hs Hdst Hn Hargs _ _] Hno Hl Ha. unfold shim_leave, sizeof_shim_data in *.
  pose proof (regset_bytes_range (host_aarch64 h)).
  assert (valid m1 src (regset_bytes (host_aarch64 h)) = true) as Hv.
  { apply valid_spec. exists src, (regset_bytes (host_aarch64 h)). rewrite Hb.
    split; [right; left|lia]. }
  rewrite (M_bind_step _ _ _ _ _ (REWRITE_STACK_missing h live key src dst m1 Hwf Hno Hl Hv)).
  pose proof (poked_only_writes m1 src live) as Hw. rewrite Hl in Hw.
  destruct (poked m1 src live) as [bytes junk blocks next] eqn:Hp.
  pose proof (ow_blocks _ _ _ Hw) as Hb'. cbn in Hb'. rewrite Hb in Hb'. subst blocks.
  rewrite (M_bind_step _ _ _ _ _ (free_head dst _ (Memory bytes junk (_ :: _) next) _ eq_refl ltac:(lia))).
  rewrite (M_bind_step _ _ _ _ _ (free_head src _ (Memory bytes junk (_ :: _) next) _ eq_refl ltac:(lia))).
  rewrite (M_bind_step _ _ _ _ _ (free_head data _ (Memory bytes junk (_ :: _) next) _ eq_refl ltac:(lia))).
  eexists. split; [done|]. split_and!; [done|exact (ow_next _ _ _ Hw)|].
  rewrite <- Hargs. rewrite <- (word_at_frame _ 8 _ _ (host_args h) Hw); [done|unfold span; lia].
Qed.

(** The shim called while the thread's pointer leads to an object that is gone. *)
Lemma shim_dangling h run cb d live key m data :
  wf_memory m -> valid m (host_args h) 8 = true -> word_at 8 m (host_args h) = data ->
  0 < data < 2 ^ 63 -> valid m data 8 = false -> data + 8 <= m_next m ->
  migrate_shim_internal h run cb d live key m = Fault.
Proof.
  intros Hwf Hv Hw Hd Hnv Hn. unfold migrate_shim_internal.
  destruct (local_object_outcome sizeof_shim_data m Hwf ltac:(done)) as [E|(p & m' & E & A)];
    [by apply M_bind_Fault|].
  rewrite (M_bind_step _ _ _ _ _ E).
  rewrite (M_bind_step _ _ _ _ _ (load_run 8 _ m' (allocated_valid_old _ _ _ _ _ _ A Hv))).
  rewrite (allocated_word _ _ _ _ _ _ A), Hw, (proj2 (truthy_true data)) by lia.
  apply M_bind_Fault. unfold shim_resume. apply M_bind_Fault.
  rewrite ptr_add_small by (unfold shim_callback; lia).
  unfold shim_callback. rewrite Z.add_0_r. apply M_bind_Fault.
  unfold load_bytes. enough (valid m' data (Z.of_nat 8) = false) as -> by done.
  apply not_true_is_false. intros (b & s & Hin & Hb1 & Hb2)%valid_spec.
  rewrite (al_blocks _ _ _ _ A) in Hin. apply elem_of_cons in Hin as [[= -> ->]|Hin].
  + pose proof (al_fresh _ _ _ _ A). lia.
  + rewrite (proj2 (valid_spec m data 8)) in Hnv; [done|]. by exists b, s.
Qed.

Lemma wf_same_blocks m m2 :
  wf_memory m -> m_blocks m2 = m_blocks m -> m_next m <= m_next m2 <= heap_limit -> wf_memory m2.
Proof.
  intros [Hb Hn Hd] He Hx. constructor; rewrite ?He; [|lia|done].
  intros b s Hin. specialize (Hb b s Hin). lia.
Qed.

Lemma valid_below m a n : wf_memory m -> valid m a n = true -> a + n <= m_next m.
Proof. intros Hwf (b & s & Hin & ? & ?)%valid_spec. pose proof (wf_block m Hwf b s Hin). lia. Qed.

Lemma not_valid_above m m2 a n :
  wf_memory m -> m_blocks m2 = m_blocks m -> m_next m <= a -> 0 < n -> valid m2 a n = false.
Proof.
  intros Hwf Hb Ha Hn. apply not_true_is_false. intros (b & s & Hin & ? & ?)%valid_spec.
  rewrite Hb in Hin. pose proof (wf_block m Hwf b s Hin). lia.
Qed.

(** *** The thread on the other host *)

(** [if(callback) callback(callback_data)] *)
Definition call_callback (run : Z -> Z -> M unit) (callback callback_data : Z) : M unit :=
  if truthy callback then run callback callback_data else mret tt.

Definition shim_kept (args data x : Z) : Prop := span args 8 x \/ span data sizeof_shim_data x.

Lemma shim_resumes h run cb d live key m data callback callback_data regset p m1 m2 :
  wf_memory m -> valid m (host_args h) 8 = true -> valid m data sizeof_shim_data = true ->
  word_at 8 m (host_args h) = data -> 0 < data < 2 ^ 63 ->
  word_at 8 m (data + shim_callback) = callback ->
  word_at 8 m (data + shim_callback_data) = callback_data ->
  word_at 8 m (data + shim_regset) = regset ->
  host_args h + 8 <= data \/ data + sizeof_shim_data <= host_args h ->
  local_object sizeof_shim_data m = Ret (p, m1) ->
  call_callback run callback callback_data m1 = Ret (tt, m2) ->
  preserves (shim_kept (host_args h) data) m1 m2 -> m_blocks m2 = m_blocks m1 ->
  exists m3, migrate_shim_internal h run cb d live key m = Ret ((Resumed regset, key), m3) /\
    word_at 8 m3 (host_args h) = NULL /\ m_blocks m3 = m_blocks m /\
    (forall x, ~ span (host_args h) 8 x -> peek m3 x = peek m2 x).
Proof.
  intros Hwf Hv Hvd Hargs Hd Hcb Hcd Hrs Hsep E Hrun [Hwf2 Hv2 Hp2] Hb2.
  destruct (local_object_outcome sizeof_shim_data m Hwf ltac:(done)) as [|(p' & m' & E' & A)]; [congruence|].
  rewrite E in E'. injection E' as <- <-. pose proof (Preserves _ _ _ Hwf2 Hv2 Hp2) as Hpr.
  unfold migrate_shim_internal. rewrite (M_bind_step _ _ _ _ _ E).
  rewrite (M_bind_step _ _ _ _ _ (load_run 8 _ m1 (allocated_valid_old _ _ _ _ _ _ A Hv))).
  rewrite (allocated_word _ _ _ _ _ _ A), Hargs, (proj2 (truthy_true data)) by lia.
  assert (forall k, 0 <= k -> k + 8 <= sizeof_shim_data -> valid m1 (data + k) 8 = true) as Hvk.
  { intros k ? ?. apply (allocated_valid_old _ _ _ _ _ _ A). apply (valid_sub m data _ _ _ Hvd); lia. }
  assert (exists m3, shim_resume h run data m1 = Ret (regset, m3) /\ m_blocks m3 = m_blocks m1 /\
    word_at 8 m3 (host_args h) = NULL /\ only_writes (span (host_args h) 8) m2 m3) as (m3 & E3 & Hb3 & Hw3 & F3).
  { unfold shim_resume. unfold sizeof_shim_data, shim_callback, shim_callback_data, shim_regset in *.
    rewrite !ptr_add_small by lia.
    rewrite (M_bind_step _ _ _ _ _ (load_run 8 _ m1 (Hvk 0 ltac:(lia) ltac:(lia)))).
    rewrite (allocated_word _ _ _ _ _ _ A), Hcb.
    rewrite (M_bind_step _ _ m1 tt m2).
    2: { rewrite <- Hrun. unfold call_callback. destruct (truthy callback); [|done].
      rewrite (M_bind_step _ _ _ _ _ (load_run 8 _ m1 (Hvk 8 ltac:(lia) ltac:(lia)))).
      by rewrite (allocated_word _ _ _ _ _ _ A), Hcd. }
    destruct (store_word_run m2 (host_args h) NULL Hwf2) as (m3 & E3 & F3 & W3 & R3).
    { apply Hv2, (allocated_valid_old _ _ _ _ _ _ A Hv). }
    rewrite (M_bind_step _ _ _ _ _ E3), load_run.
    2: { rewrite (only_writes_valid _ _ _ _ _ F3). apply Hv2, Hvk; lia. }
    exists m3. split_and!; [|by rewrite (ow_blocks _ _ _ F3)|exact R3|exact F3].
    rewrite (word_at_frame _ 8 _ _ _ F3) by (unfold span; lia).
    rewrite (preserves_word _ _ _ _ Hpr) by (unfold shim_kept, span, sizeof_shim_data; lia).
    by rewrite (allocated_word _ _ _ _ _ _ A), Hrs. }
  rewrite (M_bind_step _ _ _ _ _ E3).
  assert (m_blocks m3 = (p, sizeof_shim_data) :: m_blocks m) as Hb
    by (rewrite Hb3; apply (al_blocks _ _ _ _ A)).
  assert (p <> NULL) by (pose proof (al_fresh _ _ _ _ A); pose proof (wf_next m Hwf); lia).
  rewrite (M_bind_step _ _ _ _ _ (free_head _ _ _ _ Hb ltac:(done))).
  eexists. split; [done|]. split_and!; [exact Hw3|done|]. apply (ow_peek _ _ _ F3).
Qed.

Lemma fp_offset_range b : 0 <= fp_offset b /\ fp_offset b + 8 <= regset_bytes b.
Proof. destruct b; vm_compute; intuition congruence. Qed.

Lemma MIGRATE_run h dst m :
  wf_memory m -> valid m dst (regset_bytes (negb (host_aarch64 h))) = true ->
  exists c, MIGRATE h dst m = Ret (c, m) /\ mc_pc c = Shim /\
    mc_cpus c = select_arch (host_cpus_x86 h) (host_aarch64 h) /\ mc_regs c = dst /\
    mc_sp c = word_at 8 m (dst + sp_offset (negb (host_aarch64 h))) /\
    mc_fp c = word_at 8 m (dst + fp_offset (negb (host_aarch64 h))) /\
    mc_link c = (if host_aarch64 h then 0 else word_at 8 m (dst + A64_x 30)).
Proof.
  intros Hwf Hv. unfold MIGRATE. pose proof (sp_offset_range (negb (host_aarch64 h))).
  pose proof (fp_offset_range (negb (host_aarch64 h))).
  destruct (valid_pos m dst _ Hwf Hv ltac:(lia)) as [? Hlim]. unfold heap_limit in Hlim.
  assert (forall k, 0 <= k -> k + 8 <= regset_bytes (negb (host_aarch64 h)) ->
    load64 (ptr_add dst k) m = Ret (word_at 8 m (dst + k), m)) as Hload.
  { intros k ? ?. rewrite ptr_add_small by lia. apply load_run. apply (valid_sub m dst _ _ _ Hv); lia. }
  rewrite (M_bind_step _ _ _ _ _ (Hload (sp_offset (negb (host_aarch64 h))) ltac:(lia) ltac:(lia))).
  rewrite (M_bind_step _ _ _ _ _ (Hload (fp_offset (negb (host_aarch64 h))) ltac:(lia) ltac:(lia))).
  destruct (host_aarch64 h).
  - by eexists.
  - cbn [negb] in *. rewrite (M_bind_step _ _ _ _ _ (Hload (A64_x 30) ltac:(vm_compute; congruence) ltac:(vm_compute; congruence))).
    by eexists.
Qed.

(** What the thread leaves behind for the shim that resumes it. *)
Record shim_left (h : host) (cb d data dst : Z) (m : memory) : Prop := ShimLeft {
  sl_wf : wf_memory m;
  sl_valid_args : valid m (host_args h) 8 = true;
  sl_valid_data : valid m data sizeof_shim_data = true;
  sl_data : 0 < data < 2 ^ 63;
  sl_apart : host_args h + 8 <= data;
  sl_args : word_at 8 m (host_args h) = data;
  sl_callback : word_at 8 m (data + shim_callback) = cb;
  sl_callback_data : word_at 8 m (data + shim_callback_data) = d;
  sl_regset : word_at 8 m (data + shim_regset) = dst
}.

Lemma shim_memory_left h cb d data src dst m m0 mb m1 :
  wf_memory m -> shim_room m -> valid m (host_args h) 8 = true ->
  0 <= cb < 2 ^ 64 -> 0 <= d < 2 ^ 64 -> shim_memory h cb d data src dst m m0 ->
  preserves (shim_kept (host_args h) data) m0 mb ->
  only_writes (span (data + shim_regset) 8) mb m1 -> word_at 8 m1 (data + shim_regset) = dst ->
  shim_left h cb d data dst m1.
Proof.
  intros Hwf Hroom Hv Hcb Hd Hsm Hpr Hw Hr.
  destruct Hsm as [Hwf0 Hb [Hal Hd0] Hs Hdst Hn Hargs Hcbw Hdw].
  pose proof (valid_below _ _ _ Hwf Hv). pose proof (align16_spec (m_next m)) as [? _].
  pose proof (regset_bytes_range (host_aarch64 h)). pose proof (regset_bytes_range (negb (host_aarch64 h))).
  assert (forall a, (forall x, span a 8 x -> shim_kept (host_args h) data x /\ ~ span (data + shim_regset) 8 x) ->
    word_at 8 m1 a = word_at 8 m0 a) as Hword.
  { intros a Ha. rewrite (word_at_frame _ 8 _ _ a Hw) by (intros x Hx; by apply Ha).
    apply (preserves_word _ _ _ _ Hpr). intros x Hx. by apply Ha. }
  assert (valid m0 (host_args h) 8 = true /\ valid m0 data sizeof_shim_data = true) as [Hva Hvd].
  { split; apply valid_spec; rewrite Hb.
    - apply valid_spec in Hv as (b & s & Hin & ?). exists b, s. split; [|done]. do 3 right. done.
    - exists data, sizeof_shim_data. split; [right; right; left|lia]. }
  unfold shim_room, heap_limit, shim_kept, span, sizeof_shim_data, shim_regset, shim_callback, shim_callback_data in *.
  split; rewrite ?(only_writes_valid _ _ _ _ _ Hw); try done; try lia.
  - eapply only_writes_wf; [done|apply Hpr].
  - by apply (pr_valid _ _ _ Hpr).
  - by apply (pr_valid _ _ _ Hpr).
  - rewrite Hword; [done|]. unfold span. lia.
  - unfold shim_callback. rewrite Hword, Hcbw; [by apply wrap_small|]. unfold span. lia.
  - unfold shim_callback_data. rewrite Hword, Hdw; [by apply wrap_small|]. unfold span. lia.
Qed.

Lemma shim_leave_migrates h cb d live key m data src dst ma m0 key' mb :
  wf_memory m -> shim_room m -> valid m (host_args h) 8 = true ->
  0 <= cb < 2 ^ 64 -> 0 <= d < 2 ^ 64 ->
  local_object sizeof_shim_data m = Ret (data, ma) ->
  shim_enter h cb d data ma = Ret ((src, dst), m0) ->
  REWRITE_STACK h live key src dst m0 = Ret ((true, key'), mb) ->
  preserves (shim_kept (host_args h) data) m0 mb ->
  exists c m1, shim_leave h live key data src dst m0 = Ret ((Migrated c, key'), m1) /\
    shim_left h cb d data dst m1 /\
    mc_pc c = Shim /\ mc_cpus c = select_arch (host_cpus_x86 h) (host_aarch64 h) /\ mc_regs c = dst /\
    mc_sp c = word_at 8 mb (dst + sp_offset (negb (host_aarch64 h))) /\
    mc_fp c = word_at 8 mb (dst + fp_offset (negb (host_aarch64 h))) /\
    mc_link c = (if host_aarch64 h then 0 else word_at 8 mb (dst + A64_x 30)).
Proof.
  intros Hwf Hroom Hv Hcb Hd E1 E0 ER Hpr.
  destruct (shim_enter_run h cb d m data ma Hwf Hroom Hv E1) as (src' & dst' & m0' & E0' & Hsm).
  rewrite E0 in E0'. injection E0' as <- <- <-.
  pose proof (shim_memory_left h cb d data src dst m m0 mb) as Hleft.
  pose proof Hsm as [Hwf0 Hb [Hal Hd0] Hs Hdst Hn Hargs Hcbw Hdw].
  pose proof (sp_offset_range (negb (host_aarch64 h))). pose proof (fp_offset_range (negb (host_aarch64 h))).
  pose proof (regset_bytes_range (host_aarch64 h)).
  assert (valid m0 data 24 = true /\ valid m0 dst (regset_bytes (negb (host_aarch64 h))) = true) as [Hvd Hvx].
  { split; apply valid_spec; rewrite Hb; eexists _, _; (split; [|split; reflexivity]).
    - right; right; left.
    - left. }
  apply (pr_valid _ _ _ Hpr) in Hvd, Hvx. unfold shim_leave. rewrite (M_bind_step _ _ _ _ _ ER).
  unfold shim_room, heap_limit, sizeof_shim_data in *.
  assert (ptr_add data shim_regset = data + shim_regset) as -> by (apply ptr_add_small; unfold shim_regset; lia).
  destruct (store_word_run mb (data + shim_regset) dst (pr_wf _ _ _ Hpr)) as (m1 & E & F & W & R);
    [apply (valid_sub mb data _ _ _ Hvd); unfold shim_regset; lia|].
  rewrite (M_bind_step _ _ _ _ _ E). rewrite wrap_small in R by lia.
  destruct (MIGRATE_run h dst m1 W) as (c & Ec & Hpc & Hcpus & Hregs & Hsp & Hfp & Hlink);
    [by rewrite (only_writes_valid _ _ _ _ _ F)|].
  rewrite (M_bind_step _ _ _ _ _ Ec). exists c, m1. split_and!; try done.
  - by apply Hleft.
  - rewrite Hsp. apply (word_at_frame _ 8 _ _ _ F). unfold span, shim_regset. lia.
  - rewrite Hfp. apply (word_at_frame _ 8 _ _ _ F). unfold span, shim_regset. lia.
  - rewrite Hlink. destruct (host_aarch64 h) eqn:Ea; [done|].
    assert (0 <= A64_x 30) by (vm_compute; congruence). apply (word_at_frame _ 8 _ _ _ F). unfold span, shim_regset. lia.
Qed.

Lemma env_migrates_once addr1 addr2 e e1 :
  do_migrate_env addr1 e = (true, e1) ->
  me_start e <= addr1 < me_end e /\ do_migrate_env addr2 e1 = (false, e1).
Proof.
  unfold do_migrate_env. destruct (truthy (me_start e) && _); [|done].
  destruct ((me_start e <=? addr1) && (addr1 <? me_end e)) eqn:Hr; [|done]. intros [= <-]. cbn.
  rewrite andb_false_r. apply andb_true_iff in Hr as [?%Z.leb_le ?%Z.ltb_lt]. done.
Qed.

(** ** Properties *)

(** C36: migrating and resuming.  When the stack can be rewritten, the kernel is
    told to resume the thread at the shim, on the other architecture's CPUs,
    with the stack and frame pointers of the rewritten registers, and on the way
    to aarch64 with their link register.  The shim run there (by either host's
    code, whatever its arguments) calls the callback the thread registered, with
    its data, once: the memory it leaves is the callback's, but for the thread's
    pointer, which is cleared so that the next migration point can migrate
    again.  It has no object left over, and restores the FP registers from the
    rewritten register set.  What happens to memory in between, and the
    callback, must spare the thread's pointer and the shim's data. *)
Theorem migration_resumes h run cb d live key m data src dst ma m0 key' mb :
  wf_memory m -> shim_room m -> valid m (host_args h) 8 = true ->
  word_at 8 m (host_args h) = NULL -> 0 <= cb < 2 ^ 64 -> 0 <= d < 2 ^ 64 ->
  local_object sizeof_shim_data m = Ret (data, ma) ->
  shim_enter h cb d data ma = Ret ((src, dst), m0) ->
  REWRITE_STACK h live key src dst m0 = Ret ((true, key'), mb) ->
  preserves (shim_kept (host_args h) data) m0 mb ->
  exists c m1,
    migrate_shim_internal h run cb d live key m = Ret ((Migrated c, key'), m1) /\
    mc_pc c = Shim /\ mc_cpus c = select_arch (host_cpus_x86 h) (host_aarch64 h) /\ mc_regs c = dst /\
    mc_sp c = word_at 8 mb (dst + sp_offset (negb (host_aarch64 h))) /\
    mc_fp c = word_at 8 mb (dst + fp_offset (negb (host_aarch64 h))) /\
    mc_link c = (if host_aarch64 h then 0 else word_at 8 mb (dst + A64_x 30)) /\
    forall h2 run2 cb2 d2 live2 key2 m2 p m3 m4,
      host_args h2 = host_args h ->
      preserves (shim_kept (host_args h) data) m1 m2 ->
      local_object sizeof_shim_data m2 = Ret (p, m3) ->
      call_callback run2 cb d m3 = Ret (tt, m4) ->
      preserves (shim_kept (host_args h) data) m3 m4 -> m_blocks m4 = m_blocks m3 ->
      exists m5,
        migrate_shim_internal h2 run2 cb2 d2 live2 key2 m2 = Ret ((Resumed dst, key2), m5) /\
        word_at 8 m5 (host_args h) = NULL /\ m_blocks m5 = m_blocks m2 /\
        (forall x, ~ span (host_args h) 8 x -> peek m5 x = peek m4 x).
Proof.
  intros Hwf Hroom Hv Hnull Hcb Hd E1 E0 ER Hpr.
  destruct (shim_leave_migrates h cb d live key m data src dst ma m0 key' mb Hwf Hroom Hv Hcb Hd E1 E0 ER Hpr)
    as (c & m1 & E & [] & Hpc & Hcpus & Hregs & Hsp & Hfp & Hlink).
  exists c, m1. rewrite (shim_first h run cb d live key m data src dst ma m0) by done.
  split_and!; try done. intros h2 run2 cb2 d2 live2 key2 m2 p m3 m4 Ha Hk E2 Hrun Hk' Hb.
  rewrite <- Ha in *.
  eapply (shim_resumes h2 run2 cb2 d2 live2 key2 m2 data cb d dst p m3 m4); try done.
  - apply Hk.
  - by apply (pr_valid _ _ _ Hk).
  - by apply (pr_valid _ _ _ Hk).
  - rewrite (preserves_word _ _ _ _ Hk); [done|]. intros x; by left.
  - rewrite (preserves_word _ _ _ _ Hk); [done|]. unfold shim_kept, span, sizeof_shim_data, shim_callback. lia.
  - rewrite (preserves_word _ _ _ _ Hk); [done|]. unfold shim_kept, span, sizeof_shim_data, shim_callback_data. lia.
  - rewrite (preserves_word _ _ _ _ Hk); [done|]. unfold shim_kept, span, sizeof_shim_data, shim_regset. lia.
  - by left.
Qed.

(** a migration whose stack cannot be rewritten returns, but leaves the
    thread's pointer to the shim's data, an automatic variable that no longer
    exists; the thread's next migration point takes it for the state of a
    thread that has migrated and reads the dead object. *)
Theorem failed_migration_dangles h run cb d live key m :
  wf_memory m -> shim_room m -> valid m (host_args h) 8 = true ->
  word_at 8 m (host_args h) = NULL ->
  no_handles h -> zlen live = regset_bytes (host_aarch64 h) ->
  exists m1, migrate_shim_internal h run cb d live key m = Ret ((NotMigrated, key), m1) /\
    m_blocks m1 = m_blocks m /\
    valid m1 (word_at 8 m1 (host_args h)) 8 = false /\
    forall h2 run2 cb2 d2 live2 key2, host_args h2 = host_args h ->
      migrate_shim_internal h2 run2 cb2 d2 live2 key2 m1 = Fault.
Proof.
  intros Hwf Hroom Hv Hnull Hno Hl.
  destruct (shim_starts h run cb d live key m Hwf Hroom Hv Hnull) as (data & src & dst & m0 & E0 & Hsm).
  pose proof (valid_below _ _ _ Hwf Hv). pose proof (align16_spec (m_next m)) as [? _].
  destruct (sm_data _ _ _ _ _ _ _ _ Hsm) as [Hdata Hd0].
  pose proof (sm_src _ _ _ _ _ _ _ _ Hsm). pose proof (sm_dst _ _ _ _ _ _ _ _ Hsm).
  pose proof (sm_next _ _ _ _ _ _ _ _ Hsm). unfold shim_room, heap_limit, sizeof_shim_data in *.
  pose proof (regset_bytes_range (host_aarch64 h)). pose proof (regset_bytes_range (negb (host_aarch64 h))).
  destruct (shim_leave_missing h cb d live key data src dst m m0 Hsm Hno Hl ltac:(lia))
    as (m1 & E1 & Hb & Hn & Hw).
  assert (wf_memory m1) as Hwf1 by (apply (wf_same_blocks m); [done|done|unfold heap_limit; lia]).
  assert (valid m1 data 8 = false) as Hnv by (apply (not_valid_above m); [done|done|lia|lia]).
  exists m1. rewrite E0, Hw. split_and!; [done..|]. intros h2 run2 cb2 d2 live2 key2 Ha.
  apply (shim_dangling _ _ _ _ _ _ _ data); rewrite ?Ha; try done; [|lia|lia].
  unfold valid. by rewrite Hb.
Qed.

(** ** Witnesses *)

(** A thread on x86-64 in the functions of [Sample], with its frames in the
    upper half of its stack, and its registers: RBX, RBP, RSP. *)
Definition migrating_memory : memory :=
  Memory
    (pokes 0x5000 (le_bytes 8 0x1000000 ++ le_bytes 8 0x800000)
    (word 0xfff010 0xfff050 (word 0xfff018 0x1110
    (word 0xfff030 1234 (word 0xfff048 0xfff034
    (word 0xfff050 0xfff070 (word 0xfff058 0x1210 ∅)))))))
    (fun _ => 0) [(0x5000, 16); (0x6000, 8); (0x800000, 0x800000)] 0x2000000.

Definition migrating_regs : list Z :=
  ([0; 0; 0; 0; 42; 0; 0; 0xfff010; 0xfff000] ++ replicate 69 0) ≫= le_bytes 8.

Definition migrating_host : host :=
  Host false 4 8 garbage_context (Pthread 0 None) (Some a64_handle) (Some x86_handle) 0x1010 0x6000.

(** The host it migrates to. *)
Definition resuming_host : host :=
  Host true 4 8 garbage_context (Pthread 0 None) (Some a64_handle) (Some x86_handle) 0x1010 0x6000.

Definition result_memory {A} (o : outcome (A * memory)) : memory :=
  match o with Ret (_, m) => m | _ => migrating_memory end.

Definition memory_data : memory := result_memory (local_object sizeof_shim_data migrating_memory).
Definition memory_entered : memory :=
  result_memory (shim_enter migrating_host 0xabc 7 0x2000000 memory_data).
Definition memory_rewritten : memory :=
  result_memory (REWRITE_STACK migrating_host migrating_regs 0x5000 0x2000030 0x20002b0 memory_entered).

Lemma migrating_memory_wf : wf_memory migrating_memory.
Proof.
  constructor.
  - intros b s. simpl. rewrite !elem_of_cons, elem_of_nil.
    intros [[= -> ->]|[[= -> ->]|[[= -> ->]|[]]]]; lia.
  - simpl. unfold heap_limit. lia.
  - repeat first [apply FOP_cons | apply FOP_nil | apply Forall_cons; split | apply Forall_nil];
      try done; unfold disjoint_blocks; simpl; lia.
Qed.

Lemma checked_preserves args data m m' :
  wf_memory m -> m_blocks m' = m_blocks m -> m_next m <= m_next m' <= heap_limit ->
  forallb (fun x => peek m' x =? peek m x) (seqZ args 8 ++ seqZ data sizeof_shim_data) = true ->
  preserves (shim_kept args data) m m'.
Proof.
  intros Hwf Hb Hn Hp. split.
  - by apply (wf_same_blocks m).
  - intros a n. unfold valid. by rewrite Hb.
  - intros x Hx. rewrite forallb_forall in Hp. apply Z.eqb_eq, Hp, list_elem_of_In.
    rewrite elem_of_app, !elem_of_seqZ. unfold shim_kept, span in Hx. lia.
Qed.

Definition returns {A} (o : outcome (A * memory)) (P : A -> memory -> bool) : bool :=
  match o with Ret (x, m) => P x m | _ => false end.

Lemma returns_memory {A} `{EqDecision A} (o : outcome (A * memory)) a P :
  returns o (fun x m => bool_decide (x = a) && P m) = true ->
  o = Ret (a, result_memory o) /\ P (result_memory o) = true.
Proof.
  destruct o as [[x m]| | |]; cbn; [|done..].
  intros [->%bool_decide_eq_true HP]%andb_true_iff. done.
Qed.

Lemma migrating_data :
  local_object sizeof_shim_data migrating_memory = Ret (0x2000000, memory_data).
Proof. apply (returns_memory _ _ (fun _ => true)). vm_compute. reflexivity. Qed.

Lemma migrating_entered :
  shim_enter migrating_host 0xabc 7 0x2000000 memory_data = Ret ((0x2000030, 0x20002b0), memory_entered).
Proof. apply (returns_memory _ _ (fun _ => true)). vm_compute. reflexivity. Qed.

(** The rewriting succeeds, sets the stack and frame pointers, and spares the
    thread's pointer and the shim's data. *)
Definition rewritten_ok (m0 m : memory) : bool :=
  (word_at 8 m (0x20002b0 + sp_offset true) =? 0xbfff80) &&
  (word_at 8 m (0x20002b0 + fp_offset true) =? 0xbfffd0) &&
  bool_decide (m_blocks m = m_blocks m0) &&
  (m_next m0 <=? m_next m) && (m_next m <=? heap_limit) &&
  forallb (fun x => peek m x =? peek m0 x) (seqZ 0x6000 8 ++ seqZ 0x2000000 sizeof_shim_data).

Lemma rewritten_ok_spec m0 m :
  wf_memory m0 -> rewritten_ok m0 m = true ->
  word_at 8 m (0x20002b0 + sp_offset true) = 0xbfff80 /\
  word_at 8 m (0x20002b0 + fp_offset true) = 0xbfffd0 /\
  preserves (shim_kept 0x6000 0x2000000) m0 m.
Proof.
  unfold rewritten_ok. rewrite !andb_true_iff, !Z.eqb_eq, bool_decide_eq_true, !Z.leb_le.
  intros Hwf [[[[[Hsp Hfp] Hb] Hn] Hl] Hp]. split_and!; [done..|].
  by apply checked_preserves.
Qed.

Lemma migrating_rewritten :
  REWRITE_STACK migrating_host migrating_regs 0x5000 0x2000030 0x20002b0 memory_entered =
    Ret ((true, 0x5000), memory_rewritten) /\ rewritten_ok memory_entered memory_rewritten = true.
Proof.
  assert (Hc : returns (REWRITE_STACK migrating_host migrating_regs 0x5000 0x2000030 0x20002b0
      memory_entered) (fun x m => bool_decide (x = (true, 0x5000)) && rewritten_ok memory_entered m) = true)
    by (vm_compute; reflexivity).
  unfold memory_rewritten. exact (returns_memory _ _ _ Hc).
Qed.

Lemma migrating_room : shim_room migrating_memory.
Proof. unfold shim_room, heap_limit; cbn; lia. Qed.

Lemma migrating_run :
  exists ma m0 mb,
    local_object sizeof_shim_data migrating_memory = Ret (0x2000000, ma) /\
    shim_enter migrating_host 0xabc 7 0x2000000 ma = Ret ((0x2000030, 0x20002b0), m0) /\
    REWRITE_STACK migrating_host migrating_regs 0x5000 0x2000030 0x20002b0 m0 =
      Ret ((true, 0x5000), mb) /\
    word_at 8 mb (0x20002b0 + sp_offset true) = 0xbfff80 /\
    word_at 8 mb (0x20002b0 + fp_offset true) = 0xbfffd0 /\
    preserves (shim_kept 0x6000 0x2000000) m0 mb.
Proof.
  destruct migrating_rewritten as [ER Hok]. exists memory_data, memory_entered, memory_rewritten.
  split; [exact migrating_data|]. split; [exact migrating_entered|]. split; [exact ER|].
  destruct (shim_enter_run migrating_host 0xabc 7 migrating_memory 0x2000000 memory_data
    migrating_memory_wf migrating_room eq_refl migrating_data) as (src & dst & m0 & E & Hsm).
  assert (m0 = memory_entered) as ->.
  { pose proof migrating_entered as E'. rewrite E in E'. congruence. }
  exact (rewritten_ok_spec _ _ (sm_wf _ _ _ _ _ _ _ _ Hsm) Hok).
Qed.

(** A callback that stores its argument. *)
Definition storing (_ argument : Z) : M unit := store64 0x5008 argument.

Definition left_ok (m : memory) : bool :=
  bool_decide (m_blocks m = m_blocks memory_entered) && (m_next memory_entered <=? m_next m) &&
  (m_next m + 56 <=? heap_limit) && valid m 0x5008 8 && (0x6008 <=? m_next m).

Lemma migrating_leaves :
  returns (migrate_shim_internal migrating_host storing 0xabc 7 migrating_regs 0x5000 migrating_memory)
    (fun _ => left_ok) = true.
Proof. vm_compute. reflexivity. Qed.

Lemma migrating_left c m1 :
  migrate_shim_internal migrating_host storing 0xabc 7 migrating_regs 0x5000 migrating_memory =
    Ret ((Migrated c, 0x5000), m1) ->
  wf_memory m1 /\ m_next m1 + 56 <= heap_limit /\ valid m1 0x5008 8 = true /\ 0x6008 <= m_next m1.
Proof.
  intros E. pose proof migrating_leaves as Hc. rewrite E in Hc. cbn [returns] in Hc.
  unfold left_ok in Hc. rewrite !andb_true_iff, bool_decide_eq_true, !Z.leb_le in Hc.
  destruct Hc as [[[[Hb Hn] Hl] Hv] Hlow]. split_and!; [|exact Hl|exact Hv|exact Hlow].
  apply (wf_same_blocks memory_entered); [|exact Hb|unfold heap_limit in *; lia].
  destruct (shim_enter_run migrating_host 0xabc 7 migrating_memory 0x2000000 memory_data
    migrating_memory_wf migrating_room eq_refl migrating_data) as (src & dst & m0 & E' & Hsm).
  pose proof migrating_entered as E2. rewrite E' in E2. injection E2 as _ _ ->. apply Hsm.
Qed.

(** The shim's next call has its object, and the callback can store. *)
Lemma storing_run m1 :
  wf_memory m1 -> m_next m1 + 56 <= heap_limit -> valid m1 0x5008 8 = true -> 0x6008 <= m_next m1 ->
  exists p m3 m4, local_object sizeof_shim_data m1 = Ret (p, m3) /\
    call_callback storing 0xabc 7 m3 = Ret (tt, m4) /\ word_at 8 m4 0x5008 = 7 /\
    preserves (shim_kept 0x6000 0x2000000) m3 m4 /\ m_blocks m4 = m_blocks m3.
Proof.
  intros Hwf Hl Hv Hlow. destruct (local_object_run sizeof_shim_data m1) as (p & m3 & E3 & _ & A & _);
    [done|done|unfold sizeof_shim_data; lia|].
  destruct (store_word_run m3 0x5008 7 (al_wf _ _ _ _ A)) as (m4 & E4 & F & W & R);
    [by eapply allocated_valid_old|].
  exists p, m3, m4. split_and!; [done|exact E4|exact R| |apply F].
  split; [done|intros a n; by rewrite (only_writes_valid _ _ _ _ _ F)|].
  intros x Hx. apply (ow_peek _ _ _ F). revert Hx. unfold shim_kept, span, sizeof_shim_data. lia.
Qed.

(** The theorem's hypotheses hold: the stack is rewritten into the lower half and the
    aarch64 thread resumes with the stack and frame pointers of the sample in [Sample],
    moved there; its shim calls the callback and clears the thread's pointer. *)
Lemma migration_resumes_witness :
  exists c m1 m5,
    migrate_shim_internal migrating_host storing 0xabc 7 migrating_regs 0x5000
      migrating_memory = Ret ((Migrated c, 0x5000), m1) /\
    mc_cpus c = CPU_SET 0 ∅ /\ mc_sp c = 0xbfff80 /\ mc_fp c = 0xbfffd0 /\
    migrate_shim_internal resuming_host storing 0 0 [] 0 m1 = Ret ((Resumed 0x20002b0, 0), m5) /\
    word_at 8 m5 0x6000 = NULL /\ word_at 8 m5 0x5008 = 7.
Proof.
  destruct migrating_run as (ma & m0 & mb & E1 & E0 & ER & Hsp & Hfp & Hpr).
  destruct (migration_resumes migrating_host storing 0xabc 7 migrating_regs 0x5000
    migrating_memory 0x2000000 0x2000030 0x20002b0 ma m0 0x5000 mb
    migrating_memory_wf migrating_room eq_refl eq_refl ltac:(lia) ltac:(lia) E1 E0 ER Hpr)
    as (c & m1 & E & _ & Hc & _ & Hs & Hf & _ & Hback).
  destruct (migrating_left c m1 E) as (Hwf & Hl & Hv & Hlow).
  destruct (storing_run m1 Hwf Hl Hv Hlow) as (p & m3 & m4 & E3 & E4 & H7 & Hk & Hb).
  destruct (Hback resuming_host storing 0 0 [] 0 m1 p m3 m4 eq_refl
    (Preserves _ _ _ Hwf (fun _ _ H => H) (fun _ _ => eq_refl)) E3 E4 Hk Hb) as (m5 & E5 & Hn & _ & Hp).
  exists c, m1, m5. split; [exact E|]. split; [exact Hc|].
  split; [rewrite Hs; exact Hsp|]. split; [rewrite Hf; exact Hfp|]. split; [exact E5|]. split; [exact Hn|].
  rewrite <- H7. unfold word_at. f_equal. apply list_fmap_ext. intros i x [-> ?]%lookup_seqZ.
  apply Hp. unfold span. cbn. lia.
Defined.

(** The theorem's hypotheses hold: no handles. *)
Lemma failed_migration_dangles_witness :
  exists m1,
    migrate_shim_internal (Host true 4 8 garbage_context (Pthread 0 None) None None 0x1010 0x6000)
      (fun _ _ => mret tt) 0xabc 7 (replicate 784 0) 0x5000 migrating_memory =
      Ret ((NotMigrated, 0x5000), m1) /\
    migrate_shim_internal migrating_host (fun _ _ => mret tt) 0 0 [] 0 m1 = Fault.
Proof.
  destruct (failed_migration_dangles
    (Host true 4 8 garbage_context (Pthread 0 None) None None 0x1010 0x6000)
    (fun _ _ => mret tt) 0xabc 7 (replicate 784 0) 0x5000 migrating_memory
    migrating_memory_wf migrating_room eq_refl eq_refl (or_introl eq_refl) eq_refl)
    as (m1 & E & _ & _ & H).
  exists m1. split; [exact E|]. apply H. reflexivity.
Defined.
