(* ===== verification/IR.v ===== *)
(** * LLVM IR as the compiler's passes see it (src/patches/llvm)

    What the passes of src/patches/llvm/src ask LLVM about a function: its
    blocks, their successors, the instructions of a block with their operands,
    and what kind of value or instruction something is.  LLVM itself is not in
    the repository; a value and a block are names. *)

From S2P Require Import Prelude.
From stdpp Require Export gmap sets.

#[local] Open Scope nat_scope.

Abbreviation value := nat.
Abbreviation block := nat.

(** What [isa] tells the passes of a value; an instruction's value is its
    result. *)
Inductive value_class :=
  | BasicBlockValue | InlineAsmValue | BitCastInst | CmpInst | ConstantValue
  | MetadataAsValue | ArgumentValue | OtherInst.

#[export] Instance value_class_eq_dec : EqDecision value_class.
Proof. solve_decision. Defined.

Inductive opcode :=
  | PHINode (incoming : list block)    (* the blocks of its operands *)
  | CallInst (inline_asm intrinsic : bool)
  | StackMap (id : nat)                (* a call of llvm.experimental.stackmap *)
  | AccessInst                         (* extracts, inserts, getelementptr *)
  | ICmpInst                           (* icmp and fcmp *)
  | OtherOp.

Record instr := Instr { i_val : value; i_op : opcode; i_operands : list value }.

Record func := Func {
  f_entry : block;
  f_layout : list block;
  f_code : gmap block (list instr);
  f_succs : gmap block (list block)
}.

Definition code (F : func) (b : block) : list instr := default [] (f_code F !! b).
Definition succs (F : func) (b : block) : list block := default [] (f_succs F !! b).

Definition isPHI (i : instr) : bool := match i_op i with PHINode _ => true | _ => false end.

(** The instructions before and after the first that is not a phi-node. *)
Fixpoint phis (insts : list instr) : list instr :=
  match insts with
  | i :: insts => if isPHI i then i :: phis insts else []
  | [] => []
  end.

Fixpoint after_phis (insts : list instr) : list instr :=
  match insts with
  | i :: rest => if isPHI i then after_phis rest else insts
  | [] => []
  end.

Lemma phis_split insts : insts = phis insts ++ after_phis insts.
Proof. induction insts as [|i insts IH]; [done|]. cbn. destruct (isPHI i); [|done]. cbn. by f_equal. Qed.

(** Phi-nodes are at the beginning of their block. *)
Definition phis_first (F : func) : Prop :=
  forall b, Forall (fun i => isPHI i = false) (after_phis (code F b)).
