(* ===== verification/LoopNest.v ===== *)
(** * Loop-nesting trees (src/patches/llvm/src: LoopNestingTree.cpp, .h)

    The tree of the loops of a strongly connected component, built from LLVM's
    [LoopInfo] by a work list, and the iteration over its loop headers, outer
    loops first.  Nodes live in a store and name each other by their index;
    counters count blocks and do not overflow. *)

From S2P Require Import Prelude IR.

#[local] Open Scope nat_scope.

(** ** Definitions *)

(** LLVM's [Loop]: the header is the first of its blocks, which include those
    of nested loops. *)
Record loop := Loop {
  getHeader : block;
  getBlocks : list block;
  getLoopDepth : nat;
  getParentLoop : option nat
}.

(** LLVM's [LoopInfo]: the loops, and the innermost loop of a block. *)
Record LoopInfo := LI { li_loops : list loop; li_of : gmap block nat }.

Definition loop_of (li : LoopInfo) (b : block) : option loop := l ← li_of li !! b; li_loops li !! l.

Definition loop_depth (li : LoopInfo) (b : block) : nat :=
  match loop_of li b with Some l => getLoopDepth l | None => 0 end.

Definition isLoopHeader (li : LoopInfo) (b : block) : bool :=
  match loop_of li b with Some l => bool_decide (getHeader l = b) | None => false end.

Record node := Node {
  n_bb : block;
  n_parent : option nat;
  n_children : list nat;
  n_isLoopHeader : bool
}.

Definition addChild (c : nat) (n : node) : node :=
  Node (n_bb n) (n_parent n) (n_children n ++ [c]) (n_isLoopHeader n).

(** The root is the first node. *)
Record LoopNestingTree := Tree { t_size : nat; t_depth : nat; t_nodes : list node }.

(** [new Node], and its addition to the parent's children. *)
Definition new_child (h : nat) (b : block) (header : bool) (nodes : list node) : list node :=
  alter (addChild (length nodes)) h nodes ++ [Node b (Some h) [] header].

(** The blocks of the loop of header node [h], at depth [depth].  The iterator
    [block_begin()++] is the one before the increment: the header is one of the
    blocks. *)
Fixpoint add_children (li : LoopInfo) (h depth : nat) (bs : list block)
    (nodes : list node) (work : list nat) (size : nat) : list node * list nat * nat :=
  match bs with
  | [] => (nodes, work, size)
  | b :: bs =>
      let nodeDepth := loop_depth li b in
      if nodeDepth =? depth
      then add_children li h depth bs (new_child h b false nodes) work (size + 1)
      else if (nodeDepth =? depth + 1) && isLoopHeader li b
      then add_children li h depth bs (new_child h b true nodes) (work ++ [length nodes]) (size + 1)
      else add_children li h depth bs nodes work size
  end.

Fixpoint build_tree (li : LoopInfo) (fuel : nat) (work : list nat) (t : LoopNestingTree) :
    outcome LoopNestingTree :=
  match work, fuel with
  | [], _ => Ret t
  | _, O => Spin
  | h :: work, S fuel =>
      n ← get (t_nodes t !! h);
      let depth := loop_depth li (n_bb n) in
      l ← get (loop_of li (n_bb n));
      let '(nodes, work, size) := add_children li h depth (getBlocks l) (t_nodes t) work (t_size t) in
      build_tree li fuel work (Tree size (Nat.max depth (t_depth t)) nodes)
  end.

Fixpoint outermost (li : LoopInfo) (fuel : nat) (l : loop) : outcome loop :=
  if 1 <? getLoopDepth l
  then match fuel with
       | O => Spin
       | S fuel => p ← get (getParentLoop l); p ← get (li_loops li !! p); outermost li fuel p
       end
  else Ret l.

(** The constructor. *)
Definition newLoopNestingTree (li : LoopInfo) (fuel : nat) (SCC : list block) :
    outcome LoopNestingTree :=
  front ← get (head SCC);
  match loop_of li front with
  | None => Ret (Tree 1 1 [Node front None [] true])
  | Some l =>
      l ← outermost li fuel l;
      build_tree li fuel [0] (Tree 1 1 [Node (getHeader l) None [] true])
  end.

(** [loop_iterator]: the current node ([None] at the end) and the queue. *)
Record loop_iterator := Iter { it_cur : option nat; it_remaining : list nat }.

Definition children_of (t : LoopNestingTree) (h : nat) : list nat :=
  match t_nodes t !! h with Some n => n_children n | None => [] end.

Definition is_header (t : LoopNestingTree) (c : nat) : bool :=
  match t_nodes t !! c with Some n => n_isLoopHeader n | None => false end.

Definition bb_of (t : LoopNestingTree) (c : nat) : list block :=
  match t_nodes t !! c with Some n => [n_bb n] | None => [] end.

Definition addLoopHeaders (t : LoopNestingTree) (it : loop_iterator) : loop_iterator :=
  match it_cur it with
  | Some h => Iter (Some h) (it_remaining it ++ filter (is_header t) (children_of t h))
  | None => it
  end.

Definition loop_begin (t : LoopNestingTree) : loop_iterator := addLoopHeaders t (Iter (Some 0) []).

Definition iter_next (t : LoopNestingTree) (it : loop_iterator) : loop_iterator :=
  match it_remaining it with
  | h :: remaining => addLoopHeaders t (Iter (Some h) remaining)
  | [] => Iter None []
  end.

(** A loop over the headers with a body that gets the header's block and those
    of its children. *)
Fixpoint for_loops {A} (t : LoopNestingTree) (fuel : nat) (body : block -> list block -> A -> A)
    (it : loop_iterator) (a : A) : outcome A :=
  match it_cur it, fuel with
  | None, _ => Ret a
  | Some _, O => Spin
  | Some h, S fuel =>
      n ← get (t_nodes t !! h);
      for_loops t fuel body (iter_next t it) (body (n_bb n) (n_children n ≫= bb_of t) a)
  end.
