(* ===== verification/LiveValues.v ===== *)
(** * The live-value analysis (src/patches/llvm/src: LiveValues.cpp, .h)

    A pass over a function in SSA form that computes the values live into and
    out of every block: one traversal of the control-flow graph without its back
    edges, then a propagation within the loop nests.  Sets of values are finite
    sets and maps from blocks are [std::map]s: [m[b]] inserts an empty set for
    an absent block, and [insert] does not overwrite. *)

From S2P Require Import Prelude IR LoopNest.

#[local] Open Scope nat_scope.

(** ** Definitions *)

(** Which kinds of values to track. *)
Record options := Options { inlineasm : bool; bitcasts : bool; comparisons : bool; constants : bool; metadata : bool }.

(** The constructor. *)
Definition newLiveValues : options := Options false false true false false.

Abbreviation LiveVals := (gmap block (gset value)).

(** The results for the functions analysed so far. *)
Record live_values := LV { FuncBBLiveIn : gmap nat LiveVals; FuncBBLiveOut : gmap nat LiveVals }.

(** What LLVM computes for a function: the blocks that can be reached, in
    postorder; the back edges; the strongly connected components; the loops. *)
Record analyses := Analyses {
  postorder : list block;
  backedges : gset (block * block);
  sccs : list (list block);
  loop_info : LoopInfo
}.

(** [m[b]] *)
Definition map_at (b : block) (m : LiveVals) : gset value * LiveVals :=
  match m !! b with
  | Some s => (s, m)
  | None => (∅, <[b := ∅]> m)
  end.

(** [m.insert] *)
Definition map_insert (b : block) (s : gset value) (m : LiveVals) : LiveVals :=
  match m !! b with
  | Some _ => m
  | None => <[b := s]> m
  end.

Section Analysis.
Context (o : options) (class : value -> value_class) (F : func).

Definition includeVal (v : value) : bool :=
  match class v with
  | BasicBlockValue => false
  | InlineAsmValue => inlineasm o
  | BitCastInst => bitcasts o
  | CmpInst => comparisons o
  | ConstantValue => constants o
  | MetadataAsValue => metadata o
  | ArgumentValue | OtherInst => true
  end.

(** The set and the number of values added to it. *)
Definition insert_counted (v : value) (st : gset value * nat) : gset value * nat :=
  if decide (v ∈ st.1) then st else ({[v]} ∪ st.1, st.2 + 1).

Fixpoint incoming_uses (B : block) (blocks : list block) (vals : list value) (st : gset value * nat) :
    gset value * nat :=
  match blocks, vals with
  | b :: blocks, v :: vals =>
      incoming_uses B blocks vals
        (if bool_decide (b = B) && includeVal v then insert_counted v st else st)
  | _, _ => st
  end.

Fixpoint phiUses_from (B : block) (insts : list instr) (st : gset value * nat) : gset value * nat :=
  match insts with
  | i :: insts =>
      match i_op i with
      | PHINode incoming => phiUses_from B insts (incoming_uses B incoming (i_operands i) st)
      | _ => st
      end
  | [] => st
  end.

Definition phiUses (B S : block) (uses : gset value) : gset value * nat :=
  phiUses_from B (code F S) (uses, 0).

Fixpoint phiDefs_from (insts : list instr) (st : gset value * nat) : gset value * nat :=
  match insts with
  | i :: insts =>
      match i_op i with
      | PHINode _ => phiDefs_from insts (if includeVal (i_val i) then insert_counted (i_val i) st else st)
      | _ => st
      end
  | [] => st
  end.

Definition phiDefs (B : block) (uses : gset value) : gset value * nat := phiDefs_from (code F B) (uses, 0).

(** Backwards over an instruction. *)
Definition use_operands (ops : list value) (live : gset value) : gset value :=
  foldl (fun live v => if includeVal v then {[v]} ∪ live else live) live ops.

Definition before_instr (i : instr) (live : gset value) : gset value :=
  use_operands (i_operands i) (live ∖ {[i_val i]}).

(** The instructions in reverse, up to the first phi-node. *)
Fixpoint backwards (rev : list instr) (live : gset value) : gset value :=
  match rev with
  | i :: rev => if isPHI i then live else backwards rev (before_instr i live)
  | [] => live
  end.

(** *** Partial liveness (dagDFS) *)

Definition add_successor (K : gset (block * block)) (B : block) (st : gset value * LiveVals) (S : block) :
    gset value * LiveVals :=
  let '(live, liveIn) := st in
  if S =? B then st
  else
    let live := (phiUses B S live).1 in
    if decide ((B, S) ∈ K) then (live, liveIn)
    else
      let phiDefined := (phiDefs S ∅).1 in
      let '(s, liveIn) := map_at S liveIn in
      (live ∪ filter (fun v => (v ∉ phiDefined) /\ includeVal v = true) s, liveIn).

Definition dagDFS_block (K : gset (block * block)) (st : LiveVals * LiveVals) (B : block) : LiveVals * LiveVals :=
  let '(liveIn, liveOut) := st in
  let '(live, liveIn) := foldl (add_successor K B) (∅, liveIn) (succs F B) in
  let liveOut := map_insert B live liveOut in
  let live := (phiDefs B (backwards (reverse (code F B)) live)).1 in
  (map_insert B live liveIn, liveOut).

Definition dagDFS (A : analyses) (st : LiveVals * LiveVals) : LiveVals * LiveVals :=
  foldl (dagDFS_block (backedges A)) st (postorder A).

(** *** Propagation within loops *)

(** [m[c].insert] of each of the values. *)
Definition add_all (vals : gset value) (m : LiveVals) (c : block) : LiveVals :=
  if decide (vals = ∅) then m else <[c := vals ∪ default ∅ (m !! c)]> m.

(** [phiDefined] is declared outside of the loop over the headers and only
    added to. *)
Definition propagate_header (h : block) (children : list block) (st : gset value * (LiveVals * LiveVals)) :
    gset value * (LiveVals * LiveVals) :=
  let '(phiDefined, (liveIn, liveOut)) := st in
  let phiDefined := (phiDefs h phiDefined).1 in
  let '(s, liveIn) := map_at h liveIn in
  let liveLoop := filter (fun v => (v ∉ phiDefined) /\ includeVal v = true) s in
  (phiDefined, (foldl (add_all liveLoop) liveIn children, foldl (add_all liveLoop) liveOut children)).

Definition propagateValues (fuel : nat) (loopNest : LoopNestingTree) (st : LiveVals * LiveVals) :
    outcome (LiveVals * LiveVals) :=
  '(_, st) ← for_loops loopNest fuel propagate_header (loop_begin loopNest) (∅, st);
  Ret st.

Fixpoint loopTreeDFS (fuel : nat) (LNF : list LoopNestingTree) (st : LiveVals * LiveVals) :
    outcome (LiveVals * LiveVals) :=
  match LNF with
  | [] => Ret st
  | t :: LNF => st ← propagateValues fuel t st; loopTreeDFS fuel LNF st
  end.

Fixpoint constructLoopNestingForest (li : LoopInfo) (fuel : nat) (SCCs : list (list block)) :
    outcome (list LoopNestingTree) :=
  match SCCs with
  | [] => Ret []
  | scc :: SCCs =>
      t ← newLoopNestingTree li fuel scc;
      LNF ← constructLoopNestingForest li fuel SCCs;
      Ret (t :: LNF)
  end.

Definition analyse (A : analyses) (fuel : nat) : outcome (LiveVals * LiveVals) :=
  let st := dagDFS A (∅, ∅) in
  LNF ← constructLoopNestingForest (loop_info A) fuel (sccs A);
  loopTreeDFS fuel LNF st.

(** The pass, for the function named [f]. *)
Definition runOnFunction (A : analyses) (fuel : nat) (f : nat) (lv : live_values) : outcome live_values :=
  match FuncBBLiveIn lv !! f with
  | Some _ => Ret lv
  | None =>
      '(liveIn, liveOut) ← analyse A fuel;
      Ret (LV (<[f := liveIn]> (FuncBBLiveIn lv)) (<[f := liveOut]> (FuncBBLiveOut lv)))
  end.

(** *** Results; [at] throws when there is none *)

Definition getLiveIn (lv : live_values) (f : nat) (BB : block) : outcome (gset value) :=
  m ← get (FuncBBLiveIn lv !! f); get (m !! BB).

Definition getLiveOut (lv : live_values) (f : nat) (BB : block) : outcome (gset value) :=
  m ← get (FuncBBLiveOut lv !! f); get (m !! BB).

(** The instructions of the block in reverse, until the one asked for, whose
    value is erased; past the block's beginning there is none to erase. *)
Fixpoint live_after (inst : value) (rev : list instr) (live : gset value) : outcome (gset value) :=
  match rev with
  | i :: rev => if i_val i =? inst then Ret (live ∖ {[inst]}) else live_after inst rev (before_instr i live)
  | [] => Fault
  end.

Definition getLiveValues (lv : live_values) (f : nat) (BB : block) (inst : value) : outcome (gset value) :=
  live ← getLiveOut lv f BB;
  live_after inst (reverse (code F BB)) live.

End Analysis.
