(* ===== verification/Cfg.v ===== *)
(** * Control-flow graphs

    Dominance and natural loops, what the analyses of LLVM that [LiveValues] uses
    promise about a reducible control-flow graph ([CfgLaws]), and how its loops
    nest. *)

From S2P Require Import Prelude IR LoopNest LiveValues.

#[local] Open Scope nat_scope.

Section Graph.
Context (F : func) (A : analyses).

(** ** Definitions *)

Definition edge (b c : block) : Prop := c ∈ succs F b.

Definition reachable (b : block) : Prop := rtc edge (f_entry F) b.

(** A path from the entry to the block does not meet [a]. *)
Inductive avoids (a : block) : block -> Prop :=
  | avoids_entry : f_entry F <> a -> avoids a (f_entry F)
  | avoids_edge b c : avoids a b -> edge b c -> c <> a -> avoids a c.

Definition dominates (a b : block) : Prop := ~ avoids a b.

(** The natural loop of a header. *)
Inductive natural (h : block) : block -> Prop :=
  | natural_latch b : reachable b -> (b, h) ∈ backedges A -> natural h b
  | natural_pred b c : natural h c -> c <> h -> edge b c -> reachable b -> natural h b.

Abbreviation loops := (li_loops (loop_info A)).

(** What LLVM's analyses compute: a postorder without the back edges, which lead
    to dominators (the graph is reducible); strongly connected components; the
    natural loop of every header, the innermost loop of every block, and each
    loop's parent, the smallest loop around it. *)
Class CfgLaws : Prop := {
  po_reachable b : b ∈ postorder A <-> reachable b;
  po_nodup : NoDup (postorder A);
  po_order i b c : postorder A !! i = Some b -> edge b c ->
    (b, c) ∈ backedges A \/ exists j, j < i /\ postorder A !! j = Some c;
  reducible b h : (b, h) ∈ backedges A -> reachable b -> edge b h /\ dominates h b;
  scc_cover b : reachable b -> exists scc, scc ∈ sccs A /\ b ∈ scc;
  scc_connected scc b c : scc ∈ sccs A -> b ∈ scc -> c ∈ scc -> reachable b /\ rtc edge b c;
  scc_nonempty : [] ∉ sccs A;
  li_header i l : loops !! i = Some l -> li_of (loop_info A) !! getHeader l = Some i;
  li_blocks i l b : loops !! i = Some l -> b ∈ getBlocks l <-> natural (getHeader l) b;
  li_all b h : (b, h) ∈ backedges A -> reachable b -> exists i l, loops !! i = Some l /\ getHeader l = h;
  li_inner b i : li_of (loop_info A) !! b = Some i -> exists l, loops !! i = Some l /\ b ∈ getBlocks l /\
    forall j l', loops !! j = Some l' -> b ∈ getBlocks l' -> getBlocks l ⊆ getBlocks l';
  li_outside b j l : li_of (loop_info A) !! b = None -> loops !! j = Some l -> b ∉ getBlocks l;
  li_parent i l : loops !! i = Some l ->
    match getParentLoop l with
    | None => getLoopDepth l = 1 /\ forall j l', loops !! j = Some l' -> getHeader l ∈ getBlocks l' -> l' = l
    | Some p => exists lp, loops !! p = Some lp /\ getLoopDepth l = getLoopDepth lp + 1 /\
        getHeader l ∈ getBlocks lp /\ getHeader lp <> getHeader l /\
        forall j l', loops !! j = Some l' -> getHeader l ∈ getBlocks l' -> l' <> l -> getHeader lp ∈ getBlocks l'
    end
}.

Definition is_loop (l : loop) : Prop := exists i, loops !! i = Some l.

(** ** Lemmas *)

Lemma reachable_edge b c : reachable b -> edge b c -> reachable c.
Proof. intros Hb He. by apply rtc_r with b. Qed.

Lemma reachable_path b c : reachable b -> rtc edge b c -> reachable c.
Proof. intros Hb Hr. unfold reachable. by transitivity b. Qed.

Lemma dominates_antisym a b : a <> b -> dominates a b -> dominates b a -> ~ reachable a.
Proof.
  intros Hn Hab Hba Hr.
  assert (Hall : forall c, reachable c -> avoids a c /\ avoids b c); [|by destruct (Hall a Hr)].
  apply rtc_ind_r; [|intros c d Hc He [Ha Hb]].
  - split; constructor; intros Hx; [apply Hba|apply Hab]; rewrite <- Hx; constructor; congruence.
  - split; econstructor; try done; intros ->; [apply Hba|apply Hab]; by eapply avoids_edge.
Qed.

Lemma dominates_pred a b c : dominates a c -> a <> c -> edge b c -> dominates a b.
Proof. intros Hd Hn He Ha. apply Hd. by apply avoids_edge with b. Qed.

Lemma natural_reachable h b : natural h b -> reachable b.
Proof. by destruct 1. Qed.

Context {Laws : CfgLaws}.

Lemma natural_dominated h b : natural h b -> dominates h b.
Proof.
  induction 1 as [b Hb Hk|b c _ IH Hn He Hb]; [by apply reducible|].
  intros Ha. apply IH. by apply avoids_edge with b.
Qed.

(** Backwards from a block of the loop. *)
Lemma natural_back h b c : reachable b -> rtc edge b c -> natural h c -> natural h b \/ natural h h.
Proof.
  intros Hb Hr Hc. induction Hr as [|b d c He _ IH]; [by left|].
  destruct IH as [Hd|]; [by eapply reachable_edge|done| |by right].
  destruct (decide (d = h)) as [->|]; [by right|]. left. by apply natural_pred with d.
Qed.

Lemma natural_header h b : natural h b -> natural h h.
Proof.
  intros Hb. destruct (natural_back h (f_entry F) b) as [He|]; [apply rtc_refl|by eapply natural_reachable|done| |done].
  destruct (decide (f_entry F = h)) as [E|Hn]; [by rewrite E in He|].
  destruct (natural_dominated _ _ He). by constructor.
Qed.

Lemma header_in l : is_loop l -> getHeader l ∈ getBlocks l.
Proof. intros [i Hi]. destruct (li_inner _ _ (li_header _ _ Hi)) as (l' & Hl' & Hin & _). congruence. Qed.

Lemma loop_of_header l : is_loop l -> loop_of (loop_info A) (getHeader l) = Some l.
Proof. intros [i Hi]. unfold loop_of. by rewrite (li_header _ _ Hi). Qed.

Lemma loop_of_loop b l : loop_of (loop_info A) b = Some l -> is_loop l /\ b ∈ getBlocks l.
Proof.
  unfold loop_of. destruct (li_of _ !! b) as [i|] eqn:E; [|done]. cbn. intros Hl.
  destruct (li_inner _ _ E) as (l' & Hl' & Hb & _). rewrite Hl in Hl'. injection Hl' as <-. split; [by exists i|done].
Qed.

Lemma loop_blocks l b : is_loop l -> b ∈ getBlocks l <-> natural (getHeader l) b.
Proof. intros [i Hi]. by eapply li_blocks. Qed.

Lemma same_header l l' : is_loop l -> is_loop l' -> getHeader l = getHeader l' -> l = l'.
Proof. intros Hl Hl' E. apply loop_of_header in Hl, Hl'. congruence. Qed.

(** Header and blocks reach each other. *)
Lemma natural_from h b : natural h b -> rtc edge h b.
Proof.
  intros Hb. pose proof (natural_reachable _ _ Hb) as Hr. apply natural_dominated in Hb as Hdom. clear Hb.
  revert b Hr Hdom. apply (rtc_ind_r (fun b => dominates h b -> rtc edge h b)); [|intros c d Hr He IH]; intros Hdom.
  - destruct (decide (f_entry F = h)) as [->|]; [apply rtc_refl|]. destruct Hdom. by constructor.
  - destruct (decide (h = d)) as [->|Hn]; [apply rtc_refl|]. apply rtc_r with c; [|done].
    apply IH. by eapply dominates_pred.
Qed.

Lemma natural_to h b : natural h b -> rtc edge b h.
Proof.
  induction 1 as [b Hb Hk|b c _ IH _ He _]; [|by eapply rtc_l].
  apply rtc_once. by apply reducible.
Qed.

Lemma natural_loop h b : natural h b -> exists l, is_loop l /\ getHeader l = h.
Proof.
  induction 1 as [b Hb Hk|]; [|done]. destruct (li_all _ _ Hk Hb) as (i & l & Hl & <-).
  exists l. split; [by exists i|done].
Qed.

(** A loop that meets the header of another one contains it. *)
Lemma header_inside l l' : is_loop l -> is_loop l' -> getHeader l ∈ getBlocks l' -> getBlocks l ⊆ getBlocks l'.
Proof.
  intros [i Hi] [j Hj] Hin. destruct (li_inner _ _ (li_header _ _ Hi)) as (l0 & Hl0 & _ & Hmin).
  rewrite Hi in Hl0. injection Hl0 as <-. by eapply Hmin.
Qed.

Lemma mutual_headers l l' : is_loop l -> is_loop l' -> getHeader l ∈ getBlocks l' ->
  getHeader l' ∈ getBlocks l -> l = l'.
Proof.
  intros Hl Hl' H1 H2. apply same_header; try done.
  destruct (decide (getHeader l = getHeader l')) as [|Hn]; [done|exfalso].
  rewrite loop_blocks in H1, H2 by done.
  apply (dominates_antisym _ _ Hn); [by apply natural_dominated..|by eapply natural_reachable].
Qed.

(** The innermost loop of a block is in every loop that has the block. *)
Lemma innermost b l' : is_loop l' -> b ∈ getBlocks l' ->
  exists l, loop_of (loop_info A) b = Some l /\ is_loop l /\ b ∈ getBlocks l /\ getHeader l ∈ getBlocks l'.
Proof.
  intros [j Hj] Hb. unfold loop_of. destruct (li_of (loop_info A) !! b) as [i|] eqn:E.
  - destruct (li_inner _ _ E) as (l & Hl & Hin & Hmin). exists l. cbn. split; [done|].
    split; [by exists i|]. split; [done|]. apply (Hmin j l' Hj Hb). apply header_in. by exists i.
  - by destruct (li_outside _ _ _ E Hj).
Qed.

(** *** Parents *)

Definition parent_of (l p : loop) : Prop := exists i, getParentLoop l = Some i /\ loops !! i = Some p.

Lemma loop_parent l : is_loop l ->
  (getParentLoop l = None /\ getLoopDepth l = 1) \/ exists p, parent_of l p.
Proof.
  intros [i Hi]. pose proof (li_parent i l Hi) as Hpar. destruct (getParentLoop l) as [p|] eqn:E; [right|left; split; [done|by destruct Hpar]].
  destruct Hpar as (lp & Hlp & _). exists lp. exists p. done.
Qed.

Lemma parent_spec l p : is_loop l -> parent_of l p ->
  is_loop p /\ getLoopDepth l = getLoopDepth p + 1 /\ getHeader l ∈ getBlocks p /\ getHeader p <> getHeader l /\
  forall l', is_loop l' -> getHeader l ∈ getBlocks l' -> l' <> l -> getHeader p ∈ getBlocks l'.
Proof.
  intros [i Hi] (k & Hk & Hp). pose proof (li_parent i l Hi) as H. rewrite Hk in H.
  destruct H as (lp & Hlp & Hd & Hin & Hn & Hmin). rewrite Hp in Hlp. injection Hlp as <-.
  split; [by exists k|]. split; [done|]. split; [done|]. split; [done|].
  intros l' [j Hj]. by eapply Hmin.
Qed.

Lemma depth_pos l : is_loop l -> 1 <= getLoopDepth l.
Proof.
  intros Hl. destruct (loop_parent l Hl) as [[_ ->]|[p Hp]]; [done|].
  destruct (parent_spec l p Hl Hp) as (_ & -> & _). lia.
Qed.

(** The loops around a loop are its ancestors. *)
Lemma around_ind (P : loop -> loop -> Prop) :
  (forall l, is_loop l -> P l l) ->
  (forall l p l', is_loop l -> is_loop l' -> parent_of l p -> getHeader l ∈ getBlocks p ->
    getHeader p ∈ getBlocks l' -> P p l' -> P l l') ->
  forall l l', is_loop l -> is_loop l' -> getHeader l ∈ getBlocks l' -> P l l'.
Proof.
  intros Hself Hstep. enough (H : forall n l l', getLoopDepth l = n -> is_loop l -> is_loop l' ->
    getHeader l ∈ getBlocks l' -> P l l') by (intros; by eapply H).
  intros n. induction n as [n IH] using lt_wf_ind. intros l l' Hn Hl Hl' Hin.
  destruct (decide (getHeader l = getHeader l')) as [E|Hne].
  { rewrite (same_header l l') by done. by apply Hself. }
  destruct (loop_parent l Hl) as [[Hnone _]|[p Hp]].
  - destruct Hl as [i Hi]. pose proof (li_parent i l Hi) as H. rewrite Hnone in H.
    destruct Hl' as [j Hj]. destruct H as [_ Hmin]. by rewrite (Hmin j l') in Hne.
  - destruct (parent_spec l p Hl Hp) as (Hlp & Hd & Hinp & _ & Hmin).
    assert (Hpl' : getHeader p ∈ getBlocks l') by (apply Hmin; [done|done|by intros ->]).
    eapply Hstep; try done. eapply (IH (getLoopDepth p)); try done. lia.
Qed.

Lemma around_depth l l' : is_loop l -> is_loop l' -> getHeader l ∈ getBlocks l' ->
  l = l' \/ getLoopDepth l' < getLoopDepth l.
Proof.
  intros Hl Hl' Hin. revert l l' Hl Hl' Hin. apply around_ind; [by left|].
  intros l p l' Hl Hl' Hp _ Hin IH. right. destruct (parent_spec l p Hl Hp) as (_ & -> & _).
  destruct IH as [->|]; lia.
Qed.

(** *** Outermost loops and components *)

Definition pos (b : block) (i : nat) : Prop := postorder A !! i = Some b.

Lemma pos_reachable b : reachable b -> exists i, pos b i.
Proof. intros Hb%po_reachable. by apply list_elem_of_lookup_1. Qed.

Lemma pos_unique b i j : pos b i -> pos b j -> i = j.
Proof. apply NoDup_lookup, po_nodup. Qed.

(** A path all of whose blocks are at most at position [m]. *)
Definition low_edge (m : nat) (b c : block) : Prop :=
  edge b c /\ exists i j, pos b i /\ pos c j /\ i <= m /\ j <= m.

Lemma low_back m h b c : reachable b -> pos h m -> rtc (low_edge (m - 1)) b c -> 0 < m -> natural h c ->
  natural h b.
Proof.
  intros Hb Hm Hr H0 Hc. induction Hr as [|b d c (He & i & j & Hi & Hj & _ & Hjm) _ IH]; [done|].
  apply natural_pred with d; [|intros ->|done|done].
  - apply IH; [by eapply reachable_edge|done].
  - pose proof (pos_unique _ _ _ Hm Hj). lia.
Qed.

(** A path that ends above its beginning runs inside of a loop. *)
Lemma climbing_path a c i j : reachable a -> pos a i -> rtc edge a c -> pos c j -> i < j ->
  exists h, h <> a /\ natural h a.
Proof.
  intros Ha Hi Hr. revert j.
  enough (H : exists m h, pos h m /\ rtc (low_edge m) a c /\ (h = a \/ natural h a) /\
    forall j, pos c j -> j <= m).
  { intros j Hj Hlt. destruct H as (m & h & Hm & _ & Hh & Hle). specialize (Hle j Hj). exists h.
    assert (h <> a) by (intros ->; pose proof (pos_unique _ _ _ Hi Hm); lia). destruct Hh; [done|]. by split. }
  revert c Hr. apply rtc_ind_r; [|intros c d Hr He IH].
  { exists i, a. split; [done|]. split; [apply rtc_refl|]. split; [by left|].
    intros j Hj. by rewrite (pos_unique _ _ _ Hi Hj). }
  destruct IH as (m & h & Hm & Hlow & Hh & Hle).
  assert (Hc : reachable c) by (by eapply reachable_path).
  destruct (pos_reachable c Hc) as [ic Hic]. destruct (pos_reachable d (reachable_edge _ _ Hc He)) as [id Hid].
  specialize (Hle ic Hic). destruct (decide (id <= m)) as [Hm'|Hgt].
  - exists m, h. split; [done|]. split; [|split; [done|by intros j Hj; rewrite (pos_unique _ _ _ Hj Hid)]].
    eapply rtc_r; [done|]. split; [done|]. by exists ic, id.
  - exists id, d. split; [done|].
    assert (Hup : forall m', m <= m' -> rtc (low_edge m') a c).
    { intros m' Hmm. eapply rtc_subrel; [|exact Hlow]. intros x y (Hxy & ix & iy & ? & ? & ? & ?).
      split; [done|]. exists ix, iy. repeat split; try done; lia. }
    split; [|split].
    + eapply rtc_r; [apply Hup; lia|]. split; [done|]. exists ic, id. repeat split; try done; lia.
    + right. destruct (po_order ic c d Hic He) as [Hk|(k & Hk & Hkd)].
      * apply (low_back id d a c); [done|done|apply Hup; lia|lia|by apply natural_latch].
      * pose proof (pos_unique _ _ _ Hid Hkd). lia.
    + intros j Hj. by rewrite (pos_unique _ _ _ Hj Hid).
Qed.

Definition outer (l : loop) : Prop := is_loop l /\ getLoopDepth l = 1.

Lemma outer_around l l' : outer l -> is_loop l' -> getHeader l ∈ getBlocks l' -> l = l'.
Proof.
  intros [Hl Hd] Hl' Hin. destruct (around_depth l l' Hl Hl' Hin) as [|Hlt]; [done|].
  pose proof (depth_pos l' Hl'). lia.
Qed.

Lemma outer_unique lo lo' b : outer lo -> outer lo' -> b ∈ getBlocks lo -> b ∈ getBlocks lo' -> lo = lo'.
Proof.
  intros Ho Ho' Hb Hb'. pose proof Ho as [Hlo _]. pose proof Ho' as [Hlo' _].
  destruct (innermost b lo Hlo Hb) as (l & El & Hl & Hbl & Hin).
  destruct (innermost b lo' Hlo' Hb') as (l1 & El1 & _ & _ & Hin'). rewrite El in El1. injection El1 as <-.
  revert Ho. revert l lo Hl Hlo Hin Hin' Hb El Hbl. 
  enough (H : forall l lo, is_loop l -> is_loop lo -> getHeader l ∈ getBlocks lo ->
    getHeader l ∈ getBlocks lo' -> outer lo -> lo = lo') by (intros; by apply (H l)).
  apply (around_ind (fun l lo => getHeader l ∈ getBlocks lo' -> outer lo -> lo = lo')).
  - intros l _ Hin Ho. by apply outer_around.
  - intros l p lo Hl Hlo Hp _ _ IH Hin. apply IH. destruct (parent_spec l p Hl Hp) as (Hlp & Hd & _ & _ & Hmin).
    apply Hmin; [done|done|]. intros ->. destruct Ho' as [_ E]. pose proof (depth_pos p Hlp). lia.
Qed.

(** An outermost loop has no entry from what it can reach. *)
Lemma outer_entry l y : outer l -> rtc edge (getHeader l) y -> edge y (getHeader l) ->
  natural (getHeader l) y.
Proof.
  intros Ho Hr He. destruct Ho as [Hl Hd]. set (h := getHeader l) in *.
  assert (Hh : natural h h) by (apply loop_blocks; [done|by apply header_in]).
  assert (Hy : reachable y) by (eapply reachable_path; [by eapply natural_reachable|done]).
  destruct (pos_reachable y Hy) as [j Hj].
  destruct (po_order j y h Hj He) as [Hk|(i & Hlt & Hi)]; [by apply natural_latch|exfalso].
  destruct (climbing_path h y i j) as (h' & Hne & Hh'); try done; [by eapply natural_reachable|].
  destruct (natural_loop _ _ Hh') as (l' & Hl' & <-).
  assert (l = l'); [|by subst]. apply outer_around; [done|done|by apply loop_blocks].
Qed.

(** The component of an outermost loop is the loop. *)
Lemma outer_component l b f : outer l -> b ∈ getBlocks l -> reachable f -> rtc edge b f -> rtc edge f b ->
  f ∈ getBlocks l.
Proof.
  intros Ho Hb Hf Hbf Hfb. pose proof Ho as [Hl _]. apply loop_blocks; [done|].
  rewrite loop_blocks in Hb by done. set (h := getHeader l) in *.
  assert (Hhb : rtc edge h b) by (by apply natural_from).
  assert (Hhf : rtc edge h f) by (by etrans).
  clear Hbf. revert Hhf Hf. induction Hfb as [f|f g c He _ IH]; [done|].
  intros Hhf Hf. destruct (decide (g = h)) as [->|Hn]; [by apply outer_entry|].
  apply natural_pred with g; try done. apply IH; try done; [|by eapply reachable_edge]. by eapply rtc_r.
Qed.

End Graph.
