(* ===== verification/LoopNestProof.v ===== *)
(** * What a loop-nesting tree contains

    The tree of an outermost loop has every loop of its nest, each with its own
    blocks and the headers of its inner loops as children, and the iteration
    meets outer loops before inner ones ([bfs]). *)

From S2P Require Import Prelude IR LoopNest LiveValues Cfg.

#[local] Open Scope nat_scope.

(** ** Definitions *)

(** Whether a block of a loop at this depth becomes a child, and as a header. *)
Definition child_kind (li : LoopInfo) (depth : nat) (b : block) : option bool :=
  if loop_depth li b =? depth then Some false
  else if (loop_depth li b =? depth + 1) && isLoopHeader li b then Some true else None.

Definition expected (li : LoopInfo) (depth : nat) (bs : list block) : list (block * bool) :=
  omap (fun b => (b,.) <$> child_kind li depth b) bs.

Definition children_at (li : LoopInfo) (l : loop) : list (block * bool) :=
  expected li (getLoopDepth l) (getBlocks l).

Definition loop_children (li : LoopInfo) (l : loop) : list block := (children_at li l).*1.

Definition headers_in (li : LoopInfo) (ex : list (block * bool)) : list loop :=
  omap (fun c : block * bool => if c.2 then loop_of li c.1 else None) ex.

Definition inner_loops (li : LoopInfo) (l : loop) : list loop := headers_in li (children_at li l).

(** The order of the iteration. *)
Inductive bfs (li : LoopInfo) : list loop -> list loop -> Prop :=
  | bfs_nil : bfs li [] []
  | bfs_cons l ls seq : bfs li (ls ++ inner_loops li l) seq -> bfs li (l :: ls) (l :: seq).

(** ** Lemmas *)

Section Store.
Context (li : LoopInfo).

Fixpoint heads (k : nat) (ex : list (block * bool)) : list nat :=
  match ex with
  | [] => []
  | (_, true) :: ex => k :: heads (k + 1) ex
  | (_, false) :: ex => heads (k + 1) ex
  end.

Definition addChildren (cs : list nat) (n : node) : node :=
  Node (n_bb n) (n_parent n) (n_children n ++ cs) (n_isLoopHeader n).

Definition child_node (h : nat) (c : block * bool) : node := Node c.1 (Some h) [] c.2.

Lemma addChildren_nil h (nodes : list node) : alter (addChildren []) h nodes = nodes.
Proof.
  apply list_eq. intros i. destruct (decide (h = i)) as [->|Hn]; [|by rewrite list_lookup_alter_ne].
  rewrite list_lookup_alter_eq. destruct (nodes !! i) as [[]|]; [|done]. cbn. unfold addChildren. cbn.
  by rewrite app_nil_r.
Qed.

Lemma addChildren_cons h k cs (nodes : list node) : h < length nodes ->
  alter (addChildren cs) h (alter (addChild k) h nodes) = alter (addChildren (k :: cs)) h nodes.
Proof.
  intros Hh. apply list_eq. intros i. destruct (decide (h = i)) as [->|Hn]; [|by rewrite !list_lookup_alter_ne].
  rewrite !list_lookup_alter_eq. destruct (nodes !! i) as [[]|]; [|done]. cbn. unfold addChildren, addChild. cbn.
  by rewrite <- app_assoc.
Qed.

Lemma expected_cons depth b bs : expected li depth (b :: bs) =
  match child_kind li depth b with Some hd => (b, hd) :: expected li depth bs | None => expected li depth bs end.
Proof. unfold expected. cbn. by destruct (child_kind li depth b). Qed.

Lemma add_children_cons h depth b bs nodes work size : add_children li h depth (b :: bs) nodes work size =
  match child_kind li depth b with
  | Some hd => add_children li h depth bs (new_child h b hd nodes)
      (work ++ if hd then [length nodes] else []) (size + 1)
  | None => add_children li h depth bs nodes work size
  end.
Proof.
  unfold child_kind. cbn [add_children]. destruct (_ =? depth); [by rewrite app_nil_r|]. by destruct (_ && _).
Qed.

Lemma add_children_spec h depth bs nodes work size : h < length nodes ->
  let ex := expected li depth bs in
  add_children li h depth bs nodes work size =
    (alter (addChildren (seq (length nodes) (length ex))) h nodes ++ (child_node h <$> ex),
     work ++ heads (length nodes) ex, size + length ex).
Proof.
  cbn zeta. revert nodes work size. induction bs as [|b bs IH]; intros nodes work size Hh.
  { cbn. by rewrite addChildren_nil, !app_nil_r, Nat.add_0_r. }
  assert (Hnew : forall hd, h < length (new_child h b hd nodes))
    by (intros; unfold new_child; rewrite length_app, length_alter; lia).
  assert (Hlen : forall hd, length (new_child h b hd nodes) = S (length nodes))
    by (intros; unfold new_child; rewrite length_app, length_alter; cbn; lia).
  assert (Hstep : forall hd ex, alter (addChildren (seq (S (length nodes)) (length ex))) h (new_child h b hd nodes) ++
      (child_node h <$> ex) = alter (addChildren (seq (length nodes) (S (length ex)))) h nodes ++
      (child_node h <$> (b, hd) :: ex)).
  { intros hd ex. unfold new_child. rewrite alter_app_l by (by rewrite length_alter).
    rewrite addChildren_cons, <- app_assoc by done. done. }
  rewrite add_children_cons, expected_cons.
  destruct (child_kind li depth b) as [hd|]; [|by apply IH].
  rewrite IH, !Hlen, Hstep by done. cbn [length]. rewrite <- Nat.add_1_r.
  f_equal; [|lia]. f_equal. rewrite <- app_assoc. f_equal. destruct hd; cbn [heads app]; by rewrite Nat.add_1_r.
Qed.

Definition child (nodes : list node) (c : nat) (bh : block * bool) : Prop :=
  exists m, nodes !! c = Some m /\ n_bb m = bh.1 /\ n_isLoopHeader m = bh.2.

(** A header node of loop [l]. *)
Definition node_loop (nodes : list node) (i : nat) (l : loop) : Prop :=
  exists n, nodes !! i = Some n /\ n_isLoopHeader n = true /\ loop_of li (n_bb n) = Some l /\ getHeader l = n_bb n.

(** Header nodes outside of the work list have their children. *)
Record tree_inv (work : list nat) (nodes : list node) : Prop := {
  ti_nodup : NoDup work;
  ti_loop i n : nodes !! i = Some n -> n_isLoopHeader n = true -> exists l, node_loop nodes i l;
  ti_new i n : i ∈ work -> nodes !! i = Some n -> n_children n = [];
  ti_done i n l : nodes !! i = Some n -> node_loop nodes i l -> i ∉ work ->
    Forall2 (child nodes) (n_children n) (children_at li l)
}.

(** Nodes keep their block and their kind. *)
Definition extends (nodes nodes' : list node) : Prop :=
  forall i n, nodes !! i = Some n -> exists n', nodes' !! i = Some n' /\ n_bb n' = n_bb n /\
    n_isLoopHeader n' = n_isLoopHeader n.

Lemma extends_child nodes nodes' c bh : extends nodes nodes' -> child nodes c bh -> child nodes' c bh.
Proof. intros He (m & Hm & Eb & Eh). destruct (He c m Hm) as (m' & Hm' & ? & ?). exists m'. split; [done|]. by split; etrans. Qed.

Lemma extends_loop nodes nodes' i l : extends nodes nodes' -> node_loop nodes i l -> node_loop nodes' i l.
Proof.
  intros He (n & Hn & Hh & Hl & E). destruct (He i n Hn) as (n' & Hn' & Eb & Eh).
  exists n'. rewrite Eb, Eh. done.
Qed.

Lemma extends_trans nodes1 nodes2 nodes3 : extends nodes1 nodes2 -> extends nodes2 nodes3 -> extends nodes1 nodes3.
Proof.
  intros H1 H2 i n Hn. destruct (H1 i n Hn) as (n2 & Hn2 & E1 & E2). destruct (H2 i n2 Hn2) as (n3 & Hn3 & E3 & E4).
  exists n3. split; [done|]. by rewrite E3, E4.
Qed.

Lemma node_loop_unique nodes i l l' : node_loop nodes i l -> node_loop nodes i l' -> l = l'.
Proof. intros (n & Hn & _ & Hl & _) (n' & Hn' & _ & Hl' & _). congruence. Qed.

Lemma heads_range k ex i : i ∈ heads k ex -> k <= i < k + length ex.
Proof.
  revert k. induction ex as [|[b []] ex IH]; intros k; cbn.
  - by intros ?%elem_of_nil.
  - intros [->|Hi]%elem_of_cons; [lia|]. apply IH in Hi. lia.
  - intros Hi%IH. lia.
Qed.

Lemma heads_header k ex i b : ex !! i = Some (b, true) -> k + i ∈ heads k ex.
Proof.
  revert k i. induction ex as [|[b' hd] ex IH]; [done|]. intros k [|i] E; cbn in E.
  - injection E as -> ->. cbn. rewrite Nat.add_0_r. left.
  - replace (k + S i) with (k + 1 + i) by lia. cbn. destruct hd; [right|]; by apply IH.
Qed.

Lemma heads_nodup k ex : NoDup (heads k ex).
Proof.
  revert k. induction ex as [|[b []] ex IH]; intros k; cbn; [constructor|constructor; [|done]|done].
  intros Hi%heads_range. lia.
Qed.

Lemma expected_kind depth bs b hd : (b, hd) ∈ expected li depth bs <-> b ∈ bs /\ child_kind li depth b = Some hd.
Proof.
  unfold expected. rewrite list_elem_of_omap. split.
  - intros (b' & Hb & H). destruct (child_kind li depth b') eqn:E; [|done]. by injection H as -> ->.
  - intros [Hb E]. exists b. by rewrite E.
Qed.

Lemma header_kind depth b : child_kind li depth b = Some true ->
  exists l, loop_of li b = Some l /\ getHeader l = b /\ getLoopDepth l = depth + 1.
Proof.
  unfold child_kind, loop_depth, isLoopHeader. destruct (_ =? depth); [done|].
  destruct (loop_of li b) as [l|]; [|by rewrite andb_false_r].
  destruct (Nat.eqb_spec (getLoopDepth l) (depth + 1)); [|done]. cbn. case_bool_decide; [|done].
  intros _. by exists l.
Qed.

(** The new header nodes are those of the inner loops. *)
Lemma heads_loops h depth nodes ex :
  (forall b, (b, true) ∈ ex -> child_kind li depth b = Some true) ->
  Forall2 (node_loop (nodes ++ (child_node h <$> ex))) (heads (length nodes) ex) (headers_in li ex).
Proof.
  revert nodes. induction ex as [|[b hd] ex IH]; intros nodes Hk; [constructor|].
  specialize (IH (nodes ++ [child_node h (b, hd)])). rewrite length_app, <- app_assoc in IH. cbn [length] in IH.
  assert (Hk' : forall b, (b, true) ∈ ex -> child_kind li depth b = Some true) by (intros; apply Hk; by right).
  unfold headers_in in *. cbn [heads omap list_omap fst snd]. destruct hd; [|by apply IH].
  destruct (header_kind depth b) as (l & Hl & Hh & _); [apply Hk; left|]. rewrite Hl.
  constructor; [|by apply IH]. exists (child_node h (b, true)). split; [|done].
  by rewrite lookup_app_r, Nat.sub_diag by done.
Qed.

Lemma expected_children h cs nodes ex :
  cs = seq (length nodes) (length ex) -> Forall2 (child (nodes ++ (child_node h <$> ex))) cs ex.
Proof.
  intros ->. apply Forall2_same_length_lookup. rewrite length_seq. split; [done|].
  intros i c bh Hc Hbh. apply lookup_seq in Hc as [-> _]. exists (child_node h bh).
  rewrite lookup_app_r by lia. by rewrite Nat.add_sub_swap, Nat.sub_diag, Nat.add_0_l, list_lookup_fmap, Hbh by lia.
Qed.

(** *** One round of the work list *)

Section Round.
Context (h : nat) (l : loop) (work : list nat) (ls : list loop) (nodes : list node).
Context (Hinv : tree_inv (h :: work) nodes).
Context (Hwork : Forall2 (node_loop nodes) (h :: work) (l :: ls)).

Definition more : list (block * bool) := children_at li l.
Definition nodes_after : list node :=
  alter (addChildren (seq (length nodes) (length more))) h nodes ++ (child_node h <$> more).
Definition work_after : list nat := work ++ heads (length nodes) more.

Lemma round_header : exists n, nodes !! h = Some n /\ node_loop nodes h l.
Proof using Hwork.
  apply Forall2_cons_1 in Hwork as [Hh _]. destruct Hh as (n & Hn & ?). exists n. split; [done|by exists n].
Qed.

Lemma round_old i m : i <> h -> nodes !! i = Some m -> nodes_after !! i = Some m.
Proof. intros Hi Hm. apply lookup_app_l_Some. by rewrite list_lookup_alter_ne. Qed.

Lemma round_at_header n : nodes !! h = Some n ->
  nodes_after !! h = Some (addChildren (seq (length nodes) (length more)) n).
Proof. intros Hn. apply lookup_app_l_Some. by rewrite list_lookup_alter_eq, Hn. Qed.

Lemma round_extends : extends nodes nodes_after.
Proof.
  intros i m Hm. destruct (decide (i = h)) as [->|Hi]; [|exists m; by rewrite (round_old i m)].
  eexists. split; [by apply round_at_header|done].
Qed.

Lemma round_new i m : nodes_after !! i = Some m -> length nodes <= i ->
  exists bh, more !! (i - length nodes) = Some bh /\ m = child_node h bh.
Proof.
  intros Hm Hi. unfold nodes_after in Hm. rewrite lookup_app_r, list_lookup_fmap, length_alter in Hm by (by rewrite length_alter).
  destruct (more !! _) as [bh|]; [|done]. injection Hm as <-. by exists bh.
Qed.

Lemma round_kind b : (b, true) ∈ more -> child_kind li (getLoopDepth l) b = Some true.
Proof. by intros [_ ?]%expected_kind. Qed.

Lemma round_work i : i ∈ h :: work -> i < length nodes.
Proof using Hwork.
  intros [k Hi]%list_elem_of_lookup.
  destruct (Forall2_lookup_l _ _ _ _ _ Hwork Hi) as (? & _ & m & Hm & _). by apply lookup_lt_Some in Hm.
Qed.

Lemma round_loops : Forall2 (node_loop nodes_after) work_after (ls ++ inner_loops li l).
Proof using Hwork.
  apply Forall2_app.
  - eapply Forall2_impl; [by apply Forall2_cons_1 in Hwork as [_ ?]|].
    intros ? ?. apply extends_loop, round_extends.
  - pose proof (heads_loops h (getLoopDepth l) (alter (addChildren (seq (length nodes) (length more))) h nodes) more
      round_kind) as Hnew. by rewrite length_alter in Hnew.
Qed.

Lemma round_loop_nodes i n : nodes_after !! i = Some n -> n_isLoopHeader n = true ->
  exists l, node_loop nodes_after i l.
Proof using Hinv Hwork.
  intros Hn Hh. destruct (decide (i < length nodes)) as [Hi|Hi].
  - destruct (lookup_lt_is_Some_2 _ _ Hi) as [m Hm]. destruct (round_extends i m Hm) as (m' & Hm' & _ & Eh).
    rewrite Hn in Hm'. injection Hm' as <-. rewrite Eh in Hh.
    destruct (ti_loop _ _ Hinv i m Hm Hh) as [l' Hl']. exists l'. eapply extends_loop; [apply round_extends|done].
  - destruct (round_new i n Hn) as ([b hd] & Hb & ->); [lia|]. cbn in Hh. subst hd.
    apply list_elem_of_lookup_2 in Hb. destruct (header_kind _ _ (round_kind _ Hb)) as (l' & Hl' & Hb' & _).
    exists l'. by exists (child_node h (b, true)).
Qed.

Lemma round_done i n l' : nodes_after !! i = Some n -> node_loop nodes_after i l' -> i ∉ work_after ->
  Forall2 (child nodes_after) (n_children n) (children_at li l').
Proof using Hinv Hwork.
  intros Hn Hl' [Hw Hh]%not_elem_of_app. destruct round_header as (n0 & Hn0 & Hl0).
  destruct (decide (i = h)) as [->|Hi].
  - rewrite (round_at_header _ Hn0) in Hn. injection Hn as <-.
    rewrite (node_loop_unique nodes_after h l' l) by (done || by eapply extends_loop; [apply round_extends|]).
    cbn [n_children addChildren]. rewrite (ti_new _ _ Hinv h n0 ltac:(left) Hn0).
    apply expected_children. by rewrite length_alter.
  - destruct (decide (i < length nodes)) as [Hlt|Hlt].
    + destruct (lookup_lt_is_Some_2 _ _ Hlt) as [m Hm]. rewrite (round_old i m Hi Hm) in Hn. injection Hn as <-.
      eapply Forall2_impl; [|intros ? ?; apply extends_child, round_extends].
      eapply (ti_done _ _ Hinv); [done| |by intros [->|?]%elem_of_cons].
      destruct Hl' as (m' & Hm' & Hrest). rewrite (round_old i m Hi Hm) in Hm'. injection Hm' as <-. by exists m.
    + destruct (round_new i n Hn) as ([b hd] & Hb & ->); [lia|].
      destruct Hl' as (m' & Hm' & Hmh & _). rewrite Hn in Hm'. injection Hm' as <-. cbn in Hmh. subst hd.
      destruct Hh. apply (heads_header (length nodes)) in Hb. by replace (length nodes + (i - length nodes)) with i in Hb by lia.
Qed.

Lemma round_inv : tree_inv work_after nodes_after.
Proof using Hinv Hwork.
  pose proof (ti_nodup _ _ Hinv) as [Hhw Hnd]%NoDup_cons. constructor.
  - apply NoDup_app. split; [done|]. split; [|apply heads_nodup].
    intros i Hi Hr%heads_range. assert (i < length nodes) by (apply round_work; by right). lia.
  - apply round_loop_nodes.
  - intros i m [Hi|Hi]%elem_of_app Hm.
    + destruct (lookup_lt_is_Some_2 _ _ (round_work i ltac:(by right))) as [m0 Hm0].
      rewrite (round_old i m0) in Hm by (done || by intros ->). injection Hm as <-.
      eapply ti_new; [done| |done]. by right.
    + apply heads_range in Hi. destruct (round_new i m Hm) as (bh & _ & ->); [lia|done].
  - apply round_done.
Qed.
End Round.

(** *** Building and iterating *)

Lemma build_tree_spec ls seq : bfs li ls seq -> forall work t,
  tree_inv work (t_nodes t) -> Forall2 (node_loop (t_nodes t)) work ls ->
  exists t', (forall fuel, length seq <= fuel -> build_tree li fuel work t = Ret t') /\
    tree_inv [] (t_nodes t') /\ extends (t_nodes t) (t_nodes t') /\
    t_size t' = t_size t + sum_list_with (fun l => length (loop_children li l)) seq /\
    t_depth t' = foldl (fun d l => Nat.max (getLoopDepth l) d) (t_depth t) seq.
Proof.
  induction 1 as [|l ls seq Hb IH]; intros work t Hinv Hwork.
  { apply Forall2_nil_inv_r in Hwork as ->. exists t. cbn. rewrite Nat.add_0_r. split; [by intros []|].
    split; [done|]. split; [|done]. intros i n Hn. by exists n. }
  destruct work as [|h work]; [by apply Forall2_nil_cons_inv in Hwork|].
  pose proof Hwork as [(n & Hn & Hh & Hl & El) _]%Forall2_cons_1.
  assert (Ed : loop_depth li (n_bb n) = getLoopDepth l) by (unfold loop_depth; by rewrite Hl).
  destruct (IH (work_after l work (t_nodes t)) (Tree (t_size t + length (more l))
    (Nat.max (getLoopDepth l) (t_depth t)) (nodes_after h l (t_nodes t))))
    as (t' & Ht' & Hinv' & Hext & Es & Edep).
  - by apply (round_inv h l work ls).
  - by apply (round_loops h l work ls).
  - exists t'. split; [|split; [done|split]].
    + intros [|fuel] Hfuel; [cbn in Hfuel; lia|]. cbn [build_tree]. rewrite Hn. cbn [get mbind outcome_bind].
      rewrite Hl, Ed. cbn [get mbind outcome_bind].
      rewrite add_children_spec by (by eapply lookup_lt_Some). apply Ht'. cbn in Hfuel. lia.
    + eapply extends_trans; [|exact Hext]. apply round_extends.
    + rewrite Es, Edep. cbn [t_size t_depth sum_list_with foldl]. split; [|done].
      unfold loop_children. rewrite length_fmap. unfold more. lia.
Qed.

Lemma children_bbs t cs ex : Forall2 (child (t_nodes t)) cs ex -> cs ≫= bb_of t = ex.*1.
Proof.
  induction 1 as [|c bh cs ex (m & Hm & Eb & _) _ IH]; [done|]. cbn [mbind list_bind] in *.
  unfold bb_of at 1. rewrite Hm. cbn. by rewrite IH, Eb.
Qed.

Lemma header_children t cs l : tree_inv [] (t_nodes t) -> forall ex,
  (forall b, (b, true) ∈ ex -> child_kind li (getLoopDepth l) b = Some true) ->
  Forall2 (child (t_nodes t)) cs ex ->
  Forall2 (node_loop (t_nodes t)) (filter (is_header t) cs) (headers_in li ex).
Proof.
  intros Hinv ex Hk H. revert Hk. induction H as [|c [b hd] cs ex (m & Hm & Eb & Eh) _ IH]; intros Hk; [constructor|].
  cbn in Eb, Eh. unfold headers_in in *. 
  assert (Ehd : is_header t c = hd) by (unfold is_header; by rewrite Hm).
  assert (IH' := IH (fun b Hb => Hk b (list_elem_of_further _ _ _ Hb))).
  rewrite filter_cons, Ehd. cbn [omap list_omap fst snd].
  destruct hd; [|by rewrite decide_False by (by intros [])].
  destruct (header_kind (getLoopDepth l) b) as (l' & Hl' & E' & _); [apply Hk; left|].
  rewrite decide_True, Hl' by done. constructor; [|done]. exists m. by rewrite Eb.
Qed.

Lemma for_loops_spec {X} (body : block -> list block -> X -> X) t : tree_inv [] (t_nodes t) ->
  forall seq ls, bfs li ls seq -> forall hs fuel a, Forall2 (node_loop (t_nodes t)) hs ls -> length seq <= fuel ->
  for_loops t fuel body (match hs with [] => Iter None [] | h :: hs => addLoopHeaders t (Iter (Some h) hs) end) a =
    Ret (foldl (fun a l => body (getHeader l) (loop_children li l) a) a seq).
Proof.
  intros Hinv seq ls. induction 1 as [|l ls seq _ IH]; intros hs fuel a Hhs Hfuel.
  { apply Forall2_nil_inv_r in Hhs as ->. by destruct fuel. }
  destruct hs as [|h hs]; [by apply Forall2_nil_cons_inv in Hhs|].
  destruct fuel as [|fuel]; [cbn in Hfuel; lia|].
  apply Forall2_cons_1 in Hhs as [Hh Hhs]. pose proof Hh as (n & Hn & Hhd & Hl & El).
  pose proof (ti_done _ _ Hinv h n l Hn Hh ltac:(set_solver)) as Hc.
  cbn [for_loops addLoopHeaders it_cur]. rewrite Hn. cbn [get mbind outcome_bind foldl].
  rewrite (children_bbs t _ _ Hc), <- El. unfold iter_next. cbn [it_remaining].
  unfold children_of. rewrite Hn. fold (loop_children li l).
  assert (Hall : Forall2 (node_loop (t_nodes t)) (hs ++ filter (is_header t) (n_children n)) (ls ++ inner_loops li l)).
  { apply Forall2_app; [done|]. apply (header_children t _ l Hinv); [|done]. by intros b [_ ?]%expected_kind. }
  cbn in Hfuel. rewrite <- (IH _ fuel _ Hall) by lia. by destruct (hs ++ _).
Qed.

End Store.

(** *** Loops and their order *)

Section Loops.
Context (F : func) (A : analyses) {Laws : CfgLaws F A}.

Abbreviation li := (loop_info A).

Lemma inner_spec l l' : is_loop A l -> l' ∈ inner_loops li l <-> is_loop A l' /\ parent_of A l' l.
Proof using Laws.
  intros Hl. unfold inner_loops, headers_in. rewrite list_elem_of_omap. split.
  - intros ([b hd] & Hb & E). cbn in E. destruct hd; [|done].
    apply expected_kind in Hb as [Hb (l0 & Hl0 & Eh & Ed)%header_kind]. rewrite E in Hl0. injection Hl0 as <-.
    destruct (loop_of_loop F A b l' E) as [Hl' _]. split; [done|]. subst b.
    pose proof (depth_pos F A l Hl). destruct (loop_parent F A l' Hl') as [[_ ?]|[p Hp]]; [lia|].
    destruct (parent_spec F A l' p Hl' Hp) as (Hlp & Hd & _ & _ & Hmin).
    destruct (around_depth F A p l) as [->|]; [done|done| |done|lia].
    apply Hmin; [done|done|]. intros ->. lia.
  - intros [Hl' Hp]. destruct (parent_spec F A l' l Hl' Hp) as (_ & Hd & Hin & _).
    exists (getHeader l', true). cbn. split; [|by apply (loop_of_header F A)].
    apply expected_kind. split; [done|]. unfold child_kind, loop_depth, isLoopHeader.
    rewrite (loop_of_header F A l' Hl'), Hd, bool_decide_true by done.
    rewrite (proj2 (Nat.eqb_neq _ _)) by lia. by rewrite Nat.eqb_refl.
Qed.

Lemma loop_children_in l b : b ∈ loop_children li l -> b ∈ getBlocks l.
Proof. unfold loop_children. rewrite list_elem_of_fmap. by intros ([b' hd] & -> & [? _]%expected_kind). Qed.

Lemma own_child l b : loop_of li b = Some l -> b ∈ getBlocks l -> b ∈ loop_children li l.
Proof.
  intros Hl Hb. unfold loop_children. rewrite list_elem_of_fmap. exists (b, false). split; [done|].
  apply expected_kind. split; [done|]. unfold child_kind, loop_depth. by rewrite Hl, Nat.eqb_refl.
Qed.

Lemma header_child l l' : is_loop A l -> l' ∈ inner_loops li l -> getHeader l' ∈ loop_children li l.
Proof using Laws.
  intros Hl Hin. unfold inner_loops, headers_in in Hin. rewrite list_elem_of_omap in Hin.
  destruct Hin as ([b []] & Hb & E); [|done]. cbn in E.
  pose proof Hb as [_ (l0 & Hl0 & Eh & _)%header_kind]%expected_kind. rewrite E in Hl0. injection Hl0 as <-.
  unfold loop_children. rewrite list_elem_of_fmap. by exists (b, true).
Qed.

Lemma inside_inner l l' : is_loop A l -> is_loop A l' ->
  getHeader l' ∈ getBlocks l <-> l' = l \/ exists l'', l'' ∈ inner_loops li l /\ getHeader l' ∈ getBlocks l''.
Proof using Laws.
  intros Hl Hl'. split.
  - revert l' l Hl' Hl. apply (around_ind F A); [by left|].
    intros l' p l Hl' Hl Hp Hin Hpl [->|(l'' & Hl'' & Hpin)]; right.
    + exists l'. split; [by apply inner_spec|by apply (header_in F A)].
    + exists l''. split; [done|]. apply inner_spec in Hl'' as [Hll'' _]; [|done].
      destruct (parent_spec F A l' p Hl' Hp) as (Hlp & _). eapply (header_inside F A p l''); done.
  - intros [->|(l'' & Hl'' & Hin)]; [by apply (header_in F A)|].
    apply inner_spec in Hl'' as [Hll'' Hp]; [|done].
    destruct (parent_spec F A l'' l Hll'' Hp) as (_ & _ & Hh & _). eapply (header_inside F A l'' l); done.
Qed.

Lemma bfs_loops ls seq : bfs li ls seq -> Forall (is_loop A) ls -> Forall (is_loop A) seq.
Proof using Laws.
  induction 1 as [|l ls seq _ IH]; [done|]. intros [Hl Hls]%Forall_cons. constructor; [done|].
  apply IH, Forall_app. split; [done|]. apply Forall_forall. by intros l' [? _]%inner_spec.
Qed.

(** The iteration meets the loops of the nest. *)
Lemma bfs_meets ls seq l' : bfs li ls seq -> Forall (is_loop A) ls -> is_loop A l' ->
  l' ∈ seq <-> exists l, l ∈ ls /\ getHeader l' ∈ getBlocks l.
Proof using Laws.
  intros Hb Hls Hl'. induction Hb as [|l ls seq _ IH].
  { split; [by intros ?%elem_of_nil|]. by intros (l & ?%elem_of_nil & _). }
  apply Forall_cons in Hls as [Hl Hls]. rewrite elem_of_cons, IH; last first.
  { apply Forall_app. split; [done|]. apply Forall_forall. by intros l0 [? _]%inner_spec. }
  setoid_rewrite elem_of_app. setoid_rewrite elem_of_cons.
  rewrite (or_comm (l' = l)). split.
  - intros [(l0 & [Hl0|Hl0] & Hh)| ->]; [exists l0; by split; [right|]| |].
    + exists l. split; [by left|]. apply inside_inner; [done|done|]. right. by exists l0.
    + exists l. split; [by left|]. by apply (header_in F A).
  - intros (l0 & [->|Hl0] & Hh); [|left; exists l0; split; [by left|done]].
    apply inside_inner in Hh as [|(l0 & Hl0 & Hh)]; [by right|left; exists l0; split; [by right|done]|done|done].
Qed.

(** *** The iteration ends *)

Definition max_depth : nat := max_list (getLoopDepth <$> li_loops li).
Definition max_blocks : nat := max_list ((fun l => length (getBlocks l)) <$> li_loops li).
Definition weight (l : loop) : nat := (max_blocks + 1) ^ (max_depth - getLoopDepth l).

Lemma omap_length_le {X Y} (f : X -> option Y) xs : length (omap f xs) <= length xs.
Proof. induction xs as [|x xs IH]; [done|]. cbn. destruct (f x); cbn; lia. Qed.

Lemma inner_lighter l : is_loop A l -> sum_list_with weight (inner_loops li l) < weight l.
Proof using Laws.
  intros Hl. pose proof Hl as [i Hi].
  assert (Hn : length (inner_loops li l) <= max_blocks).
  { etrans; [apply omap_length_le|]. etrans; [apply omap_length_le|].
    apply max_list_elem_of_le, list_elem_of_fmap. exists l. split; [done|]. by eapply list_elem_of_lookup_2. }
  assert (Hw : forall l', l' ∈ inner_loops li l -> weight l' * (max_blocks + 1) = weight l).
  { intros l' Hin. apply inner_spec in Hin as [[j Hj] Hp]; [|done].
    destruct (parent_spec F A l' l ltac:(by exists j) Hp) as (_ & Hd & _).
    assert (getLoopDepth l' <= max_depth).
    { apply max_list_elem_of_le, list_elem_of_fmap. exists l'. split; [done|]. by eapply list_elem_of_lookup_2. }
    unfold weight. replace (max_depth - getLoopDepth l) with (S (max_depth - getLoopDepth l')) by lia.
    cbn [Nat.pow]. lia. }
  assert (Hpos : 0 < weight l) by (unfold weight; apply Nat.neq_0_lt_0, Nat.pow_nonzero; lia).
  assert (Hsum : sum_list_with weight (inner_loops li l) * (max_blocks + 1) = length (inner_loops li l) * weight l).
  { clear Hn. induction (inner_loops li l) as [|l' ls IH]; [done|]. cbn [sum_list_with length].
    rewrite Nat.mul_add_distr_r, IH, (Hw l') by (by left || by intros; apply Hw; right). lia. }
  nia.
Qed.

Lemma bfs_total ls : Forall (is_loop A) ls -> exists seq, bfs li ls seq.
Proof using Laws.
  remember (sum_list_with weight ls) as n eqn:E. revert ls E.
  induction n as [n IH] using lt_wf_ind. intros [|l ls] -> Hls; [exists []; constructor|].
  apply Forall_cons in Hls as [Hl Hls].
  destruct (IH (sum_list_with weight (ls ++ inner_loops li l))) with (ls := ls ++ inner_loops li l) as [seq Hseq].
  - rewrite sum_list_with_app. cbn. pose proof (inner_lighter l Hl). lia.
  - done.
  - apply Forall_app. split; [done|]. apply Forall_forall. by intros l0 [? _]%inner_spec.
  - exists (l :: seq). by constructor.
Qed.

(** *** The forest *)

Lemma outermost_spec l : is_loop A l -> exists lo, outer A lo /\ getHeader l ∈ getBlocks lo /\
  forall fuel, getLoopDepth l <= fuel -> outermost li fuel l = Ret lo.
Proof using Laws.
  intros Hl. remember (getLoopDepth l) as n eqn:E. revert l Hl E.
  induction n as [n IH] using lt_wf_ind. intros l Hl ->.
  destruct (decide (getLoopDepth l = 1)) as [E|Hn].
  { exists l. split; [done|]. split; [by apply (header_in F A)|]. intros [|fuel] _; cbn [outermost]; by rewrite E. }
  pose proof (depth_pos F A l Hl). destruct (loop_parent F A l Hl) as [[_ ?]|[p Hp]]; [done|].
  destruct (parent_spec F A l p Hl Hp) as (Hlp & Hd & Hin & _).
  destruct (IH (getLoopDepth p) ltac:(lia) p Hlp eq_refl) as (lo & Ho & Hpo & Hrun).
  exists lo. split; [done|]. pose proof Ho as [Hlo _].
  split; [by eapply (header_inside F A p lo)|]. intros fuel Hfuel. destruct fuel as [|fuel]; [lia|].
  destruct Hp as (i & Hi & Hpi). cbn [outermost].
  rewrite (proj2 (Nat.ltb_lt _ _)), Hi by lia. cbn [get mbind outcome_bind]. rewrite Hpi. cbn [get mbind outcome_bind].
  apply Hrun. lia.
Qed.

(** The headers and their children in the order of the iteration. *)
Definition iterates (t : LoopNestingTree) (hcs : list (block * list block)) : Prop :=
  forall X (body : block -> list block -> X -> X) fuel a, length hcs <= fuel ->
    for_loops t fuel body (loop_begin t) a = Ret (foldl (fun a hc => body hc.1 hc.2 a) a hcs).

Inductive nest_of (scc : list block) (hcs : list (block * list block)) : Prop :=
  | nest_block b : head scc = Some b -> loop_of li b = None -> hcs = [(b, [])] -> nest_of scc hcs
  | nest_loop b lo seq : head scc = Some b -> outer A lo -> b ∈ getBlocks lo -> bfs li [lo] seq ->
      hcs = (fun l => (getHeader l, loop_children li l)) <$> seq -> nest_of scc hcs.

Lemma tree_spec scc : scc <> [] -> exists fuel0 hcs t, nest_of scc hcs /\ iterates t hcs /\
  forall fuel, fuel0 <= fuel -> newLoopNestingTree li fuel scc = Ret t.
Proof using Laws.
  destruct scc as [|b scc]; [done|]. intros _. destruct (loop_of li b) as [l|] eqn:E.
  - destruct (loop_of_loop F A b l E) as [Hl Hb].
    destruct (outermost_spec l Hl) as (lo & Ho & Hin & Hrun). pose proof Ho as [Hlo _].
    destruct (bfs_total [lo]) as [seq Hseq]; [by constructor|].
    set (t0 := Tree 1 1 [Node (getHeader lo) None [] true]).
    assert (H0 : node_loop li (t_nodes t0) 0 lo).
    { eexists. split; [done|]. split; [done|]. split; [by apply (loop_of_header F A)|done]. }
    assert (Hinv0 : tree_inv li [0] (t_nodes t0)).
    { constructor; [by apply NoDup_singleton|intros [|i] n Hn; [intros _; by exists lo|done]| |].
      - by intros [|i] n _ [= <-].
      - intros [|i] n l' Hn _ Hi; [by destruct Hi; left|done]. }
    exists (getLoopDepth l + length seq), ((fun l => (getHeader l, loop_children li l)) <$> seq).
    destruct (build_tree_spec li [lo] seq Hseq [0] t0) as (t & Hrunt & Hinv & Hext & _); try done.
    { by constructor. }
    exists t. split; [|split].
    + eapply nest_loop; try done. by eapply (header_inside F A l lo).
    + intros X body fuel a Hfuel. rewrite length_fmap in Hfuel. etrans.
      * apply (for_loops_spec li body t Hinv seq [lo] Hseq [0]); [|done].
        constructor; [by eapply extends_loop|done].
      * by rewrite foldl_fmap.
    + intros fuel Hfuel. unfold newLoopNestingTree. cbn [head get mbind outcome_bind]. rewrite E.
      rewrite Hrun by lia. cbn [mbind outcome_bind]. apply Hrunt. lia.
  - exists 0, [(b, [])], (Tree 1 1 [Node b None [] true]). split; [by eapply nest_block|]. split.
    + intros X body [|fuel] a Hfuel; [cbn in Hfuel; lia|]. by destruct fuel.
    + intros fuel _. unfold newLoopNestingTree. cbn [head get mbind outcome_bind]. by rewrite E.
Qed.

(** Enough fuel builds the forest and iterates over each of its trees. *)
Lemma forest_spec SCCs : [] ∉ SCCs -> exists fuel0 LNF hcss,
  Forall2 nest_of SCCs hcss /\
  (forall fuel, fuel0 <= fuel -> constructLoopNestingForest li fuel SCCs = Ret LNF /\
    Forall2 (fun t hcs => iterates t hcs /\ length hcs <= fuel) LNF hcss).
Proof using Laws.
  induction SCCs as [|scc SCCs IH]; intros Hne.
  { exists 0, [], []. split; [constructor|]. intros. split; [done|constructor]. }
  apply not_elem_of_cons in Hne as [Hscc Hne].
  destruct (IH Hne) as (fuel1 & LNF & hcss & Hn & Hrun).
  destruct (tree_spec scc (not_eq_sym Hscc)) as (fuel0 & hcs & t & Hnest & Hit & Ht).
  exists (fuel0 + fuel1 + length hcs), (t :: LNF), (hcs :: hcss). split; [by constructor|].
  intros fuel Hfuel. destruct (Hrun fuel) as [Hc Hall]; [lia|]. cbn [constructLoopNestingForest].
  rewrite Ht by lia. cbn [mbind outcome_bind]. rewrite Hc. split; [done|].
  constructor; [|done]. split; [done|lia].
Qed.

End Loops.
