(* ===== verification/LiveSpec.v ===== *)
(** * Liveness

    The reference that [LiveValues] is compared with: a value is live where, on
    some path, it is used before it is defined.  A phi-node uses a value at the
    end of the block that the value comes from, and defines its result at the
    beginning of its own.  [StrictSSA] is what LLVM's verifier ensures of every
    function. *)

From S2P Require Import Prelude IR LoopNest LiveValues Cfg.

#[local] Open Scope nat_scope.

Section Liveness.
Context (o : options) (class : value -> value_class) (F : func).

Definition tracked (v : value) : Prop := includeVal o class v = true.

Definition defines (insts : list instr) (v : value) : Prop := v ∈ i_val <$> insts.

Definition used_first (insts : list instr) (v : value) : Prop :=
  exists pre i post, insts = pre ++ i :: post /\ v ∈ i_operands i /\ tracked v /\ ~ defines pre v.

Definition phi_def (b : block) (v : value) : Prop := tracked v /\ defines (phis (code F b)) v.

Definition phi_use (b c : block) (v : value) : Prop :=
  exists i incoming k, i ∈ phis (code F c) /\ i_op i = PHINode incoming /\
    incoming !! k = Some b /\ i_operands i !! k = Some v /\ tracked v.

(** Live at the beginning of a block, after its phi-nodes. *)
Inductive live_in (v : value) : block -> Prop :=
  | live_here b : used_first (after_phis (code F b)) v -> live_in v b
  | live_to_phi b c : edge F b c -> phi_use b c v -> ~ defines (after_phis (code F b)) v -> live_in v b
  | live_through b c : edge F b c -> live_in v c -> ~ phi_def c v ->
      ~ defines (after_phis (code F b)) v -> live_in v b.

Definition live_out (v : value) (b : block) : Prop :=
  exists c, edge F b c /\ (phi_use b c v \/ live_in v c /\ ~ phi_def c v).

(** Live after instruction [inst] of a block, which is not a phi-node, its own
    result apart. *)
Definition live_across (b : block) (inst v : value) : Prop :=
  v <> inst /\ exists pre i post, code F b = pre ++ i :: post /\ i_val i = inst /\
    isPHI i = false /\ (used_first post v \/ live_out v b /\ ~ defines post v).

(** What LLVM's verifier checks. *)
Class StrictSSA : Prop := {
  ssa_phis : phis_first F;
  ssa_once b : NoDup (i_val <$> code F b);
  ssa_one_block b c v : defines (code F b) v -> defines (code F c) v -> b = c;
  ssa_use b pre i post d v : reachable F b -> code F b = pre ++ i :: post -> isPHI i = false ->
    v ∈ i_operands i -> defines (code F d) v -> defines pre v \/ d <> b /\ dominates F d b;
  ssa_phi b c d v : reachable F b -> edge F b c -> phi_use b c v -> defines (code F d) v -> dominates F d b
}.

End Liveness.
