(* ===== verification/LiveProof.v ===== *)
(** * The analysis computes liveness

    The partial sets of dagDFS lack what reaches a block over back edges; the
    propagation adds it.  The sets only hold live values; they hold all of them
    when no block is its own successor with a phi-node that uses a value from
    it, and no value live into a loop's header is defined by a phi-node of
    another header of the same nest, which [phiDefined] would filter out. *)

From S2P Require Import Prelude IR LoopNest LiveValues Cfg LoopNestProof LiveSpec.

#[local] Open Scope nat_scope.

Section Proof.
Context (o : options) (class : value -> value_class) (F : func) (A : analyses).

Abbreviation tracked := (tracked o class).
Abbreviation used_first := (used_first o class).
Abbreviation phi_def := (phi_def o class F).
Abbreviation phi_use := (phi_use o class F).
Abbreviation live_in := (live_in o class F).
Abbreviation live_out := (live_out o class F).
Abbreviation phiUses := (phiUses o class F).
Abbreviation phiDefs := (phiDefs o class F).

(** ** Definitions *)

(** The set of a block. *)
Definition at_block (m : LiveVals) (b : block) : gset value := default ∅ (m !! b).

(** No block passes a value to a phi-node of itself. *)
Definition no_self_phi : Prop := forall b v, reachable F b -> ~ phi_use b b v.

(** No value that is live into a loop's header is the result of a phi-node of
    another loop's header in the same component. *)
Definition no_stale_phi : Prop := forall l l' v, is_loop A l -> is_loop A l' ->
  rtc (edge F) (getHeader l) (getHeader l') -> rtc (edge F) (getHeader l') (getHeader l) ->
  live_in v (getHeader l) -> ~ phi_def (getHeader l) v -> ~ phi_def (getHeader l') v.

(** ** Lemmas *)

(** *** Sets *)

Lemma insert_counted_spec v w st : v ∈ (insert_counted w st).1 <-> v ∈ st.1 \/ v = w.
Proof. unfold insert_counted. case_decide; cbn; rewrite ?elem_of_union, ?elem_of_singleton; naive_solver. Qed.

Lemma incoming_uses_spec B blocks vals st v : v ∈ (incoming_uses o class B blocks vals st).1 <->
  v ∈ st.1 \/ exists k, blocks !! k = Some B /\ vals !! k = Some v /\ tracked v.
Proof.
  revert vals st. induction blocks as [|b blocks IH]; intros [|w vals] st; cbn [incoming_uses].
  1-3: split; [by left|intros [?|(k & ? & ? & _)]; [done|by destruct k]].
  rewrite IH. split.
  - intros [Hv|(k & Hk)]; [|right; by exists (S k)].
    destruct (bool_decide (b = B)) eqn:Eb; cbn in Hv; [|by left].
    destruct (includeVal o class w) eqn:Ei; [|by left]. apply insert_counted_spec in Hv as [| ->]; [by left|right].
    exists 0. apply bool_decide_eq_true in Eb as ->. done.
  - intros [Hv|([|k] & Hb & Hw & Ht)]; [left| |right; by exists k].
    + case_match; [|done]. apply insert_counted_spec. by left.
    + injection Hb as ->. injection Hw as ->. left. rewrite bool_decide_true, Ht by done. apply insert_counted_spec. by right.
Qed.

Lemma phiUses_spec B S uses v : v ∈ (phiUses B S uses).1 <-> v ∈ uses \/ phi_use B S v.
Proof.
  unfold phiUses, LiveSpec.phi_use. change uses with (uses, 0).1 at 2. generalize (uses, 0) as st.
  induction (code F S) as [|i insts IH]; intros st; cbn [phiUses_from phis].
  { split; [by left|]. intros [|(i & ? & ? & ?%elem_of_nil & _)]; done. }
  unfold isPHI. destruct (i_op i) as [incoming| | | | |] eqn:E.
  2-6: split; [by left|]; intros [|(? & ? & ? & ?%elem_of_nil & _)]; done.
  rewrite IH, incoming_uses_spec. split.
  - intros [[Hv|(k & ? & ? & ?)]|(i' & ? & ? & ? & ?)]; [by left| |]; right.
    + exists i, incoming, k. split; [left|done].
    + exists i'. do 2 eexists. split; [by right|done].
  - intros [Hv|(i' & inc & k & [->|Hi]%elem_of_cons & Ei & Hk)]; [by left; left| |].
    + rewrite E in Ei. injection Ei as <-. left. right. by exists k.
    + right. by exists i', inc, k.
Qed.

Lemma phiDefs_spec B uses v : v ∈ (phiDefs B uses).1 <-> v ∈ uses \/ phi_def B v.
Proof.
  unfold phiDefs, LiveSpec.phi_def, defines. change uses with (uses, 0).1 at 2. generalize (uses, 0) as st.
  induction (code F B) as [|i insts IH]; intros st; cbn [phiDefs_from phis].
  { split; [by left|]. intros [|[_ ?%elem_of_nil]]; done. }
  unfold isPHI. destruct (i_op i) as [incoming| | | | |] eqn:E.
  2-6: split; [by left|]; intros [|[_ ?%elem_of_nil]]; done.
  rewrite IH, fmap_cons, elem_of_cons. destruct (includeVal o class (i_val i)) eqn:Ei.
  - rewrite insert_counted_spec. unfold LiveSpec.tracked. naive_solver.
  - unfold LiveSpec.tracked. naive_solver congruence.
Qed.

Lemma use_operands_spec ops live v :
  v ∈ use_operands o class ops live <-> v ∈ live \/ v ∈ ops /\ tracked v.
Proof.
  revert live. induction ops as [|w ops IH]; intros live; cbn [use_operands foldl]; [set_solver|].
  unfold use_operands in IH. rewrite IH, elem_of_cons. unfold LiveSpec.tracked.
  destruct (includeVal o class w) eqn:E; [rewrite elem_of_union, elem_of_singleton|]; naive_solver congruence.
Qed.

Lemma before_instr_spec i live v : v ∈ before_instr o class i live <->
  v ∈ i_operands i /\ tracked v \/ v ∈ live /\ v <> i_val i.
Proof. unfold before_instr. rewrite use_operands_spec. set_solver. Qed.

Lemma used_first_snoc insts i v : used_first (insts ++ [i]) v <->
  used_first insts v \/ v ∈ i_operands i /\ tracked v /\ ~ defines insts v.
Proof.
  split.
  - intros (pre & j & post & E & Hv & Ht & Hd). destruct (decide (post = [])) as [->|Hn].
    + apply app_inj_tail in E as [-> ->]. by right.
    + destruct (exists_last Hn) as (post' & k & ->). rewrite app_comm_cons, app_assoc in E.
      apply app_inj_tail in E as [-> _]. left. by exists pre, j, post'.
  - intros [(pre & j & post & -> & Hv)|(Hv & Ht & Hd)].
    + exists pre, j, (post ++ [i]). by rewrite <- app_assoc.
    + by exists insts, i, [].
Qed.

Lemma defines_snoc insts i v : defines (insts ++ [i]) v <-> defines insts v \/ v = i_val i.
Proof. unfold defines. rewrite fmap_app, elem_of_app. cbn. rewrite list_elem_of_singleton. done. Qed.

Lemma defines_dec insts v : Decision (defines insts v).
Proof. unfold defines. apply _. Defined.

(** Backwards over instructions that are not phi-nodes. *)
Lemma backwards_spec insts rest live v : Forall (fun i => isPHI i = false) insts ->
  (forall live, backwards o class rest live = live) ->
  v ∈ backwards o class (reverse insts ++ rest) live <->
  used_first insts v \/ v ∈ live /\ ~ defines insts v.
Proof.
  intros Hp Hrest. revert live. induction insts as [|i insts IH] using rev_ind; intros live.
  { cbn. rewrite Hrest. split; [right; split; [done|by intros ?%elem_of_nil]|].
    intros [(pre & ? & ? & E & _)|[? _]]; [by destruct pre|done]. }
  apply Forall_app in Hp as [Hp Hi]. apply Forall_cons in Hi as [Hi _].
  rewrite reverse_snoc. cbn [app backwards]. rewrite Hi.
  rewrite IH, before_instr_spec, used_first_snoc, defines_snoc by done.
  pose proof (defines_dec insts v) as [Hd|Hd]; naive_solver.
Qed.

Lemma block_backwards b live v : phis_first F ->
  v ∈ backwards o class (reverse (code F b)) live <->
  used_first (after_phis (code F b)) v \/ v ∈ live /\ ~ defines (after_phis (code F b)) v.
Proof.
  intros Hp. rewrite (phis_split (code F b)), reverse_app at 1. apply backwards_spec; [apply Hp|].
  intros l. assert (Hall : Forall (fun i => isPHI i = true) (phis (code F b))).
  { induction (code F b) as [|i insts IH]; [done|]. cbn. destruct (isPHI i) eqn:E; by constructor. }
  destruct (reverse (phis (code F b))) as [|i rev] eqn:E; [done|]. cbn.
  rewrite Forall_forall in Hall. rewrite (Hall i); [done|]. apply elem_of_reverse.
  rewrite E. left.
Qed.

(** *** Partial liveness *)

Lemma at_block_insert m b c s : at_block (<[b := s]> m) c = if decide (b = c) then s else at_block m c.
Proof. unfold at_block. by case_decide; subst; rewrite ?lookup_insert_eq, ?lookup_insert_ne. Qed.

(** What block [b] gets from its successors that were visited before. *)
Definition from_successors (li : LiveVals) (b : block) (v : value) : Prop :=
  exists c, edge F b c /\ c <> b /\
    (phi_use b c v \/ (b, c) ∉ backedges A /\ v ∈ at_block li c /\ ~ phi_def c v).

Lemma add_successor_spec b ss li live : 
  (forall c, c ∈ ss -> (b, c) ∉ backedges A -> c <> b -> is_Some (li !! c)) ->
  (forall c v, v ∈ at_block li c -> tracked v) ->
  exists live', foldl (add_successor o class F (backedges A) b) (live, li) ss = (live', li) /\
    forall v, v ∈ live' <-> v ∈ live \/ exists c, c ∈ ss /\ c <> b /\
      (phi_use b c v \/ (b, c) ∉ backedges A /\ v ∈ at_block li c /\ ~ phi_def c v).
Proof.
  intros Hss Ht. revert live. induction ss as [|c ss IH]; intros live.
  { exists live. split; [done|]. intros v. split; [by left|]. intros [|(c & ?%elem_of_nil & _)]; done. }
  assert (Hstep : exists live1, add_successor o class F (backedges A) b (live, li) c = (live1, li) /\
    forall v, v ∈ live1 <-> v ∈ live \/ c <> b /\
      (phi_use b c v \/ (b, c) ∉ backedges A /\ v ∈ at_block li c /\ ~ phi_def c v)).
  { cbn [add_successor]. destruct (Nat.eqb_spec c b) as [->|Hn]; [exists live; naive_solver|].
    case_decide as Hk; [eexists; split; [done|]; intros v; rewrite phiUses_spec; naive_solver|].
    destruct (Hss c) as [s Hs]; [left|done|done|]. unfold map_at. rewrite Hs. eexists. split; [done|].
    intros v. rewrite elem_of_union, phiUses_spec, elem_of_filter, phiDefs_spec.
    assert (E : at_block li c = s) by (unfold at_block; by rewrite Hs).
    pose proof (Ht c v) as Htv. rewrite E in *. unfold LiveSpec.tracked in Htv. set_solver. }
  destruct Hstep as (live1 & E1 & H1). cbn [foldl]. rewrite E1.
  destruct (IH (fun c Hc => Hss c (list_elem_of_further _ _ _ Hc)) live1) as (live' & E' & H').
  exists live'. split; [done|]. intros v. rewrite H', H1. setoid_rewrite elem_of_cons. naive_solver.
Qed.

(** After the blocks in [done]. *)
Record partial (done : list block) (li lo : LiveVals) : Prop := {
  pa_in b : is_Some (li !! b) <-> b ∈ done;
  pa_out b : is_Some (lo !! b) <-> b ∈ done;
  pa_live_out b v : b ∈ done -> v ∈ at_block lo b <-> from_successors li b v;
  pa_live_in b v : b ∈ done -> v ∈ at_block li b <->
    used_first (after_phis (code F b)) v \/
    v ∈ at_block lo b /\ ~ defines (after_phis (code F b)) v \/ phi_def b v;
  pa_tracked b v : v ∈ at_block li b -> tracked v
}.

Lemma from_tracked li b v : (forall c v, v ∈ at_block li c -> tracked v) -> from_successors li b v -> tracked v.
Proof. intros Ht (c & _ & _ & [(i & inc & k & _ & _ & _ & _ & ?)|(_ & ? & _)]); [done|by eapply Ht]. Qed.

Lemma used_tracked insts v : used_first insts v -> tracked v.
Proof. by intros (? & ? & ? & _ & _ & ? & _). Qed.

Context {Laws : CfgLaws F A}.

Lemma at_block_None m b : m !! b = None -> at_block m b = ∅.
Proof. intros E. unfold at_block. by rewrite E. Qed.

Lemma prefix_closed done rest b c : postorder A = done ++ rest -> b ∈ done -> edge F b c -> (b, c) ∉ backedges A ->
  c ∈ done.
Proof using Laws.
  intros Hpo [i Hi]%list_elem_of_lookup He Hk. pose proof (lookup_lt_Some _ _ _ Hi) as Hlt.
  destruct (po_order F A i b c) as [|(j & Hj & Hc)]; [by rewrite Hpo, lookup_app_l|done|done|].
  rewrite Hpo, lookup_app_l in Hc by lia. by eapply list_elem_of_lookup_2.
Qed.

Lemma from_insert done rest b s li c v : postorder A = done ++ rest -> b ∉ done -> c ∈ done ->
  from_successors (<[b := s]> li) c v <-> from_successors li c v.
Proof using Laws.
  intros Hpo Hb Hc. unfold from_successors.
  assert (H : forall d, edge F c d -> (c, d) ∉ backedges A -> at_block (<[b := s]> li) d = at_block li d).
  { intros d He Hk. rewrite at_block_insert, decide_False; [done|]. intros ->. apply Hb. by eapply prefix_closed. }
  split; intros (d & He & Hn & Hv); exists d; (split; [done|]); (split; [done|]);
    (destruct Hv as [Hu|(Hk & Hv & Hd)]; [by left|right]); (split; [done|]); (split; [|done]);
    [rewrite H in Hv|rewrite H]; done.
Qed.

Lemma partial_step done b rest st : phis_first F -> postorder A = done ++ b :: rest -> partial done st.1 st.2 ->
  let st' := dagDFS_block o class F (backedges A) st b in partial (done ++ [b]) st'.1 st'.2.
Proof using Laws.
  intros Hp Hpo Hpa. destruct st as [li lo]. cbn [fst snd] in *.
  assert (Hb : b ∉ done).
  { intros Hb. pose proof (po_nodup F A) as Hnd. rewrite Hpo in Hnd. apply NoDup_app in Hnd as (_ & Hnd & _).
    apply (Hnd b Hb). left. }
  assert (Hpo' : postorder A = (done ++ [b]) ++ rest) by (by rewrite <- app_assoc).
  destruct (add_successor_spec b (succs F b) li ∅) as (live & E & Hlive).
  { intros c Hc Hk Hn. apply (pa_in _ _ _ Hpa). apply (prefix_closed _ _ b) with (c := c) in Hpo'; try done.
    - apply elem_of_app in Hpo' as [|H%list_elem_of_singleton]; done.
    - apply elem_of_app. right. by apply list_elem_of_singleton. }
  { apply (pa_tracked _ _ _ Hpa). }
  assert (Hfrom : forall v, v ∈ live <-> from_successors li b v).
  { intros v. rewrite Hlive. unfold from_successors, edge. split; [intros [?%elem_of_empty|]|right]; done. }
  cbn [dagDFS_block]. rewrite E.
  assert (Hli : li !! b = None) by (apply eq_None_not_Some; by rewrite (pa_in _ _ _ Hpa)).
  assert (Hlo : lo !! b = None) by (apply eq_None_not_Some; by rewrite (pa_out _ _ _ Hpa)).
  unfold map_insert. rewrite Hli, Hlo. cbn [fst snd].
  set (s := (LiveValues.phiDefs o class F b _).1).
  assert (Hs : forall v, v ∈ s <-> used_first (after_phis (code F b)) v \/
    v ∈ live /\ ~ defines (after_phis (code F b)) v \/ phi_def b v).
  { intros v. unfold s. rewrite phiDefs_spec, block_backwards by done. tauto. }
  constructor.
  - intros c. rewrite elem_of_app, list_elem_of_singleton, <- (pa_in _ _ _ Hpa), lookup_insert_is_Some'.
    split; (intros [?|?]; [by right|by left]).
  - intros c. rewrite elem_of_app, list_elem_of_singleton, <- (pa_out _ _ _ Hpa), lookup_insert_is_Some'.
    split; (intros [?|?]; [by right|by left]).
  - intros c v [Hc| ->%list_elem_of_singleton]%elem_of_app; rewrite at_block_insert.
    + rewrite decide_False, (from_insert done (b :: rest)), (pa_live_out _ _ _ Hpa) by (done || by intros ->). done.
    + rewrite decide_True, Hfrom by done. unfold from_successors.
      split; intros (d & He & Hn & Hv); exists d; (split; [done|]); (split; [done|]);
        rewrite at_block_insert, decide_False in * by done; done.
  - intros c v [Hc| ->%list_elem_of_singleton]%elem_of_app; rewrite !at_block_insert.
    + rewrite !decide_False by (by intros ->). by apply (pa_live_in _ _ _ Hpa).
    + rewrite !decide_True by done. apply Hs.
  - intros c v. rewrite at_block_insert. case_decide; [|apply (pa_tracked _ _ _ Hpa)].
    intros [?|[[? _]|[? _]]]%Hs; [by eapply used_tracked| |done].
    eapply from_tracked; [apply (pa_tracked _ _ _ Hpa)|by apply Hfrom].
Qed.

Lemma partial_all : phis_first F -> let st := dagDFS o class F A (∅, ∅) in partial (postorder A) st.1 st.2.
Proof using Laws.
  intros Hp. unfold dagDFS.
  enough (H : forall rest done st, postorder A = done ++ rest -> partial done st.1 st.2 ->
    let st := foldl (dagDFS_block o class F (backedges A)) st rest in partial (done ++ rest) st.1 st.2).
  { apply (H _ []); [done|]. constructor; cbn.
    1-2: intros b; rewrite lookup_empty; split; [by intros []|by intros ?%elem_of_nil].
    1-2: by intros b v ?%elem_of_nil.
    intros b v. unfold at_block. rewrite lookup_empty. by intros ?%elem_of_empty. }
  induction rest as [|b rest IH]; intros done st Hpo Hpa; [by rewrite app_nil_r|].
  cbn [foldl]. change (b :: rest) with ([b] ++ rest). rewrite app_assoc. apply IH; [by rewrite <- app_assoc|].
  by eapply partial_step.
Qed.

(** *** Definitions dominate *)

Context {SSA : StrictSSA o class F}.

Lemma defines_split b v : defines (code F b) v <->
  defines (phis (code F b)) v \/ defines (after_phis (code F b)) v.
Proof. unfold defines. rewrite (phis_split (code F b)) at 1. by rewrite fmap_app, elem_of_app. Qed.

Lemma live_tracked v b : live_in v b -> tracked v.
Proof. induction 1 as [b Hu|b c _ (i & inc & k & _ & _ & _ & _ & ?) _|]; [by eapply used_tracked|done..]. Qed.

(** The definition of a live value is before. *)
Lemma live_dominated v b d : live_in v b -> reachable F b -> defines (code F d) v ->
  ~ defines (phis (code F b)) v -> d <> b /\ dominates F d b.
Proof using SSA.
  intros Hl. revert d. induction Hl as [b Hu|b c He Hu Hn|b c He Hl IH Hp Hn]; intros d Hr Hd Hnp.
  - destruct Hu as (pre & i & post & E & Hv & _ & Hpre).
    destruct (ssa_use o class F b (phis (code F b) ++ pre) i post d v) as [Hdef|]; try done.
    + by rewrite <- app_assoc, <- E, <- phis_split.
    + pose proof (ssa_phis o class F b) as Hall. rewrite E in Hall. by apply Forall_app in Hall as [_ [? _]%Forall_cons].
    + unfold defines in Hdef. rewrite fmap_app, elem_of_app in Hdef. tauto.
  - split; [intros ->; apply defines_split in Hd; tauto|]. by eapply (ssa_phi o class F).
  - destruct (IH d) as [Hdc Hdom]; [by eapply reachable_edge|done| |].
    { intros Hc. apply Hp. split; [by eapply live_tracked|done]. }
    split; [intros ->; apply defines_split in Hd; tauto|]. by eapply dominates_pred.
Qed.

(** A value live into the header of a loop is not defined in the loop. *)
Lemma not_defined_inside v h b : natural F A h b -> live_in v h -> ~ phi_def h v -> ~ defines (code F b) v.
Proof using SSA Laws.
  intros Hb Hl Hp Hd. pose proof (natural_header F A _ _ Hb) as Hh.
  destruct (live_dominated v h b Hl) as [Hn Hdom]; [by eapply natural_reachable|done| |].
  { intros Hc. apply Hp. split; [by eapply live_tracked|done]. }
  apply (dominates_antisym F b h); [done|done|by apply (natural_dominated F A)|by eapply natural_reachable].
Qed.

Lemma no_phi_def v b : ~ defines (code F b) v -> ~ phi_def b v.
Proof. intros Hd [_ Hp]. apply Hd, defines_split. by left. Qed.

Lemma no_defines_after v b : ~ defines (code F b) v -> ~ defines (after_phis (code F b)) v.
Proof. intros Hd Hp. apply Hd, defines_split. by right. Qed.

(** ... and is live throughout the loop. *)
Lemma live_inside v h b : natural F A h b -> live_in v h -> ~ phi_def h v -> live_in v b /\ live_out v b.
Proof using SSA Laws.
  intros Hb Hl Hp. pose proof (fun c Hc => not_defined_inside v h c Hc Hl Hp) as Hnd.
  induction Hb as [b Hb Hk|b c Hc IH Hn He Hb].
  - destruct (reducible F A b h Hk Hb) as [He _].
    assert (Hd : ~ defines (code F b) v) by (apply Hnd; by apply natural_latch).
    split; [by eapply live_through, no_defines_after|]. exists h. split; [done|by right].
  - destruct IH as [Hlc _]. pose proof (no_phi_def _ _ (Hnd c Hc)) as Hpc.
    assert (Hd : ~ defines (code F b) v) by (apply Hnd; by eapply natural_pred).
    split; [by eapply live_through, no_defines_after|]. exists c. split; [done|by right].
Qed.

(** *** The sets hold live values only *)

Record sound (li lo : LiveVals) : Prop := {
  so_in b v : reachable F b -> v ∈ at_block li b -> live_in v b \/ phi_def b v;
  so_out b v : reachable F b -> v ∈ at_block lo b -> live_out v b;
  so_keys b : reachable F b -> is_Some (li !! b) /\ is_Some (lo !! b)
}.

Lemma live_out_in v b : live_out v b -> ~ defines (after_phis (code F b)) v -> live_in v b.
Proof. intros (c & He & [Hu|[Hl Hp]]) Hd; [by eapply live_to_phi|by eapply live_through]. Qed.

Lemma partial_sound li lo : partial (postorder A) li lo -> sound li lo.
Proof using Laws.
  intros Hpa.
  assert (H : forall i b, postorder A !! i = Some b -> forall v,
    (v ∈ at_block lo b -> live_out v b) /\ (v ∈ at_block li b -> live_in v b \/ phi_def b v)).
  { induction i as [i IH] using lt_wf_ind. intros b Hi v.
    assert (Hb : b ∈ postorder A) by (by eapply list_elem_of_lookup_2).
    assert (Hout : v ∈ at_block lo b -> live_out v b).
    { intros (c & He & _ & Hv)%(pa_live_out _ _ _ Hpa); [|done]. exists c. split; [done|].
      destruct Hv as [Hu|(Hk & Hv & Hd)]; [by left|right]. split; [|done].
      destruct (po_order F A i b c Hi He) as [|(j & Hj & Hc)]; [done|].
      by destruct (proj2 (IH j Hj c Hc v) Hv). }
    split; [done|]. intros [Hu|[[Ho Hd]|Hp]]%(pa_live_in _ _ _ Hpa); [| | |done].
    - left. by apply live_here.
    - left. by apply live_out_in; [apply Hout|].
    - by right. }
  constructor; intros b; [| |].
  1-2: intros v Hb; apply (po_reachable F A), list_elem_of_lookup in Hb as [i Hi]; by apply (H i).
  intros Hb%(po_reachable F A). split; [by apply (pa_in _ _ _ Hpa)|by apply (pa_out _ _ _ Hpa)].
Qed.

(** *** Propagation *)

Lemma add_all_fold s m cs c v : v ∈ at_block (foldl (add_all s) m cs) c <-> v ∈ at_block m c \/ c ∈ cs /\ v ∈ s.
Proof.
  revert m. induction cs as [|d cs IH]; intros m; cbn [foldl]; [set_solver|].
  assert (E : v ∈ at_block (add_all s m d) c <-> v ∈ at_block m c \/ c = d /\ v ∈ s).
  { unfold add_all. case_decide as Es; [subst; set_solver|]. rewrite at_block_insert.
    case_decide as Ed; [|naive_solver]. subst. fold (at_block m c). set_solver. }
  rewrite IH, E, elem_of_cons. tauto.
Qed.

Lemma add_all_keys s m cs c : is_Some (m !! c) -> is_Some (foldl (add_all s) m cs !! c).
Proof.
  revert m. induction cs as [|d cs IH]; intros m Hc; [done|]. cbn [foldl]. apply IH.
  unfold add_all. case_decide; [done|]. rewrite lookup_insert_is_Some'. by right.
Qed.

Lemma map_at_spec b m : (map_at b m).1 = at_block m b /\ (forall c, at_block (map_at b m).2 c = at_block m c) /\
  (forall c, is_Some (m !! c) -> is_Some ((map_at b m).2 !! c)).
Proof.
  unfold map_at. destruct (m !! b) as [s|] eqn:E.
  - split; [|done]. unfold at_block. by rewrite E.
  - split; [by rewrite at_block_None|]. split; intros c; cbn [snd].
    + rewrite at_block_insert. case_decide; [subst; by rewrite at_block_None|done].
    + rewrite lookup_insert_is_Some'. by right.
Qed.

(** What the children of header [h] get. *)
Definition live_loop (pd : gset value) (li : LiveVals) (h : block) (v : value) : Prop :=
  v ∈ at_block li h /\ v ∉ pd /\ ~ phi_def h v /\ tracked v.

Lemma propagate_header_spec h cs pd li lo :
  exists pd' li' lo', propagate_header o class F h cs (pd, (li, lo)) = (pd', (li', lo')) /\
    (forall v, v ∈ pd' <-> v ∈ pd \/ phi_def h v) /\
    (forall c v, v ∈ at_block li' c <-> v ∈ at_block li c \/ c ∈ cs /\ live_loop pd li h v) /\
    (forall c v, v ∈ at_block lo' c <-> v ∈ at_block lo c \/ c ∈ cs /\ live_loop pd li h v) /\
    (forall c, is_Some (li !! c) -> is_Some (li' !! c)) /\ (forall c, is_Some (lo !! c) -> is_Some (lo' !! c)).
Proof.
  unfold propagate_header. destruct (map_at_spec h li) as (E1 & E2 & E3).
  destruct (map_at h li) as [s li1] eqn:E. cbn [fst snd] in *. do 3 eexists. split; [done|].
  assert (Hs : forall v, v ∈ filter (fun v => v ∉ (phiDefs h pd).1 /\ includeVal o class v = true) s <-> live_loop pd li h v).
  { intros v. rewrite elem_of_filter, phiDefs_spec, E1. unfold live_loop. fold (tracked v). tauto. }
  split; [intros v; apply phiDefs_spec|]. split; [|split; [|split]].
  - intros c v. by rewrite add_all_fold, E2, Hs.
  - intros c v. by rewrite add_all_fold, Hs.
  - intros c Hc. by apply add_all_keys, E3.
  - intros c Hc. by apply add_all_keys.
Qed.

Lemma propagate_sound h cs st : sound st.2.1 st.2.2 -> (forall c, c ∈ cs -> natural F A h c) ->
  let st' := propagate_header o class F h cs st in sound st'.2.1 st'.2.2.
Proof using SSA Laws.
  destruct st as [pd [li lo]]. intros Hs Hcs.
  destruct (propagate_header_spec h cs pd li lo) as (pd' & li' & lo' & E & _ & Hli & Hlo & Kli & Klo).
  cbn zeta. rewrite E. cbn [fst snd] in *.
  assert (Hnew : forall c v, c ∈ cs -> live_loop pd li h v -> live_in v c /\ live_out v c).
  { intros c v Hc (Hv & _ & Hp & _). pose proof (Hcs c Hc) as Hn.
    destruct (so_in _ _ Hs h v) as [Hl|]; [eapply natural_reachable, (natural_header F A); done|done| |done].
    by eapply live_inside. }
  constructor.
  - intros b v Hb [Hv|[Hc Hv]]%Hli; [by apply (so_in _ _ Hs)|]. left. by eapply Hnew.
  - intros b v Hb [Hv|[Hc Hv]]%Hlo; [by apply (so_out _ _ Hs)|]. by eapply Hnew.
  - intros b Hb. destruct (so_keys _ _ Hs b Hb). split; [by apply Kli|by apply Klo].
Qed.

(** *** What the propagation adds *)

Abbreviation li_ := (loop_info A).

Section Complete.
Context (li1 lo1 : LiveVals) (Hpa : partial (postorder A) li1 lo1).

(** Live into the loop by the partial sets; also by those of a loop around it. *)
Definition enters (l : loop) (v : value) : Prop := v ∈ at_block li1 (getHeader l) /\ ~ phi_def (getHeader l) v.
Definition enters_around (l : loop) (v : value) : Prop :=
  exists l', is_loop A l' /\ getHeader l ∈ getBlocks l' /\ enters l' v.

Definition larger (st st' : LiveVals * LiveVals) : Prop :=
  forall b, at_block st.1 b ⊆ at_block st'.1 b /\ at_block st.2 b ⊆ at_block st'.2 b.

(** Nothing else is in the sets. *)
Definition grown (st : LiveVals * LiveVals) : Prop :=
  larger (li1, lo1) st /\ forall b v, v ∈ at_block st.1 b ->
    v ∈ at_block li1 b \/ exists l, is_loop A l /\ b ∈ getBlocks l /\ enters l v.

Definition filled (st : LiveVals * LiveVals) (l : loop) : Prop :=
  forall b v, b ∈ getBlocks l -> loop_of li_ b = Some l -> enters_around l v ->
    v ∈ at_block st.1 b /\ v ∈ at_block st.2 b.

#[local] Instance larger_preorder : PreOrder larger.
Proof.
  split; [by intros st b|]. intros st1 st2 st3 H1 H2 b. destruct (H1 b), (H2 b). split; by etrans.
Qed.

Lemma filled_larger st st' l : larger st st' -> filled st l -> filled st' l.
Proof.
  intros Hl Hf b v Hb Hlo Hv. destruct (Hf b v Hb Hlo Hv), (Hl b) as [H1 H2].
  split; [by apply H1|by apply H2].
Qed.

(** One header, of a loop [l]. *)
Lemma propagate_grown l pd st : is_loop A l -> grown st ->
  let st' := (propagate_header o class F (getHeader l) (loop_children li_ l) (pd, st)).2 in
  larger st st' /\ grown st'.
Proof using SSA Laws.
  intros Hl [Hlarge Horigin]. destruct st as [li lo].
  destruct (propagate_header_spec (getHeader l) (loop_children li_ l) pd li lo)
    as (pd' & li' & lo' & E & _ & Hli & Hlo & _). rewrite E. cbn [fst snd] in *.
  assert (Hst : larger (li, lo) (li', lo')).
  { intros b. split; intros v Hv; [apply Hli|apply Hlo]; by left. }
  split; [done|]. split; [by etrans|].
  intros b v [Hv|[Hb (Hv & _ & Hp & _)]]%Hli; [by apply Horigin|]. right. apply loop_children_in in Hb.
  apply Horigin in Hv as [Hv|(l' & Hl' & Hin & He)]; [by exists l|].
  exists l'. split; [done|]. split; [|done]. by eapply (header_inside F A l l').
Qed.

Lemma enters_live l v : is_loop A l -> enters l v -> live_in v (getHeader l).
Proof using Hpa SSA Laws.
  intros Hl [Hv Hp]. destruct (so_in _ _ (partial_sound _ _ Hpa) (getHeader l) v) as [|]; try done.
  eapply natural_reachable, (loop_blocks F A); [done|]. by apply (header_in F A).
Qed.

(** *** A nest *)

Section Nest.
Context (top : loop) (Htop : is_loop A top) (Hstale : no_stale_phi).

Definition in_nest (l : loop) : Prop := is_loop A l /\ getHeader l ∈ getBlocks top.

Lemma nest_mutual l l' : in_nest l -> in_nest l' -> rtc (edge F) (getHeader l) (getHeader l').
Proof using Htop SSA Laws.
  intros [_ H1] [_ H2]. rewrite (loop_blocks F A) in H1, H2 by done.
  etrans; [by apply (natural_to F A)|by apply (natural_from F A)].
Qed.

(** Values that enter a loop around [l] are not defined by headers of the nest. *)
Lemma nest_not_stale l l' v : in_nest l -> in_nest l' -> enters_around l v -> ~ phi_def (getHeader l') v.
Proof using Htop Hstale Hpa SSA Laws.
  intros Hl Hl' (la & Hla & Hin & He). rewrite (loop_blocks F A) in Hin by done.
  apply (Hstale la l'); [done|apply Hl'| | |by apply enters_live|apply He].
  - transitivity (getHeader l); [by apply (natural_from F A)|by apply nest_mutual].
  - transitivity (getHeader l); [by apply nest_mutual|by apply (natural_to F A)].
Qed.

Lemma inner_in_nest l l' : in_nest l -> l' ∈ inner_loops li_ l -> in_nest l'.
Proof using Htop SSA Laws.
  intros [Hl Hin] H. apply (inner_spec F A) in H as [Hl' Hp]; [|done].
  destruct (parent_spec F A l' l Hl' Hp) as (_ & _ & Hh & _).
  split; [done|]. by eapply (header_inside F A l top).
Qed.

(** Around an inner loop: itself, or around the loop. *)
Lemma inner_around l l' v : is_loop A l -> l' ∈ inner_loops li_ l -> enters_around l' v ->
  enters l' v \/ enters_around l v.
Proof using SSA Laws.
  intros Hl H (la & Hla & Hin & He). apply (inner_spec F A) in H as [Hl' Hp]; [|done].
  destruct (parent_spec F A l' l Hl' Hp) as (_ & _ & _ & _ & Hmin).
  destruct (decide (getHeader la = getHeader l')) as [E|Hn].
  - left. by rewrite <- (same_header F A la l' Hla Hl' E).
  - right. exists la. split; [done|]. split; [|done]. apply Hmin; [done|done|]. by intros ->.
Qed.

Definition visit (st : gset value * (LiveVals * LiveVals)) (l : loop) : gset value * (LiveVals * LiveVals) :=
  propagate_header o class F (getHeader l) (loop_children li_ l) st.

(** Before the loops [ls] are visited. *)
Record ready (ls : list loop) (st : gset value * (LiveVals * LiveVals)) : Prop := {
  re_grown : grown st.2;
  re_nest : Forall in_nest ls;
  re_header l v : l ∈ ls -> enters_around l v -> v ∈ at_block st.2.1 (getHeader l);
  re_stale v : v ∈ st.1 -> exists l, in_nest l /\ phi_def (getHeader l) v
}.

Lemma visit_ready l ls st : ready (l :: ls) st ->
  ready (ls ++ inner_loops li_ l) (visit st l) /\ larger st.2 (visit st l).2 /\ filled (visit st l).2 l.
Proof using Htop Hstale Hpa SSA Laws.
  intros [Hg Hn Hh Hs]. apply Forall_cons in Hn as [Hl Hls]. pose proof Hl as [Hll _]. destruct st as [pd [li lo]].
  destruct (propagate_grown l pd (li, lo) Hll Hg) as [Hlarge Hg'].
  destruct (propagate_header_spec (getHeader l) (loop_children li_ l) pd li lo)
    as (pd' & li' & lo' & E & Hpd & Hli & Hlo & _). unfold visit. rewrite E in *. cbn [fst snd] in *.
  assert (Hloop : forall v, enters_around l v -> live_loop pd li (getHeader l) v).
  { intros v Hv. split; [apply Hh; [left|done]|]. split; [|split].
    - intros (l' & Hl' & Hp)%Hs. by apply (nest_not_stale l l' v).
    - by apply (nest_not_stale l l v).
    - destruct Hv as (la & Hla & _ & He). by eapply live_tracked, enters_live. }
  split; [|split; [done|]].
  - constructor; cbn [fst snd]; [done| | |].
    + apply Forall_app. split; [done|]. apply Forall_forall. intros l'. by apply inner_in_nest.
    + intros l' v [Hl'|Hl']%elem_of_app Hv; apply Hli.
      * left. apply Hh; [by right|done].
      * destruct (inner_around l l' v Hll Hl' Hv) as [[He _]|Ha]; [left; by apply Hg|].
        right. split; [by apply (header_child F A)|by apply Hloop].
    + intros v [Hv|Hv]%Hpd; [by apply Hs|by exists l].
  - intros b v Hb Hlo' Hv. split; [apply Hli|apply Hlo]; right; (split; [by apply own_child|by apply Hloop]).
Qed.

Lemma nest_filled ls seq : bfs li_ ls seq -> forall st, ready ls st ->
  let st' := foldl visit st seq in larger st.2 st'.2 /\ grown st'.2 /\ Forall (filled st'.2) seq.
Proof using Htop Hstale Hpa SSA Laws.
  induction 1 as [|l ls seq _ IH]; intros st Hr.
  { cbn. split; [done|]. split; [apply Hr|constructor]. }
  destruct (visit_ready _ _ _ Hr) as (Hr' & Hlarge & Hf). destruct (IH _ Hr') as (Hlarge' & Hg & Hall).
  cbn [foldl]. split; [by etrans|]. split; [done|]. constructor; [|done]. by eapply filled_larger.
Qed.
End Nest.

(** *** The forest *)

Definition nest_run (st : LiveVals * LiveVals) (hcs : list (block * list block)) : LiveVals * LiveVals :=
  (foldl (fun st hc => propagate_header o class F hc.1 hc.2 st) (∅, st) hcs).2.

Lemma loopTreeDFS_run fuel LNF hcss :
  Forall2 (fun t hcs => iterates t hcs /\ length hcs <= fuel) LNF hcss ->
  forall st, loopTreeDFS o class F fuel LNF st = Ret (foldl nest_run st hcss).
Proof.
  induction 1 as [|t hcs LNF hcss [Hit Hf] _ IH]; intros st; [done|].
  cbn [loopTreeDFS foldl]. unfold propagateValues. rewrite (Hit _ _ fuel (∅, st) Hf).
  cbn [mbind outcome_bind]. unfold nest_run at 2.
  destruct (foldl _ _ hcs) as [pd st'] eqn:E. cbn [mbind outcome_bind snd]. by rewrite IH.
Qed.

Lemma nest_natural scc hcs : nest_of A scc hcs -> Forall (fun hc => forall c, c ∈ hc.2 -> natural F A hc.1 c) hcs.
Proof using Laws.
  intros [b _ _ ->|b lo seq _ [Hlo _] _ Hbfs ->]; [constructor; [by intros c ?%elem_of_nil|constructor]|].
  apply Forall_fmap. eapply Forall_impl; [apply (bfs_loops F A [lo] seq); [done|by constructor]|].
  intros l Hl c Hc%loop_children_in. by apply (loop_blocks F A).
Qed.

Lemma nest_run_sound hcs st : Forall (fun hc => forall c, c ∈ hc.2 -> natural F A hc.1 c) hcs -> sound st.1 st.2 ->
  sound (nest_run st hcs).1 (nest_run st hcs).2.
Proof using SSA Laws.
  intros Hn. unfold nest_run. change st with (∅ : gset value, st).2 at 1 2. generalize (∅ : gset value, st) as st0.
  induction Hn as [|hc hcs Hhc _ IH]; intros st0 Hs; [done|]. cbn [foldl]. apply IH. by apply propagate_sound.
Qed.

Lemma forest_sound SCCs hcss : Forall2 (nest_of A) SCCs hcss -> forall st, sound st.1 st.2 ->
  sound (foldl nest_run st hcss).1 (foldl nest_run st hcss).2.
Proof using SSA Laws.
  induction 1 as [|scc hcs SCCs hcss Hn _ IH]; [done|]. intros st Hs. cbn [foldl]. apply IH.
  apply nest_run_sound; [by eapply nest_natural|done].
Qed.

Lemma nest_run_filled scc hcs st : no_stale_phi -> nest_of A scc hcs -> grown st ->
  larger st (nest_run st hcs) /\ grown (nest_run st hcs) /\
  forall b l, head scc = Some b -> is_loop A l -> b ∈ getBlocks l -> forall lo, outer A lo -> b ∈ getBlocks lo ->
    forall l', is_loop A l' -> getHeader l' ∈ getBlocks lo -> filled (nest_run st hcs) l'.
Proof using Hpa SSA Laws.
  intros Hstale [b Hb Hnone ->|b lo seq Hb Ho Hin Hbfs ->] Hg.
  - assert (E : forall c, at_block (nest_run st [(b, [])]).1 c = at_block st.1 c /\
      at_block (nest_run st [(b, [])]).2 c = at_block st.2 c).
    { intros c. destruct st as [li lo]. unfold nest_run. cbn. destruct (map_at_spec b li) as (_ & E & _).
      destruct (map_at b li) as [s li']. cbn in E |- *. by rewrite <- (E c). }
    assert (Hlarge : larger st (nest_run st [(b, [])])) by (intros c; destruct (E c) as [-> ->]; done).
    split; [done|]. split.
    + split; [etrans; [apply Hg|done]|]. intros c v Hv. apply Hg. by rewrite <- (proj1 (E c)).
    + intros b' l Hb' Hl Hbl. rewrite Hb in Hb'. injection Hb' as <-.
      destruct (innermost F A b l Hl Hbl) as (l' & Hl' & _). congruence.
  - pose proof Ho as [Hlo _].
    destruct (nest_filled lo Hlo Hstale [lo] seq Hbfs (∅, st)) as (Hlarge & Hg' & Hall).
    { constructor; cbn [fst snd]; [done| | |by intros v ?%elem_of_empty].
      - constructor; [split; [done|by apply (header_in F A)]|done].
      - intros l v ->%list_elem_of_singleton (la & Hla & Hla' & [Hv _]).
        rewrite (outer_around F A lo la) in * by done. by apply Hg. }
    assert (E : nest_run st ((fun l => (getHeader l, loop_children li_ l)) <$> seq) = (foldl visit (∅, st) seq).2).
    { unfold nest_run. by rewrite foldl_fmap. }
    rewrite E. split; [done|]. split; [done|]. intros b' l Hb' Hl Hbl lo' Ho' Hin' l' Hl' Hll'.
    rewrite Hb in Hb'. injection Hb' as <-. rewrite <- (outer_unique F A lo lo' b) in * by done.
    rewrite Forall_forall in Hall. apply Hall. apply (bfs_meets F A [lo] seq); [done|by constructor|done|].
    exists lo. split; [by left|done].
Qed.

Lemma forest_filled SCCs hcss : no_stale_phi -> Forall2 (nest_of A) SCCs hcss -> forall st, grown st ->
  let st' := foldl nest_run st hcss in
  larger st st' /\ grown st' /\
  forall scc b lo l, scc ∈ SCCs -> head scc = Some b -> outer A lo -> b ∈ getBlocks lo -> is_loop A l ->
    getHeader l ∈ getBlocks lo -> filled st' l.
Proof using Hpa SSA Laws.
  intros Hstale. induction 1 as [|scc hcs SCCs hcss Hn _ IH]; intros st Hg.
  { split; [done|]. split; [done|]. by intros scc b lo l ?%elem_of_nil. }
  cbn [foldl]. destruct (nest_run_filled scc hcs st Hstale Hn Hg) as (Hlarge & Hg' & Hf).
  destruct (IH _ Hg') as (Hlarge' & Hg'' & Hf'). split; [by etrans|]. split; [done|].
  intros s b lo l [->|Hs]%elem_of_cons Hb Ho Hin Hl Hll; [|by eapply Hf'].
  eapply filled_larger; [done|]. eapply (Hf b lo); try done. by destruct Ho.
Qed.

(** *** Completeness *)

(** Every loop is in the nest of a component. *)
Lemma loop_component l : is_loop A l -> exists scc b lo, scc ∈ sccs A /\ head scc = Some b /\ outer A lo /\
  b ∈ getBlocks lo /\ getHeader l ∈ getBlocks lo.
Proof using Laws.
  intros Hl. destruct (outermost_spec F A l Hl) as (lo & Ho & Hin & _). pose proof Ho as [Hlo _].
  destruct (scc_cover F A (getHeader l)) as (scc & Hscc & Hb).
  { eapply natural_reachable, (loop_blocks F A); [exact Hl|by apply (header_in F A)]. }
  destruct scc as [|b scc]; [by apply elem_of_nil in Hb|]. exists (b :: scc), b, lo.
  split; [done|]. split; [done|]. split; [done|]. split; [|done].
  destruct (scc_connected F A _ (getHeader l) b Hscc Hb ltac:(left)) as [_ H1].
  destruct (scc_connected F A _ b (getHeader l) Hscc ltac:(left) Hb) as [Hr H2].
  by eapply (outer_component F A lo (getHeader l)).
Qed.

Section Final.
Context (st : LiveVals * LiveVals) (Hg : grown st) (Hf : forall l, is_loop A l -> filled st l) (Hself : no_self_phi).

Lemma loop_filled l b v : is_loop A l -> b ∈ getBlocks l -> enters l v -> v ∈ at_block st.1 b /\ v ∈ at_block st.2 b.
Proof using Hf Laws.
  intros Hl Hb He. destruct (innermost F A b l Hl Hb) as (l' & El & Hl' & Hb' & Hin).
  apply (Hf l' Hl' b v Hb' El). by exists l.
Qed.

Definition reported (b : block) (v : value) : Prop :=
  v ∈ at_block st.2 b /\ (~ defines (after_phis (code F b)) v -> v ∈ at_block st.1 b).

Lemma reported_partial b v : reachable F b -> from_successors li1 b v -> reported b v.
Proof using Hg Hpa Laws.
  intros Hb%(po_reachable F A) Hv%(pa_live_out _ _ _ Hpa b v Hb). destruct (proj1 Hg b) as [H1 H2].
  split; [by apply H2|]. intros Hd. apply H1, (pa_live_in _ _ _ Hpa b v Hb). right. by left.
Qed.

Lemma reported_edge b c v : reachable F b -> edge F b c -> v ∈ at_block st.1 c -> ~ phi_def c v -> reported b v.
Proof using Hf Hg Hpa Laws.
  intros Hb He Hv Hp. pose proof (reachable_edge F _ _ Hb He) as Hc.
  assert (Hpart : v ∈ at_block li1 c -> reported b v).
  { intros Hv1. destruct (decide ((b, c) ∈ backedges A)) as [Hk|Hk].
    - destruct (li_all F A b c Hk Hb) as (i & l & Hi & <-). assert (Hl : is_loop A l) by (by exists i).
      destruct (loop_filled l b v Hl) as [H1 H2]; [|done|by split].
      apply (loop_blocks F A); [done|]. by apply natural_latch.
    - apply reported_partial; [done|]. exists c. split; [done|]. split; [|by right].
      intros ->. destruct (pos_reachable F A b Hb) as [i Hi].
      destruct (po_order F A i b b Hi He) as [|(j & Hj & Hjb)]; [done|].
      pose proof (pos_unique F A b i j Hi Hjb). lia. }
  destruct (proj2 Hg c v Hv) as [|(l & Hl & Hcl & Hel)]; [by apply Hpart|].
  destruct (decide (c = getHeader l)) as [->|Hn]; [by apply Hpart, Hel|].
  destruct (loop_filled l b v Hl) as [H1 H2]; [|done|by split].
  rewrite (loop_blocks F A) in * by done. by apply natural_pred with c.
Qed.

Lemma reported_phi b c v : reachable F b -> edge F b c -> phi_use b c v -> reported b v.
Proof using Hg Hpa Hself Laws.
  intros Hb He Hu. apply reported_partial; [done|]. exists c. split; [done|]. split; [|by left].
  intros ->. by apply (Hself b v).
Qed.

Lemma complete_in v b : live_in v b -> reachable F b -> v ∈ at_block st.1 b.
Proof using Hf Hg Hpa Hself Laws.
  induction 1 as [b Hu|b c He Hu Hd|b c He _ IH Hp Hd]; intros Hb.
  - apply (proj1 (proj1 Hg b)), (pa_live_in _ _ _ Hpa); [by apply (po_reachable F A)|by left].
  - by apply (reported_phi b c v).
  - apply (reported_edge b c v); try done. apply IH. by eapply reachable_edge.
Qed.

Lemma complete_out v b : live_out v b -> reachable F b -> v ∈ at_block st.2 b.
Proof using Hf Hg Hpa Hself Laws.
  intros (c & He & [Hu|[Hl Hp]]) Hb; [by apply (reported_phi b c v)|].
  apply (reported_edge b c v); try done. apply complete_in; [done|by eapply reachable_edge].
Qed.
End Final.

End Complete.

(** *** The whole analysis *)

Lemma analyse_spec : exists fuel0, forall fuel, fuel0 <= fuel -> exists li lo,
  analyse o class F A fuel = Ret (li, lo) /\ sound li lo /\
  (no_self_phi -> no_stale_phi -> forall v b, reachable F b -> v ∈ at_block lo b <-> live_out v b).
Proof using SSA Laws.
  destruct (forest_spec F A (sccs A)) as (fuel0 & LNF & hcss & Hn & Hrun); [by apply (scc_nonempty F A)|].
  exists fuel0. intros fuel Hfuel. destruct (Hrun fuel Hfuel) as [HL Hit].
  destruct (dagDFS o class F A (∅, ∅)) as [li1 lo1] eqn:E.
  pose proof (partial_all (ssa_phis o class F)) as Hpa. rewrite E in Hpa. cbn [fst snd] in Hpa.
  destruct (foldl nest_run (li1, lo1) hcss) as [li lo] eqn:Est. exists li, lo.
  assert (Hsound : sound li lo).
  { pose proof (forest_sound _ _ Hn (li1, lo1) (partial_sound _ _ Hpa)) as Hs. by rewrite Est in Hs. }
  split; [|split; [done|]].
  - unfold analyse. rewrite E, HL. cbn [mbind outcome_bind]. by rewrite (loopTreeDFS_run _ _ _ Hit), Est.
  - intros Hself Hstale v b Hb. split; [by apply (so_out _ _ Hsound)|]. intros Hl.
    destruct (forest_filled li1 lo1 Hpa _ _ Hstale Hn (li1, lo1)) as (_ & Hg & Hf).
    { split; [done|]. intros c w Hw. by left. }
    rewrite Est in *. apply (complete_out li1 lo1 Hpa (li, lo) Hg) in Hl; [done| |done|done].
    intros l Hll. destruct (loop_component l Hll) as (scc & h & top & Hscc & Hh & Ho & Hin & Hlin). by eapply Hf.
Qed.

(** The backward walk within the block. *)
Lemma live_after_spec pre i post live : NoDup (i_val <$> pre ++ i :: post) ->
  exists s, live_after o class (i_val i) (reverse (pre ++ i :: post)) live = Ret s /\
    forall v, v ∈ s <-> v <> i_val i /\ (used_first post v \/ v ∈ live /\ ~ defines post v).
Proof.
  revert live. induction post as [|j post IH] using rev_ind; intros live Hnd.
  - rewrite reverse_app. cbn. rewrite Nat.eqb_refl. eexists. split; [done|]. intros v.
    rewrite elem_of_difference, elem_of_singleton. split; [intros [? ?]; split; [done|]; right; split; [done|by intros ?%elem_of_nil]|].
    intros [? [(p & ? & ? & ? & _)|[? _]]]; [by destruct p|done].
  - rewrite app_comm_cons, app_assoc in *. rewrite reverse_snoc. cbn [live_after].
    rewrite fmap_app in Hnd. apply NoDup_app in Hnd as (Hnd & Hj & _).
    destruct (Nat.eqb_spec (i_val j) (i_val i)) as [Eij|Hij].
    { destruct (Hj (i_val i)); [rewrite fmap_app; apply elem_of_app; right; left|rewrite <- Eij; left]. }
    destruct (IH (before_instr o class j live)) as (s & E & Hs); [done|]. exists s. split; [exact E|]. intros v.
    rewrite Hs, before_instr_spec, used_first_snoc, defines_snoc.
    pose proof (defines_dec post v) as [Hd|Hd]; naive_solver.
Qed.

(** A value's instruction occurs once. *)
Lemma split_unique b pre i post pre' i' post' : NoDup (i_val <$> code F b) ->
  code F b = pre ++ i :: post -> code F b = pre' ++ i' :: post' -> i_val i' = i_val i ->
  pre = pre' /\ i = i' /\ post = post'.
Proof.
  intros Hnd E E' Ei. rewrite E in Hnd, E'. assert (El : length pre = length pre').
  { apply (NoDup_lookup (i_val <$> pre ++ i :: post) _ _ (i_val i)); [done| |].
    - by rewrite list_lookup_fmap, list_lookup_middle.
    - by rewrite E', list_lookup_fmap, list_lookup_middle, <- Ei. }
  apply app_inj_1 in E' as [-> E']; [|done]. by injection E' as -> ->.
Qed.

(** The pass, and its answers about the instructions of a block. *)
Lemma runOnFunction_live f lv : FuncBBLiveIn lv !! f = None -> exists fuel0, forall fuel, fuel0 <= fuel ->
  exists lv', runOnFunction o class F A fuel f lv = Ret lv' /\
  forall b pre i post, reachable F b -> code F b = pre ++ i :: post -> isPHI i = false ->
  exists s, getLiveValues o class F lv' f b (i_val i) = Ret s /\
    (forall v, v ∈ s -> live_across o class F b (i_val i) v) /\
    (no_self_phi -> no_stale_phi -> forall v, live_across o class F b (i_val i) v -> v ∈ s).
Proof using SSA Laws.
  intros Hf. destruct analyse_spec as [fuel0 Hrun]. exists fuel0. intros fuel Hfuel.
  destruct (Hrun fuel Hfuel) as (li & lo & E & Hs & Hexact). unfold runOnFunction. rewrite Hf, E.
  eexists. split; [done|]. intros b pre i post Hb Ec Hi. destruct (so_keys _ _ Hs b Hb) as [_ [s Hlo]].
  unfold getLiveValues, getLiveOut. cbn [FuncBBLiveOut]. rewrite lookup_insert_eq. cbn [get mbind outcome_bind].
  rewrite Hlo. cbn [get mbind outcome_bind].
  pose proof (ssa_once o class F b) as Hnd.
  assert (Hout : forall v, v ∈ s <-> v ∈ at_block lo b) by (intros v; unfold at_block; by rewrite Hlo).
  assert (Hv : exists s', live_after o class (i_val i) (reverse (code F b)) s = Ret s' /\
    forall v, v ∈ s' <-> v <> i_val i /\ (used_first post v \/ v ∈ at_block lo b /\ ~ defines post v)).
  { rewrite Ec in Hnd. rewrite Ec. destruct (live_after_spec pre i post s Hnd) as (s' & E' & Hs').
    exists s'. split; [done|]. intros v. by rewrite Hs', Hout. }
  destruct Hv as (s' & -> & Hv). exists s'. split; [done|]. split.
  - intros v [Hn Huse]%Hv. split; [done|]. exists pre, i, post. do 3 (split; [done|]).
    destruct Huse as [|[Ho ?]]; [by left|right]. split; [by apply (so_out _ _ Hs)|done].
  - intros Hself Hstale v [Hn (pre' & i' & post' & Ec' & Ei & _ & Huse)]. apply Hv. split; [done|].
    destruct (split_unique b pre i post pre' i' post' Hnd Ec Ec' Ei) as (_ & _ & <-).
    destruct Huse as [|[Ho ?]]; [by left|right]. split; [by apply Hexact|done].
Qed.

End Proof.
