(* ===== verification/CfgCheck.v ===== *)
(** * Checking the laws of [Cfg] and [LiveSpec] on a given function

    What is reachable, dominated or in a natural loop is the least set with
    some blocks that is closed under some successors; [closure] computes it, and
    with it every law becomes decidable ([cfg_checked], [ssa_checked]). *)

From S2P Require Import Prelude IR LoopNest LiveValues Cfg LiveSpec.

#[local] Open Scope nat_scope.

(** ** Definitions *)

(** The least set with [start] that is closed under [next]. *)
Inductive closed_under (start : list block) (next : block -> list block) : block -> Prop :=
  | closed_start b : b ∈ start -> closed_under start next b
  | closed_next b c : closed_under start next b -> c ∈ next b -> closed_under start next c.

Fixpoint closure (n : nat) (start : list block) (next : block -> list block) : gset block :=
  match n with
  | O => list_to_set start
  | S n => let s := closure n start next in s ∪ list_to_set (elements s ≫= next)
  end.

Definition is_closed (s : gset block) (next : block -> list block) : Prop :=
  Forall (fun b => Forall (fun c => c ∈ s) (next b)) (elements s).

Section Check.
Context (F : func) (A : analyses).

Definition size_of : nat := length (f_layout F).
Definition reach_from (b : block) : gset block := closure size_of [b] (succs F).
Definition reached : gset block := reach_from (f_entry F).

Definition start_but (a : block) : list block := filter (fun b => b <> a) [f_entry F].
Definition succs_but (a b : block) : list block := filter (fun c => c <> a) (succs F b).
Definition avoiding (a : block) : gset block := closure size_of (start_but a) (succs_but a).

Definition latches (h : block) : list block := filter (fun b => (b, h) ∈ backedges A) (elements reached).
Definition preds_but (h c : block) : list block :=
  if decide (c = h) then [] else filter (fun b => c ∈ succs F b) (elements reached).
Definition loop_set (h : block) : gset block := closure size_of (latches h) (preds_but h).

Abbreviation loops := (li_loops (loop_info A)).

(** Successors come first, but for back edges. *)
Fixpoint ordered (seen : list block) (bs : list block) : Prop :=
  match bs with
  | [] => True
  | b :: bs => Forall (fun c => (b, c) ∈ backedges A \/ c ∈ seen) (succs F b) /\ ordered (b :: seen) bs
  end.

#[export] Instance ordered_dec seen bs : Decision (ordered seen bs).
Proof. revert seen. induction bs as [|b bs IH]; intros seen; cbn; apply _. Defined.

Definition parent_checked (l : loop) : Prop :=
  match getParentLoop l with
  | None => getLoopDepth l = 1 /\ Forall (fun l' => getHeader l ∈ getBlocks l' -> getHeader l' = getHeader l) loops
  | Some p =>
      match loops !! p with
      | Some lp => getLoopDepth l = getLoopDepth lp + 1 /\ getHeader l ∈ getBlocks lp /\
          getHeader lp <> getHeader l /\
          Forall (fun l' => getHeader l ∈ getBlocks l' -> getHeader l' <> getHeader l -> getHeader lp ∈ getBlocks l') loops
      | None => False
      end
  end.

#[export] Instance parent_checked_dec l : Decision (parent_checked l).
Proof.
  unfold parent_checked. destruct (getParentLoop l) as [p|]; [destruct (loops !! p)|]; apply _.
Defined.

Definition loop_checked (il : nat * loop) : Prop :=
  li_of (loop_info A) !! getHeader il.2 = Some il.1 /\
  (list_to_set (getBlocks il.2) : gset block) = loop_set (getHeader il.2) /\
  is_closed (loop_set (getHeader il.2)) (preds_but (getHeader il.2)) /\
  Forall (fun b => is_Some (li_of (loop_info A) !! b)) (getBlocks il.2) /\
  parent_checked il.2.

Definition inner_checked (bi : block * nat) : Prop :=
  match loops !! bi.2 with
  | Some l => bi.1 ∈ getBlocks l /\
      Forall (fun l' => bi.1 ∈ getBlocks l' -> Forall (fun c => c ∈ getBlocks l') (getBlocks l)) loops
  | None => False
  end.

#[export] Instance inner_checked_dec bi : Decision (inner_checked bi).
Proof. unfold inner_checked. destruct (loops !! bi.2); apply _. Defined.

Definition backedge_checked (e : block * block) : Prop :=
  e.1 ∈ reached -> e.2 ∈ succs F e.1 /\ e.1 ∉ avoiding e.2 /\ is_closed (avoiding e.2) (succs_but e.2) /\
  Exists (fun l => getHeader l = e.2) loops.

Definition scc_checked (scc : list block) : Prop :=
  scc <> [] /\ Forall (fun b => b ∈ reached /\ Forall (fun c => c ∈ reach_from b) scc) scc.

Definition cfg_checked : Prop :=
  is_closed reached (succs F) /\
  (list_to_set (postorder A) : gset block) = reached /\ NoDup (postorder A) /\ ordered [] (postorder A) /\
  Forall backedge_checked (elements (backedges A)) /\
  Forall (fun b => Exists (fun scc => b ∈ scc) (sccs A)) (postorder A) /\ Forall scc_checked (sccs A) /\
  Forall loop_checked (imap pair loops) /\
  Forall inner_checked (map_to_list (li_of (loop_info A))).

#[export] Instance cfg_checked_dec : Decision cfg_checked.
Proof. unfold cfg_checked, loop_checked, backedge_checked, scc_checked, is_closed. apply _. Defined.

(** ** Lemmas *)

Lemma closure_sound n start next b : b ∈ closure n start next -> closed_under start next b.
Proof.
  revert b. induction n as [|n IH]; intros b; cbn [closure].
  - rewrite elem_of_list_to_set. apply closed_start.
  - rewrite elem_of_union, elem_of_list_to_set, list_elem_of_bind.
    intros [Hb|(c & Hb & Hc)]; [by apply IH|]. apply closed_next with c; [apply IH; set_solver|done].
Qed.

Lemma closure_start n start next b : b ∈ start -> b ∈ closure n start next.
Proof. intros Hb. induction n; cbn [closure]; set_solver. Qed.

Lemma closure_spec n start next b : is_closed (closure n start next) next ->
  b ∈ closure n start next <-> closed_under start next b.
Proof.
  intros Hc. split; [apply closure_sound|]. induction 1 as [b Hb|b c _ IH Hbc]; [by apply closure_start|].
  unfold is_closed in Hc. rewrite Forall_forall in Hc. specialize (Hc b ltac:(set_solver)).
  rewrite Forall_forall in Hc. by apply Hc.
Qed.

Lemma reach_closed b c : closed_under [b] (succs F) c <-> rtc (edge F) b c.
Proof.
  split.
  - induction 1 as [c ->%list_elem_of_singleton|c d _ IH He]; [apply rtc_refl|by eapply rtc_r].
  - revert c. apply rtc_ind_r; [constructor; by left|]. intros c d _ He IH. by eapply closed_next.
Qed.

Lemma avoids_closed a b : avoids F a b <-> closed_under (start_but a) (succs_but a) b.
Proof.
  unfold start_but, succs_but. split.
  - induction 1 as [Hn|b c _ IH He Hn].
    + constructor. apply list_elem_of_filter. split; [done|by left].
    + eapply closed_next; [done|]. by apply list_elem_of_filter.
  - induction 1 as [b [Hn ->%list_elem_of_singleton]%list_elem_of_filter|b c _ IH [Hn He]%list_elem_of_filter];
      [by constructor|by eapply avoids_edge].
Qed.

Section Checked.
Context (Hc : cfg_checked).

Lemma reached_spec b : b ∈ reached <-> reachable F b.
Proof using Hc. unfold reached, reach_from. rewrite closure_spec by apply Hc. apply reach_closed. Qed.

Lemma natural_closed h b : natural F A h b <-> closed_under (latches h) (preds_but h) b.
Proof using Hc.
  unfold latches, preds_but. split.
  - induction 1 as [b Hb Hk|b c _ IH Hn He Hb].
    + constructor. apply list_elem_of_filter. split; [done|]. by apply elem_of_elements, reached_spec.
    + eapply closed_next; [done|]. rewrite decide_False by done.
      apply list_elem_of_filter. split; [done|]. by apply elem_of_elements, reached_spec.
  - induction 1 as [b [Hk Hb%elem_of_elements%reached_spec]%list_elem_of_filter|b c _ IH Hb]; [by apply natural_latch|].
    case_decide as Hn; [by apply elem_of_nil in Hb|].
    apply list_elem_of_filter in Hb as [He Hb%elem_of_elements%reached_spec]. by eapply natural_pred.
Qed.

Lemma ordered_spec seen bs i b c : ordered seen bs -> bs !! i = Some b -> c ∈ succs F b ->
  (b, c) ∈ backedges A \/ c ∈ seen \/ exists j, j < i /\ bs !! j = Some c.
Proof.
  revert seen i. induction bs as [|b' bs IH]; [done|]. intros seen [|i] [Hb Hbs] Hi He; cbn in Hi.
  - injection Hi as ->. rewrite Forall_forall in Hb. destruct (Hb c He); [by left|right; by left].
  - destruct (IH (b' :: seen) i Hbs Hi He) as [Hk|[[->|Hs]%elem_of_cons|(j & Hj & Hc')]]; [by left| | |].
    + right. right. exists 0. split; [lia|done].
    + right. by left.
    + right. right. exists (S j). split; [lia|done].
Qed.

Lemma loops_checked i l : loops !! i = Some l -> loop_checked (i, l).
Proof using Hc.
  intros Hi. destruct Hc as (_ & _ & _ & _ & _ & _ & _ & Hl & _). rewrite Forall_forall in Hl. apply Hl.
  apply list_elem_of_lookup. exists i. by rewrite list_lookup_imap, Hi.
Qed.

Lemma header_unique i j l l' : loops !! i = Some l -> loops !! j = Some l' -> getHeader l = getHeader l' -> l = l'.
Proof using Hc.
  intros Hi Hj E. destruct (loops_checked i l Hi) as [H1 _]. destruct (loops_checked j l' Hj) as [H2 _].
  cbn in H1, H2. rewrite E, H2 in H1. injection H1 as ->. congruence.
Qed.

Lemma backedges_checked b h : (b, h) ∈ backedges A -> reachable F b -> h ∈ succs F b /\ dominates F h b /\
  exists i l, loops !! i = Some l /\ getHeader l = h.
Proof using Hc.
  intros Hk Hb%reached_spec. destruct Hc as (_ & _ & _ & _ & He & _). rewrite Forall_forall in He.
  destruct (He (b, h)) as (H1 & H2 & H3 & H4); [by apply elem_of_elements|done|]. cbn in *.
  split; [done|]. split.
  - intros Ha%avoids_closed. apply H2. by apply closure_spec.
  - apply Exists_exists in H4 as (l & [i Hi]%list_elem_of_lookup & E). by exists i, l.
Qed.

Lemma inners_checked b i : li_of (loop_info A) !! b = Some i -> inner_checked (b, i).
Proof using Hc.
  intros Hb. destruct Hc as (_ & _ & _ & _ & _ & _ & _ & _ & Hl). rewrite Forall_forall in Hl. apply Hl.
  by apply elem_of_map_to_list.
Qed.

Lemma cfg_checked_laws : CfgLaws F A.
Proof using Hc.
  pose proof Hc as (_ & Hpo & Hnd & Hord & _ & Hcov & Hscc & _).
  assert (Hre : forall b, b ∈ postorder A <-> reachable F b).
  { intros b. rewrite <- reached_spec, <- Hpo. by rewrite elem_of_list_to_set. }
  rewrite Forall_forall in Hcov. rewrite Forall_forall in Hscc.
  constructor; try done.
  - intros i b c Hi He. destruct (ordered_spec [] _ i b c Hord Hi He) as [|[?%elem_of_nil|]]; [by left|done|by right].
  - intros b h Hk Hb. destruct (backedges_checked b h Hk Hb) as (? & ? & _). done.
  - intros b Hb%Hre%Hcov. by apply Exists_exists in Hb.
  - intros scc b c Hs Hb Hbc. destruct (Hscc scc Hs) as [_ Hall]. rewrite Forall_forall in Hall.
    destruct (Hall b Hb) as [Hr Hre']. rewrite Forall_forall in Hre'.
    split; [by apply reached_spec|]. apply reach_closed. by eapply closure_sound, Hre'.
  - intros Hn. by destruct (Hscc [] Hn).
  - intros i l Hi. apply (loops_checked i l Hi).
  - intros i l b Hi. destruct (loops_checked i l Hi) as (_ & E & Hcl & _). cbn in *.
    rewrite natural_closed, <- (closure_spec size_of) by done. fold (loop_set (getHeader l)).
    rewrite <- E. by rewrite elem_of_list_to_set.
  - intros b h Hk Hb. by destruct (backedges_checked b h Hk Hb) as (_ & _ & ?).
  - intros b i Hi%inners_checked. unfold inner_checked in Hi. cbn in Hi.
    destruct (loops !! i) as [l|]; [|done]. destruct Hi as [Hb Hall]. rewrite Forall_forall in Hall.
    exists l. split; [done|]. split; [done|]. intros j l' Hj Hb' c Hcb.
    specialize (Hall l' (list_elem_of_lookup_2 _ _ _ Hj) Hb'). rewrite Forall_forall in Hall. by apply Hall.
  - intros b j l Hb Hj Hin. destruct (loops_checked j l Hj) as (_ & _ & _ & Hall & _). cbn in Hall.
    rewrite Forall_forall in Hall. destruct (Hall b Hin) as [? ?]. congruence.
  - intros i l Hi. destruct (loops_checked i l Hi) as (_ & _ & _ & _ & Hp). cbn in Hp. unfold parent_checked in Hp.
    destruct (getParentLoop l) as [p|].
    + destruct (loops !! p) as [lp|] eqn:Ep; [|done]. destruct Hp as (Hd & Hin & Hn & Hall).
      rewrite Forall_forall in Hall. exists lp. do 4 (split; [done|]). intros j l' Hj Hin' Hne.
      apply Hall; [by eapply list_elem_of_lookup_2|done|]. intros E. apply Hne. by eapply header_unique.
    + destruct Hp as [Hd Hall]. split; [done|]. rewrite Forall_forall in Hall. intros j l' Hj Hin.
      eapply header_unique; [done..|]. apply Hall; [by eapply list_elem_of_lookup_2|done].
Qed.
End Checked.

(** *** Functions in SSA form *)

Abbreviation blocks := (map_to_list (f_code F)).

Definition dominance_checked (d b : block) : Prop :=
  is_closed (avoiding d) (succs_but d) /\ b ∉ avoiding d.

(** Where [v] is defined, if at all, [P] holds. *)
Definition where_defined (v : value) (P : block -> Prop) : Prop :=
  Forall (fun bi : block * list instr => v ∈ i_val <$> bi.2 -> P bi.1) blocks.

#[export] Instance where_defined_dec v P `{!forall b, Decision (P b)} : Decision (where_defined v P).
Proof. unfold where_defined. apply _. Defined.

Fixpoint uses_checked (b : block) (pre : list value) (insts : list instr) : Prop :=
  match insts with
  | [] => True
  | i :: insts =>
      (isPHI i = false -> Forall (fun v => v ∈ pre \/
        where_defined v (fun d => d <> b /\ dominance_checked d b)) (i_operands i)) /\
      uses_checked b (pre ++ [i_val i]) insts
  end.

#[export] Instance uses_checked_dec b pre insts : Decision (uses_checked b pre insts).
Proof.
  revert pre. induction insts as [|i insts IH]; intros pre; cbn; unfold dominance_checked, is_closed; apply _.
Defined.

Definition phi_checked (b : block) (i : instr) : Prop :=
  match i_op i with
  | PHINode incoming => Forall (fun bv => bv.1 = b -> where_defined bv.2 (fun d => dominance_checked d b))
      (zip incoming (i_operands i))
  | _ => True
  end.

#[export] Instance phi_checked_dec b i : Decision (phi_checked b i).
Proof. unfold phi_checked, dominance_checked, is_closed. destruct (i_op i); apply _. Defined.

Definition block_checked (bi : block * list instr) : Prop :=
  Forall (fun i => isPHI i = false) (after_phis bi.2) /\ NoDup (i_val <$> bi.2) /\
  Forall (fun ci : block * list instr => ci.1 <> bi.1 -> Forall (fun v => v ∉ i_val <$> ci.2) (i_val <$> bi.2)) blocks /\
  uses_checked bi.1 [] bi.2.

Definition ssa_checked : Prop :=
  Forall block_checked blocks /\
  Forall (fun b => Forall (fun c => Forall (phi_checked b) (code F c)) (succs F b)) (elements reached).

#[export] Instance ssa_checked_dec : Decision ssa_checked.
Proof. unfold ssa_checked, block_checked. apply _. Defined.

Lemma dominance_spec d b : dominance_checked d b -> dominates F d b.
Proof. intros [Hc Hn] Ha%avoids_closed. apply Hn. by apply closure_spec. Qed.

Lemma code_in_blocks b v : defines (code F b) v -> (b, code F b) ∈ blocks.
Proof.
  unfold code, defines. intros Hv. destruct (f_code F !! b) as [insts|] eqn:E; [by apply elem_of_map_to_list|].
  by apply elem_of_nil in Hv.
Qed.

Lemma where_defined_spec v P d : where_defined v P -> defines (code F d) v -> P d.
Proof.
  unfold where_defined. rewrite Forall_forall. intros Hall Hd.
  apply (Hall (d, code F d)); [by eapply code_in_blocks|done].
Qed.

Lemma uses_checked_spec b vals insts pre i post v d : uses_checked b vals insts -> insts = pre ++ i :: post ->
  isPHI i = false -> v ∈ i_operands i -> defines (code F d) v ->
  v ∈ vals \/ defines pre v \/ d <> b /\ dominates F d b.
Proof.
  revert vals insts. induction pre as [|j pre IH]; intros vals insts Hu -> Hi Hv Hd; cbn in Hu; destruct Hu as [Hi' Hu].
  - specialize (Hi' Hi). rewrite Forall_forall in Hi'. destruct (Hi' v Hv) as [|Hw]; [by left|]. right. right.
    destruct (where_defined_spec _ _ _ Hw Hd) as [Hn Hdom]. split; [done|by apply dominance_spec].
  - destruct (IH _ _ Hu eq_refl Hi Hv Hd) as [Hin|[Hp|]]; [| |by right; right].
    + apply elem_of_app in Hin as [| ->%list_elem_of_singleton]; [by left|]. right. left. left.
    + right. left. by right.
Qed.

Lemma ssa_checked_strict o class : is_closed reached (succs F) -> ssa_checked -> StrictSSA o class F.
Proof.
  intros Hcl [Hb Hphi]. rewrite Forall_forall in Hb. rewrite Forall_forall in Hphi.
  assert (Hin : forall b, (b, code F b) ∈ blocks \/ code F b = []).
  { intros b. unfold code. destruct (f_code F !! b) eqn:E; [left; by apply elem_of_map_to_list|by right]. }
  constructor.
  - intros b. destruct (Hin b) as [H| ->]; [by destruct (Hb _ H)|constructor].
  - intros b. destruct (Hin b) as [H| ->]; [by destruct (Hb _ H) as (_ & ? & _)|constructor].
  - intros b c v Hv Hv'. destruct (decide (c = b)) as [|Hn]; [done|].
    destruct (Hb _ (code_in_blocks b v Hv)) as (_ & _ & Hone & _). rewrite Forall_forall in Hone.
    specialize (Hone _ (code_in_blocks c v Hv') Hn). rewrite Forall_forall in Hone. by destruct (Hone v Hv).
  - intros b pre i post d v _ E Hi Hv Hd. destruct (Hin b) as [H|H]; [|rewrite H in E; by destruct pre].
    destruct (Hb _ H) as (_ & _ & _ & Hu).
    destruct (uses_checked_spec b [] _ pre i post v d Hu E Hi Hv Hd) as [?%elem_of_nil|]; done.
  - intros b c d v Hr He (i & inc & k & Hi & Ei & Hk & Hv & _) Hd.
    assert (Hr' : b ∈ reached) by (apply closure_spec; [done|by apply reach_closed]).
    specialize (Hphi b ltac:(by apply elem_of_elements)). rewrite Forall_forall in Hphi.
    specialize (Hphi c He). rewrite Forall_forall in Hphi.
    specialize (Hphi i ltac:(rewrite (phis_split (code F c)); apply elem_of_app; by left)).
    unfold phi_checked in Hphi. rewrite Ei, Forall_forall in Hphi.
    apply dominance_spec. apply (where_defined_spec v (fun d => dominance_checked d b) d); [|done]. apply (Hphi (b, v)); [|done].
    apply list_elem_of_lookup. exists k. apply lookup_zip_Some. done.
Qed.

Lemma checked_laws o class : cfg_checked -> ssa_checked -> CfgLaws F A /\ StrictSSA o class F.
Proof. intros Hc Hs. split; [by apply cfg_checked_laws|]. apply ssa_checked_strict; [apply Hc|done]. Qed.

End Check.
