(* ===== verification/LiveResults.v ===== *)
(** * What the live-value analysis gives its users

    At a call the analysis reports live values only, and, on functions that the
    two omissions of the source do not concern, exactly the live values.  The
    omissions are shown on two functions. *)

From S2P Require Import Prelude IR LoopNest LiveValues Cfg LiveSpec LiveProof CfgCheck.

#[local] Open Scope nat_scope.

(** ** Definitions *)

(** The empty results of a new pass. *)
Definition no_results : live_values := LV ∅ ∅.

Definition phi (v : value) (inc : list (block * value)) : instr := Instr v (PHINode inc.*1) inc.*2.
Definition call (v : value) (ops : list value) : instr := Instr v (CallInst false false) ops.
Definition other (v : value) (ops : list value) : instr := Instr v OtherOp ops.

(** Block [b] as an operand is value [80 + b]; 90 is a constant, 1 an argument. *)
Definition sample_class (v : value) : value_class :=
  if 90 <=? v then ConstantValue else if 80 <=? v then BasicBlockValue
  else if v =? 1 then ArgumentValue else OtherInst.

(** [for(i = 0; i < n; i++) call(i)]; the call is in block 2. *)
Definition counting_loop : func := Func 0 [0; 1; 2; 3]
  (list_to_map [
    (0, [other 20 [81]]);
    (1, [phi 10 [(0, 90); (2, 12)]; other 13 [10; 1]; other 21 [13; 82; 83]]);
    (2, [call 11 [10; 91]; other 12 [10; 92]; other 22 [81]]);
    (3, [other 23 [1]])])
  (list_to_map [(0, [1]); (1, [2; 3]); (2, [1])]).

Definition counting_analyses : analyses := Analyses [2; 3; 1; 0] {[(2, 1)]} [[3]; [2; 1]; [0]]
  (LI [Loop 1 [1; 2] 1 None] (list_to_map [(1, 0); (2, 0)])).

(** [do { x = x + 1; call(); } while(...)]: a block that is its own successor. *)
Definition self_loop : func := Func 0 [0; 1; 2]
  (list_to_map [
    (0, [other 20 [81]]);
    (1, [phi 10 [(0, 90); (1, 12)]; other 12 [10; 91]; call 11 []; other 21 [1; 81; 82]]);
    (2, [other 23 []])])
  (list_to_map [(0, [1]); (1, [1; 2])]).

Definition self_analyses : analyses := Analyses [2; 1; 0] {[(1, 1)]} [[2]; [1]; [0]]
  (LI [Loop 1 [1] 1 None] (list_to_map [(1, 0)])).

(** [for(i = 0; ...; i++) while(test(i)) call()]; the call is in block 3. *)
Definition nested_loops : func := Func 0 [0; 1; 2; 3; 4; 5]
  (list_to_map [
    (0, [other 20 [81]]);
    (1, [phi 10 [(0, 90); (4, 14)]; other 21 [1; 82; 85]]);
    (2, [other 12 [10; 91]; other 22 [12; 83; 84]]);
    (3, [call 11 []; other 23 [82]]);
    (4, [other 14 [10; 92]; other 24 [81]]);
    (5, [other 25 []])])
  (list_to_map [(0, [1]); (1, [2; 5]); (2, [3; 4]); (3, [2]); (4, [1])]).

Definition nested_analyses : analyses := Analyses [3; 4; 2; 5; 1; 0] {[(3, 2); (4, 1)]} [[5]; [4; 3; 2; 1]; [0]]
  (LI [Loop 1 [1; 2; 4; 3] 1 None; Loop 2 [2; 3] 2 (Some 0)] (list_to_map [(1, 0); (2, 1); (3, 1); (4, 0)])).

(** ** Lemmas *)

Lemma counting_laws : CfgLaws counting_loop counting_analyses /\ StrictSSA newLiveValues sample_class counting_loop.
Proof. apply checked_laws; apply (bool_decide_unpack _); vm_compute; exact I. Qed.

Lemma self_laws : CfgLaws self_loop self_analyses /\ StrictSSA newLiveValues sample_class self_loop.
Proof. apply checked_laws; apply (bool_decide_unpack _); vm_compute; exact I. Qed.

Lemma nested_laws : CfgLaws nested_loops nested_analyses /\ StrictSSA newLiveValues sample_class nested_loops.
Proof. apply checked_laws; apply (bool_decide_unpack _); vm_compute; exact I. Qed.

Lemma counting_no_self : no_self_phi newLiveValues sample_class counting_loop.
Proof.
  intros b v Hb (i & inc & k & Hi & Ei & Hk & _). destruct counting_laws as [HC _].
  apply (po_reachable counting_loop counting_analyses) in Hb. cbn in Hb.
  repeat apply elem_of_cons in Hb as [->|Hb]; [..|by apply elem_of_nil in Hb]; try (by apply elem_of_nil in Hi).
  apply list_elem_of_singleton in Hi as ->. injection Ei as <-. by destruct k as [|[|[|k]]].
Qed.

Lemma counting_no_stale : no_stale_phi newLiveValues sample_class counting_loop counting_analyses.
Proof. intros l l' v [[|[|i]] Hl] [[|[|j]] Hl'] _ _ _ Hp; try done. congruence. Qed.

(** ** Properties *)

(** C16: the live-value analysis is correct: on every function in SSA form with a
    reducible control-flow graph, for what LLVM's own analyses give about it,
    [runOnFunction] returns, and for every instruction that can be reached and
    is no phi-node [getLiveValues] returns only values that some path uses after
    the instruction before they are defined again.  If moreover no block passes
    a value to a phi-node of itself, and no value that is live into the header of
    a loop is the result of a phi-node of another header in the same component,
    then it returns all of them; that is, one traversal without the back edges
    and one propagation per loop nest compute the least solution of the data-flow
    equations. *)
Theorem live_values_correct o class F A f lv :
  CfgLaws F A -> StrictSSA o class F -> FuncBBLiveIn lv !! f = None ->
  exists fuel0, forall fuel, fuel0 <= fuel ->
  exists lv', runOnFunction o class F A fuel f lv = Ret lv' /\
  forall b pre i post, reachable F b -> code F b = pre ++ i :: post -> isPHI i = false ->
  exists s, getLiveValues o class F lv' f b (i_val i) = Ret s /\
    (forall v, v ∈ s -> live_across o class F b (i_val i) v) /\
    (no_self_phi o class F -> no_stale_phi o class F A -> forall v, live_across o class F b (i_val i) v -> v ∈ s).
Proof.
  intros HC HS Hf. destruct (runOnFunction_live o class F A f lv Hf) as [fuel0 Hrun].
  exists fuel0. intros fuel Hfuel. destruct (Hrun fuel Hfuel) as (lv' & E & Hget). exists lv'. split; [done|].
  intros b pre i post Hb Ec Hi. destruct (Hget b pre i post Hb Ec Hi) as (s & Es & Hs & Hs').
  exists s. split; [done|]. split; [done|]. intros Hself Hstale v. by apply Hs'.
Qed.

(** What the analysis misses.  A block that is its own successor: the
    self edge is skipped, and a value that the block's phi-node takes from the
    block itself is not reported at a call after its definition.  Nested loops:
    [phiDefined] is not cleared between the headers, and the outer loop's
    induction variable, tested by the inner loop, is not reported at a call in
    the inner loop's body.  Both values are live across the call. *)
Theorem live_values_missed :
  let missed F A b inst v :=
    CfgLaws F A /\ StrictSSA newLiveValues sample_class F /\
    live_across newLiveValues sample_class F b inst v /\
    exists lv s, runOnFunction newLiveValues sample_class F A 10 0 no_results = Ret lv /\
      getLiveValues newLiveValues sample_class F lv 0 b inst = Ret s /\ v ∉ s in
  missed self_loop self_analyses 1 11 12 /\ missed nested_loops nested_analyses 3 11 10.
Proof.
  cbn zeta. split.
  - destruct self_laws as [HC HS]. do 2 (split; [done|]). split.
    + split; [done|]. exists [phi 10 [(0, 90); (1, 12)]; other 12 [10; 91]], (call 11 []), [other 21 [1; 81; 82]].
      do 3 (split; [done|]). right. split; [|by intros [?|?%elem_of_nil]%elem_of_cons].
      exists 1. split; [by left|]. left. exists (phi 10 [(0, 90); (1, 12)]), [0; 1], 1. repeat split. by left.
    + do 2 eexists. split; [vm_compute; reflexivity|]. split; [vm_compute; reflexivity|].
      apply (bool_decide_unpack _). vm_compute. exact I.
  - destruct nested_laws as [HC HS]. do 2 (split; [done|]). split.
    + split; [done|]. exists [], (call 11 []), [other 23 [82]].
      do 3 (split; [done|]). right. split; [|by intros [?|?%elem_of_nil]%elem_of_cons].
      exists 2. split; [by left|]. right. split; [|by intros [_ ?%elem_of_nil]].
      apply live_here. exists [], (other 12 [10; 91]), [other 22 [12; 83; 84]]. split; [done|].
      split; [by left|]. split; [done|]. by intros ?%elem_of_nil.
    + do 2 eexists. split; [vm_compute; reflexivity|]. split; [vm_compute; reflexivity|].
      apply (bool_decide_unpack _). vm_compute. exact I.
Qed.

(** ** Witnesses *)

(** The index, used again in the block, and the bound, used in the next round. *)
Lemma live_values_correct_witness : exists fuel lv' s,
  runOnFunction newLiveValues sample_class counting_loop counting_analyses fuel 0 no_results = Ret lv' /\
  getLiveValues newLiveValues sample_class counting_loop lv' 0 2 11 = Ret s /\
  (forall v, v ∈ s <-> live_across newLiveValues sample_class counting_loop 2 11 v) /\ 10 ∈ s.
Proof.
  destruct (live_values_correct newLiveValues sample_class counting_loop counting_analyses 0 no_results
    (proj1 counting_laws) (proj2 counting_laws) eq_refl) as [fuel Hrun].
  destruct (Hrun fuel (le_n _)) as (lv' & E & Hget). exists fuel, lv'.
  destruct (Hget 2 [] (call 11 [10; 91]) [other 12 [10; 92]; other 22 [81]]) as (s & Es & Hs & Hs'); [|done|done|].
  { apply (reached_spec _ counting_analyses); [apply (bool_decide_unpack _)|apply (bool_decide_unpack _)]; vm_compute; exact I. }
  specialize (Hs' counting_no_self counting_no_stale).
  exists s. split; [done|]. split; [done|]. split; [intros v; split; [apply Hs|apply Hs']|]. apply Hs'. split; [done|].
  exists [], (call 11 [10; 91]), [other 12 [10; 92]; other 22 [81]]. do 3 (split; [done|]). left.
  exists [], (other 12 [10; 92]), [other 22 [81]]. split; [done|]. split; [by left|]. split; [done|].
  by intros ?%elem_of_nil.
Defined.
