(* ===== verification/InsertStackMaps.v ===== *)
(** * Inserting stack maps (src/patches/llvm/src: InsertStackMaps.cpp)

    The pass that puts a call of llvm.experimental.stackmap, with the live
    values as arguments, after every call of a module.  Names, addresses and
    dominance of values are LLVM's; new calls get new values.  The two constant
    arguments of a stack map, its ID and 0, are in its opcode. *)

From Stdlib Require Import String OrdersEx.
From S2P Require Import Prelude IR LoopNest LiveValues.

#[local] Open Scope nat_scope.

(** ** Definitions *)

(** The pass's counters, and the next new value. *)
Record ism_state := ISM { callSiteID : nat; numInstrumented : nat; next_value : value }.

Definition set_code (b : block) (insts : list instr) (F : func) : func :=
  Func (f_entry F) (f_layout F) (<[b := insts]> (f_code F)) (f_succs F).

(** All instructions of a function. *)
Definition instrs (F : func) : list instr := f_layout F ≫= code F.

(** [isa<Instruction>] *)
Definition is_instruction (c : value_class) : bool :=
  match c with BitCastInst | CmpInst | OtherInst => true | _ => false end.

Definition is_stackmap (i : instr) : bool := match i_op i with StackMap _ => true | _ => false end.

(** A call that is neither inline assembly nor an intrinsic. *)
Definition is_call_site (i : instr) : bool := match i_op i with CallInst false false => true | _ => false end.

Section Pass.
Context (o : options) (class : value -> value_class).
Context (name : value -> string) (addr : value -> Z).
Context (DT : nat -> value -> value -> bool).   (* DominatorTree::dominates, for a function *)
Context (analysis_of : func -> analyses) (fuel : nat) (NoLiveVals : bool).

Definition hasName (v : value) : bool := negb (String.eqb (name v) EmptyString).

Definition ValueComp (a b : value) : bool :=
  if hasName a && hasName b
  then match String_as_OT.compare (name a) (name b) with Lt => true | _ => false end
  else if hasName a then true
  else if hasName b then false
  else (addr a <? addr b)%Z.

(** [insert] into a [std::set] ordered by [ValueComp]. *)
Fixpoint set_insert (v : value) (s : list value) : list value :=
  match s with
  | [] => [v]
  | x :: s' => if ValueComp v x then v :: s else if ValueComp x v then x :: set_insert v s' else s
  end.

Definition set_inserts (vs : list value) (s : list value) : list value := foldl (fun s v => set_insert v s) s vs.

(** *** Values hidden from the analysis *)

Definition hidesValues (i : instr) : bool :=
  match i_op i with AccessInst | ICmpInst => true | _ => false end.

Definition hidden_operand (st : gset value * gset value) (v : value) : gset value * gset value :=
  if is_instruction (class v) then ({[v]} ∪ st.1, st.2)
  else if bool_decide (class v = ArgumentValue) then (st.1, {[v]} ∪ st.2) else st.

Definition getHiddenVals (F : func) : gset value * gset value :=
  foldl (fun st i => if hidesValues i then foldl hidden_operand st (i_operands i) else st) (∅, ∅) (instrs F).

Definition hasLiveUser (F : func) (v : value) (live : gset value) : bool :=
  existsb (fun i => bool_decide (v ∈ i_operands i) && bool_decide (i_val i ∈ live)) (instrs F).

(** The arguments of the stack map at call [c]. *)
Definition stackmap_values (f : nat) (F : func) (hidden : gset value * gset value) (c : value) (live : gset value) :
    list value :=
  let sorted := set_inserts (elements live) [] in
  let sorted := set_inserts (filter (fun v => DT f v c && hasLiveUser F v live) (elements hidden.1)) sorted in
  set_inserts (filter (fun v => hasLiveUser F v live) (elements hidden.2)) sorted.

(** *** Instrumenting *)

(** The instructions [rest] of block [b], after [before].  The iterator goes on
    to the inserted call, which is an intrinsic. *)
Fixpoint instrument_block (lv : live_values) (f : nat) (hidden : gset value * gset value) (b : block)
    (before rest : list instr) (F : func) (st : ism_state) : outcome (func * ism_state) :=
  match rest with
  | [] => Ret (F, st)
  | i :: rest =>
      if is_call_site i
      then match rest with
        | [] => Fault
        | _ =>
          args ← (if NoLiveVals then Ret []
                  else live ← getLiveValues o class F lv f b (i_val i);
                       Ret (stackmap_values f F hidden (i_val i) live));
          let sm := Instr (next_value st) (StackMap (callSiteID st)) args in
          instrument_block lv f hidden b (before ++ [i; sm]) rest (set_code b (before ++ i :: sm :: rest) F)
            (ISM (callSiteID st + 1) (numInstrumented st + 1) (next_value st + 1))
        end
      else instrument_block lv f hidden b (before ++ [i]) rest F st
  end.

Fixpoint instrument_blocks (lv : live_values) (f : nat) (hidden : gset value * gset value) (bs : list block)
    (F : func) (st : ism_state) : outcome (func * ism_state) :=
  match bs with
  | [] => Ret (F, st)
  | b :: bs =>
      '(F, st) ← instrument_block lv f hidden b [] (code F b) F st;
      instrument_blocks lv f hidden bs F st
  end.

(** A function with a body. *)
Definition instrument_function (f : nat) (F : func) (lv : live_values) (st : ism_state) :
    outcome (func * live_values * ism_state) :=
  lv ← runOnFunction o class F (analysis_of F) fuel f lv;
  '(F, st) ← instrument_blocks lv f (getHiddenVals F) (f_layout F) F st;
  Ret (F, lv, ISM 0 (numInstrumented st) (next_value st)).

(** *** Old stack maps *)

(** [i = i->eraseFromParent()->getPrevNode()] needs an instruction before and
    one after. *)
Fixpoint remove_stackmaps (before rest : list instr) : outcome (list instr * bool) :=
  match rest with
  | [] => Ret (before, false)
  | i :: rest =>
      if is_stackmap i
      then match before, rest with
        | [], _ | _, [] => Fault
        | _, _ => '(insts, _) ← remove_stackmaps before rest; Ret (insts, true)
        end
      else remove_stackmaps (before ++ [i]) rest
  end.

Fixpoint remove_in_blocks (bs : list block) (F : func) : outcome (func * bool) :=
  match bs with
  | [] => Ret (F, false)
  | b :: bs =>
      '(insts, m1) ← remove_stackmaps [] (code F b);
      '(F, m2) ← remove_in_blocks bs (set_code b insts F);
      Ret (F, m1 || m2)
  end.

(** *** The module: its functions, without a body for declarations *)

Record module := Module { m_functions : list (nat * option func); m_stackmap_declared : bool }.

Definition addSMDeclaration (M : module) : module * bool :=
  if m_stackmap_declared M then (M, false) else (Module (m_functions M) true, true).

Fixpoint removeOldStackmaps (fs : list (nat * option func)) : outcome (list (nat * option func) * bool) :=
  match fs with
  | [] => Ret ([], false)
  | (f, body) :: fs =>
      '(body, m1) ← (match body with
                     | Some F => '(F, m) ← remove_in_blocks (f_layout F) F; Ret (Some F, m)
                     | None => Ret (None, false)
                     end);
      '(fs, m2) ← removeOldStackmaps fs;
      Ret ((f, body) :: fs, m1 || m2)
  end.

Fixpoint instrument_functions (fs : list (nat * option func)) (lv : live_values) (st : ism_state) :
    outcome (list (nat * option func) * live_values * ism_state) :=
  match fs with
  | [] => Ret ([], lv, st)
  | (f, None) :: fs =>
      '(fs, lv, st) ← instrument_functions fs lv st; Ret ((f, None) :: fs, lv, st)
  | (f, Some F) :: fs =>
      '(F, lv, st) ← instrument_function f F lv st;
      '(fs, lv, st) ← instrument_functions fs lv st;
      Ret ((f, Some F) :: fs, lv, st)
  end.

(** The module, the analysis' results, the counters, and whether the module was
    modified. *)
Definition runOnModule (M : module) (lv : live_values) (st : ism_state) :
    outcome (module * live_values * ism_state * bool) :=
  let '(M, added) := addSMDeclaration M in
  '(fs, removed) ← removeOldStackmaps (m_functions M);
  '(fs, lv, st) ← instrument_functions fs lv st;
  Ret (Module fs (m_stackmap_declared M), lv, st, added || removed || (0 <? numInstrumented st)).

End Pass.
