(* ===== verification/InsertProof.v ===== *)
(** * Every call gets the stack map of its live values

    The pass of [InsertStackMaps] over a function, with the analysis of
    [LiveValues]: the code is the old one with a stack map after every call,
    numbered in order, whose arguments are the live values and those that a
    live value hides, in the order of their names. *)

From Stdlib Require Import String OrdersEx.
From stdpp Require Import sorting.
From S2P Require Import Prelude IR LoopNest LiveValues Cfg LiveSpec LiveProof InsertStackMaps CfgCheck LiveResults.

#[local] Open Scope nat_scope.

Section Proof.
Context (o : options) (class : value -> value_class).
Context (name : value -> string) (addr : value -> Z) (DT : nat -> value -> value -> bool).

Abbreviation ValueComp := (ValueComp name addr).

(** ** Definitions *)

(** [new] is [old] with an instruction that [P] relates to it after each call
    site. *)
Inductive woven (P : instr -> instr -> Prop) : list instr -> list instr -> Prop :=
  | woven_nil : woven P [] []
  | woven_other i old new : is_call_site i = false -> woven P old new -> woven P (i :: old) (i :: new)
  | woven_call i sm old new : is_call_site i = true -> P i sm -> woven P old new ->
      woven P (i :: old) (i :: sm :: new).

(** Operand of an instruction that hides it, and of one whose result is live
    across the call. *)
Definition hidden_at (f : nat) (F : func) (b : block) (c v : value) : Prop :=
  (exists i, i ∈ instrs F /\ hidesValues i = true /\ v ∈ i_operands i) /\
  (is_instruction (class v) = true /\ DT f v c = true \/ class v = ArgumentValue) /\
  exists i, i ∈ instrs F /\ v ∈ i_operands i /\ live_across o class F b c (i_val i).

Definition sorted (vs : list value) : Prop := StronglySorted (fun a b => ValueComp a b = true) vs.

Definition stackmap_of (f : nat) (F : func) (b : block) (i sm : instr) : Prop :=
  is_stackmap sm = true /\ sorted (i_operands sm) /\
  forall v, v ∈ i_operands sm <-> live_across o class F b (i_val i) v \/ hidden_at f F b (i_val i) v.

Definition stackmap_ids (insts : list instr) : list nat :=
  omap (fun i => match i_op i with StackMap id => Some id | _ => None end) insts.

(** What LLVM ensures of a function: its values have different names and
    addresses, blocks end with something else than a call, names in the map of
    blocks are unique; and values from [n] on are new. *)
Record well_formed (F : func) (n : value) : Prop := {
  wf_layout : NoDup (f_layout F);
  wf_all b i : i ∈ code F b -> b ∈ f_layout F;
  wf_names v w : v ∈ (instrs F ≫= i_operands) -> w ∈ (instrs F ≫= i_operands) ->
    v <> w -> name v <> name w \/ name v = EmptyString /\ addr v <> addr w;
  wf_last b pre i : code F b = pre ++ [i] -> is_call_site i = false;
  wf_new i : i ∈ instrs F -> i_val i < n;
  wf_operands v : v ∈ (instrs F ≫= i_operands) -> v < n;
  wf_no_stackmaps : stackmap_ids (instrs F) = []
}.

(** ** Lemmas *)

(** *** Sorting *)

Lemma name_compare_spec a b : CompSpec eq String_as_OT.lt (name a) (name b) (String_as_OT.compare (name a) (name b)).
Proof. apply String_as_OT.compare_spec. Qed.

Lemma ValueComp_total a b : name a <> name b \/ name a = EmptyString /\ addr a <> addr b ->
  ValueComp a b = true \/ ValueComp b a = true.
Proof.
  unfold InsertStackMaps.ValueComp, hasName.
  destruct (String.eqb_spec (name a) EmptyString) as [Ea|Ea], (String.eqb_spec (name b) EmptyString) as [Eb|Eb]; cbn.
  - rewrite Ea, Eb. intros [|[_ Hn]]; [done|]. rewrite !Z.ltb_lt. lia.
  - intros _. by right.
  - intros _. by left.
  - intros [Hn|[? _]]; [|done]. destruct (name_compare_spec a b) as [|Hlt|Hlt]; [done|by left|right].
    unfold String_as_OT.lt in Hlt. by rewrite Hlt.
Qed.

Lemma ValueComp_trans a b c : ValueComp a b = true -> ValueComp b c = true -> ValueComp a c = true.
Proof.
  unfold InsertStackMaps.ValueComp, hasName.
  destruct (String.eqb_spec (name a) EmptyString) as [Ea|Ea], (String.eqb_spec (name b) EmptyString) as [Eb|Eb],
    (String.eqb_spec (name c) EmptyString) as [Ec|Ec]; cbn; try done.
  - rewrite !Z.ltb_lt. lia.
  - intros H1 H2. assert (Hac : String_as_OT.lt (name a) (name c)); [|by rewrite Hac].
    apply (StrictOrder_Transitive _ (name b)); unfold String_as_OT.lt; [by destruct (String_as_OT.compare (name a) _)|].
    by destruct (String_as_OT.compare (name b) _).
Qed.

Lemma set_insert_elem v s x : x ∈ set_insert name addr v s -> x = v \/ x ∈ s.
Proof.
  induction s as [|y s IH]; cbn; [intros ->%list_elem_of_singleton; by left|].
  destruct (ValueComp v y); [by intros [->|]%elem_of_cons; [left|right]|].
  destruct (ValueComp y v); [|by right]. intros [->|Hx]%elem_of_cons; [right; by left|].
  destruct (IH Hx); [by left|right; by right].
Qed.

Lemma set_insert_sorted v s : sorted s -> sorted (set_insert name addr v s).
Proof.
  induction 1 as [|y s Hs IH Hall]; cbn; [constructor; [constructor|done]|].
  destruct (ValueComp v y) eqn:Evy.
  - constructor; [by constructor|]. constructor; [done|]. eapply Forall_impl; [done|]. intros x. by apply ValueComp_trans.
  - destruct (ValueComp y v) eqn:Eyv; [|by constructor]. constructor; [done|].
    rewrite Forall_forall in *. intros x [->|Hx]%set_insert_elem; [done|by apply Hall].
Qed.

Definition comparable (v w : value) : Prop := v = w \/ ValueComp v w = true \/ ValueComp w v = true.

Lemma set_insert_in v s x : (forall y, y ∈ s -> comparable v y) -> x = v \/ x ∈ s -> x ∈ set_insert name addr v s.
Proof.
  induction s as [|y s IH]; intros Hc Hx; cbn.
  { destruct Hx as [->|?%elem_of_nil]; [by left|done]. }
  destruct (ValueComp v y) eqn:Evy; [by apply elem_of_cons|].
  destruct (ValueComp y v) eqn:Eyv.
  - destruct Hx as [->|[->|Hx]%elem_of_cons]; [right; apply IH; [|by left]|by left|right; apply IH; [|by right]];
      intros z Hz; apply Hc; by right.
  - destruct Hx as [->|]; [|done]. destruct (Hc y) as [->|[E|E]]; [by left|by left|congruence..].
Qed.

(** Insertion of values among pairwise comparable ones. *)
Lemma set_inserts_spec vs s : (forall x y, x ∈ vs ++ s -> y ∈ vs ++ s -> comparable x y) -> sorted s ->
  sorted (set_inserts name addr vs s) /\ forall x, x ∈ set_inserts name addr vs s <-> x ∈ vs \/ x ∈ s.
Proof.
  revert s. induction vs as [|v vs IH]; intros s Hc Hs; cbn [set_inserts foldl].
  { split; [done|]. intros x. split; [by right|]. by intros [?%elem_of_nil|]. }
  assert (Hin : forall x, x ∈ set_insert name addr v s <-> x = v \/ x ∈ s).
  { intros x. split; [apply set_insert_elem|]. apply set_insert_in. intros y Hy. apply Hc; [by left|].
    apply elem_of_app. by right. }
  destruct (IH (set_insert name addr v s)) as [Hsort Hel]; [|by apply set_insert_sorted|].
  - intros x y Hx Hy. apply Hc; (apply elem_of_app in Hx as [|[->|]%Hin]; apply elem_of_app in Hy as [|[->|]%Hin]);
      cbn; rewrite elem_of_cons, elem_of_app; tauto.
  - split; [done|]. intros x. unfold set_inserts in Hel. rewrite Hel, Hin, elem_of_cons. tauto.
Qed.

(** *** Hidden values *)

Lemma hidden_operands_spec ops st : 
  (forall v, v ∈ (foldl (hidden_operand class) st ops).1 <-> v ∈ st.1 \/ v ∈ ops /\ is_instruction (class v) = true) /\
  (forall v, v ∈ (foldl (hidden_operand class) st ops).2 <-> v ∈ st.2 \/ v ∈ ops /\ class v = ArgumentValue).
Proof.
  revert st. induction ops as [|w ops IH]; intros st; cbn [foldl].
  { split; intros v; (split; [by left|]); by intros [|[?%elem_of_nil _]]. }
  destruct (IH (hidden_operand class st w)) as [H1 H2].
  assert (Hne : forall c, is_instruction c = true -> c <> ArgumentValue) by (by intros [] ?).
  split; intros v; [rewrite H1|rewrite H2]; rewrite elem_of_cons; unfold hidden_operand.
  - destruct (is_instruction (class w)) eqn:Ew; [cbn; rewrite elem_of_union, elem_of_singleton; naive_solver|].
    destruct (bool_decide _); cbn; naive_solver congruence.
  - destruct (is_instruction (class w)) eqn:Ew; [cbn; specialize (Hne _ Ew); naive_solver|].
    case_bool_decide; cbn; [rewrite elem_of_union, elem_of_singleton|]; naive_solver.
Qed.

Definition hides (F : func) (v : value) : Prop := exists i, i ∈ instrs F /\ hidesValues i = true /\ v ∈ i_operands i.

Lemma getHiddenVals_spec F :
  (forall v, v ∈ (getHiddenVals class F).1 <-> hides F v /\ is_instruction (class v) = true) /\
  (forall v, v ∈ (getHiddenVals class F).2 <-> hides F v /\ class v = ArgumentValue).
Proof.
  unfold getHiddenVals, hides.
  enough (H : forall insts st, let st' := foldl (fun st i => if hidesValues i then foldl (hidden_operand class) st (i_operands i) else st) st insts in
    (forall v, v ∈ st'.1 <-> v ∈ st.1 \/ (exists i, i ∈ insts /\ hidesValues i = true /\ v ∈ i_operands i) /\ is_instruction (class v) = true) /\
    (forall v, v ∈ st'.2 <-> v ∈ st.2 \/ (exists i, i ∈ insts /\ hidesValues i = true /\ v ∈ i_operands i) /\ class v = ArgumentValue)).
  { destruct (H (instrs F) (∅, ∅)) as [H1 H2]. split; intros v; [rewrite H1|rewrite H2]; cbn; set_solver. }
  induction insts as [|i insts IH]; intros st; cbn [foldl].
  { split; intros v; (split; [by left|]); by intros [|[(? & ?%elem_of_nil & _) _]]. }
  specialize (IH (if hidesValues i then foldl (hidden_operand class) st (i_operands i) else st)).
  destruct IH as [H1 H2]. destruct (hidden_operands_spec (i_operands i) st) as [G1 G2].
  split; intros v; [rewrite H1|rewrite H2]; setoid_rewrite elem_of_cons; destruct (hidesValues i) eqn:Ei;
    rewrite ?G1, ?G2; naive_solver congruence.
Qed.

(** *** The function while it is instrumented *)

(** Its instructions from before, with new ones from [n] on. *)
Record same_old (n : value) (F0 F : func) : Prop := {
  sa_layout : f_layout F = f_layout F0;
  sa_succs : f_succs F = f_succs F0;
  sa_entry : f_entry F = f_entry F0;
  sa_code b : b ∈ f_layout F0 -> filter (fun i => i_val i < n) (code F b) = code F0 b;
}.

Lemma code_set_code b insts F c : code (set_code b insts F) c = if decide (b = c) then insts else code F c.
Proof. unfold code, set_code. cbn. by case_decide; subst; rewrite ?lookup_insert_eq, ?lookup_insert_ne. Qed.

Lemma in_instrs F i : i ∈ instrs F <-> exists b, b ∈ f_layout F /\ i ∈ code F b.
Proof. unfold instrs. rewrite list_elem_of_bind. naive_solver. Qed.

Lemma hasLiveUser_spec n F0 F v live : same_old n F0 F -> (forall w, w ∈ live -> w < n) ->
  hasLiveUser F v live = true <-> exists i, i ∈ instrs F0 /\ v ∈ i_operands i /\ i_val i ∈ live.
Proof.
  intros Hsame Hlive. unfold hasLiveUser. rewrite existsb_exists. split.
  - intros (i & Hi%list_elem_of_In & Hb). apply andb_true_iff in Hb as [Hv Hl].
    apply bool_decide_eq_true in Hv, Hl. exists i. split; [|done]. apply in_instrs in Hi as (b & Hb & Hi).
    rewrite (sa_layout _ _ _ Hsame) in Hb. apply in_instrs. exists b. split; [done|].
    rewrite <- (sa_code _ _ _ Hsame b Hb). apply list_elem_of_filter. split; [by apply Hlive|done].
  - intros (i & Hi & Hv & Hl). exists i. rewrite !bool_decide_true by done. split; [|done].
    apply list_elem_of_In, in_instrs. apply in_instrs in Hi as (b & Hb & Hi).
    exists b. rewrite (sa_layout _ _ _ Hsame). split; [done|].
    rewrite <- (sa_code _ _ _ Hsame b Hb) in Hi. by apply list_elem_of_filter in Hi as [_ ?].
Qed.

(** The walk from the end of the block does not see what is before the call. *)
Lemma live_after_suffix i pre pre' post live : i_val i ∉ i_val <$> post ->
  live_after o class (i_val i) (reverse (pre ++ i :: post)) live =
  live_after o class (i_val i) (reverse (pre' ++ i :: post)) live.
Proof.
  revert live. induction post as [|j post IH] using rev_ind; intros live Hn.
  - rewrite !reverse_app. cbn. by rewrite Nat.eqb_refl.
  - rewrite !app_comm_cons, !app_assoc, !reverse_snoc. cbn [live_after].
    rewrite fmap_app in Hn. apply not_elem_of_app in Hn as [Hn Hj].
    destruct (Nat.eqb_spec (i_val j) (i_val i)) as [E|_]; [destruct Hj; rewrite <- E; by left|]. by apply IH.
Qed.

Lemma filter_old n (insts : list instr) : (forall i, i ∈ insts -> i_val i < n) -> filter (fun i => i_val i < n) insts = insts.
Proof.
  induction insts as [|i insts IH]; intros H; [done|]. rewrite filter_cons, decide_True by (apply H; by left).
  f_equal. apply IH. intros j Hj. apply H. by right.
Qed.

Lemma operands_in F v : v ∈ (instrs F ≫= i_operands) <-> exists i, i ∈ instrs F /\ v ∈ i_operands i.
Proof. rewrite list_elem_of_bind. naive_solver. Qed.

Section Function.
Context (f : nat) (F0 : func) (lv : live_values) (fuel : nat) (n : value).
Context (Hwf : well_formed F0 n) (HSSA : StrictSSA o class F0).
Context (Hlayout : forall b, b ∈ f_layout F0 -> (exists i, i ∈ code F0 b /\ is_call_site i = true) -> reachable F0 b).
Context (Hlive : forall b pre i post, reachable F0 b -> code F0 b = pre ++ i :: post -> isPHI i = false ->
  exists s, getLiveValues o class F0 lv f b (i_val i) = Ret s /\
    forall v, v ∈ s <-> live_across o class F0 b (i_val i) v).
(** A live value is an operand. *)
Context (Hused : forall b c v, live_across o class F0 b c v -> v ∈ (instrs F0 ≫= i_operands)).

Abbreviation hidden := (getHiddenVals class F0).
Abbreviation run_block := (instrument_block o class name addr DT false lv f hidden).


Lemma stackmap_values_spec F b i s : same_old n F0 F -> (forall v, v ∈ s <-> live_across o class F0 b (i_val i) v) ->
  sorted (stackmap_values name addr DT f F hidden (i_val i) s) /\
  forall v, v ∈ stackmap_values name addr DT f F hidden (i_val i) s <->
    live_across o class F0 b (i_val i) v \/ hidden_at f F0 b (i_val i) v.
Proof using Hwf Hused.
  intros Hsame Hs. destruct (getHiddenVals_spec F0) as [H1 H2].
  assert (Hu : forall v, hasLiveUser F v s = true <->
    exists j, j ∈ instrs F0 /\ v ∈ i_operands j /\ live_across o class F0 b (i_val i) (i_val j)).
  { intros v. setoid_rewrite <- Hs. apply (hasLiveUser_spec n); [done|].
    intros w Hw%Hs%Hused. by apply (wf_operands _ _ Hwf). }
  assert (Hin : forall v, v ∈ elements s \/ hides F0 v -> v ∈ (instrs F0 ≫= i_operands)).
  { intros v [Hv%elem_of_elements%Hs|(j & Hj & _ & Hv)]; [by eapply Hused|]. apply operands_in. by exists j. }
  assert (Hcomp : forall v w, v ∈ elements s \/ hides F0 v -> w ∈ elements s \/ hides F0 w -> comparable v w).
  { intros v w Hv%Hin Hw%Hin. destruct (decide (v = w)) as [->|Hn]; [by left|right].
    apply ValueComp_total. by apply (wf_names _ _ Hwf). }
  unfold stackmap_values.
  destruct (set_inserts_spec (elements s) []) as [S1 E1]; [|constructor|].
  { intros x y Hx Hy. rewrite app_nil_r in *. apply Hcomp; by left. }
  set (s1 := set_inserts name addr (elements s) []) in *.
  destruct (set_inserts_spec (filter (fun v => DT f v (i_val i) && hasLiveUser F v s) (elements hidden.1)) s1) as [S2 E2]; [|done|].
  { assert (Hall : forall x, x ∈ filter (fun v => DT f v (i_val i) && hasLiveUser F v s) (elements hidden.1) ++ s1 ->
      x ∈ elements s \/ hides F0 x).
    { intros x [[_ [? _]%elem_of_elements%H1]%list_elem_of_filter|[?|?%elem_of_nil]%E1]%elem_of_app; [by right|by left|done]. }
    intros x y Hx%Hall Hy%Hall. by apply Hcomp. }
  set (s2 := set_inserts name addr _ s1) in *.
  destruct (set_inserts_spec (filter (fun v => hasLiveUser F v s) (elements hidden.2)) s2) as [S3 E3]; [|done|].
  { assert (Hall : forall x, x ∈ filter (fun v => hasLiveUser F v s) (elements hidden.2) ++ s2 ->
      x ∈ elements s \/ hides F0 x).
    { intros x [[_ [? _]%elem_of_elements%H2]%list_elem_of_filter|[[_ [? _]%elem_of_elements%H1]%list_elem_of_filter|[?|?%elem_of_nil]%E1]%E2]%elem_of_app;
        [by right|by right|by left|done]. }
    intros x y Hx%Hall Hy%Hall. by apply Hcomp. }
  split; [done|]. intros v. rewrite E3, E2, E1, !list_elem_of_filter, !elem_of_elements, H1, H2, Hs.
  rewrite Is_true_true, Is_true_true, andb_true_iff, Hu. unfold hidden_at. fold (hides F0 v).
  pose proof (not_elem_of_nil v). tauto.
Qed.

Lemma same_old_step F b before sm i rest : same_old n F0 F -> b ∈ f_layout F0 ->
  code F b = before ++ i :: rest -> n <= i_val sm -> same_old n F0 (set_code b (before ++ i :: sm :: rest) F).
Proof using.
  intros Hs Hb E Hsm. constructor; [apply Hs..|]. intros c Hc. rewrite code_set_code. case_decide as Ec; [|by apply Hs].
  subst c. rewrite <- (sa_code _ _ _ Hs b Hb), E, !filter_app. f_equal. rewrite !filter_cons.
  rewrite (decide_False (P := i_val sm < n)) by lia. done.
Qed.

(** A block, from [rest] on. *)
Lemma instrument_block_spec b before0 before rest F st :
  b ∈ f_layout F0 -> same_old n F0 F -> code F0 b = before0 ++ rest -> code F b = before ++ rest ->
  n <= next_value st ->
  exists F' st' new k, run_block b before rest F st = Ret (F', st') /\
    same_old n F0 F' /\ code F' b = before ++ new /\ (forall c, c <> b -> code F' c = code F c) /\
    woven (stackmap_of f F0 b) rest new /\ stackmap_ids new = seq (callSiteID st) k /\
    callSiteID st' = callSiteID st + k /\ numInstrumented st' = numInstrumented st + k /\
    next_value st' = next_value st + k.
Proof using Hwf HSSA Hlayout Hlive Hused.
  intros Hb. revert before0 before F st. induction rest as [|i rest IH]; intros before0 before F st Hs E0 E Hn.
  { exists F, st, [], 0. cbn. rewrite !Nat.add_0_r. repeat split; try done; [apply Hs..|constructor]. }
  assert (Hi : i ∈ instrs F0).
  { apply in_instrs. exists b. split; [done|]. rewrite E0. apply elem_of_app. right. by left. }
  assert (Hnosm : match i_op i with StackMap id => Some id | _ => None end = None).
  { pose proof (wf_no_stackmaps _ _ Hwf) as Hno. destruct (i_op i) as [| |id| | |] eqn:Eop; try done.
    assert (Hin : id ∈ stackmap_ids (instrs F0)) by (apply list_elem_of_omap; exists i; by rewrite Eop).
    rewrite Hno in Hin. by apply elem_of_nil in Hin. }
  cbn [instrument_block]. destruct (is_call_site i) eqn:Ecs; last first.
  { destruct (IH (before0 ++ [i]) (before ++ [i]) F st) as (F' & st' & new & k & Hrun & Hs' & E' & Hother & Hw & Hids & Hst');
      [done|by rewrite <- app_assoc..|done|].
    exists F', st', (i :: new), k. split; [done|]. split; [done|]. split; [by rewrite E', <- app_assoc|].
    split; [done|]. split; [by constructor|]. split; [|done]. unfold stackmap_ids in *. cbn. by rewrite Hnosm. }
  destruct rest as [|j rest]; [by rewrite (wf_last _ _ Hwf b before0 i E0) in Ecs|].
  set (rest' := j :: rest) in *.
  assert (Hr : reachable F0 b) by (apply Hlayout; [done|]; exists i; rewrite E0; split; [|done]; apply elem_of_app; right; by left).
  assert (Hphi : isPHI i = false) by (unfold isPHI; unfold is_call_site in Ecs; by destruct (i_op i)).
  destruct (Hlive b before0 i rest' Hr E0 Hphi) as (s & Hget & Hlv).
  assert (Hget' : getLiveValues o class F lv f b (i_val i) = Ret s).
  { rewrite <- Hget. unfold getLiveValues. destruct (getLiveOut lv f b) as [l| | |]; [|done..]. cbn [mbind outcome_bind].
    rewrite E, E0. apply live_after_suffix. pose proof (ssa_once o class F0 b) as Hnd.
    rewrite E0, fmap_app in Hnd. apply NoDup_app in Hnd as (_ & _ & Hnd). by apply NoDup_cons in Hnd as [? _]. }
  rewrite Hget'. cbn [mbind outcome_bind].
  set (sm := Instr (next_value st) (StackMap (callSiteID st)) (stackmap_values name addr DT f F hidden (i_val i) s)).
  destruct (IH (before0 ++ [i]) (before ++ [i; sm]) (set_code b (before ++ i :: sm :: rest') F)
    (ISM (callSiteID st + 1) (numInstrumented st + 1) (next_value st + 1)))
    as (F' & st' & new & k & Hrun & Hs' & E' & Hother & Hw & Hids & Hid & Hnum & Hnext).
  - by apply same_old_step.
  - by rewrite <- app_assoc.
  - rewrite code_set_code, decide_True by done. by rewrite <- app_assoc.
  - cbn. lia.
  - exists F', st', (i :: sm :: new), (S k). split; [done|]. split; [done|]. split; [by rewrite E', <- app_assoc|].
    split; [intros c Hc; rewrite Hother, code_set_code, decide_False by (done || by intros ->); done|].
    split; [constructor; [done| |done]|].
    + split; [done|]. by apply stackmap_values_spec.
    + cbn in Hid, Hnum, Hnext, Hids. split; [|lia]. unfold stackmap_ids in *. cbn. rewrite Hnosm. cbn.
      by rewrite Hids, Nat.add_1_r.
Qed.

Lemma instrument_blocks_spec bs F st :
  NoDup bs -> (forall b, b ∈ bs -> b ∈ f_layout F0 /\ code F b = code F0 b) -> same_old n F0 F -> n <= next_value st ->
  exists F' st' k, instrument_blocks o class name addr DT false lv f hidden bs F st = Ret (F', st') /\
    same_old n F0 F' /\ (forall b, b ∈ bs -> woven (stackmap_of f F0 b) (code F0 b) (code F' b)) /\
    (forall b, b ∉ bs -> code F' b = code F b) /\ stackmap_ids (bs ≫= code F') = seq (callSiteID st) k /\
    callSiteID st' = callSiteID st + k /\ numInstrumented st' = numInstrumented st + k /\
    next_value st' = next_value st + k.
Proof using Hwf HSSA Hlayout Hlive Hused.
  revert F st. induction bs as [|b bs IH]; intros F st Hnd Hbs Hs Hn.
  { exists F, st, 0. cbn. rewrite !Nat.add_0_r. split; [done|]. split; [done|]. split; [by intros b ?%elem_of_nil|done]. }
  apply NoDup_cons in Hnd as [Hb Hnd]. destruct (Hbs b) as [Hbl Eb]; [by left|].
  destruct (instrument_block_spec b [] [] (code F b) F st) as (F1 & st1 & new & k1 & Hrun & Hs1 & E1 & Ho1 & Hw & Hids & Hc1 & Hn1 & Hx1);
    [done|done|by rewrite Eb|done|done|].
  destruct (IH F1 st1) as (F' & st' & k & Hrun' & Hs' & Hw' & Ho' & Hids' & Hc' & Hn'); [done| |done|lia|].
  { intros c Hc. destruct (Hbs c) as [? Ec]; [by right|]. split; [done|]. rewrite Ho1; [done|]. by intros ->. }
  exists F', st', (k1 + k). cbn [instrument_blocks]. rewrite Hrun. cbn [mbind outcome_bind]. split; [done|].
  assert (Ecb : code F' b = new) by (by rewrite Ho').
  split; [done|]. split; [|split; [|split; [|lia]]].
  - intros c [->|Hc]%elem_of_cons; [by rewrite Ecb, <- Eb|by apply Hw'].
  - intros c [Hcb Hc]%not_elem_of_cons. rewrite Ho' by done. by apply Ho1.
  - rewrite bind_cons. unfold stackmap_ids in *. by rewrite omap_app, Ecb, Hids, Hids', Hc1, seq_app.
Qed.
End Function.

Lemma live_operand F n b c v : well_formed F n -> live_across o class F b c v -> v ∈ (instrs F ≫= i_operands).
Proof.
  intros Hwf.
  assert (Hin : forall b' i, i ∈ code F b' -> v ∈ i_operands i -> v ∈ (instrs F ≫= i_operands)).
  { intros b' i Hi Hv. apply operands_in. exists i. split; [|done]. apply in_instrs. exists b'.
    split; [by eapply (wf_all _ _ Hwf)|done]. }
  assert (Hfirst : forall b' insts, (forall i, i ∈ insts -> i ∈ code F b') -> used_first o class insts v ->
    v ∈ (instrs F ≫= i_operands)).
  { intros b' insts Hsub (pre & i & post & -> & Hv & _). eapply Hin; [|done]. apply Hsub, elem_of_app. right. by left. }
  assert (Hphi : forall b' c', phi_use o class F b' c' v -> v ∈ (instrs F ≫= i_operands)).
  { intros b' c' (i & inc & k & Hi & _ & _ & Hv & _). eapply (Hin c'); [|by eapply list_elem_of_lookup_2].
    rewrite (phis_split (code F c')). apply elem_of_app. by left. }
  assert (Hlv : forall b', live_in o class F v b' -> v ∈ (instrs F ≫= i_operands)).
  { induction 1 as [b' Hu|b' c' _ Hu _|]; [|by eapply Hphi|done].
    eapply (Hfirst b'); [|done]. intros i Hi. rewrite (phis_split (code F b')). apply elem_of_app. by right. }
  intros [_ (pre & i & post & E & _ & _ & [Hu|[(c' & _ & [Hu|[Hl _]]) _]])]; [|by eapply Hphi|by eapply Hlv].
  eapply (Hfirst b); [|done]. intros j Hj. rewrite E. apply elem_of_app. right. by right.
Qed.

(** *** Checking [well_formed] *)

Definition wf_checked (F : func) (n : value) : Prop :=
  NoDup (f_layout F) /\
  Forall (fun bi : block * list instr => bi.1 ∈ f_layout F /\
    Forall (fun i => is_call_site i = false) (drop (length bi.2 - 1) bi.2)) (map_to_list (f_code F)) /\
  Forall (fun v => v < n /\ Forall (fun w => v <> w ->
    name v <> name w \/ name v = EmptyString /\ addr v <> addr w) (instrs F ≫= i_operands)) (instrs F ≫= i_operands) /\
  Forall (fun i => i_val i < n) (instrs F) /\ stackmap_ids (instrs F) = [].

#[export] Instance wf_checked_dec F n : Decision (wf_checked F n).
Proof. unfold wf_checked. apply _. Defined.

Lemma wf_checked_ok F n : wf_checked F n -> well_formed F n.
Proof.
  intros (Hnd & Hb & Hv & Hi & Hs). rewrite !Forall_forall in *.
  assert (Hblock : forall b i, i ∈ code F b -> (b, code F b) ∈ map_to_list (f_code F)).
  { intros b i Hin. apply (code_in_blocks F b (i_val i)). unfold defines. by apply list_elem_of_fmap_2. }
  constructor; try done.
  - intros b i Hin. by apply (Hb (b, code F b)), (Hblock b i).
  - intros v w Hvin Hwin Hn. destruct (Hv v Hvin) as [_ Hall]. rewrite Forall_forall in Hall. by apply Hall.
  - intros b pre i E. assert (Hin : i ∈ code F b) by (rewrite E; apply elem_of_app; right; by left).
    destruct (Hb (b, code F b)) as [_ Hl]; [by apply (Hblock b i)|]. cbn in Hl. rewrite E, length_app in Hl. cbn in Hl.
    rewrite Nat.add_sub, drop_app_length in Hl. by apply Forall_cons in Hl as [? _].
  - intros v Hvin. by apply Hv.
Qed.

(** ** Properties *)


End Proof.

(** ** Witnesses *)

Definition sample_name (v : value) : string :=
  if v =? 10 then "i"%string else if v =? 1 then "n"%string else EmptyString.

Definition sample_dominates (f : nat) (v c : value) : bool := true.

