(* ===== verification/MachineIR.v ===== *)
(** * Machine code and live values of the compiler's back end (src/patches/llvm)

    Machine instructions as LLVM shows them to the passes of
    src/patches/llvm/src, the values and locations of StackTransformTypes.h, and
    what a machine function remembers of them for its stack maps
    (MachineFunction.cpp of llvm-3.7.1.patch).  An instruction, an IR value and a
    block are names; the place an object is stored at is not modelled. *)

From Stdlib Require Import String.
From stdpp Require Import strings.
From S2P Require Import Prelude CallSite IR.

#[local] Open Scope Z_scope.

(** ** Definitions *)

(** Physical registers and virtual registers, these by their index; 0 is no
    register. *)
Inductive register := PhysReg (n : nat) | VirtReg (index : nat).

#[export] Instance register_eq_dec : EqDecision register.
Proof. solve_decision. Defined.

Inductive moperand :=
  | MO_Register (Reg : register) (def : bool)
  | MO_Immediate (Imm : Z)
  | MO_FPImmediate (Width Bits : Z)
  | MO_FrameIndex (Index : Z)
  | MO_ConstantPoolIndex (Index : Z)
  | MO_GlobalAddress (Name : string)
  | MO_ExternalSymbol (Name : string)
  | MO_MCSymbol (Name : string)
  | MO_Other.

(** The opcodes the passes name. *)
Inductive mopcode := STACKMAP | COPY | ADDXri | UBFMXri | MOVaddr | ADRP | LEA64r | OtherOpcode (n : nat).

#[export] Instance mopcode_eq_dec : EqDecision mopcode.
Proof. solve_decision. Defined.

Record minstr := MInstr { mi_id : nat; getOpcode : mopcode; mi_ops : list moperand }.

#[export] Instance moperand_eq_dec : EqDecision moperand.
Proof. solve_decision. Defined.

#[export] Instance minstr_eq_dec : EqDecision minstr.
Proof. solve_decision. Defined.

Definition getOperand (MI : minstr) (k : nat) : outcome moperand := get (mi_ops MI !! k).

(** *** Values (MachineLiveVal) *)

(** [ValueGenInst]: the templates' parameter is the first argument. *)
Inductive ValueGenInst :=
  | RegInstruction (Type_ : inst_type) (Reg : register) (Offset : Z)
  | ImmInstruction (Type_ : inst_type) (Size Imm : Z)
  | PseudoInstruction (Type_ : inst_type) (Data : Z) (GenType : inst_type).

Inductive OpType := OpRegister | OpImmediate | OpNone.

Definition opType (i : ValueGenInst) : OpType :=
  match i with
  | RegInstruction _ _ _ => OpRegister
  | ImmInstruction _ _ _ => OpImmediate
  | PseudoInstruction _ _ _ => OpNone
  end.

Definition vg_type (i : ValueGenInst) : inst_type :=
  match i with RegInstruction t _ _ | ImmInstruction t _ _ | PseudoInstruction t _ _ => t end.

Inductive MachineLiveVal :=
  | MachineReference (Symbol : string)
  | MachineImmediate (Size Value : Z)
  | MachineGeneratedVal (VG : list ValueGenInst).

(** *** Locations (MachineLiveLoc) *)

Inductive MachineLiveLoc := MachineLiveReg (Reg : register) | MachineLiveStackSlot (StackSlot : Z).

#[export] Instance MachineLiveLoc_eq_dec : EqDecision MachineLiveLoc.
Proof. solve_decision. Defined.

(** *** The machine function's records, by the value of the IR's stack map *)

Record sm_locations := SMLocations {
  SMDuplicateLocs : gmap value (gmap value (list MachineLiveLoc));
  SMArchSpecificLocs : gmap value (list (MachineLiveLoc * MachineLiveVal))
}.

(** [push_back] unless the location is there. *)
Definition add_loc (Vals : list MachineLiveLoc) (MLL : MachineLiveLoc) : list MachineLiveLoc :=
  if decide (MLL ∈ Vals) then Vals else Vals ++ [MLL].

Definition addSMOpLocation (SM Val : value) (MLL : MachineLiveLoc) (L : sm_locations) : sm_locations :=
  let IRMap := default ∅ (SMDuplicateLocs L !! SM) in
  let Vals := default [] (IRMap !! Val) in
  SMLocations (<[SM := <[Val := add_loc Vals MLL]> IRMap]> (SMDuplicateLocs L)) (SMArchSpecificLocs L).

Definition addSMArchSpecificLocation (SM : value) (MLL : MachineLiveLoc) (MC : MachineLiveVal) (L : sm_locations) :
    sm_locations :=
  let Vals := default [] (SMArchSpecificLocs L !! SM) in
  SMLocations (SMDuplicateLocs L)
    (<[SM := if decide (MLL ∈ Vals.*1) then Vals else Vals ++ [(MLL, MC)]]> (SMArchSpecificLocs L)).

Definition hasSMOpLocations (L : sm_locations) (SM Val : value) : bool :=
  match SMDuplicateLocs L !! SM with
  | Some IRMap => bool_decide (is_Some (IRMap !! Val))
  | None => false
  end.

Definition hasSMArchSpecificLocations (L : sm_locations) (SM : value) : bool :=
  bool_decide (is_Some (SMArchSpecificLocs L !! SM)).

Definition getSMOpLocations (L : sm_locations) (SM Val : value) : outcome (list MachineLiveLoc) :=
  IRMap ← get (SMDuplicateLocs L !! SM); get (IRMap !! Val).

Definition getSMArchSpecificLocations (L : sm_locations) (SM : value) :
    outcome (list (MachineLiveLoc * MachineLiveVal)) := get (SMArchSpecificLocs L !! SM).

(** [updateSMStackSlotRefs], after slots have been coloured. *)
Definition change_slot (Changes : gmap Z Z) (SS : Z) : Z := default SS (Changes !! SS).

Definition change_loc (Changes : gmap Z Z) (MLL : MachineLiveLoc) : MachineLiveLoc :=
  match MLL with
  | MachineLiveStackSlot SS => MachineLiveStackSlot (change_slot Changes SS)
  | MachineLiveReg _ => MLL
  end.

Definition change_val (Changes : gmap Z Z) (MLV : MachineLiveVal) : MachineLiveVal :=
  match MLV with
  | MachineGeneratedVal VG => MachineGeneratedVal ((fun Inst =>
      match Inst with
      | PseudoInstruction StackSlot Data GenType =>
          PseudoInstruction StackSlot
            (match Changes !! signed 32 Data with Some SS => wrap64 SS | None => Data end) GenType
      | _ => Inst
      end) <$> VG)
  | _ => MLV
  end.

Definition change_all (Changes : gmap Z Z) (IRMap : gmap value (list MachineLiveLoc)) :
    gmap value (list MachineLiveLoc) := (fun Vals : list MachineLiveLoc => change_loc Changes <$> Vals) <$> IRMap.

Definition change_arch (Changes : gmap Z Z) (Vals : list (MachineLiveLoc * MachineLiveVal)) :
    list (MachineLiveLoc * MachineLiveVal) :=
  (fun lv => (change_loc Changes lv.1, change_val Changes lv.2)) <$> Vals.

Definition updateSMStackSlotRefs (Changes : gmap Z Z) (L : sm_locations) : sm_locations :=
  if decide (Changes = ∅) then L
  else SMLocations
    (change_all Changes <$> SMDuplicateLocs L) (change_arch Changes <$> SMArchSpecificLocs L).

(** ** Lemmas *)

(** The duplicate locations of a value. *)
Definition duplicates (L : sm_locations) (SM Val : value) : list MachineLiveLoc :=
  default [] (SMDuplicateLocs L !! SM ≫= (fun IRMap => IRMap !! Val)).

Lemma addSMOpLocation_arch SM Val MLL L : SMArchSpecificLocs (addSMOpLocation SM Val MLL L) = SMArchSpecificLocs L.
Proof. done. Qed.

Lemma elem_of_add_loc Vals MLL l : l ∈ add_loc Vals MLL <-> l ∈ Vals \/ l = MLL.
Proof.
  unfold add_loc. case_decide; [|by rewrite elem_of_app, list_elem_of_singleton].
  split; [by left|]. by intros [| ->].
Qed.

Lemma addSMOpLocation_spec SM Val MLL L SM' Val' l :
  l ∈ duplicates (addSMOpLocation SM Val MLL L) SM' Val' <->
  l ∈ duplicates L SM' Val' \/ SM' = SM /\ Val' = Val /\ l = MLL.
Proof.
  unfold duplicates, addSMOpLocation. cbn [SMDuplicateLocs].
  destruct (decide (SM' = SM)) as [->|Hn]; [|rewrite lookup_insert_ne by done; naive_solver].
  rewrite lookup_insert_eq. cbn [mbind option_bind].
  assert (E : forall V : value, default [] (SMDuplicateLocs L !! SM ≫= (fun IRMap => IRMap !! V)) =
    default [] (default ∅ (SMDuplicateLocs L !! SM) !! V)).
  { intros V. by destruct (SMDuplicateLocs L !! SM). }
  rewrite E. destruct (decide (Val' = Val)) as [->|Hn].
  - rewrite lookup_insert_eq. unfold default at 1, from_option at 1, id. rewrite elem_of_add_loc. naive_solver.
  - rewrite lookup_insert_ne by done. naive_solver.
Qed.
