(* ===== verification/StackTransform.v ===== *)
(** * Stack transformation metadata (src/patches/llvm/src: StackTransformMetadata.cpp)

    The pass that finds, for every stack map, the other places that hold the
    values of its operands (by following copies between registers and stack
    slots), and values that only the target's code needs, and warns about the
    places it could not account for.  What it asks LLVM (liveness, register
    allocation, what kind of instruction something is) are arguments.  A failed
    assertion is undefined behaviour. *)

From Stdlib Require Import String.
From stdpp Require Import strings.
From S2P Require Import Prelude CallSite IR MachineIR.

#[local] Open Scope nat_scope.

(** ** Definitions *)

(** The machine function: its blocks with the IR block each comes from; the
    number of virtual registers; the range of stack objects. *)
Record MachineFunction := MachineFn {
  mf_blocks : list (block * list minstr);
  getNumVirtRegs : nat;
  getObjectIndexBegin : Z;
  getObjectIndexEnd : Z;
  hasStackMap : bool
}.

(** [SMInstBundle] *)
Record SMInstBundle := Bundle { getIRSM : instr; getMISM : minstr; getMICall : minstr }.

(** [CopyLoc] and its classes *)
Inductive CopyLoc :=
  | RegCopyLoc (Vreg SrcVreg : nat) (Instr : minstr)
  | StackLoadLoc (Vreg : nat) (StackSlot : Z) (Instr : minstr)
  | StackStoreLoc (Vreg : nat) (StackSlot : Z) (Instr : minstr).

Definition cl_vreg (l : CopyLoc) : nat :=
  match l with RegCopyLoc v _ _ | StackLoadLoc v _ _ | StackStoreLoc v _ _ => v end.

Definition cl_instr (l : CopyLoc) : minstr :=
  match l with RegCopyLoc _ _ i | StackLoadLoc _ _ i | StackStoreLoc _ _ i => i end.

(** The slot of a [StackCopyLoc]. *)
Definition cl_slot (l : CopyLoc) : option Z :=
  match l with RegCopyLoc _ _ _ => None | StackLoadLoc _ SS _ | StackStoreLoc _ SS _ => Some SS end.

(** The values of an operand's place.  The null pointer is the empty list; it is
    not read. *)
Abbreviation ValueVec := (list value).
Abbreviation RegValsMap := (gmap nat ValueVec).
Abbreviation StackValsMap := (gmap Z ValueVec).
Abbreviation StackSlotCopies := (gmap Z (list CopyLoc)).

(** The pass's data, and the machine function's records. *)
Record pass := Pass {
  SM : list SMInstBundle;
  SMVregs : gmap nat RegValsMap;           (* by the stack map's instruction *)
  SMStackSlots : gmap nat StackValsMap;
  SSUses : StackSlotCopies;
  MF : sm_locations
}.

Inductive warning := UnhandledRegister (Phys : nat) | UnhandledStackSlot (SS : Z).

(** A segment of a live interval, by its ends. *)
Record segment := Segment { seg_start : Z; seg_end : Z }.

(** What the pass asks of LLVM: [TargetInstrInfo] and [MachineInstr],
    [MachineRegisterInfo], [VirtRegMap], [MachineFrameInfo],
    [TargetRegisterInfo], and [LiveIntervals], [LiveStacks] and [SlotIndexes],
    with [find] of an interval and [contains] of a segment. *)
Record llvm := LLVM {
  isCopyLike : minstr -> bool;
  isLoadFromStackSlot : minstr -> option (register * Z);
  isStoreToStackSlot : minstr -> option (register * Z);
  isMoveImmediate : minstr -> bool;
  isCall : minstr -> bool;
  def_instrs : nat -> list minstr;
  use_instrs : nat -> list minstr;
  hasOneDef : nat -> bool;
  getPhys : nat -> option nat;
  isDeadObjectIndex : Z -> bool;
  getFrameRegister : register;
  vreg_find : nat -> Z -> option segment;
  slot_find : Z -> Z -> option segment;
  seg_contains : segment -> Z -> bool;
  getInstructionIndex : minstr -> Z;
  getInstrDistance : Z -> Z -> Z;
  DirectMemRefOp : Z;
  IndirectMemRefOp : Z;
  ConstantOp : Z
}.

Section Pass.
Context (T : llvm) (F : func) (fn : MachineFunction).
Context (getMachineValue : minstr -> outcome (option MachineLiveVal)).   (* TargetValues *)

(** *** Copies *)

(** The last register operand that is a definition, and the last that is not. *)
Fixpoint copy_operands (ops : list moperand) (SrcVreg DefVreg : register) : register * register :=
  match ops with
  | MO_Register r true :: ops => copy_operands ops SrcVreg r
  | MO_Register r false :: ops => copy_operands ops r DefVreg
  | _ :: ops => copy_operands ops SrcVreg DefVreg
  | [] => (SrcVreg, DefVreg)
  end.

Definition load_store (MI : minstr) : option CopyLoc :=
  match isLoadFromStackSlot T MI with
  | Some (VirtReg DefVreg, SS) => Some (StackLoadLoc DefVreg SS MI)
  | _ =>
      match isStoreToStackSlot T MI with
      | Some (VirtReg SrcVreg, SS) => Some (StackStoreLoc SrcVreg SS MI)
      | _ => None
      end
  end.

Definition getCopyLocation (MI : minstr) : option CopyLoc :=
  if isCopyLike T MI
  then match copy_operands (mi_ops MI) (PhysReg 0) (PhysReg 0) with
       | (VirtReg SrcVreg, VirtReg DefVreg) => Some (RegCopyLoc DefVreg SrcVreg MI)
       | _ => load_store MI
       end
  else load_store MI.

(** *** Stack maps and copies to and from the stack *)

Definition is_stackmap_id (ID : Z) (i : instr) : bool :=
  match i_op i with StackMap id => (Z.of_nat id =? ID)%Z | _ => false end.

(** Backwards from the stack map. *)
Fixpoint find_call (rev : list minstr) : option minstr :=
  match rev with
  | [] => None
  | MCI :: rev =>
      if isCall T MCI then (if decide (getOpcode MCI = STACKMAP) then None else Some MCI) else find_call rev
  end.

Definition add_use (loc : CopyLoc) (uses : StackSlotCopies) : StackSlotCopies :=
  match cl_slot loc with
  | Some SS => <[SS := default [] (uses !! SS) ++ [loc]]> uses
  | None => uses
  end.

Fixpoint find_in_block (BB : block) (before rest : list minstr) (st : list SMInstBundle * StackSlotCopies) :
    outcome (list SMInstBundle * StackSlotCopies) :=
  match rest with
  | [] => Ret st
  | MI :: rest =>
      st ← (if decide (getOpcode MI = STACKMAP)
            then op ← getOperand MI 0;
                 match op with
                 | MO_Immediate ID =>
                     IRSM ← get (head (filter (fun i => is_stackmap_id ID i = true) (code F BB)));
                     match find_call (reverse before) with
                     | Some MCI => Ret (st.1 ++ [Bundle IRSM MI MCI], st.2)
                     | None => Ret st
                     end
                 | _ => Fault
                 end
            else match getCopyLocation MI with
                 | Some loc => Ret (st.1, add_use loc st.2)
                 | None => Ret st
                 end);
      find_in_block BB (before ++ [MI]) rest st
  end.

Fixpoint find_in_blocks (blocks : list (block * list minstr)) (st : list SMInstBundle * StackSlotCopies) :
    outcome (list SMInstBundle * StackSlotCopies) :=
  match blocks with
  | [] => Ret st
  | (BB, insts) :: blocks => st ← find_in_block BB [] insts st; find_in_blocks blocks st
  end.

Definition findStackmapsAndStackSlotCopies (p : pass) : outcome pass :=
  '(sm, uses) ← find_in_blocks (mf_blocks fn) (SM p, SSUses p);
  Ret (Pass sm (SMVregs p) (SMStackSlots p) uses (MF p)).

(** *** The operands of a stack map *)

Definition push_val {K} `{Countable K} (k : K) (v : value) (m : gmap K ValueVec) : gmap K ValueVec :=
  <[k := default [] (m !! k) ++ [v]]> m.

(** The frame index of an operand, which must be a live object. *)
Definition check_slot (FrameIdx : Z) : outcome Z :=
  if (getObjectIndexBegin fn <=? FrameIdx)%Z && (FrameIdx <=? getObjectIndexEnd fn)%Z &&
     negb (isDeadObjectIndex T FrameIdx)
  then Ret FrameIdx else Fault.

(** The loop over both lists of operands.  An operand of the machine instruction
    is one register, or an immediate that tells what follows it. *)
Fixpoint map_operands (ops : list moperand) (vals : list value) (vregs : RegValsMap) (slots : StackValsMap) :
    outcome (RegValsMap * StackValsMap) :=
  match vals, ops with
  | [], _ => Ret (vregs, slots)
  | IRVal :: vals, MO_Register (VirtReg Reg) _ :: ops => map_operands ops vals (push_val Reg IRVal vregs) slots
  | IRVal :: vals, MO_Immediate Imm :: ops =>
      if (Imm =? DirectMemRefOp T)%Z
      then match ops with
           | MO_FrameIndex FI :: _ :: ops =>
               FrameIdx ← check_slot FI; map_operands ops vals vregs (push_val FrameIdx IRVal slots)
           | _ => Fault
           end
      else if (Imm =? IndirectMemRefOp T)%Z
      then match ops with
           | _ :: MO_FrameIndex FI :: _ :: ops =>
               FrameIdx ← check_slot FI; map_operands ops vals vregs (push_val FrameIdx IRVal slots)
           | _ => Fault
           end
      else if (Imm =? ConstantOp T)%Z
      then match ops with _ :: ops => map_operands ops vals vregs slots | [] => Fault end
      else Fault
  | _, _ => Fault
  end.

Definition mapOpsToIR (IRSM : instr) (MISM : minstr) (p : pass) : outcome pass :=
  '(vregs, slots) ← map_operands (drop 2 (mi_ops MISM)) (i_operands IRSM) ∅ ∅;
  Ret (Pass (SM p) (<[mi_id MISM := vregs]> (SMVregs p)) (<[mi_id MISM := slots]> (SMStackSlots p)) (SSUses p) (MF p)).

(** *** Liveness *)

Definition live_segment (Seg : option segment) (MI : minstr) : bool :=
  let InstrIdx := getInstructionIndex T MI in
  match Seg with
  | Some Seg => seg_contains T Seg InstrIdx && negb (getInstrDistance T InstrIdx (seg_end Seg) =? 0)%Z
  | None => false
  end.

(** [find] gives nothing when there is no interval. *)
Definition isVregLiveAcrossInstr (Vreg : nat) (MI : minstr) : bool :=
  live_segment (vreg_find T Vreg (getInstructionIndex T MI)) MI.

Definition isSSLiveAcrossInstr (SS : Z) (MI : minstr) : bool :=
  live_segment (slot_find T SS (getInstructionIndex T MI)) MI.

(** *** Alternate locations: the maps of one stack map, and the records *)

Record search := Search { sr_vregs : RegValsMap; sr_slots : StackValsMap; sr_locs : sm_locations }.

Definition add_locations (IRSM : instr) (IRVals : ValueVec) (MLL : MachineLiveLoc) (L : sm_locations) : sm_locations :=
  foldl (fun L v => addSMOpLocation (i_val IRSM) v MLL L) L IRVals.

Definition addVregMetadata (Vreg : nat) (IRVals : ValueVec) (B : SMInstBundle) (s : search) : outcome (search * bool) :=
  Phys ← get (getPhys T Vreg);
  if bool_decide (sr_vregs s !! Vreg = None) &&
     (isVregLiveAcrossInstr Vreg (getMISM B) || isVregLiveAcrossInstr Vreg (getMICall B))
  then Ret (Search (<[Vreg := IRVals]> (sr_vregs s)) (sr_slots s)
              (add_locations (getIRSM B) IRVals (MachineLiveReg (PhysReg Phys)) (sr_locs s)), true)
  else Ret (s, false).

Definition addSSMetadata (SS : Z) (IRVals : ValueVec) (B : SMInstBundle) (s : search) : outcome (search * bool) :=
  if isDeadObjectIndex T SS then Fault
  else if bool_decide (sr_slots s !! SS = None) &&
     (isSSLiveAcrossInstr SS (getMISM B) || isSSLiveAcrossInstr SS (getMICall B))
  then Ret (Search (sr_vregs s) (<[SS := IRVals]> (sr_slots s))
              (add_locations (getIRSM B) IRVals (MachineLiveStackSlot SS) (sr_locs s)), true)
  else Ret (s, false).

(** A search from one register: the instructions visited, and the queue. *)
Record walk := Walk { w_search : search; w_visited : gset nat; w_work : list nat }.

Fixpoint search_copies (IRVals : ValueVec) (B : SMInstBundle) (CL : list CopyLoc) (w : walk) : outcome walk :=
  match CL with
  | [] => Ret w
  | Copy :: CL =>
      if decide (mi_id (cl_instr Copy) ∈ w_visited w) then search_copies IRVals B CL w
      else
        '(s, _) ← addVregMetadata (cl_vreg Copy) IRVals B (w_search w);
        search_copies IRVals B CL
          (Walk s ({[mi_id (cl_instr Copy)]} ∪ w_visited w) (w_work w ++ [cl_vreg Copy]))
  end.

Definition searchStackSlotCopies (uses : StackSlotCopies) (SS : Z) (IRVals : ValueVec) (B : SMInstBundle) (w : walk) :
    outcome walk :=
  match uses !! SS with
  | Some CL => search_copies IRVals B CL w
  | None => Ret w
  end.

(** A stack slot that a register is loaded from or stored to. *)
Definition walk_slot (uses : StackSlotCopies) (SS : Z) (MI : minstr) (IRVals : ValueVec) (B : SMInstBundle) (w : walk) :
    outcome walk :=
  '(s, added) ← addSSMetadata SS IRVals B (w_search w);
  if (added : bool)
  then searchStackSlotCopies uses SS IRVals B (Walk s ({[mi_id MI]} ∪ w_visited w) (w_work w))
  else Ret (Walk s (w_visited w) (w_work w)).

Definition walk_vreg (vreg : nat) (MI : minstr) (IRVals : ValueVec) (B : SMInstBundle) (w : walk) : outcome walk :=
  '(s, _) ← addVregMetadata vreg IRVals B (w_search w);
  Ret (Walk s ({[mi_id MI]} ∪ w_visited w) (w_work w ++ [vreg])).

Definition walk_def (uses : StackSlotCopies) (IRVals : ValueVec) (B : SMInstBundle) (MI : minstr) (w : walk) :
    outcome walk :=
  if decide (mi_id MI ∈ w_visited w) then Ret w
  else match getCopyLocation MI with
       | None => Ret w
       | Some (RegCopyLoc _ SrcVreg _) => walk_vreg SrcVreg MI IRVals B w
       | Some (StackLoadLoc _ SS _) => walk_slot uses SS MI IRVals B w
       | Some (StackStoreLoc _ _ _) => Fault
       end.

Definition walk_use (uses : StackSlotCopies) (IRVals : ValueVec) (B : SMInstBundle) (MI : minstr) (w : walk) :
    outcome walk :=
  if decide (mi_id MI ∈ w_visited w) then Ret w
  else match getCopyLocation MI with
       | None => Ret w
       | Some (RegCopyLoc Vreg _ _) => walk_vreg Vreg MI IRVals B w
       | Some (StackStoreLoc _ SS _) => walk_slot uses SS MI IRVals B w
       | Some (StackLoadLoc _ _ _) => Fault
       end.

Fixpoint walk_all (step : minstr -> walk -> outcome walk) (instrs : list minstr) (w : walk) : outcome walk :=
  match instrs with
  | [] => Ret w
  | MI :: instrs => w ← step MI w; walk_all step instrs w
  end.

Fixpoint work_loop (fuel : nat) (uses : StackSlotCopies) (IRVals : ValueVec) (B : SMInstBundle) (w : walk) : outcome walk :=
  match w_work w, fuel with
  | [], _ => Ret w
  | _, O => Spin
  | cur :: work, S fuel =>
      w ← walk_all (walk_def uses IRVals B) (def_instrs T cur) (Walk (w_search w) (w_visited w) work);
      w ← walk_all (walk_use uses IRVals B) (use_instrs T cur) w;
      work_loop fuel uses IRVals B w
  end.

(** The next register of the map, in increasing order. *)
Definition next_vreg (from : nat) (m : RegValsMap) : option nat :=
  foldr (fun k acc => Some (match acc with Some a => Nat.min k a | None => k end)) None
    (filter (fun k => from <= k) (map_to_list m).*1).

(** The iteration goes on to registers that it adds. *)
Fixpoint vregs_loop (fuel wfuel : nat) (uses : StackSlotCopies) (from : nat) (B : SMInstBundle) (s : search) :
    outcome search :=
  match next_vreg from (sr_vregs s), fuel with
  | None, _ => Ret s
  | Some _, O => Spin
  | Some origVreg, S fuel =>
      IRVals ← get (sr_vregs s !! origVreg);
      w ← work_loop wfuel uses IRVals B (Walk s ∅ [origVreg]);
      vregs_loop fuel wfuel uses (origVreg + 1) B (w_search w)
  end.

Definition findAlternateVregLocs (fuel wfuel : nat) (B : SMInstBundle) (p : pass) : outcome pass :=
  let key := mi_id (getMISM B) in
  s ← vregs_loop fuel wfuel (SSUses p) 0 B
        (Search (default ∅ (SMVregs p !! key)) (default ∅ (SMStackSlots p !! key)) (MF p));
  Ret (Pass (SM p) (<[key := sr_vregs s]> (SMVregs p)) (<[key := sr_slots s]> (SMStackSlots p)) (SSUses p) (sr_locs s)).

Fixpoint find_op_locs (fuel wfuel : nat) (Bs : list SMInstBundle) (p : pass) : outcome pass :=
  match Bs with
  | [] => Ret p
  | B :: Bs =>
      p ← mapOpsToIR (getIRSM B) (getMISM B) p;
      p ← findAlternateVregLocs fuel wfuel B p;
      find_op_locs fuel wfuel Bs p
  end.

Definition findAlternateOpLocs (fuel wfuel : nat) (p : pass) : outcome pass := find_op_locs fuel wfuel (SM p) p.

(** *** Values that only the target's code needs *)

(** [None] when a register is not handled by the stack map. *)
Fixpoint sanitize_insts (vregs : RegValsMap) (VG : list ValueGenInst) : outcome (option (list ValueGenInst)) :=
  match VG with
  | [] => Ret (Some [])
  | Inst :: VG =>
      Inst ← (match Inst with
              | RegInstruction t Reg Off =>
                  match Reg with
                  | PhysReg _ => Ret (if decide (Reg = getFrameRegister T) then Some Inst else None)
                  | VirtReg v =>
                      match vregs !! v with
                      | None => Ret None
                      | Some _ => Phys ← get (getPhys T v); Ret (Some (RegInstruction t (PhysReg Phys) Off))
                      end
                  end
              | _ => Ret (Some Inst)
              end);
      match Inst with
      | None => Ret None
      | Some Inst =>
          VG ← sanitize_insts vregs VG;
          Ret (match VG with Some VG => Some (Inst :: VG) | None => None end)
      end
  end.

Definition sanitizeVregs (LV : option MachineLiveVal) (vregs : RegValsMap) : outcome (option MachineLiveVal) :=
  match LV with
  | Some (MachineGeneratedVal VG) =>
      VG ← sanitize_insts vregs VG;
      Ret (match VG with Some VG => Some (MachineGeneratedVal VG) | None => None end)
  | _ => Ret LV
  end.

(** The last immediate operand. *)
Definition move_immediate (ops : list moperand) : Z * Z :=
  foldl (fun sv MO =>
    match MO with
    | MO_Immediate Imm => (sv.1, wrap64 Imm)
    | MO_FPImmediate Width Bits => (Width / 8, Bits)%Z
    | _ => sv
    end) (8, u64_max)%Z ops.

Definition getTargetValue (MI : minstr) (vregs : RegValsMap) : outcome (option MachineLiveVal) :=
  if isMoveImmediate T MI
  then let '(Size, Value) := move_immediate (mi_ops MI) in Ret (Some (MachineImmediate Size Value))
  else MLV ← getMachineValue MI; sanitizeVregs MLV vregs.

(** A register that is live across the call and not in the stack map. *)
Definition unhandled_vreg (B : SMInstBundle) (vregs : RegValsMap) (Vreg : nat) : bool :=
  bool_decide (is_Some (getPhys T Vreg)) && isVregLiveAcrossInstr Vreg (getMICall B) &&
  bool_decide (vregs !! Vreg = None).

Definition unhandled_slot (B : SMInstBundle) (slots : StackValsMap) (SS : Z) : bool :=
  negb (isDeadObjectIndex T SS) && isSSLiveAcrossInstr SS (getMICall B) && bool_decide (slots !! SS = None).

Fixpoint find_arch_vregs (B : SMInstBundle) (vs : list nat) (vregs : RegValsMap) (L : sm_locations) :
    outcome (RegValsMap * sm_locations) :=
  match vs with
  | [] => Ret (vregs, L)
  | Vreg :: vs =>
      if unhandled_vreg B vregs Vreg && hasOneDef T Vreg
      then
        MI ← get (head (def_instrs T Vreg));
        MC ← getTargetValue MI vregs;
        match MC with
        | Some MC =>
            Phys ← get (getPhys T Vreg);
            find_arch_vregs B vs (<[Vreg := []]> vregs)
              (addSMArchSpecificLocation (i_val (getIRSM B)) (MachineLiveReg (PhysReg Phys)) MC L)
        | None => find_arch_vregs B vs vregs L
        end
      else find_arch_vregs B vs vregs L
  end.

(** The loop over the stack slots only prints. *)
Fixpoint find_arch_vals (Bs : list SMInstBundle) (p : pass) : outcome pass :=
  match Bs with
  | [] => Ret p
  | B :: Bs =>
      let key := mi_id (getMISM B) in
      '(vregs, L) ← find_arch_vregs B (seq 0 (getNumVirtRegs fn)) (default ∅ (SMVregs p !! key)) (MF p);
      find_arch_vals Bs (Pass (SM p) (<[key := vregs]> (SMVregs p)) (SMStackSlots p) (SSUses p) L)
  end.

Definition findArchSpecificLiveVals (p : pass) : outcome pass := find_arch_vals (SM p) p.

(** *** Warnings *)

Definition is_call (i : instr) : bool :=
  match i_op i with CallInst _ _ | StackMap _ => true | _ => false end.

(** The instructions before the named one, in its block. *)
Fixpoint before (v : value) (insts : list instr) (pre : list instr) : option (list instr) :=
  match insts with
  | [] => None
  | i :: insts => if i_val i =? v then Some pre else before v insts (pre ++ [i])
  end.

(** There must be a call before the stack map. *)
Definition findCalledFunc (IRSM : instr) : outcome instr :=
  pre ← get (head (omap (fun b => before (i_val IRSM) (code F b) []) (f_layout F)));
  get (head (filter (fun i => is_call i = true) (reverse pre))).

Definition unhandled_regs (B : SMInstBundle) (vregs : RegValsMap) : list warning :=
  omap (fun v => UnhandledRegister <$> getPhys T v)
    (filter (fun v => unhandled_vreg B vregs v = true) (seq 0 (getNumVirtRegs fn))).

Definition unhandled_slots (B : SMInstBundle) (slots : StackValsMap) : list warning :=
  UnhandledStackSlot <$> filter (fun SS => unhandled_slot B slots SS = true)
    (seqZ (getObjectIndexBegin fn) (getObjectIndexEnd fn - getObjectIndexBegin fn)).

(** The warnings, each with the call it is about. *)
Fixpoint warn_all (Bs : list SMInstBundle) (p : pass) : outcome (list (instr * warning)) :=
  match Bs with
  | [] => Ret []
  | B :: Bs =>
      let key := mi_id (getMISM B) in
      vregs ← get (SMVregs p !! key);
      slots ← get (SMStackSlots p !! key);
      IRCall ← findCalledFunc (getIRSM B);
      ws ← warn_all Bs p;
      Ret ((pair IRCall <$> unhandled_regs B vregs ++ unhandled_slots B slots) ++ ws)
  end.

Definition warnUnhandled (p : pass) : outcome (list (instr * warning)) := warn_all (SM p) p.

(** *** The pass: the machine function's records before and after, and the
    warnings *)

Definition runOnMachineFunction (fuel wfuel : nat) (NoWarnings : bool) (L : sm_locations) :
    outcome (pass * list (instr * warning)) :=
  let p := Pass [] ∅ ∅ ∅ L in
  if hasStackMap fn
  then
    p ← findStackmapsAndStackSlotCopies p;
    p ← findAlternateOpLocs fuel wfuel p;
    p ← findArchSpecificLiveVals p;
    ws ← (if NoWarnings then Ret [] else warnUnhandled p);
    Ret (p, ws)
  else Ret (p, []).

End Pass.
