(* ===== verification/TargetValues.v ===== *)
(** * Values of the targets (src/patches/llvm/src: AArch64Values.cpp, X86Values.cpp)

    What an instruction computes, as a symbol or as a list of operations that the
    runtime can repeat.  The numbers of registers and the positions of an
    address's operands are LLVM's and arguments.  At the end: on which instructions
    the functions return. *)

From Stdlib Require Import String.
From stdpp Require Import strings.
From S2P Require Import Prelude IR MachineIR CallSite.

#[local] Open Scope Z_scope.

(** ** Definitions *)

(** The accessors of an operand, which assert its kind. *)
Definition getImm (MO : moperand) : outcome Z := match MO with MO_Immediate Imm => Ret Imm | _ => Fault end.
Definition getReg (MO : moperand) : outcome register := match MO with MO_Register Reg _ => Ret Reg | _ => Fault end.

Abbreviation ValueGenInstList := (list ValueGenInst).

Definition generated (IL : ValueGenInstList) : option MachineLiveVal :=
  match IL with [] => None | _ => Some (MachineGeneratedVal IL) end.

(** A shift of a 64-bit word; its count must be smaller. *)
Definition shift_left64 (x k : Z) : outcome Z :=
  if (0 <=? k) && (k <? 64) then Ret (wrap64 (Z.shiftl x k)) else Fault.

(** [~(UINT64_MAX << k)], as the [int64_t] it is stored in. *)
Definition low_mask (k : Z) : outcome Z := m ← shift_left64 u64_max k; Ret (signed 64 (u64_max - m)).

Module AArch64.

Definition genADDInstructions (MI : minstr) : outcome ValueGenInstList :=
  match getOpcode MI with
  | ADDXri =>
      MO ← getOperand MI 1;
      match MO with
      | MO_FrameIndex Index =>
          shift ← (MO2 ← getOperand MI 2; getImm MO2);
          imm ← (MO3 ← getOperand MI 3; getImm MO3);
          if (shift =? 0) && (imm =? 0) then Ret [PseudoInstruction StackSlot (wrap64 Index) Set_] else Fault
      | _ => Ret []
      end
  | _ => Fault
  end.

Definition genBitfieldInstructions (MI : minstr) : outcome ValueGenInstList :=
  match getOpcode MI with
  | UBFMXri =>
      Reg ← (MO1 ← getOperand MI 1; getReg MO1);
      R ← (MO2 ← getOperand MI 2; getImm MO2);
      S ← (MO3 ← getOperand MI 3; getImm MO3);
      if R <=? S
      then Mask_ ← low_mask (S - R + 1);
           Ret [RegInstruction Set_ Reg 0; ImmInstruction RightShiftLog 8 R; ImmInstruction Mask 8 Mask_]
      else Mask_ ← low_mask (S + 1);
           Ret [RegInstruction Set_ Reg 0; ImmInstruction Mask 8 Mask_; ImmInstruction LeftShift 8 (64 - R)]
  | _ => Ret []
  end.

Section Values.
Context (LR FP : nat).

Definition getMachineValue (MI : minstr) : outcome (option MachineLiveVal) :=
  match getOpcode MI with
  | MOVaddr | ADRP =>
      MO ← getOperand MI 1;
      match MO with
      | MO_ConstantPoolIndex Index => Ret (generated [PseudoInstruction ConstantPool (wrap64 Index) Set_])
      | MO_GlobalAddress Name | MO_ExternalSymbol Name | MO_MCSymbol Name => Ret (Some (MachineReference Name))
      | _ => Fault
      end
  | ADDXri => IL ← genADDInstructions MI; Ret (generated IL)
  | UBFMXri => IL ← genBitfieldInstructions MI; Ret (generated IL)
  | COPY =>
      MO ← getOperand MI 1;
      Ret (match MO with
           | MO_Register Reg _ =>
               if decide (Reg = PhysReg LR) then generated [RegInstruction Load (PhysReg FP) 8] else None
           | _ => None
           end)
  | _ => Ret None
  end.

End Values.
End AArch64.

Module X86.
Section Values.
Context (AddrBaseReg AddrScaleAmt AddrIndexReg AddrDisp : nat).

Definition genLEAInstructions (MI : minstr) : outcome ValueGenInstList :=
  match getOpcode MI with
  | LEA64r =>
      Reg ← (MO ← getOperand MI (1 + AddrIndexReg); getReg MO);
      index ← (if decide (Reg = PhysReg 0) then Ret []
               else Imm ← (MO ← getOperand MI (1 + AddrScaleAmt); getImm MO);
                    Ret [RegInstruction Set_ Reg 0; ImmInstruction Multiply 8 Imm]);
      MO ← getOperand MI (1 + AddrBaseReg);
      match MO with
      | MO_FrameIndex Index => Ret (index ++ [PseudoInstruction StackSlot (wrap64 Index) Add])
      | MO_Register Reg _ =>
          Imm ← (MO ← getOperand MI (1 + AddrDisp); getImm MO);
          Ret (index ++ [RegInstruction Add Reg 0; ImmInstruction Add 8 Imm])
      | _ => Fault
      end
  | _ => Fault
  end.

Definition getMachineValue (MI : minstr) : outcome (option MachineLiveVal) :=
  match getOpcode MI with
  | LEA64r => IL ← genLEAInstructions MI; Ret (generated IL)
  | _ => Ret None
  end.

End Values.
End X86.

(** ** Lemmas *)

(** The functions assert the kinds of the operands they read.  On which
    instructions they return: those LLVM builds, but for an extraction of all 64
    bits, for which the mask is a shift by 64. *)

(** What the code asks of the operands. *)
Definition is_imm (MO : option moperand) : bool := match MO with Some (MO_Immediate _) => true | _ => false end.

Module AArch64Domain.

Definition operands_ok (MI : minstr) : bool :=
  match getOpcode MI with
  | MOVaddr | ADRP =>
      match mi_ops MI !! 1%nat with
      | Some (MO_ConstantPoolIndex _ | MO_GlobalAddress _ | MO_ExternalSymbol _ | MO_MCSymbol _) => true
      | _ => false
      end
  | ADDXri =>
      match mi_ops MI !! 1%nat with
      | Some (MO_FrameIndex _) =>
          match mi_ops MI !! 2%nat, mi_ops MI !! 3%nat with
          | Some (MO_Immediate shift), Some (MO_Immediate imm) => (shift =? 0) && (imm =? 0)
          | _, _ => false
          end
      | Some _ => true
      | None => false
      end
  | UBFMXri =>
      match mi_ops MI !! 1%nat, mi_ops MI !! 2%nat, mi_ops MI !! 3%nat with
      | Some (MO_Register _ _), Some (MO_Immediate R), Some (MO_Immediate Imms) =>
          if R <=? Imms then Imms - R <? 63 else (-1 <=? Imms) && (Imms <? 63)
      | _, _, _ => false
      end
  | COPY => bool_decide (is_Some (mi_ops MI !! 1%nat))
  | _ => true
  end.

Lemma low_mask_returns k : (exists m, low_mask k = Ret m) <-> (0 <=? k) && (k <? 64) = true.
Proof. unfold low_mask, shift_left64. destruct (_ && _); cbn; naive_solver. Qed.

Lemma aarch64_value_returns LR FP MI :
  (exists LV, AArch64.getMachineValue LR FP MI = Ret LV) <-> operands_ok MI = true.
Proof.
  unfold AArch64.getMachineValue, operands_ok, AArch64.genADDInstructions, AArch64.genBitfieldInstructions, getOperand.
  destruct (getOpcode MI) eqn:Eo; try naive_solver.
  - destruct (mi_ops MI !! 1%nat) as [o|]; cbn; [|naive_solver].
    split; [done|]. intros _. by eexists.
  - destruct (mi_ops MI !! 1%nat) as [[]|]; cbn; try naive_solver.
    destruct (mi_ops MI !! 2%nat) as [[]|]; cbn; try naive_solver.
    destruct (mi_ops MI !! 3%nat) as [[]|]; cbn; try naive_solver.
    destruct (_ && _); cbn; naive_solver.
  - destruct (mi_ops MI !! 1%nat) as [[]|]; cbn; try naive_solver.
    destruct (mi_ops MI !! 2%nat) as [[| R | | | | | | |]|]; cbn; try naive_solver.
    destruct (mi_ops MI !! 3%nat) as [[| Imms | | | | | | |]|]; cbn; try naive_solver.
    assert (Hk : forall k b, ((0 <=? k) && (k <? 64)) = b -> forall g : Z -> ValueGenInstList,
      (exists LV, (IL ← (m ← low_mask k; Ret (g m)); Ret (generated IL)) = Ret LV) <-> b = true).
    { intros k b <- g. rewrite <- low_mask_returns. destruct (low_mask k); cbn; naive_solver. }
    destruct (R <=? Imms) eqn:Ers; apply Hk; lia.
  - destruct (mi_ops MI !! 1%nat) as [[]|]; cbn; naive_solver.
  - destruct (mi_ops MI !! 1%nat) as [[]|]; cbn; naive_solver.
Qed.

End AArch64Domain.

Module X86Domain.
Section Domain.
Context (AddrBaseReg AddrScaleAmt AddrIndexReg AddrDisp : nat).

Definition operands_ok (MI : minstr) : bool :=
  match getOpcode MI with
  | LEA64r =>
      match mi_ops MI !! (1 + AddrIndexReg)%nat with
      | Some (MO_Register Reg _) => bool_decide (Reg = PhysReg 0) || is_imm (mi_ops MI !! (1 + AddrScaleAmt)%nat)
      | _ => false
      end &&
      match mi_ops MI !! (1 + AddrBaseReg)%nat with
      | Some (MO_FrameIndex _) => true
      | Some (MO_Register _ _) => is_imm (mi_ops MI !! (1 + AddrDisp)%nat)
      | _ => false
      end
  | _ => true
  end.

Lemma x86_value_returns MI :
  (exists LV, X86.getMachineValue AddrBaseReg AddrScaleAmt AddrIndexReg AddrDisp MI = Ret LV) <-> operands_ok MI = true.
Proof.
  unfold X86.getMachineValue, operands_ok, X86.genLEAInstructions, getOperand.
  destruct (getOpcode MI) eqn:Eo; try naive_solver.
  destruct (mi_ops MI !! (1 + AddrIndexReg)%nat) as [[r b| | | | | | | |]|]; cbn; try naive_solver.
  destruct (decide (r = PhysReg 0)) as [Er|Er]; [rewrite bool_decide_eq_true_2 by done|rewrite bool_decide_eq_false_2 by done];
    cbn; [|destruct (mi_ops MI !! S AddrScaleAmt) as [[]|]; cbn; try naive_solver];
    (destruct (mi_ops MI !! S AddrBaseReg) as [[]|]; cbn; try naive_solver);
    (destruct (mi_ops MI !! S AddrDisp) as [[]|]; cbn; naive_solver).
Qed.

End Domain.
End X86Domain.
