(* ===== verification/CopySearch.v ===== *)
(** * The search for alternate locations finds exactly the copies

    [findAlternateVregLocs] of [StackTransform] compared with the relation
    [linked]: what is connected to an operand of the stack map by copies, through
    any register and through the stack slots that are live and not themselves
    operands. *)

From S2P Require Import Prelude IR MachineIR StackTransform.

#[local] Open Scope nat_scope.

(** ** Definitions *)

Definition all_instrs (fn : MachineFunction) : list minstr := mf_blocks fn ≫= snd.

Definition defines_vreg (i : minstr) (v : nat) : Prop := MO_Register (VirtReg v) true ∈ mi_ops i.
Definition uses_vreg (i : minstr) (v : nat) : Prop := MO_Register (VirtReg v) false ∈ mi_ops i.

(** What LLVM says of the instructions of a function after register allocation:
    they are distinct objects and the lists of definitions and uses are complete;
    copies have one source and one destination; loads from and stores to stack
    slots use no other virtual registers; what they use is allocated. *)
Class MachineLaws (T : llvm) (fn : MachineFunction) : Prop := {
  ml_ids : NoDup (mi_id <$> all_instrs fn);
  ml_def v i : i ∈ def_instrs T v <-> i ∈ all_instrs fn /\ defines_vreg i v;
  ml_use v i : i ∈ use_instrs T v <-> i ∈ all_instrs fn /\ uses_vreg i v;
  ml_stackmap i : getOpcode i = STACKMAP ->
    isCopyLike T i = false /\ isLoadFromStackSlot T i = None /\ isStoreToStackSlot T i = None;
  ml_copy i b r r' : isCopyLike T i = true ->
    MO_Register r b ∈ mi_ops i -> MO_Register r' b ∈ mi_ops i -> r = r';
  ml_copy_only i : isCopyLike T i = true -> isLoadFromStackSlot T i = None /\ isStoreToStackSlot T i = None;
  ml_load i r SS : isLoadFromStackSlot T i = Some (r, SS) -> isStoreToStackSlot T i = None /\
    forall v, (defines_vreg i v <-> r = VirtReg v) /\ ~ uses_vreg i v;
  ml_store i r SS : isStoreToStackSlot T i = Some (r, SS) ->
    forall v, (uses_vreg i v <-> r = VirtReg v) /\ ~ defines_vreg i v;
  ml_phys i v : i ∈ all_instrs fn -> defines_vreg i v \/ uses_vreg i v ->
    is_Some (getPhys T v) /\ v < getNumVirtRegs fn;
  ml_one v : hasOneDef T v = true -> def_instrs T v <> [];
  ml_slot i c SS : i ∈ all_instrs fn -> getCopyLocation T i = Some c -> cl_slot c = Some SS ->
    isDeadObjectIndex T SS = false
}.

(** A place that holds a value. *)
Inductive place := Vreg (v : nat) | Slot (SS : Z).

#[export] Instance place_eq_dec : EqDecision place.
Proof. solve_decision. Defined.

(** The places a copy connects. *)
Definition cl_places (c : CopyLoc) : place * place :=
  match c with
  | RegCopyLoc d s _ => (Vreg d, Vreg s)
  | StackLoadLoc d SS _ => (Vreg d, Slot SS)
  | StackStoreLoc s SS _ => (Slot SS, Vreg s)
  end.

Section Search.
Context (T : llvm) (fn : MachineFunction).

Definition is_copy (c : CopyLoc) : Prop :=
  cl_instr c ∈ all_instrs fn /\ getCopyLocation T (cl_instr c) = Some c.

(** [SSUses] has the copies to and from each slot. *)
Definition uses_complete (uses : StackSlotCopies) : Prop :=
  forall SS c, c ∈ default [] (uses !! SS) <-> is_copy c /\ cl_slot c = Some SS.

Context (B : SMInstBundle) (init_v : RegValsMap) (init_s : StackValsMap) (L0 : sm_locations).

Definition live_place (x : place) : bool :=
  match x with
  | Vreg v => isVregLiveAcrossInstr T v (getMISM B) || isVregLiveAcrossInstr T v (getMICall B)
  | Slot SS => isSSLiveAcrossInstr T SS (getMISM B) || isSSLiveAcrossInstr T SS (getMICall B)
  end.

(** Whether the search goes on from a place. *)
Definition through (x : place) : Prop :=
  match x with Vreg _ => True | Slot SS => init_s !! SS = None /\ live_place x = true end.

Definition joins (c : CopyLoc) (x y : place) : Prop := cl_places c = (x, y) \/ cl_places c = (y, x).

Inductive linked (r : nat) : place -> Prop :=
  | linked_self : linked r (Vreg r)
  | linked_copy x y c : linked r x -> is_copy c -> joins c x y -> through y -> linked r y.

Definition from (vals : ValueVec) (x : place) : Prop := exists r, init_v !! r = Some vals /\ linked r x.

(** The place's entry in the maps of the search, and in the maps before. *)
Definition entry (s : search) (x : place) : option ValueVec :=
  match x with Vreg v => sr_vregs s !! v | Slot SS => sr_slots s !! SS end.

Definition operand (x : place) : option ValueVec :=
  match x with Vreg v => init_v !! v | Slot SS => init_s !! SS end.

Definition place_loc (x : place) : option MachineLiveLoc :=
  match x with
  | Vreg v => (fun p => MachineLiveReg (PhysReg p)) <$> getPhys T v
  | Slot SS => Some (MachineLiveStackSlot SS)
  end.

Definition added (s : search) (x : place) (vals : ValueVec) : Prop := entry s x = Some vals /\ operand x = None.

(** *** The invariant of the maps *)

Record good (s : search) : Prop := {
  g_kept x vals : operand x = Some vals -> entry s x = Some vals;
  g_added x vals : added s x vals -> live_place x = true /\ from vals x;
  g_locs SM' V l : l ∈ duplicates (sr_locs s) SM' V <->
    l ∈ duplicates L0 SM' V \/
    SM' = i_val (getIRSM B) /\ exists x vals, added s x vals /\ V ∈ vals /\ place_loc x = Some l;
  g_arch : SMArchSpecificLocs (sr_locs s) = SMArchSpecificLocs L0
}.

(** *** The invariant of a search: [E] is explored, [C] is being explored *)

Definition known (E C : gset nat) (w : walk) : gset nat := E ∪ C ∪ list_to_set (w_work w).

Definition done_place (K : gset nat) (s : search) (x : place) : Prop :=
  match x with Vreg v => v ∈ K | Slot SS => through (Slot SS) -> is_Some (sr_slots s !! SS) end.

Definition done_copy (K : gset nat) (s : search) (c : CopyLoc) : Prop :=
  done_place K s (cl_places c).1 /\ done_place K s (cl_places c).2.

Record explored (not_yet : Z -> Prop) (vals : ValueVec) (E C : gset nat) (w : walk) : Prop := {
  ex_good : good (w_search w);
  ex_from v : v ∈ C ∪ list_to_set (w_work w) -> from vals (Vreg v);
  ex_live v : v ∈ known E C w -> live_place (Vreg v) = true -> is_Some (sr_vregs (w_search w) !! v);
  ex_visited id : id ∈ w_visited w ->
    exists c, is_copy c /\ mi_id (cl_instr c) = id /\ done_copy (known E C w) (w_search w) c;
  ex_slots SS c : ~ not_yet SS -> is_Some (sr_slots (w_search w) !! SS) -> init_s !! SS = None ->
    is_copy c -> cl_slot c = Some SS -> cl_vreg c ∈ known E C w;
  ex_closed v c : v ∈ E -> is_copy c -> (cl_places c).1 = Vreg v \/ (cl_places c).2 = Vreg v ->
    done_copy (known E C w) (w_search w) c
}.

(** What is left to do. *)
Definition all_ids : gset nat := list_to_set (mi_id <$> all_instrs fn).

Definition potential (w : walk) : nat := length (w_work w) + size (all_ids ∖ w_visited w).

Record extends (w w' : walk) : Prop := {
  xt_work v : v ∈ w_work w -> v ∈ w_work w';
  xt_entry x vals : entry (w_search w) x = Some vals -> entry (w_search w') x = Some vals;
  xt_potential : potential w' <= potential w
}.

(** ** Lemmas *)

(** *** Copies *)

Lemma copy_operands_spec ops s0 d0 s d : copy_operands ops s0 d0 = (s, d) ->
  (s = s0 \/ MO_Register s false ∈ ops) /\ (d = d0 \/ MO_Register d true ∈ ops).
Proof.
  revert s0 d0. induction ops as [|o ops IH]; intros s0 d0 E; cbn in E.
  - injection E as -> ->. by split; left.
  - assert (H : forall s0 d0, copy_operands ops s0 d0 = (s, d) ->
      (s = s0 \/ MO_Register s false ∈ o :: ops) /\ (d = d0 \/ MO_Register d true ∈ o :: ops)).
    { intros s1 d1 E1. destruct (IH _ _ E1) as [[H1|H1] [H2|H2]]; split; rewrite ?elem_of_cons; auto. }
    destruct o as [r []| | | | | | | |]; try by apply H.
    + destruct (H _ _ E) as [H1 [->|H2]]; split; try done; right; [by left|done].
    + destruct (H _ _ E) as [[->|H1] H2]; split; try done; right; [by left|done].
Qed.

Lemma load_store_instr i c : load_store T i = Some c -> cl_instr c = i.
Proof.
  unfold load_store. destruct (isLoadFromStackSlot T i) as [[[] ?]|]; try (by intros [= <-]);
    destruct (isStoreToStackSlot T i) as [[[] ?]|]; try done; by intros [= <-].
Qed.

Lemma copy_instr i c : getCopyLocation T i = Some c -> cl_instr c = i.
Proof.
  unfold getCopyLocation. destruct (isCopyLike T i); [|apply load_store_instr].
  destruct (copy_operands _ _ _) as [[|s] [|d]]; try apply load_store_instr. by intros [= <-].
Qed.

Section Laws.
Context `{HL : !MachineLaws T fn}.

Lemma same_id i j : i ∈ all_instrs fn -> j ∈ all_instrs fn -> mi_id i = mi_id j -> i = j.
Proof using HL.
  intros [k Hk]%list_elem_of_lookup [l Hl]%list_elem_of_lookup E.
  assert (k = l) as ->; [|congruence].
  eapply NoDup_lookup; [exact ml_ids| |]; rewrite list_lookup_fmap; [by rewrite Hk|by rewrite Hl, E].
Qed.

(** The three kinds of copies by what they define and use. *)
Lemma copy_kinds i c : getCopyLocation T i = Some c ->
  (exists d s, c = RegCopyLoc d s i /\ (forall v, defines_vreg i v <-> v = d) /\ forall v, uses_vreg i v <-> v = s) \/
  (exists d SS, c = StackLoadLoc d SS i /\ (forall v, defines_vreg i v <-> v = d) /\ forall v, ~ uses_vreg i v) \/
  (exists s SS, c = StackStoreLoc s SS i /\ (forall v, ~ defines_vreg i v) /\ forall v, uses_vreg i v <-> v = s).
Proof using HL.
  unfold getCopyLocation. destruct (isCopyLike T i) eqn:Ec.
  - destruct (ml_copy_only i Ec) as [El Es]. unfold load_store. rewrite El, Es.
    destruct (copy_operands _ _ _) as [[|s] [|d]] eqn:E; try done. intros [= <-]. left. exists d, s. split; [done|].
    apply copy_operands_spec in E as [[|Hs] [|Hd]]; try done.
    split; intros v; (split; [|intros ->; done]); intros Hv; [pose proof (ml_copy i _ _ _ Ec Hv Hd)|pose proof (ml_copy i _ _ _ Ec Hv Hs)];
      congruence.
  - unfold load_store. destruct (isLoadFromStackSlot T i) as [[r SS]|] eqn:El.
    + destruct (ml_load i r SS El) as [Es Hv]. rewrite Es. destruct r as [|d]; [done|]. intros [= <-]. right. left.
      exists d, SS. split; [done|]. split; intros v; [|apply Hv]. rewrite (proj1 (Hv v)). split; [by intros [= ->]|by intros ->].
    + destruct (isStoreToStackSlot T i) as [[r SS]|] eqn:Es; [|done]. pose proof (ml_store i r SS Es) as Hv.
      destruct r as [|s]; [done|]. intros [= <-]. right. right. exists s, SS. split; [done|].
      split; intros v; [apply Hv|]. rewrite (proj1 (Hv v)). split; [by intros [= ->]|by intros ->].
Qed.

Lemma def_copy i v c : i ∈ def_instrs T v -> getCopyLocation T i = Some c ->
  is_copy c /\ mi_id (cl_instr c) = mi_id i /\ (cl_places c).1 = Vreg v /\ forall s SS j, c <> StackStoreLoc s SS j.
Proof using HL.
  intros [Hi Hd]%(ml_def v) Hc. pose proof (copy_instr i c Hc) as E.
  split; [by split; rewrite E|]. split; [by rewrite E|].
  destruct (copy_kinds i c Hc) as [(d & s & -> & Hd' & _)|[(d & SS & -> & Hd' & _)|(s & SS & -> & Hn & _)]].
  - apply Hd' in Hd as ->. done.
  - apply Hd' in Hd as ->. done.
  - by destruct (Hn v).
Qed.

Lemma use_copy i v c : i ∈ use_instrs T v -> getCopyLocation T i = Some c ->
  is_copy c /\ mi_id (cl_instr c) = mi_id i /\ ((cl_places c).1 = Vreg v \/ (cl_places c).2 = Vreg v) /\
  (forall d SS j, c <> StackLoadLoc d SS j) /\ forall d s j, c = RegCopyLoc d s j -> s = v.
Proof using HL.
  intros [Hi Hd]%(ml_use v) Hc. pose proof (copy_instr i c Hc) as E.
  split; [by split; rewrite E|]. split; [by rewrite E|].
  destruct (copy_kinds i c Hc) as [(d & s & -> & _ & Hd')|[(d & SS & -> & _ & Hn)|(s & SS & -> & _ & Hd')]].
  - apply Hd' in Hd as ->. cbn. split; [by right|]. split; [done|]. by intros ? ? ? [= -> -> ->].
  - by destruct (Hn v).
  - apply Hd' in Hd as ->. cbn. split; [by right|]. split; done.
Qed.

(** A copy is found from each register it connects. *)
Lemma copy_found c v : is_copy c -> (cl_places c).1 = Vreg v \/ (cl_places c).2 = Vreg v ->
  cl_instr c ∈ def_instrs T v \/ cl_instr c ∈ use_instrs T v.
Proof using HL.
  intros [Hi Hc] Hv. rewrite ml_def, ml_use.
  destruct (copy_kinds _ c Hc) as [(d & s & E & Hd & Hu)|[(d & SS & E & Hd & _)|(s & SS & E & _ & Hu)]];
    rewrite E in Hv at 1 2; cbn in Hv; destruct Hv as [[= ->]|[= ->]].
  - left. split; [done|]. by apply Hd.
  - right. split; [done|]. by apply Hu.
  - left. split; [done|]. by apply Hd.
  - right. split; [done|]. by apply Hu.
Qed.

Lemma copy_vreg_phys c v : is_copy c -> (cl_places c).1 = Vreg v \/ (cl_places c).2 = Vreg v ->
  is_Some (getPhys T v) /\ v < getNumVirtRegs fn.
Proof using HL.
  intros Hc Hv.
  assert (Hr : cl_instr c ∈ all_instrs fn /\ (defines_vreg (cl_instr c) v \/ uses_vreg (cl_instr c) v)).
  { destruct (copy_found c v Hc Hv) as [[Hi Hd]%(ml_def v)|[Hi Hd]%(ml_use v)]; auto. }
  destruct Hr as [Hi Hr]. by eapply ml_phys.
Qed.

Lemma copy_unique c c' : is_copy c -> is_copy c' -> mi_id (cl_instr c) = mi_id (cl_instr c') -> c = c'.
Proof using HL.
  intros [Hi Hc] [Hi' Hc'] E. assert (Ei : cl_instr c = cl_instr c') by by apply same_id.
  rewrite Ei in Hc. congruence.
Qed.

End Laws.

(** *** The maps *)

Lemma add_locations_spec IRSM vals MLL L SM' V l :
  l ∈ duplicates (add_locations IRSM vals MLL L) SM' V <->
  l ∈ duplicates L SM' V \/ SM' = i_val IRSM /\ V ∈ vals /\ l = MLL.
Proof.
  unfold add_locations. revert L. induction vals as [|v vals IH]; intros L; cbn [foldl].
  - split; [by left|]. intros [|(_ & H%elem_of_nil & _)]; done.
  - rewrite IH, addSMOpLocation_spec, elem_of_cons. naive_solver.
Qed.

Lemma add_locations_arch IRSM vals MLL L :
  SMArchSpecificLocs (add_locations IRSM vals MLL L) = SMArchSpecificLocs L.
Proof. unfold add_locations. revert L. induction vals as [|v vals IH]; intros L; cbn [foldl]; [done|]. by rewrite IH. Qed.

(** An entry added keeps the invariant. *)
Lemma good_add s s' x vals l : good s -> entry s x = None -> live_place x = true -> from vals x -> place_loc x = Some l ->
  (forall y, entry s' y = if decide (y = x) then Some vals else entry s y) ->
  sr_locs s' = add_locations (getIRSM B) vals l (sr_locs s) -> good s'.
Proof.
  intros [Hk Ha Hl Hr] Hx Hlive Hfrom Hloc Hs' HL.
  assert (Hop : operand x = None).
  { destruct (operand x) eqn:E; [|done]. apply Hk in E. congruence. }
  assert (Hadd : forall y vs, added s' y vs <-> added s y vs \/ y = x /\ vs = vals).
  { intros y vs. unfold added. rewrite Hs'. case_decide as Hy; [subst y|]; naive_solver. }
  constructor.
  - intros y vs Hy. rewrite Hs'. case_decide as E; [subst; congruence|by apply Hk].
  - intros y vs [Hy|[-> ->]]%Hadd; [by apply Ha|done].
  - intros SM' V l'. rewrite HL, add_locations_spec, Hl. setoid_rewrite Hadd. naive_solver.
  - by rewrite HL, add_locations_arch.
Qed.

Lemma addVregMetadata_spec v vals s : good s -> from vals (Vreg v) -> is_Some (getPhys T v) ->
  exists s' b, addVregMetadata T v vals B s = Ret (s', b) /\ good s' /\
    (forall x vs, entry s x = Some vs -> entry s' x = Some vs) /\ sr_slots s' = sr_slots s /\
    (live_place (Vreg v) = true -> is_Some (sr_vregs s' !! v)).
Proof.
  intros Hg Hfrom [p Hp]. unfold addVregMetadata. rewrite Hp. cbn [get mbind outcome_bind].
  destruct (sr_vregs s !! v) as [vs|] eqn:Ev; cbn [andb bool_decide].
  { rewrite bool_decide_false by done. cbn. exists s, false. split; [done|]. split; [done|]. split; [done|].
    split; [done|]. intros _. by rewrite Ev. }
  rewrite bool_decide_true by done. cbn [andb]. change (_ || _) with (live_place (Vreg v)).
  destruct (live_place (Vreg v)) eqn:El; [|by exists s, false].
  eexists _, true. split; [done|].
  assert (Hent : forall y, entry (Search (<[v := vals]> (sr_vregs s)) (sr_slots s)
      (add_locations (getIRSM B) vals (MachineLiveReg (PhysReg p)) (sr_locs s))) y =
      if decide (y = Vreg v) then Some vals else entry s y).
  { intros [w|SS]; cbn; [|by rewrite decide_False]. destruct (decide (w = v)) as [->|Hn].
    - by rewrite lookup_insert_eq, decide_True.
    - rewrite lookup_insert_ne by done. rewrite decide_False; [done|]. congruence. }
  split; [|split; [|split; [done|intros _; cbn; by rewrite lookup_insert_eq]]].
  - eapply (good_add s _ (Vreg v) vals (MachineLiveReg (PhysReg p))); try done. cbn. by rewrite Hp.
  - intros x vs Hx. rewrite Hent. case_decide as E; [|done]. subst x. cbn in Hx. congruence.
Qed.

Lemma addSSMetadata_spec SS vals s : good s -> (through (Slot SS) -> from vals (Slot SS)) ->
  isDeadObjectIndex T SS = false ->
  exists s' b, addSSMetadata T SS vals B s = Ret (s', b) /\ good s' /\
    (forall x vs, entry s x = Some vs -> entry s' x = Some vs) /\ sr_vregs s' = sr_vregs s /\
    (forall SS', is_Some (sr_slots s' !! SS') -> SS' = SS \/ is_Some (sr_slots s !! SS')) /\
    (through (Slot SS) -> is_Some (sr_slots s' !! SS)) /\
    (if b then through (Slot SS) /\ from vals (Slot SS) /\ is_Some (sr_slots s' !! SS) else s' = s).
Proof.
  intros Hg Hfrom Hd. unfold addSSMetadata. rewrite Hd.
  destruct (sr_slots s !! SS) as [vs|] eqn:Ev.
  { rewrite bool_decide_false by done. cbn. exists s, false. do 4 (split; [by try done|]). split; [by right|].
    split; [by rewrite Ev|done]. }
  rewrite bool_decide_true by done. cbn [andb]. change (_ || _) with (live_place (Slot SS)).
  assert (Hop : init_s !! SS = None).
  { destruct (init_s !! SS) as [vs|] eqn:E; [|done]. pose proof (g_kept _ Hg (Slot SS) vs E) as H. cbn in H. congruence. }
  destruct (live_place (Slot SS)) eqn:El.
  2:{ exists s, false. do 4 (split; [by try done|]). split; [by right|]. split; [|done]. intros [_ H]. congruence. }
  assert (Ht : through (Slot SS)) by done. specialize (Hfrom Ht).
  eexists _, true. split; [done|].
  assert (Hent : forall y, entry (Search (sr_vregs s) (<[SS := vals]> (sr_slots s))
      (add_locations (getIRSM B) vals (MachineLiveStackSlot SS) (sr_locs s))) y =
      if decide (y = Slot SS) then Some vals else entry s y).
  { intros [w|SS']; cbn; [by rewrite decide_False|]. destruct (decide (SS' = SS)) as [->|Hn].
    - by rewrite lookup_insert_eq, decide_True.
    - rewrite lookup_insert_ne by done. rewrite decide_False; [done|]. congruence. }
  split; [by eapply (good_add s _ (Slot SS) vals (MachineLiveStackSlot SS))|].
  split; [|split; [done|split; [|cbn; by rewrite lookup_insert_eq]]].
  - intros x vs Hx. rewrite Hent. case_decide as E; [|done]. subst x. cbn in Hx. congruence.
  - cbn. intros SS'. destruct (decide (SS' = SS)) as [|Hn]; [by left|]. rewrite lookup_insert_ne by done. by right.
Qed.

(** *** One search *)

Section Walk.
Context `{HL : !MachineLaws T fn} (uses : StackSlotCopies) (Huses : uses_complete uses).

Abbreviation settled := (explored (fun _ => False)).

Lemma done_copy_mono K K' s s' c : done_copy K s c -> K ⊆ K' ->
  (forall x vs, entry s x = Some vs -> entry s' x = Some vs) -> done_copy K' s' c.
Proof.
  intros [Hd1 Hd2] HK Hs.
  assert (H : forall x, done_place K s x -> done_place K' s' x).
  { intros [v|SS]; [apply HK|]. intros Hd [vs Hvs]%Hd. exists vs. by apply (Hs (Slot SS)). }
  split; by apply H.
Qed.

Lemma done_joins K s c x y : joins c x y -> done_place K s x -> done_place K s y -> done_copy K s c.
Proof. by intros [E|E] Hx Hy; split; rewrite E. Qed.

Lemma potential_visit id (vis : gset nat) : id ∈ mi_id <$> all_instrs fn -> id ∉ vis ->
  size (all_ids ∖ ({[id]} ∪ vis)) + 1 = size (all_ids ∖ vis).
Proof.
  intros Hid%(elem_of_list_to_set (C := gset nat)) Hn. change (list_to_set _) with all_ids in Hid.
  assert (E : all_ids ∖ vis ≡ {[id]} ∪ (all_ids ∖ ({[id]} ∪ vis))).
  { intros x. destruct (decide (x = id)) as [->|]; set_solver. }
  assert (Hs : size ({[id]} ∪ all_ids ∖ ({[id]} ∪ vis)) = 1 + size (all_ids ∖ ({[id]} ∪ vis))).
  { rewrite size_union; [by rewrite size_singleton|]. set_solver. }
  rewrite E, Hs. lia.
Qed.

Lemma copy_id c : is_copy c -> mi_id (cl_instr c) ∈ mi_id <$> all_instrs fn.
Proof. intros [Hi _]. by apply list_elem_of_fmap_2. Qed.

(** A copy is visited and the register at its other end pushed. *)
Lemma explored_push ny vals E C w c v s' : explored ny vals E C w -> is_copy c ->
  mi_id (cl_instr c) ∉ w_visited w -> from vals (Vreg v) -> good s' ->
  (forall x vs, entry (w_search w) x = Some vs -> entry s' x = Some vs) -> sr_slots s' = sr_slots (w_search w) ->
  (live_place (Vreg v) = true -> is_Some (sr_vregs s' !! v)) ->
  done_copy (known E C w ∪ {[v]}) s' c ->
  let w' := Walk s' ({[mi_id (cl_instr c)]} ∪ w_visited w) (w_work w ++ [v]) in
  explored ny vals E C w' /\ extends w w' /\ v ∈ known E C w'.
Proof.
  intros [Hg Hf Hl Hv Hs Hc] Hcopy Hn Hfrom Hg' Hmono Hslots Hlive Hdone w'.
  assert (HK : known E C w' = known E C w ∪ {[v]}).
  { unfold known. cbn [w_work w']. rewrite list_to_set_app_L. set_solver. }
  split; [|split].
  - constructor; cbn [w_search w'].
    + done.
    + intros u Hu. cbn [w_work w'] in Hu. rewrite list_to_set_app_L in Hu.
      destruct (decide (u = v)) as [->|]; [done|]. apply Hf. set_solver.
    + intros u Hu Hlu. destruct (decide (u = v)) as [->|]; [by apply Hlive|].
      destruct (Hl u) as [vs Hvs]; [set_solver|done|]. exists vs. by apply (Hmono (Vreg u)).
    + intros id Hid. rewrite HK. cbn [w_visited w'] in Hid. apply elem_of_union in Hid as [->%elem_of_singleton|Hid].
      * exists c. done.
      * destruct (Hv id Hid) as (c' & Hc' & Eid & Hd'). exists c'. split; [done|]. split; [done|].
        eapply done_copy_mono; [done|set_solver|done].
    + intros SS c' HSS Hin Hi Hc' HcS. rewrite HK. rewrite Hslots in Hin.
      apply elem_of_union_l. by eapply Hs.
    + intros u c' Hu Hc' Hends. rewrite HK. eapply done_copy_mono; [by eapply Hc|set_solver|done].
  - constructor; cbn.
    + intros u Hu. apply elem_of_app. by left.
    + done.
    + unfold potential. cbn. rewrite length_app. cbn.
      pose proof (potential_visit _ (w_visited w) (copy_id c Hcopy) Hn). lia.
  - rewrite HK. set_solver.
Qed.

Lemma walk_extends_refl w : extends w w.
Proof. by constructor. Qed.

Lemma walk_extends_trans w1 w2 w3 : extends w1 w2 -> extends w2 w3 -> extends w1 w3.
Proof. intros [H1 H2 H3] [H4 H5 H6]. constructor; [by auto|by auto|lia]. Qed.

Lemma known_extends E C w w' : extends w w' -> known E C w ⊆ known E C w'.
Proof. intros [Hw _ _]. unfold known. set_solver. Qed.

Lemma done_copy_extends E C w w' c : extends w w' ->
  done_copy (known E C w) (w_search w) c -> done_copy (known E C w') (w_search w') c.
Proof. intros Hx Hd. eapply done_copy_mono; [done|by apply known_extends|apply Hx]. Qed.

Lemma slot_joins c SS : cl_slot c = Some SS -> joins c (Slot SS) (Vreg (cl_vreg c)).
Proof. destruct c; cbn; [done|intros [= ->]..]; [by right|by left]. Qed.

(** The copies to and from a slot that was just added. *)
Lemma search_copies_spec SS vals E C CL w : explored (eq SS) vals E C w -> from vals (Slot SS) ->
  is_Some (sr_slots (w_search w) !! SS) -> (forall c, c ∈ CL -> is_copy c /\ cl_slot c = Some SS) ->
  exists w', search_copies T vals B CL w = Ret w' /\ explored (eq SS) vals E C w' /\ extends w w' /\
    forall c, c ∈ CL -> cl_vreg c ∈ known E C w'.
Proof.
  revert w. induction CL as [|c CL IH]; intros w He Hfrom Hin HCL.
  { exists w. split; [done|]. split; [done|]. split; [apply walk_extends_refl|]. by intros c ?%elem_of_nil. }
  destruct (HCL c) as [Hc HcS]; [by left|]. pose proof (slot_joins c SS HcS) as Hj. cbn [search_copies].
  assert (Hend : (cl_places c).1 = Vreg (cl_vreg c) \/ (cl_places c).2 = Vreg (cl_vreg c)).
  { destruct Hj as [->| ->]; [by right|by left]. }
  case_decide as Hvis.
  - destruct (IH w He Hfrom Hin) as (w' & E1 & He' & Hx & Hall); [intros c' Hc'; apply HCL; by right|].
    exists w'. split; [done|]. split; [done|]. split; [done|]. intros c' [->|Hc']%elem_of_cons; [|by apply Hall].
    destruct (ex_visited _ _ _ _ _ He _ Hvis) as (c'' & Hc'' & Eid & Hd). apply copy_unique in Eid; [|done..]. subst c''.
    eapply known_extends; [done|]. destruct Hd as [Hd1 Hd2], Hend as [Ec|Ec]; [by rewrite Ec in Hd1|by rewrite Ec in Hd2].
  - assert (Hfv : from vals (Vreg (cl_vreg c))).
    { destruct Hfrom as (r & Hr & Hlink). exists r. split; [done|]. by eapply linked_copy. }
    destruct (addVregMetadata_spec (cl_vreg c) vals (w_search w)) as (s' & b & -> & Hg & Hm & Hsl & Hlv);
      [apply He|done|by eapply (copy_vreg_phys c)|]. cbn [mbind outcome_bind].
    destruct (explored_push (eq SS) vals E C w c (cl_vreg c) s') as (He1 & Hx1 & Hk1); try done.
    { eapply done_joins; [exact Hj|intros _; by rewrite Hsl|]. by apply elem_of_union_r, elem_of_singleton. }
    destruct (IH _ He1 Hfrom) as (w' & E1 & He' & Hx & Hall); [cbn; by rewrite Hsl|intros c' Hc'; apply HCL; by right|].
    exists w'. split; [done|]. split; [done|]. split; [by eapply walk_extends_trans|].
    intros c' [->|Hc']%elem_of_cons; [|by apply Hall]. by eapply known_extends.
Qed.

Lemma walk_vreg_spec vals E cur c v w : settled vals E {[cur]} w -> is_copy c -> joins c (Vreg cur) (Vreg v) ->
  mi_id (cl_instr c) ∉ w_visited w ->
  exists w', walk_vreg T v (cl_instr c) vals B w = Ret w' /\ settled vals E {[cur]} w' /\ extends w w' /\
    done_copy (known E {[cur]} w') (w_search w') c.
Proof.
  intros He Hc Hj Hn. unfold walk_vreg.
  assert (Hfv : from vals (Vreg v)).
  { destruct (ex_from _ _ _ _ _ He cur) as (r & Hr & Hlink); [set_solver|]. exists r. split; [done|].
    by eapply linked_copy. }
  assert (Hend : (cl_places c).1 = Vreg v \/ (cl_places c).2 = Vreg v).
  { destruct Hj as [->| ->]; [by right|by left]. }
  destruct (addVregMetadata_spec v vals (w_search w)) as (s' & b & -> & Hg & Hm & Hsl & Hlv);
    [apply He|done|by eapply (copy_vreg_phys c)|]. cbn [mbind outcome_bind].
  assert (Hd : done_copy (known E {[cur]} w ∪ {[v]}) s' c).
  { eapply done_joins; [exact Hj|cbn; unfold known; set_solver|]. by apply elem_of_union_r, elem_of_singleton. }
  destruct (explored_push (fun _ => False) vals E {[cur]} w c v s') as (He1 & Hx1 & Hk1); try done.
  eexists. split; [done|]. split; [done|]. split; [done|].
  eapply done_copy_mono; [done| |done]. pose proof (known_extends E {[cur]} _ _ Hx1). set_solver.
Qed.

Lemma walk_slot_spec vals E cur c SS w : settled vals E {[cur]} w -> is_copy c -> cl_slot c = Some SS ->
  cl_vreg c = cur -> mi_id (cl_instr c) ∉ w_visited w ->
  exists w', walk_slot T uses SS (cl_instr c) vals B w = Ret w' /\ settled vals E {[cur]} w' /\ extends w w' /\
    done_copy (known E {[cur]} w') (w_search w') c.
Proof using HL Huses.
  intros He Hc HcS Hcur Hn. unfold walk_slot. pose proof (slot_joins c SS HcS) as Hj. rewrite Hcur in Hj.
  assert (Hfs : through (Slot SS) -> from vals (Slot SS)).
  { intros Ht. destruct (ex_from _ _ _ _ _ He cur) as (r & Hr & Hlink); [set_solver|]. exists r. split; [done|].
    eapply linked_copy; [done..| |done]. destruct Hj; [by right|by left]. }
  destruct (addSSMetadata_spec SS vals (w_search w)) as (s' & b & -> & Hg & Hm & Hvr & Hin & Ht & Hb);
    [apply He|done|destruct Hc as [Hi Hc']; by eapply (ml_slot (cl_instr c))|]. cbn [mbind outcome_bind].
  assert (Hd : done_copy (known E {[cur]} w) s' c).
  { eapply done_joins; [exact Hj|done|cbn; unfold known; set_solver]. }
  destruct b.
  - destruct Hb as (Hthr & Hfrom & Hsome).
    set (w1 := Walk s' ({[mi_id (cl_instr c)]} ∪ w_visited w) (w_work w)).
    assert (Hx1 : extends w w1).
    { constructor; [done|done|]. unfold potential. cbn.
      pose proof (potential_visit _ (w_visited w) (copy_id c Hc) Hn). lia. }
    assert (He1 : explored (eq SS) vals E {[cur]} w1).
    { destruct He as [_ Hf Hl Hv Hs Hcl]. constructor; cbn.
      - done.
      - done.
      - intros u Hu Hlu. rewrite Hvr. by apply Hl.
      - intros id [->%elem_of_singleton|Hid]%elem_of_union; [by exists c|].
        destruct (Hv id Hid) as (c' & Hc' & Eid & Hd'). exists c'. split; [done|]. split; [done|].
        by eapply (done_copy_extends _ _ w w1).
      - intros SS' c' Hne Hin' Hi Hc' HcS'. apply Hin in Hin' as [->|Hin']; [done|]. by apply (Hs SS' c' (fun H => H)).
      - intros u c' Hu Hc' Hends. eapply (done_copy_extends _ _ w w1); [done|]. by eapply Hcl. }
    unfold searchStackSlotCopies. pose proof (Huses SS) as Hall.
    destruct (uses !! SS) as [CL|]; cbn [default] in Hall.
    + destruct (search_copies_spec SS vals E {[cur]} CL w1 He1 Hfrom Hsome) as (w' & E1 & He' & Hx & HK);
        [by intros c' Hc'; apply Hall|].
      exists w'. split; [done|]. split; [|split; [by eapply walk_extends_trans|by eapply (done_copy_extends _ _ w1)]].
      destruct He' as [H1 H2 H3 H4 H5 H6]. constructor; try done.
      intros SS' c' _ Hin' Hi Hc' HcS'. destruct (decide (SS = SS')) as [->|Hne]; [|by eapply (H5 SS')].
      apply HK. by apply Hall.
    + assert (Hno : c ∈ @nil CopyLoc) by by apply Hall. by apply elem_of_nil in Hno.
  - subst s'. exists w. split; [by destruct w|]. split; [done|]. split; [apply walk_extends_refl|done].
Qed.

Definition step_ok (step : minstr -> walk -> outcome walk) (instrs : list minstr) (vals : ValueVec) (E : gset nat)
    (cur : nat) : Prop :=
  forall i w, i ∈ instrs -> settled vals E {[cur]} w ->
  exists w', step i w = Ret w' /\ settled vals E {[cur]} w' /\ extends w w' /\
    forall c, getCopyLocation T i = Some c -> done_copy (known E {[cur]} w') (w_search w') c.

Lemma visited_done vals E C w c : settled vals E C w -> is_copy c -> mi_id (cl_instr c) ∈ w_visited w ->
  done_copy (known E C w) (w_search w) c.
Proof.
  intros He Hc Hv. destruct (ex_visited _ _ _ _ _ He _ Hv) as (c' & Hc' & Eid & Hd).
  apply copy_unique in Eid; [by subst|done..].
Qed.

Lemma walk_def_ok vals E cur : step_ok (walk_def T uses vals B) (def_instrs T cur) vals E cur.
Proof using HL Huses.
  intros i w Hi He. unfold walk_def. destruct (getCopyLocation T i) as [c|] eqn:Ec.
  - destruct (def_copy i cur c Hi Ec) as (Hc & Eid & Hpl & Hns). pose proof (copy_instr i c Ec) as Ei. rewrite <- Ei in *.
    case_decide as Hv.
    { exists w. split; [done|]. split; [done|]. split; [apply walk_extends_refl|]. intros c' [= <-]. by eapply visited_done. }
    destruct c as [d s j|d SS j|s SS j]; [| |by destruct (Hns s SS j)]; cbn in Hpl; injection Hpl as ->.
    + destruct (walk_vreg_spec vals E cur (RegCopyLoc cur s j) s w) as (w' & E1 & He' & Hx & Hd); try done; [by left|].
      exists w'. do 3 (split; [done|]). by intros c' [= <-].
    + destruct (walk_slot_spec vals E cur (StackLoadLoc cur SS j) SS w) as (w' & E1 & He' & Hx & Hd); try done.
      exists w'. do 3 (split; [done|]). by intros c' [= <-].
  - exists w. split; [by case_decide|]. split; [done|]. split; [apply walk_extends_refl|done].
Qed.

Lemma walk_use_ok vals E cur : step_ok (walk_use T uses vals B) (use_instrs T cur) vals E cur.
Proof using HL Huses.
  intros i w Hi He. unfold walk_use. destruct (getCopyLocation T i) as [c|] eqn:Ec.
  - destruct (use_copy i cur c Hi Ec) as (Hc & Eid & Hpl & Hnl & Hrs). pose proof (copy_instr i c Ec) as Ei. rewrite <- Ei in *.
    case_decide as Hv.
    { exists w. split; [done|]. split; [done|]. split; [apply walk_extends_refl|]. intros c' [= <-]. by eapply visited_done. }
    destruct c as [d s j|d SS j|s SS j]; [|by destruct (Hnl d SS j)|].
    + pose proof (Hrs _ _ _ eq_refl) as ->.
      destruct (walk_vreg_spec vals E cur (RegCopyLoc d cur j) d w) as (w' & E1 & He' & Hx & Hd); try done; [by right|].
      exists w'. do 3 (split; [done|]). by intros c' [= <-].
    + assert (s = cur) as -> by (cbn in Hpl; destruct Hpl; congruence).
      destruct (walk_slot_spec vals E cur (StackStoreLoc cur SS j) SS w) as (w' & E1 & He' & Hx & Hd); try done.
      exists w'. do 3 (split; [done|]). by intros c' [= <-].
  - exists w. split; [by case_decide|]. split; [done|]. split; [apply walk_extends_refl|done].
Qed.

Lemma walk_all_spec step instrs vals E cur w : step_ok step instrs vals E cur -> settled vals E {[cur]} w ->
  exists w', walk_all step instrs w = Ret w' /\ settled vals E {[cur]} w' /\ extends w w' /\
    forall i c, i ∈ instrs -> getCopyLocation T i = Some c -> done_copy (known E {[cur]} w') (w_search w') c.
Proof.
  revert w. induction instrs as [|i instrs IH]; intros w Hok He.
  { exists w. split; [done|]. split; [done|]. split; [apply walk_extends_refl|]. by intros i c ?%elem_of_nil. }
  destruct (Hok i w) as (w1 & E1 & He1 & Hx1 & Hd1); [by left|done|]. cbn. rewrite E1. cbn [mbind outcome_bind].
  destruct (IH w1) as (w' & E' & He' & Hx' & Hd'); [intros j w2 Hj; apply Hok; by right|done|].
  exists w'. split; [done|]. split; [done|]. split; [by eapply walk_extends_trans|].
  intros j c [->|Hj]%elem_of_cons Hc; [|by eapply Hd']. eapply done_copy_extends; [done|]. by apply Hd1.
Qed.

(** The queue runs empty. *)
Lemma work_loop_spec fuel vals E w : settled vals E ∅ w -> potential w <= fuel ->
  exists w' E', work_loop T fuel uses vals B w = Ret w' /\ settled vals E' ∅ w' /\ w_work w' = [] /\
    (forall v, v ∈ E \/ v ∈ w_work w -> v ∈ E') /\
    forall x vs, entry (w_search w) x = Some vs -> entry (w_search w') x = Some vs.
Proof using HL Huses.
  revert E w. induction fuel as [|fuel IH]; intros E [s vis work] He Hp.
  - destruct work; [|unfold potential in Hp; cbn in Hp; lia]. exists (Walk s vis []), E. split; [done|]. split; [done|].
    split; [done|]. split; [|done]. by intros v [|?%elem_of_nil].
  - destruct work as [|cur work].
    { exists (Walk s vis []), E. split; [done|]. split; [done|]. split; [done|]. split; [|done]. by intros v [|?%elem_of_nil]. }
    cbn [work_loop w_work w_search w_visited].
    assert (He0 : settled vals E {[cur]} (Walk s vis work)).
    { assert (HK : known E {[cur]} (Walk s vis work) = known E ∅ (Walk s vis (cur :: work))) by (unfold known; cbn; set_solver).
      destruct He as [H1 H2 H3 H4 H5 H6]. constructor; rewrite ?HK; try done. intros v Hv. apply H2. cbn in *. set_solver. }
    destruct (walk_all_spec _ _ vals E cur _ (walk_def_ok vals E cur) He0) as (w1 & -> & He1 & Hx1 & Hd1).
    cbn [mbind outcome_bind].
    destruct (walk_all_spec _ _ vals E cur _ (walk_use_ok vals E cur) He1) as (w2 & -> & He2 & Hx2 & Hd2).
    cbn [mbind outcome_bind]. pose proof (walk_extends_trans _ _ _ Hx1 Hx2) as Hx.
    assert (He3 : settled vals (E ∪ {[cur]}) ∅ w2).
    { assert (HK : known (E ∪ {[cur]}) ∅ w2 = known E {[cur]} w2) by (unfold known; set_solver).
      destruct He2 as [H1 H2 H3 H4 H5 H6]. constructor; rewrite ?HK; try done.
      - intros v Hv. apply H2. set_solver.
      - intros v c [Hv| ->%elem_of_singleton]%elem_of_union Hc Hends; [by eapply H6|].
        destruct (copy_found c cur Hc Hends) as [Hi|Hi]; destruct Hc as [_ Hc].
        + eapply done_copy_extends; [exact Hx2|]. by eapply Hd1.
        + by eapply Hd2. }
    destruct (IH _ w2 He3) as (w' & E' & E1 & He' & Hw' & Hin & Hm').
    { pose proof (xt_potential _ _ Hx). unfold potential in *. cbn in *. lia. }
    exists w', E'. split; [done|]. split; [done|]. split; [done|]. split.
    + intros v [Hv|[->|Hv]%elem_of_cons]; apply Hin; [left; set_solver|left; set_solver|right].
      by apply (xt_work _ _ Hx).
    + intros x vs Hxv. apply Hm'. by apply (xt_entry _ _ Hx).
Qed.

End Walk.

End Search.
