(* ===== verification/AltLocs.v ===== *)
(** * The alternate locations of a stack map

    The whole search of [StackTransform.findAlternateVregLocs], which goes on to
    registers that it adds itself: it ends, and records exactly the live places
    that copies connect to the operands. *)

From S2P Require Import Prelude IR MachineIR StackTransform CopySearch.

#[local] Open Scope nat_scope.

(** ** Lemmas *)

Lemma next_vreg_spec from (m : RegValsMap) :
  match next_vreg from m with
  | Some v => from <= v /\ is_Some (m !! v) /\ forall k, is_Some (m !! k) -> from <= k -> v <= k
  | None => forall k, is_Some (m !! k) -> k < from
  end.
Proof.
  unfold next_vreg. set (ks := filter _ _).
  assert (Hks : forall k, k ∈ ks <-> from <= k /\ is_Some (m !! k)).
  { intros k. unfold ks. rewrite list_elem_of_filter, list_elem_of_fmap. split.
    - intros [Hk ([k' vs] & -> & Hin%elem_of_map_to_list)]. split; [done|by exists vs].
    - intros [Hk [vs Hvs]]. split; [done|]. exists (k, vs). split; [done|]. by apply elem_of_map_to_list. }
  assert (Hmin : forall ks, match foldr (fun k acc => Some (match acc with Some a => Nat.min k a | None => k end)) None ks with
    | Some v => v ∈ ks /\ forall k, k ∈ ks -> v <= k
    | None => ks = []
    end).
  { clear. induction ks as [|k ks IH]; cbn; [done|].
    destruct (foldr _ None ks) as [a|]; [destruct IH as [Ha Hall]|subst ks].
    - split; [|intros j [->|Hj]%elem_of_cons; [lia|specialize (Hall j Hj); lia]].
      destruct (Nat.min_spec k a) as [[_ ->]|[_ ->]]; [by left|by right].
    - split; [by left|]. by intros j ->%list_elem_of_singleton. }
  specialize (Hmin ks). destruct (foldr _ None ks) as [v|].
  - destruct Hmin as [Hv Hall]. apply Hks in Hv as [? ?]. split; [done|]. split; [done|].
    intros k Hk Hf. by apply Hall, Hks.
  - intros k Hk. destruct (decide (from <= k)) as [Hle|]; [|lia].
    assert (Hin : k ∈ ks) by by apply Hks. rewrite Hmin in Hin. by apply elem_of_nil in Hin.
Qed.

Lemma size_all_ids fn : size (all_ids fn) <= length (all_instrs fn).
Proof.
  unfold all_ids. induction (all_instrs fn) as [|i l IH]; cbn; [by rewrite size_empty|].
  rewrite size_union_alt, size_singleton.
  assert (size (list_to_set (mi_id <$> l) ∖ {[mi_id i]} : gset nat) <= size (list_to_set (mi_id <$> l) : gset nat))
    by (apply subseteq_size; set_solver). lia.
Qed.

Lemma joins_slot c SS y : joins c (Slot SS) y -> cl_slot c = Some SS /\ y = Vreg (cl_vreg c).
Proof. destruct c; intros [E|E]; cbn in *; split; congruence. Qed.

Section Find.
Context (T : llvm) (fn : MachineFunction) `{HL : !MachineLaws T fn}.
Context (B : SMInstBundle) (init_v : RegValsMap) (init_s : StackValsMap) (L0 : sm_locations).
Context (uses : StackSlotCopies) (Huses : uses_complete T fn uses).
Context (Hinit : forall v, is_Some (init_v !! v) -> v < getNumVirtRegs fn).

Abbreviation good := (good T fn B init_v init_s L0).
Abbreviation settled := (explored T fn B init_v init_s L0 (fun _ => False)).
Abbreviation linked := (linked T fn B init_s).
Abbreviation from := (from T fn B init_v init_s).

Lemma linked_bound r v : is_Some (init_v !! r) -> linked r (Vreg v) -> v < getNumVirtRegs fn.
Proof using HL Hinit.
  intros Hr. inversion 1 as [|x y c Hx Hc Hj Ht]; subst; [by apply Hinit|].
  eapply (copy_vreg_phys T fn c v); [done|]. destruct Hj as [-> | ->]; [by right|by left].
Qed.

Lemma linked_trans r v x : linked r (Vreg v) -> linked v x -> linked r x.
Proof. intros Hv. induction 1; [done|]. by eapply linked_copy. Qed.

(** The maps between two searches. *)
Definition between (E : gset nat) (s : search) : Prop := forall vals, settled vals E ∅ (Walk s ∅ []).

Lemma settled_between vals E w : settled vals E ∅ w -> w_work w = [] -> between E (w_search w).
Proof.
  intros [H1 H2 H3 H4 H5 H6] Hw vals'.
  assert (HK : known E ∅ (Walk (w_search w) ∅ []) = known E ∅ w) by (unfold known; by rewrite Hw).
  constructor; rewrite ?HK; try done.
Qed.

Lemma between_start E s v vals : between E s -> sr_vregs s !! v = Some vals -> settled vals E ∅ (Walk s ∅ [v]).
Proof.
  intros Hb Hv. destruct (Hb vals) as [H1 H2 H3 H4 H5 H6].
  assert (HK : known E ∅ (Walk s ∅ [v]) = known E ∅ (Walk s ∅ []) ∪ {[v]}) by (unfold known; cbn; set_solver).
  constructor; rewrite ?HK; cbn.
  - done.
  - intros u Hu. assert (u = v) as -> by set_solver. cbn in H1.
    destruct (init_v !! v) as [vs|] eqn:Ei.
    + pose proof (g_kept _ _ _ _ _ _ _ H1 (Vreg v) vs Ei) as Hvs. cbn in Hvs. rewrite Hv in Hvs. injection Hvs as ->.
      exists v. split; [done|constructor].
    + by apply (g_added _ _ _ _ _ _ _ H1 (Vreg v) vals).
  - intros u [Hu| ->%elem_of_singleton]%elem_of_union Hl; [by apply H3|by eexists].
  - done.
  - intros SS c Hn HS Hi Hc Hsl. apply elem_of_union_l. by apply (H5 SS c).
  - intros u c Hu Hc He. eapply done_copy_mono; [by eapply H6|set_solver|done].
Qed.

Lemma entry_bound s v : good s -> is_Some (sr_vregs s !! v) -> v < getNumVirtRegs fn.
Proof using HL Hinit.
  intros Hg [vals Hv]. destruct (init_v !! v) eqn:Ei; [by apply Hinit|].
  destruct (g_added _ _ _ _ _ _ _ Hg (Vreg v) vals) as [_ (r & Hr & Hl)]; [done|]. by eapply linked_bound.
Qed.

Lemma vregs_loop_spec fuel wfuel from E s : between E s ->
  (forall v, is_Some (init_v !! v) -> v < from -> v ∈ E) ->
  getNumVirtRegs fn <= from + fuel -> length (all_instrs fn) + 1 <= wfuel ->
  exists s' E', vregs_loop T fuel wfuel uses from B s = Ret s' /\ between E' s' /\
    forall v, is_Some (init_v !! v) -> v ∈ E'.
Proof using HL Huses Hinit.
  revert from E s. induction fuel as [|fuel IH]; intros from E s Hb HE Hf Hw; pose proof (next_vreg_spec from (sr_vregs s)) as Hnext;
    pose proof (ex_good _ _ _ _ _ _ _ _ _ _ _ (Hb [])) as Hg; cbn in Hg; cbn [vregs_loop].
  - destruct (next_vreg from (sr_vregs s)) as [v|].
    + destruct Hnext as (Hle & Hv & _). pose proof (entry_bound s v Hg Hv). lia.
    + exists s, E. split; [done|]. split; [done|]. intros v [vs Hv]. apply HE; [done|]. apply Hnext. exists vs.
      by apply (g_kept _ _ _ _ _ _ _ Hg (Vreg v)).
  - destruct (next_vreg from (sr_vregs s)) as [v|].
    + destruct Hnext as (Hle & [vals Hv] & Hall). rewrite Hv. cbn [get mbind outcome_bind].
      destruct (work_loop_spec T fn B init_v init_s L0 uses Huses wfuel vals E (Walk s ∅ [v]))
        as (w' & E' & -> & He' & Hw' & Hin & Hm); [by apply between_start| |].
      { unfold potential. cbn. pose proof (size_all_ids fn). rewrite difference_empty_L. lia. }
      cbn [mbind outcome_bind]. apply (IH _ E'); [by eapply settled_between| |lia|done].
      intros u Hu Hlt. apply Hin. destruct (decide (u = v)) as [->|Hne]; [by right; left|]. left. apply HE; [done|].
      assert (Hsu : is_Some (sr_vregs s !! u)).
      { destruct Hu as [vs Hvs]. exists vs. by apply (g_kept _ _ _ _ _ _ _ Hg (Vreg u)). }
      destruct (decide (u < from)) as [|Hge]; [done|]. specialize (Hall u Hsu). lia.
    + exists s, E. split; [done|]. split; [done|]. intros v [vs Hv]. apply HE; [done|]. apply Hnext. exists vs.
      by apply (g_kept _ _ _ _ _ _ _ Hg (Vreg v)).
Qed.

Lemma between_linked E s r x : between E s -> r ∈ E -> linked r x ->
  match x with Vreg v => v ∈ E | Slot SS => is_Some (sr_slots s !! SS) end.
Proof using HL Huses Hinit.
  intros Hb Hr. destruct (Hb []) as [_ _ _ _ Hs Hc]. cbn in Hs, Hc.
  assert (HK : known E ∅ (Walk s ∅ []) = E) by (unfold known; cbn; set_solver).
  rewrite HK in *.
  induction 1 as [|x y c Hx IH Hcopy Hj Ht]; [done|].
  destruct x as [v|SS].
  - assert (Hend : (cl_places c).1 = Vreg v \/ (cl_places c).2 = Vreg v) by (destruct Hj as [-> | ->]; auto).
    destruct (Hc v c IH Hcopy Hend) as [Hd1 Hd2].
    assert (Hd : done_place T B init_s E s y) by (destruct Hj as [Ec|Ec]; by rewrite Ec in *).
    destruct y; [done|]. by apply Hd.
  - assert (Hi : init_s !! SS = None) by (inversion Hx as [|? ? ? ? ? ? Ht1]; subst; apply Ht1).
    apply joins_slot in Hj as [HS ->]. by apply (Hs SS c (fun H => H)).
Qed.

(** Enough fuel: a register in each round, an instruction for each element of a
    queue. *)
Lemma find_spec fuel wfuel : getNumVirtRegs fn <= fuel -> length (all_instrs fn) + 1 <= wfuel ->
  exists s, vregs_loop T fuel wfuel uses 0 B (Search init_v init_s L0) = Ret s /\ good s /\
    forall r x, is_Some (init_v !! r) -> linked r x -> live_place T B x = true -> is_Some (entry s x).
Proof using HL Huses Hinit.
  intros Hf Hw. destruct (vregs_loop_spec fuel wfuel 0 ∅ (Search init_v init_s L0)) as (s & E & Hrun & Hb & HE).
  - intros vals. constructor; cbn; try set_solver.
    + constructor; cbn.
      * done.
      * intros [v|SS] vs [Hv Hn]; cbn in *; congruence.
      * intros SM' V l. split; [by left|]. intros [|(_ & [v|SS] & vs & [Hv Hn] & _)]; cbn in *; congruence.
      * done.
    + intros SS c _ [vs HS] Hn. congruence.
  - lia.
  - done.
  - done.
  - exists s. split; [done|]. split; [apply (ex_good _ _ _ _ _ _ _ _ _ _ _ (Hb []))|].
    intros r x Hr Hl Hlive. pose proof (between_linked E s r x Hb (HE r Hr) Hl) as Hx. destruct x as [v|SS]; [|done].
    apply (ex_live _ _ _ _ _ _ _ _ _ _ _ (Hb []) v); [|done]. unfold known. set_solver.
Qed.

End Find.
