(* ===== verification/AltResults.v ===== *)
(** * The stack transformation metadata pass: results

    What the pass records for a stack map: alternate locations ([AltLocs]), and
    that nothing live across a call is lost without a warning. *)

From S2P Require Import Prelude IR MachineIR StackTransform CopySearch AltLocs.

#[local] Open Scope nat_scope.

(** ** Lemmas *)

Section Blocks.
Context (T : llvm) (F : func) (fn : MachineFunction) `{HL : !MachineLaws T fn}.

(** The copies of a list of instructions to and from a slot. *)
Definition slot_copies (insts : list minstr) (SS : Z) : list CopyLoc :=
  filter (fun c => cl_slot c = Some SS) (omap (getCopyLocation T) insts).

Definition same_uses (insts : list minstr) (uses : StackSlotCopies) : Prop :=
  forall SS, default [] (uses !! SS) = slot_copies insts SS.

Lemma slot_copies_app insts insts' SS : slot_copies (insts ++ insts') SS = slot_copies insts SS ++ slot_copies insts' SS.
Proof. unfold slot_copies. by rewrite omap_app, filter_app. Qed.

Lemma slot_copies_one i SS : slot_copies [i] SS =
  match getCopyLocation T i with
  | Some c => if decide (cl_slot c = Some SS) then [c] else []
  | None => []
  end.
Proof. unfold slot_copies. cbn [omap list_omap]. by destruct (getCopyLocation T i). Qed.

Lemma add_use_spec insts uses i c : same_uses insts uses -> getCopyLocation T i = Some c ->
  same_uses (insts ++ [i]) (add_use c uses).
Proof.
  intros Hu Hc SS. rewrite slot_copies_app, slot_copies_one, Hc. unfold add_use.
  destruct (cl_slot c) as [SS'|] eqn:Es; [|by rewrite decide_False, app_nil_r].
  destruct (decide (SS' = SS)) as [->|Hn].
  - by rewrite lookup_insert_eq, decide_True, <- Hu.
  - rewrite lookup_insert_ne, decide_False, app_nil_r by congruence. apply Hu.
Qed.

Lemma no_use_spec insts uses i : same_uses insts uses -> getCopyLocation T i = None -> same_uses (insts ++ [i]) uses.
Proof. intros Hu Hc SS. rewrite slot_copies_app, slot_copies_one, Hc, app_nil_r. apply Hu. Qed.

Lemma stackmap_no_copy i : getOpcode i = STACKMAP -> getCopyLocation T i = None.
Proof using HL.
  intros (E1 & E2 & E3)%ml_stackmap. unfold getCopyLocation, load_store. by rewrite E1, E2, E3.
Qed.

(** A stack map and its call, in a block. *)
Definition bundled (B : SMInstBundle) (insts : list minstr) : Prop :=
  exists pre post, insts = pre ++ getMISM B :: post /\ getOpcode (getMISM B) = STACKMAP /\
    getMICall B ∈ pre /\ isCall T (getMICall B) = true.

Lemma bundled_app B insts insts' insts'' : bundled B insts' -> bundled B (insts ++ insts' ++ insts'').
Proof.
  intros (pre & post & -> & Ho & Hp & Hc). exists (insts ++ pre), (post ++ insts''). rewrite <- !app_assoc. split; [done|].
  split; [done|]. split; [|done]. apply elem_of_app. by right.
Qed.

Lemma find_call_spec rev MCI : find_call T rev = Some MCI -> MCI ∈ rev /\ isCall T MCI = true.
Proof.
  induction rev as [|i rev IH]; cbn; [done|]. destruct (isCall T i) eqn:Ec.
  - case_decide; [done|]. intros [= <-]. split; [by left|done].
  - intros [? ?]%IH. split; [by right|done].
Qed.

Lemma find_in_block_spec BB before rest st st' : find_in_block T F BB before rest st = Ret st' ->
  forall insts, same_uses insts st.2 -> same_uses (insts ++ rest) st'.2 /\
    forall B, B ∈ st'.1 -> B ∈ st.1 \/ bundled B (before ++ rest).
Proof using HL.
  revert before st. induction rest as [|i rest IH]; intros before st; cbn [find_in_block].
  { intros [= ->] insts Hu. rewrite app_nil_r. split; [done|by left]. }
  intros (st1 & E1 & E2)%outcome_bind_Ret insts Hu.
  assert (H1 : same_uses (insts ++ [i]) st1.2 /\ forall B, B ∈ st1.1 -> B ∈ st.1 \/ bundled B (before ++ [i])).
  { case_decide as Ho.
    - inv_outcome. destruct x as [| ID | | | | | | |]; try done. inv_outcome.
      assert (Hn : same_uses (insts ++ [i]) st.2) by (apply no_use_spec; [done|by apply stackmap_no_copy]).
      destruct (find_call T (reverse before)) as [MCI|] eqn:Ef; injection E1 as <-; [|split; [done|by left]].
      split; [done|]. intros B [| ->%list_elem_of_singleton]%elem_of_app; [by left|]. right.
      apply find_call_spec in Ef as [Hin Hcall]. rewrite elem_of_reverse in Hin.
      exists before, []. cbn. auto.
    - destruct (getCopyLocation T i) as [c|] eqn:Ec; injection E1 as <-; cbn; (split; [|by left]).
      + by apply add_use_spec.
      + by apply no_use_spec. }
  destruct H1 as [Hu1 HB1]. destruct (IH _ _ E2 _ Hu1) as [Hu2 HB2]. rewrite <- app_assoc in Hu2. split; [done|].
  intros B HB. rewrite <- app_assoc in HB2. destruct (HB2 B HB) as [HB'|]; [|by right].
  destruct (HB1 B HB') as [|Hb]; [by left|right]. by apply (bundled_app B [] (before ++ [i]) rest) in Hb as Hb';
    rewrite <- app_assoc in Hb'.
Qed.

Lemma find_in_blocks_spec blocks st st' : find_in_blocks T F blocks st = Ret st' ->
  forall insts, same_uses insts st.2 -> same_uses (insts ++ (blocks ≫= snd)) st'.2 /\
    forall B, B ∈ st'.1 -> B ∈ st.1 \/ bundled B (blocks ≫= snd).
Proof using HL.
  revert st. induction blocks as [|[BB ins] blocks IH]; intros st; cbn [find_in_blocks].
  { intros [= ->] insts Hu. rewrite app_nil_r. split; [done|by left]. }
  intros (st1 & E1 & E2)%outcome_bind_Ret insts Hu. destruct (find_in_block_spec _ _ _ _ _ E1 insts Hu) as [Hu1 HB1].
  destruct (IH _ E2 _ Hu1) as [Hu2 HB2]. rewrite bind_cons. cbn [snd]. rewrite <- app_assoc in Hu2. split; [done|].
  intros B HB. destruct (HB2 B HB) as [HB'|Hb].
  - destruct (HB1 B HB') as [|Hb]; [by left|right]. by apply (bundled_app B []).
  - right. apply (bundled_app B ins _ []) in Hb. by rewrite app_nil_r in Hb.
Qed.

Lemma find_complete L p : findStackmapsAndStackSlotCopies T F fn (Pass [] ∅ ∅ ∅ L) = Ret p ->
  uses_complete T fn (SSUses p) /\ (forall B, B ∈ SM p -> bundled B (all_instrs fn)) /\
  SMVregs p = ∅ /\ SMStackSlots p = ∅ /\ MF p = L.
Proof using HL.
  unfold findStackmapsAndStackSlotCopies. intros ([sm uses] & E & [= <-])%outcome_bind_Ret. cbn.
  destruct (find_in_blocks_spec _ _ _ E []) as [Hu HB]; [done|]. cbn in Hu. split; [|split; [|done]].
  - intros SS c. rewrite Hu. unfold slot_copies. rewrite list_elem_of_filter, list_elem_of_omap. split.
    + intros [Hs (i & Hi & Hc)]. split; [|done]. pose proof (copy_instr T i c Hc) as Ei. split; by rewrite Ei.
    + intros [[Hi Hc] Hs]. split; [done|]. by exists (cl_instr c).
  - intros B H. destruct (HB B H) as [?%elem_of_nil|]; done.
Qed.

End Blocks.

Section Alternates.
Context (T : llvm) (F : func) (fn : MachineFunction) `{HL : !MachineLaws T fn}.
Context (B : SMInstBundle) (vregs : RegValsMap) (slots : StackValsMap).

(** Register [r] is an operand of the stack map for value [V]. *)
Definition holds (V : value) (r : nat) : Prop := exists vals, vregs !! r = Some vals /\ V ∈ vals.

(** Another place, live across the call, that copies connect to [r]. *)
Definition alternate (r : nat) (x : place) : Prop :=
  linked T fn B slots r x /\ live_place T B x = true /\ operand vregs slots x = None.

Lemma map_operands_regs ops vals vs ss vs' ss' r :
  map_operands T fn ops vals vs ss = Ret (vs', ss') -> is_Some (vs' !! r) ->
  is_Some (vs !! r) \/ exists b, MO_Register (VirtReg r) b ∈ ops.
Proof.
  revert vals vs ss. induction ops as [ops IH] using (induction_ltof1 _ (@length _)); unfold ltof in IH.
  intros vals vs ss. destruct vals as [|v vals]; [destruct ops; intros [= -> ->]; by left|].
  destruct ops as [|op ops]; [done|]. destruct op as [[|v'] b|imm| | | | | | |]; try done; cbn [map_operands].
  - intros E Hr. destruct (IH ops ltac:(cbn; lia) _ _ _ E Hr) as [Hp|[b' Hb]]; [|right; exists b'; by right].
    unfold push_val in Hp. destruct (decide (v' = r)) as [->|Hn]; [right; exists b; by left|].
    rewrite lookup_insert_ne in Hp by done. by left.
  - assert (Hsub : forall ops', length ops' <= length ops -> (forall o, o ∈ ops' -> o ∈ ops) ->
      forall vs ss, map_operands T fn ops' vals vs ss = Ret (vs', ss') -> is_Some (vs' !! r) ->
      is_Some (vs !! r) \/ exists b, MO_Register (VirtReg r) b ∈ MO_Immediate imm :: ops).
    { intros ops' Hlen Hin vs1 ss1 E Hr. destruct (IH ops' ltac:(cbn; lia) _ _ _ E Hr) as [|[b Hb]]; [by left|].
      right. exists b. right. by apply Hin. }
    destruct (_ =? _)%Z; [|destruct (_ =? _)%Z; [|destruct (_ =? _)%Z; [|done]]].
    + destruct ops as [|[] [|o2 ops]]; try done. intros E Hr. inv_outcome.
      eapply (Hsub ops); [cbn; lia|intros o Ho; by do 2 right|done|done].
    + destruct ops as [|o1 [|[] [|o2 ops]]]; try done. intros E Hr. inv_outcome.
      eapply (Hsub ops); [cbn; lia|intros o Ho; by do 3 right|done|done].
    + destruct ops as [|o1 ops]; [done|]. intros E Hr.
      eapply (Hsub ops); [cbn; lia|intros o Ho; by right|done|done].
Qed.

Lemma operand_bound r : getMISM B ∈ all_instrs fn ->
  map_operands T fn (drop 2 (mi_ops (getMISM B))) (i_operands (getIRSM B)) ∅ ∅ = Ret (vregs, slots) ->
  is_Some (vregs !! r) -> r < getNumVirtRegs fn.
Proof using HL.
  intros Hi E Hr. destruct (map_operands_regs _ _ _ _ _ _ r E Hr) as [[v Hv]|[b Hb]]; [done|].
  apply (ml_phys (getMISM B)); [done|]. apply list_elem_of_lookup in Hb as [k Hk]. rewrite lookup_drop in Hk.
  apply list_elem_of_lookup_2 in Hk. destruct b; [by left|by right].
Qed.

Lemma alternate_loc r x : alternate r x -> is_Some (vregs !! r) -> is_Some (place_loc T x).
Proof using HL.
  intros (Hl & _ & Hn) [vals Hr]. destruct x as [v|SS]; [|by eexists]. cbn in *.
  inversion Hl as [|x y c Hx Hc Hj Ht]; subst; [congruence|].
  destruct (copy_vreg_phys T fn c v Hc) as [[p ->] _]; [|by eexists]. destruct Hj as [-> | ->]; [by right|by left].
Qed.

(** What the search leaves, from [find_spec]. *)
Lemma find_alternates L p0 p fuel wfuel :
  findStackmapsAndStackSlotCopies T F fn (Pass [] ∅ ∅ ∅ L) = Ret p0 -> SSUses p = SSUses p0 -> B ∈ SM p0 ->
  map_operands T fn (drop 2 (mi_ops (getMISM B))) (i_operands (getIRSM B)) ∅ ∅ = Ret (vregs, slots) ->
  getNumVirtRegs fn <= fuel -> length (all_instrs fn) + 1 <= wfuel ->
  exists p1 s, mapOpsToIR T fn (getIRSM B) (getMISM B) p = Ret p1 /\
    findAlternateVregLocs T fuel wfuel B p1 = Ret (Pass (SM p) (<[mi_id (getMISM B) := sr_vregs s]> (SMVregs p))
      (<[mi_id (getMISM B) := sr_slots s]> (SMStackSlots p)) (SSUses p) (sr_locs s)) /\
    good T fn B vregs slots (MF p) s /\
    forall r x, is_Some (vregs !! r) -> linked T fn B slots r x -> live_place T B x = true -> is_Some (entry s x).
Proof using HL.
  intros E0 Eu HB Em Hf Hw. destruct (find_complete T F fn L p0 E0) as (Huses & Hbun & _).
  destruct (Hbun B HB) as (pre & post & Ei & _).
  destruct (find_spec T fn B vregs slots (MF p) (SSUses p0) Huses) with (fuel := fuel) (wfuel := wfuel)
    as (s & Hrun & Hg & Hall); [|done|done|].
  { intros v. apply operand_bound; [|done]. rewrite Ei. apply elem_of_app. right. by left. }
  eexists _, s. unfold mapOpsToIR. rewrite Em. split; [done|]. split; [|by split].
  unfold findAlternateVregLocs. cbn. rewrite !lookup_insert_eq. cbn. rewrite Eu, Hrun. cbn.
  by rewrite !insert_insert_eq.
Qed.

End Alternates.

(** ** Properties *)

(** C18: the search for alternate locations finds exactly the copies: on every
    machine function and for each of its stack maps, [findAlternateVregLocs]
    returns, whatever copies it has to follow; every location it records for a
    value is a place that is live across the call, is no operand itself, and is
    connected by copies to a register that holds the value as an operand; and
    every such place is recorded, for all values of one of the operands it is
    connected to.  Nothing else is recorded, for this or another stack map. *)
Theorem alternate_locations_exact T F fn B vregs slots L p0 p fuel wfuel :
  MachineLaws T fn ->
  findStackmapsAndStackSlotCopies T F fn (Pass [] ∅ ∅ ∅ L) = Ret p0 -> SSUses p = SSUses p0 -> B ∈ SM p0 ->
  map_operands T fn (drop 2 (mi_ops (getMISM B))) (i_operands (getIRSM B)) ∅ ∅ = Ret (vregs, slots) ->
  getNumVirtRegs fn <= fuel -> length (all_instrs fn) + 1 <= wfuel ->
  let alternate := alternate T fn B vregs slots in
  exists p1 p2, mapOpsToIR T fn (getIRSM B) (getMISM B) p = Ret p1 /\
    findAlternateVregLocs T fuel wfuel B p1 = Ret p2 /\
    (forall SM V l, l ∈ duplicates (MF p2) SM V -> l ∈ duplicates (MF p) SM V \/
       SM = i_val (getIRSM B) /\ exists r x, holds vregs V r /\ alternate r x /\ place_loc T x = Some l) /\
    (forall r x, is_Some (vregs !! r) -> alternate r x ->
       exists r' vals l, vregs !! r' = Some vals /\ alternate r' x /\ place_loc T x = Some l /\
         forall V, V ∈ vals -> l ∈ duplicates (MF p2) (i_val (getIRSM B)) V) /\
    (forall SM V l, l ∈ duplicates (MF p) SM V -> l ∈ duplicates (MF p2) SM V) /\
    SMArchSpecificLocs (MF p2) = SMArchSpecificLocs (MF p).
Proof.
  intros HL E0 Eu HB Em Hf Hw alt.
  destruct (find_alternates T F fn B vregs slots L p0 p fuel wfuel) as (p1 & s & E1 & E2 & Hg & Hall); try done.
  eexists p1, _. split; [done|]. split; [exact E2|]. cbn [MF]. destruct Hg as [Hk Ha Hl Hr].
  split; [|split; [|split; [|done]]].
  - intros SM' V l [|(-> & x & vals & Hx & HV & Hloc)]%Hl; [by left|right]. split; [done|].
    destruct (Ha x vals Hx) as (Hlive & r & Hr' & Hlink). exists r, x. split; [by exists vals|]. split; [|done].
    split; [done|]. split; [done|]. apply Hx.
  - intros r x Hr' Halt. destruct (alternate_loc T fn B vregs slots r x Halt Hr') as [l Hloc].
    destruct Halt as (Hlink & Hlive & Hn). destruct (Hall r x Hr' Hlink Hlive) as [vals Hx].
    destruct (Ha x vals) as (_ & r' & Hv & Hlink'); [done|]. exists r', vals, l. split; [done|]. split; [done|].
    split; [done|]. intros V HV. apply Hl. right. split; [done|]. by exists x, vals.
  - intros SM' V l Hin. apply Hl. by left.
Qed.
