(* ===== verification/CopySem.v ===== *)
(** * What copies mean when machine code runs

    An execution of a machine function, as far as registers and stack slots are
    concerned: a copy moves a value, any other instruction changes what it
    writes and nothing else.  When every place has one instruction that writes
    it and none is used before it is written, all places that copies connect
    hold the same value wherever they are live. *)

From stdpp Require Import relations.
From S2P Require Import Prelude IR MachineIR StackTransform CopySearch AltLocs AltResults.

#[local] Open Scope nat_scope.

(** ** Definitions *)

(** The places an instruction reads and writes, the instructions that can come
    after it, and those that can come first. *)
Record behaviour := Behaviour {
  reads : minstr -> place -> Prop;
  writes : minstr -> place -> Prop;
  next : minstr -> minstr -> Prop;
  first : minstr -> Prop
}.

(** What places hold. *)
Abbreviation contents := (place -> Z).

Section Runs.
Context (T : llvm) (fn : MachineFunction) (M : behaviour).

(** The destination and the source of a copy. *)
Abbreviation dst c := (cl_places c).1.
Abbreviation src c := (cl_places c).2.

Class BehaviourLaws : Prop := {
  bl_reads c : is_copy T fn c -> reads M (cl_instr c) (src c);
  bl_writes c x : is_copy T fn c -> writes M (cl_instr c) x <-> x = dst c
}.

Definition exec (i : minstr) (σ σ' : contents) : Prop :=
  (forall x, ~ writes M i x -> σ' x = σ x) /\
  forall c, getCopyLocation T i = Some c -> σ' (dst c) = σ (src c).

Inductive run : list minstr -> contents -> contents -> Prop :=
  | run_nil σ : run [] σ σ
  | run_snoc t i σ σ1 σ2 : run t σ σ1 -> exec i σ1 σ2 -> run (t ++ [i]) σ σ2.

(** A path from the function's entry. *)
Inductive path : list minstr -> Prop :=
  | path_nil : path []
  | path_first i : first M i -> path [i]
  | path_next t i j : path (t ++ [i]) -> next M i j -> path ((t ++ [i]) ++ [j]).

(** After a path, some continuation reads the place before it is written. *)
Definition live_after (t : list minstr) (x : place) : Prop :=
  exists u i, path (t ++ u ++ [i]) /\ reads M i x /\ forall j, j ∈ u -> ~ writes M j x.

(** One instruction writes the place, and always before it is used. *)
Definition written_once (x : place) : Prop :=
  (forall i j, writes M i x -> writes M j x -> i = j) /\
  forall t, path t -> live_after t x -> exists i, i ∈ t /\ writes M i x.

(** A copy within the places the search goes through. *)
Definition parent (ok : place -> Prop) (x s : place) : Prop :=
  ok x /\ ok s /\ exists c, is_copy T fn c /\ dst c = x /\ src c = s.

(** ** Lemmas *)

Lemma path_app t u : path (t ++ u) -> path t.
Proof.
  induction u as [|i u IH] using rev_ind; [by rewrite app_nil_r|].
  rewrite app_assoc. intros H. apply IH. inversion H as [E|j Hj E|t' i' j' Hp Hn E].
  - by destruct (t ++ u).
  - apply (app_inj_tail []) in E as [<- _]. constructor.
  - by apply app_inj_tail in E as [<- _].
Qed.

(** What follows an instruction can follow it on any path. *)
Lemma path_swap p i q p' : path (p ++ i :: q) -> path (p' ++ [i]) -> path (p' ++ i :: q).
Proof.
  intros Hq Hp'. induction q as [|j q IH] using rev_ind; [done|].
  assert (Hq' : path (p ++ i :: q)) by (apply (path_app _ [j]); by rewrite <- app_assoc).
  specialize (IH Hq').
  assert (Hlast : exists a b, i :: q = a ++ [b]).
  { destruct (exists_last (l := i :: q)) as (a & b & E); [done|]. by exists a, b. }
  destruct Hlast as (a & b & E).
  replace (p ++ i :: q ++ [j]) with ((p ++ i :: q) ++ [j]) in Hq by (by rewrite <- app_assoc).
  replace (p' ++ i :: q ++ [j]) with ((p' ++ i :: q) ++ [j]) by (by rewrite <- app_assoc).
  rewrite E, app_assoc in Hq, IH |- *. constructor; [done|].
  inversion Hq as [E1|k Hk E1|t k j' Hp Hn E1].
  - by destruct ((p ++ a) ++ [b]).
  - apply (app_inj_tail []) in E1 as [E1 _]. by destruct (p ++ a).
  - apply app_inj_tail in E1 as [E1 ->]. by apply app_inj_tail in E1 as [_ ->].
Qed.

Lemma run_path_app t u σ σ2 : run (t ++ u) σ σ2 -> exists σ1, run t σ σ1 /\ run u σ1 σ2.
Proof.
  revert σ2. induction u as [|i u IH] using rev_ind; intros σ2.
  - rewrite app_nil_r. intros H. exists σ2. split; [done|constructor].
  - rewrite app_assoc. inversion 1 as [|t' i' ? σ1 ? Hr He E]; subst.
    + by destruct (t ++ u).
    + apply app_inj_tail in E as [-> ->]. destruct (IH _ Hr) as (σm & H1 & H2). exists σm. split; [done|].
      by econstructor.
Qed.

Lemma run_keeps t σ σ' x : run t σ σ' -> (forall j, j ∈ t -> ~ writes M j x) -> σ' x = σ x.
Proof.
  induction 1 as [|t i σ σ1 σ2 Hr IH [Hk _]]; intros Hn; [done|].
  rewrite Hk by (apply Hn, elem_of_app; right; by left). apply IH. intros j Hj. apply Hn, elem_of_app. by left.
Qed.

Section Copies.
Context `{HL : !MachineLaws T fn} `{HB : !BehaviourLaws} (ok : place -> Prop) (Honce : forall x, ok x -> written_once x).

Abbreviation up := (parent ok).

Lemma copy_live t c : path (t ++ [cl_instr c]) -> is_copy T fn c -> live_after t (src c).
Proof using HB.
  intros Hp Hc. exists [], (cl_instr c). split; [done|]. split; [by apply bl_reads|]. by intros j ?%elem_of_nil.
Qed.

(** When a place is live, everything it was copied from has been written. *)
Lemma ancestors_written x a t : rtc up x a -> ok x -> path t -> live_after t x -> exists i, i ∈ t /\ writes M i a.
Proof using HB Honce.
  intros Hu. revert t. induction Hu as [x|x s a (Hx & Hs & c & Hc & <- & <-) Hu IH]; intros t Hok Hp Hl.
  { by apply (Honce x Hok). }
  destruct (Honce _ Hok) as [_ Hw]. destruct (Hw t Hp Hl) as (i & Hi & Hwi).
  assert (i = cl_instr c) as ->.
  { apply (proj1 (Honce _ Hok)); [done|]. by apply bl_writes. }
  apply list_elem_of_split in Hi as (t1 & t2 & ->).
  assert (Hp1 : path (t1 ++ [cl_instr c])) by (apply (path_app _ t2); by rewrite <- app_assoc).
  destruct (IH t1 Hs (path_app _ _ Hp1)) as (j & Hj & Hwj); [by apply copy_live|].
  exists j. split; [|done]. apply elem_of_app. by left.
Qed.

(** Nothing a live place was copied from has been written since. *)
Lemma ancestor_kept t1 t2 c a j : is_copy T fn c -> ok (dst c) -> ok (src c) -> rtc up (src c) a -> a <> dst c -> ok a ->
  path (t1 ++ cl_instr c :: t2) -> live_after (t1 ++ cl_instr c :: t2) (dst c) -> cl_instr c ∉ t2 ->
  j ∈ t2 -> ~ writes M j a.
Proof using HB Honce.
  intros Hc Hd Hs Hu Hne Ha Hp (u & k & Hpu & Hrd & Hun) Hn Hj Hw.
  assert (Hin : cl_instr c ∈ t1 ++ cl_instr c :: t2) by (apply elem_of_app; right; by left).
  apply list_elem_of_split_l in Hin as (p & q & E & Hnp).
  assert (Hp1 : path (p ++ [cl_instr c])) by (apply (path_app _ q); rewrite <- app_assoc; cbn; by rewrite <- E).
  destruct (ancestors_written _ a p Hu Hs (path_app _ _ Hp1)) as (j' & Hj' & Hw'); [by apply copy_live|].
  pose proof (proj1 (Honce a Ha) _ _ Hw' Hw) as ->.
  apply list_elem_of_split in Hj' as (p1 & p2 & ->). apply list_elem_of_split in Hj as (t3 & t4 & ->).
  assert (Hpj : path (p1 ++ [j])) by (apply (path_app _ (p2 ++ [cl_instr c])); by rewrite <- !app_assoc in *).
  assert (Hnew : path (p1 ++ j :: t4 ++ u ++ [k])).
  { apply (path_swap (t1 ++ cl_instr c :: t3)); [|done]. repeat (rewrite <- app_assoc in Hpu || cbn in Hpu).
    by rewrite <- app_assoc. }
  destruct (proj2 (Honce _ Hd) (p1 ++ j :: t4)) as (d & Hdin & Hwd).
  - apply (path_app _ (u ++ [k])). by rewrite <- app_assoc.
  - exists u, k. by rewrite <- app_assoc.
  - assert (d = cl_instr c) as -> by (apply (proj1 (Honce _ Hd)); [done|by apply bl_writes]).
    apply elem_of_app in Hdin as [Hdin|[<-|Hdin]%elem_of_cons].
    + apply Hnp, elem_of_app. by left.
    + by apply (bl_writes c a Hc) in Hw.
    + apply Hn, elem_of_app. right. by right.
Qed.

Lemma up_ok x a : rtc up x a -> ok x -> ok a.
Proof. induction 1 as [|x y z (_ & Hy & _) _ IH]; auto. Qed.

(** A live place holds what everything it was copied from holds. *)
Lemma ancestors_agree n t σ0 σ x a : length t <= n -> path t -> run t σ0 σ -> ok x -> live_after t x -> rtc up x a ->
  σ x = σ a.
Proof using HB Honce.
  revert t σ x. induction n as [n IH] using lt_wf_ind. intros t σ x Hn Hp Hr Hok Hl Hu.
  inversion Hu as [|? s ? (Hx & Hs & c & Hc & E1 & E2) Hu']; subst; [done|].
  destruct (decide (a = dst c)) as [->|Hne]; [done|].
  destruct (proj2 (Honce _ Hok) t Hp Hl) as (i & Hi & Hw).
  assert (i = cl_instr c) as -> by (apply (proj1 (Honce _ Hok)); [done|by apply bl_writes]).
  apply list_elem_of_split_r in Hi as (t1 & t2 & -> & Hlast).
  apply run_path_app in Hr as (σ1 & Hr1 & Hr2). apply (run_path_app [cl_instr c]) in Hr2 as (σ2 & Hi & Hr2).
  assert (Hex : exec (cl_instr c) σ1 σ2).
  { inversion Hi as [|t' i' ? σ' ? Hr' He E]; subst. apply (app_inj_tail _ []) in E as [-> ->]. by inversion Hr'; subst; [|destruct t]. }
  assert (Hp1 : path (t1 ++ [cl_instr c])) by (apply (path_app _ t2); by rewrite <- app_assoc).
  assert (Hsa : σ1 (src c) = σ1 a).
  { apply (IH (length t1)) with (t := t1); try done.
    - rewrite length_app in Hn. cbn in Hn. lia.
    - by apply (path_app _ [cl_instr c]).
    - by apply copy_live. }
  destruct Hex as [Hkeep Hcopy].
  rewrite (run_keeps _ _ _ (dst c) Hr2), (run_keeps _ _ _ a Hr2).
  - rewrite (Hcopy c) by apply Hc. rewrite Hkeep; [done|]. by rewrite (bl_writes c a Hc).
  - intros j Hj. eapply (ancestor_kept t1 t2 c a j); try done. by eapply up_ok.
  - intros j Hj Hwj. apply Hlast. by rewrite (proj1 (Honce _ Hok) _ _ Hw Hwj).
Qed.

(** Each place has at most one parent. *)
Lemma up_functional x s s' : up x s -> up x s' -> s = s'.
Proof using HL HB Honce.
  intros (Hx & _ & c & Hc & E1 & E2) (_ & _ & c' & Hc' & E1' & E2').
  assert (E : cl_instr c = cl_instr c').
  { apply (proj1 (Honce x Hx)); apply bl_writes; congruence. }
  apply (f_equal mi_id) in E. pose proof (copy_unique T fn c c' Hc Hc' E). congruence.
Qed.

Lemma up_chain x a b : rtc up x a -> rtc up x b -> rtc up a b \/ rtc up b a.
Proof using HL HB Honce.
  induction 1 as [|x y a Hxy Hu IH]; [by left|]. inversion 1 as [|? y' ? Hxy' Hu']; subst.
  - right. by eapply rtc_l.
  - apply IH. by rewrite (up_functional _ _ _ Hxy Hxy').
Qed.

Lemma up_join x y : rtc (fun x y => up x y \/ up y x) x y -> exists a, rtc up x a /\ rtc up y a.
Proof using HL HB Honce.
  induction 1 as [x|x y z [Hxy|Hyx] _ (a & Hy & Hz)].
  - by exists x.
  - exists a. split; [by eapply rtc_l|done].
  - destruct (up_chain y x a) as [Hxa|Hax]; [by apply rtc_once|done|by exists a|].
    exists x. split; [done|]. by transitivity a.
Qed.

(** Connected places that are both live hold the same value. *)
Lemma connected_agree t σ0 σ x y : path t -> run t σ0 σ -> ok x -> ok y ->
  rtc (fun x y => up x y \/ up y x) x y -> live_after t x -> live_after t y -> σ x = σ y.
Proof using HL HB Honce.
  intros Hp Hr Hx Hy Hc Hlx Hly. destruct (up_join x y Hc) as (a & Hxa & Hya).
  rewrite (ancestors_agree (length t) t σ0 σ x a), (ancestors_agree (length t) t σ0 σ y a); done.
Qed.

End Copies.
End Runs.

(** The relation of the search is connection by copies. *)
Lemma linked_connected T fn B slots r x : linked T fn B slots r x ->
  rtc (fun x y => parent T fn (linked T fn B slots r) x y \/ parent T fn (linked T fn B slots r) y x) (Vreg r) x.
Proof.
  induction 1 as [|x y c Hx IH Hc Hj Ht]; [done|]. eapply rtc_r; [done|].
  assert (Hy : linked T fn B slots r y) by by eapply linked_copy.
  destruct Hj as [E|E]; [left|right]; split; [done| |done|]; (split; [done|]); exists c; by rewrite E.
Qed.

(** ** Properties *)

(** C19: alternate locations hold the value they are recorded for.  If every place
    that copies connect to an operand of the stack map is written by one
    instruction, and never used before, then at every point of every execution
    of the function where an alternate location recorded for a value and the
    operand with the value are both live, they have the same content, however
    many copies lie between them and whatever was overwritten since. *)
Theorem alternate_locations_agree T F fn B vregs slots L p0 p fuel wfuel M :
  MachineLaws T fn -> BehaviourLaws T fn M ->
  findStackmapsAndStackSlotCopies T F fn (Pass [] ∅ ∅ ∅ L) = Ret p0 -> SSUses p = SSUses p0 -> B ∈ SM p0 ->
  map_operands T fn (drop 2 (mi_ops (getMISM B))) (i_operands (getIRSM B)) ∅ ∅ = Ret (vregs, slots) ->
  getNumVirtRegs fn <= fuel -> length (all_instrs fn) + 1 <= wfuel ->
  (forall r x, is_Some (vregs !! r) -> linked T fn B slots r x -> written_once M x) ->
  exists p1 p2, mapOpsToIR T fn (getIRSM B) (getMISM B) p = Ret p1 /\
    findAlternateVregLocs T fuel wfuel B p1 = Ret p2 /\
    forall V l, l ∈ duplicates (MF p2) (i_val (getIRSM B)) V ->
      l ∈ duplicates (MF p) (i_val (getIRSM B)) V \/
      exists r x, holds vregs V r /\ place_loc T x = Some l /\ live_place T B x = true /\
        forall t σ0 σ, path M t -> run T M t σ0 σ -> live_after M t (Vreg r) -> live_after M t x ->
          σ x = σ (Vreg r).
Proof.
  intros HL HB E0 Eu HBs Em Hf Hw Honce.
  destruct (find_alternates T F fn B vregs slots L p0 p fuel wfuel) as (p1 & s & E1 & E2 & Hg & _); try done.
  eexists p1, _. split; [done|]. split; [exact E2|]. cbn [MF]. intros V l Hin.
  apply (g_locs _ _ _ _ _ _ _ Hg) in Hin as [|(_ & x & vals & Hx & HV & Hloc)]; [by left|right].
  destruct (g_added _ _ _ _ _ _ _ Hg x vals Hx) as (Hlive & r & Hr & Hlink).
  exists r, x. split; [by exists vals|]. do 2 (split; [done|]). intros t σ0 σ Hp Hrun Hlr Hlx. symmetry.
  apply (connected_agree T fn M (linked T fn B slots r)) with (t := t) (σ0 := σ0); try done.
  - intros y Hy. by apply (Honce r).
  - constructor.
  - by apply linked_connected.
Qed.
