(* ===== verification/AltSample.v ===== *)
(** * The search for alternate locations on two functions

    A small target, on which the laws of [CopySearch] and [CopySem] hold, and two
    machine functions: one in which a spilled value is found, and one, as the
    elimination of phi-nodes leaves it, in which a location is recorded for a
    value that it does not hold. *)

From stdpp Require Import functions.
From S2P Require Import Prelude IR MachineIR StackTransform CopySearch AltLocs AltResults CopySem.

#[local] Open Scope nat_scope.

(** ** Definitions *)

(** *** The target: calls, loads, stores, immediates and the rest *)

Definition call_op : mopcode := OtherOpcode 0.
Definition load_op : mopcode := OtherOpcode 1.
Definition store_op : mopcode := OtherOpcode 2.
Definition imm_op : mopcode := OtherOpcode 3.
Definition use_op : mopcode := OtherOpcode 4.

Definition def (v : nat) : moperand := MO_Register (VirtReg v) true.
Definition use (v : nat) : moperand := MO_Register (VirtReg v) false.

Definition toy_copy (i : minstr) : bool :=
  match getOpcode i, mi_ops i with
  | COPY, [MO_Register _ true; MO_Register _ false] => true
  | _, _ => false
  end.

Definition toy_load (i : minstr) : option (register * Z) :=
  match getOpcode i, mi_ops i with
  | OtherOpcode 1, [MO_Register r true; MO_FrameIndex SS] => Some (r, SS)
  | _, _ => None
  end.

Definition toy_store (i : minstr) : option (register * Z) :=
  match getOpcode i, mi_ops i with
  | OtherOpcode 2, [MO_Register r false; MO_FrameIndex SS] => Some (r, SS)
  | _, _ => None
  end.

(** The first segment that ends after a position. *)
Definition toy_find (segs : list segment) (Idx : Z) : option segment :=
  head (filter (fun s => Idx < seg_end s)%Z segs).

(** Registers are allocated in order; instructions are numbered by their names;
    a list gives where registers and slots are live. *)
Definition toy (fn : MachineFunction) (vsegs : list (list segment)) (ssegs : list segment) : llvm := {|
  isCopyLike := toy_copy;
  isLoadFromStackSlot := toy_load;
  isStoreToStackSlot := toy_store;
  isMoveImmediate i := bool_decide (getOpcode i = imm_op);
  isCall i := bool_decide (getOpcode i = call_op \/ getOpcode i = STACKMAP);
  def_instrs v := filter (fun i => def v ∈ mi_ops i) (all_instrs fn);
  use_instrs v := filter (fun i => use v ∈ mi_ops i) (all_instrs fn);
  hasOneDef v := bool_decide (length (filter (fun i => def v ∈ mi_ops i) (all_instrs fn)) = 1);
  getPhys v := Some (v + 1);
  isDeadObjectIndex _ := false;
  getFrameRegister := PhysReg 0;
  vreg_find v Idx := toy_find (default [] (vsegs !! v)) Idx;
  slot_find SS Idx := if (SS =? 0)%Z then toy_find ssegs Idx else None;
  seg_contains s Idx := (seg_start s <=? Idx)%Z && (Idx <? seg_end s)%Z;
  getInstructionIndex i := Z.of_nat (mi_id i);
  getInstrDistance a b := (b - a)%Z;
  DirectMemRefOp := 0;
  IndirectMemRefOp := 1;
  ConstantOp := 2
|}.

(** What instructions do, and the edges between them by their names. *)
Definition toy_behaviour (T : llvm) (fn : MachineFunction) (edges : list (nat * nat)) : behaviour := {|
  reads i x := i ∈ all_instrs fn /\
    match x with Vreg v => uses_vreg i v | Slot SS => exists r, toy_load i = Some (r, SS) end;
  writes i x := i ∈ all_instrs fn /\
    match x with Vreg v => defines_vreg i v | Slot SS => exists r, toy_store i = Some (r, SS) end;
  next i j := i ∈ all_instrs fn /\ j ∈ all_instrs fn /\ (mi_id i, mi_id j) ∈ edges;
  first i := head (all_instrs fn) = Some i
|}.

(** The edges of a function without branches. *)
Definition straight_edges (fn : MachineFunction) : list (nat * nat) :=
  zip (mi_id <$> all_instrs fn) (tail (mi_id <$> all_instrs fn)).

Definition written (i : minstr) : list place :=
  omap (fun o => match o with MO_Register (VirtReg v) true => Some (Vreg v) | _ => None end) (mi_ops i) ++
  match toy_store i with Some (_, SS) => [Slot SS] | None => [] end.

Definition reading (i : minstr) : list place :=
  omap (fun o => match o with MO_Register (VirtReg v) false => Some (Vreg v) | _ => None end) (mi_ops i) ++
  match toy_load i with Some (_, SS) => [Slot SS] | None => [] end.

(** Every place is written before it is read. *)
Fixpoint read_written (seen : list place) (insts : list minstr) : Prop :=
  match insts with
  | [] => True
  | i :: insts => Forall (fun x => x ∈ seen) (reading i) /\ read_written (written i ++ seen) insts
  end.

#[export] Instance read_written_dec seen insts : Decision (read_written seen insts).
Proof. revert seen. induction insts as [|i insts IH]; intros seen; cbn; apply _. Defined.

(** A path, by its last instruction. *)
Fixpoint path_checked (fn : MachineFunction) (edges : list (nat * nat)) (prev : option minstr) (t : list minstr) : Prop :=
  match t with
  | [] => True
  | j :: t =>
      match prev with
      | Some i => i ∈ all_instrs fn /\ j ∈ all_instrs fn /\ (mi_id i, mi_id j) ∈ edges
      | None => head (all_instrs fn) = Some j
      end /\ path_checked fn edges (Some j) t
  end.

#[export] Instance path_checked_dec fn edges prev t : Decision (path_checked fn edges prev t).
Proof. revert prev. induction t as [|j t IH]; intros [i|]; cbn; apply _. Defined.

Definition toy_step (T : llvm) (σ : contents) (i : minstr) : contents :=
  match getCopyLocation T i with
  | Some c => <[(cl_places c).1 := σ (cl_places c).2]> σ
  | None =>
      match mi_ops i with
      | [MO_Register (VirtReg v) true; MO_Immediate z] => <[Vreg v := z]> σ
      | _ => σ
      end
  end.

(** *** A value that is spilled, and reloaded after a call *)

Definition spill_code : list minstr := [
  MInstr 0 imm_op [def 0; MO_Immediate 5];
  MInstr 1 store_op [use 0; MO_FrameIndex 0];
  MInstr 2 COPY [def 1; use 0];
  MInstr 3 call_op [];
  MInstr 4 STACKMAP [MO_Immediate 0; MO_Immediate 0; use 1];
  MInstr 5 load_op [def 2; MO_FrameIndex 0];
  MInstr 6 use_op [use 1; use 2]].

Definition spill_fn : MachineFunction := MachineFn [(0, spill_code)] 3 0 1 true.

(** Value 5 is computed, and 11 the result of the call. *)
Definition spill_ir : func := Func 0 [0]
  (list_to_map [(0, [Instr 5 OtherOp []; Instr 11 (CallInst false false) []; Instr 12 (StackMap 0) [5]; Instr 13 OtherOp [5]])])
  ∅.

Definition spill_target : llvm := toy spill_fn [[Segment 0 2]; [Segment 2 6]; [Segment 5 6]] [Segment 1 5].

Definition spill_behaviour : behaviour := toy_behaviour spill_target spill_fn (straight_edges spill_fn).

Definition spill_bundle : SMInstBundle :=
  Bundle (Instr 12 (StackMap 0) [5]) (MInstr 4 STACKMAP [MO_Immediate 0; MO_Immediate 0; use 1]) (MInstr 3 call_op []).

Definition no_locations : sm_locations := SMLocations ∅ ∅.

(** *** [c = cond ? a : b], with [b] spilled: registers 0 to 2 have the values
    [a], [b] and [c], which are 5, 6 and 7 in the IR *)

Definition select_fn : MachineFunction := MachineFn [
  (0, [MInstr 0 imm_op [def 0; MO_Immediate 1];
       MInstr 1 imm_op [def 1; MO_Immediate 2];
       MInstr 2 store_op [use 1; MO_FrameIndex 0]]);
  (1, [MInstr 3 COPY [def 2; use 0]]);
  (2, [MInstr 4 COPY [def 2; use 1]]);
  (3, [MInstr 5 call_op [];
       MInstr 6 STACKMAP [MO_Immediate 0; MO_Immediate 0; use 0; use 1; use 2];
       MInstr 7 load_op [def 3; MO_FrameIndex 0];
       MInstr 8 use_op [use 0; use 2; use 3]])] 4 0 1 true.

Definition select_ir : func := Func 0 [0; 1; 2; 3]
  (list_to_map [
    (0, [Instr 5 OtherOp []; Instr 6 OtherOp []]);
    (3, [Instr 7 (PHINode [1; 2]) [5; 6]; Instr 11 (CallInst false false) []; Instr 12 (StackMap 0) [5; 6; 7];
         Instr 13 OtherOp [5; 6; 7]])])
  (list_to_map [(0, [1; 2]); (1, [3]); (2, [3])]).

Definition select_target : llvm :=
  toy select_fn [[Segment 0 8]; [Segment 1 6]; [Segment 3 8]; [Segment 7 8]] [Segment 2 7].

Definition select_edges : list (nat * nat) := [(0, 1); (1, 2); (2, 3); (2, 4); (3, 5); (4, 5); (5, 6); (6, 7); (7, 8)].

(** Through the second copy up to the stack map, and what follows. *)
Definition select_path : list minstr := filter (fun i => mi_id i <> 3 /\ mi_id i <= 6) (all_instrs select_fn).
Definition select_rest : list minstr := filter (fun i => 7 <= mi_id i) (all_instrs select_fn).

Definition select_behaviour : behaviour := toy_behaviour select_target select_fn select_edges.

(** ** Lemmas *)

Section Toy.
Context (fn : MachineFunction) (vsegs : list (list segment)) (ssegs : list segment).
Abbreviation T := (toy fn vsegs ssegs).

Definition toy_checked : Prop :=
  NoDup (mi_id <$> all_instrs fn) /\
  Forall (fun i => Forall (fun o => match o with MO_Register (VirtReg v) _ => v < getNumVirtRegs fn | _ => True end) (mi_ops i))
    (all_instrs fn).

#[export] Instance toy_checked_dec : Decision toy_checked.
Proof.
  apply and_dec; [apply _|]. apply Forall_dec. intros i. apply Forall_dec. intros [[|v] b| | | | | | | |]; apply _.
Defined.

Lemma toy_load_ops i r SS : toy_load i = Some (r, SS) ->
  getOpcode i = OtherOpcode 1 /\ mi_ops i = [MO_Register r true; MO_FrameIndex SS].
Proof.
  unfold toy_load. destruct (getOpcode i) as [| | | | | | |[|[|n]]]; try done.
  destruct (mi_ops i) as [|[r' []| | | | | | | |] [|[| | |SS'| | | | |] []]]; try done. by intros [= -> ->].
Qed.

Lemma toy_store_ops i r SS : toy_store i = Some (r, SS) ->
  getOpcode i = OtherOpcode 2 /\ mi_ops i = [MO_Register r false; MO_FrameIndex SS].
Proof.
  unfold toy_store. destruct (getOpcode i) as [| | | | | | |[|[|[|n]]]]; try done.
  destruct (mi_ops i) as [|[r' []| | | | | | | |] [|[| | |SS'| | | | |] []]]; try done. by intros [= -> ->].
Qed.

Lemma toy_copy_ops i : toy_copy i = true ->
  getOpcode i = COPY /\ exists d s, mi_ops i = [MO_Register d true; MO_Register s false].
Proof.
  unfold toy_copy. destruct (getOpcode i); try done.
  destruct (mi_ops i) as [|[d []| | | | | | | |] [|[s []| | | | | | | |] []]]; try done. eauto.
Qed.

Lemma toy_laws : toy_checked -> MachineLaws T fn.
Proof.
  intros [Hnd Hb]. constructor; cbn [toy isCopyLike isLoadFromStackSlot isStoreToStackSlot def_instrs use_instrs getPhys isDeadObjectIndex].
  - done.
  - intros v i. rewrite list_elem_of_filter. naive_solver.
  - intros v i. rewrite list_elem_of_filter. naive_solver.
  - intros i E. split; [|split].
    + destruct (toy_copy i) eqn:Ec; [|done]. apply toy_copy_ops in Ec as [? _]. congruence.
    + destruct (toy_load i) as [[r SS]|] eqn:Ec; [|done]. apply toy_load_ops in Ec as [? _]. congruence.
    + destruct (toy_store i) as [[r SS]|] eqn:Ec; [|done]. apply toy_store_ops in Ec as [? _]. congruence.
  - intros i b r r' (_ & d & s & ->)%toy_copy_ops. set_solver.
  - intros i [E _]%toy_copy_ops. split.
    + destruct (toy_load i) as [[r SS]|] eqn:Ec; [|done]. apply toy_load_ops in Ec as [? _]. congruence.
    + destruct (toy_store i) as [[r SS]|] eqn:Ec; [|done]. apply toy_store_ops in Ec as [? _]. congruence.
  - intros i r SS [E Eo]%toy_load_ops. split.
    + destruct (toy_store i) as [[r' SS']|] eqn:Ec; [|done]. apply toy_store_ops in Ec as [? _]. congruence.
    + intros v. unfold defines_vreg, uses_vreg. rewrite Eo. set_solver.
  - intros i r SS [E Eo]%toy_store_ops v. unfold defines_vreg, uses_vreg. rewrite Eo. set_solver.
  - intros i v Hi Hv. split; [by eexists|]. rewrite Forall_forall in Hb. specialize (Hb i Hi).
    rewrite Forall_forall in Hb. destruct Hv as [Hv|Hv]; apply (Hb _ Hv).
  - cbn. intros v Hv E. by rewrite E in Hv.
  - done.
Qed.

Context (edges : list (nat * nat)).
Abbreviation M := (toy_behaviour T fn edges).

Lemma copy_slots i c : toy_checked -> getCopyLocation T i = Some c ->
  match c with
  | RegCopyLoc _ _ _ => toy_store i = None
  | StackLoadLoc d SS _ => toy_load i = Some (VirtReg d, SS) /\ toy_store i = None
  | StackStoreLoc s SS _ => toy_store i = Some (VirtReg s, SS)
  end.
Proof.
  intros Hch%toy_laws. unfold getCopyLocation, load_store.
  pose proof (ml_copy_only (T := T) (fn := fn) i) as Hco. pose proof (ml_load (T := T) (fn := fn) i) as Hlo.
  cbn [toy isCopyLike isLoadFromStackSlot isStoreToStackSlot] in *.
  destruct (toy_copy i).
  - destruct Hco as [-> ->]; [done|]. destruct (copy_operands _ _ _) as [[|s] [|d]]; try done. by intros [= <-].
  - destruct (toy_load i) as [[r SS]|].
    + destruct (Hlo r SS eq_refl) as [-> _]. destruct r; [done|]. by intros [= <-].
    + destruct (toy_store i) as [[[] SS]|]; try done. by intros [= <-].
Qed.

Lemma toy_places c : toy_checked -> is_copy T fn c ->
  reads M (cl_instr c) (cl_places c).2 /\ forall x, writes M (cl_instr c) x <-> x = (cl_places c).1.
Proof.
  intros Hch [Hi Hc]. pose proof (toy_laws Hch) as HL. pose proof (copy_slots _ _ Hch Hc) as Hs.
  revert Hi Hc Hs. generalize (cl_instr c) as i. intros i Hi Hc Hs.
  destruct (copy_kinds T fn i c Hc) as [(d & s & -> & Hd & Hu)|[(d & SS & -> & Hd & Hu)|(s & SS & -> & Hd & Hu)]]; cbn.
  - split; [split; [done|by apply Hu]|]. intros [v|SS]; [rewrite Hd; naive_solver|]. rewrite Hs. naive_solver.
  - destruct Hs as [Hs ->]. split; [split; [done|by eexists]|]. intros [v|SS']; [rewrite Hd; naive_solver|]. naive_solver.
  - split; [split; [done|by apply Hu]|]. intros [v|SS'].
    + split; [intros [_ Hv]; by destruct (Hd v)|done].
    + rewrite Hs. naive_solver.
Qed.

Lemma toy_behaviour_laws : toy_checked -> BehaviourLaws T fn M.
Proof. intros Hch. constructor; intros c; [|intros x]; intros Hc; by apply toy_places. Qed.

Lemma writes_written i x : writes M i x <-> i ∈ all_instrs fn /\ x ∈ written i.
Proof.
  unfold written. cbn. apply and_iff_compat_l. rewrite elem_of_app, list_elem_of_omap. destruct x as [v|SS].
  - split; [intros Hv; left; by exists (def v)|].
    intros [([[|v'] []| | | | | | | |] & Ho & [= ->])|Hs]; [done|].
    destruct (toy_store i) as [[r SS]|]; [by apply list_elem_of_singleton in Hs|by apply elem_of_nil in Hs].
  - split.
    + intros [r ->]. right. by left.
    + intros [([[|v'] []| | | | | | | |] & Ho & E)|Hs]; [done..|].
      destruct (toy_store i) as [[r SS']|]; [|by apply elem_of_nil in Hs].
      apply list_elem_of_singleton in Hs as [= ->]. by exists r.
Qed.

Lemma reads_reading i x : reads M i x -> i ∈ all_instrs fn /\ x ∈ reading i.
Proof.
  unfold reading. cbn. intros [Hi Hx]. split; [done|]. rewrite elem_of_app, list_elem_of_omap. destruct x as [v|SS].
  - left. by exists (use v).
  - right. destruct Hx as [r ->]. by left.
Qed.

Lemma read_written_spec seen pre i post x : read_written seen (pre ++ i :: post) -> x ∈ reading i ->
  x ∈ seen \/ exists j, j ∈ pre /\ x ∈ written j.
Proof.
  revert seen. induction pre as [|j pre IH]; intros seen [Hr Hrest] Hx; cbn in *.
  - left. rewrite Forall_forall in Hr. by apply Hr.
  - destruct (IH _ Hrest Hx) as [[Hj|Hs]%elem_of_app|(k & Hk & Hw)]; [|by left|].
    + right. exists j. split; [by left|done].
    + right. exists k. split; [by right|done].
Qed.

Lemma path_checked_ok pre t : path_checked fn edges (last pre) t -> path M pre -> path M (pre ++ t).
Proof.
  revert pre. induction t as [|j t IH]; intros pre; [by rewrite app_nil_r|]. intros [Hj Ht] Hp.
  replace (pre ++ j :: t) with ((pre ++ [j]) ++ t) by (by rewrite <- app_assoc).
  apply IH; [by rewrite last_snoc|]. destruct pre as [|i pre _] using rev_ind; [by constructor|].
  rewrite last_snoc in Hj. by constructor.
Qed.

Lemma toy_exec σ i : toy_checked -> i ∈ all_instrs fn -> exec T M i σ (toy_step T σ i).
Proof.
  intros Hch Hi. unfold toy_step. split.
  - intros x Hx. destruct (getCopyLocation T i) as [c|] eqn:Ec.
    + pose proof (copy_instr T i c Ec) as Ei. subst i. rewrite fn_lookup_insert_ne; [done|]. intros <-. apply Hx.
      by apply (toy_places c).
    + destruct (mi_ops i) as [|[[|v] []| | | | | | | |] [|[| z | | | | | | |] []]] eqn:Eo; try done.
      rewrite fn_lookup_insert_ne; [done|]. intros <-. apply Hx. split; [done|]. unfold defines_vreg. rewrite Eo. by left.
  - intros c ->. by rewrite fn_lookup_insert.
Qed.

Lemma toy_run σ t : toy_checked -> Forall (fun i => i ∈ all_instrs fn) t -> run T M t σ (foldl (toy_step T) σ t).
Proof.
  intros Hch. induction t as [|i t IH] using rev_ind; intros Ht; [constructor|].
  apply Forall_app in Ht as [Ht Hi]. apply Forall_cons in Hi as [Hi _]. rewrite foldl_snoc.
  econstructor; [by apply IH|by apply toy_exec].
Qed.

End Toy.

(** A function without branches in which every place is written once and before
    it is read. *)
Section Straight.
Context (fn : MachineFunction) (vsegs : list (list segment)) (ssegs : list segment).
Abbreviation T := (toy fn vsegs ssegs).
Abbreviation M := (toy_behaviour T fn (straight_edges fn)).
Context (Hnd : NoDup (mi_id <$> all_instrs fn)).

Lemma straight_path t : path M t -> exists rest, all_instrs fn = t ++ rest.
Proof using Hnd.
  induction 1 as [|i Hi|t i j _ [rest E] (Hi & Hj & He)].
  - by eexists.
  - cbn in Hi. destruct (all_instrs fn) as [|i' rest]; [done|]. injection Hi as ->. by exists rest.
  - unfold straight_edges in He. apply list_elem_of_lookup in He as [k Hk].
    apply lookup_zip_Some in Hk as [Hk1 Hk2]. rewrite lookup_tail in Hk2.
    assert (k = length t) as ->.
    { eapply NoDup_lookup; [exact Hnd|exact Hk1|]. rewrite E, list_lookup_fmap, <- app_assoc.
      rewrite lookup_app_r by done. by rewrite Nat.sub_diag. }
    destruct rest as [|j' rest].
    + rewrite list_lookup_fmap, lookup_ge_None_2 in Hk2; [done|]. rewrite E, !length_app. cbn. lia.
    + exists rest. rewrite E, <- !app_assoc. cbn. do 3 f_equal.
      apply list_elem_of_lookup in Hj as [l Hl]. 
      assert (l = S (length t)) as ->.
      { eapply NoDup_lookup; [exact Hnd| |exact Hk2]. by rewrite list_lookup_fmap, Hl. }
      rewrite E, lookup_app_r in Hl by (rewrite length_app; cbn; lia).
      rewrite length_app in Hl. cbn in Hl. replace (S (length t) - (length t + 1)) with 0 in Hl by lia. by injection Hl.
Qed.

Lemma straight_once x : NoDup (all_instrs fn ≫= written) -> read_written [] (all_instrs fn) -> written_once M x.
Proof using Hnd.
  intros Hw Hr. split.
  - intros i j [Hi Hxi]%writes_written [Hj Hxj]%writes_written.
    revert Hi Hj Hw. clear -Hxi Hxj. induction (all_instrs fn) as [|k l IH]; [by intros ?%elem_of_nil|].
    rewrite bind_cons. intros Hi Hj (Hk & Hkl & Hl)%NoDup_app.
    assert (Hno : forall i, i ∈ l -> x ∈ written i -> x ∉ written k).
    { intros i' Hi' Hx' Hxk. apply (Hkl x Hxk), list_elem_of_bind. by exists i'. }
    apply elem_of_cons in Hi as [->|Hi], Hj as [->|Hj]; [done|by destruct (Hno j)|by destruct (Hno i)|by apply IH].
  - intros t Hp (u & i & Hp' & Hread & Hun). apply reads_reading in Hread as [_ Hread].
    destruct (straight_path _ Hp') as [rest E]. rewrite E in Hr.
    replace ((t ++ u ++ [i]) ++ rest) with ((t ++ u) ++ i :: rest) in Hr by (by rewrite <- !app_assoc).
    destruct (read_written_spec _ _ _ _ x Hr Hread) as [?%elem_of_nil|(j & Hj & Hwj)]; [done|].
    assert (Hwr : writes M j x).
    { apply writes_written. split; [|done]. rewrite E. rewrite !elem_of_app in *. tauto. }
    exists j. split; [|done]. apply elem_of_app in Hj as [|Hj]; [done|]. by destruct (Hun j Hj).
Qed.

End Straight.

(** *** The spilled value *)

Definition spill_uses : StackSlotCopies :=
  {[0%Z := [StackStoreLoc 0 0 (MInstr 1 store_op [use 0; MO_FrameIndex 0]);
            StackLoadLoc 2 0 (MInstr 5 load_op [def 2; MO_FrameIndex 0])]]}.

Definition spill_found : pass := Pass [spill_bundle] ∅ ∅ spill_uses no_locations.

Lemma spill_finds : findStackmapsAndStackSlotCopies spill_target spill_ir spill_fn (Pass [] ∅ ∅ ∅ no_locations) = Ret spill_found.
Proof. vm_compute. reflexivity. Qed.

Lemma spill_laws : MachineLaws spill_target spill_fn /\ BehaviourLaws spill_target spill_fn spill_behaviour.
Proof. split; [apply toy_laws|apply toy_behaviour_laws]; apply (bool_decide_unpack _); vm_compute; exact I. Qed.

Lemma spill_once x : written_once spill_behaviour x.
Proof.
  apply straight_once; apply (bool_decide_unpack _); vm_compute; exact I.
Qed.

Lemma spill_linked : alternate spill_target spill_fn spill_bundle {[1 := [5]]} ∅ 1 (Slot 0).
Proof.
  split; [|split; [vm_compute; reflexivity|done]].
  apply linked_copy with (Vreg 0) (StackStoreLoc 0 0 (MInstr 1 store_op [use 0; MO_FrameIndex 0]));
    [|split; [by right; left|vm_compute; reflexivity]|by right|split; [done|vm_compute; reflexivity]].
  apply linked_copy with (Vreg 1) (RegCopyLoc 1 0 (MInstr 2 COPY [def 1; use 0])); [constructor| |by left|done].
  split; [by do 2 right; left|vm_compute; reflexivity].
Qed.

(** ** Properties *)

(** Alternate locations can be wrong.  Where a register is written by several
    copies, as after the elimination of phi-nodes, the search goes from one
    source to the other: in [select_fn] the slot that [b] is spilled to is
    recorded as a location of [a], and when the stack map is reached through the
    second copy both are live and hold different values. *)
Theorem alternate_location_wrong :
  MachineLaws select_target select_fn /\ BehaviourLaws select_target select_fn select_behaviour /\
  exists p ws t σ, runOnMachineFunction select_target select_ir select_fn (fun _ => Ret None) 4 10 false no_locations = Ret (p, ws) /\
    duplicates (MF p) 12 5 = [MachineLiveStackSlot 0] /\
    path select_behaviour t /\ run select_target select_behaviour t (fun _ => 0%Z) σ /\
    live_after select_behaviour t (Vreg 0) /\ live_after select_behaviour t (Slot 0) /\
    σ (Vreg 0) = 1%Z /\ σ (Slot 0) = 2%Z.
Proof.
  assert (Hch : toy_checked select_fn) by (apply (bool_decide_unpack _); vm_compute; exact I).
  split; [by apply toy_laws|]. split; [by apply toy_behaviour_laws|].
  set (t := select_path). set (rest := select_rest).
  assert (Hpath : path select_behaviour (t ++ rest)).
  { apply (path_checked_ok _ _ _ _ []); [|constructor]. apply (bool_decide_unpack _). vm_compute. exact I. }
  do 2 eexists. exists t. eexists. split; [vm_compute; reflexivity|]. split; [vm_compute; reflexivity|].
  split; [by apply (path_app _ _ rest)|].
  split; [apply toy_run; [done|apply (bool_decide_unpack _); vm_compute; exact I]|].
  split; [|split; [|split; vm_compute; reflexivity]].
  - exists (take 1 rest), (MInstr 8 use_op [use 0; use 2; use 3]). split; [done|].
    split; [split; [by do 8 right; left|by left]|].
    intros j ->%list_elem_of_singleton [_ H]. revert H. unfold defines_vreg. cbn. set_solver.
  - exists [], (MInstr 7 load_op [def 3; MO_FrameIndex 0]). split; [by apply (path_app _ _ (drop 1 rest))|].
    split; [|by intros j ?%elem_of_nil]. split; [by do 7 right; left|by eexists].
Qed.

(** ** Witnesses *)

(** The slot is recorded for the value of the operand. *)
Lemma alternate_locations_exact_witness : exists p1 p2,
  mapOpsToIR spill_target spill_fn (getIRSM spill_bundle) (getMISM spill_bundle) spill_found = Ret p1 /\
  findAlternateVregLocs spill_target 3 8 spill_bundle p1 = Ret p2 /\
  MachineLiveStackSlot 0 ∈ duplicates (MF p2) 12 5.
Proof.
  destruct (alternate_locations_exact spill_target spill_ir spill_fn spill_bundle {[1 := [5]]} ∅ no_locations spill_found
    spill_found 3 8 (proj1 spill_laws) spill_finds eq_refl) as (p1 & p2 & E1 & E2 & _ & Hall & _); [by left|vm_compute; reflexivity|done|vm_compute; lia|].
  exists p1, p2. split; [exact E1|]. split; [exact E2|].
  destruct (Hall 1 (Slot 0)) as (r & vals & l & Hr & _ & [= <-] & Hv); [by eexists|exact spill_linked|].
  apply Hv. apply lookup_singleton_Some in Hr as [_ <-]. by left.
Defined.

(** The slot has what the register has, after the call. *)
Lemma alternate_locations_agree_witness : exists p1 p2,
  mapOpsToIR spill_target spill_fn (getIRSM spill_bundle) (getMISM spill_bundle) spill_found = Ret p1 /\
  findAlternateVregLocs spill_target 3 8 spill_bundle p1 = Ret p2 /\
  forall l, l ∈ duplicates (MF p2) 12 5 -> exists x, place_loc spill_target x = Some l /\
    forall t σ0 σ, path spill_behaviour t -> run spill_target spill_behaviour t σ0 σ ->
      live_after spill_behaviour t (Vreg 1) -> live_after spill_behaviour t x -> σ x = σ (Vreg 1).
Proof.
  destruct (alternate_locations_agree spill_target spill_ir spill_fn spill_bundle {[1 := [5]]} ∅ no_locations spill_found
    spill_found 3 8 spill_behaviour (proj1 spill_laws) (proj2 spill_laws) spill_finds eq_refl)
    as (p1 & p2 & E1 & E2 & Hall); [by left|vm_compute; reflexivity|done|vm_compute; lia|intros r x _ _; apply spill_once|].
  exists p1, p2. split; [exact E1|]. split; [exact E2|]. intros l Hl.
  destruct (Hall 5 l Hl) as [H|(r & x & (vals & Hr & _) & Hx & _ & Hag)]; [by apply elem_of_nil in H|].
  apply lookup_singleton_Some in Hr as [<- _]. by exists x.
Defined.
