(* ===== verification/AltAccount.v ===== *)
(** * Nothing live across a call is lost without a warning

    The whole pass of [StackTransform]: every register and stack slot that is
    live across a call is an operand of the call's stack map, an alternate
    location of an operand's value, a value that the runtime rebuilds, or warned
    about. *)

From S2P Require Import Prelude CallSite IR MachineIR StackTransform TargetValues CopySearch AltLocs AltResults AltSample.

#[local] Open Scope nat_scope.

(** ** Lemmas *)

(** *** The stack maps are distinct *)

Section Distinct.
Context (T : llvm) (F : func).

Lemma find_in_block_sublist BB before rest st st' : find_in_block T F BB before rest st = Ret st' ->
  (getMISM <$> st'.1) `sublist_of` ((getMISM <$> st.1) ++ rest).
Proof.
  revert before st. induction rest as [|i rest IH]; intros before st; cbn [find_in_block].
  { intros [= ->]. by rewrite app_nil_r. }
  intros (st1 & E1 & E2)%outcome_bind_Ret.
  assert (H1 : (getMISM <$> st1.1) `sublist_of` ((getMISM <$> st.1) ++ [i])).
  { assert (Hsame : (getMISM <$> st.1) `sublist_of` ((getMISM <$> st.1) ++ [i])) by by apply sublist_inserts_r.
    case_decide.
    - inv_outcome. destruct x as [| ID | | | | | | |]; try done. inv_outcome.
      destruct (find_call T (reverse before)); injection E1 as <-; [|done]. cbn. by rewrite fmap_app.
    - destruct (getCopyLocation T i); by injection E1 as <-. }
  etransitivity; [by apply IH in E2|]. rewrite cons_middle, app_assoc. by apply sublist_app.
Qed.

Lemma find_in_blocks_sublist blocks st st' : find_in_blocks T F blocks st = Ret st' ->
  (getMISM <$> st'.1) `sublist_of` ((getMISM <$> st.1) ++ (blocks ≫= snd)).
Proof.
  revert st. induction blocks as [|[BB ins] blocks IH]; intros st; cbn [find_in_blocks].
  { intros [= ->]. by rewrite app_nil_r. }
  intros (st1 & E1 & E2)%outcome_bind_Ret. apply find_in_block_sublist in E1. apply IH in E2.
  etransitivity; [exact E2|]. rewrite bind_cons, app_assoc. by apply sublist_app.
Qed.

Lemma find_distinct fn `{!MachineLaws T fn} L p : findStackmapsAndStackSlotCopies T F fn (Pass [] ∅ ∅ ∅ L) = Ret p ->
  NoDup ((fun B => mi_id (getMISM B)) <$> SM p).
Proof.
  unfold findStackmapsAndStackSlotCopies. intros ([sm uses] & E & [= <-])%outcome_bind_Ret. cbn.
  apply find_in_blocks_sublist in E. cbn in E. rewrite (list_fmap_compose getMISM mi_id).
  eapply sublist_NoDup; [apply (ml_ids (T := T) (fn := fn))|]. by apply fmap_sublist.
Qed.

End Distinct.

Section Account.
Context (T : llvm) (F : func) (fn : MachineFunction) `{HL : !MachineLaws T fn}.
Context (gmv : minstr -> outcome (option MachineLiveVal)).

Definition key (B : SMInstBundle) : nat := mi_id (getMISM B).

(** The operands of a stack map, as the code generator left them. *)
Definition operands (B : SMInstBundle) : outcome (RegValsMap * StackValsMap) :=
  map_operands T fn (drop 2 (mi_ops (getMISM B))) (i_operands (getIRSM B)) ∅ ∅.

Definition is_operand (B : SMInstBundle) (x : place) : Prop :=
  exists vregs slots, operands B = Ret (vregs, slots) /\ is_Some (operand vregs slots x).

(** An alternate location of some value. *)
Definition is_alternate (L : sm_locations) (B : SMInstBundle) (x : place) : Prop :=
  exists V l, place_loc T x = Some l /\ l ∈ duplicates L (i_val (getIRSM B)) V.

(** A value that the runtime builds. *)
Definition is_rebuilt (L : sm_locations) (B : SMInstBundle) (x : place) : Prop :=
  exists l MC, place_loc T x = Some l /\ (l, MC) ∈ default [] (SMArchSpecificLocs L !! i_val (getIRSM B)).

Definition entry_of (p : pass) (B : SMInstBundle) (x : place) : option ValueVec :=
  match x with
  | Vreg v => SMVregs p !! key B ≫= (fun m => m !! v)
  | Slot SS => SMStackSlots p !! key B ≫= (fun m => m !! SS)
  end.

(** What is in the maps of a stack map is accounted for. *)
Record mapped (p : pass) (B : SMInstBundle) : Prop := {
  mp_vregs : is_Some (SMVregs p !! key B);
  mp_slots : is_Some (SMStackSlots p !! key B);
  mp_entry x : is_Some (entry_of p B x) ->
    is_operand B x \/ is_alternate (MF p) B x \/ is_rebuilt (MF p) B x;
  mp_phys v : is_Some (entry_of p B (Vreg v)) -> is_Some (getPhys T v)
}.

Definition more_locs (L L' : sm_locations) : Prop :=
  (forall SM V l, l ∈ duplicates L SM V -> l ∈ duplicates L' SM V) /\
  (forall SM lv, lv ∈ default [] (SMArchSpecificLocs L !! SM) -> lv ∈ default [] (SMArchSpecificLocs L' !! SM)).

Lemma mapped_more p p' B : mapped p B -> SMVregs p' !! key B = SMVregs p !! key B ->
  SMStackSlots p' !! key B = SMStackSlots p !! key B -> more_locs (MF p) (MF p') -> mapped p' B.
Proof.
  intros [H1 H2 H3 H4] Ev Es [Hd Ha].
  assert (He : forall x, entry_of p' B x = entry_of p B x) by (intros [v|SS]; cbn; by rewrite ?Ev, ?Es).
  constructor; rewrite ?Ev, ?Es; try done.
  - intros x Hx. rewrite He in Hx. destruct (H3 x Hx) as [|[(V & l & ? & Hin)|(l & MC & ? & Hin)]].
    + by left.
    + right. left. exists V, l. split; [done|]. by apply Hd.
    + right. right. exists l, MC. split; [done|]. by apply Ha.
  - intros v Hv. rewrite He in Hv. by apply H4.
Qed.

Lemma more_trans L1 L2 L3 : more_locs L1 L2 -> more_locs L2 L3 -> more_locs L1 L3.
Proof. intros [H1 H2] [H3 H4]. split; naive_solver. Qed.

(** *** Alternate locations *)

Lemma map_operands_values ops vals vs ss vs' ss' :
  map_operands T fn ops vals vs ss = Ret (vs', ss') ->
  (forall r vals, vs !! r = Some vals -> vals <> []) -> forall r vals, vs' !! r = Some vals -> vals <> [].
Proof.
  revert vals vs ss. induction ops as [ops IH] using (induction_ltof1 _ (@length _)); unfold ltof in IH.
  intros vals vs ss. destruct vals as [|v vals]; [destruct ops; intros [= -> ->]; done|].
  assert (Hpush : forall k, (forall r vals, vs !! r = Some vals -> vals <> []) ->
    forall r vals, push_val k v vs !! r = Some vals -> vals <> []).
  { intros k Hn r vs1. unfold push_val. destruct (decide (k = r)) as [->|]; [|by rewrite lookup_insert_ne; [apply Hn|]].
    rewrite lookup_insert_eq. intros [= <-]. by destruct (default [] (vs !! r)). }
  destruct ops as [|op ops]; [done|]. destruct op as [[|v'] b|imm| | | | | | |]; try done; cbn [map_operands].
  - intros E Hn. eapply IH; [|exact E|by apply Hpush]. cbn. lia.
  - destruct (_ =? _)%Z; [|destruct (_ =? _)%Z; [|destruct (_ =? _)%Z; [|done]]].
    + destruct ops as [|[] [|o2 ops]]; try done. intros E Hn. inv_outcome. eapply IH; [|exact E|done]. cbn. lia.
    + destruct ops as [|o1 [|[] [|o2 ops]]]; try done. intros E Hn. inv_outcome. eapply IH; [|exact E|done]. cbn. lia.
    + destruct ops as [|o1 ops]; [done|]. intros E Hn. eapply IH; [|exact E|done]. cbn. lia.
Qed.

(** One stack map. *)
Lemma find_op_loc_spec L p0 p B fuel wfuel :
  findStackmapsAndStackSlotCopies T F fn (Pass [] ∅ ∅ ∅ L) = Ret p0 -> SSUses p = SSUses p0 -> B ∈ SM p0 ->
  (exists m, operands B = Ret m) -> getNumVirtRegs fn <= fuel -> length (all_instrs fn) + 1 <= wfuel ->
  exists p1 p2, mapOpsToIR T fn (getIRSM B) (getMISM B) p = Ret p1 /\ findAlternateVregLocs T fuel wfuel B p1 = Ret p2 /\
    SSUses p2 = SSUses p /\ SM p2 = SM p /\ more_locs (MF p) (MF p2) /\ mapped p2 B /\
    forall k, k <> key B -> SMVregs p2 !! k = SMVregs p !! k /\ SMStackSlots p2 !! k = SMStackSlots p !! k.
Proof using HL.
  intros E0 Eu HB [[vregs slots] Em] Hf Hw.
  destruct (find_alternates T F fn B vregs slots L p0 p fuel wfuel E0 Eu HB Em Hf Hw) as (p1 & s & E1 & E2 & Hg & _).
  eexists p1, _. split; [done|]. split; [exact E2|]. split; [done|]. split; [done|].
  assert (Hi : getMISM B ∈ all_instrs fn).
  { destruct (find_complete T F fn L p0 E0) as (_ & Hbun & _). destruct (Hbun B HB) as (pre & post & -> & _).
    apply elem_of_app. right. by left. }
  assert (Hent : forall x, entry_of (Pass (SM p) (<[key B := sr_vregs s]> (SMVregs p)) (<[key B := sr_slots s]> (SMStackSlots p))
      (SSUses p) (sr_locs s)) B x = entry s x).
  { intros [v|SS]; cbn; by rewrite lookup_insert_eq. }
  destruct Hg as [Hk Ha Hl Hr]. split; [|split; [constructor|]].
  - split; cbn [MF]; [intros SM' V l Hin; apply Hl; by left|by rewrite Hr].
  - cbn. rewrite lookup_insert_eq. by eexists.
  - cbn. rewrite lookup_insert_eq. by eexists.
  - intros x. setoid_rewrite Hent. intros [vals Hx]. destruct (operand vregs slots x) as [vs|] eqn:Eo.
    { left. exists vregs, slots. split; [done|by eexists]. }
    right. left. destruct (Ha x vals) as (Hlive & r & Hv & Hlink); [done|].
    destruct (alternate_loc T fn B vregs slots r x) as [l Hloc]; [done|by eexists|].
    destruct vals as [|V vals]; [by destruct (map_operands_values _ _ _ _ _ _ Em (fun r vs (H : ∅ !! r = Some vs) => ltac:(by rewrite lookup_empty in H)) r [] Hv)|].
    exists V, l. split; [done|]. cbn [MF]. apply Hl. right. split; [done|]. exists x, (V :: vals). split; [done|]. split; [by left|done].
  - intros v. setoid_rewrite Hent. intros [vals Hx]. cbn in Hx.
    destruct (vregs !! v) as [vs|] eqn:Eo.
    + destruct (map_operands_regs T fn _ _ _ _ _ _ v Em) as [[? Hv]|[b Hb]]; [by eexists|done|].
      apply (ml_phys (getMISM B) v Hi). apply list_elem_of_lookup in Hb as [k Hb]. rewrite lookup_drop in Hb.
      apply list_elem_of_lookup_2 in Hb. destruct b; [by left|by right].
    + destruct (Ha (Vreg v) vals) as (Hlive & r & Hv & Hlink); [done|].
      destruct (alternate_loc T fn B vregs slots r (Vreg v)) as [l Hloc]; [done|by eexists|].
      cbn in Hloc. by destruct (getPhys T v).
  - intros k Hne. cbn. by rewrite !lookup_insert_ne.
Qed.

Context (fuel wfuel : nat) (Hfuel : getNumVirtRegs fn <= fuel) (Hwfuel : length (all_instrs fn) + 1 <= wfuel).

Lemma find_op_locs_spec L p0 Bs p :
  findStackmapsAndStackSlotCopies T F fn (Pass [] ∅ ∅ ∅ L) = Ret p0 -> SSUses p = SSUses p0 ->
  (forall B, B ∈ Bs -> B ∈ SM p0 /\ exists m, operands B = Ret m) -> NoDup (key <$> Bs) ->
  exists p', find_op_locs T fn fuel wfuel Bs p = Ret p' /\ SM p' = SM p /\ more_locs (MF p) (MF p') /\
    (forall B, B ∈ Bs -> mapped p' B) /\
    forall k, k ∉ key <$> Bs -> SMVregs p' !! k = SMVregs p !! k /\ SMStackSlots p' !! k = SMStackSlots p !! k.
Proof using HL Hfuel Hwfuel.
  intros E0. revert p. induction Bs as [|B Bs IH]; intros p Eu HB Hnd; cbn [find_op_locs].
  { exists p. split; [done|]. split; [done|]. split; [by split|]. split; [by intros ? ?%elem_of_nil|done]. }
  destruct (HB B) as [HBin Hm]; [by left|]. apply NoDup_cons in Hnd as [Hnew Hnd].
  destruct (find_op_loc_spec L p0 p B fuel wfuel E0 Eu HBin Hm Hfuel Hwfuel) as (p1 & p2 & E1 & E2 & Eu2 & Es2 & Hl2 & Hmp & Hsame).
  rewrite E1. cbn [mbind outcome_bind]. rewrite E2. cbn [mbind outcome_bind].
  destruct (IH p2) as (p3 & E3 & Es3 & Hl3 & Hmp3 & Hsame3); [congruence|intros B' HB'; apply HB; by right|done|].
  exists p3. split; [done|]. split; [congruence|]. split; [by eapply more_trans|]. split.
  - intros B' [-> |HB']%elem_of_cons; [|by apply Hmp3]. destruct (Hsame3 (key B) Hnew) as [Ev Es].
    by apply (mapped_more p2).
  - intros k [Hk1 Hk2]%not_elem_of_cons. destruct (Hsame3 k Hk2) as [-> ->]. by apply Hsame.
Qed.

(** *** Values of the target *)

(** The instructions whose value the pass can ask for: the one that defines a
    register, unless it is a move of an immediate, which the pass reads itself. *)
Definition asked (MI : minstr) : Prop := exists v MIs, v < getNumVirtRegs fn /\ hasOneDef T v = true /\
  def_instrs T v = MI :: MIs /\ isMoveImmediate T MI = false.

Context (Hgmv : forall MI, asked MI -> exists LV, gmv MI = Ret LV).

Lemma sanitize_insts_returns vregs VG : (forall v, is_Some (vregs !! v) -> is_Some (getPhys T v)) ->
  exists VG', sanitize_insts T vregs VG = Ret VG'.
Proof.
  intros Hp. induction VG as [|i VG [VG' IH]]; cbn [sanitize_insts]; [by eexists|].
  assert (Hk : forall i', exists VG'', (match i' with
    | None => Ret None
    | Some i => VG ← sanitize_insts T vregs VG; Ret (match VG with Some VG => Some (i :: VG) | None => None end)
    end) = Ret VG'') by (intros [i'|]; rewrite ?IH; by eexists).
  destruct i as [t [n|v] Off|t Size Imm|t Data G]; cbn [mbind outcome_bind]; try apply (Hk (Some _)).
  - case_decide; [apply (Hk (Some _))|apply (Hk None)].
  - destruct (vregs !! v) as [vs|] eqn:E; [|apply (Hk None)].
    destruct (Hp v) as [ph ->]; [by eexists|]. cbn [get mbind outcome_bind]. apply (Hk (Some _)).
Qed.

Lemma getTargetValue_returns v MI MIs vregs : v < getNumVirtRegs fn -> hasOneDef T v = true -> def_instrs T v = MI :: MIs ->
  (forall v, is_Some (vregs !! v) -> is_Some (getPhys T v)) -> exists MC, getTargetValue T gmv MI vregs = Ret MC.
Proof using Hgmv.
  intros Hv Ho Hd Hp. unfold getTargetValue. destruct (isMoveImmediate T MI) eqn:Em.
  { destruct (move_immediate _). by eexists. }
  destruct (Hgmv MI) as [LV ->]; [by exists v, MIs|]. cbn [mbind outcome_bind]. unfold sanitizeVregs.
  destruct LV as [[| |VG]|]; try by eexists.
  destruct (sanitize_insts_returns vregs VG Hp) as [VG' ->]. by eexists.
Qed.

Lemma add_arch_spec SM MLL MC L : more_locs L (addSMArchSpecificLocation SM MLL MC L) /\
  exists MC', (MLL, MC') ∈ default [] (SMArchSpecificLocs (addSMArchSpecificLocation SM MLL MC L) !! SM).
Proof.
  unfold addSMArchSpecificLocation. split; [split; [done|]|]; cbn.
  - intros SM' lv Hin. destruct (decide (SM = SM')) as [->|]; [|by rewrite lookup_insert_ne].
    rewrite lookup_insert_eq. cbn. case_decide; [done|]. apply elem_of_app. by left.
  - rewrite lookup_insert_eq. cbn. case_decide as Hin.
    + apply list_elem_of_fmap in Hin as ([l MC'] & -> & Hin). by exists MC'.
    + exists MC. apply elem_of_app. right. by left.
Qed.

Lemma is_rebuilt_more L L' B x : more_locs L L' -> is_rebuilt L B x -> is_rebuilt L' B x.
Proof. intros [_ Ha] (l & MC & ? & Hin). exists l, MC. split; [done|]. by apply Ha. Qed.

Lemma find_arch_vregs_spec B vs vregs L : Forall (fun v => v < getNumVirtRegs fn) vs ->
  (forall v, is_Some (vregs !! v) -> is_Some (getPhys T v)) ->
  exists vregs' L', find_arch_vregs T gmv B vs vregs L = Ret (vregs', L') /\ more_locs L L' /\
    forall v, is_Some (vregs' !! v) -> is_Some (getPhys T v) /\ (is_Some (vregs !! v) \/ is_rebuilt L' B (Vreg v)).
Proof using HL Hgmv.
  intros Hvs. revert vregs L. induction Hvs as [|v vs Hb Hvs IH]; intros vregs L Hp; cbn [find_arch_vregs].
  { exists vregs, L. split; [done|]. split; [by split|]. intros v Hv. split; [by apply Hp|by left]. }
  destruct (unhandled_vreg T B vregs v) eqn:Eu; [|by apply IH].
  destruct (hasOneDef T v) eqn:Ed; [|by apply IH]. cbn [andb].
  pose proof (ml_one (T := T) (fn := fn) v Ed) as Hne. destruct (def_instrs T v) as [|MI MIs] eqn:EM; [done|].
  cbn [head get mbind outcome_bind]. destruct (getTargetValue_returns v MI MIs vregs Hb Ed EM Hp) as [[MC|] ->];
    cbn [mbind outcome_bind]; [|by apply IH].
  unfold unhandled_vreg in Eu. apply andb_prop in Eu as [[Eu _]%andb_prop _]. apply bool_decide_eq_true in Eu as [ph Eph].
  rewrite Eph. cbn [get mbind outcome_bind].
  destruct (add_arch_spec (i_val (getIRSM B)) (MachineLiveReg (PhysReg ph)) MC L) as [Hl [MC' Hin]].
  destruct (IH (<[v := []]> vregs) (addSMArchSpecificLocation (i_val (getIRSM B)) (MachineLiveReg (PhysReg ph)) MC L))
    as (vregs' & L' & E & Hl' & Hv').
  { intros u. destruct (decide (v = u)) as [->|]; [by intros _; eexists|]. rewrite lookup_insert_ne by done. apply Hp. }
  exists vregs', L'. split; [done|]. split; [by eapply more_trans|]. intros u Hu. destruct (Hv' u Hu) as [Hph [Hold|Hr]].
  - split; [done|]. destruct (decide (v = u)) as [->|]; [right|left; by rewrite lookup_insert_ne in Hold].
    apply (is_rebuilt_more _ _ _ _ Hl'). eexists _, MC'. split; [|exact Hin]. cbn. by rewrite Eph.
  - split; [done|]. by right.
Qed.

Lemma find_arch_vals_spec All Bs p : NoDup (key <$> All) -> (forall B, B ∈ Bs -> B ∈ All) ->
  (forall B, B ∈ All -> mapped p B) ->
  exists p', find_arch_vals T fn gmv Bs p = Ret p' /\ SM p' = SM p /\ more_locs (MF p) (MF p') /\
    forall B, B ∈ All -> mapped p' B.
Proof using HL Hgmv.
  intros Hnd. revert p. induction Bs as [|B Bs IH]; intros p Hsub Hm; cbn [find_arch_vals].
  { exists p. split; [done|]. split; [done|]. by split; [split|]. }
  destruct (Hm B) as [[vregs Ev] Hs He Hp]; [apply Hsub; by left|]. unfold key in Ev. rewrite Ev. cbn [default from_option id].
  destruct (find_arch_vregs_spec B (seq 0 (getNumVirtRegs fn)) vregs (MF p)) as (vregs' & L' & E & Hl & Hv').
  { apply Forall_forall. intros v Hv%elem_of_seq. clear Hfuel Hwfuel. lia. }
  { intros v Hv. apply Hp. cbn. unfold key. by rewrite Ev. }
  rewrite E. cbn [mbind outcome_bind].
  destruct (IH (Pass (SM p) (<[mi_id (getMISM B) := vregs']> (SMVregs p)) (SMStackSlots p) (SSUses p) L')) as (p' & E' & Es' & Hl' & Hm').
  - intros B' HB'. apply Hsub. by right.
  - intros B' HB'. destruct (decide (key B' = key B)) as [Ek|Hk]; [|apply (mapped_more p); [by apply Hm| |done|done]].
    2: { cbn. by rewrite lookup_insert_ne by (intros E'; apply Hk; symmetry; exact E'). }
    assert (B' = B) as ->.
    { apply list_elem_of_lookup in HB' as [i Hi]. assert (HB : B ∈ All) by (apply Hsub; by left).
      apply list_elem_of_lookup in HB as [j Hj]. assert (i = j) as ->; [|congruence].
      eapply NoDup_lookup; [exact Hnd|rewrite list_lookup_fmap, Hi; cbn; by rewrite Ek|by rewrite list_lookup_fmap, Hj]. }
    constructor; cbn; unfold key.
    + rewrite lookup_insert_eq. by eexists.
    + done.
    + intros [v|SS] Hx; cbn in Hx.
      * unfold key in Hx. rewrite lookup_insert_eq in Hx. cbn in Hx. destruct (Hv' v Hx) as [_ [Hold|Hr]]; [|by right; right].
        destruct (He (Vreg v)) as [|[(V & l & ? & Hin)|Hr]]; [cbn; unfold key; by rewrite Ev|by left| |].
        -- right. left. exists V, l. split; [done|]. by apply Hl.
        -- right. right. by apply (is_rebuilt_more (MF p)).
      * destruct (He (Slot SS)) as [|[(V & l & ? & Hin)|Hr]]; [done|by left| |].
        -- right. left. exists V, l. split; [done|]. by apply Hl.
        -- right. right. by apply (is_rebuilt_more (MF p)).
    + intros v. rewrite lookup_insert_eq. cbn. intros Hx. by apply Hv'.
  - exists p'. split; [done|]. split; [done|]. split; [|done]. by eapply more_trans.
Qed.

(** *** Warnings *)

(** A place is live across the call of a stack map. *)
Definition live_over (B : SMInstBundle) (x : place) : Prop :=
  match x with
  | Vreg v => v < getNumVirtRegs fn /\ is_Some (getPhys T v) /\ isVregLiveAcrossInstr T v (getMICall B) = true
  | Slot SS => (getObjectIndexBegin fn <= SS < getObjectIndexEnd fn)%Z /\ isDeadObjectIndex T SS = false /\
      isSSLiveAcrossInstr T SS (getMICall B) = true
  end.

(** A warning about a place, at the call of a stack map. *)
Definition is_warned (ws : list (instr * warning)) (B : SMInstBundle) (x : place) : Prop :=
  exists IRCall, findCalledFunc F (getIRSM B) = Ret IRCall /\
    match x with
    | Vreg v => exists ph, getPhys T v = Some ph /\ (IRCall, UnhandledRegister ph) ∈ ws
    | Slot SS => (IRCall, UnhandledStackSlot SS) ∈ ws
    end.

Lemma warn_one B x vregs slots IRCall ws : SMVregs ws !! key B = Some vregs -> SMStackSlots ws !! key B = Some slots ->
  findCalledFunc F (getIRSM B) = Ret IRCall -> live_over B x -> entry_of ws B x = None ->
  is_warned (pair IRCall <$> unhandled_regs T fn B vregs ++ unhandled_slots T fn B slots) B x.
Proof using Type.
  intros Ev Es Ec Hlive Hn. exists IRCall. split; [done|]. destruct x as [v|SS]; cbn in Hlive, Hn.
  - destruct Hlive as (Hb & [ph Hph] & Hl). rewrite Ev in Hn. cbn in Hn. exists ph. split; [done|].
    apply list_elem_of_fmap_2, elem_of_app. left. apply list_elem_of_omap. exists v. rewrite Hph. split; [|done].
    apply list_elem_of_filter. split; [|apply elem_of_seq; clear Hfuel Hwfuel; lia]. unfold unhandled_vreg. rewrite Hl, Hph, Hn.
    by rewrite !bool_decide_eq_true_2 by (done || by eexists).
  - destruct Hlive as (Hb & Hd & Hl). rewrite Es in Hn. cbn in Hn.
    apply list_elem_of_fmap_2, elem_of_app. right. apply list_elem_of_fmap_2, list_elem_of_filter.
    split; [|apply elem_of_seqZ; clear Hfuel Hwfuel; lia]. unfold unhandled_slot. rewrite Hl, Hd, Hn. by rewrite bool_decide_eq_true_2.
Qed.

Lemma is_warned_app ws1 ws2 B x : is_warned ws1 B x \/ is_warned ws2 B x -> is_warned (ws1 ++ ws2) B x.
Proof using Type.
  intros [(c & E & Hx)|(c & E & Hx)]; exists c; (split; [done|]); (destruct x as [v|SS]; [destruct Hx as (ph & ? & ?); exists ph|]);
    rewrite elem_of_app; auto.
Qed.

Lemma warn_all_spec Bs p : (forall B, B ∈ Bs -> mapped p B /\ exists c, findCalledFunc F (getIRSM B) = Ret c) ->
  exists ws, warn_all T F fn Bs p = Ret ws /\
    forall B x, B ∈ Bs -> live_over B x -> entry_of p B x = None -> is_warned ws B x.
Proof using Type.
  induction Bs as [|B Bs IH]; intros HB; cbn [warn_all].
  { exists []. split; [done|]. by intros B x ?%elem_of_nil. }
  destruct (HB B) as [[[vregs Ev] [slots Es] _ _] [c Ec]]; [by left|]. unfold key in Ev, Es. rewrite Ev, Es, Ec.
  cbn [get mbind outcome_bind]. destruct IH as (ws & -> & Hws); [intros B' HB'; apply HB; by right|].
  cbn [mbind outcome_bind]. eexists. split; [done|]. intros B' x [-> |HB']%elem_of_cons Hl Hn; apply is_warned_app.
  - left. by eapply warn_one.
  - right. by apply Hws.
Qed.
End Account.

(** ** Properties *)

(** C20: nothing that is live across a call is lost in silence.  On every machine
    function whose stack maps can be read, and with a target that can tell the
    value of each instruction it is asked about, the whole pass returns, keeps the
    records it had, and each virtual register and each stack slot that is live
    across the call of a stack map is an operand of that stack map, or recorded
    as an alternate location of a value, or as a place whose value the runtime
    builds, or there is a warning about it that names the call.  In particular a
    place is not taken as handled because another stack map has it.  The targets'
    functions return exactly on the instructions whose operands are as they
    assert ([X86Domain.x86_value_returns],
    [AArch64Domain.aarch64_value_returns]). *)
Theorem live_places_accounted T F fn gmv fuel wfuel L p0 :
  MachineLaws T fn -> hasStackMap fn = true ->
  findStackmapsAndStackSlotCopies T F fn (Pass [] ∅ ∅ ∅ L) = Ret p0 ->
  (forall B, B ∈ SM p0 -> exists m, operands T fn B = Ret m) ->
  (forall B, B ∈ SM p0 -> exists c, findCalledFunc F (getIRSM B) = Ret c) ->
  (forall MI, asked T fn MI -> exists LV, gmv MI = Ret LV) ->
  getNumVirtRegs fn <= fuel -> length (all_instrs fn) + 1 <= wfuel ->
  exists p ws, runOnMachineFunction T F fn gmv fuel wfuel false L = Ret (p, ws) /\ SM p = SM p0 /\ more_locs L (MF p) /\
    forall B x, B ∈ SM p0 -> live_over T fn B x ->
      is_operand T fn B x \/ is_alternate T (MF p) B x \/ is_rebuilt T (MF p) B x \/ is_warned T F ws B x.
Proof.
  intros HL Hsm E0 Hop Hcall Hgmv Hf Hw. unfold runOnMachineFunction. rewrite Hsm, E0. cbn [mbind outcome_bind].
  pose proof (find_distinct T F fn L p0 E0) as Hnd. destruct (find_complete T F fn L p0 E0) as (_ & _ & _ & _ & <-).
  destruct (find_op_locs_spec T F fn fuel wfuel Hf Hw (MF p0) p0 (SM p0) p0 E0 eq_refl) as (p1 & E1 & Es1 & Hl1 & Hm1 & _);
    [intros B HB; split; [done|by apply Hop]|exact Hnd|].
  unfold findAlternateOpLocs. rewrite E1. cbn [mbind outcome_bind]. unfold findArchSpecificLiveVals. rewrite Es1.
  destruct (find_arch_vals_spec T fn gmv Hgmv (SM p0) (SM p0) p1 Hnd) as (p2 & E2 & Es2 & Hl2 & Hm2); [done|done|].
  rewrite E2. cbn [mbind outcome_bind]. unfold warnUnhandled. rewrite Es2, Es1.
  destruct (warn_all_spec T F fn (SM p0) p2) as (ws & -> & Hws); [intros B HB; split; [by apply Hm2|by apply Hcall]|].
  exists p2, ws. split; [done|]. split; [congruence|]. split; [by eapply more_trans|].
  intros B x HB Hlive. destruct (entry_of p2 B x) as [vals|] eqn:En.
  - destruct (mp_entry _ _ _ _ (Hm2 B HB) x) as [|[|]]; [by eexists|auto..].
  - do 3 right. by apply Hws.
Qed.

(** ** Witnesses *)

(** *** A function for x86-64: the address [v0 * 8 + 16 + v1] is computed by an
    LEA, is live across the call and is not an operand of the stack map, which
    has its base and index.  The positions are LLVM's: base, scale, index,
    displacement, segment. *)

Definition lea_code : list minstr := [
  MInstr 0 imm_op [def 0; MO_Immediate 5];
  MInstr 1 imm_op [def 1; MO_Immediate 7];
  MInstr 2 LEA64r [def 2; use 1; MO_Immediate 8; use 0; MO_Immediate 16; MO_Register (PhysReg 0) false];
  MInstr 3 call_op [];
  MInstr 4 STACKMAP [MO_Immediate 0; MO_Immediate 0; use 0; use 1];
  MInstr 5 use_op [use 0; use 1; use 2]].

Definition lea_fn : MachineFunction := MachineFn [(0, lea_code)] 3 0 0 true.

Definition lea_ir : func := Func 0 [0]
  (list_to_map [(0, [Instr 5 OtherOp []; Instr 6 OtherOp []; Instr 11 (CallInst false false) [];
                     Instr 12 (StackMap 0) [5; 6]; Instr 13 OtherOp [5; 6]])]) ∅.

Definition lea_target : llvm := toy lea_fn [[Segment 0 6]; [Segment 1 6]; [Segment 2 6]] [].

Definition lea_bundle : SMInstBundle := Bundle (Instr 12 (StackMap 0) [5; 6])
  (MInstr 4 STACKMAP [MO_Immediate 0; MO_Immediate 0; use 0; use 1]) (MInstr 3 call_op []).

(** The values of x86-64. *)
Abbreviation lea_values := (X86.getMachineValue 0 1 2 3).

(** The address is rebuilt from the registers that hold its base and its index,
    and nothing is warned about. *)
Lemma live_places_accounted_witness : exists p,
  runOnMachineFunction lea_target lea_ir lea_fn lea_values 3 7 false no_locations = Ret (p, []) /\
  live_over lea_target lea_fn lea_bundle (Vreg 2) /\ is_rebuilt lea_target (MF p) lea_bundle (Vreg 2) /\
  default [] (SMArchSpecificLocs (MF p) !! 12) =
    [(MachineLiveReg (PhysReg 3), MachineGeneratedVal [RegInstruction CallSite.Set_ (PhysReg 1) 0; ImmInstruction CallSite.Multiply 8 8;
        RegInstruction CallSite.Add (PhysReg 2) 0; ImmInstruction CallSite.Add 8 16])].
Proof.
  assert (Hlive : live_over lea_target lea_fn lea_bundle (Vreg 2)).
  { vm_compute. split; [lia|]. split; [by eexists|done]. }
  assert (Hlaws : MachineLaws lea_target lea_fn) by (apply toy_laws, (bool_decide_unpack _); vm_compute; exact I).
  destruct (live_places_accounted lea_target lea_ir lea_fn lea_values 3 7 no_locations (Pass [lea_bundle] ∅ ∅ ∅ no_locations)
    Hlaws eq_refl) as (p & ws & E & _ & _ & Hall).
  - vm_compute. reflexivity.
  - intros B ->%list_elem_of_singleton. eexists. vm_compute. reflexivity.
  - intros B ->%list_elem_of_singleton. eexists. vm_compute. reflexivity.
  - intros MI (v & MIs & Hv & _ & Hd & _). apply X86Domain.x86_value_returns. cbn in Hv.
    destruct v as [|[|[|v]]]; [..|lia]; vm_compute in Hd; injection Hd as <- _; reflexivity.
  - done.
  - vm_compute. lia.
  - exists p. specialize (Hall lea_bundle (Vreg 2)). vm_compute in E. injection E as <- <-.
    split; [vm_compute; reflexivity|]. split; [exact Hlive|]. split; [|vm_compute; reflexivity].
    destruct Hall as [(vr & sl & Ho & [vs Hx])|[(V & l & _ & Hd)|[Hr|(c & Ec & ph & _ & Hw)]]];
      [by left|exact Hlive| | |exact Hr|by apply elem_of_nil in Hw].
    + vm_compute in Ho. injection Ho as <- <-. by vm_compute in Hx.
    + unfold duplicates in Hd. cbn in Hd. exfalso. revert Hd. vm_compute. intros Hd. inversion Hd.
Defined.
