(* ===== verification/EmitMaps.v ===== *)
(** * The stack maps that the compiler emits (StackMaps.cpp of src/patches/llvm/llvm-3.7.1.patch)

    From the operands of a stack map, the further locations and the
    target's values that the passes recorded, to the bytes of a call site's
    records.  The patch shows this code but for a few unchanged lines.  Types,
    the frame's layout, register numbers and the streamer are LLVM's and
    arguments.  A failed assertion is undefined behaviour. *)

From Stdlib Require Import String.
From stdpp Require Import strings.
From S2P Require Import Prelude IR MachineIR CallSite TargetValues.

#[local] Open Scope Z_scope.

(** ** Definitions *)

Inductive LocationType := Unprocessed | Register | Direct | Indirect | Constant | ConstantIndex.

Record Location := Loc {
  Type_ : LocationType;
  Size : Z;              (* unsigned *)
  Reg : Z;               (* unsigned *)
  Offset : Z;            (* int64_t *)
  Ptr : bool;
  Alloca : bool;
  Duplicate : bool;
  AllocaSize : Z;        (* unsigned *)
}.

Definition newLocation : Location := Loc Unprocessed 0 0 0 false false false 0.

Record Operation := Op {
  InstType : inst_type;
  OperandType : LocationType;
  Op_Size : Z;           (* unsigned *)
  DwarfReg : Z;          (* unsigned *)
  Const : Z;             (* int64_t *)
  isSymbol : bool;
  Symbol : string;
}.

(** The constructor leaves the two types and the symbol undefined; they are
    set before they are read. *)
Definition newOperation : Operation := Op Set_ Unprocessed 0 0 0 false EmptyString.

Abbreviation ArchValue := (Location * Operation)%type.

(** What is asked of LLVM: the types of the IR's values and the data layout, the
    registers, the frame, and symbols. *)
Record llvm_emit := LLVMEmit {
  isPointerTy : value -> bool;
  isSizedElement : value -> bool;
  isAllocaInst : value -> bool;
  elementAllocSize : value -> Z;
  getTypeAllocSize : value -> Z;
  pointer_size : Z;
  getDwarfRegNum : nat -> Z;
  subRegOffset : nat -> Z;
  regClassSize : nat -> Z;
  frameRegister : nat;
  getObjectOffset : Z -> Z;
  getObjectSize : Z -> Z;
  isDeadObject : Z -> bool;
  getFBPOffset : Z;
  GetCPISymbol : Z -> string;
  DirectMemRef : Z;
  IndirectMemRef : Z;
  ConstantMem : Z;
  isImplicit : moperand -> bool;
  type_code : LocationType -> Z;
  EmitIntValue : Z -> nat -> list Z;
  EmitSymbolValue : string -> nat -> list Z
}.

(** The enumeration of StackTransformTypes.def. *)
Definition inst_code (t : inst_type) : Z :=
  match t with
  | Set_ => 0 | Add => 1 | Subtract => 2 | Multiply => 3 | Divide => 4 | LeftShift => 5 | RightShiftLog => 6
  | RightShiftArith => 7 | Mask => 8 | Load => 9 | StackSlot => 10 | ConstantPool => 11
  end.

Section Emit.
Context (T : llvm_emit).

(** *** Locations of operands *)

(** Whether a value is a pointer and an allocation, and the allocation's size. *)
Definition getPointerInfo (V : value) : bool * bool * Z :=
  if isPointerTy T V
  then if isSizedElement T V && isAllocaInst T V then (true, true, elementAllocSize T V) else (true, false, 0)
  else (false, false, 0).

(** The DWARF number of a register, and the offset of the register in the one
    with this number. *)
Definition getRegLocation (R : register) : outcome (Z * Z) :=
  match R with
  | PhysReg Phys => Ret (getDwarfRegNum T Phys, subRegOffset T Phys)
  | VirtReg _ => Fault
  end.

Definition FBP : Z := getDwarfRegNum T (frameRegister T).

Definition slot_offset (SS : Z) : Z := getObjectOffset T SS + getFBPOffset T.

Definition duplicate_loc (Size : Z) (Ptr Alloca : bool) (AllocaSize : Z) (LL : MachineLiveLoc) : outcome Location :=
  match LL with
  | MachineLiveReg R =>
      '(DwarfRegNum, Offset) ← getRegLocation R;
      Ret (Loc Register Size DwarfRegNum Offset Ptr Alloca true AllocaSize)
  | MachineLiveStackSlot SS =>
      if isDeadObject T SS then Fault
      else Ret (Loc Indirect Size FBP (slot_offset SS) Ptr Alloca true AllocaSize)
  end.

Fixpoint duplicate_locs (Size : Z) (Ptr Alloca : bool) (AllocaSize : Z) (Dups : list MachineLiveLoc) :
    outcome (list Location) :=
  match Dups with
  | [] => Ret []
  | LL :: Dups =>
      L ← duplicate_loc Size Ptr Alloca AllocaSize LL;
      Ls ← duplicate_locs Size Ptr Alloca AllocaSize Dups;
      Ret (L :: Ls)
  end.

Definition addDuplicateLocs (MF : sm_locations) (SM Oper : value) (Locs : list Location) (Size : Z)
    (Ptr Alloca : bool) (AllocaSize : Z) : outcome (list Location) :=
  if hasSMOpLocations MF SM Oper
  then Dups ← getSMOpLocations MF SM Oper;
       Ls ← duplicate_locs Size Ptr Alloca AllocaSize Dups;
       Ret (Locs ++ Ls)
  else Ret Locs.

(** An operand that starts with an immediate: the location, and the operands
    that follow. *)
Definition parse_immediate (Imm : Z) (MO : list moperand) (V : value) : outcome (Location * list moperand) :=
  let '(isPtr, isAlloca, AllocaSize) := getPointerInfo V in
  if Imm =? DirectMemRef T
  then match MO with
       | MO_Register (PhysReg R) _ :: MO_Immediate Imm :: MO =>
           Ret (Loc Direct (pointer_size T) (getDwarfRegNum T R) Imm isPtr isAlloca false AllocaSize, MO)
       | _ => Fault
       end
  else if Imm =? IndirectMemRef T
  then match MO with
       | MO_Immediate Size :: MO_Register (PhysReg R) _ :: MO_Immediate Imm :: MO =>
           if 0 <? Size
           then Ret (Loc Indirect (wrap32 (getTypeAllocSize T V)) (getDwarfRegNum T R) Imm isPtr isAlloca false AllocaSize, MO)
           else Fault
       | _ => Fault
       end
  else if Imm =? ConstantMem T
  then match MO with
       | MO_Immediate Imm :: MO => Ret (Loc Constant 8 0 Imm isPtr isAlloca false AllocaSize, MO)
       | _ => Fault
       end
  else Fault.

(** [parseOperand], in the loop of [recordStackMapOpers]; the operands must be
    those of the IR.  Implicit registers, and masks of live-out registers, are
    no operands of the IR. *)
Fixpoint parse_operands (MF : sm_locations) (SM : value) (fuel : nat) (MO : list moperand) (vals : list value)
    (Locs : list Location) : outcome (list Location) :=
  match MO, fuel with
  | [], _ => match vals with [] => Ret Locs | _ => Fault end
  | _, O => Spin
  | MO_Immediate Imm :: MO, S fuel =>
      match vals with
      | [] => Fault
      | V :: vals =>
          '(L, MO) ← parse_immediate Imm MO V;
          if hasSMOpLocations MF SM V then Fault
          else parse_operands MF SM fuel MO vals (Locs ++ [L])
      end
  | MO_Register R def :: MO, S fuel =>
      if isImplicit T (MO_Register R def) then parse_operands MF SM fuel MO vals Locs
      else match vals with
           | [] => Fault
           | V :: vals =>
               let '(isPtr, isAlloca, AllocaSize) := getPointerInfo V in
               let ValSize := wrap32 (getTypeAllocSize T V) in
               '(DwarfRegNum, Offset) ← getRegLocation R;
               Locs ← addDuplicateLocs MF SM V
                        (Locs ++ [Loc Register ValSize DwarfRegNum Offset isPtr isAlloca false AllocaSize])
                        ValSize isPtr isAlloca AllocaSize;
               parse_operands MF SM fuel MO vals Locs
           end
  | _ :: MO, S fuel => parse_operands MF SM fuel MO vals Locs
  end.

(** *** Values of the target *)

(** One instruction of a generated value; the operation is kept from one to the
    next, and so is the location. *)
Definition gen_arch_val (Inst : ValueGenInst) (L : Location) (Opn : Operation) : outcome (Location * Operation) :=
  match Inst with
  | PseudoInstruction StackSlot Data GenType =>
      if decide (GenType = Add \/ GenType = Set_)
      then Ret (Loc (Type_ L) (Size L) (Reg L) (Offset L) true (Alloca L) (Duplicate L) (AllocaSize L),
                Op GenType Direct (pointer_size T) FBP (slot_offset (signed 32 Data)) false (Symbol Opn))
      else Fault
  | PseudoInstruction ConstantPool Data GenType =>
      if decide (GenType = Set_)
      then Ret (L, Op GenType Constant (pointer_size T) 0 (Const Opn) true (GetCPISymbol T (wrap32 Data)))
      else Fault
  | RegInstruction Load (PhysReg R) Off =>
      Ret (L, Op Load Direct 8 (getDwarfRegNum T R) Off false (Symbol Opn))
  | RegInstruction t (PhysReg R) _ =>
      Ret (L, Op t Register (pointer_size T) (getDwarfRegNum T R) 0 false (Symbol Opn))
  | RegInstruction _ (VirtReg _) _ => Fault
  | ImmInstruction t ImmSize Imm =>
      if decide (t = Load \/ t = ConstantPool) then Fault else Ret (L, Op t Constant ImmSize 0 Imm false (Symbol Opn))
  | PseudoInstruction _ _ _ => Fault
  end.

Fixpoint genArchValsFromInsts (IL : ValueGenInstList) (L : Location) (Opn : Operation) (AV : list ArchValue) :
    outcome (list ArchValue) :=
  match IL with
  | [] => Ret AV
  | Inst :: IL => '(L, Opn) ← gen_arch_val Inst L Opn; genArchValsFromInsts IL L Opn (AV ++ [(L, Opn)])
  end.

Definition arch_location (MLL : MachineLiveLoc) : outcome Location :=
  match MLL with
  | MachineLiveReg (PhysReg R) =>
      Ret (Loc Register (regClassSize T R) (getDwarfRegNum T R) (subRegOffset T R) false false false 0)
  | MachineLiveReg (VirtReg _) => Fault
  | MachineLiveStackSlot SS => Ret (Loc Indirect (wrap32 (getObjectSize T SS)) FBP (slot_offset SS) false false false 0)
  end.

Definition add_arch_val (Val : MachineLiveLoc * MachineLiveVal) (AV : list ArchValue) : outcome (list ArchValue) :=
  L ← arch_location Val.1;
  match Val.2 with
  | MachineImmediate ImmSize Value =>
      Ret (AV ++ [(L, Op Set_ Constant ImmSize 0 (signed 64 Value) false EmptyString)])
  | MachineReference Sym =>
      Ret (AV ++ [(Loc (Type_ L) (Size L) (Reg L) (Offset L) true (Alloca L) (Duplicate L) (AllocaSize L),
                   Op Set_ Constant (pointer_size T) 0 0 true Sym)])
  | MachineGeneratedVal VG => genArchValsFromInsts VG L newOperation AV
  end.

Fixpoint add_arch_vals (Vals : list (MachineLiveLoc * MachineLiveVal)) (AV : list ArchValue) : outcome (list ArchValue) :=
  match Vals with
  | [] => Ret AV
  | Val :: Vals => AV ← add_arch_val Val AV; add_arch_vals Vals AV
  end.

Definition addArchLiveVals (MF : sm_locations) (SM : value) (AV : list ArchValue) : outcome (list ArchValue) :=
  if hasSMArchSpecificLocations MF SM
  then Vals ← getSMArchSpecificLocations MF SM; add_arch_vals Vals AV
  else Ret AV.

(** The locations and the target's values of a call site; constants that do not
    fit 32 bits are then moved to a pool, by code that the patch does not show. *)
Definition recordStackMapOpers (MF : sm_locations) (SM : instr) (MO : list moperand) :
    outcome (list Location * list ArchValue) :=
  Locations ← parse_operands MF (i_val SM) (length MO) MO (i_operands SM) [];
  Constants ← addArchLiveVals MF (i_val SM) [];
  Ret (Locations, Constants).

(** *** Bytes *)

Definition flag (b : bool) : Z := if b then 1 else 0.

Definition TYPE_AND_FLAGS (t : LocationType) (ptr alloca dup : bool) : Z :=
  Z.lor (Z.lor (Z.lor (Z.shiftl (wrap8 (type_code T t)) 4) (Z.shiftl (flag ptr) 2)) (Z.shiftl (flag alloca) 1)) (flag dup).

Definition ARCH_TYPE_AND_FLAGS (t : LocationType) (ptr : bool) : Z :=
  Z.lor (Z.shiftl (wrap8 (type_code T t)) 4) (flag ptr).

Definition ARCH_OP_TYPE (inst : inst_type) (op : LocationType) : Z :=
  Z.lor (Z.shiftl (wrap8 (inst_code inst)) 4) (wrap8 (type_code T op)).

Definition emit_location (L : Location) : list Z :=
  EmitIntValue T (wrap8 (TYPE_AND_FLAGS (Type_ L) (Ptr L) (Alloca L) (Duplicate L))) 1 ++
  EmitIntValue T (Size L) 1 ++ EmitIntValue T (Reg L) 2 ++ EmitIntValue T (Offset L) 4 ++
  EmitIntValue T (AllocaSize L) 4.

(** No pseudo-instruction must be left. *)
Definition emit_arch_value (C : ArchValue) : outcome (list Z) :=
  let '(L, Opn) := C in
  if decide (InstType Opn = StackSlot \/ InstType Opn = ConstantPool) then Fault
  else Ret (
    EmitIntValue T (wrap8 (ARCH_TYPE_AND_FLAGS (Type_ L) (Ptr L))) 1 ++
    EmitIntValue T (Size L) 1 ++ EmitIntValue T (Reg L) 2 ++ EmitIntValue T (Offset L) 4 ++
    EmitIntValue T (wrap8 (ARCH_OP_TYPE (InstType Opn) (OperandType Opn))) 1 ++
    EmitIntValue T (Op_Size Opn) 1 ++ EmitIntValue T (DwarfReg Opn) 2 ++
    (if isSymbol Opn then EmitSymbolValue T (Symbol Opn) 8 else EmitIntValue T (Const Opn) 8)).

Fixpoint emit_arch_values (Values : list ArchValue) : outcome (list Z) :=
  match Values with
  | [] => Ret []
  | C :: Values => b ← emit_arch_value C; bs ← emit_arch_values Values; Ret (b ++ bs)
  end.

Definition emit_locations (Locs : list Location) : list Z := Locs ≫= emit_location.

(** The function's record: its address, frame size, and unwinding entries. *)
Definition emit_function_record (FR : string * Z) (UI : option (Z * Z)) : list Z :=
  EmitSymbolValue T FR.1 8 ++ EmitIntValue T FR.2 8 ++
  match UI with
  | Some (NumUnwindRecord, SecOffset) => EmitIntValue T NumUnwindRecord 4 ++ EmitIntValue T SecOffset 4
  | None => EmitIntValue T 0 8
  end.

End Emit.
