(* ===== verification/ArchValues.v ===== *)
(** * Values of the target, from the compiler to the runtime

    An instruction whose result is live across a call is turned into operations
    ([TargetValues]), emitted with the stack map ([EmitMaps]), read as records
    ([CallSite]) and repeated when a thread arrives at the binary
    ([Data.put_val_arch]).  Here: what comes out is what the instruction
    computes, and the cases in which it is not. *)

From Stdlib Require Import String.
From S2P Require Import Prelude Machine IR MachineIR StackTransform CallSite Context Unwind Data FramePlan TargetValues EmitMaps.

#[local] Open Scope Z_scope.

(** ** Definitions *)

(** *** What LLVM's streamer and enumerations do *)

(** An integer is stored in little-endian order when it fits; a symbol is the
    address that the linker gives it. *)
Class EmitLaws (E : llvm_emit) (address : string -> Z) : Prop := {
  el_int n v : - 2 ^ (8 * Z.of_nat n - 1) <= v < 2 ^ (8 * Z.of_nat n) -> EmitIntValue E v n = le_bytes n v;
  el_symbol s : EmitSymbolValue E s 8 = le_bytes 8 (address s);
  el_address s : uint 64 (address s);
  el_register : type_code E Register = SM_REGISTER;
  el_direct : type_code E Direct = SM_DIRECT;
  el_indirect : type_code E Indirect = SM_INDIRECT;
  el_constant : type_code E Constant = SM_CONSTANT;
  el_constant_index : type_code E ConstantIndex = SM_CONST_IDX;
  el_unprocessed : type_code E Unprocessed = 0
}.

(** The fields fit into a record. *)
Record location_fits (L : Location) : Prop := {
  lf_size : uint 8 (Size L);
  lf_reg : uint 16 (Reg L);
  lf_offset : sint 32 (Offset L);
  lf_alloca : uint 32 (AllocaSize L)
}.

Record operation_fits (Opn : Operation) : Prop := {
  of_size : uint 8 (Op_Size Opn);
  of_reg : uint 16 (DwarfReg Opn);
  of_const : sint 64 (Const Opn);
  of_direct : OperandType Opn = Direct -> sint 32 (Const Opn)
}.

(** The records that the runtime reads. *)
Definition location_record (E : llvm_emit) (L : Location) : live_value :=
  LiveValue (Duplicate L) (Alloca L) (Ptr L) false (type_code E (Type_ L)) (Size L) (Reg L) (Offset L) (AllocaSize L).

Definition arch_record (E : llvm_emit) (address : string -> Z) (C : ArchValue) : arch_live_value :=
  ArchLiveValue (Ptr C.1) 0 (type_code E (Type_ C.1)) (Size C.1) (Reg C.1) (wrap32 (Offset C.1))
    (type_code E (OperandType C.2)) (inst_code (InstType C.2)) (Op_Size C.2) (DwarfReg C.2)
    (if isSymbol C.2 then signed 64 (address (Symbol C.2)) else Const C.2).

(** *** What the runtime does with them *)

(** The records of one value, in order. *)
Fixpoint put_vals_arch (ctx : rewrite_context) (rs : list arch_live_value) : M unit :=
  match rs with
  | [] => mret tt
  | r :: rs => put_val_arch ctx r;; put_vals_arch ctx rs
  end.

(** The operand of a record, from the registers' contents by DWARF number. *)
Definition operand_value (regs : Z -> Z) (r : arch_live_value) : Z :=
  if al_operand_type r =? SM_CONSTANT then al_operand_offset_or_constant r
  else if al_operand_type r =? SM_REGISTER then signed 64 (regs (al_operand_regnum r))
  else signed 64 (wrap64 (regs (al_operand_regnum r) + signed 32 (al_operand_offset_or_constant r))).

(** The location of the value, and the one of the callee-saved register. *)
Definition stored (d c : Z) (x : Z) : Prop := span d 8 x \/ (c <> NULL /\ span c 8 x).

(** The destination: where the value is stored, and that its operands are found
    and not overwritten by it. *)
Record destination (ctx : rewrite_context) (m : memory) (d c : Z) (regs : Z -> Z) (rs : list arch_live_value) : Prop := {
  ds_valid : valid m d 8 = true;
  ds_callee : c <> NULL -> valid m c 8 = true /\ apart c 8 d 8;
  ds_loc : Forall (fun r => known (stored d c) m
    (get_val_loc ctx (al_type r) (al_regnum r) (signed 32 (al_offset r)) (rc_act ctx)) d) rs;
  ds_saved : Forall (fun r => known (stored d c) m (callee_addr ctx (al_type r) (al_regnum r) (rc_act ctx)) c) rs;
  ds_operand : Forall (fun r => known (stored d c) m (get_arch_operand_loc ctx r (rc_act ctx)) (operand_value regs r)) rs
}.

(** *** What the instructions compute *)

(** The bit field [S:R] of a 64-bit word (UBFM). *)
Definition ubfm (x R S : Z) : Z :=
  if R <=? S then Z.shiftr x R mod 2 ^ (S - R + 1) else Z.shiftl (x mod 2 ^ (S + 1)) (64 - R).

Section Computes.
Context (content : register -> Z) (object : Z -> Z) (address : string -> Z) (cpi : Z -> string).

(** The symbol of an operand. *)
Definition operand_symbol (MO : moperand) : option string :=
  match MO with
  | MO_GlobalAddress s | MO_ExternalSymbol s | MO_MCSymbol s => Some s
  | MO_ConstantPoolIndex i => Some (cpi i)
  | _ => None
  end.

Inductive aarch64_computes (MI : minstr) : Z -> Prop :=
  | computes_address MO s : getOpcode MI = MOVaddr -> mi_ops MI !! 1%nat = Some MO -> operand_symbol MO = Some s ->
      aarch64_computes MI (address s)
  | computes_page MO s : getOpcode MI = ADRP -> mi_ops MI !! 1%nat = Some MO -> operand_symbol MO = Some s ->
      aarch64_computes MI (address s - address s mod 4096)
  | computes_frame D i imm shift : getOpcode MI = ADDXri ->
      mi_ops MI = [D; MO_FrameIndex i; MO_Immediate imm; MO_Immediate shift] -> 0 <= shift ->
      aarch64_computes MI (wrap64 (object i + Z.shiftl imm shift))
  | computes_bitfield D r b R S : getOpcode MI = UBFMXri ->
      mi_ops MI = [D; MO_Register r b; MO_Immediate R; MO_Immediate S] -> 0 <= R < 64 -> 0 <= S < 64 ->
      aarch64_computes MI (ubfm (content r) R S)
  | computes_copy D r b : getOpcode MI = COPY -> mi_ops MI = [D; MO_Register r b] -> aarch64_computes MI (content r).

Section X86.
Context (AddrBaseReg AddrScaleAmt AddrIndexReg AddrDisp : nat).

(** Register 0 is no register. *)
Definition register_or_none (r : register) : Z := if decide (r = PhysReg 0) then 0 else content r.

Definition base_value (MO : moperand) : option Z :=
  match MO with
  | MO_Register r _ => Some (register_or_none r)
  | MO_FrameIndex i => Some (object i)
  | _ => None
  end.

Inductive x86_computes (MI : minstr) : Z -> Prop :=
  | computes_lea base b index b' scale disp : getOpcode MI = LEA64r ->
      mi_ops MI !! (1 + AddrBaseReg)%nat = Some base -> base_value base = Some b ->
      mi_ops MI !! (1 + AddrIndexReg)%nat = Some (MO_Register index b') ->
      mi_ops MI !! (1 + AddrScaleAmt)%nat = Some (MO_Immediate scale) ->
      mi_ops MI !! (1 + AddrDisp)%nat = Some (MO_Immediate disp) ->
      x86_computes MI (wrap64 (b + register_or_none index * scale + disp)).

End X86.
End Computes.

(** *** The two targets *)

Inductive target := TargetAArch64 (LR FP : nat) | TargetX86 (AddrBaseReg AddrScaleAmt AddrIndexReg AddrDisp : nat).

Definition target_value (t : target) (MI : minstr) : outcome (option MachineLiveVal) :=
  match t with
  | TargetAArch64 LR FP => AArch64.getMachineValue LR FP MI
  | TargetX86 b s i d => X86.getMachineValue b s i d MI
  end.

Definition computes (t : target) (content : register -> Z) (object : Z -> Z) (address : string -> Z) (cpi : Z -> string)
    (MI : minstr) (v : Z) : Prop :=
  match t with
  | TargetAArch64 _ _ => aarch64_computes content object address cpi MI v
  | TargetX86 b s i d => x86_computes content object b s i d MI v
  end.

(** The instructions whose operations compute the value: on AArch64 all but
    pages and copies of the link register; on x86-64 addresses with a base and an
    index, and without a displacement from a stack object. *)
Definition no_register (MI : minstr) (k : nat) : Prop :=
  exists def, mi_ops MI !! k = Some (MO_Register (PhysReg 0) def).

Definition faithful (t : target) (MI : minstr) : Prop :=
  match t with
  | TargetAArch64 _ _ => getOpcode MI <> ADRP /\ getOpcode MI <> COPY
  | TargetX86 b s i d =>
      ~ no_register MI (1 + i) /\ ~ no_register MI (1 + b) /\
      (forall k, mi_ops MI !! (1 + b)%nat = Some (MO_FrameIndex k) -> mi_ops MI !! (1 + d)%nat = Some (MO_Immediate 0))
  end.

(** Indices are integers of the machine. *)
Definition operand_typed (MO : moperand) : Prop :=
  match MO with
  | MO_FrameIndex i => sint 32 i
  | MO_ConstantPoolIndex i => uint 32 i
  | _ => True
  end.

(** The registers of the destination, by their DWARF numbers, hold what the stack
    transformation has put there: the contents of the registers that the stack
    map has, and the frame's address. *)
Record machine_state (T : llvm) (E : llvm_emit) (regs : Z -> Z) (content : register -> Z) (object : Z -> Z) : Prop := {
  ms_word r : uint 64 (content r);
  ms_phys p : content (PhysReg p) = regs (getDwarfRegNum E p);
  ms_virt v p : getPhys T v = Some p -> content (VirtReg v) = content (PhysReg p);
  ms_object i : object i =
    wrap64 (regs (getDwarfRegNum E (frameRegister E)) + (getObjectOffset E i + getFBPOffset E))
}.

(** ** Lemmas *)

Lemma le_bytes_wrap n v : le_bytes n (wrap (8 * Z.of_nat n) v) = le_bytes n v.
Proof.
  rewrite <- le_value_le_bytes. rewrite <- (le_bytes_length n v) at 1. apply le_bytes_le_value, le_bytes_range.
Qed.

Lemma signed_bits w v : 0 < w -> v mod 2 ^ w = signed w v mod 2 ^ w.
Proof.
  intros Hw. unfold signed, wrap. case_match; rewrite ?Zmod_mod; [done|].
  replace (v mod 2 ^ w - 2 ^ w) with (v mod 2 ^ w + (-1) * 2 ^ w) by lia. by rewrite Z.mod_add, Zmod_mod by lia.
Qed.

Lemma le_bytes_signed n v : (0 < n)%nat -> le_bytes n (signed (8 * Z.of_nat n) v) = le_bytes n v.
Proof.
  intros Hn. rewrite <- (le_bytes_wrap n (signed _ v)), <- (le_bytes_wrap n v). unfold wrap at 1 2.
  by rewrite <- signed_bits by lia.
Qed.

Lemma put_fields_cons n v fs : put_fields ((n, v) :: fs) = le_bytes n v ++ put_fields fs.
Proof. done. Qed.

Lemma put_fields_nil : put_fields [] = [].
Proof. done. Qed.

(** *** Bytes *)

Section Bytes.
Context (E : llvm_emit) (address : string -> Z) `{HE : !EmitLaws E address}.

Lemma type_code_range t : 0 <= type_code E t < 16.
Proof using HE.
  destruct t; rewrite ?el_unprocessed, ?el_register, ?el_direct, ?el_indirect, ?el_constant, ?el_constant_index;
    unfold SM_REGISTER, SM_DIRECT, SM_INDIRECT, SM_CONSTANT, SM_CONST_IDX; lia.
Qed.

Lemma inst_code_range t : 0 <= inst_code t < 12.
Proof. destruct t; cbn; lia. Qed.

Lemma inst_code_spec t : znth inst_types (inst_code t) = Some t.
Proof. by destruct t. Qed.

Lemma location_flags t ptr alloca dup :
  wrap8 (TYPE_AND_FLAGS E t ptr alloca dup) =
  bit dup + 2 * bit alloca + 4 * bit ptr + 8 * bit false + 16 * type_code E t.
Proof using HE.
  unfold TYPE_AND_FLAGS. pose proof (type_code_range t) as Hr. rewrite (wrap_small 8 (type_code E t)) by lia.
  assert (Hc : type_code E t ∈ seqZ 0 16) by (apply elem_of_seqZ; lia). revert Hc. generalize (type_code E t) as k. clear.
  assert (Hall : Forall (fun k => forall ptr alloca dup, wrap8 (Z.lor (Z.lor (Z.lor (Z.shiftl k 4) (Z.shiftl (flag ptr) 2))
      (Z.shiftl (flag alloca) 1)) (flag dup)) = bit dup + 2 * bit alloca + 4 * bit ptr + 8 * bit false + 16 * k) (seqZ 0 16)).
  { cbn. repeat constructor; by intros [] [] []. }
  rewrite Forall_forall in Hall. intros k Hk. by apply Hall.
Qed.

Lemma arch_flags t ptr : wrap8 (ARCH_TYPE_AND_FLAGS E t ptr) = bit ptr + 2 * 0 + 16 * type_code E t.
Proof using HE.
  pose proof (location_flags t false false ptr) as H. unfold TYPE_AND_FLAGS in H. unfold ARCH_TYPE_AND_FLAGS.
  cbn [flag bit] in H. rewrite !Z.shiftl_0_l, !Z.lor_0_r in H. rewrite H. lia.
Qed.

Lemma op_flags i t : wrap8 (ARCH_OP_TYPE E i t) = type_code E t + 16 * inst_code i.
Proof using HE.
  unfold ARCH_OP_TYPE. pose proof (type_code_range t) as Hr. rewrite (wrap_small 8 (type_code E t)) by lia.
  assert (Hc : type_code E t ∈ seqZ 0 16) by (apply elem_of_seqZ; lia). revert Hc. generalize (type_code E t) as k. clear.
  assert (Hall : Forall (fun k => forall i, wrap8 (Z.lor (Z.shiftl (wrap8 (inst_code i)) 4) k) = k + 16 * inst_code i) (seqZ 0 16)).
  { cbn. repeat constructor; by intros []. }
  rewrite Forall_forall in Hall. intros k Hk. by apply Hall.
Qed.

Lemma emit_wrapped n v w : w = 8 * Z.of_nat n -> EmitIntValue E (wrap w v) n = le_bytes n (wrap w v).
Proof using HE.
  intros ->. apply el_int. destruct (wrap_range (8 * Z.of_nat n) v) as [H1 H2]; [lia|].
  assert (0 <= 2 ^ (8 * Z.of_nat n - 1)) by (apply Z.pow_nonneg; lia). lia.
Qed.

Lemma emit_uint n v w : w = 8 * Z.of_nat n -> uint w v -> EmitIntValue E v n = le_bytes n v.
Proof using HE. intros Ew [H1 H2]. rewrite <- (wrap_small w v) by done. by apply emit_wrapped. Qed.

Lemma emit_sint n v w : w = 8 * Z.of_nat n -> 0 < w -> sint w v -> EmitIntValue E v n = le_bytes n v.
Proof using HE.
  intros -> Hw [H1 H2]. apply el_int. split; [done|]. assert (2 ^ (8 * Z.of_nat n - 1) <= 2 ^ (8 * Z.of_nat n)); [|lia].
  apply Z.pow_le_mono_r; lia.
Qed.

Lemma emit_location_spec L : location_fits L -> emit_location E L = encode_live_value (location_record E L).
Proof using HE.
  intros [Hs Hr Ho Ha]. unfold emit_location, encode_live_value, put_fields, location_record, lv_flags. cbn.
  rewrite <- location_flags. rewrite emit_wrapped by done.
  rewrite (emit_uint 1 _ 8), (emit_uint 2 _ 16), (emit_uint 4 (AllocaSize L) 32), (emit_sint 4 _ 32) by done.
  done.
Qed.

Lemma location_record_typed L : location_fits L -> live_value_typed (location_record E L).
Proof using HE.
  intros [Hs Hr Ho Ha]. split; [|done]. cbn. pose proof (type_code_range (Type_ L)). unfold uint. lia.
Qed.

Lemma emit_arch_value_spec C : location_fits C.1 -> operation_fits C.2 ->
  InstType C.2 <> StackSlot -> InstType C.2 <> ConstantPool ->
  emit_arch_value E C = Ret (encode_arch_live (arch_record E address C)).
Proof using HE.
  destruct C as [L Opn]. intros [Hs Hr Ho Ha] [Hos Hor Hoc _] Hn1 Hn2. cbn [fst snd] in *. unfold emit_arch_value.
  rewrite decide_False by tauto. unfold encode_arch_live, arch_record, arch_live_widths. cbn [zip zip_with
    al_is_ptr al_bit_pad al_type al_size al_regnum al_offset al_operand_type al_inst_type
    al_operand_size al_operand_regnum al_operand_offset_or_constant fst snd].
  rewrite !put_fields_cons, put_fields_nil, app_nil_r, <- arch_flags, <- op_flags, !emit_wrapped by done.
  rewrite !(emit_uint 1 _ 8), !(emit_uint 2 _ 16), (emit_sint 4 _ 32) by done.
  rewrite (le_bytes_wrap 4 (Offset L) : le_bytes 4 (wrap32 (Offset L)) = _).
  destruct (isSymbol Opn).
  - by rewrite el_symbol, (le_bytes_signed 8 (address (Symbol Opn)) ltac:(lia) : le_bytes 8 (signed 64 _) = _).
  - by rewrite (emit_sint 8 _ 64).
Qed.

Lemma arch_record_typed C : location_fits C.1 -> operation_fits C.2 -> arch_live_typed (arch_record E address C).
Proof using HE.
  destruct C as [L Opn]. intros [Hs Hr Ho Ha] [Hos Hor Hoc _]. cbn in *. unfold arch_live_typed. cbn.
  pose proof (type_code_range (Type_ L)). pose proof (type_code_range (OperandType Opn)). pose proof (inst_code_range (InstType Opn)).
  repeat split; try done; try (unfold uint; lia); try (by destruct Hs); try (by destruct Hr); try (by destruct Hos); try (by destruct Hor).
  - by apply wrap_range.
  - by apply wrap_range.
  - destruct (isSymbol Opn); [|by destruct Hoc]. by apply signed_range.
  - destruct (isSymbol Opn); [|by destruct Hoc]. by apply signed_range.
Qed.

(** What is emitted is read. *)
Lemma emit_arch_values_spec AV : Forall (fun C => location_fits C.1 /\ operation_fits C.2 /\
    InstType C.2 <> StackSlot /\ InstType C.2 <> ConstantPool) AV ->
  exists bs, emit_arch_values E AV = Ret bs /\
    decode_section decode_arch_live (length AV) bs = Some (arch_record E address <$> AV).
Proof using HE.
  intros HAV. exists (encode_section encode_arch_live (arch_record E address <$> AV)). split.
  - induction HAV as [|C AV (H1 & H2 & H3 & H4) _ IH]; [done|]. cbn [emit_arch_values].
    rewrite emit_arch_value_spec by done. cbn [mbind outcome_bind]. by rewrite IH.
  - rewrite <- (length_fmap (arch_record E address)). eapply section_roundtrip with (typed := arch_live_typed).
    + intros. by apply arch_live_roundtrip.
    + intros. apply put_fields_nonempty.
    + apply Forall_fmap. eapply Forall_impl; [exact HAV|]. intros C (? & ? & _). by apply arch_record_typed.
Qed.

End Bytes.

(** *** The runtime's operations *)

(** What the records make of a word. *)
Fixpoint rebuild (regs : Z -> Z) (rs : list arch_live_value) (v : Z) : outcome Z :=
  match rs with
  | [] => Ret v
  | r :: rs =>
      x ← arch_result (znth inst_types (al_inst_type r)) v (signed 64 (wrap64 (operand_value regs r)));
      rebuild regs rs (wrap64 x)
  end.

Section Put.
Context (ctx : rewrite_context) (regs : Z -> Z) (d c : Z).

Lemma known_later {A} (p : M A) a m m' : known (stored d c) m p a -> only_writes (stored d c) m m' ->
  known (stored d c) m' p a.
Proof. intros Hk Hw m2 Hw2. apply Hk. by transitivity m'. Qed.

Lemma destination_later m m' r rs : destination ctx m d c regs (r :: rs) -> only_writes (stored d c) m m' ->
  destination ctx m' d c regs rs.
Proof.
  intros [Hv Hc Hl Hs Ho] Hw. apply Forall_cons in Hl as [_ Hl], Hs as [_ Hs], Ho as [_ Ho]. constructor.
  - by rewrite (only_writes_valid _ _ _ _ _ Hw).
  - intros Hn. rewrite (only_writes_valid _ _ _ _ _ Hw). by apply Hc.
  - eapply Forall_impl; [exact Hl|]. intros r' H. by apply (known_later _ _ m).
  - eapply Forall_impl; [exact Hs|]. intros r' H. by apply (known_later _ _ m).
  - eapply Forall_impl; [exact Ho|]. intros r' H. by apply (known_later _ _ m).
Qed.

Lemma put_val_arch_step r rs m : destination ctx m d c regs (r :: rs) ->
  put_val_arch ctx r m = apply_arch_operation d c (signed 64 (wrap64 (operand_value regs r))) (al_inst_type r) m.
Proof.
  intros [_ _ Hl Hs Ho]. apply Forall_cons in Hl as [Hl _], Hs as [Hs _], Ho as [Ho _]. unfold put_val_arch.
  assert (Hw : only_writes (stored d c) m m) by reflexivity.
  by rewrite (M_bind_step _ _ _ _ _ (Hl m Hw)), (M_bind_step _ _ _ _ _ (Hs m Hw)), (M_bind_step _ _ _ _ _ (Ho m Hw)).
Qed.

Lemma put_vals_arch_run rs : forall m v, destination ctx m d c regs rs -> rebuild regs rs (word_at 8 m d) = Ret v ->
  exists m', put_vals_arch ctx rs m = Ret (tt, m') /\ word_at 8 m' d = v /\
    (rs <> [] -> c <> NULL -> word_at 8 m' c = v) /\ only_writes (stored d c) m m'.
Proof.
  induction rs as [|r rs IH]; intros m v Hd; cbn [rebuild put_vals_arch].
  { intros [= <-]. exists m. by split. }
  intros (x & Ex & Er)%outcome_bind_Ret. pose proof Hd as [Hv Hc _ _ _].
  destruct (apply_arch_operation_run m d c _ _ x Hv Hc Ex) as (m1 & E1 & Hd1 & Hc1 & Hw1).
  destruct (IH m1 v) as (m2 & E2 & Hd2 & Hc2 & Hw2); [by eapply destination_later|by rewrite Hd1|].
  exists m2. rewrite (M_bind_step _ _ _ tt m1) by (by rewrite (put_val_arch_step r rs m)).
  split; [done|]. split; [done|]. split; [|by transitivity m1]. intros _ Hn. destruct rs as [|r' rs].
  - cbn in E2. injection E2 as <-. cbn in Er. injection Er as <-. by apply Hc1.
  - by apply Hc2.
Qed.

End Put.

(** *** Operations *)

Lemma wrap_signed x : wrap64 (signed 64 x) = wrap64 x.
Proof. unfold wrap at 1 2. symmetry. by apply (signed_bits 64). Qed.

Lemma signed_small_wrap x : signed 64 (wrap64 x) = signed 64 x.
Proof. unfold signed. by rewrite wrap_wrap. Qed.

(** The ring operations, modulo 2^64. *)
Lemma rebuild_set k v : arch_result (Some Set_) v (signed 64 k) = Ret (signed 64 k).
Proof. done. Qed.

Lemma wrap_add_signed v k : wrap64 (v + signed 64 k) = wrap64 (v + k).
Proof. unfold wrap. by rewrite <- Z.add_mod_idemp_r, <- (signed_bits 64), Z.add_mod_idemp_r by done. Qed.

Lemma wrap_mul v k : wrap64 (v * wrap64 k) = wrap64 (v * k).
Proof. unfold wrap. by rewrite Z.mul_mod_idemp_r. Qed.

Lemma wrap_add_wrap v k : wrap64 (v + wrap64 k) = wrap64 (v + k).
Proof. unfold wrap. by rewrite Z.add_mod_idemp_r. Qed.

Lemma wrap_wrap_add v k : wrap64 (wrap64 v + k) = wrap64 (v + k).
Proof. unfold wrap. by rewrite Z.add_mod_idemp_l. Qed.

Lemma wrap_wrap_mul v k : wrap64 (wrap64 v * k) = wrap64 (v * k).
Proof. unfold wrap. by rewrite Z.mul_mod_idemp_l. Qed.

Lemma low_mask_spec k m : 0 <= k -> low_mask k = Ret m -> k < 64 /\ wrap64 m = Z.ones k.
Proof.
  intros Hk. unfold low_mask, shift_left64. destruct (_ && _) eqn:Eb; [|done].
  apply andb_prop in Eb as [_ Hlt%Z.ltb_lt]. cbn [mbind outcome_bind]. intros [= <-]. split; [done|].
  rewrite wrap_signed. rewrite Z.shiftl_mul_pow2 by done.
  assert (H2 : 0 < 2 ^ k) by (apply Z.pow_pos_nonneg; lia).
  assert (H3 : 2 ^ k < 2 ^ 64) by (apply Z.pow_lt_mono_r; lia).
  replace (wrap64 (u64_max * 2 ^ k)) with (2 ^ 64 - 2 ^ k).
  - rewrite Z.ones_equiv, wrap_small by lia. lia.
  - unfold wrap. replace (u64_max * 2 ^ k) with (2 ^ 64 - 2 ^ k + (2 ^ k - 1) * 2 ^ 64) by lia.
    rewrite Z.mod_add by lia. rewrite Z.mod_small; lia.
Qed.

Lemma ubfm_range x R S : 0 <= R < 64 -> 0 <= S < 64 -> uint 64 x -> uint 64 (ubfm x R S).
Proof.
  intros HR HS [Hx1 Hx2]. unfold ubfm, uint. destruct (R <=? S) eqn:El.
  - apply Z.leb_le in El. destruct (Z.mod_pos_bound (Z.shiftr x R) (2 ^ (S - R + 1))); [apply Z.pow_pos_nonneg; lia|].
    assert (2 ^ (S - R + 1) <= 2 ^ 64) by (apply Z.pow_le_mono_r; lia). lia.
  - apply Z.leb_gt in El. destruct (Z.mod_pos_bound x (2 ^ (S + 1))); [apply Z.pow_pos_nonneg; lia|].
    rewrite Z.shiftl_mul_pow2 by lia. assert (0 < 2 ^ (64 - R)) by (apply Z.pow_pos_nonneg; lia).
    assert (2 ^ (S + 1) * 2 ^ (64 - R) <= 2 ^ 64); [|nia].
    rewrite <- Z.pow_add_r by lia. apply Z.pow_le_mono_r; lia.
Qed.

Section Targets.
Context (T : llvm) (E : llvm_emit) (address : string -> Z) `{HE : !EmitLaws E address}.
Context (regs : Z -> Z) (content : register -> Z) (object : Z -> Z) (HS : machine_state T E regs content object).
Context (vregs : RegValsMap).

(** The value an operation gets. *)
Definition op_value (Opn : Operation) : Z :=
  if isSymbol Opn then address (Symbol Opn)
  else match OperandType Opn with
       | Register => regs (DwarfReg Opn)
       | Direct => regs (DwarfReg Opn) + Const Opn
       | _ => Const Opn
       end.

Definition lowered (C : ArchValue) : Prop :=
  location_fits C.1 /\ operation_fits C.2 /\
  match OperandType C.2 with
  | Register | Direct => isSymbol C.2 = false
  | Constant => True
  | _ => False
  end.

Lemma operand_record C : lowered C -> signed 64 (wrap64 (operand_value regs (arch_record E address C))) =
  signed 64 (op_value C.2).
Proof using HE.
  destruct C as [L Opn]. intros (_ & [Hs Hr Hc Hd] & Hop). rewrite signed_small_wrap. unfold operand_value, op_value.
  cbn [snd fst] in *. cbn [arch_record al_operand_type al_operand_regnum al_operand_offset_or_constant fst snd].
  destruct (OperandType Opn); try done; rewrite ?el_register, ?el_direct, ?el_constant; cbn [Z.eqb SM_REGISTER SM_DIRECT SM_CONSTANT
    Pos.eqb Nat.eqb]; try rewrite Hop.
  - rewrite <- signed_small_wrap, wrap_signed. apply signed_small_wrap.
  - rewrite <- signed_small_wrap, wrap_signed, wrap_wrap by lia.
    rewrite (signed_small 32) by (destruct (Hd eq_refl); done). apply signed_small_wrap.
  - destruct (isSymbol Opn); [|done]. by rewrite <- signed_small_wrap, wrap_signed, signed_small_wrap.
Qed.

Lemma rebuild_cons C AV v : lowered C -> rebuild regs (arch_record E address <$> C :: AV) v =
  (x ← arch_result (Some (InstType C.2)) v (signed 64 (op_value C.2));
   rebuild regs (arch_record E address <$> AV) (wrap64 x)).
Proof using HE.
  intros HC. cbn [fmap list_fmap rebuild]. rewrite operand_record by done.
  replace (znth inst_types (al_inst_type (arch_record E address C))) with (Some (InstType C.2)); [done|].
  symmetry. apply inst_code_spec.
Qed.

Lemma sanitize_reg t r off VG VG' : sanitize_insts T vregs (RegInstruction t r off :: VG) = Ret (Some VG') ->
  exists p VG'', content r = content (PhysReg p) /\ VG' = RegInstruction t (PhysReg p) off :: VG'' /\
    sanitize_insts T vregs VG = Ret (Some VG'').
Proof using HS.
  cbn [sanitize_insts]. destruct r as [p|v].
  - cbn [mbind outcome_bind]. case_decide; [|done]. intros (x & Ex & E1)%outcome_bind_Ret.
    destruct x as [VG''|]; [|done]. injection E1 as <-. by exists p, VG''.
  - destruct (vregs !! v); [|done]. destruct (getPhys T v) as [p|] eqn:Ep; [|done].
    cbn [get mbind outcome_bind]. intros (x & Ex & E1)%outcome_bind_Ret. destruct x as [VG''|]; [|done]. injection E1 as <-.
    exists p, VG''. split; [|done]. by apply (ms_virt _ _ _ _ _ HS).
Qed.

Lemma sanitize_other Inst VG VG' : opType Inst <> OpRegister -> sanitize_insts T vregs (Inst :: VG) = Ret (Some VG') ->
  exists VG'', VG' = Inst :: VG'' /\ sanitize_insts T vregs VG = Ret (Some VG'').
Proof.
  intros Hn. cbn [sanitize_insts]. destruct Inst; [done| |]; cbn [mbind outcome_bind]; intros (x & Ex & E1)%outcome_bind_Ret;
    (destruct x as [VG''|]; [|done]); injection E1 as <-; by exists VG''.
Qed.

Lemma sanitize_nil VG' : sanitize_insts T vregs [] = Ret (Some VG') -> VG' = [].
Proof. by intros [= <-]. Qed.

Lemma sanitize_generated IL LV : sanitizeVregs T (Some (MachineGeneratedVal IL)) vregs = Ret (Some LV) ->
  exists VG, LV = MachineGeneratedVal VG /\ sanitize_insts T vregs IL = Ret (Some VG).
Proof.
  cbn. intros (x & Ex & E1)%outcome_bind_Ret. destruct x as [VG|]; [|done]. injection E1 as <-. by exists VG.
Qed.

Definition fits (C : ArchValue) : Prop := location_fits C.1 /\ operation_fits C.2.

(** What the emitted records make of any word. *)
Definition rebuilt (AV : list ArchValue) (f : Z -> outcome Z) : Prop :=
  Forall (fun C => fits C /\ InstType C.2 <> StackSlot /\ InstType C.2 <> ConstantPool) AV /\
  forall v, rebuild regs (arch_record E address <$> AV) v = f v.

Lemma rebuilt_nil : rebuilt [] Ret.
Proof. split; [by constructor|done]. Qed.

Lemma rebuilt_cons C AV f : fits C -> InstType C.2 <> StackSlot -> InstType C.2 <> ConstantPool ->
  match OperandType C.2 with
  | Register | Direct => isSymbol C.2 = false
  | Constant => True
  | _ => False
  end -> rebuilt AV f ->
  rebuilt (C :: AV) (fun v => x ← arch_result (Some (InstType C.2)) v (signed 64 (op_value C.2)); f (wrap64 x)).
Proof using HE.
  intros [H1 H2] Hn1 Hn2 Ht [HF Hr]. split; [by constructor|]. intros v. rewrite rebuild_cons by done.
  by destruct (arch_result _ _ _); cbn [mbind outcome_bind].
Qed.

Lemma rebuilt_ext AV f g : rebuilt AV f -> (forall v, f v = g v) -> rebuilt AV g.
Proof. intros [HF Hr] Hfg. split; [done|]. intros v. by rewrite Hr. Qed.

(** A generated value, instruction by instruction. *)
Lemma gen_step Inst IL L Opn AV0 AV : genArchValsFromInsts E (Inst :: IL) L Opn AV0 = Ret AV ->
  exists L' Opn', gen_arch_val E Inst L Opn = Ret (L', Opn') /\ genArchValsFromInsts E IL L' Opn' (AV0 ++ [(L', Opn')]) = Ret AV.
Proof. cbn [genArchValsFromInsts]. intros ([L' Opn'] & E1 & E2)%outcome_bind_Ret. by exists L', Opn'. Qed.

Lemma gen_prefix IL L Opn AV0 AV : genArchValsFromInsts E IL L Opn AV0 = Ret AV -> exists AV', AV = AV0 ++ AV' /\
  forall AV1, genArchValsFromInsts E IL L Opn AV1 = Ret (AV1 ++ AV').
Proof.
  revert L Opn AV0. induction IL as [|Inst IL IH]; intros L Opn AV0; cbn [genArchValsFromInsts].
  { intros [= <-]. exists []. rewrite app_nil_r. split; [done|]. intros AV1. by rewrite app_nil_r. }
  intros ([L' Opn'] & E1 & E2)%outcome_bind_Ret. rewrite E1. destruct (IH _ _ _ E2) as (AV' & -> & Hall).
  exists ((L', Opn') :: AV'). split; [by rewrite <- app_assoc|]. intros AV1. cbn [mbind outcome_bind]. by rewrite Hall, <- app_assoc.
Qed.

(** The operand of an instruction, and what it does. *)
Definition gen_operand (Inst : ValueGenInst) : Z :=
  match Inst with
  | RegInstruction _ r _ => content r
  | ImmInstruction _ _ Imm => Imm
  | PseudoInstruction StackSlot Data _ => object (signed 32 Data)
  | PseudoInstruction _ Data _ => address (GetCPISymbol E (wrap32 Data))
  end.

Definition gen_type (Inst : ValueGenInst) : inst_type :=
  match Inst with PseudoInstruction _ _ t => t | _ => vg_type Inst end.

(** The function of a word that a generated value is. *)
Fixpoint meaning (VG : ValueGenInstList) (v : Z) : outcome Z :=
  match VG with
  | [] => Ret v
  | Inst :: VG => x ← arch_result (Some (gen_type Inst)) v (signed 64 (gen_operand Inst)); meaning VG (wrap64 x)
  end.

(** Loads end the runtime; the others have an operation of their own. *)
Definition plain (Inst : ValueGenInst) : Prop :=
  gen_type Inst <> Load /\ gen_type Inst <> StackSlot /\ gen_type Inst <> ConstantPool.

Lemma gen_arch_val_spec Inst L Opn L' Opn' : gen_arch_val E Inst L Opn = Ret (L', Opn') -> plain Inst ->
  InstType Opn' = gen_type Inst /\ signed 64 (op_value Opn') = signed 64 (gen_operand Inst) /\
  match OperandType Opn' with
  | Register | Direct => isSymbol Opn' = false
  | Constant => True
  | _ => False
  end.
Proof using HS.
  intros Eg (H1 & H2 & H3). destruct Inst as [t [R|R] Off|t ImmSize Imm|t Data g]; cbn [gen_arch_val gen_type vg_type] in *.
  - assert (Eg' : (L, Op t Register (pointer_size E) (getDwarfRegNum E R) 0 false (Symbol Opn)) = (L', Opn')).
    { destruct t; try done; by injection Eg as <- <-. }
    injection Eg' as <- <-. split; [done|]. split; [|done]. cbn. by rewrite (ms_phys _ _ _ _ _ HS).
  - by destruct t.
  - case_decide; [done|]. by injection Eg as <- <-.
  - destruct t; try done; case_decide; try done; injection Eg as <- <-; (split; [done|]); (split; [|done]);
    [cbn; by rewrite (ms_object _ _ _ _ _ HS), signed_small_wrap|done].
Qed.

Lemma meaning_emitted VG : forall L Opn AV, genArchValsFromInsts E VG L Opn [] = Ret AV ->
  Forall plain VG -> Forall fits AV -> rebuilt AV (meaning VG).
Proof using HE HS.
  induction VG as [|Inst VG IH]; intros L Opn AV.
  { intros [= <-] _ _. apply rebuilt_nil. }
  intros (L' & Opn' & E1 & E2)%gen_step [Hl Hls]%Forall_cons. cbn [app] in E2.
  destruct (gen_prefix _ _ _ _ _ E2) as (AV' & -> & Hall). intros [Hf Hfs]%Forall_cons.
  destruct (gen_arch_val_spec _ _ _ _ _ E1 Hl) as (Et & Ev & Hop). destruct Hl as (H1 & H2 & H3).
  eapply rebuilt_ext; [apply (rebuilt_cons (L', Opn')); [exact Hf|cbn; by rewrite Et|cbn; by rewrite Et|exact Hop|]|].
  - eapply IH; [apply (Hall [])|exact Hls|exact Hfs].
  - intros v. cbn [meaning snd]. by rewrite Et, Ev.
Qed.

(** *** The instructions' values *)

Lemma set_first r off VG v : meaning (RegInstruction Set_ r off :: VG) v = meaning VG (content r).
Proof using HS.
  cbn [meaning gen_type gen_operand vg_type arch_result mbind outcome_bind]. f_equal. rewrite wrap_signed.
  apply wrap_small, (ms_word _ _ _ _ _ HS).
Qed.

Lemma ubfm_extract x R S m : 0 <= R <= S -> S < 64 -> uint 64 x -> low_mask (S - R + 1) = Ret m ->
  meaning [ImmInstruction RightShiftLog 8 R; ImmInstruction Mask 8 m] x = Ret (ubfm x R S).
Proof.
  intros HR HSb Hx [Hk Em]%low_mask_spec; [|lia]. assert (HRs : sint 64 R) by (unfold sint; lia).
  assert (Hsh : uint 64 (Z.shiftr x R)).
  { rewrite Z.shiftr_div_pow2 by lia. destruct Hx as [Hx1 Hx2]. split; [apply Z.div_pos; [done|apply Z.pow_pos_nonneg; lia]|].
    apply Z.div_lt_upper_bound; [apply Z.pow_pos_nonneg; lia|]. assert (0 < 2 ^ R) by (apply Z.pow_pos_nonneg; lia). nia. }
  cbn [meaning gen_type vg_type gen_operand arch_result]. rewrite (signed_small 64 R) by done.
  unfold shift_count. rewrite (wrap_small 64 R) by lia.
  rewrite (proj2 (Z.leb_le _ _)), (proj2 (Z.ltb_lt _ _)) by lia. cbn [andb mbind outcome_bind].
  rewrite (wrap_small 64 (Z.shiftr x R)), wrap_signed, Em by done. f_equal.
  rewrite Z.land_ones by lia. unfold ubfm. rewrite (proj2 (Z.leb_le R S)) by lia. apply wrap_small.
  destruct (Z.mod_pos_bound (Z.shiftr x R) (2 ^ (S - R + 1))); [apply Z.pow_pos_nonneg; lia|].
  assert (2 ^ (S - R + 1) <= 2 ^ 64) by (apply Z.pow_le_mono_r; lia). lia.
Qed.

Lemma ubfm_insert x R S m : 0 <= S < R -> R < 64 -> uint 64 x -> low_mask (S + 1) = Ret m ->
  meaning [ImmInstruction Mask 8 m; ImmInstruction LeftShift 8 (64 - R)] x = Ret (ubfm x R S).
Proof.
  intros HSb HR Hx [Hk Em]%low_mask_spec; [|lia].
  pose proof (ubfm_range x R S ltac:(lia) ltac:(lia) Hx) as Hu. unfold ubfm in *.
  rewrite (proj2 (Z.leb_gt R S)) in * by lia.
  cbn [meaning gen_type vg_type gen_operand arch_result]. rewrite wrap_signed, Em. cbn [mbind outcome_bind].
  rewrite Z.land_ones by lia. destruct (Z.mod_pos_bound x (2 ^ (S + 1))) as [Hm1 Hm2]; [apply Z.pow_pos_nonneg; lia|].
  assert (2 ^ (S + 1) <= 2 ^ 64) by (apply Z.pow_le_mono_r; lia).
  rewrite (wrap_small 64 (x mod _)) by lia. rewrite (signed_small 64 (64 - R)) by lia. unfold shift_count.
  rewrite (proj2 (Z.leb_le _ _)), (proj2 (Z.ltb_lt _ _)) by lia. cbn [andb mbind outcome_bind]. f_equal. by apply wrap_small.
Qed.

Lemma sanitize_plain VG : forall VG', sanitize_insts T vregs VG = Ret (Some VG') -> Forall plain VG ->
  Forall plain VG' /\ forall w, meaning VG' w = meaning VG w.
Proof using HS.
  induction VG as [|Inst VG IH]; intros VG' Es Hp.
  { apply sanitize_nil in Es as ->. by split. }
  apply Forall_cons in Hp as [H1 Hp]. destruct Inst as [t r off|t z Imm|t Data g].
  { apply sanitize_reg in Es as (p & VG'' & Ec & -> & Es). destruct (IH _ Es Hp) as [Hp' Hm]. split; [by constructor|].
    intros w. cbn [meaning gen_type vg_type gen_operand]. rewrite Ec. by destruct (arch_result _ _ _); cbn [mbind outcome_bind]. }
  all: apply sanitize_other in Es as (VG'' & -> & Es); [|done]; destruct (IH _ Es Hp) as [Hp' Hm]; split; [by constructor|];
    intros w; cbn [meaning]; by destruct (arch_result _ _ _); cbn [mbind outcome_bind].
Qed.

(** The function of a word that a live value is. *)
Definition value_meaning (LV : MachineLiveVal) (w : Z) : outcome Z :=
  match LV with
  | MachineReference s => Ret (address s)
  | MachineImmediate _ z => Ret (wrap64 z)
  | MachineGeneratedVal VG => meaning VG w
  end.

Definition value_plain (LV : MachineLiveVal) : Prop :=
  match LV with MachineGeneratedVal VG => Forall plain VG /\ VG <> [] | _ => True end.

(** From the pass to the records that the runtime reads. *)
Definition compiled (LV0 : MachineLiveVal) (MLL : MachineLiveLoc) (AV : list ArchValue) : Prop :=
  exists LV, sanitizeVregs T (Some LV0) vregs = Ret (Some LV) /\ add_arch_val E (MLL, LV) [] = Ret AV /\ Forall fits AV.

Lemma arch_location_type MLL L : arch_location E MLL = Ret L -> Ptr L = false.
Proof. destruct MLL as [[R|R]|SS]; by intros [= <-]. Qed.

Lemma compiled_rebuilt LV0 MLL AV : compiled LV0 MLL AV -> value_plain LV0 -> rebuilt AV (value_meaning LV0) /\ AV <> [].
Proof using HE HS.
  intros (LV & Es & Ea & Hf) Hp. unfold add_arch_val in Ea. cbn [fst snd] in Ea. apply outcome_bind_Ret in Ea as (L & EL & Ea).
  destruct LV0 as [s|size z|VG0]; [injection Es as <-| injection Es as <-|].
  - cbn [app] in Ea. injection Ea as <-. split; [|done]. apply Forall_cons in Hf as [Hf _].
    eapply rebuilt_ext; [by apply rebuilt_cons; [exact Hf|..|apply rebuilt_nil]|]. intros v. cbn. f_equal.
    rewrite wrap_signed. apply wrap_small, el_address.
  - cbn [app] in Ea. injection Ea as <-. split; [|done]. apply Forall_cons in Hf as [Hf _].
    eapply rebuilt_ext; [by apply rebuilt_cons; [exact Hf|..|apply rebuilt_nil]|]. intros v. cbn. f_equal.
    by rewrite wrap_signed, wrap_signed.
  - apply sanitize_generated in Es as (VG & -> & Es). destruct Hp as [Hp Hn].
    destruct (sanitize_plain _ _ Es Hp) as [Hp' Hm]. split.
    + eapply rebuilt_ext; [by eapply meaning_emitted|]. done.
    + destruct VG as [|Inst VG].
      * destruct VG0 as [|[t r off| |] VG0]; [done|..];
          [apply sanitize_reg in Es as (? & ? & _ & ? & _)|apply sanitize_other in Es as (? & ? & _)|apply sanitize_other in Es as (? & ? & _)]; done.
      * apply gen_step in Ea as (L' & Opn' & _ & Ea). destruct (gen_prefix _ _ _ _ _ Ea) as (AV' & -> & _). done.
Qed.

(** The runtime on the records of a value. *)
Definition runs_to (rs : list arch_live_value) (f : Z -> outcome Z) : Prop :=
  forall ctx m d c v, destination ctx m d c regs rs -> f (word_at 8 m d) = Ret v ->
    exists m', put_vals_arch ctx rs m = Ret (tt, m') /\ word_at 8 m' d = v /\
      (c <> NULL -> word_at 8 m' c = v) /\ only_writes (stored d c) m m'.

Lemma compiled_runs LV0 MLL AV : compiled LV0 MLL AV -> value_plain LV0 ->
  exists bs rs, emit_arch_values E AV = Ret bs /\ decode_section decode_arch_live (length AV) bs = Some rs /\
    runs_to rs (value_meaning LV0).
Proof using HE HS.
  intros Hc Hp. destruct (compiled_rebuilt _ _ _ Hc Hp) as [[HF Hr] Hn].
  destruct (emit_arch_values_spec E address AV) as (bs & Eb & Ed).
  { eapply Forall_impl; [exact HF|]. intros C ([? ?] & ? & ?). done. }
  exists bs, (arch_record E address <$> AV). split; [done|]. split; [done|].
  intros ctx m d c v Hd Ev. rewrite <- Hr in Ev.
  destruct (put_vals_arch_run ctx regs d c _ m v Hd Ev) as (m' & E1 & E2 & E3 & E4).
  exists m'. split; [done|]. split; [done|]. split; [|done]. apply E3. intros Hnil. by apply fmap_nil_inv in Hnil.
Qed.

(** *** Each target *)

Lemma frame_index i : sint 32 i -> signed 32 (wrap64 i) = i.
Proof.
  intros Hi. rewrite <- (signed_small 32 i) at 2 by done. unfold signed. replace (wrap32 (wrap64 i)) with (wrap32 i); [done|].
  unfold wrap. by rewrite <- (Znumtheory.Zmod_div_mod (2 ^ 32) (2 ^ 64) i) by (try done; by exists (2 ^ 32)).
Qed.

Lemma pool_index i : uint 32 i -> wrap32 (wrap64 i) = i.
Proof. intros [H1 H2]. rewrite (wrap_small 64) by lia. by apply wrap_small. Qed.

Lemma aarch64_value LR FP MI LV v : AArch64.getMachineValue LR FP MI = Ret (Some LV) ->
  aarch64_computes content object address (GetCPISymbol E) MI v -> getOpcode MI <> ADRP -> getOpcode MI <> COPY ->
  Forall operand_typed (mi_ops MI) -> value_plain LV /\ forall w, value_meaning LV w = Ret v.
Proof using HE HS.
  intros EV Hc Ha Hcp Ht. unfold AArch64.getMachineValue in EV.
  destruct Hc as [MO s Eo E1 Es|MO s Eo E1 Es|D i imm shift Eo Eops Hsh|D r b R S Eo Eops HR HSb|D r b Eo Eops]; try done;
    rewrite Eo in EV.
  - unfold getOperand in EV. rewrite E1 in EV. cbn [get mbind outcome_bind] in EV. destruct MO; try done; cbn in Es; injection Es as <-;
      injection EV as <-; try done.
    rewrite Forall_forall in Ht. pose proof (Ht _ (list_elem_of_lookup_2 _ _ _ E1)) as Hi.
    split; [split; [by repeat constructor|done]|]. intros w. cbn. rewrite wrap_signed, pool_index by done. f_equal. apply wrap_small, el_address.
  - unfold AArch64.genADDInstructions, getOperand in EV. rewrite Eo, Eops in EV. cbn [lookup list_lookup get mbind outcome_bind getImm] in EV.
    destruct (imm =? 0) eqn:Ei; [|done]. apply Z.eqb_eq in Ei as ->. destruct (shift =? 0) eqn:Es; [|done]. cbn in EV. injection EV as <-.
    rewrite Eops in Ht. apply Forall_cons in Ht as [_ [Hi _]%Forall_cons].
    split; [split; [by repeat constructor|done]|]. intros w. cbn. rewrite frame_index, wrap_signed by done.
    by rewrite Z.shiftl_0_l, Z.add_0_r.
  - unfold AArch64.genBitfieldInstructions, getOperand in EV. rewrite Eo, Eops in EV.
    cbn [lookup list_lookup get mbind outcome_bind getImm getReg] in EV. pose proof (ms_word _ _ _ _ _ HS r) as Hw.
    destruct (R <=? S) eqn:El; apply outcome_bind_Ret in EV as (IL & EI & EV);
      apply outcome_bind_Ret in EI as (m & Em & [= <-]); injection EV as <-.
    + apply Z.leb_le in El. split; [split; [by repeat constructor|done]|]. intros w. unfold generated, value_meaning.
      rewrite set_first. apply ubfm_extract; [lia..|done|done].
    + apply Z.leb_gt in El. split; [split; [by repeat constructor|done]|]. intros w. unfold generated, value_meaning.
      rewrite set_first. apply ubfm_insert; [lia..|done|done].
Qed.

Lemma sum_words x y z : wrap64 (wrap64 (wrap64 x + signed 64 y) + z) = wrap64 (y + x + z).
Proof.
  rewrite wrap_wrap_add. replace (wrap64 x + signed 64 y + z) with (z + wrap64 x + signed 64 y) by lia.
  rewrite wrap_add_signed. replace (z + wrap64 x + y) with (z + y + wrap64 x) by lia. rewrite wrap_add_wrap. f_equal. lia.
Qed.

Lemma x86_value b s i d MI LV v : X86.getMachineValue b s i d MI = Ret (Some LV) ->
  x86_computes content object b s i d MI v -> faithful (TargetX86 b s i d) MI ->
  Forall operand_typed (mi_ops MI) -> value_plain LV /\ forall w, value_meaning LV w = Ret v.
Proof using HE HS.
  intros EV Hc (Hni & Hnb & Hdisp) Ht. destruct Hc as [base bv index b' scale disp Eo Ebase Ebv Ei Es Ed].
  unfold X86.getMachineValue, X86.genLEAInstructions, getOperand in EV. rewrite Eo, Ei, Es, Ebase, Ed in EV.
  cbn [get mbind outcome_bind getReg getImm] in EV.
  rewrite decide_False in EV by (intros ->; apply Hni; by eexists). cbn [mbind outcome_bind] in EV.
  unfold register_or_none at 1. rewrite decide_False by (intros ->; apply Hni; by eexists).
  destruct base as [r b0| | |k| | | | |]; try done; cbn in Ebv; injection Ebv as <-; cbn [getImm mbind outcome_bind app generated] in EV;
    injection EV as <-.
  - split; [split; [by repeat constructor|done]|]. intros w. unfold value_meaning. rewrite set_first.
    unfold register_or_none. rewrite decide_False by (intros ->; apply Hnb; by eexists).
    cbn [meaning gen_type vg_type gen_operand arch_result mbind outcome_bind]. f_equal.
    rewrite wrap_signed, wrap_mul, wrap_add_signed. apply sum_words.
  - rewrite (Hdisp k Ebase) in Ed. injection Ed as <-.
    rewrite Forall_forall in Ht. pose proof (Ht _ (list_elem_of_lookup_2 _ _ _ Ebase)) as Hk.
    split; [split; [by repeat constructor|done]|]. intros w. unfold value_meaning. rewrite set_first.
    cbn [meaning gen_type vg_type gen_operand arch_result mbind outcome_bind]. f_equal.
    rewrite wrap_signed, wrap_mul, frame_index by done. rewrite <- (sum_words _ _ 0), Z.add_0_r. symmetry. by apply wrap_wrap.
Qed.

(** What the faithful instructions become. *)
Lemma target_value_spec t MI LV v : target_value t MI = Ret (Some LV) ->
  computes t content object address (GetCPISymbol E) MI v -> faithful t MI -> Forall operand_typed (mi_ops MI) ->
  value_plain LV /\ forall w, value_meaning LV w = Ret v.
Proof using HE HS.
  destruct t as [LR FP|b s i d]; cbn; [|by apply x86_value]. intros EV Hc [H1 H2]. by apply (aarch64_value LR FP).
Qed.

Lemma page_value LR FP MI MO s LV : getOpcode MI = ADRP -> mi_ops MI !! 1%nat = Some MO ->
  operand_symbol (GetCPISymbol E) MO = Some s -> Forall operand_typed (mi_ops MI) ->
  AArch64.getMachineValue LR FP MI = Ret (Some LV) -> value_plain LV /\ forall w, value_meaning LV w = Ret (address s).
Proof using HE HS.
  intros Eo E1 Es Ht EV. apply (aarch64_value LR FP (MInstr (mi_id MI) MOVaddr (mi_ops MI))); try done.
  - unfold AArch64.getMachineValue in *. rewrite Eo in EV. exact EV.
  - by eapply computes_address.
Qed.

Lemma plain_address_value b s i d MI r def disp LV : getOpcode MI = LEA64r -> no_register MI (1 + i) ->
  mi_ops MI !! (1 + b)%nat = Some (MO_Register r def) -> mi_ops MI !! (1 + d)%nat = Some (MO_Immediate disp) ->
  X86.getMachineValue b s i d MI = Ret (Some LV) ->
  value_plain LV /\ forall w, value_meaning LV w = Ret (wrap64 (w + content r + disp)).
Proof using HS.
  intros Eo [def' Ei] Eb Ed EV. unfold X86.getMachineValue, X86.genLEAInstructions, getOperand in EV. rewrite Eo, Ei, Eb, Ed in EV.
  cbn in EV. injection EV as <-. split; [split; [by repeat constructor|done]|]. intros w.
  cbn [value_meaning meaning gen_type vg_type gen_operand arch_result mbind outcome_bind]. f_equal.
  by rewrite !wrap_add_signed, wrap_wrap_add.
Qed.

(** The link register: its record is a load. *)
Lemma load_record FP MLL AV : compiled (MachineGeneratedVal [RegInstruction Load (PhysReg FP) 8]) MLL AV ->
  exists bs r, emit_arch_values E AV = Ret bs /\ decode_section decode_arch_live (length AV) bs = Some [r] /\
    al_inst_type r = 9 /\ wrap64 (operand_value regs r) = wrap64 (content (PhysReg FP) + 8).
Proof using HE HS.
  intros (LV & Es & Ea & Hf). unfold add_arch_val in Ea. cbn [fst snd] in Ea. apply outcome_bind_Ret in Ea as (L & EL & Ea).
  apply sanitize_generated in Es as (VG & -> & Es). apply sanitize_reg in Es as (p & VG' & Ec & -> & Es).
  apply sanitize_nil in Es as ->. cbn in Ea. injection Ea as <-. apply Forall_cons in Hf as [[Hl Ho] _].
  destruct (emit_arch_values_spec E address [(L, Op Load Direct 8 (getDwarfRegNum E p) 8 false EmptyString)]) as (bs & Eb & Ed).
  { by constructor. }
  eexists bs, _. split; [done|]. split; [exact Ed|]. split; [done|]. rewrite Ec, (ms_phys _ _ _ _ _ HS).
  unfold operand_value. cbn -[wrap signed]. rewrite el_direct. cbn -[wrap signed]. rewrite wrap_signed.
  by rewrite wrap_wrap, (signed_small 32) by done.
Qed.

End Targets.

(** ** Properties *)

(** C21: values that the compiler describes by operations are rebuilt.  For
    AArch64's addresses of symbols and constants by [MOVaddr], addresses of stack
    objects and bit fields, and for x86-64's [LEA64r] with an index register and,
    for its base, a register or a stack object without displacement: the
    operations that the target generates for the instruction, checked against the
    stack map, emitted as bytes whose fields fit and read back as records, make
    the runtime, when it knows the places of the value and of its operands and
    these are apart, store exactly the value that the instruction computes, also
    where the callee-saved register is restored from, and write nothing else.
    Left out are the instructions for which the operations compute something
    else ([target_values_wrong]): [ADRP], copies of the link register, [LEA64r]
    without an index or a base register, and displaced stack objects. *)
Theorem target_values_rebuilt t T E address regs content object vregs MI LV MLL AV v :
  EmitLaws E address -> machine_state T E regs content object ->
  target_value t MI = Ret (Some LV) -> computes t content object address (GetCPISymbol E) MI v ->
  faithful t MI -> Forall operand_typed (mi_ops MI) -> compiled T E vregs LV MLL AV ->
  exists bs rs, emit_arch_values E AV = Ret bs /\ decode_section decode_arch_live (length AV) bs = Some rs /\
    forall ctx m d c, destination ctx m d c regs rs ->
      exists m', put_vals_arch ctx rs m = Ret (tt, m') /\ word_at 8 m' d = v /\
        (c <> NULL -> word_at 8 m' c = v) /\ only_writes (stored d c) m m'.
Proof.
  intros HE HS EV Hc Hf Ht HC.
  destruct (target_value_spec T E address regs content object HS t MI LV v EV Hc Hf Ht) as [Hp Hm].
  destruct (compiled_runs T E address regs content object HS vregs LV MLL AV HC Hp) as (bs & rs & Eb & Ed & Hr).
  exists bs, rs. split; [done|]. split; [done|]. intros ctx m d c Hd. by apply Hr.
Qed.

(** The other values are wrong.  The page of a symbol (ADRP) becomes the
    symbol's address, so the register differs unless the symbol starts a page;
    an x86-64 address without an index is added to what the location held
    before; and the value that stands for a copy of the link register is a load,
    which ends the process. *)
Theorem target_values_wrong T E address regs content object vregs :
  EmitLaws E address -> machine_state T E regs content object ->
  (forall LR FP MI MO s LV MLL AV, getOpcode MI = ADRP -> mi_ops MI !! 1%nat = Some MO ->
     operand_symbol (GetCPISymbol E) MO = Some s -> Forall operand_typed (mi_ops MI) ->
     AArch64.getMachineValue LR FP MI = Ret (Some LV) -> compiled T E vregs LV MLL AV ->
     aarch64_computes content object address (GetCPISymbol E) MI (address s - address s mod 4096) /\
     exists bs rs, emit_arch_values E AV = Ret bs /\ decode_section decode_arch_live (length AV) bs = Some rs /\
       runs_to regs rs (fun _ => Ret (address s))) /\
  (forall b s i d MI r def disp LV MLL AV, getOpcode MI = LEA64r -> no_register MI (1 + i) ->
     mi_ops MI !! (1 + b)%nat = Some (MO_Register r def) -> mi_ops MI !! (1 + d)%nat = Some (MO_Immediate disp) ->
     X86.getMachineValue b s i d MI = Ret (Some LV) -> compiled T E vregs LV MLL AV ->
     exists bs rs, emit_arch_values E AV = Ret bs /\ decode_section decode_arch_live (length AV) bs = Some rs /\
       runs_to regs rs (fun old => Ret (wrap64 (old + content r + disp)))) /\
  (forall LR FP MI D def LV MLL AV, getOpcode MI = COPY -> mi_ops MI = [D; MO_Register (PhysReg LR) def] ->
     AArch64.getMachineValue LR FP MI = Ret (Some LV) -> compiled T E vregs LV MLL AV ->
     exists bs rs, emit_arch_values E AV = Ret bs /\ decode_section decode_arch_live (length AV) bs = Some rs /\
       forall ctx m d c, destination ctx m d c regs rs -> valid m (wrap64 (content (PhysReg FP) + 8)) 8 = true ->
         put_vals_arch ctx rs m = Exit 1).
Proof.
  intros HE HS. split; [|split].
  - intros LR FP MI MO s LV MLL AV Eo E1 Es Ht EV HC. split; [by eapply computes_page|].
    destruct (page_value T E address regs content object HS LR FP MI MO s LV) as [Hp Hm]; try done.
    destruct (compiled_runs T E address regs content object HS vregs LV MLL AV HC Hp) as (bs & rs & Eb & Ed & Hr).
    exists bs, rs. split; [done|]. split; [done|]. intros ctx m d c v Hd. rewrite <- (Hm (word_at 8 m d)). by apply Hr.
  - intros b s i d MI r def disp LV MLL AV Eo Hni E1 Ed1 EV HC.
    destruct (plain_address_value T E address regs content object HS b s i d MI r def disp LV) as [Hp Hm]; try done.
    destruct (compiled_runs T E address regs content object HS vregs LV MLL AV HC Hp) as (bs & rs & Eb & Ed & Hr).
    exists bs, rs. split; [done|]. split; [done|]. intros ctx m d' c v Hd. rewrite <- Hm. by apply Hr.
  - intros LR FP MI D def LV MLL AV Eo Eops EV HC. unfold AArch64.getMachineValue, getOperand in EV. rewrite Eo, Eops in EV.
    cbn in EV. rewrite decide_True in EV by done. injection EV as <-.
    destruct (load_record T E address regs content object HS vregs FP MLL AV HC) as (bs & r & Eb & Ed & Ei & Ev).
    exists bs, [r]. split; [done|]. split; [done|]. intros ctx m d c Hd Hv. cbn [put_vals_arch]. unfold mbind, M_bind.
    rewrite (put_val_arch_step ctx regs d c r [] m Hd), Ei.
    rewrite apply_arch_operation_load; [done|by destruct Hd|by rewrite wrap_signed, wrap_wrap, Ev].
Qed.

(** ** Witnesses *)

(** An address of x86-64, [rbx + 4 * r12 + 16], that is live in [rdi]; virtual
    registers 1 and 2 are [rbx] and [r12]. *)
Definition sample_address : string -> Z := fun _ => 0x601008.

Definition sample_emit : llvm_emit := {|
  isPointerTy _ := false; isSizedElement _ := false; isAllocaInst _ := false; elementAllocSize _ := 0;
  getTypeAllocSize _ := 8; pointer_size := 8; getDwarfRegNum := Z.of_nat; subRegOffset _ := 0; regClassSize _ := 8;
  frameRegister := 6; getObjectOffset i := - 8 * i; getObjectSize _ := 8; isDeadObject _ := false; getFBPOffset := 16;
  GetCPISymbol _ := EmptyString; DirectMemRef := 0; IndirectMemRef := 1; ConstantMem := 2; isImplicit _ := false;
  type_code t := match t with Unprocessed => 0 | Register => 1 | Direct => 2 | Indirect => 3 | Constant => 4 | ConstantIndex => 5 end;
  EmitIntValue v n := le_bytes n v;
  EmitSymbolValue s n := le_bytes n (sample_address s)
|}.

Definition sample_llvm : llvm := {|
  isCopyLike _ := false; isLoadFromStackSlot _ := None; isStoreToStackSlot _ := None; isMoveImmediate _ := false;
  isCall _ := false; def_instrs _ := []; use_instrs _ := []; hasOneDef _ := true;
  getPhys v := if decide (v = 1%nat) then Some 3%nat else if decide (v = 2%nat) then Some 12%nat else None;
  isDeadObjectIndex _ := false; getFrameRegister := PhysReg 6; vreg_find _ _ := None; slot_find _ _ := None;
  seg_contains _ _ := false; getInstructionIndex _ := 0; getInstrDistance _ _ := 0;
  StackTransform.DirectMemRefOp := 0; StackTransform.IndirectMemRefOp := 1; StackTransform.ConstantOp := 2
|}.

Definition sample_registers (n : Z) : Z := if n =? 3 then 0x7040 else if n =? 12 then 3 else if n =? 6 then 0x7060 else 0.

Definition sample_content (r : register) : Z :=
  match r with
  | PhysReg p => sample_registers (Z.of_nat p)
  | VirtReg v => match getPhys sample_llvm v with Some p => sample_registers (Z.of_nat p) | None => 0 end
  end.

Definition sample_objects (i : Z) : Z := wrap64 (sample_registers 6 + (- 8 * i + 16)).

Definition sample_lea : minstr := MInstr 0 LEA64r
  [MO_Register (VirtReg 3) true; MO_Register (VirtReg 1) false; MO_Immediate 4; MO_Register (VirtReg 2) false;
   MO_Immediate 16; MO_Register (PhysReg 0) false].

Definition sample_vregs : RegValsMap := {[1%nat := []; 2%nat := []]}.

Definition register_file : Z := 0x10000 + 640 + 16 + 8.

Definition sample_arch_memory : memory := poked sample_data_memory (register_file + 8 * 12) (le_bytes 8 3).

Lemma sample_emit_laws : EmitLaws sample_emit sample_address.
Proof. by constructor. Qed.

Lemma sample_state : machine_state sample_llvm sample_emit sample_registers sample_content sample_objects.
Proof.
  assert (Hw : forall n, uint 64 (sample_registers n)).
  { intros n. unfold sample_registers, uint. repeat case_match; lia. }
  constructor; try done.
  - intros [p|v]; cbn; [apply Hw|]. repeat case_decide; try apply Hw. unfold uint. lia.
  - intros v p Hp. cbn [sample_content]. by rewrite Hp.
Qed.

Lemma known_register ctx m d c n a : get_val_loc ctx SM_REGISTER n 0 (rc_act ctx) = (fun m => Ret (a, m)) ->
  valid m a 8 = true -> apart a 8 d 8 -> c = NULL ->
  known (stored d c) m (v ← (val_loc ← get_val_loc ctx SM_REGISTER n 0 (rc_act ctx); load64 val_loc); mret (signed 64 v))
    (signed 64 (word_at 8 m a)).
Proof.
  intros E Hv Ha -> m' Hw. assert (Ew : word_at 8 m' a = word_at 8 m a).
  { eapply word_at_frame; [exact Hw|]. intros x Hx [Hd|[Hc _]]; [|done]. unfold span, apart in *. cbn in Hx. lia. }
  rewrite <- (only_writes_valid _ _ _ _ _ Hw) in Hv. rewrite E. unfold mbind, M_bind. rewrite (load_run 8 a m' Hv).
  by rewrite Ew.
Qed.

Definition sample_lea_value : MachineLiveVal :=
  MachineGeneratedVal [RegInstruction Set_ (VirtReg 2) 0; ImmInstruction Multiply 8 4; RegInstruction Add (VirtReg 1) 0;
    ImmInstruction Add 8 16].

Definition sample_arch_values : list ArchValue :=
  let L := Loc Register 8 5 0 false false false 0 in
  [(L, Op Set_ Register 8 12 0 false EmptyString); (L, Op Multiply Constant 8 0 4 false EmptyString);
   (L, Op Add Register 8 3 0 false EmptyString); (L, Op Add Constant 8 0 16 false EmptyString)].

Lemma sample_compiled : compiled sample_llvm sample_emit sample_vregs sample_lea_value (MachineLiveReg (PhysReg 5)) sample_arch_values.
Proof.
  eexists. split; [vm_compute; reflexivity|]. split; [vm_compute; reflexivity|].
  repeat (apply Forall_cons; split; [split; constructor; vm_compute; try (intros H; discriminate H); split; congruence|]). constructor.
Qed.

Lemma sample_destination rs bs : emit_arch_values sample_emit sample_arch_values = Ret bs ->
  decode_section decode_arch_live 4 bs = Some rs ->
  destination sample_data_context sample_arch_memory (register_file + 8 * 5) NULL sample_registers rs.
Proof.
  intros Eb Ed. vm_compute in Eb. injection Eb as <-. vm_compute in Ed. injection Ed as <-.
  assert (Hreg : forall n k, get_val_loc sample_data_context SM_REGISTER n 0 1 = (fun m => Ret (register_file + 8 * k, m)) ->
    valid sample_arch_memory (register_file + 8 * k) 8 = true -> apart (register_file + 8 * k) 8 (register_file + 8 * 5) 8 ->
    signed 64 (word_at 8 sample_arch_memory (register_file + 8 * k)) = signed 64 (sample_registers n) ->
    known (stored (register_file + 8 * 5) NULL) sample_arch_memory
      (v ← (val_loc ← get_val_loc sample_data_context SM_REGISTER n 0 1; load64 val_loc); mret (signed 64 v))
      (signed 64 (sample_registers n))).
  { intros n k E Hv Ha <-. by apply (known_register sample_data_context). }
  constructor; [vm_compute; reflexivity|done|..].
  - repeat (apply Forall_cons; split; [by intros m' _|]). constructor.
  - repeat (apply Forall_cons; split; [by intros m' _|]). constructor.
  - apply Forall_cons; split; [|apply Forall_cons; split; [by intros m' _|]].
    { apply (Hreg 12 12); [reflexivity|vm_compute; reflexivity|right; vm_compute; congruence|vm_compute; reflexivity]. }
    apply Forall_cons; split; [|apply Forall_cons; split; [by intros m' _|constructor]].
    apply (Hreg 3 3); [reflexivity|vm_compute; reflexivity|left; vm_compute; congruence|vm_compute; reflexivity].
Qed.

Lemma target_values_rebuilt_witness :
  exists rs m', put_vals_arch sample_data_context rs sample_arch_memory = Ret (tt, m') /\
    word_at 8 m' (register_file + 8 * 5) = 0x7040 + 4 * 3 + 16.
Proof.
  destruct (target_values_rebuilt (TargetX86 0 1 2 3) sample_llvm sample_emit sample_address sample_registers sample_content
    sample_objects sample_vregs sample_lea sample_lea_value (MachineLiveReg (PhysReg 5)) sample_arch_values (0x7040 + 4 * 3 + 16)
    sample_emit_laws sample_state)
    as (bs & rs & Eb & Ed & Hrun).
  - vm_compute. reflexivity.
  - refine (computes_lea _ _ 0 1 2 3 sample_lea (MO_Register (VirtReg 1) false) 0x7040 (VirtReg 2) false 4 16 _ _ _ _ _ _); reflexivity.
  - split; [|split]; [intros [b H]; discriminate H..|intros k H; discriminate H].
  - repeat constructor.
  - exact sample_compiled.
  - exists rs. destruct (Hrun sample_data_context sample_arch_memory (register_file + 8 * 5) NULL) as (m' & E & Hw & _);
      [by apply (sample_destination rs bs)|]. exists m'. split; [exact E|exact Hw].
Defined.

(** A page, which is recorded as the symbol's address. *)
Definition sample_page : minstr := MInstr 0 ADRP [MO_Register (VirtReg 3) true; MO_GlobalAddress "counter"].

Definition sample_page_values : list ArchValue :=
  [(Loc Register 8 5 0 true false false 0, Op Set_ Constant 8 0 0 true "counter")].

Lemma target_values_wrong_witness :
  aarch64_computes sample_content sample_objects sample_address (GetCPISymbol sample_emit) sample_page 0x601000 /\
  exists rs m', put_vals_arch sample_data_context rs sample_arch_memory = Ret (tt, m') /\
    word_at 8 m' (register_file + 8 * 5) = 0x601008.
Proof.
  destruct (target_values_wrong sample_llvm sample_emit sample_address sample_registers sample_content sample_objects
    sample_vregs sample_emit_laws sample_state) as (Hpage & _).
  destruct (Hpage 30%nat 29%nat sample_page (MO_GlobalAddress "counter") "counter"%string (MachineReference "counter")
    (MachineLiveReg (PhysReg 5)) sample_page_values) as (Hc & bs & rs & Eb & Ed & Hrun); try reflexivity.
  - repeat constructor.
  - eexists. split; [reflexivity|]. split; [vm_compute; reflexivity|].
    apply Forall_cons; split; [split; constructor; vm_compute; try (intros H; discriminate H); split; congruence|constructor].
  - split; [exact Hc|]. exists rs.
    destruct (Hrun sample_data_context sample_arch_memory (register_file + 8 * 5) NULL 0x601008) as (m' & E & Hw & _);
      [|reflexivity|by exists m'].
    vm_compute in Eb. injection Eb as <-. vm_compute in Ed. injection Ed as <-.
    constructor; [vm_compute; reflexivity|done|..]; (apply Forall_cons; split; [by intros m' _|constructor]).
Defined.
