(* ===== verification/OperandMaps.v ===== *)
(** * Operands of stack maps, from the compiler to the tool and the runtime

    The records that [EmitMaps] emits for the operands of a stack map are the
    groups that the runtime's frame rewriting works on ([FramePlan]): a value's
    first record and its duplicates, these at the alternate locations that the
    passes recorded.  Two binaries compiled from the same code have matching
    records, as the metadata tool checks ([CheckMaps]). *)

From Stdlib Require Import String.
From S2P Require Import Prelude Machine IR MachineIR CallSite CheckMaps FramePlan TargetValues EmitMaps ArchValues.

#[local] Open Scope Z_scope.

(** ** Definitions *)

(** The size recorded for a value, by the type of its location. *)
Definition operand_size (E : llvm_emit) (V : value) (type : Z) : Z :=
  if type =? SM_CONSTANT then 8 else if type =? SM_DIRECT then pointer_size E else wrap32 (getTypeAllocSize E V).

(** A record at an alternate location. *)
Definition at_place (E : llvm_emit) (LL : MachineLiveLoc) (v : live_value) : Prop :=
  match LL with
  | MachineLiveReg (PhysReg R) =>
      lv_type v = SM_REGISTER /\ lv_regnum v = getDwarfRegNum E R /\ lv_offset_or_constant v = subRegOffset E R
  | MachineLiveReg (VirtReg _) => False
  | MachineLiveStackSlot SS =>
      lv_type v = SM_INDIRECT /\ lv_regnum v = getDwarfRegNum E (frameRegister E) /\
      lv_offset_or_constant v = getObjectOffset E SS + getFBPOffset E
  end.

(** The value is the address of an object on the stack. *)
Definition is_object (E : llvm_emit) (V : value) : bool := isPointerTy E V && isSizedElement E V && isAllocaInst E V.

(** What a record says of the value, wherever it is. *)
Definition value_info (v : live_value) : Z * bool * bool * Z := (lv_size v, is_ptr v, is_alloca v, lv_alloca_size v).

(** The records of a value: what it is, and where else. *)
Record describes (E : llvm_emit) (MF : sm_locations) (SM V : value) (g : live_value * list live_value) : Prop := {
  ds_first : is_duplicate g.1 = false /\ Forall (fun v => is_duplicate v = true) g.2;
  ds_ptr : is_ptr g.1 = isPointerTy E V;
  ds_alloca : is_alloca g.1 = is_object E V;
  ds_object : lv_alloca_size g.1 = if is_object E V then elementAllocSize E V else 0;
  ds_size : lv_size g.1 = operand_size E V (lv_type g.1);
  ds_same : Forall (fun v => value_info v = value_info g.1) g.2;
  ds_places : Forall2 (at_place E) (duplicates MF SM V) g.2
}.

(** Two targets agree on the types of the program's values, and their pointers
    have 8 bytes. *)
Record same_types (E E' : llvm_emit) : Prop := {
  st_pointer V : isPointerTy E V = isPointerTy E' V;
  st_sized V : isSizedElement E V = isSizedElement E' V;
  st_alloca V : isAllocaInst E V = isAllocaInst E' V;
  st_alloca_size V : elementAllocSize E V = elementAllocSize E' V;
  st_size V : getTypeAllocSize E V = getTypeAllocSize E' V;
  st_pointers : pointer_size E = 8 /\ pointer_size E' = 8
}.

(** ** Lemmas *)

Lemma no_op_locations MF SM V : hasSMOpLocations MF SM V = false -> duplicates MF SM V = [].
Proof.
  unfold hasSMOpLocations, duplicates. destruct (SMDuplicateLocs MF !! SM) as [m|]; [|done]. cbn.
  rewrite bool_decide_eq_false. destruct (m !! V) eqn:E; [|done]. intros H. by destruct H.
Qed.

Lemma op_locations MF SM V Dups : getSMOpLocations MF SM V = Ret Dups -> duplicates MF SM V = Dups.
Proof.
  unfold getSMOpLocations, duplicates. destruct (SMDuplicateLocs MF !! SM) as [m|]; [|done]. cbn.
  destruct (m !! V); [|done]. by intros [= ->].
Qed.

Lemma getPointerInfo_spec E V : getPointerInfo E V =
  (isPointerTy E V, is_object E V, if is_object E V then elementAllocSize E V else 0).
Proof.
  unfold getPointerInfo, is_object. by destruct (isPointerTy E V), (isSizedElement E V), (isAllocaInst E V).
Qed.

Section Groups.
Context (E : llvm_emit) (address : string -> Z) `{HE : !EmitLaws E address}.
Context (MF : sm_locations) (SM : value).

Definition location_group (g : Location * list Location) : live_value * list live_value :=
  (location_record E g.1, location_record E <$> g.2).

Lemma duplicate_locs_spec Size Ptr Alloca AllocaSize Dups Ls :
  duplicate_locs E Size Ptr Alloca AllocaSize Dups = Ret Ls ->
  Forall2 (fun LL L => at_place E LL (location_record E L)) Dups Ls /\
  Forall (fun L => Duplicate L = true /\ EmitMaps.Size L = Size /\ EmitMaps.Ptr L = Ptr /\ EmitMaps.Alloca L = Alloca /\
    EmitMaps.AllocaSize L = AllocaSize) Ls.
Proof using HE.
  revert Ls. induction Dups as [|LL Dups IH]; intros Ls; cbn [duplicate_locs].
  { intros [= <-]. split; constructor. }
  intros (L & EL & E2)%outcome_bind_Ret. apply outcome_bind_Ret in E2 as (Ls' & E2 & [= <-]).
  destruct (IH _ E2) as [H1 H2]. destruct LL as [[R|R]|SS]; cbn in EL; try done.
  - injection EL as <-. split; [constructor; [|done]|by constructor]. cbn. by rewrite el_register.
  - destruct (isDeadObject E SS); [done|]. injection EL as <-. split; [constructor; [|done]|by constructor]. cbn.
    by rewrite el_indirect.
Qed.

Lemma parse_immediate_spec Imm MO V L MO' : parse_immediate E Imm MO V = Ret (L, MO') ->
  hasSMOpLocations MF SM V = false ->
  describes E MF SM V (location_group (L, [])) /\ (length MO' <= length MO)%nat.
Proof using HE.
  intros Ep Hn. unfold parse_immediate in Ep. rewrite getPointerInfo_spec in Ep.
  assert (Hd : forall t Sz Rg Off, Sz = operand_size E V (type_code E t) ->
    describes E MF SM V (location_group (Loc t Sz Rg Off (isPointerTy E V) (is_object E V) false
      (if is_object E V then elementAllocSize E V else 0), []))).
  { intros t Sz Rg Off ->. constructor; cbn; try done. by rewrite no_op_locations. }
  destruct (_ =? _).
  { destruct MO as [|[[R|] b| | | | | | | |] [|[|Off| | | | | | |] MO]]; try done. injection Ep as <- <-.
    split; [apply Hd; by rewrite el_direct|cbn; lia]. }
  destruct (_ =? _).
  { destruct MO as [|[|Sz| | | | | | |] [|[[R|] b| | | | | | | |] [|[|Off| | | | | | |] MO]]]; try done.
    destruct (0 <? Sz); [|done]. injection Ep as <- <-. split; [apply Hd; by rewrite el_indirect|cbn; lia]. }
  destruct (_ =? _); [|done]. destruct MO as [|[|Off| | | | | | |] MO]; try done. injection Ep as <- <-.
  split; [apply Hd; by rewrite el_constant|cbn; lia].
Qed.

Lemma parse_operands_spec fuel MO vals Locs Locs' : parse_operands E MF SM fuel MO vals Locs = Ret Locs' ->
  exists gs, Locs' = Locs ++ (gs ≫= fun g => g.1 :: g.2) /\
    Forall2 (fun V g => describes E MF SM V (location_group g)) vals gs.
Proof using HE.
  revert MO vals Locs. induction fuel as [|fuel IH]; intros MO vals Locs.
  { destruct MO; [|by cbn; destruct m]. destruct vals; [|done]. intros [= <-]. exists []. by rewrite app_nil_r. }
  destruct MO as [|op MO]; [destruct vals; [|done]; intros [= <-]; exists []; by rewrite app_nil_r|].
  cbn [parse_operands]. destruct op as [R def|Imm| | | | | | |]; try apply IH.
  - destruct (isImplicit E (MO_Register R def)); [apply IH|]. destruct vals as [|V vals]; [done|].
    rewrite getPointerInfo_spec. set (isPtr := isPointerTy E V). set (isAlloca := is_object E V).
    set (AllocaSize := if isAlloca then elementAllocSize E V else 0).
    intros ([Dw Off] & Er & E2)%outcome_bind_Ret. apply outcome_bind_Ret in E2 as (Locs1 & E1 & E2).
    set (Sz := wrap32 (getTypeAllocSize E V)) in *. set (L := Loc Register Sz Dw Off isPtr isAlloca false AllocaSize) in *.
    assert (Hd : exists Ls, Locs1 = Locs ++ L :: Ls /\ describes E MF SM V (location_group (L, Ls))).
    { unfold addDuplicateLocs in E1. destruct (hasSMOpLocations MF SM V) eqn:Eh.
      - apply outcome_bind_Ret in E1 as (Dups & Ed & E1). apply outcome_bind_Ret in E1 as (Ls & El & [= <-]).
        exists Ls. split; [by rewrite <- app_assoc|]. destruct (duplicate_locs_spec _ _ _ _ _ _ El) as [H1 H2].
        constructor; cbn.
        + split; [done|]. apply Forall_fmap. eapply Forall_impl; [exact H2|]. intros L' H. apply H.
        + done.
        + done.
        + done.
        + by rewrite el_register.
        + apply Forall_fmap. eapply Forall_impl; [exact H2|]. intros L' (_ & Hs & Hp & Ha & Has). unfold value_info. cbn.
          by rewrite Hs, Hp, Ha, Has.
        + rewrite (op_locations _ _ _ _ Ed). by apply Forall2_fmap_r.
      - injection E1 as <-. exists []. split; [done|]. constructor; cbn; try done; [by rewrite el_register|by rewrite no_op_locations]. }
    destruct Hd as (Ls & -> & Hd). destruct (IH _ _ _ E2) as (gs & -> & Hgs). exists ((L, Ls) :: gs). split.
    + rewrite bind_cons. cbn [fst snd app]. by rewrite <- app_assoc.
    + by constructor.
  - destruct vals as [|V vals]; [done|]. intros ([L MO'] & Ep & E2)%outcome_bind_Ret.
    destruct (hasSMOpLocations MF SM V) eqn:Eh; [done|]. destruct (parse_immediate_spec _ _ _ _ _ Ep Eh) as [Hd _].
    destruct (IH _ _ _ E2) as (gs & -> & Hgs). exists ((L, []) :: gs). split.
    + rewrite bind_cons. cbn [fst snd app]. by rewrite <- app_assoc.
    + by constructor.
Qed.

Lemma emit_locations_spec Locs : Forall location_fits Locs ->
  decode_section decode_live_value (length Locs) (emit_locations E Locs) = Some (location_record E <$> Locs).
Proof using HE.
  intros HL. assert (Ee : emit_locations E Locs = encode_section encode_live_value (location_record E <$> Locs)).
  { unfold emit_locations, encode_section. induction HL as [|L Locs HL1 _ IH]; [done|].
    rewrite bind_cons, IH. cbn. by rewrite (emit_location_spec E address). }
  rewrite Ee, <- (length_fmap (location_record E)). eapply section_roundtrip with (typed := live_value_typed).
  - intros. by apply live_value_roundtrip.
  - intros. apply put_fields_nonempty.
  - apply Forall_fmap. eapply Forall_impl; [exact HL|]. intros L ?. by apply (location_record_typed E address).
Qed.

Lemma flatten_groups gs : location_record E <$> (gs ≫= fun g => g.1 :: g.2) = flatten (location_group <$> gs).
Proof. induction gs as [|g gs IH]; [done|]. rewrite bind_cons, fmap_app, IH. done. Qed.

Lemma operand_groups fuel MO vals Locs : parse_operands E MF SM fuel MO vals [] = Ret Locs -> Forall location_fits Locs ->
  exists gs, decode_section decode_live_value (length Locs) (emit_locations E Locs) = Some (flatten gs) /\
    Forall2 (describes E MF SM) vals gs.
Proof using HE.
  intros Ep HL. destruct (parse_operands_spec _ _ _ _ _ Ep) as (gs & -> & Hgs). exists (location_group <$> gs).
  rewrite emit_locations_spec by done. cbn [app]. rewrite flatten_groups. split; [done|]. by apply Forall2_fmap_r.
Qed.

End Groups.

(** *** The loops end *)

Lemma bind_halts {A B} (o : outcome A) (f : A -> outcome B) : o <> Spin -> (forall a, o = Ret a -> f a <> Spin) ->
  (o ≫= f) <> Spin.
Proof. destruct o as [a| | |]; cbn; auto. Qed.

Lemma duplicate_locs_halts E Size Ptr Alloca AllocaSize Dups : duplicate_locs E Size Ptr Alloca AllocaSize Dups <> Spin.
Proof.
  induction Dups as [|LL Dups IH]; [done|]. cbn [duplicate_locs]. apply bind_halts.
  - destruct LL as [[R|R]|SS]; cbn; [done..|]. by destruct (isDeadObject E SS).
  - intros L _. by apply bind_halts.
Qed.

Lemma parse_immediate_halts E Imm MO V : parse_immediate E Imm MO V <> Spin.
Proof.
  unfold parse_immediate. destruct (getPointerInfo E V) as [[? ?] ?]. repeat case_match; done.
Qed.

Lemma parse_immediate_shorter E Imm MO V L MO' : parse_immediate E Imm MO V = Ret (L, MO') -> (length MO' <= length MO)%nat.
Proof.
  unfold parse_immediate. destruct (getPointerInfo E V) as [[? ?] ?]. repeat case_match; try done; intros [= _ <-]; cbn; lia.
Qed.

Lemma parse_operands_halts E MF SM fuel MO vals Locs : (length MO <= fuel)%nat -> parse_operands E MF SM fuel MO vals Locs <> Spin.
Proof.
  revert MO vals Locs. induction fuel as [|fuel IH]; intros MO vals Locs Hf.
  { destruct MO; [|cbn in Hf; lia]. by destruct vals. }
  destruct MO as [|op MO]; [by destruct vals|]. cbn in Hf.
  cbn [parse_operands]. destruct op as [R def|Imm| | | | | | |]; try (apply IH; lia).
  - destruct (isImplicit E _); [apply IH; lia|]. destruct vals as [|V vals]; [done|].
    destruct (getPointerInfo E V) as [[isPtr isAlloca] AllocaSize]. apply bind_halts; [by destruct R|]. intros [Dw Off] _.
    apply bind_halts; [|intros Ls _; apply IH; lia]. unfold addDuplicateLocs. destruct (hasSMOpLocations MF SM V); [|done].
    apply bind_halts; [|intros Dups _; apply bind_halts; [apply duplicate_locs_halts|done]].
    unfold getSMOpLocations. destruct (SMDuplicateLocs MF !! SM) as [m|]; [|done]. cbn. by destruct (m !! V).
  - destruct vals as [|V vals]; [done|]. apply bind_halts; [apply parse_immediate_halts|]. intros [L MO'] Ep.
    apply parse_immediate_shorter in Ep. destruct (hasSMOpLocations MF SM V); [done|]. apply IH. lia.
Qed.

Lemma genArchVals_halts E IL L Opn AV : genArchValsFromInsts E IL L Opn AV <> Spin.
Proof.
  revert L Opn AV. induction IL as [|Inst IL IH]; intros L Opn AV; [done|]. cbn [genArchValsFromInsts]. apply bind_halts.
  - destruct Inst as [t [R|R] Off|t z Imm|t Data g]; cbn; repeat (case_match || case_decide); done.
  - intros [L' Opn'] _. apply IH.
Qed.

Lemma addArchLiveVals_halts E MF SM AV : addArchLiveVals E MF SM AV <> Spin.
Proof.
  unfold addArchLiveVals. destruct (hasSMArchSpecificLocations MF SM); [|done]. apply bind_halts.
  { unfold getSMArchSpecificLocations. by destruct (SMArchSpecificLocs MF !! SM). }
  intros Vals _. revert AV. induction Vals as [|[MLL LV] Vals IH]; intros AV; [done|]. cbn [add_arch_vals]. apply bind_halts; [|done].
  unfold add_arch_val. cbn [fst snd]. apply bind_halts; [by destruct MLL as [[|]|]|].
  intros L _. destruct LV; [done..|]. apply genArchVals_halts.
Qed.

(** *** Two targets *)

Lemma same_object E E' V : same_types E E' -> is_object E V = is_object E' V.
Proof. intros [H1 H2 H3 _ _ _]. unfold is_object. by rewrite H1, H2, H3. Qed.

Lemma same_size E E' V t : same_types E E' -> operand_size E V t = operand_size E' V t.
Proof. intros [_ _ _ _ Hs [Hp Hp']]. unfold operand_size. by rewrite Hs, Hp, Hp'. Qed.

Lemma described_match E E' MF MF' SM V g g' : same_types E E' -> describes E MF SM V g -> describes E' MF' SM V g' ->
  location_matches g.1 g'.1 = (operand_size E V (lv_type g.1) =? operand_size E V (lv_type g'.1)).
Proof.
  intros HT [_ Hp Ha Ho Hs _ _] [_ Hp' Ha' Ho' Hs' _ _]. unfold location_matches.
  rewrite Hs, Hs', <- (same_size _ _ _ _ HT), Hp, Hp', Ha, Ha', Ho, Ho', <- (same_object _ _ _ HT), (st_pointer _ _ HT).
  rewrite (st_alloca_size _ _ HT), !eqb_reflx, Z.eqb_refl. by rewrite orb_true_r, !andb_true_r.
Qed.

(** ** Properties *)

(** C22: the records of a stack map's operands are the groups the runtime works
    on.  Reading the operands ends; when it succeeds and the fields fit into the
    records, the records that are read
    back from the emitted bytes are, for each value of the IR's stack map in
    order, one record that is no duplicate, with the value's pointer and
    allocation flags and its size, followed by duplicates with the same flags and
    size, exactly one for each alternate location recorded for the value, at its
    place. *)
Theorem operands_emitted E address MF SM MO :
  EmitLaws E address ->
  recordStackMapOpers E MF SM MO <> Spin /\
  forall Locations Constants, recordStackMapOpers E MF SM MO = Ret (Locations, Constants) ->
    Forall location_fits Locations ->
    exists gs, decode_section decode_live_value (length Locations) (emit_locations E Locations) = Some (flatten gs) /\
      Forall2 (describes E MF (i_val SM)) (i_operands SM) gs.
Proof.
  intros HE. unfold recordStackMapOpers. split.
  - apply bind_halts; [by apply parse_operands_halts|]. intros Locs _. apply bind_halts; [apply addArchLiveVals_halts|done].
  - intros Locs Consts (Locs' & Ep & E2)%outcome_bind_Ret Hf. apply outcome_bind_Ret in E2 as (Cs & _ & [= <- <-]).
    by eapply (operand_groups E address).
Qed.

(** C23: the two binaries' records match.  For two targets and the same stack map
    of the IR, whatever registers, slots and alternate locations each has: both
    have a group for every value, in the same order, and the groups' first
    records match, in the sense of the metadata tool's check, exactly when the
    sizes recorded for the value agree, which are 8 bytes for a constant or an
    object's address and the type's size otherwise.  So only a value of another
    size that is a constant on one target alone makes the check fail. *)
Theorem stack_maps_match E E' address address' MF MF' SM MO MO' Locs Consts Locs' Consts' :
  EmitLaws E address -> EmitLaws E' address' -> same_types E E' ->
  recordStackMapOpers E MF SM MO = Ret (Locs, Consts) -> Forall location_fits Locs ->
  recordStackMapOpers E' MF' SM MO' = Ret (Locs', Consts') -> Forall location_fits Locs' ->
  exists gs gs', decode_section decode_live_value (length Locs) (emit_locations E Locs) = Some (flatten gs) /\
    decode_section decode_live_value (length Locs') (emit_locations E' Locs') = Some (flatten gs') /\
    length gs = length (i_operands SM) /\ length gs' = length (i_operands SM) /\
    forall k V g g', i_operands SM !! k = Some V -> gs !! k = Some g -> gs' !! k = Some g' ->
      location_matches g.1 g'.1 = (operand_size E V (lv_type g.1) =? operand_size E V (lv_type g'.1)) /\
      (wrap32 (getTypeAllocSize E V) = 8 -> location_matches g.1 g'.1 = true) /\
      (lv_type g.1 = lv_type g'.1 -> location_matches g.1 g'.1 = true).
Proof.
  intros HE HE' HT Er Hf Er' Hf'.
  unfold recordStackMapOpers in Er, Er'. apply outcome_bind_Ret in Er as (L1 & Ep & E2), Er' as (L2 & Ep' & E2').
  apply outcome_bind_Ret in E2 as (C1 & _ & [= <- <-]), E2' as (C2 & _ & [= <- <-]).
  destruct (operand_groups E address _ _ _ _ _ _ Ep Hf) as (gs & Ed & Hgs).
  destruct (operand_groups E' address' _ _ _ _ _ _ Ep' Hf') as (gs' & Ed' & Hgs').
  exists gs, gs'. do 2 (split; [done|]). do 2 (split; [symmetry; by eapply Forall2_length|]).
  intros k V g g' HV Hg Hg'. pose proof (described_match _ _ _ _ _ _ _ _ HT (Forall2_lookup_lr _ _ _ _ _ _ Hgs HV Hg) (Forall2_lookup_lr _ _ _ _ _ _ Hgs' HV Hg')) as Hm.
  split; [done|]. rewrite Hm. unfold operand_size. destruct (st_pointers _ _ HT) as [Hp _]. rewrite Hp. split.
  - intros ->. repeat case_match; done.
  - intros ->. apply Z.eqb_refl.
Qed.

(** ** Witnesses *)

(** A stack map of one value, a pointer of 8 bytes: on x86-64 in [rbx] and, as
    the pass has found, in a stack slot; on AArch64 in [x19] alone. *)
Definition sample_map : instr := Instr 12 (StackMap 0) [5%nat].

Definition sample_locations : sm_locations :=
  addSMOpLocation 12 5 (MachineLiveStackSlot 1) (SMLocations ∅ ∅).

Definition sample_emit' : llvm_emit := {|
  isPointerTy _ := false; isSizedElement _ := false; isAllocaInst _ := false; elementAllocSize _ := 0;
  getTypeAllocSize _ := 8; pointer_size := 8; getDwarfRegNum := Z.of_nat; subRegOffset _ := 0; regClassSize _ := 8;
  frameRegister := 29; getObjectOffset i := - 8 * i; getObjectSize _ := 8; isDeadObject _ := false; getFBPOffset := 16;
  GetCPISymbol _ := EmptyString; DirectMemRef := 0; IndirectMemRef := 1; ConstantMem := 2; isImplicit _ := false;
  type_code := type_code sample_emit;
  EmitIntValue v n := le_bytes n v;
  EmitSymbolValue s n := le_bytes n (sample_address s)
|}.

Definition sample_operand : list moperand := [MO_Register (PhysReg 3) false].
Definition sample_operand' : list moperand := [MO_Register (PhysReg 19) false].

Ltac fits_by_computation :=
  repeat (apply Forall_cons; split; [constructor; vm_compute; split; congruence|]); constructor.

Lemma operands_emitted_witness : exists Locations Constants gs,
  recordStackMapOpers sample_emit sample_locations sample_map sample_operand = Ret (Locations, Constants) /\
  decode_section decode_live_value (length Locations) (emit_locations sample_emit Locations) = Some (flatten gs) /\
  Forall2 (describes sample_emit sample_locations 12) [5%nat] gs.
Proof.
  destruct (operands_emitted sample_emit sample_address sample_locations sample_map sample_operand sample_emit_laws) as [_ H].
  destruct (H [Loc Register 8 3 0 false false false 0; Loc Indirect 8 6 8 false false true 0] []) as (gs & Ed & Hgs);
    [vm_compute; reflexivity|fits_by_computation|].
  eexists _, _, gs. split; [vm_compute; reflexivity|]. split; [exact Ed|exact Hgs].
Defined.

Lemma stack_maps_match_witness : exists (gs gs' : groups) g g',
  gs !! 0%nat = Some g /\ gs' !! 0%nat = Some g' /\ location_matches g.1 g'.1 = true.
Proof.
  destruct (stack_maps_match sample_emit sample_emit' sample_address sample_address sample_locations (SMLocations ∅ ∅)
    sample_map sample_operand sample_operand'
    [Loc Register 8 3 0 false false false 0; Loc Indirect 8 6 8 false false true 0] []
    [Loc Register 8 19 0 false false false 0] [] sample_emit_laws)
    as (gs & gs' & _ & _ & Hl & Hl' & Hall);
    [constructor; done|constructor; done|vm_compute; reflexivity|fits_by_computation|vm_compute; reflexivity|fits_by_computation|].
  destruct gs as [|g gs]; [discriminate Hl|]. destruct gs' as [|g' gs']; [discriminate Hl'|].
  exists (g :: gs), (g' :: gs'), g, g'. split; [reflexivity|]. split; [reflexivity|].
  destruct (Hall 0%nat 5%nat g g') as (_ & H8 & _); [reflexivity..|]. apply H8. reflexivity.
Defined.
